(* ===== verification/_CoqProject ===== *)
-Q . S2P
Prelude.v
GoMaps.v
GoSlices.v
GoStrings.v
IntMath.v
GoEncoding.v
Assets.v
LedgerDb.v
ActionsDb.v
LedgerTypes.v
Oplog.v
LedgerState.v
LedgerSession.v
LedgerSystem.v
Deposit.v
AccountBook.v
SafetySlash.v
SlashFinalize.v
Reserve.v
Interest.v
Quorum.v
Gateway.v
Delegation.v
Pendulum.v
Rewards.v
ConsensusVersion.v
Schedule.v
BlsQuorum.v
BlsCircuit.v
Governance.v
SlashRestore.v
SlashBook.v
PoaSeats.v
DelegationMode.v
VersionGov.v
Settlement.v
SettlementApply.v
RcSystem.v
GoJson.v
TssDb.v
DataBin.v
BtcVault.v
VaultScope.v
ContractSession.v
TssKeys.v
TssParties.v
TssTick.v
ExecContext.v
Wasm.v
CallSafety.v
TxIndex.v
Transactions.v
TxPool.v
Batch.v
Proposals.v
BlockApply.v
ElectionBond.v
Election.v
MockLedger.v
Examples.v
GatewayExamples.v
DelegationExamples.v
PendulumExamples.v
CommitteeExamples.v
SettlementExamples.v
SlashExamples.v
ContractExamples.v
VaultExamples.v
BlockExamples.v
ProposalExamples.v
