(* ===== verification/Prelude.v ===== *)
(** A verification of the VSC node ([go-vsc-node]).

    The node replays Hive blocks, executes transactions and contract calls, keeps a
    ledger of balances, pays withdrawals through a multisig wallet on Hive, elects a
    committee every few hours and lets the committee govern the protocol.  The
    committee signs the blocks of the second layer and holds the keys of vaults on
    other chains in shares.  The development models the parts of the node that decide
    who owns what and who decides it, as executable definitions with the names of the
    source, and proves what makes them correct.

    * Conventions

    An [int64] or [uint64] is a [Z] with the wrap-around written out ([+64], [-u64]
    and so on); a [big.Int] is a plain [Z].  A Go panic is the outer [None] of a
    result, an error return [inl] or an inner [None]; a loop that retries for ever
    is [None] too.  In the files on contracts the three endings are the
    constructors of [ExecContext.outcome], and code runs in a state monad over the
    context, the ledger session and the call session.  A database handle is a value passed around, or a class with laws
    where the development has both an interface and an implementation.  Reads that
    the code retries until they succeed are modelled by their final answer; where
    the code goes on after a failed read or write, whether it fails is an argument.
    Maps whose iteration order matters to the code are iterated in the order of
    their keys when the code sorts them, and in an arbitrary order otherwise.
    JSON texts, CBOR, hashes, curve arithmetic and the pairing are parameters; the
    decoding of JSON values into structs is modelled.  The WebAssembly machine and
    the code of contracts are an arbitrary tree of calls of host functions.

    * Files

    Basics: [Prelude] (machine integers, sums, tactics, the hint database), [GoMaps],
    [GoSlices], [GoStrings] (strings, numerals, the account patterns), [GoEncoding]
    (base64, query strings), [GoJson] (decoding into structs), [IntMath] ([lib/intmath]) and [Assets]
    ([modules/common/assets.go]).

    The ledger, [modules/ledger-system] and [modules/db/vsc/ledger]:
    - [LedgerDb], [ActionsDb]: the database interfaces as classes with laws;
      [MockLedger]: the in-memory stores of [lib/test_utils] as instances.
    - [LedgerTypes], [Oplog]: records and the executor of operations ([utils.go]).
    - [LedgerState], [LedgerSession]: balances at execution time, and the session a
      transaction works in, with commit, revert and savepoints.
    - [AccountBook]: the abstract account book that sessions refine.
    - [LedgerSystem], [Deposit], [Interest]: ingestion of oplogs, settlement of
      actions, deposits and interest.
    - [SafetySlash], [SlashFinalize], [Reserve]: slashing of bonds, the pending
      burns and their cursor, cancellation, the reserve and the node bucket.
    - [SlashRestore], [SlashBook]: governance over slashes and the reserve, and the
      states of a slash with the invariant that no value is lost between them.
    - [Delegation], [DelegationMode]: delegated stake, its migration, and the mode
      of a node with its downgrade timelock.

    The gateway, [modules/gateway]: [Quorum] (weights, signers, signatures) and
    [Gateway] (batches of actions, savings).

    The incentive pendulum, [modules/incentive-pendulum] and
    [pendulum_settlement.go]: [Pendulum] (split, collateral, fees), [Rewards]
    (liveness reductions), [Settlement] (bonds, distribution, the record) and
    [SettlementApply] (validation, re-derivation and payment).

    The committee: [ConsensusVersion] (versions, gates, parameters), [BlsQuorum] and
    [BlsCircuit] (weights of signers, aggregates, [lib/dids]), [Schedule] (the
    witness of a slot and its memo, [consensus.go]), [ElectionBond] and [Election] (generation of an election),
    [Governance] (proposals and votes), [PoaSeats] (seats, admission, the hold of
    bonds) and [VersionGov] (versions, suspension, recovery).

    Transactions and contracts:
    - [RcSystem]: resource credits ([modules/rc-system], [UpdateRcMap]).
    - [DataBin], [ContractSession]: the state tree of a contract
      ([lib/datalayer/dir.go]) and the layers above it
      ([modules/contract/session]), with what [MakeOutputs] writes.
    - [ExecContext], [Wasm]: the host functions
      ([modules/contract/execution-context], [modules/wasm/sdk]) and the run of a
      contract with nested calls ([modules/wasm/runtime_ipc]); [CallSafety]: what a
      run can do.
    - [Transactions], [Batch]: the handlers of user operations and their decoding
      ([transactions.go]), and the execution of a slot ([ExecuteBatch]).

    Transactions and blocks of the second layer:
    - [TxIndex], [TxPool]: the index of transactions and nonces
      ([modules/db/vsc/transactions], [nonces]) and the admission of transactions
      ([modules/transaction-pool]).
    - [Proposals]: the verdict on a proposed block and the penalties of its producer
      ([ValidateDetailed], [slashForEvidenceIfPolicyAllows], [rehydrateDoubleSignMap]).
    - [BlockApply]: what a block does to a node ([TxProposeBlock.ExecuteTx], the
      header store, [SaveBlockHeight]).

    Threshold signatures and vaults:
    - [TssDb], [TssKeys]: keys, requests and commitments ([modules/db/vsc/tss]) and
      what is posted about them on the chain ([state_engine.go]).
    - [TssParties], [TssTick]: who takes part in a session and what a block makes the
      manager do, readiness included ([modules/tss]).
    - [BtcVault], [VaultScope]: the formats of a Bitcoin vault ([lib/btcvault]) and
      what its keys may sign, who stays eligible and whose bond stays locked
      ([modules/vaultrotation], [output_scoping.go], [bond_lock.go]).

    [Examples], [GatewayExamples], [DelegationExamples], [PendulumExamples],
    [CommitteeExamples], [SettlementExamples], [SlashExamples], [ContractExamples],
    [VaultExamples], [BlockExamples] and [ProposalExamples] run the definitions on
    concrete inputs, apply the theorems to them and exhibit the defects found.

    * What is shown

    - Ledger: a session refines the account book and keeps it solvent; executing an
      oplog conserves value; what is ingested is what was executed; a crash after any
      number of writes of ingestion, settlement of actions, slashing or migration is
      repaired by processing the block again (the writes of actions, whose errors the
      code drops, are then assumed not to be lost); a slash takes its exact share, its pending row
      is promoted when due and never after a cancellation; the reserve and the node
      bucket are never overdrawn; interest is never overpaid and does not depend on
      the order of the database.
    - Slashes: whatever the order of slashes, promotions, votes and reversals, what a
      slash took is in the reserve, pending, or back with its owner.
    - Transactions: what a batch adds to the ledger was authorised by the signers of
      its successful transactions, keeps the ledger solvent, and a failed
      transaction leaves nothing but its charge.  For every contract, a call takes
      from its caller only what the intents allow, a failed nested call under [Try]
      leaves no trace, and the state tree holds what the successful transactions
      wrote to keys that fit it together, while no read of a value fails.  Used
      credits freeze exactly, and thaw.
    - Blocks: a block is applied only when the scheduled witness posted it and two
      thirds of the committee signed it; under the rule of 0.10 no transaction runs in
      two blocks and no nonce goes back, and a node that applies a block again after a
      crash runs the same transactions; the penalties of an incident never exceed the
      bond, and a restart keeps the first proposal of a slot in mind.  The pool admits
      what its authorities signed.  A schedule served from the memo is the one that
      would be computed, while the Hive block before the round can be read.
    - Threshold signatures: a live key has a public key that a committee agreed on, a
      complete request a signature of its key; sessions have only parties that hold a
      share or are elected, attested in person and are enough; exclusions cannot
      starve a rotation under the rules of 0.12; a vault key signs only what its state
      allows, and whoever holds a share of it keeps its bond locked.
    - Gateway: the wallet needs a supermajority, and a batch balances.
    - Pendulum: the split conserves revenue and swings the right way; reductions
      visit exactly the ticks of an epoch; a settlement conserves the bucket, reads
      bonds as window minima, is accepted by every honest node, is paid in full when
      no read or write fails, and paid once.
    - Committee: generated elections are well formed, deterministic and never lower
      the version; quorums overlap (before 0.8.0 those of distinct keys); seats are permanent, admitted only by two thirds
      of the seats, and the bond of one that left is released after its window;
      the bootstrap survives crashes; the governance state is well formed in every
      reachable state and only the recovery multisig suspends or resumes; delegators
      have the time of the lock to leave, and the lock ends.

    * Bounds

    Loops of the source that are not structural carry fuel: the ticks of an epoch
    (as many as the window is wide, [Rewards.tick_heights]), decimal digits (twenty
    for 64 bits, [SettlementApply.dec_digits]), the least number of parties for a
    threshold (one more than the threshold, [TssParties.min_parties]).  The theorems
    about them show that the fuel is enough.  Nested calls recurse on the levels the source allows.
    Otherwise recursion is on the data.

    * Not modelled

    - Input and output: peer-to-peer, data availability, MongoDB, Hive streaming,
      the GraphQL API, commands and the mapping bots.
    - Libraries outside the sources: the rounds of threshold signatures, the
      WebAssembly runtime, curves, Bitcoin transactions and encodings.
    - The loop of the state engine that dispatches Hive operations to the modelled
      handlers, the creation of contracts, the composition of blocks and the collection
      of their signatures, what follows the start of a session, and the price oracle. *)
From stdpp Require Export base numbers strings sorting fin_maps gmap list.

#[global] Open Scope Z_scope.

(** ** Machine integers

    Go's [int64] and [uint64] are modelled by [Z] together with the
    wrap-around of two's complement arithmetic, written out at every
    operation that can leave the range.  A [big.Int] is a plain [Z]. *)

Definition MaxInt64 : Z := 9223372036854775807.
Definition MinInt64 : Z := -9223372036854775808.
Definition MaxUint64 : Z := 18446744073709551615.
Definition two64 : Z := 18446744073709551616.

Definition i64 (z : Z) : Prop := MinInt64 <= z <= MaxInt64.
Definition u64 (z : Z) : Prop := 0 <= z <= MaxUint64.

(** [big.Int.IsInt64] *)
Definition IsInt64 (z : Z) : bool := (MinInt64 <=? z) && (z <=? MaxInt64).

Definition wrap64 (z : Z) : Z := (z - MinInt64) mod two64 + MinInt64.
Definition wrapu64 (z : Z) : Z := z mod two64.

#[global] Arguments wrap64 : simpl never.
#[global] Arguments wrapu64 : simpl never.

Definition i64_add (a b : Z) : Z := wrap64 (a + b).
Definition i64_sub (a b : Z) : Z := wrap64 (a - b).
Definition i64_mul (a b : Z) : Z := wrap64 (a * b).
Definition i64_neg (a : Z) : Z := wrap64 (- a).
(** Go's [/] and [%] truncate toward zero. *)
Definition i64_quo (a b : Z) : Z := wrap64 (Z.quot a b).
Definition i64_rem (a b : Z) : Z := Z.rem a b.
Definition u64_add (a b : Z) : Z := wrapu64 (a + b).
Definition u64_sub (a b : Z) : Z := wrapu64 (a - b).

Declare Scope go_scope.
Delimit Scope go_scope with go.
Infix "+64" := i64_add (at level 50, left associativity) : go_scope.
Infix "-64" := i64_sub (at level 50, left associativity) : go_scope.
Infix "*64" := i64_mul (at level 40, left associativity) : go_scope.
Notation "-64 x" := (i64_neg x) (at level 35, right associativity) : go_scope.
Infix "+u64" := u64_add (at level 50, left associativity) : go_scope.
Infix "-u64" := u64_sub (at level 50, left associativity) : go_scope.
#[global] Open Scope go_scope.

(** ** Sums *)

Fixpoint zsum (l : list Z) : Z :=
  match l with
  | [] => 0
  | x :: l => x + zsum l
  end.

(** The [int64] accumulator loop [for _, v := range l { acc += v }]. *)
Definition sum64 (l : list Z) : Z := foldl i64_add 0 l.

(** Sum of a measure over the values of a finite map. *)
Definition msum {K A} `{Countable K} (f : A → Z) (m : gmap K A) : Z :=
  map_fold (λ _ x acc, f x + acc) 0 m.

(** [sort.Strings]: any sorting algorithm gives the same list, because the
    order on strings is antisymmetric ([Sorted_unique]). *)
Definition sort_Strings (l : list string) : list string := merge_sort String.le l.

(** Membership test of [slices.Contains] on strings. *)
Definition slices_Contains (l : list string) (x : string) : bool :=
  bool_decide (x ∈ l).

(** The zero value a Go map returns for an absent key. *)
Definition zget {K} `{Countable K} (m : gmap K Z) (k : K) : Z := default 0 (m !! k).

(** ** Automation *)

Create HintDb vsc.
Create Rewrite HintDb vsc.

(** Case analysis on every boolean or option test of the goal or of a
    hypothesis, with the trivial branches discharged. *)
Ltac cases_goal :=
  repeat (case_match; simplify_eq/=; try done).

(** Turn boolean comparisons on [Z] into propositions. *)
Ltac z_of_bool :=
  repeat match goal with
  | H : (_ <? _) = true |- _ => apply Z.ltb_lt in H
  | H : (_ <? _) = false |- _ => apply Z.ltb_ge in H
  | H : (_ <=? _) = true |- _ => apply Z.leb_le in H
  | H : (_ <=? _) = false |- _ => apply Z.leb_gt in H
  | H : (_ =? _) = true |- _ => apply Z.eqb_eq in H
  | H : (_ =? _) = false |- _ => apply Z.eqb_neq in H
  | H : _ && _ = true |- _ => apply andb_true_iff in H as [? ?]
  | H : _ || _ = false |- _ => apply orb_false_iff in H as [? ?]
  | H : negb _ = true |- _ => apply negb_true_iff in H
  | H : negb _ = false |- _ => apply negb_false_iff in H
  | H : bool_decide _ = true |- _ => apply bool_decide_eq_true in H
  | H : bool_decide _ = false |- _ => apply bool_decide_eq_false in H
  end.

(** Unfold the bounds of the machine integers, for [lia]. *)
Ltac unfold_widths :=
  unfold i64, u64, IsInt64, MaxInt64, MinInt64, MaxUint64, two64 in *.

(** ** Machine integers: lemmas *)

Lemma wrap64_range z : i64 (wrap64 z).
Proof. unfold wrap64. unfold_widths. pose proof (Z.mod_pos_bound (z - -9223372036854775808) 18446744073709551616). lia. Qed.

Lemma wrap64_id z : i64 z → wrap64 z = z.
Proof. unfold wrap64. unfold_widths. intros. rewrite Z.mod_small; lia. Qed.

Lemma wrap64_eqm a b : (exists k, a = b + k * two64) → wrap64 a = wrap64 b.
Proof.
  intros [k ->]. unfold wrap64. f_equal.
  replace (b + k * two64 - MinInt64) with (b - MinInt64 + k * two64) by lia.
  apply Z.mod_add. done.
Qed.

Lemma wrap64_mod z : exists k, wrap64 z = z + k * two64.
Proof.
  exists (- ((z - MinInt64) / two64)). unfold wrap64.
  rewrite Z.mod_eq by done. lia.
Qed.

Lemma wrap64_add_l a b : wrap64 (wrap64 a + b) = wrap64 (a + b).
Proof.
  destruct (wrap64_mod a) as [k Hk]. rewrite Hk. apply wrap64_eqm. exists k. lia.
Qed.

Lemma wrap64_add_r a b : wrap64 (a + wrap64 b) = wrap64 (a + b).
Proof. rewrite Z.add_comm, wrap64_add_l. apply (f_equal wrap64). lia. Qed.

Lemma wrap64_opp a : wrap64 (- wrap64 a) = wrap64 (- a).
Proof.
  destruct (wrap64_mod a) as [k Hk]. rewrite Hk. apply wrap64_eqm. exists (- k). lia.
Qed.

Lemma i64_add_exact a b : i64 (a + b) → a +64 b = a + b.
Proof. apply wrap64_id. Qed.

Lemma i64_sub_exact a b : i64 (a - b) → a -64 b = a - b.
Proof. apply wrap64_id. Qed.

Lemma i64_neg_exact x : 0 <= x <= MaxInt64 → -64 x = - x.
Proof. intros. unfold i64_neg. apply wrap64_id. unfold_widths. lia. Qed.

Lemma i64_neg_neg x : i64 x → -64 (-64 x) = x.
Proof. intros. unfold i64_neg. rewrite wrap64_opp, Z.opp_involutive. by apply wrap64_id. Qed.

Lemma IsInt64_spec z : IsInt64 z = true ↔ i64 z.
Proof. unfold_widths. lia. Qed.

Lemma IsInt64_false z : IsInt64 z = false ↔ ¬ i64 z.
Proof. unfold_widths. lia. Qed.

Lemma wrapu64_nonneg z : 0 <= wrapu64 z.
Proof. unfold wrapu64. unfold_widths. apply Z.mod_pos_bound. lia. Qed.

Lemma wrapu64_id z : u64 z → wrapu64 z = z.
Proof. unfold wrapu64. unfold_widths. intros. apply Z.mod_small. lia. Qed.

#[export] Hint Resolve wrap64_range : vsc.
#[export] Hint Rewrite wrap64_add_l wrap64_add_r wrap64_opp : vsc.

(** ** Sums: lemmas *)

Lemma zsum_app l k : zsum (l ++ k) = zsum l + zsum k.
Proof. induction l; simpl; lia. Qed.

Lemma zsum_Permutation l k : l ≡ₚ k → zsum l = zsum k.
Proof. induction 1; simpl in *; lia. Qed.

#[export] Instance zsum_proper : Proper ((≡ₚ) ==> (=)) zsum.
Proof. intros ???. by apply zsum_Permutation. Qed.

Lemma zsum_nonneg l : Forall (λ z, 0 <= z) l → 0 <= zsum l.
Proof. induction 1; simpl; lia. Qed.

Lemma zsum_map_le {A} (f g : A → Z) l :
  (∀ x, x ∈ l → f x <= g x) → zsum (f <$> l) <= zsum (g <$> l).
Proof.
  induction l as [|x l IH]; csimpl; intros Hle; [lia|].
  pose proof (Hle x ltac:(set_solver)). specialize (IH ltac:(set_solver)). lia.
Qed.

Lemma zsum_map_ext {A} (f g : A → Z) l :
  (∀ x, x ∈ l → f x = g x) → zsum (f <$> l) = zsum (g <$> l).
Proof.
  induction l as [|x l IH]; csimpl; intros Heq; [lia|].
  rewrite (Heq x) by set_solver. rewrite IH; [done|set_solver].
Qed.

Lemma zsum_map_mul {A} (f : A → Z) c l : zsum ((λ x, c * f x) <$> l) = c * zsum (f <$> l).
Proof. induction l; csimpl; lia. Qed.

Lemma zsum_map_add {A} (f g : A → Z) l :
  zsum ((λ x, f x + g x) <$> l) = zsum (f <$> l) + zsum (g <$> l).
Proof. induction l; csimpl; lia. Qed.

Lemma zsum_map_0 {A} (f : A → Z) l : (∀ x, x ∈ l → f x = 0) → zsum (f <$> l) = 0.
Proof.
  induction l as [|x l IH]; csimpl; intros H0; [done|].
  rewrite H0, IH by set_solver. lia.
Qed.

Lemma foldl_i64_add l a : foldl i64_add a l = if l is [] then a else wrap64 (a + zsum l).
Proof.
  revert a. induction l as [|x l IH]; intros a; [done|]. cbn [foldl]. rewrite IH.
  destruct l; unfold i64_add.
  - apply (f_equal wrap64). simpl. lia.
  - rewrite wrap64_add_l. apply (f_equal wrap64). simpl. lia.
Qed.

(** The wrapped accumulator loop computes the wrapped mathematical sum. *)
Lemma sum64_wrap l : sum64 l = wrap64 (zsum l).
Proof.
  unfold sum64. rewrite foldl_i64_add. destruct l; [|by rewrite Z.add_0_l].
  symmetry. by apply wrap64_id.
Qed.

(** An accumulator loop whose body adds a weight modulo 2^64. *)
Lemma foldl_i64_weight {A} (w : A → Z) (step : Z → A → Z) a l :
  i64 a → (∀ acc v, i64 acc → step acc v = acc +64 w v) →
  foldl step a l = wrap64 (a + zsum (w <$> l)).
Proof.
  intros Ha Hstep. revert a Ha. induction l as [|x l IH]; intros a Ha; csimpl.
  - rewrite Z.add_0_r. symmetry. by apply wrap64_id.
  - rewrite Hstep, IH by (done || apply wrap64_range). unfold i64_add.
    rewrite wrap64_add_l. apply (f_equal wrap64). lia.
Qed.

Lemma i64_add_0_r a : i64 a → a +64 0 = a.
Proof. intros. unfold i64_add. rewrite Z.add_0_r. by apply wrap64_id. Qed.

Lemma sum64_exact l : i64 (zsum l) → sum64 l = zsum l.
Proof. rewrite sum64_wrap. apply wrap64_id. Qed.

Lemma sum64_Permutation l k : l ≡ₚ k → sum64 l = sum64 k.
Proof. intros H. by rewrite !sum64_wrap, H. Qed.

Section msum.
Context {K A : Type} `{Countable K}.
Implicit Types (f g : A → Z) (m : gmap K A).

Lemma msum_empty f : msum f (∅ : gmap K A) = 0.
Proof. apply map_fold_empty. Qed.

Lemma msum_insert_None f m k x :
  m !! k = None → msum f (<[k:=x]> m) = f x + msum f m.
Proof. intros Hk. unfold msum. rewrite map_fold_insert_L; [done| |done]. intros; lia. Qed.

Lemma msum_delete f m k x : m !! k = Some x → msum f m = f x + msum f (delete k m).
Proof.
  intros Hk. rewrite <- (insert_delete_id m k x Hk) at 1.
  apply msum_insert_None. apply lookup_delete_eq.
Qed.

(** Upserting a row changes the sum by the new value less the old one. *)
Lemma msum_insert f m k x :
  msum f (<[k:=x]> m) = f x + msum f m - from_option f 0 (m !! k).
Proof.
  destruct (m !! k) as [y|] eqn:Hk; simpl.
  - rewrite <- insert_delete_eq, msum_insert_None by apply lookup_delete_eq.
    rewrite (msum_delete f m k y Hk). lia.
  - rewrite msum_insert_None by done. lia.
Qed.

Lemma msum_list f m : msum f m = zsum (f <$> (map_to_list m).*2).
Proof.
  induction m as [|k x m Hk IH] using map_ind.
  - by rewrite msum_empty, map_to_list_empty.
  - rewrite msum_insert_None, map_to_list_insert by done. csimpl. by rewrite IH.
Qed.

Lemma msum_ext f g m : (∀ k x, m !! k = Some x → f x = g x) → msum f m = msum g m.
Proof.
  intros Hext. rewrite !msum_list. apply zsum_map_ext.
  intros x ([k x'] & -> & Hin)%list_elem_of_fmap. simpl.
  apply elem_of_map_to_list in Hin. eauto.
Qed.

Lemma msum_add f g m : msum (λ x, f x + g x) m = msum f m + msum g m.
Proof. rewrite !msum_list. apply zsum_map_add. Qed.

Lemma msum_nonneg f m : (∀ k x, m !! k = Some x → 0 <= f x) → 0 <= msum f m.
Proof.
  intros Hf. rewrite msum_list. apply zsum_nonneg, Forall_forall.
  intros z (x & -> & ([k x'] & -> & Hin)%list_elem_of_fmap)%list_elem_of_fmap.
  apply elem_of_map_to_list in Hin. simpl. eauto.
Qed.
End msum.

(** ** Lists: lemmas *)

Lemma foldl_ext_in {A B} (f g : B → A → B) (l : list A) b :
  (∀ b x, x ∈ l → f b x = g b x) → foldl f b l = foldl g b l.
Proof.
  revert b. induction l as [|x l IH]; intros b Hfg; [done|]. simpl. rewrite Hfg by set_solver. apply IH. set_solver.
Qed.

Lemma filter_none {A} (P : A → Prop) `{!∀ x, Decision (P x)} (l : list A) :
  (∀ x, x ∈ l → ¬ P x) → filter P l = [].
Proof.
  intros Hn. induction l as [|x l IH]; [done|].
  rewrite filter_cons, decide_False by (apply Hn, elem_of_cons; by left).
  apply IH. intros y Hy. apply Hn, elem_of_cons. by right.
Qed.

Lemma filter_all {A} (P : A → Prop) `{!∀ x, Decision (P x)} (l : list A) :
  (∀ x, x ∈ l → P x) → filter P l = l.
Proof.
  intros Ha. induction l as [|x l IH]; [done|].
  rewrite filter_cons, decide_True by (apply Ha, elem_of_cons; by left).
  f_equal. apply IH. intros y Hy. apply Ha, elem_of_cons. by right.
Qed.

Lemma filter_ext_in {A} (P Q : A → Prop) `{!∀ x, Decision (P x), !∀ x, Decision (Q x)}
    (l : list A) :
  (∀ x, x ∈ l → P x ↔ Q x) → filter P l = filter Q l.
Proof.
  intros Hpq. induction l as [|x l IH]; [done|].
  assert (filter P l = filter Q l) as Hl.
  { apply IH. intros y Hy. apply Hpq, elem_of_cons. by right. }
  specialize (Hpq x ltac:(apply elem_of_cons; by left)).
  rewrite !filter_cons, Hl. by do 2 case_decide; try tauto.
Qed.

Lemma Forall2_compose {A B C} (P : A → B → Prop) (Q : B → C → Prop) (R : A → C → Prop) l k m :
  (∀ x y z, P x y → Q y z → R x z) → Forall2 P l k → Forall2 Q k m → Forall2 R l m.
Proof.
  intros HR HP. revert m. induction HP as [|x y l k Hxy _ IH]; intros m HQ; inversion HQ; subst; constructor; eauto.
Qed.

(** ** Sorting: lemmas *)

Lemma sort_Strings_Permutation l : sort_Strings l ≡ₚ l.
Proof. apply merge_sort_Permutation. Qed.

Lemma sort_Strings_Sorted l : Sorted String.le (sort_Strings l).
Proof. apply (Sorted_merge_sort _). Qed.

(** The sorted list depends only on the multiset of its elements. *)
Lemma sort_Strings_perm l k : l ≡ₚ k → sort_Strings l = sort_Strings k.
Proof.
  intros Hp. apply (Sorted_unique String.le); auto using sort_Strings_Sorted.
  by rewrite !sort_Strings_Permutation.
Qed.

Lemma Sorted_filter {A} (R : relation A) `{!Transitive R} (P : A → Prop) `{!∀ x, Decision (P x)} (l : list A) :
  Sorted R l → Sorted R (filter P l).
Proof.
  intros Hl%(Sorted_StronglySorted R). apply StronglySorted_Sorted.
  induction Hl as [|x l Hl IH Hx]; [constructor|]. rewrite filter_cons. case_decide; [|done].
  constructor; [done|]. apply Forall_forall. intros y [_ Hy]%list_elem_of_filter. by apply (proj1 (Forall_forall _ _) Hx).
Qed.

Lemma slices_Contains_spec l x : slices_Contains l x = true ↔ x ∈ l.
Proof. apply bool_decide_eq_true. Qed.

#[global] Opaque wrap64 wrapu64.
