(* ===== verification/GoMaps.v ===== *)
(** Go maps with string keys, as finite maps: accumulation in a map of numbers,
    the sorted list of the keys, and the order in which a loop visits the
    entries.

    A missing key of a [map[string]int64] reads as zero ([zget]); a nil map and
    an empty one read the same, and no code modelled here tells them apart by
    anything but their length. *)
From S2P Require Import Prelude.

(** [m[k] += v] *)
Definition map_add (m : gmap string Z) (kv : string * Z) : gmap string Z :=
  <[kv.1 := zget m kv.1 +64 kv.2]> m.

(** The keys of a map, sorted: whatever order the range visits them in, the sort
    erases it. *)
Definition sorted_keys {A} (m : gmap string A) : list string := sort_Strings (map_to_list m).*1.

(** A loop over a map visits every entry once, in some order. *)
Definition range_ok {A} (range : gmap string A → list (string * A)) : Prop := ∀ m, range m ≡ₚ map_to_list m.

(** ** Lemmas: accumulating in a map *)

Lemma zget_map_add m kv k : zget (map_add m kv) k = if String.eqb kv.1 k then zget m k +64 kv.2 else zget m k.
Proof.
  unfold map_add, zget at 1. destruct (String.eqb_spec kv.1 k) as [->|Hne].
  - by rewrite lookup_insert_eq.
  - by rewrite lookup_insert_ne.
Qed.

Lemma zget_insert (m : gmap string Z) k v k' : zget (<[k := v]> m) k' = if String.eqb k k' then v else zget m k'.
Proof.
  unfold zget. destruct (String.eqb_spec k k') as [->|Hne]; [by rewrite lookup_insert_eq|by rewrite lookup_insert_ne].
Qed.

(** Summing pairs selected from a list into a map. *)
Lemma zget_accumulate {A} (f : A → option (string * Z)) (l : list A) m k :
  i64 (zget m k) →
  zget (foldl (λ m x, match f x with Some kv => map_add m kv | None => m end) m l) k
  = wrap64 (zget m k + zsum ((λ x, match f x with Some kv => if String.eqb kv.1 k then kv.2 else 0 | None => 0 end) <$> l)).
Proof.
  revert m. induction l as [|x l IH]; intros m Hm; [by rewrite Z.add_0_r, wrap64_id|]. csimpl.
  destruct (f x) as [kv|]; [|by rewrite IH, Z.add_0_l]. rewrite IH, zget_map_add.
  - destruct (String.eqb kv.1 k); [|by rewrite Z.add_0_l]. unfold i64_add. rewrite wrap64_add_l.
    apply (f_equal wrap64). lia.
  - rewrite zget_map_add. destruct (String.eqb kv.1 k); [apply wrap64_range|done].
Qed.

Lemma zget_empty k : zget (∅ : gmap string Z) k = 0.
Proof. unfold zget. by rewrite lookup_empty. Qed.

Lemma accumulate_dom {A} (f : A → option (string * Z)) (l : list A) m k :
  is_Some (foldl (λ m x, match f x with Some kv => map_add m kv | None => m end) m l !! k)
  ↔ is_Some (m !! k) ∨ k ∈ (omap f l).*1.
Proof.
  revert m. induction l as [|x l IH]; intros m; csimpl; [set_solver|]. rewrite IH.
  destruct (f x) as [kv|]; [|done]. unfold map_add. rewrite lookup_insert_is_Some', fmap_cons, elem_of_cons. naive_solver.
Qed.

(** ** Lemmas: sorted keys *)

Lemma sorted_keys_elem {A} (m : gmap string A) k : k ∈ sorted_keys m ↔ is_Some (m !! k).
Proof.
  unfold sorted_keys. rewrite sort_Strings_Permutation, list_elem_of_fmap. split.
  - intros ([k' v] & -> & Hv%elem_of_map_to_list). by eexists.
  - intros [v Hv]. exists (k, v). by rewrite elem_of_map_to_list.
Qed.


Lemma sorted_keys_NoDup {A} (m : gmap string A) : NoDup (sorted_keys m).
Proof. unfold sorted_keys. rewrite sort_Strings_Permutation. apply NoDup_fst_map_to_list. Qed.

Lemma sorted_keys_Sorted {A} (m : gmap string A) : Sorted String.le (sorted_keys m).
Proof. apply sort_Strings_Sorted. Qed.

(** A sum over the keys is the sum over the entries. *)
Lemma zsum_sorted_keys (f : Z → Z) (m : gmap string Z) :
  zsum ((λ k, f (zget m k)) <$> sorted_keys m) = msum f m.
Proof.
  unfold sorted_keys. rewrite msum_list, (zsum_Permutation _ _ (fmap_Permutation _ _ _ (sort_Strings_Permutation _))).
  rewrite <- !list_fmap_compose. f_equal. apply list_fmap_ext. intros i [k v] Hi. simpl. f_equal.
  apply list_elem_of_lookup_2, elem_of_map_to_list in Hi. unfold zget. by rewrite Hi.
Qed.

(** Adding to an entry changes the total by the amount added, up to wrapping. *)
Lemma msum_map_add m kv :
  i64 (zget m kv.1 + kv.2) → msum (λ v, v) (map_add m kv) = msum (λ v, v) m + kv.2.
Proof.
  intros Hi. unfold map_add. rewrite msum_insert, i64_add_exact by done. unfold zget.
  destruct (m !! kv.1); simpl; lia.
Qed.

(** ** Maps of amounts *)

(** No negative entry, and the total fits an [int64]. *)
Definition amounts_ok (m : gmap string Z) : Prop :=
  (∀ k v, m !! k = Some v → 0 <= v) ∧ msum (λ v, v) m <= MaxInt64.

Lemma amounts_ok_empty : amounts_ok ∅.
Proof. split; [intros k v Hk; by rewrite lookup_empty in Hk|by rewrite msum_empty]. Qed.

Lemma zget_bounds m k : amounts_ok m → 0 <= zget m k <= msum (λ v, v) m.
Proof.
  intros [Hnn _]. unfold zget. destruct (m !! k) as [v|] eqn:Hk; simpl.
  - rewrite (msum_delete _ m k v Hk). split; [by eapply Hnn|].
    assert (0 <= msum (λ v, v) (delete k m)); [|lia]. apply msum_nonneg. intros k' v' [_ Hv]%lookup_delete_Some. eauto.
  - split; [done|]. by apply msum_nonneg.
Qed.

Lemma map_add_ok m k x :
  amounts_ok m → 0 <= x → msum (λ v, v) m + x <= MaxInt64 →
  amounts_ok (map_add m (k, x)) ∧ msum (λ v, v) (map_add m (k, x)) = msum (λ v, v) m + x.
Proof.
  intros Hok Hx Hle. pose proof (zget_bounds m k Hok) as Hz.
  assert (i64 (zget m k + x)) as Hi by (unfold i64, MinInt64; lia).
  pose proof (msum_map_add m (k, x) Hi) as Hs. cbn [snd] in Hs. split; [|done]. split; [|lia].
  intros k' v. unfold map_add. cbn [fst snd]. rewrite i64_add_exact by done.
  intros [[_ <-]|[_ Hv]]%lookup_insert_Some; [lia|]. by eapply (proj1 Hok).
Qed.
