(* ===== verification/GoSlices.v ===== *)
(** Slices of the Go standard library: [slices.SortFunc], [slices.DeleteFunc],
    [strings.Compare].

    A sort is by a comparison function that returns a negative number, zero or a
    positive one.  All comparisons of the modelled code compare two numbers and
    an account, in this order; on elements with different keys the sorted slice
    depends only on the multiset of the elements. *)
From S2P Require Import Prelude.

Definition strings_Compare (a b : string) : Z :=
  if String.eqb a b then 0 else if bool_decide (String.le a b) then -1 else 1.

Definition cmp_le {A} (cmp : A → A → Z) (a b : A) : Prop := cmp a b <= 0.

#[export] Instance cmp_le_dec {A} (cmp : A → A → Z) : RelDecision (cmp_le cmp).
Proof. intros a b. unfold cmp_le. apply _. Defined.

Definition SortFunc {A} (cmp : A → A → Z) (l : list A) : list A := merge_sort (cmp_le cmp) l.

Definition DeleteFunc {A} (del : A → bool) (l : list A) : list A := filter (λ x, del x = false) l.

(** ** Keys *)

(** The larger number first, twice, then the smaller account. *)
Definition key := (Z * Z * string)%type.

Definition key_cmp (a b : key) : Z :=
  if negb (a.1.1 =? b.1.1) then (if b.1.1 <? a.1.1 then -1 else 1)
  else if negb (a.1.2 =? b.1.2) then (if b.1.2 <? a.1.2 then -1 else 1)
  else strings_Compare a.2 b.2.

Definition key_le (a b : key) : Prop :=
  b.1.1 < a.1.1 ∨ a.1.1 = b.1.1 ∧ (b.1.2 < a.1.2 ∨ a.1.2 = b.1.2 ∧ String.le a.2 b.2).

(** ** Lemmas *)

Lemma strings_Compare_le a b : strings_Compare a b <= 0 ↔ String.le a b.
Proof.
  unfold strings_Compare. destruct (String.eqb_spec a b) as [->|Hne]; [split; [done|lia]|].
  case_bool_decide; split; (done || lia).
Qed.

Lemma key_cmp_le a b : key_cmp a b <= 0 ↔ key_le a b.
Proof.
  unfold key_cmp, key_le. pose proof (strings_Compare_le a.2 b.2) as Hs.
  destruct (Z.eqb_spec a.1.1 b.1.1); cbn [negb]; [|destruct (Z.ltb_spec b.1.1 a.1.1); split; lia].
  destruct (Z.eqb_spec a.1.2 b.1.2); cbn [negb]; [|destruct (Z.ltb_spec b.1.2 a.1.2); split; lia].
  rewrite Hs. split; [intros; right; split; [done|right; done]|]. intros [?|[_ [?|[_ ?]]]]; [lia|lia|done].
Qed.

#[export] Instance key_le_trans : Transitive key_le.
Proof.
  intros a b c H1 H2. unfold key_le in *. destruct H1 as [?|[? [?|[? Hs1]]]], H2 as [?|[? [?|[? Hs2]]]]; try lia.
  right. split; [lia|]. right. split; [lia|]. by etrans.
Qed.

#[export] Instance key_le_total : Total key_le.
Proof.
  intros a b. unfold key_le. destruct (Z.lt_trichotomy a.1.1 b.1.1) as [?|[?|?]]; [lia| |lia].
  destruct (Z.lt_trichotomy a.1.2 b.1.2) as [?|[?|?]]; [lia| |lia]. destruct (total String.le a.2 b.2); [left|right]; auto.
Qed.

Lemma key_le_antisymm a b : key_le a b → key_le b a → a = b.
Proof.
  destruct a as [[a1 a2] a3], b as [[b1 b2] b3]. unfold key_le. simpl.
  intros [?|[? [?|[? H1]]]] [?|[? [?|[? H2]]]]; try (exfalso; lia). subst. f_equal. by apply (anti_symm String.le).
Qed.

Lemma key_cmp_eq {A} (cmp : A → A → Z) (k : A → key) :
  (∀ a b, cmp a b = key_cmp (k a) (k b)) → ∀ a b, cmp a b <= 0 ↔ key_le (k a) (k b).
Proof. intros Hcmp a b. rewrite Hcmp. apply key_cmp_le. Qed.

Section by_key.
Context {A : Type} (cmp : A → A → Z) (k : A → key) (Hcmp : ∀ a b, cmp a b <= 0 ↔ key_le (k a) (k b)).

Lemma cmp_le_key a b : cmp_le cmp a b ↔ key_le (k a) (k b).
Proof. apply Hcmp. Qed.

#[local] Instance cmp_le_trans : Transitive (cmp_le cmp).
Proof. intros a b c. rewrite !cmp_le_key. apply key_le_trans. Qed.

#[local] Instance cmp_le_total : Total (cmp_le cmp).
Proof. intros a b. rewrite !cmp_le_key. apply key_le_total. Qed.

Lemma SortFunc_Permutation l : SortFunc cmp l ≡ₚ l.
Proof. apply merge_sort_Permutation. Qed.

Lemma SortFunc_Sorted l : StronglySorted (cmp_le cmp) (SortFunc cmp l).
Proof. apply Sorted_StronglySorted; [apply _|]. apply (Sorted_merge_sort _). Qed.

(** The sorted slice depends only on the multiset of its elements. *)
Lemma SortFunc_perm l l' : NoDup (k <$> l) → l ≡ₚ l' → SortFunc cmp l = SortFunc cmp l'.
Proof.
  intros Hnd Hp. apply (Sorted_unique_strong (cmp_le cmp)).
  - intros x y Hx Hy Hxy Hyx. rewrite SortFunc_Permutation in Hx. rewrite SortFunc_Permutation, <- Hp in Hy.
    rewrite cmp_le_key in Hxy, Hyx. pose proof (key_le_antisymm _ _ Hxy Hyx) as Heq.
    apply list_elem_of_lookup in Hx as [i Hi], Hy as [j Hj].
    assert (i = j) as <- by (eapply (NoDup_lookup _ i j (k x) Hnd); rewrite list_lookup_fmap, ?Hi, ?Hj; simpl; congruence).
    congruence.
  - apply StronglySorted_Sorted, SortFunc_Sorted.
  - apply StronglySorted_Sorted, SortFunc_Sorted.
  - by rewrite !SortFunc_Permutation.
Qed.

(** The first elements come before the others. *)
Lemma SortFunc_take n l x y :
  x ∈ take n (SortFunc cmp l) → y ∈ drop n (SortFunc cmp l) → key_le (k x) (k y).
Proof.
  intros Hx Hy. apply cmp_le_key. pose proof (SortFunc_Sorted l) as Hs. rewrite <- (take_drop n (SortFunc cmp l)) in Hs.
  apply StronglySorted_app in Hs as (Hs & _ & _). by apply Hs.
Qed.
End by_key.

Lemma elem_of_DeleteFunc {A} (del : A → bool) l x : x ∈ DeleteFunc del l ↔ x ∈ l ∧ del x = false.
Proof. unfold DeleteFunc. rewrite list_elem_of_filter. naive_solver. Qed.

Lemma DeleteFunc_perm {A} (del : A → bool) l l' : l ≡ₚ l' → DeleteFunc del l ≡ₚ DeleteFunc del l'.
Proof. intros Hp. unfold DeleteFunc. by rewrite Hp. Qed.

Lemma DeleteFunc_sublist {A} (del : A → bool) l : DeleteFunc del l `sublist_of` l.
Proof. apply sublist_filter. Qed.

Lemma DeleteFunc_split {A} (p q : A → bool) l :
  (length (DeleteFunc (λ x, negb (p x) && negb (q x)) l) =
   length (filter (λ x, p x = true) l) + length (filter (λ x, negb (p x) = true ∧ q x = true) l))%nat.
Proof.
  unfold DeleteFunc. induction l as [|x l IH]; [done|]. rewrite !filter_cons. destruct (p x), (q x); cbn [negb andb];
    repeat first [rewrite decide_True by done | rewrite decide_False by naive_solver]; cbn [length]; lia.
Qed.
