(* ===== verification/GoStrings.v ===== *)
(** Go's string library, as far as the node uses it.

    A Go string is a byte sequence, here a [string] whose characters are the
    bytes.  The file models the functions of [strings], [strconv] and
    [regexp] the ledger calls: prefixes and suffixes, [TrimSpace],
    [Split]/[SplitN], [LastIndex], [FormatUint]/[ParseUint]/[Itoa], and the two
    account patterns of [modules/ledger-system/utils.go], whose matching is
    the derivative matcher of a small regular-expression type proved equal to
    the language semantics.  The lemmas at the end are the facts about
    separators the key and identifier schemes of the ledger rest on. *)
From Stdlib Require Import Ascii DecimalString DecimalN.
From S2P Require Import Prelude.

(** ** Slicing *)

Fixpoint sdrop (n : nat) (s : string) : string :=
  match n, s with
  | S n, String _ s => sdrop n s
  | _, _ => s
  end.

Definition colon : ascii := ":"%char.
Definition hash : ascii := "#"%char.

Fixpoint stake (n : nat) (s : string) : string :=
  match n, s with
  | S n, String c s => String c (stake n s)
  | _, _ => ""
  end.

Definition slen (s : string) : nat := String.length s.

(** The string made of the given bytes. *)
Definition bytes (l : list N) : string :=
  foldr (λ n s, String (ascii_of_N n) s) "" l.

(** ** Package strings *)

Fixpoint HasPrefix (s p : string) {struct p} : bool :=
  match p, s with
  | "", _ => true
  | String c p, String d s => Ascii.eqb c d && HasPrefix s p
  | String _ _, "" => false
  end.

Definition TrimPrefix (s p : string) : string :=
  if HasPrefix s p then sdrop (slen p) s else s.

(** [strings.CutPrefix] *)
Definition CutPrefix (s p : string) : string * bool :=
  if HasPrefix s p then (sdrop (slen p) s, true) else (s, false).

Definition HasSuffix (s x : string) : bool :=
  (slen x <=? slen s)%nat && String.eqb (sdrop (slen s - slen x) s) x.

Definition TrimSuffix (s x : string) : string :=
  if HasSuffix s x then stake (slen s - slen x) s else s.

(** [strings.Cut]: the text before and after the first occurrence of [sep]. *)
Fixpoint Cut (s sep : string) : option (string * string) :=
  if HasPrefix s sep then Some ("", sdrop (slen sep) s)
  else match s with
       | "" => None
       | String c s' => prod_map (String c) id <$> Cut s' sep
       end.

Definition Contains (s sub : string) : bool := bool_decide (is_Some (Cut s sub)).

(** [strings.SplitN(s, sep, 2)] *)
Definition SplitN2 (s sep : string) : list string :=
  match Cut s sep with
  | Some (a, b) => [a; b]
  | None => [s]
  end.

(** [strings.Split(s, c)] for a one-byte separator. *)
Fixpoint Split (s : string) (c : ascii) : list string :=
  match s with
  | "" => [""]
  | String a s' =>
      if Ascii.eqb a c then "" :: Split s' c
      else match Split s' c with
           | [] => [String a ""]
           | x :: xs => String a x :: xs
           end
  end.

(** The text before and after the last occurrence of the byte [c], or [None]
    ([strings.LastIndex] followed by the two slices). *)
Fixpoint CutLast (s : string) (c : ascii) : option (string * string) :=
  match s with
  | "" => None
  | String a s' =>
      match CutLast s' c with
      | Some (x, y) => Some (String a x, y)
      | None => if Ascii.eqb a c then Some ("", s') else None
      end
  end.

(** The UTF-8 encodings of the code points of [unicode.IsSpace]. *)
Definition space_encodings : list string :=
  bytes <$> ((λ n, [n]) <$> [9; 10; 11; 12; 13; 32]%N) ++
    [[194; 133]; [194; 160]; [225; 154; 128]; [226; 128; 168]; [226; 128; 169];
     [226; 128; 175]; [226; 129; 159]; [227; 128; 128]]%N ++
    ((λ n, [226; 128; n]%N) <$> [128; 129; 130; 131; 132; 133; 134; 135; 136; 137; 138]%N).

Fixpoint trim_left (fuel : nat) (s : string) : string :=
  match fuel with
  | O => s
  | S fuel =>
      match list_find (λ w, HasPrefix s w = true) space_encodings with
      | Some (_, w) => trim_left fuel (TrimPrefix s w)
      | None => s
      end
  end.

Fixpoint trim_right (fuel : nat) (s : string) : string :=
  match fuel with
  | O => s
  | S fuel =>
      match list_find (λ w, HasSuffix s w = true) space_encodings with
      | Some (_, w) => trim_right fuel (TrimSuffix s w)
      | None => s
      end
  end.

(** [strings.TrimSpace]; every round removes at least one byte, so the length
    of the string is enough fuel. *)
Definition TrimSpace (s : string) : string :=
  let t := trim_left (slen s) s in trim_right (slen t) t.

(** No space at the start, respectively at the end. *)
Definition no_lead (s : string) : Prop := ∀ w, w ∈ space_encodings → HasPrefix s w = false.
Definition no_trail (s : string) : Prop := ∀ w, w ∈ space_encodings → HasSuffix s w = false.

(** ** Package strconv *)

(** [strconv.FormatUint(n, 10)] *)
Definition FormatUint (n : Z) : string :=
  NilZero.string_of_uint (N.to_uint (Z.to_N n)).

(** [strconv.Itoa] *)
Definition Itoa (n : Z) : string :=
  if n <? 0 then "-" +:+ FormatUint (- n) else FormatUint n.

(** [strconv.ParseUint(s, 10, 64)], [None] for an error. *)
Definition ParseUint (s : string) : option Z :=
  match NilZero.uint_of_string s with
  | Some d => let n := Z.of_N (N.of_uint d) in if n <=? MaxUint64 then Some n else None
  | None => None
  end.

(** ** Package regexp

    Patterns anchored at both ends, on ASCII classes. *)
Inductive re :=
| Eps
| Cls (f : ascii → bool)
| Seq (a b : re)
| Alt (a b : re)
| Star (a : re)
| Void.

Inductive re_match : re → string → Prop :=
| MEps : re_match Eps ""
| MCls f c : f c = true → re_match (Cls f) (String c "")
| MSeq a b s t : re_match a s → re_match b t → re_match (Seq a b) (s +:+ t)
| MAltL a b s : re_match a s → re_match (Alt a b) s
| MAltR a b s : re_match b s → re_match (Alt a b) s
| MStar0 a : re_match (Star a) ""
| MStarS a s t : re_match a s → re_match (Star a) t → re_match (Star a) (s +:+ t).

Fixpoint nullable (r : re) : bool :=
  match r with
  | Eps | Star _ => true
  | Cls _ | Void => false
  | Seq a b => nullable a && nullable b
  | Alt a b => nullable a || nullable b
  end.

Fixpoint deriv (r : re) (c : ascii) : re :=
  match r with
  | Eps | Void => Void
  | Cls f => if f c then Eps else Void
  | Seq a b =>
      if nullable a then Alt (Seq (deriv a c) b) (deriv b c) else Seq (deriv a c) b
  | Alt a b => Alt (deriv a c) (deriv b c)
  | Star a => Seq (deriv a c) (Star a)
  end.

(** [regexp.MatchString] *)
Fixpoint MatchString (r : re) (s : string) : bool :=
  match s with
  | "" => nullable r
  | String c s => MatchString (deriv r c) s
  end.

Definition in_range (lo hi c : ascii) : bool :=
  (N_of_ascii lo <=? N_of_ascii c)%N && (N_of_ascii c <=? N_of_ascii hi)%N.

Definition is_az (c : ascii) : bool := in_range "a" "z" c.
Definition is_09 (c : ascii) : bool := in_range "0" "9" c.
Definition is_hex (c : ascii) : bool := in_range "a" "f" c || in_range "A" "F" c || is_09 c.

Definition lit (c : ascii) : re := Cls (Ascii.eqb c).

Fixpoint lits (s : string) : re :=
  match s with
  | "" => Eps
  | String c s => Seq (lit c) (lits s)
  end.

Fixpoint rep (n : nat) (r : re) : re :=
  match n with
  | O => Eps
  | S n => Seq r (rep n r)
  end.

(** One label of a Hive account name. *)
Definition hive_label : re :=
  Seq (Cls is_az)
    (Seq (Star (Cls (λ c, is_09 c || is_az c || Ascii.eqb c "-")))
         (Cls (λ c, is_09 c || is_az c))).

Definition hiveRegex : re := Seq hive_label (Star (Seq (lit ".") hive_label)).
Definition ethRegex : re := Seq (lits "0x") (rep 40 (Cls is_hex)).

(** The bytes that can occur in a Hive account name. *)
Definition hive_char (c : ascii) : bool := is_09 c || is_az c || Ascii.eqb c "-" || Ascii.eqb c ".".

(** Every byte of [s] satisfies [f]. *)
Fixpoint allc (f : ascii → bool) (s : string) : bool :=
  match s with
  | "" => true
  | String a s => f a && allc f s
  end.

(** [strings.ToLower] on ASCII text. *)
Definition lower_char (c : ascii) : ascii :=
  if in_range "A" "Z" c then ascii_of_nat (nat_of_ascii c + 32) else c.

Fixpoint ToLower (s : string) : string :=
  match s with
  | "" => ""
  | String c s => String (lower_char c) (ToLower s)
  end.

(** No byte of [s] is [c]. *)
Fixpoint nochar (c : ascii) (s : string) : bool :=
  match s with
  | "" => true
  | String a s => negb (Ascii.eqb a c) && nochar c s
  end.

(** An id suffix: a hash sign followed by none. *)
Definition hash_suffix (x : string) : bool :=
  match x with
  | EmptyString => false
  | String c x => Ascii.eqb c hash && nochar hash x
  end.

(** ** Lemmas: slicing, prefixes and suffixes *)

Lemma sapp_assoc a b c : (a +:+ b) +:+ c = a +:+ b +:+ c.
Proof. induction a as [|x a IH]; [done|]. simpl. change (String x ((a +:+ b) +:+ c) = String x (a +:+ b +:+ c)). by rewrite IH. Qed.

Lemma sapp_cons x a b : String x a +:+ b = String x (a +:+ b).
Proof. done. Qed.

Lemma sapp_nil_l a : "" +:+ a = a.
Proof. done. Qed.

Lemma sapp_nil_r a : a +:+ "" = a.
Proof. induction a as [|x a IH]; [done|]. by rewrite sapp_cons, IH. Qed.

Lemma slen_app a b : slen (a +:+ b) = (slen a + slen b)%nat.
Proof. induction a as [|x a IH]; [done|]. rewrite sapp_cons. unfold slen in *. simpl. by rewrite IH. Qed.

Lemma sdrop_app a b : sdrop (slen a) (a +:+ b) = b.
Proof. induction a; [by destruct b|done]. Qed.

Lemma stake_app a b : stake (slen a) (a +:+ b) = a.
Proof. induction a as [|x a IH]; [by destruct b|]. unfold slen in *. simpl in *. by rewrite IH. Qed.

Lemma stake_sdrop n s : stake n s +:+ sdrop n s = s.
Proof. revert s. induction n; intros [|x s]; try done. simpl. by rewrite sapp_cons, IHn. Qed.

Lemma sapp_inj_r a b c : a +:+ c = b +:+ c → a = b.
Proof.
  intros H. assert (slen a = slen b) as Hl.
  { apply (f_equal slen) in H. rewrite !slen_app in H. lia. }
  by rewrite <- (stake_app a c), H, Hl, stake_app.
Qed.

Lemma sapp_inj_l a b c : a +:+ b = a +:+ c → b = c.
Proof. intros Heq. rewrite <- (sdrop_app a b), <- (sdrop_app a c). by rewrite Heq. Qed.

Lemma sapp_ne_r a b : b ≠ "" → a +:+ b ≠ "".
Proof. by destruct a. Qed.

Lemma HasPrefix_spec s p : HasPrefix s p = true ↔ ∃ t, s = p +:+ t.
Proof.
  revert s. induction p as [|c p IH]; intros s; simpl; [naive_solver|].
  destruct s as [|d s]; [split; [done|intros [t Ht]; discriminate]|].
  rewrite andb_true_iff, Ascii.eqb_eq, IH. setoid_rewrite sapp_cons. split.
  - intros [-> [t ->]]. eauto.
  - intros [t Ht]. simplify_eq. eauto.
Qed.

Lemma HasPrefix_app p t : HasPrefix (p +:+ t) p = true.
Proof. apply HasPrefix_spec. eauto. Qed.

Lemma TrimPrefix_app p t : TrimPrefix (p +:+ t) p = t.
Proof. unfold TrimPrefix. by rewrite HasPrefix_app, sdrop_app. Qed.

Lemma HasSuffix_spec s x : HasSuffix s x = true ↔ ∃ t, s = t +:+ x.
Proof.
  unfold HasSuffix. rewrite andb_true_iff, Nat.leb_le, String.eqb_eq. split.
  - intros [Hle Heq]. exists (stake (slen s - slen x) s). by rewrite <- Heq at 2; rewrite stake_sdrop.
  - intros [t ->]. rewrite slen_app. split; [lia|].
    replace (slen t + slen x - slen x)%nat with (slen t) by lia. apply sdrop_app.
Qed.

Lemma TrimSuffix_app t x : TrimSuffix (t +:+ x) x = t.
Proof.
  unfold TrimSuffix. rewrite (proj2 (HasSuffix_spec _ _)) by eauto. rewrite slen_app.
  replace (slen t + slen x - slen x)%nat with (slen t) by lia. apply stake_app.
Qed.

(** ** Lemmas: separators *)

Lemma nochar_app c a b : nochar c (a +:+ b) = nochar c a && nochar c b.
Proof. induction a as [|x a IH]; [done|]. rewrite sapp_cons. simpl. by rewrite IH, andb_assoc. Qed.

(** A text with a separator absent from both left parts splits uniquely. *)
Lemma sep_inj_left c a1 b1 a2 b2 :
  nochar c a1 = true → nochar c a2 = true →
  a1 +:+ String c b1 = a2 +:+ String c b2 → a1 = a2 ∧ b1 = b2.
Proof.
  revert a2. induction a1 as [|x a1 IH]; intros [|y a2] H1 H2 Heq; rewrite ?sapp_cons, ?sapp_nil_l in *;
    simpl in *; simplify_eq/=; z_of_bool; try done.
  - by rewrite Ascii.eqb_refl in *.
  - by rewrite Ascii.eqb_refl in *.
  - by destruct (IH a2) as [-> ->].
Qed.

Lemma CutLast_None c s : CutLast s c = None ↔ nochar c s = true.
Proof.
  induction s as [|x s IH]; [done|]. simpl. destruct (CutLast s c) as [[u v]|].
  - split; [done|]. intros [_ Hs]%andb_true_iff. by apply IH in Hs.
  - destruct (Ascii.eqb x c); simpl; [done|]. tauto.
Qed.

Lemma CutLast_app c a b : nochar c b = true → CutLast (a +:+ String c b) c = Some (a, b).
Proof.
  intros Hb. apply CutLast_None in Hb. induction a as [|x a IH]; [|rewrite sapp_cons]; simpl.
  - by rewrite Hb, Ascii.eqb_refl.
  - by rewrite IH.
Qed.

(** ... and so does one with a separator absent from both right parts. *)
Lemma sep_inj_right c a1 b1 a2 b2 :
  nochar c b1 = true → nochar c b2 = true →
  a1 +:+ String c b1 = a2 +:+ String c b2 → a1 = a2 ∧ b1 = b2.
Proof.
  intros H1 H2 Heq. apply (f_equal (λ s, CutLast s c)) in Heq.
  rewrite !CutLast_app in Heq by done. by simplify_eq.
Qed.

(** An id and a suffix are recovered from their concatenation, whatever the id
    contains. *)
Lemma hash_suffix_inj a b x y :
  hash_suffix x = true → hash_suffix y = true → a +:+ x = b +:+ y → a = b ∧ x = y.
Proof.
  destruct x as [|c x], y as [|d y]; try done. simpl.
  intros [->%Ascii.eqb_eq Hx]%andb_true_iff [->%Ascii.eqb_eq Hy]%andb_true_iff Heq.
  by apply sep_inj_right in Heq as [-> ->].
Qed.

Lemma Cut_Some s sep a b : Cut s sep = Some (a, b) → s = a +:+ sep +:+ b.
Proof.
  revert a. induction s as [|c s IH]; intros a; simpl.
  - destruct (HasPrefix "" sep) eqn:Hp; [|done]. intros; simplify_eq.
    apply HasPrefix_spec in Hp as [t Ht]. rewrite sapp_nil_l. rewrite Ht. by rewrite sdrop_app.
  - destruct (HasPrefix (String c s) sep) eqn:Hp.
    + intros; simplify_eq. apply HasPrefix_spec in Hp as [t Ht]. rewrite sapp_nil_l, Ht.
      by rewrite sdrop_app.
    + destruct (Cut s sep) as [[u v]|] eqn:Hc; simpl; [|done]. intros; simplify_eq/=.
      rewrite sapp_cons. by rewrite <- (IH u).
Qed.

Lemma Contains_app a sep b : Contains (a +:+ sep +:+ b) sep = true.
Proof.
  apply bool_decide_eq_true_2. induction a as [|c a IH].
  - rewrite sapp_nil_l. pose proof (HasPrefix_app sep b) as Hp. destruct (sep +:+ b); simpl; by rewrite Hp.
  - rewrite sapp_cons. cbn [Cut]. destruct (HasPrefix _ _); [by eexists|].
    destruct IH as [[u v] ->]. by eexists.
Qed.

(** If the separator [c ++ c] does not begin inside [a], then cutting
    [a ++ cc ++ b] recovers the two sides. *)
Lemma Cut_double c a b :
  Cut (a +:+ String c "") (String c (String c "")) = None →
  Cut (a +:+ String c (String c b)) (String c (String c "")) = Some (a, b).
Proof.
  induction a as [|x a IH]; intros Hn.
  - rewrite !sapp_nil_l in *. simpl. by rewrite Ascii.eqb_refl.
  - rewrite !sapp_cons in *. cbn [Cut] in *.
    destruct (HasPrefix (String x (a +:+ String c "")) (String c (String c ""))) eqn:Hp; [done|].
    destruct (Cut (a +:+ String c "") (String c (String c ""))) as [|] eqn:Hc; [done|].
    rewrite IH by done.
    assert (HasPrefix (String x (a +:+ String c (String c b))) (String c (String c "")) = false) as ->; [|done].
    simpl in *. destruct (Ascii.eqb c x); [|done].
    destruct a as [|y a]; rewrite ?sapp_nil_l, ?sapp_cons in *; simpl in *; [|done].
    by rewrite Ascii.eqb_refl in Hp.
Qed.

(** ** Lemmas: decimal numerals *)

Lemma FormatUint_ne n : FormatUint n ≠ "".
Proof.
  unfold FormatUint, NilZero.string_of_uint.
  destruct (N.to_uint (Z.to_N n)); done.
Qed.

Lemma to_uint_ne n : N.to_uint n ≠ Decimal.Nil.
Proof. intros E. pose proof (Unsigned.of_to n) as E'. rewrite E in E'. by rewrite <- E' in E. Qed.

Lemma FormatUint_value n :
  0 <= n → (λ d, Z.of_N (N.of_uint d)) <$> NilZero.uint_of_string (FormatUint n) = Some n.
Proof.
  intros Hn. unfold FormatUint. rewrite NilZero.usu by apply to_uint_ne. simpl.
  by rewrite Unsigned.of_to, Z2N.id.
Qed.

Lemma FormatUint_inj n m : 0 <= n → 0 <= m → FormatUint n = FormatUint m → n = m.
Proof.
  intros Hn Hm Heq. apply FormatUint_value in Hn, Hm. rewrite Heq in Hn. congruence.
Qed.

Lemma ParseUint_FormatUint n : u64 n → ParseUint (FormatUint n) = Some n.
Proof.
  intros [H0 H1]. unfold ParseUint, FormatUint.
  rewrite NilZero.usu by apply to_uint_ne. rewrite Unsigned.of_to, Z2N.id by done.
  by rewrite (proj2 (Z.leb_le _ _) H1).
Qed.

(** A numeral that does not begin with a zero is the one printed. *)
Lemma ParseUint_canonical c s n : c ≠ "0"%char → ParseUint (String c s) = Some n → String c s = FormatUint n.
Proof.
  intros Hc. unfold ParseUint, FormatUint. destruct (NilZero.uint_of_string (String c s)) as [d|] eqn:Hd; [|done].
  cbv zeta. destruct (_ <=? _); [|done]. intros [= <-]. rewrite N2Z.id.
  pose proof (NilZero.sus _ _ Hd) as Hs. rewrite Unsigned.to_of.
  assert (Decimal.unorm d = d) as ->; [|done].
  unfold NilZero.uint_of_string in Hd. cbn [NilEmpty.uint_of_string] in Hd.
  destruct (NilEmpty.uint_of_string s) as [d'|]; [|done]. unfold uint_of_char in Hd.
  repeat (case_match; simplify_eq; try done).
Qed.

(** ** Lemmas: trimming *)

Lemma space_encodings_ne w : w ∈ space_encodings → w ≠ "".
Proof. intros Hw ->. by apply (bool_decide_eq_true_2 _) in Hw. Qed.

Lemma list_find_None_bool (f : string → bool) l :
  list_find (λ w, f w = true) l = None ↔ ∀ w, w ∈ l → f w = false.
Proof.
  rewrite list_find_None, Forall_forall.
  split; intros H w Hw; specialize (H w Hw); [by apply not_true_iff_false|by rewrite H].
Qed.

Lemma trim_left_spec n s :
  (slen s <= n)%nat → ∃ p, s = p +:+ trim_left n s ∧ no_lead (trim_left n s).
Proof.
  revert s. induction n as [|n IH]; intros s Hn; cbn [trim_left trim_right].
  - exists "". split; [done|]. destruct s; [|unfold slen in Hn; simpl in Hn; lia].
    intros w Hw. apply space_encodings_ne in Hw. by destruct w.
  - destruct (list_find (λ w, HasPrefix s w = true) space_encodings) as [[i w]|] eqn:Hf.
    + apply list_find_Some in Hf as (Hi & Hp & _). apply list_elem_of_lookup_2 in Hi.
      apply HasPrefix_spec in Hp as [t ->]. rewrite TrimPrefix_app.
      destruct (IH t) as [p [Ht Hl]].
      { rewrite slen_app in Hn. apply space_encodings_ne in Hi.
        destruct w; [done|unfold slen in *; simpl in *; lia]. }
      exists (w +:+ p). split; [|done]. by rewrite sapp_assoc, <- Ht.
    + exists "". split; [done|]. intros w Hw. by apply (proj1 (list_find_None_bool _ _) Hf).
Qed.

Lemma trim_right_spec n s :
  (slen s <= n)%nat → ∃ p, s = trim_right n s +:+ p ∧ no_trail (trim_right n s).
Proof.
  revert s. induction n as [|n IH]; intros s Hn; cbn [trim_left trim_right].
  - exists "". split; [by rewrite sapp_nil_r|]. destruct s; [|unfold slen in Hn; simpl in Hn; lia].
    intros w Hw. apply space_encodings_ne in Hw. by destruct w.
  - destruct (list_find (λ w, HasSuffix s w = true) space_encodings) as [[i w]|] eqn:Hf.
    + apply list_find_Some in Hf as (Hi & Hp & _). apply list_elem_of_lookup_2 in Hi.
      apply HasSuffix_spec in Hp as [t ->]. rewrite TrimSuffix_app.
      destruct (IH t) as [p [Ht Hl]].
      { rewrite slen_app in Hn. apply space_encodings_ne in Hi.
        destruct w; [done|unfold slen in *; simpl in *; lia]. }
      exists (p +:+ w). split; [|done]. by rewrite <- sapp_assoc, <- Ht.
    + exists "". split; [by rewrite sapp_nil_r|]. intros w Hw.
      by apply (proj1 (list_find_None_bool _ _) Hf).
Qed.

Lemma trim_left_id n s : no_lead s → trim_left n s = s.
Proof.
  intros Hs. destruct n as [|n]; [done|]. cbn [trim_left trim_right].
  by rewrite (proj2 (list_find_None_bool (λ w, HasPrefix s w) _) Hs).
Qed.

Lemma trim_right_id n s : no_trail s → trim_right n s = s.
Proof.
  intros Hs. destruct n as [|n]; [done|]. cbn [trim_left trim_right].
  by rewrite (proj2 (list_find_None_bool (λ w, HasSuffix s w) _) Hs).
Qed.

Lemma TrimSpace_id s : no_lead s → no_trail s → TrimSpace s = s.
Proof. intros H1 H2. unfold TrimSpace. by rewrite trim_left_id, trim_right_id. Qed.

(** A trimmed string has no space left at either end. *)
Lemma TrimSpace_trimmed s : no_lead (TrimSpace s) ∧ no_trail (TrimSpace s).
Proof.
  unfold TrimSpace. destruct (trim_left_spec (slen s) s) as (p & Hp & Hl); [done|].
  set (t := trim_left (slen s) s) in *.
  destruct (trim_right_spec (slen t) t) as (q & Hq & Hr); [done|]. split; [|done].
  intros w Hw. apply not_true_iff_false. intros [u Hu]%HasPrefix_spec.
  specialize (Hl w Hw). rewrite Hq, Hu, sapp_assoc, HasPrefix_app in Hl. done.
Qed.

Lemma TrimSpace_idem s : TrimSpace (TrimSpace s) = TrimSpace s.
Proof. destruct (TrimSpace_trimmed s). by apply TrimSpace_id. Qed.

Lemma allc_app f a b : allc f (a +:+ b) = allc f a && allc f b.
Proof. induction a as [|x a IH]; [done|]. rewrite sapp_cons. simpl. by rewrite IH, andb_assoc. Qed.

Lemma allc_mono f g s : (∀ c, f c = true → g c = true) → allc f s = true → allc g s = true.
Proof.
  intros Hfg. induction s as [|c s IH]; [done|]. simpl.
  intros [? ?]%andb_true_iff. apply andb_true_iff. auto.
Qed.

Lemma nochar_allc c s : nochar c s = allc (λ a, negb (Ascii.eqb a c)) s.
Proof. induction s as [|x s IH]; [done|]. simpl. by rewrite IH. Qed.

Lemma FormatUint_digits n : allc is_09 (FormatUint n) = true.
Proof.
  assert (∀ d, allc is_09 (NilEmpty.string_of_uint d) = true) as Hd.
  { induction d; simpl; rewrite ?IHd; done. }
  unfold FormatUint, NilZero.string_of_uint. destruct (N.to_uint _) eqn:E; [done|..];
    rewrite <- E; apply Hd.
Qed.

Lemma digits_nochar c s : is_09 c = false → allc is_09 s = true → nochar c s = true.
Proof.
  intros Hc. rewrite nochar_allc. apply allc_mono. intros a Ha. apply negb_true_iff.
  apply not_true_iff_false. intros ->%Ascii.eqb_eq. congruence.
Qed.

(** Characters of which no space is made are not trimmed. *)
Lemma TrimSpace_allc f s :
  (∀ w, w ∈ space_encodings → allc f w = false) → allc f s = true → TrimSpace s = s.
Proof.
  intros Hw Hs. apply TrimSpace_id; intros w Hin; specialize (Hw w Hin); apply not_true_iff_false; intros Hp.
  - apply HasPrefix_spec in Hp as [t ->]. rewrite allc_app, Hw in Hs. done.
  - apply HasSuffix_spec in Hp as [t ->]. rewrite allc_app, Hw, andb_false_r in Hs. done.
Qed.

Lemma TrimSpace_digits s : allc is_09 s = true → TrimSpace s = s.
Proof. apply TrimSpace_allc. apply Forall_forall. by apply (bool_decide_eq_true_1 _). Qed.

(** Writing a height as a decimal and reading it back, as the pending-burn
    rows do, is the identity. *)
Lemma ParseUint_Trim_FormatUint n : u64 n → ParseUint (TrimSpace (FormatUint n)) = Some n.
Proof.
  intros Hn. rewrite TrimSpace_digits by apply FormatUint_digits. by apply ParseUint_FormatUint.
Qed.

(** ** Lemmas: the matcher is the language *)

Lemma nullable_spec r : nullable r = true ↔ re_match r "".
Proof.
  split.
  - induction r; simpl; intros H; z_of_bool; try done; eauto using re_match.
    + apply (MSeq _ _ "" ""); auto.
    + apply orb_true_iff in H as [H|H]; eauto using re_match.
  - remember "" as s eqn:Hs. induction 1; simpl; try done.
    + destruct s, t; try done. by rewrite IHre_match1, IHre_match2.
    + by rewrite IHre_match.
    + by rewrite IHre_match, orb_true_r.
Qed.

Lemma star_cons a c s :
  re_match (Star a) (String c s) →
  ∃ u v, s = u +:+ v ∧ re_match a (String c u) ∧ re_match (Star a) v.
Proof.
  remember (Star a) as r eqn:Hr. remember (String c s) as w eqn:Hw.
  intros Hm. revert c s Hw Hr. induction Hm; intros c' s' Hw Hr; simplify_eq.
  destruct s as [|d s]; [by apply IHHm2|].
  rewrite sapp_cons in Hw. simplify_eq. eauto.
Qed.

Lemma deriv_spec r c s : re_match (deriv r c) s ↔ re_match r (String c s).
Proof.
  revert s. induction r as [|f|a IHa b IHb|a IHa b IHb|a IHa|]; intros s; simpl.
  - split; inversion 1.
  - destruct (f c) eqn:Hf; split; inversion 1; subst; eauto using re_match. congruence.
  - assert (re_match (Seq (deriv a c) b) s ↔
            ∃ u v, s = u +:+ v ∧ re_match a (String c u) ∧ re_match b v) as Hseq.
    { split.
      - inversion 1; subst. eexists _, _. split; [done|]. by rewrite <- IHa.
      - intros (u & v & -> & Hu%IHa & Hv). eauto using re_match. }
    destruct (nullable a) eqn:Hn; rewrite ?Hseq.
    + split.
      * inversion 1; subst; [apply Hseq in H3 as (u & v & -> & Hu & Hv)|].
        -- by apply (MSeq _ _ (String c u)).
        -- apply (MSeq _ _ ""); [by apply nullable_spec|]. by apply IHb.
      * inversion 1 as [| |x y u v Hu Hv Ha Hb| | | |]; subst.
        destruct u as [|d u]; rewrite ?sapp_nil_l, ?sapp_cons in *; simplify_eq.
        -- apply MAltR. by apply IHb.
        -- apply MAltL, Hseq. eauto.
    + split.
      * intros (u & v & -> & Hu & Hv). by apply (MSeq _ _ (String c u)).
      * inversion 1 as [| |x y u v Hu Hv Ha Hb| | | |]; subst.
        destruct u as [|d u]; rewrite ?sapp_nil_l, ?sapp_cons in *; simplify_eq; [|eauto].
        apply nullable_spec in Hu. congruence.
  - split; inversion 1; subst; [apply MAltL, IHa|apply MAltR, IHb|apply MAltL, IHa|apply MAltR, IHb]; done.
  - split.
    + inversion 1; subst. apply (MStarS _ (String c _)); [by apply IHa|done].
    + intros (u & v & -> & Hu & Hv)%star_cons. apply MSeq; [by apply IHa|done].
  - split; inversion 1.
Qed.

(** The derivative matcher decides the language of the pattern. *)
Lemma MatchString_spec r s : MatchString r s = true ↔ re_match r s.
Proof.
  revert r. induction s as [|c s IH]; intros r; simpl; [apply nullable_spec|].
  by rewrite IH, deriv_spec.
Qed.

Lemma re_match_cls_inv f s : re_match (Cls f) s → ∃ c, s = String c "" ∧ f c = true.
Proof. inversion 1; eauto. Qed.

Lemma re_match_seq_inv a b s :
  re_match (Seq a b) s → ∃ u v, s = u +:+ v ∧ re_match a u ∧ re_match b v.
Proof. inversion 1; subst; eauto 6. Qed.

Lemma re_match_star_allc f s : re_match (Star (Cls f)) s → allc f s = true.
Proof.
  remember (Star (Cls f)) as r eqn:Hr. induction 1; simplify_eq; [done|].
  apply re_match_cls_inv in H as (c & -> & Hc). rewrite allc_app. simpl. by rewrite Hc, IHre_match2.
Qed.

Lemma re_match_star_ind a (P : string → bool) s :
  P "" = true → (∀ u v, P u = true → P v = true → P (u +:+ v) = true) →
  (∀ u, re_match a u → P u = true) → re_match (Star a) s → P s = true.
Proof.
  intros H0 Happ Ha. remember (Star a) as r eqn:Hr. induction 1; simplify_eq; eauto.
Qed.

Lemma hive_label_chars s : re_match hive_label s → allc hive_char s = true.
Proof.
  intros (u & v & -> & Hu & Hv)%re_match_seq_inv.
  apply re_match_seq_inv in Hv as (x & y & -> & Hx & Hy).
  apply re_match_cls_inv in Hu as (c & -> & Hc). apply re_match_cls_inv in Hy as (d & -> & Hd).
  apply re_match_star_allc in Hx. rewrite !allc_app. simpl. unfold hive_char at 1 3.
  rewrite Hc, Hd. rewrite orb_true_r. simpl. rewrite andb_true_r.
  revert Hx. apply allc_mono. unfold hive_char. intros a ->. done.
Qed.

(** A name accepted by the Hive account pattern is made of [hive_char]s, so it
    holds neither the [':'] of an account prefix nor the ['#'] of a row id. *)
Lemma hiveRegex_chars s : MatchString hiveRegex s = true → allc hive_char s = true.
Proof.
  rewrite MatchString_spec. intros (u & v & -> & Hu & Hv)%re_match_seq_inv.
  rewrite allc_app, hive_label_chars by done. simpl. revert Hv. apply re_match_star_ind.
  - done.
  - intros a b Ha Hb. by rewrite allc_app, Ha, Hb.
  - intros w (x & y & -> & Hx & Hy)%re_match_seq_inv.
    apply re_match_cls_inv in Hx as (c & -> & Hc). apply Ascii.eqb_eq in Hc as <-.
    rewrite allc_app, (hive_label_chars y) by done. done.
Qed.

Lemma hive_nochar c s : hive_char c = false → allc hive_char s = true → nochar c s = true.
Proof.
  intros Hc. rewrite nochar_allc. apply allc_mono. intros a Ha. apply negb_true_iff.
  apply not_true_iff_false. intros ->%Ascii.eqb_eq. congruence.
Qed.

#[export] Hint Resolve FormatUint_digits TrimSpace_idem : vsc.
#[export] Hint Rewrite TrimSpace_idem TrimPrefix_app TrimSuffix_app HasPrefix_app : vsc.
