(* ===== verification/IntMath.v ===== *)
(** Integer and fixed-point primitives: [lib/intmath/muldiv.go].

    A Go function that may panic returns an [option], [None] standing for the
    panic; the callers bind it, so that a theorem that a computation returns
    [Some] states that it never panics. *)
From S2P Require Import Prelude.

(** The basis-point denominator. *)
Definition BpsScale : Z := 10000.

(** [MulDivFloor]: [a*b/c] on [big.Int], truncated toward zero. *)
Definition MulDivFloor (a b c : Z) : option Z :=
  if c =? 0 then None else Some (Z.quot (a * b) c).

(** [MulDivFloorI64]: outer [None] is the panic, inner [None] is [ok = false]. *)
Definition MulDivFloorI64 (a b c : Z) : option (option Z) :=
  if c =? 0 then None
  else let out := Z.quot (a * b) c in
       Some (if IsInt64 out then Some out else None).

(** ** Lemmas *)

Lemma MulDivFloor_pos a b c :
  0 <= a → 0 <= b → 0 < c → MulDivFloor a b c = Some (a * b / c).
Proof.
  intros Ha Hb Hc. unfold MulDivFloor. rewrite (proj2 (Z.eqb_neq _ _)) by lia.
  f_equal. apply Z.quot_div_nonneg; nia.
Qed.

Lemma MulDivFloorI64_pos a b c :
  0 <= a → 0 <= b → 0 < c →
  MulDivFloorI64 a b c = Some (if a * b / c <=? MaxInt64 then Some (a * b / c) else None).
Proof.
  intros Ha Hb Hc. unfold MulDivFloorI64. rewrite (proj2 (Z.eqb_neq _ _)) by lia.
  rewrite Z.quot_div_nonneg by nia. cbv zeta.
  assert (0 <= a * b / c) by (apply Z.div_pos; nia).
  assert (IsInt64 (a * b / c) = (a * b / c <=? MaxInt64)) as -> by (unfold_widths; lia).
  done.
Qed.

(** A share [a * s / t] with [s <= t] never exceeds [a]. *)
Lemma share_le a s t : 0 <= a → 0 <= s <= t → 0 < t → 0 <= a * s / t <= a.
Proof.
  intros Ha Hs Ht. split; [apply Z.div_pos; nia|]. apply Z.div_le_upper_bound; nia.
Qed.

(** A pro-rata share of an [int64] always fits: the overflow branch is dead. *)
Lemma MulDivFloorI64_share a s t :
  0 <= a → i64 a → 0 <= s <= t → 0 < t → MulDivFloorI64 a s t = Some (Some (a * s / t)).
Proof.
  intros Ha Hi Hs Ht. rewrite MulDivFloorI64_pos by lia.
  pose proof (share_le a s t Ha Hs Ht). unfold_widths.
  rewrite (proj2 (Z.leb_le _ _)) by lia. done.
Qed.

(** Floor shares of a common total never add up to more than the amount. *)
Lemma zsum_floor_shares a t l :
  0 <= a → 0 < t → Forall (λ s, 0 <= s) l → zsum l <= t →
  0 <= zsum ((λ s, a * s / t) <$> l) ∧ zsum ((λ s, a * s / t) <$> l) * t <= a * zsum l.
Proof.
  intros Ha Ht Hl _. induction Hl as [|s l Hs Hl [IH1 IH2]]; csimpl; [lia|].
  assert (0 <= a * s / t) by (apply Z.div_pos; nia).
  pose proof (Z.mul_div_le (a * s) t Ht). nia.
Qed.

Lemma zsum_floor_shares_le a t l :
  0 <= a → 0 < t → Forall (λ s, 0 <= s) l → zsum l <= t →
  0 <= zsum ((λ s, a * s / t) <$> l) <= a.
Proof.
  intros Ha Ht Hl Hle. destruct (zsum_floor_shares a t l Ha Ht Hl Hle). split; [done|]. nia.
Qed.

(** What the floors lose is less than one unit per share. *)
Lemma zsum_floor_shares_ge a t l :
  0 <= a → 0 < t → Forall (λ s, 0 <= s) l →
  a * zsum l <= (zsum ((λ s, a * s / t) <$> l) + Z.of_nat (length l)) * t.
Proof.
  intros Ha Ht. induction 1 as [|s l Hs Hl IH]; csimpl; [lia|].
  pose proof (Z.mul_succ_div_gt (a * s) t Ht). lia.
Qed.
