(* ===== verification/GoEncoding.v ===== *)
(** Go's binary-to-text encodings, as far as the node uses them: unpadded
    base64 in the standard and the URL alphabet ([encoding/base64]), the
    big-endian bytes of a [big.Int], hexadecimal ([encoding/hex]), and URL
    query strings ([net/url]).

    The bridge writes a bit set as base64 text into a Hive operation and the
    ledger reads it back ([Gateway.v], [LedgerSystem.v]); deposits carry their
    recipient in a memo that is read as a query string. *)
From Stdlib Require Import Ascii.
From S2P Require Import Prelude GoStrings.

(** ** Package encoding/base64 *)

(** The character of a sextet; the last two characters depend on the alphabet. *)
Definition b64_char (c62 c63 : ascii) (v : Z) : ascii :=
  if v <? 26 then ascii_of_nat (Z.to_nat (v + 65))
  else if v <? 52 then ascii_of_nat (Z.to_nat (v - 26 + 97))
  else if v <? 62 then ascii_of_nat (Z.to_nat (v - 52 + 48))
  else if v =? 62 then c62 else c63.

Definition b64_value (c62 c63 : ascii) (c : ascii) : option Z :=
  let n := Z.of_nat (nat_of_ascii c) in
  if in_range "A" "Z" c then Some (n - 65)
  else if is_az c then Some (n - 97 + 26)
  else if is_09 c then Some (n - 48 + 52)
  else if Ascii.eqb c c62 then Some 62
  else if Ascii.eqb c c63 then Some 63
  else None.

Definition std_char : Z → ascii := b64_char "+" "/".
Definition std_value : ascii → option Z := b64_value "+" "/".
Definition url_char : Z → ascii := b64_char "-" "_".
Definition url_value : ascii → option Z := b64_value "-" "_".

(** [EncodeToString] of a raw (unpadded) encoding. *)
Fixpoint b64_encode (enc : Z → ascii) (l : list Z) : string :=
  match l with
  | a :: b :: c :: l =>
      String (enc (a / 4)) (String (enc (a mod 4 * 16 + b / 16))
        (String (enc (b mod 16 * 4 + c / 64)) (String (enc (c mod 64)) (b64_encode enc l))))
  | [a; b] =>
      String (enc (a / 4)) (String (enc (a mod 4 * 16 + b / 16)) (String (enc (b mod 16 * 4)) ""))
  | [a] => String (enc (a / 4)) (String (enc (a mod 4 * 16)) "")
  | [] => ""
  end.

(** The quanta of four characters: the bytes decoded before the first error,
    and whether there was none.  Trailing bits are ignored. *)
Fixpoint b64_quanta (dec : ascii → option Z) (s : string) : list Z * bool :=
  match s with
  | "" => ([], true)
  | String a (String b (String c (String d s))) =>
      match dec a, dec b, dec c, dec d with
      | Some a, Some b, Some c, Some d =>
          let '(l, ok) := b64_quanta dec s in
          (a * 4 + b / 16 :: b mod 16 * 16 + c / 4 :: c mod 4 * 64 + d :: l, ok)
      | _, _, _, _ => ([], false)
      end
  | String a (String b (String c "")) =>
      match dec a, dec b, dec c with
      | Some a, Some b, Some c => ([a * 4 + b / 16; b mod 16 * 16 + c / 4], true)
      | _, _, _ => ([], false)
      end
  | String a (String b "") =>
      match dec a, dec b with
      | Some a, Some b => ([a * 4 + b / 16], true)
      | _, _ => ([], false)
      end
  | String _ "" => ([], false)
  end.

(** Line breaks are skipped by the decoder. *)
Fixpoint strip_newlines (s : string) : string :=
  match s with
  | "" => ""
  | String c s => if Ascii.eqb c "010" || Ascii.eqb c "013" then strip_newlines s
                  else String c (strip_newlines s)
  end.

(** [DecodeString] of a raw encoding: on an error the bytes decoded so far are
    returned with it. *)
Definition b64_decode (dec : ascii → option Z) (s : string) : list Z * bool :=
  b64_quanta dec (strip_newlines s).

(** [DecodeString] of a padded encoding: whole quanta, the last one filled up with
    at most two padding characters. *)
Fixpoint strip_padding (s : string) : string :=
  match s with
  | String a (String "=" (String "=" "")) => String a ""
  | String a (String "=" "") => String a ""
  | String c s => String c (strip_padding s)
  | "" => ""
  end.

Definition b64_decode_padded (dec : ascii → option Z) (s : string) : list Z * bool :=
  let s := strip_newlines s in
  if (String.length s mod 4 =? 0)%nat then b64_quanta dec (strip_padding s) else ([], false).

(** ** Bytes of a big.Int *)

(** [SetBytes]: big-endian, unsigned. *)
Definition SetBytes (l : list Z) : Z := foldl (λ n b, n * 256 + b) 0 l.

Fixpoint le_bytes (fuel : nat) (n : Z) : list Z :=
  match fuel with
  | O => []
  | S fuel => if n <=? 0 then [] else n mod 256 :: le_bytes fuel (n / 256)
  end.

(** [Bytes]: the absolute value, big-endian, without leading zeros.  A number
    has at most as many bytes as bits. *)
Definition Bytes (n : Z) : list Z := reverse (le_bytes (S (Z.to_nat (Z.log2 (Z.abs n)))) (Z.abs n)).

(** ** Package encoding/hex *)

Definition hex_char (v : Z) : ascii := default "0"%char (String.list_ascii_of_string "0123456789abcdef" !! Z.to_nat v).

Definition hex_encode (l : list Z) : string :=
  String.string_of_list_ascii (l ≫= λ b, [hex_char (b / 16); hex_char (b mod 16)]).

Definition hex_value (c : ascii) : option Z :=
  let n := Z.of_N (N_of_ascii c) in
  if (48 <=? n) && (n <=? 57) then Some (n - 48)
  else if (97 <=? n) && (n <=? 102) then Some (n - 87)
  else if (65 <=? n) && (n <=? 70) then Some (n - 55)
  else None.

(** [None] is an error: an odd length or another character. *)
Fixpoint hex_decode (s : string) : option (list Z) :=
  match s with
  | "" => Some []
  | String a (String b s) =>
      h ← hex_value a; l ← hex_value b; rest ← hex_decode s; Some (h * 16 + l :: rest)
  | String _ "" => None
  end.

(** What [DecodeString] returns along with an error: the bytes before it. *)
Fixpoint hex_prefix (s : string) : list Z :=
  match s with
  | String a (String b s) =>
      match hex_value a, hex_value b with
      | Some h, Some l => h * 16 + l :: hex_prefix s
      | _, _ => []
      end
  | _ => []
  end.

(** ** Package net/url *)

Definition unhex (c : ascii) : Z :=
  let n := Z.of_nat (nat_of_ascii c) in
  if is_09 c then n - 48
  else if in_range "a" "f" c then n - 97 + 10
  else n - 65 + 10.

(** [QueryUnescape]; [None] is an [EscapeError]. *)
Fixpoint QueryUnescape (s : string) : option string :=
  match s with
  | "" => Some ""
  | String c s =>
      if Ascii.eqb c "%" then
        match s with
        | String h (String l s) =>
            if is_hex h && is_hex l
            then String (ascii_of_nat (Z.to_nat (unhex h * 16 + unhex l))) <$> QueryUnescape s
            else None
        | _ => None
        end
      else String (if Ascii.eqb c "+" then " " else c) <$> QueryUnescape s
  end.

Definition cut_or_all (s sep : string) : string * string := default (s, "") (Cut s sep).

(** The loop of [ParseQuery]: the key-value pairs in order and whether no
    segment was in error. *)
Fixpoint parse_segments (segments : list string) : list (string * string) * bool :=
  match segments with
  | [] => ([], true)
  | key :: segments =>
      let '(kvs, ok) := parse_segments segments in
      if Contains key ";" then (kvs, false)
      else if String.eqb key "" then (kvs, ok)
      else
        let '(k, v) := cut_or_all key "=" in
        match QueryUnescape k, QueryUnescape v with
        | Some k, Some v => ((k, v) :: kvs, ok)
        | _, _ => (kvs, false)
        end
  end.

Definition ParseQuery (query : string) : list (string * string) * bool :=
  parse_segments (Split query "&").

(** [Values.Get]: the first value of the key, or the empty string. *)
Definition Values_Get (kvs : list (string * string)) (key : string) : string :=
  default "" (snd ∘ snd <$> list_find (λ kv, kv.1 = key) kvs).

(** A character that stands for itself in a query string. *)
Definition plain_char (c : ascii) : bool :=
  negb (Ascii.eqb c "%" || Ascii.eqb c "+" || Ascii.eqb c "&" || Ascii.eqb c ";").

(** ** Lemmas: base64 *)

Definition byte_ok (b : Z) : Prop := 0 <= b < 256.

Lemma seq64 (P : Z → Prop) : Forall P (seqZ 0 64) → ∀ v, 0 <= v < 64 → P v.
Proof. intros HP v Hv. rewrite Forall_forall in HP. apply HP. by apply elem_of_seqZ. Qed.

(** The two alphabets agree on the first 62 characters. *)
Lemma url_std v :
  0 <= v < 64 → std_char v ≠ "+"%char → std_char v ≠ "/"%char → url_value (std_char v) = Some v.
Proof.
  revert v. apply (seq64 (λ v, std_char v ≠ "+"%char → std_char v ≠ "/"%char → url_value (std_char v) = Some v)).
  repeat first [apply Forall_nil_2 | apply Forall_cons_2];
    try (intros _ _; reflexivity); intros H1 H2; exfalso; by apply H1 || by apply H2.
Qed.

Lemma url_url v : 0 <= v < 64 → url_value (url_char v) = Some v.
Proof.
  revert v. apply (seq64 (λ v, url_value (url_char v) = Some v)).
  repeat first [apply Forall_nil_2 | apply Forall_cons_2]; reflexivity.
Qed.

Lemma std_no_newline v : 0 <= v < 64 → Ascii.eqb (std_char v) "010" || Ascii.eqb (std_char v) "013" = false.
Proof.
  revert v. apply (seq64 (λ v, Ascii.eqb (std_char v) "010" || Ascii.eqb (std_char v) "013" = false)).
  repeat first [apply Forall_nil_2 | apply Forall_cons_2]; reflexivity.
Qed.

Lemma url_no_newline v : 0 <= v < 64 → Ascii.eqb (url_char v) "010" || Ascii.eqb (url_char v) "013" = false.
Proof.
  revert v. apply (seq64 (λ v, Ascii.eqb (url_char v) "010" || Ascii.eqb (url_char v) "013" = false)).
  repeat first [apply Forall_nil_2 | apply Forall_cons_2]; reflexivity.
Qed.

(** Induction on a byte string by groups of three. *)
Lemma list_ind3 {A} (P : list A → Prop) :
  P [] → (∀ a, P [a]) → (∀ a b, P [a; b]) → (∀ a b c l, P l → P (a :: b :: c :: l)) → ∀ l, P l.
Proof.
  intros H0 H1 H2 H3. refine (fix go l := _).
  destruct l as [|a [|b [|c l]]]; [exact H0|apply H1|apply H2|apply H3, go].
Qed.

(** Sextets and bytes. *)
Lemma sextets a b c :
  byte_ok a → byte_ok b → byte_ok c →
  (0 <= a / 4 < 64 ∧ 0 <= a mod 4 * 16 < 64 ∧ 0 <= a mod 4 * 16 + b / 16 < 64) ∧
  (0 <= b mod 16 * 4 < 64 ∧ 0 <= b mod 16 * 4 + c / 64 < 64 ∧ 0 <= c mod 64 < 64).
Proof. unfold byte_ok. intros. split_and!; Z.div_mod_to_equations; lia. Qed.

Lemma unpack a b c :
  byte_ok a → byte_ok b → byte_ok c →
  (a / 4 * 4 + (a mod 4 * 16) / 16 = a ∧ a / 4 * 4 + (a mod 4 * 16 + b / 16) / 16 = a) ∧
  (a mod 4 * 16 + b / 16) mod 16 * 16 + (b mod 16 * 4) / 4 = b ∧
  (a mod 4 * 16 + b / 16) mod 16 * 16 + (b mod 16 * 4 + c / 64) / 4 = b ∧
  (b mod 16 * 4 + c / 64) mod 4 * 64 + c mod 64 = c.
Proof. unfold byte_ok. intros. split_and!; Z.div_mod_to_equations; lia. Qed.

(** Decoding what was encoded, when the decoder knows every character used. *)
Lemma quanta_encode enc dec (f : ascii → bool) l :
  (∀ v, 0 <= v < 64 → f (enc v) = true → dec (enc v) = Some v) →
  Forall byte_ok l → allc f (b64_encode enc l) = true →
  b64_quanta dec (b64_encode enc l) = (l, true).
Proof.
  intros Hdec. induction l as [|a|a b|a b c l IH] using list_ind3; intros Hl Hf; [done| | |].
  all: repeat match goal with H : Forall _ (_ :: _) |- _ => apply Forall_cons in H as [? H] end.
  all: cbn [b64_encode allc] in Hf; rewrite ?andb_true_iff in Hf; destruct_and? Hf.
  - destruct (sextets a a a) as [(? & ? & ?) (? & ? & ?)], (unpack a a a) as [[? ?] (? & ? & ?)]; try done.
    cbn [b64_encode b64_quanta]. rewrite !Hdec by done. by repeat f_equal.
  - destruct (sextets a b a) as [(? & ? & ?) (? & ? & ?)], (unpack a b a) as [[? ?] (? & ? & ?)]; try done.
    cbn [b64_encode b64_quanta]. rewrite !Hdec by done. by repeat f_equal.
  - destruct (sextets a b c) as [(? & ? & ?) (? & ? & ?)], (unpack a b c) as [[? ?] (? & ? & ?)]; try done.
    cbn [b64_encode b64_quanta]. rewrite !Hdec by done. rewrite IH by done. by repeat f_equal.
Qed.

Lemma strip_encode enc l :
  (∀ v, 0 <= v < 64 → Ascii.eqb (enc v) "010" || Ascii.eqb (enc v) "013" = false) →
  Forall byte_ok l → strip_newlines (b64_encode enc l) = b64_encode enc l.
Proof.
  intros Hn. induction l as [|a|a b|a b c l IH] using list_ind3; intros Hl; [done| | |].
  all: repeat match goal with H : Forall _ (_ :: _) |- _ => apply Forall_cons in H as [? H] end.
  - destruct (sextets a a a) as [(? & ? & ?) _]; try done. cbn [b64_encode strip_newlines]. by rewrite !Hn.
  - destruct (sextets a b a) as [(? & ? & ?) (? & ? & ?)]; try done. cbn [b64_encode strip_newlines]. by rewrite !Hn.
  - destruct (sextets a b c) as [(? & ? & ?) (? & ? & ?)]; try done. cbn [b64_encode strip_newlines].
    by rewrite !Hn, IH.
Qed.

Lemma b64_url_roundtrip l : Forall byte_ok l → b64_decode url_value (b64_encode url_char l) = (l, true).
Proof.
  intros Hl. unfold b64_decode. rewrite strip_encode; [|apply url_no_newline|done].
  apply (quanta_encode _ _ (λ _, true)); [|done|]. { intros v Hv _. by apply url_url. }
  generalize (b64_encode url_char l). clear. intros s. by induction s.
Qed.

(** ** Lemmas: bytes of a big.Int *)

Lemma le_bytes_ok fuel n : Forall byte_ok (le_bytes fuel n).
Proof.
  revert n. induction fuel as [|fuel IH]; intros n; [constructor|]. cbn [le_bytes].
  destruct (n <=? 0); constructor; [|apply IH]. unfold byte_ok. apply Z.mod_pos_bound. lia.
Qed.

Lemma Bytes_ok n : Forall byte_ok (Bytes n).
Proof. unfold Bytes. rewrite Forall_reverse. apply le_bytes_ok. Qed.

Lemma le_bytes_value fuel n :
  0 <= n < 2 ^ Z.of_nat fuel → foldr (λ b acc, acc * 256 + b) 0 (le_bytes fuel n) = n.
Proof.
  revert n. induction fuel as [|fuel IH]; intros n Hn; [simpl in *; lia|]. cbn [le_bytes].
  destruct (Z.leb_spec n 0); [simpl; lia|]. cbn [foldr]. rewrite IH.
  - pose proof (Z.div_mod n 256). lia.
  - rewrite Nat2Z.inj_succ, Z.pow_succ_r in Hn by lia.
    split; [apply Z.div_pos; lia|]. apply Z.div_lt_upper_bound; lia.
Qed.

Lemma foldl_reverse {A B} (f : A → B → A) a l : foldl f a (reverse l) = foldr (flip f) a l.
Proof.
  induction l as [|x l IH]; [done|]. rewrite reverse_cons, foldl_app. cbn [foldl foldr]. by rewrite IH.
Qed.

Lemma SetBytes_Bytes n : 0 <= n → SetBytes (Bytes n) = n.
Proof.
  intros Hn. unfold SetBytes, Bytes. rewrite (Z.abs_eq n), foldl_reverse by done.
  apply le_bytes_value. split; [done|]. rewrite Nat2Z.inj_succ, Z2Nat.id by apply Z.log2_nonneg.
  destruct (Z.eq_dec n 0) as [->|]; [done|]. apply Z.log2_spec. lia.
Qed.

(** A bit set written in the standard alphabet and read in the URL alphabet
    comes back as it was when its text has none of the two characters the
    alphabets do not share. *)
Definition shared_char (c : ascii) : bool := negb (Ascii.eqb c "+" || Ascii.eqb c "/").

Lemma std_to_url n :
  0 <= n → allc shared_char (b64_encode std_char (Bytes n)) = true →
  SetBytes (b64_decode url_value (b64_encode std_char (Bytes n))).1 = n.
Proof.
  intros Hn Hs. unfold b64_decode. rewrite strip_encode by auto using std_no_newline, Bytes_ok.
  rewrite (quanta_encode std_char url_value shared_char); [by apply SetBytes_Bytes| |apply Bytes_ok|done].
  intros v Hv Hf. unfold shared_char in Hf. apply negb_true_iff, orb_false_iff in Hf as [H1 H2].
  apply url_std; [done| |]; by apply Ascii.eqb_neq.
Qed.

(** ** Lemmas: query strings *)

Lemma QueryUnescape_plain s : allc plain_char s = true → QueryUnescape s = Some s.
Proof.
  induction s as [|c s IH]; [done|]. cbn [allc]. intros [Hc Hs]%andb_true_iff. cbn [QueryUnescape].
  unfold plain_char in Hc. rewrite negb_true_iff, !orb_false_iff in Hc. destruct Hc as [[[H1 H2] _] _].
  by rewrite H1, H2, IH.
Qed.

Lemma Split_nochar s c : nochar c s = true → Split s c = [s].
Proof.
  induction s as [|a s IH]; [done|]. cbn [nochar]. intros [Ha Hs]%andb_true_iff. cbn [Split].
  rewrite negb_true_iff in Ha. by rewrite Ha, IH.
Qed.

Lemma Contains_nochar s c : nochar c s = true → Contains s (String c "") = false.
Proof.
  intros Hs. unfold Contains. apply bool_decide_eq_false_2. intros [[a b] Hc].
  apply Cut_Some in Hc. rewrite Hc, !nochar_app in Hs. cbn [nochar] in Hs. by rewrite Ascii.eqb_refl, andb_false_r in Hs.
Qed.

(** A memo that only names a recipient. *)
Lemma ParseQuery_to x :
  allc plain_char x = true → ParseQuery ("to=" +:+ x) = ([("to", x)], true).
Proof.
  intros Hx.
  assert (∀ c, Ascii.eqb c "%" || Ascii.eqb c "+" || Ascii.eqb c "&" || Ascii.eqb c ";" = true →
               nochar c x = true) as Hno.
  { intros c Hc. rewrite nochar_allc. eapply allc_mono; [|exact Hx]. intros a Ha.
    destruct (Ascii.eqb_spec a c) as [->|]; [|done]. unfold plain_char in Ha. by rewrite Hc in Ha. }
  unfold ParseQuery. rewrite Split_nochar by (rewrite nochar_app, (Hno "&"%char) by done; done).
  cbn [parse_segments]. rewrite Contains_nochar by (rewrite nochar_app, (Hno ";"%char) by done; done).
  simpl. rewrite QueryUnescape_plain by done. done.
Qed.

(** ** Lemmas: hexadecimal *)

Lemma hex_digit v : 0 <= v < 16 → hex_value (hex_char v) = Some v.
Proof.
  intros Hv. assert (v ∈ seqZ 0 16) as Hin by (apply elem_of_seqZ; lia). clear Hv. revert v Hin.
  apply Forall_forall. repeat first [apply Forall_nil_2 | apply Forall_cons_2]; reflexivity.
Qed.

Lemma hex_roundtrip l : Forall byte_ok l → hex_decode (hex_encode l) = Some l.
Proof.
  induction 1 as [|b l Hb _ IH]; [done|]. unfold byte_ok in Hb.
  change (hex_decode (hex_encode (b :: l))) with
    (h ← hex_value (hex_char (b / 16)); d ← hex_value (hex_char (b mod 16)); rest ← hex_decode (hex_encode l); Some (h * 16 + d :: rest)).
  rewrite (hex_digit (b / 16)) by (split; [apply Z.div_pos; lia|apply Z.div_lt_upper_bound; lia]).
  rewrite (hex_digit (b mod 16)) by (by apply Z.mod_pos_bound). cbn [mbind option_bind]. rewrite IH. cbn [mbind option_bind].
  repeat f_equal. pose proof (Z.div_mod b 16). lia.
Qed.
