(* ===== verification/Assets.v ===== *)
(** Asset amounts, [modules/common/assets.go].

    Amounts are [int64] base units in the ledger and decimal strings on Hive and
    in transactions.  [FormatAssetAmount] writes one and [ParseAssetAmount]
    reads it; the theorems show that reading back what was written gives the
    amount for every [int64] but the smallest, and that parsing never wraps. *)
From Stdlib Require Import Ascii DecimalString DecimalN.
From S2P Require Import Prelude GoStrings.

(** ** Numerals *)

(** [strconv.FormatInt(n, 10)] *)
Definition FormatInt (n : Z) : string := Itoa n.

(** [strconv.ParseInt(s, 10, 64)], [None] for an error. *)
Definition ParseInt (s : string) : option Z :=
  let '(neg, digits) :=
    match s with
    | String "-" t => (true, t)
    | String "+" t => (false, t)
    | _ => (false, s)
    end in
  un ← ParseUint digits;
  if negb neg && (MaxInt64 <? un) then None
  else if neg && (MaxInt64 + 1 <? un) then None
  else Some (if neg then - un else un).

(** ** Precision *)

Definition AssetPrecision : list (string * nat) :=
  [("hbd", 3%nat); ("hive", 3%nat); ("hbd_savings", 3%nat); ("hive_consensus", 3%nat)].

Definition GetAssetPrecision (asset : string) : option nat :=
  snd ∘ snd <$> list_find (λ kv, kv.1 = ToLower asset) AssetPrecision.

(** ** Writing *)

(** The loop that pads with zeros until there is a digit before the point. *)
Fixpoint pad (fuel : nat) (prec : nat) (s : string) : string :=
  match fuel with
  | O => s
  | S fuel => if (slen s <=? prec)%nat then pad fuel prec (String "0" s) else s
  end.

Definition FormatAssetAmount (amount : Z) (asset : string) : option string :=
  prec ← GetAssetPrecision asset;
  if (prec =? 0)%nat then Some (FormatInt amount)
  else
    let s := FormatInt amount in
    let '(neg, s) := if HasPrefix s "-" then (true, sdrop 1 s) else (false, s) in
    let s := pad (S prec) prec s in
    let cut := (slen s - prec)%nat in
    let out := stake cut s +:+ "." +:+ sdrop cut s in
    Some (if neg : bool then "-" +:+ out else out).

(** ** Reading *)

Fixpoint repeat_zero (n : nat) : string :=
  match n with
  | O => ""
  | S n => String "0" (repeat_zero n)
  end.

Definition ParseAssetAmount (amount asset : string) : option Z :=
  prec ← GetAssetPrecision asset;
  match Split (TrimSpace amount) "." with
  | [part] =>
      n ← ParseInt part;
      let mult := 10 ^ Z.of_nat prec in
      if negb (n =? 0) && ((Z.quot MaxInt64 mult <? n) || (n <? Z.quot MinInt64 mult)) then None
      else Some (n *64 mult)
  | [intPart; fracPart] =>
      if (prec <? slen fracPart)%nat then None
      else
        let fracPart := fracPart +:+ repeat_zero (prec - slen fracPart) in
        let '(neg, intPart) :=
          if HasPrefix intPart "-" then (true, sdrop 1 intPart)
          else if HasPrefix intPart "+" then (false, sdrop 1 intPart)
          else (false, intPart) in
        if negb (nochar "+" intPart && nochar "-" intPart) then None
        else
          n ← ParseInt (intPart +:+ fracPart);
          Some (if neg : bool then -64 n else n)
  | _ => None
  end.

(** ** Lemmas *)

Definition numeral_char (c : ascii) : bool := is_09 c || Ascii.eqb c "." || Ascii.eqb c "-".

Lemma TrimSpace_numeral s : allc numeral_char s = true → TrimSpace s = s.
Proof. apply TrimSpace_allc. apply Forall_forall. by apply (bool_decide_eq_true_1 _). Qed.

Lemma precision_3 asset prec : GetAssetPrecision asset = Some prec → prec = 3%nat.
Proof.
  unfold GetAssetPrecision, AssetPrecision. cbn [list_find fst snd].
  repeat (destruct (decide _); [by intros [= <-]|]). done.
Qed.

(** A leading zero does not change the value. *)
Lemma ParseUint_nonneg text n : ParseUint text = Some n → 0 <= n.
Proof. unfold ParseUint. destruct (_ text) as [d|]; [|done]. cbv zeta. destruct (_ <=? _); [|done]. intros [= <-]. lia. Qed.

Lemma ParseUint_zero s : s ≠ "" → ParseUint (String "0" s) = ParseUint s.
Proof.
  intros Hs. unfold ParseUint, NilZero.uint_of_string. destruct s as [|c s]; [done|].
  generalize (String c s) as t. intros t. simpl.
  by destruct (NilEmpty.uint_of_string t).
Qed.

Lemma pad_spec fuel prec s :
  s ≠ "" → allc is_09 s = true → (prec < slen s + fuel)%nat →
  allc is_09 (pad fuel prec s) = true ∧ (prec < slen (pad fuel prec s))%nat ∧
  ParseUint (pad fuel prec s) = ParseUint s.
Proof.
  revert s. induction fuel as [|fuel IH]; intros s Hne Hs Hl; cbn [pad]; [split_and!; [done|lia|done]|].
  destruct (Nat.leb_spec (slen s) prec); [|done].
  destruct (IH (String "0" s)) as (H1 & H2 & H3); [done|done|simpl; lia|].
  split_and!; [done|done|]. by rewrite H3, ParseUint_zero.
Qed.

Lemma slen_stake n s : (n <= slen s)%nat → slen (stake n s) = n.
Proof.
  revert s. induction n as [|n IH]; intros s Hn; [done|]. destruct s as [|c s]; [simpl in Hn; lia|].
  simpl in *. by rewrite IH by lia.
Qed.

Lemma slen_sdrop n s : slen (sdrop n s) = (slen s - n)%nat.
Proof.
  revert s. induction n as [|n IH]; intros s; [simpl; lia|]. destruct s as [|c s]; [done|]. simpl. apply IH.
Qed.

Lemma Split_dot a b : allc is_09 a = true → allc is_09 b = true → Split (a +:+ "." +:+ b) "." = [a; b].
Proof.
  intros Ha Hb. assert (Split b "." = [b]) as HSb.
  { apply digits_nochar with (c := "."%char) in Hb; [|done]. clear -Hb. induction b as [|x b IH]; [done|].
    cbn [nochar] in Hb. apply andb_true_iff in Hb as [Hx Hb]. cbn [Split]. rewrite negb_true_iff in Hx. by rewrite Hx, IH. }
  apply digits_nochar with (c := "."%char) in Ha; [|done]. induction a as [|x a IH].
  - change ("" +:+ "." +:+ b) with (String "." b). cbn [Split]. by rewrite HSb.
  - cbn [nochar] in Ha. apply andb_true_iff in Ha as [Hx Ha]. rewrite negb_true_iff in Hx.
    rewrite sapp_cons. cbn [Split]. by rewrite Hx, IH.
Qed.

Lemma ParseInt_digits s :
  allc is_09 s = true → s ≠ "" →
  ParseInt s = (un ← ParseUint s; if MaxInt64 <? un then None else Some un).
Proof.
  intros Hs Hne. destruct s as [|c s]; [done|]. cbn [allc] in Hs. apply andb_true_iff in Hs as [Hc _].
  unfold ParseInt. assert (∀ T (x y z : T), match String c s with String "-" t => x | String "+" t => y | _ => z end = z) as Hm.
  { intros T x y z. by destruct c as [[] [] [] [] [] [] [] []]. }
  destruct c as [[] [] [] [] [] [] [] []]; try done; cbn [negb andb];
    (destruct (ParseUint _); [|done]); cbn [mbind option_bind]; by destruct (MaxInt64 <? _).
Qed.

Lemma digits_head s c : is_09 c = false → allc is_09 s = true → HasPrefix s (String c "") = false.
Proof.
  intros Hc Hs. destruct s as [|x s]; [done|]. cbn [allc HasPrefix] in *. apply andb_true_iff in Hs as [Hx _].
  destruct (Ascii.eqb_spec c x) as [->|]; [congruence|done].
Qed.

(** Reading the decimal form of a number of digits, with its sign. *)
Lemma parse_decimal asset s (neg : bool) :
  GetAssetPrecision asset = Some 3%nat → allc is_09 s = true → (3 < slen s)%nat →
  let cut := (slen s - 3)%nat in
  let out := stake cut s +:+ "." +:+ sdrop cut s in
  ParseAssetAmount (if neg then "-" +:+ out else out) asset
  = (n ← ParseInt s; Some (if neg then -64 n else n)).
Proof.
  intros Hp Hs Hl cut out. unfold ParseAssetAmount. rewrite Hp. cbn [mbind option_bind].
  rewrite <- (stake_sdrop cut s) in Hs. rewrite allc_app in Hs. apply andb_true_iff in Hs as [Ha Hb].
  set (a := stake cut s) in *. set (b := sdrop cut s) in *.
  assert (slen b = 3%nat) as Hlb by (unfold b; rewrite slen_sdrop; unfold cut; lia).
  assert (allc numeral_char out = true) as Hout.
  { unfold out. rewrite !allc_app.
    assert (∀ t, allc is_09 t = true → allc numeral_char t = true) as Hnum.
    { intros t. apply allc_mono. intros c Hc. unfold numeral_char. by rewrite Hc. }
    rewrite (Hnum _ Ha), (Hnum _ Hb). done. }
  assert (Split (TrimSpace (if neg then "-" +:+ out else out)) "." = [if neg then "-" +:+ a else a; b]) as ->.
  { destruct neg; rewrite TrimSpace_numeral by done.
    - change ("-" +:+ out) with (String "-" out). cbn [Split]. unfold out. by rewrite Split_dot.
    - by apply Split_dot. }
  rewrite Hlb. cbn [Nat.ltb Nat.leb Nat.sub repeat_zero]. rewrite sapp_nil_r.
  assert (a +:+ b = s) as Hab by apply stake_sdrop.
  destruct neg; cbn [negb].
  - rewrite HasPrefix_app. change (sdrop 1 ("-" +:+ a)) with a.
    rewrite !digits_nochar by done. cbn [andb negb]. by rewrite Hab.
  - rewrite !digits_head, !digits_nochar by done. cbn [andb negb]. by rewrite Hab.
Qed.

Lemma ParseInt_nonneg n : 0 <= n → ParseInt (FormatUint n) = if MaxInt64 <? n then None else Some n.
Proof.
  intros Hn. rewrite ParseInt_digits by (apply FormatUint_digits || apply FormatUint_ne).
  unfold ParseUint. pose proof (FormatUint_value n Hn) as Hv.
  destruct (NilZero.uint_of_string (FormatUint n)) as [d|]; [|done]. injection Hv as ->.
  destruct (Z.leb_spec n MaxUint64); [done|]. simpl. destruct (Z.ltb_spec MaxInt64 n); [done|].
  exfalso. unfold MaxInt64, MaxUint64 in *. lia.
Qed.

(** Writing an amount and reading it back. *)
Lemma format_parse n asset :
  is_Some (GetAssetPrecision asset) →
  FormatAssetAmount n asset ≫= (λ s, ParseAssetAmount s asset)
  = if MaxInt64 <? Z.abs n then None else Some (wrap64 n).
Proof.
  intros [prec Hp]. assert (prec = 3%nat) as -> by by eapply precision_3.
  unfold FormatAssetAmount. rewrite Hp. cbn [mbind option_bind Nat.eqb]. cbv zeta. unfold FormatInt, Itoa.
  set (d := FormatUint (Z.abs n)).
  assert ((if HasPrefix (if n <? 0 then "-" +:+ FormatUint (- n) else FormatUint n) "-"
           then (true, sdrop 1 (if n <? 0 then "-" +:+ FormatUint (- n) else FormatUint n))
           else (false, if n <? 0 then "-" +:+ FormatUint (- n) else FormatUint n)) = (n <? 0, d)) as ->.
  { unfold d. destruct (Z.ltb_spec n 0).
    - rewrite HasPrefix_app, Z.abs_neq by lia. done.
    - rewrite digits_head, Z.abs_eq by (done || lia || apply FormatUint_digits). done. }
  destruct (pad_spec 4 3 d) as (Hdig & Hlen & Hval); [apply FormatUint_ne|apply FormatUint_digits|lia|].
  cbn [mbind option_bind]. rewrite (parse_decimal asset (pad 4 3 d) (n <? 0) Hp Hdig Hlen).
  rewrite ParseInt_digits; [|done|by intros E; rewrite E in Hlen; simpl in Hlen; lia].
  rewrite Hval, <- ParseInt_digits by (apply FormatUint_digits || apply FormatUint_ne).
  unfold d. rewrite ParseInt_nonneg by lia. destruct (Z.ltb_spec MaxInt64 (Z.abs n)); [done|]. cbn [mbind option_bind].
  f_equal. destruct (Z.ltb_spec n 0).
  - unfold i64_neg. apply (f_equal wrap64). lia.
  - rewrite wrap64_id by (unfold i64, MinInt64, MaxInt64 in *; lia). lia.
Qed.

(** ** Properties *)

(** Amounts survive the trip to decimal text and back.  For every asset the
    node knows and every [int64] amount but the smallest, [ParseAssetAmount]
    reads what [FormatAssetAmount] wrote as the same amount. *)
Theorem asset_amount_roundtrip n asset :
  is_Some (GetAssetPrecision asset) → MinInt64 < n <= MaxInt64 →
  FormatAssetAmount n asset ≫= (λ s, ParseAssetAmount s asset) = Some n.
Proof.
  intros Hp Hn. rewrite format_parse by done.
  rewrite wrap64_id by (unfold i64; lia). rewrite (proj2 (Z.ltb_ge _ _)); [done|].
  unfold MinInt64, MaxInt64 in *. lia.
Qed.

Lemma asset_amount_roundtrip_witness :
  FormatAssetAmount (-5) "HBD" ≫= (λ s, ParseAssetAmount s "HBD") = Some (-5).
Proof. apply (asset_amount_roundtrip (-5) "HBD"); [by eexists|by vm_compute]. Defined.

(** The smallest amount is written but cannot be read: its digits do not fit
    before the sign is applied. *)
Lemma smallest_amount_unreadable :
  FormatAssetAmount MinInt64 "hbd" = Some "-9223372036854775.808" ∧
  ParseAssetAmount "-9223372036854775.808" "hbd" = None.
Proof. by vm_compute. Qed.
