(* ===== verification/LedgerDb.v ===== *)
(** The ledger database: the records of [modules/db/vsc/ledger/types.go] and
    the interface [Ledger] of that file.

    The production store is a MongoDB collection, which is not part of the
    sources; its contract is stated as a class of operations and a class of
    laws.  The abstraction [rows] sees a store as the finite map from row id to
    row, because every write is an upsert keyed by the row id alone
    ([StoreLedger] in [modules/db/vsc/ledger/ledger.go]).  A write can fail half
    way through its batch and then has stored a prefix of it; [faults] bounds
    how many more calls can fail before the database has recovered, which is
    what the fail-stop loops of the ledger ([blockingRetry],
    [blockingLedgerRead]) wait for.  Reads are the values those loops return;
    where the code does not loop and acts on the error, the model takes the
    error as an argument.  [MockLedger.v] implements the interface. *)
From S2P Require Import Prelude GoStrings.

(** ** Records *)

(** One row of the ledger.  [Timestamp] is filled by API queries only. *)
Record LedgerRecord := mkLedgerRecord {
  lr_Id : string;
  lr_Amount : Z;
  lr_BlockHeight : Z;
  lr_From : string;
  lr_Owner : string;
  lr_Type : string;
  lr_Asset : string;
  lr_TxId : string;
  lr_BIdx : Z;
  lr_OpIdx : Z;
}.

(** A row with the fields most writers set; [BIdx] and [OpIdx] keep their zero
    value. *)
Definition row (id tx : string) (bh amount : Z) (asset owner from ty : string) : LedgerRecord :=
  mkLedgerRecord id amount bh from owner ty asset tx 0 0.

Record BalanceRecord := mkBalanceRecord {
  br_Account : string;
  br_BlockHeight : Z;
  br_Hive : Z;
  br_HIVE_CONSENSUS : Z;
  br_HBD : Z;
  br_HBD_SAVINGS : Z;
  br_HBD_AVG : Z;
  br_HBD_CLAIM_HEIGHT : Z;
  br_HBD_MODIFY_HEIGHT : Z;
}.

(** The values the ledger stores in the free-form [map[string]interface{}]
    of an operation or an action.  A [float64] is kept by its integral part,
    which is all the ledger reads of it. *)
Inductive value :=
| VNil
| VBool (b : bool)
| VInt64 (z : Z)
| VUint64 (z : Z)
| VInt (z : Z)
| VFloat64 (z : Z)
| VStr (s : string).

(** A possibly nil [map[string]interface{}]; reading an absent key, or any key
    of a nil map, gives the nil interface. *)
Definition Params := option (gmap string value).

Definition pget (p : Params) (k : string) : value :=
  match p with
  | None => VNil
  | Some m => default VNil (m !! k)
  end.

Record ActionRecord := mkActionRecord {
  ar_Id : string;
  ar_Status : string;
  ar_Amount : Z;
  ar_Asset : string;
  ar_To : string;
  ar_Memo : string;
  ar_TxId : string;
  ar_Type : string;
  ar_Params : Params;
  ar_BlockHeight : Z;
}.

(** The observed APR is a floating-point statistic and is left out. *)
Record ClaimRecord := mkClaimRecord {
  cr_BlockHeight : Z;
  cr_Amount : Z;
  cr_TxId : string;
  cr_ReceivedN : Z;
}.

#[export] Instance LedgerRecord_eq_dec : EqDecision LedgerRecord.
Proof. solve_decision. Defined.
#[export] Instance BalanceRecord_eq_dec : EqDecision BalanceRecord.
Proof. solve_decision. Defined.
#[export] Instance value_eq_dec : EqDecision value.
Proof. solve_decision. Defined.
#[export] Instance ActionRecord_eq_dec : EqDecision ActionRecord.
Proof. solve_decision. Defined.

(** ** The abstract ledger *)

Abbreviation ledger := (gmap string LedgerRecord).

(** Upsert one row, and a batch of rows in order. *)
Definition upsert (r : LedgerRecord) (m : ledger) : ledger := <[lr_Id r := r]> m.

Definition upserts (rs : list LedgerRecord) (m : ledger) : ledger :=
  foldl (λ m r, upsert r m) m rs.

(** The query of [GetLedgerRange]: owner, inclusive height range, optional
    asset, optional set of types. *)
Definition in_query (account : string) (lo hi : Z) (asset : string) (types : list string)
    (r : LedgerRecord) : bool :=
  String.eqb (lr_Owner r) account && (lo <=? lr_BlockHeight r) && (lr_BlockHeight r <=? hi)
  && (String.eqb asset "" || String.eqb (lr_Asset r) asset)
  && (bool_decide (types = []) || slices_Contains types (lr_Type r)).

(** The rows of a ledger, in no particular order. *)
Definition row_list (m : ledger) : list LedgerRecord := (map_to_list m).*2.

(** The sum of the amounts of the rows a query selects. *)
Definition qsum (q : LedgerRecord → bool) (m : ledger) : Z :=
  msum (λ r, if q r then lr_Amount r else 0) m.

(** A legacy interest row the reprocessing drops: no ['#'] in its id. *)
Definition legacy_interest (height : Z) (owners : list string) (r : LedgerRecord) : bool :=
  String.eqb (lr_Type r) "interest" && (lr_BlockHeight r =? height)
  && negb (Contains (lr_Id r) "#") && slices_Contains owners (lr_Owner r).

(** The order of [GetLedgerRecordsByType]: height, then id. *)
Definition height_id_le (a b : LedgerRecord) : Prop :=
  lr_BlockHeight a < lr_BlockHeight b ∨
  (lr_BlockHeight a = lr_BlockHeight b ∧ String.le (lr_Id a) (lr_Id b)).

(** ** The interface [Ledger] *)

Class LedgerDb (S : Type) := {
  rows : S → ledger;
  faults : S → nat;
  db_wf : S → Prop;
  (** the new store and whether the call returned without an error *)
  StoreLedger : list LedgerRecord → S → S * bool;
  GetLedgerRange : string → Z → Z → string → list string → S → list LedgerRecord;
  GetLedgerRecordsByType : list string → Z → S → list LedgerRecord;
  DeleteLegacyInterestRecords : Z → list string → S → S;
}.

(** The documented behaviour of the interface.  Rows written by the ledger
    always carry a non-empty id. *)
Class LedgerDbLaws (S : Type) `{LedgerDb S} : Prop := {
  rows_keyed s k r : db_wf s → rows s !! k = Some r → lr_Id r = k;
  store_spec recs s s' ok :
    db_wf s → Forall (λ r, lr_Id r ≠ "") recs → StoreLedger recs s = (s', ok) →
    ∃ k, db_wf s' ∧ rows s' = upserts (take k recs) (rows s) ∧
         (if ok then k = length recs ∧ (faults s' <= faults s)%nat else (faults s' < faults s)%nat);
  range_spec account lo hi asset types s :
    db_wf s →
    GetLedgerRange account lo hi asset types s
    ≡ₚ filter (λ r, in_query account lo hi asset types r = true) (row_list (rows s));
  by_type_spec types hi s :
    db_wf s →
    GetLedgerRecordsByType types hi s
    ≡ₚ filter (λ r, lr_Type r ∈ types ∧ lr_BlockHeight r <= hi) (row_list (rows s))
    ∧ Sorted height_id_le (GetLedgerRecordsByType types hi s);
  delete_spec height owners s :
    db_wf s →
    db_wf (DeleteLegacyInterestRecords height owners s) ∧
    rows (DeleteLegacyInterestRecords height owners s)
    = filter (λ ir, legacy_interest height owners ir.2 = false) (rows s);
}.

(** ** Fail-stop loops

    [blockingRetry] of [ledger_system.go] and [blockingLedgerRead] of
    [ledger_state.go] have the same body: call until there is no error, sleeping
    in between.  [attempts] is the number of rounds the loop is given. *)
Section retry.
Context {A : Type}.

(** The outcome of round [n] of the loop over a call whose [n]-th invocation
    gives [read n]. *)
Fixpoint blockingLedgerRead (fuel : nat) (n : nat) (read : nat → option A) : option A :=
  match fuel with
  | O => None
  | S fuel =>
      match read n with
      | Some a => Some a
      | None => blockingLedgerRead fuel (S n) read
      end
  end.
End retry.

(** The delay, in milliseconds, slept after the [n]-th failed attempt. *)
Fixpoint retry_delay (n : nat) : Z :=
  match n with
  | O => 100
  | S n => let delay := retry_delay n in
           if delay <? 30000 then (if 30000 <? delay * 2 then 30000 else delay * 2) else delay
  end.

Section fail_stop.
Context {S : Type} `{LedgerDb S}.

Fixpoint retry_store (fuel : nat) (recs : list LedgerRecord) (s : S) : S :=
  match fuel with
  | O => s
  | Datatypes.S fuel =>
      let '(s', ok) := StoreLedger recs s in
      if ok then s' else retry_store fuel recs s'
  end.

(** [storeLedgerOrFail]: retry the whole batch until the call succeeds.  The
    store can fail at most [faults] more times, so one more round than that is
    enough for the loop to end. *)
Definition storeLedgerOrFail (recs : list LedgerRecord) (s : S) : S :=
  retry_store (Datatypes.S (faults s)) recs s.
End fail_stop.

(** ** Lemmas: the row order *)

#[export] Instance height_id_le_total : Total height_id_le.
Proof.
  intros a b. unfold height_id_le.
  destruct (Z.lt_trichotomy (lr_BlockHeight a) (lr_BlockHeight b)) as [?|[Heq|?]]; [lia| |lia].
  destruct (total String.le (lr_Id a) (lr_Id b)); [left|right]; right; split; lia || done.
Qed.

#[export] Instance height_id_le_trans : Transitive height_id_le.
Proof.
  intros a b c [?|[? ?]] [?|[? ?]]; unfold height_id_le; [lia..|]. right. split; [lia|]. by etrans.
Qed.

(** ** Lemmas: upserts *)

Lemma upserts_app a b m : upserts (a ++ b) m = upserts b (upserts a m).
Proof. unfold upserts. by rewrite foldl_app. Qed.

Lemma upserts_cons r l m : upserts (r :: l) m = upserts l (upsert r m).
Proof. done. Qed.

Lemma lookup_upserts_ne l m k : k ∉ lr_Id <$> l → upserts l m !! k = m !! k.
Proof.
  revert m. induction l as [|r l IH]; intros m; [done|].
  rewrite fmap_cons, not_elem_of_cons. intros [Hne Hl]. rewrite upserts_cons, IH by done.
  unfold upsert. by rewrite lookup_insert_ne.
Qed.

(** The last row of a batch with a given id is the one that stays. *)
Lemma lookup_upserts_app l1 r l2 m :
  lr_Id r ∉ lr_Id <$> l2 → upserts (l1 ++ r :: l2) m !! lr_Id r = Some r.
Proof.
  intros Hr. rewrite upserts_app, upserts_cons, lookup_upserts_ne by done.
  apply lookup_insert_eq.
Qed.

Lemma lookup_upserts_NoDup l m r :
  NoDup (lr_Id <$> l) → r ∈ l → upserts l m !! lr_Id r = Some r.
Proof.
  intros Hnd (l1 & l2 & ->)%list_elem_of_split. apply lookup_upserts_app.
  rewrite fmap_app, fmap_cons in Hnd. apply NoDup_app in Hnd as (_ & _ & Hnd).
  by apply NoDup_cons in Hnd as [? _].
Qed.

(** A row of the result is one of the batch or an old one. *)
Lemma lookup_upserts_cases l m k r :
  upserts l m !! k = Some r → (r ∈ l ∧ lr_Id r = k) ∨ ((k ∉ (lr_Id <$> l)) ∧ m !! k = Some r).
Proof.
  revert m. induction l as [|x l IH]; intros m; [right; split; [apply not_elem_of_nil|done]|].
  rewrite upserts_cons. intros [[Hin Hk]|[Hnin Hm]]%IH; [left; split; [by right|done]|].
  unfold upsert in Hm. destruct (decide (lr_Id x = k)) as [<-|Hne].
  - rewrite lookup_insert_eq in Hm. simplify_eq. left. split; [by left|done].
  - rewrite lookup_insert_ne in Hm by done. right. split; [|done].
    rewrite fmap_cons, not_elem_of_cons. auto.
Qed.

Lemma lookup_upserts_in l m1 m2 k :
  k ∈ lr_Id <$> l → upserts l m1 !! k = upserts l m2 !! k.
Proof.
  revert m1 m2. induction l as [|r l IH]; intros m1 m2 Hk; [by apply elem_of_nil in Hk|].
  rewrite !upserts_cons. destruct (decide (k ∈ lr_Id <$> l)) as [Hin|Hin]; [by apply IH|].
  rewrite fmap_cons in Hk. apply elem_of_cons in Hk as [->|?]; [|done].
  rewrite !lookup_upserts_ne by done. unfold upsert. by rewrite !lookup_insert_eq.
Qed.

(** The order of a batch with distinct ids does not matter. *)
Lemma upserts_Permutation l k m :
  NoDup (lr_Id <$> l) → l ≡ₚ k → upserts l m = upserts k m.
Proof.
  intros Hnd Hp. assert (NoDup (lr_Id <$> k)) as Hnd' by by rewrite <- Hp.
  apply map_eq. intros i. destruct (decide (i ∈ lr_Id <$> l)) as [Hin|Hin].
  - apply list_elem_of_fmap in Hin as (r & -> & Hr).
    rewrite !lookup_upserts_NoDup; [done|done|by rewrite <- Hp|done|done].
  - rewrite !lookup_upserts_ne; [done|by rewrite <- Hp|done].
Qed.

(** Dropping rows before a batch of rows that are kept. *)
Lemma filter_upserts (P : LedgerRecord → Prop) `{!∀ r, Decision (P r)} l (m : ledger) :
  Forall P l → filter (λ ir, P ir.2) (upserts l m) = upserts l (filter (λ ir, P ir.2) m).
Proof.
  intros Hl. revert m. induction Hl as [|r l Hr Hl IH]; intros m; [done|].
  rewrite !upserts_cons, IH. unfold upsert. by rewrite map_filter_insert_True.
Qed.

(** Writing part of a batch before writing all of it changes nothing: this is
    why retrying a half-applied write converges. *)
Lemma upserts_retry k l m : upserts l (upserts (take k l) m) = upserts l m.
Proof.
  apply map_eq. intros i. destruct (decide (i ∈ lr_Id <$> l)) as [Hin|Hin].
  - by apply lookup_upserts_in.
  - rewrite !lookup_upserts_ne; [done|done| |done].
    intros Hin'. apply Hin. rewrite <- (take_drop k l), fmap_app. apply elem_of_app. by left.
Qed.

Lemma upserts_idem l m : upserts l (upserts l m) = upserts l m.
Proof. rewrite <- (upserts_retry (length l) l m) at 2. by rewrite take_ge. Qed.

(** ** Lemmas: the fail-stop loops *)

(** The loop returns the value of the first attempt that succeeds. *)
Lemma blockingLedgerRead_first {A} fuel n k (read : nat → option A) a :
  (k < fuel)%nat → (∀ j, (j < k)%nat → read (n + j)%nat = None) → read (n + k)%nat = Some a →
  blockingLedgerRead fuel n read = Some a.
Proof.
  revert n k. induction fuel as [|fuel IH]; intros n k Hk Hnone Hsome; [lia|]. simpl.
  destruct k as [|k].
  - rewrite Nat.add_0_r in Hsome. by rewrite Hsome.
  - specialize (Hnone 0%nat) as H0. rewrite Nat.add_0_r in H0. rewrite H0 by lia.
    apply (IH (S n) k); [lia| |by rewrite <- Hsome; f_equal; lia].
    intros j Hj. rewrite <- (Hnone (S j)) by lia. f_equal. lia.
Qed.

Lemma retry_delay_bounds n : 100 <= retry_delay n <= 30000.
Proof. induction n; cbn [retry_delay]; cbv zeta; cases_goal; z_of_bool; lia. Qed.

Lemma retry_delay_mono n : retry_delay n <= retry_delay (S n).
Proof.
  pose proof (retry_delay_bounds n). cbn [retry_delay]. cbv zeta. cases_goal; z_of_bool; lia.
Qed.

Section laws.
Context {S : Type} `{LedgerDbLaws S}.
Implicit Types s : S.

Lemma retry_store_spec fuel recs s :
  (faults s < fuel)%nat → db_wf s → Forall (λ r, lr_Id r ≠ "") recs →
  db_wf (retry_store fuel recs s) ∧ rows (retry_store fuel recs s) = upserts recs (rows s).
Proof.
  revert s. induction fuel as [|fuel IH]; intros s Hf Hwf Hids; [lia|]. simpl.
  destruct (StoreLedger recs s) as [s' ok] eqn:Hst.
  destruct (store_spec recs s s' ok Hwf Hids Hst) as (k & Hwf' & Hrows & Hok).
  destruct ok.
  - destruct Hok as [-> _]. rewrite take_ge in Hrows by lia. done.
  - destruct (IH s') as [Hw Hr]; [lia|done|done|]. split; [done|].
    by rewrite Hr, Hrows, upserts_retry.
Qed.

Lemma storeLedgerOrFail_spec recs s :
  db_wf s → Forall (λ r, lr_Id r ≠ "") recs →
  db_wf (storeLedgerOrFail recs s) ∧ rows (storeLedgerOrFail recs s) = upserts recs (rows s).
Proof. intros. apply retry_store_spec; auto with lia. Qed.
End laws.

(** ** Lemmas: queries and sums *)

Lemma zsum_filter {A} (q : A → bool) (f : A → Z) l :
  zsum (f <$> filter (λ r, q r = true) l) = zsum ((λ r, if q r then f r else 0) <$> l).
Proof.
  induction l as [|x l IH]; csimpl; [done|].
  rewrite filter_cons. destruct (q x) eqn:Hq.
  - rewrite decide_True by done. csimpl. by rewrite IH.
  - rewrite decide_False by congruence. rewrite IH. lia.
Qed.

Lemma qsum_row_list q m : qsum q m = zsum (lr_Amount <$> filter (λ r, q r = true) (row_list m)).
Proof. unfold qsum, row_list. rewrite msum_list, zsum_filter. done. Qed.

Lemma qsum_upsert q m r :
  qsum q (upsert r m) =
  (if q r then lr_Amount r else 0) + qsum q m
  - from_option (λ r, if q r then lr_Amount r else 0) 0 (m !! lr_Id r).
Proof. apply msum_insert. Qed.

Lemma qsum_upsert_new q m r :
  m !! lr_Id r = None → qsum q (upsert r m) = (if q r then lr_Amount r else 0) + qsum q m.
Proof. intros Hn. rewrite qsum_upsert, Hn. simpl. lia. Qed.

Lemma qsum_upsert_miss q m r :
  q r = false → (∀ r', m !! lr_Id r = Some r' → q r' = false) → qsum q (upsert r m) = qsum q m.
Proof.
  intros Hq Hold. rewrite qsum_upsert, Hq. destruct (m !! lr_Id r) eqn:E; simpl; [|lia].
  rewrite Hold by done. lia.
Qed.

Lemma qsum_upserts_fresh q l m :
  NoDup (lr_Id <$> l) → (∀ r, r ∈ l → m !! lr_Id r = None) →
  qsum q (upserts l m) = zsum ((λ r, if q r then lr_Amount r else 0) <$> l) + qsum q m.
Proof.
  revert m. induction l as [|r l IH]; intros m Hnd Hm; [done|].
  rewrite fmap_cons in *. apply NoDup_cons in Hnd as [Hr Hnd].
  rewrite upserts_cons, IH; [|done|].
  - rewrite qsum_upsert_new by (apply Hm; by left). cbn [zsum]. lia.
  - intros r' Hr'. unfold upsert. rewrite lookup_insert_ne; [apply Hm; by right|].
    intros Heq. apply Hr. rewrite Heq. by apply list_elem_of_fmap_2.
Qed.

(** A batch the query does not select, over rows it does not select either. *)
Lemma qsum_upserts_blind q l m :
  (∀ r, r ∈ l → q r = false) → (∀ r r', r ∈ l → m !! lr_Id r = Some r' → q r' = false) →
  qsum q (upserts l m) = qsum q m.
Proof.
  revert m. induction l as [|r l IH]; intros m Hq Hm; [done|]. rewrite upserts_cons, IH.
  - apply qsum_upsert_miss; [apply Hq; by left|]. intros r' Hr'. eapply Hm; [by left|done].
  - intros r' Hr'. apply Hq. by right.
  - intros r' r'' Hr' Hr''. unfold upsert in Hr''. destruct (decide (lr_Id r = lr_Id r')) as [E|E].
    + rewrite E, lookup_insert_eq in Hr''. simplify_eq. apply Hq. by left.
    + rewrite lookup_insert_ne in Hr'' by done. eapply Hm; [by right|done].
Qed.

Lemma qsum_ext q1 q2 m :
  (∀ k r, m !! k = Some r → q1 r = q2 r) → qsum q1 m = qsum q2 m.
Proof. intros Hq. apply msum_ext. intros k r Hr. by rewrite (Hq k r Hr). Qed.

Lemma qsum_split q p m :
  qsum q m = qsum (λ r, q r && p r) m + qsum (λ r, q r && negb (p r)) m.
Proof.
  unfold qsum. rewrite <- msum_add. apply msum_ext. intros k r _.
  destruct (q r), (p r); simpl; lia.
Qed.

Lemma elem_of_row_list m r : r ∈ row_list m ↔ ∃ k, m !! k = Some r.
Proof.
  unfold row_list. rewrite list_elem_of_fmap. split.
  - intros ([k r'] & -> & Hin). apply elem_of_map_to_list in Hin. eauto.
  - intros [k Hk]. exists (k, r). by rewrite elem_of_map_to_list.
Qed.

Section queries.
Context {S : Type} `{LedgerDbLaws S}.
Implicit Types s : S.

(** The [int64] accumulator over a range read is the wrapped sum of the
    selected rows, whatever order the store returns them in. *)
Lemma range_sum64 account lo hi asset types s :
  db_wf s →
  sum64 (lr_Amount <$> GetLedgerRange account lo hi asset types s)
  = wrap64 (qsum (in_query account lo hi asset types) (rows s)).
Proof.
  intros Hwf. rewrite sum64_wrap, qsum_row_list. apply (f_equal wrap64), zsum_Permutation.
  by rewrite range_spec.
Qed.

Lemma elem_of_range account lo hi asset types s r :
  db_wf s →
  r ∈ GetLedgerRange account lo hi asset types s ↔
  in_query account lo hi asset types r = true ∧ ∃ k, rows s !! k = Some r.
Proof.
  intros Hwf. rewrite range_spec by done. by rewrite list_elem_of_filter, elem_of_row_list.
Qed.

(** The rows of a store, and so those of any read, have different ids. *)
Lemma NoDup_row_ids s (P : LedgerRecord → Prop) `{!∀ r, Decision (P r)} :
  db_wf s → NoDup (lr_Id <$> filter P (row_list (rows s))).
Proof.
  intros Hwf. assert (NoDup (lr_Id <$> row_list (rows s))) as Hnd.
  { unfold row_list. rewrite <- list_fmap_compose.
    erewrite (list_fmap_ext _ fst); [apply NoDup_fst_map_to_list|].
    intros i [k r] Hi. simpl. apply list_elem_of_lookup_2, elem_of_map_to_list in Hi.
    by apply (rows_keyed s k r Hwf). }
  eapply sublist_NoDup; [exact Hnd|]. apply fmap_sublist, sublist_filter.
Qed.

Lemma NoDup_range account lo hi asset types s :
  db_wf s → NoDup (lr_Id <$> GetLedgerRange account lo hi asset types s).
Proof. intros Hwf. rewrite range_spec by done. by apply NoDup_row_ids. Qed.

Lemma NoDup_by_type types hi s : db_wf s → NoDup (lr_Id <$> GetLedgerRecordsByType types hi s).
Proof. intros Hwf. rewrite (proj1 (by_type_spec types hi s Hwf)). by apply NoDup_row_ids. Qed.

Lemma elem_of_by_type types hi s r :
  db_wf s →
  r ∈ GetLedgerRecordsByType types hi s ↔ (lr_Type r ∈ types ∧ lr_BlockHeight r <= hi) ∧ ∃ k, rows s !! k = Some r.
Proof.
  intros Hwf. rewrite (proj1 (by_type_spec types hi s Hwf)). by rewrite list_elem_of_filter, elem_of_row_list.
Qed.
End queries.
