(* ===== verification/ActionsDb.v ===== *)
(** The database of gateway actions: the interface [BridgeActions] of
    [modules/db/vsc/ledger/types.go] and its in-memory implementation
    [MockActionsDb] of [lib/test_utils/mock_ledger.go].

    An action is an obligation of the gateway wallet on Hive: a withdrawal to
    pay, an amount of savings to stake or to unstake, a consensus bond to
    release.  The production store is a MongoDB collection; its contract is a
    class of operations and a class of laws over the finite map from action id
    to action.  The two writes of the interface return nothing, so a caller
    cannot see one fail: the model returns whether the write landed and the
    code that calls it discards that result.  A read distinguishes a missing
    action from a fault of the database. *)
From S2P Require Import Prelude GoStrings LedgerDb.

(** ** The interface *)

Inductive get_result :=
| GetFault
| GetAbsent
| GetFound (r : ActionRecord).

Definition MaxGatewayActionBatch : nat := 100.

Definition set_ar_Status (st : string) (r : ActionRecord) : ActionRecord :=
  mkActionRecord (ar_Id r) st (ar_Amount r) (ar_Asset r) (ar_To r) (ar_Memo r) (ar_TxId r) (ar_Type r)
    (ar_Params r) (ar_BlockHeight r).

Definition set_ar_TxId (tx : string) (r : ActionRecord) : ActionRecord :=
  mkActionRecord (ar_Id r) (ar_Status r) (ar_Amount r) (ar_Asset r) (ar_To r) (ar_Memo r) tx (ar_Type r)
    (ar_Params r) (ar_BlockHeight r).

(** What completing an action does to it. *)
Definition complete_action (actionId : option string) (r : ActionRecord) : ActionRecord :=
  let r := set_ar_Status "complete" r in
  match actionId with
  | Some tx => set_ar_TxId tx r
  | None => r
  end.

Definition complete_all (actionId : option string) (ids : list string) (m : gmap string ActionRecord)
    : gmap string ActionRecord :=
  foldl (λ m id, alter (complete_action actionId) id m) m ids.

(** The query of [GetPendingActions]. *)
Definition is_pending (bh : Z) (types : list string) (r : ActionRecord) : bool :=
  String.eqb (ar_Status r) "pending" && (ar_BlockHeight r <=? bh)
  && (bool_decide (types = []) || slices_Contains types (ar_Type r)).

(** Its order: height, then id. *)
Definition action_le (a b : ActionRecord) : Prop :=
  ar_BlockHeight a < ar_BlockHeight b ∨
  (ar_BlockHeight a = ar_BlockHeight b ∧ String.le (ar_Id a) (ar_Id b)).

Definition action_list (m : gmap string ActionRecord) : list ActionRecord := (map_to_list m).*2.

Class BridgeActions (A : Type) := {
  actions : A → gmap string ActionRecord;
  get_faults : A → nat;
  act_wf : A → Prop;
  StoreAction : ActionRecord → A → A * bool;
  ExecuteComplete : option string → list string → A → A * bool;
  action_Get : string → A → A * get_result;
  GetPendingActions : Z → list string → A → list ActionRecord;
}.

Class BridgeActionsLaws (A : Type) `{BridgeActions A} : Prop := {
  actions_keyed a k r : act_wf a → actions a !! k = Some r → ar_Id r = k;
  store_action_spec r a a' ok :
    act_wf a → StoreAction r a = (a', ok) →
    act_wf a' ∧ actions a' = if ok then <[ar_Id r := r]> (actions a) else actions a;
  complete_spec tx ids a a' ok :
    act_wf a → ExecuteComplete tx ids a = (a', ok) →
    act_wf a' ∧ actions a' = if ok then complete_all tx ids (actions a) else actions a;
  action_get_spec id a a' res :
    act_wf a → action_Get id a = (a', res) →
    act_wf a' ∧ actions a' = actions a ∧
    match res with
    | GetFault => (get_faults a' < get_faults a)%nat
    | GetAbsent => actions a !! id = None
    | GetFound r => actions a !! id = Some r
    end;
  pending_spec bh types a :
    act_wf a → (∀ k r, actions a !! k = Some r → 0 <= ar_BlockHeight r <= MaxInt64) →
    ∃ l, l ≡ₚ filter (λ r, is_pending bh types r = true) (action_list (actions a)) ∧
         Sorted action_le l ∧ GetPendingActions bh types a = take MaxGatewayActionBatch l;
}.

(** ** The in-memory store *)

(** Of the instrumentation of the mock, the injected read errors are kept (one
    entry per call, [true] for an error) and the record of when an action was
    completed is left out. *)
Record MockActionsDb := mkMockActionsDb {
  Actions : gmap string ActionRecord;
  GetErrs : list bool;
}.

Definition mock_StoreAction (action : ActionRecord) (m : MockActionsDb) : MockActionsDb :=
  mkMockActionsDb (<[ar_Id action := action]> (Actions m)) (GetErrs m).

Definition mock_complete_one (actionId : option string) (m : gmap string ActionRecord) (id : string)
    : gmap string ActionRecord :=
  match m !! id with
  | Some action =>
      let action := set_ar_Status "complete" action in
      let action := match actionId with Some tx => set_ar_TxId tx action | None => action end in
      <[id := action]> m
  | None => m
  end.

Definition mock_ExecuteComplete (actionId : option string) (ids : list string) (m : MockActionsDb)
    : MockActionsDb :=
  mkMockActionsDb (foldl (mock_complete_one actionId) (Actions m) ids) (GetErrs m).

Definition mock_Get (id : string) (m : MockActionsDb) : MockActionsDb * get_result :=
  let m' := mkMockActionsDb (Actions m) (tail (GetErrs m)) in
  match GetErrs m with
  | true :: _ => (m', GetFault)
  | _ => (m', match Actions m !! id with Some d => GetFound d | None => GetAbsent end)
  end.

(** The comparison function given to the sort. *)
Definition pending_cmp_le (a b : ActionRecord) : Prop :=
  if ar_BlockHeight a =? ar_BlockHeight b then String.le (ar_Id a) (ar_Id b)
  else wrap64 (ar_BlockHeight a) -64 wrap64 (ar_BlockHeight b) <= 0.

#[export] Instance pending_cmp_dec : RelDecision pending_cmp_le.
Proof. intros a b. unfold pending_cmp_le. destruct (_ =? _); apply _. Defined.

Definition mock_GetPendingActions (bh : Z) (t : list string) (m : MockActionsDb) : list ActionRecord :=
  let result := filter (λ action,
      negb (negb (String.eqb (ar_Status action) "pending")) && negb (bh <? ar_BlockHeight action)
      && negb (negb (bool_decide (t = [])) && negb (slices_Contains t (ar_Type action))) = true)
    (action_list (Actions m)) in
  let result := merge_sort pending_cmp_le result in
  if (MaxGatewayActionBatch <? length result)%nat then take MaxGatewayActionBatch result else result.

(** The read-only and maintenance calls. *)
Definition mock_SetStatus (id status : string) (m : MockActionsDb) : MockActionsDb :=
  let zero := mkActionRecord "" "" 0 "" "" "" "" "" None 0 in
  let action := default zero (Actions m !! id) in
  mkMockActionsDb (<[id := set_ar_Status status action]> (Actions m)) (GetErrs m).

Definition mock_RevertProcessingToPending (m : MockActionsDb) : MockActionsDb * list ActionRecord :=
  let revert action := if String.eqb (ar_Status action) "processing"
                       then set_ar_Status "pending" action else action in
  (mkMockActionsDb (revert <$> Actions m) (GetErrs m),
   revert <$> filter (λ action, ar_Status action = "processing") (action_list (Actions m))).

Definition mock_GetAccountPendingConsensusUnstake (account : string) (m : MockActionsDb) : Z :=
  foldl (λ result action,
    if String.eqb (ar_To action) account && String.eqb (ar_Type action) "consensus_unstake"
       && String.eqb (ar_Status action) "pending"
    then result +64 ar_Amount action else result) 0 (action_list (Actions m)).

Definition mock_GetActionsByTxId (txId : string) (m : MockActionsDb) : list ActionRecord :=
  (filter (λ ia, HasPrefix ia.1 txId = true) (map_to_list (Actions m))).*2.

#[export] Instance MockActionsDb_ops : BridgeActions MockActionsDb := {
  actions := Actions;
  get_faults m := length (filter (λ b, b = true) (GetErrs m));
  act_wf m := ∀ k r, Actions m !! k = Some r → ar_Id r = k;
  StoreAction r m := (mock_StoreAction r m, true);
  ExecuteComplete tx ids m := (mock_ExecuteComplete tx ids m, true);
  action_Get := mock_Get;
  GetPendingActions := mock_GetPendingActions;
}.

(** ** Lemmas *)

Lemma lookup_complete_all tx ids m k :
  complete_all tx ids m !! k = (if decide (k ∈ ids) then complete_action tx <$> m !! k else m !! k).
Proof.
  unfold complete_all. revert m. induction ids as [|id ids IH]; intros m; [done|]. cbn [foldl]. rewrite IH.
  destruct (decide (k = id)) as [->|Hne].
  - rewrite lookup_alter_eq, (decide_True (P := id ∈ id :: ids)) by by left.
    destruct (decide _); [|done]. destruct (m !! id) as [r|]; [|done]. simpl.
    by destruct tx.
  - rewrite lookup_alter_ne by done. by destruct (decide (k ∈ ids)), (decide (k ∈ id :: ids)); set_solver.
Qed.

Lemma complete_action_keeps tx r :
  let r' := complete_action tx r in
  ar_Id r' = ar_Id r ∧ ar_Amount r' = ar_Amount r ∧ ar_To r' = ar_To r ∧ ar_Type r' = ar_Type r.
Proof. by destruct tx. Qed.

Lemma mock_complete_alter tx m id : mock_complete_one tx m id = alter (complete_action tx) id m.
Proof.
  unfold mock_complete_one. apply map_eq. intros k. destruct (m !! id) as [r|] eqn:Hr.
  - destruct (decide (k = id)) as [->|]; [|by rewrite lookup_insert_ne, lookup_alter_ne].
    rewrite lookup_insert_eq, lookup_alter_eq, Hr. by destruct tx.
  - destruct (decide (k = id)) as [->|]; [by rewrite lookup_alter_eq, Hr|by rewrite lookup_alter_ne].
Qed.

Lemma elem_of_action_list m r : r ∈ action_list m ↔ ∃ k, m !! k = Some r.
Proof.
  unfold action_list. rewrite list_elem_of_fmap. split.
  - intros ([k r'] & -> & Hin). apply elem_of_map_to_list in Hin. eauto.
  - intros [k Hk]. exists (k, r). by rewrite elem_of_map_to_list.
Qed.

Lemma Sorted_strengthen {A} (R R' : A → A → Prop) (P : A → Prop) l :
  (∀ x y, P x → P y → R x y → R' x y) → Forall P l → Sorted R l → Sorted R' l.
Proof.
  intros HR HP HS. induction HS as [|x l HS IH Hd]; [constructor|].
  apply Forall_cons in HP as [Hx HP]. constructor; [by apply IH|].
  destruct Hd as [|y l Hxy]; constructor. apply Forall_cons in HP as [Hy _]. by apply HR.
Qed.

Lemma i64_sub_total a b : a -64 b <= 0 ∨ b -64 a <= 0.
Proof.
  destruct (Z.le_gt_cases (a -64 b) 0) as [|Hpos]; [by left|right].
  pose proof (wrap64_range (a - b)) as Hr. unfold i64_sub in *.
  assert (wrap64 (b - a) = - wrap64 (a - b)); [|lia].
  rewrite <- (wrap64_id (- wrap64 (a - b))) by (unfold i64, MinInt64, MaxInt64 in *; lia).
  rewrite wrap64_opp. apply (f_equal wrap64). lia.
Qed.

#[export] Instance pending_cmp_total : Total pending_cmp_le.
Proof.
  intros a b. unfold pending_cmp_le. rewrite (Z.eqb_sym (ar_BlockHeight b)).
  destruct (_ =? _); [apply (total String.le)|apply i64_sub_total].
Qed.

Lemma pending_cmp_action_le a b :
  0 <= ar_BlockHeight a <= MaxInt64 → 0 <= ar_BlockHeight b <= MaxInt64 →
  pending_cmp_le a b → action_le a b.
Proof.
  intros Ha Hb. unfold pending_cmp_le, action_le.
  destruct (Z.eqb_spec (ar_BlockHeight a) (ar_BlockHeight b)); [by right|]. intros Hc. left.
  unfold MaxInt64 in Ha, Hb.
  rewrite !(wrap64_id (ar_BlockHeight _)) in Hc by (unfold i64, MinInt64, MaxInt64; lia).
  rewrite i64_sub_exact in Hc by (unfold i64, MinInt64, MaxInt64; lia). lia.
Qed.

#[export] Instance action_le_trans : Transitive action_le.
Proof.
  intros a b c [?|[? ?]] [?|[? ?]]; unfold action_le; [lia..|]. right. split; [lia|]. by etrans.
Qed.

(** The in-memory store meets the contract. *)
#[export] Instance MockActionsDb_laws : BridgeActionsLaws MockActionsDb.
Proof.
  split; simpl.
  - auto.
  - intros r a a' ok Hwf [= <- <-]. split; [|done]. simpl. intros k r' Hk.
    apply lookup_insert_Some in Hk as [[<- <-]|[_ Hk]]; [done|by apply Hwf].
  - intros tx ids a a' ok Hwf [= <- <-].
    assert (Actions (mock_ExecuteComplete tx ids a) = complete_all tx ids (Actions a)) as Heq.
    { unfold mock_ExecuteComplete, complete_all. simpl. generalize (Actions a) as m. clear.
      induction ids as [|id ids IH]; intros m; [done|]. cbn [foldl]. by rewrite mock_complete_alter, IH. }
    split; [|done]. intros k r. rewrite Heq, lookup_complete_all.
    destruct (decide _); [|by apply Hwf]. intros (r0 & Hr0 & ->)%fmap_Some.
    destruct (complete_action_keeps tx r0) as [Hid _]. rewrite Hid. by apply Hwf.
  - intros id [acts errs] a' res Hwf. unfold mock_Get. simpl.
    destruct errs as [|[] errs]; intros [= <- <-]; (split; [done|]); (split; [done|]); simpl; try lia;
      by destruct (acts !! id) eqn:?.
  - intros bh t [acts errs] Hwf Hh. simpl in *. unfold mock_GetPendingActions. cbv zeta. cbn [Actions].
    match goal with |- context [merge_sort _ ?l] => exists (merge_sort pending_cmp_le l) end. split_and!.
    3:{ match goal with |- context [merge_sort _ ?l] => set (res := merge_sort pending_cmp_le l) end.
        destruct (Nat.ltb_spec MaxGatewayActionBatch (length res)); [done|]. by rewrite take_ge by lia. }
    + rewrite merge_sort_Permutation. erewrite list_filter_iff; [done|]. intros r. unfold is_pending.
      rewrite !negb_involutive, Z.leb_antisym, negb_andb, !negb_involutive. done.
    + eapply Sorted_strengthen; [intros x y Hx Hy; apply (pending_cmp_action_le x y Hx Hy)| |
        apply (Sorted_merge_sort pending_cmp_le)].
      rewrite merge_sort_Permutation. apply Forall_forall.
      intros r [_ (k & Hk)%elem_of_action_list]%list_elem_of_filter. by eapply Hh.
Qed.
