(* ===== verification/LedgerTypes.v ===== *)
(** The data of the ledger system: the types of
    [modules/ledger-system/types.go], the record-type constants of
    [ledger_system.go], the asset lists and key builders of [utils.go] and the
    protocol accounts of [modules/common/params/params.go]. *)
From S2P Require Import Prelude GoStrings LedgerDb.

(** ** Types *)

(** A balance change that has not reached the database yet. *)
Record LedgerUpdate := mkLedgerUpdate {
  lu_Id : string;
  lu_BlockHeight : Z;
  lu_BIdx : Z;
  lu_OpIdx : Z;
  lu_Owner : string;
  lu_Amount : Z;
  lu_Asset : string;
  lu_Memo : string;
  lu_Type : string;
}.

(** An update with the fields [ExecuteOplog] sets. *)
Definition update (id owner : string) (amount : Z) (asset ty : string) (bh : Z) : LedgerUpdate :=
  mkLedgerUpdate id bh 0 0 owner amount asset "" ty.

Record OpLogEvent := mkOpLogEvent {
  op_To : string;
  op_From : string;
  op_Amount : Z;
  op_Asset : string;
  op_Memo : string;
  op_Type : string;
  op_Id : string;
  op_BIdx : Z;
  op_OpIdx : Z;
  op_BlockHeight : Z;
  op_Params : Params;
}.

Definition set_op_Id (id : string) (v : OpLogEvent) : OpLogEvent :=
  mkOpLogEvent (op_To v) (op_From v) (op_Amount v) (op_Asset v) (op_Memo v) (op_Type v) id
    (op_BIdx v) (op_OpIdx v) (op_BlockHeight v) (op_Params v).

Definition set_op_Type (ty : string) (v : OpLogEvent) : OpLogEvent :=
  mkOpLogEvent (op_To v) (op_From v) (op_Amount v) (op_Asset v) (op_Memo v) ty (op_Id v)
    (op_BIdx v) (op_OpIdx v) (op_BlockHeight v) (op_Params v).

Record WithdrawParams := mkWithdrawParams {
  wp_Id : string;
  wp_From : string;
  wp_To : string;
  wp_Asset : string;
  wp_Amount : Z;
  wp_Memo : string;
  wp_BIdx : Z;
  wp_OpIdx : Z;
  wp_BlockHeight : Z;
}.

Record ConsensusParams := mkConsensusParams {
  cp_Id : string;
  cp_From : string;
  cp_To : string;
  cp_Amount : Z;
  cp_Type : string;
  cp_BlockHeight : Z;
  cp_ElectionEpoch : Z;
  cp_Delegated : bool;
}.

Record SafetySlashConsensusParams := mkSafetySlashConsensusParams {
  sp_Account : string;
  sp_SlashBps : Z;
  sp_TxID : string;
  sp_BlockHeight : Z;
  sp_EvidenceKind : string;
  sp_BurnDelayBlocks : Z;
}.

Record CancelPendingSafetySlashBurnParams := mkCancelPendingSafetySlashBurnParams {
  cancel_TxID : string;
  cancel_EvidenceKind : string;
  cancel_SlashedAccount : string;
  cancel_BlockHeight : Z;
  cancel_Reason : string;
}.

Record ReverseSafetySlashConsensusDebitParams := mkReverseSafetySlashConsensusDebitParams {
  rev_TxID : string;
  rev_EvidenceKind : string;
  rev_Account : string;
  rev_Amount : Z;
  rev_BlockHeight : Z;
  rev_Reason : string;
  rev_OpInstanceID : string;
}.

Record ReservePayoutParams := mkReservePayoutParams {
  pay_ProposalID : string;
  pay_Recipient : string;
  pay_Amount : Z;
  pay_BlockHeight : Z;
  pay_Reason : string;
}.

Record LedgerResult := mkLedgerResult {
  Ok : bool;
  Msg : string;
}.

Definition fail (msg : string) : LedgerResult := mkLedgerResult false msg.
Definition success : LedgerResult := mkLedgerResult true "success".

(** [TransferOptions]: the HBD amount that cannot be sent. *)
Record TransferOptions := mkTransferOptions { Exclusion : Z }.

(** [StakeOp] embeds an [OpLogEvent]. *)
Record StakeOp := mkStakeOp {
  so_Op : OpLogEvent;
  so_Instant : bool;
  so_NoFail : bool;
}.

Record Deposit_t := mkDeposit {
  dep_Id : string;
  dep_OpIdx : Z;
  dep_BIdx : Z;
  dep_BlockHeight : Z;
  dep_Account : string;
  dep_Amount : Z;
  dep_Asset : string;
  dep_Memo : string;
  dep_From : string;
  dep_HivePrefixRecipientFix : bool;
}.

Record OplogInjestOptions := mkOplogInjestOptions {
  StartHeight : Z;
  EndHeight : Z;
}.

Record ExtraInfo := mkExtraInfo {
  ei_BlockHeight : Z;
  ei_ActionId : string;
}.

Record ActionUpdate := mkActionUpdate {
  Ops : list string;
  ClearedOps : string;
}.

#[export] Instance LedgerUpdate_eq_dec : EqDecision LedgerUpdate.
Proof. solve_decision. Defined.
#[export] Instance OpLogEvent_eq_dec : EqDecision OpLogEvent.
Proof. solve_decision. Defined.
#[export] Instance LedgerResult_eq_dec : EqDecision LedgerResult.
Proof. solve_decision. Defined.

(** ** Assets and keys ([utils.go]) *)

Definition transferableAssetTypes : list string := ["hive"; "hbd"; "hbd_savings"].
Definition AssetDelegation : string := "delegation".
Definition AssetDelegationTotal : string := "delegation_total".
Definition assetTypes : list string :=
  transferableAssetTypes ++ ["hive_consensus"; AssetDelegation; AssetDelegationTotal].

Definition delegationEdgeSep : string := "::".
Definition DelegationEdgeKey (from to : string) : string := (from +:+ delegationEdgeSep +:+ to)%string.

(** ** Record types ([ledger_system.go]) *)

Definition LedgerTypeSafetySlashConsensus : string := "safety_slash_consensus".
Definition LedgerTypeSafetySlashHiveBurn : string := "safety_slash_hive_burn".
Definition LedgerTypeSafetySlashReserve : string := "safety_slash_reserve".
Definition LedgerTypeSafetySlashHiveBurnPending : string := "safety_slash_hive_burn_pending".
Definition LedgerTypeSafetySlashHiveBurnPendingRelease : string :=
  "safety_slash_hive_burn_pending_release".
Definition LedgerTypeSafetySlashHiveBurnPendingFinalized : string :=
  "safety_slash_hive_burn_pending_finalized".
Definition LedgerTypeSafetySlashHiveBurnPendingCancelled : string :=
  "safety_slash_hive_burn_pending_cancelled".
Definition LedgerTypeSafetySlashConsensusReverse : string := "safety_slash_consensus_reverse".
Definition LedgerTypeSafetySlashBurnFinalizeCursor : string := "safety_slash_burn_finalize_cursor".
Definition safetySlashFinalizeCursorRowID : string := "safety_slash_burn_finalize_cursor".
Definition LedgerTypeReservePayoutDebit : string := "reserve_payout_debit".
Definition LedgerTypeReservePayoutCredit : string := "reserve_payout_credit".
Definition LedgerTypeRemediationCredit : string := "remediation_credit".
Definition LedgerTypeRemediationDebit : string := "remediation_debit".

Definition IsProtocolMetaLedgerType (t : string) : bool :=
  slices_Contains
    [LedgerTypeSafetySlashHiveBurn; LedgerTypeSafetySlashReserve;
     LedgerTypeSafetySlashHiveBurnPending; LedgerTypeSafetySlashHiveBurnPendingRelease;
     LedgerTypeSafetySlashHiveBurnPendingFinalized; LedgerTypeSafetySlashHiveBurnPendingCancelled;
     LedgerTypeSafetySlashBurnFinalizeCursor; LedgerTypeReservePayoutDebit;
     LedgerTypeRemediationDebit] t.

(** The types that move the [hive_consensus] balance ([ledger_state.go]). *)
Definition hiveConsensusLedgerOps : list string :=
  ["consensus_stake"; "consensus_unstake"; LedgerTypeSafetySlashConsensus;
   LedgerTypeSafetySlashConsensusReverse; LedgerTypeRemediationCredit].

(** ** Accounts *)

Definition FR_VIRTUAL_ACCOUNT : string := "system:fr_balance".
Definition DAO_WALLET : string := "hive:vsc.dao".
Definition ProtocolSlashBurnAccount : string := "system:protocol_slash_burn".
Definition ProtocolSlashReserveAccount : string := "system:protocol_slash_reserve".
Definition ProtocolSlashPendingBurnAccount : string := "system:protocol_slash_burn_pending".
Definition ProtocolSlashFinalizeCursorAccount : string := "system:protocol_slash_finalize_cursor".
Definition PendulumNodesHBDBucket : string := "pendulum:nodes".

Definition normalizeHiveConsensusAccount (a : string) : string :=
  let a := TrimSpace a in
  if String.eqb a "" then ""
  else if HasPrefix a "hive:" then a
  else ("hive:" +:+ a)%string.
