(* ===== verification/Oplog.v ===== *)
(** The oplog executor, [modules/ledger-system/utils.go].

    [ExecuteOplog] is the pure function that turns a list of operations into
    the ledger rows and the gateway actions they stand for.  A session runs it
    on one event at a time while a block is being executed ([LedgerSession.v]);
    the node runs it again on the whole oplog of a finalized block
    ([LedgerSystem.v]).  The theorems show that it conserves value, that the
    rows it writes never overwrite one another, and that the two uses agree. *)
From S2P Require Import Prelude GoStrings LedgerDb LedgerTypes.

(** ** Parameters of an event *)

Definition opDelegated (v : OpLogEvent) : bool :=
  match pget (op_Params v) "delegated" with
  | VBool d => d
  | _ => false
  end.

(** The conversion [int64(x)] of a [float64] whose integral part does not fit
    gives the smallest integer on amd64. *)
Definition opReleased (v : OpLogEvent) (fallback : Z) : Z :=
  match pget (op_Params v) "released" with
  | VInt64 x => x
  | VFloat64 x => if IsInt64 x then x else MinInt64
  | VUint64 x => wrap64 x
  | VInt x => x
  | _ => fallback
  end.

(** ** The executor *)

Record OplogResult := mkOplogResult {
  accounts : gset string;
  ledgerRecords : list LedgerUpdate;
  actionRecords : list ActionRecord;
}.

Definition empty_result : OplogResult := mkOplogResult ∅ [] [].

Definition emit (accs : gset string) (recs : list LedgerUpdate) (acts : list ActionRecord)
    (r : OplogResult) : OplogResult :=
  mkOplogResult (accounts r ∪ accs) (ledgerRecords r ++ recs) (actionRecords r ++ acts).

Definition pending_action (v : OpLogEvent) (amount : Z) (asset to ty : string) (ps : Params)
    (bh : Z) : ActionRecord :=
  mkActionRecord (op_Id v) "pending" amount asset to (op_Memo v) (op_Id v) ty ps bh.

Definition exec_transfer (endBlock : Z) (v : OpLogEvent) (r : OplogResult) : OplogResult :=
  emit {[op_From v; op_To v]}
    [update (op_Id v +:+ "#in") (op_From v) (-64 (op_Amount v)) (op_Asset v) "transfer" endBlock;
     update (op_Id v +:+ "#out") (op_To v) (op_Amount v) (op_Asset v) "transfer" endBlock]
    [] r.

Definition exec_withdraw (endBlock : Z) (v : OpLogEvent) (r : OplogResult) : OplogResult :=
  emit {[op_From v]}
    [update (op_Id v +:+ "#in") (op_From v) (-64 (op_Amount v)) (op_Asset v) "withdraw" endBlock]
    [pending_action v (op_Amount v) (op_Asset v) (op_To v) "withdraw" None (op_BlockHeight v)] r.

Definition exec_stake (endBlock : Z) (v : OpLogEvent) (r : OplogResult) : OplogResult :=
  emit {[op_From v]}
    [update (op_Id v +:+ "#in") (op_From v) (-64 (op_Amount v)) "hbd" "stake" endBlock]
    [pending_action v (op_Amount v) "hbd_savings" (op_To v) "stake" None endBlock] r.

Definition exec_unstake (endBlock : Z) (v : OpLogEvent) (r : OplogResult) : OplogResult :=
  emit {[op_From v]}
    [update (op_Id v +:+ "#in") (op_From v) (-64 (op_Amount v)) "hbd_savings" "unstake" endBlock]
    [pending_action v (op_Amount v) "hbd_savings" (op_To v) "unstake" None endBlock] r.

Definition exec_consensus_stake (endBlock : Z) (v : OpLogEvent) (r : OplogResult) : OplogResult :=
  let r := emit ∅
    [update (op_Id v +:+ "#in") (op_From v) (-64 (op_Amount v)) "hive" "consensus_stake" endBlock;
     update (op_Id v +:+ "#out") (op_To v) (op_Amount v) "hive_consensus" "consensus_stake" endBlock]
    [] r in
  if opDelegated v then
    emit ∅
      [update (op_Id v +:+ "#edge") (DelegationEdgeKey (op_From v) (op_To v)) (op_Amount v)
         AssetDelegation "consensus_stake" endBlock;
       update (op_Id v +:+ "#total") (op_To v) (op_Amount v)
         AssetDelegationTotal "consensus_stake" endBlock] [] r
  else r.

Definition exec_consensus_unstake (endBlock : Z) (v : OpLogEvent) (r : OplogResult) : OplogResult :=
  let epoch := pget (op_Params v) "epoch" in
  if opDelegated v then
    let released := opReleased v (op_Amount v) in
    emit ∅
      [update (op_Id v +:+ "#in") (op_To v) (-64 released) "hive_consensus" "consensus_unstake" endBlock;
       update (op_Id v +:+ "#edge") (DelegationEdgeKey (op_From v) (op_To v)) (-64 (op_Amount v))
         AssetDelegation "consensus_unstake" endBlock;
       update (op_Id v +:+ "#total") (op_To v) (-64 (op_Amount v))
         AssetDelegationTotal "consensus_unstake" endBlock]
      [pending_action v released "-" (op_From v) "consensus_unstake"
         (Some (<["epoch" := epoch]> {["node" := VStr (op_To v)]})) endBlock] r
  else
    emit ∅
      [update (op_Id v +:+ "#in") (op_From v) (-64 (op_Amount v)) "hive_consensus"
         "consensus_unstake" endBlock]
      [pending_action v (op_Amount v) "-" (op_To v) "consensus_unstake"
         (Some (<["epoch" := epoch]> {["from" := VStr (op_From v)]})) endBlock] r.

(** One round of the loop: the type tests are made in turn, on a field nothing
    in the body changes. *)
Definition exec_event (endBlock : Z) (r : OplogResult) (v : OpLogEvent) : OplogResult :=
  let has ty := String.eqb (op_Type v) ty in
  let r := if has "transfer" then exec_transfer endBlock v r else r in
  let r := if has "withdraw" then exec_withdraw endBlock v r else r in
  let r := if has "stake" then exec_stake endBlock v r else r in
  let r := if has "unstake" then exec_unstake endBlock v r else r in
  let r := if has "consensus_stake" then exec_consensus_stake endBlock v r else r in
  if has "consensus_unstake" then exec_consensus_unstake endBlock v r else r.

Definition ExecuteOplog (oplog : list OpLogEvent) (startHeight endBlock : Z) : OplogResult :=
  foldl (exec_event endBlock) empty_result oplog.

(** ** [FilterLedgerOps] *)

Record FilterLedgerParams := mkFilterLedgerParams {
  FinalHeight : Z;
  BelowBIdx : Z;
  BelowOpIdx : Z;
}.

Definition ledger_op_allowed (query : FilterLedgerParams) (v : LedgerUpdate) : bool :=
  if lu_BlockHeight v <? FinalHeight query then true
  else if lu_BlockHeight v =? FinalHeight query then
    if lu_BIdx v <? BelowBIdx query then lu_OpIdx v <? BelowOpIdx query else false
  else false.

Definition FilterLedgerOps (query : FilterLedgerParams) (array : list LedgerUpdate) :
    list LedgerUpdate :=
  foldl (λ out v, if ledger_op_allowed query v then out ++ [v] else out) [] array.

(** ** Accounting

    What a row or an action counts for.  The [hive] family holds spendable hive
    and bonded hive, the [hbd] family liquid and saved hbd; an action that is
    still pending holds the value that has left the ledger for the gateway. *)
Inductive family := Hive | Hbd.

Definition row_in (f : family) (asset : string) : bool :=
  match f with
  | Hive => slices_Contains ["hive"; "hive_consensus"] asset
  | Hbd => slices_Contains ["hbd"; "hbd_savings"] asset
  end.

Definition action_in (f : family) (a : ActionRecord) : bool :=
  match f with
  | Hive => slices_Contains ["hive"; "-"] (ar_Asset a)
  | Hbd => slices_Contains ["hbd"; "hbd_savings"] (ar_Asset a)
  end.

Definition if_amount (b : bool) (z : Z) : Z := if b then z else 0.

Definition rows_value (f : family) (l : list LedgerUpdate) : Z :=
  zsum ((λ u, if_amount (row_in f (lu_Asset u)) (lu_Amount u)) <$> l).

Definition actions_value (f : family) (l : list ActionRecord) : Z :=
  zsum ((λ a, if_amount (action_in f a) (ar_Amount a)) <$> l).

(** The rows of one asset, in total. *)
Definition asset_value (asset : string) (l : list LedgerUpdate) : Z :=
  zsum ((λ u, if_amount (String.eqb (lu_Asset u) asset) (lu_Amount u)) <$> l).

(** The rows of one owner and asset. *)
Definition owner_value (owner asset : string) (l : list LedgerUpdate) : Z :=
  zsum ((λ u, if_amount (String.eqb (lu_Owner u) owner && String.eqb (lu_Asset u) asset)
                (lu_Amount u)) <$> l).

(** The amounts of an event can be negated, and a withdrawal is of a
    withdrawable asset: what the session operations check. *)
Definition op_wf (v : OpLogEvent) : Prop :=
  0 <= op_Amount v <= MaxInt64 ∧ 0 <= opReleased v (op_Amount v) <= MaxInt64 ∧
  (op_Type v = "withdraw" → slices_Contains ["hive"; "hbd"; "eth"; "usdc"] (op_Asset v) = true).

#[export] Instance op_wf_dec v : Decision (op_wf v).
Proof. solve_decision. Defined.

(** A row without the height at which it is written. *)
Definition at_height (bh : Z) (u : LedgerUpdate) : LedgerUpdate :=
  mkLedgerUpdate (lu_Id u) bh (lu_BIdx u) (lu_OpIdx u) (lu_Owner u) (lu_Amount u) (lu_Asset u)
    (lu_Memo u) (lu_Type u).

(** The rows and actions of one event, the types an event can have and the
    suffixes its row ids get. *)
Definition event_rows (h : Z) (v : OpLogEvent) : list LedgerUpdate :=
  ledgerRecords (exec_event h empty_result v).
Definition event_actions (h : Z) (v : OpLogEvent) : list ActionRecord :=
  actionRecords (exec_event h empty_result v).

Definition op_kinds : list string :=
  ["transfer"; "withdraw"; "stake"; "unstake"; "consensus_stake"; "consensus_unstake"].

Definition suffixes : list string := ["#in"; "#out"; "#edge"; "#total"].

(** ** Lemmas: the executor event by event *)

(** Case analysis on the type of an event, and on its era where it matters. *)
Ltac op_cases v :=
  let Hty := fresh "Hty" in
  destruct (decide (op_Type v ∈ op_kinds)) as [Hty|Hty];
  [ unfold op_kinds in Hty; rewrite !elem_of_cons, elem_of_nil in Hty;
    destruct_or! Hty
  | unfold op_kinds in Hty; rewrite !not_elem_of_cons in Hty; destruct_and! Hty ];
  unfold event_rows, event_actions, exec_event; cbv zeta;
  repeat (rewrite (proj2 (String.eqb_neq _ _)) by eassumption); rewrite ?Hty; cbn [String.eqb Ascii.eqb Bool.eqb];
  unfold exec_transfer, exec_withdraw, exec_stake, exec_unstake, exec_consensus_stake,
    exec_consensus_unstake; cbv zeta;
  try match goal with |- context [opDelegated v] => destruct (opDelegated v) eqn:Hdel end.

Lemma emit_empty r : emit ∅ [] [] r = r.
Proof. destruct r. unfold emit. simpl. by rewrite union_empty_r_L, !app_nil_r. Qed.

Lemma emit_emit a1 l1 k1 a2 l2 k2 r :
  emit a2 l2 k2 (emit a1 l1 k1 r) = emit (a1 ∪ a2) (l1 ++ l2) (k1 ++ k2) r.
Proof. unfold emit. simpl. by rewrite !app_assoc, (assoc_L (∪)). Qed.

Lemma exec_event_emit h v r :
  exec_event h r v
  = emit (accounts (exec_event h empty_result v)) (event_rows h v) (event_actions h v) r.
Proof.
  destruct r. op_cases v; rewrite ?emit_emit; unfold emit; simpl; f_equal;
    rewrite ?union_empty_l_L, ?union_empty_r_L, ?app_nil_r; done.
Qed.

Lemma exec_events_emit h l r :
  foldl (exec_event h) r l
  = emit (⋃ ((λ v, accounts (exec_event h empty_result v)) <$> l))
      (l ≫= event_rows h) (l ≫= event_actions h) r.
Proof.
  revert r. induction l as [|v l IH]; intros r; csimpl; [by rewrite emit_empty|].
  by rewrite IH, (exec_event_emit h v r), emit_emit.
Qed.

Lemma ExecuteOplog_rows l s h : ledgerRecords (ExecuteOplog l s h) = l ≫= event_rows h.
Proof. unfold ExecuteOplog. by rewrite exec_events_emit. Qed.

Lemma ExecuteOplog_actions l s h : actionRecords (ExecuteOplog l s h) = l ≫= event_actions h.
Proof. unfold ExecuteOplog. by rewrite exec_events_emit. Qed.

Lemma event_rows_at h h' v : at_height h <$> event_rows h' v = event_rows h v.
Proof. op_cases v; done. Qed.

(** ** Lemmas: accounting *)

Lemma rows_value_app f l k : rows_value f (l ++ k) = rows_value f l + rows_value f k.
Proof. unfold rows_value. by rewrite fmap_app, zsum_app. Qed.

Lemma actions_value_app f l k : actions_value f (l ++ k) = actions_value f l + actions_value f k.
Proof. unfold actions_value. by rewrite fmap_app, zsum_app. Qed.

Lemma asset_value_app a l k : asset_value a (l ++ k) = asset_value a l + asset_value a k.
Proof. unfold asset_value. by rewrite fmap_app, zsum_app. Qed.

Lemma owner_value_app o a l k : owner_value o a (l ++ k) = owner_value o a l + owner_value o a k.
Proof. unfold owner_value. by rewrite fmap_app, zsum_app. Qed.

(** One event moves value between rows and pending actions of its family. *)
Lemma event_conserves f h v :
  op_wf v → rows_value f (event_rows h v) + actions_value f (event_actions h v) = 0.
Proof.
  intros (Ham & Hrel & Hasset).
  op_cases v; unfold rows_value, actions_value, action_in; csimpl;
    rewrite ?(i64_neg_exact (op_Amount v)), ?(i64_neg_exact (opReleased v _)) by done.
  - destruct (row_in f (op_Asset v)); simpl; lia.
  - apply Hasset, slices_Contains_spec in Hty. rewrite !elem_of_cons, elem_of_nil in Hty.
    destruct_or! Hty; rewrite Hty; destruct f; simpl; lia.
  - destruct f; simpl; lia.
  - destruct f; simpl; lia.
  - destruct f; simpl; lia.
  - destruct f; simpl; lia.
  - destruct f; simpl; lia.
  - destruct f; simpl; lia.
  - done.
Qed.

(** Every delegation edge a row adds to is matched in the gross total. *)
Lemma event_delegation h v :
  asset_value AssetDelegation (event_rows h v) = asset_value AssetDelegationTotal (event_rows h v)
  ∨ op_Type v ∈ ["transfer"; "withdraw"].
Proof.
  op_cases v; try (left; unfold asset_value; csimpl; simpl; lia); right; rewrite !elem_of_cons; auto.
Qed.

Lemma bind_value {A B} (g : list B → Z) (k : A → list B) (l : list A) :
  (g [] = 0) → (∀ a b, g (a ++ b) = g a + g b) → g (l ≫= k) = zsum ((λ x, g (k x)) <$> l).
Proof. intros H0 Happ. induction l as [|x l IH]; csimpl; [done|]. by rewrite Happ, IH. Qed.

(** ** Lemmas: row ids *)

Lemma event_row_ids h v :
  ∃ sfx, lu_Id <$> event_rows h v = (λ x, op_Id v +:+ x) <$> sfx ∧ sfx ⊆ suffixes ∧ NoDup sfx.
Proof.
  op_cases v;
    [exists ["#in"; "#out"]|exists ["#in"]|exists ["#in"]|exists ["#in"]|
     exists ["#in"; "#out"; "#edge"; "#total"]|exists ["#in"; "#out"]|
     exists ["#in"; "#edge"; "#total"]|exists ["#in"]|exists []];
    (split; [done|split; [|by apply (bool_decide_unpack _)]]);
    unfold suffixes; set_solver.
Qed.

Lemma suffix_inj a b x y :
  x ∈ suffixes → y ∈ suffixes → a +:+ x = b +:+ y → a = b ∧ x = y.
Proof.
  assert (∀ z, z ∈ suffixes → hash_suffix z = true) as Hs.
  { apply Forall_forall. by apply (bool_decide_unpack _). }
  intros Hx Hy. by apply hash_suffix_inj; apply Hs.
Qed.

Lemma event_rows_NoDup h l : NoDup (op_Id <$> l) → NoDup (lu_Id <$> (l ≫= event_rows h)).
Proof.
  induction l as [|v l IH]; csimpl; [by constructor|]. intros [Hv Hl]%NoDup_cons.
  destruct (event_row_ids h v) as (sfx & Hids & Hsub & Hnd). rewrite fmap_app, Hids.
  apply NoDup_app. split; [|split; [|by apply IH]].
  - apply NoDup_fmap_2_strong; [|done]. intros x y Hx Hy Heq. by eapply suffix_inj in Heq as [_ ?]; auto.
  - intros i (x & -> & Hx)%list_elem_of_fmap Hin. apply Hv.
    apply list_elem_of_fmap in Hin as (u & Hu & (w & Hw & Hin)%list_elem_of_bind).
    apply list_elem_of_fmap. exists w. split; [|done].
    destruct (event_row_ids h w) as (sfx' & Hids' & Hsub' & _).
    apply (list_elem_of_fmap_2 lu_Id) in Hw. rewrite Hids', <- Hu in Hw.
    apply list_elem_of_fmap in Hw as (y & Heq & Hy). by eapply suffix_inj in Heq as [? _]; auto.
Qed.

(** ** Properties *)

(** C26: executing an oplog neither creates nor destroys value.  In each asset
    family (hive with bonded hive; hbd with saved hbd) the rows written and the
    gateway actions left pending sum to zero, for every oplog whose amounts are
    non-negative and whose withdrawals are of a withdrawable asset; slashed
    releases are covered, because the bond is debited by what the action pays. *)
Theorem ExecuteOplog_conserves f l s h :
  Forall op_wf l →
  rows_value f (ledgerRecords (ExecuteOplog l s h))
  + actions_value f (actionRecords (ExecuteOplog l s h)) = 0.
Proof.
  rewrite ExecuteOplog_rows, ExecuteOplog_actions.
  induction 1 as [|v l Hv _ IH]; csimpl; [done|].
  rewrite rows_value_app, actions_value_app. pose proof (event_conserves f h v Hv). lia.
Qed.

Lemma ExecuteOplog_conserves_witness :
  let tr := mkOpLogEvent "hive:bob" "hive:alice" 5 "hive" "" "transfer" "t1" 0 0 7 None in
  let un := mkOpLogEvent "hive:node" "hive:alice" 9 "hive" "" "consensus_unstake" "t2" 0 0 7
              (Some (<["delegated" := VBool true]> {["released" := VInt64 6]})) in
  rows_value Hive (ledgerRecords (ExecuteOplog [tr; un] 0 10)) = -6 ∧
  rows_value Hive (ledgerRecords (ExecuteOplog [tr; un] 0 10))
  + actions_value Hive (actionRecords (ExecuteOplog [tr; un] 0 10)) = 0.
Proof.
  intros tr un. split; [by vm_compute|].
  apply (ExecuteOplog_conserves Hive [tr; un] 0 10). by apply (bool_decide_unpack _).
Defined.

(** The rows of an oplog never collide.  The database upserts by row id, so
    two rows with one id would lose a balance change; when the operations of
    the oplog have distinct ids, whatever characters they contain, all the row
    ids [ExecuteOplog] derives from them are distinct. *)
Theorem ExecuteOplog_ids_distinct l s h :
  NoDup (op_Id <$> l) → NoDup (lu_Id <$> ledgerRecords (ExecuteOplog l s h)).
Proof. rewrite ExecuteOplog_rows. apply event_rows_NoDup. Qed.

Lemma ExecuteOplog_ids_distinct_witness :
  let tr id := mkOpLogEvent "hive:bob" "hive:alice" 5 "hive" "" "transfer" id 0 0 7 None in
  NoDup (lu_Id <$> ledgerRecords (ExecuteOplog [tr "t#in"; tr "t"; tr "t:1"] 0 10)).
Proof.
  intros tr. apply ExecuteOplog_ids_distinct. by apply (bool_decide_unpack _).
Defined.
