(* ===== verification/LedgerState.v ===== *)
(** The execution-time view of the ledger, [modules/ledger-system/ledger_state.go].

    [LedgerState] holds the operations executed since the last block in memory
    (the oplog and the virtual ledger) on top of the balance snapshots and the
    ledger rows of the database.  The theorems show that a balance read is the
    fold of the whole ledger of the account, however far back the snapshot is,
    and that the two reads of the bonded balance agree.

    The database handles are never nil here, so [Validate] has nothing to
    check, and [vlMu] serialises every access, so each operation is one step. *)
From S2P Require Import Prelude GoStrings LedgerDb LedgerTypes Oplog.

(** ** State *)

Record LedgerState (S : Type) := mkLedgerState {
  ls_Oplog : list OpLogEvent;
  VirtualLedger : gmap string (list LedgerUpdate);
  GatewayBalances : gmap string Z;
  ls_BlockHeight : Z;
  ls_LedgerDb : S;
  (** [GetBalanceRecord]: the newest snapshot of the account at or below the
      height; [None] when there is none yet. *)
  ls_GetBalanceRecord : string → Z → option BalanceRecord;
}.

#[global] Arguments mkLedgerState {S}.
#[global] Arguments ls_Oplog {S}.
#[global] Arguments VirtualLedger {S}.
#[global] Arguments GatewayBalances {S}.
#[global] Arguments ls_BlockHeight {S}.
#[global] Arguments ls_LedgerDb {S}.
#[global] Arguments ls_GetBalanceRecord {S}.

(** ** Operations *)

Definition zero_record : BalanceRecord := mkBalanceRecord "" 0 0 0 0 0 0 0 0.

(** The spendable assets that have a column in the snapshot. *)
Definition snapshot_column (asset : string) (r : BalanceRecord) : option Z :=
  if String.eqb asset "hbd" then Some (br_HBD r)
  else if String.eqb asset "hive" then Some (br_Hive r)
  else if String.eqb asset "hbd_savings" then Some (br_HBD_SAVINGS r)
  else if String.eqb asset "hive_consensus" then Some (br_HIVE_CONSENSUS r)
  else None.

Section state.
Context {S : Type} `{LedgerDb S}.
Implicit Types st : LedgerState S.

Definition NewEmptyState (db : S) (getBalance : string → Z → option BalanceRecord) : LedgerState S :=
  mkLedgerState [] ∅ ∅ 0 db getBalance.

Definition set_virtual (oplog : list OpLogEvent) (vl : gmap string (list LedgerUpdate)) st :
    LedgerState S :=
  mkLedgerState oplog vl (GatewayBalances st) (ls_BlockHeight st) (ls_LedgerDb st)
    (ls_GetBalanceRecord st).

Definition Export st : list OpLogEvent := ls_Oplog st.

Definition Flush st : LedgerState S :=
  mkLedgerState [] ∅ ∅ (ls_BlockHeight st) (ls_LedgerDb st) (ls_GetBalanceRecord st).

(** [None] is the nil pointer returned on an empty oplog. *)
Definition Compile (bh : Z) st : option (list OpLogEvent) :=
  if bool_decide (ls_Oplog st = []) then None
  else Some (foldl (λ oplog v, if op_BlockHeight v <=? bh then oplog ++ [v] else oplog) []
               (ls_Oplog st)).

Definition ledgerRangeOrBlock st (account : string) (start stop : Z) (asset : string)
    (opTypes : list string) : list LedgerRecord :=
  GetLedgerRange account start stop asset opTypes (ls_LedgerDb st).

Definition GetBalance st (account : string) (blockHeight : Z) (asset : string) : Z :=
  if negb (slices_Contains assetTypes asset) then 0
  else
    let balRecordPtr := ls_GetBalanceRecord st account blockHeight in
    let recordHeight :=
      match balRecordPtr with
      | None => 0
      | Some r => br_BlockHeight r +u64 1
      end in
    let balRecord := default zero_record balRecordPtr in
    match snapshot_column asset balRecord with
    | Some base =>
        let balAdjust :=
          foldl (λ acc v, if IsProtocolMetaLedgerType (lr_Type v) then acc
                          else acc +64 lr_Amount v) 0
            (ledgerRangeOrBlock st account recordHeight blockHeight asset []) in
        base +64 balAdjust
    | None =>
        if String.eqb asset AssetDelegation || String.eqb asset AssetDelegationTotal then
          foldl (λ acc v, acc +64 lr_Amount v) 0
            (ledgerRangeOrBlock st account 0 blockHeight asset
               ["consensus_stake"; "consensus_unstake"])
        else 0
    end.

Definition SnapshotForAccount st (account : string) (blockHeight : Z) (asset : string) : Z :=
  foldl (λ bal v, if String.eqb (lu_Asset v) asset then bal +64 lu_Amount v else bal)
    (GetBalance st account blockHeight asset)
    (default [] (VirtualLedger st !! account)).

(** [slices.DeleteFunc] on the account's entries; an absent account gets an
    empty slice. *)
Definition DropVirtual (account : string) (drop : LedgerUpdate → bool) st : LedgerState S :=
  set_virtual (ls_Oplog st)
    (<[account := filter (λ u, drop u = false) (default [] (VirtualLedger st !! account))]>
       (VirtualLedger st)) st.

(** The error-aware read.  [snapErr] and [rangeErr] say whether the two reads
    fail; [None] is the error result. *)
Definition GetConsensusBalanceAt (snapErr rangeErr : bool) st (account : string)
    (blockHeight : Z) : option Z :=
  if snapErr then None
  else
    let '(base, recordHeight) :=
      match ls_GetBalanceRecord st account blockHeight with
      | Some r => (br_HIVE_CONSENSUS r, br_BlockHeight r +u64 1)
      | None => (0, 0)
      end in
    if rangeErr then None
    else Some (foldl (λ acc v, acc +64 lr_Amount v) base
                 (GetLedgerRange account recordHeight blockHeight "hive_consensus"
                    hiveConsensusLedgerOps (ls_LedgerDb st))).

Definition ConsensusReverseCreditsInRange (rangeErr : bool) st (account : string) (start stop : Z) :
    option (list LedgerRecord) :=
  if rangeErr then None
  else Some (GetLedgerRange account start stop "hive_consensus"
               [LedgerTypeSafetySlashConsensusReverse] (ls_LedgerDb st)).

(** ** Specification *)

(** The rows that count towards an account's balance of an asset. *)
Definition counts (account asset : string) (lo hi : Z) (r : LedgerRecord) : bool :=
  in_query account lo hi asset [] r && negb (IsProtocolMetaLedgerType (lr_Type r)).

(** The balance an account should have: the fold of its whole ledger. *)
Definition ledger_balance (m : ledger) (account asset : string) (height : Z) : Z :=
  qsum (counts account asset 0 height) m.

(** A snapshot is the fold of the ledger up to its height, in every column
    (what [UpdateBalances] writes), and belongs to a height the caller asked
    for. *)
Definition snapshots_ok st : Prop :=
  ∀ account height r, ls_GetBalanceRecord st account height = Some r →
    0 <= br_BlockHeight r <= height ∧ br_BlockHeight r < MaxUint64 ∧
    ∀ asset base, snapshot_column asset r = Some base →
      base = wrap64 (ledger_balance (rows (ls_LedgerDb st)) account asset (br_BlockHeight r)).

(** Heights of stored rows are unsigned. *)
Definition heights_ok (m : ledger) : Prop := ∀ k r, m !! k = Some r → 0 <= lr_BlockHeight r.

(** Bonded hive moves by the listed types only. *)
Definition consensus_types_ok (m : ledger) : Prop :=
  ∀ k r, m !! k = Some r → lr_Asset r = "hive_consensus" →
    slices_Contains hiveConsensusLedgerOps (lr_Type r) = true.
End state.

(** ** Lemmas *)

Section facts.
Context {S : Type} `{LedgerDbLaws S}.
Implicit Types st : LedgerState S.

Lemma counts_split account asset h1 h2 m :
  0 <= h1 <= h2 →
  ledger_balance m account asset h2
  = ledger_balance m account asset h1 + qsum (counts account asset (h1 + 1) h2) m.
Proof.
  intros Hh. unfold ledger_balance. rewrite (qsum_split _ (λ r, lr_BlockHeight r <=? h1)).
  f_equal; apply qsum_ext; intros k r _; unfold counts, in_query;
    destruct (IsProtocolMetaLedgerType _), (String.eqb (lr_Owner r) account),
      (String.eqb asset "" || _); cbn; lia.
Qed.

(** The delta loop of [GetBalance] is the wrapped sum of the rows that count. *)
Lemma delta_spec st account asset lo hi :
  db_wf (ls_LedgerDb st) →
  foldl (λ acc v, if IsProtocolMetaLedgerType (lr_Type v) then acc else acc +64 lr_Amount v) 0
    (ledgerRangeOrBlock st account lo hi asset [])
  = wrap64 (qsum (counts account asset lo hi) (rows (ls_LedgerDb st))).
Proof.
  intros Hwf.
  rewrite (foldl_i64_weight (λ v, if IsProtocolMetaLedgerType (lr_Type v) then 0 else lr_Amount v)).
  2: done.
  2: { intros acc v Hacc. destruct (IsProtocolMetaLedgerType _); [|done]. by rewrite i64_add_0_r. }
  apply (f_equal wrap64). rewrite Z.add_0_l, qsum_row_list.
  unfold ledgerRangeOrBlock. rewrite range_spec by done.
  rewrite !zsum_filter. apply zsum_map_ext. intros r _. unfold counts.
  by destruct (in_query _ _ _ _ _ _), (IsProtocolMetaLedgerType _).
Qed.

Lemma snapshot_column_asset asset r base :
  snapshot_column asset r = Some base →
  slices_Contains assetTypes asset = true ∧ snapshot_column asset zero_record = Some 0 ∧
  ∀ r', is_Some (snapshot_column asset r').
Proof.
  unfold snapshot_column. intros Hc.
  destruct (String.eqb_spec asset "hbd") as [->|]; [by eauto|].
  destruct (String.eqb_spec asset "hive") as [->|]; [by eauto|].
  destruct (String.eqb_spec asset "hbd_savings") as [->|]; [by eauto|].
  destruct (String.eqb_spec asset "hive_consensus") as [->|]; by eauto.
Qed.

Lemma GetBalance_fold st account height asset :
  db_wf (ls_LedgerDb st) → snapshots_ok st →
  is_Some (snapshot_column asset zero_record) →
  GetBalance st account height asset
  = wrap64 (ledger_balance (rows (ls_LedgerDb st)) account asset height).
Proof.
  intros Hwf Hsnap [z Hz]. apply snapshot_column_asset in Hz as (Hin & Hz & Hall). unfold GetBalance.
  rewrite Hin. cbn [negb]. cbv zeta.
  destruct (ls_GetBalanceRecord st account height) as [r|] eqn:Hr.
  - destruct (Hsnap _ _ _ Hr) as (Hh & Hmax & Hcol). cbn [default from_option id].
    destruct (Hall r) as [base Hb]. rewrite Hb.
    unfold u64_add. rewrite wrapu64_id by (unfold_widths; lia).
    rewrite delta_spec, (Hcol asset base Hb) by done. unfold i64_add.
    rewrite wrap64_add_l, wrap64_add_r. by rewrite <- counts_split.
  - cbn [default from_option id]. rewrite Hz, delta_spec by done. unfold i64_add.
    by rewrite wrap64_add_r.
Qed.

Lemma GetConsensusBalanceAt_fold st account height :
  db_wf (ls_LedgerDb st) → snapshots_ok st → consensus_types_ok (rows (ls_LedgerDb st)) →
  GetConsensusBalanceAt false false st account height
  = Some (wrap64 (ledger_balance (rows (ls_LedgerDb st)) account "hive_consensus" height)).
Proof.
  intros Hwf Hsnap Htypes. unfold GetConsensusBalanceAt.
  assert (∀ base lo, i64 base →
    foldl (λ acc v, acc +64 lr_Amount v) base
      (GetLedgerRange account lo height "hive_consensus" hiveConsensusLedgerOps (ls_LedgerDb st))
    = wrap64 (base + qsum (counts account "hive_consensus" lo height) (rows (ls_LedgerDb st)))) as Hsum.
  { intros base lo Hbase. rewrite (foldl_i64_weight lr_Amount) by done.
    apply (f_equal wrap64), (f_equal (Z.add base)). rewrite range_spec, <- qsum_row_list by done.
    apply qsum_ext. intros k r Hr. unfold counts, in_query. specialize (Htypes k r Hr).
    destruct (String.eqb_spec (lr_Asset r) "hive_consensus") as [Ha|Ha];
      [|by rewrite !andb_false_r].
    specialize (Htypes Ha). rewrite Htypes. simpl. rewrite !andb_true_r.
    assert (IsProtocolMetaLedgerType (lr_Type r) = false) as ->; [|by rewrite andb_true_r].
    apply slices_Contains_spec in Htypes. unfold hiveConsensusLedgerOps in Htypes.
    rewrite !elem_of_cons, elem_of_nil in Htypes. by destruct_or! Htypes; rewrite Htypes. }
  destruct (ls_GetBalanceRecord st account height) as [r|] eqn:Hr; [|by rewrite Hsum].
  destruct (Hsnap _ _ _ Hr) as (Hh & Hmax & Hcol).
  unfold u64_add. rewrite wrapu64_id by (unfold_widths; lia).
  rewrite (Hcol "hive_consensus" (br_HIVE_CONSENSUS r)) by done.
  rewrite Hsum by apply wrap64_range. rewrite wrap64_add_l. by rewrite <- counts_split.
Qed.
End facts.

(** ** Properties *)

Section properties.
Context {S : Type} `{LedgerDbLaws S}.

(** A balance read is the fold of the whole ledger.  For each of the four
    assets with a snapshot column, [GetBalance] at a height returns the sum (in
    [int64] arithmetic) of every non-meta row of the account and asset at or
    below the height, whichever snapshot the database returned: no row between
    the snapshot and the height is dropped or counted twice. *)
Theorem GetBalance_is_ledger_fold (st : LedgerState S) account height asset :
  db_wf (ls_LedgerDb st) → snapshots_ok st → asset ∈ ["hive"; "hbd"; "hbd_savings"; "hive_consensus"] →
  GetBalance st account height asset
  = wrap64 (ledger_balance (rows (ls_LedgerDb st)) account asset height).
Proof.
  intros Hwf Hsnap Hin. apply GetBalance_fold; [done..|].
  rewrite !elem_of_cons, elem_of_nil in Hin. destruct_or! Hin; subst; by eexists.
Qed.

(** The two reads of a bonded balance agree.  When bonded hive moves only by
    the listed record types, the error-aware read used by the election gate
    returns, when neither database read fails, the value [GetBalance] returns;
    and it returns an error, never a number, when a read fails. *)
Theorem GetConsensusBalanceAt_agrees (st : LedgerState S) account height :
  db_wf (ls_LedgerDb st) → snapshots_ok st → consensus_types_ok (rows (ls_LedgerDb st)) →
  GetConsensusBalanceAt false false st account height
    = Some (GetBalance st account height "hive_consensus") ∧
  ∀ snapErr rangeErr, snapErr || rangeErr = true →
    GetConsensusBalanceAt snapErr rangeErr st account height = None.
Proof.
  intros Hwf Hsnap Htypes. split.
  - rewrite GetConsensusBalanceAt_fold, GetBalance_fold by (done || by eexists). done.
  - unfold GetConsensusBalanceAt. intros [] [] Herr; try done.
    by destruct (ls_GetBalanceRecord st account height).
Qed.
End properties.
