(* ===== verification/LedgerSession.v ===== *)
(** The ledger session, [modules/ledger-system/ledger_session.go].

    A session executes the ledger operations of one transaction against a
    [LedgerState] it shares with the other sessions of the block: it caches the
    balances it has read, checks each operation against the cache and appends
    the operation to its own oplog and ledger; [Done] commits both to the shared
    state, [Revert] forgets them, and a savepoint unwinds part of them.

    The shared state is an argument of every operation; only [Done] changes it.
    The abstract view of a session is the function giving each account's balance
    of each asset ([view]).  The theorems show that the cache always agrees with
    the view, that each operation has the effect of one transition of an
    abstract account book or none at all, that no operation overdraws an
    account, and that commit, revert and savepoints are exact. *)
From S2P Require Import Prelude GoStrings IntMath LedgerDb LedgerTypes Oplog LedgerState.

(** ** State *)

Record ledgerSession := mkSession {
  oplog : list OpLogEvent;
  ledgerOps : list LedgerUpdate;
  balances : gmap string Z;
  idCache : gmap string Z;
  ses_StartHeight : Z;
}.

Record LedgerSavepoint := mkSavepoint {
  oplogLen : nat;
  ledgerOpsLen : nat;
  sp_balances : gmap string Z;
  sp_idCache : gmap string Z;
}.

Definition NewEmptySession (startHeight : Z) : ledgerSession := mkSession [] [] ∅ ∅ startHeight.

(** [NewSession] of [utils.go] leaves the start height at zero. *)
Definition NewSession : ledgerSession := mkSession [] [] ∅ ∅ 0.

Definition set_balances (b : gmap string Z) (ses : ledgerSession) : ledgerSession :=
  mkSession (oplog ses) (ledgerOps ses) b (idCache ses) (ses_StartHeight ses).

Definition key (account asset : string) : string := account +:+ "#" +:+ asset.

Definition setBalance (account asset : string) (amount : Z) (ses : ledgerSession) : ledgerSession :=
  set_balances (<[key account asset := amount]> (balances ses)) ses.

(** ** Commit, revert, savepoints *)

Section commit.
Context {S : Type}.

(** The virtual ledger after appending each update under its owner. *)
Definition append_virtual (vl : gmap string (list LedgerUpdate)) (op : LedgerUpdate) :
    gmap string (list LedgerUpdate) :=
  <[lu_Owner op := default [] (vl !! lu_Owner op) ++ [op]]> vl.

Definition Done (st : LedgerState S) (ses : ledgerSession) :
    list string * LedgerState S * ledgerSession :=
  let ledgerIds := foldl (λ ids v, ids ++ [op_Id v]) [] (oplog ses) in
  let st' := set_virtual (ls_Oplog st ++ oplog ses)
               (foldl append_virtual (VirtualLedger st) (ledgerOps ses)) st in
  (ledgerIds, st', mkSession [] [] ∅ (idCache ses) (ses_StartHeight ses)).
End commit.

Definition Revert (ses : ledgerSession) : ledgerSession :=
  mkSession [] [] ∅ (idCache ses) (ses_StartHeight ses).

(** Copying a map gives an equal map; the copy shares no cell with it. *)
Definition cloneBalances (src : gmap string Z) : gmap string Z := src.

Definition Savepoint (ses : ledgerSession) : LedgerSavepoint :=
  mkSavepoint (length (oplog ses)) (length (ledgerOps ses)) (cloneBalances (balances ses))
    (idCache ses).

Definition RestoreSavepoint (sp : LedgerSavepoint) (ses : ledgerSession) : ledgerSession :=
  mkSession
    (if (oplogLen sp <=? length (oplog ses))%nat then take (oplogLen sp) (oplog ses) else oplog ses)
    (if (ledgerOpsLen sp <=? length (ledgerOps ses))%nat
     then take (ledgerOpsLen sp) (ledgerOps ses) else ledgerOps ses)
    (cloneBalances (sp_balances sp)) (sp_idCache sp) (ses_StartHeight ses).

(** ** Reads and appends *)

Section session.
Context {S : Type} `{LedgerDb S}.
Implicit Types st : LedgerState S.
Implicit Types ses : ledgerSession.

(** The cached balance, filled from the shared state on the first read. *)
Definition ses_GetBalance st (account : string) (blockHeight : Z) (asset : string) ses :
    Z * ledgerSession :=
  match balances ses !! key account asset with
  | Some bal => (bal, ses)
  | None =>
      let bal := SnapshotForAccount st account blockHeight asset in
      (bal, set_balances (<[key account asset := bal]> (balances ses)) ses)
  end.

Definition AppendLedger st ses (event : LedgerUpdate) : ledgerSession :=
  let '(bal, ses) := ses_GetBalance st (lu_Owner event) (lu_BlockHeight event) (lu_Asset event) ses in
  let ses := setBalance (lu_Owner event) (lu_Asset event) (bal +64 lu_Amount event) ses in
  mkSession (oplog ses) (ledgerOps ses ++ [event]) (balances ses) (idCache ses) (ses_StartHeight ses).

(** The id an event gets: repeated ids are numbered. *)
Definition dedup_id (cache : gmap string Z) (id : string) : string :=
  if 0 <? zget cache id then id +:+ ":" +:+ Itoa (zget cache id) else id.

Definition AppendOplog st (event : OpLogEvent) ses : ledgerSession :=
  let id2 := op_Id event in
  let event := set_op_Id (dedup_id (idCache ses) id2) event in
  let ses := mkSession (oplog ses) (ledgerOps ses) (balances ses)
               (<[id2 := zget (idCache ses) id2 + 1]> (idCache ses)) (ses_StartHeight ses) in
  let result := ExecuteOplog [event] (ses_StartHeight ses) (op_BlockHeight event) in
  let ses := foldl (AppendLedger st) ses (ledgerRecords result) in
  mkSession (oplog ses ++ [event]) (ledgerOps ses) (balances ses) (idCache ses) (ses_StartHeight ses).

(** ** Operations *)

Definition hive_name_ok (name : string) : bool :=
  MatchString hiveRegex name && (3 <=? slen name)%nat && (slen name <? 17)%nat.

(** [strings.Split(s, ":")[1]]; [None] is the index panic. *)
Definition second_part (s : string) : option string := Split s colon !! 1%nat.

(** The destination a withdrawal resolves to: [inl] is the early return.  The
    outer [option] is the index panic. *)
Definition withdraw_dest (hiveAsset : bool) (to : string) : option (LedgerResult + string) :=
  if hiveAsset then
    if hive_name_ok to then Some (inr ("hive:" +:+ to))
    else if HasPrefix to "hive:" then
      splitHive ← second_part to;
      Some (if hive_name_ok splitHive then inr to else inl (fail "invalid destination"))
    else Some (inl (fail "invalid destination"))
  else if HasPrefix to "eth:" then
    ethAddr ← second_part to;
    Some (if MatchString ethRegex ethAddr then inr to else inl (fail "invalid eth address"))
  else if HasPrefix to "did:pkh:eip155:1:" then
    let ethAddr := TrimPrefix to "did:pkh:eip155:1:" in
    Some (if MatchString ethRegex ethAddr then inr to else inl (fail "invalid eth address"))
  else Some (inl (fail "invalid destination")).

Definition Withdraw st (w : WithdrawParams) ses : option (LedgerResult * ledgerSession) :=
  if wp_Amount w <=? 0 then Some (fail "invalid amount", ses)
  else
    let hiveAsset := slices_Contains ["hive"; "hbd"] (wp_Asset w) in
    let ethAsset := slices_Contains ["eth"; "usdc"] (wp_Asset w) in
    if negb hiveAsset && negb ethAsset then Some (fail "invalid asset", ses)
    else
      dest ← withdraw_dest hiveAsset (wp_To w);
      match dest with
      | inl r => Some (r, ses)
      | inr dest =>
          let '(balAmt, ses) := ses_GetBalance st (wp_From w) (wp_BlockHeight w) (wp_Asset w) ses in
          if balAmt <? wp_Amount w then Some (fail "insufficient balance", ses)
          else
            Some (success,
              AppendOplog st
                (mkOpLogEvent dest (wp_From w) (wp_Amount w) (wp_Asset w) (wp_Memo w) "withdraw"
                   (wp_Id w) (wp_BIdx w) (wp_OpIdx w) 0 None) ses)
      end.

Definition ConsensusStake st (p : ConsensusParams) ses : LedgerResult * ledgerSession :=
  if cp_Amount p <=? 0 then (fail "invalid amount", ses)
  else
    let '(balAmt, ses) := ses_GetBalance st (cp_From p) (cp_BlockHeight p) "hive" ses in
    if balAmt <? cp_Amount p then (fail "insufficient balance", ses)
    else
      (success,
       AppendOplog st
         (mkOpLogEvent (cp_To p) (cp_From p) (cp_Amount p) "hive" "" "consensus_stake" (cp_Id p) 0 0
            (cp_BlockHeight p)
            (if cp_Delegated p then Some {["delegated" := VBool true]} else None)) ses).

Definition slashAdjustedRelease st (grossAmount : Z) (to : string) (blockHeight : Z) ses :
    Z * ledgerSession :=
  if grossAmount <=? 0 then (0, ses)
  else
    let '(total, ses) := ses_GetBalance st to blockHeight AssetDelegationTotal ses in
    let '(bond, ses) := ses_GetBalance st to blockHeight "hive_consensus" ses in
    if (total <=? 0) || (total <=? bond) then (grossAmount, ses)
    else if bond <=? 0 then (0, ses)
    else (wrap64 (grossAmount * bond / total), ses).

(** The checks of [ConsensusUnstake]: the early return or the amount that leaves
    the bond. *)
Definition unstake_release st (p : ConsensusParams) ses : (LedgerResult + Z) * ledgerSession :=
  if cp_Delegated p then
    let '(edge, ses) := ses_GetBalance st (DelegationEdgeKey (cp_From p) (cp_To p))
                          (cp_BlockHeight p) AssetDelegation ses in
    if edge <? cp_Amount p then (inl (fail "amount exceeds delegated stake"), ses)
    else
      let '(released, ses) := slashAdjustedRelease st (cp_Amount p) (cp_To p) (cp_BlockHeight p) ses in
      (inr released, ses)
  else
    let '(balAmt, ses) := ses_GetBalance st (cp_From p) (cp_BlockHeight p) "hive_consensus" ses in
    if balAmt <? cp_Amount p then (inl (fail "insufficient balance"), ses)
    else (inr (cp_Amount p), ses).

Definition unstake_params (p : ConsensusParams) (released : Z) : gmap string value :=
  let ps := {["epoch" := VUint64 (cp_ElectionEpoch p)]} in
  if cp_Delegated p then <["released" := VInt64 released]> (<["delegated" := VBool true]> ps) else ps.

Definition ConsensusUnstake st (p : ConsensusParams) ses : LedgerResult * ledgerSession :=
  if cp_Amount p <=? 0 then (fail "invalid amount", ses)
  else
    let '(r, ses) := unstake_release st p ses in
    match r with
    | inl r => (r, ses)
    | inr released =>
        (success,
         AppendOplog st
           (mkOpLogEvent (cp_To p) (cp_From p) (cp_Amount p) "hive" "" "consensus_unstake" (cp_Id p)
              0 0 (cp_BlockHeight p) (Some (unstake_params p released))) ses)
    end.

(** The excluded amount of the variadic options. *)
Definition exclusion_of (options : list TransferOptions) : Z :=
  match options with
  | [] => 0
  | o :: _ => Exclusion o
  end.

Definition ExecuteTransfer st (v : OpLogEvent) (options : list TransferOptions) ses :
    LedgerResult * ledgerSession :=
  let exclusion := exclusion_of options in
  if op_Amount v <=? 0 then (fail "invalid amount", ses)
  else if String.eqb (op_To v) (op_From v) then (fail "cannot send to self", ses)
  else if HasPrefix (op_To v) "system:" then (fail "invalid destination", ses)
  else if negb (slices_Contains transferableAssetTypes (op_Asset v)) then (fail "invalid asset", ses)
  else
    let '(fromBal, ses) := ses_GetBalance st (op_From v) (op_BlockHeight v) (op_Asset v) ses in
    if (fromBal -64 exclusion) <? op_Amount v then (fail "insufficient balance", ses)
    else (success, AppendOplog st (set_op_Type "transfer" v) ses).

(** The event [Stake] and [Unstake] append. *)
Definition stake_event (ty : string) (v : OpLogEvent) : OpLogEvent :=
  mkOpLogEvent (op_To v) (op_From v) (op_Amount v) (op_Asset v) (op_Memo v) ty (op_Id v) 0 0 0 None.

Definition Stake st (s : StakeOp) (options : list TransferOptions) ses :
    LedgerResult * ledgerSession :=
  let v := so_Op s in
  let exclusion := exclusion_of options in
  if (op_Amount v <=? 0) || (so_Instant s && (op_Amount v <? 2)) then (fail "invalid amount", ses)
  else if negb (String.eqb (op_Asset v) "hbd") then (fail "invalid asset", ses)
  else
    let '(fromBal, ses) := ses_GetBalance st (op_From v) (op_BlockHeight v) "hbd" ses in
    if (fromBal -64 exclusion) <? op_Amount v then (fail "insufficient balance", ses)
    else (success, AppendOplog st (stake_event "stake" v) ses).

Definition Unstake st (s : StakeOp) ses : LedgerResult * ledgerSession :=
  let v := so_Op s in
  if (op_Amount v <=? 0) || (so_Instant s && (op_Amount v <? 2)) then (fail "invalid amount", ses)
  else if negb (String.eqb (op_Asset v) "hbd") && negb (String.eqb (op_Asset v) "hbd_savings")
  then (fail "invalid asset", ses)
  else
    let '(fromBal, ses) := ses_GetBalance st (op_From v) (op_BlockHeight v) "hbd_savings" ses in
    if fromBal <? op_Amount v then (fail "insufficient balance", ses)
    else (success, AppendOplog st (stake_event "unstake" v) ses).
End session.

(** ** Specification *)

Section spec.
Context {S : Type} `{LedgerDb S}.
Implicit Types st : LedgerState S.
Implicit Types ses : ledgerSession.

(** The balance an account has once the pending updates [l] of a session are
    applied on top of the shared state. *)
Definition view st (h : Z) (l : list LedgerUpdate) (account asset : string) : Z :=
  wrap64 (SnapshotForAccount st account h asset + owner_value account asset l).

Definition cached ses (account asset : string) : Prop :=
  is_Some (balances ses !! key account asset).

(** The cache holds the view, and what has no entry has no pending update. *)
Definition coherent st (h : Z) ses : Prop :=
  ∀ account asset, nochar hash asset = true →
    match balances ses !! key account asset with
    | Some b => b = view st h (ledgerOps ses) account asset
    | None => owner_value account asset (ledgerOps ses) = 0
    end.

(** Two sessions that differ in their cache only. *)
Definition same_log ses ses' : Prop :=
  oplog ses' = oplog ses ∧ ledgerOps ses' = ledgerOps ses ∧ idCache ses' = idCache ses ∧
  ses_StartHeight ses' = ses_StartHeight ses.

(** A row the session can append without reading at another height. *)
Definition row_ready (h : Z) ses (u : LedgerUpdate) : Prop :=
  nochar hash (lu_Asset u) = true ∧ (lu_BlockHeight u = h ∨ cached ses (lu_Owner u) (lu_Asset u)).

(** ** Lemmas: the cache *)

Lemma key_inj a1 x1 a2 x2 :
  nochar hash x1 = true → nochar hash x2 = true → key a1 x1 = key a2 x2 → a1 = a2 ∧ x1 = x2.
Proof. apply sep_inj_right. Qed.

Lemma GetBalance_i64 st a h x : i64 (GetBalance st a h x).
Proof.
  unfold GetBalance. destruct (negb _); [done|]. cbv zeta.
  destruct (snapshot_column _ _); [apply wrap64_range|]. destruct (_ || _); [|done].
  rewrite (foldl_i64_weight lr_Amount) by done. apply wrap64_range.
Qed.

Lemma SnapshotForAccount_sum st a h x :
  SnapshotForAccount st a h x
  = wrap64 (GetBalance st a h x
            + zsum ((λ u, if_amount (String.eqb (lu_Asset u) x) (lu_Amount u))
                      <$> default [] (VirtualLedger st !! a))).
Proof.
  unfold SnapshotForAccount. apply foldl_i64_weight; [apply GetBalance_i64|].
  intros acc v Hacc. destruct (String.eqb (lu_Asset v) x); simpl; [done|]. by rewrite i64_add_0_r.
Qed.

Lemma SnapshotForAccount_i64 st a h x : i64 (SnapshotForAccount st a h x).
Proof. rewrite SnapshotForAccount_sum. apply wrap64_range. Qed.

Lemma view_nil st h a x : view st h [] a x = SnapshotForAccount st a h x.
Proof.
  unfold view. change (owner_value a x []) with 0. rewrite Z.add_0_r.
  apply wrap64_id, SnapshotForAccount_i64.
Qed.

Lemma view_app st h l k a x :
  view st h (l ++ k) a x = wrap64 (view st h l a x + owner_value a x k).
Proof. unfold view. rewrite owner_value_app, wrap64_add_l. apply (f_equal wrap64). lia. Qed.

Lemma coherent_empty st h ids n : coherent st h (mkSession [] [] ∅ ids n).
Proof. intros a x _. simpl. by rewrite lookup_empty. Qed.

Lemma get_spec st h a x ses :
  coherent st h ses → nochar hash x = true →
  ∃ ses', ses_GetBalance st a h x ses = (view st h (ledgerOps ses) a x, ses') ∧
    same_log ses ses' ∧ coherent st h ses' ∧ cached ses' a x ∧
    ∀ a' x', cached ses a' x' → cached ses' a' x'.
Proof.
  intros Hco Hx. unfold ses_GetBalance. pose proof (Hco a x Hx) as Hax.
  destruct (balances ses !! key a x) as [b|] eqn:Hb.
  - subst. exists ses. repeat split; try done. unfold cached. rewrite Hb. by eexists.
  - assert (view st h (ledgerOps ses) a x = SnapshotForAccount st a h x) as Hv.
    { unfold view. rewrite Hax, Z.add_0_r. apply wrap64_id, SnapshotForAccount_i64. }
    rewrite <- Hv. eexists. split; [done|]. split; [done|]. split; [|split].
    + intros a' x' Hx'. simpl. destruct (decide (key a' x' = key a x)) as [E|E].
      * apply key_inj in E as [-> ->]; [|done..]. by rewrite lookup_insert_eq.
      * rewrite lookup_insert_ne by done. by apply Hco.
    + unfold cached. simpl. rewrite lookup_insert_eq. by eexists.
    + intros a' x' Hc. unfold cached in *. simpl.
      destruct (decide (key a' x' = key a x)) as [->|E]; [rewrite lookup_insert_eq; by eexists|].
      by rewrite lookup_insert_ne.
Qed.

Lemma ses_GetBalance_cached st a h h' x ses :
  cached ses a x → ses_GetBalance st a h' x ses = ses_GetBalance st a h x ses.
Proof. intros [b Hb]. unfold ses_GetBalance. by rewrite Hb. Qed.

Lemma get_log st a h x ses : same_log ses (ses_GetBalance st a h x ses).2.
Proof. unfold ses_GetBalance. by destruct (balances ses !! key a x). Qed.

Lemma AppendLedger_log st u ses :
  let ses' := AppendLedger st ses u in
  oplog ses' = oplog ses ∧ ledgerOps ses' = ledgerOps ses ++ [u] ∧ idCache ses' = idCache ses ∧
  ses_StartHeight ses' = ses_StartHeight ses.
Proof.
  unfold AppendLedger.
  pose proof (get_log st (lu_Owner u) (lu_BlockHeight u) (lu_Asset u) ses) as (Ho & Hl & Hi & Hs).
  destruct (ses_GetBalance _ _ _ _ _) as [b ses1]. simpl in *. by rewrite Ho, Hl, Hi, Hs.
Qed.

Lemma AppendLedgers_log st rows ses :
  let ses' := foldl (AppendLedger st) ses rows in
  oplog ses' = oplog ses ∧ ledgerOps ses' = ledgerOps ses ++ rows ∧ idCache ses' = idCache ses ∧
  ses_StartHeight ses' = ses_StartHeight ses.
Proof.
  revert ses. induction rows as [|u rows IH]; intros ses; [by rewrite app_nil_r|]. cbn [foldl].
  destruct (AppendLedger_log st u ses) as (Ho & Hl & Hi & Hs).
  destruct (IH (AppendLedger st ses u)) as (Ho2 & Hl2 & Hi2 & Hs2).
  split_and!; [congruence| |congruence..]. by rewrite Hl2, Hl, <- app_assoc.
Qed.

(** What [AppendOplog] appends: one event with its numbered id and the rows
    [ExecuteOplog] derives from it. *)
Lemma AppendOplog_log st v ses :
  let v' := set_op_Id (dedup_id (idCache ses) (op_Id v)) v in
  let ses' := AppendOplog st v ses in
  oplog ses' = oplog ses ++ [v'] ∧
  ledgerOps ses' = ledgerOps ses ++ event_rows (op_BlockHeight v) v' ∧
  idCache ses' = <[op_Id v := zget (idCache ses) (op_Id v) + 1]> (idCache ses) ∧
  ses_StartHeight ses' = ses_StartHeight ses.
Proof.
  intros v'. unfold AppendOplog. cbv zeta. fold v'.
  rewrite ExecuteOplog_rows. cbn [mbind list_bind]. rewrite app_nil_r.
  cbn [oplog ledgerOps idCache ses_StartHeight].
  match goal with |- context [foldl _ ?s1 ?l] =>
    destruct (AppendLedgers_log st l s1) as (Ho2 & Hl2 & Hi2 & Hs2) end.
  by rewrite Ho2, Hl2, Hi2, Hs2.
Qed.

Lemma AppendLedger_coherent st h ses u :
  coherent st h ses → row_ready h ses u →
  coherent st h (AppendLedger st ses u) ∧
  ∀ a x, cached ses a x → cached (AppendLedger st ses u) a x.
Proof.
  intros Hco [Hu Hh]. unfold AppendLedger.
  assert (ses_GetBalance st (lu_Owner u) (lu_BlockHeight u) (lu_Asset u) ses
          = ses_GetBalance st (lu_Owner u) h (lu_Asset u) ses) as ->.
  { destruct Hh as [->|Hc]; [done|]. by apply ses_GetBalance_cached. }
  destruct (get_spec st h (lu_Owner u) (lu_Asset u) ses Hco Hu)
    as (ses1 & -> & (Ho & Hl & Hi & Hs) & Hco1 & Hc1 & Hmono).
  unfold setBalance, set_balances. split.
  - intros a x Hx. cbn [balances ledgerOps]. rewrite Hl.
    destruct (decide (key a x = key (lu_Owner u) (lu_Asset u))) as [E|E].
    + apply key_inj in E as [-> ->]; [|done..]. rewrite lookup_insert_eq, view_app.
      unfold owner_value. simpl. rewrite !String.eqb_refl. simpl. by rewrite Z.add_0_r.
    + rewrite lookup_insert_ne by done. specialize (Hco1 a x Hx). rewrite Hl in Hco1.
      assert (owner_value a x [u] = 0) as Hz.
      { unfold owner_value. simpl.
        destruct (String.eqb_spec (lu_Owner u) a), (String.eqb_spec (lu_Asset u) x); subst; done. }
      destruct (balances ses1 !! key a x) eqn:Hb.
      * rewrite view_app, Hz, Z.add_0_r, Hco1. symmetry. apply wrap64_id, wrap64_range.
      * rewrite owner_value_app, Hz. lia.
  - intros a x Hc. apply Hmono in Hc. unfold cached in *. cbn [balances].
    destruct (decide (key a x = key (lu_Owner u) (lu_Asset u))) as [->|E];
      [rewrite lookup_insert_eq; by eexists|by rewrite lookup_insert_ne].
Qed.

Lemma AppendLedgers_coherent st h rows ses :
  coherent st h ses → Forall (row_ready h ses) rows →
  coherent st h (foldl (AppendLedger st) ses rows).
Proof.
  revert ses. induction rows as [|u rows IH]; intros ses Hco Hr; [done|].
  apply Forall_cons in Hr as [Hu Hr]. cbn [foldl].
  destruct (AppendLedger_coherent st h ses u Hco Hu) as [Hco1 Hmono]. apply IH; [done|].
  eapply Forall_impl; [exact Hr|]. intros u' [Hx [?|Hc]]; split; auto.
Qed.

Lemma AppendOplog_coherent st h v ses :
  coherent st h ses →
  Forall (row_ready h ses)
    (event_rows (op_BlockHeight v) (set_op_Id (dedup_id (idCache ses) (op_Id v)) v)) →
  coherent st h (AppendOplog st v ses).
Proof.
  intros Hco Hr. unfold AppendOplog. cbv zeta.
  rewrite ExecuteOplog_rows. cbn [mbind list_bind]. rewrite app_nil_r.
  set (ses1 := mkSession (oplog ses) (ledgerOps ses) (balances ses) (<[_ := _]> _) _).
  pose proof (AppendLedgers_coherent st h _ ses1 Hco Hr) as Hco2.
  intros a x Hx. apply (Hco2 a x Hx).
Qed.
End spec.

(** ** Sequences of operations *)

Inductive ses_op :=
| OpTransfer (v : OpLogEvent) (options : list TransferOptions)
| OpWithdraw (w : WithdrawParams)
| OpStake (s : StakeOp) (options : list TransferOptions)
| OpUnstake (s : StakeOp)
| OpConsensusStake (p : ConsensusParams)
| OpConsensusUnstake (p : ConsensusParams).

Section run.
Context {S : Type} `{LedgerDb S}.
Implicit Types st : LedgerState S.

Definition run_op st (op : ses_op) (ses : ledgerSession) : option (LedgerResult * ledgerSession) :=
  match op with
  | OpTransfer v options => Some (ExecuteTransfer st v options ses)
  | OpWithdraw w => Withdraw st w ses
  | OpStake s options => Some (Stake st s options ses)
  | OpUnstake s => Some (Unstake st s ses)
  | OpConsensusStake p => Some (ConsensusStake st p ses)
  | OpConsensusUnstake p => Some (ConsensusUnstake st p ses)
  end.

Fixpoint run_ops st (ops : list ses_op) (ses : ledgerSession) :
    option (list LedgerResult * ledgerSession) :=
  match ops with
  | [] => Some ([], ses)
  | op :: ops =>
      '(r, ses) ← run_op st op ses;
      '(rs, ses) ← run_ops st ops ses;
      Some (r :: rs, ses)
  end.
End run.

Definition op_id (op : ses_op) : string :=
  match op with
  | OpTransfer v _ => op_Id v
  | OpWithdraw w => wp_Id w
  | OpStake s _ | OpUnstake s => op_Id (so_Op s)
  | OpConsensusStake p | OpConsensusUnstake p => cp_Id p
  end.

(** [ses'] continues [ses]: it has the same log and possibly more. *)
Definition extends (ses ses' : ledgerSession) : Prop :=
  oplog ses `prefix_of` oplog ses' ∧ ledgerOps ses `prefix_of` ledgerOps ses' ∧
  ses_StartHeight ses' = ses_StartHeight ses.

(** The rows of a session are what executing its oplog gives, at any height. *)
Definition replayable (ses : ledgerSession) : Prop :=
  ∀ h, at_height h <$> ledgerOps ses = oplog ses ≫= event_rows h.

(** An id [AppendOplog] can have given to the [n]-th operation with raw id
    [r], and the ids a session has handed out. *)
Definition numbered (r : string) (n : Z) : string :=
  if 0 <? n then r +:+ ":" +:+ Itoa n else r.

Definition ids_ok (ses : ledgerSession) : Prop :=
  NoDup (op_Id <$> oplog ses) ∧ (∀ r, 0 <= zget (idCache ses) r) ∧
  ∀ i, i ∈ op_Id <$> oplog ses →
    ∃ r n, nochar colon r = true ∧ 0 <= n < zget (idCache ses) r ∧ i = numbered r n.

(** ** Lemmas: the shape of an operation *)

#[export] Instance same_log_refl : Reflexive same_log.
Proof. done. Qed.

#[export] Instance same_log_trans : Transitive same_log.
Proof. intros s1 s2 s3 (?&?&?&?) (?&?&?&?). split_and!; congruence. Qed.

#[export] Instance extends_preorder : PreOrder extends.
Proof.
  split; [done|]. intros s1 s2 s3 (?&?&?) (?&?&?). split_and!; [by etrans|by etrans|congruence].
Qed.

(** Name the result of the first cached read of the goal. *)
Ltac read_balance :=
  match goal with
  | |- context [ses_GetBalance ?st ?a ?h ?x ?s] =>
      let Hlog := fresh "Hlog" in
      pose proof (get_log st a h x s) as Hlog;
      destruct (ses_GetBalance st a h x s) as [? ?]; cbn [snd] in Hlog
  end.

Section shape.
Context {S : Type} `{LedgerDb S}.
Implicit Types st : LedgerState S.

Lemma slashAdjustedRelease_log st g to h ses :
  same_log ses (slashAdjustedRelease st g to h ses).2.
Proof.
  unfold slashAdjustedRelease. destruct (g <=? 0); [done|]. do 2 read_balance.
  cases_goal; simpl; by etrans.
Qed.

Lemma unstake_release_log st p ses : same_log ses (unstake_release st p ses).2.
Proof.
  unfold unstake_release. destruct (cp_Delegated p).
  - read_balance. destruct (_ <? _); [done|].
    pose proof (slashAdjustedRelease_log st (cp_Amount p) (cp_To p) (cp_BlockHeight p) l) as Hl.
    destruct (slashAdjustedRelease _ _ _ _ _) as [rel ses2]. simpl in *. by etrans.
  - read_balance. by cases_goal.
Qed.

(** An operation that fails leaves the log alone; one that succeeds appends one
    event that carries the caller's id. *)
Definition op_shape st (id : string) ses (out : LedgerResult * ledgerSession) : Prop :=
  (Ok out.1 = false ∧ same_log ses out.2) ∨
  (Ok out.1 = true ∧
   ∃ ses1 v, same_log ses ses1 ∧ op_Id v = id ∧ out.2 = AppendOplog st v ses1).

Lemma shape_fail st id ses ses1 m : same_log ses ses1 → op_shape st id ses (fail m, ses1).
Proof. by left. Qed.

Lemma shape_ok st v ses ses1 :
  same_log ses ses1 → op_shape st (op_Id v) ses (success, AppendOplog st v ses1).
Proof. right. split; [done|]. by exists ses1, v. Qed.

(** Walk through the guards, the read and the append of an operation. *)
Ltac shape :=
  cbv zeta;
  repeat match goal with |- op_shape _ _ _ (if ?b then _ else _) =>
    destruct b; [by apply shape_fail|] end;
  read_balance;
  match goal with |- op_shape _ _ _ (if ?b then _ else _) =>
    destruct b; [by apply shape_fail|by apply shape_ok] end.

Lemma Split_ne s c : Split s c ≠ [].
Proof. destruct s as [|a s]; simpl; [done|]. destruct (Ascii.eqb a c); [done|]. by destruct (Split s c). Qed.

(** The index into the split destination is in range: a prefix with a colon
    gives two parts. *)
Lemma second_part_Some s p : HasPrefix s (p +:+ ":") = true → is_Some (second_part s).
Proof.
  intros [t ->]%HasPrefix_spec. rewrite sapp_assoc. unfold second_part.
  assert (∀ q, is_Some (Split (q +:+ ":" +:+ t) colon !! 1%nat)) as Hq; [|done].
  change (":" +:+ t) with (String colon t).
  induction q as [|c q IH]; [rewrite sapp_nil_l|rewrite sapp_cons]; cbn [Split].
  - rewrite Ascii.eqb_refl. destruct (Split t colon) eqn:E; [by apply Split_ne in E|by eexists].
  - destruct (Ascii.eqb c colon).
    + destruct (Split (q +:+ String colon t) colon) eqn:E; [by apply Split_ne in E|by eexists].
    + destruct (Split (q +:+ String colon t) colon) as [|x [|y l]]; simpl in *; [by destruct IH..|done].
Qed.

Lemma withdraw_dest_total hiveAsset to : is_Some (withdraw_dest hiveAsset to).
Proof.
  unfold withdraw_dest. destruct hiveAsset.
  - destruct (hive_name_ok to); [by eexists|]. destruct (HasPrefix to "hive:") eqn:Hp; [|by eexists].
    apply (second_part_Some to "hive") in Hp as [x ->]. by eexists.
  - destruct (HasPrefix to "eth:") eqn:Hp.
    { apply (second_part_Some to "eth") in Hp as [x ->]. by eexists. }
    destruct (HasPrefix to "did:pkh:eip155:1:"); cbv zeta; eauto.
Qed.

Lemma run_op_total st op ses : is_Some (run_op st op ses).
Proof.
  destruct op; try by eexists. unfold run_op, Withdraw. destruct (_ <=? _); [by eexists|].
  cbv zeta. destruct (_ && _); [by eexists|].
  destruct (withdraw_dest_total (slices_Contains ["hive"; "hbd"] (wp_Asset w)) (wp_To w)) as [[r|d] ->];
    cbn [mbind option_bind]; [by eexists|].
  destruct (ses_GetBalance _ _ _ _ _). destruct (_ <? _); by eexists.
Qed.

Lemma withdraw_dest_fail hiveAsset to r :
  withdraw_dest hiveAsset to = Some (inl r) → Ok r = false.
Proof.
  unfold withdraw_dest. destruct hiveAsset.
  - destruct (hive_name_ok to); [done|]. destruct (HasPrefix to "hive:"); [|by intros; simplify_eq].
    destruct (second_part to); [|done]. simpl. destruct (hive_name_ok _); by intros; simplify_eq.
  - destruct (HasPrefix to "eth:").
    { destruct (second_part to); [|done]. simpl. destruct (MatchString _ _); by intros; simplify_eq. }
    destruct (HasPrefix to _); [|by intros; simplify_eq]. destruct (MatchString _ _); by intros; simplify_eq.
Qed.

Lemma run_op_shape st op ses out : run_op st op ses = Some out → op_shape st (op_id op) ses out.
Proof.
  destruct op as [v o|w|s o|s|p|p]; unfold run_op; intros Hrun; simplify_eq.
  - unfold ExecuteTransfer. change (op_id (OpTransfer v o)) with (op_Id (set_op_Type "transfer" v)). shape.
  - revert Hrun. unfold Withdraw. destruct (wp_Amount w <=? 0); [intros; simplify_eq; by apply shape_fail|].
    cbv zeta. destruct (_ && _); [intros; simplify_eq; by apply shape_fail|].
    destruct (withdraw_dest _ _) as [[r|dest]|] eqn:Hd; simpl; [| |done].
    + intros; simplify_eq. left. split; [by eapply withdraw_dest_fail|done].
    + read_balance. destruct (_ <? _); intros; simplify_eq; [by apply shape_fail|].
      by apply shape_ok.
  - unfold Stake. change (op_id (OpStake s o)) with (op_Id (stake_event "stake" (so_Op s))). shape.
  - unfold Unstake. change (op_id (OpUnstake s)) with (op_Id (stake_event "unstake" (so_Op s))). shape.
  - unfold ConsensusStake. shape.
  - unfold ConsensusUnstake. destruct (_ <=? _); [by apply shape_fail|].
    pose proof (unstake_release_log st p ses) as Hlog.
    destruct (unstake_release st p ses) as [[r|rel] ses1] eqn:Hu; [|by apply shape_ok].
    left. split; [|done]. revert Hu. unfold unstake_release.
    destruct (cp_Delegated p); read_balance; destruct (_ <? _); try (intros; by simplify_eq).
    by destruct (slashAdjustedRelease _ _ _ _ _).
Qed.

Lemma run_op_extends st op ses out : run_op st op ses = Some out → extends ses out.2.
Proof.
  intros [[_ (Ho & Hl & _ & Hs)]|(_ & ses1 & v & (Ho & Hl & Hi & Hs) & _ & ->)]%run_op_shape.
  - unfold extends. by rewrite Ho, Hl.
  - destruct (AppendOplog_log st v ses1) as (Ho' & Hl' & _ & Hs').
    unfold extends. rewrite Ho', Hl', Hs', Ho, Hl. split_and!; [by eexists..|done].
Qed.

(** Rule induction over a sequence of operations. *)
Lemma run_ops_ind st (P : ledgerSession → Prop) ops ses rs ses' :
  (∀ op ses out, op ∈ ops → P ses → run_op st op ses = Some out → P out.2) →
  P ses → run_ops st ops ses = Some (rs, ses') → P ses'.
Proof.
  intros Hstep. revert ses rs. induction ops as [|op ops IH]; intros ses rs HP Hrun; simplify_eq/=.
  - done.
  - destruct (run_op st op ses) as [[r ses1]|] eqn:Hop; simplify_eq/=.
    destruct (run_ops st ops ses1) as [[rs' ses2]|] eqn:Hops; simplify_eq/=.
    eapply IH; [|by eapply (Hstep op ses (r, ses1)); [left| |]|done].
    intros op' s' out Hin. apply Hstep. by right.
Qed.
End shape.

(** ** Lemmas: replay and ids *)

Lemma Itoa_inj n m : 0 <= n → 0 <= m → Itoa n = Itoa m → n = m.
Proof.
  intros Hn Hm. unfold Itoa. rewrite !(proj2 (Z.ltb_ge _ _)) by done. by apply FormatUint_inj.
Qed.

Lemma numbered_inj r n r' n' :
  nochar colon r = true → nochar colon r' = true → 0 <= n → 0 <= n' →
  numbered r n = numbered r' n' → r = r' ∧ n = n'.
Proof.
  intros Hr Hr' Hn Hn'. unfold numbered.
  assert (∀ s k, nochar colon (s +:+ ":" +:+ Itoa k) = false) as Hc.
  { intros s k. rewrite nochar_app. apply andb_false_r. }
  destruct (Z.ltb_spec 0 n), (Z.ltb_spec 0 n'); intros Heq.
  - apply sep_inj_left in Heq as [-> Hi]; [|done..]. split; [done|]. by apply Itoa_inj.
  - subst. by rewrite Hc in Hr'.
  - subst. by rewrite Hc in Hr.
  - split; [done|lia].
Qed.

Section logs.
Context {S : Type} `{LedgerDb S}.
Implicit Types st : LedgerState S.

Lemma run_op_replayable st op ses out :
  replayable ses → run_op st op ses = Some out → replayable out.2.
Proof.
  intros Hrep Hrun h.
  destruct (run_op_shape _ _ _ _ Hrun)
    as [[_ (Ho & Hl & _)]|(_ & ses1 & v & (Ho & Hl & _) & _ & ->)].
  - rewrite Ho, Hl. apply Hrep.
  - destruct (AppendOplog_log st v ses1) as (Ho' & Hl' & _). rewrite Ho', Hl', Ho, Hl.
    rewrite fmap_app, bind_app, Hrep, event_rows_at. csimpl. by rewrite app_nil_r.
Qed.

Lemma run_op_ids st op ses out :
  nochar colon (op_id op) = true → ids_ok ses → run_op st op ses = Some out → ids_ok out.2.
Proof.
  intros Hid (Hnd & Hpos & Hall) Hrun.
  destruct (run_op_shape _ _ _ _ Hrun)
    as [[_ (Ho & _ & Hi & _)]|(_ & ses1 & v & (Ho & _ & Hi & _) & Hv & ->)].
  { unfold ids_ok. by rewrite Ho, Hi. }
  destruct (AppendOplog_log st v ses1) as (Ho' & _ & Hi' & _).
  unfold ids_ok. rewrite Ho', Hi', Ho, Hi, Hv, fmap_app. cbn [fmap list_fmap].
  set (n := zget (idCache ses) (op_id op)).
  change (op_Id (set_op_Id _ v)) with (numbered (op_id op) n).
  assert (∀ r k, zget (<[op_id op := k]> (idCache ses)) r
                 = if decide (op_id op = r) then k else zget (idCache ses) r) as Hz.
  { intros r k. unfold zget. destruct (decide _) as [<-|];
      [by rewrite lookup_insert_eq|by rewrite lookup_insert_ne]. }
  pose proof (Hpos (op_id op)). split_and!.
  - apply NoDup_app. split; [done|]. split; [|apply NoDup_singleton].
    intros i Hin ->%list_elem_of_singleton. apply Hall in Hin as (r & k & Hr & Hk & Heq).
    apply numbered_inj in Heq as [<- <-]; [|done|done|done|lia]. unfold n in Hk. lia.
  - intros r. rewrite Hz. case_decide; [|done]. unfold n. lia.
  - intros i [Hin| ->%list_elem_of_singleton]%elem_of_app.
    + apply Hall in Hin as (r & k & Hr & Hk & ->). exists r, k. split_and!; try done; try lia.
      rewrite Hz. case_decide; [|lia]. subst. unfold n. lia.
    + exists (op_id op), n. split_and!; try done. rewrite Hz, decide_True by done. lia.
Qed.

Lemma append_virtual_lookup l vl a :
  default [] (foldl append_virtual vl l !! a)
  = default [] (vl !! a) ++ filter (λ u, lu_Owner u = a) l.
Proof.
  revert vl. induction l as [|u l IH]; intros vl; [by rewrite app_nil_r|].
  cbn [foldl]. rewrite IH, filter_cons. unfold append_virtual.
  destruct (decide (lu_Owner u = a)) as [<-|Hne].
  - rewrite lookup_insert_eq. simpl. by rewrite <- app_assoc.
  - by rewrite lookup_insert_ne.
Qed.

Lemma owner_value_filter a x l :
  owner_value a x l
  = zsum ((λ u, if_amount (String.eqb (lu_Asset u) x) (lu_Amount u))
            <$> filter (λ u, lu_Owner u = a) l).
Proof.
  unfold owner_value. induction l as [|u l IH]; [done|]. rewrite filter_cons, fmap_cons.
  destruct (String.eqb_spec (lu_Owner u) a); simpl.
  - rewrite decide_True by done. csimpl. by rewrite IH.
  - rewrite decide_False by done. done.
Qed.

Lemma Done_state st ses a h x :
  let '(_, st', _) := Done st ses in
  SnapshotForAccount st' a h x = view st h (ledgerOps ses) a x.
Proof.
  simpl. rewrite SnapshotForAccount_sum. unfold view. rewrite SnapshotForAccount_sum.
  unfold set_virtual. cbn [VirtualLedger]. rewrite append_virtual_lookup, fmap_app, zsum_app.
  rewrite wrap64_add_l, owner_value_filter. apply (f_equal wrap64). by rewrite Z.add_assoc.
Qed.
End logs.

(** ** Properties *)

Section properties.
Context {S : Type} `{LedgerDb S}.
Implicit Types st : LedgerState S.

(** Committing a session is exact.  After [Done], the shared state gives
    every account, at every height, the balance the session had computed for it;
    the oplog of the session is appended to the shared oplog, the ids returned
    are those of the committed operations, and the session is empty again. *)
Theorem Done_commits st ses :
  let '(ids, st', ses') := Done st ses in
  (∀ a h x, SnapshotForAccount st' a h x = view st h (ledgerOps ses) a x) ∧
  ls_Oplog st' = ls_Oplog st ++ oplog ses ∧ ids = op_Id <$> oplog ses ∧
  (∀ h, coherent st' h ses') ∧ oplog ses' = [] ∧ ledgerOps ses' = [].
Proof.
  pose proof (λ a h x, Done_state st ses a h x) as Hdone. simpl in *.
  split_and!; try done; try (intros h; apply coherent_empty).
  assert (∀ l (ids : list string), foldl (λ ids v, ids ++ [op_Id v]) ids l = ids ++ (op_Id <$> l)) as Hf.
  { induction l as [|v l IH]; intros ids; csimpl; [by rewrite app_nil_r|]. by rewrite IH, <- app_assoc. }
  by rewrite Hf.
Qed.

(** A savepoint is exact.  Whatever operations a session executes after
    taking a savepoint, restoring it gives back the session as it was: same
    oplog, same ledger rows, same cached balances, same id counters. *)
Theorem RestoreSavepoint_exact st ops ses rs ses' :
  run_ops st ops ses = Some (rs, ses') → RestoreSavepoint (Savepoint ses) ses' = ses.
Proof.
  intros Hrun.
  assert (extends ses ses') as ([l1 Ho] & [l2 Hl] & Hs).
  { refine (run_ops_ind st (extends ses) ops ses rs ses' _ _ Hrun); [|done].
    intros op s out _ Hext Hop. etrans; [done|]. by eapply run_op_extends. }
  destruct ses. unfold RestoreSavepoint, Savepoint. simpl in *.
  rewrite Ho, Hl, Hs, !length_app, !(proj2 (Nat.leb_le _ _)) by lia. by rewrite !take_app_length.
Qed.

(** What a session simulates is what the node ingests.  The ledger rows a
    session accumulates, one event at a time, are exactly the rows
    [ExecuteOplog] derives from the whole oplog of the session when the block is
    finalized, apart from the height, which becomes the height of the block. *)
Theorem session_rows_are_ingested st ops n rs ses' s h :
  run_ops st ops (NewEmptySession n) = Some (rs, ses') →
  ledgerRecords (ExecuteOplog (oplog ses') s h) = at_height h <$> ledgerOps ses'.
Proof.
  intros Hrun. rewrite ExecuteOplog_rows. symmetry.
  refine (run_ops_ind st replayable ops _ rs ses' _ _ Hrun h); [|by intros ?].
  intros op s' out _. apply run_op_replayable.
Qed.

(** The operations of a session get distinct ids.  Callers may reuse an id
    any number of times; if the ids they pass have no colon, the ids in the
    session's oplog are pairwise distinct, and so are the row ids. *)
Theorem session_ids_distinct st ops n rs ses' :
  Forall (λ op, nochar colon (op_id op) = true) ops →
  run_ops st ops (NewEmptySession n) = Some (rs, ses') →
  NoDup (op_Id <$> oplog ses') ∧ NoDup (lu_Id <$> ledgerOps ses').
Proof.
  intros Hids Hrun.
  assert (ids_ok ses') as (Hnd & _ & _).
  { refine (run_ops_ind st ids_ok ops _ rs ses' _ _ Hrun).
    - intros op s out Hin. apply run_op_ids. rewrite Forall_forall in Hids. by apply Hids.
    - split_and!; [constructor|done|]. by intros i Hi%elem_of_nil. }
  split; [done|].
  assert (at_height 0 <$> ledgerOps ses' = oplog ses' ≫= event_rows 0) as Hrep.
  { refine (run_ops_ind st replayable ops _ rs ses' _ _ Hrun 0); [|by intros ?].
    intros op s' out _. apply run_op_replayable. }
  pose proof (event_rows_NoDup 0 _ Hnd) as Hrows. by rewrite <- Hrep, <- list_fmap_compose in Hrows.
Qed.
End properties.
