(* ===== verification/LedgerSystem.v ===== *)
(** The block-level operations of the ledger, [modules/ledger-system/ledger_system.go]:
    ingesting the oplog of a finalized block ([IngestOplog]), settling the
    gateway actions Hive has executed ([IndexActions]) and the staking
    statistics ([CalculationFractStats]).  Deposits are in [Deposit.v].

    Each operation writes to two databases with nothing to tie the writes
    together, so the theorems look at every point a crash can interrupt it: no
    obligation exists without its debit, no action is complete without its
    credit, and running the operation again repairs what was cut short. *)
From S2P Require Import Prelude GoStrings GoEncoding LedgerDb ActionsDb LedgerTypes Oplog.
From S2P Require Import LedgerState LedgerSession.

Definition HBD_UNSTAKE_BLOCKS : Z := 86400.

(** ** Rows *)

(** The row of an ingested update; the height is the one of the block. *)
Definition ingest_row (endHeight : Z) (rec : LedgerUpdate) : LedgerRecord :=
  row (lu_Id rec) "" endHeight (lu_Amount rec) (lu_Asset rec) (lu_Owner rec) "" (lu_Type rec).

Definition stake_credit (bh : Z) (rec : ActionRecord) : LedgerRecord :=
  mkLedgerRecord (ar_Id rec +:+ "#out") (ar_Amount rec) (bh +u64 1) "" (ar_To rec) "stake"
    "hbd_savings" "" (-1) (-1).

Definition unstake_credit (bh blockDelay : Z) (rec : ActionRecord) : LedgerRecord :=
  mkLedgerRecord (ar_Id rec +:+ "#out") (ar_Amount rec) (bh +u64 blockDelay) "" (ar_To rec) "unstake"
    "hbd" "" (-1) (-1).

(** [bs.SetBytes(b64)] of the decoded text; a decoding error is dropped. *)
Definition cleared_bits (ClearedOps : string) : Z := SetBytes (b64_decode url_value ClearedOps).1.

Definition unstake_delay (bs : Z) (idx : nat) : Z :=
  if Z.testbit bs (Z.of_nat idx) then 1 else HBD_UNSTAKE_BLOCKS.

Section system.
Context {S : Type} `{LedgerDb S}.
Context {A : Type} `{BridgeActions A}.
Implicit Types (s : S) (a : A).

(** ** Ingesting an oplog *)

(** One database write of the ingestion: a row stored until it lands, or an
    action stored once, its error ignored. *)
Inductive ingest_write :=
  | WriteLedger (rec : LedgerRecord)
  | WriteAction (rec : ActionRecord).

Definition do_write (sa : S * A) (w : ingest_write) : S * A :=
  match w with
  | WriteLedger rec => (storeLedgerOrFail [rec] sa.1, sa.2)
  | WriteAction rec => (sa.1, (StoreAction rec sa.2).1)
  end.

(** The writes of the two loops of [IngestOplog], in the order they are made. *)
Definition ingest_writes (oplog : list OpLogEvent) (options : OplogInjestOptions) : list ingest_write :=
  let executeResults := ExecuteOplog oplog (StartHeight options) (EndHeight options) in
  let ledgerRecords := ledgerRecords executeResults in
  let actionRecords := actionRecords executeResults in
  ((λ v, WriteLedger (ingest_row (EndHeight options) v)) <$> ledgerRecords) ++ (WriteAction <$> actionRecords).

Definition IngestOplog (oplog : list OpLogEvent) (options : OplogInjestOptions) (sa : S * A) : S * A :=
  foldl do_write sa (ingest_writes oplog options).

(** The state a crash after the first [k] writes of the ingestion leaves behind. *)
Definition IngestOplog_crash (k : nat) (oplog : list OpLogEvent) (options : OplogInjestOptions)
    (sa : S * A) : S * A :=
  foldl do_write sa (take k (ingest_writes oplog options)).

(** ** Settling actions *)

(** The blocking loop of the second read: it ends on any answer that is not a
    fault. *)
Fixpoint get_retry (fuel : nat) (id : string) a : A * option ActionRecord :=
  match fuel with
  | O => (a, None)
  | Datatypes.S fuel =>
      match action_Get id a with
      | (a, GetFault) => get_retry fuel id a
      | (a, GetAbsent) => (a, None)
      | (a, GetFound r) => (a, Some r)
      end
  end.

(** The action, or [None] when it is genuinely absent.  After a first fault the
    store can fail [get_faults] more times. *)
Definition get_or_block (id : string) a : A * option ActionRecord :=
  match action_Get id a with
  | (a, GetFound r) => (a, Some r)
  | (a, GetAbsent) => (a, None)
  | (a, GetFault) => get_retry (Datatypes.S (get_faults a)) id a
  end.

(** The write of the credit leg. *)
Definition index_credit (extraInfo : ExtraInfo) (bs : Z) (idx : nat) (rec : ActionRecord) s : S :=
  if String.eqb (ar_Type rec) "stake"
  then storeLedgerOrFail [stake_credit (ei_BlockHeight extraInfo) rec] s
  else if String.eqb (ar_Type rec) "unstake"
  then storeLedgerOrFail [unstake_credit (ei_BlockHeight extraInfo) (unstake_delay bs idx) rec] s
  else s.

(** One round of the loop: the credit, then the completion. *)
Definition index_action (extraInfo : ExtraInfo) (bs : Z) (idx : nat) (id : string) (sa : S * A) : S * A :=
  let '(s, a) := sa in
  let '(a, record) := get_or_block id a in
  match record with
  | None => (s, a)
  | Some rec =>
      let s := index_credit extraInfo bs idx rec s in
      (s, (ExecuteComplete (Some (ei_ActionId extraInfo)) [id] a).1)
  end.

Fixpoint index_loop (extraInfo : ExtraInfo) (bs : Z) (idx : nat) (ids : list string) (sa : S * A) : S * A :=
  match ids with
  | [] => sa
  | id :: ids => index_loop extraInfo bs (Datatypes.S idx) ids (index_action extraInfo bs idx id sa)
  end.

Definition IndexActions (actionUpdate : ActionUpdate) (extraInfo : ExtraInfo) (sa : S * A) : S * A :=
  index_loop extraInfo (cleared_bits (ClearedOps actionUpdate)) 0 (Ops actionUpdate) sa.

(** The state a crash leaves behind: [k] rounds are done, and in the next round
    the credit may already be written ([credited]) but not the completion. *)
Definition IndexActions_crash (k : nat) (credited : bool) (actionUpdate : ActionUpdate)
    (extraInfo : ExtraInfo) (sa : S * A) : S * A :=
  let bs := cleared_bits (ClearedOps actionUpdate) in
  let '(s, a) := index_loop extraInfo bs 0 (take k (Ops actionUpdate)) sa in
  match Ops actionUpdate !! k with
  | Some id =>
      let '(a, record) := get_or_block id a in
      (match record with
       | Some rec => if credited then index_credit extraInfo bs k rec s else s
       | None => s
       end, a)
  | None => (s, a)
  end.

(** [ledgerSystem.GetBalance] *)
Definition sys_GetBalance (getBalance : string → Z → option BalanceRecord) s (account : string)
    (blockHeight : Z) (asset : string) : Z :=
  GetBalance (NewEmptyState s getBalance) account blockHeight asset.

(** ** Statistics *)

(** The balances of the listed accounts, each account once. *)
Definition account_map (f : string → Z) (accountList : list string) : gmap string Z :=
  foldl (λ m account, <[account := f account]> m) ∅ accountList.

(** The order of the sort. *)
Definition desc (x y : Z) : Prop := y <= x.

#[export] Instance desc_dec : RelDecision desc.
Proof. intros x y. unfold desc. apply _. Defined.

(** The pair of the staked and the fractional balance; [None] is the panic of
    the slice expression [topBalances[:3]]: appending to an empty slice leaves
    no spare capacity before the third element. *)
Definition CalculationFractStats (getBalance : string → Z → option BalanceRecord) s
    (accountList : list string) (blockHeight : Z) : option (Z * Z) :=
  let state := NewEmptyState s getBalance in
  let hbdMap := account_map (λ acc, SnapshotForAccount state acc blockHeight "hbd") accountList in
  let hbdSavingsMap :=
    account_map (λ acc, SnapshotForAccount state acc blockHeight "hbd_savings") accountList in
  let topBalances := merge_sort desc (map_to_list hbdMap).*2 in
  let cutOff := 3%nat in
  if (length topBalances <? cutOff)%nat then None
  else
    let belowBals := drop cutOff topBalances in
    let belowBal := sum64 belowBals in
    let stakedAmt := Z.quot belowBal 3 in
    let StakedBalance := sum64 (map_to_list hbdSavingsMap).*2 in
    Some (StakedBalance, stakedAmt).
End system.

(** ** Specification *)

(** The action database after a batch of actions. *)
Definition insert_actions (acts : list ActionRecord) (m : gmap string ActionRecord) :
    gmap string ActionRecord := foldl (λ m v, <[ar_Id v := v]> m) m acts.

(** The credit of an action, if it is of a kind that has one. *)
Definition credit_row (extraInfo : ExtraInfo) (bs : Z) (idx : nat) (rec : ActionRecord) : option LedgerRecord :=
  if String.eqb (ar_Type rec) "stake" then Some (stake_credit (ei_BlockHeight extraInfo) rec)
  else if String.eqb (ar_Type rec) "unstake"
  then Some (unstake_credit (ei_BlockHeight extraInfo) (unstake_delay bs idx) rec)
  else None.

(** The credits of the listed actions, in order. *)
Fixpoint credit_rows (extraInfo : ExtraInfo) (bs : Z) (idx : nat) (ids : list string)
    (m : gmap string ActionRecord) : list LedgerRecord :=
  match ids with
  | [] => []
  | id :: ids => option_list (m !! id ≫= credit_row extraInfo bs idx) ++ credit_rows extraInfo bs (S idx) ids m
  end.

(** The part of an action its credit depends on, which completing it keeps. *)
Definition credit_view (r : ActionRecord) : string * Z * string * string :=
  (ar_Id r, ar_Amount r, ar_To r, ar_Type r).

Definition same_credits (m m' : gmap string ActionRecord) : Prop :=
  ∀ id, credit_view <$> m !! id = credit_view <$> m' !! id.

(** The transactions of a block, each in a session of its own that is committed
    to the shared state. *)
Section block.
Context {S : Type} `{LedgerDb S}.

Definition run_tx (height : Z) (st : LedgerState S) (ops : list ses_op) : option (LedgerState S) :=
  '(_, ses) ← run_ops st ops (NewEmptySession height); Some (Done st ses).1.2.

Fixpoint run_block (height : Z) (txs : list (list ses_op)) (st : LedgerState S) : option (LedgerState S) :=
  match txs with
  | [] => Some st
  | ops :: txs => st ← run_tx height st ops; run_block height txs st
  end.
End block.

(** ** Lemmas: ingesting *)

Section ingest_facts.
Context {S : Type} `{LedgerDbLaws S}.
Context {A : Type} `{BridgeActionsLaws A}.
Implicit Types (s : S) (a : A).

(** What the two loops leave in the two databases. *)
Definition ingest_ledger (endHeight : Z) (recs : list LedgerUpdate) s : S :=
  foldl (λ s v, storeLedgerOrFail [ingest_row endHeight v] s) s recs.

Definition ingest_actions (acts : list ActionRecord) a : A :=
  foldl (λ a v, (StoreAction v a).1) a acts.

Lemma ledger_writes h recs s a :
  foldl do_write (s, a) ((λ v, WriteLedger (ingest_row h v)) <$> recs) = (ingest_ledger h recs s, a).
Proof. unfold ingest_ledger. revert s. by induction recs as [|v recs IH]; intros s; [|apply IH]. Qed.

Lemma action_writes acts s a : foldl do_write (s, a) (WriteAction <$> acts) = (s, ingest_actions acts a).
Proof. unfold ingest_actions. revert a. by induction acts as [|v acts IH]; intros a; [|apply IH]. Qed.

Lemma IngestOplog_crash_loops k oplog opts s a :
  let res := ExecuteOplog oplog (StartHeight opts) (EndHeight opts) in
  IngestOplog_crash k oplog opts (s, a)
  = (ingest_ledger (EndHeight opts) (take k (ledgerRecords res)) s,
     ingest_actions (take (k - length (ledgerRecords res)) (actionRecords res)) a).
Proof.
  intros res. unfold IngestOplog_crash, ingest_writes. fold res.
  by rewrite take_app, foldl_app, length_fmap, <- !fmap_take, ledger_writes, action_writes.
Qed.

Lemma IngestOplog_loops oplog opts s a :
  let res := ExecuteOplog oplog (StartHeight opts) (EndHeight opts) in
  IngestOplog oplog opts (s, a)
  = (ingest_ledger (EndHeight opts) (ledgerRecords res) s, ingest_actions (actionRecords res) a).
Proof.
  intros res. unfold IngestOplog, ingest_writes. fold res. by rewrite foldl_app, ledger_writes, action_writes.
Qed.

Lemma ingest_ledger_spec h recs s :
  db_wf s → Forall (λ u, lu_Id u ≠ "") recs →
  db_wf (ingest_ledger h recs s) ∧
  rows (ingest_ledger h recs s) = upserts (ingest_row h <$> recs) (rows s).
Proof.
  unfold ingest_ledger. revert s. induction recs as [|u recs IH]; intros s Hwf Hids; [done|].
  apply Forall_cons in Hids as [Hu Hids]. cbn [foldl].
  destruct (storeLedgerOrFail_spec [ingest_row h u] s Hwf) as [Hwf1 Hr1].
  { by repeat constructor. }
  destruct (IH _ Hwf1 Hids) as [Hwf2 Hr2]. split; [done|]. by rewrite Hr2, Hr1.
Qed.

(** Whatever writes are lost, an action of the store is an old one or one of the
    batch; when none is lost the whole batch is there. *)
Lemma ingest_actions_spec acts a :
  act_wf a →
  act_wf (ingest_actions acts a) ∧
  (∀ id r, actions (ingest_actions acts a) !! id = Some r → actions a !! id = Some r ∨ r ∈ acts) ∧
  ((∀ r a', (StoreAction r a').2 = true) → actions (ingest_actions acts a) = insert_actions acts (actions a)).
Proof.
  unfold ingest_actions, insert_actions. revert a. induction acts as [|v acts IH]; intros a Hwf.
  { split_and!; [done|by left|done]. }
  cbn [foldl]. destruct (StoreAction v a) as [a1 ok] eqn:Hst.
  destruct (store_action_spec v a a1 ok Hwf Hst) as [Hwf1 Ha1].
  destruct (IH a1 Hwf1) as (Hwf2 & Hin & Hall). cbn [fst]. split_and!; [done| |].
  - intros id r Hr. apply Hin in Hr as [Hr|Hr]; [|right; by right].
    rewrite Ha1 in Hr. destruct ok; [|by left].
    apply lookup_insert_Some in Hr as [[_ <-]|[_ Hr]]; [right; by left|by left].
  - intros Hok. rewrite Hall, Ha1 by done. specialize (Hok v a). rewrite Hst in Hok. simpl in Hok. by subst ok.
Qed.

Lemma ExecuteOplog_ids_ne l n h : Forall (λ u, lu_Id u ≠ "") (ledgerRecords (ExecuteOplog l n h)).
Proof.
  rewrite ExecuteOplog_rows. apply Forall_forall. intros u (v & Hu & Hv)%list_elem_of_bind.
  destruct (event_row_ids h v) as (sfx & Hids & Hsub & _).
  apply (list_elem_of_fmap_2 lu_Id) in Hu. rewrite Hids in Hu.
  apply list_elem_of_fmap in Hu as (x & -> & Hx). apply sapp_ne_r.
  intros ->. apply Hsub in Hx. revert Hx. by apply (bool_decide_unpack _).
Qed.

Lemma insert_actions_in acts m m' id :
  m !! id = m' !! id ∨ id ∈ ar_Id <$> acts → insert_actions acts m !! id = insert_actions acts m' !! id.
Proof.
  unfold insert_actions. revert m m'. induction acts as [|v acts IH]; intros m m' Hid.
  { destruct Hid as [|Hid]; [done|by apply elem_of_nil in Hid]. }
  cbn [foldl]. apply IH. destruct (decide (id = ar_Id v)) as [->|Hne].
  - left. by rewrite !lookup_insert_eq.
  - rewrite !lookup_insert_ne by done. destruct Hid as [|Hid]; [by left|].
    rewrite fmap_cons in Hid. apply elem_of_cons in Hid as [|]; [done|by right].
Qed.

Lemma insert_actions_ne acts m id : (id ∉ ar_Id <$> acts) → insert_actions acts m !! id = m !! id.
Proof.
  unfold insert_actions. revert m. induction acts as [|v acts IH]; intros m Hid; [done|].
  rewrite fmap_cons in Hid. apply not_elem_of_cons in Hid as [Hne Hid]. cbn [foldl].
  by rewrite IH, lookup_insert_ne.
Qed.

Lemma insert_actions_retry k acts m : insert_actions acts (insert_actions (take k acts) m) = insert_actions acts m.
Proof.
  apply map_eq. intros id. destruct (decide (id ∈ ar_Id <$> acts)) as [Hin|Hin].
  - apply insert_actions_in. by right.
  - rewrite !insert_actions_ne; [done|done| |done].
    intros Hin'. apply Hin. rewrite <- (take_drop k acts), fmap_app. apply elem_of_app. by left.
Qed.
End ingest_facts.

(** ** Lemmas: a block *)

Lemma owner_value_at a x h l : owner_value a x (at_height h <$> l) = owner_value a x l.
Proof. unfold owner_value. by rewrite <- list_fmap_compose. Qed.

Lemma event_rows_not_meta h v : Forall (λ u, IsProtocolMetaLedgerType (lu_Type u) = false ∧ lu_BlockHeight u = h) (event_rows h v).
Proof. op_cases v; by repeat constructor. Qed.

Section block_facts.
Context {S : Type} `{LedgerDbLaws S}.
Implicit Types st : LedgerState S.

Lemma run_block_state height txs st st' :
  run_block height txs st = Some st' →
  ls_LedgerDb st' = ls_LedgerDb st ∧ ls_GetBalanceRecord st' = ls_GetBalanceRecord st ∧
  ∃ l, ls_Oplog st' = ls_Oplog st ++ l ∧
    ∀ a h x h', SnapshotForAccount st' a h x
      = wrap64 (SnapshotForAccount st a h x + owner_value a x (l ≫= event_rows h')).
Proof.
  revert st. induction txs as [|ops txs IH]; intros st; cbn [run_block].
  { intros [= <-]. split_and!; [done..|]. exists []. split; [by rewrite app_nil_r|]. intros a h x h'.
    change (owner_value a x _) with 0. rewrite Z.add_0_r. symmetry. apply wrap64_id, SnapshotForAccount_i64. }
  unfold run_tx. destruct (run_ops st ops _) as [[rs ses]|] eqn:Hrun; [|done]. cbn [mbind option_bind].
  intros Hblk. apply IH in Hblk as (Hdb & Hgb & l & Hop & Hsnap).
  pose proof (λ a h x, Done_state st ses a h x) as Hdone.
  assert (replayable ses) as Hrep.
  { refine (run_ops_ind st replayable ops _ rs ses _ _ Hrun); [|by intros ?]. intros op s' out _. apply run_op_replayable. }
  split_and!; [done..|]. exists (oplog ses ++ l). split; [by rewrite Hop; simpl; rewrite app_assoc|].
  intros a h x h'. rewrite (Hsnap a h x h').
  rewrite (Hdone a h x : SnapshotForAccount (Done st ses).1.2 a h x = _). unfold view. rewrite wrap64_add_l.
  apply (f_equal wrap64). rewrite bind_app, owner_value_app, <- (Hrep h'), owner_value_at. lia.
Qed.
End block_facts.

(** What ingested rows add to a balance: their amounts from their height on. *)
Lemma ledger_balance_ingest m h recs a x hq :
  0 <= h → x ≠ "" → NoDup (lu_Id <$> recs) → (∀ u, u ∈ recs → m !! lu_Id u = None) →
  Forall (λ u, IsProtocolMetaLedgerType (lu_Type u) = false) recs →
  ledger_balance (upserts (ingest_row h <$> recs) m) a x hq
  = ledger_balance m a x hq + (if h <=? hq then owner_value a x recs else 0).
Proof.
  intros Hh Hx Hnd Hfresh Hmeta. unfold ledger_balance. rewrite qsum_upserts_fresh.
  - rewrite Z.add_comm. f_equal. rewrite <- list_fmap_compose. unfold owner_value.
    clear Hnd Hfresh. induction Hmeta as [|u recs Hu Hmeta IH]; csimpl; [by destruct (h <=? hq)|].
    rewrite IH. unfold counts, in_query. cbn [ingest_row row lr_Owner lr_Asset lr_BlockHeight lr_Type lr_Amount].
    rewrite Hu, (proj2 (Z.leb_le 0 h) Hh), (proj2 (String.eqb_neq x "") Hx). simpl.
    rewrite !andb_true_r. by destruct (String.eqb _ a), (h <=? hq), (String.eqb _ x); simpl; lia.
  - by rewrite <- list_fmap_compose.
  - intros r (u & -> & Hu)%list_elem_of_fmap. by apply Hfresh.
Qed.

Section ingest_balance.
Context {S : Type} `{LedgerDbLaws S}.
Implicit Types s : S.

Lemma snapshots_ok_ingest s s' getBal h recs :
  snapshots_ok (NewEmptyState s getBal) → 0 <= h →
  (∀ a hq r, getBal a hq = Some r → br_BlockHeight r < h) →
  NoDup (lu_Id <$> recs) → (∀ u, u ∈ recs → rows s !! lu_Id u = None) →
  Forall (λ u, IsProtocolMetaLedgerType (lu_Type u) = false) recs →
  rows s' = upserts (ingest_row h <$> recs) (rows s) →
  snapshots_ok (NewEmptyState s' getBal).
Proof.
  intros Hok Hh Hbelow Hnd Hfresh Hmeta Hrows a hq r Hr.
  destruct (Hok a hq r Hr) as (H1 & H2 & Hcol). split_and!; [apply H1..|done|].
  intros asset base Hb. rewrite (Hcol asset base Hb). simpl. rewrite Hrows, ledger_balance_ingest; try done.
  - rewrite (proj2 (Z.leb_gt h _)) by by eapply Hbelow. by rewrite Z.add_0_r.
  - apply snapshot_column_asset in Hb as (Hin & _). by intros ->.
Qed.
End ingest_balance.

(** ** Properties *)

Section ingest_properties.
Context {S : Type} `{LedgerDbLaws S}.
Context {A : Type} `{BridgeActionsLaws A}.
Implicit Types (s : S) (a : A).

(** C5: the balances a block computes are the balances the ledger stores.  Run
    the transactions of a block, one session each, on the state of the node, and
    then ingest the oplog of the block: from the height of the block on, the
    balance the database gives every account, in each of the four assets, is the
    balance the in-memory state gave it before the block was stored.  The
    hypotheses are that snapshots are folds of the ledger and older than the
    block, and that the operation ids are new and distinct. *)
Theorem ingest_realises_block s a getBal height txs st' opts account asset hq :
  db_wf s → snapshots_ok (NewEmptyState s getBal) →
  (∀ acc h r, getBal acc h = Some r → br_BlockHeight r < EndHeight opts) →
  run_block height txs (NewEmptyState s getBal) = Some st' →
  NoDup (op_Id <$> Export st') →
  (∀ u, u ∈ ledgerRecords (ExecuteOplog (Export st') (StartHeight opts) (EndHeight opts)) →
     rows s !! lu_Id u = None) →
  0 <= EndHeight opts <= hq → asset ∈ ["hive"; "hbd"; "hbd_savings"; "hive_consensus"] →
  sys_GetBalance getBal (IngestOplog (Export st') opts (s, a)).1 account hq asset
  = SnapshotForAccount st' account hq asset.
Proof.
  intros Hwf Hsnap Hbelow Hrun Hnd Hfresh Hh Hasset.
  destruct (run_block_state height txs _ st' Hrun) as (_ & _ & l & Hop & Hbal).
  unfold Export in *. simpl in Hop. rewrite Hop in *. clear Hop.
  assert (is_Some (snapshot_column asset zero_record)) as Hcol.
  { rewrite !elem_of_cons, elem_of_nil in Hasset. destruct_or! Hasset; subst; by eexists. }
  rewrite (Hbal account hq asset (EndHeight opts)), SnapshotForAccount_sum.
  simpl. rewrite lookup_empty. simpl. rewrite Z.add_0_r, wrap64_add_l.
  rewrite GetBalance_fold, wrap64_add_l by done. unfold sys_GetBalance. rewrite IngestOplog_loops. cbn [fst].
  set (recs := ledgerRecords (ExecuteOplog l (StartHeight opts) (EndHeight opts))).
  assert (NoDup (lu_Id <$> recs)) as Hids.
  { unfold recs. rewrite ExecuteOplog_rows. by apply event_rows_NoDup. }
  assert (Forall (λ u, IsProtocolMetaLedgerType (lu_Type u) = false) recs) as Hmeta.
  { unfold recs. rewrite ExecuteOplog_rows. apply Forall_forall. intros u (v & Hu & _)%list_elem_of_bind.
    pose proof (event_rows_not_meta (EndHeight opts) v) as Hv. rewrite Forall_forall in Hv. by apply Hv. }
  destruct (ingest_ledger_spec (EndHeight opts) recs s Hwf (ExecuteOplog_ids_ne _ _ _)) as [Hwf' Hrows].
  rewrite GetBalance_fold; [|exact Hwf'| |exact Hcol].
  2: { apply (snapshots_ok_ingest s _ getBal (EndHeight opts) recs); try assumption. lia. }
  cbn [NewEmptyState ls_LedgerDb]. rewrite Hrows, ledger_balance_ingest; try assumption; [|lia|].
  - rewrite (proj2 (Z.leb_le _ _)) by lia. unfold recs. by rewrite ExecuteOplog_rows.
  - intros ->. by destruct Hcol.
Qed.

(** C23: no obligation without its debit, at any crash point.  Interrupt the
    ingestion of an oplog after any number of writes: an action the store then
    holds was there before, or it is of this oplog and every ledger row of the
    oplog is already stored.  Ingesting the oplog again from that state gives
    the ledger, and (when no action write is lost) the actions, of an
    uninterrupted run. *)
Theorem ingest_crash_safe k oplog opts s a :
  db_wf s → act_wf a →
  let res := ExecuteOplog oplog (StartHeight opts) (EndHeight opts) in
  let complete := upserts (ingest_row (EndHeight opts) <$> ledgerRecords res) (rows s) in
  let '(s1, a1) := IngestOplog_crash k oplog opts (s, a) in
  let '(s2, a2) := IngestOplog oplog opts (s1, a1) in
  (∀ id r, actions a1 !! id = Some r → actions a !! id = Some r ∨ (r ∈ actionRecords res ∧ rows s1 = complete)) ∧
  rows s2 = complete ∧
  ((∀ r a', (StoreAction r a').2 = true) → actions a2 = insert_actions (actionRecords res) (actions a)).
Proof.
  intros Hwf Hact res complete. rewrite IngestOplog_crash_loops. cbv zeta iota. rewrite IngestOplog_loops. cbv zeta iota.
  fold res. set (recs := ledgerRecords res) in *. set (acts := actionRecords res).
  pose proof (ExecuteOplog_ids_ne oplog (StartHeight opts) (EndHeight opts)) as Hids. fold res recs in Hids.
  destruct (ingest_ledger_spec (EndHeight opts) (take k recs) s Hwf) as [Hwf1 Hr1]; [by apply Forall_take|].
  destruct (ingest_ledger_spec (EndHeight opts) recs _ Hwf1 Hids) as [_ Hr2].
  destruct (ingest_actions_spec (take (k - length recs) acts) a Hact) as (Hact1 & Hin & Hall).
  destruct (ingest_actions_spec acts _ Hact1) as (_ & _ & Hall2).
  split_and!.
  - intros id r Hr. apply Hin in Hr as [Hr|Hr]; [by left|right].
    destruct (Nat.le_gt_cases k (length recs)) as [Hk|Hk].
    { replace (k - length recs)%nat with 0%nat in Hr by lia. by apply elem_of_nil in Hr. }
    split; [by eapply (proj1 (sublist_elem_of _ _)) || (eapply subseteq_take; exact Hr)|].
    rewrite Hr1, take_ge by lia. done.
  - rewrite Hr2, Hr1, fmap_take. apply upserts_retry.
  - intros Hok. rewrite Hall2, Hall by done. apply insert_actions_retry.
Qed.
End ingest_properties.

(** ** Lemmas: settling actions *)

Lemma credit_row_view ext bs idx r r' :
  credit_view r = credit_view r' → credit_row ext bs idx r = credit_row ext bs idx r'.
Proof. unfold credit_view. intros [= Hid Hamt Hto Hty]. unfold credit_row, stake_credit, unstake_credit. by rewrite Hid, Hamt, Hto, Hty. Qed.

Lemma credit_rows_same ext bs idx ids m m' :
  same_credits m m' → credit_rows ext bs idx ids m = credit_rows ext bs idx ids m'.
Proof.
  intros Hs. revert idx. induction ids as [|id ids IH]; intros idx; [done|]. cbn [credit_rows]. rewrite IH.
  f_equal. f_equal. specialize (Hs id). destruct (m !! id), (m' !! id); try done. simpl in *.
  apply credit_row_view. by apply (inj Some) in Hs.
Qed.

Lemma credit_rows_app ext bs idx l k m :
  credit_rows ext bs idx (l ++ k) m = credit_rows ext bs idx l m ++ credit_rows ext bs (idx + length l) k m.
Proof.
  revert idx. induction l as [|id l IH]; intros idx; [by rewrite Nat.add_0_r|].
  cbn [app credit_rows length]. rewrite IH, <- app_assoc. do 3 f_equal. lia.
Qed.

Lemma elem_of_credit_rows ext bs idx ids m c :
  c ∈ credit_rows ext bs idx ids m →
  ∃ id r i, id ∈ ids ∧ m !! id = Some r ∧ credit_row ext bs i r = Some c.
Proof.
  revert idx. induction ids as [|id ids IH]; intros idx; [by intros Hc%elem_of_nil|]. cbn [credit_rows].
  intros [Hc|Hc]%elem_of_app.
  - destruct (m !! id) as [r|] eqn:Hr; [|by apply elem_of_nil in Hc]. simpl in Hc.
    destruct (credit_row ext bs idx r) as [c'|] eqn:Hcr; [|by apply elem_of_nil in Hc]. simpl in Hc.
    apply list_elem_of_singleton in Hc as ->. exists id, r, idx. split_and!; [by left|done|done].
  - destruct (IH _ Hc) as (id' & r & i & Hin & ?). exists id', r, i. split; [by right|done].
Qed.

(** A credit carries the id, the amount and the owner of its action. *)
Lemma credit_row_of ext bs idx r c :
  credit_row ext bs idx r = Some c →
  lr_Id c = ar_Id r +:+ "#out" ∧ lr_Amount c = ar_Amount r ∧ lr_Owner c = ar_To r.
Proof.
  unfold credit_row. destruct (String.eqb _ "stake"); [by intros [= <-]|].
  destruct (String.eqb _ "unstake"); [by intros [= <-]|done].
Qed.

Lemma same_credits_complete tx ids m : same_credits m (complete_all tx ids m).
Proof.
  intros id. rewrite lookup_complete_all. destruct (decide _); [|done].
  destruct (m !! id) as [r|]; [|done]. simpl. by destruct tx.
Qed.

#[export] Instance same_credits_equiv : Equivalence same_credits.
Proof.
  split.
  - by intros m id.
  - intros m m' Hm id. by rewrite Hm.
  - intros m m' m'' H1 H2 id. by rewrite H1, H2.
Qed.

Section index_facts.
Context {S : Type} `{LedgerDbLaws S}.
Context {A : Type} `{BridgeActionsLaws A}.
Implicit Types (s : S) (a : A).

Lemma get_retry_spec fuel id a :
  (get_faults a < fuel)%nat → act_wf a →
  let '(a', r) := get_retry fuel id a in act_wf a' ∧ actions a' = actions a ∧ r = actions a !! id.
Proof.
  revert a. induction fuel as [|fuel IH]; intros a Hf Hwf; [lia|]. cbn [get_retry].
  destruct (action_Get id a) as [a1 res] eqn:Hg.
  destruct (action_get_spec id a a1 res Hwf Hg) as (Hwf1 & Heq & Hres).
  destruct res as [| |r]; [|done..].
  specialize (IH a1 ltac:(lia) Hwf1). destruct (get_retry fuel id a1) as [a2 r].
  destruct IH as (? & -> & ->). by rewrite Heq.
Qed.

Lemma get_or_block_spec id a :
  act_wf a →
  let '(a', r) := get_or_block id a in act_wf a' ∧ actions a' = actions a ∧ r = actions a !! id.
Proof.
  intros Hwf. unfold get_or_block. destruct (action_Get id a) as [a1 res] eqn:Hg.
  destruct (action_get_spec id a a1 res Hwf Hg) as (Hwf1 & Heq & Hres).
  destruct res as [| |r]; [|done..].
  pose proof (get_retry_spec (Datatypes.S (get_faults a1)) id a1 ltac:(lia) Hwf1) as Hr.
  destruct (get_retry _ id a1) as [a2 r]. destruct Hr as (? & -> & ->). by rewrite Heq.
Qed.

Lemma index_credit_spec ext bs idx r s :
  db_wf s →
  db_wf (index_credit ext bs idx r s) ∧
  rows (index_credit ext bs idx r s) = upserts (option_list (credit_row ext bs idx r)) (rows s).
Proof.
  intros Hwf. unfold index_credit, credit_row.
  destruct (String.eqb _ "stake"); [|destruct (String.eqb _ "unstake"); [|done]];
    (apply storeLedgerOrFail_spec; [done|]); repeat constructor; simpl; by apply sapp_ne_r.
Qed.

(** The loop: its credits, and what it does to the actions.  A completion that
    does not land leaves its action as it was. *)
Lemma index_loop_spec ext bs idx ids s a :
  db_wf s → act_wf a →
  let '(s', a') := index_loop ext bs idx ids (s, a) in
  db_wf s' ∧ act_wf a' ∧ rows s' = upserts (credit_rows ext bs idx ids (actions a)) (rows s) ∧
  same_credits (actions a) (actions a') ∧
  (∀ id, (id ∉ ids) → actions a' !! id = actions a !! id) ∧
  ((∀ tx l a0, (ExecuteComplete tx l a0).2 = true) →
   actions a' = complete_all (Some (ei_ActionId ext)) ids (actions a)).
Proof.
  revert idx s a. induction ids as [|id ids IH]; intros idx s a Hwf Hact; [done|].
  cbn [index_loop]. unfold index_action.
  pose proof (get_or_block_spec id a Hact) as Hget. destruct (get_or_block id a) as [a1 r].
  destruct Hget as (Hact1 & Heq1 & ->). cbn [credit_rows].
  destruct (actions a !! id) as [r|] eqn:Hr; cbn [mbind option_bind option_list app].
  - destruct (index_credit_spec ext bs idx r s Hwf) as [Hwf1 Hrows1].
    destruct (ExecuteComplete (Some (ei_ActionId ext)) [id] a1) as [a2 ok] eqn:Hc.
    destruct (complete_spec _ _ _ _ _ Hact1 Hc) as [Hact2 Heq2]. cbn [fst].
    specialize (IH (Datatypes.S idx) _ a2 Hwf1 Hact2). destruct (index_loop _ _ _ _ _) as [s' a'].
    destruct IH as (Hwf' & Hact' & Hrows & Hsame & Hother & Hdone).
    assert (same_credits (actions a) (actions a2)) as Hs2.
    { rewrite Heq2, Heq1. destruct ok; [apply same_credits_complete|done]. }
    split_and!; [done|done| | | |].
    + by rewrite Hrows, Hrows1, upserts_app, (credit_rows_same _ _ _ _ _ _ Hs2).
    + by rewrite Hs2.
    + intros id' [Hne Hid']%not_elem_of_cons. rewrite Hother, Heq2, Heq1 by done.
      destruct ok; [|done]. unfold complete_all. simpl. by rewrite lookup_alter_ne.
    + intros Hok. rewrite Hdone by done. specialize (Hok (Some (ei_ActionId ext)) [id] a1).
      rewrite Hc in Hok. simpl in Hok. rewrite Hok in Heq2. by rewrite Heq2, Heq1.
  - specialize (IH (Datatypes.S idx) s a1 Hwf Hact1). destruct (index_loop _ _ _ _ _) as [s' a'].
    rewrite Heq1 in IH. destruct IH as (? & ? & ? & ? & Hother & Hdone). split_and!; [done..| |].
    + intros id' [_ Hid']%not_elem_of_cons. by apply Hother.
    + intros Hok. rewrite Hdone by done. unfold complete_all. cbn [foldl]. f_equal.
      apply map_eq. intros k. destruct (decide (k = id)) as [->|]; [by rewrite lookup_alter_eq, Hr|by rewrite lookup_alter_ne].
Qed.
End index_facts.

Lemma upserts_is_Some l m k : k ∈ lr_Id <$> l → is_Some (upserts l m !! k).
Proof.
  intros Hk. destruct (upserts l m !! k) eqn:E; [by eexists|exfalso].
  revert m E. induction l as [|r l IH]; intros m E; [by apply elem_of_nil in Hk|].
  rewrite upserts_cons in E. destruct (decide (k ∈ lr_Id <$> l)) as [Hl|Hl]; [by eapply IH|].
  rewrite fmap_cons in Hk. apply elem_of_cons in Hk as [->|]; [|done].
  rewrite lookup_upserts_ne in E by done. unfold upsert in E. by rewrite lookup_insert_eq in E.
Qed.

(** The credits of the first [k] actions are a prefix of the credits. *)
Lemma credit_rows_take ext bs k ids m :
  ∃ n, credit_rows ext bs 0 (take k ids) m = take n (credit_rows ext bs 0 ids m).
Proof.
  exists (length (credit_rows ext bs 0 (take k ids) m)).
  rewrite <- (take_drop k ids) at 3. by rewrite credit_rows_app, take_app_length.
Qed.

Lemma credit_rows_snoc ext bs k ids m id r :
  ids !! k = Some id → m !! id = Some r →
  credit_rows ext bs 0 (take (S k) ids) m
  = credit_rows ext bs 0 (take k ids) m ++ option_list (credit_row ext bs k r).
Proof.
  intros Hk Hr. rewrite (take_S_r _ _ _ Hk), credit_rows_app, length_take, Nat.min_l
    by (apply lookup_lt_Some in Hk; lia).
  cbn [credit_rows Nat.add]. by rewrite Hr, app_nil_r.
Qed.

Lemma credited_rows ext bs ids m rs id r :
  (∀ k x, m !! k = Some x → ar_Id x = k) → id ∈ ids → m !! id = Some r → ar_Type r ∈ ["stake"; "unstake"] →
  ∃ c, upserts (credit_rows ext bs 0 ids m) rs !! (id +:+ "#out") = Some c ∧
       lr_Amount c = ar_Amount r ∧ lr_Owner c = ar_To r.
Proof.
  intros Hkey Hid Hr Hty. pose proof (Hkey id r Hr) as Hrid.
  assert (∀ i, is_Some (credit_row ext bs i r)) as Hc.
  { intros i. unfold credit_row. rewrite !elem_of_cons, elem_of_nil in Hty. destruct_or! Hty; rewrite Hty; by eexists. }
  assert (id +:+ "#out" ∈ lr_Id <$> credit_rows ext bs 0 ids m) as Hin.
  { apply list_elem_of_lookup in Hid as [k Hk]. destruct (Hc k) as [c Hck].
    destruct (credit_row_of _ _ _ _ _ Hck) as [Hcid _]. rewrite <- Hrid, <- Hcid. apply list_elem_of_fmap_2.
    destruct (credit_rows_take ext bs (S k) ids m) as [n Hn].
    rewrite <- (take_drop n (credit_rows ext bs 0 ids m)), <- Hn, (credit_rows_snoc _ _ _ _ _ _ _ Hk Hr), Hck.
    apply elem_of_app. left. apply elem_of_app. right. by left. }
  destruct (upserts_is_Some _ rs _ Hin) as [c Hc']. exists c. split; [done|].
  apply lookup_upserts_cases in Hc' as [[Hcin Hcid]|[Hn _]]; [|done].
  apply elem_of_credit_rows in Hcin as (id' & r' & i & _ & Hr' & Hcr).
  apply credit_row_of in Hcr as (Hcid' & -> & ->). rewrite Hcid' in Hcid. apply sapp_inj_r in Hcid.
  rewrite (Hkey _ _ Hr') in Hcid. by subst id'; simplify_eq.
Qed.

Lemma subseteq_take_le {B} (k j : nat) (l : list B) x : (k <= j)%nat → x ∈ take k l → x ∈ take j l.
Proof.
  intros Hkj Hx. replace k with (min k j) in Hx by lia. rewrite <- take_take in Hx.
  rewrite <- (take_drop k (take j l)). apply elem_of_app. by left.
Qed.

Section crash_facts.
Context {S : Type} `{LedgerDbLaws S}.
Context {A : Type} `{BridgeActionsLaws A}.
Implicit Types (s : S) (a : A).

Lemma index_crash_spec k credited upd ext s a s1 a1 :
  db_wf s → act_wf a → IndexActions_crash k credited upd ext (s, a) = (s1, a1) →
  let bs := cleared_bits (ClearedOps upd) in
  db_wf s1 ∧ act_wf a1 ∧
  (∃ j, (k <= j)%nat ∧ rows s1 = upserts (credit_rows ext bs 0 (take j (Ops upd)) (actions a)) (rows s)) ∧
  same_credits (actions a) (actions a1) ∧
  (∀ id, (id ∉ take k (Ops upd)) → actions a1 !! id = actions a !! id).
Proof.
  intros Hwf Hact Hcr bs. unfold IndexActions_crash in Hcr. fold bs in Hcr.
  pose proof (index_loop_spec ext bs 0 (take k (Ops upd)) s a Hwf Hact) as Hloop.
  destruct (index_loop _ _ _ _ _) as [s0 a0]. destruct Hloop as (Hwf0 & Hact0 & Hrows0 & Hsame & Hother & _).
  destruct (Ops upd !! k) as [id|] eqn:Hk; [|simplify_eq; by eauto 10].
  pose proof (get_or_block_spec id a0 Hact0) as Hget. destruct (get_or_block id a0) as [a2 r].
  destruct Hget as (Hact2 & Heq2 & Hr). injection Hcr as <- <-. rewrite Heq2.
  destruct r as [r|]; [|by eauto 10]. destruct credited; [|by eauto 10].
  destruct (index_credit_spec ext bs k r s0 Hwf0) as [Hwf1 Hrows1]. split_and!; [done|done| |done|done].
  exists (Datatypes.S k). split; [lia|]. pose proof (Hsame id) as Hv. rewrite <- Hr in Hv.
  destruct (actions a !! id) as [r0|] eqn:Hr0; [|done]. apply (inj Some) in Hv.
  by rewrite (credit_rows_snoc _ _ _ _ _ _ _ Hk Hr0), upserts_app, <- Hrows0, Hrows1, (credit_row_view _ _ _ _ _ Hv).
Qed.
End crash_facts.

Section index_properties.
Context {S : Type} `{LedgerDbLaws S}.
Context {A : Type} `{BridgeActionsLaws A}.
Implicit Types (s : S) (a : A).

(** Settling the actions Hive executed credits each of them exactly once and
    completes it.  The ledger gains one credit per listed stake or unstake
    action the database knows (savings one block later; liquid funds one block
    or the unstaking period later, as the bit of the action says), whatever
    faults the reads and writes go through, and when the completions land every
    listed action is complete and no other action changes. *)
Theorem IndexActions_settles upd ext s a :
  db_wf s → act_wf a →
  let '(s', a') := IndexActions upd ext (s, a) in
  rows s' = upserts (credit_rows ext (cleared_bits (ClearedOps upd)) 0 (Ops upd) (actions a)) (rows s) ∧
  ((∀ tx l a0, (ExecuteComplete tx l a0).2 = true) →
   actions a' = complete_all (Some (ei_ActionId ext)) (Ops upd) (actions a)).
Proof.
  intros Hwf Hact. unfold IndexActions.
  pose proof (index_loop_spec ext (cleared_bits (ClearedOps upd)) 0 (Ops upd) s a Hwf Hact) as Hloop.
  destruct (index_loop _ _ _ _ _) as [s' a']. by destruct Hloop as (_ & _ & ? & _ & _ & ?).
Qed.

(** No action is complete without its credit, at any crash point.  Interrupt
    the settlement between any two writes: a stake or unstake action that is
    complete by then was already so before, or its credit is in the ledger with
    its amount and owner.  Settling the same batch again from that state gives
    the same ledger as an uninterrupted run. *)
Theorem IndexActions_crash_safe k credited upd ext s a :
  db_wf s → act_wf a →
  let '(s1, a1) := IndexActions_crash k credited upd ext (s, a) in
  (∀ id r, actions a1 !! id = Some r → ar_Type r ∈ ["stake"; "unstake"] →
     actions a !! id = Some r ∨
     ∃ c, rows s1 !! (id +:+ "#out") = Some c ∧ lr_Amount c = ar_Amount r ∧ lr_Owner c = ar_To r) ∧
  rows (IndexActions upd ext (s1, a1)).1 = rows (IndexActions upd ext (s, a)).1.
Proof.
  intros Hwf Hact. destruct (IndexActions_crash k credited upd ext (s, a)) as [s1 a1] eqn:Hcr.
  destruct (index_crash_spec k credited upd ext s a s1 a1 Hwf Hact Hcr)
    as (Hwf1 & Hact1 & (j & Hj & Hrows) & Hsame & Hother).
  set (bs := cleared_bits (ClearedOps upd)) in *. split.
  - intros id r Hr Hty. destruct (decide (id ∈ take k (Ops upd))) as [Hin|Hin].
    2: { left. by rewrite <- Hother. }
    right. pose proof (Hsame id) as Hv. rewrite Hr in Hv.
    destruct (actions a !! id) as [r0|] eqn:Hr0; [|done]. apply (inj Some) in Hv. unfold credit_view in Hv.
    injection Hv as Hid Hamt Hto Hty0. rewrite <- Hty0 in Hty. rewrite <- Hamt, <- Hto, Hrows.
    apply credited_rows; try done; [intros k' x Hx; exact (actions_keyed a k' x Hact Hx)|].
    eapply subseteq_take_le; [exact Hj|exact Hin].
  - unfold IndexActions. fold bs.
    pose proof (index_loop_spec ext bs 0 (Ops upd) s a Hwf Hact) as H1'.
    pose proof (index_loop_spec ext bs 0 (Ops upd) s1 a1 Hwf1 Hact1) as H2'.
    destruct (index_loop _ _ _ _ (s, a)) as [s2 a2], (index_loop _ _ _ _ (s1, a1)) as [s3 a3].
    destruct H1' as (_ & _ & Hr2 & _), H2' as (_ & _ & Hr3 & _). simpl.
    destruct (credit_rows_take ext bs j (Ops upd) (actions a)) as [n Hn].
    by rewrite Hr3, Hr2, Hrows, <- (credit_rows_same _ _ _ _ _ _ Hsame), Hn, upserts_retry.
Qed.
End index_properties.
