(* ===== verification/Deposit.v ===== *)
(** Deposits, [Deposit] and [normalizeEthDID] of
    [modules/ledger-system/ledger_system.go].

    A transfer to the gateway wallet credits the account its memo names, or the
    sender.  The theorems show that a well-formed recipient is honoured, that no
    memo can send the funds to an account that is neither a valid Hive account,
    a DID nor the sender, and that the spellings of one Ethereum address are one
    account once checksums are active.

    [json.Unmarshal] is a parameter here: the memo is decoded as JSON only when
    it is not a query string.  The address checksum is go-ethereum's. *)
From Stdlib Require Import Ascii.
From S2P Require Import Prelude GoStrings GoEncoding LedgerDb LedgerTypes LedgerSession.

(** ** Deposits *)

Definition ethDIDPrefix : string := "did:pkh:eip155:1:".

Section deposit.
(** [json.Unmarshal] into [DepositParams]: the field [to], or [None] when the
    text does not decode. *)
Context (jsonTo : string → option string).
(** [ethcommon.HexToAddress(addr).Hex()] of the go-ethereum library. *)
Context (checksumHex : string → string).
(** [EvmAddressChecksumHeight] of the consensus parameters; [None] is a nil
    system configuration. *)
Context (evmAddressChecksumHeight : option Z).

Definition EvmAddressChecksumActive (blockHeight : Z) : bool :=
  match evmAddressChecksumHeight with
  | Some height => negb (height =? 0) && (height <=? blockHeight)
  | None => false
  end.

Definition normalizeEthDID (account : string) : string :=
  let '(addr, ok) := CutPrefix account ethDIDPrefix in
  if negb ok then account
  else if negb (MatchString ethRegex addr) then account
  else ethDIDPrefix +:+ checksumHex addr.

(** The recipient named by the memo. *)
Definition memo_to (deposit : Deposit_t) : string :=
  let '(values, ok) := ParseQuery (dep_Memo deposit) in
  if ok then Values_Get values "to"
  else match jsonTo (dep_Memo deposit) with
       | Some to => to
       | None => dep_From deposit
       end.

(** The account the recipient stands for. *)
Definition resolve_to (deposit : Deposit_t) (to : string) : string :=
  let matchedHive := MatchString hiveRegex to in
  let matchedEth := MatchString ethRegex to in
  if matchedHive && (3 <=? slen to)%nat && (slen to <? 17)%nat then "hive:" +:+ to
  else if matchedEth then ethDIDPrefix +:+ to
  else if HasPrefix to "hive:" && dep_HivePrefixRecipientFix deposit then
    let name := TrimPrefix to "hive:" in
    if negb (MatchString hiveRegex name && (3 <=? slen name)%nat && (slen name <? 17)%nat)
    then dep_From deposit else to
  else if HasPrefix to "hive:" then
    let matched := from_option (MatchString hiveRegex) false (Split to colon !! 1%nat) in
    if negb (matched && (3 <=? slen to)%nat && (slen to <? 17)%nat)
    then "hive:" +:+ dep_From deposit else to
  else if HasPrefix to "did:" then to
  else dep_From deposit.

Definition deposit_owner (deposit : Deposit_t) : string :=
  let to := resolve_to deposit (memo_to deposit) in
  if EvmAddressChecksumActive (dep_BlockHeight deposit) then normalizeEthDID to else to.

(** The write is attempted once; an error is only logged. *)
Definition Deposit {S : Type} `{LedgerDb S} (deposit : Deposit_t) (s : S) : S * string :=
  let owner := deposit_owner deposit in
  let rec := row (dep_Id deposit) (dep_Id deposit) (dep_BlockHeight deposit) (dep_Amount deposit)
               (dep_Asset deposit) owner (dep_From deposit) "deposit" in
  ((StoreLedger [rec] s).1, owner).
End deposit.

(** ** Specification *)

(** What the checksum library documents: the checksummed form is an address
    that depends on the hexadecimal digits and not on their case. *)
Record checksum_ok (checksumHex : string → string) : Prop := {
  checksum_address a : MatchString ethRegex a = true → MatchString ethRegex (checksumHex a) = true;
  checksum_case a b :
    MatchString ethRegex a = true → MatchString ethRegex b = true → ToLower a = ToLower b →
    checksumHex a = checksumHex b;
}.

(** ** Lemmas *)

Lemma lits_match p s : re_match (lits p) s → s = p.
Proof.
  revert s. induction p as [|c p IH]; intros s Hm; [by inversion Hm|].
  apply re_match_seq_inv in Hm as (x & y & -> & (d & -> & Hd)%re_match_cls_inv & Hy%IH).
  apply Ascii.eqb_eq in Hd. by subst.
Qed.

Lemma rep_allc n f s : re_match (rep n (Cls f)) s → allc f s = true.
Proof.
  revert s. induction n as [|n IH]; intros s Hm; [by inversion Hm|].
  apply re_match_seq_inv in Hm as (x & y & -> & (d & -> & Hd)%re_match_cls_inv & Hy%IH).
  simpl. by rewrite Hd.
Qed.

Lemma ethRegex_shape s : MatchString ethRegex s = true → ∃ h, s = "0x" +:+ h ∧ allc is_hex h = true.
Proof.
  intros (x & y & -> & Hx%lits_match & Hy%rep_allc)%MatchString_spec%re_match_seq_inv. subst. eauto.
Qed.

Lemma eth_plain s : MatchString ethRegex s = true → allc plain_char s = true.
Proof.
  intros (h & -> & Hh)%ethRegex_shape. rewrite allc_app. simpl. eapply allc_mono; [|exact Hh].
  intros c. by destruct c as [[] [] [] [] [] [] [] []].
Qed.

Lemma hive_plain s : allc hive_char s = true → allc plain_char s = true.
Proof. apply allc_mono. intros c. by destruct c as [[] [] [] [] [] [] [] []]. Qed.

Lemma hive_name_chars s : hive_name_ok s = true → allc hive_char s = true.
Proof. unfold hive_name_ok. rewrite !andb_true_iff. intros [[Hm _] _]. by apply hiveRegex_chars. Qed.

(** A text with a colon is no bare Hive name. *)
Lemma colon_not_hive s : nochar colon s = false → hive_name_ok s = false.
Proof.
  intros Hc. destruct (hive_name_ok s) eqn:Hs; [|done].
  apply hive_name_chars, (hive_nochar colon) in Hs; [congruence|done].
Qed.

Lemma memo_to_plain jsonTo dep x :
  dep_Memo dep = "to=" +:+ x → allc plain_char x = true → memo_to jsonTo dep = x.
Proof. intros Hm Hx. unfold memo_to. by rewrite Hm, ParseQuery_to. Qed.

Lemma eth_not_hive s : MatchString ethRegex s = true → hive_name_ok s = false.
Proof.
  intros (h & -> & _)%ethRegex_shape. unfold hive_name_ok.
  destruct (MatchString hiveRegex _) eqn:Hm; [|done]. exfalso.
  apply MatchString_spec in Hm. unfold hiveRegex in Hm.
  apply re_match_seq_inv in Hm as (x & y & Hs & Hl & _). unfold hive_label in Hl.
  apply re_match_seq_inv in Hl as (x1 & x2 & -> & (c & -> & Hc)%re_match_cls_inv & _).
  simpl in Hs. injection Hs as <- _. done.
Qed.

Section resolve_facts.
Context (checksumHex : string → string) (cs : option Z).

Abbreviation final bh := (λ to, if EvmAddressChecksumActive cs bh then normalizeEthDID checksumHex to else to).

Lemma final_not_did bh x : HasPrefix x "did:" = false → final bh x = x.
Proof.
  intros Hx. cbv beta. destruct (EvmAddressChecksumActive cs bh); [|done].
  unfold normalizeEthDID, CutPrefix. destruct (HasPrefix x ethDIDPrefix) eqn:Hp; [|done].
  apply HasPrefix_spec in Hp as [t ->]. done.
Qed.

Lemma final_eth bh a :
  MatchString ethRegex a = true →
  final bh (ethDIDPrefix +:+ a)
  = ethDIDPrefix +:+ (if EvmAddressChecksumActive cs bh then checksumHex a else a).
Proof.
  intros Ha. cbv beta. destruct (EvmAddressChecksumActive cs bh); [|done].
  unfold normalizeEthDID, CutPrefix. by rewrite HasPrefix_app, sdrop_app, Ha.
Qed.

Lemma final_did bh x : HasPrefix x "did:" = true → HasPrefix (final bh x) "did:" = true.
Proof.
  intros Hx. cbv beta. destruct (EvmAddressChecksumActive cs bh); [|done].
  unfold normalizeEthDID. destruct (CutPrefix x ethDIDPrefix) as [addr []]; [|done]. simpl negb. cbv iota.
  by destruct (negb _).
Qed.
End resolve_facts.

(** Where a recipient can resolve to. *)
Lemma resolve_cases dep to :
  resolve_to dep to = dep_From dep ∨
  (∃ name, (dep_HivePrefixRecipientFix dep = true → hive_name_ok name = true) ∧ resolve_to dep to = "hive:" +:+ name) ∨
  HasPrefix (resolve_to dep to) "did:" = true.
Proof.
  unfold resolve_to. cbv zeta. fold (hive_name_ok to). fold (hive_name_ok (TrimPrefix to "hive:")).
  destruct (hive_name_ok to) eqn:Hn; [right; left; by exists to|].
  destruct (MatchString ethRegex to); [by right; right|].
  destruct (HasPrefix to "hive:") eqn:Hp; cbn [andb].
  - apply HasPrefix_spec in Hp as [t ->]. destruct (dep_HivePrefixRecipientFix dep).
    + rewrite TrimPrefix_app. destruct (hive_name_ok t) eqn:Ht; [|by left]. right; left. by exists t.
    + right; left. destruct (negb _); by eexists.
  - destruct (HasPrefix to "did:") eqn:Hd; [by right; right|by left].
Qed.

(** ** Properties *)

Section properties.
Context (jsonTo : string → option string) (checksumHex : string → string) (cs : option Z).

(** A well-formed recipient is honoured.  A memo naming a valid Hive account,
    with or without the network prefix, credits that account; a memo naming an
    Ethereum address credits the DID of the address, in checksummed form once
    checksums are active. *)
Theorem deposit_honours_recipient dep name :
  dep_HivePrefixRecipientFix dep = true →
  (hive_name_ok name = true → dep_Memo dep = "to=" +:+ name ∨ dep_Memo dep = "to=hive:" +:+ name →
   deposit_owner jsonTo checksumHex cs dep = "hive:" +:+ name) ∧
  (MatchString ethRegex name = true → dep_Memo dep = "to=" +:+ name →
   deposit_owner jsonTo checksumHex cs dep
   = ethDIDPrefix +:+ (if EvmAddressChecksumActive cs (dep_BlockHeight dep) then checksumHex name else name)).
Proof.
  intros Hfix. split.
  - intros Hn Hm. pose proof (hive_name_chars _ Hn) as Hc. unfold deposit_owner. cbv zeta.
    assert (resolve_to dep (memo_to jsonTo dep) = "hive:" +:+ name) as ->; [|by apply final_not_did].
    destruct Hm as [Hm|Hm].
    + rewrite (memo_to_plain _ _ _ Hm) by by apply hive_plain. unfold resolve_to. cbv zeta.
      fold (hive_name_ok name). by rewrite Hn.
    + rewrite (memo_to_plain jsonTo dep ("hive:" +:+ name)); [|done|rewrite allc_app; by apply hive_plain].
      unfold resolve_to. cbv zeta. fold (hive_name_ok ("hive:" +:+ name)).
      rewrite colon_not_hive by done.
      destruct (MatchString ethRegex ("hive:" +:+ name)) eqn:He; [by apply ethRegex_shape in He as (? & ? & _)|].
      rewrite HasPrefix_app, Hfix, TrimPrefix_app. fold (hive_name_ok name). by rewrite Hn.
  - intros He Hm. unfold deposit_owner. cbv zeta. rewrite (memo_to_plain _ _ _ Hm) by by apply eth_plain.
    unfold resolve_to. cbv zeta. fold (hive_name_ok name). rewrite eth_not_hive, He by done.
    by apply final_eth.
Qed.

(** From consensus 0.12.0 on no memo can send a deposit into the void.  Whatever
    the memo says, the account credited by a deposit from a Hive account is the sender,
    a name of the Hive network, which is a valid account under the rule of 0.12.0, or a
    DID.  Before, the name after "hive:" is not checked ([unchecked_recipient]). *)
Theorem deposit_owner_safe dep :
  HasPrefix (dep_From dep) "did:" = false →
  let owner := deposit_owner jsonTo checksumHex cs dep in
  owner = dep_From dep ∨
  (∃ name, (dep_HivePrefixRecipientFix dep = true → hive_name_ok name = true) ∧ owner = "hive:" +:+ name) ∨
  HasPrefix owner "did:" = true.
Proof.
  intros Hfrom. unfold deposit_owner. cbv zeta.
  destruct (resolve_cases dep (memo_to jsonTo dep)) as [->|[(name & Hn & ->)|Hd]].
  - left. by apply final_not_did.
  - right; left. exists name. split; [done|]. by apply final_not_did.
  - right; right. by apply final_did.
Qed.

(** One Ethereum address is one account.  Once checksums are active, deposits
    whose memos spell the same address in different cases credit the same
    account. *)
Theorem deposit_address_case dep1 dep2 a b :
  checksum_ok checksumHex →
  dep_Memo dep1 = "to=" +:+ a → dep_Memo dep2 = "to=" +:+ b →
  MatchString ethRegex a = true → MatchString ethRegex b = true → ToLower a = ToLower b →
  EvmAddressChecksumActive cs (dep_BlockHeight dep1) = true →
  EvmAddressChecksumActive cs (dep_BlockHeight dep2) = true →
  deposit_owner jsonTo checksumHex cs dep1 = deposit_owner jsonTo checksumHex cs dep2.
Proof.
  intros Hck Hm1 Hm2 Ha Hb Hab Hact1 Hact2.
  assert (∀ dep x, dep_Memo dep = "to=" +:+ x → MatchString ethRegex x = true →
    EvmAddressChecksumActive cs (dep_BlockHeight dep) = true →
    deposit_owner jsonTo checksumHex cs dep = ethDIDPrefix +:+ checksumHex x) as Hown.
  { intros dep x Hm Hx Hact. unfold deposit_owner. cbv zeta. rewrite (memo_to_plain _ _ _ Hm) by by apply eth_plain.
    unfold resolve_to. cbv zeta. fold (hive_name_ok x). rewrite eth_not_hive, Hx by done.
    rewrite (final_eth checksumHex cs (dep_BlockHeight dep) x Hx). by rewrite Hact. }
  rewrite (Hown dep1 a), (Hown dep2 b) by done. by rewrite (checksum_case _ Hck a b).
Qed.
End properties.
