(* ===== verification/AccountBook.v ===== *)
(** The abstract specification of a ledger session: an account book.

    A book gives each account's balance of each asset.  Its operations make the
    checks of [modules/ledger-system/ledger_session.go] on the balances
    themselves, with no cache, no oplog and no database, and change the balances
    directly.  The refinement theorem shows that a session behaves as the book
    it represents; the solvency theorem, proved on the book and carried over,
    shows that no sequence of operations can overdraw an account, overflow a
    balance or leave a delegation without cover. *)
From S2P Require Import Prelude GoStrings IntMath LedgerDb LedgerTypes Oplog LedgerState LedgerSession.

Definition book := string → string → Z.

(** Add [d] to one balance, in [int64] arithmetic. *)
Definition bump (a x : string) (d : Z) (V : book) : book :=
  λ a' x', if String.eqb a a' && String.eqb x x' then V a' x' +64 d else V a' x'.

Definition effect := (string * string * Z)%type.

Definition bumps (l : list effect) (V : book) : book :=
  foldl (λ V '(a, x, d), bump a x d V) V l.

(** ** Operations of the book *)

Definition book_transfer (v : OpLogEvent) (options : list TransferOptions) (V : book) :
    LedgerResult * book :=
  if op_Amount v <=? 0 then (fail "invalid amount", V)
  else if String.eqb (op_To v) (op_From v) then (fail "cannot send to self", V)
  else if HasPrefix (op_To v) "system:" then (fail "invalid destination", V)
  else if negb (slices_Contains transferableAssetTypes (op_Asset v)) then (fail "invalid asset", V)
  else if (V (op_From v) (op_Asset v) -64 exclusion_of options) <? op_Amount v
  then (fail "insufficient balance", V)
  else (success, bumps [(op_From v, op_Asset v, -64 (op_Amount v)); (op_To v, op_Asset v, op_Amount v)] V).

Definition book_withdraw (w : WithdrawParams) (V : book) : option (LedgerResult * book) :=
  let hiveAsset := slices_Contains ["hive"; "hbd"] (wp_Asset w) in
  if wp_Amount w <=? 0 then Some (fail "invalid amount", V)
  else if negb hiveAsset && negb (slices_Contains ["eth"; "usdc"] (wp_Asset w))
  then Some (fail "invalid asset", V)
  else
    dest ← withdraw_dest hiveAsset (wp_To w);
    match dest with
    | inl r => Some (r, V)
    | inr _ =>
        if V (wp_From w) (wp_Asset w) <? wp_Amount w then Some (fail "insufficient balance", V)
        else Some (success, bumps [(wp_From w, wp_Asset w, -64 (wp_Amount w))] V)
    end.

Definition book_stake (s : StakeOp) (options : list TransferOptions) (V : book) :
    LedgerResult * book :=
  let v := so_Op s in
  if (op_Amount v <=? 0) || (so_Instant s && (op_Amount v <? 2)) then (fail "invalid amount", V)
  else if negb (String.eqb (op_Asset v) "hbd") then (fail "invalid asset", V)
  else if (V (op_From v) "hbd" -64 exclusion_of options) <? op_Amount v
  then (fail "insufficient balance", V)
  else (success, bumps [(op_From v, "hbd", -64 (op_Amount v))] V).

Definition book_unstake (s : StakeOp) (V : book) : LedgerResult * book :=
  let v := so_Op s in
  if (op_Amount v <=? 0) || (so_Instant s && (op_Amount v <? 2)) then (fail "invalid amount", V)
  else if negb (String.eqb (op_Asset v) "hbd") && negb (String.eqb (op_Asset v) "hbd_savings")
  then (fail "invalid asset", V)
  else if V (op_From v) "hbd_savings" <? op_Amount v then (fail "insufficient balance", V)
  else (success, bumps [(op_From v, "hbd_savings", -64 (op_Amount v))] V).

Definition book_consensus_stake (p : ConsensusParams) (V : book) : LedgerResult * book :=
  if cp_Amount p <=? 0 then (fail "invalid amount", V)
  else if V (cp_From p) "hive" <? cp_Amount p then (fail "insufficient balance", V)
  else
    (success,
     bumps ([(cp_From p, "hive", -64 (cp_Amount p)); (cp_To p, "hive_consensus", cp_Amount p)] ++
            (if cp_Delegated p then
               [(DelegationEdgeKey (cp_From p) (cp_To p), AssetDelegation, cp_Amount p);
                (cp_To p, AssetDelegationTotal, cp_Amount p)]
             else [])) V).

(** The share of a possibly slashed bond that a gross amount is worth. *)
Definition book_release (gross : Z) (to : string) (V : book) : Z :=
  let total := V to AssetDelegationTotal in
  let bond := V to "hive_consensus" in
  if gross <=? 0 then 0
  else if (total <=? 0) || (total <=? bond) then gross
  else if bond <=? 0 then 0
  else wrap64 (gross * bond / total).

Definition book_consensus_unstake (p : ConsensusParams) (V : book) : LedgerResult * book :=
  let edge := DelegationEdgeKey (cp_From p) (cp_To p) in
  if cp_Amount p <=? 0 then (fail "invalid amount", V)
  else if cp_Delegated p then
    if V edge AssetDelegation <? cp_Amount p then (fail "amount exceeds delegated stake", V)
    else
      (success,
       bumps [(cp_To p, "hive_consensus", -64 (book_release (cp_Amount p) (cp_To p) V));
              (edge, AssetDelegation, -64 (cp_Amount p));
              (cp_To p, AssetDelegationTotal, -64 (cp_Amount p))] V)
  else if V (cp_From p) "hive_consensus" <? cp_Amount p then (fail "insufficient balance", V)
  else (success, bumps [(cp_From p, "hive_consensus", -64 (cp_Amount p))] V).

Definition book_op (op : ses_op) (V : book) : option (LedgerResult * book) :=
  match op with
  | OpTransfer v options => Some (book_transfer v options V)
  | OpWithdraw w => book_withdraw w V
  | OpStake s options => Some (book_stake s options V)
  | OpUnstake s => Some (book_unstake s V)
  | OpConsensusStake p => Some (book_consensus_stake p V)
  | OpConsensusUnstake p => Some (book_consensus_unstake p V)
  end.

Fixpoint book_ops (ops : list ses_op) (V : book) : option (list LedgerResult * book) :=
  match ops with
  | [] => Some ([], V)
  | op :: ops =>
      '(r, V) ← book_op op V;
      '(rs, V) ← book_ops ops V;
      Some (r :: rs, V)
  end.

(** Books that hold the same balances. *)
Definition book_eq (V W : book) : Prop := ∀ a x, V a x = W a x.

(** Equal results and equal books, or a panic on both sides. *)
Definition outcome_eq {R} : option (R * book) → option (R * book) → Prop :=
  option_relation (λ o o', o.1 = o'.1 ∧ book_eq o.2 o'.2) (λ _, False) (λ _, False).

(** The height an operation is executed at. *)
Definition op_height (op : ses_op) : Z :=
  match op with
  | OpTransfer v _ => op_BlockHeight v
  | OpWithdraw w => wp_BlockHeight w
  | OpStake s _ | OpUnstake s => op_BlockHeight (so_Op s)
  | OpConsensusStake p | OpConsensusUnstake p => cp_BlockHeight p
  end.

(** ** Solvency *)

(** The balances of a set of assets, over any accounts, do not sum past the
    largest [int64]. *)
Definition capped (A : list string) (V : book) : Prop :=
  ∀ l : list (string * string), NoDup l → Forall (λ p, p.2 ∈ A) l →
    zsum ((λ p, V p.1 p.2) <$> l) <= MaxInt64.

(** The sets of assets value moves within; a delegation is backed by the hive
    that was staked for it. *)
Definition asset_groups : list (list string) :=
  [["hive"; "hive_consensus"]; ["hive"; AssetDelegation]; ["hive"; AssetDelegationTotal];
   ["hbd"]; ["hbd_savings"]].

(** A delegator name from which the edge key can be read back. *)
Definition edge_ok (from : string) : Prop := Cut (from +:+ ":") delegationEdgeSep = None.

(** The edges into a node do not sum past its gross delegated total. *)
Definition backed (V : book) : Prop :=
  ∀ (to : string) (l : list string), NoDup l → Forall edge_ok l →
    zsum ((λ from, V (DelegationEdgeKey from to) AssetDelegation) <$> l) <= V to AssetDelegationTotal.

Record solvent (V : book) : Prop := {
  solvent_range a x : 0 <= V a x <= MaxInt64;
  solvent_capped A : A ∈ asset_groups → capped A V;
  solvent_backed : backed V;
}.

(** The arguments of an operation have their Go types, nothing negative is
    excluded, and a delegator has an account name. *)
Definition op_ok (op : ses_op) : Prop :=
  match op with
  | OpTransfer v options => op_Amount v <= MaxInt64 ∧ 0 <= exclusion_of options <= MaxInt64
  | OpWithdraw w => wp_Amount w <= MaxInt64
  | OpStake s options => op_Amount (so_Op s) <= MaxInt64 ∧ 0 <= exclusion_of options <= MaxInt64
  | OpUnstake s => op_Amount (so_Op s) <= MaxInt64
  | OpConsensusStake p | OpConsensusUnstake p =>
      cp_Amount p <= MaxInt64 ∧ (cp_Delegated p = true → edge_ok (cp_From p))
  end.

(** ** Lemmas: effects *)

Definition row_effect (u : LedgerUpdate) : effect := (lu_Owner u, lu_Asset u, lu_Amount u).

Definition eff_value (a x : string) (l : list effect) : Z :=
  zsum ((λ '(a', x', d), if_amount (String.eqb a' a && String.eqb x' x) d) <$> l).

Lemma bumps_sum l V a x : (∀ a x, i64 (V a x)) → bumps l V a x = wrap64 (V a x + eff_value a x l).
Proof.
  revert V. induction l as [|[[a' x'] d] l IH]; intros V HV.
  - change (eff_value a x []) with 0. rewrite Z.add_0_r. symmetry. by apply wrap64_id.
  - change (bumps ((a', x', d) :: l) V) with (bumps l (bump a' x' d V)). rewrite IH.
    + unfold bump, eff_value. rewrite fmap_cons. cbn [zsum].
      destruct (String.eqb a' a && String.eqb x' x); simpl.
      * unfold i64_add. rewrite wrap64_add_l. apply (f_equal wrap64). lia.
      * apply (f_equal wrap64). lia.
    + intros a0 x0. unfold bump. destruct (_ && _); [apply wrap64_range|done].
Qed.

Lemma eff_value_rows a x rows : eff_value a x (row_effect <$> rows) = owner_value a x rows.
Proof. unfold eff_value, owner_value. by rewrite <- list_fmap_compose. Qed.

(** ** Lemmas: refinement *)

Section refinement.
Context {S : Type} `{LedgerDb S}.
Implicit Types st : LedgerState S.

Lemma view_i64 st h l a x : i64 (view st h l a x).
Proof. apply wrap64_range. Qed.

(** An outcome of the session and one of the book that agree. *)
Definition refines st (h : Z) (out : LedgerResult * ledgerSession) (bout : LedgerResult * book) : Prop :=
  out.1 = bout.1 ∧ coherent st h out.2 ∧ ∀ a x, view st h (ledgerOps out.2) a x = bout.2 a x.

Lemma refines_fail st h ses ses1 r :
  coherent st h ses1 → same_log ses ses1 → refines st h (r, ses1) (r, view st h (ledgerOps ses)).
Proof. intros Hco (_ & Hl & _). split_and!; [done..|]. intros a x. simpl. by rewrite Hl. Qed.

Lemma refines_ok st h ses ses1 v effects :
  coherent st h ses1 → same_log ses ses1 →
  (∀ id, row_effect <$> event_rows (op_BlockHeight v) (set_op_Id id v) = effects) →
  (∀ id, Forall (row_ready h ses1) (event_rows (op_BlockHeight v) (set_op_Id id v))) →
  refines st h (success, AppendOplog st v ses1) (success, bumps effects (view st h (ledgerOps ses))).
Proof.
  intros Hco (_ & Hl & _) Heff Hr. split_and!; [done|by apply AppendOplog_coherent|].
  intros a x. cbn [fst snd]. destruct (AppendOplog_log st v ses1) as (_ & Hl' & _).
  rewrite Hl', Hl, view_app, bumps_sum by (intros; apply view_i64).
  by rewrite <- (Heff (dedup_id (idCache ses1) (op_Id v))), eff_value_rows.
Qed.

(** Read a balance of the session as a balance of the book. *)
Ltac read_view Hco h :=
  match goal with
  | |- context [ses_GetBalance ?st ?a h ?x ?s] =>
      let ses := fresh "ses" in let Hlog := fresh "Hlog" in let Hc := fresh "Hco" in
      let Hcached := fresh "Hcached" in let Hmono := fresh "Hmono" in
      destruct (get_spec st h a x s Hco) as (ses & -> & Hlog & Hc & Hcached & Hmono);
      [done|]
  end.

Ltac guards Hco :=
  repeat match goal with |- refines _ _ (if ?b then _ else _) (if ?b then _ else _) =>
    let Hb := fresh "Hb" in destruct b eqn:Hb; [by apply refines_fail|] end.

Lemma transfer_refines st v o ses :
  let h := op_BlockHeight v in
  coherent st h ses →
  refines st h (ExecuteTransfer st v o ses) (book_transfer v o (view st h (ledgerOps ses))).
Proof.
  intros h Hco. unfold ExecuteTransfer, book_transfer. cbv zeta. guards Hco.
  assert (nochar hash (op_Asset v) = true) as Hx.
  { apply negb_false_iff, slices_Contains_spec in Hb2. unfold transferableAssetTypes in Hb2.
    rewrite !elem_of_cons, elem_of_nil in Hb2. by destruct_or! Hb2; rewrite Hb2. }
  fold h. destruct (get_spec st h (op_From v) (op_Asset v) ses Hco Hx)
    as (ses1 & -> & Hlog & Hco1 & _). guards Hco.
  apply refines_ok; [done..|]. intros id. repeat (constructor; [by split; auto|]). constructor.
Qed.

Lemma withdraw_refines st w ses :
  let h := wp_BlockHeight w in
  coherent st h ses →
  match Withdraw st w ses, book_withdraw w (view st h (ledgerOps ses)) with
  | Some out, Some bout => refines st h out bout
  | None, None => True
  | _, _ => False
  end.
Proof.
  intros h Hco. unfold Withdraw, book_withdraw. cbv zeta.
  destruct (wp_Amount w <=? 0); [by apply refines_fail|].
  destruct (negb (slices_Contains ["hive"; "hbd"] (wp_Asset w))
            && negb (slices_Contains ["eth"; "usdc"] (wp_Asset w))) eqn:Ha; [by apply refines_fail|].
  destruct (withdraw_dest _ _) as [[r|dest]|]; cbn [mbind option_bind]; [by apply refines_fail| |done].
  assert (nochar hash (wp_Asset w) = true) as Hx.
  { apply andb_false_iff in Ha. rewrite !negb_false_iff, !slices_Contains_spec in Ha.
    rewrite !elem_of_cons, elem_of_nil in Ha. by destruct_or! Ha; rewrite Ha. }
  fold h. destruct (get_spec st h (wp_From w) (wp_Asset w) ses Hco Hx)
    as (ses1 & -> & Hlog & Hco1 & Hc & _).
  destruct (_ <? _); [by apply refines_fail|].
  apply refines_ok; [done..|]. intros id. repeat (constructor; [by split; auto|]). constructor.
Qed.

Lemma stake_refines st s o ses :
  let h := op_BlockHeight (so_Op s) in
  coherent st h ses → refines st h (Stake st s o ses) (book_stake s o (view st h (ledgerOps ses))).
Proof.
  intros h Hco. unfold Stake, book_stake. cbv zeta. fold h. guards Hco.
  read_view Hco h. guards Hco0.
  apply refines_ok; [done..|]. intros id. repeat (constructor; [by split; auto|]). constructor.
Qed.

Lemma unstake_refines st s ses :
  let h := op_BlockHeight (so_Op s) in
  coherent st h ses → refines st h (Unstake st s ses) (book_unstake s (view st h (ledgerOps ses))).
Proof.
  intros h Hco. unfold Unstake, book_unstake. cbv zeta. fold h. guards Hco.
  read_view Hco h. guards Hco0.
  apply refines_ok; [done..|]. intros id. repeat (constructor; [by split; auto|]). constructor.
Qed.
Lemma consensus_stake_refines st p ses :
  let h := cp_BlockHeight p in
  coherent st h ses →
  refines st h (ConsensusStake st p ses) (book_consensus_stake p (view st h (ledgerOps ses))).
Proof.
  intros h Hco. unfold ConsensusStake, book_consensus_stake. fold h. guards Hco.
  read_view Hco h. guards Hco0.
  destruct (cp_Delegated p);
    (apply refines_ok; [done..|]); intros id; repeat (constructor; [by split; auto|]); constructor.
Qed.

(** The release is computed from the balances the book has. *)
Lemma slashAdjustedRelease_refines st h g to ses :
  coherent st h ses →
  ∃ ses', slashAdjustedRelease st g to h ses = (book_release g to (view st h (ledgerOps ses)), ses') ∧
    same_log ses ses' ∧ coherent st h ses'.
Proof.
  intros Hco. unfold slashAdjustedRelease, book_release. destruct (g <=? 0); [by exists ses|].
  read_view Hco h. read_view Hco0 h. assert (ledgerOps ses0 = ledgerOps ses) as -> by apply Hlog.
  exists ses1. split; [by repeat case_match|]. split; [|done]. by etrans.
Qed.

Lemma unstake_event_released p released v :
  op_Params v = Some (unstake_params p released) → cp_Delegated p = true →
  opDelegated v = true ∧ ∀ d, opReleased v d = released.
Proof.
  intros Hp Hd. unfold opDelegated, opReleased, pget. rewrite Hp. unfold unstake_params. rewrite Hd.
  cbv zeta. rewrite lookup_insert_ne, !lookup_insert_eq by done. done.
Qed.

Lemma consensus_unstake_refines st p ses :
  let h := cp_BlockHeight p in
  coherent st h ses →
  refines st h (ConsensusUnstake st p ses) (book_consensus_unstake p (view st h (ledgerOps ses))).
Proof.
  intros h Hco. unfold ConsensusUnstake, book_consensus_unstake, unstake_release. fold h. guards Hco.
  destruct (cp_Delegated p) eqn:Hd.
  - read_view Hco h. destruct (_ <? _); [by apply refines_fail|].
    destruct (slashAdjustedRelease_refines st h (cp_Amount p) (cp_To p) ses0 Hco0)
      as (ses2 & -> & Hlog2 & Hco2).
    assert (ledgerOps ses0 = ledgerOps ses) as -> by apply Hlog.
    set (rel := book_release _ _ _).
    assert (∀ id, event_rows h (set_op_Id id (mkOpLogEvent (cp_To p) (cp_From p) (cp_Amount p) "hive" ""
              "consensus_unstake" (cp_Id p) 0 0 h (Some (unstake_params p rel))))
            = [update (id +:+ "#in") (cp_To p) (-64 rel) "hive_consensus" "consensus_unstake" h;
               update (id +:+ "#edge") (DelegationEdgeKey (cp_From p) (cp_To p)) (-64 (cp_Amount p))
                 AssetDelegation "consensus_unstake" h;
               update (id +:+ "#total") (cp_To p) (-64 (cp_Amount p)) AssetDelegationTotal
                 "consensus_unstake" h]) as Hrows.
    { intros id. unfold event_rows, exec_event, exec_consensus_unstake. cbn [String.eqb op_Type set_op_Id].
      match goal with |- context [opDelegated ?v] =>
        destruct (unstake_event_released p rel v) as [-> Hr]; [done..|]; rewrite Hr end. done. }
    apply refines_ok; [done|by etrans|..]; intros id; cbn [op_BlockHeight]; rewrite Hrows; [done|].
    repeat (constructor; [by split; auto|]); constructor.
  - read_view Hco h. destruct (_ <? _); [by apply refines_fail|].
    assert (∀ id, event_rows h (set_op_Id id (mkOpLogEvent (cp_To p) (cp_From p) (cp_Amount p) "hive" ""
              "consensus_unstake" (cp_Id p) 0 0 h (Some (unstake_params p (cp_Amount p)))))
            = [update (id +:+ "#in") (cp_From p) (-64 (cp_Amount p)) "hive_consensus"
                 "consensus_unstake" h]) as Hrows.
    { intros id. unfold unstake_params. by rewrite Hd. }
    apply refines_ok; [done|done|..]; intros id; cbn [op_BlockHeight]; rewrite Hrows; [done|].
    repeat (constructor; [by split; auto|]); constructor.
Qed.

Lemma run_op_refines st op ses :
  coherent st (op_height op) ses →
  match run_op st op ses, book_op op (view st (op_height op) (ledgerOps ses)) with
  | Some out, Some bout => refines st (op_height op) out bout
  | None, None => True
  | _, _ => False
  end.
Proof.
  intros Hco. destruct op; unfold run_op, book_op.
  - by apply transfer_refines.
  - by apply withdraw_refines.
  - by apply stake_refines.
  - by apply unstake_refines.
  - by apply consensus_stake_refines.
  - by apply consensus_unstake_refines.
Qed.
End refinement.

(** ** Lemmas: solvency *)

Lemma zsum_point {A} `{EqDecision A} (l : list A) (p : A) (q : A → bool) d :
  NoDup l → (∀ r, r ∈ l → q r = bool_decide (p = r)) →
  zsum ((λ r, if_amount (q r) d) <$> l) = if_amount (bool_decide (p ∈ l)) d.
Proof.
  induction l as [|r l IH]; intros Hnd Hq.
  - by rewrite bool_decide_eq_false_2 by apply not_elem_of_nil.
  - apply NoDup_cons in Hnd as [Hr Hnd]. csimpl. rewrite IH; [|done|intros; apply Hq; by right].
    rewrite Hq by left. destruct (decide (p = r)) as [->|Hne].
    + rewrite (bool_decide_eq_true_2 (r = r)), (bool_decide_eq_false_2 (r ∈ l)),
        (bool_decide_eq_true_2 (r ∈ r :: l)) by (done || by left). simpl. lia.
    + rewrite (bool_decide_eq_false_2 (p = r)) by done. rewrite Z.add_0_l.
      f_equal. apply bool_decide_ext. rewrite elem_of_cons. naive_solver.
Qed.

Lemma pair_eqb (a x : string) (p : string * string) :
  String.eqb a p.1 && String.eqb x p.2 = bool_decide ((a, x) = p).
Proof.
  destruct p as [a' x']. simpl. destruct (String.eqb_spec a a'), (String.eqb_spec x x'); subst;
    symmetry; (apply bool_decide_eq_true_2 || apply bool_decide_eq_false_2); congruence.
Qed.

Lemma capped_le A V W : (∀ a x, x ∈ A → W a x <= V a x) → capped A V → capped A W.
Proof.
  intros Hle Hcap l Hnd Hl. etrans; [|by apply (Hcap l)]. apply zsum_map_le.
  intros p Hp. rewrite Forall_forall in Hl. by apply Hle, Hl.
Qed.

(** Moving an amount an account has keeps the sums below the bound. *)
Lemma capped_move A V W a x b y amt :
  capped A V → x ∈ A → (a, x) ≠ (b, y) → 0 <= amt <= V a x →
  (∀ a' x', x' ∈ A → W a' x' = V a' x' + (if_amount (String.eqb a a' && String.eqb x x') (- amt)
                               + if_amount (String.eqb b a' && String.eqb y x') amt)) →
  capped A W.
Proof.
  intros Hcap Hx Hne Hamt HW l Hnd Hl.
  rewrite (zsum_map_ext _ (λ p, V p.1 p.2 + (if_amount (String.eqb a p.1 && String.eqb x p.2) (- amt)
                               + if_amount (String.eqb b p.1 && String.eqb y p.2) amt))).
  2: { intros p Hp. rewrite Forall_forall in Hl. by apply HW, Hl. }
  rewrite !zsum_map_add, (zsum_point l (a, x)), (zsum_point l (b, y))
    by (done || intros; apply pair_eqb).
  pose proof (Hcap l Hnd Hl) as Hsum.
  destruct (decide ((a, x) ∈ l)) as [Hin|Hin].
  - rewrite (bool_decide_eq_true_2 ((a, x) ∈ l)) by done. destruct (bool_decide _); simpl; lia.
  - rewrite (bool_decide_eq_false_2 ((a, x) ∈ l)) by done.
    specialize (Hcap ((a, x) :: l)). csimpl in Hcap.
    destruct (bool_decide _); simpl; [|lia].
    assert (V a x + zsum ((λ p, V p.1 p.2) <$> l) <= MaxInt64); [|lia].
    apply Hcap; [by apply NoDup_cons|by apply Forall_cons].
Qed.

(** Two different balances of a group do not sum past the bound. *)
Lemma capped_pair A V a x b y :
  capped A V → x ∈ A → y ∈ A → (a, x) ≠ (b, y) → V a x + V b y <= MaxInt64.
Proof.
  intros Hcap Hx Hy Hne. specialize (Hcap [(a, x); (b, y)]). csimpl in Hcap.
  assert (V a x + (V b y + 0) <= MaxInt64); [|lia]. apply Hcap.
  - apply NoDup_cons. split; [by rewrite list_elem_of_singleton|apply NoDup_singleton].
  - repeat (constructor; [done|]). constructor.
Qed.

Lemma DelegationEdgeKey_inj f t f' t' :
  edge_ok f → edge_ok f' → DelegationEdgeKey f t = DelegationEdgeKey f' t' → f = f' ∧ t = t'.
Proof.
  unfold edge_ok, DelegationEdgeKey, delegationEdgeSep. intros Hf Hf' Heq.
  pose proof (Cut_double colon f t Hf) as H1. pose proof (Cut_double colon f' t' Hf') as H2.
  change (String colon (String colon ?z)) with ("::" +:+ z) in *.
  rewrite Heq, H2 in H1. by simplify_eq.
Qed.

(** The change of one edge, summed over the edges into a node. *)
Lemma edge_point f t (l : list string) to d :
  edge_ok f → NoDup l → Forall edge_ok l →
  zsum ((λ from, if_amount (String.eqb (DelegationEdgeKey f t) (DelegationEdgeKey from to)) d) <$> l)
  = if_amount (String.eqb t to && bool_decide (f ∈ l)) d.
Proof.
  intros Hf Hnd Hl. destruct (String.eqb_spec t to) as [->|Hne]; simpl.
  - apply zsum_point; [done|]. intros from Hin.
    destruct (String.eqb_spec (DelegationEdgeKey f to) (DelegationEdgeKey from to)) as [He|He].
    + rewrite bool_decide_eq_true_2; [done|]. rewrite Forall_forall in Hl.
      by apply DelegationEdgeKey_inj in He as [-> _]; auto.
    + rewrite bool_decide_eq_false_2; [done|]. congruence.
  - apply zsum_map_0. intros from Hin.
    destruct (String.eqb_spec (DelegationEdgeKey f t) (DelegationEdgeKey from to)) as [He|He]; [|done].
    rewrite Forall_forall in Hl. apply DelegationEdgeKey_inj in He as [_ ->]; auto. done.
Qed.

Lemma solvent_ext V W : (∀ a x, W a x = V a x) → solvent V → solvent W.
Proof.
  intros Heq [Hr Hc Hb]. split.
  - intros a x. rewrite Heq. apply Hr.
  - intros A HA. eapply capped_le; [|by apply Hc]. intros a x _. by rewrite Heq.
  - intros to l Hnd Hl. rewrite Heq. erewrite zsum_map_ext; [by apply Hb|]. intros. apply Heq.
Qed.

(** It is enough to look at the effects of a step over the integers. *)
Lemma solvent_bumps V l :
  solvent V → solvent (λ a x, V a x + eff_value a x l) → solvent (bumps l V).
Proof.
  intros HV HW. refine (solvent_ext _ _ _ HW). intros a x.
  assert (∀ W a x, solvent W → i64 (W a x)) as Hi.
  { intros W a' x' [Hr _ _]. specialize (Hr a' x'). unfold_widths. lia. }
  rewrite bumps_sum by (intros; by apply Hi). apply wrap64_id.
  apply (Hi (λ a x, V a x + eff_value a x l)), HW.
Qed.

Ltac eff_simpl :=
  unfold eff_value in *; cbn [fmap list_fmap zsum] in *; rewrite ?Z.add_0_r in *.

(** Decide every comparison with an effect of the step. *)
Ltac eff_cases :=
  repeat match goal with
  | |- context [String.eqb ?a ?b] => destruct (String.eqb_spec a b); cbn [andb if_amount]
  end.

(** The groups other than those of delegations are untouched by a step on
    other assets. *)
Lemma backed_frame V W :
  backed V → (∀ a x, x ∈ [AssetDelegation; AssetDelegationTotal] → W a x = V a x) → backed W.
Proof.
  intros Hb Heq to l Hnd Hl. rewrite Heq by set_solver.
  erewrite zsum_map_ext; [by apply Hb|]. intros from _. by rewrite Heq by set_solver.
Qed.

Lemma solvent_debit V a x amt :
  solvent V → x ∉ [AssetDelegation; AssetDelegationTotal] → 0 <= amt <= V a x →
  solvent (bumps [(a, x, -64 amt)] V).
Proof.
  intros HV Hx Hamt. apply solvent_bumps; [done|]. destruct HV as [Hr Hc Hb].
  rewrite i64_neg_exact by (specialize (Hr a x); lia). split.
  - intros a' x'. specialize (Hr a' x'). eff_simpl. eff_cases; subst; lia.
  - intros A HA. eapply capped_le; [|by apply Hc]. intros a' x' _. cbv beta. eff_simpl. eff_cases; lia.
  - eapply backed_frame; [done|]. intros a' x' Hx'. cbv beta. eff_simpl. eff_cases; subst; lia || done.
Qed.

Lemma solvent_move V a b x amt :
  solvent V → x ∈ transferableAssetTypes → a ≠ b → 0 <= amt <= V a x →
  solvent (bumps [(a, x, -64 amt); (b, x, amt)] V).
Proof.
  intros HV Hx Hab Hamt. apply solvent_bumps; [done|]. destruct HV as [Hr Hc Hb].
  rewrite i64_neg_exact by (specialize (Hr a x); lia).
  assert (∃ A, A ∈ asset_groups ∧ x ∈ A) as (A0 & HA0 & HxA0).
  { unfold transferableAssetTypes in Hx. rewrite !elem_of_cons, elem_of_nil in Hx.
    destruct_or! Hx; subst; [exists ["hive"; "hive_consensus"]|exists ["hbd"]|exists ["hbd_savings"]];
      split; unfold asset_groups; set_solver. }
  split.
  - intros a' x'. pose proof (Hr a' x').
    pose proof (capped_pair A0 V a x b x (Hc A0 HA0) HxA0 HxA0 ltac:(congruence)).
    eff_simpl. eff_cases; subst; lia || done.
  - intros A HA. destruct (decide (x ∈ A)) as [HxA|HxA].
    + eapply (capped_move A V _ a x b x amt); [by apply Hc|done|congruence|done|].
      intros a' x' _. cbv beta. by eff_simpl.
    + eapply capped_le; [|by apply Hc]. intros a' x' Hx'. cbv beta. eff_simpl. eff_cases; subst; lia || done.
  - eapply backed_frame; [done|]. intros a' x' Hx'. cbv beta. eff_simpl.
    assert (x ≠ x') by (intros <-; unfold transferableAssetTypes in Hx;
      rewrite !elem_of_cons, !elem_of_nil in *; destruct_or! Hx; destruct_or! Hx'; subst; done).
    eff_cases; subst; lia || done.
Qed.

(** Bonding hive: the stake leaves the spendable balance for the bond. *)
Lemma solvent_stake V a b amt :
  solvent V → 0 <= amt <= V a "hive" →
  solvent (bumps [(a, "hive", -64 amt); (b, "hive_consensus", amt)] V).
Proof.
  intros HV Hamt. apply solvent_bumps; [done|]. destruct HV as [Hr Hc Hb].
  rewrite i64_neg_exact by (specialize (Hr a "hive"); lia).
  assert (["hive"; "hive_consensus"] ∈ asset_groups) as HA0 by by left.
  split.
  - intros a' x'. pose proof (Hr a' x').
    pose proof (capped_pair _ V a "hive" b "hive_consensus" (Hc _ HA0)
                  ltac:(set_solver) ltac:(set_solver) ltac:(congruence)).
    eff_simpl. eff_cases; subst; lia || done.
  - intros A HA. destruct (decide (A = ["hive"; "hive_consensus"])) as [->|HneA].
    + eapply (capped_move _ V _ a "hive" b "hive_consensus" amt);
        [by apply Hc|set_solver|congruence|done|]. intros a' x' _. cbv beta. by eff_simpl.
    + eapply capped_le; [|by apply Hc]. intros a' x' Hx'. cbv beta.
      assert ("hive_consensus" ≠ x').
      { intros <-. unfold asset_groups in HA. rewrite !elem_of_cons, elem_of_nil in HA.
        destruct_or! HA; subst; [done|..]; by apply (bool_decide_eq_true_2 _) in Hx'. }
      eff_simpl. eff_cases; subst; lia || done.
  - eapply backed_frame; [done|]. intros a' x' Hx'. cbv beta. eff_simpl.
    assert ("hive_consensus" ≠ x' ∧ "hive" ≠ x') as [? ?] by set_solver.
    eff_cases; subst; lia || done.
Qed.

(** The delegated variant also grows the edge and the node's gross total. *)
Lemma solvent_stake_delegated V a b amt :
  solvent V → edge_ok a → 0 <= amt <= V a "hive" →
  solvent (bumps [(a, "hive", -64 amt); (b, "hive_consensus", amt);
                  (DelegationEdgeKey a b, AssetDelegation, amt); (b, AssetDelegationTotal, amt)] V).
Proof.
  intros HV Ha Hamt. apply solvent_bumps; [done|]. destruct HV as [Hr Hc Hb].
  rewrite i64_neg_exact by (specialize (Hr a "hive"); lia).
  assert (∀ y, y ∈ ["hive_consensus"; AssetDelegation; AssetDelegationTotal] →
               ["hive"; y] ∈ asset_groups) as HA0 by (unfold asset_groups; set_solver).
  split.
  - intros a' x'. pose proof (Hr a' x') as Hr'.
    assert (∀ y c, y ∈ ["hive_consensus"; AssetDelegation; AssetDelegationTotal] →
                   V a "hive" + V c y <= MaxInt64) as Hpair.
    { intros y c Hy. apply (capped_pair ["hive"; y]); [by apply Hc, HA0|set_solver..|].
      intros [= _ <-]. by apply (bool_decide_eq_true_2 _) in Hy. }
    pose proof (Hpair "hive_consensus" a' ltac:(set_solver)).
    pose proof (Hpair AssetDelegation a' ltac:(set_solver)).
    pose proof (Hpair AssetDelegationTotal a' ltac:(set_solver)).
    eff_simpl. eff_cases; subst; lia || done.
  - intros A HA. unfold asset_groups in HA. rewrite !elem_of_cons, elem_of_nil in HA.
    destruct_or! HA; subst.
    + eapply (capped_move _ V _ a "hive" b "hive_consensus" amt);
        [apply Hc, HA0; set_solver|set_solver|congruence|done|]. intros a' x' Hx'. cbv beta. eff_simpl.
      assert (AssetDelegation ≠ x' ∧ AssetDelegationTotal ≠ x') as [? ?] by set_solver.
      eff_cases; subst; lia || done.
    + eapply (capped_move _ V _ a "hive" (DelegationEdgeKey a b) AssetDelegation amt);
        [apply Hc, HA0; set_solver|set_solver|by intros [= _ ?]|done|]. intros a' x' Hx'. cbv beta. eff_simpl.
      assert ("hive_consensus" ≠ x' ∧ AssetDelegationTotal ≠ x') as [? ?] by set_solver.
      eff_cases; subst; lia || done.
    + eapply (capped_move _ V _ a "hive" b AssetDelegationTotal amt);
        [apply Hc, HA0; set_solver|set_solver|by intros [= _ ?]|done|]. intros a' x' Hx'. cbv beta. eff_simpl.
      assert (AssetDelegation ≠ x' ∧ "hive_consensus" ≠ x') as [? ?] by set_solver.
      eff_cases; subst; lia || done.
    + eapply capped_le; [|apply Hc; unfold asset_groups; set_solver]. intros a' x' ->%list_elem_of_singleton.
      cbv beta. eff_simpl. simpl. rewrite !andb_false_r. simpl. lia.
    + eapply capped_le; [|apply Hc; unfold asset_groups; set_solver]. intros a' x' ->%list_elem_of_singleton.
      cbv beta. eff_simpl. simpl. rewrite !andb_false_r. simpl. lia.
  - intros to l Hnd Hl. pose proof (Hb to l Hnd Hl) as Hold. cbv beta.
    rewrite (zsum_map_ext _ (λ from, V (DelegationEdgeKey from to) AssetDelegation +
      if_amount (String.eqb (DelegationEdgeKey a b) (DelegationEdgeKey from to)) amt))
      by (intros from _; eff_simpl; eff_cases; lia || done).
    rewrite zsum_map_add, edge_point by done.
    eff_simpl. destruct (bool_decide (a ∈ l)); eff_cases; lia || done.
Qed.

(** Only the delegated unstake shrinks an edge, by an amount the edge has: the
    node's gross total shrinks as much, and its bond by no more than it holds. *)
Lemma book_release_bounds V g to edge :
  solvent V → 0 < g <= edge → edge <= V to AssetDelegationTotal →
  0 <= book_release g to V <= g ∧ book_release g to V <= V to "hive_consensus".
Proof.
  intros [Hr _ _] Hg Hedge. pose proof (Hr to "hive_consensus"). pose proof (Hr to AssetDelegationTotal).
  unfold book_release. cbv zeta. rewrite (proj2 (Z.leb_gt g 0)) by lia.
  destruct (Z.leb_spec (V to AssetDelegationTotal) 0); [lia|]. simpl.
  destruct (Z.leb_spec (V to AssetDelegationTotal) (V to "hive_consensus")); [lia|].
  destruct (Z.leb_spec (V to "hive_consensus") 0); [lia|].
  pose proof (share_le g (V to "hive_consensus") (V to AssetDelegationTotal)) as Hs1.
  pose proof (share_le (V to "hive_consensus") g (V to AssetDelegationTotal)) as Hs2.
  rewrite (Z.mul_comm (V to "hive_consensus") g) in Hs2.
  rewrite wrap64_id; [lia|]. unfold_widths. lia.
Qed.

Lemma solvent_unstake_delegated V a b amt :
  solvent V → edge_ok a → 0 < amt <= V (DelegationEdgeKey a b) AssetDelegation →
  solvent (bumps [(b, "hive_consensus", -64 (book_release amt b V));
                  (DelegationEdgeKey a b, AssetDelegation, -64 amt);
                  (b, AssetDelegationTotal, -64 amt)] V).
Proof.
  intros HV Ha Hamt. set (edge := DelegationEdgeKey a b) in *.
  assert (V edge AssetDelegation <= V b AssetDelegationTotal) as Hedge.
  { pose proof (solvent_backed V HV b [a]) as Hb. csimpl in Hb. fold edge in Hb.
    assert (V edge AssetDelegation + 0 <= V b AssetDelegationTotal); [|lia].
    apply Hb; [apply NoDup_singleton|by constructor]. }
  destruct (book_release_bounds V amt b _ HV Hamt Hedge) as [Hrel Hbond].
  apply solvent_bumps; [done|]. destruct HV as [Hr Hc Hb]. pose proof (Hr edge AssetDelegation).
  rewrite !i64_neg_exact by lia. set (rel := book_release amt b V) in *. split.
  - intros a' x'. pose proof (Hr a' x'). clearbody edge rel. eff_simpl. eff_cases; subst; lia || done.
  - intros A HA. eapply capped_le; [|by apply Hc]. intros a' x' _. cbv beta. eff_simpl. eff_cases; lia.
  - intros to l Hnd Hl. pose proof (Hb to l Hnd Hl) as Hold. cbv beta.
    rewrite (zsum_map_ext _ (λ from, V (DelegationEdgeKey from to) AssetDelegation +
      if_amount (String.eqb edge (DelegationEdgeKey from to)) (- amt)))
      by (intros from _; eff_simpl; eff_cases; lia || done).
    rewrite zsum_map_add. unfold edge at 1. rewrite edge_point by done.
    assert (a ∉ l → b = to → V edge AssetDelegation +
      zsum ((λ from, V (DelegationEdgeKey from to) AssetDelegation) <$> l) <= V to AssetDelegationTotal)
      as Hnew.
    { intros Hin <-. apply (Hb b (a :: l)); [by apply NoDup_cons|by apply Forall_cons]. }
    clearbody edge rel. destruct (decide (a ∈ l)) as [Hin|Hin];
      [rewrite bool_decide_eq_true_2 by done|rewrite bool_decide_eq_false_2 by done; specialize (Hnew Hin)];
      eff_simpl; eff_cases; subst; try specialize (Hnew eq_refl); lia || done.
Qed.

Lemma exclusion_check bal excl amt :
  0 <= bal <= MaxInt64 → 0 <= excl <= MaxInt64 → ((bal -64 excl) <? amt) = false → excl + amt <= bal.
Proof.
  intros Hb He Hlt. apply Z.ltb_ge in Hlt. rewrite i64_sub_exact in Hlt; [lia|].
  unfold_widths. lia.
Qed.

(** Pass the checks of an operation; a failed check changes nothing. *)
Ltac pass_checks HV :=
  repeat match goal with |- solvent (snd (if ?b then _ else _)) =>
    let Hb := fresh "Hb" in destruct b eqn:Hb; [exact HV|] end.

Lemma book_op_solvent op V out :
  op_ok op → solvent V → book_op op V = Some out → solvent out.2.
Proof.
  intros Hok HV Hop. pose proof (solvent_range V HV) as Hr.
  destruct op as [v o|w|s o|s|p|p]; unfold op_ok, book_op in *.
  - injection Hop as <-. destruct Hok as [_ He]. unfold book_transfer. pass_checks HV. simpl.
    apply Z.leb_gt in Hb. apply String.eqb_neq in Hb0. apply negb_false_iff, slices_Contains_spec in Hb2.
    apply exclusion_check in Hb3; [|done..]. apply solvent_move; [done|done|congruence|lia].
  - revert Hop. unfold book_withdraw. cbv zeta. destruct (Z.leb_spec (wp_Amount w) 0); [by intros [= <-]|].
    destruct (_ && _) eqn:Ha; [by intros [= <-]|].
    destruct (withdraw_dest _ _) as [[r|d]|]; cbn [mbind option_bind]; [by intros [= <-]| |done].
    destruct (Z.ltb_spec (V (wp_From w) (wp_Asset w)) (wp_Amount w)); intros [= <-]; [done|].
    apply solvent_debit; [done| |lia]. intros Hx.
    rewrite !elem_of_cons, elem_of_nil in Hx. by destruct_or! Hx; rewrite Hx in Ha.
  - injection Hop as <-. destruct Hok as [_ He]. unfold book_stake. cbv zeta. pass_checks HV.
    apply orb_false_iff in Hb as [Hb _]. apply Z.leb_gt in Hb. apply exclusion_check in Hb1; [|done..].
    apply solvent_debit; [done|set_solver|lia].
  - injection Hop as <-. unfold book_unstake. cbv zeta. pass_checks HV.
    apply orb_false_iff in Hb as [Hb _]. apply Z.leb_gt in Hb. apply Z.ltb_ge in Hb1.
    apply solvent_debit; [done|set_solver|lia].
  - injection Hop as <-. destruct Hok as [_ He]. unfold book_consensus_stake. pass_checks HV.
    apply Z.leb_gt in Hb. apply Z.ltb_ge in Hb0. destruct (cp_Delegated p).
    + apply solvent_stake_delegated; [done|by apply He|lia].
    + apply solvent_stake; [done|lia].
  - injection Hop as <-. destruct Hok as [_ He]. unfold book_consensus_unstake. cbv zeta.
    destruct (Z.leb_spec (cp_Amount p) 0); [done|]. destruct (cp_Delegated p).
    + pass_checks HV. apply Z.ltb_ge in Hb. apply solvent_unstake_delegated; [done|by apply He|lia].
    + pass_checks HV. apply Z.ltb_ge in Hb. apply solvent_debit; [done|set_solver|lia].
Qed.

(** ** Lemmas: books up to equal balances *)

#[export] Instance book_eq_equiv : Equivalence book_eq.
Proof.
  split; [done|by intros V W Heq a x|]. intros V W U HVW HWU a x. by rewrite HVW.
Qed.

#[export] Instance bumps_proper : Proper ((=) ==> book_eq ==> book_eq) bumps.
Proof.
  intros l _ <-. induction l as [|[[a x] d] l IH]; intros V W Heq; [done|].
  apply (IH (bump a x d V) (bump a x d W)). intros a' x'. unfold bump. by rewrite Heq.
Qed.

#[export] Instance solvent_proper : Proper (book_eq ==> iff) solvent.
Proof. intros V W Heq. split; apply solvent_ext; intros a x; by rewrite Heq. Qed.

Lemma book_op_ext op V W : book_eq V W → outcome_eq (book_op op V) (book_op op W).
Proof.
  intros Heq. destruct op as [v o|w|s o|s|p|p]; unfold outcome_eq, book_op.
  - unfold book_transfer. rewrite (Heq _ _). repeat case_match; cbn [option_relation fst snd]; (split; [done|]); solve [done|by apply bumps_proper].
  - unfold book_withdraw. rewrite (Heq _ _). cbv zeta.
    destruct (_ <=? _); [done|]. destruct (_ && _); [done|].
    destruct (withdraw_dest _ _) as [[r|d]|]; cbn [mbind option_bind]; [done| |done].
    destruct (_ <? _); cbn [option_relation fst snd]; [done|]. split; [done|by apply bumps_proper].
  - unfold book_stake. rewrite (Heq _ _). repeat case_match; cbn [option_relation fst snd]; (split; [done|]); solve [done|by apply bumps_proper].
  - unfold book_unstake. rewrite (Heq _ _). repeat case_match; cbn [option_relation fst snd]; (split; [done|]); solve [done|by apply bumps_proper].
  - unfold book_consensus_stake. rewrite (Heq _ _). repeat case_match; cbn [option_relation fst snd]; (split; [done|]); solve [done|by apply bumps_proper].
  - unfold book_consensus_unstake, book_release. rewrite !(Heq _ _).
    repeat case_match; cbn [option_relation fst snd]; (split; [done|]); solve [done|by apply bumps_proper].
Qed.

Lemma book_ops_ext ops V W : book_eq V W → outcome_eq (book_ops ops V) (book_ops ops W).
Proof.
  revert V W. induction ops as [|op ops IH]; intros V W Heq; [done|]. cbn [book_ops].
  pose proof (book_op_ext op V W Heq) as Hop.
  destruct (book_op op V) as [[r V']|], (book_op op W) as [[r' W']|]; try done.
  destruct Hop as [Hr HVW]. simpl in *. subst.
  pose proof (IH V' W' HVW) as Hops.
  destruct (book_ops ops V') as [[rs V'']|], (book_ops ops W') as [[rs' W'']|]; try done.
  destruct Hops as [Hrs HVW']. simpl in *. by subst.
Qed.

Section sequences.
Context {S : Type} `{LedgerDb S}.
Implicit Types st : LedgerState S.

Lemma run_ops_refines st h ops ses :
  coherent st h ses → Forall (λ op, op_height op = h) ops →
  ∃ rs ses' V', run_ops st ops ses = Some (rs, ses') ∧
    book_ops ops (view st h (ledgerOps ses)) = Some (rs, V') ∧
    book_eq (view st h (ledgerOps ses')) V' ∧ coherent st h ses'.
Proof.
  revert ses. induction ops as [|op ops IH]; intros ses Hco Hh.
  { by exists [], ses, (view st h (ledgerOps ses)). }
  apply Forall_cons in Hh as [Hop Hh]. subst h. cbn [run_ops book_ops].
  pose proof (run_op_refines st op ses Hco) as Href.
  destruct (run_op_total st op ses) as [[r ses1] Hrun]. rewrite Hrun in *.
  destruct (book_op op _) as [[r' V1]|]; [|done].
  destruct Href as (Hr & Hco1 & HV1). simpl in *. subst.
  destruct (IH ses1 Hco1 Hh) as (rs & ses' & V' & -> & Hb & HV' & Hco').
  pose proof (book_ops_ext ops _ V1 HV1) as Hext. rewrite Hb in Hext.
  destruct (book_ops ops V1) as [[rs' V'']|]; [|done]. destruct Hext as [Hrs HVV]. simpl in *. subst.
  exists (r' :: rs'), ses', V''. split_and!; [done..| |done]. by etrans.
Qed.

Lemma book_ops_solvent ops V rs V' :
  Forall op_ok ops → solvent V → book_ops ops V = Some (rs, V') → solvent V'.
Proof.
  revert V rs. induction ops as [|op ops IH]; intros V rs Hok HV Hrun; cbn [book_ops] in Hrun.
  { by simplify_eq. }
  apply Forall_cons in Hok as [Hop Hok].
  destruct (book_op op V) as [[r V1]|] eqn:H1; [|done]. cbn [mbind option_bind] in Hrun.
  destruct (book_ops ops V1) as [[rs1 V2]|] eqn:H2; [|done]. cbn [mbind option_bind] in Hrun.
  injection Hrun as _ <-. apply (IH V1 rs1 Hok); [|done]. by apply (book_op_solvent op V (r, V1)).
Qed.

(** ** Properties *)

(** C1: a session implements the account book.  From any coherent session, a
    sequence of operations at one height never panics, and it returns the same
    results, and ends with the same balances, as the operations of the book on
    the balances the session started with: the balance cache, the oplog and the
    derived ledger rows are invisible.  In particular a rejected operation
    leaves every balance as it was. *)
Theorem session_refines_book st h ops ses :
  coherent st h ses → Forall (λ op, op_height op = h) ops →
  ∃ rs ses' V', run_ops st ops ses = Some (rs, ses') ∧
    book_ops ops (view st h (ledgerOps ses)) = Some (rs, V') ∧
    (∀ a x, view st h (ledgerOps ses') a x = V' a x) ∧ coherent st h ses'.
Proof. apply run_ops_refines. Qed.

(** C2: no sequence of session operations breaks solvency.  If the balances of
    the shared state are non-negative, the balances of each asset group fit an
    [int64] in total and each node's delegation edges are covered by its gross
    total, then the same holds of the state after a session that executes any
    operations at one height and commits: nobody is overdrawn, no credit wraps
    around, and a slashed bond is never released below zero. *)
Theorem session_commit_solvent st h n ops rs ses' :
  solvent (λ a x, SnapshotForAccount st a h x) →
  Forall (λ op, op_height op = h ∧ op_ok op) ops →
  run_ops st ops (NewEmptySession n) = Some (rs, ses') →
  let '(_, st', _) := Done st ses' in solvent (λ a x, SnapshotForAccount st' a h x).
Proof.
  intros Hsol [Hh Hok]%Forall_and Hrun.
  destruct (run_ops_refines st h ops (NewEmptySession n) (coherent_empty st h ∅ n) Hh)
    as (rs1 & ses1 & V' & Hrun1 & Hb & HV & _). rewrite Hrun in Hrun1. simplify_eq.
  pose proof (λ a x, Done_state st ses1 a h x) as Hdone.
  destruct (Done st ses1) as [[ids st'] ses2].
  apply (solvent_ext V'); [intros a x; by rewrite Hdone, <- HV|].
  apply (book_ops_solvent ops (view st h []) rs1); [done| |done].
  apply (solvent_ext _ _ (λ a x, view_nil st h a x) Hsol).
Qed.
End sequences.
