(* ===== verification/SafetySlash.v ===== *)
(** Safety slashing and the insurance reserve, [modules/ledger-system/ledger_system.go].

    A provable safety fault debits a validator's bond; the value goes to the
    keyless reserve, either at once or after a challenge window during which it
    sits on the pending account, from where it is promoted to the reserve when
    it matures or released when governance cancels it.  Governance can re-credit
    the bond and can pay out of the reserve.  All of it is rows of the ledger
    with deterministic ids, written by upserts that may fail half way and are
    retried; the theorems show that the amounts are exact, that replaying any of
    the operations changes nothing, that a half-written slash is completed with
    the amount already on disk, that the bounded scan for matured rows never
    loses one, and that the reserve is never overdrawn.

    The balance snapshots are read through [getBal]; a database handle is never
    nil. *)
From S2P Require Import Prelude GoStrings IntMath LedgerDb LedgerTypes LedgerState.

Definition MaxSafetySlashBurnDelayBlocks : Z := 3333333.
Definition maxReserveScanHeight : Z := MaxInt64.

(** ** Ids *)

Definition slash_base (tx kind : string) : string := tx +:+ "#safety_slash#" +:+ kind.
Definition debit_id (base acct : string) : string := base +:+ "#consensus_debit#" +:+ acct.
Definition reserve_id (base acct : string) : string := base +:+ "#reserve#" +:+ acct.
Definition pending_id (base acct : string) : string := base +:+ "#hive_burn_pending#" +:+ acct.

Definition safetySlashBaseID (txID kind : string) : string :=
  TrimSpace txID +:+ "#safety_slash#" +:+ TrimSpace kind.

(** ** Slashing *)

(** [(bond/10000)*bps + ((bond%10000)*bps)/10000] *)
Definition slash_formula (bond bps : Z) : Z :=
  (i64_quo bond 10000 *64 bps) +64 i64_quo (i64_rem bond 10000 *64 bps) 10000.

(** The records of a slash of [slashAmt]; [None] when the maturity height
    overflows. *)
Definition slash_records (p : SafetySlashConsensusParams) (acct : string) (slashAmt : Z) :
    option (list LedgerRecord) :=
  let burnAmt := slashAmt in
  let baseID := slash_base (sp_TxID p) (sp_EvidenceKind p) in
  let debit := row (debit_id baseID acct) (sp_TxID p) (sp_BlockHeight p) (-64 slashAmt)
                 "hive_consensus" acct "" LedgerTypeSafetySlashConsensus in
  if 0 <? burnAmt then
    if sp_BurnDelayBlocks p =? 0 then
      Some [debit;
            row (reserve_id baseID acct) (sp_TxID p) (sp_BlockHeight p) burnAmt "hive"
              ProtocolSlashReserveAccount "" LedgerTypeSafetySlashReserve]
    else
      let delay := if MaxSafetySlashBurnDelayBlocks <? sp_BurnDelayBlocks p
                   then MaxSafetySlashBurnDelayBlocks else sp_BurnDelayBlocks p in
      let maturity := sp_BlockHeight p +u64 delay in
      if maturity <? sp_BlockHeight p then None
      else
        Some [debit;
              row (pending_id baseID acct) (sp_TxID p) (sp_BlockHeight p) burnAmt "hive"
                ProtocolSlashPendingBurnAccount (FormatUint maturity)
                LedgerTypeSafetySlashHiveBurnPending]
  else Some [debit].

Definition bond_of (r : option BalanceRecord) : Z := from_option br_HIVE_CONSENSUS 0 r.

(** The slash derived from the bond snapshot: the early return or the amount. *)
Definition derive_slash (getBal : string → Z → option BalanceRecord) (acct : string)
    (p : SafetySlashConsensusParams) : LedgerResult + Z :=
  let rec := getBal acct (sp_BlockHeight p) in
  let rec := if (bond_of rec <=? 0) && (0 <? sp_BlockHeight p)
             then getBal acct (sp_BlockHeight p -u64 1) else rec in
  if bond_of rec <=? 0 then inl (fail "zero consensus bond")
  else
    let bond := bond_of rec in
    let slashAmt := slash_formula bond (sp_SlashBps p) in
    if slashAmt <=? 0 then inl (fail "slash rounds to zero")
    else inr (if bond <? slashAmt then bond else slashAmt).

Section slash.
Context {S : Type} `{LedgerDb S}.
Implicit Types s : S.

Definition rowExists (owner asset id : string) (height : Z) s : bool :=
  existsb (λ r, String.eqb (lr_Id r) id) (GetLedgerRange owner height height asset [] s).

(** The amount of the debit row on disk; [None] while the row is absent, in
    which case the code keeps retrying. *)
Definition recorded_debit (acct debitID : string) (height : Z) s : option Z :=
  (λ '(_, r), -64 (lr_Amount r)) <$>
    list_find (λ r, String.eqb (lr_Id r) debitID = true)
      (GetLedgerRange acct height height "hive_consensus" [] s).

(** What the replay guard decides. *)
Inductive replay :=
| Recorded                (* both legs are on disk *)
| Forced (amount : Z)     (* complete the slash with this amount; 0 when fresh *)
| Blocked.                (* the read never succeeds *)

Definition replay_guard (p : SafetySlashConsensusParams) (acct : string) s : replay :=
  let baseID := slash_base (sp_TxID p) (sp_EvidenceKind p) in
  let debitID := debit_id baseID acct in
  if rowExists acct "hive_consensus" debitID (sp_BlockHeight p) s then
    let companion := if sp_BurnDelayBlocks p =? 0 then reserve_id baseID acct
                     else pending_id baseID acct in
    let companionOwner := if sp_BurnDelayBlocks p =? 0 then ProtocolSlashReserveAccount
                          else ProtocolSlashPendingBurnAccount in
    if rowExists companionOwner "hive" companion (sp_BlockHeight p) s then Recorded
    else match recorded_debit acct debitID (sp_BlockHeight p) s with
         | Some amount => Forced amount
         | None => Blocked
         end
  else Forced 0.

(** [None] when a retry loop never ends. *)
Definition SafetySlashConsensusBond (getBal : string → Z → option BalanceRecord)
    (p : SafetySlashConsensusParams) s : option (LedgerResult * S) :=
  let acct := normalizeHiveConsensusAccount (sp_Account p) in
  if String.eqb acct "" || String.eqb (TrimSpace (sp_TxID p)) ""
     || String.eqb (TrimSpace (sp_EvidenceKind p)) ""
  then Some (fail "invalid safety slash params", s)
  else if (sp_SlashBps p <=? 0) || (10000 <? sp_SlashBps p)
  then Some (fail "invalid slash bps", s)
  else
    match replay_guard p acct s with
    | Recorded => Some (mkLedgerResult true "safety slash already recorded", s)
    | Blocked => None
    | Forced forced =>
        match (if 0 <? forced then inr forced else derive_slash getBal acct p) with
        | inl r => Some (r, s)
        | inr slashAmt =>
            match slash_records p acct slashAmt with
            | None => Some (fail "slash burn maturity overflow", s)
            | Some records => Some (success, storeLedgerOrFail records s)
            end
        end
    end.

(** ** The finalize scan *)

(** [readErr]: the read fails and the cursor counts as zero. *)
Definition readSafetySlashFinalizeCursor (readErr : bool) s : Z :=
  if readErr then 0
  else
    let recs := GetLedgerRange ProtocolSlashFinalizeCursorAccount 0 MaxInt64 "hive"
                  [LedgerTypeSafetySlashBurnFinalizeCursor] s in
    (foldl (λ '(latestHeight, latestCursor) r,
       if lr_BlockHeight r <? latestHeight then (latestHeight, latestCursor)
       else match ParseUint (TrimSpace (lr_From r)) with
            | None => (latestHeight, latestCursor)
            | Some c => (lr_BlockHeight r, c)
            end) (0, 0) recs).2.

Definition cursor_row (blockHeight scanFrom : Z) : LedgerRecord :=
  row safetySlashFinalizeCursorRowID "" blockHeight 0 "hive" ProtocolSlashFinalizeCursorAccount
    (FormatUint scanFrom) LedgerTypeSafetySlashBurnFinalizeCursor.

Definition writeSafetySlashFinalizeCursor (blockHeight scanFrom : Z) s : S :=
  storeLedgerOrFail [cursor_row blockHeight scanFrom] s.

(** The three rows that promote a matured row. *)
Definition promotion (blockHeight : Z) (rec : LedgerRecord) : list LedgerRecord :=
  [row (lr_Id rec +:+ "#pending_release") (lr_TxId rec) blockHeight (-64 (lr_Amount rec)) "hive"
     ProtocolSlashPendingBurnAccount (lr_From rec) LedgerTypeSafetySlashHiveBurnPendingRelease;
   row (lr_Id rec +:+ "#promoted_to_reserve") (lr_TxId rec) blockHeight (lr_Amount rec) "hive"
     ProtocolSlashReserveAccount "" LedgerTypeSafetySlashReserve;
   row (lr_Id rec +:+ "#finalized_marker") (lr_TxId rec) blockHeight 0 "hive"
     ProtocolSlashPendingBurnAccount (lr_From rec) LedgerTypeSafetySlashHiveBurnPendingFinalized].

(** What the loop does with a pending row. *)
Inductive verdict := Skip | Wait | Promote.

#[export] Instance verdict_eq_dec : EqDecision verdict.
Proof. solve_decision. Defined.

Definition judge (doneIds : list string) (blockHeight : Z) (rec : LedgerRecord) : verdict :=
  if lr_Amount rec <=? 0 then Skip
  else if slices_Contains doneIds (lr_Id rec) then Skip
  else match ParseUint (TrimSpace (lr_From rec)) with
       | None => Skip
       | Some mat => if blockHeight <? mat then Wait else Promote
       end.

Definition finalize_step (doneIds : list string) (blockHeight : Z) (acc : S * Z) (rec : LedgerRecord) :
    S * Z :=
  let '(s, minUnfinalized) := acc in
  match judge doneIds blockHeight rec with
  | Skip => (s, minUnfinalized)
  | Wait => (s, if lr_BlockHeight rec <? minUnfinalized then lr_BlockHeight rec else minUnfinalized)
  | Promote => (storeLedgerOrFail (promotion blockHeight rec) s, minUnfinalized)
  end.

(** The ids of the pending rows that have a finalized marker. *)
Definition done_ids (finalizedRecs : list LedgerRecord) : list string :=
  omap (λ m, if HasSuffix (lr_Id m) "#finalized_marker"
             then Some (TrimSuffix (lr_Id m) "#finalized_marker") else None) finalizedRecs.

Definition FinalizeMaturedSafetySlashBurns (readErr : bool) (blockHeight : Z) s : S :=
  if blockHeight =? 0 then s
  else
    let cursor := readSafetySlashFinalizeCursor readErr s in
    if blockHeight <? cursor then s
    else
      let pendingRecs := GetLedgerRange ProtocolSlashPendingBurnAccount cursor blockHeight "hive"
                           [LedgerTypeSafetySlashHiveBurnPending] s in
      let finalizedRecs := GetLedgerRange ProtocolSlashPendingBurnAccount cursor blockHeight "hive"
                             [LedgerTypeSafetySlashHiveBurnPendingFinalized] s in
      let '(s, minUnfinalized) :=
        foldl (finalize_step (done_ids finalizedRecs) blockHeight) (s, MaxUint64) pendingRecs in
      let sawAny := negb (bool_decide (pendingRecs = [])) in
      let newCursor := if negb sawAny || (minUnfinalized =? MaxUint64)
                       then blockHeight +u64 1 else minUnfinalized in
      if cursor <? newCursor then writeSafetySlashFinalizeCursor blockHeight newCursor s else s.

(** ** Governance *)

(** The ids and rows of a cancellation. *)
Definition cancel_rows (blockHeight : Z) (pendingID : string) (pendingRec : LedgerRecord) :
    list LedgerRecord :=
  [row (pendingID +:+ "#cancel_release") (lr_TxId pendingRec) blockHeight (-64 (lr_Amount pendingRec))
     "hive" ProtocolSlashPendingBurnAccount (lr_From pendingRec)
     LedgerTypeSafetySlashHiveBurnPendingRelease;
   row (pendingID +:+ "#finalized_marker") (lr_TxId pendingRec) blockHeight 0 "hive"
     ProtocolSlashPendingBurnAccount (lr_From pendingRec)
     LedgerTypeSafetySlashHiveBurnPendingFinalized;
   row (pendingID +:+ "#cancelled_marker") (lr_TxId pendingRec) blockHeight 0 "hive"
     ProtocolSlashPendingBurnAccount (lr_From pendingRec)
     LedgerTypeSafetySlashHiveBurnPendingCancelled].

Definition CancelPendingSafetySlashBurn (p : CancelPendingSafetySlashBurnParams) s : LedgerResult * S :=
  let tx := TrimSpace (cancel_TxID p) in
  let kind := TrimSpace (cancel_EvidenceKind p) in
  if String.eqb tx "" || String.eqb kind "" then (fail "invalid cancel params", s)
  else
    let slashedAcct := normalizeHiveConsensusAccount (cancel_SlashedAccount p) in
    if String.eqb slashedAcct "" then (fail "invalid slashed account", s)
    else
      let pendingID := safetySlashBaseID tx kind +:+ "#hive_burn_pending#" +:+ slashedAcct in
      let pendingRows ty :=
        GetLedgerRange ProtocolSlashPendingBurnAccount 0 (cancel_BlockHeight p) "hive" [ty] s in
      match list_find (λ r, String.eqb (lr_Id r) pendingID = true)
              (pendingRows LedgerTypeSafetySlashHiveBurnPending) with
      | None => (fail "pending burn row not found", s)
      | Some (_, pendingRec) =>
          if existsb (λ m, String.eqb (lr_Id m) (pendingID +:+ "#cancelled_marker"))
               (pendingRows LedgerTypeSafetySlashHiveBurnPendingCancelled)
          then (mkLedgerResult true "already cancelled", s)
          else if existsb (λ m, String.eqb (lr_Id m) (pendingID +:+ "#finalized_marker"))
                    (pendingRows LedgerTypeSafetySlashHiveBurnPendingFinalized)
          then (fail "pending burn already finalized", s)
          else (mkLedgerResult true "cancelled",
                storeLedgerOrFail (cancel_rows (cancel_BlockHeight p) pendingID pendingRec) s)
      end.

Definition ReverseSafetySlashConsensusDebit (p : ReverseSafetySlashConsensusDebitParams) s :
    LedgerResult * S :=
  let acct := normalizeHiveConsensusAccount (rev_Account p) in
  let tx := TrimSpace (rev_TxID p) in
  let kind := TrimSpace (rev_EvidenceKind p) in
  if String.eqb acct "" || String.eqb tx "" || String.eqb kind "" then (fail "invalid reverse params", s)
  else if rev_Amount p <=? 0 then (fail "reverse amount must be positive", s)
  else
    let id := safetySlashBaseID tx kind +:+ "#consensus_reverse#" +:+ acct in
    let op := TrimSpace (rev_OpInstanceID p) in
    let id := if String.eqb op "" then id else id +:+ "#" +:+ op in
    (mkLedgerResult true "reverse credit recorded",
     storeLedgerOrFail
       [row id tx (rev_BlockHeight p) (rev_Amount p) "hive_consensus" acct ""
          LedgerTypeSafetySlashConsensusReverse] s).

(** ** The reserve *)

Definition reserveAvailable (excludeDebitID : string) s : Z :=
  foldl (λ total r, if String.eqb (lr_Id r) excludeDebitID then total else total +64 lr_Amount r) 0
    (GetLedgerRange ProtocolSlashReserveAccount 0 maxReserveScanHeight "hive"
       [LedgerTypeSafetySlashReserve; LedgerTypeReservePayoutDebit] s).

Definition ReserveAvailable s : Z := reserveAvailable "" s.

Definition payout_rows (proposalID recipient : string) (amount height : Z) : list LedgerRecord :=
  [row (proposalID +:+ "#reserve_payout#debit") proposalID height (-64 amount) "hive"
     ProtocolSlashReserveAccount "" LedgerTypeReservePayoutDebit;
   row (proposalID +:+ "#reserve_payout#credit#" +:+ recipient) proposalID height amount "hive"
     recipient "" LedgerTypeReservePayoutCredit].

Definition ReservePayout (p : ReservePayoutParams) s : LedgerResult * S :=
  let proposalID := TrimSpace (pay_ProposalID p) in
  let recipient := normalizeHiveConsensusAccount (pay_Recipient p) in
  if String.eqb proposalID "" || String.eqb recipient "" then (fail "invalid reserve payout params", s)
  else if pay_Amount p <=? 0 then (fail "reserve payout amount must be positive", s)
  else
    let available := reserveAvailable (proposalID +:+ "#reserve_payout#debit") s in
    if available <=? 0 then (fail "reserve has no available balance", s)
    else if available <? pay_Amount p then (fail "reserve payout exceeds available balance", s)
    else (mkLedgerResult true "reserve payout recorded",
          storeLedgerOrFail (payout_rows proposalID recipient (pay_Amount p) (pay_BlockHeight p)) s).

(** ** The pendulum bucket *)

(** [readErr]: a failed read counts as an empty bucket. *)
Definition PendulumBucketBalance (readErr : bool) (bucket : string) (blockHeight : Z) s : Z :=
  if String.eqb (TrimSpace bucket) "" then 0
  else if readErr then 0
  else foldl (λ total r, total +64 lr_Amount r) 0 (GetLedgerRange bucket 0 blockHeight "hbd" [] s).

Definition distribute_rows (toAccount txID : string) (amount blockHeight : Z) : list LedgerRecord :=
  [row (txID +:+ "#distribute_debit#" +:+ toAccount) txID blockHeight (-64 amount) "hbd"
     PendulumNodesHBDBucket "" "pendulum_distribute";
   row (txID +:+ "#distribute_credit#" +:+ toAccount) txID blockHeight amount "hbd" toAccount ""
     "pendulum_distribute"].

(** The one write of this file that is not retried. *)
Definition PendulumDistribute (readErr : bool) (toAccount : string) (amount : Z) (txID : string)
    (blockHeight : Z) s : LedgerResult * S :=
  if String.eqb (TrimSpace toAccount) "" then (fail "invalid destination", s)
  else if amount <=? 0 then (fail "invalid amount", s)
  else if String.eqb txID "" then (fail "missing tx id", s)
  else
    let available := PendulumBucketBalance readErr PendulumNodesHBDBucket blockHeight s in
    if available <? amount then (fail "insufficient pendulum nodes bucket balance", s)
    else
      let '(s, ok) := StoreLedger (distribute_rows toAccount txID amount blockHeight) s in
      if ok then (success, s) else (fail "ledger write failed", s).
End slash.

(** ** Lemmas: the amount *)

Lemma slash_formula_floor bond bps :
  0 <= bond <= MaxInt64 → 0 <= bps <= 10000 → slash_formula bond bps = bond * bps / 10000.
Proof.
  intros Hb Hp. unfold slash_formula, i64_quo, i64_rem, i64_mul, i64_add.
  rewrite !Z.quot_div_nonneg, Z.rem_mod_nonneg by lia.
  pose proof (Z.div_mod bond 10000 ltac:(lia)) as Hd.
  pose proof (Z.mod_pos_bound bond 10000 ltac:(lia)) as Hm.
  set (q := bond / 10000) in *. set (m := bond mod 10000) in *.
  assert (0 <= q <= bond) by nia.
  assert (0 <= q * bps <= bond) by nia. assert (0 <= m * bps <= 10000 * 10000) by nia.
  assert (0 <= m * bps / 10000 <= m).
  { split; [apply Z.div_pos; lia|]. apply Z.div_le_upper_bound; nia. }
  rewrite !(wrap64_id q), (wrap64_id (q * bps)), (wrap64_id (m * bps)) by (unfold_widths; lia).
  rewrite Z.quot_div_nonneg by lia. rewrite (wrap64_id (m * bps / 10000)) by (unfold_widths; lia).
  rewrite wrap64_id by (unfold_widths; nia).
  replace (bond * bps) with (m * bps + (q * bps) * 10000) by nia.
  rewrite Z.div_add by lia. lia.
Qed.

Lemma slash_share bond bps :
  0 <= bond → 0 <= bps <= 10000 → 0 <= bond * bps / 10000 <= bond.
Proof. intros. apply share_le; lia. Qed.

(** ** Lemmas: the rows of a slash *)

(** The second leg of a slash: who holds the value, and under which id. *)
Definition companion_owner (p : SafetySlashConsensusParams) : string :=
  if sp_BurnDelayBlocks p =? 0 then ProtocolSlashReserveAccount else ProtocolSlashPendingBurnAccount.
Definition companion_id (p : SafetySlashConsensusParams) (acct : string) : string :=
  let base := slash_base (sp_TxID p) (sp_EvidenceKind p) in
  if sp_BurnDelayBlocks p =? 0 then reserve_id base acct else pending_id base acct.
Definition slash_debit (p : SafetySlashConsensusParams) (acct : string) (amt : Z) : LedgerRecord :=
  row (debit_id (slash_base (sp_TxID p) (sp_EvidenceKind p)) acct) (sp_TxID p) (sp_BlockHeight p)
    (-64 amt) "hive_consensus" acct "" LedgerTypeSafetySlashConsensus.

Definition is_companion (p : SafetySlashConsensusParams) (acct : string) (amt : Z) (c : LedgerRecord) :
    Prop :=
  lr_Id c = companion_id p acct ∧ lr_Amount c = amt ∧ lr_BlockHeight c = sp_BlockHeight p ∧
  lr_Asset c = "hive" ∧ lr_Owner c = companion_owner p ∧ IsProtocolMetaLedgerType (lr_Type c) = true.

Lemma slash_records_shape p acct amt l :
  0 < amt → slash_records p acct amt = Some l →
  ∃ c, l = [slash_debit p acct amt; c] ∧ is_companion p acct amt c.
Proof.
  intros Hamt. unfold slash_records, is_companion, companion_owner, companion_id. cbv zeta.
  rewrite (proj2 (Z.ltb_lt 0 amt)) by done. destruct (sp_BurnDelayBlocks p =? 0).
  - intros [= <-]. eexists. split; [done|]. by split_and!.
  - destruct (_ <? sp_BlockHeight p); [done|]. intros [= <-]. eexists. split; [done|]. by split_and!.
Qed.

Lemma debit_companion_ne p acct :
  debit_id (slash_base (sp_TxID p) (sp_EvidenceKind p)) acct ≠ companion_id p acct.
Proof.
  unfold debit_id, companion_id, reserve_id, pending_id.
  destruct (sp_BurnDelayBlocks p =? 0); intros Heq%sapp_inj_l; done.
Qed.

Lemma slash_records_ids p acct amt c :
  is_companion p acct amt c →
  NoDup (lr_Id <$> [slash_debit p acct amt; c]) ∧
  Forall (λ r, lr_Id r ≠ "") [slash_debit p acct amt; c].
Proof.
  intros (Hid & _). split.
  - csimpl. rewrite Hid. apply NoDup_cons. split; [|apply NoDup_singleton].
    rewrite list_elem_of_singleton. apply debit_companion_ne.
  - repeat constructor.
    + unfold slash_debit, debit_id. simpl. by apply sapp_ne_r.
    + rewrite Hid. unfold companion_id. destruct (_ =? 0); by apply sapp_ne_r.
Qed.

Section slash_facts.
Context {S : Type} `{LedgerDbLaws S}.
Implicit Types s : S.

(** Reading one height of one account's asset. *)
Lemma range_at owner asset h s r :
  db_wf s → asset ≠ "" →
  r ∈ GetLedgerRange owner h h asset [] s ↔
  rows s !! lr_Id r = Some r ∧ lr_Owner r = owner ∧ lr_Asset r = asset ∧ lr_BlockHeight r = h.
Proof.
  intros Hwf Ha. rewrite elem_of_range by done. unfold in_query. simpl.
  rewrite !andb_true_iff, orb_true_iff, !String.eqb_eq, !Z.leb_le. split.
  - intros [[[[[Ho Hlo] Hhi] [Hx|Hx]] _] [k Hk]]; [done|].
    rewrite (rows_keyed s k r Hwf Hk). split_and!; [done..|lia].
  - intros (Hk & Ho & Hx & Hh). split; [|by eexists]. split_and!; try lia; auto.
Qed.

Lemma rowExists_spec owner asset id h s :
  db_wf s → asset ≠ "" →
  rowExists owner asset id h s = true ↔
  ∃ r, rows s !! id = Some r ∧ lr_Owner r = owner ∧ lr_Asset r = asset ∧ lr_BlockHeight r = h.
Proof.
  intros Hwf Ha. unfold rowExists. rewrite existsb_exists. split.
  - intros (r & Hr%list_elem_of_In & Hid%String.eqb_eq). subst.
    apply range_at in Hr; [|done..]. by exists r.
  - intros (r & Hr & Hrest). pose proof (rows_keyed s id r Hwf Hr). subst.
    exists r. split; [|apply String.eqb_refl]. apply list_elem_of_In, range_at; [done..|].
    by split.
Qed.

Lemma recorded_debit_spec acct id h s r :
  db_wf s → rows s !! id = Some r → lr_Owner r = acct → lr_Asset r = "hive_consensus" →
  lr_BlockHeight r = h → recorded_debit acct id h s = Some (-64 (lr_Amount r)).
Proof.
  intros Hwf Hr Ho Hx Hh. unfold recorded_debit. pose proof (rows_keyed s id r Hwf Hr) as Hid.
  assert (r ∈ GetLedgerRange acct h h "hive_consensus" [] s) as Hin.
  { apply range_at; [done..|]. rewrite Hid. by split_and!. }
  destruct (list_find _ _) as [[i r']|] eqn:Hf.
  - apply list_find_Some in Hf as (Hl & Hid' & _). simpl. apply String.eqb_eq in Hid'.
    apply list_elem_of_lookup_2 in Hl. apply range_at in Hl as (Hr' & _); [|done..].
    rewrite Hid', Hr in Hr'. by simplify_eq.
  - apply list_find_None in Hf. rewrite Forall_forall in Hf. specialize (Hf r Hin).
    by rewrite Hid, String.eqb_refl in Hf.
Qed.
Lemma guard_fresh p acct s :
  db_wf s → rows s !! debit_id (slash_base (sp_TxID p) (sp_EvidenceKind p)) acct = None →
  replay_guard p acct s = Forced 0.
Proof.
  intros Hwf Hd. unfold replay_guard. cbv zeta.
  destruct (rowExists acct _ _ _ _) eqn:Hx; [|done].
  apply rowExists_spec in Hx as (r & Hr & _); [|done..]. congruence.
Qed.

Lemma guard_half p acct amt s :
  db_wf s → 0 <= amt <= MaxInt64 →
  rows s !! lr_Id (slash_debit p acct amt) = Some (slash_debit p acct amt) →
  rows s !! companion_id p acct = None → replay_guard p acct s = Forced amt.
Proof.
  intros Hwf Hamt Hd Hc. unfold replay_guard. cbv zeta.
  rewrite (proj2 (rowExists_spec acct "hive_consensus" _ _ s Hwf ltac:(done)))
    by (eexists; split; [exact Hd|done]).
  fold (companion_owner p). fold (companion_id p acct).
  destruct (rowExists (companion_owner p) _ _ _ _) eqn:Hx.
  { apply rowExists_spec in Hx as (r & Hr & _); [|done..]. congruence. }
  erewrite recorded_debit_spec; [|done|exact Hd|done..]. f_equal. simpl.
  apply i64_neg_neg. unfold_widths. lia.
Qed.

Lemma guard_recorded p acct d c s :
  db_wf s → rows s !! lr_Id (slash_debit p acct d) = Some (slash_debit p acct d) →
  is_companion p acct d c → rows s !! companion_id p acct = Some c →
  replay_guard p acct s = Recorded.
Proof.
  intros Hwf Hd (_ & _ & Hh & Hx & Ho & _) Hc. unfold replay_guard. cbv zeta.
  rewrite (proj2 (rowExists_spec acct "hive_consensus" _ _ s Hwf ltac:(done)))
    by (eexists; split; [exact Hd|done]).
  fold (companion_owner p). fold (companion_id p acct).
  by rewrite (proj2 (rowExists_spec (companion_owner p) "hive" _ _ s Hwf ltac:(done)))
    by (eexists; split; [exact Hc|done]).
Qed.
End slash_facts.

(** Parameters that pass the first checks. *)
Definition slash_params_ok (p : SafetySlashConsensusParams) : Prop :=
  normalizeHiveConsensusAccount (sp_Account p) ≠ "" ∧ TrimSpace (sp_TxID p) ≠ "" ∧
  TrimSpace (sp_EvidenceKind p) ≠ "" ∧ 0 < sp_SlashBps p <= 10000 ∧
  0 <= sp_BlockHeight p <= MaxUint64 - MaxSafetySlashBurnDelayBlocks ∧ 0 <= sp_BurnDelayBlocks p.

Lemma slash_records_some p acct amt :
  slash_params_ok p → is_Some (slash_records p acct amt).
Proof.
  intros (_ & _ & _ & _ & Hh & Hd). unfold slash_records. cbv zeta.
  destruct (0 <? amt); [|by eexists]. destruct (sp_BurnDelayBlocks p =? 0); [by eexists|].
  destruct (MaxSafetySlashBurnDelayBlocks <? sp_BurnDelayBlocks p) eqn:Hm; z_of_bool.
  all: unfold u64_add; rewrite wrapu64_id by (unfold MaxSafetySlashBurnDelayBlocks in *; unfold_widths; lia).
  all: match goal with |- context [?a <? ?b] => destruct (a <? b) eqn:Hlt end; [|by eexists].
  all: z_of_bool; unfold MaxSafetySlashBurnDelayBlocks in *; lia.
Qed.

Section slash_run.
Context {S : Type} `{LedgerDbLaws S}.
Implicit Types s : S.
Variable getBal : string → Z → option BalanceRecord.

(** Past the parameter checks, the replay guard decides. *)
Lemma slash_unfold p s :
  slash_params_ok p →
  SafetySlashConsensusBond getBal p s =
  let acct := normalizeHiveConsensusAccount (sp_Account p) in
  match replay_guard p acct s with
  | Recorded => Some (mkLedgerResult true "safety slash already recorded", s)
  | Blocked => None
  | Forced forced =>
      match (if 0 <? forced then inr forced else derive_slash getBal acct p) with
      | inl r => Some (r, s)
      | inr slashAmt =>
          match slash_records p acct slashAmt with
          | None => Some (fail "slash burn maturity overflow", s)
          | Some records => Some (success, storeLedgerOrFail records s)
          end
      end
  end.
Proof.
  intros (Ha & Ht & Hk & Hb & _). unfold SafetySlashConsensusBond. cbv zeta.
  rewrite !(proj2 (String.eqb_neq _ _)) by done. simpl.
  rewrite (proj2 (Z.leb_gt (sp_SlashBps p) 0)), (proj2 (Z.ltb_ge 10000 (sp_SlashBps p))) by lia. done.
Qed.

(** Writing the two legs, from whatever part of them is already there. *)
Lemma slash_store p acct amt s :
  slash_params_ok p → 0 < amt → db_wf s →
  ∃ c, is_companion p acct amt c ∧ slash_records p acct amt = Some [slash_debit p acct amt; c] ∧
    let s' := storeLedgerOrFail [slash_debit p acct amt; c] s in
    db_wf s' ∧ rows s' = upserts [slash_debit p acct amt; c] (rows s).
Proof.
  intros Hp Hamt Hwf. destruct (slash_records_some p acct amt Hp) as [l Hl].
  destruct (slash_records_shape p acct amt l Hamt Hl) as (c & -> & Hc).
  exists c. split_and!; [done..|]. apply storeLedgerOrFail_spec; [done|].
  by apply (slash_records_ids p acct amt).
Qed.
Lemma derive_slash_value p acct b :
  slash_params_ok p → bond_of (getBal acct (sp_BlockHeight p)) = b → 0 < b <= MaxInt64 →
  0 < b * sp_SlashBps p / 10000 → derive_slash getBal acct p = inr (b * sp_SlashBps p / 10000).
Proof.
  intros (_ & _ & _ & Hbps & _) Hb Hb0 Hamt. unfold derive_slash. cbv zeta.
  rewrite Hb, (proj2 (Z.leb_gt b 0)) by lia. simpl. rewrite Hb, (proj2 (Z.leb_gt b 0)) by lia.
  rewrite slash_formula_floor by lia. rewrite (proj2 (Z.leb_gt _ 0)) by done.
  pose proof (slash_share b (sp_SlashBps p)). by rewrite (proj2 (Z.ltb_ge b _)) by lia.
Qed.
End slash_run.

(** ** Lemmas: slashing and balances *)

Lemma counts_debit p acct amt account asset height :
  slash_params_ok p → 0 <= amt <= MaxInt64 → asset ≠ "" →
  (if counts account asset 0 height (slash_debit p acct amt) then lr_Amount (slash_debit p acct amt) else 0)
  = - (if String.eqb account acct && String.eqb asset "hive_consensus" && (sp_BlockHeight p <=? height)
       then amt else 0).
Proof.
  intros (_ & _ & _ & _ & Hh & _) Hamt Ha. unfold counts, in_query, slash_debit.
  cbn [lr_Owner lr_BlockHeight lr_Asset lr_Type lr_Amount row].
  rewrite i64_neg_exact by done. rewrite (proj2 (Z.leb_le 0 (sp_BlockHeight p))) by lia.
  rewrite (proj2 (String.eqb_neq asset "")) by done. rewrite (String.eqb_sym acct), (String.eqb_sym "hive_consensus").
  destruct (String.eqb account acct), (String.eqb asset "hive_consensus"), (_ <=? _); simpl; lia.
Qed.

Lemma counts_meta account asset lo hi r :
  IsProtocolMetaLedgerType (lr_Type r) = true → counts account asset lo hi r = false.
Proof. intros Hm. unfold counts. by rewrite Hm, andb_false_r. Qed.

(** The rows an account holds for the protocol: meta rows included. *)
Definition held (owner : string) (m : ledger) : Z :=
  qsum (λ r, String.eqb (lr_Owner r) owner && String.eqb (lr_Asset r) "hive") m.

Section slash_properties.
Context {S : Type} `{LedgerDbLaws S}.
Implicit Types s : S.

(** A slash takes exactly the share it should, once, from one balance.  For
    evidence not yet recorded, against an account with bond [b], the operation
    succeeds; the only spendable balance that changes, at any height, is the
    account's bonded hive, which falls by [floor(b * bps / 10000)], no overflow
    and never more than the bond; and the protocol account that takes the value
    (the reserve, or the pending account when there is a challenge window) holds
    exactly that much more. *)
Theorem slash_takes_exact_share getBal p s b :
  let acct := normalizeHiveConsensusAccount (sp_Account p) in
  let amt := b * sp_SlashBps p / 10000 in
  slash_params_ok p → db_wf s →
  rows s !! debit_id (slash_base (sp_TxID p) (sp_EvidenceKind p)) acct = None →
  rows s !! companion_id p acct = None →
  bond_of (getBal acct (sp_BlockHeight p)) = b → b <= MaxInt64 → 0 < amt →
  ∃ s', SafetySlashConsensusBond getBal p s = Some (success, s') ∧ db_wf s' ∧ amt <= b ∧
    (∀ account asset height, asset ≠ "" →
       ledger_balance (rows s') account asset height
       = ledger_balance (rows s) account asset height
         - (if String.eqb account acct && String.eqb asset "hive_consensus"
               && (sp_BlockHeight p <=? height) then amt else 0)) ∧
    (acct ≠ companion_owner p → held (companion_owner p) (rows s') = held (companion_owner p) (rows s) + amt).
Proof.
  intros acct amt Hp Hwf Hd Hc Hb Hmax Hamt. unfold amt in *.
  assert (0 < sp_SlashBps p <= 10000) as Hbps by apply Hp.
  assert (0 < b) as Hb0 by (destruct (Z.le_gt_cases b 0); [|done]; pose proof (Z.div_le_upper_bound (b * sp_SlashBps p) 10000 0); nia).
  pose proof (slash_share b (sp_SlashBps p) ltac:(lia) ltac:(lia)).
  rewrite slash_unfold by done. cbv zeta. fold acct. rewrite guard_fresh by done. simpl.
  rewrite (derive_slash_value getBal p acct b) by (done || lia).
  destruct (slash_store p acct (b * sp_SlashBps p / 10000) s Hp Hamt Hwf) as (c & Hcomp & -> & Hwf' & Hrows).
  destruct (slash_records_ids p acct _ c Hcomp) as [Hnd _].
  destruct Hcomp as (Hid & Hca & Hch & Hcx & Hco & Hmeta).
  eexists. split; [done|]. split; [done|]. split; [lia|].
  assert (∀ r, r ∈ [slash_debit p acct (b * sp_SlashBps p / 10000); c] → rows s !! lr_Id r = None) as Hfresh.
  { intros r [->|[->|Hr%elem_of_nil]%elem_of_cons]%elem_of_cons; [done| |done]. by rewrite Hid. }
  split.
  - intros account asset height Ha. rewrite Hrows. unfold ledger_balance.
    rewrite qsum_upserts_fresh by done. csimpl.
    rewrite counts_debit by (done || lia). rewrite counts_meta by done. lia.
  - intros Hne. rewrite Hrows. unfold held. rewrite qsum_upserts_fresh by done. csimpl.
    rewrite Hco, Hcx, Hca, String.eqb_refl, (proj2 (String.eqb_neq acct _)) by done. simpl. lia.
Qed.

(** C12: a slash survives a crash at any point.  Suppose a slash of [amt] was
    being written and the process died with any prefix of its rows on disk, at
    least the debit; whatever the balance snapshots say by then (they may have
    folded the debit in), running the operation again on the same evidence
    returns success and leaves exactly the rows of the uninterrupted slash: the
    amount is not recomputed, the value is neither lost nor taken twice. *)
Theorem slash_crash_safe getBal p s m amt records k :
  let acct := normalizeHiveConsensusAccount (sp_Account p) in
  slash_params_ok p → db_wf s → 0 < amt <= MaxInt64 →
  slash_records p acct amt = Some records →
  m !! companion_id p acct = None → (1 <= k)%nat → rows s = upserts (take k records) m →
  ∃ r s', SafetySlashConsensusBond getBal p s = Some (r, s') ∧ Ok r = true ∧ db_wf s' ∧
    rows s' = upserts records m.
Proof.
  intros acct Hp Hwf Hamt Hrec Hm Hk Hrows.
  destruct (slash_store p acct amt s Hp ltac:(lia) Hwf) as (c & Hcomp & Hrec' & Hwf' & Hrows').
  rewrite Hrec in Hrec'. injection Hrec' as ->.
  destruct (slash_records_ids p acct _ c Hcomp) as [Hnd _].
  pose proof Hcomp as (Hid & _). set (d := slash_debit p acct amt) in *.
  rewrite slash_unfold by done. cbv zeta. fold acct.
  destruct k as [|[|k]]; [lia|..].
  - assert (rows s !! lr_Id d = Some d) as Hd by (rewrite Hrows; apply lookup_insert_eq).
    rewrite (guard_half p acct amt) by
      (done || lia || (rewrite Hrows; unfold upserts; simpl; unfold upsert;
         rewrite lookup_insert_ne; [done|]; apply debit_companion_ne)).
    rewrite (proj2 (Z.ltb_lt 0 amt)) by lia. rewrite Hrec.
    eexists _, _. split_and!; [done..|]. rewrite Hrows', Hrows. by rewrite upserts_retry.
  - assert (rows s = upserts [d; c] m) as Hfull by (rewrite Hrows; cbn [take]; by destruct k).
    rewrite (guard_recorded p acct amt c).
    + eexists _, _. split_and!; [done..|]. done.
    + done.
    + rewrite Hfull. apply lookup_upserts_NoDup; [done|by left].
    + done.
    + rewrite Hfull, <- Hid. apply lookup_upserts_NoDup; [done|]. right. by left.
Qed.
End slash_properties.
