(* ===== verification/SlashFinalize.v ===== *)
(** The life of a pending slash: promotion by the bounded scan, cancellation,
    and the invariant that ties them to the scan cursor
    ([FinalizeMaturedSafetySlashBurns], [CancelPendingSafetySlashBurn] and the
    cursor rows of [modules/ledger-system/ledger_system.go], modelled in
    [SafetySlash.v]).

    A pending row is live while it can still be promoted.  The invariant says
    that the cursor is at or below every live row; the theorems show that a scan
    promotes exactly the live rows that have matured, with the right amounts and
    nothing else touched, and keeps the invariant, so no matured row is ever left
    behind, and that a cancelled row is never promoted. *)
From S2P Require Import Prelude GoStrings LedgerDb LedgerTypes LedgerState SafetySlash.

(** ** Abstract state *)

Definition marker_id (id : string) : string := id +:+ "#finalized_marker".

Definition on_pending (ty : string) (r : LedgerRecord) : Prop :=
  lr_Owner r = ProtocolSlashPendingBurnAccount ∧ lr_Asset r = "hive" ∧ lr_Type r = ty.

Definition pending_row : LedgerRecord → Prop := on_pending LedgerTypeSafetySlashHiveBurnPending.
Definition marker_row : LedgerRecord → Prop := on_pending LedgerTypeSafetySlashHiveBurnPendingFinalized.

Definition marked (m : ledger) (id : string) : Prop :=
  ∃ r, m !! marker_id id = Some r ∧ marker_row r.

Definition maturity (r : LedgerRecord) : option Z := ParseUint (TrimSpace (lr_From r)).

(** A pending row that holds value and has been neither promoted nor cancelled. *)
Definition live (m : ledger) (id : string) (r : LedgerRecord) : Prop :=
  m !! id = Some r ∧ pending_row r ∧ 0 < lr_Amount r ∧ is_Some (maturity r) ∧ ¬ marked m id.

Definition is_cursor_row (r : LedgerRecord) : Prop :=
  lr_Owner r = ProtocolSlashFinalizeCursorAccount ∧ lr_Asset r = "hive" ∧
  lr_Type r = LedgerTypeSafetySlashBurnFinalizeCursor ∧ 0 <= lr_BlockHeight r <= MaxInt64.

#[export] Instance is_cursor_row_dec r : Decision (is_cursor_row r).
Proof. unfold is_cursor_row. apply _. Defined.

(** The value the cursor row stands for. *)
Definition cursor_of (m : ledger) : Z :=
  match m !! safetySlashFinalizeCursorRowID with
  | Some r => if decide (is_cursor_row r) then default 0 (maturity r) else 0
  | None => 0
  end.

(** The suffixes the scan and a cancellation append to the id of a pending row. *)
Definition slash_suffixes : list string :=
  ["#pending_release"; "#promoted_to_reserve"; "#finalized_marker"; "#cancel_release";
   "#cancelled_marker"].

Record slash_inv (now : Z) (m : ledger) : Prop := {
  inv_height id r : m !! id = Some r → pending_row r → 0 <= lr_BlockHeight r < MaxUint64;
  inv_id id r : m !! id = Some r → pending_row r →
    id ≠ "" ∧ id ≠ safetySlashFinalizeCursorRowID ∧
    ∀ x, x ∈ slash_suffixes → HasSuffix id x = false;
  inv_one_cursor id r : m !! id = Some r → is_cursor_row r → id = safetySlashFinalizeCursorRowID;
  inv_marker id r k : m !! id = Some r → pending_row r →
    m !! marker_id id = Some k → marker_row k → lr_BlockHeight r <= lr_BlockHeight k <= now;
  inv_cursor id r : live m id r → cursor_of m <= lr_BlockHeight r;
}.

(** A live row the scan at [bh] has to promote. *)
Definition due (bh : Z) (m : ledger) (id : string) (r : LedgerRecord) : Prop :=
  live m id r ∧ lr_BlockHeight r <= bh ∧ ∃ mat, maturity r = Some mat ∧ mat <= bh.

(** ** Lemmas: ids *)

Lemma slash_suffix_inj a b x y :
  x ∈ slash_suffixes → y ∈ slash_suffixes → a +:+ x = b +:+ y → a = b ∧ x = y.
Proof.
  assert (∀ z, z ∈ slash_suffixes → hash_suffix z = true) as Hs.
  { apply Forall_forall. by apply (bool_decide_unpack _). }
  intros Hx Hy. by apply hash_suffix_inj; apply Hs.
Qed.

Lemma cursor_id_no_suffix id x :
  x ∈ slash_suffixes → id +:+ x ≠ safetySlashFinalizeCursorRowID.
Proof.
  intros Hx Heq. assert (nochar hash (id +:+ x) = false) as Hc; [|by rewrite Heq in Hc].
  rewrite nochar_app. apply andb_false_iff. right.
  unfold slash_suffixes in Hx. rewrite !elem_of_cons, elem_of_nil in Hx. by destruct_or! Hx; subst.
Qed.

(** Rows that settle a pending row, by promotion or by cancellation: their ids
    extend its id by one of the suffixes, one of them is its marker, and none is a
    pending row or a cursor row itself. *)
Record settles (bh : Z) (f : LedgerRecord → list LedgerRecord) : Prop := {
  settles_ids : ∃ sfx, sfx ⊆ slash_suffixes ∧ NoDup sfx ∧
    ∀ r, lr_Id <$> f r = (λ x, lr_Id r +:+ x) <$> sfx;
  settles_type r u : u ∈ f r → ¬ pending_row u ∧ ¬ is_cursor_row u;
  settles_marker r u : u ∈ f r → lr_Id u = marker_id (lr_Id r) → marker_row u ∧ lr_BlockHeight u = bh;
  settles_marked r : ∃ u, u ∈ f r ∧ lr_Id u = marker_id (lr_Id r);
}.

(** What a cancellation writes for a pending row. *)
Definition cancellation (bh : Z) (r : LedgerRecord) : list LedgerRecord := cancel_rows bh (lr_Id r) r.

Lemma promotion_settles bh : settles bh (promotion bh).
Proof.
  split.
  - exists ["#pending_release"; "#promoted_to_reserve"; "#finalized_marker"].
    split_and!; [unfold slash_suffixes; set_solver|by apply (bool_decide_unpack _)|done].
  - unfold promotion. intros r u. rewrite !elem_of_cons, elem_of_nil.
    intros Hu. split; [intros (_ & _ & Ht)|intros (_ & _ & Ht & _)]; by destruct_or! Hu; subst.
  - unfold promotion. intros r u. rewrite !elem_of_cons, elem_of_nil. intros Hu Hid.
    destruct_or! Hu; subst; try done; by apply sapp_inj_l in Hid.
  - intros r. eexists. split; [do 2 right; by left|done].
Qed.

Lemma cancellation_settles bh : settles bh (cancellation bh).
Proof.
  split.
  - exists ["#cancel_release"; "#finalized_marker"; "#cancelled_marker"].
    split_and!; [unfold slash_suffixes; set_solver|by apply (bool_decide_unpack _)|done].
  - unfold cancellation, cancel_rows. intros r u. rewrite !elem_of_cons, elem_of_nil.
    intros Hu. split; [intros (_ & _ & Ht)|intros (_ & _ & Ht & _)]; by destruct_or! Hu; subst.
  - unfold cancellation, cancel_rows. intros r u. rewrite !elem_of_cons, elem_of_nil. intros Hu Hid.
    destruct_or! Hu; subst; try done; by apply sapp_inj_l in Hid.
  - intros r. eexists. split; [right; by left|done].
Qed.

Lemma settle_suffix bh f r u :
  settles bh f → u ∈ f r → ∃ x, x ∈ slash_suffixes ∧ lr_Id u = lr_Id r +:+ x.
Proof.
  intros [(sfx & Hsub & _ & Hids) _ _ _] Hu. apply (list_elem_of_fmap_2 lr_Id) in Hu.
  rewrite Hids in Hu. apply list_elem_of_fmap in Hu as (x & Hid & Hx). eauto.
Qed.

Lemma settles_NoDup bh f l :
  settles bh f → NoDup (lr_Id <$> l) → NoDup (lr_Id <$> (l ≫= f)).
Proof.
  intros Hf. induction l as [|r l IH]; [by constructor|]. rewrite fmap_cons, bind_cons.
  intros [Hr Hl]%NoDup_cons. rewrite fmap_app. apply NoDup_app. split; [|split; [|by apply IH]].
  - destruct (settles_ids _ _ Hf) as (sfx & _ & Hnd & ->).
    apply NoDup_fmap_2_strong; [|done]. intros x y _ _ Heq. by apply sapp_inj_l in Heq.
  - intros i (u & -> & Hu)%list_elem_of_fmap Hin. apply Hr.
    apply list_elem_of_fmap in Hin as (v & Hv & (w & Hw & Hin)%list_elem_of_bind).
    apply list_elem_of_fmap. exists w. split; [|done].
    destruct (settle_suffix bh f r u Hf Hu) as (x & Hx & Hidu).
    destruct (settle_suffix bh f w v Hf Hw) as (y & Hy & Hidv).
    rewrite Hidu, Hidv in Hv. by apply slash_suffix_inj in Hv as [? _].
Qed.

(** The row the cursor is written to, if it is written. *)
Definition cursor_write (bh : Z) (C : list LedgerRecord) : Prop :=
  C = [] ∨ ∃ c, C = [cursor_row bh c].

Section scan.
Variables (now bh : Z) (f : LedgerRecord → list LedgerRecord).
Variables (m : ledger) (P C : list LedgerRecord).
Hypothesis Hf : settles bh f.
Hypothesis Hinv : slash_inv now m.
Hypothesis Hkey : ∀ id r, m !! id = Some r → lr_Id r = id.
Hypothesis HP : ∀ r, r ∈ P → m !! lr_Id r = Some r ∧ pending_row r ∧ lr_BlockHeight r <= bh.
Hypothesis HC : cursor_write bh C.
Hypothesis Hnd : NoDup (lr_Id <$> P).

Let m' := upserts ((P ≫= f) ++ C) m.

Lemma scan_elem u :
  u ∈ (P ≫= f) ++ C →
  (∃ r x, r ∈ P ∧ x ∈ slash_suffixes ∧ lr_Id u = lr_Id r +:+ x ∧ u ∈ f r) ∨
  (u ∈ C ∧ lr_Id u = safetySlashFinalizeCursorRowID ∧ ¬ pending_row u).
Proof.
  intros [(r & Hu & Hr)%list_elem_of_bind|Hu]%elem_of_app; [left|right].
  { destruct (settle_suffix bh f r u Hf Hu) as (x & Hx & Hid). by exists r, x. }
  split; [done|]. destruct HC as [->|[c ->]]; [by apply elem_of_nil in Hu|].
  apply list_elem_of_singleton in Hu as ->. split; [done|]. intros Hp. by destruct Hp as (? & _).
Qed.

Lemma scan_NoDup : NoDup (lr_Id <$> ((P ≫= f) ++ C)).
Proof.
  rewrite fmap_app. apply NoDup_app. split; [by eapply settles_NoDup|]. split.
  - intros i (u & -> & (r & Hu & Hr)%list_elem_of_bind)%list_elem_of_fmap Hin.
    destruct (settle_suffix bh f r u Hf Hu) as (x & Hx & Hid).
    destruct HC as [->|[c ->]]; [by apply elem_of_nil in Hin|].
    apply list_elem_of_singleton in Hin. rewrite Hid in Hin. by apply cursor_id_no_suffix in Hin.
  - destruct HC as [->|[c ->]]; [constructor|apply NoDup_singleton].
Qed.

Lemma scan_pending id r : pending_row r → m' !! id = Some r ↔ m !! id = Some r.
Proof.
  intros Hp. split.
  - intros [[Hu Hid]|[_ ?]]%lookup_upserts_cases; [|done].
    apply scan_elem in Hu as [(w & x & _ & _ & _ & Hu)|(_ & _ & ?)]; [|done].
    by apply (settles_type _ _ Hf) in Hu as [? _].
  - intros Hr. unfold m'. rewrite lookup_upserts_ne; [done|].
    destruct (inv_id _ _ Hinv id r Hr Hp) as (_ & Hcur & Hsfx).
    intros (u & -> & Hu)%list_elem_of_fmap.
    apply scan_elem in Hu as [(w & x & _ & Hx & Hid & _)|(_ & ? & _)]; [|done].
    specialize (Hsfx x Hx).
    rewrite (proj2 (HasSuffix_spec (lr_Id u) x)) in Hsfx; [done|]. by eexists.
Qed.

Lemma scan_marker id k :
  m' !! marker_id id = Some k → marker_row k →
  (lr_BlockHeight k = bh ∧ ∃ r, r ∈ P ∧ lr_Id r = id) ∨ m !! marker_id id = Some k.
Proof.
  intros [[Hu Hid]|[_ ?]]%lookup_upserts_cases Hk; [left|by right].
  apply scan_elem in Hu as [(r & x & Hr & Hx & Hid' & Hu)|(_ & Hid' & _)].
  - rewrite Hid' in Hid. apply slash_suffix_inj in Hid as [Hid ->];
      [|done|unfold slash_suffixes; set_solver].
    split; [by apply (settles_marker _ _ Hf r)|]. by exists r.
  - rewrite Hid' in Hid. symmetry in Hid. apply cursor_id_no_suffix in Hid; [done|].
    unfold slash_suffixes. set_solver.
Qed.

Lemma scan_marked id : marked m id → marked m' id.
Proof.
  intros (k & Hk & Hrow).
  destruct (decide (marker_id id ∈ lr_Id <$> ((P ≫= f) ++ C))) as [Hin|Hin].
  - apply list_elem_of_fmap in Hin as (u & Hid & Hu). exists u. unfold m'. rewrite Hid.
    rewrite lookup_upserts_NoDup by (done || apply scan_NoDup). split; [done|].
    apply scan_elem in Hu as [(r & x & Hr & Hx & Hid' & Hu)|(_ & Hid' & _)].
    + rewrite Hid' in Hid. apply slash_suffix_inj in Hid as [_ <-];
        [|unfold slash_suffixes; set_solver|done].
      by apply (settles_marker _ _ Hf r).
    + rewrite Hid' in Hid. apply cursor_id_no_suffix in Hid; [done|]. unfold slash_suffixes. set_solver.
  - exists k. unfold m'. by rewrite lookup_upserts_ne.
Qed.

Lemma scan_promoted r u : r ∈ P → u ∈ f r → m' !! lr_Id u = Some u.
Proof.
  intros Hr Hu. apply lookup_upserts_NoDup; [apply scan_NoDup|].
  apply elem_of_app. left. apply list_elem_of_bind. by exists r.
Qed.

(** A row live after the scan was live before and was not promoted. *)
Lemma scan_live id r : live m' id r → live m id r ∧ r ∉ P.
Proof.
  intros (Hr & Hp & Ha & Hmat & Hnm). pose proof (proj1 (scan_pending id r Hp) Hr) as Hm. split.
  - split_and!; try done. intros Hmk. by apply Hnm, scan_marked.
  - intros Hin. apply Hnm. rewrite <- (Hkey id r Hm).
    destruct (settles_marked _ _ Hf r) as (u & Hu & Hid). exists u. rewrite <- Hid.
    split; [by apply (scan_promoted r)|by apply (settles_marker _ _ Hf r)].
Qed.

(** The frame: ids not derived from a promoted row, and not the cursor's. *)
Lemma scan_frame k :
  k ≠ safetySlashFinalizeCursorRowID →
  (∀ r, r ∈ P → k ∉ lr_Id <$> f r) → m' !! k = m !! k.
Proof.
  intros Hcur Hk. unfold m'. apply lookup_upserts_ne. intros (u & -> & Hu)%list_elem_of_fmap.
  apply scan_elem in Hu as [(r & x & Hr & _ & _ & Hu)|(_ & ? & _)]; [|done].
  apply (Hk r Hr). by apply list_elem_of_fmap_2.
Qed.

(** The invariant after the scan, given what the new cursor is bounded by. *)
Lemma scan_inv :
  now <= bh → 0 <= bh <= MaxInt64 →
  (∀ id r, live m id r → r ∉ P → cursor_of m' <= lr_BlockHeight r) → slash_inv bh m'.
Proof.
  intros Hnow Hbh Hcur. split.
  - intros id r Hr Hp. apply (inv_height _ _ Hinv id); [|done]. by apply scan_pending.
  - intros id r Hr Hp. apply (inv_id _ _ Hinv id r); [|done]. by apply scan_pending.
  - intros id r [[Hu Hid]|[_ Hr]]%lookup_upserts_cases Hc; [|by apply (inv_one_cursor _ _ Hinv id r)].
    apply scan_elem in Hu as [(w & x & _ & _ & _ & Hu)|(_ & Hid' & _)]; [|congruence].
    by apply (settles_type _ _ Hf) in Hu as [_ ?].
  - intros id r k Hr Hp Hk Hrow. apply scan_pending in Hr; [|done].
    destruct (scan_marker id k Hk Hrow) as [[Hkh (w & Hw & Hid)]|Hk'].
    + destruct (HP w Hw) as (Hw' & _ & Hwh). rewrite Hid, Hr in Hw'. simplify_eq. lia.
    + pose proof (inv_marker _ _ Hinv id r k Hr Hp Hk' Hrow). lia.
  - intros id r Hl. apply scan_live in Hl as [Hl Hnin]. by apply (Hcur id).
Qed.
End scan.

(** ** Lemmas: the scan of the store *)

Section store.
Context {S : Type} `{LedgerDbLaws S}.
Implicit Types s : S.

Lemma elem_of_typed_range owner lo hi ty s r :
  db_wf s →
  r ∈ GetLedgerRange owner lo hi "hive" [ty] s ↔
  rows s !! lr_Id r = Some r ∧ lr_Owner r = owner ∧ lr_Asset r = "hive" ∧ lr_Type r = ty ∧
  lo <= lr_BlockHeight r <= hi.
Proof.
  intros Hwf. rewrite elem_of_range by done. unfold in_query.
  rewrite bool_decide_eq_false_2 by done. simpl.
  rewrite !andb_true_iff, !String.eqb_eq, !Z.leb_le, slices_Contains_spec, list_elem_of_singleton. split.
  - intros [[[[[Ho Hlo] Hhi] Hx] Ht] [k Hk]].
    rewrite (rows_keyed s k r Hwf Hk). by split_and!.
  - intros (Hk & Ho & Hx & Ht & Hh). split; [|by eexists]. split_and!; try lia; done.
Qed.

Lemma read_cursor now s :
  db_wf s → slash_inv now (rows s) → readSafetySlashFinalizeCursor false s = cursor_of (rows s).
Proof.
  intros Hwf Hinv. unfold readSafetySlashFinalizeCursor.
  pose proof (NoDup_range ProtocolSlashFinalizeCursorAccount 0 MaxInt64 "hive"
    [LedgerTypeSafetySlashBurnFinalizeCursor] s Hwf) as Hnd.
  assert (∀ r, r ∈ GetLedgerRange ProtocolSlashFinalizeCursorAccount 0 MaxInt64 "hive"
      [LedgerTypeSafetySlashBurnFinalizeCursor] s
      ↔ is_cursor_row r ∧ rows s !! safetySlashFinalizeCursorRowID = Some r) as Hel.
  { intros r. rewrite elem_of_typed_range by done. split.
    - intros (Hr & Ho & Hx & Ht & Hh). assert (is_cursor_row r) as Hc by (unfold is_cursor_row; auto).
      split; [done|]. by rewrite <- (inv_one_cursor _ _ Hinv _ _ Hr Hc).
    - intros [(Ho & Hx & Ht & Hh) Hr]. by rewrite (rows_keyed s _ _ Hwf Hr). }
  unfold cursor_of. set (recs := GetLedgerRange _ _ _ _ _ _) in *.
  destruct recs as [|r l].
  - destruct (rows s !! safetySlashFinalizeCursorRowID) as [r|] eqn:Hr; [|done].
    destruct (decide (is_cursor_row r)) as [Hc|]; [|done].
    pose proof (proj2 (Hel r) (conj Hc eq_refl)) as Hin. by apply elem_of_nil in Hin.
  - destruct (proj1 (Hel r) ltac:(by left)) as [Hc Hr]. rewrite Hr, decide_True by done.
    assert (l = []) as ->.
    { destruct l as [|r' l]; [done|]. destruct (proj1 (Hel r') ltac:(right; by left)) as [_ Hr'].
      rewrite Hr in Hr'. simplify_eq. apply NoDup_cons in Hnd as [Hnin _]. destruct Hnin. by left. }
    cbn [foldl]. destruct Hc as (_ & _ & _ & Hh). rewrite (proj2 (Z.ltb_ge _ 0)) by lia.
    unfold maturity. by destruct (ParseUint _).
Qed.

Lemma finalize_loop D bh l s mn :
  db_wf s → (∀ r, r ∈ l → lr_Id r ≠ "") →
  let '(s', mn') := foldl (finalize_step D bh) (s, mn) l in
  db_wf s' ∧ rows s' = upserts (filter (λ r, judge D bh r = Promote) l ≫= promotion bh) (rows s) ∧
  mn' <= mn ∧ (∀ r, r ∈ l → judge D bh r = Wait → mn' <= lr_BlockHeight r) ∧
  (mn' = mn ∨ ∃ r, r ∈ l ∧ mn' = lr_BlockHeight r).
Proof.
  revert s mn. induction l as [|r l IH]; intros s mn Hwf Hid.
  { simpl. split_and!; [done|done|lia|by intros r Hr%elem_of_nil|by left]. }
  cbn [foldl]. unfold finalize_step at 2. rewrite filter_cons.
  assert (∀ r, r ∈ l → lr_Id r ≠ "") as Hid' by (intros; apply Hid; by right).
  destruct (judge D bh r) eqn:Hj.
  - rewrite decide_False by done. specialize (IH s mn Hwf Hid').
    destruct (foldl _ _ l) as [s' mn']. destruct IH as (? & ? & ? & Hw & Hor). split_and!; try done.
    + intros r' [->|Hr']%elem_of_cons; [congruence|auto].
    + destruct Hor as [?|(r' & ? & ?)]; [by left|right; exists r'; split; [by right|done]].
  - rewrite decide_False by done.
    specialize (IH s (if lr_BlockHeight r <? mn then lr_BlockHeight r else mn) Hwf Hid').
    destruct (foldl _ _ l) as [s' mn']. destruct IH as (? & ? & Hmn & Hw & Hor).
    destruct (Z.ltb_spec (lr_BlockHeight r) mn); split_and!; try done; try lia.
    + intros r' [->|Hr']%elem_of_cons; [lia|auto].
    + right. destruct Hor as [->|(r' & ? & ?)]; [exists r; split; [by left|done]|exists r'; split; [by right|done]].
    + intros r' [->|Hr']%elem_of_cons; [lia|auto].
    + destruct Hor as [?|(r' & ? & ?)]; [by left|right; exists r'; split; [by right|done]].
  - rewrite decide_True by done.
    assert (Forall (λ r, lr_Id r ≠ "") (promotion bh r)) as Hne by (repeat constructor; by apply sapp_ne_r).
    destruct (storeLedgerOrFail_spec (promotion bh r) s Hwf Hne) as [Hwf1 Hrows1].
    specialize (IH _ mn Hwf1 Hid'). rewrite Hrows1 in IH.
    destruct (foldl _ _ l) as [s' mn']. destruct IH as (? & Hrows & ? & Hw & Hor). split_and!; try done.
    + intros r' [->|Hr']%elem_of_cons; [congruence|auto].
    + destruct Hor as [?|(r' & ? & ?)]; [by left|right; exists r'; split; [by right|done]].
Qed.

(** The ids the loop skips are those with a marker in the window. *)
Lemma elem_of_done_ids l id :
  slices_Contains (done_ids l) id = true ↔ ∃ k, k ∈ l ∧ lr_Id k = marker_id id.
Proof.
  rewrite slices_Contains_spec. unfold done_ids. rewrite list_elem_of_omap. split.
  - intros (k & Hk & Hs). exists k. split; [done|].
    destruct (HasSuffix (lr_Id k) _) eqn:Hx; simplify_eq. apply HasSuffix_spec in Hx as [t Ht].
    unfold marker_id. by rewrite Ht, TrimSuffix_app.
  - intros (k & Hk & Hid). exists k. split; [done|]. rewrite Hid. unfold marker_id.
    rewrite (proj2 (HasSuffix_spec _ _)) by by eexists. by rewrite TrimSuffix_app.
Qed.
Lemma slash_inv_mono now now' m : now <= now' → slash_inv now m → slash_inv now' m.
Proof.
  intros Hle [Hh Hi Ho Hm Hc]. split; [done|done|done| |done].
  intros id r k Hr Hp Hk Hrow. specialize (Hm id r k Hr Hp Hk Hrow). lia.
Qed.

Section finalize.
Variables (readErr : bool) (now bh : Z) (s : S).
Hypothesis Hwf : db_wf s.
Hypothesis Hinv : slash_inv now (rows s).
Hypothesis Hbh : 0 < bh <= MaxInt64.
Hypothesis Hnow : now <= bh.

Let m := rows s.
Let c := readSafetySlashFinalizeCursor readErr s.
Let pendingRecs := GetLedgerRange ProtocolSlashPendingBurnAccount c bh "hive"
                     [LedgerTypeSafetySlashHiveBurnPending] s.
Let D := done_ids (GetLedgerRange ProtocolSlashPendingBurnAccount c bh "hive"
           [LedgerTypeSafetySlashHiveBurnPendingFinalized] s).
Let P := filter (λ r, judge D bh r = Promote) pendingRecs.

(** Whether or not it could be read, the cursor is below every live row. *)
Lemma cursor_below id r : live m id r → c <= lr_BlockHeight r.
Proof.
  intros Hl. unfold c. destruct readErr.
  - simpl. destruct Hl as (Hr & Hp & _). pose proof (inv_height _ _ Hinv id r Hr Hp). lia.
  - rewrite (read_cursor now s Hwf Hinv). by apply (inv_cursor _ _ Hinv id).
Qed.

(** A live row of the window is judged by its maturity. *)
Lemma judge_live id r mat :
  live m id r → lr_BlockHeight r <= bh → maturity r = Some mat →
  r ∈ pendingRecs ∧ judge D bh r = if bh <? mat then Wait else Promote.
Proof.
  intros Hl Hh Hmat. pose proof (cursor_below id r Hl) as Hc.
  destruct Hl as (Hr & Hp & Ha & _ & Hnm). pose proof (rows_keyed s id r Hwf Hr) as Hid. split.
  - apply elem_of_typed_range; [done|]. rewrite Hid. destruct Hp as (Ho & Hx & Ht). by split_and!.
  - unfold judge. fold (maturity r). rewrite Hmat, (proj2 (Z.leb_gt (lr_Amount r) 0)) by done.
    destruct (slices_Contains D (lr_Id r)) eqn:Hd; [|done]. exfalso. apply Hnm.
    apply elem_of_done_ids in Hd as (k & Hk & Hkid). apply elem_of_typed_range in Hk; [|done].
    exists k. rewrite Hkid, Hid in Hk. destruct Hk as (Hk & Ho & Hx & Ht & _). split; [done|]. by split_and!.
Qed.

Lemma promoted_iff_due r : r ∈ P ↔ due bh m (lr_Id r) r.
Proof.
  unfold P. rewrite list_elem_of_filter. split.
  - intros [Hj Hin]. apply elem_of_typed_range in Hin as (Hr & Ho & Hx & Ht & Hh); [|done].
    assert (pending_row r) as Hp by by split_and!.
    unfold judge in Hj. destruct (Z.leb_spec (lr_Amount r) 0); [done|].
    destruct (slices_Contains D (lr_Id r)) eqn:Hd; [done|]. fold (maturity r) in Hj.
    destruct (maturity r) as [mat|] eqn:Hm; [|done]. destruct (Z.ltb_spec bh mat); [done|].
    split; [|split; [lia|by exists mat]]. split_and!; try done; try (by eexists).
    intros (k & Hk & Hrow). pose proof (inv_marker _ _ Hinv _ r k Hr Hp Hk Hrow) as Hmk.
    assert (slices_Contains D (lr_Id r) = true) as Hd'; [|congruence].
    apply elem_of_done_ids. exists k. pose proof (rows_keyed s _ k Hwf Hk) as Hkid. split; [|done].
    apply elem_of_typed_range; [done|]. rewrite Hkid. destruct Hrow as (Hko & Hkx & Hkt).
    split_and!; try done; lia.
  - intros (Hl & Hh & mat & Hmat & Hle).
    destruct (judge_live _ r mat Hl Hh Hmat) as [Hin Hj]. split; [|done].
    by rewrite Hj, (proj2 (Z.ltb_ge bh mat)).
Qed.

Lemma P_facts :
  (∀ r, r ∈ P → m !! lr_Id r = Some r ∧ pending_row r ∧ lr_BlockHeight r <= bh) ∧
  NoDup (lr_Id <$> P).
Proof.
  split.
  - intros r ((Hr & Hp & _) & Hh & _)%promoted_iff_due. done.
  - unfold P. pose proof (NoDup_range ProtocolSlashPendingBurnAccount c bh "hive"
      [LedgerTypeSafetySlashHiveBurnPending] s Hwf) as Hnd. fold pendingRecs in Hnd.
    clear -Hnd. induction pendingRecs as [|r l IH]; [constructor|].
    rewrite fmap_cons in Hnd. apply NoDup_cons in Hnd as [Hr Hnd]. rewrite filter_cons.
    case_decide; [|by apply IH]. rewrite fmap_cons. apply NoDup_cons. split; [|by apply IH].
    intros (x & Hx & [_ Hin]%list_elem_of_filter)%list_elem_of_fmap. apply Hr. rewrite Hx.
    by apply list_elem_of_fmap_2.
Qed.

(** The rows the whole scan writes, and the bound on the new cursor. *)
Lemma finalize_rows :
  c <= bh →
  let s' := FinalizeMaturedSafetySlashBurns readErr bh s in
  db_wf s' ∧ ∃ C, rows s' = upserts ((P ≫= promotion bh) ++ C) m ∧
    (C = [] ∨ ∃ nc, C = [cursor_row bh nc] ∧ u64 nc ∧
       ∀ id r, live m id r → r ∉ P → nc <= lr_BlockHeight r).
Proof.
  intros Hc. unfold FinalizeMaturedSafetySlashBurns.
  rewrite (proj2 (Z.eqb_neq bh 0)), (proj2 (Z.ltb_ge bh _)) by (done || lia).
  cbv zeta. fold c. fold pendingRecs. fold D.
  assert (∀ r, r ∈ pendingRecs → pending_row r ∧ m !! lr_Id r = Some r ∧ c <= lr_BlockHeight r <= bh) as Hpend.
  { intros r (Hr & Ho & Hx & Ht & Hh)%elem_of_typed_range; [|done]. split_and!; try done; lia. }
  pose proof (finalize_loop D bh pendingRecs s MaxUint64 Hwf) as Hloop.
  destruct (foldl _ _ pendingRecs) as [s1 mn].
  destruct Hloop as (Hwf1 & Hrows1 & Hmn & Hwait & Hor).
  { intros r (Hp & Hr & _)%Hpend. by apply (inv_id _ _ Hinv _ r Hr Hp). }
  fold P in Hrows1. fold m in Hrows1.
  set (nc := if _ || _ then _ else _).
  assert (u64 nc ∧ ∀ id r, live m id r → r ∉ P → nc <= lr_BlockHeight r) as [Hu Hbound].
  { assert (bh +u64 1 = bh + 1) as E by (apply wrapu64_id; unfold_widths; lia).
    assert (0 <= mn) as Hmn0.
    { destruct Hor as [->|(r & Hr & ->)]; [unfold_widths; lia|]. apply Hpend in Hr as (Hp & Hr & _).
      by apply (inv_height _ _ Hinv _ r Hr Hp). }
    split; [unfold nc; rewrite E; unfold_widths; destruct (_ || _); lia|].
    intros id r Hl Hnin. pose proof Hl as (Hr & Hp & _ & [mat Hmat] & _).
    pose proof (inv_height _ _ Hinv id r Hr Hp) as Hrh. unfold nc. rewrite E.
    destruct (Z.le_gt_cases (lr_BlockHeight r) bh) as [Hle|Hgt].
    - destruct (judge_live id r mat Hl Hle Hmat) as [Hin Hj].
      assert (judge D bh r = Wait) as Hw.
      { destruct (bh <? mat); [done|]. destruct Hnin. by apply list_elem_of_filter. }
      pose proof (Hwait r Hin Hw). rewrite bool_decide_eq_false_2
        by (intros E'; rewrite E' in Hin; by apply elem_of_nil in Hin).
      simpl. rewrite (proj2 (Z.eqb_neq mn MaxUint64)) by (unfold_widths; lia). lia.
    - destruct (_ || _) eqn:Hor'; [lia|]. apply orb_false_iff in Hor' as [_ Hne%Z.eqb_neq].
      destruct Hor as [?|(r' & Hr' & ->)]; [done|]. apply Hpend in Hr'. lia. }
  destruct (c <? nc).
  - destruct (storeLedgerOrFail_spec [cursor_row bh nc] s1 Hwf1) as [Hwf2 Hrows2];
      [constructor; [done|constructor]|].
    split; [done|]. exists [cursor_row bh nc]. split; [|right; by exists nc].
    unfold writeSafetySlashFinalizeCursor. by rewrite Hrows2, Hrows1, upserts_app.
  - split; [done|]. exists []. rewrite app_nil_r. by split; [|left].
Qed.
End finalize.
End store.

(** ** Properties *)

Lemma cursor_of_write f bh m P nc :
  settles bh f → 0 <= bh <= MaxInt64 → u64 nc →
  cursor_of (upserts ((P ≫= f) ++ [cursor_row bh nc]) m) = nc.
Proof.
  intros Hf Hbh Hnc. unfold cursor_of.
  change safetySlashFinalizeCursorRowID with (lr_Id (cursor_row bh nc)).
  rewrite lookup_upserts_app by apply not_elem_of_nil.
  rewrite decide_True by done. unfold maturity. simpl. by rewrite ParseUint_Trim_FormatUint.
Qed.

Lemma cursor_of_keep f bh m P :
  settles bh f → cursor_of (upserts ((P ≫= f) ++ []) m) = cursor_of m.
Proof.
  intros Hf. unfold cursor_of. rewrite app_nil_r, lookup_upserts_ne; [done|].
  intros (u & Hid & (r & Hu & _)%list_elem_of_bind)%list_elem_of_fmap.
  destruct (settle_suffix bh f r u Hf Hu) as (x & Hx & Hid').
  rewrite Hid' in Hid. symmetry in Hid. by apply cursor_id_no_suffix in Hid.
Qed.

Section properties.
Context {S : Type} `{LedgerDbLaws S}.
Implicit Types s : S.

(** The bounded scan promotes every matured slash, and nothing else.  On a
    ledger satisfying the invariant, the scan at a height writes, for each live
    pending row that has matured, the release of its full amount from the pending
    account, the credit of the same amount to the reserve and its marker; no
    other row changes except the cursor's; and the invariant holds again, so the
    cursor has not moved past a row that is still to be promoted.  This holds
    even when the cursor could not be read and the scan started from zero. *)
Theorem finalize_promotes_due readErr now bh s :
  db_wf s → slash_inv now (rows s) → 0 < bh <= MaxInt64 → now <= bh →
  let s' := FinalizeMaturedSafetySlashBurns readErr bh s in
  db_wf s' ∧ slash_inv bh (rows s') ∧
  (∀ id r u, due bh (rows s) id r → u ∈ promotion bh r → rows s' !! lr_Id u = Some u) ∧
  (∀ k, k ≠ safetySlashFinalizeCursorRowID →
     (∀ id r, due bh (rows s) id r → k ∉ lr_Id <$> promotion bh r) → rows s' !! k = rows s !! k).
Proof.
  intros Hwf Hinv Hbh Hnow s'. set (c := readSafetySlashFinalizeCursor readErr s).
  destruct (Z.le_gt_cases c bh) as [Hc|Hc].
  2: { assert (s' = s) as ->.
       { unfold s', FinalizeMaturedSafetySlashBurns. rewrite (proj2 (Z.eqb_neq bh 0)) by lia. fold c.
         by rewrite (proj2 (Z.ltb_lt bh c)). }
       split_and!; [done|by eapply slash_inv_mono| |done]. intros id r u (Hl & Hh & _) _.
       pose proof (cursor_below readErr now bh s Hwf Hinv id r Hl) as Hb. fold c in Hb. lia. }
  destruct (finalize_rows readErr now bh s Hwf Hinv Hbh Hc) as [Hwf' (C & Hrows & HC)].
  fold s' in Hwf', Hrows.
  destruct (P_facts readErr now bh s Hwf Hinv Hnow) as [HP Hnd].
  set (P := filter _ _) in *.
  assert (∀ r, r ∈ P ↔ due bh (rows s) (lr_Id r) r) as Hdue
    by apply (promoted_iff_due readErr now bh s Hwf Hinv Hnow).
  pose proof (promotion_settles bh) as Hf.
  assert (cursor_write bh C) as HCw by (destruct HC as [->|(nc & -> & _)]; [by left|right; by exists nc]).
  split_and!; [done|..].
  - rewrite Hrows. eapply scan_inv; try done; [exact (λ id r, rows_keyed s id r Hwf)|lia|].
    intros id r Hl Hnin. destruct HC as [->|(nc & -> & Hu & Hb)].
    + rewrite (cursor_of_keep _ bh) by done. by apply (inv_cursor _ _ Hinv id).
    + rewrite cursor_of_write by (done || lia). by eapply Hb.
  - intros id r u Hd Hu. rewrite Hrows. eapply scan_promoted; try done.
    apply Hdue. destruct Hd as [Hl Hrest]. split; [|done].
    by rewrite (rows_keyed s id r Hwf (proj1 Hl)).
  - intros k Hk Hfr. rewrite Hrows. eapply scan_frame; try done. intros r Hr. apply (Hfr (lr_Id r)).
    by apply Hdue.
Qed.

Lemma typed_exists lo hi ty id s :
  db_wf s →
  existsb (λ k, String.eqb (lr_Id k) id)
    (GetLedgerRange ProtocolSlashPendingBurnAccount lo hi "hive" [ty] s) = true ↔
  ∃ k, rows s !! id = Some k ∧ on_pending ty k ∧ lo <= lr_BlockHeight k <= hi.
Proof.
  intros Hwf. rewrite existsb_exists. split.
  - intros (k & Hk%list_elem_of_In & <-%String.eqb_eq).
    apply elem_of_typed_range in Hk as (Hr & Ho & Hx & Ht & Hh); [|done]. exists k.
    split_and!; try done; lia.
  - intros (k & Hk & (Ho & Hx & Ht) & Hh). pose proof (rows_keyed s id k Hwf Hk) as Hid.
    exists k. split; [|by apply String.eqb_eq]. apply list_elem_of_In, elem_of_typed_range; [done|].
    by rewrite Hid.
Qed.

(** The state after a cancellation of the pending row [r]. *)
Lemma cancel_rows_facts now bh s r :
  db_wf s → slash_inv now (rows s) → now <= bh → 0 <= bh <= MaxInt64 →
  rows s !! lr_Id r = Some r → pending_row r → lr_BlockHeight r <= bh →
  let s' := storeLedgerOrFail (cancellation bh r) s in
  db_wf s' ∧ slash_inv bh (rows s') ∧ rows s' !! lr_Id r = Some r ∧
  ∀ u, u ∈ cancellation bh r → rows s' !! lr_Id u = Some u.
Proof.
  intros Hwf Hinv Hnow Hbh Hr Hp Hh s'. pose proof (cancellation_settles bh) as Hf.
  destruct (storeLedgerOrFail_spec (cancellation bh r) s Hwf) as [Hwf' Hrows].
  { apply Forall_forall. intros u Hu. destruct (settle_suffix bh _ r u Hf Hu) as (x & Hx & ->).
    apply sapp_ne_r. unfold slash_suffixes in Hx. rewrite !elem_of_cons, elem_of_nil in Hx.
    by destruct_or! Hx; subst. }
  fold s' in Hwf', Hrows.
  assert (rows s' = upserts (([r] ≫= cancellation bh) ++ []) (rows s)) as Hrows'
    by (rewrite Hrows; cbn [mbind list_bind]; by rewrite !app_nil_r).
  assert (∀ x, x ∈ [r] → rows s !! lr_Id x = Some x ∧ pending_row x ∧ lr_BlockHeight x <= bh) as HP
    by by intros x ->%list_elem_of_singleton.
  assert (NoDup (lr_Id <$> [r])) as Hnd by apply NoDup_singleton.
  assert (cursor_write bh []) as HC by by left.
  split; [done|]. rewrite Hrows'. split_and!.
  - eapply scan_inv; try done; [exact (λ id r, rows_keyed s id r Hwf)|].
    intros id x Hl _. rewrite (cursor_of_keep _ bh) by done. by apply (inv_cursor _ _ Hinv id).
  - eapply scan_pending; done.
  - intros u Hu. eapply (scan_promoted bh (cancellation bh) (rows s) [r]); try done. by left.
Qed.

(** A cancelled slash is never promoted, and a promoted one cannot be
    cancelled.  When a cancellation reports that it cancelled, the pending row had
    no marker; now its full amount has been released, it is no longer live (so no
    later scan promotes it), the invariant still holds, and repeating the call
    changes nothing. *)
Theorem cancel_settles_pending now p s s' :
  db_wf s → slash_inv now (rows s) → now <= cancel_BlockHeight p → 0 <= cancel_BlockHeight p <= MaxInt64 →
  CancelPendingSafetySlashBurn p s = (mkLedgerResult true "cancelled", s') →
  ∃ r, rows s !! lr_Id r = Some r ∧ pending_row r ∧ ¬ marked (rows s) (lr_Id r) ∧ db_wf s' ∧
    slash_inv (cancel_BlockHeight p) (rows s') ∧ (∀ id, ¬ live (rows s') id r) ∧
    (∃ u, rows s' !! (lr_Id r +:+ "#cancel_release") = Some u ∧ lr_Amount u = -64 (lr_Amount r) ∧
          lr_Owner u = ProtocolSlashPendingBurnAccount) ∧
    CancelPendingSafetySlashBurn p s' = (mkLedgerResult true "already cancelled", s').
Proof.
  intros Hwf Hinv Hnow Hbh. unfold CancelPendingSafetySlashBurn. cbv zeta.
  destruct (_ || _); [done|]. destruct (String.eqb (normalizeHiveConsensusAccount _) ""); [done|].
  set (id := safetySlashBaseID _ _ +:+ _). set (bh := cancel_BlockHeight p) in *.
  destruct (list_find _ _) as [[i r]|] eqn:Hfind; [|done].
  apply list_find_Some in Hfind as (Hin%list_elem_of_lookup_2 & Hid%String.eqb_eq & _).
  apply elem_of_typed_range in Hin as (Hr & Ho & Hx & Ht & Hh); [|done].
  assert (pending_row r) as Hp by by split_and!.
  destruct (existsb _ (GetLedgerRange _ _ _ _ [LedgerTypeSafetySlashHiveBurnPendingCancelled] s)) eqn:Hcan;
    [done|].
  destruct (existsb _ (GetLedgerRange _ _ _ _ [LedgerTypeSafetySlashHiveBurnPendingFinalized] s)) eqn:Hfin;
    [done|].
  intros [= <-].
  destruct (cancel_rows_facts now bh s r Hwf Hinv Hnow Hbh Hr Hp ltac:(lia)) as (Hwf' & Hinv' & Hr' & Hall).
  unfold cancellation in *. rewrite Hid in Hwf', Hinv', Hr, Hr', Hall.
  set (s' := storeLedgerOrFail _ s) in *.
  apply Forall_forall in Hall. unfold cancel_rows in Hall.
  apply Forall_cons in Hall as [Hrel [Hmark [Hcanc _]%Forall_cons]%Forall_cons].
  exists r. rewrite Hid. split_and!; try done.
  - intros (k & Hk & Hrow). pose proof (inv_marker _ _ Hinv id r k Hr Hp Hk Hrow).
    rewrite (proj2 (typed_exists 0 bh _ (id +:+ "#finalized_marker") s Hwf)) in Hfin; [done|].
    exists k. split_and!; try done; lia.
  - intros id' (Hl & _ & _ & _ & Hnm). apply Hnm. rewrite <- (rows_keyed s' _ _ Hwf' Hl), Hid.
    eexists. split; [exact Hmark|done].
  - eexists. split; [exact Hrel|done].
  - destruct (list_find _ (GetLedgerRange _ _ _ _ [LedgerTypeSafetySlashHiveBurnPending] s'))
      as [[j r']|] eqn:Hfind'.
    + rewrite (proj2 (typed_exists 0 bh _ (id +:+ "#cancelled_marker") s' Hwf')); [done|].
      eexists. split; [exact Hcanc|]. split; [done|]. simpl. lia.
    + exfalso. apply list_find_None in Hfind'. rewrite Forall_forall in Hfind'.
      apply (Hfind' r); [|by apply String.eqb_eq]. apply elem_of_typed_range; [done|]. by rewrite Hid.
Qed.
End properties.

(** An id that ends in an account is not an id derived from a pending row, nor
    the cursor's. *)
Lemma acct_id_fresh base acct :
  nochar hash acct = true → HasPrefix acct "hive:" = true →
  (∀ t x, x ∈ slash_suffixes → base +:+ "#" +:+ acct ≠ t +:+ x) ∧
  base +:+ "#" +:+ acct ≠ safetySlashFinalizeCursorRowID.
Proof.
  intros Hnc [t ->]%HasPrefix_spec. split.
  - intros t' x Hx Heq. apply hash_suffix_inj in Heq as [_ Heq]; [|done|].
    + unfold slash_suffixes in Hx. rewrite !elem_of_cons, elem_of_nil in Hx.
      by destruct_or! Hx; subst.
    + clear Heq. revert x Hx. apply Forall_forall. by apply (bool_decide_unpack _).
  - intros Heq. assert (nochar hash (base +:+ "#" +:+ "hive:" +:+ t) = false) as Hc.
    { rewrite nochar_app. apply andb_false_r. }
    by rewrite Heq in Hc.
Qed.

(** Adding a row that is no marker, cursor or pending row, under an id no marker
    or cursor has, keeps the invariant. *)
Lemma inv_add now m u :
  slash_inv now m → m !! lr_Id u = None → ¬ is_cursor_row u →
  (∀ t x, x ∈ slash_suffixes → lr_Id u ≠ t +:+ x) → lr_Id u ≠ safetySlashFinalizeCursorRowID →
  (pending_row u → lr_Id u ≠ "" ∧ 0 <= lr_BlockHeight u < MaxUint64 ∧ cursor_of m <= lr_BlockHeight u ∧
                   m !! marker_id (lr_Id u) = None) →
  slash_inv now (upsert u m).
Proof.
  intros Hinv Hnone Hncur Hsfx Hcid Hpend.
  assert (∀ id r, upsert u m !! id = Some r → (id = lr_Id u ∧ r = u) ∨ (id ≠ lr_Id u ∧ m !! id = Some r)) as Hl.
  { intros id r. unfold upsert. destruct (decide (id = lr_Id u)) as [->|Hne].
    - rewrite lookup_insert_eq. intros [= <-]. by left.
    - rewrite lookup_insert_ne by done. by right. }
  assert (∀ id, upsert u m !! marker_id id = m !! marker_id id) as Hmk.
  { intros id. apply lookup_insert_ne. intros Heq. apply (Hsfx id "#finalized_marker"); [|done].
    unfold slash_suffixes. set_solver. }
  assert (cursor_of (upsert u m) = cursor_of m) as Hcur.
  { unfold cursor_of, upsert. by rewrite lookup_insert_ne. }
  split.
  - intros id r [[-> ->]|[_ Hr]]%Hl Hp; [by apply Hpend|by apply (inv_height _ _ Hinv id)].
  - intros id r [[-> ->]|[_ Hr]]%Hl Hp; [|by apply (inv_id _ _ Hinv id r)].
    split_and!; [by apply Hpend|done|]. intros x Hx. apply not_true_iff_false.
    intros [t Ht]%HasSuffix_spec. by apply (Hsfx t x).
  - intros id r [[-> ->]|[_ Hr]]%Hl Hc; [done|by apply (inv_one_cursor _ _ Hinv id r)].
  - intros id r k [[-> ->]|[_ Hr]]%Hl Hp Hk Hrow; rewrite Hmk in Hk; [|by apply (inv_marker _ _ Hinv id)].
    destruct (Hpend Hp) as (_ & _ & _ & Hn). congruence.
  - intros id r (Hr & Hp & Ha & Hmat & Hnm). rewrite Hcur.
    apply Hl in Hr as [[-> ->]|[_ Hr]]; [by apply Hpend|]. apply (inv_cursor _ _ Hinv id).
    split_and!; try done. intros (k & Hk & Hrow). apply Hnm. exists k. by rewrite Hmk.
Qed.

(** A slash with a challenge window enters the scan.  When evidence not yet
    recorded is slashed at a height at or above the cursor, with a window, the
    rows written keep the invariant, and the pending row is live, with its
    maturity the slash height plus the window (capped): the scan will find it. *)
Theorem slash_enters_scan now m p acct amt records :
  slash_inv now m → slash_params_ok p → sp_BurnDelayBlocks p ≠ 0 → 0 < amt →
  nochar hash acct = true → HasPrefix acct "hive:" = true → cursor_of m <= sp_BlockHeight p →
  m !! debit_id (slash_base (sp_TxID p) (sp_EvidenceKind p)) acct = None →
  m !! companion_id p acct = None → m !! marker_id (companion_id p acct) = None →
  slash_records p acct amt = Some records →
  slash_inv now (upserts records m) ∧
  ∃ r, live (upserts records m) (companion_id p acct) r ∧ lr_Amount r = amt ∧
    maturity r = Some (sp_BlockHeight p + Z.min (sp_BurnDelayBlocks p) MaxSafetySlashBurnDelayBlocks).
Proof.
  intros Hinv Hp Hdelay Hamt Hnc Hpre Hcur Hd Hc Hmk. pose proof Hp as (_ & _ & _ & _ & Hh & Hd0).
  unfold slash_records. cbv zeta. rewrite (proj2 (Z.ltb_lt 0 amt)), (proj2 (Z.eqb_neq _ 0)) by done.
  set (mat := sp_BlockHeight p +u64 _).
  assert (mat = sp_BlockHeight p + Z.min (sp_BurnDelayBlocks p) MaxSafetySlashBurnDelayBlocks) as Hmat.
  { unfold mat, u64_add. destruct (Z.ltb_spec MaxSafetySlashBurnDelayBlocks (sp_BurnDelayBlocks p));
      rewrite wrapu64_id; unfold MaxSafetySlashBurnDelayBlocks in *; unfold_widths; lia. }
  assert (u64 mat) as Hu by (rewrite Hmat; unfold MaxSafetySlashBurnDelayBlocks in *; unfold_widths; lia).
  destruct (mat <? sp_BlockHeight p); [done|]. intros [= <-].
  unfold companion_id in *. cbv zeta in *. rewrite (proj2 (Z.eqb_neq (sp_BurnDelayBlocks p) 0)) in * by done.
  unfold debit_id, pending_id in *. set (base := slash_base _ _) in *.
  pose proof (acct_id_fresh (base +:+ "#consensus_debit") acct Hnc Hpre) as [Hs1 Hc1].
  pose proof (acct_id_fresh (base +:+ "#hive_burn_pending") acct Hnc Hpre) as [Hs2 Hc2].
  assert (∀ b, (base +:+ b) +:+ "#" +:+ acct = base +:+ (b +:+ "#") +:+ acct) as Hassoc.
  { intros b. by rewrite !sapp_assoc. }
  rewrite !Hassoc in *.
  change ("#consensus_debit" +:+ "#") with "#consensus_debit#" in *.
  change ("#hive_burn_pending" +:+ "#") with "#hive_burn_pending#" in *.
  set (debit := row (base +:+ "#consensus_debit#" +:+ acct) _ _ _ _ _ _ _).
  set (pend := row (base +:+ "#hive_burn_pending#" +:+ acct) _ _ _ _ _ _ _).
  assert (lr_Id debit ≠ lr_Id pend) as Hne by (intros Heq%sapp_inj_l; done).
  assert (slash_inv now (upsert debit m)) as Hinv1.
  { apply inv_add; try done; [by intros (_ & ? & _)|]. by intros (_ & ? & _). }
  assert (∀ k, k ≠ lr_Id debit → upsert debit m !! k = m !! k) as Hold
    by (intros; by apply lookup_insert_ne).
  assert (cursor_of (upsert debit m) = cursor_of m) as Hcur1 by (unfold cursor_of; by rewrite Hold).
  assert (upsert debit m !! marker_id (lr_Id pend) = None) as Hmk1.
  { rewrite Hold; [done|]. intros Heq. apply (Hs1 (lr_Id pend) "#finalized_marker"); [|symmetry; exact Heq].
    unfold slash_suffixes. set_solver. }
  change (upserts [debit; pend] m) with (upsert pend (upsert debit m)). split.
  - apply inv_add; try done; [by rewrite Hold|by intros (_ & _ & ? & _)|].
    intros _. split_and!; [by apply sapp_ne_r|simpl; lia|..|done].
    + simpl. unfold MaxSafetySlashBurnDelayBlocks in *. lia.
    + rewrite Hcur1. simpl. lia.
  - exists pend. split_and!; [..|done|].
    + split_and!; [apply lookup_insert_eq|done|done| |].
      * unfold maturity. simpl. rewrite ParseUint_Trim_FormatUint by done. by eexists.
      * intros (k & Hk & _). unfold upsert at 1 in Hk. rewrite lookup_insert_ne in Hk;
          [by pose proof (eq_trans (eq_sym Hk) Hmk1)|].
        intros Heq. apply (Hs2 (lr_Id pend) "#finalized_marker"); [|done].
        unfold slash_suffixes. set_solver.
    + unfold maturity. simpl. by rewrite ParseUint_Trim_FormatUint, Hmat.
Qed.
