(* ===== verification/Reserve.v ===== *)
(** Paying out of the protocol's accounts: [ReservePayout] and
    [PendulumDistribute] of [modules/ledger-system/ledger_system.go], modelled in
    [SafetySlash.v].  The theorems show that a payout from the insurance reserve
    is all-or-nothing, cannot overdraw the reserve and can be replayed freely; and
    that a distribution from the pendulum bucket conserves value and cannot
    overdraw the bucket, but cannot be replayed once the bucket is low. *)
From S2P Require Import Prelude GoStrings LedgerDb LedgerTypes LedgerState SafetySlash.

(** The rows the reserve's balance is made of. *)
Definition reserve_query : LedgerRecord → bool :=
  in_query ProtocolSlashReserveAccount 0 maxReserveScanHeight "hive"
    [LedgerTypeSafetySlashReserve; LedgerTypeReservePayoutDebit].

Definition reserve_total (m : ledger) : Z := qsum reserve_query m.

(** The reserve without one debit. *)
Definition reserve_without (id : string) (m : ledger) : Z :=
  qsum (λ r, reserve_query r && negb (String.eqb (lr_Id r) id)) m.

(** The rows of the pendulum bucket at or below a height. *)
Definition bucket_total (height : Z) (m : ledger) : Z :=
  qsum (in_query PendulumNodesHBDBucket 0 height "hbd" []) m.

(** ** Lemmas *)

(** Leaving out one id takes away the row it has. *)
Lemma qsum_exclude q id m :
  (∀ k r, m !! k = Some r → lr_Id r = k) →
  qsum (λ r, q r && negb (String.eqb (lr_Id r) id)) m
  = qsum q m - from_option (λ r, if q r then lr_Amount r else 0) 0 (m !! id).
Proof.
  intros Hkey. destruct (m !! id) as [r|] eqn:Hr; simpl.
  - unfold qsum. rewrite !(msum_delete _ m id r Hr). rewrite (Hkey id r Hr), String.eqb_refl, andb_false_r.
    erewrite (msum_ext _ (λ r, if q r then lr_Amount r else 0)); [lia|].
    intros k r' Hr'. apply lookup_delete_Some in Hr' as [Hne Hr'].
    rewrite (Hkey k r' Hr'), (proj2 (String.eqb_neq k id)) by done. by rewrite andb_true_r.
  - rewrite Z.sub_0_r. apply qsum_ext. intros k r Hr'. rewrite (Hkey k r Hr').
    rewrite (proj2 (String.eqb_neq k id)) by congruence. apply andb_true_r.
Qed.

Section reserve.
Context {S : Type} `{LedgerDbLaws S}.
Implicit Types s : S.

Lemma reserveAvailable_spec id s :
  db_wf s → reserveAvailable id s = wrap64 (reserve_without id (rows s)).
Proof.
  intros Hwf. unfold reserveAvailable.
  rewrite (foldl_i64_weight (λ r, if String.eqb (lr_Id r) id then 0 else lr_Amount r)).
  2: done.
  2: { intros acc r Hacc. destruct (String.eqb _ _); [|done]. by rewrite i64_add_0_r. }
  apply (f_equal wrap64). rewrite Z.add_0_l. unfold reserve_without. rewrite qsum_row_list.
  rewrite range_spec by done. rewrite !zsum_filter. apply zsum_map_ext. intros r _.
  unfold reserve_query. by destruct (in_query _ _ _ _ _ r), (String.eqb (lr_Id r) id).
Qed.

(** The rows of a payout, seen from the reserve. *)
Lemma payout_reserve proposal recipient amount height m :
  (∀ k r, m !! k = Some r → lr_Id r = k) → recipient ≠ ProtocolSlashReserveAccount →
  0 <= amount <= MaxInt64 → 0 <= height <= maxReserveScanHeight →
  (∀ r, m !! (proposal +:+ "#reserve_payout#credit#" +:+ recipient) = Some r → reserve_query r = false) →
  let m' := upserts (payout_rows proposal recipient amount height) m in
  let id := proposal +:+ "#reserve_payout#debit" in
  reserve_total m' = reserve_without id m - amount ∧ reserve_without id m' = reserve_without id m.
Proof.
  intros Hkey Hrec Hamt Hh Hcred m' id.
  unfold m', payout_rows. rewrite !upserts_cons. change (upserts [] ?x) with x.
  set (debit := row _ _ _ _ _ _ _ LedgerTypeReservePayoutDebit).
  set (credit := row _ _ _ _ _ _ _ LedgerTypeReservePayoutCredit).
  assert (lr_Id debit ≠ lr_Id credit) as Hne by (intros Heq%sapp_inj_l; done).
  assert (reserve_query credit = false) as Hqc.
  { unfold reserve_query, in_query. simpl. by rewrite (proj2 (String.eqb_neq _ _)). }
  assert (reserve_query debit = true) as Hqd.
  { unfold reserve_query, in_query. simpl.
    rewrite (proj2 (Z.leb_le 0 height)), (proj2 (Z.leb_le height _)) by lia. done. }
  assert (∀ r, upsert debit m !! lr_Id credit = Some r → reserve_query r = false) as Hold.
  { intros r. unfold upsert. rewrite lookup_insert_ne by done. apply Hcred. }
  unfold reserve_total, reserve_without. split.
  - rewrite qsum_upsert_miss, qsum_upsert, Hqd, qsum_exclude by done. fold id.
    change (lr_Id debit) with id. simpl lr_Amount. rewrite i64_neg_exact by done. lia.
  - rewrite qsum_upsert_miss.
    + rewrite qsum_upsert. change (lr_Id debit) with id. rewrite String.eqb_refl, andb_false_r.
      rewrite <- (Z.sub_0_r (qsum _ m)) at 2. rewrite Z.add_0_l. f_equal.
      destruct (m !! id) as [r|] eqn:Hr; [|done]. simpl.
      by rewrite (Hkey id r Hr), String.eqb_refl, andb_false_r.
    + by rewrite Hqc.
    + intros r Hr. by rewrite (Hold r Hr).
Qed.

Lemma payout_ids proposal recipient amount height :
  Forall (λ r, lr_Id r ≠ "") (payout_rows proposal recipient amount height).
Proof. repeat constructor; by apply sapp_ne_r. Qed.

Lemma normalize_prefix a : normalizeHiveConsensusAccount a ≠ ProtocolSlashReserveAccount.
Proof.
  unfold normalizeHiveConsensusAccount. destruct (String.eqb _ ""); [done|].
  destruct (HasPrefix _ _) eqn:Hp; [|done]. intros Heq. by rewrite Heq in Hp.
Qed.
End reserve.

Section properties.
Context {S : Type} `{LedgerDbLaws S}.
Implicit Types s : S.

(** A reserve payout is all-or-nothing, never overdraws, and replays.  A
    rejected payout leaves the database alone.  An accepted one pays exactly the
    requested amount: what is left in the reserve is what it held, apart from an
    earlier application of the same proposal, minus the amount, and is not
    negative.  Applying the same proposal again is accepted again and changes no
    row, so nothing is paid twice. *)
Theorem payout_never_overdraws p s r s' :
  let proposal := TrimSpace (pay_ProposalID p) in
  let recipient := normalizeHiveConsensusAccount (pay_Recipient p) in
  let id := proposal +:+ "#reserve_payout#debit" in
  db_wf s → pay_Amount p <= MaxInt64 → 0 <= pay_BlockHeight p <= maxReserveScanHeight →
  i64 (reserve_without id (rows s)) →
  (∀ x, rows s !! (proposal +:+ "#reserve_payout#credit#" +:+ recipient) = Some x → reserve_query x = false) →
  ReservePayout p s = (r, s') →
  if Ok r then
    db_wf s' ∧ 0 <= reserve_total (rows s') ∧
    reserve_total (rows s') = reserve_without id (rows s) - pay_Amount p ∧
    rows s' = upserts (payout_rows proposal recipient (pay_Amount p) (pay_BlockHeight p)) (rows s) ∧
    ∃ s'', ReservePayout p s' = (r, s'') ∧ rows s'' = rows s'
  else s' = s.
Proof.
  intros proposal recipient id Hwf Hmax Hh Hfit Hcred.
  unfold ReservePayout. cbv zeta. fold proposal recipient. fold id.
  destruct (_ || _) eqn:Hpar; [by intros [= <- <-]|].
  destruct (Z.leb_spec (pay_Amount p) 0) as [|Hpos]; [by intros [= <- <-]|].
  rewrite reserveAvailable_spec, wrap64_id by done.
  destruct (Z.leb_spec (reserve_without id (rows s)) 0) as [|Hav]; [by intros [= <- <-]|].
  destruct (Z.ltb_spec (reserve_without id (rows s)) (pay_Amount p)) as [|Hle]; [by intros [= <- <-]|].
  intros [= <- <-]. cbn [Ok].
  set (prows := payout_rows _ _ _ _).
  destruct (storeLedgerOrFail_spec prows s Hwf (payout_ids _ _ _ _)) as [Hwf' Hrows].
  destruct (payout_reserve proposal recipient (pay_Amount p) (pay_BlockHeight p) (rows s)
              (λ k r, rows_keyed s k r Hwf) (normalize_prefix _) ltac:(lia) Hh Hcred) as [Htot Hwo].
  fold id in Htot, Hwo. fold prows in Htot, Hwo. rewrite <- Hrows in Htot, Hwo.
  split; [done|]. split; [lia|]. split; [done|]. split; [done|].
  rewrite reserveAvailable_spec, Hwo, wrap64_id by done.
  rewrite (proj2 (Z.leb_gt _ 0)), (proj2 (Z.ltb_ge _ (pay_Amount p))) by lia.
  eexists. split; [done|].
  destruct (storeLedgerOrFail_spec prows _ Hwf' (payout_ids _ _ _ _)) as [_ ->].
  rewrite Hrows. apply upserts_idem.
Qed.

(** The effect of the two rows of a distribution on the bucket. *)
Lemma distribute_bucket toAccount txID amount bh m :
  (∀ r, r ∈ distribute_rows toAccount txID amount bh → m !! lr_Id r = None) →
  toAccount ≠ PendulumNodesHBDBucket → 0 <= amount <= MaxInt64 → 0 <= bh →
  bucket_total bh (upserts (distribute_rows toAccount txID amount bh) m) = bucket_total bh m - amount.
Proof.
  intros Hfresh Hto Hamt Hbh. unfold bucket_total. rewrite qsum_upserts_fresh; [|..|done].
  - unfold distribute_rows, in_query. csimpl.
    rewrite (proj2 (String.eqb_neq toAccount _)), (proj2 (Z.leb_le 0 bh)), Z.leb_refl by done.
    simpl. rewrite i64_neg_exact by done. lia.
  - csimpl. apply NoDup_cons. split; [|apply NoDup_singleton]. rewrite list_elem_of_singleton.
    intros Heq%sapp_inj_l. done.
Qed.

Lemma bucket_read bh s :
  db_wf s → PendulumBucketBalance false PendulumNodesHBDBucket bh s = wrap64 (bucket_total bh (rows s)).
Proof.
  intros Hwf. unfold PendulumBucketBalance, bucket_total.
  rewrite (proj2 (String.eqb_neq (TrimSpace PendulumNodesHBDBucket) "")) by by vm_compute.
  rewrite (foldl_i64_weight lr_Amount) by done. rewrite Z.add_0_l. apply (f_equal wrap64).
  rewrite range_spec by done. by rewrite qsum_row_list.
Qed.

(** A distribution conserves value and cannot overdraw the bucket.  When a
    distribution of a fresh settlement id reports success, the bucket holds the
    amount less and is not negative, and the recipient's row credits exactly the
    amount; when it reports anything but a write error, nothing was written. *)
Theorem distribute_conserves toAccount amount txID bh s r s' :
  db_wf s → amount <= MaxInt64 → 0 <= bh → i64 (bucket_total bh (rows s)) →
  toAccount ≠ PendulumNodesHBDBucket →
  (∀ x, x ∈ distribute_rows toAccount txID amount bh → rows s !! lr_Id x = None) →
  PendulumDistribute false toAccount amount txID bh s = (r, s') →
  (Ok r = true →
     0 <= bucket_total bh (rows s') ∧ bucket_total bh (rows s') = bucket_total bh (rows s) - amount ∧
     ∃ c, rows s' !! (txID +:+ "#distribute_credit#" +:+ toAccount) = Some c ∧
          lr_Owner c = toAccount ∧ lr_Asset c = "hbd" ∧ lr_Amount c = amount) ∧
  (Ok r = false → Msg r = "ledger write failed" ∨ s' = s).
Proof.
  intros Hwf Hmax Hbh Hfit Hto Hfresh. unfold PendulumDistribute.
  destruct (String.eqb (TrimSpace toAccount) ""); [intros [= <- <-]; split; [done|by right]|].
  destruct (Z.leb_spec amount 0) as [|Hpos]; [intros [= <- <-]; split; [done|by right]|].
  destruct (String.eqb txID ""); [intros [= <- <-]; split; [done|by right]|].
  cbv zeta. rewrite bucket_read, wrap64_id by done.
  destruct (Z.ltb_spec (bucket_total bh (rows s)) amount); [intros [= <- <-]; split; [done|by right]|].
  destruct (StoreLedger _ s) as [s1 ok] eqn:Hst.
  destruct ok; intros [= <- <-]; [|split; [done|by left]]. split; [|done]. intros _.
  assert (Forall (λ r, lr_Id r ≠ "") (distribute_rows toAccount txID amount bh)) as Hne
    by (repeat constructor; by apply sapp_ne_r).
  destruct (store_spec _ _ _ _ Hwf Hne Hst) as (k & _ & Hrows & Hk & _).
  rewrite take_ge in Hrows by lia. rewrite Hrows, distribute_bucket by (done || lia).
  split; [lia|]. split; [done|].
  exists (row (txID +:+ "#distribute_credit#" +:+ toAccount) txID bh amount "hbd" toAccount ""
            "pendulum_distribute"). split; [|by repeat split].
  unfold distribute_rows. rewrite !upserts_cons. apply lookup_insert_eq.
Qed.

(** A distribution cannot be replayed: once it has succeeded and less than its
    amount is left in the bucket, the same call is refused, because the balance
    check counts the debit it has already written. *)
Lemma distribute_not_replayable toAccount amount txID bh s r s' :
  db_wf s → amount <= MaxInt64 → 0 <= bh → i64 (bucket_total bh (rows s)) →
  toAccount ≠ PendulumNodesHBDBucket →
  (∀ x, x ∈ distribute_rows toAccount txID amount bh → rows s !! lr_Id x = None) →
  PendulumDistribute false toAccount amount txID bh s = (r, s') → Ok r = true →
  bucket_total bh (rows s) < 2 * amount →
  PendulumDistribute false toAccount amount txID bh s'
  = (fail "insufficient pendulum nodes bucket balance", s').
Proof.
  intros Hwf Hmax Hbh Hfit Hto Hfresh. unfold PendulumDistribute.
  destruct (String.eqb (TrimSpace toAccount) ""); [by intros [= <- <-]|].
  destruct (Z.leb_spec amount 0) as [|Hpos]; [by intros [= <- <-]|].
  destruct (String.eqb txID ""); [by intros [= <- <-]|].
  cbv zeta. rewrite bucket_read, wrap64_id by done.
  destruct (Z.ltb_spec (bucket_total bh (rows s)) amount); [by intros [= <- <-]|].
  destruct (StoreLedger _ s) as [s1 ok] eqn:Hst. destruct ok; intros [= <- <-]; [|done]. intros _ Hlow.
  assert (Forall (λ r, lr_Id r ≠ "") (distribute_rows toAccount txID amount bh)) as Hne
    by (repeat constructor; by apply sapp_ne_r).
  destruct (store_spec _ _ _ _ Hwf Hne Hst) as (k & Hwf1 & Hrows & Hk & _).
  rewrite take_ge in Hrows by lia.
  rewrite bucket_read, Hrows, distribute_bucket, wrap64_id by (done || unfold_widths; lia).
  by rewrite (proj2 (Z.ltb_lt _ amount)) by lia.
Qed.
End properties.
