(* ===== verification/Interest.v ===== *)
(** The distribution of savings interest: [modules/ledger-system/hbd_interest_math.go]
    and [ClaimHBDInterest] of [ledger_system.go].

    Interest paid to the gateway wallet is shared among the accounts in
    proportion to their time-weighted average savings.  The accounts come from
    the balance database in no defined order and the claim may be processed again
    after a restart; the theorems show that the shares never exceed the interest,
    that the ledger after a claim does not depend on the order of the accounts,
    and that processing a claim again changes nothing.

    The floating-point statistic [ObservedApr] of the claim record is left out. *)
From S2P Require Import Prelude GoStrings IntMath LedgerDb LedgerTypes.

(** ** Shares *)

(** [None] stands for [ok = false]. *)
Definition computeEndingAvg (hbdAvg hbdSavings a b : Z) : option Z :=
  if b =? 0 then None
  else
    let out := Z.quot (hbdSavings * a + hbdAvg) b in
    if IsInt64 out then Some out else None.

Definition computeDistributeAmount (hbdAvg amount totalAvg : Z) : option Z :=
  if totalAvg <=? 0 then None
  else
    let out := Z.quot (hbdAvg * amount) totalAvg in
    if IsInt64 out then Some out else None.

Definition set_HBD_AVG (avg : Z) (b : BalanceRecord) : BalanceRecord :=
  mkBalanceRecord (br_Account b) (br_BlockHeight b) (br_Hive b) (br_HIVE_CONSENSUS b) (br_HBD b)
    (br_HBD_SAVINGS b) avg (br_HBD_CLAIM_HEIGHT b) (br_HBD_MODIFY_HEIGHT b).

(** One round of the first loop: the record with its average, if it takes part. *)
Definition average (blockHeight : Z) (balance : BalanceRecord) : option BalanceRecord :=
  if blockHeight <=? br_HBD_CLAIM_HEIGHT balance then None
  else
    let B := blockHeight -u64 br_HBD_CLAIM_HEIGHT balance in
    if B =? 0 then None
    else if blockHeight <=? br_HBD_MODIFY_HEIGHT balance then None
    else
      let A := blockHeight -u64 br_HBD_MODIFY_HEIGHT balance in
      endingAvg ← computeEndingAvg (br_HBD_AVG balance) (br_HBD_SAVINGS balance) (wrap64 A) (wrap64 B);
      if endingAvg <? 1 then None else Some (set_HBD_AVG endingAvg balance).

Definition processed (blockHeight : Z) (balances : list BalanceRecord) : list BalanceRecord :=
  omap (average blockHeight) balances.

(** [big.Int] accumulator of the averages. *)
Definition totalAvg (l : list BalanceRecord) : Z := zsum (br_HBD_AVG <$> l).

Record interestCredit := mkInterestCredit {
  ic_account : string;
  ic_owner : string;
  ic_amount : Z;
}.

(** One round of the second loop. *)
Definition credit_of (amount total : Z) (balance : BalanceRecord) : option interestCredit :=
  distributeAmt ← computeDistributeAmount (br_HBD_AVG balance) amount total;
  if distributeAmt <=? 0 then None
  else if HasPrefix (br_Account balance) "system:" then
    if String.eqb (br_Account balance) "system:fr_balance"
    then Some (mkInterestCredit (br_Account balance) DAO_WALLET distributeAmt)
    else None
  else Some (mkInterestCredit (br_Account balance) (br_Account balance) distributeAmt).

Definition credits (amount : Z) (l : list BalanceRecord) : list interestCredit :=
  omap (credit_of amount (totalAvg l)) l.

(** The owners, each once, in the order they first appear. *)
Definition add_owner (owners : list string) (c : interestCredit) : list string :=
  if slices_Contains owners (ic_owner c) then owners else owners ++ [ic_owner c].

Definition owners_of (cs : list interestCredit) : list string := foldl add_owner [] cs.

Definition interest_row (blockHeight : Z) (txId : string) (c : interestCredit) : LedgerRecord :=
  row ("hbd_interest_" +:+ Itoa (wrap64 blockHeight) +:+ "_" +:+ txId +:+ "#" +:+ ic_account c) ""
    (blockHeight +u64 1) (ic_amount c) "hbd_savings" (ic_owner c) "" "interest".

Section claim.
Context {S : Type} `{LedgerDb S}.
Implicit Types s : S.

(** The claim records are appended to the claim database. *)
Definition ClaimHBDInterest (GetAll : Z → list BalanceRecord) (lastClaim blockHeight amount : Z)
    (txId : string) (state : S * list ClaimRecord) : S * list ClaimRecord :=
  let '(s, claims) := state in
  let ledgerBalances := GetAll blockHeight in
  let processedBalRecords := processed blockHeight ledgerBalances in
  let cs := credits amount processedBalRecords in
  let s := if bool_decide (cs = []) then s
           else if bool_decide (owners_of cs = []) then s
           else DeleteLegacyInterestRecords (blockHeight +u64 1) (owners_of cs) s in
  let '(s, distributed) :=
    foldl (λ '(s, distributed) c,
             (storeLedgerOrFail [interest_row blockHeight txId c] s, distributed +64 ic_amount c))
      (s, 0) cs in
  (s, claims ++ [mkClaimRecord blockHeight distributed txId (Z.of_nat (length processedBalRecords))]).
End claim.

(** ** Lemmas: shares *)

Lemma average_pos bh b b' : average bh b = Some b' → 1 <= br_HBD_AVG b' <= MaxInt64 ∧ br_Account b' = br_Account b.
Proof.
  unfold average. destruct (_ <=? _); [done|]. cbv zeta. destruct (_ =? _); [done|].
  destruct (_ <=? _); [done|]. unfold computeEndingAvg. destruct (_ =? 0); [done|]. cbv zeta.
  destruct (IsInt64 _) eqn:Hi; [|done]. cbn [mbind option_bind].
  match goal with |- context [?z <? 1] => destruct (Z.ltb_spec z 1) end; [done|].
  intros [= <-]. cbn [br_HBD_AVG set_HBD_AVG br_Account]. apply IsInt64_spec in Hi.
  split; [|done]. unfold i64 in Hi. lia.
Qed.

Lemma processed_avg bh l : Forall (λ b, 1 <= br_HBD_AVG b <= MaxInt64) (processed bh l).
Proof.
  unfold processed. apply Forall_forall. intros b (x & _ & Hx)%list_elem_of_omap.
  by apply average_pos in Hx as [? _].
Qed.

Lemma processed_accounts bh l : NoDup (br_Account <$> l) → NoDup (br_Account <$> processed bh l).
Proof.
  unfold processed. induction l as [|b l IH]; csimpl; [done|]. intros [Hb Hl]%NoDup_cons.
  destruct (average bh b) as [b'|] eqn:Ha; [|by apply IH].
  csimpl. apply NoDup_cons. split; [|by apply IH].
  apply average_pos in Ha as [_ Hacc]. rewrite Hacc.
  intros (x & Hx & (y & Hy & Hav)%list_elem_of_omap)%list_elem_of_fmap.
  apply average_pos in Hav as [_ Hav]. apply Hb. rewrite Hx, Hav. by apply list_elem_of_fmap_2.
Qed.

(** A credit is the floor share of its account. *)
Lemma credit_of_share amount l b c :
  i64 amount → Forall (λ b, 1 <= br_HBD_AVG b <= MaxInt64) l → b ∈ l →
  credit_of amount (totalAvg l) b = Some c →
  ic_account c = br_Account b ∧ 0 < amount ∧ ic_amount c = amount * br_HBD_AVG b / totalAvg l ∧ 0 < ic_amount c.
Proof.
  intros Ha Hl Hb. unfold credit_of, computeDistributeAmount.
  destruct (Z.leb_spec (totalAvg l) 0); [done|]. cbv zeta.
  destruct (IsInt64 _); [|done]. cbn [mbind option_bind].
  destruct (Z.leb_spec (Z.quot (br_HBD_AVG b * amount) (totalAvg l)) 0) as [|Hpos]; [done|].
  rewrite Forall_forall in Hl. specialize (Hl b Hb).
  assert (0 < amount).
  { destruct (Z.le_gt_cases amount 0) as [Hneg|]; [|done].
    pose proof (Z.quot_opp_l (- (br_HBD_AVG b * amount)) (totalAvg l) ltac:(lia)) as Hq.
    rewrite Z.opp_involutive in Hq.
    pose proof (Z.quot_pos (- (br_HBD_AVG b * amount)) (totalAvg l) ltac:(nia) ltac:(lia)). lia. }
  rewrite Z.quot_div_nonneg in * by nia. rewrite (Z.mul_comm (br_HBD_AVG b)) in *.
  destruct (HasPrefix _ _); [destruct (String.eqb _ _); [|done]|]; by intros [= <-].
Qed.

Lemma totalAvg_pos l b :
  Forall (λ b, 1 <= br_HBD_AVG b <= MaxInt64) l → b ∈ l → 0 < totalAvg l.
Proof.
  intros Hl Hb. destruct l as [|x l]; [by apply elem_of_nil in Hb|]. clear Hb.
  apply Forall_cons in Hl as [Hx Hl]. unfold totalAvg. csimpl.
  assert (0 <= zsum (br_HBD_AVG <$> l)); [|lia].
  apply zsum_nonneg, Forall_fmap. eapply Forall_impl; [exact Hl|]. simpl. lia.
Qed.

(** Leaving accounts out of the credits only lowers their sum. *)
Lemma credits_below amount l k :
  i64 amount → Forall (λ b, 1 <= br_HBD_AVG b <= MaxInt64) l → 0 <= amount → k ⊆ l →
  0 <= zsum (ic_amount <$> omap (credit_of amount (totalAvg l)) k)
    <= zsum ((λ b, amount * br_HBD_AVG b / totalAvg l) <$> k).
Proof.
  intros Ha Hl Hpos. induction k as [|b k IH]; intros Hsub; csimpl; [lia|].
  assert (b ∈ l) as Hb by (apply Hsub; by left).
  destruct IH as [IH1 IH2]; [intros x Hx; apply Hsub; by right|].
  assert (0 <= amount * br_HBD_AVG b / totalAvg l) as Hnn.
  { pose proof (totalAvg_pos l b Hl Hb). rewrite Forall_forall in Hl. specialize (Hl b Hb).
    apply Z.div_pos; nia. }
  destruct (credit_of _ _ b) as [c|] eqn:Hc; csimpl; [|lia].
  apply (credit_of_share amount l b c Ha Hl Hb) in Hc as (_ & _ & -> & _). lia.
Qed.

Lemma credits_sum amount l :
  i64 amount → Forall (λ b, 1 <= br_HBD_AVG b <= MaxInt64) l →
  0 <= zsum (ic_amount <$> credits amount l) <= Z.max 0 amount.
Proof.
  intros Ha Hl. unfold credits. destruct (Z.le_gt_cases amount 0) as [Hneg|Hpos].
  { assert (omap (credit_of amount (totalAvg l)) l = []) as ->; [|simpl; lia].
    apply elem_of_nil_inv. intros c (b & Hb & Hc)%list_elem_of_omap.
    apply (credit_of_share amount l b c Ha Hl Hb) in Hc as (_ & ? & _). lia. }
  pose proof (credits_below amount l l Ha Hl ltac:(lia) ltac:(done)) as Hk.
  destruct l as [|b l']; [simpl; lia|]. set (l := b :: l') in *.
  pose proof (totalAvg_pos l b Hl ltac:(by left)) as Htot.
  destruct (zsum_floor_shares_le amount (totalAvg l) (br_HBD_AVG <$> l)) as [_ Hle]; [lia|done| |done|].
  { apply Forall_fmap. eapply Forall_impl; [exact Hl|]. simpl. lia. }
  rewrite <- list_fmap_compose in Hle. unfold compose in Hle. lia.
Qed.

(** ** Lemmas: the rows of a claim *)

Definition kept (bh : Z) (cs : list interestCredit) (r : LedgerRecord) : Prop :=
  legacy_interest (bh +u64 1) (ic_owner <$> cs) r = false.

#[export] Instance kept_dec bh cs r : Decision (kept bh cs r).
Proof. unfold kept. apply _. Defined.

Lemma owners_of_spec cs o : o ∈ owners_of cs ↔ o ∈ ic_owner <$> cs.
Proof.
  assert (∀ acc, o ∈ foldl add_owner acc cs ↔ o ∈ acc ∨ o ∈ ic_owner <$> cs) as Hgen.
  { induction cs as [|c cs IH]; intros acc; cbn [foldl]; [set_solver|]. rewrite IH, fmap_cons.
    unfold add_owner. destruct (slices_Contains acc (ic_owner c)) eqn:Hc.
    - apply slices_Contains_spec in Hc. set_solver.
    - set_solver. }
  unfold owners_of. rewrite Hgen. set_solver.
Qed.

Lemma legacy_owners bh os os' r :
  (∀ o, o ∈ os ↔ o ∈ os') → legacy_interest bh os r = legacy_interest bh os' r.
Proof.
  intros Ho. unfold legacy_interest. f_equal. apply eq_true_iff_eq. by rewrite !slices_Contains_spec.
Qed.

Lemma interest_row_kept bh bh' tx cs c : kept bh' cs (interest_row bh tx c).
Proof.
  unfold kept, legacy_interest, interest_row. cbn [row lr_Id lr_Type lr_BlockHeight lr_Owner].
  rewrite <- !sapp_assoc, sapp_assoc, Contains_app. simpl. by rewrite andb_false_r.
Qed.

Lemma interest_ids bh tx cs :
  NoDup (ic_account <$> cs) → NoDup (lr_Id <$> (interest_row bh tx <$> cs)).
Proof.
  intros Hnd. rewrite <- list_fmap_compose.
  apply (NoDup_fmap_2_strong _ cs); [|by apply (NoDup_fmap_1 ic_account)].
  intros a b Ha Hb Heq. unfold compose, interest_row in Heq. cbn [row lr_Id] in Heq.
  do 5 apply sapp_inj_l in Heq.
  clear -Hnd Ha Hb Heq. induction cs as [|c cs IH]; [by apply elem_of_nil in Ha|].
  rewrite fmap_cons in Hnd. apply NoDup_cons in Hnd as [Hc Hnd].
  apply elem_of_cons in Ha as [->|Ha], Hb as [->|Hb]; [done| | |by apply IH].
  - destruct Hc. rewrite Heq. by apply list_elem_of_fmap_2.
  - destruct Hc. rewrite <- Heq. by apply list_elem_of_fmap_2.
Qed.

Lemma credits_accounts amount l :
  NoDup (br_Account <$> l) → NoDup (ic_account <$> credits amount l).
Proof.
  unfold credits. generalize (totalAvg l) as t. intros t.
  assert (∀ b c, credit_of amount t b = Some c → ic_account c = br_Account b) as Hacc.
  { intros b c. unfold credit_of. destruct (computeDistributeAmount _ _ _); [|done]. cbn [mbind option_bind].
    destruct (_ <=? 0); [done|]. destruct (HasPrefix _ _); [destruct (String.eqb _ _); [|done]|];
      by intros [= <-]. }
  induction l as [|b l IH]; csimpl; [done|]. intros [Hb Hl]%NoDup_cons.
  destruct (credit_of amount t b) as [c|] eqn:Hc; [|by apply IH].
  csimpl. apply NoDup_cons. split; [|by apply IH]. rewrite (Hacc _ _ Hc).
  intros (x & Hx & (y & Hy & Hav)%list_elem_of_omap)%list_elem_of_fmap. apply Hb.
  rewrite Hx, (Hacc _ _ Hav). by apply list_elem_of_fmap_2.
Qed.

Section claim_facts.
Context {S : Type} `{LedgerDbLaws S}.
Implicit Types s : S.

Lemma write_loop bh tx cs s d :
  db_wf s →
  let '(s', d') := foldl (λ '(s, distributed) c,
      (storeLedgerOrFail [interest_row bh tx c] s, distributed +64 ic_amount c)) (s, d) cs in
  db_wf s' ∧ rows s' = upserts (interest_row bh tx <$> cs) (rows s) ∧
  d' = foldl i64_add d (ic_amount <$> cs).
Proof.
  revert s d. induction cs as [|c cs IH]; intros s d Hwf; [done|]. cbn [foldl].
  assert (Forall (λ r, lr_Id r ≠ "") [interest_row bh tx c]) as Hne by (constructor; [done|constructor]).
  destruct (storeLedgerOrFail_spec [interest_row bh tx c] s Hwf Hne) as [Hwf1 Hrows1].
  specialize (IH _ (d +64 ic_amount c) Hwf1). destruct (foldl _ _ cs) as [s' d'].
  destruct IH as (Hwf' & Hrows & Hd). split_and!; [done| |done].
  by rewrite Hrows, Hrows1.
Qed.

(** The whole claim: legacy rows of the credited owners go, one row per credit
    comes, and the claim record carries the sum of the credits. *)
Lemma claim_rows GetAll last bh amount tx s claims :
  db_wf s →
  let '(s', claims') := ClaimHBDInterest GetAll last bh amount tx (s, claims) in
  let cs := credits amount (processed bh (GetAll bh)) in
  db_wf s' ∧ rows s' = upserts (interest_row bh tx <$> cs) (filter (λ ir, kept bh cs ir.2) (rows s)) ∧
  claims' = claims ++ [mkClaimRecord bh (sum64 (ic_amount <$> cs)) tx
                         (Z.of_nat (length (processed bh (GetAll bh))))].
Proof.
  intros Hwf. unfold ClaimHBDInterest. cbv zeta. set (cs := credits _ _).
  set (s1 := if bool_decide _ then _ else _).
  assert (db_wf s1 ∧ rows s1 = filter (λ ir, kept bh cs ir.2) (rows s)) as [Hwf1 Hrows1].
  { unfold s1. destruct (bool_decide (cs = [])) eqn:Hcs.
    { apply bool_decide_eq_true_1 in Hcs. split; [done|]. rewrite Hcs. symmetry. apply map_filter_id.
      intros k r _. unfold kept, legacy_interest. by rewrite andb_false_r. }
    apply bool_decide_eq_false_1 in Hcs. rewrite bool_decide_eq_false_2.
    - destruct (delete_spec (bh +u64 1) (owners_of cs) s Hwf) as [Hw Hr]. split; [done|]. rewrite Hr.
      apply map_filter_ext. intros k r _. simpl. unfold kept.
      by rewrite (legacy_owners _ (owners_of cs) (ic_owner <$> cs)) by (intros; apply owners_of_spec).
    - intros Hno. destruct cs as [|c cs']; [done|].
      assert (ic_owner c ∈ owners_of (c :: cs')) as Hin by (apply owners_of_spec; by left).
      rewrite Hno in Hin. by apply elem_of_nil in Hin. }
  pose proof (write_loop bh tx cs s1 0 Hwf1) as Hloop.
  destruct (foldl _ _ cs) as [s2 d]. destruct Hloop as (Hwf2 & Hrows2 & ->).
  split_and!; [done| |done]. by rewrite Hrows2, Hrows1.
Qed.

(** ** Properties *)

(** Interest is never overpaid, and the claim record tells the truth.  For
    any balances and any interest amount, the ledger gains exactly one row per
    credit, every credit is the positive floor share of its account, the credits
    sum to at most the amount, and the amount saved in the claim record is that
    sum, without overflow. *)
Theorem interest_never_overpays GetAll lastClaim bh amount tx s claims :
  db_wf s → i64 amount →
  let bals := processed bh (GetAll bh) in
  let cs := credits amount bals in
  let '(s', claims') := ClaimHBDInterest GetAll lastClaim bh amount tx (s, claims) in
  rows s' = upserts (interest_row bh tx <$> cs) (filter (λ ir, kept bh cs ir.2) (rows s)) ∧
  Forall (λ c, 0 < ic_amount c ∧ ∃ b, b ∈ bals ∧ br_Account b = ic_account c ∧
                 ic_amount c = amount * br_HBD_AVG b / totalAvg bals) cs ∧
  zsum (ic_amount <$> cs) <= Z.max 0 amount ∧
  ∃ c, claims' = claims ++ [c] ∧ cr_Amount c = zsum (ic_amount <$> cs).
Proof.
  intros Hwf Ha bals cs. pose proof (claim_rows GetAll lastClaim bh amount tx s claims Hwf) as Hc.
  destruct (ClaimHBDInterest _ _ _ _ _ _) as [s' claims']. destruct Hc as (_ & Hrows & ->).
  pose proof (credits_sum amount bals Ha (processed_avg _ _)) as Hsum.
  split_and!; [done| |apply Hsum|eexists; split; [done|]].
  - apply Forall_forall. intros c (b & Hb & Hc)%list_elem_of_omap.
    destruct (credit_of_share amount bals b c Ha (processed_avg _ _) Hb Hc) as (Hacc & _ & Hamt & Hp).
    split; [done|]. by exists b.
  - cbn [cr_Amount]. apply sum64_exact. 
    change (credits amount bals) with cs in Hsum. fold bals cs. unfold i64, MinInt64, MaxInt64 in *. lia.
Qed.

(** The ledger after an interest claim does not depend on the order in which
    the database lists the accounts.  Two nodes whose account lists are
    permutations of each other, with no account twice, end with the same rows and
    the same claim record. *)
Theorem interest_order_independent GetAll GetAll' lastClaim bh amount tx s claims :
  db_wf s → GetAll bh ≡ₚ GetAll' bh → NoDup (br_Account <$> GetAll bh) →
  let '(s1, claims1) := ClaimHBDInterest GetAll lastClaim bh amount tx (s, claims) in
  let '(s2, claims2) := ClaimHBDInterest GetAll' lastClaim bh amount tx (s, claims) in
  rows s1 = rows s2 ∧ claims1 = claims2.
Proof.
  intros Hwf Hp Hnd.
  pose proof (claim_rows GetAll lastClaim bh amount tx s claims Hwf) as H1.
  pose proof (claim_rows GetAll' lastClaim bh amount tx s claims Hwf) as H2.
  destruct (ClaimHBDInterest GetAll _ _ _ _ _) as [s1 c1], (ClaimHBDInterest GetAll' _ _ _ _ _) as [s2 c2].
  destruct H1 as (_ & -> & ->), H2 as (_ & -> & ->).
  assert (processed bh (GetAll bh) ≡ₚ processed bh (GetAll' bh)) as Hpr by (unfold processed; by rewrite Hp).
  assert (credits amount (processed bh (GetAll bh)) ≡ₚ credits amount (processed bh (GetAll' bh))) as Hcr.
  { unfold credits. replace (totalAvg (processed bh (GetAll' bh))) with (totalAvg (processed bh (GetAll bh)));
      [by apply omap_Permutation|]. unfold totalAvg. apply zsum_Permutation. by rewrite Hpr. }
  pose proof (credits_accounts amount _ (processed_accounts bh _ Hnd)) as Hids.
  split; [|by rewrite (sum64_Permutation _ _ (fmap_Permutation ic_amount _ _ Hcr)), Hpr].
  rewrite (upserts_Permutation _ (interest_row bh tx <$> credits amount (processed bh (GetAll' bh))));
    [|by apply interest_ids|by rewrite Hcr].
  f_equal. apply map_filter_ext. intros k r _. simpl. unfold kept. erewrite legacy_owners; [done|].
  intros o. by rewrite Hcr.
Qed.

(** Processing an interest claim again, on the ledger it has already written,
    changes no row: the rows carry the account in their id and the sweep of the
    old-format rows never touches them. *)
Theorem interest_reprocess_idempotent GetAll lastClaim bh amount tx s claims :
  db_wf s →
  let '(s1, claims1) := ClaimHBDInterest GetAll lastClaim bh amount tx (s, claims) in
  let '(s2, _) := ClaimHBDInterest GetAll lastClaim bh amount tx (s1, claims1) in
  rows s2 = rows s1.
Proof.
  intros Hwf. pose proof (claim_rows GetAll lastClaim bh amount tx s claims Hwf) as H1.
  destruct (ClaimHBDInterest _ _ _ _ _ (s, _)) as [s1 c1]. destruct H1 as (Hwf1 & Hr1 & _).
  pose proof (claim_rows GetAll lastClaim bh amount tx s1 c1 Hwf1) as H2.
  destruct (ClaimHBDInterest _ _ _ _ _ (s1, _)) as [s2 c2]. destruct H2 as (_ & -> & _).
  rewrite Hr1. rewrite (filter_upserts (kept bh _)).
  - rewrite upserts_idem. f_equal. rewrite map_filter_filter_l; [done|]. by intros.
  - apply Forall_forall. intros r (c & -> & _)%list_elem_of_fmap. apply interest_row_kept.
Qed.
End claim_facts.
