(* ===== verification/Quorum.v ===== *)
(** The gateway multisig quorum, [modules/gateway/quorum.go], the signer
    selection of [keyRotation] and the signature collection of [waitForSigs] in
    [multisig.go], and the signature checks of [utils.go].

    The gateway wallet on Hive is controlled by the keys of the elected
    witnesses, weighted by their stake.  Every node rebuilds the same authority
    from the election, so the apportionment of weights has to be a function of
    the stakes alone; the threshold has to be a supermajority of what was
    assigned; and a signer must not be counted twice.  Key recovery, key
    decoding and the group order belong to libraries outside the sources and are
    parameters. *)
From S2P Require Import Prelude GoStrings IntMath.

Definition MAX_GATEWAY_KEYS : nat := 40.
Definition MIN_GATEWAY_KEYS : nat := 8.
Definition GATEWAY_WEIGHT_SCALE : Z := 10000.
Definition uint16Max : Z := 65535.

(** ** Thresholds *)

Definition gatewayWeightThreshold (totalWeight : Z) : Z :=
  if totalWeight <=? 0 then 0 else Z.quot (totalWeight *64 2 +64 2) 3.

Definition weightMeetsThreshold (collected threshold : Z) : bool :=
  (0 <? threshold) && (wrapu64 threshold <=? collected).

(** ** Weights *)

(** One entry of the apportionment. *)
Record part := mkPart {
  part_idx : nat;
  part_base : Z;
  part_rem : Z;
  part_account : string;
}.

Definition mk_part (scale total : Z) (i : nat) (sa : Z * string) : part :=
  let prod := sa.1 * scale in
  mkPart i (prod / total) (prod mod total) sa.2.

(** The order of the leftover units: larger remainder first, then the account. *)
Definition part_le (a b : part) : Prop :=
  part_rem b < part_rem a ∨ (part_rem a = part_rem b ∧ String.le (part_account a) (part_account b)).

#[export] Instance part_le_dec : RelDecision part_le.
Proof. intros a b. unfold part_le. apply _. Defined.

Definition clamp (w : Z) : Z :=
  let w := if w <? 1 then 1 else w in
  if uint16Max <? w then uint16Max else w.

(** The units each index gets before clamping: its base, and one more for the
    first [deficit] parts in the order. *)
Definition apportion (scale : Z) (parts : list part) : part → Z :=
  let assigned := foldl (λ acc p, acc +u64 part_base p) 0 parts in
  let deficit := if assigned <? scale then scale -u64 assigned else 0 in
  let order := merge_sort part_le parts in
  let lucky := take (Z.to_nat deficit) order in
  λ p, if bool_decide (part_idx p ∈ part_idx <$> lucky) then part_base p +u64 1 else part_base p.

Definition quantizeStakeWeights (stakes : list Z) (accounts : list string) (scale : Z) : list Z :=
  let total := zsum stakes in
  if total =? 0 then replicate (length stakes) 1
  else
    let parts := imap (mk_part scale total) (zip stakes accounts) in
    let w := apportion scale parts in
    (λ p, clamp (w p)) <$> parts.

Definition gatewayKeyWeights (stakes : list Z) (accounts : list string) (scale : Z) (equalWhenFlat : bool)
    : list Z :=
  match stakes with
  | s0 :: _ =>
      if equalWhenFlat && negb (existsb (λ s, negb (s =? s0)) stakes)
      then replicate (length stakes) 1
      else quantizeStakeWeights stakes accounts scale
  | [] => quantizeStakeWeights stakes accounts scale
  end.

(** ** Signer selection *)

Record gwMember := mkGwMember {
  gw_account : string;
  gw_key : string;
  gw_stake : Z;
}.

(** Stake descending, then account. *)
Definition member_le (a b : gwMember) : Prop :=
  gw_stake b < gw_stake a ∨ (gw_stake a = gw_stake b ∧ String.le (gw_account a) (gw_account b)).

#[export] Instance member_le_dec : RelDecision member_le.
Proof. intros a b. unfold member_le. apply _. Defined.

(** Keep the first member with each key. *)
Fixpoint dedup_keys (seen : list string) (l : list gwMember) : list gwMember :=
  match l with
  | [] => []
  | m :: l => if slices_Contains seen (gw_key m) then dedup_keys seen l
              else m :: dedup_keys (gw_key m :: seen) l
  end.

Section selection.
(** [GetWitnessAtHeight]: the announced gateway key, [None] without witness
    data; and [hivego.DecodePublicKey], [None] for an error or a panic. *)
Context (gatewayKeyOf : string → option string).
Context (decodePublicKey : string → bool).

Definition hivePublicKeyPrefix : string := "STM".
Definition hivePublicKeyMinLen : nat := 33.

Definition safeValidateGatewayKey (key : string) : bool :=
  if (slen key <? hivePublicKeyMinLen)%nat then false
  else if negb (HasPrefix key hivePublicKeyPrefix) then false
  else decodePublicKey key.

(** The members of an election, with their weights, that can sign. *)
Definition eligible_of (members : list (string * Z)) : list gwMember :=
  omap (λ aw : string * Z,
    key ← gatewayKeyOf aw.1;
    if String.eqb key "" then None
    else if negb (safeValidateGatewayKey key) then None
    else Some (mkGwMember aw.1 key aw.2)) members.

(** The signers of a rotation; [None] is the error "not enough keys". *)
Definition select_signers (members : list (string * Z)) : option (list gwMember) :=
  let eligible := merge_sort member_le (eligible_of members) in
  let eligible := if (1 <? length eligible)%nat then dedup_keys [] eligible else eligible in
  let eligible := if (MAX_GATEWAY_KEYS <? length eligible)%nat then take MAX_GATEWAY_KEYS eligible else eligible in
  if (length eligible <? MIN_GATEWAY_KEYS)%nat then None else Some eligible.

(** An authority of the wallet: threshold, weighted keys, weighted accounts. *)
Record Auths := mkAuths {
  WeightThreshold : Z;
  KeyAuths : list (string * Z);
  AccountAuths : list (string * Z);
}.

(** The owner, active and posting authorities a rotation installs. *)
Definition rotation_auths (members : list (string * Z)) (equalWeights decentralizeOwner : bool)
    : option (Auths * Auths * Auths) :=
  eligible ← select_signers members;
  let weights := gatewayKeyWeights (gw_stake <$> eligible) (gw_account <$> eligible) GATEWAY_WEIGHT_SCALE
                   equalWeights in
  let gatewayKeys := zip (gw_key <$> eligible) weights in
  let totalWeight := foldl i64_add 0 weights in
  let weightThreshold := gatewayWeightThreshold totalWeight in
  let eb := ("vsc.network", 1) in
  let ownerAccountAuths := if decentralizeOwner then [] else [("vsc.dao", weightThreshold)] in
  let postingAccountAuths := if decentralizeOwner then [eb] else [("vsc.dao", 1); eb] in
  Some (mkAuths weightThreshold gatewayKeys ownerAccountAuths,
        mkAuths weightThreshold gatewayKeys [],
        mkAuths 1 [] postingAccountAuths).
End selection.

(** ** Collecting signatures *)

(** Signatures are the 65 bytes of the compact form: a header, R and S. *)
Definition secpCompactSigSize : nat := 65.

Definition be_value (l : list Z) : Z := foldl (λ n b, n * 256 + b) 0 l.

Section signatures.
(** [halfOrderN], the key recovery of the curve library, and the hexadecimal
    decoding of a signature. *)
Context (halfOrderN : Z).
Context (recoverCompact : list Z → option string).
Context (decodeHex : string → option (list Z)).

Definition IsLowS (sigBytes : list Z) : bool :=
  if negb (length sigBytes =? secpCompactSigSize)%nat then false
  else let s := be_value (drop 33 sigBytes) in (0 <? s) && (s <=? halfOrderN).

Definition RecoverPublicKey (signature : string) : option string :=
  sigBytes ← decodeHex signature;
  if negb (length sigBytes =? secpCompactSigSize)%nat then None
  else if negb (IsLowS sigBytes) then None
  else recoverCompact sigBytes.

(** The state of the collector: the weight so far, the signatures, the keys that
    have signed. *)
Record collector := mkCollector {
  signedWeight : Z;
  sigs : list string;
  signedByPubKey : list string;
}.

(** One message: the signature of a sign response; [None] is any other message
    or one that does not decode. *)
Definition collect_one (publicList : list string) (weights : list Z) (c : collector) (msg : option string)
    : collector :=
  match msg with
  | None => c
  | Some sig =>
      match RecoverPublicKey sig with
      | None => c
      | Some pubKey =>
          match list_find (λ k, k = pubKey) publicList with
          | None => c
          | Some (idx, _) =>
              if slices_Contains (signedByPubKey c) pubKey then c
              else mkCollector (signedWeight c +u64 wrapu64 (nth idx weights 0)) (sigs c ++ [sig])
                     (pubKey :: signedByPubKey c)
          end
      end
  end.

(** The loop runs until the threshold is reached; the list of messages ends
    where the deadline cuts it. *)
Fixpoint collect (threshold : Z) (publicList : list string) (weights : list Z) (msgs : list (option string))
    (c : collector) : collector :=
  if wrapu64 threshold <=? signedWeight c then c
  else match msgs with
       | [] => c
       | msg :: msgs => collect threshold publicList weights msgs (collect_one publicList weights c msg)
       end.

Definition waitForSigs (threshold : Z) (publicList : list string) (weights : list Z) (msgs : list (option string))
    : option (list string * Z) :=
  if threshold <=? 0 then None
  else let c := collect threshold publicList weights msgs (mkCollector 0 [] []) in
       Some (sigs c, signedWeight c).
End signatures.

(** ** Lemmas: apportionment *)

#[export] Instance part_le_total : Total part_le.
Proof.
  intros a b. unfold part_le. destruct (Z.lt_trichotomy (part_rem a) (part_rem b)) as [?|[?|?]]; [lia| |lia].
  destruct (total String.le (part_account a) (part_account b)); [left|right]; right; split; lia || done.
Qed.

#[export] Instance part_le_trans : Transitive part_le.
Proof. intros a b c [?|[? ?]] [?|[? ?]]; unfold part_le; [lia..|]. right. split; [lia|]. by etrans. Qed.

Lemma clamp_bounds w : 1 <= clamp w <= uint16Max ∧ (0 <= w <= uint16Max → w <= clamp w <= w + 1).
Proof. unfold clamp, uint16Max. destruct (Z.ltb_spec w 1); [simpl; lia|]. destruct (Z.ltb_spec 65535 w); lia. Qed.

Lemma clamp_mono v w : v <= w → clamp v <= clamp w.
Proof.
  unfold clamp, uint16Max. intros. destruct (Z.ltb_spec v 1), (Z.ltb_spec w 1); cbn -[Z.ltb Z.le];
    repeat match goal with |- context [65535 <? ?b] => destruct (Z.ltb_spec 65535 b) end; lia.
Qed.

Lemma foldl_u64_bases l acc :
  0 <= acc → Forall (λ p, 0 <= part_base p) l → acc + zsum (part_base <$> l) <= MaxUint64 →
  foldl (λ acc p, acc +u64 part_base p) acc l = acc + zsum (part_base <$> l).
Proof.
  intros Ha Hl. revert acc Ha. induction Hl as [|p l Hp Hl IH]; intros acc Ha Hle; csimpl in *; [lia|].
  assert (0 <= zsum (part_base <$> l)).
  { apply zsum_nonneg, Forall_fmap. eapply Forall_impl; [exact Hl|done]. }
  unfold u64_add. rewrite wrapu64_id by (unfold_widths; lia). rewrite IH; lia.
Qed.

Section apportionment.
Context (scale : Z) (sa : list (Z * string)).
Hypothesis Hscale : 0 < scale <= uint16Max.
Hypothesis Hstakes : Forall (λ x, 0 <= x.1) sa.
Hypothesis Htotal : 0 < zsum sa.*1.

Let total := zsum sa.*1.
Let parts := imap (mk_part scale total) sa.
Let deficit := scale - zsum (part_base <$> parts).
Let order := merge_sort part_le parts.
Let lucky := take (Z.to_nat deficit) order.

Lemma parts_elem p : p ∈ parts ↔ ∃ i x, sa !! i = Some x ∧ p = mk_part scale total i x.
Proof.
  unfold parts. rewrite list_elem_of_lookup. setoid_rewrite list_lookup_imap. split.
  - intros (i & (x & Hx & Hp)%fmap_Some). eauto.
  - intros (i & x & Hx & ->). exists i. by rewrite Hx.
Qed.

Lemma parts_NoDup : NoDup (part_idx <$> parts).
Proof.
  unfold parts. replace (part_idx <$> imap (mk_part scale total) sa) with (seq 0 (length sa)); [apply NoDup_seq|].
  apply list_eq. intros i. rewrite list_lookup_fmap, list_lookup_imap.
  destruct (sa !! i) eqn:E; simpl.
  - rewrite lookup_seq_lt by by eapply lookup_lt_Some. done.
  - apply lookup_ge_None in E. by rewrite lookup_seq_ge.
Qed.

Lemma part_bounds p : p ∈ parts → 0 <= part_base p <= scale ∧ 0 <= part_rem p < total.
Proof.
  intros (i & [s a] & Hx & ->)%parts_elem. unfold mk_part. simpl.
  assert (0 <= s <= total) as Hs.
  { apply list_elem_of_lookup_2 in Hx. rewrite Forall_forall in Hstakes. pose proof (Hstakes _ Hx) as H0. simpl in H0.
    split; [done|]. apply list_elem_of_split in Hx as (l1 & l2 & E). unfold total. rewrite E, fmap_app, fmap_cons, zsum_app.
    cbn [zsum fst]. assert (∀ l, l ⊆ sa → 0 <= zsum l.*1) as Hnn.
    { intros l Hsub. apply zsum_nonneg, Forall_fmap, Forall_forall. intros y Hy. by apply Hstakes, Hsub. }
    assert (0 <= zsum l1.*1) by (apply Hnn; rewrite E; set_solver).
    assert (0 <= zsum l2.*1) by (apply Hnn; rewrite E; set_solver). lia. }
  split; [|apply Z.mod_pos_bound; done]. rewrite Z.mul_comm. apply share_le; lia.
Qed.

Lemma bases_sum :
  0 <= zsum (part_base <$> parts) <= scale ∧ scale <= zsum (part_base <$> parts) + Z.of_nat (length sa).
Proof.
  assert (part_base <$> parts = (λ s, scale * s / total) <$> sa.*1) as ->.
  { unfold parts. apply list_eq. intros i. rewrite !list_lookup_fmap, list_lookup_imap.
    destruct (sa !! i) as [[s a]|]; [|done]. simpl. by rewrite Z.mul_comm. }
  assert (Forall (λ s, 0 <= s) sa.*1) as Hnn by (apply Forall_fmap; exact Hstakes).
  pose proof (zsum_floor_shares_le scale total sa.*1 ltac:(lia) Htotal Hnn ltac:(done)).
  pose proof (zsum_floor_shares_ge scale total sa.*1 ltac:(lia) Htotal Hnn) as Hge.
  rewrite length_fmap in Hge. fold total in Hge. split; [lia|nia].
Qed.

Lemma lucky_length : Z.of_nat (length lucky) = deficit.
Proof.
  pose proof bases_sum. assert (length parts = length sa) as Hl by apply length_imap.
  unfold lucky, order. rewrite length_take, merge_sort_Permutation, Hl. unfold deficit. lia.
Qed.

Lemma apportion_eq p :
  p ∈ parts →
  apportion scale parts p = part_base p + (if bool_decide (part_idx p ∈ part_idx <$> lucky) then 1 else 0).
Proof.
  intros Hp. pose proof bases_sum as [Hb _]. pose proof (part_bounds p Hp) as [Hpb _].
  unfold apportion. cbv zeta. rewrite foldl_u64_bases; [|done| |unfold uint16Max, MaxUint64 in *; lia].
  2: { apply Forall_forall. intros q Hq. apply part_bounds in Hq. lia. }
  rewrite Z.add_0_l.
  assert ((if zsum (part_base <$> parts) <? scale then scale -u64 zsum (part_base <$> parts) else 0) = deficit) as ->.
  { unfold deficit. destruct (Z.ltb_spec (zsum (part_base <$> parts)) scale); [|lia].
    unfold u64_sub. rewrite wrapu64_id; [done|]. unfold uint16Max in *. unfold_widths. lia. }
  fold order lucky. destruct (bool_decide _); [|lia].
  unfold u64_add. rewrite wrapu64_id; [done|]. unfold uint16Max in *. unfold_widths. lia.
Qed.
Lemma order_split : parts ≡ₚ lucky ++ drop (Z.to_nat deficit) order.
Proof. unfold lucky. rewrite take_drop. symmetry. apply merge_sort_Permutation. Qed.

(** Every unit of the scale is handed out. *)
Lemma units_sum : zsum (apportion scale parts <$> parts) = scale.
Proof.
  rewrite (zsum_map_ext _ (λ p, part_base p + (if bool_decide (part_idx p ∈ part_idx <$> lucky) then 1 else 0)))
    by (intros p Hp; by apply apportion_eq).
  rewrite zsum_map_add.
  assert (zsum ((λ p, if bool_decide (part_idx p ∈ part_idx <$> lucky) then 1 else 0) <$> parts) = deficit) as ->;
    [|unfold deficit; lia].
  pose proof parts_NoDup as Hnd. rewrite order_split in Hnd. rewrite fmap_app in Hnd.
  apply NoDup_app in Hnd as (_ & Hdisj & _).
  rewrite (fmap_Permutation _ _ _ order_split), fmap_app, zsum_app, (zsum_map_0 _ (drop _ order)).
  - rewrite Z.add_0_r, <- lucky_length. clearbody lucky. clear -scale.
    assert (∀ k : list part, k ⊆ lucky →
      zsum ((λ p, if bool_decide (part_idx p ∈ part_idx <$> lucky) then 1 else 0) <$> k) = Z.of_nat (length k)) as Hk.
    { intros k. induction k as [|p k IH]; intros Hsub; csimpl; [done|]. rewrite IH by set_solver.
      rewrite bool_decide_eq_true_2; [lia|]. apply list_elem_of_fmap_2. set_solver. }
    by apply Hk.
  - intros p Hp. rewrite bool_decide_eq_false_2; [done|]. intros Hin.
    apply (Hdisj _ Hin). by apply list_elem_of_fmap_2.
Qed.

(** The leftover units go to the largest remainders. *)
Lemma lucky_closed p q :
  p ∈ parts → q ∈ lucky → part_rem q < part_rem p → p ∈ lucky.
Proof.
  intros Hp Hq Hrem. rewrite order_split in Hp. apply elem_of_app in Hp as [|Hp]; [done|exfalso].
  assert (StronglySorted part_le order) as Hs.
  { apply Sorted_StronglySorted; [apply _|]. apply (Sorted_merge_sort part_le). }
  rewrite <- (take_drop (Z.to_nat deficit) order) in Hs. fold lucky in Hs.
  assert (part_le q p) as [?|[? _]]; [|lia..].
  revert Hs Hq Hp. generalize (drop (Z.to_nat deficit) order) as rest. clear -scale.
  induction lucky as [|x l IH]; intros rest Hs Hq Hp; [by apply elem_of_nil in Hq|].
  apply StronglySorted_inv in Hs as [Hs Hx]. apply elem_of_cons in Hq as [->|Hq]; [|by eapply IH].
  rewrite Forall_forall in Hx. apply Hx, elem_of_app. by right.
Qed.

Lemma lucky_idx p : p ∈ parts → part_idx p ∈ part_idx <$> lucky → p ∈ lucky.
Proof.
  intros Hp (q & Hpq & Hq)%list_elem_of_fmap. assert (p = q) as ->; [|done].
  assert (q ∈ parts) as Hq' by (rewrite order_split; apply elem_of_app; by left).
  apply parts_elem in Hp as (i & x & Hx & ->), Hq' as (j & y & Hy & ->). simpl in Hpq. subst. by simplify_eq.
Qed.

Lemma unit_bounds p :
  p ∈ parts → part_base p <= apportion scale parts p <= part_base p + 1 ∧ apportion scale parts p <= scale.
Proof.
  intros Hp. assert (∀ q, q ∈ parts → part_base q <= apportion scale parts q <= part_base q + 1) as Hb.
  { intros q Hq. rewrite apportion_eq by done. case_match; lia. }
  split; [by apply Hb|]. pose proof units_sum as Hsum. set (g := apportion scale parts) in *.
  apply list_elem_of_split in Hp as (l1 & l2 & E). rewrite E, fmap_app, fmap_cons, zsum_app in Hsum.
  cbn [zsum] in Hsum.
  assert (∀ l, l ⊆ parts → 0 <= zsum (g <$> l)) as Hnn.
  { intros l Hsub. apply zsum_nonneg, Forall_fmap, Forall_forall. intros q Hq. simpl.
    pose proof (Hb q (Hsub q Hq)). pose proof (part_bounds q (Hsub q Hq)). lia. }
  assert (0 <= zsum (g <$> l1)) by (apply Hnn; rewrite E; set_solver).
  assert (0 <= zsum (g <$> l2)) by (apply Hnn; rewrite E; set_solver). lia.
Qed.

(** More stake never means fewer units. *)
Lemma units_mono i j x y :
  sa !! i = Some x → sa !! j = Some y → y.1 < x.1 →
  apportion scale parts (mk_part scale total j y) <= apportion scale parts (mk_part scale total i x).
Proof.
  intros Hx Hy Hlt. set (p := mk_part scale total i x). set (q := mk_part scale total j y).
  assert (p ∈ parts) as Hp by (apply parts_elem; eauto).
  assert (q ∈ parts) as Hq by (apply parts_elem; eauto).
  rewrite !apportion_eq by done. fold total in Htotal.
  assert (part_base q <= part_base p) as Hbase by (apply Z.div_le_mono; nia).
  destruct (Z.eq_dec (part_base q) (part_base p)) as [Heq|]; [|repeat destruct (bool_decide _); lia].
  rewrite Heq. destruct (bool_decide (part_idx q ∈ _)) eqn:Eq; [|case_match; lia].
  rewrite (bool_decide_eq_true_2 (part_idx p ∈ _)); [lia|]. apply list_elem_of_fmap_2.
  apply bool_decide_eq_true_1, lucky_idx in Eq; [|done]. eapply lucky_closed; [done|exact Eq|].
  unfold p, q, mk_part in *. cbn [part_base part_rem] in *.
  rewrite !Z.mod_eq by lia. rewrite Heq. nia.
Qed.
End apportionment.

(** ** Lemmas: weights *)

Lemma quantize_parts stakes accounts scale :
  zsum stakes ≠ 0 → length accounts = length stakes →
  let sa := zip stakes accounts in
  let parts := imap (mk_part scale (zsum sa.*1)) sa in
  sa.*1 = stakes ∧ quantizeStakeWeights stakes accounts scale = (λ p, clamp (apportion scale parts p)) <$> parts.
Proof.
  intros Ht Hl sa parts. assert (sa.*1 = stakes) as Hs by (apply fst_zip; lia).
  split; [done|]. unfold quantizeStakeWeights. cbv zeta. rewrite (proj2 (Z.eqb_neq _ _) Ht).
  unfold parts. by rewrite Hs.
Qed.

Lemma quantize_lookup stakes accounts scale i s :
  zsum stakes ≠ 0 → length accounts = length stakes → stakes !! i = Some s →
  let sa := zip stakes accounts in
  ∃ a, sa !! i = Some (s, a) ∧
    quantizeStakeWeights stakes accounts scale !! i
    = Some (clamp (apportion scale (imap (mk_part scale (zsum sa.*1)) sa) (mk_part scale (zsum sa.*1) i (s, a)))).
Proof.
  intros Ht Hl Hi sa. destruct (quantize_parts stakes accounts scale Ht Hl) as [_ ->].
  destruct (lookup_lt_is_Some_2 accounts i) as [a Ha]; [rewrite Hl; by eapply lookup_lt_Some|].
  assert (sa !! i = Some (s, a)) as Hsa by by apply lookup_zip_with_Some; eauto.
  exists a. split; [done|]. fold sa. by rewrite list_lookup_fmap, list_lookup_imap, Hsa.
Qed.

(** The weight of a signer is its share of the scale, rounded within one unit. *)
Lemma weight_share stakes accounts scale i s w :
  length accounts = length stakes → Forall (λ s, 0 <= s) stakes → 0 < zsum stakes → 0 < scale <= uint16Max →
  stakes !! i = Some s → quantizeStakeWeights stakes accounts scale !! i = Some w →
  1 <= w <= uint16Max ∧ s * scale / zsum stakes <= w <= s * scale / zsum stakes + 1.
Proof.
  intros Hl Hs Ht Hsc Hi Hw.
  destruct (quantize_lookup stakes accounts scale i s) as (a & Hsa & Hq); [lia|done|done|].
  rewrite Hq in Hw. injection Hw as <-. set (sa := zip stakes accounts) in *.
  assert (sa.*1 = stakes) as Hfst by (apply fst_zip; lia).
  assert (Forall (λ x : Z * string, 0 <= x.1) sa) as Hnn.
  { apply (Forall_fmap fst (λ s, 0 <= s) sa). by rewrite Hfst. }
  assert (0 < zsum sa.*1) as Htot by by rewrite Hfst.
  set (p := mk_part scale (zsum sa.*1) i (s, a)).
  assert (p ∈ imap (mk_part scale (zsum sa.*1)) sa) as Hp by (apply parts_elem; eauto).
  destruct (unit_bounds scale sa Hsc Hnn Htot p Hp) as [Hb Hmax].
  destruct (part_bounds scale sa Hsc Hnn Htot p Hp) as [Hpb _].
  set (u := apportion _ _ p) in *. destruct (clamp_bounds u) as [Hc1 Hc2]. split; [done|].
  specialize (Hc2 ltac:(lia)). rewrite <- Hfst. change (s * scale / zsum sa.*1) with (part_base p).
  unfold clamp in *. destruct (Z.ltb_spec u 1).
  - assert (u = 0) as -> by lia. simpl in *. lia.
  - destruct (Z.ltb_spec uint16Max u); lia.
Qed.

Lemma weights_sum stakes accounts scale :
  length accounts = length stakes → Forall (λ s, 0 <= s) stakes → 0 < zsum stakes → 0 < scale <= uint16Max →
  scale <= zsum (quantizeStakeWeights stakes accounts scale) <= scale + Z.of_nat (length stakes).
Proof.
  intros Hl Hs Ht Hsc. destruct (quantize_parts stakes accounts scale) as [Hfst ->]; [lia|done|].
  set (sa := zip stakes accounts) in *.
  assert (Forall (λ x : Z * string, 0 <= x.1) sa) as Hnn.
  { apply (Forall_fmap fst (λ s, 0 <= s) sa). by rewrite Hfst. }
  assert (0 < zsum sa.*1) as Htot by by rewrite Hfst.
  pose proof (units_sum scale sa Hsc Hnn Htot) as Hsum.
  set (parts := imap _ sa) in *.
  assert (length stakes = length parts) as ->.
  { unfold parts. by rewrite length_imap, <- Hfst, length_fmap. }
  assert (∀ p, p ∈ parts → apportion scale parts p <= clamp (apportion scale parts p) <= apportion scale parts p + 1) as Hc.
  { intros p Hp. apply clamp_bounds. pose proof (unit_bounds scale sa Hsc Hnn Htot p Hp) as Hu.
    pose proof (part_bounds scale sa Hsc Hnn Htot p Hp) as [Hb _]. fold parts in Hu. lia. }
  set (g := apportion scale parts) in *. rewrite <- Hsum. clearbody g. clear -Hc.
  induction parts as [|p l IH]; csimpl; [lia|].
  pose proof (Hc p ltac:(by left)). specialize (IH ltac:(intros q Hq; apply Hc; by right)). lia.
Qed.

(** ** Lemmas: selection *)

#[export] Instance member_le_total : Total member_le.
Proof.
  intros a b. unfold member_le. destruct (Z.lt_trichotomy (gw_stake a) (gw_stake b)) as [?|[?|?]]; [lia| |lia].
  destruct (total String.le (gw_account a) (gw_account b)); [left|right]; right; split; lia || done.
Qed.

#[export] Instance member_le_trans : Transitive member_le.
Proof. intros a b c [?|[? ?]] [?|[? ?]]; unfold member_le; [lia..|]. right. split; [lia|]. by etrans. Qed.

Lemma dedup_keys_spec seen l :
  sublist (dedup_keys seen l) l ∧ NoDup (gw_key <$> dedup_keys seen l) ∧
  (∀ m, m ∈ dedup_keys seen l → gw_key m ∉ seen).
Proof.
  revert seen. induction l as [|m l IH]; intros seen; cbn [dedup_keys]; [split_and!; [done|constructor|]; by intros m Hm%elem_of_nil|].
  destruct (slices_Contains seen (gw_key m)) eqn:Hc.
  - destruct (IH seen) as (H1 & H2 & H3). split_and!; [by constructor|done|done].
  - destruct (IH (gw_key m :: seen)) as (H1 & H2 & H3).
    assert (gw_key m ∉ seen) as Hn by (intros Hin; apply slices_Contains_spec in Hin; congruence).
    split_and!; [by constructor| |].
    + rewrite fmap_cons. apply NoDup_cons. split; [|done].
      intros (m' & Hk & Hm')%list_elem_of_fmap. apply (H3 m' Hm'). rewrite <- Hk. by left.
    + intros m' [->|Hm']%elem_of_cons; [done|]. specialize (H3 m' Hm'). set_solver.
Qed.

Lemma select_signers_spec gk dk members ms :
  select_signers gk dk members = Some ms →
  (MIN_GATEWAY_KEYS <= length ms <= MAX_GATEWAY_KEYS)%nat ∧ NoDup (gw_key <$> ms) ∧
  ∃ l, l ≡ₚ eligible_of gk dk members ∧ sublist ms l ∧ Sorted member_le l.
Proof.
  unfold select_signers. cbv zeta. set (l := merge_sort member_le _). intros Hsel.
  set (d := if (1 <? length l)%nat then dedup_keys [] l else l) in *.
  assert (sublist d l ∧ NoDup (gw_key <$> d)) as [Hd Hnd].
  { unfold d. destruct (Nat.ltb_spec 1 (length l)).
    - by destruct (dedup_keys_spec [] l) as (? & ? & _).
    - split; [done|]. destruct l as [|m [|m' l']]; [constructor|by apply NoDup_singleton|simpl in *; lia]. }
  set (c := if (MAX_GATEWAY_KEYS <? length d)%nat then take MAX_GATEWAY_KEYS d else d) in *.
  assert (sublist c d ∧ (length c <= MAX_GATEWAY_KEYS)%nat) as [Hc Hlen].
  { unfold c. destruct (Nat.ltb_spec MAX_GATEWAY_KEYS (length d)); [|done].
    split; [apply sublist_take|rewrite length_take; lia]. }
  destruct (Nat.ltb_spec (length c) MIN_GATEWAY_KEYS); [done|]. injection Hsel as <-.
  split_and!; [lia|done| |].
  - eapply sublist_NoDup; [exact Hnd|]. by apply fmap_sublist.
  - exists l. split_and!; [apply merge_sort_Permutation|by etrans|apply (Sorted_merge_sort member_le)].
Qed.

(** Eligible members are told apart by their accounts. *)
Lemma eligible_account gk dk members x y :
  NoDup members.*1 → x ∈ eligible_of gk dk members → y ∈ eligible_of gk dk members →
  gw_account x = gw_account y → x = y.
Proof.
  intros Hnd (m & Hm & Hx)%list_elem_of_omap (n & Hn & Hy)%list_elem_of_omap Heq.
  assert (∀ (aw : string * Z) e, (key ← gk aw.1; if String.eqb key "" then None
      else if negb (safeValidateGatewayKey dk key) then None else Some (mkGwMember aw.1 key aw.2)) = Some e →
    gw_account e = aw.1) as Hacc.
  { intros aw e. destruct (gk aw.1) as [key|]; [|done]. simpl. destruct (String.eqb key ""); [done|].
    destruct (negb _); [done|]. by intros [= <-]. }
  rewrite (Hacc m x Hx), (Hacc n y Hy) in Heq.
  assert (m = n) as ->; [|congruence].
  apply list_elem_of_lookup in Hm as [i Hi], Hn as [j Hj].
  assert (i = j) as ->; [|congruence].
  eapply NoDup_lookup; [exact Hnd|by rewrite list_lookup_fmap, Hi|rewrite list_lookup_fmap, Hj; simpl; by rewrite Heq].
Qed.

(** ** Lemmas: collection *)

(** The weight of a key in an authority. *)
Definition weight_of (publicList : list string) (weights : list Z) (k : string) : Z :=
  match list_find (λ k', k' = k) publicList with
  | Some (idx, _) => nth idx weights 0
  | None => 0
  end.

Lemma weight_of_lookup pl ws i k w :
  NoDup pl → pl !! i = Some k → ws !! i = Some w → weight_of pl ws k = w.
Proof.
  intros Hnd Hk Hw. unfold weight_of.
  assert (list_find (λ k', k' = k) pl = Some (i, k)) as ->.
  { apply list_find_Some. split_and!; [done|done|]. intros j y Hy Hlt ->.
    assert (j = i) by by eapply NoDup_lookup. lia. }
  apply nth_lookup_Some with (d := 0) in Hw. done.
Qed.

Lemma weight_of_sum pl ws :
  NoDup pl → length ws = length pl → weight_of pl ws <$> pl = ws.
Proof.
  intros Hnd Hl. apply list_eq. intros i. rewrite list_lookup_fmap.
  destruct (pl !! i) as [k|] eqn:Hk; simpl.
  - destruct (lookup_lt_is_Some_2 ws i) as [w Hw]; [rewrite Hl; by eapply lookup_lt_Some|].
    by rewrite (weight_of_lookup pl ws i k w), Hw.
  - apply lookup_ge_None in Hk. symmetry. apply lookup_ge_None. lia.
Qed.

Lemma signed_sum_le pl ws ks :
  NoDup pl → length ws = length pl → Forall (λ w, 0 <= w) ws → NoDup ks → ks ⊆ pl →
  0 <= zsum (weight_of pl ws <$> ks) <= zsum ws.
Proof.
  intros Hnd Hl Hws Hks Hsub.
  assert (∀ k, k ∈ pl → 0 <= weight_of pl ws k) as Hnn.
  { intros k Hk. apply (list_elem_of_fmap_2 (weight_of pl ws)) in Hk. rewrite weight_of_sum in Hk by done.
    rewrite Forall_forall in Hws. by apply Hws. }
  split; [apply zsum_nonneg, Forall_fmap, Forall_forall; intros k Hk; by apply Hnn, Hsub|].
  destruct (submseteq_Permutation ks pl) as [rest Hp]; [by apply NoDup_submseteq|].
  rewrite <- (weight_of_sum pl ws Hnd Hl) at 2. rewrite (fmap_Permutation _ _ _ Hp), fmap_app, zsum_app.
  assert (0 <= zsum (weight_of pl ws <$> rest)); [|lia].
  apply zsum_nonneg, Forall_fmap, Forall_forall. intros k Hk. apply Hnn. rewrite Hp. apply elem_of_app. by right.
Qed.

Section collection.
Context (halfOrderN : Z) (recoverCompact : list Z → option string) (decodeHex : string → option (list Z)).
Context (pl : list string) (ws : list Z).
Hypothesis Hnd : NoDup pl.
Hypothesis Hlen : length ws = length pl.
Hypothesis Hws : Forall (λ w, 0 <= w) ws.
Hypothesis Hsum : zsum ws <= MaxUint64.

Abbreviation recover := (RecoverPublicKey halfOrderN recoverCompact decodeHex).

(** What the collector has counted: keys of the authority, each once, with a
    signature that recovers to it. *)
Definition collected (c : collector) : Prop :=
  NoDup (signedByPubKey c) ∧ signedByPubKey c ⊆ pl ∧
  signedWeight c = zsum (weight_of pl ws <$> signedByPubKey c) ∧
  recover <$> sigs c = Some <$> reverse (signedByPubKey c).

Lemma collect_one_ok c msg :
  collected c → collected (collect_one halfOrderN recoverCompact decodeHex pl ws c msg).
Proof.
  intros (H1 & H2 & H3 & H4). unfold collect_one. destruct msg as [sig|]; [|done].
  destruct (recover sig) as [k|] eqn:Hr; [|done].
  destruct (list_find (λ k', k' = k) pl) as [[i k']|] eqn:Hf; [|done].
  destruct (slices_Contains (signedByPubKey c) k) eqn:Hc; [done|].
  assert (k ∉ signedByPubKey c) as Hk by (intros Hin; apply slices_Contains_spec in Hin; congruence).
  assert (nth i ws 0 = weight_of pl ws k) as Hw by (unfold weight_of; by rewrite Hf).
  assert (k ∈ pl) as Hin.
  { apply list_find_Some in Hf as (Hi & -> & _). by eapply list_elem_of_lookup_2. }
  assert (NoDup (k :: signedByPubKey c)) as Hnd' by by apply NoDup_cons.
  assert (k :: signedByPubKey c ⊆ pl) as Hsub by set_solver.
  pose proof (signed_sum_le pl ws _ Hnd Hlen Hws Hnd' Hsub) as Hle.
  pose proof (signed_sum_le pl ws _ Hnd Hlen Hws H1 H2) as Hle'. rewrite fmap_cons in Hle. cbn [zsum] in Hle.
  assert (0 <= weight_of pl ws k) as Hpos.
  { assert (NoDup [k]) as Hk1 by apply NoDup_singleton.
    pose proof (signed_sum_le pl ws [k] Hnd Hlen Hws Hk1 ltac:(set_solver)) as Hs. csimpl in Hs. lia. }
  split_and!; cbn [signedByPubKey signedWeight sigs]; [done|done| |].
  - rewrite fmap_cons, Hw, H3. cbn [zsum]. rewrite (wrapu64_id (weight_of pl ws k)) by (unfold_widths; lia).
    unfold u64_add. rewrite wrapu64_id by (unfold_widths; lia). lia.
  - rewrite fmap_app, H4, reverse_cons, fmap_app. cbn [fmap list_fmap]. by rewrite Hr.
Qed.

Lemma collect_ok threshold msgs c :
  collected c → collected (collect halfOrderN recoverCompact decodeHex threshold pl ws msgs c).
Proof.
  revert c. induction msgs as [|msg msgs IH]; intros c Hc; cbn [collect]; destruct (_ <=? _); [done..|].
  by apply IH, collect_one_ok.
Qed.
End collection.

(** ** Lemmas: quorums *)

Lemma threshold_bounds W :
  0 < W <= uint16Max * 100 → 2 * W <= 3 * gatewayWeightThreshold W <= 2 * W + 2.
Proof.
  unfold uint16Max. intros HW. unfold gatewayWeightThreshold. rewrite (proj2 (Z.leb_gt _ _)) by lia.
  unfold i64_mul. rewrite (wrap64_id (W * 2)) by (unfold i64, MinInt64, MaxInt64; lia).
  rewrite i64_add_exact by (unfold i64, MinInt64, MaxInt64; lia).
  rewrite Z.quot_div_nonneg by lia. Z.div_mod_to_equations. lia.
Qed.

Lemma eligible_stakes gk dk members e :
  Forall (λ aw : string * Z, 0 <= aw.2) members → e ∈ eligible_of gk dk members → 0 <= gw_stake e.
Proof.
  intros Hm (aw & Haw & He)%list_elem_of_omap. rewrite Forall_forall in Hm. specialize (Hm aw Haw).
  destruct (gk aw.1) as [key|]; [|done]. simpl in He. destruct (String.eqb key ""); [done|].
  destruct (negb _); [done|]. by injection He as <-.
Qed.

(** What a set of keys weighs, in terms of the stake behind it. *)
Lemma quorum_stake ms scale ks :
  Forall (λ m, 0 <= gw_stake m) ms → 0 < zsum (gw_stake <$> ms) → 0 < scale <= uint16Max →
  NoDup (gw_key <$> ms) → NoDup ks → ks ⊆ gw_key <$> ms →
  let W := quantizeStakeWeights (gw_stake <$> ms) (gw_account <$> ms) scale in
  let signers := filter (λ m, gw_key m ∈ ks) ms in
  zsum (weight_of (gw_key <$> ms) W <$> ks) * zsum (gw_stake <$> ms)
  <= scale * zsum (gw_stake <$> signers) + Z.of_nat (length signers) * zsum (gw_stake <$> ms).
Proof.
  intros Hst Htot Hsc Hnd Hks Hsub W signers.
  assert (NoDup (gw_key <$> signers)) as Hnds.
  { eapply sublist_NoDup; [exact Hnd|]. apply fmap_sublist, sublist_filter. }
  assert (ks ≡ₚ gw_key <$> signers) as Hp.
  { apply NoDup_Permutation; [done|done|]. intros k. rewrite list_elem_of_fmap. split.
    - intros Hk. destruct (proj1 (list_elem_of_fmap _ _ _) (Hsub k Hk)) as (m & -> & Hm). exists m.
      split; [done|]. by apply list_elem_of_filter.
    - intros (m & -> & [Hm _]%list_elem_of_filter). done. }
  rewrite (fmap_Permutation _ _ _ Hp), <- list_fmap_compose.
  assert (∀ m, m ∈ signers → weight_of (gw_key <$> ms) W (gw_key m) * zsum (gw_stake <$> ms)
    <= scale * gw_stake m + zsum (gw_stake <$> ms)) as Hw.
  { intros m [_ Hm]%list_elem_of_filter. apply list_elem_of_lookup in Hm as [i Hi].
    assert (gw_stake <$> ms !! i = Some (gw_stake m)) as Hs by by rewrite Hi.
    rewrite <- list_lookup_fmap in Hs.
    destruct (quantize_lookup (gw_stake <$> ms) (gw_account <$> ms) scale i (gw_stake m)) as (a & _ & Hq);
      [lia|by rewrite !length_fmap|done|]. fold W in Hq.
    rewrite (weight_of_lookup (gw_key <$> ms) W i (gw_key m) _ Hnd ltac:(by rewrite list_lookup_fmap, Hi) Hq).
    destruct (weight_share (gw_stake <$> ms) (gw_account <$> ms) scale i _ _ ltac:(by rewrite !length_fmap)
      (proj2 (Forall_fmap _ _ _) Hst) Htot Hsc Hs Hq) as [_ [_ Hle]].
    pose proof (Z.mul_div_le (gw_stake m * scale) (zsum (gw_stake <$> ms)) Htot). nia. }
  clear -Hw. induction signers as [|m l IH]; csimpl; [lia|].
  pose proof (Hw m ltac:(by left)). specialize (IH ltac:(intros q Hq; apply Hw; by right)). lia.
Qed.

(** The owner authority of a rotation with proportional weights. *)
Lemma rotation_owner gk dk members dec ms owner active posting :
  Forall (λ aw : string * Z, 0 <= aw.2) members →
  select_signers gk dk members = Some ms → 0 < zsum (gw_stake <$> ms) →
  rotation_auths gk dk members false dec = Some (owner, active, posting) →
  let W := quantizeStakeWeights (gw_stake <$> ms) (gw_account <$> ms) GATEWAY_WEIGHT_SCALE in
  Forall (λ m, 0 <= gw_stake m) ms ∧ (KeyAuths owner).*1 = gw_key <$> ms ∧ (KeyAuths owner).*2 = W ∧
  WeightThreshold owner = gatewayWeightThreshold (zsum W) ∧
  length W = length ms ∧ Forall (λ w, 0 <= w) W ∧ GATEWAY_WEIGHT_SCALE <= zsum W <= GATEWAY_WEIGHT_SCALE + 40.
Proof.
  intros Hmem Hsel Htot Hrot W.
  destruct (select_signers_spec gk dk members ms Hsel) as ([Hmin Hmax] & Hnd & l & Hl & Hsubl & _).
  assert (Forall (λ m, 0 <= gw_stake m) ms) as Hst.
  { apply Forall_forall. intros m Hm. eapply eligible_stakes; [exact Hmem|]. rewrite <- Hl.
    eapply elem_of_sublist; eauto. }
  assert (0 < GATEWAY_WEIGHT_SCALE <= uint16Max) as Hsc by done.
  pose proof (proj2 (Forall_fmap gw_stake (λ s, 0 <= s) ms) Hst) as Hst'.
  assert (length (gw_account <$> ms) = length (gw_stake <$> ms)) as Hlen by by rewrite !length_fmap.
  pose proof (weights_sum _ _ _ Hlen Hst' Htot Hsc) as HsumW. fold W in HsumW. rewrite length_fmap in HsumW.
  assert (length W = length ms) as HlW.
  { unfold W. destruct (quantize_parts (gw_stake <$> ms) (gw_account <$> ms) GATEWAY_WEIGHT_SCALE) as [Hfst ->]; [lia|done|].
    by rewrite length_fmap, length_imap, <- (length_fmap fst), Hfst, length_fmap. }
  assert (Forall (λ w, 0 <= w) W) as HWnn.
  { apply Forall_forall. intros w (i & Hi)%list_elem_of_lookup.
    destruct (lookup_lt_is_Some_2 ms i) as [m Hm]; [rewrite <- HlW; by eapply lookup_lt_Some|].
    destruct (weight_share _ _ _ i (gw_stake m) w Hlen Hst' Htot Hsc) as [? _]; [by rewrite list_lookup_fmap, Hm|done|lia]. }
  unfold rotation_auths in Hrot. rewrite Hsel in Hrot. cbn [mbind option_bind] in Hrot.
  assert (gatewayKeyWeights (gw_stake <$> ms) (gw_account <$> ms) GATEWAY_WEIGHT_SCALE false = W) as HW
    by (unfold gatewayKeyWeights; by destruct (gw_stake <$> ms)).
  rewrite HW in Hrot. injection Hrot as <- _ _. cbn [WeightThreshold KeyAuths].
  unfold MAX_GATEWAY_KEYS, GATEWAY_WEIGHT_SCALE in *.
  rewrite fst_zip, snd_zip by (rewrite length_fmap; lia). split_and!; try done; [|lia..].
  f_equal. apply (sum64_exact W). unfold i64, MinInt64, MaxInt64. lia.
Qed.

(** ** Properties *)

(** The apportionment is fair.  For positive total stake, every signer gets a
    weight between 1 and the limit of the wire format, within one unit of its
    exact share of the scale; the weights sum to the scale, plus at most one unit
    per signer; and a larger stake never gets a smaller weight. *)
Theorem weights_fair stakes accounts scale :
  length accounts = length stakes → Forall (λ s, 0 <= s) stakes → 0 < zsum stakes → 0 < scale <= uint16Max →
  let W := quantizeStakeWeights stakes accounts scale in
  length W = length stakes ∧
  scale <= zsum W <= scale + Z.of_nat (length stakes) ∧
  (∀ i s w, stakes !! i = Some s → W !! i = Some w →
     1 <= w <= uint16Max ∧ s * scale / zsum stakes <= w <= s * scale / zsum stakes + 1) ∧
  (∀ i j s t v w, stakes !! i = Some s → stakes !! j = Some t → W !! i = Some v → W !! j = Some w →
     t < s → w <= v).
Proof.
  intros Hl Hs Ht Hsc W. split_and!.
  - unfold W. destruct (quantize_parts stakes accounts scale) as [Hfst ->]; [lia|done|].
    by rewrite length_fmap, length_imap, <- (length_fmap fst), Hfst.
  - apply weights_sum; [done..|lia].
  - apply weights_sum; [done..|lia].
  - intros i s w Hi Hw. by apply (weight_share stakes accounts scale i s w).
  - intros i j s t v w Hi Hj Hv Hw Hlt.
    destruct (quantize_lookup stakes accounts scale i s) as (a & Ha & Hqi); [lia|done|done|].
    destruct (quantize_lookup stakes accounts scale j t) as (b & Hb & Hqj); [lia|done|done|].
    unfold W in *. rewrite Hqi in Hv. rewrite Hqj in Hw. injection Hv as <-. injection Hw as <-.
    set (sa := zip stakes accounts) in *. assert (sa.*1 = stakes) as Hfst by (apply fst_zip; lia).
    apply clamp_mono, units_mono; [done| |by rewrite Hfst|done|done|done].
    apply (Forall_fmap fst (λ s, 0 <= s) sa). by rewrite Hfst.
Qed.

(** Every node installs the same authority.  The authorities a rotation
    builds do not depend on the order in which the members of the election are
    listed, whatever their stakes and announced keys, when no account is listed
    twice. *)
Theorem rotation_deterministic gk dk members members' eq dec :
  members ≡ₚ members' → NoDup members.*1 →
  rotation_auths gk dk members eq dec = rotation_auths gk dk members' eq dec.
Proof.
  intros Hp Hnd. unfold rotation_auths, select_signers. cbv zeta.
  assert (merge_sort member_le (eligible_of gk dk members) = merge_sort member_le (eligible_of gk dk members')) as ->;
    [|done].
  assert (eligible_of gk dk members ≡ₚ eligible_of gk dk members') as He by by apply omap_Permutation.
  apply (Sorted_unique_strong member_le); [|apply (Sorted_merge_sort member_le)..|by rewrite !merge_sort_Permutation].
  intros x y. rewrite !merge_sort_Permutation, <- He. intros Hx Hy Hxy Hyx.
  apply (eligible_account gk dk members); [done..|].
  destruct Hxy as [?|[? Hxy]], Hyx as [?|[? Hyx]]; [lia..|]. by apply (anti_symm String.le).
Qed.

(** The wallet moves only with a supermajority of the stake.  Take the
    authority a rotation installs for signers with a positive total stake, and
    any messages a collection round receives.  If the collected weight meets the
    threshold, there are signers, each with a signature that recovers to its
    own key and none counted twice, whose stake is at least two thirds of the
    total, up to the rounding of one unit of the scale per signer. *)
Theorem wallet_needs_supermajority half rec hex gk dk members dec ms owner active posting msgs sgs w :
  Forall (λ aw : string * Z, 0 <= aw.2) members →
  select_signers gk dk members = Some ms → 0 < zsum (gw_stake <$> ms) →
  rotation_auths gk dk members false dec = Some (owner, active, posting) →
  waitForSigs half rec hex (WeightThreshold owner) (KeyAuths owner).*1 (KeyAuths owner).*2 msgs = Some (sgs, w) →
  weightMeetsThreshold w (WeightThreshold owner) = true →
  ∃ signers, sublist signers ms ∧ NoDup (gw_key <$> signers) ∧
    (∀ m, m ∈ signers → ∃ sig, sig ∈ sgs ∧ RecoverPublicKey half rec hex sig = Some (gw_key m)) ∧
    2 * GATEWAY_WEIGHT_SCALE * zsum (gw_stake <$> ms)
    <= 3 * (GATEWAY_WEIGHT_SCALE * zsum (gw_stake <$> signers)
            + Z.of_nat (length signers) * zsum (gw_stake <$> ms)).
Proof.
  intros Hmem Hsel Htot Hrot Hwait Hmeet.
  destruct (rotation_owner gk dk members dec ms owner active posting Hmem Hsel Htot Hrot)
    as (Hst & Hk & Hv & Hth & HlW & HWnn & HsumW).
  destruct (select_signers_spec gk dk members ms Hsel) as (_ & Hnd & _).
  set (W := quantizeStakeWeights _ _ _) in *. rewrite Hk, Hv, Hth in *.
  unfold GATEWAY_WEIGHT_SCALE in *. pose proof (threshold_bounds (zsum W) ltac:(unfold uint16Max; lia)) as Hthb.
  unfold waitForSigs in Hwait. rewrite (proj2 (Z.leb_gt _ _)) in Hwait by lia.
  injection Hwait as <- <-.
  set (c := collect _ _ _ _ _ _ _ _) in *.
  assert (collected half rec hex (gw_key <$> ms) W c) as (Hc1 & Hc2 & Hc3 & Hc4).
  { apply collect_ok; [done|by rewrite length_fmap|done|unfold MaxUint64; lia|].
    split_and!; [constructor|set_solver|done|done]. }
  pose proof (quorum_stake ms 10000 (signedByPubKey c) Hst Htot ltac:(done) Hnd Hc1 Hc2) as Hq. fold W in Hq.
  exists (filter (λ m, gw_key m ∈ signedByPubKey c) ms). split_and!.
  - apply sublist_filter.
  - eapply sublist_NoDup; [exact Hnd|]. apply fmap_sublist, sublist_filter.
  - intros m [Hm _]%list_elem_of_filter.
    assert (Some (gw_key m) ∈ RecoverPublicKey half rec hex <$> sigs c) as Hin.
    { rewrite Hc4. apply list_elem_of_fmap_2. by apply elem_of_reverse. }
    apply list_elem_of_fmap in Hin as (sig & -> & Hsig). eauto.
  - unfold weightMeetsThreshold in Hmeet. apply andb_true_iff in Hmeet as [_ Hmeet]. z_of_bool.
    rewrite wrapu64_id in Hmeet by (unfold_widths; lia). rewrite Hc3 in Hmeet.
    cbv zeta in Hq. set (K := zsum (weight_of _ _ <$> _)) in *. set (T := zsum (gw_stake <$> ms)) in *.
    assert (20000 <= 3 * K) as HK by lia. pose proof (Z.mul_le_mono_nonneg_r _ _ T ltac:(lia) HK). lia.
Qed.

(** Two quorums always share a signer.  No two disjoint sets of keys of an
    authority can both reach its threshold, so two conflicting transactions
    cannot both be signed by signers that sign only once. *)
Theorem quorums_intersect pl ws A B :
  NoDup pl → length ws = length pl → Forall (λ w, 0 <= w) ws → 0 < zsum ws <= uint16Max * 100 →
  NoDup A → NoDup B → A ⊆ pl → B ⊆ pl →
  weightMeetsThreshold (zsum (weight_of pl ws <$> A)) (gatewayWeightThreshold (zsum ws)) = true →
  weightMeetsThreshold (zsum (weight_of pl ws <$> B)) (gatewayWeightThreshold (zsum ws)) = true →
  ∃ k, k ∈ A ∧ k ∈ B.
Proof.
  intros Hnd Hl Hws Hsum HA HB HsA HsB HmA HmB.
  destruct (decide (Exists (λ k, k ∈ B) A)) as [Hex|Hno]; [by apply Exists_exists in Hex|exfalso].
  assert (NoDup (A ++ B)) as HAB.
  { apply NoDup_app. split_and!; [done| |done]. intros k Hk HkB. apply Hno, Exists_exists. eauto. }
  pose proof (signed_sum_le pl ws (A ++ B) Hnd Hl Hws HAB ltac:(set_solver)) as Hle.
  rewrite fmap_app, zsum_app in Hle. pose proof (threshold_bounds (zsum ws) Hsum) as Hth.
  unfold weightMeetsThreshold in *. rewrite andb_true_iff in HmA, HmB. destruct HmA as [_ HmA], HmB as [_ HmB].
  z_of_bool. unfold uint16Max in *. rewrite wrapu64_id in HmA, HmB by (unfold_widths; lia). lia.
Qed.

(** The malleated twin of a signature is never accepted.  With an odd group
    order, of two signatures with the same header and R whose S components sum
    to the order, [RecoverPublicKey] rejects one without calling the recovery. *)
Theorem high_s_twin_rejected half rec hex sig sig' b b' :
  hex sig = Some b → hex sig' = Some b' →
  be_value (drop 33 b) + be_value (drop 33 b') = 2 * half + 1 →
  RecoverPublicKey half rec hex sig = None ∨ RecoverPublicKey half rec hex sig' = None.
Proof.
  intros Hb Hb' Hsum. unfold RecoverPublicKey. rewrite Hb, Hb'. cbn [mbind option_bind]. unfold IsLowS.
  destruct (length b =? secpCompactSigSize)%nat; [|by left]. destruct (length b' =? secpCompactSigSize)%nat; [|by right].
  cbn [negb]. cbv zeta.
  destruct (Z.leb_spec (be_value (drop 33 b)) half); [right|left; by rewrite andb_false_r].
  rewrite (proj2 (Z.leb_gt (be_value (drop 33 b')) half)) by lia. by rewrite andb_false_r.
Qed.
