(* ===== verification/Gateway.v ===== *)
(** The gateway's action batches, [executeActions], [syncBalance] and
    [waitCheckBh] of [modules/gateway/multisig.go].

    Every minute the nodes build one Hive transaction from the pending actions
    of the ledger: a transfer per withdrawal, one savings operation for the net
    of the stakes and unstakes, and a header that lists the actions and marks the
    unstakes that are already covered.  The header comes back through Hive and
    [IndexActions] ([LedgerSystem.v]) settles the actions it lists.  Each cosigner
    rebuilds the batch from its own database and signs only an identical one.

    Building and signing the Hive transaction is the work of a library outside
    the sources: a batch is the list of its operations.  The header is kept as a
    record, and an error of the query of pending actions, which returns before
    anything is built, is left out.  The sort of the unstakes is stable here; the
    order of equal amounts only matters if the loop over them stops early, which
    [cleared_all] excludes.  The intervals are those of the main network. *)
From S2P Require Import Prelude GoStrings GoEncoding Assets LedgerDb ActionsDb LedgerTypes LedgerSystem.

Definition ACTION_INTERVAL : Z := 20.
Definition SYNC_INTERVAL : Z := 7200.

(** ** Operations on Hive *)

Inductive HiveOperation :=
| HiveTransfer (from to amount asset memo : string)
| TransferToSavings (from to amount asset memo : string)
| TransferFromSavings (from to amount asset memo : string) (requestId : Z)
| CustomActions (auth : string) (header : ActionUpdate)
| CustomSync (auth : string) (stake_amt unstake_amt : Z).

(** [strings.ToUpper] on ASCII text. *)
Fixpoint ToUpper (s : string) : string :=
  match s with
  | EmptyString => EmptyString
  | String c s => String (if is_az c then Ascii.ascii_of_nat (Ascii.nat_of_ascii c - 32) else c) (ToUpper s)
  end.

Section gateway.
(** The wallet account, and whether the node runs on a test network. *)
Context (gatewayWallet : string) (testnet : bool).

Definition toHiveAssetName (asset : string) : string :=
  if testnet then
    if String.eqb asset "hive" then "TESTS" else if String.eqb asset "hbd" then "TBD" else ""
  else ToUpper asset.

(** ** The batch of actions *)

Record batch := mkBatch {
  ops : list HiveOperation;
  stakeBal : Z;
  unstakeBal : Z;
  stakeTxCount : Z;
  unstakeTxCount : Z;
  executedOps : list string;
}.

(** The transfer of a withdrawal, if it can be paid; the outer [None] is the
    index panic on a destination without a colon. *)
Definition withdraw_op (action : ActionRecord) : option (option HiveOperation) :=
  match Split (ar_To action) colon with
  | net :: to :: _ =>
      Some (if negb (String.eqb net "hive") then None
            else amtStr ← FormatAssetAmount (ar_Amount action) (ar_Asset action);
                 Some (HiveTransfer gatewayWallet to amtStr (toHiveAssetName (ar_Asset action)) (ar_Memo action)))
  | _ => None
  end.

(** One round of the first loop. *)
Definition batch_action (b : batch) (action : ActionRecord) : option batch :=
  let b := mkBatch (ops b) (stakeBal b) (unstakeBal b) (stakeTxCount b) (unstakeTxCount b)
             (executedOps b ++ [ar_Id action]) in
  if String.eqb (ar_Type action) "withdraw" then
    op ← withdraw_op action;
    Some (match op with
          | None => b
          | Some op => mkBatch (ops b ++ [op]) (stakeBal b) (unstakeBal b) (stakeTxCount b) (unstakeTxCount b)
                         (executedOps b)
          end)
  else if String.eqb (ar_Type action) "stake" then
    Some (mkBatch (ops b) (stakeBal b +u64 wrapu64 (ar_Amount action)) (unstakeBal b) (stakeTxCount b + 1)
            (unstakeTxCount b) (executedOps b))
  else if String.eqb (ar_Type action) "unstake" then
    Some (mkBatch (ops b) (stakeBal b) (unstakeBal b +u64 wrapu64 (ar_Amount action)) (stakeTxCount b)
            (unstakeTxCount b + 1) (executedOps b))
  else Some b.

Fixpoint batch_actions (b : batch) (actions : list ActionRecord) : option batch :=
  match actions with
  | [] => Some b
  | action :: actions => b ← batch_action b action; batch_actions b actions
  end.

(** The savings operation for the net of the stakes and unstakes. *)
Definition net_op (bh : Z) (b : batch) : string + list HiveOperation :=
  if unstakeBal b <? stakeBal b then
    match FormatAssetAmount (wrap64 (stakeBal b -u64 unstakeBal b)) "hbd" with
    | None => inl "format stake amount"
    | Some amtStr =>
        inr [TransferToSavings gatewayWallet gatewayWallet amtStr (toHiveAssetName "hbd")
               ("Staking " +:+ amtStr +:+ " HBD from " +:+ Itoa (stakeTxCount b) +:+ " transactions")]
    end
  else if stakeBal b <? unstakeBal b then
    match FormatAssetAmount (wrap64 (unstakeBal b -u64 stakeBal b)) "hbd" with
    | None => inl "format unstake amount"
    | Some amtStr =>
        inr [TransferFromSavings gatewayWallet gatewayWallet amtStr (toHiveAssetName "hbd")
               ("Unstaking " +:+ amtStr +:+ " HBD from " +:+ Itoa (unstakeTxCount b) +:+ " transactions")
               (wrap64 bh)]
    end
  else inr [].

Definition amount_le (a b : ActionRecord) : Prop := ar_Amount a <= ar_Amount b.

#[export] Instance amount_le_dec : RelDecision amount_le.
Proof. intros a b. unfold amount_le. apply _. Defined.

(** The loop over the unstakes, smallest first, while their sum fits. *)
Fixpoint cleared_ids (unstakeBal clearedBal : Z) (l : list ActionRecord) : list string :=
  match l with
  | [] => []
  | action :: l =>
      let clearedBal := clearedBal +u64 wrapu64 (ar_Amount action) in
      if unstakeBal <? clearedBal then [] else ar_Id action :: cleared_ids unstakeBal clearedBal l
  end.

Definition clearedOps (unstakeBal : Z) (actions : list ActionRecord) : list string :=
  cleared_ids unstakeBal 0
    (merge_sort amount_le
       (filter (λ a, String.eqb (ar_Type a) "unstake" && String.eqb (ar_Asset a) "hbd" = true) actions)).

(** The bit set over the listed actions. *)
Fixpoint cleared_bitset (idx : nat) (cleared : list string) (ids : list string) (bs : Z) : Z :=
  match ids with
  | [] => bs
  | id :: ids => cleared_bitset (S idx) cleared ids
                   (if slices_Contains cleared id then Z.setbit bs (Z.of_nat idx) else bs)
  end.

(** [inl] is an error return; the outer [None] is a panic. *)
Definition executeActions (bh : Z) (pending : list ActionRecord) : option (string + list HiveOperation) :=
  if negb (bh mod ACTION_INTERVAL =? 0) then Some (inl "invalid slot")
  else if bool_decide (pending = []) then Some (inl "no actions to process")
  else
    let actions := if (MaxGatewayActionBatch <? length pending)%nat
                   then take MaxGatewayActionBatch pending else pending in
    b ← batch_actions (mkBatch [] 0 0 0 0 []) actions;
    match net_op bh b with
    | inl err => Some (inl err)
    | inr net =>
        let cleared := clearedOps (unstakeBal b) actions in
        let bs := cleared_bitset 0 cleared (executedOps b) 0 in
        let b64Bytes := b64_encode std_char (Bytes bs) in
        let header := mkActionUpdate (executedOps b) b64Bytes in
        Some (inr (CustomActions gatewayWallet header :: ops b ++ net))
    end.

(** The whole step of a node: read the pending actions, build the batch. *)
Definition node_batch {A : Type} `{BridgeActions A} (bh : Z) (a : A) : option (string + list HiveOperation) :=
  executeActions bh (GetPendingActions bh ["withdraw"; "stake"; "unstake"] a).

(** ** The savings of the protocol *)

Definition sync_guard (bh : Z) (balRecord : option BalanceRecord) : bool :=
  match balRecord with
  | Some r => (bh <? SYNC_INTERVAL) || (bh -u64 SYNC_INTERVAL <? br_BlockHeight r)
  | None => false
  end.

(** The two reads of the balance database are arguments; [None] for the second
    is its error.  The total and the per-account map that the code builds and
    never reads are left out. *)
Definition syncBalance (bh : Z) (balRecord : option BalanceRecord) (balRecords : option (list BalanceRecord))
    : string + list HiveOperation :=
  if negb (bh mod ACTION_INTERVAL =? 0) then inl "invalid slot"
  else if sync_guard bh balRecord then inl "no sync to process"
  else match balRecords with
  | None => inl "balance enumeration failed"
  | Some balRecords =>
    let stakedBal := from_option br_HBD_SAVINGS 0 balRecord in
    let topBalances := merge_sort desc
      (br_HBD <$> filter (λ r, HasPrefix (br_Account r) "system:" = false) balRecords) in
    if (length topBalances <? 6)%nat then inl "no sync to process"
    else
      let totalBal := foldl i64_add 0 topBalances in
      let stakeAmt := Z.quot totalBal 3 in
      let '(hbdToStake, hbdToUnstake) :=
        if stakedBal <? stakeAmt then (stakeAmt -64 stakedBal, 0)
        else if stakeAmt <? stakedBal then (0, stakedBal -64 stakeAmt) else (0, 0) in
      let body :=
        if ((100000 <? hbdToStake) || (stakedBal <? 150000)) && negb (hbdToStake =? 0) then
          match FormatAssetAmount hbdToStake "hbd" with
          | None => inl "format stake amount"
          | Some amt => inr [TransferToSavings gatewayWallet gatewayWallet amt (toHiveAssetName "hbd")
                               ("Staking " +:+ amt +:+ " HBD")]
          end
        else if ((10000 <? hbdToUnstake) || (stakedBal <? 10000)) && negb (hbdToUnstake =? 0) then
          match FormatAssetAmount hbdToUnstake "hbd" with
          | None => inl "format unstake amount"
          | Some amt => inr [TransferFromSavings gatewayWallet gatewayWallet amt (toHiveAssetName "hbd")
                               ("Unstaking " +:+ amt +:+ " HBD") (wrap64 (bh +u64 1))]
          end
        else inr [] in
      match body with
      | inl err => inl err
      | inr [] => inl "no sync to process"
      | inr l => inr (CustomSync gatewayWallet hbdToStake hbdToUnstake :: l)
      end
  end.
End gateway.

(** ** Accepting a request to sign *)

(** [bh] is the node's height on entry and [observed] the heights the loop reads,
    one per second; [true] is the nil error. *)
Definition waitCheckBh (interval blockHeight bh : Z) (observed : list Z) : bool :=
  if negb (blockHeight mod interval =? 0) then false
  else if bh <? blockHeight then
    if bh <? blockHeight -u64 10 then true
    else existsb (λ h, h =? blockHeight) (take 20 observed)
  else negb (blockHeight +u64 10 <? bh).

(** ** What a batch moves *)

(** The amounts are read back from the text of the operations. *)
Definition op_paid (testnet : bool) (to asset : string) (op : HiveOperation) : Z :=
  match op with
  | HiveTransfer _ to' amt asset' _ =>
      if String.eqb to' to && String.eqb asset' (toHiveAssetName testnet asset)
      then default 0 (ParseAssetAmount amt asset) else 0
  | _ => 0
  end.

Definition op_saved (op : HiveOperation) : Z :=
  match op with
  | TransferToSavings _ _ amt _ _ => default 0 (ParseAssetAmount amt "hbd")
  | TransferFromSavings _ _ amt _ _ _ => - default 0 (ParseAssetAmount amt "hbd")
  | _ => 0
  end.

Definition native (asset : string) : bool := String.eqb asset "hive" || String.eqb asset "hbd".

(** The actions the ledger emits: no negative amounts, withdrawals of native
    assets to a Hive account. *)
Definition action_ok (a : ActionRecord) : bool :=
  (0 <=? ar_Amount a) && (ar_Amount a <=? MaxInt64) &&
  (negb (String.eqb (ar_Type a) "withdraw") ||
   (native (ar_Asset a) && String.eqb (nth 0 (Split (ar_To a) colon) "") "hive"
    && (2 <=? length (Split (ar_To a) colon))%nat)).

(** What an action owes to an account, and its amount if it has a given type. *)
Definition owed (to asset : string) (a : ActionRecord) : Z :=
  if String.eqb (ar_Type a) "withdraw" && String.eqb (ar_Asset a) asset
     && String.eqb (nth 1 (Split (ar_To a) colon) "") to then ar_Amount a else 0.

Definition typed (t : string) (a : ActionRecord) : Z := if String.eqb (ar_Type a) t then ar_Amount a else 0.

Definition hbd_unstake (a : ActionRecord) : bool :=
  String.eqb (ar_Type a) "unstake" && String.eqb (ar_Asset a) "hbd".

Definition total (t : string) (l : list ActionRecord) : Z := zsum (typed t <$> l).

(** ** Lemmas: amounts and names *)

Lemma written_amount x asset :
  native asset = true → 0 <= x <= MaxInt64 →
  ∃ amt, FormatAssetAmount x asset = Some amt ∧ ParseAssetAmount amt asset = Some x.
Proof.
  intros Ha Hx. pose proof (format_parse x asset) as Hf.
  rewrite (proj2 (Z.ltb_ge _ _)), wrap64_id in Hf by (unfold i64, MinInt64, MaxInt64 in *; lia).
  destruct (FormatAssetAmount x asset) as [amt|]; [exists amt; split; [done|]; apply Hf|];
    [|discriminate Hf];
    apply orb_true_iff in Ha as [Ha%String.eqb_eq|Ha%String.eqb_eq]; subst asset; by eexists.
Qed.

Lemma hive_name_inj testnet a b :
  native a = true → native b = true → toHiveAssetName testnet a = toHiveAssetName testnet b → a = b.
Proof.
  unfold native. intros Ha Hb.
  apply orb_true_iff in Ha as [Ha%String.eqb_eq|Ha%String.eqb_eq];
  apply orb_true_iff in Hb as [Hb%String.eqb_eq|Hb%String.eqb_eq]; subst; by destruct testnet.
Qed.

(** ** Lemmas: the loops *)

Section batches.
Context (gw : string) (testnet : bool).

Lemma withdraw_op_pays a :
  action_ok a = true → ar_Type a = "withdraw" →
  ∃ op, withdraw_op gw testnet a = Some (Some op) ∧ op_saved op = 0 ∧
        ∀ to asset, native asset = true → op_paid testnet to asset op = owed to asset a.
Proof.
  unfold action_ok, withdraw_op, owed. intros Hok Hty. rewrite Hty in *.
  apply andb_true_iff in Hok as [[H0%Z.leb_le H1%Z.leb_le]%andb_true_iff Hw]. cbn [String.eqb negb orb] in Hw.
  change (String.eqb "withdraw" "withdraw") with true in *. cbn [negb orb andb] in *.
  apply andb_true_iff in Hw as [[Hnat Hnet]%andb_true_iff Hlen].
  destruct (Split (ar_To a) colon) as [|net [|to' rest]]; [done|done|]. cbn [nth] in *.
  rewrite Hnet. cbn [negb]. destruct (written_amount (ar_Amount a) (ar_Asset a)) as (amt & Hf & Hp); [done|lia|].
  rewrite Hf. cbn [mbind option_bind]. eexists. split_and!; [done|done|].
  intros to asset Hasset. cbn [op_paid].
  destruct (String.eqb_spec (ar_Asset a) asset) as [<-|Hne].
  - rewrite String.eqb_refl, andb_true_r. cbn [andb]. destruct (String.eqb to' to); [by rewrite Hp|done].
  - cbn [andb]. destruct (String.eqb_spec (toHiveAssetName testnet (ar_Asset a)) (toHiveAssetName testnet asset))
      as [He|]; [|by rewrite andb_false_r].
    by apply hive_name_inj in He.
Qed.

(** The types are told apart by comparison with constants. *)
Lemma batch_action_spec b a :
  action_ok a = true → u64 (stakeBal b) → u64 (unstakeBal b) →
  stakeBal b + typed "stake" a <= MaxInt64 → unstakeBal b + typed "unstake" a <= MaxInt64 →
  ∃ b' l, batch_action gw testnet b a = Some b' ∧
    ops b' = ops b ++ l ∧ executedOps b' = executedOps b ++ [ar_Id a] ∧
    stakeBal b' = stakeBal b + typed "stake" a ∧ unstakeBal b' = unstakeBal b + typed "unstake" a ∧
    zsum (op_saved <$> l) = 0 ∧
    ∀ to asset, native asset = true → zsum (op_paid testnet to asset <$> l) = owed to asset a.
Proof.
  intros Hok Hs Hu Hbs Hbu. unfold batch_action, typed in *.
  assert (0 <= ar_Amount a <= MaxInt64) as Ha.
  { unfold action_ok in Hok. apply andb_true_iff in Hok as [[H0%Z.leb_le H1%Z.leb_le]%andb_true_iff _]. lia. }
  assert (∀ x, u64 x → x + ar_Amount a <= MaxInt64 → x +u64 wrapu64 (ar_Amount a) = x + ar_Amount a) as Hadd.
  { intros x Hx Hle. unfold u64_add. rewrite (wrapu64_id (ar_Amount a)), wrapu64_id; unfold_widths; lia. }
  destruct (String.eqb_spec (ar_Type a) "withdraw") as [E|Ew].
  - destruct (withdraw_op_pays a Hok E) as (op & Hop & Hsv & Hpd). rewrite Hop, E. cbn [mbind option_bind].
    eexists _, [op]. split_and!; [done|done|done|simpl; lia|simpl; lia|simpl; lia|].
    intros to asset Hn. simpl. rewrite Hpd by done. lia.
  - assert (∀ to asset, owed to asset a = 0) as Howed.
    { intros to asset. unfold owed. by rewrite (proj2 (String.eqb_neq _ _) Ew). }
    destruct (String.eqb_spec (ar_Type a) "stake") as [E|Es]; [|destruct (String.eqb_spec (ar_Type a) "unstake") as [E|Eu]];
      (eexists _, []; rewrite app_nil_r; split_and!; [done|done|done|..]; simpl);
      try rewrite E; simpl; rewrite ?Hadd by done; (lia || (intros; by rewrite Howed)).
Qed.

Lemma typed_nonneg t l : forallb action_ok l = true → 0 <= total t l.
Proof.
  intros Hok. apply zsum_nonneg, Forall_fmap, Forall_forall. intros a Ha. simpl.
  apply list_elem_of_In, (proj1 (forallb_forall _ _) Hok) in Ha. unfold action_ok in Ha. unfold typed.
  apply andb_true_iff in Ha as [[H0%Z.leb_le _]%andb_true_iff _]. by destruct (String.eqb _ _).
Qed.

Lemma batch_actions_spec l b :
  forallb action_ok l = true → 0 <= stakeBal b → 0 <= unstakeBal b →
  stakeBal b + total "stake" l <= MaxInt64 → unstakeBal b + total "unstake" l <= MaxInt64 →
  ∃ b' ps, batch_actions gw testnet b l = Some b' ∧
    ops b' = ops b ++ ps ∧ executedOps b' = executedOps b ++ (ar_Id <$> l) ∧
    stakeBal b' = stakeBal b + total "stake" l ∧ unstakeBal b' = unstakeBal b + total "unstake" l ∧
    zsum (op_saved <$> ps) = 0 ∧
    ∀ to asset, native asset = true → zsum (op_paid testnet to asset <$> ps) = zsum (owed to asset <$> l).
Proof.
  revert b. induction l as [|a l IH]; intros b Hok Hs Hu Hbs Hbu.
  - exists b, []. unfold total. rewrite !app_nil_r. split_and!; [done..|simpl; lia|simpl; lia|done|done].
  - cbn [forallb] in Hok. apply andb_true_iff in Hok as [Ha Hok]. unfold total in *. csimpl in *.
    pose proof (typed_nonneg "stake" l Hok). pose proof (typed_nonneg "unstake" l Hok). unfold total in *.
    assert (∀ t, 0 <= typed t a) as Hta.
    { intros t. pose proof (typed_nonneg t [a]) as Ht. unfold total in Ht. simpl in Ht. rewrite Ha in Ht.
      specialize (Ht eq_refl). lia. }
    pose proof (Hta "stake"). pose proof (Hta "unstake").
    destruct (batch_action_spec b a) as (b1 & l1 & E1 & Ho1 & He1 & Hs1 & Hu1 & Hsv1 & Hp1);
      [done|unfold_widths; lia|unfold_widths; lia|lia|lia|].
    destruct (IH b1) as (b2 & l2 & E2 & Ho2 & He2 & Hs2 & Hu2 & Hsv2 & Hp2); [done|lia|lia|lia|lia|].
    exists b2, (l1 ++ l2). cbn [batch_actions]. rewrite E1. cbn [mbind option_bind].
    rewrite Ho2, Ho1, He2, He1, <- !app_assoc, !fmap_app, !zsum_app, Hsv1, Hsv2.
    split_and!; [done|done|done|lia|lia|lia|]. intros to asset Hn.
    rewrite fmap_app, zsum_app, Hp1, Hp2 by done. done.
Qed.

(** The net operation saves the difference. *)
Lemma net_op_spec bh b :
  0 <= stakeBal b <= MaxInt64 → 0 <= unstakeBal b <= MaxInt64 →
  ∃ net, net_op gw testnet bh b = inr net ∧
    zsum (op_saved <$> net) = stakeBal b - unstakeBal b ∧
    ∀ to asset, zsum (op_paid testnet to asset <$> net) = 0.
Proof.
  intros Hs Hu. unfold net_op.
  assert (∀ x y, 0 <= y -> y < x <= MaxInt64 → wrap64 (x -u64 y) = x - y) as Hsub.
  { intros x y Hy Hx. unfold u64_sub. rewrite wrapu64_id, wrap64_id; unfold_widths; unfold i64; unfold_widths; lia. }
  destruct (Z.ltb_spec (unstakeBal b) (stakeBal b)).
  - destruct (written_amount (stakeBal b - unstakeBal b) "hbd") as (amt & Hf & Hp); [done|lia|].
    rewrite Hsub, Hf by lia. eexists. split_and!; [done| |done]. cbn [fmap list_fmap zsum op_saved]. rewrite Hp. simpl. lia.
  - destruct (Z.ltb_spec (stakeBal b) (unstakeBal b)).
    + destruct (written_amount (unstakeBal b - stakeBal b) "hbd") as (amt & Hf & Hp); [done|lia|].
      rewrite Hsub, Hf by lia. eexists. split_and!; [done| |done]. cbn [fmap list_fmap zsum op_saved]. rewrite Hp. simpl. lia.
    + eexists. split_and!; [done| |done]. simpl. lia.
Qed.
End batches.

(** ** Lemmas: the cleared unstakes *)

Lemma cleared_ids_all limit acc l :
  Forall (λ a, 0 <= ar_Amount a) l → 0 <= acc → acc + zsum (ar_Amount <$> l) <= limit → limit <= MaxInt64 →
  cleared_ids limit acc l = ar_Id <$> l.
Proof.
  intros Hpos. revert acc. induction Hpos as [|a l Ha Hl IH]; intros acc Hacc Hsum Hlim; [done|].
  csimpl in *. assert (0 <= zsum (ar_Amount <$> l)) by (by apply zsum_nonneg, Forall_fmap).
  assert (acc +u64 wrapu64 (ar_Amount a) = acc + ar_Amount a) as ->.
  { unfold u64_add. rewrite (wrapu64_id (ar_Amount a)), wrapu64_id; unfold_widths; lia. }
  rewrite (proj2 (Z.ltb_ge _ _)) by lia. f_equal. apply IH; lia.
Qed.

(** The loop never stops early: the limit is the sum of all unstakes. *)
Lemma cleared_all l :
  forallb action_ok l = true → total "unstake" l <= MaxInt64 →
  ∀ id, id ∈ clearedOps (total "unstake" l) l ↔ ∃ a, a ∈ l ∧ hbd_unstake a = true ∧ ar_Id a = id.
Proof.
  intros Hok Hmax id. unfold clearedOps. set (us := filter _ l).
  assert (Forall (λ a, 0 <= ar_Amount a) l) as Hpos.
  { apply Forall_forall. intros a Ha. apply list_elem_of_In, (proj1 (forallb_forall _ _) Hok) in Ha.
    unfold action_ok in Ha. by apply andb_true_iff in Ha as [[H0%Z.leb_le _]%andb_true_iff _]. }
  assert (zsum (ar_Amount <$> us) <= total "unstake" l) as Hsum.
  { unfold us, total. clear -Hpos. induction Hpos as [|a l Ha Hl IH]; [done|]. rewrite filter_cons. csimpl.
    unfold typed at 1. destruct (String.eqb (ar_Type a) "unstake"); cbn [andb]; case_decide; csimpl; try lia; done. }
  assert (merge_sort amount_le us ≡ₚ us) as Hperm by apply merge_sort_Permutation.
  rewrite cleared_ids_all; [|rewrite Hperm; apply Forall_forall; intros a [_ Ha]%list_elem_of_filter;
                             by apply (proj1 (Forall_forall _ _) Hpos)|done|by rewrite Hperm|done].
  rewrite Hperm, list_elem_of_fmap. unfold us. setoid_rewrite list_elem_of_filter. unfold hbd_unstake. naive_solver.
Qed.

Lemma bitset_spec cleared ids i bs k :
  Z.testbit (cleared_bitset i cleared ids bs) (Z.of_nat k)
  = Z.testbit bs (Z.of_nat k)
    || ((i <=? k)%nat && match ids !! (k - i)%nat with Some id => slices_Contains cleared id | None => false end).
Proof.
  revert i bs. induction ids as [|id ids IH]; intros i bs; cbn [cleared_bitset].
  - rewrite lookup_nil, andb_false_r, orb_false_r. done.
  - rewrite IH. destruct (Nat.leb_spec i k), (Nat.leb_spec (S i) k); try lia; cbn [andb].
    + replace (k - i)%nat with (S (k - S i)) by lia. cbn [lookup list_lookup].
      destruct (slices_Contains cleared id); [rewrite Z.setbit_neq by lia|]; done.
    + replace k with i by lia. rewrite Nat.sub_diag. cbn [lookup list_lookup].
      destruct (slices_Contains cleared id); [rewrite Z.setbit_eq by lia|]; by rewrite ?orb_true_r, ?orb_false_r.
    + destruct (slices_Contains cleared id); [rewrite Z.setbit_neq by lia|]; by rewrite orb_false_r.
Qed.

Lemma bitset_nonneg cleared ids i bs : 0 <= bs → 0 <= cleared_bitset i cleared ids bs.
Proof.
  revert i bs. induction ids as [|id ids IH]; intros i bs Hbs; cbn [cleared_bitset]; [done|]. apply IH.
  destruct (slices_Contains cleared id); [|done]. unfold Z.setbit. apply Z.lor_nonneg. split; [done|apply Z.shiftl_nonneg; lia].
Qed.

(** ** Lemmas: the whole batch *)

(** The shape of a batch built from the actions the ledger emits. *)
Lemma executeActions_shape gw testnet bh l :
  bh mod ACTION_INTERVAL = 0 → l ≠ [] → (length l <= MaxGatewayActionBatch)%nat →
  forallb action_ok l = true → total "stake" l <= MaxInt64 → total "unstake" l <= MaxInt64 →
  let ids := ar_Id <$> l in
  let bs := cleared_bitset 0 (clearedOps (total "unstake" l) l) ids 0 in
  ∃ rest, executeActions gw testnet bh l
            = Some (inr (CustomActions gw (mkActionUpdate ids (b64_encode std_char (Bytes bs))) :: rest)) ∧
    zsum (op_saved <$> rest) = total "stake" l - total "unstake" l ∧
    ∀ to asset, native asset = true → zsum (op_paid testnet to asset <$> rest) = zsum (owed to asset <$> l).
Proof.
  intros Hbh Hne Hlen Hok Hs Hu ids bs. unfold executeActions. rewrite Hbh. cbn [Z.eqb negb].
  rewrite bool_decide_false by done. rewrite (proj2 (Nat.ltb_ge _ _)) by done.
  pose proof (typed_nonneg "stake" l Hok). pose proof (typed_nonneg "unstake" l Hok).
  destruct (batch_actions_spec gw testnet l (mkBatch [] 0 0 0 0 [])) as (b & ps & E & Ho & He & Hs' & Hu' & Hsv & Hp);
    [done|done|done|simpl; lia|simpl; lia|]. simpl in Ho, He, Hs', Hu'.
  destruct (net_op_spec gw testnet bh b) as (net & En & Hnet & Hpn); [lia|lia|].
  cbv zeta. rewrite E. cbn [mbind option_bind]. rewrite En, He, Ho, Hu'. eexists. split_and!; [done| |].
  - rewrite fmap_app, zsum_app, Hsv, Hnet. lia.
  - intros to asset Hn. rewrite fmap_app, zsum_app, Hp, Hpn by done. lia.
Qed.

(** Two sorted readings of the same actions are equal. *)
Lemma action_sorted_unique (l k : list ActionRecord) :
  l ≡ₚ k → (∀ x y, x ∈ l → y ∈ l → ar_Id x = ar_Id y → x = y) →
  Sorted action_le l → Sorted action_le k → l = k.
Proof.
  intros Hp Hid Hl Hk. apply (Sorted_unique_strong action_le); [|exact Hl|exact Hk|exact Hp].
  intros x y Hx Hy Hxy Hyx. rewrite <- Hp in Hy. apply Hid; [done|done|].
  destruct Hxy as [?|[? H1]], Hyx as [?|[? H2]]; try lia. by apply (anti_symm String.le).
Qed.

Lemma NoDup_action_list (m : gmap string ActionRecord) :
  (∀ k r, m !! k = Some r → ar_Id r = k) → NoDup (action_list m).
Proof.
  intros Hkey. unfold action_list. apply NoDup_fmap_2_strong; [|apply NoDup_map_to_list].
  intros [k x] [k' x'] Hx%elem_of_map_to_list Hx'%elem_of_map_to_list. simpl. intros ->.
  apply Hkey in Hx, Hx'. congruence.
Qed.

(** ** Properties *)

(** A batch moves exactly what its actions are worth.  For pending actions
    as the ledger emits them the batch is built; read back from the text of its
    operations, it pays every account in every native asset the sum of the
    withdrawals addressed to it, and moves into savings the stakes less the
    unstakes; and its header lists every action. *)
Theorem batch_balances gw testnet bh l :
  bh mod ACTION_INTERVAL = 0 → l ≠ [] → (length l <= MaxGatewayActionBatch)%nat →
  forallb action_ok l = true → total "stake" l <= MaxInt64 → total "unstake" l <= MaxInt64 →
  ∃ header rest, executeActions gw testnet bh l = Some (inr (CustomActions gw header :: rest)) ∧
    Ops header = ar_Id <$> l ∧
    zsum (op_saved <$> rest) = total "stake" l - total "unstake" l ∧
    ∀ to asset, native asset = true → zsum (op_paid testnet to asset <$> rest) = zsum (owed to asset <$> l).
Proof.
  intros Hbh Hne Hlen Hok Hs Hu.
  destruct (executeActions_shape gw testnet bh l Hbh Hne Hlen Hok Hs Hu) as (rest & E & H1 & H2).
  eexists _, rest. split_and!; [exact E|done|done|exact H2].
Qed.

(** The marks of the header survive the trip through Hive.  When the text of
    the bit set has no character that the two base64 alphabets write differently,
    the bits [IndexActions] reads are set for exactly the HBD unstakes of the
    batch, so that each of them is credited after one block. *)
Theorem header_marks_read_back gw testnet bh l :
  bh mod ACTION_INTERVAL = 0 → l ≠ [] → (length l <= MaxGatewayActionBatch)%nat →
  forallb action_ok l = true → total "stake" l <= MaxInt64 → total "unstake" l <= MaxInt64 →
  NoDup (ar_Id <$> l) →
  ∃ header rest, executeActions gw testnet bh l = Some (inr (CustomActions gw header :: rest)) ∧
    (allc shared_char (ClearedOps header) = true →
     ∀ i a, l !! i = Some a →
       unstake_delay (cleared_bits (ClearedOps header)) i = if hbd_unstake a then 1 else HBD_UNSTAKE_BLOCKS).
Proof.
  intros Hbh Hne Hlen Hok Hs Hu Hnd.
  destruct (executeActions_shape gw testnet bh l Hbh Hne Hlen Hok Hs Hu) as (rest & E & _ & _).
  eexists _, rest. split; [exact E|]. cbn [ClearedOps]. intros Hsh i a Hi.
  unfold cleared_bits. rewrite std_to_url by (done || by apply bitset_nonneg).
  unfold unstake_delay. rewrite bitset_spec, Z.testbit_0_l, Nat.sub_0_r, list_lookup_fmap, Hi. cbn [fmap option_fmap option_map orb Nat.leb andb].
  destruct (slices_Contains _ _) eqn:Hc.
  - apply slices_Contains_spec, cleared_all in Hc as (a' & Hin & Hus & Hid); [|done|done].
    apply list_elem_of_lookup in Hin as [j Hj].
    assert (i = j) as <-.
    { eapply (NoDup_lookup _ _ _ _ Hnd); rewrite list_lookup_fmap; [by rewrite Hi|rewrite Hj; simpl; by rewrite Hid]. }
    rewrite Hi in Hj. injection Hj as <-. by rewrite Hus.
  - destruct (hbd_unstake a) eqn:Hus; [|done]. exfalso. apply not_true_iff_false in Hc. apply Hc.
    apply slices_Contains_spec, cleared_all; [done|done|]. exists a. split_and!; [by eapply list_elem_of_lookup_2|done|done].
Qed.

(** Cosigners agree.  Two nodes, whatever their databases are, that hold the
    same pending actions at a height build the same batch, in the same order; it
    does not depend on the actions that are settled or not yet due. *)
Theorem batch_deterministic {A1 A2 : Type} `{BridgeActionsLaws A1, BridgeActionsLaws A2} gw testnet bh (a1 : A1) (a2 : A2) :
  act_wf a1 → act_wf a2 →
  (∀ k r, actions a1 !! k = Some r → 0 <= ar_BlockHeight r <= MaxInt64) →
  (∀ k r, actions a2 !! k = Some r → 0 <= ar_BlockHeight r <= MaxInt64) →
  (∀ k r, is_pending bh ["withdraw"; "stake"; "unstake"] r = true →
          actions a1 !! k = Some r ↔ actions a2 !! k = Some r) →
  node_batch gw testnet bh a1 = node_batch gw testnet bh a2.
Proof.
  intros Hw1 Hw2 Hr1 Hr2 Hsame. unfold node_batch. f_equal. set (types := ["withdraw"; "stake"; "unstake"]) in *.
  destruct (pending_spec bh types a1 Hw1 Hr1) as (l1 & Hp1 & Hs1 & ->).
  destruct (pending_spec bh types a2 Hw2 Hr2) as (l2 & Hp2 & Hs2 & ->). f_equal.
  assert (∀ r, r ∈ l1 ↔ is_pending bh types r = true ∧ ∃ k, actions a1 !! k = Some r) as Hin.
  { intros r. by rewrite Hp1, list_elem_of_filter, elem_of_action_list. }
  apply action_sorted_unique; [|..|done|done].
  - rewrite Hp1, Hp2. apply NoDup_Permutation.
    + apply NoDup_filter, NoDup_action_list. intros k r. by apply actions_keyed.
    + apply NoDup_filter, NoDup_action_list. intros k r. by apply actions_keyed.
    + intros r. rewrite !list_elem_of_filter, !elem_of_action_list. naive_solver.
  - intros x y [_ [k Hx]]%Hin [_ [k' Hy]]%Hin Hid.
    pose proof (actions_keyed _ _ _ Hw1 Hx). pose proof (actions_keyed _ _ _ Hw1 Hy). congruence.
Qed.

(** The savings follow the balances.  When [syncBalance] proposes a transfer,
    the transfer is the one its header announces, it brings the protocol's
    savings to a third of the HBD that users hold, and at least an interval has
    passed since the last one. *)
Theorem sync_targets_third gw testnet bh balRecord balRecords l :
  let staked := from_option br_HBD_SAVINGS 0 balRecord in
  let held := zsum (br_HBD <$> filter (λ r, HasPrefix (br_Account r) "system:" = false) balRecords) in
  0 <= staked <= MaxInt64 → 0 <= held <= MaxInt64 → 0 <= bh <= MaxUint64 →
  syncBalance gw testnet bh balRecord (Some balRecords) = inr l →
  ∃ s u op, l = [CustomSync gw s u; op] ∧ op_saved op = s - u ∧ staked + (s - u) = held / 3 ∧
    ∀ r, balRecord = Some r → br_BlockHeight r + SYNC_INTERVAL <= bh.
Proof.
  intros staked held Hst Hheld Hbh. unfold syncBalance. destruct (negb _); [done|].
  destruct (sync_guard bh balRecord) eqn:Hg; [done|]. fold staked.
  set (hs := br_HBD <$> _) in *. assert (merge_sort desc hs ≡ₚ hs) as Hperm by apply merge_sort_Permutation.
  assert (∀ r, balRecord = Some r → br_BlockHeight r + SYNC_INTERVAL <= bh) as Hfresh.
  { intros r ->. cbn [sync_guard] in Hg. apply orb_false_iff in Hg as [H1%Z.ltb_ge H2%Z.ltb_ge].
    unfold u64_sub in H2. rewrite wrapu64_id in H2 by (unfold SYNC_INTERVAL in *; unfold_widths; lia). lia. }
  cbv zeta. destruct (_ <? 6)%nat; [done|].
  assert (foldl i64_add 0 (merge_sort desc hs) = held) as ->.
  { fold (sum64 (merge_sort desc hs)). rewrite (sum64_Permutation _ _ Hperm). apply sum64_exact.
    fold held. unfold i64, MinInt64, MaxInt64 in *. lia. }
  rewrite Z.quot_div_nonneg by lia. pose proof (Z.div_pos held 3) as Hp3. pose proof (Z.div_le_upper_bound held 3 held) as Hle3.
  assert (∀ x y, 0 <= y <= x → x <= MaxInt64 → x -64 y = x - y) as Hsub.
  { intros x y Hxy Hx. apply i64_sub_exact. unfold i64, MinInt64. lia. }
  set (third := held / 3) in *. assert (0 <= third <= MaxInt64) as Hth by lia.
  destruct (Z.ltb_spec staked third); [|destruct (Z.ltb_spec third staked)]; rewrite ?Hsub by lia.
  all: repeat case_match; intros; simplify_eq; try rewrite andb_false_r in *; try done.
  all: try (match goal with
    | E : FormatAssetAmount ?x "hbd" = Some ?amt |- _ =>
        destruct (written_amount x "hbd") as (amt' & Hf & Hpa); [done|lia|];
        rewrite E in Hf; injection Hf as <-;
        eexists _, _, _; split_and!; [done|cbn [op_saved]; rewrite Hpa; simpl; lia|lia|done]
    end).
Qed.

(** ** Behaviours worth knowing *)

(** A request for a height far in the future is accepted at once. *)
Lemma far_future_accepted interval blockHeight bh observed :
  0 <= bh → 10 <= blockHeight <= MaxUint64 → blockHeight mod interval = 0 → bh + 10 < blockHeight →
  waitCheckBh interval blockHeight bh observed = true.
Proof.
  intros H0 Hb Hm Hfar. unfold waitCheckBh. rewrite Hm. cbn [Z.eqb negb].
  rewrite (proj2 (Z.ltb_lt bh blockHeight)) by lia. unfold u64_sub. rewrite wrapu64_id by (unfold_widths; lia).
  by rewrite (proj2 (Z.ltb_lt _ _)) by lia.
Qed.
