(* ===== verification/Delegation.v ===== *)
(** Delegated consensus stake: [modules/ledger-system/delegation_rewards.go] and
    [delegation_migration.go].

    A delegation is an edge from the account that staked to the node that holds
    the bond.  Since version 0.5.0 every stake writes its edge as a row of the
    virtual asset [delegation]; the settlement groups those rows by node.  Older
    stakes have no edge: the activation recovers it by pairing the two legs of
    each stake by their base id, and seeds one row per edge and one total per
    node, once.

    Go ranges over a map in an unspecified order: [range_pairs] and [range_net]
    are the orders of the two loops whose body is not sorted afterwards.  The
    errors of a read are an argument where the code returns on one; the other
    reads and the write are the fail-stop loops of [LedgerDb.v]. *)
From S2P Require Import Prelude GoMaps GoStrings LedgerDb LedgerTypes.

(** ** Keys *)

Definition splitDelegationEdgeKey (key : string) : string * string :=
  match SplitN2 key delegationEdgeSep with
  | [from; to] => (from, to)
  | _ => (key, "")
  end.

Definition splitLedgerBaseId (id : string) : string * string :=
  match CutLast id hash with
  | Some (base, suffix) => (base, suffix)
  | None => (id, "")
  end.

(** ** The edges of every node *)

Abbreviation edge_map := (gmap string (gmap string Z)).

Definition group_net (records : list LedgerRecord) : gmap string Z :=
  foldl (λ net r, if negb (String.eqb (lr_Asset r) AssetDelegation) then net
                  else map_add net (lr_Owner r, lr_Amount r)) ∅ records.

Definition group_edge (out : edge_map) (kv : string * Z) : edge_map :=
  let '(key, amt) := kv in
  if amt <=? 0 then out
  else
    let '(from, to) := splitDelegationEdgeKey key in
    if String.eqb from "" || String.eqb to "" then out
    else <[to := <[from := amt]> (default ∅ (out !! to))]> out.

Definition groupDelegationEdges (range_net : gmap string Z → list (string * Z)) (records : list LedgerRecord)
    : edge_map :=
  foldl group_edge ∅ (range_net (group_net records)).

(** ** Recovering the edges of older stakes *)

Record stakePair := mkStakePair {
  sp_from : string;
  sp_to : string;
  sp_amount : Z;
  hasFrom : bool;
  hasTo : bool;
}.

Definition bf_skip (r : LedgerRecord) : bool :=
  String.eqb (lr_Asset r) AssetDelegation || String.eqb (lr_Asset r) AssetDelegationTotal.

Definition pair_step (suffix : string) (p : stakePair) (r : LedgerRecord) : stakePair :=
  if String.eqb suffix "in" then mkStakePair (lr_Owner r) (sp_to p) (sp_amount p) true (hasTo p)
  else if String.eqb suffix "out" then mkStakePair (sp_from p) (lr_Owner r) (lr_Amount r) (hasFrom p) true
  else p.

Definition no_pair : stakePair := mkStakePair "" "" 0 false false.

(** One round of the first loop, on the pairs and the edges. *)
Definition backfill_step (st : gmap string stakePair * gmap string Z) (r : LedgerRecord)
    : gmap string stakePair * gmap string Z :=
  let '(stakes, edges) := st in
  if bf_skip r then (stakes, edges)
  else
    let '(base, suffix) := splitLedgerBaseId (lr_Id r) in
    if String.eqb (lr_Type r) "consensus_stake" then
      (<[base := pair_step suffix (default no_pair (stakes !! base)) r]> stakes, edges)
    else if String.eqb (lr_Type r) "consensus_unstake" then
      if String.eqb suffix "in" then
        (stakes, map_add edges (DelegationEdgeKey (lr_Owner r) (lr_Owner r), lr_Amount r))
      else (stakes, edges)
    else (stakes, edges).

Definition add_pair (edges : gmap string Z) (bp : string * stakePair) : gmap string Z :=
  let p := bp.2 in
  if hasFrom p && hasTo p then map_add edges (DelegationEdgeKey (sp_from p) (sp_to p), sp_amount p) else edges.

Definition backfill_edges (range_pairs : gmap string stakePair → list (string * stakePair))
    (records : list LedgerRecord) : gmap string Z :=
  let '(stakes, edges) := foldl backfill_step (∅, ∅) records in
  foldl add_pair edges (range_pairs stakes).

Definition edge_update (atHeight : Z) (ka : string * Z) : LedgerUpdate :=
  update ("delegation_backfill:" +:+ ka.1) ka.1 ka.2 AssetDelegation "consensus_stake" atHeight.

Definition total_update (atHeight : Z) (na : string * Z) : LedgerUpdate :=
  update ("delegation_backfill_total:" +:+ na.1) na.1 na.2 AssetDelegationTotal "consensus_stake" atHeight.

(** The edges that are kept: the positive ones, in the order of their keys. *)
Definition kept_edges (edges : gmap string Z) : list (string * Z) :=
  filter (λ ka, negb (ka.2 <=? 0) = true) ((λ k, (k, zget edges k)) <$> sorted_keys edges).

Definition BackfillDelegationEdges (range_pairs : gmap string stakePair → list (string * stakePair))
    (records : list LedgerRecord) (atHeight : Z) : list LedgerUpdate :=
  let edges := backfill_edges range_pairs records in
  let kept := kept_edges edges in
  let totals := foldl (λ totals ka, map_add totals ((splitDelegationEdgeKey ka.1).2, ka.2)) ∅ kept in
  (edge_update atHeight <$> kept)
  ++ ((λ n, total_update atHeight (n, zget totals n)) <$> sorted_keys totals).

(** ** The migration *)

Definition delegationMigrationAccount : string := "system:delegation_migration".
Definition delegationMigrationAsset : string := "delegation_migration".
Definition delegationMigrationMarkerID : string := "delegation_migration_done".

Definition update_row (e : LedgerUpdate) : LedgerRecord :=
  row (lu_Id e) "" (lu_BlockHeight e) (lu_Amount e) (lu_Asset e) (lu_Owner e) "" (lu_Type e).

Definition marker_row (blockHeight : Z) : LedgerRecord :=
  row delegationMigrationMarkerID "" blockHeight (wrap64 blockHeight) delegationMigrationAsset
    delegationMigrationAccount "" delegationMigrationAsset.

Section migration.
Context {S : Type} `{LedgerDb S}.
Context (range_pairs : gmap string stakePair → list (string * stakePair)).
Context (range_net : gmap string Z → list (string * Z)).
Implicit Types s : S.

Definition consensus_types : list string := ["consensus_stake"; "consensus_unstake"].

(** [None] is the result [ok=false] of a failed read. *)
Definition AllDelegationEdges (read_ok : bool) (blockHeight : Z) s : option edge_map :=
  if negb read_ok then None
  else Some (groupDelegationEdges range_net (GetLedgerRecordsByType consensus_types blockHeight s)).

(** The batch the migration stores. *)
Definition migration_rows (blockHeight : Z) s : list LedgerRecord :=
  (update_row <$> BackfillDelegationEdges range_pairs (GetLedgerRecordsByType consensus_types blockHeight s) blockHeight)
  ++ [marker_row blockHeight].

Definition migrated (blockHeight : Z) s : bool :=
  negb (bool_decide (GetLedgerRange delegationMigrationAccount 0 blockHeight delegationMigrationAsset [] s = [])).

Definition MigrateDelegationEdgesOnce (blockHeight : Z) s : S * Z :=
  if migrated blockHeight s then (s, 0)
  else
    let edges := BackfillDelegationEdges range_pairs (GetLedgerRecordsByType consensus_types blockHeight s) blockHeight in
    let seeded := foldl (λ n e, if String.eqb (lu_Asset e) AssetDelegation then n + 1 else n) 0 edges in
    (storeLedgerOrFail (migration_rows blockHeight s) s, seeded).
End migration.

(** ** What the edges should be *)

(** A leg of a stake that predates the edges. *)
Definition stake_leg (suffix base : string) (r : LedgerRecord) : bool :=
  negb (bf_skip r) && String.eqb (lr_Type r) "consensus_stake"
  && bool_decide (splitLedgerBaseId (lr_Id r) = (base, suffix)).

(** The debit leg of the stake a row belongs to. *)
Definition debit_leg (rs : list LedgerRecord) (base : string) : option LedgerRecord :=
  last (filter (λ r, stake_leg "in" base r = true) rs).

(** What a row adds to an edge: the amount of a credit leg whose debit leg names
    the delegator, or the (negative) amount of an unstake of the node's own. *)
Definition edge_part (rs : list LedgerRecord) (key : string) (r : LedgerRecord) : Z :=
  let '(base, suffix) := splitLedgerBaseId (lr_Id r) in
  if stake_leg "out" base r then
    match debit_leg rs base with
    | Some r' => if String.eqb (DelegationEdgeKey (lr_Owner r') (lr_Owner r)) key then lr_Amount r else 0
    | None => 0
    end
  else if negb (bf_skip r) && String.eqb (lr_Type r) "consensus_unstake" && String.eqb suffix "in"
          && String.eqb (DelegationEdgeKey (lr_Owner r) (lr_Owner r)) key
  then lr_Amount r else 0.

Definition legacy_stake (rs : list LedgerRecord) (key : string) : Z := zsum (edge_part rs key <$> rs).

(** ** Lemmas: keys *)

Lemma splitEdgeKey_Some key from to :
  splitDelegationEdgeKey key = (from, to) → to ≠ "" → key = DelegationEdgeKey from to.
Proof.
  unfold splitDelegationEdgeKey, SplitN2. destruct (Cut key delegationEdgeSep) as [[a b]|] eqn:Hc; [|by intros [= <- <-]].
  intros [= <- <-] _. by apply Cut_Some in Hc.
Qed.

(** Only [CutLast] looks inside an id: a base and a non-empty suffix determine
    it. *)
Lemma splitBase_inj a b base suffix :
  suffix ≠ "" → splitLedgerBaseId a = (base, suffix) → splitLedgerBaseId b = (base, suffix) → a = b.
Proof.
  assert (∀ x, suffix ≠ "" → splitLedgerBaseId x = (base, suffix) → x = base +:+ String hash suffix) as Hx.
  { intros x Hs. unfold splitLedgerBaseId. destruct (CutLast x hash) as [[u v]|] eqn:Hc; [|by intros [= <- <-]].
    intros [= <- <-]. clear Hs. revert u v Hc. induction x as [|c x IH]; intros u v; [done|]. cbn [CutLast].
    destruct (CutLast x hash) as [[u' v']|] eqn:E.
    - intros [= <- <-]. by rewrite sapp_cons, <- (IH u' v').
    - destruct (Ascii.eqb_spec c hash) as [->|]; [|done]. by intros [= <- <-]. }
  intros Hs Ha Hb. by rewrite (Hx a Hs Ha), (Hx b Hs Hb).
Qed.

(** ** Lemmas: the first loop *)

Definition is_stake (base : string) (r : LedgerRecord) : bool :=
  negb (bf_skip r) && String.eqb (lr_Type r) "consensus_stake"
  && String.eqb (splitLedgerBaseId (lr_Id r)).1 base.

(** The pair the loop ends up with for a base id. *)
Definition pair_of (rs : list LedgerRecord) (base : string) : stakePair :=
  let i := last (filter (λ r, stake_leg "in" base r = true) rs) in
  let o := last (filter (λ r, stake_leg "out" base r = true) rs) in
  mkStakePair (from_option lr_Owner "" i) (from_option lr_Owner "" o) (from_option lr_Amount 0 o)
    (bool_decide (is_Some i)) (bool_decide (is_Some o)).

Definition unstake_entry (r : LedgerRecord) : option (string * Z) :=
  if negb (bf_skip r) && String.eqb (lr_Type r) "consensus_unstake"
     && String.eqb (splitLedgerBaseId (lr_Id r)).2 "in"
  then Some (DelegationEdgeKey (lr_Owner r) (lr_Owner r), lr_Amount r) else None.

Lemma backfill_edges_loop rs st :
  (foldl backfill_step st rs).2
  = foldl (λ m r, match unstake_entry r with Some kv => map_add m kv | None => m end) st.2 rs.
Proof.
  revert st. induction rs as [|r rs IH]; intros [stakes edges]; [done|]. cbn [foldl]. rewrite IH. f_equal.
  unfold backfill_step, unstake_entry. destruct (bf_skip r); [done|]. destruct (splitLedgerBaseId (lr_Id r)) as [base suffix]. cbn [snd negb andb].
  destruct (String.eqb_spec (lr_Type r) "consensus_stake") as [->|]; [done|].
  destruct (String.eqb (lr_Type r) "consensus_unstake"); [|done]. by destruct (String.eqb suffix "in").
Qed.

Lemma last_filter_snoc (f : LedgerRecord → bool) rs r :
  last (filter (λ r, f r = true) (rs ++ [r])) = if f r then Some r else last (filter (λ r, f r = true) rs).
Proof.
  rewrite filter_app, filter_cons, filter_nil. destruct (f r) eqn:E.
  - rewrite decide_True by done. apply last_snoc.
  - rewrite decide_False by done. by rewrite app_nil_r.
Qed.

Lemma stake_leg_spec suffix base r :
  stake_leg suffix base r = is_stake base r && String.eqb (splitLedgerBaseId (lr_Id r)).2 suffix.
Proof.
  unfold stake_leg, is_stake. destruct (splitLedgerBaseId (lr_Id r)) as [b x].
  destruct (negb (bf_skip r) && String.eqb (lr_Type r) "consensus_stake"); [|done]. cbn [andb fst snd].
  destruct (String.eqb_spec b base) as [->|], (String.eqb_spec x suffix) as [->|];
    (by apply bool_decide_eq_true_2) || (apply bool_decide_eq_false_2; congruence).
Qed.

Lemma backfill_stakes_loop rs base :
  (foldl backfill_step (∅, ∅) rs).1 !! base
  = if existsb (is_stake base) rs then Some (pair_of rs base) else None.
Proof.
  induction rs as [|r rs IH] using rev_ind; [done|]. rewrite foldl_app. cbn [foldl].
  destruct (foldl backfill_step (∅, ∅) rs) as [stakes edges]. simpl in IH. rewrite existsb_app. cbn [existsb]. rewrite orb_false_r.
  unfold pair_of. rewrite !last_filter_snoc, !stake_leg_spec. unfold backfill_step.
  change (is_stake base r) with (negb (bf_skip r) && String.eqb (lr_Type r) "consensus_stake"
    && String.eqb (splitLedgerBaseId (lr_Id r)).1 base). destruct (bf_skip r); [cbn [negb andb]; by rewrite orb_false_r|].
  destruct (splitLedgerBaseId (lr_Id r)) as [b suffix]. cbn [negb andb fst snd].
  destruct (String.eqb (lr_Type r) "consensus_stake").
  2: { cbn [andb]. rewrite orb_false_r. destruct (String.eqb _ _); [|done]. by destruct (String.eqb _ _). }
  cbn [andb fst]. destruct (String.eqb_spec b base) as [->|Hne].
  2: { cbn [andb]. by rewrite orb_false_r, lookup_insert_ne, IH. }
  rewrite orb_true_r, lookup_insert_eq. f_equal. rewrite IH.
  assert (default no_pair (if existsb (is_stake base) rs then Some (pair_of rs base) else None) = pair_of rs base) as ->.
  { destruct (existsb (is_stake base) rs) eqn:E; [done|]. unfold pair_of.
    assert (∀ suf, filter (λ r, stake_leg suf base r = true) rs = []) as Hnone; [|by rewrite !Hnone].
    intros suf. apply filter_none. intros x Hx Hleg. apply not_true_iff_false in E. apply E, existsb_exists.
    exists x. split; [by apply list_elem_of_In|]. rewrite stake_leg_spec in Hleg. by apply andb_true_iff in Hleg as [? _]. }
  unfold pair_step, pair_of. cbn [sp_to sp_from sp_amount hasFrom hasTo andb].
  destruct (String.eqb_spec suffix "in") as [->|Hi]; [done|]. by destruct (String.eqb_spec suffix "out") as [->|Ho].
Qed.

(** ** Lemmas: the recovered edges *)

Lemma last_filter_unique (f : LedgerRecord → bool) rs r :
  r ∈ rs → f r = true → (∀ x, x ∈ rs → f x = true → x = r) → last (filter (λ r, f r = true) rs) = Some r.
Proof.
  intros Hr Hf Hu. assert (r ∈ filter (λ r, f r = true) rs) as Hin by by apply list_elem_of_filter.
  destruct (last (filter (λ r, f r = true) rs)) as [x|] eqn:Hl.
  - apply last_Some in Hl as [l Hl]. assert (x ∈ filter (λ r, f r = true) rs) as Hx by (rewrite Hl; set_solver).
    apply list_elem_of_filter in Hx as [Hfx Hx]. by rewrite (Hu x Hx Hfx).
  - apply last_None in Hl. rewrite Hl in Hin. by apply not_elem_of_nil in Hin.
Qed.

Lemma last_filter_none (f : LedgerRecord → bool) rs :
  (∀ x, x ∈ rs → f x = false) → last (filter (λ r, f r = true) rs) = None.
Proof. intros Hn. rewrite filter_none; [done|]. intros x Hx Hf. rewrite Hn in Hf; done. Qed.

(** Which row is last does not depend on the order when there is at most one. *)
Lemma last_filter_perm (f : LedgerRecord → bool) rs rs' :
  (∀ x y, x ∈ rs → y ∈ rs → f x = true → f y = true → x = y) → filter (λ r, f r = true) rs ≡ₚ filter (λ r, f r = true) rs' →
  last (filter (λ r, f r = true) rs) = last (filter (λ r, f r = true) rs').
Proof.
  intros Hu Hp. assert (∀ x y, x ∈ filter (λ r, f r = true) rs → y ∈ filter (λ r, f r = true) rs → x = y) as Hu'.
  { intros x y [Hfx Hx]%list_elem_of_filter [Hfy Hy]%list_elem_of_filter. eauto. }
  destruct (last (filter (λ r, f r = true) rs)) as [x|] eqn:E1, (last (filter (λ r, f r = true) rs')) as [y|] eqn:E2.
  - f_equal. apply last_Some in E1 as [l1 E1]. apply last_Some in E2 as [l2 E2]. apply Hu'; [rewrite E1; set_solver|].
    rewrite Hp, E2. set_solver.
  - apply last_None in E2. rewrite E2 in Hp. apply Permutation_nil_r in Hp. by rewrite Hp in E1.
  - apply last_None in E1. rewrite E1 in Hp. apply Permutation_nil_l in Hp. by rewrite <- Hp in E2.
  - done.
Qed.

Definition out_leg (r : LedgerRecord) : bool := stake_leg "out" (splitLedgerBaseId (lr_Id r)).1 r.
Definition base_of (r : LedgerRecord) : string := (splitLedgerBaseId (lr_Id r)).1.

Lemma stake_leg_id suffix base r r' :
  suffix ≠ "" → stake_leg suffix base r = true → stake_leg suffix base r' = true → lr_Id r = lr_Id r'.
Proof.
  unfold stake_leg. rewrite !andb_true_iff, !bool_decide_eq_true. intros Hs [_ H1] [_ H2]. by eapply splitBase_inj.
Qed.

Lemma leg_unique suffix base rs x y :
  suffix ≠ "" → NoDup (lr_Id <$> rs) → x ∈ rs → y ∈ rs →
  stake_leg suffix base x = true → stake_leg suffix base y = true → x = y.
Proof.
  intros Hs Hnd Hx Hy Hlx Hly. pose proof (stake_leg_id _ _ _ _ Hs Hlx Hly) as Hid.
  apply list_elem_of_lookup in Hx as [i Hi], Hy as [j Hj].
  assert (i = j) as ->; [|congruence].
  eapply (NoDup_lookup _ _ _ (lr_Id x) Hnd); rewrite list_lookup_fmap; [by rewrite Hi|by rewrite Hj, Hid].
Qed.

Lemma stake_leg_base suffix base r : stake_leg suffix base r = true → base_of r = base.
Proof. unfold stake_leg, base_of. rewrite !andb_true_iff, bool_decide_eq_true. by intros [_ ->]. Qed.

Lemma out_leg_spec r base : stake_leg "out" base r = out_leg r && String.eqb (base_of r) base.
Proof.
  unfold out_leg. fold (base_of r). destruct (String.eqb_spec (base_of r) base) as [<-|Hne]; [by rewrite andb_true_r|].
  rewrite andb_false_r. apply not_true_iff_false. by intros ?%stake_leg_base.
Qed.

(** What a pair adds to an edge. *)
Definition pair_entry (p : stakePair) : option (string * Z) :=
  if hasFrom p && hasTo p then Some (DelegationEdgeKey (sp_from p) (sp_to p), sp_amount p) else None.

Definition entry_value (k : string) (e : option (string * Z)) : Z :=
  match e with Some kv => if String.eqb kv.1 k then kv.2 else 0 | None => 0 end.

Definition stake_part (rs : list LedgerRecord) (k : string) (r : LedgerRecord) : Z :=
  if out_leg r then entry_value k (pair_entry (pair_of rs (base_of r))) else 0.

Section recovered.
Context (rs : list LedgerRecord) (k : string).
Hypothesis Hnd : NoDup (lr_Id <$> rs).

Lemma edge_part_split r :
  r ∈ rs → edge_part rs k r = stake_part rs k r + entry_value k (unstake_entry r).
Proof.
  intros Hr. unfold edge_part, stake_part, unstake_entry, out_leg, base_of, debit_leg.
  destruct (splitLedgerBaseId (lr_Id r)) as [base suffix] eqn:Hsp. cbn [fst snd].
  destruct (stake_leg "out" base r) eqn:Hleg.
  - assert (last (filter (λ r, stake_leg "out" base r = true) rs) = Some r) as Ho.
    { apply last_filter_unique; [done|done|]. intros x Hx Hlx. by apply (leg_unique "out" base rs). }
    assert (String.eqb (lr_Type r) "consensus_unstake" = false) as Hty.
    { unfold stake_leg in Hleg. rewrite !andb_true_iff in Hleg. destruct Hleg as [[_ ->%String.eqb_eq] _]. done. }
    rewrite Hty, andb_false_r. cbn [andb entry_value]. rewrite Z.add_0_r.
    unfold pair_of, pair_entry. rewrite Ho. cbn [hasFrom hasTo sp_from sp_to sp_amount from_option].
    change (bool_decide (is_Some (Some r))) with true. rewrite andb_true_r.
    by destruct (last (filter (λ r0, stake_leg "in" base r0 = true) rs)).
  - rewrite Z.add_0_l. destruct (negb (bf_skip r) && String.eqb (lr_Type r) "consensus_unstake" && String.eqb suffix "in"); [|done]. cbn [andb entry_value fst snd]. done.
Qed.

Lemma stakes_sum :
  msum (λ p, entry_value k (pair_entry p)) (foldl backfill_step (∅, ∅) rs).1 = zsum (stake_part rs k <$> rs).
Proof.
  set (m := (foldl backfill_step (∅, ∅) rs).1). set (G := λ b, entry_value k (pair_entry (pair_of rs b))).
  assert (∀ b, m !! b = if existsb (is_stake b) rs then Some (pair_of rs b) else None) as Hm by apply backfill_stakes_loop.
  set (outs := filter (λ r, out_leg r = true) rs).
  assert (NoDup (base_of <$> outs)) as HndB.
  { apply NoDup_fmap_2_strong; [|apply NoDup_filter; by eapply NoDup_fmap_1].
    intros x y [Hx Hxr]%list_elem_of_filter [Hy Hyr]%list_elem_of_filter Hb.
    eapply (leg_unique "out" (base_of x)); [done|done|done|done|exact Hx|]. rewrite Hb. exact Hy. }
  assert (zsum (stake_part rs k <$> rs) = zsum (G <$> (base_of <$> outs))) as ->.
  { unfold outs. clear. unfold stake_part, G. generalize rs at 2 4 as l.
    induction l as [|r l IH]; [done|]. rewrite filter_cons. csimpl. rewrite IH.
    destruct (out_leg r) eqn:E; [rewrite decide_True by done; done|rewrite decide_False by congruence; done]. }
  rewrite msum_list.
  assert ((λ p, entry_value k (pair_entry p)) <$> (map_to_list m).*2 = G <$> (map_to_list m).*1) as ->.
  { rewrite <- !list_fmap_compose. apply list_fmap_ext. intros i [b p] Hi. simpl.
    apply list_elem_of_lookup_2, elem_of_map_to_list in Hi. rewrite Hm in Hi. destruct (existsb _ _); [|done]. by injection Hi as <-. }
  set (K := (map_to_list m).*1). assert (NoDup K) as HndK by apply NoDup_fst_map_to_list.
  rewrite (zsum_Permutation (G <$> K) (G <$> (base_of <$> outs) ++ filter (λ b, b ∉ base_of <$> outs) K)).
  - rewrite fmap_app, zsum_app, (zsum_map_0 G (filter _ K)); [lia|]. intros b [Hb _]%list_elem_of_filter.
    unfold G, pair_of, pair_entry. cbn [hasFrom hasTo].
    rewrite (last_filter_none (stake_leg "out" b)); [change (bool_decide (is_Some (@None LedgerRecord))) with false; by rewrite andb_false_r|].
    intros x Hx. rewrite out_leg_spec. apply not_true_iff_false. intros [Hox <-%String.eqb_eq]%andb_true_iff.
    apply Hb, list_elem_of_fmap_2, list_elem_of_filter. done.
  - apply fmap_Permutation, NoDup_Permutation; [done| |].
    + apply NoDup_app. split_and!; [done| |by apply NoDup_filter]. intros b Hb [Hn _]%list_elem_of_filter. done.
    + intros b. rewrite elem_of_app, list_elem_of_filter. split.
      * intros Hb. destruct (decide (b ∈ base_of <$> outs)); [by left|by right].
      * intros [Hb|[_ Hb]]; [|done]. apply list_elem_of_fmap in Hb as (r & -> & [Hr Hrs]%list_elem_of_filter).
        unfold K. apply list_elem_of_fmap. exists (base_of r, pair_of rs (base_of r)). split; [done|].
        apply elem_of_map_to_list. rewrite Hm.
        assert (existsb (is_stake (base_of r)) rs = true) as ->; [|done]. apply existsb_exists. exists r.
        split; [by apply list_elem_of_In|]. unfold out_leg in Hr. rewrite stake_leg_spec in Hr. by apply andb_true_iff in Hr as [? _].
Qed.

Lemma backfill_edges_value range : range_ok range → zget (backfill_edges range rs) k = wrap64 (legacy_stake rs k).
Proof.
  intros Hr. unfold backfill_edges.
  pose proof stakes_sum as Hst. pose proof (backfill_edges_loop rs (∅, ∅)) as Hed.
  destruct (foldl backfill_step (∅, ∅) rs) as [stakes edges]. cbn [fst snd] in Hst, Hed.
  assert (∀ l e, foldl add_pair e l
    = foldl (λ m bp, match pair_entry bp.2 with Some kv => map_add m kv | None => m end) e l) as ->.
  { intros l. induction l as [|bp l IH]; intros e; [done|]. cbn [foldl]. rewrite IH. unfold add_pair, pair_entry.
    by destruct (hasFrom bp.2 && hasTo bp.2). }
  assert (zget edges k = wrap64 (zsum ((λ r, entry_value k (unstake_entry r)) <$> rs))) as He.
  { rewrite Hed, zget_accumulate; [by rewrite zget_empty, Z.add_0_l|]. by rewrite zget_empty. }
  rewrite zget_accumulate by (rewrite He; apply wrap64_range). rewrite He, wrap64_add_l. apply (f_equal wrap64).
  change (zsum ((λ r, entry_value k (unstake_entry r)) <$> rs) + zsum ((λ bp, entry_value k (pair_entry bp.2)) <$> range stakes)
    = legacy_stake rs k).
  rewrite (zsum_Permutation _ _ (fmap_Permutation _ _ _ (Hr stakes))).
  change (λ bp : string * stakePair, entry_value k (pair_entry bp.2)) with ((λ p, entry_value k (pair_entry p)) ∘ @snd string stakePair).
  rewrite list_fmap_compose, <- msum_list, Hst, Z.add_comm, <- zsum_map_add. unfold legacy_stake. symmetry. apply zsum_map_ext.
  apply edge_part_split.
Qed.
End recovered.

(** ** Lemmas: the seeded rows *)

Lemma kept_edges_elem m k a : (k, a) ∈ kept_edges m ↔ a = zget m k ∧ 0 < a.
Proof.
  unfold kept_edges. rewrite list_elem_of_filter, list_elem_of_fmap. cbn [fst snd].
  rewrite negb_true_iff, Z.leb_gt. setoid_rewrite sorted_keys_elem. split.
  - intros [Ha (k' & [= -> ->] & _)]. done.
  - intros [-> Ha]. split; [done|]. exists k. split; [done|]. unfold zget in Ha. destruct (m !! k); [by eexists|simpl in Ha; lia].
Qed.

(** Two maps with the same values keep the same edges, in the same order. *)
Lemma kept_edges_ext m1 m2 : (∀ k, zget m1 k = zget m2 k) → kept_edges m1 = kept_edges m2.
Proof.
  intros Hz.
  assert (∀ m, kept_edges m = (λ k, (k, zget m k)) <$> filter (λ k, negb (zget m k <=? 0) = true) (sorted_keys m)) as Hk.
  { intros m. unfold kept_edges. generalize (sorted_keys m) as l. induction l as [|k l IH]; [done|]. csimpl.
    rewrite !filter_cons. cbn [snd]. case_decide; csimpl; by rewrite IH. }
  rewrite !Hk. assert (filter (λ k, negb (zget m1 k <=? 0) = true) (sorted_keys m1)
                      = filter (λ k, negb (zget m2 k <=? 0) = true) (sorted_keys m2)) as ->.
  - apply (Sorted_unique String.le).
    + apply (Sorted_filter String.le), sort_Strings_Sorted.
    + apply (Sorted_filter String.le), sort_Strings_Sorted.
    + apply NoDup_Permutation.
      * apply NoDup_filter. unfold sorted_keys. rewrite sort_Strings_Permutation. apply NoDup_fst_map_to_list.
      * apply NoDup_filter. unfold sorted_keys. rewrite sort_Strings_Permutation. apply NoDup_fst_map_to_list.
      * assert (∀ (m : gmap string Z) k, negb (zget m k <=? 0) = true → is_Some (m !! k)) as Hpos.
        { intros m k Hn%negb_true_iff%Z.leb_gt. unfold zget in Hn. destruct (m !! k); [done|simpl in Hn; lia]. }
        intros k. rewrite !list_elem_of_filter, !sorted_keys_elem, Hz. split; intros [Hn _]; (split; [done|]);
          apply Hpos; [done|by rewrite Hz].
  - apply list_fmap_ext. intros i k _. by rewrite Hz.
Qed.

Lemma Backfill_ext range range' rs rs' h :
  (∀ k, zget (backfill_edges range rs) k = zget (backfill_edges range' rs') k) →
  BackfillDelegationEdges range rs h = BackfillDelegationEdges range' rs' h.
Proof. intros Hz. unfold BackfillDelegationEdges. by rewrite (kept_edges_ext _ _ Hz). Qed.

Lemma bf_skip_leg suffix base r : bf_skip r = true → stake_leg suffix base r = false.
Proof. unfold stake_leg. by intros ->. Qed.

Lemma edge_part_skip rs k r : bf_skip r = true → edge_part rs k r = 0.
Proof. intros Hs. unfold edge_part. destruct (splitLedgerBaseId _). rewrite bf_skip_leg by done. by rewrite Hs. Qed.

(** The recovered stake depends only on the rows that predate the edges, in any
    order. *)
Lemma legacy_stake_ext rs rs' k :
  NoDup (lr_Id <$> rs) → filter (λ r, bf_skip r = false) rs ≡ₚ filter (λ r, bf_skip r = false) rs' →
  legacy_stake rs k = legacy_stake rs' k.
Proof.
  intros Hnd Hp.
  assert (∀ base, debit_leg rs base = debit_leg rs' base) as Hd.
  { intros base. unfold debit_leg. apply last_filter_perm.
    - intros x y Hx Hy. by apply (leg_unique "in" base rs).
    - assert (∀ l : list LedgerRecord, filter (λ r, stake_leg "in" base r = true) l
        = filter (λ r, stake_leg "in" base r = true) (filter (λ r, bf_skip r = false) l)) as Hf.
      { intros l. rewrite list_filter_filter. apply list_filter_iff. intros r. split; [|by intros [? _]].
        intros Hl. split; [done|]. destruct (bf_skip r) eqn:E; [|done]. by rewrite bf_skip_leg in Hl. }
      rewrite (Hf rs), (Hf rs'). by apply filter_Permutation. }
  assert (∀ r, edge_part rs k r = edge_part rs' k r) as He.
  { intros r. unfold edge_part. destruct (splitLedgerBaseId _). by rewrite Hd. }
  assert (∀ l : list LedgerRecord, zsum (edge_part rs' k <$> l) = zsum (edge_part rs' k <$> filter (λ r, bf_skip r = false) l)) as Hz.
  { intros l. induction l as [|r l IH]; [done|]. rewrite filter_cons. csimpl. destruct (bf_skip r) eqn:E.
    - rewrite decide_False by done. rewrite edge_part_skip by done. lia.
    - rewrite decide_True by done. csimpl. lia. }
  unfold legacy_stake. rewrite (zsum_map_ext _ (edge_part rs' k) rs) by (intros; apply He).
  rewrite (Hz rs), (Hz rs'). by apply zsum_Permutation, fmap_Permutation.
Qed.

Lemma Backfill_perm range range' rs rs' h :
  range_ok range → range_ok range' → NoDup (lr_Id <$> rs) → NoDup (lr_Id <$> rs') →
  filter (λ r, bf_skip r = false) rs ≡ₚ filter (λ r, bf_skip r = false) rs' →
  BackfillDelegationEdges range rs h = BackfillDelegationEdges range' rs' h.
Proof.
  intros Hr Hr' Hnd Hnd' Hp. apply Backfill_ext. intros k. rewrite !backfill_edges_value by done.
  apply (f_equal wrap64). by apply legacy_stake_ext.
Qed.

(** The total of a node is the sum of the edges that end in it. *)
Lemma totals_value (l : list (string * Z)) n :
  zget (foldl (λ totals ka, map_add totals ((splitDelegationEdgeKey ka.1).2, ka.2)) ∅ l) n
  = sum64 (snd <$> filter (λ ka, (splitDelegationEdgeKey ka.1).2 = n) l).
Proof.
  pose proof (zget_accumulate (λ ka : string * Z, Some ((splitDelegationEdgeKey ka.1).2, ka.2)) l ∅ n) as Hz.
  cbn beta iota in Hz. rewrite Hz by by rewrite zget_empty. rewrite zget_empty, Z.add_0_l, sum64_wrap. apply (f_equal wrap64). clear Hz. cbn [fst snd].
  induction l as [|ka l IH]; [done|]. rewrite filter_cons. csimpl.
  destruct (String.eqb_spec (splitDelegationEdgeKey ka.1).2 n); case_decide; try done; csimpl; lia.
Qed.

(** ** Lemmas: grouping *)

Definition edge_at (out : edge_map) (to from : string) : option Z := out !! to ≫= (.!! from).

(** Whether an entry of the net map is the edge from [from] to [to]. *)
Definition is_edge (from to : string) (kv : string * Z) : bool :=
  (0 <? kv.2) && bool_decide (splitDelegationEdgeKey kv.1 = (from, to))
  && negb (String.eqb from "") && negb (String.eqb to "").

Lemma group_edge_at out kv to from :
  edge_at (group_edge out kv) to from = if is_edge from to kv then Some kv.2 else edge_at out to from.
Proof.
  destruct kv as [key amt]. unfold group_edge, is_edge, edge_at. cbn [fst snd].
  destruct (Z.leb_spec amt 0), (Z.ltb_spec 0 amt); try lia; [done|]. cbn [andb].
  destruct (splitDelegationEdgeKey key) as [f t].
  destruct (bool_decide_reflect ((f, t) = (from, to))) as [[= -> ->]|Hne]; cbn [andb].
  - destruct (String.eqb from ""), (String.eqb to ""); try done. cbn [orb negb andb].
    rewrite lookup_insert_eq. cbn [mbind option_bind]. by rewrite lookup_insert_eq.
  - destruct (String.eqb f "" || String.eqb t ""); [done|]. destruct (decide (t = to)) as [->|Ht].
    + rewrite lookup_insert_eq. cbn [mbind option_bind]. rewrite lookup_insert_ne by congruence.
      destruct (out !! to); [done|]. simpl. by rewrite lookup_empty.
    + by rewrite lookup_insert_ne.
Qed.

Lemma is_edge_key from to kv : is_edge from to kv = true → kv.1 = DelegationEdgeKey from to.
Proof.
  unfold is_edge. rewrite !andb_true_iff, bool_decide_eq_true, !negb_true_iff.
  intros [[[_ Hs] _] Ht%String.eqb_neq]. by apply splitEdgeKey_Some.
Qed.

(** Only one entry can be a given edge, so the loop sets it to that entry. *)
Lemma group_fold_at l out to from :
  NoDup l.*1 →
  edge_at (foldl group_edge out l) to from
  = match list_find (λ kv, is_edge from to kv = true) l with Some (_, kv) => Some kv.2 | None => edge_at out to from end.
Proof.
  revert out. induction l as [|kv l IH]; intros out Hnd; [done|]. cbn [foldl].
  csimpl in Hnd. apply NoDup_cons in Hnd as [Hk Hnd]. rewrite IH by done. rewrite group_edge_at. cbn [list_find].
  destruct (is_edge from to kv) eqn:E.
  - rewrite decide_True by done. assert (list_find (λ kv, is_edge from to kv = true) l = None) as ->; [|done].
    apply list_find_None, Forall_forall. intros kv' Hin E'. apply Hk.
    rewrite (is_edge_key _ _ _ E), <- (is_edge_key _ _ _ E'). by apply list_elem_of_fmap_2.
  - rewrite decide_False by done. destruct (list_find _ l) as [[i kv']|]; done.
Qed.

Lemma group_net_value rs k :
  zget (group_net rs) k
  = wrap64 (zsum ((λ r, if String.eqb (lr_Asset r) AssetDelegation && String.eqb (lr_Owner r) k then lr_Amount r else 0) <$> rs)).
Proof.
  set (f r := if String.eqb (lr_Asset r) AssetDelegation then Some (lr_Owner r, lr_Amount r) else None).
  assert (∀ m, foldl (λ net r, if negb (String.eqb (lr_Asset r) AssetDelegation) then net
                  else map_add net (lr_Owner r, lr_Amount r)) m rs
            = foldl (λ m r, match f r with Some kv => map_add m kv | None => m end) m rs) as Hf.
  { induction rs as [|r l IH]; intros m; [done|]. cbn [foldl]. rewrite IH. unfold f. by destruct (String.eqb _ _). }
  unfold group_net. rewrite Hf, zget_accumulate by by rewrite zget_empty. rewrite zget_empty, Z.add_0_l. apply (f_equal wrap64).
  apply zsum_map_ext. intros r _. unfold f. by destruct (String.eqb (lr_Asset r) AssetDelegation).
Qed.

(** The grouped edges are the positive sums of the rows of each edge. *)
Lemma group_spec range rs to from a :
  range_ok range →
  edge_at (groupDelegationEdges range rs) to from = Some a ↔
  let key := DelegationEdgeKey from to in
  splitDelegationEdgeKey key = (from, to) ∧ from ≠ "" ∧ to ≠ "" ∧ 0 < a ∧
  a = wrap64 (zsum ((λ r, if String.eqb (lr_Asset r) AssetDelegation && String.eqb (lr_Owner r) key
                          then lr_Amount r else 0) <$> rs)).
Proof.
  intros Hr. cbv zeta. set (key := DelegationEdgeKey from to). rewrite <- group_net_value. unfold groupDelegationEdges. set (net := group_net rs).
  assert (∀ kv, kv ∈ range net ↔ net !! kv.1 = Some kv.2) as Hin.
  { intros [k v]. rewrite (Hr net), elem_of_map_to_list. done. }
  rewrite group_fold_at by (rewrite (fmap_Permutation fst _ _ (Hr net)); apply NoDup_fst_map_to_list).
  assert (is_edge from to (key, a) = true ↔
          splitDelegationEdgeKey key = (from, to) ∧ from ≠ "" ∧ to ≠ "" ∧ 0 < a) as Hedge.
  { unfold is_edge. cbn [fst snd]. rewrite !andb_true_iff, bool_decide_eq_true, !negb_true_iff, Z.ltb_lt, !String.eqb_neq. tauto. }
  destruct (list_find _ (range net)) as [[i kv]|] eqn:Hfind.
  - apply list_find_Some in Hfind as (Hi & He & _). apply list_elem_of_lookup_2, Hin in Hi.
    pose proof (is_edge_key _ _ _ He) as Hkey. fold key in Hkey. rewrite Hkey in Hi. destruct kv as [k v]. cbn [fst snd] in *.
    subst k. assert (zget net key = v) as -> by by (unfold zget; rewrite Hi). split.
    + intros [= ->]. apply Hedge in He. tauto.
    + intros (_ & _ & _ & _ & ->). done.
  - apply list_find_None in Hfind. split; [done|]. intros (H1 & H2 & H3 & H4 & Ha). exfalso.
    rewrite Forall_forall in Hfind. apply (Hfind (key, a)); [|by apply Hedge]. apply Hin. cbn [fst snd].
    unfold zget in Ha. destruct (net !! key); [by subst|simpl in Ha; lia].
Qed.

(** ** Lemmas: the migration *)

(** No row of the migration has been written. *)
Definition unmigrated (m : ledger) : Prop :=
  ∀ k r, m !! k = Some r → HasPrefix k "delegation_backfill" = false ∧ k ≠ delegationMigrationMarkerID.

Lemma backfill_update_shape range rs h u :
  u ∈ BackfillDelegationEdges range rs h →
  HasPrefix (lu_Id u) "delegation_backfill" = true ∧
  (lu_Asset u = AssetDelegation ∨ lu_Asset u = AssetDelegationTotal) ∧ lu_Type u = "consensus_stake".
Proof.
  unfold BackfillDelegationEdges. rewrite elem_of_app, !list_elem_of_fmap.
  intros [(ka & -> & _)|(n & -> & _)]; cbn [edge_update total_update update lu_Id lu_Asset lu_Type]; split_and!; eauto.
Qed.

Lemma row_shape range rs h bh r :
  r ∈ (update_row <$> BackfillDelegationEdges range rs h) ++ [marker_row bh] →
  (HasPrefix (lr_Id r) "delegation_backfill" = true ∧ bf_skip r = true) ∨ r = marker_row bh.
Proof.
  rewrite elem_of_app, list_elem_of_fmap, list_elem_of_singleton. intros [(u & -> & Hu)| ->]; [left|by right].
  apply backfill_update_shape in Hu as (Hp & Ha & _). split; [exact Hp|].
  unfold bf_skip. cbn [update_row row lr_Asset]. destruct Ha as [->| ->]; done.
Qed.

Section migration_laws.
Context {S : Type} `{LedgerDbLaws S}.
Context (range : gmap string stakePair → list (string * stakePair)) (Hrange : range_ok range).
Implicit Types s : S.

Lemma migration_ids h s : Forall (λ r, lr_Id r ≠ "") (migration_rows range h s).
Proof.
  apply Forall_forall. intros r [[Hp _]| ->]%row_shape; [|done]. intros E. by rewrite E in Hp.
Qed.

Lemma migrated_spec h s :
  db_wf s →
  migrated h s = true ↔
  ∃ k r, rows s !! k = Some r ∧ in_query delegationMigrationAccount 0 h delegationMigrationAsset [] r = true.
Proof.
  intros Hwf. unfold migrated. rewrite negb_true_iff, bool_decide_eq_false. split.
  - intros Hne. destruct (GetLedgerRange _ _ _ _ _ s) as [|r l] eqn:E; [done|].
    assert (r ∈ r :: l) as Hr by left. rewrite <- E, elem_of_range in Hr by done. destruct Hr as (Hq & k & Hk). eauto.
  - intros (k & r & Hk & Hq) Hnil.
    assert (r ∈ GetLedgerRange delegationMigrationAccount 0 h delegationMigrationAsset [] s) as Hr
      by (apply elem_of_range; eauto).
    rewrite Hnil in Hr. by apply not_elem_of_nil in Hr.
Qed.

(** A store that holds part of the batch still gives the batch. *)
Lemma migration_rows_stable h j s s' :
  db_wf s → db_wf s' → unmigrated (rows s) →
  rows s' = upserts (take j (migration_rows range h s)) (rows s) → migration_rows range h s' = migration_rows range h s.
Proof.
  intros Hwf Hwf' Hun Hrows. unfold migration_rows. f_equal. f_equal.
  apply Backfill_perm; [done|done|by apply NoDup_by_type|by apply NoDup_by_type|].
  assert (∀ x, x ∈ take j (migration_rows range h s) → x ∈ migration_rows range h s) as Htake.
  { intros x Hx. rewrite <- (take_drop j (migration_rows range h s)). apply elem_of_app. by left. }
  assert (∀ s0, db_wf s0 → NoDup (GetLedgerRecordsByType consensus_types h s0)) as Hnd.
  { intros s0 Hs0. by eapply NoDup_fmap_1, NoDup_by_type. }
  apply NoDup_Permutation; [by apply NoDup_filter, Hnd|by apply NoDup_filter, Hnd|].
  intros r. rewrite !list_elem_of_filter, !elem_of_by_type by done. rewrite Hrows. split.
  - intros (Hsk & Hty & k & Hk). split_and!; [done|apply Hty|apply Hty|].
    apply lookup_upserts_cases in Hk as [[Hin _]|[_ Hk]]; [|by eauto].
    apply Htake, row_shape in Hin as [[_ Hs]| ->]; [congruence|]. exfalso. destruct Hty as [Hty _]. by vm_compute in Hty; set_solver.
  - intros (Hsk & Hty & k & Hk). split_and!; [done|apply Hty|apply Hty|]. exists k. rewrite lookup_upserts_ne; [done|].
    intros (x & -> & Hx)%list_elem_of_fmap. destruct (Hun _ _ Hk) as [Hp Hm].
    apply Htake, row_shape in Hx as [[Hx _]| ->]; [congruence|by apply Hm].
Qed.

(** The marker is the last row of the batch. *)
Lemma migrated_prefix h j s s' :
  db_wf s → db_wf s' → 0 <= h → migrated h s = false →
  rows s' = upserts (take j (migration_rows range h s)) (rows s) →
  migrated h s' = bool_decide (length (migration_rows range h s) <= j)%nat.
Proof.
  intros Hwf Hwf' Hh Hm Hrows. destruct (bool_decide_reflect (length (migration_rows range h s) <= j)%nat) as [Hle|Hgt].
  - rewrite take_ge in Hrows by done. apply migrated_spec; [done|]. exists delegationMigrationMarkerID, (marker_row h).
    split; [rewrite Hrows; unfold migration_rows; by rewrite upserts_app; apply lookup_insert_eq|].
    unfold in_query. cbn [marker_row row lr_Owner lr_BlockHeight lr_Asset lr_Type]. rewrite !String.eqb_refl.
    rewrite (proj2 (Z.leb_le _ _) Hh), Z.leb_refl. done.
  - apply not_true_iff_false. intros (k & r & Hk & Hq)%migrated_spec; [|done]. rewrite Hrows in Hk.
    apply lookup_upserts_cases in Hk as [[Hin _]|[_ Hk]].
    + unfold migration_rows in Hin, Hgt. rewrite length_app in Hgt. simpl in Hgt. rewrite take_app_le in Hin by lia.
      assert (bf_skip r = true) as Hsk.
      { apply list_elem_of_lookup in Hin as [i Hi]. apply lookup_take_Some in Hi as [Hi _].
        apply list_elem_of_lookup_2, list_elem_of_fmap in Hi as (u & -> & Hu).
        apply backfill_update_shape in Hu as (_ & Ha & _). unfold bf_skip. cbn [update_row row lr_Asset]. by destruct Ha as [->| ->]. }
      unfold in_query in Hq. rewrite !andb_true_iff in Hq. destruct Hq as [[_ Ha] _].
      unfold bf_skip in Hsk. apply orb_true_iff in Hsk as [Hsk%String.eqb_eq|Hsk%String.eqb_eq]; rewrite Hsk in Ha; done.
    + apply not_true_iff_false in Hm. apply Hm, migrated_spec; eauto.
Qed.
End migration_laws.

(** ** Properties *)

(** The activation recovers who staked what.  From the stake and unstake rows
    written before edges existed, the backfill seeds exactly the edges whose net
    stake (the credit legs paired with the debit leg of the delegator, less the
    unstakes of the node's own) is positive, with that amount; each total it
    seeds is the sum of the seeded edges that end in the node; and the seeded
    rows depend neither on the order of the records nor on the order in which
    the runtime walks its maps. *)
Theorem backfill_recovers_edges range range' rs rs' h :
  range_ok range → range_ok range' → NoDup (lr_Id <$> rs) → rs ≡ₚ rs' →
  let out := BackfillDelegationEdges range rs h in
  BackfillDelegationEdges range' rs' h = out ∧
  (∀ k a, edge_update h (k, a) ∈ out ↔ a = wrap64 (legacy_stake rs k) ∧ 0 < a) ∧
  (∀ u, u ∈ out → lu_Asset u = AssetDelegationTotal →
     lu_Amount u = sum64 (lu_Amount <$> filter (λ v, lu_Asset v = AssetDelegation ∧
                                                  (splitDelegationEdgeKey (lu_Owner v)).2 = lu_Owner u) out)).
Proof.
  intros Hr Hr' Hnd Hp out. split_and!.
  - symmetry. apply Backfill_perm; [done|done|done|by rewrite <- Hp|by apply filter_Permutation].
  - intros k a. rewrite <- (backfill_edges_value rs k Hnd range Hr), <- kept_edges_elem. unfold out, BackfillDelegationEdges.
    rewrite elem_of_app, !list_elem_of_fmap. split; [|by eauto].
    intros [([k' a'] & He & Hk)|(n & Hn & _)]; [|by apply (f_equal lu_Asset) in Hn].
    pose proof (f_equal lu_Owner He) as Hk'. pose proof (f_equal lu_Amount He) as Ha'. simpl in Hk', Ha'. by subst k' a'.
  - unfold out, BackfillDelegationEdges. set (kept := kept_edges _). cbv zeta.
    intros u Hu Hasset. apply elem_of_app in Hu as [(ka & -> & _)%list_elem_of_fmap|(n & -> & _)%list_elem_of_fmap]; [by vm_compute in Hasset|].
    rewrite filter_app. cbn [total_update update lu_Amount lu_Owner].
    rewrite (filter_none _ ((λ n, total_update h (n, _)) <$> _)), app_nil_r, totals_value.
    2: { intros x (y & -> & _)%list_elem_of_fmap [Hx _]. by vm_compute in Hx. }
    cbn [fst snd]. f_equal. clear. induction kept as [|ka l IH]; [done|]. csimpl. rewrite !filter_cons. cbn [edge_update update lu_Asset lu_Owner].
    destruct (decide ((splitDelegationEdgeKey ka.1).2 = n)) as [Hd|Hd].
    + rewrite decide_True by done. csimpl. by rewrite IH.
    + rewrite decide_False by by intros [_ ?]. done.
Qed.

(** The migration happens once, whatever interrupts it.  Wherever a crash
    cuts the write of the batch, running the migration again leaves the ledger
    that an uninterrupted run leaves; and after that it does nothing. *)
Theorem migration_crash_safe {S : Type} `{LedgerDbLaws S} range h j (s s' : S) :
  range_ok range → db_wf s → db_wf s' → 0 <= h → unmigrated (rows s) → migrated h s = false →
  rows s' = upserts (take j (migration_rows range h s)) (rows s) →
  let '(done, _) := MigrateDelegationEdgesOnce range h s in
  let '(again, _) := MigrateDelegationEdgesOnce range h s' in
  rows done = upserts (migration_rows range h s) (rows s) ∧ rows again = rows done ∧
  MigrateDelegationEdgesOnce range h again = (again, 0).
Proof.
  intros Hr Hwf Hwf' Hh Hun Hm Hrows. unfold MigrateDelegationEdgesOnce at 1 2. rewrite Hm.
  destruct (storeLedgerOrFail_spec (migration_rows range h s) s Hwf (migration_ids range h s)) as [_ Hdone].
  assert (∀ t, db_wf t → rows t = upserts (migration_rows range h s) (rows s) → MigrateDelegationEdgesOnce range h t = (t, 0)) as Hstop.
  { intros t Ht Hrt. unfold MigrateDelegationEdgesOnce.
    rewrite (migrated_prefix range h (length (migration_rows range h s)) s t); [by rewrite bool_decide_true|done..|].
    by rewrite take_ge. }
  rewrite (migrated_prefix range h j s s') by done. destruct (bool_decide_reflect (length (migration_rows range h s) <= j)%nat) as [Hle|Hgt].
  - rewrite take_ge in Hrows by done. split_and!; [done|by rewrite Hdone|by apply Hstop].
  - rewrite (migration_rows_stable range Hr h j s s') by done.
    destruct (storeLedgerOrFail_spec (migration_rows range h s) s' Hwf' (migration_ids range h s)) as [Hw2 H2].
    rewrite Hrows, upserts_retry in H2. split_and!; [done|by rewrite H2, Hdone|by apply Hstop].
Qed.

(** Every node sees the same edges.  At a height, the edges the settlement
    reads are, for each pair of accounts, the positive sum of the edge rows of
    the pair up to that height: they depend only on the rows of the ledger. *)
Theorem AllDelegationEdges_spec {S : Type} `{LedgerDbLaws S} range_net h (s : S) to from a :
  range_ok range_net → db_wf s →
  let key := DelegationEdgeKey from to in
  (∃ out, AllDelegationEdges range_net true h s = Some out ∧ edge_at out to from = Some a) ↔
  splitDelegationEdgeKey key = (from, to) ∧ from ≠ "" ∧ to ≠ "" ∧ 0 < a ∧
  a = wrap64 (qsum (λ r, bool_decide (lr_Type r ∈ consensus_types) && (lr_BlockHeight r <=? h)
                         && (String.eqb (lr_Asset r) AssetDelegation && String.eqb (lr_Owner r) key)) (rows s)).
Proof.
  intros Hr Hwf key. unfold AllDelegationEdges. cbn [negb].
  assert (zsum ((λ r, if String.eqb (lr_Asset r) AssetDelegation && String.eqb (lr_Owner r) key then lr_Amount r else 0)
                <$> GetLedgerRecordsByType consensus_types h s)
    = qsum (λ r, bool_decide (lr_Type r ∈ consensus_types) && (lr_BlockHeight r <=? h)
                 && (String.eqb (lr_Asset r) AssetDelegation && String.eqb (lr_Owner r) key)) (rows s)) as <-.
  { rewrite (zsum_Permutation _ _ (fmap_Permutation _ _ _ (proj1 (by_type_spec consensus_types h s Hwf)))).
    unfold qsum. rewrite msum_list. fold (row_list (rows s)). generalize (row_list (rows s)) as l.
    induction l as [|r l IH]; [done|]. rewrite filter_cons. csimpl. rewrite <- IH.
    destruct (bool_decide_reflect (lr_Type r ∈ consensus_types)), (Z.leb_spec (lr_BlockHeight r) h); cbn [andb];
      (rewrite decide_True by done) || (rewrite decide_False by (intros [? ?]; lia || done)); csimpl; lia. }
  pose proof (group_spec range_net (GetLedgerRecordsByType consensus_types h s) to from a Hr) as Hg. cbv zeta in Hg.
  fold key in Hg. rewrite <- Hg. split; [by intros (out & [= <-] & Ho)|by eauto].
Qed.
