(* ===== verification/Pendulum.v ===== *)
(** The incentive pendulum: [modules/incentive-pendulum/params.go],
    [pendulum_int.go], [collateral_int.go], [fees_int.go] and [floor.go].

    Swap fees are split between the nodes that secure the vault and the
    liquidity providers, by the ratio [s = V/E] of vault liquidity to effective
    bond.  The hard cliff and the edges of the collateral bands are derived from
    the equilibrium [TargetSBps] by inverting the yield-ratio curve
    [2 s^2 / (c - s)].

    A [big.Int] pointer is an [option Z], [None] for nil; a result is an [option],
    [None] for the panic of a division by zero; [Int64] truncates to 64 bits. *)
From Stdlib Require Import ZifyBool.
From S2P Require Import Prelude IntMath.

(** ** Parameters *)

Definition TargetSBps : Z := BpsScale.

Definition idealRatioLoBps : Z := 7364.
Definition idealRatioHiBps : Z := 13444.
Definition safeRatioLoBps : Z := 2571.
Definition safeRatioHiBps : Z := 32667.
Definition warnRatioLoBps : Z := 1667.
Definition warnRatioHiBps : Z := 45000.
Definition extremeRatioLoBps : Z := 1000.
Definition extremeRatioHiBps : Z := 100000.

Definition deriveCliffSBps (targetSBps : Z) : Z :=
  wrap64 (Z.quot (targetSBps * targetSBps * 2) BpsScale) +64 targetSBps.

Definition sEdgeForRatio (ratioBps cliffSBps : Z) : Z :=
  let disc := ratioBps * ratioBps + ratioBps * cliffSBps * 8 in
  wrap64 (Z.quot (Z.sqrt disc - ratioBps) 4).

Definition CliffSBps : Z := deriveCliffSBps TargetSBps.

Definition idealLoEdgeBps : Z := sEdgeForRatio idealRatioLoBps CliffSBps.
Definition idealHiEdgeBps : Z := sEdgeForRatio idealRatioHiBps CliffSBps.
Definition safeLoEdgeBps : Z := sEdgeForRatio safeRatioLoBps CliffSBps.
Definition safeHiEdgeBps : Z := sEdgeForRatio safeRatioHiBps CliffSBps.
Definition warnLoEdgeBps : Z := sEdgeForRatio warnRatioLoBps CliffSBps.
Definition warnHiEdgeBps : Z := sEdgeForRatio warnRatioHiBps CliffSBps.
Definition extremeLoEdgeBps : Z := sEdgeForRatio extremeRatioLoBps CliffSBps.
Definition extremeHiEdgeBps : Z := sEdgeForRatio extremeRatioHiBps CliffSBps.

Definition RedirectLoBps : Z := safeLoEdgeBps.
Definition RedirectHiBps : Z := safeHiEdgeBps.

Definition CliffTimesE (E : Z) : option Z := MulDivFloor E CliffSBps BpsScale.

Definition YieldRatioBps (sBps : Z) : Z :=
  if (sBps <=? 0) || (CliffSBps <=? sBps) then 0
  else wrap64 (Z.quot (sBps * sBps * 2) (CliffSBps -64 sBps)).

(** ** The split *)

Record SplitInputsInt := mkSplitInputsInt {
  in_R : option Z;
  in_E : option Z;
  in_T : option Z;
  in_V : option Z;
  in_P : option Z;
}.

Record SplitOutputsInt := mkSplitOutputsInt {
  FinalNodeShare : Z;
  FinalPoolShare : Z;
  UnderSecured : bool;
}.

(** The outer [None] is a panic, the inner one [ok = false]. *)
Definition SplitInt (i : SplitInputsInt) : option (option SplitOutputsInt) :=
  match in_R i, in_E i, in_T i, in_V i, in_P i with
  | Some R, Some E, Some T, Some V, Some P =>
      if (E <=? 0) || (T <=? 0) then Some None
      else if (R <? 0) || (V <? 0) || (P <? 0) then Some None
      else
        cE ← CliffTimesE E;
        if cE <=? V then Some (Some (mkSplitOutputsInt R 0 true))
        else if V =? 0 then Some (Some (mkSplitOutputsInt R 0 false))
        else
          let tvSquared := V * V * T in
          let cEMinusV := cE - V in
          let peTerm := P * E * cEMinusV in
          let denom := tvSquared + peTerm in
          if denom =? 0 then Some (Some (mkSplitOutputsInt R 0 false))
          else
            poolShare ← MulDivFloor R peTerm denom;
            Some (Some (mkSplitOutputsInt (R - poolShare) poolShare false))
  | _, _, _, _, _ => Some None
  end.

(** ** Collateral bands *)

Record CollateralReportBps := mkCollateralReportBps {
  SBps : Z;
  cr_UnderSecured : bool;
  IdealZone : bool;
  SafeGrowth : bool;
  WarningZone : bool;
  ExtremeLow : bool;
  ExtremeHigh : bool;
  ProtocolRedirectRecommended : bool;
  ProtocolRedirectToNodes : bool;
}.

Definition RatioSVBps (V E : option Z) : Z :=
  match V, E with
  | Some V, Some E =>
      if (E <=? 0) || (V <? 0) then 0
      else
        let num := Z.quot (V * BpsScale) E in
        if negb (IsInt64 num) then MaxInt64 else num
  | _, _ => 0
  end.

Definition EffectiveBondHBDInt (hiveStake : option Z) (hivePriceHBDBps effectiveFractionBps : Z) : option Z :=
  match hiveStake with
  | Some hiveStake =>
      if (hiveStake <=? 0) || (hivePriceHBDBps <=? 0) || (effectiveFractionBps <=? 0) then Some 0
      else
        let frac := if BpsScale <? effectiveFractionBps then BpsScale else effectiveFractionBps in
        MulDivFloor hiveStake (hivePriceHBDBps * frac) (BpsScale * BpsScale)
  | None => Some 0
  end.

Definition ProtocolFeeRedirectRecommendedBps (sBps : Z) : bool :=
  (sBps <? RedirectLoBps) || (RedirectHiBps <? sBps).

Definition ProtocolFeeRedirectToNodesBps (sBps : Z) : bool := RedirectHiBps <? sBps.

Definition CollateralFromSVBps (sBps : Z) : CollateralReportBps :=
  let rec := ProtocolFeeRedirectRecommendedBps sBps in
  mkCollateralReportBps sBps
    (CliffSBps <=? sBps)
    ((idealLoEdgeBps <=? sBps) && (sBps <=? idealHiEdgeBps))
    ((safeLoEdgeBps <=? sBps) && (sBps <=? safeHiEdgeBps))
    ((warnHiEdgeBps <? sBps) || (sBps <? warnLoEdgeBps))
    (sBps <? extremeLoEdgeBps)
    (extremeHiEdgeBps <? sBps)
    rec
    (if rec then ProtocolFeeRedirectToNodesBps sBps else false).

(** ** Fees *)

Definition ProtocolFeeRateBps : Z := 8.

Definition CLPFeeInt (x X Y : option Z) : option Z :=
  match x, X, Y with
  | Some x, Some X, Some Y =>
      if (x <=? 0) || (X <=? 0) || (Y <=? 0) then Some 0
      else MulDivFloor (x * x) Y ((x + X) * (x + X))
  | _, _, _ => Some 0
  end.

Record StabilizerParamsBps := mkStabilizerParamsBps {
  KBps : Z;
  R0Bps : Z;
  CapBps : Z;
  PushBps : Z;
}.

Definition DefaultStabilizerParamsBps : StabilizerParamsBps :=
  mkStabilizerParamsBps BpsScale (Z.quot BpsScale 100) (BpsScale * 2) BpsScale.

(** [None] in the middle is [ErrStabilizerOverflow]. *)
Definition StabilizerMultiplierBps (sBps rBps : Z) (p : StabilizerParamsBps) : option (option Z) :=
  let r0 := if R0Bps p <=? 0 then 1 else R0Bps p in
  let diff := sBps -64 TargetSBps in
  let diff := if diff <? 0 then -64 diff else diff in
  rOverR0 ← MulDivFloorI64 rBps BpsScale r0;
  match rOverR0 with
  | None => Some None
  | Some rOverR0 =>
      if MaxInt64 - BpsScale <? rOverR0 then Some None
      else
        let inner := BpsScale +64 rOverR0 in
        tail ← MulDivFloorI64 (KBps p) diff BpsScale;
        match tail with
        | None => Some None
        | Some tail =>
            tail ← MulDivFloorI64 tail inner BpsScale;
            match tail with
            | None => Some None
            | Some tail =>
                tail ← MulDivFloorI64 tail (PushBps p) BpsScale;
                match tail with
                | None => Some None
                | Some tail =>
                    if MaxInt64 - BpsScale <? tail then Some None
                    else
                      let m := BpsScale +64 tail in
                      if (0 <? CapBps p) && (CapBps p <? m) then Some (Some (CapBps p)) else Some (Some m)
                end
            end
        end
  end.

Definition ApplyMultiplierBps (fee : option Z) (mBps : Z) : option Z :=
  match fee with
  | Some fee => if (fee =? 0) || (mBps =? 0) then Some 0 else MulDivFloor fee mBps BpsScale
  | None => Some 0
  end.

(** ** The floor of the liquidity providers *)

Definition DefaultLPFloorBps : Z := 2500.

Definition MaxNodeShareBps (minFractionBps : Z) : Z :=
  if minFractionBps <=? 0 then BpsScale
  else
    let minFractionBps := if BpsScale <? minFractionBps then BpsScale else minFractionBps in
    BpsScale -64 minFractionBps.

(** ** Lemmas *)

Lemma CliffSBps_value : CliffSBps = 30000.
Proof. by vm_compute. Qed.

Lemma CliffTimesE_eq E : CliffTimesE E = Some (3 * E).
Proof.
  unfold CliffTimesE, MulDivFloor. rewrite CliffSBps_value. cbn [BpsScale Z.eqb]. f_equal.
  unfold BpsScale. replace (E * 30000) with (3 * E * 10000) by lia. by apply Z.quot_mul.
Qed.

(** The split of valid inputs, without the panics. *)
Definition pool_share (R E T V P : Z) : Z :=
  if (3 * E <=? V) || (V =? 0) then 0
  else R * (P * E * (3 * E - V)) / (V * V * T + P * E * (3 * E - V)).

Lemma SplitInt_eq R E T V P :
  0 < E → 0 < T → 0 <= R → 0 <= V → 0 <= P →
  SplitInt (mkSplitInputsInt (Some R) (Some E) (Some T) (Some V) (Some P))
  = Some (Some (mkSplitOutputsInt (R - pool_share R E T V P) (pool_share R E T V P) (3 * E <=? V))).
Proof.
  intros HE HT HR HV HP. unfold SplitInt, pool_share. cbn [in_R in_E in_T in_V in_P].
  rewrite !(proj2 (Z.leb_gt _ _)), !(proj2 (Z.ltb_ge _ _)) by lia. cbn [orb]. rewrite CliffTimesE_eq. cbn [mbind option_bind].
  destruct (Z.leb_spec (3 * E) V); cbn [orb]; [by rewrite Z.sub_0_r|].
  destruct (Z.eqb_spec V 0); [by rewrite Z.sub_0_r|]. cbv zeta.
  assert (0 < V * V * T) by nia. assert (0 <= P * E * (3 * E - V)) by (apply Z.mul_nonneg_nonneg; nia).
  rewrite (proj2 (Z.eqb_neq _ _)) by lia. by rewrite MulDivFloor_pos by lia.
Qed.

Lemma pool_share_bounds R E T V P :
  0 < E → 0 < T → 0 <= R → 0 <= V → 0 <= P → 0 <= pool_share R E T V P <= R.
Proof.
  intros HE HT HR HV HP. unfold pool_share. destruct (Z.leb_spec (3 * E) V); cbn [orb]; [lia|].
  destruct (Z.eqb_spec V 0); [lia|].
  assert (0 < V * V * T) by nia. assert (0 <= P * E * (3 * E - V)) by (apply Z.mul_nonneg_nonneg; nia).
  apply share_le; lia.
Qed.

(** A larger fraction has a larger floor. *)
Lemma div_le_cross r a b c d :
  0 <= r → 0 <= a → 0 < b → 0 < d → a * d <= c * b → r * a / b <= r * c / d.
Proof.
  intros Hr Ha Hb Hd Hx. apply Z.div_le_lower_bound; [done|].
  pose proof (Z.mul_div_le (r * a) b Hb). set (q := r * a / b) in *.
  assert (0 <= q) by (apply Z.div_pos; nia).
  assert (b * (d * q) <= b * (r * c)); [|nia].
  transitivity (d * (r * a)); [nia|]. nia.
Qed.

Lemma pool_share_anti R E T V V' P :
  0 < E → 0 < T → 0 <= R → 0 < V → V <= V' → 0 <= P → pool_share R E T V' P <= pool_share R E T V P.
Proof.
  intros HE HT HR HV HV' HP. pose proof (pool_share_bounds R E T V P HE HT HR ltac:(lia) HP) as [Hnn _].
  unfold pool_share in *. destruct (Z.leb_spec (3 * E) V'); cbn [orb]; [done|].
  rewrite (proj2 (Z.eqb_neq V' 0)), (proj2 (Z.leb_gt (3 * E) V)), (proj2 (Z.eqb_neq V 0)) in * by lia. cbn [orb] in *.
  set (a := P * E * (3 * E - V)) in *. set (a' := P * E * (3 * E - V')).
  assert (0 <= P * E) by nia. assert (0 <= a') by (apply Z.mul_nonneg_nonneg; lia).
  assert (a' <= a) by (apply Z.mul_le_mono_nonneg_l; lia).
  assert (0 < V * V * T) by nia. assert (V * V * T <= V' * V' * T) by (apply Z.mul_le_mono_nonneg_r; nia).
  apply div_le_cross; [done|done|lia|lia|]. nia.
Qed.

Lemma sqrt_edge rho c :
  0 < rho → 0 <= c →
  let s := Z.quot (Z.sqrt (rho * rho + rho * c * 8) - rho) 4 in
  0 <= s ∧ 2 * s * s + rho * s <= rho * c < 2 * (s + 1) * (s + 1) + rho * (s + 1).
Proof.
  intros Hr Hc s. set (disc := rho * rho + rho * c * 8) in *.
  pose proof (Z.sqrt_spec disc ltac:(unfold disc; nia)) as [H1 H2]. set (q := Z.sqrt disc) in *.
  assert (rho <= q) as Hq by (apply Z.sqrt_le_square; unfold disc; nia).
  unfold s. rewrite Z.quot_div_nonneg by lia. pose proof (Z.div_mod (q - rho) 4 ltac:(lia)) as Hdm.
  pose proof (Z.mod_pos_bound (q - rho) 4 ltac:(lia)) as Hmb. pose proof (Z.div_pos (q - rho) 4 ltac:(lia) ltac:(lia)).
  set (t := (q - rho) / 4) in *. split; [done|].
  assert (4 * t + rho <= q) by lia. assert (q + 1 <= 4 * t + 4 + rho) by lia.
  assert ((4 * t + rho) * (4 * t + rho) <= disc) by nia.
  assert (disc < (4 * t + 4 + rho) * (4 * t + 4 + rho)) by nia.
  unfold disc in *. split; nia.
Qed.

(** The multiplier without the overflow checks. *)
Definition stabilizer_tail (s r : Z) (p : StabilizerParamsBps) : Z :=
  let inner := BpsScale + r * BpsScale / Z.max 1 (R0Bps p) in
  KBps p * Z.abs (s - TargetSBps) / BpsScale * inner / BpsScale * PushBps p / BpsScale.

Lemma Stabilizer_eq s r p :
  0 <= s <= MaxInt64 → 0 <= r → 0 <= KBps p → 0 <= PushBps p →
  StabilizerMultiplierBps s r p = Some None ∨
  StabilizerMultiplierBps s r p
  = Some (Some (let m := BpsScale + stabilizer_tail s r p in if (0 <? CapBps p) && (CapBps p <? m) then CapBps p else m)).
Proof.
  intros Hs Hr HK HP. unfold StabilizerMultiplierBps, stabilizer_tail.
  assert ((if R0Bps p <=? 0 then 1 else R0Bps p) = Z.max 1 (R0Bps p)) as -> by (destruct (Z.leb_spec (R0Bps p) 0); lia).
  assert ((if s -64 TargetSBps <? 0 then -64 (s -64 TargetSBps) else s -64 TargetSBps) = Z.abs (s - TargetSBps)) as ->.
  { rewrite i64_sub_exact by (unfold i64, MinInt64, MaxInt64, TargetSBps, BpsScale in *; lia).
    destruct (Z.ltb_spec (s - TargetSBps) 0); [|lia]. unfold i64_neg. rewrite wrap64_id; [lia|].
    unfold i64, MinInt64, MaxInt64, TargetSBps, BpsScale in *. lia. }
  cbv zeta. set (B := BpsScale). assert (0 < B) as HB by done. set (diff := Z.abs (s - TargetSBps)). assert (0 <= diff) by lia.
  rewrite (MulDivFloorI64_pos r B) by lia. cbn [mbind option_bind].
  set (x1 := r * B / Z.max 1 (R0Bps p)). assert (0 <= x1) by (apply Z.div_pos; nia).
  destruct (Z.leb_spec x1 MaxInt64); [|by left]. destruct (Z.ltb_spec (MaxInt64 - B) x1); [by left|].
  rewrite (i64_add_exact B x1) by (unfold i64, MinInt64, MaxInt64, B, BpsScale in *; lia).
  rewrite (MulDivFloorI64_pos (KBps p) diff B) by lia. cbn [mbind option_bind].
  set (x2 := KBps p * diff / B). assert (0 <= x2) by (apply Z.div_pos; nia).
  destruct (Z.leb_spec x2 MaxInt64); [|by left].
  rewrite (MulDivFloorI64_pos x2 (B + x1) B) by lia. cbn [mbind option_bind].
  set (x3 := x2 * (B + x1) / B). assert (0 <= x3) by (apply Z.div_pos; nia).
  destruct (Z.leb_spec x3 MaxInt64); [|by left].
  rewrite (MulDivFloorI64_pos x3 (PushBps p) B) by lia. cbn [mbind option_bind].
  set (x4 := x3 * PushBps p / B). assert (0 <= x4) by (apply Z.div_pos; nia).
  destruct (Z.leb_spec x4 MaxInt64); [|by left]. destruct (Z.ltb_spec (MaxInt64 - B) x4); [by left|right].
  rewrite (i64_add_exact B x4) by (unfold i64, MinInt64, MaxInt64, B, BpsScale in *; lia). by destruct (_ && _).
Qed.

Lemma stabilizer_tail_mono s s' r p :
  0 <= r → 0 <= KBps p → 0 <= PushBps p → Z.abs (s - TargetSBps) <= Z.abs (s' - TargetSBps) →
  0 <= stabilizer_tail s r p <= stabilizer_tail s' r p.
Proof.
  intros Hr HK HP Hd. unfold stabilizer_tail. cbv zeta. set (B := BpsScale). assert (0 < B) as HB by done.
  set (x1 := r * B / Z.max 1 (R0Bps p)). assert (0 <= x1) by (apply Z.div_pos; nia).
  assert (0 <= KBps p * Z.abs (s - TargetSBps) / B) by (apply Z.div_pos; nia).
  assert (0 <= KBps p * Z.abs (s - TargetSBps) / B * (B + x1) / B) by (apply Z.div_pos; nia).
  split; [apply Z.div_pos; nia|].
  apply Z.div_le_mono; [done|]. apply Z.mul_le_mono_nonneg_r; [done|].
  apply Z.div_le_mono; [done|]. apply Z.mul_le_mono_nonneg_r; [lia|].
  apply Z.div_le_mono; [done|]. nia.
Qed.

(** ** Properties *)

(** The split conserves the pot.  On every valid input the split returns,
    never divides by zero, and gives the nodes and the liquidity providers
    non-negative shares that sum to the pot; at and above the cliff of three
    times the effective bond everything goes to the nodes; and more vault
    liquidity against the same bond never gives the providers a larger share,
    which is the restoring force of the pendulum. *)
Theorem split_conserves_and_swings R E T V V' P :
  0 < E → 0 < T → 0 <= R → 0 < V → V <= V' → 0 <= P →
  ∃ o o', SplitInt (mkSplitInputsInt (Some R) (Some E) (Some T) (Some V) (Some P)) = Some (Some o) ∧
    SplitInt (mkSplitInputsInt (Some R) (Some E) (Some T) (Some V') (Some P)) = Some (Some o') ∧
    FinalNodeShare o + FinalPoolShare o = R ∧ 0 <= FinalNodeShare o ∧ 0 <= FinalPoolShare o ∧
    (3 * E <= V → UnderSecured o = true ∧ FinalPoolShare o = 0) ∧
    FinalPoolShare o' <= FinalPoolShare o ∧ FinalNodeShare o <= FinalNodeShare o'.
Proof.
  intros HE HT HR HV HV' HP. eexists _, _. rewrite !SplitInt_eq by lia. split; [done|]. split; [done|].
  cbn [FinalNodeShare FinalPoolShare UnderSecured].
  pose proof (pool_share_bounds R E T V P HE HT HR ltac:(lia) HP). pose proof (pool_share_anti R E T V V' P HE HT HR HV HV' HP).
  split_and!; try lia. intros Hc. unfold pool_share. rewrite (proj2 (Z.leb_le _ _) Hc). done.
Qed.

(** Yields are equal at the equilibrium.  When the vault equals the effective
    bond and the pools hold half of it, a unit of bond and a unit of liquidity
    earn the same, up to the rounding of one base unit. *)
Theorem equilibrium_yields_equal R E T P :
  0 < T → 0 <= R → 0 < P → E = 2 * P →
  ∃ o, SplitInt (mkSplitInputsInt (Some R) (Some E) (Some T) (Some E) (Some P)) = Some (Some o) ∧
    0 <= FinalNodeShare o * E - FinalPoolShare o * T < T + E.
Proof.
  intros HT HR HP ->. eexists. rewrite SplitInt_eq by lia. split; [done|]. cbn [FinalNodeShare FinalPoolShare].
  unfold pool_share. rewrite (proj2 (Z.leb_gt _ _)), (proj2 (Z.eqb_neq _ _)) by lia. cbn [orb].
  assert (0 < 2 * P * (2 * P)) as Hpos by nia.
  replace (R * (P * (2 * P) * (3 * (2 * P) - 2 * P))) with (R * (2 * P) * (2 * P * (2 * P))) by ring.
  replace (2 * P * (2 * P) * T + P * (2 * P) * (3 * (2 * P) - 2 * P)) with ((T + 2 * P) * (2 * P * (2 * P))) by ring.
  rewrite Z.div_mul_cancel_r by lia.
  pose proof (Z.mul_div_le (R * (2 * P)) (T + 2 * P) ltac:(lia)). pose proof (Z.mul_succ_div_gt (R * (2 * P)) (T + 2 * P) ltac:(lia)).
  set (q := R * (2 * P) / (T + 2 * P)) in *. split; nia.
Qed.

(** The band edges invert the yield-ratio curve.  Each edge is the largest
    ratio, in basis points, at which the node-to-provider yield ratio is at most
    its threshold. *)
Theorem edge_inverts_ratio rho c :
  0 < rho <= MaxInt64 → 0 <= c <= MaxInt64 →
  let s := sEdgeForRatio rho c in
  0 <= s ∧ 2 * s * s + rho * s <= rho * c < 2 * (s + 1) * (s + 1) + rho * (s + 1).
Proof.
  intros Hr Hc. unfold sEdgeForRatio. cbv zeta. destruct (sqrt_edge rho c ltac:(lia) ltac:(lia)) as [H0 [H1 H2]].
  rewrite wrap64_id; [done|]. set (s := Z.quot _ 4) in *. split; [unfold MinInt64; lia|].
  destruct (Z.le_gt_cases s c); [lia|]. exfalso. nia.
Qed.

(** The bands are nested.  The edges are ordered around the equilibrium, below
    the cliff, so that the ideal zone lies in the safe zone, the safe zone
    outside the warning zone, the extremes inside it, and the protocol fee is
    redirected exactly outside the safe zone: to the nodes above it and to the
    providers below. *)
Theorem bands_nested s :
  let r := CollateralFromSVBps s in
  (IdealZone r = true → SafeGrowth r = true) ∧
  (SafeGrowth r = true → WarningZone r = false ∧ cr_UnderSecured r = false) ∧
  (ExtremeLow r = true ∨ ExtremeHigh r = true → WarningZone r = true) ∧
  (cr_UnderSecured r = true → ExtremeHigh r = true) ∧
  ProtocolRedirectRecommended r = negb (SafeGrowth r) ∧
  (ProtocolRedirectToNodes r = true ↔ SafeGrowth r = false ∧ TargetSBps < s).
Proof.
  assert (extremeLoEdgeBps = 3631 ∧ warnLoEdgeBps = 4601 ∧ safeLoEdgeBps = 5600 ∧ idealLoEdgeBps = 8829 ∧ TargetSBps = 10000 ∧
    idealHiEdgeBps = 11232 ∧ safeHiEdgeBps = 15427 ∧ warnHiEdgeBps = 17061 ∧ extremeHiEdgeBps = 21097 ∧ CliffSBps = 30000) as Hv
    by (vm_compute; done).
  destruct Hv as (H1 & H2 & H3 & H4 & H5 & H6 & H7 & H8 & H9 & H10).
  unfold CollateralFromSVBps, ProtocolFeeRedirectRecommendedBps, ProtocolFeeRedirectToNodesBps, RedirectLoBps, RedirectHiBps.
  cbn [IdealZone SafeGrowth WarningZone ExtremeLow ExtremeHigh cr_UnderSecured ProtocolRedirectRecommended ProtocolRedirectToNodes].
  rewrite H1, H2, H3, H4, H5, H6, H7, H8, H9, H10.
  change (if (s <? 5600) || (15427 <? s) then 15427 <? s else false) with (((s <? 5600) || (15427 <? s)) && (15427 <? s)).
  clear. lia.
Qed.

(** The stabilizer only ever raises the fee, up to its cap.  For non-negative
    inputs the multiplier is either refused because a term does not fit, or it is
    at least one (or the cap, if that is lower), at most the cap, and no smaller
    the further the ratio is from the equilibrium. *)
Theorem stabilizer_bounded s s' r p m m' :
  0 <= s <= MaxInt64 → 0 <= s' <= MaxInt64 → 0 <= r → 0 <= KBps p → 0 <= PushBps p → 0 < CapBps p →
  Z.abs (s - TargetSBps) <= Z.abs (s' - TargetSBps) →
  StabilizerMultiplierBps s r p = Some (Some m) → StabilizerMultiplierBps s' r p = Some (Some m') →
  Z.min BpsScale (CapBps p) <= m <= CapBps p ∧ m <= m'.
Proof.
  intros Hs Hs' Hr HK HP Hcap Hd Hm Hm'.
  destruct (Stabilizer_eq s r p Hs Hr HK HP) as [E|E]; rewrite Hm in E; [done|]. injection E as ->.
  destruct (Stabilizer_eq s' r p Hs' Hr HK HP) as [E|E]; rewrite Hm' in E; [done|]. injection E as ->.
  pose proof (stabilizer_tail_mono s s' r p Hr HK HP Hd) as [H0 H1].
  rewrite (proj2 (Z.ltb_lt _ _) Hcap). cbn [andb]. cbv zeta.
  destruct (Z.ltb_spec (CapBps p) (BpsScale + stabilizer_tail s r p)), (Z.ltb_spec (CapBps p) (BpsScale + stabilizer_tail s' r p)); lia.
Qed.

(** A swap never pays more than the pool: the fee on an output of the pool is
    between zero and what the pool holds, and grows with the input. *)
Theorem clp_fee_bounded x x' X Y :
  0 < x → x <= x' → 0 < X → 0 < Y →
  ∃ f f', CLPFeeInt (Some x) (Some X) (Some Y) = Some f ∧ CLPFeeInt (Some x') (Some X) (Some Y) = Some f' ∧
    0 <= f < Y ∧ f <= f'.
Proof.
  intros Hx Hx' HX HY. unfold CLPFeeInt. rewrite !(proj2 (Z.leb_gt _ _)) by lia. cbn [orb].
  rewrite !MulDivFloor_pos by nia. eexists _, _. split; [done|]. split; [done|].
  assert (0 < x * x) by nia. assert (0 < (x + X) * (x + X)) by nia. split; [split|].
  - apply Z.div_pos; nia.
  - apply Z.div_lt_upper_bound; nia.
  - rewrite !(Z.mul_comm _ Y). apply div_le_cross; [lia|lia|lia|nia|].
    assert (x * (x' + X) <= x' * (x + X)) by nia.
    transitivity (x * (x' + X) * (x * (x' + X))); [nia|].
    transitivity (x' * (x + X) * (x' * (x + X))); [|nia]. apply Z.mul_le_mono_nonneg; nia.
Qed.
