(* ===== verification/Rewards.v ===== *)
(** Liveness scoring of the committee:
    [modules/incentive-pendulum/rewards/] ([constants.go], [sources.go],
    [aggregator.go], [compose.go]) and the penalties of
    [modules/incentive-pendulum/safety_slash/policy.go].

    Seven signals are read from the chain for every tick of an epoch; each is
    clamped, a witness is charged the largest of them, and the charges of an
    epoch, less a flat allowance, reduce its bond in the settlement. *)
From S2P Require Import Prelude GoMaps GoStrings GoEncoding.

(** ** Weights *)

Definition BlockProductionMissBps : Z := 200.
Definition BlockAttestationMissBps : Z := 25.
Definition TssReshareExclusionBps : Z := 1000.
Definition TssKeygenExclusionBps : Z := 1000.
Definition TssBlameBps : Z := 150.
Definition TssSignNonParticipationBps : Z := 30.
Definition OracleQuoteDivergenceBps : Z := 150.
Definition OracleQuoteDivergenceThresholdBps : Z := 300.
Definition PerTickCapBps : Z := 1000.
Definition PerEpochCapBps : Z := 10000.
Definition PerEpochForgivenessBps : Z := 250.

(** ** Signals *)

Abbreviation scores := (gmap string Z).

Record SlotProposer := mkSlotProposer {
  slot_height : Z;
  slot_account : string;
}.

(** A commitment with the committee its bit set is encoded against.  Of the
    database record only the texts are read. *)
Record Committed := mkCommitted {
  cm_text : string;
  cm_members : list string;
}.

Definition committeeFromMembers (committee : list string) : gset string :=
  list_to_set (filter (λ m, m ≠ "") committee).

Definition ScoreBlockProduction (slots : list SlotProposer) (produced : gset Z) (committee : list string) : scores :=
  let cm := committeeFromMembers committee in
  foldl (λ out s,
    if negb (bool_decide (slot_account s ∈ cm)) then out
    else if bool_decide (slot_height s ∈ produced) then out
    else map_add out (slot_account s, BlockProductionMissBps)) ∅ slots.

(** The members of a set that did not sign; they are visited in any order, each
    once, and every visit adds to a different key. *)
Definition score_block (cm : gset string) (out : scores) (signers : list string) : scores :=
  foldl (λ out member,
    if bool_decide (member ∈ (list_to_set signers : gset string)) then out
    else map_add out (member, BlockAttestationMissBps)) out (elements cm).

Definition scoreAttestationFromHeaders (blocks : list (list string)) (committee : list string) : scores :=
  foldl (score_block (committeeFromMembers committee)) ∅ blocks.

Definition decodeBitset (s : string) : option Z :=
  if String.eqb s "" then None
  else let '(raw, ok) := b64_decode url_value s in
       if ok then Some (SetBytes raw) else None.

(** The loop over a committee with its indices: charge [w] where the bit has the
    given value. *)
Definition score_bits (charged : bool) (w : Z) (bits : Z) (out : scores) (members : list string) : scores :=
  foldl (λ out im,
    if String.eqb im.2 "" then out
    else if Bool.eqb (Z.testbit bits (Z.of_nat im.1)) charged then map_add out (im.2, w) else out)
    out (imap pair members).

Definition score_committed (charged : bool) (w : Z) (out : scores) (c : Committed) : scores :=
  match decodeBitset (cm_text c) with
  | None => out
  | Some bits => score_bits charged w bits out (cm_members c)
  end.

Definition ScoreTssReshareExclusion (reshares : list Committed) : scores :=
  foldl (score_committed false TssReshareExclusionBps) ∅ reshares.

Definition ScoreTssKeygenExclusion (keygens : list Committed) : scores :=
  foldl (score_committed false TssKeygenExclusionBps) ∅ keygens.

Definition ScoreTssBlame (blames : list Committed) : scores :=
  foldl (score_committed true TssBlameBps) ∅ blames.

Definition ScoreTssSignNonParticipation (signs : list Committed) : scores :=
  foldl (λ out s, if String.eqb (cm_text s) "" then out
                  else score_committed false TssSignNonParticipationBps out s) ∅ signs.

(** The loop over the diverging witnesses, with those seen. *)
Definition diverge_step (cm : gset string) (acc : scores * list string) (w : string) : scores * list string :=
  let '(out, seen) := acc in
  if String.eqb w "" then acc
  else if negb (bool_decide (w ∈ cm)) then acc
  else if slices_Contains seen w then acc
  else (map_add out (w, OracleQuoteDivergenceBps), w :: seen).

Definition ScoreOracleQuoteDivergence (diverging committee : list string) : scores :=
  (foldl (diverge_step (committeeFromMembers committee)) (∅, []) diverging).1.

(** ** A tick *)

Record TickInputs := mkTickInputs {
  Committee : list string;
  Slots : list SlotProposer;
  ProducedSlotHeights : gset Z;
  BlocksInWindow : list (list string);
  Reshares : list Committed;
  Keygens : list Committed;
  Blames : list Committed;
  Signs : list Committed;
  DivergingOracleWitnesses : list string;
}.

Record WitnessLivenessEvidence := mkWitnessLivenessEvidence {
  ev_BlockProductionBps : Z;
  ev_BlockAttestationBps : Z;
  ev_TssReshareExclusionBps : Z;
  ev_TssKeygenExclusionBps : Z;
  ev_TssBlameBps : Z;
  ev_TssSignNonParticipationBps : Z;
  ev_OracleQuoteDivergenceBps : Z;
}.

Record WitnessRewardReductionRecord := mkWitnessRewardReductionRecord {
  wr_Witness : string;
  wr_Bps : Z;
  wr_Evidence : WitnessLivenessEvidence;
}.

Definition clampPerTick (v : Z) : Z :=
  if v <? 0 then 0 else if PerTickCapBps <? v then PerTickCapBps else v.

Fixpoint max_from (m : Z) (vals : list Z) : Z :=
  match vals with
  | [] => m
  | v :: vals => max_from (if m <? v then v else m) vals
  end.

Definition maxOfMany (vals : list Z) : Z :=
  match vals with
  | [] => 0
  | v :: vals => max_from v vals
  end.

Definition AggregateTick (t : TickInputs) : list WitnessRewardReductionRecord :=
  if bool_decide (Committee t = []) then []
  else
    let prod := ScoreBlockProduction (Slots t) (ProducedSlotHeights t) (Committee t) in
    let att := scoreAttestationFromHeaders (BlocksInWindow t) (Committee t) in
    let tssA := ScoreTssReshareExclusion (Reshares t) in
    let tssKeygen := ScoreTssKeygenExclusion (Keygens t) in
    let tssB := ScoreTssBlame (Blames t) in
    let tssC := ScoreTssSignNonParticipation (Signs t) in
    let oracle := ScoreOracleQuoteDivergence (DivergingOracleWitnesses t) (Committee t) in
    (λ w,
      let ev := mkWitnessLivenessEvidence
        (clampPerTick (zget prod w)) (clampPerTick (zget att w)) (clampPerTick (zget tssA w))
        (clampPerTick (zget tssKeygen w)) (clampPerTick (zget tssB w)) (clampPerTick (zget tssC w))
        (clampPerTick (zget oracle w)) in
      let bps := maxOfMany [ev_BlockProductionBps ev; ev_BlockAttestationBps ev; ev_TssReshareExclusionBps ev;
                            ev_TssKeygenExclusionBps ev; ev_TssBlameBps ev; ev_TssSignNonParticipationBps ev;
                            ev_OracleQuoteDivergenceBps ev] in
      mkWitnessRewardReductionRecord w (clampPerTick bps) ev) <$> sort_Strings (Committee t).

(** ** An epoch *)

(** The loop over the tick heights. *)
Fixpoint tick_heights (fuel : nat) (tickHeight toBh tickInterval : Z) : list Z :=
  match fuel with
  | O => []
  | S fuel => if tickHeight <=? toBh
              then tickHeight :: tick_heights fuel (tickHeight +u64 tickInterval) toBh tickInterval
              else []
  end.

(** The heights that are scored for the window [(fromBh, toBh]].  The interval is
    at least one block, so the loop has at most as many rounds as the window has
    blocks. *)
Definition epoch_ticks (fromBh toBh tickInterval : Z) : list Z :=
  let firstTick := fromBh +u64 tickInterval -u64 (fromBh mod tickInterval) in
  tick_heights (S (Z.to_nat (toBh - fromBh))) firstTick toBh tickInterval.

Definition add_tick (totals : scores) (t : TickInputs) : scores :=
  foldl (λ totals r, if wr_Bps r <=? 0 then totals else map_add totals (wr_Witness r, wr_Bps r)) totals (AggregateTick t).

(** The totals of an epoch: [provider] returns [None] for a tick that cannot be
    scored. *)
Definition epoch_totals (provider : Z → option TickInputs) (fromBh toBh tickInterval : Z) : scores :=
  foldl (λ totals h, match provider h with Some t => add_tick totals t | None => totals end) ∅
    (epoch_ticks fromBh toBh tickInterval).

Definition effective_bps (raw : Z) : option Z :=
  let eff := raw -64 PerEpochForgivenessBps in
  if eff <=? 0 then None else Some (if PerEpochCapBps <? eff then PerEpochCapBps else eff).

Definition ComputeReductionsForEpoch (provider : Z → option TickInputs) (fromBh toBh tickInterval : Z) : scores :=
  if (tickInterval =? 0) || (toBh <=? fromBh) then ∅
  else omap effective_bps (epoch_totals provider fromBh toBh tickInterval).

Definition SortedReductionAccounts (totals : scores) : list string := sorted_keys totals.

(** ** Principal penalties *)

Definition CorrelatedSlashCapBps : Z := 10000.
Definition EvidenceVSCDoubleBlockSign : string := "vsc_double_block_sign".
Definition EvidenceVSCInvalidBlockProposal : string := "vsc_invalid_block_proposal".
Definition DoubleBlockSignSlashBps : Z := 1000.
Definition InvalidBlockSlashBps : Z := 1000.
Definition DefaultSafetySlashBurnDelayBlocks : Z := 3 * 28800.

Definition EffectiveCorrelatedBps (rawParts : list Z) (capBps : Z) : Z :=
  if capBps <=? 0 then 0
  else
    let sum := foldl (λ sum x, if 0 <? x then sum +64 x else sum) 0 rawParts in
    if capBps <? sum then capBps else sum.

Definition SlashBpsForEvidenceKind (kind : string) : Z :=
  if String.eqb kind EvidenceVSCDoubleBlockSign then DoubleBlockSignSlashBps
  else if String.eqb kind EvidenceVSCInvalidBlockProposal then InvalidBlockSlashBps
  else 0.

(** ** Lemmas: one tick *)

Lemma clampPerTick_bounds v : 0 <= clampPerTick v <= PerTickCapBps.
Proof. unfold clampPerTick, PerTickCapBps. repeat case_match; lia. Qed.

Lemma max_from_le m vals b : m <= b → Forall (λ v, v <= b) vals → max_from m vals <= b.
Proof. intros Hm Hv. revert m Hm. induction Hv; intros m Hm; simpl; [done|]. apply IHHv. by case_match. Qed.

(** The largest of the signals of a witness. *)
Definition worst_signal (w : string) (t : TickInputs) : Z :=
  clampPerTick (maxOfMany (clampPerTick <$>
    [zget (ScoreBlockProduction (Slots t) (ProducedSlotHeights t) (Committee t)) w;
     zget (scoreAttestationFromHeaders (BlocksInWindow t) (Committee t)) w;
     zget (ScoreTssReshareExclusion (Reshares t)) w;
     zget (ScoreTssKeygenExclusion (Keygens t)) w;
     zget (ScoreTssBlame (Blames t)) w;
     zget (ScoreTssSignNonParticipation (Signs t)) w;
     zget (ScoreOracleQuoteDivergence (DivergingOracleWitnesses t) (Committee t)) w])).

(** What a witness is charged in a tick: nothing outside the committee. *)
Definition tick_bps (w : string) (t : TickInputs) : Z :=
  if bool_decide (w ∈ Committee t) then worst_signal w t else 0.

Lemma tick_bps_bounds w t : 0 <= tick_bps w t <= PerTickCapBps.
Proof. unfold tick_bps. case_bool_decide; [apply clampPerTick_bounds|unfold PerTickCapBps; lia]. Qed.

Definition charged (w : string) (r : WitnessRewardReductionRecord) : Z :=
  if String.eqb (wr_Witness r) w then wr_Bps r else 0.

(** The records of a duplicate-free committee charge a witness once. *)
Lemma zsum_once {A} (f : string → A) (g : A → Z) w l x :
  NoDup l → (∀ v, g (f v) = if String.eqb v w then x else 0) →
  zsum (g <$> (f <$> l)) = if bool_decide (w ∈ l) then x else 0.
Proof.
  intros Hnd Hg. induction Hnd as [|v l Hv Hnd IH]; [done|]. rewrite !fmap_cons. cbn [zsum]. rewrite IH, Hg.
  destruct (String.eqb_spec v w) as [->|Hne].
  - rewrite (bool_decide_eq_true_2 (w ∈ w :: l)) by set_solver. rewrite bool_decide_eq_false_2 by done. lia.
  - rewrite (bool_decide_ext (w ∈ v :: l) (w ∈ l)) by set_solver. lia.
Qed.

Lemma AggregateTick_charged w t : NoDup (Committee t) → zsum (charged w <$> AggregateTick t) = tick_bps w t.
Proof.
  intros Hnd. unfold AggregateTick, tick_bps. case_bool_decide as He; [by rewrite He|]. cbv zeta.
  rewrite zsum_once with (w := w) (x := worst_signal w t).
  - by rewrite (bool_decide_ext (w ∈ sort_Strings _) (w ∈ Committee t)) by (by rewrite sort_Strings_Permutation).
  - by rewrite sort_Strings_Permutation.
  - intros v. unfold charged. cbn [wr_Witness wr_Bps]. by destruct (String.eqb_spec v w) as [->|].
Qed.

Lemma AggregateTick_nonneg t r : r ∈ AggregateTick t → 0 <= wr_Bps r.
Proof.
  unfold AggregateTick. case_bool_decide; [set_solver|]. cbv zeta. intros (v & -> & _)%list_elem_of_fmap.
  cbn [wr_Bps]. apply clampPerTick_bounds.
Qed.

Lemma zget_add_tick totals t w :
  NoDup (Committee t) → i64 (zget totals w) → zget (add_tick totals t) w = zget totals w +64 tick_bps w t.
Proof.
  intros Hnd Hi. unfold i64_add. rewrite <- (AggregateTick_charged w t Hnd). unfold add_tick.
  rewrite (foldl_ext_in _ (λ m r, match (if wr_Bps r <=? 0 then None else Some (wr_Witness r, wr_Bps r)) with
                              | Some kv => map_add m kv | None => m end))
    by (intros m r _; by destruct (wr_Bps r <=? 0)).
  rewrite zget_accumulate by done. apply (f_equal wrap64), (f_equal (Z.add _)), zsum_map_ext.
  intros r Hr%AggregateTick_nonneg. unfold charged. destruct (Z.leb_spec (wr_Bps r) 0); cbn [fst snd]; [|done].
  destruct (String.eqb _ _); lia.
Qed.

(** ** Lemmas: the ticks of an epoch *)

(** The loop visits the multiples of the interval from its start to the end of
    the window, in increasing order. *)
Lemma tick_heights_elem fuel start toBh k h :
  0 < k → 0 <= start → toBh + k <= MaxUint64 → (k | start) → toBh < start + Z.of_nat fuel →
  h ∈ tick_heights fuel start toBh k ↔ start <= h <= toBh ∧ (k | h).
Proof.
  intros Hk Hs Hmax Hd Hf. revert start Hs Hd Hf. induction fuel as [|fuel IH]; intros start Hs Hd Hf.
  - cbn [tick_heights]. rewrite elem_of_nil. lia.
  - cbn [tick_heights]. destruct (Z.leb_spec start toBh) as [Hle|Hgt]; [|rewrite elem_of_nil; lia].
    unfold u64_add. rewrite wrapu64_id by (unfold u64; lia).
    rewrite elem_of_cons, (IH (start + k)) by (try lia; by apply Z.divide_add_r, Z.divide_refl).
    split; [intros [->|?]; (split; [lia|naive_solver])|]. intros [Hr Hh].
    destruct (decide (h = start)) as [|Hne]; [by left|right]. split; [|done].
    destruct Hd as [a Ha], Hh as [b Hb]. subst. assert (a < b) by nia. nia.
Qed.

Lemma tick_heights_sorted fuel start toBh k :
  0 < k → 0 <= start → toBh + k <= MaxUint64 →
  StronglySorted Z.lt (tick_heights fuel start toBh k) ∧ Forall (λ h, start <= h) (tick_heights fuel start toBh k).
Proof.
  intros Hk Hs Hmax. revert start Hs. induction fuel as [|fuel IH]; intros start Hs; cbn [tick_heights]; [by repeat constructor|].
  destruct (Z.leb_spec start toBh); [|by repeat constructor].
  unfold u64_add. rewrite wrapu64_id by (unfold u64; lia). destruct (IH (start + k)) as [IHs IHf]; [lia|].
  split; constructor; try done; (eapply Forall_impl; [done|]); simpl; lia.
Qed.

Lemma StronglySorted_lt_length l a b :
  StronglySorted Z.lt l → (∀ h, h ∈ l → a < h <= b) → Z.of_nat (length l) <= Z.max 0 (b - a).
Proof.
  intros Hs. revert a. induction Hs as [|x l Hs IH Hx]; intros a Hb; simpl; [lia|].
  assert (Z.of_nat (length l) <= Z.max 0 (b - x)).
  { apply IH. intros h Hh. split; [by eapply Forall_forall in Hx|]. by apply Hb; right. }
  pose proof (Hb x ltac:(left)). lia.
Qed.

Lemma first_tick fromBh k :
  0 <= fromBh → 0 < k → fromBh + k <= MaxUint64 →
  fromBh +u64 k -u64 (fromBh mod k) = (fromBh / k + 1) * k ∧ fromBh < (fromBh / k + 1) * k.
Proof.
  intros Hf Hk Hmax. pose proof (Z.mod_pos_bound fromBh k Hk). pose proof (Z.div_mod fromBh k ltac:(lia)) as Hdm.
  unfold u64_sub, u64_add. rewrite (wrapu64_id (fromBh + k)) by (unfold u64; lia).
  rewrite wrapu64_id by (unfold u64; lia). lia.
Qed.

Lemma epoch_ticks_elem fromBh toBh k h :
  0 <= fromBh → fromBh < toBh → 0 < k → toBh + k <= MaxUint64 →
  h ∈ epoch_ticks fromBh toBh k ↔ fromBh < h <= toBh ∧ (k | h).
Proof.
  intros Hf Hft Hk Hmax. unfold epoch_ticks; cbv zeta. destruct (first_tick fromBh k) as [-> Hlt]; [lia..|].
  rewrite tick_heights_elem by (try lia; apply Z.divide_factor_r). split; [intros [? ?]; split; [lia|done]|].
  intros [Hh [c ->]]. split; [|by exists c]. split; [|lia].
  apply Z.mul_le_mono_nonneg_r; [lia|]. pose proof (Z.div_lt_upper_bound fromBh k c Hk). lia.
Qed.

Lemma zget_epoch_totals (provider : Z → option TickInputs) l totals w :
  (∀ h t, provider h = Some t → NoDup (Committee t)) → i64 (zget totals w) →
  zget (foldl (λ totals h, match provider h with Some t => add_tick totals t | None => totals end) totals l) w
  = wrap64 (zget totals w + zsum ((λ h, default 0 (tick_bps w <$> provider h)) <$> l)).
Proof.
  intros Hnd. revert totals. induction l as [|h l IH]; intros totals Hi; [by rewrite Z.add_0_r, wrap64_id|].
  cbn [foldl fmap list_fmap zsum]. destruct (provider h) as [t|] eqn:Ht; [|by rewrite IH, Z.add_0_l].
  pose proof (zget_add_tick totals t w (Hnd h t Ht) Hi) as Ha.
  rewrite IH by (rewrite Ha; apply wrap64_range). rewrite Ha. unfold i64_add. rewrite wrap64_add_l.
  apply (f_equal wrap64). simpl. lia.
Qed.

(** ** Lemmas: a witness that did its work *)

Definition counted (bits : option Z) (members : list string) (w : string) (b : bool) : Prop :=
  ∀ bs idx, bits = Some bs → members !! idx = Some w → Z.testbit bs (Z.of_nat idx) = b.

(** [w] produced its slots, signed every block, is in every key ceremony and
    signature that names it, is not blamed and does not diverge. *)
Definition blameless (w : string) (t : TickInputs) : Prop :=
  (∀ s, s ∈ Slots t → slot_account s = w → slot_height s ∈ ProducedSlotHeights t)
  ∧ (∀ b, b ∈ BlocksInWindow t → w ∈ b)
  ∧ (∀ c, c ∈ Reshares t ++ Keygens t ++ Signs t → counted (decodeBitset (cm_text c)) (cm_members c) w true)
  ∧ (∀ c, c ∈ Blames t → counted (decodeBitset (cm_text c)) (cm_members c) w false)
  ∧ w ∉ DivergingOracleWitnesses t.

Lemma zget_foldl_skip {A} (step : scores → A → scores) l m w :
  (∀ m x, x ∈ l → zget (step m x) w = zget m w) → zget (foldl step m l) w = zget m w.
Proof.
  revert m. induction l as [|x l IH]; intros m Hs; [done|]. simpl. rewrite IH, Hs by set_solver. done.
Qed.

Lemma map_add_other m k v w : k ≠ w → zget (map_add m (k, v)) w = zget m w.
Proof. intros Hne. rewrite zget_map_add. cbn [fst]. by destruct (String.eqb_spec k w). Qed.

Lemma score_committed_skip b w v m c :
  counted (decodeBitset (cm_text c)) (cm_members c) w (negb b) → zget (score_committed b v m c) w = zget m w.
Proof.
  intros Hc. unfold score_committed. destruct (decodeBitset (cm_text c)) as [bits|] eqn:Hb; [|done].
  apply zget_foldl_skip. intros m' ix (j & x & -> & Hj)%elem_of_lookup_imap. cbn [fst snd].
  destruct (String.eqb x ""); [done|]. destruct (Bool.eqb _ b) eqn:He; [|done].
  apply map_add_other. intros ->. rewrite (Hc bits j eq_refl Hj) in He. by destruct b.
Qed.

Lemma oracle_skip w diverging committee : w ∉ diverging → zget (ScoreOracleQuoteDivergence diverging committee) w = 0.
Proof.
  intros Hw. unfold ScoreOracleQuoteDivergence. generalize (committeeFromMembers committee). intros cm.
  rewrite <- (zget_empty w). generalize (∅ : scores), (@nil string). induction diverging as [|x l IH]; intros m seen; [done|].
  cbn [foldl]. unfold diverge_step at 2. apply not_elem_of_cons in Hw as [Hne Hw].
  repeat case_match; rewrite IH by done; try done. by apply map_add_other.
Qed.

Lemma blameless_tick w t : blameless w t → tick_bps w t = 0.
Proof.
  intros (Hp & Ha & Hc & Hb & Ho). unfold tick_bps. case_bool_decide; [|done]. unfold worst_signal.
  rewrite oracle_skip by done.
  assert (∀ b v l, (∀ c, c ∈ l → counted (decodeBitset (cm_text c)) (cm_members c) w (negb b)) →
            zget (foldl (score_committed b v) ∅ l) w = 0) as Hl.
  { intros b v l Hl. rewrite <- (zget_empty w). apply zget_foldl_skip. intros m c Hin. apply score_committed_skip. auto. }
  unfold ScoreTssReshareExclusion, ScoreTssKeygenExclusion, ScoreTssBlame.
  rewrite !Hl by (set_solver || (intros; apply Hc; set_solver) || (intros; by apply Hb)).
  assert (zget (ScoreTssSignNonParticipation (Signs t)) w = 0) as ->.
  { rewrite <- (zget_empty w). apply zget_foldl_skip. intros m c Hin. case_match; [done|].
    apply score_committed_skip, Hc. set_solver. }
  assert (zget (ScoreBlockProduction (Slots t) (ProducedSlotHeights t) (Committee t)) w = 0) as ->.
  { rewrite <- (zget_empty w). apply zget_foldl_skip. intros m s Hin. case_bool_decide; [|done]. case_bool_decide; [done|].
    apply map_add_other. intros Heq. naive_solver. }
  assert (zget (scoreAttestationFromHeaders (BlocksInWindow t) (Committee t)) w = 0) as ->; [|done].
  rewrite <- (zget_empty w). apply zget_foldl_skip. intros m b Hin. apply zget_foldl_skip. intros m' x Hx.
  case_bool_decide; [done|]. apply map_add_other. set_solver.
Qed.

Lemma tick_heights_fuel fuel extra start toBh k :
  0 < k → 0 <= start → toBh + k <= MaxUint64 → toBh < start + Z.of_nat fuel →
  tick_heights (fuel + extra) start toBh k = tick_heights fuel start toBh k.
Proof.
  intros Hk Hs Hmax. revert start Hs. induction fuel as [|fuel IH]; intros start Hs Hf.
  - destruct extra; [done|]. cbn [tick_heights Nat.add]. by destruct (Z.leb_spec start toBh); [lia|].
  - cbn [tick_heights Nat.add]. destruct (Z.leb_spec start toBh); [|done].
    unfold u64_add. rewrite wrapu64_id by (unfold u64; lia). by rewrite IH by lia.
Qed.

(** What a witness is charged over an epoch. *)
Definition epoch_charge (provider : Z → option TickInputs) (fromBh toBh tickInterval : Z) (w : string) : Z :=
  zsum ((λ h, default 0 (tick_bps w <$> provider h)) <$> epoch_ticks fromBh toBh tickInterval).

Lemma charges_bounded (provider : Z → option TickInputs) w l :
  0 <= zsum ((λ h, default 0 (tick_bps w <$> provider h)) <$> l) <= PerTickCapBps * Z.of_nat (length l).
Proof.
  induction l as [|h l IH]; [simpl; lia|]. rewrite fmap_cons. cbn [zsum length].
  assert (0 <= default 0 (tick_bps w <$> provider h) <= PerTickCapBps); [|lia].
  destruct (provider h); simpl; [apply tick_bps_bounds|unfold PerTickCapBps; lia].
Qed.

Lemma reductions_lookup provider fromBh toBh k w :
  0 <= fromBh → fromBh < toBh → 0 < k → toBh + k <= MaxUint64 → toBh - fromBh <= 2 ^ 50 →
  (∀ h t, provider h = Some t → NoDup (Committee t)) →
  ComputeReductionsForEpoch provider fromBh toBh k !! w
  = (let eff := epoch_charge provider fromBh toBh k w - PerEpochForgivenessBps in
     if eff <=? 0 then None else Some (Z.min eff PerEpochCapBps))
  ∧ 0 <= epoch_charge provider fromBh toBh k w <= PerTickCapBps * (toBh - fromBh).
Proof.
  intros Hf Hft Hk Hmax Hlen Hnd. pose proof (charges_bounded provider w (epoch_ticks fromBh toBh k)) as Hb.
  assert (Z.of_nat (length (epoch_ticks fromBh toBh k)) <= toBh - fromBh) as Hl.
  { transitivity (Z.max 0 (toBh - fromBh)); [|lia]. apply StronglySorted_lt_length.
    - unfold epoch_ticks; cbv zeta. destruct (first_tick fromBh k) as [-> ?]; [lia..|]. apply tick_heights_sorted; lia.
    - intros h [? _]%epoch_ticks_elem; [done|lia..]. }
  fold (epoch_charge provider fromBh toBh k w) in Hb. split; [|unfold PerTickCapBps in *; lia].
  unfold ComputeReductionsForEpoch. destruct (Z.eqb_spec k 0); [lia|]. destruct (Z.leb_spec toBh fromBh); [lia|].
  cbn [orb]. rewrite lookup_omap.
  pose proof (zget_epoch_totals provider (epoch_ticks fromBh toBh k) ∅ w Hnd) as Hz. rewrite zget_empty, Z.add_0_l in Hz.
  fold (epoch_totals provider fromBh toBh k) (epoch_charge provider fromBh toBh k w) in Hz.
  set (c := epoch_charge provider fromBh toBh k w) in *. unfold PerTickCapBps in Hb.
  specialize (Hz ltac:(unfold_widths; lia)). rewrite wrap64_id in Hz by (unfold_widths; lia).
  transitivity (effective_bps c).
  - unfold zget in Hz. destruct (epoch_totals provider fromBh toBh k !! w); simpl in *; [by rewrite Hz|].
    rewrite <- Hz. by unfold effective_bps, PerEpochForgivenessBps; rewrite i64_sub_exact by (unfold_widths; lia).
  - unfold effective_bps, PerEpochForgivenessBps. rewrite i64_sub_exact by (unfold_widths; lia). cbv zeta.
    destruct (c - 250 <=? 0); [done|]. f_equal. unfold PerEpochCapBps. destruct (Z.ltb_spec 10000 (c - 250)); lia.
Qed.

(** ** Theorems *)

(** C39: The loop over the ticks of an epoch terminates and visits exactly the
    heights of the window [(fromBh, toBh]] that are multiples of the interval, in
    increasing order, each once; the bound on the number of rounds is enough. *)
Theorem epoch_ticks_exact fromBh toBh tickInterval :
  0 <= fromBh → fromBh < toBh → 0 < tickInterval → toBh + tickInterval <= MaxUint64 →
  StronglySorted Z.lt (epoch_ticks fromBh toBh tickInterval)
  ∧ (∀ h, h ∈ epoch_ticks fromBh toBh tickInterval ↔ fromBh < h <= toBh ∧ (tickInterval | h))
  ∧ ∀ extra, tick_heights (S (Z.to_nat (toBh - fromBh)) + extra) (fromBh +u64 tickInterval -u64 (fromBh mod tickInterval)) toBh tickInterval
             = epoch_ticks fromBh toBh tickInterval.
Proof.
  intros Hf Hft Hk Hmax. split; [|split].
  - unfold epoch_ticks; cbv zeta. destruct (first_tick fromBh tickInterval) as [-> ?]; [lia..|]. apply tick_heights_sorted; lia.
  - intros h. by apply epoch_ticks_elem.
  - intros extra. unfold epoch_ticks; cbv zeta. destruct (first_tick fromBh tickInterval) as [-> ?]; [lia..|].
    apply tick_heights_fuel; lia.
Qed.

(** The reductions of an epoch are exact: a witness is charged, at every tick
    that can be scored and at which it is a committee member, the largest of its
    seven clamped signals; the sum less the flat allowance, capped at the whole
    share, is its reduction, and it has none when the allowance covers it.  No
    addition overflows, whatever the evidence. *)
Theorem reductions_exact provider fromBh toBh tickInterval w :
  0 <= fromBh → fromBh < toBh → 0 < tickInterval → toBh + tickInterval <= MaxUint64 → toBh - fromBh <= 2 ^ 50 →
  (∀ h t, provider h = Some t → NoDup (Committee t)) →
  ComputeReductionsForEpoch provider fromBh toBh tickInterval !! w
  = (let eff := epoch_charge provider fromBh toBh tickInterval w - PerEpochForgivenessBps in
     if eff <=? 0 then None else Some (Z.min eff PerEpochCapBps))
  ∧ (∀ h t, provider h = Some t → 0 <= tick_bps w t <= PerTickCapBps).
Proof.
  intros Hf Hft Hk Hmax Hlen Hnd. split; [by apply reductions_lookup|]. intros h t _. apply tick_bps_bounds.
Qed.

(** A witness that did its work is not reduced: one that at every scored
    tick produced its slots, signed every block, took part in every key ceremony
    and signature that lists it, is blamed by none and whose quote does not
    diverge has no entry among the reductions, whatever the other evidence. *)
Theorem blameless_not_reduced provider fromBh toBh tickInterval w :
  0 <= fromBh → fromBh < toBh → 0 < tickInterval → toBh + tickInterval <= MaxUint64 → toBh - fromBh <= 2 ^ 50 →
  (∀ h t, provider h = Some t → NoDup (Committee t)) →
  (∀ h t, fromBh < h <= toBh → (tickInterval | h) → provider h = Some t → blameless w t) →
  ComputeReductionsForEpoch provider fromBh toBh tickInterval !! w = None.
Proof.
  intros Hf Hft Hk Hmax Hlen Hnd Hbl. rewrite (proj1 (reductions_lookup provider _ _ _ _ Hf Hft Hk Hmax Hlen Hnd)).
  assert (epoch_charge provider fromBh toBh tickInterval w = 0) as ->; [|done].
  apply zsum_map_0. intros h [Hh Hd]%epoch_ticks_elem; [|lia..].
  destruct (provider h) as [t|] eqn:Ht; [|done]. simpl. eapply blameless_tick, Hbl; eauto.
Qed.

(** A correlated penalty is the sum of its parts, at most the whole bond. *)
Lemma correlated_bounded (kinds : list string) :
  Z.of_nat (length kinds) <= 2 ^ 50 →
  EffectiveCorrelatedBps (SlashBpsForEvidenceKind <$> kinds) CorrelatedSlashCapBps
  = Z.min (zsum (SlashBpsForEvidenceKind <$> kinds)) CorrelatedSlashCapBps.
Proof.
  intros Hlen. set (parts := SlashBpsForEvidenceKind <$> kinds).
  assert (Forall (λ z, 0 <= z <= 1000) parts) as Hp.
  { apply Forall_fmap, Forall_true. intros k. simpl. unfold SlashBpsForEvidenceKind. repeat case_match; done. }
  assert (Z.of_nat (length parts) <= 2 ^ 50) as Hl by (unfold parts; by rewrite length_fmap).
  assert (∀ a, 0 <= a → a + 1000 * Z.of_nat (length parts) <= MaxInt64 →
          foldl (λ sum x, if 0 <? x then sum +64 x else sum) a parts = a + zsum parts) as Hs.
  { clear Hl Hlen. induction Hp as [|x l Hx Hp IH]; intros a Ha Hb; [simpl; lia|]. cbn [foldl zsum length] in *.
    destruct (Z.ltb_spec 0 x); [rewrite i64_add_exact by (unfold_widths; lia)|]; rewrite IH by lia; lia. }
  unfold EffectiveCorrelatedBps. cbn [Z.leb Z.compare CorrelatedSlashCapBps]. rewrite Hs by (unfold_widths; lia).
  rewrite Z.add_0_l. unfold CorrelatedSlashCapBps. destruct (Z.ltb_spec 10000 (zsum parts)); lia.
Qed.
