(* ===== verification/ConsensusVersion.v ===== *)
(** Versions and network parameters: [modules/common/consensusversion/]
    ([version.go], [feature_gates.go]), the predicates of
    [modules/common/params/params.go], and the records of
    [modules/db/vsc/elections/] and [modules/db/vsc/witnesses/] that carry a
    version.

    Consensus rules switch on with the version of the ratified election: every
    rule has a line, and is in force once the version meets it. *)
From S2P Require Import Prelude GoStrings.

(** ** Versions *)

Record Version := mkVersion {
  Major : Z;
  Consensus : Z;
  NonConsensus : Z;
}.

#[export] Instance Version_eq_dec : EqDecision Version.
Proof. solve_decision. Defined.

Definition version0 : Version := mkVersion 0 0 0.

Definition RunningVersion : Version := mkVersion 0 12 0.

Definition ParseComponent (raw : string) : Z :=
  if String.eqb raw "" then 0 else default 0 (ParseUint raw).

Definition Cmp (a b : Version) : Z :=
  if negb (Major a =? Major b) then (if Major a <? Major b then -1 else 1)
  else if negb (Consensus a =? Consensus b) then (if Consensus a <? Consensus b then -1 else 1)
  else if negb (NonConsensus a =? NonConsensus b) then (if NonConsensus a <? NonConsensus b then -1 else 1)
  else 0.

Definition AtLeast (v min : Version) : bool :=
  (Major min <=? Major v) && (Consensus min <=? Consensus v) && (NonConsensus min <=? NonConsensus v).

Definition MeetsConsensusMin (v min : Version) : bool :=
  (Major min <=? Major v) && (Consensus min <=? Consensus v).

Definition Format (v : Version) : string :=
  FormatUint (Major v) +:+ "." +:+ FormatUint (Consensus v) +:+ "." +:+ FormatUint (NonConsensus v).

Definition FormatProvisional (lastAdopted : Version) : string :=
  FormatUint (Major lastAdopted) +:+ "." +:+ FormatUint (Consensus lastAdopted +u64 1) +:+ "." +:+ "0" +:+ "-p".

Definition FromLegacy (protocolVersion : Z) : Version := mkVersion 0 protocolVersion 0.

Definition MaxComponentwise (a b : Version) : Version :=
  mkVersion (if Major a <? Major b then Major b else Major a)
            (if Consensus a <? Consensus b then Consensus b else Consensus a)
            (if NonConsensus a <? NonConsensus b then NonConsensus b else NonConsensus a).

(** ** Feature gates *)

Definition V0_2_0 : Version := mkVersion 0 2 0.
Definition V0_3_0 : Version := mkVersion 0 3 0.
Definition V0_4_0 : Version := mkVersion 0 4 0.
Definition V0_5_0 : Version := mkVersion 0 5 0.
Definition V0_7_0 : Version := mkVersion 0 7 0.
Definition V0_8_0 : Version := mkVersion 0 8 0.
Definition V0_9_0 : Version := mkVersion 0 9 0.
Definition V0_10_0 : Version := mkVersion 0 10 0.
Definition V0_11_0 : Version := mkVersion 0 11 0.
Definition V0_12_0 : Version := mkVersion 0 12 0.

Definition Version0_2_0Active (active : Version) : bool := MeetsConsensusMin active V0_2_0.
Definition Version0_3_0Active (active : Version) : bool := MeetsConsensusMin active V0_3_0.
Definition Version0_4_0Active (active : Version) : bool := MeetsConsensusMin active V0_4_0.
Definition Version0_5_0Active (active : Version) : bool := MeetsConsensusMin active V0_5_0.
Definition Version0_7_0Active (active : Version) : bool := MeetsConsensusMin active V0_7_0.
Definition Version0_8_0Active (active : Version) : bool := MeetsConsensusMin active V0_8_0.
Definition Version0_9_0Active (active : Version) : bool := MeetsConsensusMin active V0_9_0.
Definition Version0_10_0Active (active : Version) : bool := MeetsConsensusMin active V0_10_0.
Definition Version0_11_0Active (active : Version) : bool := MeetsConsensusMin active V0_11_0.
Definition Version0_12_0Active (active : Version) : bool := MeetsConsensusMin active V0_12_0.

(** Disabled in the code: the gate answers no whatever the version. *)
Definition WitnessKeyStrictActive (active : Version) : bool := false.
Definition ContractUpdateTimelockActive (active : Version) : bool := Version0_2_0Active active.
Definition GatewayDecentralizationActive (active : Version) : bool := Version0_2_0Active active.
Definition GovernanceActionsActive (active : Version) : bool := Version0_3_0Active active.
Definition SafetySlashBurnDelay7dActive (active : Version) : bool := Version0_3_0Active active.
Definition MinMembersGuardActive (active : Version) : bool := Version0_4_0Active active.
Definition UnstakeHbdDirectionFixActive (active : Version) : bool := Version0_4_0Active active.
Definition DelegatedStakeActive (active : Version) : bool := Version0_5_0Active active.
Definition PoaAdmissionOpsActive (active : Version) : bool := Version0_7_0Active active.
Definition PoaSeatGateActive (active : Version) : bool := Version0_7_0Active active.
Definition PoaFlatWeightActive (active : Version) : bool := Version0_7_0Active active.
Definition PoaChurnCapActive (active : Version) : bool := Version0_7_0Active active.
Definition PoaExitHaltActive (active : Version) : bool := Version0_7_0Active active.
Definition BtcKeysignHaltActive (active : Version) : bool := Version0_7_0Active active.
Definition VaultRotationV2Active (active : Version) : bool := Version0_8_0Active active.
Definition ForcedFloorRespectsQuorumActive (active : Version) : bool := Version0_8_0Active active.
Definition BlsWeightDedupActive (active : Version) : bool := Version0_8_0Active active.
Definition PoaHaltOnBondedNodeActive (active : Version) : bool := Version0_9_0Active active.
Definition PoaAdmissionReopenActive (active : Version) : bool := Version0_9_0Active active.
Definition PoaElectorateDropsDepartedActive (active : Version) : bool := Version0_9_0Active active.
Definition PoaStarvationTopUpActive (active : Version) : bool := Version0_9_0Active active.
Definition PoaBondLockedWhileShareFundedActive (active : Version) : bool := Version0_9_0Active active.
Definition PoaTransitionChurnCapActive (active : Version) : bool := Version0_9_0Active active.
Definition PoaBootstrapFromPriorCommitteeActive (active : Version) : bool := Version0_9_0Active active.
Definition PoaBootstrapProvesKeysActive (active : Version) : bool := Version0_9_0Active active.
Definition SettlementClosedSlotsActive (active : Version) : bool := Version0_9_0Active active.
Definition GatewayEqualWeightsActive (active : Version) : bool := Version0_9_0Active active.
Definition ApplySkipsHandledTxActive (active : Version) : bool := Version0_10_0Active active.
Definition KeyResharedFlagActive (active : Version) : bool := Version0_11_0Active active.
Definition PeerIdPoPActive (active : Version) : bool := Version0_12_0Active active.
Definition HivePrefixRecipientActive (active : Version) : bool := Version0_12_0Active active.
Definition TssKeyLifecycleActive (active : Version) : bool := Version0_7_0Active active.
Definition TssCommitmentBundleCapActive (active : Version) : bool := Version0_8_0Active active.
Definition TssPerAccusedBlameActive (active : Version) : bool := Version0_9_0Active active.
Definition TssUnattributableCulpritsDroppedActive (active : Version) : bool := Version0_9_0Active active.
Definition TssSessionShapeActive (active : Version) : bool := Version0_7_0Active active.
Definition TssReshareKeepsThresholdActive (active : Version) : bool := Version0_9_0Active active.
Definition TssBanYieldsToQuorumActive (active : Version) : bool := Version0_9_0Active active.
Definition Sp1WorkPricingActive (active : Version) : bool := Version0_10_0Active active.
Definition ActiveKeyHoldersBoundActive (active : Version) : bool := Version0_11_0Active active.
Definition TssAccuseYieldsToFloorActive (active : Version) : bool := Version0_12_0Active active.
Definition TssAccuseStackActive (active : Version) : bool := Version0_12_0Active active.
Definition PendingKeyReshareActive (active : Version) : bool := Version0_12_0Active active.

(** ** Network parameters *)

Record SafetySlashWindow := mkSafetySlashWindow { w_Start : Z; w_End : Z }.

(** The fields the modelled code reads. *)
Record ConsensusParams := mkConsensusParams {
  MinStake : Z;
  MinMembers : Z;
  ElectionInterval : Z;
  BondInclusionActivationHeight : Z;
  BondInclusionWindowBlocks : Z;
  BondInclusionSampleCount : Z;
  BondInclusionEstablishedGraceBlocks : Z;
  MaxNewMembersPerElection : Z;
  MaxNewMembersActivationHeight : Z;
  PoaMaxNewMembersPerElection : Z;
  PoaAdmitVoteWindowBlocks : Z;
  PoaExitHaltBlocks : Z;
  ConsensusVersionFloorEpoch : Z;
  ConsensusVersionFloorMajor : Z;
  ConsensusVersionFloorConsensus : Z;
  ConsensusVersionActivationNum : Z;
  ConsensusVersionActivationDen : Z;
  VersionProposalExpiryEpochs : Z;
  VersionProposalFastFailEpochs : Z;
  GovernanceProposalExpiryBlocks : Z;
  RecoveryMultisigAccounts : list string;
  RecoveryMultisigThreshold : Z;
  SafetySlashWindows : list SafetySlashWindow;
  VaultRotationV2ActivationHeight : Z;
  PendulumSeedEpoch : Z;
}.

Definition CONSENSUS_UNSTAKE_LOCK_EPOCHS : Z := 5.
Definition DELEGATION_DOWNGRADE_LOCK_EPOCHS : Z := CONSENSUS_UNSTAKE_LOCK_EPOCHS + 1.
Definition PoaSeatWeight : Z := 1.
Definition DefaultPoaAdmitVoteWindowBlocks : Z := 3 * 28800.
Definition DefaultPoaExitHaltBlocks : Z := 3 * 28800.
Definition DefaultPoaMaxNewMembersPerElection : Z := 1.
Definition PoaVoteDepartureHalts : Z := 10.
Definition DefaultGovernanceProposalExpiryBlocks : Z := 3 * 28800.
Definition DefaultVersionProposalExpiryEpochs : Z := 56.
Definition DefaultVersionProposalFastFailEpochs : Z := 8.

Definition EffectivePoaAdmitVoteWindow (cp : ConsensusParams) : Z :=
  if PoaAdmitVoteWindowBlocks cp =? 0 then DefaultPoaAdmitVoteWindowBlocks else PoaAdmitVoteWindowBlocks cp.

Definition EffectivePoaExitHalt (cp : ConsensusParams) : Z :=
  if PoaExitHaltBlocks cp =? 0 then DefaultPoaExitHaltBlocks else PoaExitHaltBlocks cp.

Definition EffectivePoaVoteDeparture (cp : ConsensusParams) : Z :=
  let h := EffectivePoaExitHalt cp in
  if MaxUint64 / PoaVoteDepartureHalts <? h then MaxUint64 else wrapu64 (h * PoaVoteDepartureHalts).

Definition EffectivePoaMaxNewMembers (cp : ConsensusParams) : Z :=
  if PoaMaxNewMembersPerElection cp <=? 0 then DefaultPoaMaxNewMembersPerElection else PoaMaxNewMembersPerElection cp.

Definition in_window (blockHeight : Z) (w : SafetySlashWindow) : bool :=
  (w_Start w <=? blockHeight) && ((w_End w =? 0) || (blockHeight <? w_End w)).

Definition SafetySlashActive (cp : ConsensusParams) (blockHeight : Z) : bool :=
  existsb (in_window blockHeight) (SafetySlashWindows cp).

(** [None] is no error. *)
Fixpoint valid_windows (ws : list SafetySlashWindow) : option string :=
  match ws with
  | [] => None
  | [w] => if w_End w =? 0 then None else if w_End w <=? w_Start w then Some "End must be greater than Start" else None
  | w :: ((w' :: _) as ws) =>
      if w_End w =? 0 then Some "only the final window may be open-ended"
      else if w_End w <=? w_Start w then Some "End must be greater than Start"
      else if w_Start w' <? w_End w then Some "windows overlap or are out of order"
      else valid_windows ws
  end.

Definition ValidSafetySlashWindows (cp : ConsensusParams) : option string := valid_windows (SafetySlashWindows cp).

Definition GovernanceProposalExpiry (cp : ConsensusParams) : Z :=
  if GovernanceProposalExpiryBlocks cp =? 0 then DefaultGovernanceProposalExpiryBlocks else GovernanceProposalExpiryBlocks cp.

Definition VersionProposalExpiry (cp : ConsensusParams) : Z :=
  if VersionProposalExpiryEpochs cp =? 0 then DefaultVersionProposalExpiryEpochs else VersionProposalExpiryEpochs cp.

Definition VersionProposalFastFail (cp : ConsensusParams) : Z :=
  if VersionProposalFastFailEpochs cp =? 0 then DefaultVersionProposalFastFailEpochs else VersionProposalFastFailEpochs cp.

Definition BondInclusionActive (cp : ConsensusParams) (blockHeight : Z) : bool :=
  negb (BondInclusionActivationHeight cp =? 0) && (BondInclusionActivationHeight cp <=? blockHeight).

Definition VaultRotationV2Enabled (cp : ConsensusParams) (blockHeight : Z) : bool :=
  negb (VaultRotationV2ActivationHeight cp =? 0) && (VaultRotationV2ActivationHeight cp <=? blockHeight).

Definition MaxNewMembersActive (cp : ConsensusParams) (blockHeight : Z) : bool :=
  negb (MaxNewMembersActivationHeight cp =? 0) && (MaxNewMembersActivationHeight cp <=? blockHeight).

Definition EffectiveMaxNewMembers (cp : ConsensusParams) (blockHeight : Z) : Z :=
  if MaxNewMembersActive cp blockHeight then MaxNewMembersPerElection cp else 0.

Definition PendulumSeedConfigured (cp : ConsensusParams) : bool := negb (PendulumSeedEpoch cp =? 0).

Definition PinnedVersionFloor (cp : ConsensusParams) (newEpoch : Z) : Version :=
  if (ConsensusVersionFloorEpoch cp =? 0) || (newEpoch <? ConsensusVersionFloorEpoch cp) then version0
  else mkVersion (ConsensusVersionFloorMajor cp) (ConsensusVersionFloorConsensus cp) 0.

(** ** Elections and witnesses *)

Record ElectionMember := mkElectionMember {
  em_Key : string;
  em_Account : string;
  HasPerMemberVersion : bool;
  MemberMajor : Z;
  MemberConsensus : Z;
  MemberNonConsensus : Z;
}.

(** The fields of a stored election the modelled code reads. *)
Record ElectionResult := mkElectionResult {
  el_Epoch : Z;
  el_Type : string;
  el_Members : list ElectionMember;
  el_Weights : list Z;
  el_ProtocolVersion : Z;
  el_VersionMajor : Z;
  el_VersionNonConsensus : Z;
  el_BlockHeight : Z;
}.

Definition ResultVersion (r : ElectionResult) : Version :=
  mkVersion (el_VersionMajor r) (el_ProtocolVersion r) (el_VersionNonConsensus r).

Definition MemberConsensusVersion (m : ElectionMember) (el : ElectionResult) : Version :=
  if HasPerMemberVersion m then mkVersion (MemberMajor m) (MemberConsensus m) (MemberNonConsensus m)
  else ResultVersion el.

Record PostingJsonKeys := mkPostingJsonKeys {
  CryptoType : string;
  key_Type : string;
  key_Key : string;
  key_PoP : string;
}.

(** The fields of an announcement the modelled code reads. *)
Record Witness := mkWitness {
  wt_Account : string;
  wt_Height : Z;
  wt_DidKeys : list PostingJsonKeys;
  wt_VersionMajor : Z;
  wt_ProtocolVersion : Z;
  wt_VersionNonConsensus : Z;
  wt_GatewayKey : string;
  wt_GatewayKeyPoP : string;
  wt_DelegationMode : string;
  wt_DelegationModeEffective : string;
  wt_DelegationModeMaturityEpoch : Z;
}.

Definition ConsensusVersionTriple (w : Witness) : Version :=
  mkVersion (wt_VersionMajor w) (wt_ProtocolVersion w) (wt_VersionNonConsensus w).

(** [ConsensusKey]: [parse] reads a BLS key, or fails. *)
Definition ConsensusKey (parse : string → option string) (w : Witness) : option string :=
  k ← list_find (λ k, key_Type k = "consensus") (wt_DidKeys w); parse (key_Key k.2).

(** [Weights[i]], or one for an unweighted election. *)
Definition electionWeightAt (elec : ElectionResult) (i : nat) : Z :=
  if Nat.eqb (length (el_Weights elec)) (length (el_Members elec)) then default 1 (el_Weights elec !! i) else 1.

(** ** Lemmas: the order of versions *)

Definition version_le (a b : Version) : Prop := Cmp a b <= 0.
Definition version_lt (a b : Version) : Prop := Cmp a b < 0.

Lemma Cmp_spec a b :
  (Cmp a b = -1 ∧ (Major a < Major b ∨ Major a = Major b ∧
     (Consensus a < Consensus b ∨ Consensus a = Consensus b ∧ NonConsensus a < NonConsensus b)))
  ∨ (Cmp a b = 0 ∧ Major a = Major b ∧ Consensus a = Consensus b ∧ NonConsensus a = NonConsensus b)
  ∨ (Cmp a b = 1 ∧ (Major b < Major a ∨ Major a = Major b ∧
     (Consensus b < Consensus a ∨ Consensus a = Consensus b ∧ NonConsensus b < NonConsensus a))).
Proof.
  unfold Cmp. destruct (Z.eqb_spec (Major a) (Major b)); [|destruct (Z.ltb_spec (Major a) (Major b)); simpl; lia]. cbn [negb].
  destruct (Z.eqb_spec (Consensus a) (Consensus b)); [|destruct (Z.ltb_spec (Consensus a) (Consensus b)); simpl; lia]. cbn [negb].
  destruct (Z.eqb_spec (NonConsensus a) (NonConsensus b)); [|destruct (Z.ltb_spec (NonConsensus a) (NonConsensus b))]; simpl; lia.
Qed.

Lemma Cmp_eq a b : Cmp a b = 0 ↔ a = b.
Proof.
  destruct (Cmp_spec a b) as [?|[(? & ? & ? & ?)|?]].
  - split; [lia|intros ->; lia].
  - split; [|done]. intros _. destruct a, b; simpl in *. by f_equal.
  - split; [lia|intros ->; lia].
Qed.

Lemma Cmp_opp a b : Cmp b a = - Cmp a b.
Proof. pose proof (Cmp_spec a b). pose proof (Cmp_spec b a). lia. Qed.

#[export] Instance version_le_preorder : PreOrder version_le.
Proof.
  split; [intros a; unfold version_le; pose proof (proj2 (Cmp_eq a a) eq_refl); lia|]. intros a b c. unfold version_le.
  pose proof (Cmp_spec a b). pose proof (Cmp_spec b c). pose proof (Cmp_spec a c). lia.
Qed.

#[export] Instance version_le_antisymm : AntiSymm (=) version_le.
Proof. intros a b Hab Hba. unfold version_le in *. rewrite Cmp_opp in Hba. apply Cmp_eq. lia. Qed.

#[export] Instance version_le_total : Total version_le.
Proof. intros a b. unfold version_le. rewrite (Cmp_opp a b). lia. Qed.

#[export] Instance version_le_dec : RelDecision version_le.
Proof. intros a b. unfold version_le. apply _. Defined.

Lemma version_lt_spec a b : version_lt a b ↔ version_le a b ∧ a ≠ b.
Proof. unfold version_lt, version_le. rewrite <- (Cmp_eq a b). lia. Qed.

(** Meeting a minimum is the product order: it is transitive, and a version that
    meets a minimum with the same third component is not below it. *)
Lemma meets_trans a b c : MeetsConsensusMin a b = true → MeetsConsensusMin b c = true → MeetsConsensusMin a c = true.
Proof. unfold MeetsConsensusMin. rewrite !andb_true_iff, !Z.leb_le. lia. Qed.

Lemma meets_le a b : MeetsConsensusMin a b = true → NonConsensus b = 0 → 0 <= NonConsensus a → version_le b a.
Proof. unfold MeetsConsensusMin. rewrite andb_true_iff, !Z.leb_le. intros [H1 H2] H3 H4.
  unfold version_le. pose proof (Cmp_spec b a). lia.
Qed.

(** ** Lemmas: slash windows *)

Lemma in_window_spec h w :
  in_window h w = true ↔ w_Start w <= h ∧ (w_End w = 0 ∨ h < w_End w).
Proof. unfold in_window. rewrite andb_true_iff, orb_true_iff, Z.leb_le, Z.eqb_eq, Z.ltb_lt. done. Qed.

Lemma valid_windows_cons w w' ws :
  valid_windows (w :: w' :: ws) = None →
  w_End w ≠ 0 ∧ w_Start w < w_End w <= w_Start w' ∧ valid_windows (w' :: ws) = None.
Proof.
  cbn [valid_windows]. destruct (Z.eqb_spec (w_End w) 0); [done|]. destruct (Z.leb_spec (w_End w) (w_Start w)); [done|].
  destruct (Z.ltb_spec (w_Start w') (w_End w)); [done|]. intros Hv. split_and!; [done|done|lia|done].
Qed.

Lemma valid_windows_sorted ws i j w w' :
  valid_windows ws = None → ws !! i = Some w → ws !! j = Some w' → (i < j)%nat →
  w_End w ≠ 0 ∧ w_Start w < w_End w <= w_Start w'.
Proof.
  revert i j w w'. induction ws as [|x ws IH]; intros i j w w' Hv Hi Hj Hij; [done|].
  destruct ws as [|y ws]; [destruct j; [lia|done]|]. apply valid_windows_cons in Hv as (Hx & Hxy & Hv).
  destruct i as [|i], j as [|j]; try lia; simplify_eq/=.
  - destruct j as [|j]; simplify_eq/=; [done|].
    destruct (IH 0%nat (S j) y w' Hv eq_refl Hj ltac:(lia)) as (_ & ? & ?). split; [done|]. lia.
  - apply (IH i j); [done|done|done|lia].
Qed.

(** ** Theorems *)

(** A valid schedule of slash windows is a sequence of disjoint intervals in
    increasing order, so that slashing is active at a height because of exactly
    one window or not at all. *)
Theorem windows_disjoint cp h :
  ValidSafetySlashWindows cp = None →
  (SafetySlashActive cp h = true ↔ ∃ i w, SafetySlashWindows cp !! i = Some w ∧ in_window h w = true) ∧
  ∀ i j w w', SafetySlashWindows cp !! i = Some w → SafetySlashWindows cp !! j = Some w' →
    in_window h w = true → in_window h w' = true → i = j.
Proof.
  intros Hv. split.
  - unfold SafetySlashActive. rewrite existsb_exists. setoid_rewrite <- list_elem_of_In. setoid_rewrite list_elem_of_lookup. naive_solver.
  - assert (∀ i j w w', SafetySlashWindows cp !! i = Some w → SafetySlashWindows cp !! j = Some w' → (i < j)%nat →
              in_window h w = true → in_window h w' = true → False) as Hlt.
    { intros i j w w' Hi Hj Hij [H1 H2]%in_window_spec [H3 H4]%in_window_spec.
      destruct (valid_windows_sorted _ i j w w' Hv Hi Hj Hij). lia. }
    intros i j w w' Hi Hj Hw Hw'. destruct (Nat.lt_trichotomy i j) as [?|[?|?]]; [|done|]; exfalso; eauto.
Qed.

(** A version can advance in the order of versions and stop meeting the lines it
    met: the comparison is lexicographic, the gates are componentwise. *)
Lemma major_bump_closes_gates :
  version_lt RunningVersion (mkVersion 1 0 0) ∧
  Version0_2_0Active RunningVersion = true ∧ Version0_2_0Active (mkVersion 1 0 0) = false.
Proof. by vm_compute. Qed.
