(* ===== verification/Schedule.v ===== *)
(** Slots, rounds and leaders: [modules/state-processing/consensus.go],
    [CalculateRoundInfo] of [modules/db/vsc/vsc_blocks/utils.go], and
    [GetSchedule], [getScheduleForSlot], [memoElectionIsCurrent],
    [computeSchedule] of [state_engine.go] with [onElectionStored] of
    [consensus_version.go].

    A round has 120 slots; the seats of the election are dealt over them in turn
    and shuffled with a seed from the Hive block before the round.  The order of a
    shuffle (of [math/rand]) and the seed (a hash of the block id and the round)
    are parameters.

    The theorems: every slot of a round has one leader, a member of the committee,
    and no member leads two slots more than another; the memo the state engine
    keeps over a round answers what a fresh computation would. *)
From S2P Require Import Prelude GoMaps GoStrings ConsensusVersion.

(** ** Slots and rounds *)

Definition SlotLength : Z := 10.
Definition ScheduleLength : Z := 1200.
Definition EpochLength : Z := 7200.

(** Start and end. *)
Definition CalculateSlotInfo (blockHeight : Z) : Z * Z :=
  let pastHeight := blockHeight -u64 blockHeight mod SlotLength in (pastHeight, pastHeight +u64 SlotLength).

Definition CalculateRoundInfo (blockHeight : Z) : Z * Z :=
  let pastHeight := blockHeight -u64 blockHeight mod ScheduleLength in (pastHeight, pastHeight +u64 ScheduleLength).

(** ** Schedules *)

Record Witness := mkWitness { w_Account : string; w_Key : string }.
Record WitnessSlot := mkWitnessSlot { ws_Account : string; ws_SlotHeight : Z }.

(** [rand.New(rand.NewSource(seed)).Shuffle(n, ...)]: where each place takes its
    element from. *)
Class Shuffle := { shuffle_order : Z → nat → list nat }.
Class ShuffleLaws `{Shuffle} : Prop := { shuffle_perm : ∀ seed n, shuffle_order seed n ≡ₚ seq 0 n }.

Definition shuffle `{Shuffle} {A} (seed : Z) (l : list A) : list A := omap (l !!.) (shuffle_order seed (length l)).

Section schedule.
Context `{Shuffle}.

Definition GenerateSchedule (blockHeight : Z) (witnessList : list Witness) (seed : Z) : list WitnessSlot :=
  match witnessList with
  | [] => []
  | w0 :: _ =>
      let '(start, stop) := CalculateRoundInfo blockHeight in
      let slots := Z.to_nat ((stop -u64 start) / SlotLength) in
      let schedule := (λ slot, w_Account (nth (slot mod length witnessList) witnessList w0)) <$> seq 0 slots in
      imap (λ i account, mkWitnessSlot account (wrapu64 (Z.of_nat i * SlotLength) +u64 start)) (shuffle seed schedule)
  end.

(** The leader of the slot a height belongs to. *)
Definition find_slot (slotHeight : Z) (schedule : list WitnessSlot) : option WitnessSlot :=
  snd <$> list_find (λ s, ws_SlotHeight s = slotHeight) schedule.

Definition CalculateSlotLeader (blockHeight : Z) (witnessList : list Witness) (seed : Z) : option WitnessSlot :=
  find_slot (CalculateSlotInfo blockHeight).1 (GenerateSchedule blockHeight witnessList seed).

(** ** The state engine *)

(** The stored elections.  One holds for the heights above its own. *)
Definition newer_election (e : ElectionResult) (best : option ElectionResult) : option ElectionResult :=
  match best with
  | Some b => if el_BlockHeight b <? el_BlockHeight e then Some e else best
  | None => Some e
  end.

Definition GetElectionByHeight (height : Z) (db : list ElectionResult) : option ElectionResult :=
  foldl (λ best e, if el_BlockHeight e <? height then newer_election e best else best) None db.

Context (seed_of : string → Z).

(** [hiveBlock] is the id of a stored Hive block; on an error of the read, and for
    the first round, the default text is used.  [None] is a failed read of the
    election. *)
Definition computeSchedule (db : list ElectionResult) (hiveBlock : Z → option string) (readErr : bool) (slotHeight : Z) :
    option (list WitnessSlot * ElectionResult) :=
  lastElection ← (if readErr then None else GetElectionByHeight slotHeight db);
  let witnessList := (λ m, mkWitness (em_Account m) (em_Key m)) <$> el_Members lastElection in
  let start := (CalculateRoundInfo slotHeight).1 in
  let id := default "VSC.NETWORK" (hiveBlock (start -u64 1)) in
  Some (GenerateSchedule slotHeight witnessList (seed_of (id +:+ Itoa (wrap64 start))), lastElection).

Definition GetSchedule (db : list ElectionResult) (hiveBlock : Z → option string) (readErr : bool) (slotHeight : Z) : list WitnessSlot :=
  from_option fst [] (computeSchedule db hiveBlock readErr slotHeight).

(** The memo and the mirror of the latest stored election. *)
Record memo := mkMemo {
  scheduleRoundStart : Z;
  (** [None] is nil. *)
  scheduleCached : option (list WitnessSlot);
  scheduleElectionEpoch : Z;
  scheduleElectionBh : Z;
  latestElectionEpoch : Z;
  latestElectionBh : Z;
  latestElectionSeeded : bool;
}.

Definition no_memo : memo := mkMemo 0 None 0 0 0 0 false.

Definition memoElectionIsCurrent (db : list ElectionResult) (readErr : bool) (m : memo) : bool * memo :=
  let m := if latestElectionSeeded m then m
           else match (if readErr then None else GetElectionByHeight (MaxInt64 - 1) db) with
                | Some latest => mkMemo (scheduleRoundStart m) (scheduleCached m) (scheduleElectionEpoch m) (scheduleElectionBh m)
                                   (el_Epoch latest) (el_BlockHeight latest) true
                | None => m
                end in
  (latestElectionSeeded m && (scheduleElectionEpoch m =? latestElectionEpoch m) && (scheduleElectionBh m =? latestElectionBh m), m).

(** The two reads of elections fail or not on their own. *)
Definition getScheduleForSlot (db : list ElectionResult) (hiveBlock : Z → option string) (latestErr readErr : bool) (slotHeight : Z) (m : memo) :
    list WitnessSlot * memo :=
  let roundStart := (CalculateRoundInfo slotHeight).1 in
  let '(hit, m) := match scheduleCached m with
                   | Some cached =>
                       if scheduleRoundStart m =? roundStart
                       then let '(current, m) := memoElectionIsCurrent db latestErr m in (if current then Some cached else None, m)
                       else (None, m)
                   | None => (None, m)
                   end in
  match hit with
  | Some cached => (cached, m)
  | None =>
      match computeSchedule db hiveBlock readErr slotHeight with
      | Some (schedule, election) =>
          (schedule, mkMemo roundStart (Some schedule) (el_Epoch election) (el_BlockHeight election)
                       (latestElectionEpoch m) (latestElectionBh m) (latestElectionSeeded m))
      | None => ([], mkMemo roundStart None 0 0 (latestElectionEpoch m) (latestElectionBh m) (latestElectionSeeded m))
      end
  end.

Definition onElectionStored (e : ElectionResult) (m : memo) : memo :=
  mkMemo 0 None (scheduleElectionEpoch m) (scheduleElectionBh m) (el_Epoch e) (el_BlockHeight e) true.
End schedule.

(** ** Lemmas *)

Lemma shuffle_Permutation `{ShuffleLaws} {A} seed (l : list A) : shuffle seed l ≡ₚ l.
Proof.
  unfold shuffle. rewrite shuffle_perm. enough (∀ k (pre : list A), omap ((pre ++ l) !!.) (seq (length pre + k) (length l - k)) = drop k l) as He.
  { specialize (He 0%nat []). cbn in He. by rewrite Nat.sub_0_r, drop_0 in He; rewrite He. }
  intros k pre. remember (length l - k)%nat as n eqn:Hn. revert k Hn. induction n as [|n IH]; intros k Hn.
  - rewrite drop_ge by lia. done.
  - cbn [seq omap list_omap]. rewrite lookup_app_r, Nat.add_comm, Nat.add_sub by lia.
    destruct (lookup_lt_is_Some_2 l k ltac:(lia)) as [x Hx]. rewrite Hx, (drop_S l x k Hx). f_equal.
    rewrite <- (IH (S k)) by lia. by replace (S (k + length pre)) with (length pre + S k)%nat by lia.
Qed.

(** How often a rest occurs among the first numbers. *)
Lemma count_mod (k r n : nat) : (r < k)%nat → length (filter (λ s, s mod k = r)%nat (seq 0 n)) = ((n + k - 1 - r) / k)%nat.
Proof.
  intros Hr. induction n as [|n IH].
  - cbn. symmetry. apply Nat.div_small. lia.
  - rewrite seq_S, filter_app, length_app, IH. change (0 + n)%nat with n. pose proof (Nat.div_mod_eq n k) as Hdm. pose proof (Nat.mod_upper_bound n k ltac:(lia)) as Hub.
    set (q := (n / k)%nat) in *. set (m := (n mod k)%nat) in *. destruct (decide (m = r)) as [Hm|Hm].
    + rewrite filter_cons_True, filter_nil by done. cbn [length].
      rewrite <- (Nat.div_unique (n + k - 1 - r) k q (k - 1)) by lia. rewrite <- (Nat.div_unique (S n + k - 1 - r) k (q + 1) 0) by nia. lia.
    + rewrite filter_cons_False, filter_nil by done. cbn [length]. rewrite Nat.add_0_r. destruct (decide (m < r)%nat).
      * rewrite <- (Nat.div_unique (n + k - 1 - r) k q (m + k - 1 - r)) by lia. by rewrite <- (Nat.div_unique (S n + k - 1 - r) k q (m + k - r)) by lia.
      * rewrite <- (Nat.div_unique (n + k - 1 - r) k (q + 1) (m - 1 - r)) by nia. by rewrite <- (Nat.div_unique (S n + k - 1 - r) k (q + 1) (m - r)) by nia.
Qed.

Lemma filter_fmap_length {A B} (f : A → B) (P : B → Prop) `{∀ x, Decision (P x)} (l : list A) :
  length (filter P (f <$> l)) = length (filter (λ x, P (f x)) l).
Proof. induction l as [|x l IH]; [done|]. rewrite fmap_cons, !filter_cons. destruct (decide (P (f x))); cbn; by rewrite ?IH. Qed.

Lemma round_info h : 0 <= h → h + ScheduleLength <= MaxUint64 →
  CalculateRoundInfo h = (h - h mod ScheduleLength, h - h mod ScheduleLength + ScheduleLength) ∧
  0 <= h - h mod ScheduleLength ∧ 0 <= h mod ScheduleLength < ScheduleLength.
Proof.
  intros Hh Hmax. pose proof (Z.mod_pos_bound h ScheduleLength ltac:(done)) as Hm. pose proof (Z.mod_le h ScheduleLength Hh ltac:(done)) as Hle.
  unfold CalculateRoundInfo, u64_sub, u64_add. rewrite (wrapu64_id (h - _)) by (unfold u64; lia).
  rewrite wrapu64_id by (unfold u64; lia). split_and!; try done; lia.
Qed.

Section fairness.
Context `{ShuffleLaws}.

(** The accounts dealt over the slots of a round, before the shuffle. *)
Definition dealt (ws : list Witness) (w0 : Witness) (slots : nat) : list string :=
  (λ slot, w_Account (nth (slot mod length ws) ws w0)) <$> seq 0 slots.

Lemma dealt_member ws w0 slots a : ws ≠ [] → a ∈ dealt ws w0 slots → a ∈ w_Account <$> ws.
Proof.
  intros Hne (s & -> & _)%list_elem_of_fmap. apply list_elem_of_fmap_2. apply list_elem_of_In, nth_In. apply Nat.mod_upper_bound.
  by destruct ws.
Qed.

Lemma dealt_count ws w0 slots w :
  NoDup (w_Account <$> ws) → w ∈ ws →
  let n := length (filter (w_Account w =.) (dealt ws w0 slots)) in (slots / length ws <= n <= slots / length ws + 1)%nat.
Proof.
  intros Hnd [r Hr]%list_elem_of_lookup. pose proof (lookup_lt_Some _ _ _ Hr) as Hlt. cbv zeta. unfold dealt. rewrite filter_fmap_length.
  rewrite (filter_ext_in _ (λ s, s mod length ws = r)%nat).
  - rewrite (count_mod (length ws) r slots Hlt). split.
    + apply Nat.Div0.div_le_mono. lia.
    + rewrite <- Nat.div_add by lia. apply Nat.Div0.div_le_mono. lia.
  - intros s _. pose proof (Nat.mod_upper_bound s (length ws) ltac:(lia)) as Hs.
    destruct (lookup_lt_is_Some_2 ws _ Hs) as [x Hx]. rewrite (nth_lookup_Some _ _ _ _ Hx). split.
    + intros Ha. apply (NoDup_lookup (w_Account <$> ws) _ _ (w_Account w) Hnd); rewrite list_lookup_fmap; [by rewrite Hx, Ha|by rewrite Hr].
    + intros <-. by simplify_eq.
Qed.

Lemma schedule_eq h ws seed :
  ws ≠ [] → 0 <= h → h + ScheduleLength <= MaxUint64 →
  ∃ w0, GenerateSchedule h ws seed =
    imap (λ i a, mkWitnessSlot a (Z.of_nat i * SlotLength + (h - h mod ScheduleLength))) (shuffle seed (dealt ws w0 120)).
Proof.
  intros Hne Hh Hmax. destruct ws as [|w0 ws]; [done|]. exists w0. unfold GenerateSchedule. destruct (round_info h Hh Hmax) as (-> & Hs & Hm).
  set (start := h - h mod ScheduleLength) in *. replace (Z.to_nat (_ / SlotLength)) with 120%nat.
  2:{ unfold u64_sub. rewrite wrapu64_id by (unfold u64, ScheduleLength, MaxUint64; lia). by replace (start + ScheduleLength - start) with ScheduleLength by lia. }
  fold (dealt (w0 :: ws) w0 120). apply imap_ext. intros i a Hi. f_equal. apply lookup_lt_Some in Hi.
  assert (length (shuffle seed (dealt (w0 :: ws) w0 120)) = 120%nat) as Hlen by (rewrite shuffle_Permutation; unfold dealt; by rewrite length_fmap, length_seq).
  unfold u64_add, SlotLength, ScheduleLength in *. rewrite (wrapu64_id (Z.of_nat i * 10)) by (unfold u64, MaxUint64 in *; lia).
  rewrite wrapu64_id by (unfold u64; lia). done.
Qed.

(** Over a round every slot has one entry, of a member, and the members lead
    equally often up to one slot. *)
Lemma schedule_fair h ws seed :
  ws ≠ [] → NoDup (w_Account <$> ws) → 0 <= h → h + ScheduleLength <= MaxUint64 →
  let schedule := GenerateSchedule h ws seed in
  ws_SlotHeight <$> schedule = (λ i : nat, Z.of_nat i * SlotLength + (h - h mod ScheduleLength)) <$> seq 0 120 ∧
  Forall (λ s, ws_Account s ∈ w_Account <$> ws) schedule ∧
  ∀ w, w ∈ ws → let n := length (filter (w_Account w =.) (ws_Account <$> schedule)) in
    (120 / length ws <= n <= 120 / length ws + 1)%nat.
Proof.
  intros Hne Hnd Hh Hmax schedule. destruct (schedule_eq h ws seed Hne Hh Hmax) as [w0 Heq]. unfold schedule. rewrite Heq. clear Heq schedule.
  pose proof (shuffle_Permutation seed (dealt ws w0 120)) as Hp. set (l := shuffle seed (dealt ws w0 120)) in *.
  assert (length l = 120%nat) as Hlen by (rewrite Hp; unfold dealt; by rewrite length_fmap, length_seq). split_and!.
  - rewrite fmap_imap. rewrite <- Hlen. clear. generalize (h - h mod ScheduleLength) as st. intros st. apply list_eq. intros i.
    rewrite list_lookup_imap, list_lookup_fmap. destruct (l !! i) as [a|] eqn:Hi; cbn.
    + apply lookup_lt_Some in Hi. by rewrite lookup_seq_lt by done.
    + apply lookup_ge_None in Hi. by rewrite lookup_seq_ge by done.
  - apply Forall_forall. intros s Hs. apply list_elem_of_lookup in Hs as [i Hi]. rewrite list_lookup_imap in Hi.
    apply fmap_Some in Hi as (a & Ha & ->). cbn. apply (dealt_member _ w0 120); [done|]. rewrite <- Hp. by eapply list_elem_of_lookup_2.
  - intros w Hw. rewrite fmap_imap. rewrite (imap_ext _ (λ _ a, a)) by done. replace (imap (λ _ a, a) l) with l.
    + rewrite Hp. by apply dealt_count.
    + clear. induction l as [|x l IH]; [done|]. rewrite imap_cons. f_equal. exact IH.
Qed.
End fairness.

(** ** The memo *)

Definition heights_distinct (db : list ElectionResult) : Prop := NoDup (el_BlockHeight <$> db).

Lemma election_spec h db e :
  GetElectionByHeight h db = Some e → e ∈ db ∧ el_BlockHeight e < h ∧ ∀ e', e' ∈ db → el_BlockHeight e' < h → el_BlockHeight e' <= el_BlockHeight e.
Proof.
  unfold GetElectionByHeight.
  set (P := λ (seen : list ElectionResult) (o : option ElectionResult), match o with
    | Some e => e ∈ seen ∧ el_BlockHeight e < h ∧ ∀ e', e' ∈ seen → el_BlockHeight e' < h → el_BlockHeight e' <= el_BlockHeight e
    | None => ∀ e', e' ∈ seen → h <= el_BlockHeight e' end).
  enough (∀ l seen o, P seen o → P (seen ++ l) (foldl (λ best e, if el_BlockHeight e <? h then newer_election e best else best) o l)) as Hg.
  { intros He. specialize (Hg db [] None). rewrite He in Hg. apply Hg. intros e' Hin. by apply not_elem_of_nil in Hin. }
  intros l. induction l as [|x l IH]; intros seen o Ho; [by rewrite app_nil_r|]. cbn [foldl]. rewrite cons_middle, app_assoc. apply IH.
  unfold P, newer_election. destruct (Z.ltb_spec (el_BlockHeight x) h) as [Hx|Hx]; destruct o as [b|]; cbn in Ho.
  - destruct Ho as (Hb1 & Hb2 & Hb3). destruct (Z.ltb_spec (el_BlockHeight b) (el_BlockHeight x)); (split_and!; [set_solver|done|]);
      intros e' [Hin| ->%list_elem_of_singleton]%elem_of_app Hlt; try lia; specialize (Hb3 e' Hin Hlt); lia.
  - split_and!; [set_solver|done|]. intros e' [Hin| ->%list_elem_of_singleton]%elem_of_app Hlt; [|lia]. specialize (Ho e' Hin). lia.
  - destruct Ho as (Hb1 & Hb2 & Hb3). split_and!; [set_solver|done|]. intros e' [Hin| ->%list_elem_of_singleton]%elem_of_app Hlt; [by apply Hb3|lia].
  - intros e' [Hin| ->%list_elem_of_singleton]%elem_of_app; [by apply Ho|done].
Qed.

Lemma election_None h db : GetElectionByHeight h db = None → ∀ e, e ∈ db → h <= el_BlockHeight e.
Proof.
  unfold GetElectionByHeight. intros Hn e Hin. destruct (Z.lt_ge_cases (el_BlockHeight e) h) as [Hlt|]; [|done]. exfalso. revert Hn.
  apply list_elem_of_split in Hin as (l1 & l2 & ->). rewrite foldl_app. cbn [foldl]. rewrite (proj2 (Z.ltb_lt _ _) Hlt).
  assert (∀ o l, is_Some o → foldl (λ best e, if el_BlockHeight e <? h then newer_election e best else best) o l ≠ None) as Hs.
  { intros o l. revert o. induction l as [|x l IH]; intros o [b Hb]; cbn [foldl]; [by subst|]. apply IH. subst o. destruct (_ <? _); [|by eexists].
    unfold newer_election. destruct (_ <? _); by eexists. }
  apply Hs. unfold newer_election. destruct (foldl _ _ l1); [destruct (_ <? _)|]; by eexists.
Qed.

(** The newest election below a height is the one found. *)
Lemma election_unique h db e :
  heights_distinct db → e ∈ db → el_BlockHeight e < h → (∀ e', e' ∈ db → el_BlockHeight e' < h → el_BlockHeight e' <= el_BlockHeight e) →
  GetElectionByHeight h db = Some e.
Proof.
  intros Hd Hin Hlt Hmax. destruct (GetElectionByHeight h db) as [b|] eqn:Hb.
  - apply election_spec in Hb as (Hb1 & Hb2 & Hb3). f_equal. assert (el_BlockHeight b = el_BlockHeight e) as Heq.
    { specialize (Hb3 e Hin Hlt). specialize (Hmax b Hb1 Hb2). lia. }
    apply list_elem_of_lookup in Hin as [i Hi], Hb1 as [j Hj]. unfold heights_distinct in Hd.
    assert (i = j) as ->; [|congruence]. apply (NoDup_lookup (el_BlockHeight <$> db) _ _ (el_BlockHeight e) Hd); rewrite list_lookup_fmap.
    + by rewrite Hi.
    + by rewrite Hj, <- Heq.
  - pose proof (election_None h db Hb e Hin). lia.
Qed.

Section memo.
Context `{Shuffle} (seed_of : string → Z) (hiveBlock : Z → option string).
(** the heights whose Hive block every read finds as it is; at any other height a read
    may fail, or answer something else, at one time and not at another *)
Context (reliable : Z → Prop).

Definition read_ok (read : Z → option string) : Prop := ∀ h, reliable h → read h = hiveBlock h.

Record sched_state := mkSchedState { en_memo : memo; en_db : list ElectionResult; en_slot : Z }.

(** The uses of the memo: schedules are asked for slots that do not go back;
    elections are stored above all others, or their writes fail ([phantom]); the
    process restarts. *)
Inductive memo_step : sched_state → sched_state → Prop :=
| ask m db s0 read latestErr readErr s :
    read_ok read → s0 <= s →
    memo_step (mkSchedState m db s0) (mkSchedState (getScheduleForSlot seed_of db read latestErr readErr s m).2 db s)
| stored m db s e :
    (∀ e', e' ∈ db → el_BlockHeight e' < el_BlockHeight e) → el_BlockHeight e < MaxInt64 - 1 →
    memo_step (mkSchedState m db s) (mkSchedState (onElectionStored e m) (db ++ [e]) s)
| phantom m db s e :
    (∀ e', e' ∈ db → el_BlockHeight e' ≠ el_BlockHeight e) → memo_step (mkSchedState m db s) (mkSchedState (onElectionStored e m) db s)
| restart m db s : memo_step (mkSchedState m db s) (mkSchedState no_memo db s).

(** The mirror is the newest election or none at all; the memo is the schedule of
    an earlier slot. *)
Definition memo_ok (g : sched_state) : Prop :=
  let m := en_memo g in let db := en_db g in
  heights_distinct db ∧ (∀ e, e ∈ db → el_BlockHeight e < MaxInt64 - 1) ∧
  (latestElectionSeeded m = true → ∀ e, e ∈ db → el_BlockHeight e = latestElectionBh m →
     ∀ e', e' ∈ db → el_BlockHeight e' <= el_BlockHeight e) ∧
  (∀ sch, scheduleCached m = Some sch → ∃ read s0 e, read_ok read ∧ s0 <= en_slot g ∧ (CalculateRoundInfo s0).1 = scheduleRoundStart m ∧
     computeSchedule seed_of db read false s0 = Some (sch, e) ∧ scheduleElectionBh m = el_BlockHeight e).

Lemma schedule_of_round s s' ws seed :
  (CalculateRoundInfo s).1 = (CalculateRoundInfo s').1 → GenerateSchedule s ws seed = GenerateSchedule s' ws seed.
Proof. unfold GenerateSchedule, CalculateRoundInfo. cbn [fst]. intros ->. done. Qed.

Lemma seed_mirror db err m : memoElectionIsCurrent db err m = (true, (memoElectionIsCurrent db err m).2) →
  scheduleElectionBh m = latestElectionBh (memoElectionIsCurrent db err m).2 ∧ latestElectionSeeded (memoElectionIsCurrent db err m).2 = true.
Proof.
  unfold memoElectionIsCurrent. cbv zeta. cbn [fst snd]. intros [= Hc]. apply andb_true_iff in Hc as [[Hs _]%andb_true_iff Hb%Z.eqb_eq]. split; [|done].
  rewrite <- Hb. destruct (latestElectionSeeded m); [done|]. destruct (if err then _ else _); done.
Qed.

Lemma mirror_kept db err m :
  let m' := (memoElectionIsCurrent db err m).2 in
  scheduleCached m' = scheduleCached m ∧ scheduleRoundStart m' = scheduleRoundStart m ∧ scheduleElectionBh m' = scheduleElectionBh m ∧
  (latestElectionSeeded m' = true → latestElectionSeeded m = true ∧ latestElectionBh m' = latestElectionBh m ∨
     ∃ e, GetElectionByHeight (MaxInt64 - 1) db = Some e ∧ latestElectionBh m' = el_BlockHeight e).
Proof.
  unfold memoElectionIsCurrent. cbv zeta. cbn [snd]. destruct (latestElectionSeeded m) eqn:Hs.
  { split_and!; [done..|]. intros _. by left. }
  destruct err; [by rewrite Hs|].
  destruct (GetElectionByHeight _ db) as [e|]; [|by rewrite Hs]. cbn. split_and!; [done..|]. intros _. right. by exists e.
Qed.

(** A hit answers what would be computed. *)
Lemma hit_exact g s cached err :
  memo_ok g → reliable ((CalculateRoundInfo s).1 -u64 1) → en_slot g <= s → scheduleCached (en_memo g) = Some cached →
  scheduleRoundStart (en_memo g) = (CalculateRoundInfo s).1 → (memoElectionIsCurrent (en_db g) err (en_memo g)).1 = true →
  fst <$> computeSchedule seed_of (en_db g) hiveBlock false s = Some cached.
Proof.
  intros (Hd & Hbound & Hmir & Hc) Hrel Hs Hcached Hround Hcur. destruct (Hc _ Hcached) as (read & s0 & e & Hread & Hs0 & Hr0 & Hcomp & Hbh).
  destruct (seed_mirror (en_db g) err (en_memo g)) as [Hm Hseed]. { by rewrite <- Hcur, <- surjective_pairing. }
  destruct (mirror_kept (en_db g) err (en_memo g)) as (_ & _ & _ & Hk). specialize (Hk Hseed).
  unfold computeSchedule in Hcomp. cbn [mbind option_bind] in Hcomp. destruct (GetElectionByHeight s0 (en_db g)) as [e0|] eqn:He0; [|done].
  cbn [mbind option_bind] in Hcomp. injection Hcomp as Hsch <-. apply election_spec in He0 as (Hin & Hlt & _).
  assert (∀ e', e' ∈ en_db g → el_BlockHeight e' <= el_BlockHeight e0) as Hmax.
  { destruct Hk as [[Hsd Hl]|(l & Hl & Hlb)]; [apply Hmir; congruence|]. apply election_spec in Hl as (Hl1 & _ & Hl3). intros e' He'.
    specialize (Hl3 e' He' (Hbound e' He')). lia. }
  unfold computeSchedule. rewrite (election_unique s (en_db g) e0) by (first [done|lia|intros; by apply Hmax]). cbn [mbind option_bind fmap option_fmap option_map fst]. f_equal.
  change (s0 -u64 s0 mod ScheduleLength) with (CalculateRoundInfo s0).1 in Hsch. rewrite <- Hsch, Hr0, Hround, (Hread _ Hrel).
  apply schedule_of_round. congruence.
Qed.

(** What the mirror may become without losing its meaning. *)
Definition mirror_of (db : list ElectionResult) (m m' : memo) : Prop :=
  latestElectionSeeded m' = true →
  latestElectionSeeded m = true ∧ latestElectionBh m' = latestElectionBh m ∨
  ∃ e, GetElectionByHeight (MaxInt64 - 1) db = Some e ∧ latestElectionBh m' = el_BlockHeight e.

Lemma mirror_ok m m' db s0 :
  memo_ok (mkSchedState m db s0) → mirror_of db m m' → latestElectionSeeded m' = true → ∀ e, e ∈ db → el_BlockHeight e = latestElectionBh m' →
  ∀ e', e' ∈ db → el_BlockHeight e' <= el_BlockHeight e.
Proof.
  intros (_ & Hbound & Hmir & _) Hm Hs' e Hin Hbh. cbn in *. destruct (Hm Hs') as [[Hs1 Hl]|(l & Hl & Hlb)]; [apply Hmir; congruence|].
  apply election_spec in Hl as (_ & _ & Hl3). intros e' He'. specialize (Hl3 e' He' (Hbound e' He')). lia.
Qed.

(** A memo that is kept, and one that is computed anew. *)
Lemma kept_ok m m' db s0 s :
  memo_ok (mkSchedState m db s0) → s0 <= s → mirror_of db m m' →
  scheduleCached m' = scheduleCached m → scheduleRoundStart m' = scheduleRoundStart m → scheduleElectionBh m' = scheduleElectionBh m →
  memo_ok (mkSchedState m' db s).
Proof.
  intros Hok Hs Hm Hc Hr Hb. pose proof (mirror_ok m m' db s0 Hok Hm) as Hmir'. destruct Hok as (Hd & Hbound & _ & Hcache). cbn in *.
  split_and!; cbn; [done..|]. rewrite Hc, Hr, Hb. intros sch Hsch. destruct (Hcache sch Hsch) as (read & s1 & e & ? & ? & ? & ? & ?).
  exists read, s1, e. split_and!; [done|lia|done..].
Qed.

Lemma computed_ok m m' db s0 s read rerr :
  read_ok read → memo_ok (mkSchedState m db s0) → mirror_of db m m' →
  memo_ok (mkSchedState (match computeSchedule seed_of db read rerr s with
    | Some (schedule, election) => mkMemo (CalculateRoundInfo s).1 (Some schedule) (el_Epoch election) (el_BlockHeight election)
        (latestElectionEpoch m') (latestElectionBh m') (latestElectionSeeded m')
    | None => mkMemo (CalculateRoundInfo s).1 None 0 0 (latestElectionEpoch m') (latestElectionBh m') (latestElectionSeeded m') end) db s).
Proof.
  intros Hread Hok Hm. pose proof (mirror_ok m m' db s0 Hok Hm) as Hmir'. destruct Hok as (Hd & Hbound & _ & _).
  destruct (computeSchedule seed_of db read rerr s) as [[sch e]|] eqn:Hcs.
  - split_and!; cbn; [done..|]. intros ? [= <-]. exists read, s, e. destruct rerr; [done|]. split_and!; [done|lia|done..].
  - by split_and!.
Qed.

Lemma ask_ok m db s0 read lerr rerr s :
  read_ok read → memo_ok (mkSchedState m db s0) → s0 <= s → memo_ok (mkSchedState (getScheduleForSlot seed_of db read lerr rerr s m).2 db s).
Proof.
  intros Hread Hok Hs. unfold getScheduleForSlot. cbv zeta. assert (mirror_of db m m) as Hself by (intros ?; by left).
  pose proof (computed_ok m m db s0 s read rerr Hread Hok Hself) as Hnew. destruct (scheduleCached m) as [cached|] eqn:Hcm.
  - destruct (scheduleRoundStart m =? _).
    + destruct (mirror_kept db lerr m) as (K1 & K2 & K3 & K4). destruct (memoElectionIsCurrent db lerr m) as [cur m']. cbn [snd] in *.
      pose proof (computed_ok m m' db s0 s read rerr Hread Hok K4) as Hnew'. destruct cur; [by apply (kept_ok m m' db s0 s)|].
      by destruct (computeSchedule _ _ _ _ _) as [[??]|].
    + by destruct (computeSchedule _ _ _ _ _) as [[??]|].
  - by destruct (computeSchedule _ _ _ _ _) as [[??]|].
Qed.

Lemma memo_step_ok g g' : memo_ok g → memo_step g g' → memo_ok g'.
Proof.
  intros Hok Hstep. destruct Hstep as [m db s0 read lerr rerr s Hread Hs|m db s e Hnew He|m db s e Hnew|m db s]; [by eapply ask_ok|..].
  all: destruct Hok as (Hd & Hbound & _ & _); cbn in *.
  - split_and!; cbn; [| | |done].
    + unfold heights_distinct. rewrite fmap_app. apply NoDup_app. split_and!; [done| |apply NoDup_singleton].
      intros x (e' & -> & Hin)%list_elem_of_fmap Heq%list_elem_of_singleton. specialize (Hnew e' Hin). lia.
    + intros e' [Hin| ->%list_elem_of_singleton]%elem_of_app; [by apply Hbound|done].
    + intros _ e1 _ Hbh e' [Hin| ->%list_elem_of_singleton]%elem_of_app; [specialize (Hnew e' Hin); lia|lia].
  - split_and!; cbn; [done..| |done]. intros _ e1 Hin Hbh. by apply Hnew in Hin.
  - by split_and!.
Qed.

Lemma fresh_memo_ok : memo_ok (mkSchedState no_memo [] 0).
Proof. split_and!; [constructor|by intros e ?%not_elem_of_nil|done|done]. Qed.

(** C38: from the start of a node, whatever elections were stored or lost, whenever the
    process restarted and whichever reads failed, a schedule served from the memo is the
    one a fresh computation gives, provided the Hive block before the round is one whose
    reads have not failed.  Slots are asked in order, an election is stored above all
    earlier ones, and the election itself is read at the time it is served.  The memo
    keeps the default schedule for the round when that Hive block could not be read once
    ([BlockExamples.default_kept]). *)
Theorem memo_exact g s read latestErr :
  rtc memo_step (mkSchedState no_memo [] 0) g → en_slot g <= s → read_ok read → reliable ((CalculateRoundInfo s).1 -u64 1) →
  (getScheduleForSlot seed_of (en_db g) read latestErr false s (en_memo g)).1 = GetSchedule seed_of (en_db g) hiveBlock false s.
Proof.
  intros Hsteps Hs Hread Hrel. assert (memo_ok g) as Hok.
  { pose proof fresh_memo_ok as H0. clear Hs. induction Hsteps as [|g1 g2 g3 H12 _ IH]; [done|]. apply IH. by eapply memo_step_ok. }
  assert (computeSchedule seed_of (en_db g) read false s = computeSchedule seed_of (en_db g) hiveBlock false s) as Hsame.
  { unfold computeSchedule. by rewrite (Hread _ Hrel). }
  unfold getScheduleForSlot, GetSchedule. cbv zeta. pose proof (hit_exact g s) as Hhit. rewrite Hsame. clear Hsame.
  destruct (scheduleCached (en_memo g)) as [cached|] eqn:Hc; [|by destruct (computeSchedule _ _ _ _ _) as [[??]|]].
  destruct (Z.eqb_spec (scheduleRoundStart (en_memo g)) (CalculateRoundInfo s).1) as [Hr|]; [|by destruct (computeSchedule _ _ _ _ _) as [[??]|]].
  specialize (Hhit cached latestErr Hok Hrel Hs eq_refl Hr). destruct (memoElectionIsCurrent _ _ _) as [[] m'].
  - specialize (Hhit eq_refl). by destruct (computeSchedule _ _ _ _ _) as [[??]|]; simplify_eq Hhit; intros ->.
  - by destruct (computeSchedule _ _ _ _ _) as [[??]|].
Qed.
End memo.
