(* ===== verification/BlsQuorum.v ===== *)
(** Did enough of the elected weight sign?  [lib/dids/quorum.go],
    [modules/state-processing/bls_quorum.go], and [CalculateSigningScore] and
    [MinimalRequiredElectionVotes] of [modules/db/vsc/elections/elections.go].

    A BLS aggregate over a committee that holds a key at two seats verifies with
    one signature, so the weight of a key is counted once, at its first seat, on
    both sides of the ratio. *)
From S2P Require Import Prelude GoMaps GoSlices ConsensusVersion.

(** ** The fold *)

(** The loop over the seats: the weight of each key, and the total. *)
Definition seat_step (acc : gmap string Z * Z) (kw : string * Z) : gmap string Z * Z :=
  match acc.1 !! kw.1 with
  | Some _ => acc
  | None => (<[kw.1 := kw.2]> acc.1, acc.2 +u64 kw.2)
  end.

(** The loop over the signers: those counted, and their weight. *)
Definition sign_step (weightByDID : gmap string Z) (acc : gset string * Z) (did : string) : gset string * Z :=
  if bool_decide (did ∈ acc.1) then acc
  else ({[did]} ∪ acc.1, acc.2 +u64 zget weightByDID did).

Definition FoldSignedWeight (memberKeys : list string) (weights : list Z) (included : list string) : Z * Z * bool :=
  if bool_decide (memberKeys = []) || negb (length memberKeys =? length weights)%nat then (0, 0, false)
  else
    let '(weightByDID, total) := foldl seat_step (∅, 0) (zip memberKeys weights) in
    if total =? 0 then (0, 0, false)
    else ((foldl (sign_step weightByDID) (∅, 0) included).2, total, true).

Definition TwoThirdsMet (signed total : Z) : bool :=
  if total =? 0 then false else total -u64 total / 3 <=? signed.

Definition QuorumMet (memberKeys : list string) (weights : list Z) (included : list string) : bool :=
  let '(signed, total, ok) := FoldSignedWeight memberKeys weights included in
  if negb ok then false else TwoThirdsMet signed total.

(** ** The state engine *)

Definition legacyBlsQuorumMet (included : list string) (members : list ElectionMember) (weights : list Z) : bool :=
  let '(weightByDID, weightTotal) :=
    foldl (λ acc (kw : string * Z), (<[kw.1 := kw.2]> acc.1, acc.2 +u64 kw.2)) ((∅ : gmap string Z), 0)
      (zip (em_Key <$> members) weights) in
  if weightTotal =? 0 then false
  else
    let signedWeight := (foldl (sign_step weightByDID) (∅, 0) included).2 in
    weightTotal -u64 weightTotal / 3 <=? signedWeight.

Definition BlsQuorumMet (included : list string) (members : list ElectionMember) (weights : list Z) (dedupActive : bool) : bool :=
  if bool_decide (members = []) || negb (length members =? length weights)%nat then false
  else if dedupActive then QuorumMet (em_Key <$> members) weights included
  else legacyBlsQuorumMet included members weights.

(** ** Blocks and elections *)

(** The seats whose bit is set. *)
Definition signed_seats {A} (bit : nat → bool) (l : list A) : list A := omap id (imap (λ i x, if bit i then Some x else None) l).

(** [bit] is the bit vector of the aggregate and [includedDIDs] its signers;
    [weights] is [None] for an election without weights. *)
Definition CalculateSigningScore (bit : nat → bool) (includedDIDs : list string) (members : list ElectionMember)
    (weights : option (list Z)) (dedupDuplicateKeys : bool) : Z * Z :=
  if dedupDuplicateKeys then
    let ws := default (replicate (length members) 1) weights in
    (FoldSignedWeight (em_Key <$> members) ws (em_Key <$> signed_seats bit members)).1
  else
    match weights with
    | None => (Z.of_nat (length includedDIDs), Z.of_nat (length members))
    | Some ws => (foldl u64_add 0 (signed_seats bit ws), foldl u64_add 0 ws)
    end.

(** The threshold of an election.  Before 0.2.0 it is computed in floating point
    from the age of the previous election, by [legacy]. *)
Definition MinimalRequiredElectionVotes (legacy : Z → Z → Z) (blocksSinceLastElection totalWeight : Z) (activeVersion : Version) : Z :=
  if Version0_2_0Active activeVersion then wrapu64 (wrapu64 (2 * totalWeight) + 2) / 3
  else legacy blocksSinceLastElection totalWeight.

(** ** Lemmas: weights of sets of keys *)

(** The weight the keys of a set carry. *)
Definition weight_in (m : gmap string Z) (X : gset string) : Z :=
  zsum ((λ kv, if decide (kv.1 ∈ X) then kv.2 else 0) <$> map_to_list m).

(** The weight of each key, at its first seat. *)
Definition seat_weights (memberKeys : list string) (weights : list Z) : gmap string Z := list_to_map (zip memberKeys weights).

Lemma weight_in_cons m X k v : m !! k = None → weight_in (<[k := v]> m) X = (if decide (k ∈ X) then v else 0) + weight_in m X.
Proof. intros Hk. unfold weight_in. by rewrite map_to_list_insert by done. Qed.

Lemma weight_in_empty m : weight_in m ∅ = 0.
Proof. apply zsum_map_0. intros kv _. by rewrite decide_False by set_solver. Qed.

Lemma weight_in_insert m X d : d ∉ X → weight_in m ({[d]} ∪ X) = weight_in m X + zget m d.
Proof.
  intros Hd. induction m as [|k v m Hk IH] using map_ind; [by rewrite zget_empty|]. rewrite !weight_in_cons, IH by done.
  unfold zget. destruct (decide (k = d)) as [->|Hne].
  - rewrite lookup_insert_eq, Hk, decide_True, decide_False by set_solver. cbn. lia.
  - rewrite lookup_insert_ne by done. rewrite (decide_ext (k ∈ {[d]} ∪ X) (k ∈ X)) by set_solver. lia.
Qed.

Lemma weight_in_incl_excl m A B : weight_in m A + weight_in m B = weight_in m (A ∪ B) + weight_in m (A ∩ B).
Proof.
  unfold weight_in. rewrite <- !zsum_map_add. apply zsum_map_ext. intros [k v] _. cbn [fst snd].
  destruct (decide (k ∈ A)), (decide (k ∈ B)).
  - rewrite !decide_True by set_solver. lia.
  - rewrite decide_True, decide_False by set_solver. lia.
  - rewrite decide_True, decide_False by set_solver. lia.
  - rewrite !decide_False by set_solver. lia.
Qed.

Definition weights_ok (m : gmap string Z) : Prop := (∀ k v, m !! k = Some v → 0 <= v) ∧ msum (λ v, v) m <= MaxUint64.

Lemma weight_in_bounds m X : weights_ok m → 0 <= weight_in m X <= msum (λ v, v) m.
Proof.
  intros [Hnn _]. rewrite msum_list. unfold weight_in. rewrite list_fmap_id. split.
  - apply zsum_nonneg, Forall_fmap, Forall_forall. intros [k v] Hkv%elem_of_map_to_list. cbn. apply Hnn in Hkv. case_decide; lia.
  - apply zsum_map_le. intros [k v] Hkv%elem_of_map_to_list. cbn. apply Hnn in Hkv. case_decide; lia.
Qed.

(** ** Lemmas: the fold *)

Lemma union_insert_seen (m m' : gmap string Z) k v x : m !! k = Some x → m ∪ <[k := v]> m' = m ∪ m'.
Proof.
  intros Hk. apply map_eq. intros i. rewrite !lookup_union. destruct (decide (i = k)) as [->|Hne]; [|by rewrite lookup_insert_ne].
  rewrite Hk. by rewrite !union_Some_l.
Qed.

Lemma seat_fold l m t :
  (∀ k v, (k, v) ∈ l → 0 <= v) → (∀ k v, m !! k = Some v → 0 <= v) → t = msum (λ v, v) m → msum (λ v, v) m + zsum l.*2 <= MaxUint64 →
  foldl seat_step (m, t) l = (m ∪ list_to_map l, msum (λ v, v) (m ∪ list_to_map l)).
Proof.
  revert m t. induction l as [|[k v] l IH]; intros m t Hl Hm -> Hle; cbn [foldl].
  { cbn [list_to_map foldr]. by rewrite map_union_empty. }
  rewrite fmap_cons in Hle. cbn [zsum snd] in Hle. assert (0 <= v) as Hv by (apply (Hl k); by left).
  assert (0 <= zsum l.*2) as Hz.
  { apply zsum_nonneg, Forall_forall. intros z ([a b] & -> & Hab)%list_elem_of_fmap. apply (Hl a). by right. }
  assert (0 <= msum (λ v, v) m) as Hms by by apply msum_nonneg.
  unfold seat_step at 2. cbn [fst snd]. rewrite list_to_map_cons. destruct (m !! k) as [x|] eqn:Ek.
  - rewrite IH; [|by intros a b Hab; apply (Hl a); right|done|done|lia].
    assert (m ∪ <[k := v]> (list_to_map l) = m ∪ list_to_map l) as -> by (by eapply union_insert_seen). done.
  - rewrite IH; [by rewrite <- insert_union_r, insert_union_l|by intros a b Hab; apply (Hl a); right| | |].
    + intros a b. rewrite lookup_insert_Some. intros [[_ <-]|[_ ?]]; [done|by eapply Hm].
    + unfold u64_add. rewrite wrapu64_id by (unfold_widths; lia). rewrite msum_insert_None by done. lia.
    + rewrite msum_insert_None by done. lia.
Qed.

Lemma sign_fold m included c t :
  weights_ok m → t = weight_in m c →
  foldl (sign_step m) (c, t) included = (list_to_set included ∪ c, weight_in m (list_to_set included ∪ c)).
Proof.
  intros Hok. revert c t. induction included as [|d l IH]; intros c t ->; cbn [foldl].
  { f_equal; [|f_equal]; set_solver. }
  unfold sign_step at 2. cbn [fst snd]. case_bool_decide as Hin.
  - rewrite IH by done. assert (list_to_set (d :: l) ∪ c = list_to_set l ∪ c) as -> by set_solver. done.
  - rewrite IH.
    + assert (list_to_set (d :: l) ∪ c = list_to_set l ∪ ({[d]} ∪ c)) as -> by set_solver. done.
    + pose proof (weight_in_bounds m ({[d]} ∪ c) Hok) as Hb. rewrite weight_in_insert in Hb |- * by done.
      unfold u64_add. rewrite wrapu64_id; [done|]. destruct Hok as [_ ?]. unfold_widths. lia.
Qed.

(** A key that is at several seats counts once. *)
Lemma list_to_map_sum (l : list (string * Z)) :
  (∀ k v, (k, v) ∈ l → 0 <= v) → msum (λ v, v) (list_to_map l : gmap string Z) <= zsum l.*2.
Proof.
  induction l as [|[k v] l IH]; intros Hp; [done|]. rewrite list_to_map_cons, msum_insert, fmap_cons. cbn [zsum snd].
  assert (msum (λ v, v) (list_to_map l : gmap string Z) <= zsum l.*2) by (apply IH; intros a b Hab; apply (Hp a); by right).
  destruct ((list_to_map l : gmap string Z) !! k) as [x|] eqn:Ex; cbn; [|lia].
  apply elem_of_list_to_map_2 in Ex. assert (0 <= x) by (apply (Hp k); by right). lia.
Qed.

Lemma zip_nonneg {A} (keys : list A) ws k v : Forall (λ w, 0 <= w) ws → (k, v) ∈ zip keys ws → 0 <= v.
Proof. intros Hnn Hkv%elem_of_zip_r. rewrite Forall_forall in Hnn. by apply Hnn. Qed.

Lemma seat_weights_sum keys ws :
  length keys = length ws → Forall (λ w, 0 <= w) ws → msum (λ v, v) (seat_weights keys ws) <= zsum ws.
Proof.
  intros Hlen Hnn. pose proof (list_to_map_sum (zip keys ws) (λ k v, zip_nonneg keys ws k v Hnn)) as Hs. by rewrite snd_zip in Hs by lia.
Qed.

Lemma seat_weights_ok keys ws :
  length keys = length ws → Forall (λ w, 0 <= w) ws → zsum ws <= MaxUint64 →
  weights_ok (seat_weights keys ws) ∧
  foldl seat_step (∅, 0) (zip keys ws) = (seat_weights keys ws, msum (λ v, v) (seat_weights keys ws)).
Proof.
  intros Hlen Hnn Hle. pose proof (seat_weights_sum keys ws Hlen Hnn). pose proof (zip_nonneg keys ws) as Hl. split.
  - split; [|lia]. intros k v Hkv%elem_of_list_to_map_2. by eapply Hl.
  - unfold seat_weights. rewrite seat_fold; [by rewrite map_empty_union|by eauto|by intros k v Hkv; rewrite lookup_empty in Hkv|by rewrite msum_empty|].
    rewrite msum_empty, snd_zip by lia. lia.
Qed.

Lemma fold_spec keys ws included :
  keys ≠ [] → length keys = length ws → Forall (λ w, 0 <= w) ws → zsum ws <= MaxUint64 →
  let m := seat_weights keys ws in
  FoldSignedWeight keys ws included =
  if msum (λ v, v) m =? 0 then (0, 0, false) else (weight_in m (list_to_set included), msum (λ v, v) m, true).
Proof.
  intros Hne Hlen Hnn Hle m. destruct (seat_weights_ok keys ws Hlen Hnn Hle) as [Hok E]. unfold FoldSignedWeight.
  rewrite bool_decide_false by done. rewrite Hlen, Nat.eqb_refl. cbn [orb negb]. rewrite E. fold m. fold m in Hok. case_match; [done|].
  rewrite sign_fold by (done || by rewrite weight_in_empty). by rewrite union_empty_r_L.
Qed.

(** The threshold is two thirds, rounded up. *)
Lemma two_thirds_spec signed total :
  0 < total <= MaxUint64 → (TwoThirdsMet signed total = true ↔ 2 * total <= 3 * signed).
Proof.
  intros Ht. unfold TwoThirdsMet. rewrite (proj2 (Z.eqb_neq total 0)), Z.leb_le by lia. unfold u64_sub.
  pose proof (Z.div_mod total 3 ltac:(lia)). pose proof (Z.mod_pos_bound total 3 ltac:(lia)).
  rewrite wrapu64_id by (unfold_widths; lia). lia.
Qed.

Lemma legacy_seats (l : list (string * Z)) m t :
  NoDup l.*1 → (∀ k, is_Some (m !! k) → k ∉ l.*1) →
  foldl (λ (acc : gmap string Z * Z) (kw : string * Z), (<[kw.1 := kw.2]> acc.1, acc.2 +u64 kw.2)) (m, t) l = foldl seat_step (m, t) l.
Proof.
  revert m t. induction l as [|[k v] l IH]; intros m t Hnd Hm; [done|]. cbn [foldl].
  rewrite fmap_cons in Hnd, Hm. cbn [fst] in Hnd, Hm. apply NoDup_cons in Hnd as [Hk Hnd].
  assert (m !! k = None) as Hn. { destruct (m !! k) eqn:E; [|done]. destruct (Hm k); [by rewrite E|by left]. }
  unfold seat_step at 2. cbn [fst snd]. rewrite Hn. apply IH; [done|].
  intros a [<-|Ha]%lookup_insert_is_Some'; [done|]. apply Hm in Ha. intros ?. destruct Ha. by right.
Qed.

(** The loop before the collapse: a key counts for its last seat, the total for all
    seats. *)
Definition last_seat_weights (memberKeys : list string) (weights : list Z) : gmap string Z := list_to_map (reverse (zip memberKeys weights)).

Lemma legacy_fold (l : list (string * Z)) (m : gmap string Z) t :
  (∀ k v, (k, v) ∈ l → 0 <= v) → 0 <= t → t + zsum l.*2 <= MaxUint64 →
  foldl (λ (acc : gmap string Z * Z) (kw : string * Z), (<[kw.1 := kw.2]> acc.1, acc.2 +u64 kw.2)) (m, t) l = (list_to_map (reverse l) ∪ m, t + zsum l.*2).
Proof.
  revert m t. induction l as [|[k v] l IH]; intros m t Hl Ht Hle; cbn [foldl].
  { cbn. rewrite map_empty_union, Z.add_0_r. done. }
  rewrite fmap_cons in Hle |- *. cbn [zsum fst snd] in *. assert (0 <= v) by (apply (Hl k); by left).
  assert (0 <= zsum l.*2) by (apply zsum_nonneg, Forall_forall; intros z ([a b] & -> & Hab)%list_elem_of_fmap; apply (Hl a); by right).
  unfold u64_add. rewrite wrapu64_id by (unfold_widths; lia). rewrite IH; [|by intros a b Hab; apply (Hl a); right|lia|lia].
  rewrite reverse_cons, list_to_map_app. cbn [list_to_map foldr fst snd]. f_equal; [|lia].
  rewrite insert_union_singleton_l. apply (assoc_L (∪)).
Qed.

Lemma last_seats_ok keys ws :
  length keys = length ws → Forall (λ w, 0 <= w) ws → zsum ws <= MaxUint64 → weights_ok (last_seat_weights keys ws).
Proof.
  intros Hlen Hnn Hle. assert (∀ k v, (k, v) ∈ reverse (zip keys ws) → 0 <= v) as Hl by (intros k v; rewrite elem_of_reverse; apply (zip_nonneg keys ws k v Hnn)).
  split; [intros k v Hkv%elem_of_list_to_map_2; by eapply Hl|]. pose proof (list_to_map_sum _ Hl) as Hs. unfold last_seat_weights.
  enough (zsum (reverse (zip keys ws)).*2 = zsum ws) by lia. rewrite fmap_reverse, snd_zip by lia. apply zsum_Permutation, reverse_Permutation.
Qed.

(** ** Theorems *)

Section committee.
Context (members : list ElectionMember) (ws : list Z).
Hypothesis Hlen : length members = length ws.
Hypothesis Hnn : Forall (λ w, 0 <= w) ws.
Hypothesis Hfit : zsum ws <= MaxUint64.

(** The weight of each key, and their total. *)
Definition key_weight : gmap string Z := seat_weights (em_Key <$> members) ws.
Definition committee_weight : Z := msum (λ v, v) key_weight.

Lemma quorum_spec included :
  BlsQuorumMet included members ws true = true ↔
  members ≠ [] ∧ 0 < committee_weight ∧ 2 * committee_weight <= 3 * weight_in key_weight (list_to_set included).
Proof.
  unfold BlsQuorumMet. case_bool_decide as Hm; cbn [orb]; [split; [done|by intros []]|].
  rewrite Hlen, Nat.eqb_refl. cbn [negb]. unfold QuorumMet.
  assert (length (em_Key <$> members) = length ws) as Hl by by rewrite length_fmap.
  rewrite fold_spec by (done || by destruct members). fold key_weight. fold committee_weight.
  destruct (seat_weights_ok _ ws Hl Hnn Hfit) as [[Hk Hle] _]. fold key_weight in Hk, Hle. fold committee_weight in Hle.
  assert (0 <= committee_weight) by by apply msum_nonneg. destruct (Z.eqb_spec committee_weight 0) as [E|E]; cbn [negb].
  - split; [done|lia].
  - rewrite two_thirds_spec by lia. split; [intros ?; split_and!; [done|lia|lia]|by intros (_ & _ & ?)].
Qed.

(** Before the collapse. *)
Lemma legacy_quorum_spec included :
  BlsQuorumMet included members ws false = true ↔
  members ≠ [] ∧ 0 < zsum ws ∧ 2 * zsum ws <= 3 * weight_in (last_seat_weights (em_Key <$> members) ws) (list_to_set included).
Proof.
  unfold BlsQuorumMet. case_bool_decide as Hm; cbn [orb]; [split; [done|by intros []]|].
  rewrite Hlen, Nat.eqb_refl. cbn [negb]. assert (length (em_Key <$> members) = length ws) as Hl by by rewrite length_fmap.
  unfold legacyBlsQuorumMet. rewrite legacy_fold; [|intros k v; by apply zip_nonneg|lia|rewrite snd_zip by lia; lia].
  rewrite map_union_empty, snd_zip by lia. fold (last_seat_weights (em_Key <$> members) ws).
  rewrite sign_fold; [|by apply last_seats_ok|by rewrite weight_in_empty]. cbn [snd]. rewrite union_empty_r_L, Z.add_0_l.
  pose proof (zsum_nonneg ws Hnn). pose proof (two_thirds_spec (weight_in (last_seat_weights (em_Key <$> members) ws) (list_to_set included)) (zsum ws)) as Ht.
  unfold TwoThirdsMet in Ht. destruct (Z.eqb_spec (zsum ws) 0) as [E|E]; [split; [done|lia]|]. rewrite Ht by lia.
  split; [intros ?; split_and!; [done|lia|lia]|by intros (_ & _ & ?)].
Qed.

(** Keys that carry two thirds of a committee, under either rule. *)
Definition two_thirds_signed (dedupActive : bool) (keys : gset string) : Prop :=
  if dedupActive then 0 < committee_weight ∧ 2 * committee_weight <= 3 * weight_in key_weight keys
  else 0 < zsum ws ∧ 2 * zsum ws <= 3 * weight_in (last_seat_weights (em_Key <$> members) ws) keys.

Lemma quorum_two_thirds dedupActive included :
  BlsQuorumMet included members ws dedupActive = true → two_thirds_signed dedupActive (list_to_set included).
Proof. destruct dedupActive; [intros (_ & ? & ?)%quorum_spec|intros (_ & ? & ?)%legacy_quorum_spec]; by split. Qed.

(** The collapse changes nothing where no key is repeated.  For a committee
    whose keys are distinct the two folds agree on every set of signers, and the
    weight of the committee is the sum of its weights. *)
Lemma dedup_agrees included :
  NoDup (em_Key <$> members) →
  BlsQuorumMet included members ws true = BlsQuorumMet included members ws false ∧
  (committee_weight = zsum ws).
Proof.
  intros Hnd. assert (length (em_Key <$> members) = length ws) as Hl by by rewrite length_fmap.
  destruct (seat_weights_ok _ ws Hl Hnn Hfit) as [Hok E]. fold key_weight in Hok, E. fold committee_weight in E. split.
  - unfold BlsQuorumMet. case_bool_decide as Hm; [done|]. rewrite Hlen, Nat.eqb_refl. cbn [orb negb].
    unfold QuorumMet, legacyBlsQuorumMet, FoldSignedWeight.
    rewrite bool_decide_false by by destruct members. rewrite Hl, Nat.eqb_refl. cbn [orb negb].
    rewrite legacy_seats, E; [|by rewrite fst_zip by lia|by intros k []; rewrite lookup_empty in *].
    destruct (committee_weight =? 0) eqn:Ez; [done|]. cbn [negb]. unfold TwoThirdsMet. by rewrite Ez.
  - unfold committee_weight, key_weight, seat_weights. rewrite msum_list, list_fmap_id.
    rewrite map_to_list_to_map by by rewrite fst_zip by lia. by rewrite snd_zip by lia.
Qed.
(** C36: quorums overlap.  Two sets of signers that both meet the quorum of a
    committee share keys that carry at least a third of the committee's weight,
    however often a signer is listed.  Under the rule of consensus 0.8.0 this holds
    however many seats hold one key; under the rule before it, only of committees
    whose keys are distinct ([legacy_last_seat_wins] shows why).  The weights must
    add up to a [uint64]. *)
Theorem bls_quorums_overlap dedupActive A B :
  dedupActive = true ∨ NoDup (em_Key <$> members) →
  BlsQuorumMet A members ws dedupActive = true → BlsQuorumMet B members ws dedupActive = true →
  let common := weight_in key_weight (list_to_set A ∩ list_to_set B) in
  committee_weight <= 3 * common ∧ 0 < common.
Proof.
  intros Hrule HA HB common.
  assert (BlsQuorumMet A members ws true = true ∧ BlsQuorumMet B members ws true = true) as [HA' HB'].
  { destruct dedupActive; [done|]. destruct Hrule as [|Hnd]; [done|]. by rewrite !(proj1 (dedup_agrees _ Hnd)). }
  clear HA HB. apply quorum_spec in HA' as (Hne & Hpos & HA). apply quorum_spec in HB' as (_ & _ & HB).
  assert (length (em_Key <$> members) = length ws) as Hl by by rewrite length_fmap.
  destruct (seat_weights_ok _ ws Hl Hnn Hfit) as [Hok _]. fold key_weight in Hok.
  pose proof (weight_in_incl_excl key_weight (list_to_set A) (list_to_set B)) as Hie.
  pose proof (weight_in_bounds key_weight (list_to_set A ∪ list_to_set B) Hok) as Hu. fold committee_weight in Hu.
  unfold common. lia.
Qed.
End committee.

(** An election's threshold is the same two thirds. *)
Lemma election_threshold legacy blocks total v :
  Version0_2_0Active v = true → 0 < total → 2 * total + 2 <= MaxUint64 →
  ∀ signed, (MinimalRequiredElectionVotes legacy blocks total v <= signed ↔ TwoThirdsMet signed total = true).
Proof.
  intros Hv Ht Hmax signed. unfold MinimalRequiredElectionVotes. rewrite Hv, two_thirds_spec by lia.
  rewrite (wrapu64_id (2 * total)), wrapu64_id by (unfold_widths; lia).
  pose proof (Z.div_mod (2 * total + 2) 3 ltac:(lia)). pose proof (Z.mod_pos_bound (2 * total + 2) 3 ltac:(lia)). lia.
Qed.

(** Before the collapse, an account sorted after its victim chooses the weight the
    victim's signature counts for: here the signature of [k1] alone reaches the
    quorum with the weight of the copied seat. *)
Lemma legacy_last_seat_wins :
  let seat k a := mkElectionMember k a false 0 0 0 in
  let members := [seat "k1" "alice"; seat "k2" "bob"; seat "k1" "mallory"] in
  BlsQuorumMet ["k1"] members [1; 1; 10] false = true ∧ BlsQuorumMet ["k1"] members [1; 1; 10] true = false.
Proof. by vm_compute. Qed.
