(* ===== verification/BlsCircuit.v ===== *)
(** Aggregated signatures of a committee, [lib/dids/bls.go] and
    [lib/dids/vsc.go].

    A leader collects the signatures of the members over one content id in a
    partial circuit, finalizes it to an aggregate with the bit vector of the seats
    that signed, and serializes it; whoever reads it rebuilds the circuit from the
    seats of the election and verifies it.  A [VscDID] is the identity of the
    committee as a whole, for transactions signed by two thirds of its weight.

    The curve library is a class of operations; its laws are that encoding a
    signature loses nothing and that an aggregate of signatures that verify
    verifies under the aggregated keys, unless these cancel out.

    The theorems: what an honest leader serializes is verified by everyone, with
    exactly the seats whose keys signed; a [VscDID] accepts only when seats of
    enough weight are in a verified aggregate. *)
From Stdlib Require Import Ascii.
From S2P Require Import Prelude GoMaps GoSlices GoStrings GoEncoding ConsensusVersion BlsQuorum.

(** ** The curve library *)

(** The package [bls12-381-util].  Keys are given by their DIDs. *)
Class BlsLib (sig : Type) := {
  (** [Identifier]: the DID holds a valid public key. *)
  pubkey_ok : string → bool;
  sig_Deserialize : list Z → option sig;
  sig_Serialize : sig → list Z;
  bls_Aggregate : list sig → sig;
  (** [Verify] under one key. *)
  bls_Verify : string → string → sig → bool;
  (** [AggregatePubkeys] ([None] on its error) and [Verify]. *)
  bls_VerifyAgg : list string → string → sig → option bool;
}.

Class BlsLibLaws (sig : Type) `{BlsLib sig} := {
  (** The sum of the keys is a valid key. *)
  keys_sum_ok : list string → Prop;
  serialize_length : ∀ s, length (sig_Serialize s) = 96%nat;
  serialize_bytes : ∀ s, Forall byte_ok (sig_Serialize s);
  deserialize_serialize : ∀ s, sig_Deserialize (sig_Serialize s) = Some s;
  aggregate_verifies : ∀ keys sigs msg,
    keys ≠ [] → keys_sum_ok keys → Forall2 (λ k s, bls_Verify k msg s = true) keys sigs →
    bls_VerifyAgg keys msg (bls_Aggregate sigs) = Some true;
}.

(** ** Circuits *)

Record SerializedCircuit := mkSerializedCircuit { sc_Signature : string; sc_BitVector : string }.

Record BlsCircuit (sig : Type) := mkBlsCircuit {
  bc_msg : string;
  bc_aggSigs : sig;
  bc_bitVector : Z;
  bc_keyset : list string;
}.
Arguments mkBlsCircuit {sig}. Arguments bc_msg {sig}. Arguments bc_aggSigs {sig}.
Arguments bc_bitVector {sig}. Arguments bc_keyset {sig}.

(** A circuit under construction. *)
Record partialBlsCircuit (sig : Type) := mkPartialBlsCircuit {
  pc_msg : string;
  pc_members : list string;
  pc_sigs : gmap string sig;
  pc_finalized : bool;
}.
Arguments mkPartialBlsCircuit {sig}. Arguments pc_msg {sig}. Arguments pc_members {sig}.
Arguments pc_sigs {sig}. Arguments pc_finalized {sig}.

Record VscDID := mkVscDID {
  vd_members : list string;
  vd_weightMap : list Z;
  vd_threshold : Z;
  vd_bitvector : string;
}.

Section circuits.
Context {sig : Type} `{BlsLib sig}.
Implicit Types (c : BlsCircuit sig) (pc : partialBlsCircuit sig).

(** *** Collecting *)

Definition Generate (members : list string) (msg : string) : partialBlsCircuit sig := mkPartialBlsCircuit msg members ∅ false.

(** [None] is an error, [Some false] a signature that does not verify. *)
Definition addRaw pc (DID : string) (sigBytes : list Z) : option bool * partialBlsCircuit sig :=
  if negb (pubkey_ok DID) then (None, pc)
  else if negb (length sigBytes =? 96)%nat then (None, pc)
  else
    match sig_Deserialize sigBytes with
    | None => (None, pc)
    | Some s =>
        if negb (bls_Verify DID (pc_msg pc) s) then (Some false, pc)
        else (Some true, if pc_finalized pc then pc
                         else mkPartialBlsCircuit (pc_msg pc) (pc_members pc) (<[DID := s]> (pc_sigs pc)) false)
    end.

Definition AddAndVerifyRaw pc (member : string) (sigBytes : list Z) : option bool * partialBlsCircuit sig :=
  if negb (slices_Contains (pc_members pc) member) then (None, pc) else addRaw pc member sigBytes.

Definition AddAndVerify pc (member text : string) : option bool * partialBlsCircuit sig :=
  if negb (slices_Contains (pc_members pc) member) then (None, pc)
  else let '(sigBytes, ok) := b64_decode url_value text in
       if ok : bool then addRaw pc member sigBytes else (None, pc).

(** *** Finalizing *)

(** The signatures of the seats that signed, in the order of the seats, and the
    bits of those seats, from the seat [idx] on. *)
Fixpoint aggregate_from (sigs : gmap string sig) (idx : Z) (keyset : list string) (bits : Z) : list sig * Z :=
  match keyset with
  | [] => ([], bits)
  | did :: keyset =>
      match sigs !! did with
      | Some s => let '(l, bits) := aggregate_from sigs (idx + 1) keyset (Z.setbit bits idx) in (s :: l, bits)
      | None => aggregate_from sigs (idx + 1) keyset bits
      end
  end.

Definition Finalize pc : option (BlsCircuit sig) :=
  if bool_decide (pc_sigs pc = ∅) then None
  else
    let '(sigSlice, bits) := aggregate_from (pc_sigs pc) 0 (pc_members pc) 0 in
    if bool_decide (length sigSlice = 0%nat) then None
    else Some (mkBlsCircuit (pc_msg pc) (bls_Aggregate sigSlice) bits (pc_members pc)).

Definition Serialize c : SerializedCircuit :=
  mkSerializedCircuit (b64_encode url_char (sig_Serialize (bc_aggSigs c))) (b64_encode url_char (Bytes (bc_bitVector c))).

(** *** Verifying *)

Definition DeserializeBlsCircuit (serialized : SerializedCircuit) (keyset : list string) (msg : string) : option (BlsCircuit sig) :=
  let '(bv, ok) := b64_decode url_value (sc_BitVector serialized) in
  if negb ok then None
  else
    let '(sigBytes, ok) := b64_decode url_value (sc_Signature serialized) in
    if negb ok then None
    else if negb (length sigBytes =? 96)%nat then None
    else
      s ← sig_Deserialize sigBytes;
      Some (mkBlsCircuit msg s (SetBytes bv) keyset).

Definition circuit_bit c (idx : nat) : bool := Z.testbit (bc_bitVector c) (Z.of_nat idx).

Definition IncludedDIDs c : list string := signed_seats (circuit_bit c) (bc_keyset c).

(** [None] is an error. *)
Definition circuit_Verify c : option (bool * list string) :=
  let included := IncludedDIDs c in
  if negb (forallb pubkey_ok included) then None
  else if bool_decide (included = []) then None
  else verified ← bls_VerifyAgg included (bc_msg c) (bc_aggSigs c); Some (verified, included).

(** *** One key *)

(** The test on [Deserialize] is the wrong way round. *)
Definition BlsDID_Verify (d cid text : string) (decoded : option (list Z)) (zero : sig) : option bool :=
  if negb (pubkey_ok d) then None
  else
    sigBytes ← decoded;
    if negb (length sigBytes =? 96)%nat then None
    else
      match sig_Deserialize sigBytes with
      | Some _ => None
      | None => if bls_Verify d cid zero then Some true else None
      end.

(** *** The committee as an identity *)

Definition NewVscDID (members : list string) (weightMap : list Z) (bitVector : string) (threshold : Z) : option VscDID :=
  if negb (length members =? length weightMap)%nat then None else Some (mkVscDID members weightMap threshold bitVector).

(** The weight of the first seat of each signer; [None] for a signer without a
    seat. *)
Definition vsc_signed_weight (v : VscDID) (included : list string) : option Z :=
  foldl (λ acc did, w ← acc; i ← fst <$> list_find (did =.) (vd_members v); Some (w +u64 nth i (vd_weightMap v) 0)) (Some 0) included.

Definition VscDID_Verify (v : VscDID) (cid text : string) : option bool :=
  if vd_threshold v =? 0 then None
  else
    blsCircuit ← DeserializeBlsCircuit (mkSerializedCircuit text (vd_bitvector v)) (vd_members v) cid;
    '(verified, included) ← circuit_Verify blsCircuit;
    if negb verified then None
    else
      signedWeight ← vsc_signed_weight v included;
      if vd_threshold v <=? signedWeight then Some true else None.
End circuits.

(** ** Lemmas *)

Lemma signed_seats_filter {A} (P : A → Prop) `{∀ x, Decision (P x)} (bit : nat → bool) (l : list A) :
  (∀ i x, l !! i = Some x → bit i = true ↔ P x) → signed_seats bit l = filter P l.
Proof.
  unfold signed_seats. revert bit. induction l as [|x l IH]; intros bit Hb; [done|]. rewrite imap_cons. cbn [omap list_omap].
  assert (omap id (imap ((λ (i : nat) (x0 : A), if bit i then Some x0 else None) ∘ S) l) = filter P l) as Hl.
  { apply (IH (λ i, bit (S i))). intros i y Hi. by apply (Hb (S i)). }
  specialize (Hb 0%nat x eq_refl). destruct (bit 0%nat) eqn:E; cbn [id].
  - rewrite filter_cons_True by by apply Hb. by f_equal.
  - rewrite filter_cons_False; [done|]. intros HP. by apply Hb in HP.
Qed.

Section lemmas.
Context {sig : Type} `{BlsLibLaws sig}.
Implicit Types (c : BlsCircuit sig) (pc : partialBlsCircuit sig).

Lemma aggregate_spec (sigs : gmap string sig) idx keyset bits :
  0 <= idx →
  let r := aggregate_from sigs idx keyset bits in
  r.1 = omap (sigs !!.) keyset ∧
  (0 <= bits → 0 <= r.2) ∧
  ∀ j, 0 <= j → Z.testbit r.2 j = Z.testbit bits j || bool_decide (idx <= j ∧ is_Some (keyset !! Z.to_nat (j - idx) ≫= (sigs !!.))).
Proof.
  revert idx bits. induction keyset as [|did keyset IH]; intros idx bits Hidx; cbn [aggregate_from].
  { split_and!; [done|done|]. intros j Hj. cbn. rewrite bool_decide_eq_false_2 by (intros [_ [? [=]]]). by rewrite orb_false_r. }
  assert (∀ j, idx <> j → bool_decide (idx <= j ∧ is_Some ((did :: keyset) !! Z.to_nat (j - idx) ≫= (sigs !!.))) =
                bool_decide (idx + 1 <= j ∧ is_Some (keyset !! Z.to_nat (j - (idx + 1)) ≫= (sigs !!.)))) as Hstep.
  { intros j Hne. apply bool_decide_ext. destruct (decide (idx + 1 <= j)) as [Hle|]; [|naive_solver lia].
    replace (Z.to_nat (j - idx)) with (S (Z.to_nat (j - (idx + 1)))) by lia. cbn. naive_solver lia. }
  assert (bool_decide (idx <= idx ∧ is_Some ((did :: keyset) !! Z.to_nat (idx - idx) ≫= (sigs !!.))) = bool_decide (is_Some (sigs !! did))) as Hnow.
  { apply bool_decide_ext. rewrite Z.sub_diag. cbn. naive_solver lia. }
  assert (bool_decide (idx + 1 <= idx ∧ is_Some (keyset !! Z.to_nat (idx - (idx + 1)) ≫= (sigs !!.))) = false) as Hpast.
  { apply bool_decide_eq_false_2. intros [? _]. lia. }
  destruct (sigs !! did) as [s|] eqn:Hs; cbn [omap list_omap].
  - specialize (IH (idx + 1) (Z.setbit bits idx) ltac:(lia)). rewrite Hs.
    destruct (aggregate_from sigs (idx + 1) keyset (Z.setbit bits idx)) as [l b]. destruct IH as (IH1 & IH2 & IH3). cbn in *.
    split_and!; [by f_equal| |].
    { intros Hb. apply IH2. unfold Z.setbit. apply Z.lor_nonneg. split; [done|]. apply Z.shiftl_nonneg. lia. }
    intros j Hj. rewrite (IH3 j Hj). destruct (decide (idx = j)) as [<-|Hne].
    + rewrite Z.setbit_eq, Hnow by done. by rewrite orb_true_r.
    + rewrite Z.setbit_neq by lia. by rewrite Hstep.
  - specialize (IH (idx + 1) bits ltac:(lia)). rewrite Hs. destruct IH as (IH1 & IH2 & IH3). split_and!; [done|done|].
    intros j Hj. rewrite (IH3 j Hj). destruct (decide (idx = j)) as [<-|Hne]; [|by rewrite Hstep].
    by rewrite Hnow, Hpast.
Qed.

(** Every signature that has been collected is one of a member and verifies. *)
Definition circuit_ok pc : Prop :=
  map_Forall (λ k s, k ∈ pc_members pc ∧ pubkey_ok k = true ∧ bls_Verify k (pc_msg pc) s = true) (pc_sigs pc).

(** The members that signed. *)
Definition signers pc : list string := filter (λ k, is_Some (pc_sigs pc !! k)) (pc_members pc).

Lemma generate_ok members msg : circuit_ok (Generate members msg).
Proof. apply map_Forall_empty. Qed.

Lemma add_spec pc member text r pc' :
  AddAndVerify pc member text = (r, pc') →
  pc_msg pc' = pc_msg pc ∧ pc_members pc' = pc_members pc ∧ (circuit_ok pc → circuit_ok pc') ∧
  (r = Some true → pc_finalized pc = false → is_Some (pc_sigs pc' !! member)) ∧
  (pc_finalized pc' = pc_finalized pc) ∧ ∀ k, k ≠ member ∨ r ≠ Some true → pc_sigs pc' !! k = pc_sigs pc !! k.
Proof.
  unfold AddAndVerify. destruct (slices_Contains (pc_members pc) member) eqn:Hin; cbn [negb]; [|by intros [= <- <-]].
  destruct (b64_decode url_value text) as [bytes []]; [|by intros [= <- <-]]. unfold addRaw.
  destruct (pubkey_ok member) eqn:Hpk; cbn [negb]; [|by intros [= <- <-]].
  destruct (length bytes =? 96)%nat; cbn [negb]; [|by intros [= <- <-]].
  destruct (sig_Deserialize bytes) as [s|]; [|by intros [= <- <-]].
  destruct (bls_Verify member (pc_msg pc) s) eqn:Hv; cbn [negb]; [|by intros [= <- <-]]. intros [= <- <-].
  destruct (pc_finalized pc) eqn:Hf; [by rewrite ?Hf|]. cbn. split_and!; try done.
  - intros Hok. unfold circuit_ok. cbn. apply map_Forall_insert_2; [|done]. split_and!; [by apply slices_Contains_spec|done|done].
  - intros _ _. rewrite lookup_insert_eq. by eexists.
  - intros k [Hk|]; [|done]. by rewrite lookup_insert_ne.
Qed.

Lemma signers_sigs pc : circuit_ok pc → Forall2 (λ k s, bls_Verify k (pc_msg pc) s = true) (signers pc) (omap (pc_sigs pc !!.) (pc_members pc)).
Proof.
  unfold signers, circuit_ok. intros Hok.
  assert (∀ l, Forall2 (λ k s, bls_Verify k (pc_msg pc) s = true) (filter (λ k, is_Some (pc_sigs pc !! k)) l) (omap (pc_sigs pc !!.) l)) as Hl; [|apply Hl].
  intros l. induction l as [|k l IH]; [constructor|]. cbn [omap list_omap]. destruct (pc_sigs pc !! k) as [s|] eqn:Hs.
  - rewrite filter_cons_True by (rewrite Hs; by eexists). constructor; [|done]. by apply (Hok k s).
  - rewrite filter_cons_False; [done|]. rewrite Hs. by intros [? [=]].
Qed.

(** A member that signed makes the circuit one that can be finalized. *)
Lemma signers_nonempty pc : circuit_ok pc → pc_sigs pc ≠ ∅ → signers pc ≠ [].
Proof.
  intros Hok (k & s & Hk)%map_choose Hn. destruct (Hok k s Hk) as [Hin _]. apply (not_elem_of_nil k). rewrite <- Hn.
  unfold signers. apply list_elem_of_filter. split; [by eexists|done].
Qed.

(** What a leader serializes, everyone who knows the committee rebuilds and
    verifies, with exactly the seats of the members that signed. *)
Lemma circuit_roundtrip pc :
  circuit_ok pc → pc_sigs pc ≠ ∅ → keys_sum_ok (signers pc) →
  ∃ c c', Finalize pc = Some c ∧ DeserializeBlsCircuit (Serialize c) (pc_members pc) (pc_msg pc) = Some c' ∧
    circuit_Verify c' = Some (true, signers pc) ∧ IncludedDIDs c' = signers pc ∧
    (∀ i k, pc_members pc !! i = Some k → circuit_bit c' i = bool_decide (is_Some (pc_sigs pc !! k))).
Proof.
  intros Hok Hne Hsum. pose proof (signers_sigs pc Hok) as HF. pose proof (signers_nonempty pc Hok Hne) as Hnn.
  destruct (aggregate_spec (pc_sigs pc) 0 (pc_members pc) 0 ltac:(lia)) as (Hl & Hpos & Hbits).
  unfold Finalize. rewrite bool_decide_eq_false_2 by done. destruct (aggregate_from _ _ _ _) as [l bits]. cbn in Hl, Hpos, Hbits. subst l.
  rewrite bool_decide_eq_false_2. 2:{ intros Hlen. apply Forall2_length in HF. rewrite Hlen in HF. by destruct (signers pc). }
  eexists _, (mkBlsCircuit (pc_msg pc) _ bits (pc_members pc)). split; [done|].
  assert (∀ i k, pc_members pc !! i = Some k → Z.testbit bits (Z.of_nat i) = bool_decide (is_Some (pc_sigs pc !! k))) as Hbit.
  { intros i k Hi. rewrite Hbits, Z.bits_0 by lia. cbn. apply bool_decide_ext. rewrite Z.sub_0_r, Nat2Z.id, Hi. cbn. naive_solver lia. }
  assert (IncludedDIDs (mkBlsCircuit (pc_msg pc) (bls_Aggregate (omap (pc_sigs pc !!.) (pc_members pc))) bits (pc_members pc)) = signers pc) as Hinc.
  { unfold IncludedDIDs, signers. cbn. apply signed_seats_filter. intros i k Hi. unfold circuit_bit. cbn. rewrite (Hbit i k Hi). apply bool_decide_eq_true. }
  split_and!; [| |done|].
  - unfold DeserializeBlsCircuit, Serialize. cbn [sc_BitVector sc_Signature bc_aggSigs bc_bitVector].
    rewrite (b64_url_roundtrip (Bytes bits)) by apply Bytes_ok. rewrite b64_url_roundtrip by apply serialize_bytes.
    rewrite serialize_length, deserialize_serialize. cbn [negb Nat.eqb mbind option_bind]. by rewrite SetBytes_Bytes by by apply Hpos.
  - unfold circuit_Verify. cbv zeta. rewrite Hinc. rewrite bool_decide_eq_false_2 by done. cbn [bc_msg bc_aggSigs].
    rewrite aggregate_verifies by done. replace (forallb pubkey_ok (signers pc)) with true; [done|]. symmetry. apply forallb_forall.
    intros k Hk%list_elem_of_In. apply list_elem_of_filter in Hk as [[s Hs] _]. by destruct (Hok k s Hs) as (_ & ? & _).
  - intros i k Hi. unfold circuit_bit. cbn. by apply Hbit.
Qed.

Lemma deserialize_fields sc keyset msg c : DeserializeBlsCircuit sc keyset msg = Some c → bc_keyset c = keyset ∧ bc_msg c = msg.
Proof.
  unfold DeserializeBlsCircuit. destruct (b64_decode _ _) as [bv []]; [|done]. cbn [negb]. destruct (b64_decode _ _) as [sb []]; [|done].
  cbn [negb]. destruct (_ =? _)%nat; [|done]. cbn [negb]. destruct (sig_Deserialize sb); [|done]. by intros [= <-].
Qed.

(** The seats of a list paired with their weights. *)
Lemma signed_seats_zip {A B} (bit : nat → bool) (l : list A) (ws : list B) :
  length l = length ws → zip (signed_seats bit l) (signed_seats bit ws) = signed_seats bit (zip l ws) ∧
  length (signed_seats bit l) = length (signed_seats bit ws).
Proof.
  unfold signed_seats. revert bit ws. induction l as [|x l IH]; intros bit [|w ws] Hlen; try done.
  cbn [zip]. rewrite !imap_cons. cbn [omap list_omap]. destruct (IH (λ i, bit (S i)) ws ltac:(by injection Hlen)) as [IH1 IH2].
  destruct (bit 0%nat); cbn; split; auto with f_equal.
Qed.

Lemma did_seat_weight (v : VscDID) i k w :
  NoDup (vd_members v) → vd_members v !! i = Some k → vd_weightMap v !! i = Some w →
  (i' ← fst <$> list_find (k =.) (vd_members v); Some (nth i' (vd_weightMap v) 0)) = Some w.
Proof.
  intros Hnd Hk Hw. destruct (list_find (k =.) (vd_members v)) as [[j y]|] eqn:Hf.
  - apply list_find_Some in Hf as (Hj & -> & _). replace j with i by by eapply NoDup_lookup. cbn. f_equal. by apply nth_lookup_Some.
  - apply list_find_None in Hf. rewrite Forall_forall in Hf. exfalso. apply (Hf k); [by eapply list_elem_of_lookup_2|done].
Qed.

Lemma fold_seats (v : VscDID) ks ws acc :
  Forall2 (λ k w, (i ← fst <$> list_find (k =.) (vd_members v); Some (nth i (vd_weightMap v) 0)) = Some w) ks ws →
  foldl (λ acc did, w ← acc; i ← fst <$> list_find (did =.) (vd_members v); Some (w +u64 nth i (vd_weightMap v) 0)) (Some acc) ks =
  Some (foldl u64_add acc ws).
Proof.
  intros HF. revert acc. induction HF as [|k w ks ws Hk _ IH]; intros acc; [done|]. cbn [foldl mbind option_bind].
  destruct (fst <$> _) as [i|]; [|done]. cbn in Hk |- *. injection Hk as ->. apply IH.
Qed.

(** When no key is at two seats, a committee accepts only a verified aggregate over
    seats that carry the weight asked for. *)
Lemma vsc_did_accepts v cid text :
  NoDup (vd_members v) → length (vd_members v) = length (vd_weightMap v) →
  VscDID_Verify v cid text = Some true →
  ∃ c : BlsCircuit sig,
    DeserializeBlsCircuit (mkSerializedCircuit text (vd_bitvector v)) (vd_members v) cid = Some c ∧
    bls_VerifyAgg (IncludedDIDs c) cid (bc_aggSigs c) = Some true ∧
    vd_threshold v <= foldl u64_add 0 (signed_seats (circuit_bit c) (vd_weightMap v)).
Proof.
  intros Hnd Hlen. unfold VscDID_Verify. destruct (_ =? 0); [done|].
  destruct (DeserializeBlsCircuit _ _ _) as [c|] eqn:Hc; [|done]. cbn [mbind option_bind].
  destruct (deserialize_fields _ _ _ _ Hc) as [Hkeys Hmsg].
  unfold circuit_Verify. cbv zeta. destruct (forallb _ _); [|done]. cbn [negb]. destruct (bool_decide _); [done|]. rewrite Hmsg.
  destruct (bls_VerifyAgg _ _ _) as [[]|] eqn:Hagg; [|done..]. cbn [mbind option_bind negb].
  destruct (vsc_signed_weight v (IncludedDIDs c)) as [w|] eqn:Hw; [|done]. cbn [mbind option_bind]. destruct (_ <=? _) eqn:Hle; [|done].
  intros _. exists c. split_and!; [done|done|]. apply Z.leb_le in Hle. replace (foldl _ _ _) with w; [done|].
  unfold IncludedDIDs, vsc_signed_weight in Hw. rewrite Hkeys in Hw.
  destruct (signed_seats_zip (circuit_bit c) (vd_members v) (vd_weightMap v) Hlen) as [Hzip Hlen'].
  rewrite (fold_seats v _ (signed_seats (circuit_bit c) (vd_weightMap v))) in Hw; [by injection Hw|].
  apply Forall2_same_length_lookup_2; [done|]. intros i k w0 Hk Hw0.
  assert ((k, w0) ∈ signed_seats (circuit_bit c) (zip (vd_members v) (vd_weightMap v))) as Hin.
  { rewrite <- Hzip. apply (list_elem_of_lookup_2 _ i). by apply lookup_zip_Some. }
  unfold signed_seats in Hin. apply list_elem_of_omap in Hin as (o & Hin & Ho). apply list_elem_of_lookup in Hin as [j Hj].
  rewrite list_lookup_imap in Hj. apply fmap_Some in Hj as ([k' w'] & Hj & ->). destruct (circuit_bit c j); [|done]. injection Ho as -> ->.
  apply lookup_zip_Some in Hj as [Hj1 Hj2]. by apply (did_seat_weight v j).
Qed.
End lemmas.
