(* ===== verification/Governance.v ===== *)
(** Votes of the witnesses: [modules/governance/governance.go],
    [modules/db/vsc/governance/governance.go], and the helpers of
    [modules/state-processing/governance_slash_restore.go] that read the store.

    A proposal is approved by two thirds of the weight of the electorate without
    its beneficiary.  The store upserts one row per proposal and one per proposal
    and voter; reads and writes are retried until they succeed. *)
From S2P Require Import Prelude GoMaps GoStrings ConsensusVersion.

(** ** The tally *)

Record Member := mkMember {
  gm_Account : string;
  gm_Weight : Z;
}.

Definition NormalizeAccount (a : string) : string := TrimPrefix (ToLower (TrimSpace a)) "hive:".

Definition EffectiveWeight (electorate : list Member) (beneficiary : string) : Z :=
  let ben := NormalizeAccount beneficiary in
  foldl (λ total m, if String.eqb (NormalizeAccount (gm_Account m)) ben then total else total +u64 gm_Weight m) 0 electorate.

Definition RequiredWeight (electorate : list Member) (beneficiary : string) : Z :=
  let w := EffectiveWeight electorate beneficiary in
  if w =? 0 then 0 else wrapu64 (wrapu64 (2 * w) + 2) / 3.

Definition Tally (electorate : list Member) (beneficiary : string) (voters : gset string) : Z :=
  let ben := NormalizeAccount beneficiary in
  foldl (λ total m,
    let acct := NormalizeAccount (gm_Account m) in
    if String.eqb acct ben then total
    else if bool_decide (acct ∈ voters) then total +u64 gm_Weight m else total) 0 electorate.

Definition IsApproved (electorate : list Member) (beneficiary : string) (voters : gset string) : bool :=
  let req := RequiredWeight electorate beneficiary in
  if req =? 0 then false else req <=? Tally electorate beneficiary voters.

Definition EffectiveExpiry (creationBlock expiryBlocks maturity : Z) : Z :=
  let exp := creationBlock +u64 expiryBlocks in
  if negb (maturity =? 0) && (maturity <? exp) then maturity else exp.

Definition IsExpired (currentBlock creationBlock expiryBlocks maturity : Z) : bool :=
  EffectiveExpiry creationBlock expiryBlocks maturity <=? currentBlock.

Definition SeatElectorate (accounts : list string) : list Member := (λ a, mkMember (NormalizeAccount a) 1) <$> accounts.

(** ** Proposals *)

Definition ProposalSlashRestore : string := "slash_restore".
Definition ProposalReservePayout : string := "reserve_payout".
Definition ProposalAdmitSeat : string := "admit_seat".

Definition StatusOpen : string := "open".
Definition StatusApplied : string := "applied".
Definition StatusExpired : string := "expired".

(** The zero byte that separates the fields of an id. *)
Definition nul : string := String Ascii.zero "".

Section ids.
(** The hexadecimal SHA-256 of a string. *)
Context (sha256hex : string → string).

Definition ReservePayoutProposalID (recipient : string) (amount : Z) (reason createTxID : string) : string :=
  ProposalReservePayout +:+ ":" +:+
  sha256hex (NormalizeAccount recipient +:+ nul +:+ Itoa amount +:+ nul +:+ reason +:+ nul +:+ TrimSpace createTxID).

Definition AdmitSeatProposalID (candidate uboId : string) : string :=
  ProposalAdmitSeat +:+ ":" +:+ sha256hex (NormalizeAccount candidate +:+ nul +:+ TrimSpace uboId).
End ids.

Record Proposal := mkProposal {
  pr_Id : string;
  pr_Type : string;
  pr_Status : string;
  pr_CreationBlock : Z;
  pr_Beneficiary : string;
  pr_AppliedBlock : Z;
  pr_AppliedTxId : string;
  pr_SlashTxId : string;
  pr_EvidenceKind : string;
  pr_SlashedAccount : string;
  pr_Recipient : string;
  pr_Reason : string;
  pr_Candidate : string;
  pr_UboId : string;
  pr_Amount : Z;
}.

Record ProposalVote := mkProposalVote {
  pv_ProposalId : string;
  pv_Voter : string;
  pv_BlockHeight : Z;
  pv_TxId : string;
}.

(** Change the status, and what an application records. *)
Definition set_status (p : Proposal) (status : string) : Proposal :=
  mkProposal (pr_Id p) (pr_Type p) status (pr_CreationBlock p) (pr_Beneficiary p) (pr_AppliedBlock p) (pr_AppliedTxId p)
    (pr_SlashTxId p) (pr_EvidenceKind p) (pr_SlashedAccount p) (pr_Recipient p) (pr_Reason p) (pr_Candidate p) (pr_UboId p) (pr_Amount p).

Definition set_applied (p : Proposal) (block : Z) (txId : string) : Proposal :=
  mkProposal (pr_Id p) (pr_Type p) StatusApplied (pr_CreationBlock p) (pr_Beneficiary p) block txId
    (pr_SlashTxId p) (pr_EvidenceKind p) (pr_SlashedAccount p) (pr_Recipient p) (pr_Reason p) (pr_Candidate p) (pr_UboId p) (pr_Amount p).

(** Start the next round. *)
Definition set_round (p : Proposal) (block : Z) : Proposal :=
  mkProposal (pr_Id p) (pr_Type p) StatusOpen block (pr_Beneficiary p) (pr_AppliedBlock p) (pr_AppliedTxId p)
    (pr_SlashTxId p) (pr_EvidenceKind p) (pr_SlashedAccount p) (pr_Recipient p) (pr_Reason p) (pr_Candidate p) (pr_UboId p) (pr_Amount p).

(** ** The store *)

Record gov_store := mkGovStore {
  gs_proposals : gmap string Proposal;
  gs_votes : gmap (string * string) ProposalVote;
}.

Definition GetProposal (g : gov_store) (id : string) : option Proposal := gs_proposals g !! id.

Definition SaveProposal (p : Proposal) (g : gov_store) : gov_store :=
  mkGovStore (<[pr_Id p := p]> (gs_proposals g)) (gs_votes g).

Definition RecordVote (v : ProposalVote) (g : gov_store) : gov_store :=
  if String.eqb (pv_Voter v) "" then g
  else mkGovStore (gs_proposals g) (<[(pv_ProposalId v, pv_Voter v) := v]> (gs_votes g)).

Definition GetVotes (g : gov_store) (id : string) : list ProposalVote :=
  filter (λ v, pv_ProposalId v = id ∧ pv_Voter v ≠ "") (map_to_list (gs_votes g)).*2.

Definition governanceVoterSet (g : gov_store) (id : string) : gset string := list_to_set (pv_Voter <$> GetVotes g id).

Definition governanceVoterSetSince (g : gov_store) (id : string) (minHeight : Z) : gset string :=
  list_to_set (pv_Voter <$> filter (λ v, minHeight <= pv_BlockHeight v) (GetVotes g id)).

(** ** Electorates *)

(** [GetElectionInfoOrBlock] is [None] before the first election. *)
Definition governanceElectorate (election : Z → option ElectionResult) (height : Z) : option (list Member) :=
  elec ← election height;
  Some (imap (λ i m,
    mkMember (em_Account m)
      (if (length (el_Weights elec) =? length (el_Members elec))%nat then default 0 (el_Weights elec !! i) else 1)) (el_Members elec)).

Definition governanceIsMember (electorate : list Member) (acct : string) : bool :=
  existsb (λ m, String.eqb (NormalizeAccount (gm_Account m)) acct) electorate.

(** ** Lemmas: the tally *)

(** The weight of the members whose account satisfies a predicate. *)
Definition weight_where (P : string → bool) (electorate : list Member) : Z :=
  zsum ((λ m, if P (NormalizeAccount (gm_Account m)) then gm_Weight m else 0) <$> electorate).

Definition electorate_ok (electorate : list Member) : Prop :=
  Forall (λ m, 0 <= gm_Weight m) electorate ∧ 2 * zsum (gm_Weight <$> electorate) + 2 <= MaxUint64.

Lemma weight_where_bounds P e : electorate_ok e → 0 <= weight_where P e <= zsum (gm_Weight <$> e).
Proof.
  intros [Hnn _]. rewrite Forall_forall in Hnn. unfold weight_where. split.
  - apply zsum_nonneg, Forall_fmap, Forall_forall. intros m Hm. apply Hnn in Hm. cbn. case_match; lia.
  - apply zsum_map_le. intros m Hm. apply Hnn in Hm. case_match; lia.
Qed.

Lemma fold_weight P e acc :
  Forall (λ m, 0 <= gm_Weight m) e → 0 <= acc → acc + zsum (gm_Weight <$> e) <= MaxUint64 →
  foldl (λ total m, if P (NormalizeAccount (gm_Account m)) : bool then total +u64 gm_Weight m else total) acc e
  = acc + weight_where P e.
Proof.
  revert acc. unfold weight_where. induction e as [|m e IH]; intros acc Hnn Ha Hle; [cbn; lia|].
  inversion Hnn as [|? ? Hm Hnn']; subst. rewrite fmap_cons in *. cbn [foldl zsum] in *.
  assert (0 <= zsum (gm_Weight <$> e)) by (apply zsum_nonneg, Forall_fmap; exact Hnn').
  destruct (P _).
  - unfold u64_add. rewrite wrapu64_id by (unfold_widths; lia). rewrite IH by (done || lia). lia.
  - rewrite IH by (done || lia). lia.
Qed.

Definition not_ben (ben a : string) : bool := negb (String.eqb a (NormalizeAccount ben)).
Definition voted (ben : string) (voters : gset string) (a : string) : bool := not_ben ben a && bool_decide (a ∈ voters).

Lemma EffectiveWeight_spec e ben : electorate_ok e → EffectiveWeight e ben = weight_where (not_ben ben) e.
Proof.
  intros [Hnn Hle]. assert (0 <= zsum (gm_Weight <$> e)) by (apply zsum_nonneg, Forall_fmap; exact Hnn).
  rewrite <- (Z.add_0_l (weight_where _ e)), <- fold_weight by (done || lia). unfold EffectiveWeight, not_ben.
  apply foldl_ext_in. intros acc m _. by destruct (String.eqb _ _).
Qed.

Lemma Tally_spec e ben voters : electorate_ok e → Tally e ben voters = weight_where (voted ben voters) e.
Proof.
  intros [Hnn Hle]. assert (0 <= zsum (gm_Weight <$> e)) by (apply zsum_nonneg, Forall_fmap; exact Hnn).
  rewrite <- (Z.add_0_l (weight_where _ e)), <- fold_weight by (done || lia). unfold Tally, voted, not_ben.
  apply foldl_ext_in. intros acc m _. by destruct (String.eqb _ _).
Qed.

(** Approval is two thirds of the weight without the beneficiary. *)
Lemma approved_spec e ben voters :
  electorate_ok e →
  (IsApproved e ben voters = true ↔
   0 < weight_where (not_ben ben) e ∧ 2 * weight_where (not_ben ben) e <= 3 * weight_where (voted ben voters) e).
Proof.
  intros Hok. pose proof (weight_where_bounds (not_ben ben) e Hok) as Hw. destruct Hok as [Hnn Hle].
  unfold IsApproved, RequiredWeight. cbv zeta. rewrite Tally_spec, EffectiveWeight_spec by done.
  set (W := weight_where (not_ben ben) e) in *. set (T := weight_where _ e).
  destruct (Z.eqb_spec W 0) as [E|E]; [rewrite Z.eqb_refl; split; [done|lia]|].
  rewrite (wrapu64_id (2 * W)), wrapu64_id by (unfold_widths; lia).
  pose proof (Z.div_mod (2 * W + 2) 3 ltac:(lia)). pose proof (Z.mod_pos_bound (2 * W + 2) 3 ltac:(lia)).
  destruct (Z.eqb_spec ((2 * W + 2) / 3) 0); [lia|]. rewrite Z.leb_le. split; [intros ?; split; lia|lia].
Qed.

(** More voters never lose an approval, and the beneficiary's own vote never
    counts. *)
Lemma approved_mono e ben v v' : electorate_ok e → v ⊆ v' → IsApproved e ben v = true → IsApproved e ben v' = true.
Proof.
  intros Hok Hsub. rewrite !approved_spec by done. intros [H1 H2]. split; [done|].
  assert (weight_where (voted ben v) e <= weight_where (voted ben v') e); [|lia].
  unfold weight_where. apply zsum_map_le. intros m Hm. destruct Hok as [Hnn _]. rewrite Forall_forall in Hnn. apply Hnn in Hm.
  unfold voted. destruct (not_ben _ _); cbn [andb]; [|lia]. do 2 case_bool_decide; (lia || set_solver).
Qed.

(** ** Theorems *)

(** Two conflicting majorities overlap.  Two sets of voters that each approve a
    proposal of the same beneficiary have members in common that carry a third of
    the electorate's weight without the beneficiary; the beneficiary is never
    among those counted. *)
Theorem approvals_overlap e ben A B :
  electorate_ok e → IsApproved e ben A = true → IsApproved e ben B = true →
  let common := weight_where (voted ben (A ∩ B)) e in
  weight_where (not_ben ben) e <= 3 * common ∧ 0 < common ∧
  weight_where (voted ben (A ∩ B)) e = weight_where (voted ben (A ∩ B ∖ {[NormalizeAccount ben]})) e.
Proof.
  intros Hok [HW HA]%approved_spec [_ HB]%approved_spec common; [|done..].
  assert (weight_where (voted ben A) e + weight_where (voted ben B) e <= weight_where (not_ben ben) e + common) as Hie.
  { unfold common, weight_where. rewrite <- !zsum_map_add. apply zsum_map_le. intros m Hm.
    destruct Hok as [Hnn _]. rewrite Forall_forall in Hnn. apply Hnn in Hm. unfold voted. destruct (not_ben _ _); cbn [andb]; [|lia].
    do 3 case_bool_decide; (lia || set_solver). }
  split; [lia|]. split; [lia|]. apply zsum_map_ext. intros m _. unfold voted, not_ben.
  destruct (String.eqb_spec (NormalizeAccount (gm_Account m)) (NormalizeAccount ben)) as [|Hne]; [done|]. cbn [negb andb].
  do 2 case_bool_decide; (done || set_solver).
Qed.
