(* ===== verification/SlashRestore.v ===== *)
(** Governance over slashes and the reserve:
    [modules/incentive-pendulum/safety_slash/payload.go] and
    [pending_governance_ops.go], and of [modules/state-processing/] the files
    [safety_slash_chain_ops.go], [governance_slash_restore.go] and
    [governance_reserve_payout.go].

    A wrongful slash is undone by cancelling the part of it that waits to enter the
    reserve and re-crediting the bond.  The request comes from a block, by way of a
    pool of the leader, or from a vote of the witnesses; the reserve is paid out by
    a vote as well.  All of it ends in the operations of [SafetySlash.v].  Reads are
    retried until they succeed, except for the one that looks up the slash of a
    request; payloads are given as decoded. *)
From S2P Require Import Prelude GoMaps GoSlices GoStrings LedgerDb LedgerTypes SafetySlash ConsensusVersion Governance.

Definition maxLedgerScanHeight : Z := MaxInt64.

(** ** Requests *)

Definition ReverseActionCancel : string := "cancel".
Definition ReverseActionReverse : string := "reverse".
Definition ReverseActionBoth : string := "both".

Record SafetySlashReverseRecord := mkSafetySlashReverseRecord {
  sr_SlashTxID : string;
  sr_EvidenceKind : string;
  sr_SlashedAccount : string;
  sr_Action : string;
  sr_Amount : Z;
  sr_Reason : string;
}.

#[export] Instance SafetySlashReverseRecord_eq_dec : EqDecision SafetySlashReverseRecord.
Proof. solve_decision. Defined.

Definition Normalize (r : SafetySlashReverseRecord) : SafetySlashReverseRecord :=
  let a := TrimSpace (sr_SlashedAccount r) in
  let a := if negb (String.eqb a "") && negb (HasPrefix a "hive:") then "hive:" +:+ a else a in
  mkSafetySlashReverseRecord (TrimSpace (sr_SlashTxID r)) (TrimSpace (sr_EvidenceKind r)) a
    (TrimSpace (sr_Action r)) (sr_Amount r) (TrimSpace (sr_Reason r)).

Definition known_action (a : string) : bool :=
  slices_Contains [ReverseActionCancel; ReverseActionReverse; ReverseActionBoth] a.

(** ** The pool of the leader *)

Definition maxPendingReverses : Z := 10000.

Definition validReverseShape (r : SafetySlashReverseRecord) : bool :=
  let r := Normalize r in
  if String.eqb (sr_SlashTxID r) "" || String.eqb (sr_EvidenceKind r) "" || String.eqb (sr_SlashedAccount r) "" then false
  else if Contains (sr_SlashTxID r) "#" || Contains (sr_EvidenceKind r) "#" then false
  else known_action (sr_Action r).

Definition reverseDedupKey (r : SafetySlashReverseRecord) : string :=
  sr_SlashTxID r +:+ "|" +:+ sr_EvidenceKind r +:+ "|" +:+ sr_SlashedAccount r +:+ "|" +:+ sr_Action r.

(** The loop that replaces the entry of the same key; [None] when there is none. *)
Fixpoint replace_same (rec : SafetySlashReverseRecord) (pool : list SafetySlashReverseRecord) : option (list SafetySlashReverseRecord) :=
  match pool with
  | [] => None
  | existing :: pool =>
      if String.eqb (reverseDedupKey existing) (reverseDedupKey rec) then Some (rec :: pool)
      else cons existing <$> replace_same rec pool
  end.

Definition EnqueueSlashReverse (rec : SafetySlashReverseRecord) (pool : list SafetySlashReverseRecord) : bool * list SafetySlashReverseRecord :=
  let rec := Normalize rec in
  if negb (validReverseShape rec) then (false, pool)
  else
    match replace_same rec pool with
    | Some pool => (true, pool)
    | None => if maxPendingReverses <=? Z.of_nat (length pool) then (false, pool) else (true, pool ++ [rec])
    end.

Definition DrainSlashReverses (max : Z) (pool : list SafetySlashReverseRecord) : list SafetySlashReverseRecord * list SafetySlashReverseRecord :=
  let n := if (0 <? max) && (max <? Z.of_nat (length pool)) then Z.to_nat max else length pool in
  (take n pool, drop n pool).

(** ** Undoing a slash *)

(** The account in ledger form; the same function as [normalizeHiveConsensusAccount]. *)
Definition normalizeHiveAccount (a : string) : string :=
  let a := TrimSpace a in
  if String.eqb a "" then "" else if HasPrefix a "hive:" then a else "hive:" +:+ a.

Definition safetySlashConsensusRowID (slashTxID evidenceKind acct : string) : string :=
  slashTxID +:+ "#safety_slash#" +:+ evidenceKind +:+ "#consensus_debit#" +:+ acct.

(** The amounts of the rows whose id starts with a prefix. *)
Definition prefix_total (prefix : string) (recs : list LedgerRecord) : Z :=
  foldl (λ total r, if HasPrefix (lr_Id r) prefix then total +64 lr_Amount r else total) 0 recs.

(** The row with the smallest id, of those that pass. *)
Definition smallest (pass : LedgerRecord → bool) (recs : list LedgerRecord) : option LedgerRecord :=
  foldl (λ best r,
    if negb (pass r) then best
    else match best with
         | None => Some r
         | Some b => if strings_Compare (lr_Id r) (lr_Id b) <? 0 then Some r else best
         end) None recs.

Section restore.
Context {S : Type} `{LedgerDb S}.
Implicit Types s : S.

(** [readErr]: the read fails, and the row counts as absent. *)
Definition findSafetySlashConsensusRow (readErr : bool) (slashTxID evidenceKind slashedAccount : string) s : option LedgerRecord :=
  let owner := normalizeHiveAccount slashedAccount in
  let wantID := safetySlashConsensusRowID slashTxID evidenceKind owner in
  if readErr then None
  else snd <$> list_find (λ r, String.eqb (lr_Id r) wantID = true)
         (GetLedgerRange owner 0 maxLedgerScanHeight "hive_consensus" [LedgerTypeSafetySlashConsensus] s).

Definition alreadyFinalizedToReserveAmt (slashTxID evidenceKind : string) s : Z :=
  prefix_total (slashTxID +:+ "#safety_slash#" +:+ evidenceKind +:+ "#")
    (GetLedgerRange ProtocolSlashReserveAccount 0 maxLedgerScanHeight "hive" [LedgerTypeSafetySlashReserve] s).

Definition uncancelledPendingResidualAmt (slashTxID evidenceKind : string) s : Z :=
  let total := prefix_total (slashTxID +:+ "#safety_slash#" +:+ evidenceKind +:+ "#")
    (GetLedgerRange ProtocolSlashPendingBurnAccount 0 maxLedgerScanHeight "hive"
       [LedgerTypeSafetySlashHiveBurnPending; LedgerTypeSafetySlashHiveBurnPendingRelease] s) in
  if total <? 0 then 0 else total.

Definition alreadyReversedConsensusAmt (slashTxID evidenceKind slashedAccount : string) s : Z :=
  let owner := normalizeHiveAccount slashedAccount in
  prefix_total (slashTxID +:+ "#safety_slash#" +:+ evidenceKind +:+ "#consensus_reverse#")
    (GetLedgerRange owner 0 maxLedgerScanHeight "hive_consensus" [LedgerTypeSafetySlashConsensusReverse] s).

(** The credit of the bond. *)
Definition apply_credit (rec : SafetySlashReverseRecord) (slashAmt : Z) (carryingTxID : string) (blockHeight : Z) s : S :=
  if sr_Amount rec <=? 0 then s
  else
    let alreadyReversed := alreadyReversedConsensusAmt (sr_SlashTxID rec) (sr_EvidenceKind rec) (sr_SlashedAccount rec) s in
    let committedToReserve := alreadyFinalizedToReserveAmt (sr_SlashTxID rec) (sr_EvidenceKind rec) s
                              +64 uncancelledPendingResidualAmt (sr_SlashTxID rec) (sr_EvidenceKind rec) s in
    let headroom := (slashAmt -64 alreadyReversed) -64 committedToReserve in
    if headroom <=? 0 then s
    else
      let amount := if headroom <? sr_Amount rec then headroom else sr_Amount rec in
      (ReverseSafetySlashConsensusDebit
         (mkReverseSafetySlashConsensusDebitParams (sr_SlashTxID rec) (sr_EvidenceKind rec) (sr_SlashedAccount rec)
            amount blockHeight (sr_Reason rec) carryingTxID) s).2.

Definition applySafetySlashReverse (readErr : bool) (rec : SafetySlashReverseRecord) (carryingTxID : string) (blockHeight : Z) s : S :=
  let rec := Normalize rec in
  if String.eqb (sr_SlashTxID rec) "" || String.eqb (sr_EvidenceKind rec) "" || String.eqb (sr_SlashedAccount rec) "" then s
  else if negb (known_action (sr_Action rec)) then s
  else
    match findSafetySlashConsensusRow readErr (sr_SlashTxID rec) (sr_EvidenceKind rec) (sr_SlashedAccount rec) s with
    | None => s
    | Some slashRow =>
        let slashAmt := -64 (lr_Amount slashRow) in
        if slashAmt <=? 0 then s
        else
          let cancels := String.eqb (sr_Action rec) ReverseActionCancel || String.eqb (sr_Action rec) ReverseActionBoth in
          let credits := String.eqb (sr_Action rec) ReverseActionReverse || String.eqb (sr_Action rec) ReverseActionBoth in
          let s := if cancels then
                     (CancelPendingSafetySlashBurn
                        (mkCancelPendingSafetySlashBurnParams (sr_SlashTxID rec) (sr_EvidenceKind rec) (sr_SlashedAccount rec)
                           blockHeight (sr_Reason rec)) s).2
                   else s in
          if credits then apply_credit rec slashAmt carryingTxID blockHeight s else s
    end.

(** ** Votes on a slash *)

Definition resolveSlashConsensusRowByTx (slashTxID acct : string) s : option LedgerRecord :=
  let owner := normalizeHiveAccount acct in
  smallest (λ r, String.eqb (lr_TxId r) slashTxID)
    (GetLedgerRange owner 0 maxLedgerScanHeight "hive_consensus" [LedgerTypeSafetySlashConsensus] s).

Definition parseEvidenceKindFromSlashRowID (id : string) : string :=
  match Split id hash with
  | _ :: mid :: kind :: _ => if String.eqb mid "safety_slash" then kind else ""
  | _ => ""
  end.

(** The third argument of the code is not used. *)
Definition slashPendingMaturity (slashTxID evidenceKind : string) s : Z :=
  let prefix := slashTxID +:+ "#safety_slash#" +:+ evidenceKind +:+ "#" in
  let parsed r := ParseUint (TrimSpace (lr_From r)) in
  let best := smallest (λ r, HasPrefix (lr_Id r) prefix && bool_decide (is_Some (parsed r)))
    (GetLedgerRange ProtocolSlashPendingBurnAccount 0 maxLedgerScanHeight "hive" [LedgerTypeSafetySlashHiveBurnPending] s) in
  default 0 (best ≫= parsed).

(** The payload of a vote on a slash, as decoded. *)
Record restore_req := mkRestoreReq {
  rq_Id : string;
  rq_Account : string;
}.

Section votes.
Context (sha256hex : string → string) (cp : ConsensusParams) (election : Z → option ElectionResult).

Definition restore_proposal (proposalID slashTxID slashedAcct : string) (row : LedgerRecord) (blockHeight : Z) : Proposal :=
  mkProposal proposalID ProposalSlashRestore StatusOpen blockHeight slashedAcct 0 "" slashTxID
    (parseEvidenceKindFromSlashRowID (lr_Id row)) slashedAcct "" "" "" "" (-64 (lr_Amount row)).

(** The proposal the vote is for, and the store with it. *)
Definition restore_lookup (proposalID slashTxID slashedAcct : string) (blockHeight : Z) s (g : gov_store) : option (Proposal * gov_store) :=
  match GetProposal g proposalID with
  | Some prop => Some (prop, g)
  | None =>
      row ← resolveSlashConsensusRowByTx slashTxID slashedAcct s;
      if -64 (lr_Amount row) <=? 0 then None
      else
        let prop := restore_proposal proposalID slashTxID slashedAcct row blockHeight in
        Some (prop, SaveProposal prop g)
  end.

Definition handleSlashRestoreVote (readErr : bool) (req : option restore_req) (voterAccount txID : string) (blockHeight : Z) s (g : gov_store) : S * gov_store :=
  match req with
  | None => (s, g)
  | Some req =>
      let slashTxID := TrimSpace (rq_Id req) in
      let slashedAcct := NormalizeAccount (rq_Account req) in
      if String.eqb slashTxID "" || String.eqb slashedAcct "" then (s, g)
      else
        let voter := NormalizeAccount voterAccount in
        let proposalID := ProposalSlashRestore +:+ ":" +:+ slashTxID +:+ ":" +:+ slashedAcct in
        let snapshotBlock := from_option pr_CreationBlock blockHeight (GetProposal g proposalID) in
        match governanceElectorate election snapshotBlock with
        | None => (s, g)
        | Some electorate =>
            if negb (governanceIsMember electorate voter) then (s, g)
            else
              match restore_lookup proposalID slashTxID slashedAcct blockHeight s g with
              | None => (s, g)
              | Some (prop, g) =>
                  if negb (String.eqb (pr_Status prop) StatusOpen) then (s, g)
                  else if IsExpired blockHeight (pr_CreationBlock prop) (GovernanceProposalExpiry cp)
                            (slashPendingMaturity (pr_SlashTxId prop) (pr_EvidenceKind prop) s)
                  then (s, SaveProposal (set_status prop StatusExpired) g)
                  else
                    let g := RecordVote (mkProposalVote proposalID voter blockHeight txID) g in
                    if negb (IsApproved electorate (pr_Beneficiary prop) (governanceVoterSet g proposalID)) then (s, g)
                    else
                      let rec := mkSafetySlashReverseRecord (pr_SlashTxId prop) (pr_EvidenceKind prop) (pr_SlashedAccount prop)
                                   ReverseActionBoth (pr_Amount prop) ("governance slash_restore " +:+ proposalID) in
                      (applySafetySlashReverse readErr (Normalize rec) txID blockHeight s,
                       SaveProposal (set_applied prop blockHeight txID) g)
              end
        end
  end.

(** ** Votes on the reserve *)

Definition castReservePayoutVote (proposalID voter txID : string) (blockHeight : Z) s (g : gov_store) : S * gov_store :=
  match GetProposal g proposalID with
  | None => (s, g)
  | Some prop =>
      if negb (String.eqb (pr_Type prop) ProposalReservePayout) then (s, g)
      else if negb (String.eqb (pr_Status prop) StatusOpen) then (s, g)
      else if IsExpired blockHeight (pr_CreationBlock prop) (GovernanceProposalExpiry cp) 0
      then (s, SaveProposal (set_status prop StatusExpired) g)
      else
        match governanceElectorate election (pr_CreationBlock prop) with
        | None => (s, g)
        | Some electorate =>
            if negb (governanceIsMember electorate voter) then (s, g)
            else
              let g := RecordVote (mkProposalVote proposalID voter blockHeight txID) g in
              if negb (IsApproved electorate (pr_Beneficiary prop) (governanceVoterSet g proposalID)) then (s, g)
              else
                let '(res, s) := ReservePayout (mkReservePayoutParams proposalID (pr_Recipient prop) (pr_Amount prop) blockHeight (pr_Reason prop)) s in
                if negb (Ok res) then (s, g) else (s, SaveProposal (set_applied prop blockHeight txID) g)
        end
  end.

(** The payload of a proposal, as decoded. *)
Record payout_req := mkPayoutReq {
  pq_Recipient : string;
  pq_Amount : Z;
  pq_Reason : string;
}.

Definition payout_proposal (proposalID recipient : string) (req : payout_req) (blockHeight : Z) : Proposal :=
  mkProposal proposalID ProposalReservePayout StatusOpen blockHeight recipient 0 "" "" "" "" recipient (pq_Reason req) "" "" (pq_Amount req).

Definition handleReservePayoutCreate (req : option payout_req) (creatorAccount txID : string) (blockHeight : Z) s (g : gov_store) : S * gov_store :=
  match req with
  | None => (s, g)
  | Some req =>
      let recipient := NormalizeAccount (pq_Recipient req) in
      if String.eqb recipient "" || (pq_Amount req <=? 0) then (s, g)
      else
        let creator := NormalizeAccount creatorAccount in
        match governanceElectorate election blockHeight with
        | None => (s, g)
        | Some electorate =>
            if negb (governanceIsMember electorate creator) then (s, g)
            else if ReserveAvailable s <? pq_Amount req then (s, g)
            else
              let proposalID := ReservePayoutProposalID sha256hex recipient (pq_Amount req) (pq_Reason req) txID in
              let g := match GetProposal g proposalID with
                       | Some _ => g
                       | None => SaveProposal (payout_proposal proposalID recipient req blockHeight) g
                       end in
              castReservePayoutVote proposalID creator txID blockHeight s g
        end
  end.

Definition handleReservePayoutVote (id : option string) (voterAccount txID : string) (blockHeight : Z) s (g : gov_store) : S * gov_store :=
  match id with
  | None => (s, g)
  | Some id =>
      let proposalID := TrimSpace id in
      if String.eqb proposalID "" then (s, g)
      else castReservePayoutVote proposalID (NormalizeAccount voterAccount) txID blockHeight s g
  end.
End votes.
End restore.
