(* ===== verification/SlashBook.v ===== *)
(** The whole life of slashed value.

    What [SafetySlash.v] and [SlashRestore.v] model as rows of the ledger follows
    a small state machine: a slash is absent, landed in the reserve, waiting for
    the end of its challenge window, promoted to the reserve, or released with
    part of it credited back.  This file gives the machine, the rows of each of its
    states, and a simulation: every operation, run on the rows by the code, is a
    step of the machine.  The value of a slash is therefore never in two places.

    The slashes of a history are given beforehand, one for each transaction and
    kind of evidence.  The heights of the scans and of the requests carried by
    blocks do not decrease, and votes are not below them. *)
From S2P Require Import Prelude GoMaps GoSlices GoStrings LedgerDb LedgerTypes SafetySlash SlashFinalize ConsensusVersion Governance SlashRestore.

(** ** States *)

Abbreviation slash := SafetySlashConsensusParams.

#[export] Instance slash_eq_dec : EqDecision slash.
Proof. solve_decision. Defined.

Definition slash_acct (p : slash) : string := normalizeHiveConsensusAccount (sp_Account p).
Definition base_of (p : slash) : string := slash_base (sp_TxID p) (sp_EvidenceKind p).

(** Every row of a slash has an id with this prefix. *)
Definition family_prefix (p : slash) : string := base_of p +:+ "#".

Definition maturity_of (p : slash) : Z :=
  sp_BlockHeight p + Z.min (sp_BurnDelayBlocks p) MaxSafetySlashBurnDelayBlocks.

Definition reserved (p : slash) (A : Z) : LedgerRecord :=
  row (reserve_id (base_of p) (slash_acct p)) (sp_TxID p) (sp_BlockHeight p) A "hive" ProtocolSlashReserveAccount ""
    LedgerTypeSafetySlashReserve.

Definition waiting (p : slash) (A : Z) : LedgerRecord :=
  row (pending_id (base_of p) (slash_acct p)) (sp_TxID p) (sp_BlockHeight p) A "hive" ProtocolSlashPendingBurnAccount
    (FormatUint (maturity_of p)) LedgerTypeSafetySlashHiveBurnPending.

(** The states of a slash of [A]; [h] is the height of the last write, and
    [credits] are the rows that gave part of the bond back. *)
Inductive stage :=
| Fresh
| Landed (A : Z)
| Waiting (A : Z)
| Promoted (A h : Z)
| Released (A h : Z) (credits : ledger).

#[export] Instance stage_eq_dec : EqDecision stage.
Proof. solve_decision. Defined.

Definition stage_list (p : slash) (st : stage) : list LedgerRecord :=
  match st with
  | Fresh => []
  | Landed A => [slash_debit p (slash_acct p) A; reserved p A]
  | Waiting A => [slash_debit p (slash_acct p) A; waiting p A]
  | Promoted A h => [slash_debit p (slash_acct p) A; waiting p A] ++ promotion h (waiting p A)
  | Released A h _ => [slash_debit p (slash_acct p) A; waiting p A] ++ cancellation h (waiting p A)
  end.

Definition stage_credits (st : stage) : ledger :=
  match st with Released _ _ C => C | _ => ∅ end.

Definition stage_rows (p : slash) (st : stage) : ledger := upserts (stage_list p st) (stage_credits st).

(** What a slash took, and where it is: in the reserve, waiting, given back. *)
Definition stage_taken (st : stage) : Z :=
  match st with Fresh => 0 | Landed A | Waiting A | Promoted A _ | Released A _ _ => A end.
Definition stage_reserve (st : stage) : Z :=
  match st with Landed A | Promoted A _ => A | _ => 0 end.
Definition stage_pending (st : stage) : Z := match st with Waiting A => A | _ => 0 end.
Definition stage_returned (st : stage) : Z := msum lr_Amount (stage_credits st).

(** A row that gives part of the bond back. *)
Definition credit_row (p : slash) (id : string) (r : LedgerRecord) : Prop :=
  lr_Id r = id ∧ HasPrefix id (base_of p +:+ "#consensus_reverse#") = true ∧
  lr_Owner r = slash_acct p ∧ lr_Asset r = "hive_consensus" ∧
  lr_Type r = LedgerTypeSafetySlashConsensusReverse ∧ 0 <= lr_BlockHeight r <= MaxInt64 ∧ 0 < lr_Amount r.

(** [fin] is the height of the last scan or request. *)
Definition stage_ok (fin : Z) (p : slash) (st : stage) : Prop :=
  match st with
  | Fresh => True
  | Landed A => 0 < A <= MaxInt64 ∧ sp_BurnDelayBlocks p = 0
  | Waiting A => 0 < A <= MaxInt64 ∧ sp_BurnDelayBlocks p ≠ 0
  | Promoted A h => 0 < A <= MaxInt64 ∧ sp_BurnDelayBlocks p ≠ 0 ∧ sp_BlockHeight p <= h <= fin
  | Released A h C =>
      0 < A <= MaxInt64 ∧ sp_BurnDelayBlocks p ≠ 0 ∧ sp_BlockHeight p <= h <= MaxInt64 ∧
      (h <= fin ∨ h < maturity_of p) ∧ map_Forall (credit_row p) C ∧ msum lr_Amount C <= A
  end.

(** The rows of a ledger that belong to a slash. *)
Definition in_family (p : slash) (id : string) : Prop := HasPrefix id (family_prefix p) = true.

#[export] Instance in_family_dec p id : Decision (in_family p id).
Proof. unfold in_family. apply _. Defined.

Definition family (p : slash) (m : ledger) : ledger := filter (λ ir, in_family p ir.1) m.

(** The types only the operations on slashes write. *)
Definition slash_types : list string :=
  [LedgerTypeSafetySlashConsensus; LedgerTypeSafetySlashReserve; LedgerTypeSafetySlashHiveBurnPending;
   LedgerTypeSafetySlashHiveBurnPendingRelease; LedgerTypeSafetySlashHiveBurnPendingFinalized;
   LedgerTypeSafetySlashHiveBurnPendingCancelled; LedgerTypeSafetySlashConsensusReverse].

(** Evidence whose transaction and kind are plain words. *)
Definition evidence_ok (p : slash) : Prop :=
  slash_params_ok p ∧ sp_BlockHeight p <= MaxInt64 - MaxSafetySlashBurnDelayBlocks ∧
  TrimSpace (sp_TxID p) = sp_TxID p ∧ TrimSpace (sp_EvidenceKind p) = sp_EvidenceKind p ∧
  nochar hash (sp_TxID p) = true ∧ nochar hash (sp_EvidenceKind p) = true.

Record book (U : list slash) (fin : Z) (m : ledger) : Prop := {
  book_stage p : p ∈ U → ∃ st, family p m = stage_rows p st ∧ stage_ok fin p st;
  book_typed id r : m !! id = Some r → lr_Type r ∈ slash_types → ∃ p, p ∈ U ∧ in_family p id;
}.

(** ** Lemmas: ids *)

Fixpoint scount (c : Ascii.ascii) (s : string) : nat :=
  match s with
  | "" => 0
  | String a s => (if Ascii.eqb a c then 1 else 0) + scount c s
  end.

Lemma scount_app c a b : scount c (a +:+ b) = (scount c a + scount c b)%nat.
Proof. induction a as [|x a IH]; [done|]. rewrite sapp_cons. cbn [scount]. rewrite IH. lia. Qed.

Lemma scount_nochar c s : scount c s = 0%nat ↔ nochar c s = true.
Proof.
  induction s as [|x s IH]; [done|]. cbn [scount nochar]. rewrite andb_true_iff, <- IH.
  destruct (Ascii.eqb x c); cbn; [split; [lia|by intros []]|]. split; [intros; split; [done|lia]|by intros []].
Qed.

(** A transaction and a kind without separators are determined by the base. *)
Lemma base_inj tx kind tx' kind' :
  nochar hash tx' = true → nochar hash kind' = true →
  slash_base tx kind = slash_base tx' kind' → tx = tx' ∧ kind = kind'.
Proof.
  intros Ht Hk Heq. unfold slash_base in Heq. pose proof (f_equal (scount hash) Heq) as Hc.
  apply scount_nochar in Ht as Ht0. apply scount_nochar in Hk as Hk0.
  rewrite !scount_app, Ht0, Hk0 in Hc.
  assert (scount hash tx = 0%nat ∧ scount hash kind = 0%nat) as [Ht1%scount_nochar Hk1%scount_nochar] by (cbn in Hc; lia).
  change ("#safety_slash#" +:+ kind) with (String hash ("safety_slash#" +:+ kind)) in Heq.
  change ("#safety_slash#" +:+ kind') with (String hash ("safety_slash#" +:+ kind')) in Heq.
  apply sep_inj_left in Heq as [-> Heq]; [|done..]. by apply sapp_inj_l in Heq.
Qed.

Lemma family_base p q id : evidence_ok p → evidence_ok q → in_family p id → in_family q id → base_of p = base_of q.
Proof.
  intros (_ & _ & _ & _ & Htp & Hkp) (_ & _ & _ & _ & Htq & Hkq) [t Hp]%HasPrefix_spec [u Hq]%HasPrefix_spec.
  rewrite Hp in Hq. unfold family_prefix, base_of, slash_base in *. rewrite !sapp_assoc in Hq.
  change ("#safety_slash#" +:+ ?x) with (String hash ("safety_slash#" +:+ x)) in Hq.
  apply sep_inj_left in Hq as [-> Hq]; [|done..]. apply sapp_inj_l in Hq.
  change ("#" +:+ ?x) with (String hash x) in Hq. apply sep_inj_left in Hq as [-> _]; [|done..]. done.
Qed.

Lemma in_family_ext p x : in_family p (base_of p +:+ "#" +:+ x).
Proof. unfold in_family, family_prefix. rewrite <- sapp_assoc. apply HasPrefix_app. Qed.

Lemma in_family_app p id x : in_family p id → in_family p (id +:+ x).
Proof. intros [t ->]%HasPrefix_spec. unfold in_family. rewrite sapp_assoc. apply HasPrefix_app. Qed.

Lemma debit_family p A : in_family p (lr_Id (slash_debit p (slash_acct p) A)).
Proof. apply (in_family_ext p ("consensus_debit#" +:+ slash_acct p)). Qed.

Lemma reserved_family p A : in_family p (lr_Id (reserved p A)).
Proof. apply (in_family_ext p ("reserve#" +:+ slash_acct p)). Qed.

Lemma waiting_family p A : in_family p (lr_Id (waiting p A)).
Proof. apply (in_family_ext p ("hive_burn_pending#" +:+ slash_acct p)). Qed.

#[local] Hint Resolve debit_family reserved_family waiting_family in_family_app : vsc.

Lemma stage_list_family p st : Forall (λ r, in_family p (lr_Id r)) (stage_list p st).
Proof.
  destruct st; cbn [stage_list app]; unfold cancellation, cancel_rows, promotion;
    repeat apply Forall_cons_2; try apply Forall_nil_2; cbn [lr_Id row]; eauto with vsc.
Qed.

(** *** Account names *)

Lemma sapp_split x a t w : x +:+ a = t +:+ w → (∃ u, a = u +:+ w) ∨ (∃ u, w = u +:+ a ∧ x = t +:+ u).
Proof.
  revert t. induction x as [|c x IH]; intros t Heq; [left; by exists t|]. destruct t as [|d t].
  - right. by exists (String c x).
  - rewrite !sapp_cons in Heq. injection Heq as -> Heq. destruct (IH t Heq) as [?|(u & ? & ->)]; [by left|right].
    by exists u.
Qed.

Lemma trim_hive a : no_trail a → TrimSpace ("hive:" +:+ a) = "hive:" +:+ a.
Proof.
  intros Ha. apply TrimSpace_id.
  - refine (proj1 (Forall_forall (λ w, HasPrefix ("hive:" +:+ a) w = false) space_encodings) _). repeat constructor.
  - intros w Hw. apply not_true_iff_false. intros [t [[u Hu]|(u & Hu & Ht)]%sapp_split]%HasSuffix_spec.
    { specialize (Ha w Hw). apply not_true_iff_false in Ha. apply Ha, HasSuffix_spec. by exists u. }
    assert (nochar colon w = true) as Hc.
    { clear Hu. revert w Hw. refine (proj1 (Forall_forall (λ w, nochar colon w = true) space_encodings) _). repeat constructor. }
    destruct u as [|c u].
    { specialize (Ha w Hw). apply not_true_iff_false in Ha. apply Ha, HasSuffix_spec. exists "". by rewrite Hu. }
    rewrite Hu, nochar_app in Hc. apply andb_true_iff in Hc as [Hc _].
    do 5 (destruct t as [|? t]; [rewrite sapp_nil_l in Ht; rewrite <- Ht in Hc; done|rewrite sapp_cons in Ht; injection Ht as ? Ht]).
    by destruct t.
Qed.

Lemma normalize_account r : normalizeHiveAccount (sr_SlashedAccount (Normalize r)) = normalizeHiveAccount (sr_SlashedAccount r).
Proof.
  unfold Normalize. cbv zeta. cbn [sr_SlashedAccount]. set (a := TrimSpace (sr_SlashedAccount r)).
  pose proof (TrimSpace_trimmed (sr_SlashedAccount r)) as [_ Htr]. fold a in Htr.
  unfold normalizeHiveAccount. fold a. cbv zeta. destruct (String.eqb_spec a "") as [E|E]; cbn [negb andb].
  - rewrite E. done.
  - assert (TrimSpace a = a) as Ha by apply TrimSpace_idem. destruct (HasPrefix a "hive:") eqn:Hp; cbn [negb].
    + rewrite Ha, Hp. by destruct (String.eqb_spec a "").
    + rewrite trim_hive by done. rewrite HasPrefix_app. done.
Qed.

(** ** Lemmas: families *)

Lemma family_lookup p m id : in_family p id → family p m !! id = m !! id.
Proof.
  intros Hid. unfold family. destruct (m !! id) as [r|] eqn:Hr.
  - by apply map_lookup_filter_Some.
  - apply map_lookup_filter_None. by left.
Qed.

Lemma family_in p l m : Forall (λ r, in_family p (lr_Id r)) l → family p (upserts l m) = upserts l (family p m).
Proof.
  intros Hl. revert m. induction Hl as [|r l Hr Hl IH]; intros m; [done|].
  rewrite !upserts_cons, IH. unfold upsert, family. by rewrite map_filter_insert_True.
Qed.

Lemma family_out p l m : Forall (λ r, ¬ in_family p (lr_Id r)) l → family p (upserts l m) = family p m.
Proof.
  intros Hl. revert m. induction Hl as [|r l Hr Hl IH]; intros m; [done|].
  rewrite !upserts_cons, IH. unfold upsert, family. by rewrite map_filter_insert_not.
Qed.

(** A batch with the ids of an earlier one replaces it. *)
Lemma upserts_override l l' m : lr_Id <$> l' = lr_Id <$> l → upserts l' (upserts l m) = upserts l' m.
Proof.
  intros Hids. apply map_eq. intros i. destruct (decide (i ∈ lr_Id <$> l')) as [Hin|Hin].
  - by apply lookup_upserts_in.
  - rewrite !lookup_upserts_ne; [done|done|by rewrite <- Hids|done].
Qed.

Lemma upserts_comm r l m : lr_Id r ∉ lr_Id <$> l → upsert r (upserts l m) = upserts l (upsert r m).
Proof.
  revert m. induction l as [|x l IH]; intros m; [done|]. rewrite fmap_cons, not_elem_of_cons. intros [Hne Hl].
  rewrite !upserts_cons, IH by done. f_equal. unfold upsert. by rewrite insert_insert_ne.
Qed.

(** ** Lemmas: sums of a family *)

Lemma in_query_miss a lo hi x types r :
  types ≠ [] → slices_Contains types (lr_Type r) = false → in_query a lo hi x types r = false.
Proof. intros Hne Ht. unfold in_query. rewrite Ht, bool_decide_eq_false_2 by done. by rewrite andb_false_r. Qed.

Lemma in_query_hit a lo hi x types r :
  lr_Owner r = a → lr_Asset r = x → lo <= lr_BlockHeight r <= hi → slices_Contains types (lr_Type r) = true →
  in_query a lo hi x types r = true.
Proof.
  intros <- <- Hh Ht. unfold in_query. rewrite !String.eqb_refl, Ht, !orb_true_r.
  rewrite !(proj2 (Z.leb_le _ _)) by lia. done.
Qed.

Definition keyed (m : ledger) : Prop := ∀ id r, m !! id = Some r → lr_Id r = id.

Lemma qsum_family p q m :
  keyed m → (∀ r, q r = true → in_family p (lr_Id r)) → qsum q m = qsum q (family p m).
Proof.
  intros Hk Hq. revert Hk. induction m as [|i x m Hi IH] using map_ind; intros Hk; [done|].
  assert (lr_Id x = i) as Hid by (apply Hk, lookup_insert_eq).
  assert (keyed m) as Hm.
  { intros j y Hy. apply Hk. rewrite lookup_insert_ne; [done|]. intros ->. congruence. }
  unfold qsum in *. rewrite msum_insert_None, (IH Hm) by done. unfold family.
  destruct (decide (in_family p i)) as [Hf|Hf].
  - rewrite map_filter_insert_True by done. rewrite msum_insert_None; [done|].
    apply map_lookup_filter_None. by left.
  - rewrite map_filter_insert_not by done.
    destruct (q x) eqn:Hx; [|lia]. destruct Hf. rewrite <- Hid. by apply Hq.
Qed.

(** The rows of a stage have different ids, none of them that of a credit. *)
Lemma stage_list_ids p st : NoDup (lr_Id <$> stage_list p st).
Proof.
  assert (∀ A, lr_Id (slash_debit p (slash_acct p) A) ≠ lr_Id (reserved p A)) as Hdr by (intros A Heq%sapp_inj_l; done).
  assert (∀ A x, lr_Id (slash_debit p (slash_acct p) A) ≠ lr_Id (waiting p A) +:+ x) as Hdw.
  { intros A x Heq. cbn [lr_Id slash_debit waiting row] in Heq. unfold debit_id, pending_id in Heq.
    rewrite sapp_assoc in Heq. apply sapp_inj_l in Heq. done. }
  assert (∀ id x, x ≠ "" → id ≠ id +:+ x) as Hself.
  { intros id x Hx Heq. apply Hx. apply (sapp_inj_l id). by rewrite sapp_nil_r. }
  destruct st as [|A|A|A h|A h C]; cbn [stage_list app]; unfold cancellation, cancel_rows, promotion;
    cbn [fmap list_fmap]; [constructor|..].
  all: repeat (apply NoDup_cons; split; [|]); try apply NoDup_nil_2; rewrite ?elem_of_cons, ?elem_of_nil;
    intros Hor; destruct_or! Hor; cbn [lr_Id row] in Hor; try done;
    try (by apply Hdw in Hor); try (by apply Hself in Hor); apply sapp_inj_l in Hor; done.
Qed.

Lemma stage_list_credit p st r : r ∈ stage_list p st → HasPrefix (lr_Id r) (base_of p +:+ "#consensus_reverse#") = false.
Proof.
  intros Hr. apply not_true_iff_false. intros [t Ht]%HasPrefix_spec.
  assert (∀ x, HasPrefix ("#consensus_reverse#" +:+ t) x = true →
    x ∉ ["#consensus_debit#"; "#reserve#"; "#hive_burn_pending#"]) as Hno.
  { intros x Hx Hin. rewrite !elem_of_cons, elem_of_nil in Hin. by destruct_or! Hin; subst. }
  revert r Hr Ht. apply (proj1 (Forall_forall (λ r, lr_Id r = (base_of p +:+ "#consensus_reverse#") +:+ t → False) _)).
  destruct st; cbn [stage_list app]; unfold cancellation, cancel_rows, promotion;
    repeat apply Forall_cons_2; try apply Forall_nil_2; cbn [lr_Id row slash_debit reserved waiting];
    unfold debit_id, reserve_id, pending_id; fold (base_of p); rewrite ?sapp_assoc; intros Heq%sapp_inj_l;
    (eapply Hno; [rewrite <- Heq; apply HasPrefix_app|set_solver]).
Qed.

Lemma stage_credits_ok fin p st : stage_ok fin p st → map_Forall (credit_row p) (stage_credits st).
Proof. destruct st; cbn; try (intros; apply map_Forall_empty). by intros (_ & _ & _ & _ & ? & _). Qed.

Lemma stage_list_fresh fin p st r : stage_ok fin p st → r ∈ stage_list p st → stage_credits st !! lr_Id r = None.
Proof.
  intros Hok Hr. destruct (stage_credits st !! lr_Id r) as [c|] eqn:Hc; [|done].
  destruct (stage_credits_ok fin p st Hok _ _ Hc) as (_ & Hp & _). by rewrite (stage_list_credit p st r Hr) in Hp.
Qed.

Lemma qsum_stage fin p st q :
  stage_ok fin p st →
  qsum q (stage_rows p st) = zsum ((λ r, if q r then lr_Amount r else 0) <$> stage_list p st) + qsum q (stage_credits st).
Proof.
  intros Hok. unfold stage_rows. apply qsum_upserts_fresh; [apply stage_list_ids|].
  intros r. by apply (stage_list_fresh fin).
Qed.

(** What the code sums up. *)
Definition reserve_q (p : slash) (r : LedgerRecord) : bool :=
  in_query ProtocolSlashReserveAccount 0 maxLedgerScanHeight "hive" [LedgerTypeSafetySlashReserve] r
  && HasPrefix (lr_Id r) (family_prefix p).

Definition pending_q (p : slash) (r : LedgerRecord) : bool :=
  in_query ProtocolSlashPendingBurnAccount 0 maxLedgerScanHeight "hive"
    [LedgerTypeSafetySlashHiveBurnPending; LedgerTypeSafetySlashHiveBurnPendingRelease] r
  && HasPrefix (lr_Id r) (family_prefix p).

Definition returned_q (p : slash) (r : LedgerRecord) : bool :=
  in_query (slash_acct p) 0 maxLedgerScanHeight "hive_consensus" [LedgerTypeSafetySlashConsensusReverse] r
  && HasPrefix (lr_Id r) (base_of p +:+ "#consensus_reverse#").

Lemma qsum_none q m : map_Forall (λ _ r, q r = false) m → qsum q m = 0.
Proof.
  intros Hm. unfold qsum. rewrite (msum_ext _ (λ _, 0)); [|intros k r Hr; by rewrite (Hm k r Hr)].
  induction m as [|k r m Hk IH] using map_ind; [done|]. rewrite msum_insert_None by done.
  apply map_Forall_insert in Hm as [_ Hm]; [|done]. by rewrite IH.
Qed.

Lemma qsum_every q m : map_Forall (λ _ r, q r = true) m → qsum q m = msum lr_Amount m.
Proof. intros Hm. apply msum_ext. intros k r Hr. by rewrite (Hm k r Hr). Qed.

(** The rows of a stage one by one, with the queries evaluated. *)
Ltac query_rows :=
  repeat match goal with
  | |- context [in_query ?a ?lo ?hi ?x ?ty ?r] =>
      rewrite (in_query_miss a lo hi x ty r) by (first [done | reflexivity]); cbn [andb]
  | |- context [in_query ?a ?lo ?hi ?x ?ty ?r] =>
      rewrite (in_query_hit a lo hi x ty r)
        by (first [done | reflexivity | (cbn; unfold maxLedgerScanHeight, MaxSafetySlashBurnDelayBlocks in *; lia)]); cbn [andb]
  end.

Section sums.
Variables (fin : Z) (p : slash) (st : stage).
Hypothesis Hev : evidence_ok p.
Hypothesis Hok : stage_ok fin p st.
Hypothesis Hfin : fin <= MaxInt64.

Lemma credits_miss q :
  (∀ r, lr_Type r = LedgerTypeSafetySlashConsensusReverse → q r = false) → qsum q (stage_credits st) = 0.
Proof.
  intros Hq. apply qsum_none. intros id r Hr.
  destruct (stage_credits_ok fin p st Hok id r Hr) as (_ & _ & _ & _ & Ht & _). by apply Hq.
Qed.

Lemma stage_heights : 0 <= sp_BlockHeight p <= MaxInt64.
Proof. destruct Hev as ((_ & _ & _ & _ & ? & _) & ? & _). unfold MaxSafetySlashBurnDelayBlocks in *. lia. Qed.

Lemma sum_reserve : qsum (reserve_q p) (stage_rows p st) = stage_reserve st.
Proof.
  pose proof stage_heights as Hh. rewrite (qsum_stage fin p st _ Hok), credits_miss; cycle 1.
  { intros r Hr. unfold reserve_q. rewrite in_query_miss; [done|done|]. rewrite Hr. reflexivity. }
  pose proof (reserved_family p) as Hr. pose proof (waiting_family p) as Hw.
  destruct st as [|A|A|A h|A h C]; cbn [stage_ok stage_list stage_reserve app] in *;
    unfold cancellation, cancel_rows, promotion, reserve_q; cbn [fmap list_fmap zsum]; query_rows; cbn; try lia.
  - rewrite (Hr A). cbn. lia.
  - rewrite (in_family_app p _ "#promoted_to_reserve" (Hw A)). cbn. lia.
Qed.

Lemma sum_pending : qsum (pending_q p) (stage_rows p st) = stage_pending st.
Proof.
  pose proof stage_heights as Hh. rewrite (qsum_stage fin p st _ Hok), credits_miss; cycle 1.
  { intros r Hr. unfold pending_q. rewrite in_query_miss; [done|done|]. rewrite Hr. reflexivity. }
  pose proof (waiting_family p) as Hw.
  destruct st as [|A|A|A h|A h C]; cbn [stage_ok stage_list stage_pending app] in *;
    unfold cancellation, cancel_rows, promotion, pending_q; cbn [fmap list_fmap zsum]; query_rows; cbn; try lia.
  - rewrite (Hw A). cbn. lia.
  - rewrite (Hw A), (in_family_app p _ "#pending_release" (Hw A)). cbn. rewrite i64_neg_exact by lia. lia.
  - rewrite (Hw A), (in_family_app p _ "#cancel_release" (Hw A)). cbn. rewrite i64_neg_exact by lia. lia.
Qed.

Lemma sum_returned : qsum (returned_q p) (stage_rows p st) = stage_returned st.
Proof.
  rewrite (qsum_stage fin p st _ Hok). rewrite zsum_map_0; cycle 1.
  { intros r Hr. unfold returned_q. by rewrite (stage_list_credit p st r Hr), andb_false_r. }
  rewrite Z.add_0_l. apply qsum_every. intros id r Hr.
  destruct (stage_credits_ok fin p st Hok id r Hr) as (Hid & Hpre & Ho & Hx & Ht & Hb & _).
  unfold returned_q. rewrite Hid, Hpre, in_query_hit; try done. by rewrite Ht.
Qed.

Lemma stage_amounts :
  0 <= stage_taken st <= MaxInt64 ∧
  ((stage_reserve st + stage_pending st = stage_taken st ∧ stage_returned st = 0) ∨
   (stage_reserve st = 0 ∧ stage_pending st = 0 ∧ 0 <= stage_returned st <= stage_taken st)).
Proof.
  unfold stage_returned. destruct st as [|A|A|A h|A h C]; cbn in *; try (split; [unfold_widths; lia|left; split; [lia|done]]).
  destruct Hok as (HA & _ & _ & _ & HC & Hsum). split; [lia|]. right. split_and!; try lia.
  apply msum_nonneg. intros k r Hr. destruct (HC k r Hr) as (_ & _ & _ & _ & _ & _ & ?). lia.
Qed.
End sums.

(** ** Lemmas: rows of a stage *)

Lemma stage_lookup p st id r :
  stage_rows p st !! id = Some r → (r ∈ stage_list p st ∧ lr_Id r = id) ∨ stage_credits st !! id = Some r.
Proof. intros [?|[_ ?]]%lookup_upserts_cases; [by left|by right]. Qed.

Lemma stage_lookup_in p st r : r ∈ stage_list p st → stage_rows p st !! lr_Id r = Some r.
Proof. intros Hr. apply lookup_upserts_NoDup; [apply stage_list_ids|done]. Qed.

(** The debit of a stage, and its waiting row. *)
Lemma stage_debit fin p st id r :
  stage_ok fin p st → stage_rows p st !! id = Some r → lr_Type r = LedgerTypeSafetySlashConsensus →
  r = slash_debit p (slash_acct p) (stage_taken st) ∧ st ≠ Fresh.
Proof.
  intros Hok [[Hr _]|Hr]%stage_lookup Ht.
  - revert r Hr Ht. apply (proj1 (Forall_forall (λ r, lr_Type r = LedgerTypeSafetySlashConsensus → r = slash_debit p (slash_acct p) (stage_taken st) ∧ st ≠ Fresh) _)).
    destruct st; cbn [stage_list app]; unfold cancellation, cancel_rows, promotion;
      repeat apply Forall_cons_2; try apply Forall_nil_2; done.
  - destruct (stage_credits_ok fin p st Hok id r Hr) as (_ & _ & _ & _ & Ht' & _). rewrite Ht' in Ht. done.
Qed.

Definition has_window (st : stage) : bool :=
  match st with Waiting _ | Promoted _ _ | Released _ _ _ => true | _ => false end.

Lemma stage_waiting fin p st id r :
  stage_ok fin p st → stage_rows p st !! id = Some r → lr_Type r = LedgerTypeSafetySlashHiveBurnPending →
  r = waiting p (stage_taken st) ∧ has_window st = true.
Proof.
  intros Hok [[Hr _]|Hr]%stage_lookup Ht.
  - revert r Hr Ht. apply (proj1 (Forall_forall (λ r, lr_Type r = LedgerTypeSafetySlashHiveBurnPending → r = waiting p (stage_taken st) ∧ has_window st = true) _)).
    destruct st; cbn [stage_list app]; unfold cancellation, cancel_rows, promotion;
      repeat apply Forall_cons_2; try apply Forall_nil_2; done.
  - destruct (stage_credits_ok fin p st Hok id r Hr) as (_ & _ & _ & _ & Ht' & _). rewrite Ht' in Ht. done.
Qed.

Lemma stage_has_waiting p st : has_window st = true → waiting p (stage_taken st) ∈ stage_list p st.
Proof. destruct st; intros; cbn; try done; right; left. Qed.

Lemma stage_has_debit p st : st ≠ Fresh → slash_debit p (slash_acct p) (stage_taken st) ∈ stage_list p st.
Proof. destruct st; intros; cbn; try done; left. Qed.

Lemma stage_ok_mono fin fin' p st : fin <= fin' → stage_ok fin p st → stage_ok fin' p st.
Proof. intros Hle. destruct st; cbn; try done; [lia|]. intros (? & ? & ? & [?|?] & ? & ?); split_and!; try done; lia. Qed.

(** ** Lemmas: one step of the book *)

Section steps.
Variable U : list slash.
Hypothesis HU : Forall evidence_ok U.
Hypothesis Hbases : NoDup (base_of <$> U).

Lemma U_ok p : p ∈ U → evidence_ok p.
Proof. rewrite Forall_forall in HU. apply HU. Qed.

Lemma NoDup_fmap_inj {A B} (f : A → B) l x y : NoDup (f <$> l) → x ∈ l → y ∈ l → f x = f y → x = y.
Proof.
  intros Hnd [i Hi]%list_elem_of_lookup [j Hj]%list_elem_of_lookup Heq.
  assert (i = j) as ->; [|congruence].
  eapply NoDup_lookup; [exact Hnd|..]; rewrite list_lookup_fmap; [by rewrite Hi|]. by rewrite Hj, Heq.
Qed.

Lemma family_unique p q id : p ∈ U → q ∈ U → in_family p id → in_family q id → p = q.
Proof.
  intros Hp Hq Hip Hiq. eapply NoDup_fmap_inj; [exact Hbases|done|done|].
  by eapply family_base; [apply U_ok|apply U_ok|..].
Qed.

Lemma book_mono fin fin' m : fin <= fin' → book U fin m → book U fin' m.
Proof.
  intros Hle [Hst Ht]. split; [|done]. intros p Hp. destruct (Hst p Hp) as (st & Hf & Hok).
  exists st. split; [done|]. by eapply stage_ok_mono.
Qed.

Lemma typed_upserts l m :
  (∀ id r, m !! id = Some r → lr_Type r ∈ slash_types → ∃ p, p ∈ U ∧ in_family p id) →
  (∀ r, r ∈ l → lr_Type r ∈ slash_types → ∃ p, p ∈ U ∧ in_family p (lr_Id r)) →
  ∀ id r, upserts l m !! id = Some r → lr_Type r ∈ slash_types → ∃ p, p ∈ U ∧ in_family p id.
Proof. intros Hm Hl id r [[Hr <-]|[_ Hr]]%lookup_upserts_cases Ht; [by apply (Hl r)|by apply (Hm id r)]. Qed.

(** Rows of one family change its stage only. *)
Lemma book_update p st st' l fin fin' m :
  book U fin m → fin <= fin' → p ∈ U → family p m = stage_rows p st →
  Forall (λ r, in_family p (lr_Id r)) l → upserts l (stage_rows p st) = stage_rows p st' → stage_ok fin' p st' →
  book U fin' (upserts l m).
Proof.
  intros [Hst Ht] Hle Hp Hf Hl Hrows Hok. split.
  - intros q Hq. destruct (decide (q = p)) as [->|Hne].
    { exists st'. by rewrite family_in, Hf. }
    destruct (Hst q Hq) as (stq & Hfq & Hokq). exists stq. split; [|by eapply stage_ok_mono].
    rewrite family_out; [done|]. eapply Forall_impl; [exact Hl|]. intros r Hr Hr'. destruct Hne.
    by eapply family_unique.
  - apply typed_upserts; [done|]. intros r Hr _. exists p. split; [done|]. by apply (proj1 (Forall_forall _ _) Hl).
Qed.

(** Rows of no family change nothing. *)
Definition foreign (r : LedgerRecord) : Prop :=
  lr_Id r ≠ "" ∧ (lr_Type r ∉ slash_types) ∧ ∀ p, p ∈ U → ¬ in_family p (lr_Id r).

Lemma book_foreign l fin m : book U fin m → Forall foreign l → book U fin (upserts l m).
Proof.
  intros [Hst Ht] Hl. rewrite Forall_forall in Hl. split.
  - intros p Hp. destruct (Hst p Hp) as (st & Hf & Hok). exists st. split; [|done].
    rewrite family_out; [done|]. apply Forall_forall. intros r Hr. by apply (Hl r Hr).
  - apply typed_upserts; [done|]. intros r Hr Hty. by destruct (Hl r Hr) as (_ & ? & _).
Qed.

(** Writes derived from rows, at most one of them in a family. *)
Lemma family_bind p f w P m :
  NoDup P → (∀ r, r ∈ P → in_family p (lr_Id r) → r = w) → in_family p (lr_Id w) →
  Forall (λ u, in_family p (lr_Id u)) (f w) →
  (∀ r, r ∈ P → ¬ in_family p (lr_Id r) → Forall (λ u, ¬ in_family p (lr_Id u)) (f r)) →
  family p (upserts (P ≫= f) m) = if decide (w ∈ P) then upserts (f w) (family p m) else family p m.
Proof.
  intros Hnd Hone Hw Hfw Hout. revert m. induction P as [|r P IH]; intros m.
  { rewrite decide_False by apply not_elem_of_nil. done. }
  apply NoDup_cons in Hnd as [Hr Hnd]. rewrite bind_cons, upserts_app, IH by (auto; intros; by apply Hone || apply Hout; [right|]).
  destruct (decide (in_family p (lr_Id r))) as [Hin|Hin].
  - pose proof (Hone r ltac:(by left) Hin) as ->. rewrite decide_False by done.
    rewrite decide_True by by left. by apply family_in.
  - rewrite family_out by (apply Hout; [by left|done]).
    assert (r ≠ w) by by intros ->. destruct (decide (w ∈ P)) as [HwP|HwP].
    + rewrite decide_True by by right. done.
    + rewrite decide_False; [done|]. intros [?|?]%elem_of_cons; congruence.
Qed.
End steps.

(** ** Lemmas: reads *)

Section reads.
Context {S : Type} `{LedgerDbLaws S}.
Implicit Types s : S.

Lemma prefix_total_range prefix a lo hi x types s :
  db_wf s →
  prefix_total prefix (GetLedgerRange a lo hi x types s)
  = wrap64 (qsum (λ r, in_query a lo hi x types r && HasPrefix (lr_Id r) prefix) (rows s)).
Proof.
  intros Hwf. unfold prefix_total.
  rewrite (foldl_i64_weight (λ r, if HasPrefix (lr_Id r) prefix then lr_Amount r else 0)); cycle 1.
  { unfold_widths; lia. }
  { intros acc r Hacc. destruct (HasPrefix _ _); [done|]. by rewrite i64_add_0_r. }
  rewrite Z.add_0_l. f_equal.
  transitivity (zsum ((λ r, if HasPrefix (lr_Id r) prefix then lr_Amount r else 0) <$>
    filter (λ r, in_query a lo hi x types r = true) (row_list (rows s)))).
  { apply zsum_Permutation. by rewrite range_spec. }
  rewrite zsum_filter, qsum_row_list, zsum_filter. apply zsum_map_ext. intros r _.
  by destruct (in_query _ _ _ _ _ r), (HasPrefix _ _).
Qed.

(** *** Slashing *)

Lemma slash_records_exact p A :
  evidence_ok p → 0 < A →
  slash_records p (slash_acct p) A
  = Some (stage_list p (if sp_BurnDelayBlocks p =? 0 then Landed A else Waiting A)).
Proof.
  intros ((_ & _ & _ & _ & Hh & Hd) & Hm & _) HA. unfold slash_records. cbv zeta.
  rewrite (proj2 (Z.ltb_lt 0 A)) by done. destruct (sp_BurnDelayBlocks p =? 0); [done|].
  assert (sp_BlockHeight p +u64 (if MaxSafetySlashBurnDelayBlocks <? sp_BurnDelayBlocks p
    then MaxSafetySlashBurnDelayBlocks else sp_BurnDelayBlocks p) = maturity_of p) as ->.
  { unfold maturity_of, u64_add, MaxSafetySlashBurnDelayBlocks in *.
    destruct (Z.ltb_spec 3333333 (sp_BurnDelayBlocks p)); rewrite wrapu64_id; unfold_widths; lia. }
  rewrite (proj2 (Z.ltb_ge _ _)); [done|]. unfold maturity_of, MaxSafetySlashBurnDelayBlocks in *. lia.
Qed.

Lemma derive_slash_bounds getBal acct p A : derive_slash getBal acct p = inr A → 0 < A <= MaxInt64.
Proof.
  unfold derive_slash. cbv zeta. set (rec := if (_ : bool) then getBal acct (sp_BlockHeight p -u64 1) else _). destruct (Z.leb_spec (bond_of rec) 0); [done|].
  pose proof (wrap64_range (i64_quo (bond_of rec) 10000 *64 sp_SlashBps p
    + i64_quo (i64_rem (bond_of rec) 10000 *64 sp_SlashBps p) 10000)) as Hr.
  change (wrap64 _) with (slash_formula (bond_of rec) (sp_SlashBps p)) in Hr.
  destruct (Z.leb_spec (slash_formula (bond_of rec) (sp_SlashBps p)) 0); [done|]. intros [= <-].
  destruct (Z.ltb_spec (bond_of rec) (slash_formula (bond_of rec) (sp_SlashBps p))); unfold_widths; lia.
Qed.

Section sim.
Variable U : list slash.
Hypothesis HU : Forall evidence_ok U.
Hypothesis Hbases : NoDup (base_of <$> U).

Definition at_stage (p : slash) (fin : Z) s (st : stage) : Prop :=
  family p (rows s) = stage_rows p st ∧ stage_ok fin p st.

Lemma at_lookup p fin s st r : at_stage p fin s st → r ∈ stage_list p st → rows s !! lr_Id r = Some r.
Proof.
  intros [Hf _] Hr. rewrite <- (family_lookup p) by apply (proj1 (Forall_forall _ _) (stage_list_family p st) r Hr).
  rewrite Hf. by apply stage_lookup_in.
Qed.

(** Writing rows of a slash that take it to another stage. *)
Lemma store_step p fin fin' s st st' l :
  db_wf s → book U fin (rows s) → p ∈ U → at_stage p fin s st → fin <= fin' →
  Forall (λ r, in_family p (lr_Id r)) l → upserts l (stage_rows p st) = stage_rows p st' → stage_ok fin' p st' →
  let s' := storeLedgerOrFail l s in
  db_wf s' ∧ book U fin' (rows s') ∧ at_stage p fin' s' st'.
Proof.
  intros Hwf Hb Hp Hst Hfin Hl Hup Hok. destruct (storeLedgerOrFail_spec l s Hwf) as [Hwf' Hrows].
  { eapply Forall_impl; [exact Hl|]. intros r [t Ht]%HasPrefix_spec. rewrite Ht. unfold family_prefix.
    rewrite sapp_assoc. by apply sapp_ne_r. }
  split; [done|]. rewrite Hrows. split; [by eapply (book_update U HU Hbases p st), Hok; try done; apply Hst|].
  split; [|done]. by rewrite Hrows, family_in, (proj1 Hst).
Qed.

Lemma slash_sim getBal p fin s :
  db_wf s → book U fin (rows s) → p ∈ U →
  ∃ r s', SafetySlashConsensusBond getBal p s = Some (r, s') ∧ db_wf s' ∧ book U fin (rows s').
Proof.
  intros Hwf Hb Hp. pose proof (U_ok U HU p Hp) as Hev. pose proof (proj1 Hev) as Hpar.
  destruct (book_stage _ _ _ Hb p Hp) as (st & Hst). rewrite slash_unfold by done. cbv zeta. fold (slash_acct p).
  destruct (decide (st = Fresh)) as [->|Hne].
  - rewrite guard_fresh; [|done|].
    2: { rewrite <- (family_lookup p) by apply (debit_family p 0). by rewrite (proj1 Hst). }
    cbn [Z.ltb Z.compare]. destruct (derive_slash _ _ _) as [r|A] eqn:HA; [by eexists _, _|].
    apply derive_slash_bounds in HA. rewrite slash_records_exact by (done || lia).
    set (st' := if (_ : bool) then Landed A else Waiting A).
    destruct (store_step p fin fin s Fresh st' (stage_list p st')) as (Hwf' & Hb' & _); try done.
    + apply stage_list_family.
    + unfold st'. by destruct (_ =? 0).
    + unfold st'. destruct (Z.eqb_spec (sp_BurnDelayBlocks p) 0); cbn; done.
    + by eexists _, _.
  - set (A := stage_taken st). set (c := if sp_BurnDelayBlocks p =? 0 then reserved p A else waiting p A).
    assert (c ∈ stage_list p st ∧ is_companion p (slash_acct p) A c) as [Hc Hcomp].
    { unfold c, A, is_companion, companion_id, companion_owner. cbv zeta. destruct Hst as [_ Hok].
      destruct st; [done|..]; cbn [stage_ok] in Hok; destruct (Z.eqb_spec (sp_BurnDelayBlocks p) 0);
        try (by destruct Hok as (? & ? & _)); try (by destruct Hok);
        (split; [cbn; by right; left|by split_and!]). }
    pose proof (at_lookup p fin s st _ Hst (stage_has_debit p st Hne)) as Hd.
    pose proof (at_lookup p fin s st _ Hst Hc) as Hcl.
    rewrite (guard_recorded p (slash_acct p) A c); [by eexists _, _|done|done|done|].
    by rewrite <- (proj1 Hcomp).
Qed.

(** *** The scan *)

Lemma cursor_foreign bh c : foreign U (cursor_row bh c).
Proof.
  split_and!; [done|by apply (bool_decide_unpack _)|]. intros p _ [t Ht]%HasPrefix_spec.
  pose proof (f_equal (nochar hash) Ht) as Hc. unfold family_prefix in Hc. rewrite !nochar_app in Hc.
  cbn in Hc. by rewrite andb_false_r in Hc.
Qed.

Lemma promotion_family p bh r : in_family p (lr_Id r) → Forall (λ u, in_family p (lr_Id u)) (promotion bh r).
Proof. intros Hr. repeat constructor; by apply in_family_app. Qed.

Lemma parse_maturity p A : evidence_ok p → ParseUint (TrimSpace (lr_From (waiting p A))) = Some (maturity_of p).
Proof.
  intros ((_ & _ & _ & _ & ? & ?) & ? & _). apply ParseUint_Trim_FormatUint.
  unfold maturity_of, MaxSafetySlashBurnDelayBlocks in *. unfold_widths. lia.
Qed.

(** Only a waiting slash is promoted. *)
Lemma promoted_waits p fin bh c s st :
  db_wf s → evidence_ok p → at_stage p fin s st → fin <= bh → c <= sp_BlockHeight p →
  let D := done_ids (GetLedgerRange ProtocolSlashPendingBurnAccount c bh "hive" [LedgerTypeSafetySlashHiveBurnPendingFinalized] s) in
  has_window st = true → judge D bh (waiting p (stage_taken st)) = Promote → st = Waiting (stage_taken st).
Proof.
  intros Hwf Hev Hst Hfin Hc D Hwin Hj.
  assert (∀ h mk, mk ∈ stage_list p st → lr_Id mk = marker_id (lr_Id (waiting p (stage_taken st))) →
    on_pending LedgerTypeSafetySlashHiveBurnPendingFinalized mk → lr_BlockHeight mk = h →
    sp_BlockHeight p <= h → (h <= bh ∨ h < maturity_of p) → False) as Hno.
  { intros h mk Hmk Hid (Ho & Hx & Ht) Hh Hge Hor. pose proof (at_lookup p fin s st mk Hst Hmk) as Hl.
    unfold judge in Hj. destruct (lr_Amount _ <=? 0); [done|].
    destruct (slices_Contains D _) eqn:HD; [done|]. rewrite parse_maturity in Hj by done.
    destruct (Z.ltb_spec bh (maturity_of p)); [done|]. assert (h <= bh) by (destruct Hor; lia).
    apply not_true_iff_false in HD. apply HD, elem_of_done_ids. exists mk. split; [|done].
    apply elem_of_typed_range; [done|]. split_and!; try done; lia. }
  destruct Hst as [_ Hok]. destruct st as [|A|A|A h|A h C]; try done; cbn [stage_ok stage_taken] in *; exfalso.
  - eapply (Hno h); [do 4 right; by left|done..|lia|left; lia].
  - destruct Hok as (_ & _ & Hh & Hor & _).
    eapply (Hno h); [do 3 right; by left|done..|lia|destruct Hor; [left; lia|by right]].
Qed.

Lemma scan_book bh fin c s :
  db_wf s → book U fin (rows s) → fin <= bh →
  let pendingRecs := GetLedgerRange ProtocolSlashPendingBurnAccount c bh "hive" [LedgerTypeSafetySlashHiveBurnPending] s in
  let D := done_ids (GetLedgerRange ProtocolSlashPendingBurnAccount c bh "hive" [LedgerTypeSafetySlashHiveBurnPendingFinalized] s) in
  let P := filter (λ r, judge D bh r = Promote) pendingRecs in
  book U bh (upserts (P ≫= promotion bh) (rows s)).
Proof.
  intros Hwf Hb Hfin pendingRecs D P.
  assert (∀ r p st, r ∈ P → p ∈ U → at_stage p fin s st → in_family p (lr_Id r) →
    r = waiting p (stage_taken st) ∧ st = Waiting (stage_taken st) ∧ sp_BlockHeight p <= bh) as Hone.
  { intros r p st [Hj Hr]%list_elem_of_filter Hp Hst Hin.
    apply elem_of_typed_range in Hr as (Hr & Ho & Hx & Ht & Hh); [|done].
    rewrite <- (family_lookup p), (proj1 Hst) in Hr by done.
    destruct (stage_waiting fin p st _ r (proj2 Hst) Hr Ht) as [-> Hwin].
    split; [done|]. split; [|cbn in Hh; lia].
    apply (promoted_waits p fin bh c s st); try done; [by apply (U_ok U HU)|cbn in Hh; lia]. }
  assert (∀ r, r ∈ P → ∃ p, p ∈ U ∧ in_family p (lr_Id r)) as Hfam.
  { intros r [_ Hr]%list_elem_of_filter. apply elem_of_typed_range in Hr as (Hr & _ & _ & Ht & _); [|done].
    eapply (book_typed _ _ _ Hb); [exact Hr|]. rewrite Ht. by apply (bool_decide_unpack _). }
  split.
  - intros p Hp. destruct (book_stage _ _ _ Hb p Hp) as (st & Hst).
    rewrite (family_bind p (promotion bh) (waiting p (stage_taken st))); cycle 1.
    { apply NoDup_filter. eapply (NoDup_fmap_1 lr_Id). by apply NoDup_range. }
    { intros r Hr Hin. by apply (Hone r p st). }
    { apply waiting_family. }
    { apply promotion_family, waiting_family. }
    { intros r Hr Hout. destruct (Hfam r Hr) as (q & Hq & Hqr). eapply Forall_impl; [by apply (promotion_family q)|].
      intros u Hu Hpu. apply Hout. by rewrite (family_unique U HU Hbases p q _ Hp Hq Hpu Hu). }
    rewrite (proj1 Hst). case_decide as Hw; [|exists st; split; [done|by eapply stage_ok_mono, Hst]].
    destruct (Hone _ p st Hw Hp Hst (waiting_family p _)) as (_ & Heq & Hh). set (A := stage_taken st) in *.
    exists (Promoted A bh). rewrite Heq. split; [unfold stage_rows; cbn [stage_list stage_credits]; by rewrite upserts_app|].
    destruct Hst as [_ Hok]. rewrite Heq in Hok. cbn in *. split_and!; try lia; apply Hok.
  - apply typed_upserts; [apply Hb|]. intros u (r & Hu & Hr)%list_elem_of_bind _.
    destruct (Hfam r Hr) as (q & Hq & Hqr). exists q. split; [done|].
    by apply (proj1 (Forall_forall _ _) (promotion_family q bh r Hqr)).
Qed.

Lemma scan_sim readErr bh fin s :
  db_wf s → book U fin (rows s) → fin <= bh →
  db_wf (FinalizeMaturedSafetySlashBurns readErr bh s) ∧ book U bh (rows (FinalizeMaturedSafetySlashBurns readErr bh s)).
Proof.
  intros Hwf Hb Hfin. unfold FinalizeMaturedSafetySlashBurns.
  destruct (bh =? 0); [split; [done|by eapply book_mono]|].
  destruct (bh <? _); [split; [done|by eapply book_mono]|]. set (c := readSafetySlashFinalizeCursor readErr s).
  pose proof (scan_book bh fin c s Hwf Hb Hfin) as Hbook. cbv zeta in Hbook.
  set (pendingRecs := GetLedgerRange _ _ _ _ [LedgerTypeSafetySlashHiveBurnPending] s) in *.
  set (D := done_ids _) in *. pose proof (finalize_loop D bh pendingRecs s MaxUint64 Hwf) as Hloop.
  destruct (foldl _ _ pendingRecs) as [s1 mn]. destruct Hloop as (Hwf1 & Hrows1 & _).
  { intros r Hr. apply elem_of_typed_range in Hr as (Hr & _ & _ & Ht & _); [|done].
    destruct (book_typed _ _ _ Hb _ r Hr) as (q & _ & [t ->]%HasPrefix_spec).
    { rewrite Ht. by apply (bool_decide_unpack _). }
    unfold family_prefix. rewrite sapp_assoc. by apply sapp_ne_r. }
  rewrite <- Hrows1 in Hbook. destruct (c <? _); [|done].
  match goal with |- context [writeSafetySlashFinalizeCursor bh ?x s1] => set (nc := x) end.
  destruct (storeLedgerOrFail_spec [cursor_row bh nc] s1 Hwf1) as [Hwf2 Hrows2]; [by constructor|].
  split; [done|]. unfold writeSafetySlashFinalizeCursor. rewrite Hrows2.
  apply book_foreign; [done|]. constructor; [apply cursor_foreign|constructor].
Qed.

(** *** Undoing a slash *)

Lemma at_heights p fin s st : at_stage p fin s st → stage_ok fin p st.
Proof. by intros [_ ?]. Qed.

Lemma total_at p fin s st q prefix a x types :
  db_wf s → at_stage p fin s st →
  (∀ r, q r = in_query a 0 maxLedgerScanHeight x types r && HasPrefix (lr_Id r) prefix) →
  (∀ id, HasPrefix id prefix = true → in_family p id) →
  i64 (qsum q (stage_rows p st)) →
  prefix_total prefix (GetLedgerRange a 0 maxLedgerScanHeight x types s) = qsum q (stage_rows p st).
Proof.
  intros Hwf [Hf _] Hq Hpre Hi. rewrite prefix_total_range by done.
  rewrite (qsum_ext _ q) by (intros k r _; by rewrite Hq).
  rewrite (qsum_family p); [|by intros ? ? ?; eapply rows_keyed|].
  - rewrite Hf. by apply wrap64_id.
  - intros r Hr. rewrite Hq in Hr. apply andb_true_iff in Hr as [_ ?]. by apply Hpre.
Qed.

Lemma read_amounts p fin s st :
  db_wf s → evidence_ok p → at_stage p fin s st → fin <= MaxInt64 →
  alreadyFinalizedToReserveAmt (sp_TxID p) (sp_EvidenceKind p) s = stage_reserve st ∧
  uncancelledPendingResidualAmt (sp_TxID p) (sp_EvidenceKind p) s = stage_pending st ∧
  ∀ a, normalizeHiveAccount a = slash_acct p →
    alreadyReversedConsensusAmt (sp_TxID p) (sp_EvidenceKind p) a s = stage_returned st.
Proof.
  intros Hwf Hev Hst Hfin. pose proof (at_heights p fin s st Hst) as Hok.
  pose proof (stage_amounts fin p st Hok) as Ham.
  pose proof (sum_reserve fin p st Hev Hok Hfin) as Hr. pose proof (sum_pending fin p st Hev Hok Hfin) as Hp.
  pose proof (sum_returned fin p st Hok) as Hb.
  assert (∀ x, sp_TxID p +:+ "#safety_slash#" +:+ sp_EvidenceKind p +:+ x = base_of p +:+ x) as Hpre.
  { intros x. unfold base_of, slash_base. by rewrite !sapp_assoc. }
  assert (0 <= stage_reserve st <= MaxInt64 ∧ 0 <= stage_pending st <= MaxInt64 ∧ 0 <= stage_returned st <= MaxInt64) as (HR & HP & HB).
  { destruct st; cbn in *; unfold_widths; lia. }
  split_and!.
  - unfold alreadyFinalizedToReserveAmt. rewrite Hpre, <- Hr.
    by eapply total_at; [done|exact Hst|done|done|rewrite Hr; unfold_widths; lia].
  - unfold uncancelledPendingResidualAmt. cbv zeta. rewrite Hpre.
    rewrite (total_at p fin s st (pending_q p)); [|done|exact Hst|done|done|rewrite Hp; unfold_widths; lia].
    rewrite Hp. by rewrite (proj2 (Z.ltb_ge _ _)) by lia.
  - intros a Ha. unfold alreadyReversedConsensusAmt. cbv zeta. rewrite Hpre, Ha, <- Hb.
    eapply total_at; [done|exact Hst|done| |rewrite Hb; unfold_widths; lia].
    intros id [t ->]%HasPrefix_spec. unfold in_family, family_prefix.
    change "#consensus_reverse#" with ("#" +:+ "consensus_reverse#"). rewrite !sapp_assoc, <- sapp_assoc. apply HasPrefix_app.
Qed.

(** The debits on record. *)
Lemma debit_read owner fin s r :
  db_wf s → book U fin (rows s) →
  r ∈ GetLedgerRange owner 0 maxLedgerScanHeight "hive_consensus" [LedgerTypeSafetySlashConsensus] s →
  ∃ p st, p ∈ U ∧ at_stage p fin s st ∧ st ≠ Fresh ∧ owner = slash_acct p ∧ r = slash_debit p (slash_acct p) (stage_taken st).
Proof.
  intros Hwf Hb Hin. apply elem_of_range in Hin as [Hq [k Hk]]; [|done]. pose proof (rows_keyed s k r Hwf Hk) as <-.
  unfold in_query in Hq. apply andb_true_iff in Hq as [Hq Ht]. rewrite bool_decide_eq_false_2 in Ht by done.
  apply slices_Contains_spec, list_elem_of_singleton in Ht.
  assert (lr_Owner r = owner) as Ho by (repeat apply andb_true_iff in Hq as [Hq ?]; by apply String.eqb_eq).
  destruct (book_typed _ _ _ Hb _ r Hk) as (p & Hp & Hfam).
  { rewrite Ht. by apply (bool_decide_unpack _). }
  destruct (book_stage _ _ _ Hb p Hp) as (st & Hst). rewrite <- (family_lookup p), (proj1 Hst) in Hk by done.
  destruct (stage_debit fin p st _ r (proj2 Hst) Hk Ht) as [-> Hne]. by exists p, st.
Qed.

(** The slash a request is about. *)
Lemma find_row readErr tx kind a fin s r :
  db_wf s → book U fin (rows s) → findSafetySlashConsensusRow readErr tx kind a s = Some r →
  ∃ p st, p ∈ U ∧ at_stage p fin s st ∧ st ≠ Fresh ∧ tx = sp_TxID p ∧ kind = sp_EvidenceKind p ∧
    normalizeHiveAccount a = slash_acct p ∧ r = slash_debit p (slash_acct p) (stage_taken st).
Proof.
  intros Hwf Hb. unfold findSafetySlashConsensusRow. cbv zeta. destruct readErr; [done|].
  destruct (list_find _ _) as [[i r']|] eqn:Hf; [|done]. intros [= ->].
  apply list_find_Some in Hf as (Hin%list_elem_of_lookup_2 & Hid%String.eqb_eq & _).
  destruct (debit_read _ fin s r Hwf Hb Hin) as (p & st & Hp & Hst & Hne & Ho & ->). exists p, st.
  cbn [slash_debit lr_Id row] in Hid. rewrite Ho in Hid. unfold safetySlashConsensusRowID, debit_id in Hid.
  assert (slash_base tx kind = slash_base (sp_TxID p) (sp_EvidenceKind p)) as Hbase.
  { unfold slash_base in *. apply (sapp_inj_r _ _ ("#consensus_debit#" +:+ slash_acct p)). rewrite !sapp_assoc in *. done. }
  destruct (U_ok U HU p Hp) as (_ & _ & _ & _ & Htx & Hkd).
  by apply base_inj in Hbase as [-> ->].
Qed.

(** What a cancellation at [h] does to a stage. *)
Definition cancel_stage (p : slash) (h : Z) (st : stage) : stage :=
  if sp_BlockHeight p <=? h then
    match st with
    | Waiting A => Released A h ∅
    | Released A h0 C => if h0 <=? h then st else Released A h C
    | _ => st
    end
  else st.

Lemma cancel_rows_stage p h st :
  sp_BlockHeight p <= h →
  match st with Waiting _ => True | Released _ h0 _ => h < h0 | _ => False end →
  upserts (cancellation h (waiting p (stage_taken st))) (stage_rows p st) = stage_rows p (cancel_stage p h st).
Proof.
  intros Hh Hst. unfold cancel_stage. rewrite (proj2 (Z.leb_le _ _)) by done.
  destruct st as [|A|A|A h0|A h0 C]; try done; unfold stage_rows; cbn [stage_list stage_credits stage_taken].
  rewrite (proj2 (Z.leb_gt _ _)) by done. cbn [stage_list stage_credits]. rewrite !upserts_app.
  apply upserts_override. reflexivity.
Qed.

Lemma cancel_stage_ok p fin fin' h st :
  stage_ok fin p st → fin <= fin' → 0 <= h <= MaxInt64 → (h <= fin' ∨ (has_window st = true → h < maturity_of p)) →
  stage_ok fin' p (cancel_stage p h st).
Proof.
  intros Hok Hle Hh Hor. apply (stage_ok_mono fin fin') in Hok; [|done]. unfold cancel_stage.
  destruct (Z.leb_spec (sp_BlockHeight p) h); [|done].
  destruct st as [|A|A|A h0|A h0 C]; try done; cbn in *;
    assert (h <= fin' ∨ h < maturity_of p) by (destruct Hor; auto).
  - change (msum lr_Amount ∅) with 0. split_and!; try apply Hok; try lia; done.
  - destruct (h0 <=? h); [done|]. cbn. destruct Hok as (? & ? & ? & ? & ? & ?). split_and!; try done; lia.
Qed.

(** The rows of a stage under an id derived from the waiting row are in its
    list. *)
Lemma derived_row p st fin sfx k :
  stage_ok fin p st → stage_rows p st !! (lr_Id (waiting p (stage_taken st)) +:+ sfx) = Some k →
  k ∈ stage_list p st ∧ lr_Id k = lr_Id (waiting p (stage_taken st)) +:+ sfx.
Proof.
  intros Hok [?|Hk]%stage_lookup; [done|]. destruct (stage_credits_ok fin p st Hok _ k Hk) as (_ & [t Ht]%HasPrefix_spec & _).
  cbn [waiting row lr_Id] in Ht. unfold pending_id in Ht. rewrite !sapp_assoc in Ht. by apply sapp_inj_l in Ht.
Qed.

Lemma marker_seen p fin s st h ty sfx :
  db_wf s → at_stage p fin s st →
  existsb (λ k, String.eqb (lr_Id k) (lr_Id (waiting p (stage_taken st)) +:+ sfx))
    (GetLedgerRange ProtocolSlashPendingBurnAccount 0 h "hive" [ty] s) = true ↔
  ∃ k, k ∈ stage_list p st ∧ lr_Id k = lr_Id (waiting p (stage_taken st)) +:+ sfx ∧ on_pending ty k ∧ 0 <= lr_BlockHeight k <= h.
Proof.
  intros Hwf [Hf Hok]. rewrite typed_exists by done.
  rewrite <- (family_lookup p _ _ (in_family_app p _ sfx (waiting_family p _))), Hf. split.
  - intros (k & Hk & Hrest). apply (derived_row p st fin) in Hk as [Hk Hid]; [|done]. by exists k.
  - intros (k & Hk & Hid & Hrest). exists k. rewrite <- Hid. split; [by apply stage_lookup_in|done].
Qed.

(** What the two guards of a cancellation see. *)
Lemma cancelled_seen p fin s st h :
  db_wf s → at_stage p fin s st → 0 <= sp_BlockHeight p →
  existsb (λ k, String.eqb (lr_Id k) (lr_Id (waiting p (stage_taken st)) +:+ "#cancelled_marker"))
    (GetLedgerRange ProtocolSlashPendingBurnAccount 0 h "hive" [LedgerTypeSafetySlashHiveBurnPendingCancelled] s) = true ↔
  match st with Released _ h0 _ => h0 <= h | _ => False end.
Proof.
  intros Hwf Hst Hbh. rewrite (marker_seen p fin) by done. split.
  - intros (k & Hk & _ & (_ & _ & Ht) & Hh). destruct st as [|A|A|A h0|A h0 C]; cbn [stage_list app] in Hk;
      unfold cancellation, cancel_rows, promotion in Hk; rewrite ?elem_of_cons, elem_of_nil in Hk; destruct_or? Hk; subst; try done.
    cbn in Hh. lia.
  - pose proof (at_heights _ _ _ _ Hst) as Hok. destruct st as [|A|A|A h0|A h0 C]; try done. intros Hh.
    eexists. split; [do 4 right; by left|]. cbn in Hok. split_and!; try done; cbn; lia.
Qed.

Lemma finalized_seen p fin s st h :
  db_wf s → at_stage p fin s st → 0 <= sp_BlockHeight p →
  existsb (λ k, String.eqb (lr_Id k) (lr_Id (waiting p (stage_taken st)) +:+ "#finalized_marker"))
    (GetLedgerRange ProtocolSlashPendingBurnAccount 0 h "hive" [LedgerTypeSafetySlashHiveBurnPendingFinalized] s) = true ↔
  match st with Promoted _ h0 | Released _ h0 _ => h0 <= h | _ => False end.
Proof.
  intros Hwf Hst Hbh. rewrite (marker_seen p fin) by done. split.
  - intros (k & Hk & _ & (_ & _ & Ht) & Hh). destruct st as [|A|A|A h0|A h0 C]; cbn [stage_list app] in Hk;
      unfold cancellation, cancel_rows, promotion in Hk; rewrite ?elem_of_cons, elem_of_nil in Hk; destruct_or? Hk; subst; try done;
      cbn in Hh; lia.
  - pose proof (at_heights _ _ _ _ Hst) as Hok. destruct st as [|A|A|A h0|A h0 C]; try done; intros Hh; cbn in Hok;
      [eexists; split; [do 4 right; by left|]|eexists; split; [do 3 right; by left|]]; split_and!; try done; cbn; lia.
Qed.

Lemma cancel_sim p fin fin' s st a h reason :
  db_wf s → book U fin (rows s) → p ∈ U → at_stage p fin s st → normalizeHiveConsensusAccount a = slash_acct p →
  fin <= fin' → fin <= h → 0 <= h <= MaxInt64 → (h <= fin' ∨ (has_window st = true → h < maturity_of p)) →
  let s' := (CancelPendingSafetySlashBurn (mkCancelPendingSafetySlashBurnParams (sp_TxID p) (sp_EvidenceKind p) a h reason) s).2 in
  db_wf s' ∧ book U fin' (rows s') ∧ at_stage p fin' s' (cancel_stage p h st).
Proof.
  intros Hwf Hb Hp Hst Ha Hfin Hfh Hh Hor. pose proof (U_ok U HU p Hp) as ((Hacct & Htx & Hkd & _ & [Hbh _] & _) & _ & Htt & Htk & _).
  unfold CancelPendingSafetySlashBurn. cbn [cancel_TxID cancel_EvidenceKind cancel_SlashedAccount cancel_BlockHeight].
  rewrite !(proj2 (String.eqb_neq _ _)) by (rewrite ?Ha; done). cbn [orb]. rewrite Ha.
  cbv zeta. unfold safetySlashBaseID. rewrite !Htt, !Htk.
  change ((sp_TxID p +:+ "#safety_slash#" +:+ sp_EvidenceKind p) +:+ "#hive_burn_pending#" +:+ slash_acct p)
    with (lr_Id (waiting p (stage_taken st))).
  assert (cancel_stage p h st = st → db_wf s ∧ book U fin' (rows s) ∧ at_stage p fin' s (cancel_stage p h st)) as Hsame.
  { intros ->. split_and!; [done|by eapply book_mono|]. split; [apply Hst|by eapply stage_ok_mono, Hst]. }
  pose proof (at_heights _ _ _ _ Hst) as Hok.
  destruct (list_find _ _) as [[i r]|] eqn:Hf.
  2: { apply Hsame. unfold cancel_stage. destruct (Z.leb_spec (sp_BlockHeight p) h); [|done].
       destruct (has_window st) eqn:Hwin; [|by destruct st]. exfalso.
       apply list_find_None in Hf. rewrite Forall_forall in Hf. apply (Hf (waiting p (stage_taken st))); [|by apply String.eqb_eq].
       apply elem_of_typed_range; [done|]. split_and!; try done. eapply at_lookup; [exact Hst|by apply stage_has_waiting]. }
  apply list_find_Some in Hf as (Hin%list_elem_of_lookup_2 & Hid%String.eqb_eq & _).
  apply elem_of_typed_range in Hin as (Hr & _ & _ & Ht & Hrh); [|done].
  rewrite Hid, <- (family_lookup p), (proj1 Hst) in Hr by apply waiting_family.
  destruct (stage_waiting fin p st _ r Hok Hr Ht) as [-> Hwin]. cbn [waiting row lr_BlockHeight] in Hrh.
  destruct (existsb _ (GetLedgerRange _ _ _ _ [LedgerTypeSafetySlashHiveBurnPendingCancelled] s)) eqn:Hcan.
  { apply (cancelled_seen p fin s st h Hwf Hst Hbh) in Hcan. apply Hsame. unfold cancel_stage.
    rewrite (proj2 (Z.leb_le _ _)) by lia. destruct st; try done. by rewrite (proj2 (Z.leb_le _ _)). }
  destruct (existsb _ (GetLedgerRange _ _ _ _ [LedgerTypeSafetySlashHiveBurnPendingFinalized] s)) eqn:Hfz.
  { apply (finalized_seen p fin s st h Hwf Hst Hbh) in Hfz. apply Hsame. unfold cancel_stage.
    rewrite (proj2 (Z.leb_le _ _)) by lia. destruct st; try done. by rewrite (proj2 (Z.leb_le _ _)). }
  apply not_true_iff_false in Hfz. rewrite (finalized_seen p fin s st h Hwf Hst Hbh) in Hfz.
  change (cancel_rows h _ _) with (cancellation h (waiting p (stage_taken st))). cbn [snd].
  apply (store_step p fin fin' s st); try done.
  - repeat constructor; apply in_family_app, waiting_family.
  - apply cancel_rows_stage; [lia|]. destruct st; try done; cbn in Hok; lia.
  - by eapply cancel_stage_ok.
Qed.

(** What a credit does to a stage. *)
Definition credit (p : slash) (carryingTxID : string) (h amount : Z) : LedgerRecord :=
  let id := base_of p +:+ "#consensus_reverse#" +:+ slash_acct p in
  let op := TrimSpace carryingTxID in
  row (if String.eqb op "" then id else id +:+ "#" +:+ op) (sp_TxID p) h amount "hive_consensus" (slash_acct p) ""
    LedgerTypeSafetySlashConsensusReverse.

Definition credit_stage (p : slash) (carryingTxID : string) (h request : Z) (st : stage) : stage :=
  match st with
  | Released A h0 C =>
      let room := A - msum lr_Amount C in
      if (request <=? 0) || (room <=? 0) then st else Released A h0 (upsert (credit p carryingTxID h (Z.min room request)) C)
  | _ => st
  end.

Lemma credit_prefix p tx h amt : HasPrefix (lr_Id (credit p tx h amt)) (base_of p +:+ "#consensus_reverse#") = true.
Proof.
  unfold credit. cbv zeta. cbn [lr_Id row]. apply HasPrefix_spec. destruct (String.eqb _ _).
  - exists (slash_acct p). by rewrite !sapp_assoc.
  - eexists. by rewrite !sapp_assoc.
Qed.

Lemma credit_family p tx h amt : in_family p (lr_Id (credit p tx h amt)).
Proof.
  destruct (proj1 (HasPrefix_spec _ _) (credit_prefix p tx h amt)) as [t ->]. rewrite sapp_assoc.
  apply (in_family_ext p ("consensus_reverse#" +:+ t)).
Qed.

Lemma credit_stage_ok p fin tx h request st :
  0 <= h <= MaxInt64 → stage_ok fin p st → stage_ok fin p (credit_stage p tx h request st).
Proof.
  intros Hh Hok. destruct st as [|A|A|A h0|A h0 C]; try done. cbn [credit_stage]. cbv zeta.
  destruct (_ || _) eqn:Hor; [done|]. z_of_bool. destruct Hok as (HA & Hd & Hh0 & Hmat & HC & Hsum).
  set (amt := Z.min _ _). assert (0 < amt <= A - msum lr_Amount C) as Hamt by (unfold amt; lia).
  do 4 (split; [done|]). split.
  - apply map_Forall_insert_2; [|done]. split_and!; try done; try (cbn; lia); apply credit_prefix.
  - unfold upsert. rewrite msum_insert.
    assert (0 <= from_option lr_Amount 0 (C !! lr_Id (credit p tx h amt))) as Hold.
    { destruct (C !! _) as [r|] eqn:Hr; [|done]. destruct (HC _ r Hr) as (_ & _ & _ & _ & _ & _ & ?). cbn [from_option]. lia. }
    change (lr_Amount (credit p tx h amt)) with amt. lia.
Qed.

Lemma credit_rows p tx h request st :
  match st with Released A _ C => (request <=? 0) || (A - msum lr_Amount C <=? 0) = false | _ => False end →
  upserts [credit p tx h (Z.min (stage_taken st - stage_returned st) request)] (stage_rows p st)
  = stage_rows p (credit_stage p tx h request st).
Proof.
  destruct st as [|A|A|A h0|A h0 C]; try done. intros Hor. cbn [credit_stage stage_taken]. cbv zeta. rewrite Hor.
  unfold stage_rows, stage_returned. cbn [stage_credits]. cbn [upserts foldl].
  change (stage_list p (Released A h0 ?X)) with (stage_list p (Released A h0 C)).
  apply upserts_comm. intros (r & Hid & Hr)%list_elem_of_fmap.
  pose proof (stage_list_credit p _ r Hr) as Hp. rewrite <- Hid in Hp. by rewrite credit_prefix in Hp.
Qed.

Lemma headroom_exact t b r w :
  i64 (t - b) → i64 (r + w) → i64 (t - b - (r + w)) → (t -64 b) -64 (r +64 w) = t - b - (r + w).
Proof. intros. by rewrite (i64_add_exact r w), (i64_sub_exact t b), i64_sub_exact. Qed.

Lemma credit_sim p fin s st rec tx h :
  db_wf s → book U fin (rows s) → p ∈ U → at_stage p fin s st → fin <= MaxInt64 → 0 <= h <= MaxInt64 →
  sr_SlashTxID rec = sp_TxID p → sr_EvidenceKind rec = sp_EvidenceKind p → normalizeHiveAccount (sr_SlashedAccount rec) = slash_acct p →
  let s' := apply_credit rec (stage_taken st) tx h s in
  db_wf s' ∧ book U fin (rows s') ∧ at_stage p fin s' (credit_stage p tx h (sr_Amount rec) st).
Proof.
  intros Hwf Hb Hp Hst Hfin Hh Htx Hkd Ha. pose proof (U_ok U HU p Hp) as Hev.
  pose proof Hev as ((Hacct & Htne & Hkne & _) & _ & Htt & Htk & _). pose proof (at_heights _ _ _ _ Hst) as Hok.
  destruct (read_amounts p fin s st Hwf Hev Hst Hfin) as (Hr & Hpd & Hrev). pose proof (stage_amounts fin p st Hok) as Ham.
  assert (credit_stage p tx h (sr_Amount rec) st = st → db_wf s ∧ book U fin (rows s) ∧ at_stage p fin s (credit_stage p tx h (sr_Amount rec) st))
    as Hsame by by intros ->.
  unfold apply_credit. destruct (Z.leb_spec (sr_Amount rec) 0) as [Hle|Hpos].
  { apply Hsame. destruct st; try done. cbn [credit_stage]. by rewrite (proj2 (Z.leb_le _ _)). }
  cbv zeta. rewrite Htx, Hkd, Hr, Hpd, (Hrev _ Ha).
  set (room := stage_taken st - stage_returned st - (stage_reserve st + stage_pending st)).
  assert ((stage_taken st -64 stage_returned st) -64 (stage_reserve st +64 stage_pending st) = room) as ->.
  { apply headroom_exact; unfold_widths; lia. }
  destruct (Z.leb_spec room 0) as [Hroom|Hroom].
  { apply Hsame. destruct st as [|A|A|A h0|A h0 C]; try done. cbn [credit_stage]. cbv zeta.
    change (stage_returned _) with (msum lr_Amount C) in *. cbn [stage_taken stage_reserve stage_pending] in *.
    by rewrite (proj2 (Z.leb_le (A - _) 0)), orb_true_r by lia. }
  assert (match st with Released A _ C => (sr_Amount rec <=? 0) || (A - msum lr_Amount C <=? 0) = false | _ => False end) as Hrel.
  { destruct st as [|A|A|A h0|A h0 C]; change (stage_returned _) with (msum lr_Amount C) in * || change (stage_returned _) with 0 in *;
      cbn [stage_taken stage_reserve stage_pending] in *; lia. }
  assert (room = stage_taken st - stage_returned st) as Hroom' by (unfold room; destruct st; try done; cbn [stage_reserve stage_pending]; lia).
  set (amount := if (_ : bool) then _ else _).
  assert (amount = Z.min (stage_taken st - stage_returned st) (sr_Amount rec)) as Hamt
    by (unfold amount; rewrite Hroom'; destruct (Z.ltb_spec (stage_taken st - stage_returned st) (sr_Amount rec)); lia).
  unfold ReverseSafetySlashConsensusDebit. cbn [rev_Account rev_TxID rev_EvidenceKind rev_Amount rev_OpInstanceID rev_BlockHeight].
  change (normalizeHiveConsensusAccount (sr_SlashedAccount rec)) with (normalizeHiveAccount (sr_SlashedAccount rec)).
  rewrite Ha. rewrite !(proj2 (String.eqb_neq _ "")) by done. cbn [orb]. rewrite (proj2 (Z.leb_gt amount 0)) by lia.
  cbv zeta. unfold safetySlashBaseID. rewrite !Htt, !Htk. cbn [snd]. fold (slash_base (sp_TxID p) (sp_EvidenceKind p)). fold (base_of p).
  apply (store_step p fin fin s st _ [credit p tx h amount]); try done.
  - constructor; [apply credit_family|constructor].
  - rewrite Hamt. by apply credit_rows.
  - by apply credit_stage_ok.
Qed.

Lemma find_complete p fin s st a :
  db_wf s → p ∈ U → at_stage p fin s st → st ≠ Fresh → normalizeHiveAccount a = slash_acct p →
  findSafetySlashConsensusRow false (sp_TxID p) (sp_EvidenceKind p) a s = Some (slash_debit p (slash_acct p) (stage_taken st)).
Proof.
  intros Hwf Hp Hst Hne Ha. unfold findSafetySlashConsensusRow. cbv zeta. rewrite Ha.
  set (d := slash_debit p (slash_acct p) (stage_taken st)).
  assert (safetySlashConsensusRowID (sp_TxID p) (sp_EvidenceKind p) (slash_acct p) = lr_Id d) as ->.
  { unfold safetySlashConsensusRowID, d. cbn [slash_debit lr_Id row]. unfold debit_id, slash_base. by rewrite !sapp_assoc. }
  pose proof (at_lookup p fin s st d Hst (stage_has_debit p st Hne)) as Hd.
  pose proof (stage_heights p (U_ok U HU p Hp)) as Hh.
  assert (d ∈ GetLedgerRange (slash_acct p) 0 maxLedgerScanHeight "hive_consensus" [LedgerTypeSafetySlashConsensus] s) as Hin.
  { apply elem_of_range; [done|]. split; [|by eexists]. by apply in_query_hit. }
  destruct (list_find _ _) as [[i r]|] eqn:Hf.
  - apply list_find_Some in Hf as (Hi%list_elem_of_lookup_2 & Hid%String.eqb_eq & _). cbn.
    apply elem_of_range in Hi as [_ [k Hk]]; [|done]. pose proof (rows_keyed s k r Hwf Hk) as <-. congruence.
  - apply list_find_None in Hf. rewrite Forall_forall in Hf. by destruct (Hf d Hin); apply String.eqb_eq.
Qed.

(** What a request does to the stage of its slash. *)
Definition request_stage (p : slash) (tx : string) (h : Z) (rec : SafetySlashReverseRecord) (st : stage) : stage :=
  let st := if String.eqb (sr_Action rec) ReverseActionCancel || String.eqb (sr_Action rec) ReverseActionBoth
            then cancel_stage p h st else st in
  if String.eqb (sr_Action rec) ReverseActionReverse || String.eqb (sr_Action rec) ReverseActionBoth
  then credit_stage p tx h (sr_Amount rec) st else st.

Lemma cancel_taken p h st : stage_taken (cancel_stage p h st) = stage_taken st.
Proof. unfold cancel_stage. destruct (_ <=? _), st; try done. by destruct (_ <=? _). Qed.

(** A request for a slash on record. *)
Lemma request_sim p fin fin' s st rec tx h :
  db_wf s → book U fin (rows s) → p ∈ U → at_stage p fin s st →
  fin <= fin' <= MaxInt64 → fin <= h → 0 <= h <= MaxInt64 → (h <= fin' ∨ (has_window st = true → h < maturity_of p)) →
  sr_SlashTxID rec = sp_TxID p → sr_EvidenceKind rec = sp_EvidenceKind p → normalizeHiveAccount (sr_SlashedAccount rec) = slash_acct p →
  let cancels := String.eqb (sr_Action rec) ReverseActionCancel || String.eqb (sr_Action rec) ReverseActionBoth in
  let credits := String.eqb (sr_Action rec) ReverseActionReverse || String.eqb (sr_Action rec) ReverseActionBoth in
  let s1 := if cancels then
              (CancelPendingSafetySlashBurn
                 (mkCancelPendingSafetySlashBurnParams (sr_SlashTxID rec) (sr_EvidenceKind rec) (sr_SlashedAccount rec) h (sr_Reason rec)) s).2
            else s in
  let s' := if credits then apply_credit rec (stage_taken st) tx h s1 else s1 in
  db_wf s' ∧ book U fin' (rows s') ∧ at_stage p fin' s' (request_stage p tx h rec st).
Proof.
  intros Hwf Hb Hp Hst Hfin Hfh Hh Hor Htx Hkd Ha cancels credits s1.
  set (st1 := if cancels then cancel_stage p h st else st).
  assert (db_wf s1 ∧ book U fin' (rows s1) ∧ at_stage p fin' s1 st1) as (Hwf1 & Hb1 & Hst1).
  { unfold s1, st1. destruct cancels.
    - rewrite Htx, Hkd. by apply (cancel_sim p fin fin' s st); try done; lia.
    - split_and!; [done|by eapply book_mono, Hb; lia|]. split; [apply Hst|]. by eapply stage_ok_mono, Hst; lia. }
  assert (stage_taken st = stage_taken st1) as -> by (unfold st1; destruct cancels; [by rewrite cancel_taken|done]).
  unfold request_stage. fold cancels credits. cbv zeta. fold st1.
  destruct credits; [|done]. apply credit_sim; try done; lia.
Qed.

Lemma reverse_sim readErr rec tx h fin fin' s :
  db_wf s → book U fin (rows s) → fin <= fin' <= MaxInt64 → fin <= h → 0 <= h <= MaxInt64 →
  (h <= fin' ∨ ∀ p st, p ∈ U → at_stage p fin s st → has_window st = true →
     TrimSpace (sr_SlashTxID rec) = sp_TxID p → TrimSpace (sr_EvidenceKind rec) = sp_EvidenceKind p → h < maturity_of p) →
  let s' := applySafetySlashReverse readErr rec tx h s in
  db_wf s' ∧ book U fin' (rows s').
Proof.
  intros Hwf Hb Hfin Hfh Hh Hor. assert (db_wf s ∧ book U fin' (rows s)) as Hsame.
  { split; [done|]. by eapply book_mono, Hb; lia. }
  unfold applySafetySlashReverse. cbv zeta. destruct (_ || _ || _); [done|]. destruct (negb _); [done|].
  destruct (findSafetySlashConsensusRow _ _ _ _ _) as [r|] eqn:Hf; [|done].
  apply (find_row _ _ _ _ fin) in Hf as (p & st & Hp & Hst & Hne & Htx & Hkd & Ha & ->); [|done..].
  pose proof (stage_amounts fin p st (proj2 Hst)) as [Ham _].
  cbn [slash_debit row lr_Amount]. rewrite i64_neg_neg by (unfold_widths; lia).
  destruct (stage_taken st <=? 0); [done|].
  pose proof (request_sim p fin fin' s st (Normalize rec) tx h Hwf Hb Hp Hst Hfin Hfh Hh) as Hsim.
  destruct Hsim as (? & ? & _); try done. destruct Hor as [|Hor]; [by left|right]. intros Hw. by apply (Hor p st).
Qed.

(** A request that names a slash on record reaches it. *)
Lemma reverse_at p fin fin' s st rec tx h :
  db_wf s → book U fin (rows s) → p ∈ U → at_stage p fin s st → st ≠ Fresh →
  fin <= fin' <= MaxInt64 → fin <= h → 0 <= h <= MaxInt64 → (h <= fin' ∨ (has_window st = true → h < maturity_of p)) →
  TrimSpace (sr_SlashTxID rec) = sp_TxID p → TrimSpace (sr_EvidenceKind rec) = sp_EvidenceKind p →
  normalizeHiveAccount (sr_SlashedAccount rec) = slash_acct p → known_action (TrimSpace (sr_Action rec)) = true →
  let s' := applySafetySlashReverse false rec tx h s in
  db_wf s' ∧ book U fin' (rows s') ∧ at_stage p fin' s' (request_stage p tx h (Normalize rec) st).
Proof.
  intros Hwf Hb Hp Hst Hne Hfin Hfh Hh Hor Htx Hkd Ha Hact. unfold applySafetySlashReverse. cbv zeta.
  pose proof (U_ok U HU p Hp) as ((Hacct & Htne & Hkne & _) & _ & Htt & Htk & _).
  assert (sr_SlashedAccount (Normalize rec) ≠ "") as Hane.
  { intros E. pose proof (normalize_account rec) as Hn. rewrite E, Ha in Hn. apply Hacct. symmetry. exact Hn. }
  pose proof (request_sim p fin fin' s st (Normalize rec) tx h Hwf Hb Hp Hst Hfin Hfh Hh Hor Htx Hkd
    (eq_trans (normalize_account rec) Ha)) as Hsim. cbv zeta in Hsim.
  assert (sr_SlashTxID (Normalize rec) = sp_TxID p) as E1 by exact Htx.
  assert (sr_EvidenceKind (Normalize rec) = sp_EvidenceKind p) as E2 by exact Hkd. rewrite E1, E2 in *.
  rewrite !(proj2 (String.eqb_neq _ "")) by congruence. cbn [orb].
  assert (known_action (sr_Action (Normalize rec)) = true) as -> by exact Hact. cbn [negb].
  rewrite (find_complete p fin s st) by (done || by rewrite normalize_account).
  pose proof (stage_amounts fin p st (proj2 Hst)) as [Ham _].
  assert (0 < stage_taken st) as Hpos by (destruct Hst as [_ Hok]; destruct st; try done; cbn in Hok; cbn; lia).
  change (lr_Amount (slash_debit p (slash_acct p) (stage_taken st))) with (-64 (stage_taken st)).
  rewrite i64_neg_neg by (unfold_widths; lia). by rewrite (proj2 (Z.leb_gt _ 0)) by done.
Qed.

(** *** Votes *)

Lemma smallest_unique (pass : LedgerRecord → bool) l w :
  w ∈ l → pass w = true → (∀ r, r ∈ l → pass r = true → r = w) → smallest pass l = Some w.
Proof.
  intros Hin Hw Huniq. unfold smallest.
  assert (∀ acc, (acc = None ∨ acc = Some w) → (acc = None → w ∈ l) →
    foldl (λ best r, if negb (pass r) then best else match best with
      | None => Some r | Some b => if strings_Compare (lr_Id r) (lr_Id b) <? 0 then Some r else best end) acc l = Some w) as Hgo;
    [|apply Hgo; [by left|done]].
  clear Hin. induction l as [|r l IH]; intros acc Hacc Hin.
  { destruct Hacc as [-> | ->]; [|done]. by pose proof (Hin eq_refl) as ?%elem_of_nil. }
  cbn [foldl]. assert (∀ r, r ∈ l → pass r = true → r = w) as Hl by (intros; apply Huniq; [by right|done]).
  destruct (pass r) eqn:Hr; cbn [negb].
  - pose proof (Huniq r ltac:(by left) Hr) as ->. apply IH; [done| |].
    + destruct Hacc as [-> | ->]; [by right|]. right. by destruct (_ <? 0).
    + destruct Hacc as [-> | ->]; [done|]. by destruct (_ <? 0).
  - apply IH; [done|done|]. intros E. apply Hin in E as [->|?]%elem_of_cons; [congruence|done].
Qed.

Lemma maturity_read p fin s st :
  db_wf s → p ∈ U → at_stage p fin s st → has_window st = true →
  slashPendingMaturity (sp_TxID p) (sp_EvidenceKind p) s = maturity_of p.
Proof.
  intros Hwf Hp Hst Hw. pose proof (U_ok U HU p Hp) as Hev. unfold slashPendingMaturity. cbv zeta.
  assert (sp_TxID p +:+ "#safety_slash#" +:+ sp_EvidenceKind p +:+ "#" = family_prefix p) as ->.
  { unfold family_prefix, base_of, slash_base. by rewrite !sapp_assoc. }
  set (w := waiting p (stage_taken st)). pose proof (parse_maturity p (stage_taken st) Hev) as Hm. fold w in Hm.
  rewrite (smallest_unique _ _ w).
  - change (default 0 (ParseUint (TrimSpace (lr_From w))) = maturity_of p). by rewrite Hm.
  - apply elem_of_typed_range; [done|]. split_and!; try done; [|apply (stage_heights p Hev)..].
    eapply at_lookup; [exact Hst|by apply stage_has_waiting].
  - rewrite Hm, bool_decide_eq_true_2 by by eexists. rewrite andb_true_r. apply waiting_family.
  - intros r Hr [Hpre _]%andb_true_iff. apply elem_of_typed_range in Hr as (Hr & _ & _ & Ht & _); [|done].
    rewrite <- (family_lookup p), (proj1 Hst) in Hr by done. by eapply stage_waiting in Hr as [? _]; [|apply Hst|].
Qed.

Lemma not_expired h creation expiry mat : IsExpired h creation expiry mat = false → mat ≠ 0 → h < mat.
Proof.
  unfold IsExpired, EffectiveExpiry. cbv zeta. intros Hlt%Z.leb_gt Hne. rewrite (proj2 (Z.eqb_neq mat 0)) in Hlt by done.
  cbn [negb andb] in Hlt. destruct (Z.ltb_spec mat (creation +u64 expiry)); lia.
Qed.

Lemma Split_sep c a b : nochar c a = true → Split (a +:+ String c b) c = a :: Split b c.
Proof.
  induction a as [|x a IH]; intros Ha.
  - rewrite sapp_nil_l. cbn [Split]. by rewrite Ascii.eqb_refl.
  - rewrite sapp_cons. cbn [nochar] in Ha. apply andb_true_iff in Ha as [Hx%negb_true_iff Ha].
    cbn [Split]. by rewrite Hx, IH.
Qed.

Lemma parse_debit p A : evidence_ok p → parseEvidenceKindFromSlashRowID (lr_Id (slash_debit p (slash_acct p) A)) = sp_EvidenceKind p.
Proof.
  intros (_ & _ & _ & _ & Htx & Hkd). cbn [slash_debit lr_Id row]. unfold debit_id, slash_base, parseEvidenceKindFromSlashRowID.
  rewrite !sapp_assoc.
  change ("#safety_slash#" +:+ ?x) with (String hash ("safety_slash" +:+ String hash x)).
  change ("#consensus_debit#" +:+ ?x) with (String hash ("consensus_debit#" +:+ x)).
  rewrite !Split_sep by done. by rewrite String.eqb_refl.
Qed.

(** The proposals name their slash without spaces. *)
Definition trimmed (q : Proposal) : Prop :=
  TrimSpace (pr_SlashTxId q) = pr_SlashTxId q ∧ TrimSpace (pr_EvidenceKind q) = pr_EvidenceKind q.

Definition store_trimmed (g : gov_store) : Prop := map_Forall (λ _, trimmed) (gs_proposals g).

Lemma save_trimmed q g : trimmed q → store_trimmed g → store_trimmed (SaveProposal q g).
Proof. intros Hq Hg. by apply map_Forall_insert_2. Qed.

Lemma record_trimmed v g : store_trimmed g → store_trimmed (RecordVote v g).
Proof. unfold RecordVote. by destruct (String.eqb _ _). Qed.

Lemma smallest_in pass l r : smallest pass l = Some r → r ∈ l ∧ pass r = true.
Proof.
  unfold smallest. assert (∀ acc, foldl (λ best r, if negb (pass r) then best else match best with
    | None => Some r | Some b => if strings_Compare (lr_Id r) (lr_Id b) <? 0 then Some r else best end) acc l = Some r →
    acc = Some r ∨ (r ∈ l ∧ pass r = true)) as Hgo; [|intros Hr; by destruct (Hgo _ Hr)].
  induction l as [|x l IH]; intros acc; [by left|]. cbn [foldl]. intros [Hx|[? ?]]%IH; [|right; split; [by right|done]].
  destruct (pass x) eqn:Hp; cbn [negb] in Hx; [|by left].
  destruct acc as [b|]; [destruct (_ <? 0); [|by left]|]; injection Hx as ->; right; split; [left|done|left|done].
Qed.

Lemma lookup_trimmed id tx acct h fin s g q g' :
  db_wf s → book U fin (rows s) → store_trimmed g → TrimSpace tx = tx →
  restore_lookup id tx acct h s g = Some (q, g') → trimmed q ∧ store_trimmed g'.
Proof.
  intros Hwf Hb Hg Htx. unfold restore_lookup. destruct (GetProposal g id) as [prop|] eqn:Hprop.
  { intros [= <- <-]. split; [|done]. by apply (Hg id). }
  destruct (resolveSlashConsensusRowByTx tx acct s) as [r|] eqn:Hr; [|done]. cbn [mbind option_bind].
  destruct (_ <=? 0); [done|]. intros [= <- <-]. unfold resolveSlashConsensusRowByTx in Hr.
  apply smallest_in in Hr as [Hr _]. destruct (debit_read _ fin s r Hwf Hb Hr) as (p & st & Hp & _ & _ & _ & ->).
  assert (trimmed (restore_proposal id tx acct (slash_debit p (slash_acct p) (stage_taken st)) h)) as Hq.
  { pose proof (U_ok U HU p Hp) as Hev. split; [done|]. unfold restore_proposal. cbn [pr_EvidenceKind].
    rewrite parse_debit by done. apply Hev. }
  split; [done|]. by apply save_trimmed.
Qed.

Lemma vote_sim cp election readErr req voter tx h fin s g :
  db_wf s → book U fin (rows s) → store_trimmed g → fin <= h → 0 <= h <= MaxInt64 →
  let '(s', g') := handleSlashRestoreVote cp election readErr req voter tx h s g in
  db_wf s' ∧ book U fin (rows s') ∧ store_trimmed g'.
Proof.
  intros Hwf Hb Hg Hfin Hh. unfold handleSlashRestoreVote. destruct req as [req|]; [|done]. cbv zeta.
  destruct (_ || _); [done|]. destruct (governanceElectorate _ _) as [e|]; [|done]. destruct (negb (governanceIsMember _ _)); [done|].
  destruct (restore_lookup _ _ _ _ _ _) as [[q g']|] eqn:Hq; [|done].
  apply (lookup_trimmed _ _ _ _ fin) in Hq as [Hq Hg']; [|done|done|done|apply TrimSpace_idem].
  destruct (negb _); [done|]. destruct (IsExpired _ _ _ _) eqn:Hexp; [split_and!; try done; by apply save_trimmed|].
  destruct (negb (IsApproved _ _ _)); [split_and!; try done; by apply record_trimmed|].
  match goal with |- context [applySafetySlashReverse readErr (Normalize ?r) tx h s] => set (rec := r) end.
  destruct (reverse_sim readErr (Normalize rec) tx h fin fin s) as [Hwf' Hb']; try done; [lia|right|].
  { intros p st Hp Hst Hw Htx Hkd. cbn [Normalize sr_SlashTxID sr_EvidenceKind rec] in Htx, Hkd.
    rewrite !TrimSpace_idem in Htx, Hkd. destruct Hq as [Hqt Hqk]. rewrite Hqt in Htx. rewrite Hqk in Hkd.
    rewrite Htx, Hkd, (maturity_read p fin s st) in Hexp by done. apply not_expired in Hexp; [done|].
    destruct (U_ok U HU p Hp) as ((_ & _ & _ & _ & ? & ?) & _). unfold maturity_of, MaxSafetySlashBurnDelayBlocks.
    destruct Hst as [_ Hok]. destruct st; try done; cbn in Hok; lia. }
  split_and!; [done|done|]. apply save_trimmed; [done|]. by apply record_trimmed.
Qed.

(** ** A whole history *)

Inductive slash_event :=
| Slashed (getBal : string → Z → option BalanceRecord) (p : slash)
| Scanned (readErr : bool) (bh : Z)
| Requested (readErr : bool) (rec : SafetySlashReverseRecord) (carryingTxID : string) (h : Z)
| Voted (readErr : bool) (req : option restore_req) (voter txID : string) (h : Z)
| Wrote (recs : list LedgerRecord).

Variables (cp : ConsensusParams) (election : Z → option ElectionResult).

Definition event_step (st : S * gov_store) (ev : slash_event) : option (S * gov_store) :=
  let '(s, g) := st in
  match ev with
  | Slashed getBal p => '(_, s) ← SafetySlashConsensusBond getBal p s; Some (s, g)
  | Scanned readErr bh => Some (FinalizeMaturedSafetySlashBurns readErr bh s, g)
  | Requested readErr rec tx h => Some (applySafetySlashReverse readErr rec tx h s, g)
  | Voted readErr req voter tx h => Some (handleSlashRestoreVote cp election readErr req voter tx h s g)
  | Wrote recs => Some (storeLedgerOrFail recs s, g)
  end.

Definition slash_history (evs : list slash_event) (st : S * gov_store) : option (S * gov_store) :=
  foldl (λ st ev, st ≫= λ st, event_step st ev) (Some st) evs.

(** The height the scans and requests have reached. *)
Definition clock_step (fin : Z) (ev : slash_event) : Z :=
  match ev with Scanned _ bh => bh | Requested _ _ _ h => h | _ => fin end.

(** An event in its place. *)
Definition timely (fin : Z) (ev : slash_event) : Prop :=
  match ev with
  | Slashed _ p => p ∈ U
  | Scanned _ bh => fin <= bh <= MaxInt64
  | Requested _ _ _ h | Voted _ _ _ _ h => fin <= h <= MaxInt64
  | Wrote recs => Forall (foreign U) recs
  end.

Fixpoint timed (fin : Z) (evs : list slash_event) : Prop :=
  match evs with
  | [] => True
  | ev :: evs => timely fin ev ∧ timed (clock_step fin ev) evs
  end.

Definition clock (evs : list slash_event) : Z := foldl clock_step 0 evs.

(** A ledger no slash has touched. *)
Definition untouched (m : ledger) : Prop :=
  ∀ id r, m !! id = Some r → (lr_Type r ∉ slash_types) ∧ ∀ p, p ∈ U → ¬ in_family p id.

Lemma untouched_book m : untouched m → book U 0 m.
Proof.
  intros Hm. split.
  - intros p Hp. exists Fresh. split; [|done]. change (stage_rows p Fresh) with (∅ : ledger).
    apply map_eq. intros id. rewrite lookup_empty. apply map_lookup_filter_None. destruct (m !! id) as [r|] eqn:Hr; [|by left].
    right. intros r' _. by apply (Hm id r).
  - intros id r Hr Ht. by destruct (Hm id r Hr).
Qed.

Lemma event_sim fin ev s g :
  db_wf s → book U fin (rows s) → store_trimmed g → 0 <= fin <= MaxInt64 → timely fin ev →
  ∃ s' g', event_step (s, g) ev = Some (s', g') ∧ db_wf s' ∧ book U (clock_step fin ev) (rows s') ∧ store_trimmed g' ∧
    0 <= clock_step fin ev <= MaxInt64.
Proof.
  intros Hwf Hb Hg Hfin Ht. destruct ev as [getBal p|re bh|re rec tx h|re req voter tx h|recs]; cbn [timely] in Ht; cbn [event_step clock_step].
  - destruct (slash_sim getBal p fin s Hwf Hb Ht) as (r & s' & -> & ? & ?). by exists s', g.
  - destruct (scan_sim re bh fin s Hwf Hb) as [? ?]; [lia|]. eexists _, g. split_and!; try done; lia.
  - destruct (reverse_sim re rec tx h fin h s Hwf Hb) as [? ?]; try lia. eexists _, g. split_and!; try done; lia.
  - pose proof (vote_sim cp election re req voter tx h fin s g Hwf Hb Hg) as Hv.
    destruct (handleSlashRestoreVote _ _ _ _ _ _ _ _ _) as [s' g']. destruct Hv as (? & ? & ?); try lia. by exists s', g'.
  - destruct (storeLedgerOrFail_spec recs s Hwf) as [Hwf' Hrows].
    { eapply Forall_impl; [exact Ht|]. by intros r [? _]. }
    exists (storeLedgerOrFail recs s), g. split_and!; try done; try lia. rewrite Hrows. by apply book_foreign.
Qed.

Lemma history_sim evs fin s g :
  db_wf s → book U fin (rows s) → store_trimmed g → 0 <= fin <= MaxInt64 → timed fin evs →
  ∃ s' g', slash_history evs (s, g) = Some (s', g') ∧ db_wf s' ∧ book U (foldl clock_step fin evs) (rows s') ∧ store_trimmed g' ∧
    0 <= foldl clock_step fin evs <= MaxInt64.
Proof.
  unfold slash_history. revert fin s g. induction evs as [|ev evs IH]; intros fin s g Hwf Hb Hg Hfin Ht; [by exists s, g|].
  destruct Ht as [Hev Ht]. destruct (event_sim fin ev s g Hwf Hb Hg Hfin Hev) as (s1 & g1 & Hstep & ? & ? & ? & ?).
  cbn [foldl mbind option_bind]. rewrite Hstep. by apply IH.
Qed.

(** What was taken, and where the ledger has it. *)
Definition taken (p : slash) (m : ledger) : Z :=
  from_option (λ r, - lr_Amount r) 0 (m !! debit_id (base_of p) (slash_acct p)).
Definition in_reserve (p : slash) (m : ledger) : Z := qsum (reserve_q p) m.
Definition in_window (p : slash) (m : ledger) : Z := qsum (pending_q p) m.
Definition given_back (p : slash) (m : ledger) : Z := qsum (returned_q p) m.

Lemma amounts_at p fin s st :
  db_wf s → p ∈ U → at_stage p fin s st → fin <= MaxInt64 →
  taken p (rows s) = stage_taken st ∧ in_reserve p (rows s) = stage_reserve st ∧
  in_window p (rows s) = stage_pending st ∧ given_back p (rows s) = stage_returned st.
Proof.
  intros Hwf Hp Hst Hfin. pose proof (U_ok U HU p Hp) as Hev. pose proof (at_heights _ _ _ _ Hst) as Hok.
  assert (keyed (rows s)) as Hk by by intros ? ? ?; eapply rows_keyed. destruct (Hst) as [Hf _].
  unfold in_reserve, in_window, given_back. split_and!.
  - unfold taken. change (debit_id (base_of p) (slash_acct p)) with (lr_Id (slash_debit p (slash_acct p) (stage_taken st))).
    destruct (decide (st = Fresh)) as [->|Hne].
    + rewrite <- (family_lookup p), Hf by apply debit_family. done.
    + rewrite (at_lookup p fin s st _ Hst (stage_has_debit p st Hne)). pose proof (stage_amounts fin p st Hok) as [? _].
      cbn [from_option slash_debit row lr_Amount]. rewrite i64_neg_exact; lia.
  - rewrite (qsum_family p), Hf by (done || by intros r [_ ?]%andb_true_iff). by apply (sum_reserve fin).
  - rewrite (qsum_family p), Hf by (done || by intros r [_ ?]%andb_true_iff). by apply (sum_pending fin).
  - rewrite (qsum_family p), Hf; [by apply (sum_returned fin)|done|]. intros r [_ [t ->]%HasPrefix_spec]%andb_true_iff.
    rewrite sapp_assoc. apply (in_family_ext p ("consensus_reverse#" +:+ t)).
Qed.

(** C11: the value of a slash is in one place.  Whatever the order of slashes, scans,
    requests carried by blocks, votes and other writes, with reads and writes that
    fail, the history goes through, and for every slash either all of what was
    taken is in the reserve or waiting to enter it and nothing was given back, or
    nothing of it is in the reserve or waiting and at most what was taken has been
    given back.  So undoing a slash never creates value, and a slash that is not
    undone is not lost. *)
Theorem slash_value_kept evs s g :
  db_wf s → untouched (rows s) → store_trimmed g → timed 0 evs →
  ∃ s' g', slash_history evs (s, g) = Some (s', g') ∧
    ∀ p, p ∈ U →
      let m := rows s' in
      0 <= taken p m <= MaxInt64 ∧
      ((in_reserve p m + in_window p m = taken p m ∧ given_back p m = 0) ∨
       (in_reserve p m = 0 ∧ in_window p m = 0 ∧ 0 <= given_back p m <= taken p m)).
Proof.
  intros Hwf Hm Hg Ht.
  destruct (history_sim evs 0 s g Hwf (untouched_book _ Hm) Hg ltac:(unfold_widths; lia) Ht) as (s' & g' & Hrun & Hwf' & Hb & _ & Hfin).
  exists s', g'. split; [done|]. intros p Hp. cbv zeta. destruct (book_stage _ _ _ Hb p Hp) as (st & Hst).
  destruct (amounts_at p _ s' st Hwf' Hp Hst ltac:(lia)) as (-> & -> & -> & ->). by apply (stage_amounts (foldl clock_step 0 evs) p), Hst.
Qed.

(** The proposal a vote on a slash belongs to. *)
Definition restore_id (req : restore_req) : string :=
  ProposalSlashRestore +:+ ":" +:+ TrimSpace (rq_Id req) +:+ ":" +:+ NormalizeAccount (rq_Account req).

(** The first vote finds the slash by its transaction. *)
Lemma resolve_slash p fin s st acct :
  db_wf s → book U fin (rows s) → p ∈ U → at_stage p fin s st → st ≠ Fresh → normalizeHiveAccount acct = slash_acct p →
  (∀ q, q ∈ U → sp_TxID q = sp_TxID p → q = p) →
  resolveSlashConsensusRowByTx (sp_TxID p) acct s = Some (slash_debit p (slash_acct p) (stage_taken st)).
Proof.
  intros Hwf Hb Hp Hst Hne Ha Huniq. unfold resolveSlashConsensusRowByTx. cbv zeta. rewrite Ha. apply smallest_unique.
  - apply elem_of_range; [done|]. split.
    + apply in_query_hit; try done. apply (stage_heights p (U_ok U HU p Hp)).
    + eexists. by eapply at_lookup; [exact Hst|apply stage_has_debit].
  - apply String.eqb_refl.
  - intros r Hr Htx%String.eqb_eq. destruct (debit_read _ fin s r Hwf Hb Hr) as (q & stq & Hq & Hstq & Hneq & _ & ->).
    pose proof (Huniq q Hq Htx) as ->. pose proof (at_lookup p fin s stq _ Hstq (stage_has_debit p stq Hneq)) as H1.
    pose proof (at_lookup p fin s st _ Hst (stage_has_debit p st Hne)) as H2.
    change (lr_Id (slash_debit p (slash_acct p) (stage_taken st))) with (lr_Id (slash_debit p (slash_acct p) (stage_taken stq))) in H2.
    congruence.
Qed.

Lemma lookup_proposal p fin s st g req h created :
  db_wf s → book U fin (rows s) → p ∈ U → at_stage p fin s st → st ≠ Fresh → (∀ q, q ∈ U → sp_TxID q = sp_TxID p → q = p) →
  let acct := NormalizeAccount (rq_Account req) in
  let prop := restore_proposal (restore_id req) (sp_TxID p) acct (slash_debit p (slash_acct p) (stage_taken st)) created in
  normalizeHiveAccount acct = slash_acct p →
  (GetProposal g (restore_id req) = None ∧ created = h ∨ GetProposal g (restore_id req) = Some prop) →
  from_option pr_CreationBlock h (GetProposal g (restore_id req)) = created ∧
  ∃ g', restore_lookup (restore_id req) (sp_TxID p) acct h s g = Some (prop, g') ∧ gs_votes g' = gs_votes g.
Proof.
  intros Hwf Hb Hp Hst Hne Huniq acct prop Ha Hor. unfold restore_lookup. destruct Hor as [[-> ->] | ->]; [|split; [done|by exists g]].
  split; [done|]. rewrite (resolve_slash p fin s st) by done. cbn [mbind option_bind].
  pose proof (stage_amounts fin p st (proj2 Hst)) as [Ham _].
  assert (0 < stage_taken st) as Hpos by (destruct Hst as [_ Hok]; destruct st; try done; cbn in Hok; cbn; lia).
  change (lr_Amount (slash_debit p (slash_acct p) (stage_taken st))) with (-64 (stage_taken st)).
  rewrite i64_neg_neg, (proj2 (Z.leb_gt _ 0)) by (unfold_widths; lia). by eexists.
Qed.

Lemma voters_votes v g g' id : gs_votes g' = gs_votes g → governanceVoterSet (RecordVote v g') id = governanceVoterSet (RecordVote v g) id.
Proof. intros E. unfold governanceVoterSet, GetVotes, RecordVote. destruct (String.eqb _ _); cbn [gs_votes]; by rewrite E. Qed.

(** Cancelling and crediting a waiting slash gives all of it back. *)
Lemma restore_waiting p fin s A rec tx h :
  db_wf s → book U fin (rows s) → p ∈ U → at_stage p fin s (Waiting A) → fin <= h <= MaxInt64 → 0 <= fin <= MaxInt64 →
  sp_BlockHeight p <= h < maturity_of p → TrimSpace (sr_SlashTxID rec) = sp_TxID p → TrimSpace (sr_EvidenceKind rec) = sp_EvidenceKind p →
  normalizeHiveAccount (sr_SlashedAccount rec) = slash_acct p → sr_Action rec = ReverseActionBoth → sr_Amount rec = A →
  let m := rows (applySafetySlashReverse false (Normalize rec) tx h s) in
  given_back p m = A ∧ taken p m = A ∧ in_window p m = 0 ∧ in_reserve p m = 0.
Proof.
  intros Hwf Hb Hp Hst Hh Hfin Hmat Htx Hkd Ha Hact Hamt.
  destruct (reverse_at p fin fin s (Waiting A) (Normalize rec) tx h) as (Hwf' & _ & Hst'); try done; try lia.
  { cbn [Normalize sr_SlashTxID]. by rewrite TrimSpace_idem. }
  { cbn [Normalize sr_EvidenceKind]. by rewrite TrimSpace_idem. }
  { by rewrite normalize_account. }
  { cbn [Normalize sr_Action]. rewrite Hact. vm_compute. reflexivity. }
  assert (request_stage p tx h (Normalize (Normalize rec)) (Waiting A) = Released A h (upsert (credit p tx h A) ∅)) as E.
  { unfold request_stage. cbn [Normalize sr_Action sr_Amount]. rewrite Hact, Hamt.
    change (TrimSpace (TrimSpace ReverseActionBoth)) with ReverseActionBoth. cbv zeta. rewrite !String.eqb_refl, !orb_true_r.
    destruct Hst as [_ Hok]. cbn in Hok. unfold cancel_stage. rewrite (proj2 (Z.leb_le _ _)) by lia. cbn [credit_stage].
    change (msum lr_Amount ∅) with 0. rewrite Z.sub_0_r, Z.min_id, (proj2 (Z.leb_gt A 0)) by lia. done. }
  rewrite E in Hst'. cbv zeta. destruct (amounts_at p fin _ _ Hwf' Hp Hst' ltac:(lia)) as (-> & -> & -> & ->).
  split_and!; try done. unfold stage_returned. cbn [stage_credits]. unfold upsert. rewrite msum_insert_None by done.
  change (msum lr_Amount ∅) with 0. cbn [credit row lr_Amount]. lia.
Qed.

(** A vote in time makes the bond whole.  Take the ledger after any history, a
    slash on it that is still waiting, and the vote that completes two thirds of the
    electorate of its proposal, before the proposal ends and the slash matures.
    Then all of what was taken is given back, nothing is waiting or in the reserve,
    and the proposal is applied. *)
Theorem restore_makes_whole evs s0 g0 s g p req voter tx h created e :
  db_wf s0 → untouched (rows s0) → store_trimmed g0 → timed 0 evs → slash_history evs (s0, g0) = Some (s, g) →
  p ∈ U → (∀ q, q ∈ U → sp_TxID q = sp_TxID p → q = p) → 0 < in_window p (rows s) →
  TrimSpace (rq_Id req) = sp_TxID p → normalizeHiveAccount (NormalizeAccount (rq_Account req)) = slash_acct p →
  clock evs <= h <= MaxInt64 → sp_BlockHeight p <= h < maturity_of p →
  let acct := NormalizeAccount (rq_Account req) in
  let debit := slash_debit p (slash_acct p) (taken p (rows s)) in
  (GetProposal g (restore_id req) = None ∧ created = h ∨
   GetProposal g (restore_id req) = Some (restore_proposal (restore_id req) (sp_TxID p) acct debit created)) →
  0 <= created <= h → h < created + GovernanceProposalExpiry cp <= MaxUint64 →
  governanceElectorate election created = Some e → governanceIsMember e (NormalizeAccount voter) = true →
  IsApproved e acct (governanceVoterSet (RecordVote (mkProposalVote (restore_id req) (NormalizeAccount voter) h tx) g) (restore_id req)) = true →
  let '(s', g') := handleSlashRestoreVote cp election false (Some req) voter tx h s g in
  given_back p (rows s') = taken p (rows s) ∧ taken p (rows s') = taken p (rows s) ∧
  in_window p (rows s') = 0 ∧ in_reserve p (rows s') = 0 ∧ pr_Status <$> GetProposal g' (restore_id req) = Some StatusApplied.
Proof.
  intros Hwf0 Hm Hg0 Ht Hrun Hp Huniq Hwin Htx Hacct Hh Hmat acct debit Hprop Hcr Hexp He Hmem Happ. subst acct.
  destruct (history_sim evs 0 s0 g0 Hwf0 (untouched_book _ Hm) Hg0 ltac:(unfold_widths; lia) Ht) as (s1 & g1 & Hrun' & Hwf & Hb & Hg & Hfin).
  rewrite Hrun in Hrun'. injection Hrun' as <- <-. fold (clock evs) in *.
  destruct (book_stage _ _ _ Hb p Hp) as (st & Hst).
  destruct (amounts_at p _ s st Hwf Hp Hst ltac:(lia)) as (HT & _ & HW & _).
  assert (st = Waiting (taken p (rows s))) as Hw by (rewrite HW in Hwin; destruct st; cbn in *; try lia; congruence).
  set (A := taken p (rows s)) in *. rewrite Hw in Hst. pose proof (U_ok U HU p Hp) as Hev. pose proof Hev as ((Hane & Htne & _) & _ & Htt & Htk & _).
  destruct (lookup_proposal p (clock evs) s (Waiting A) g req h created) as (Hsnap & g' & Hlk & Hvotes); try done.
  unfold handleSlashRestoreVote. cbv zeta. fold (restore_id req). rewrite Hsnap, He, Hmem, Htx, Hlk.
  assert (NormalizeAccount (rq_Account req) ≠ "") as Hne by (intros E; rewrite E in Hacct; apply Hane; symmetry; exact Hacct).
  rewrite (proj2 (String.eqb_neq (sp_TxID p) "")), (proj2 (String.eqb_neq (NormalizeAccount (rq_Account req)) "")) by congruence.
  cbn [orb negb]. change (stage_taken (Waiting A)) with A. fold debit. set (prop := restore_proposal _ _ _ _ _).
  change (pr_Status prop) with StatusOpen. cbn [negb String.eqb].
  assert (pr_EvidenceKind prop = sp_EvidenceKind p) as Hkd by by apply parse_debit.
  change (pr_SlashTxId prop) with (sp_TxID p). rewrite String.eqb_refl, Hkd, (maturity_read p (clock evs) s (Waiting A)) by done. cbn [negb].
  assert (IsExpired h (pr_CreationBlock prop) (GovernanceProposalExpiry cp) (maturity_of p) = false) as ->.
  { apply Z.leb_gt. unfold EffectiveExpiry, u64_add. cbv zeta. change (pr_CreationBlock prop) with created.
    rewrite wrapu64_id by (unfold_widths; lia). destruct (_ && _); lia. }
  change (pr_Beneficiary prop) with (NormalizeAccount (rq_Account req)). rewrite (voters_votes _ g g') by done. rewrite Happ. cbn [negb].
  match goal with |- context [Normalize ?r] => destruct (restore_waiting p (clock evs) s A r tx h) as (-> & -> & -> & ->) end; try done; try lia.
  - change (-64 (-64 A) = A). apply i64_neg_neg. destruct Hst as [_ Hok]. cbn in Hok. unfold_widths. lia.
  - split_and!; try done. unfold GetProposal, SaveProposal. cbn [gs_proposals]. by rewrite lookup_insert_eq.
Qed.
End sim.
End reads.
