(* ===== verification/PoaSeats.v ===== *)
(** Seats of the proof-of-authority committee: [modules/db/vsc/poaseats/],
    [modules/state-processing/poa_seats.go] and
    [modules/state-processing/poa_admission.go].

    A seat is given once, by the bootstrap of the registry or by a vote of two
    thirds of the seats, and never taken away.  The registry records when a seat
    was last in the committee and when it left it, which decides how long the bond
    of its operator is held.  The reads and writes of the maintenance and of the
    hold are retried until they succeed, so the model has their final answers; the
    reads of a vote are tried once, and a vote whose read fails is dropped. *)
From S2P Require Import Prelude GoMaps GoStrings ConsensusVersion Governance.

(** ** The registry *)

Record Seat := mkSeat {
  seat_Account : string;
  seat_UboId : string;
  AdmittedHeight : Z;
  AdmittedTxId : string;
  Bootstrap : bool;
  LastSeatedHeight : Z;
  ExitHeight : Z;
}.

(** One row per account. *)
Abbreviation registry := (gmap string Seat).

Definition Seated (s : Seat) : bool := (0 <? LastSeatedHeight s) && (ExitHeight s =? 0).

(** In the order of the accounts. *)
Definition GetSeatsAtHeight (r : registry) (height : Z) : list Seat :=
  omap (λ a, s ← r !! a; if AdmittedHeight s <=? height then Some s else None) (sorted_keys r).

Definition GetSeat (r : registry) (account : string) : option Seat :=
  let acct := NormalizeAccount account in if String.eqb acct "" then None else r !! acct.

(** The index on the owner is unique, so there is at most one. *)
Definition GetSeatByUbo (r : registry) (uboId : string) : option Seat :=
  if String.eqb uboId "" then None
  else snd ∘ snd <$> list_find (λ kv : string * Seat, seat_UboId kv.2 = uboId) (map_to_list r).

Inductive admit_err := ErrEmptyAccount | ErrHeightZero | ErrSeatExists | ErrUboExists.

Definition isDuplicateSeatErr (e : admit_err) : bool :=
  match e with ErrSeatExists | ErrUboExists => true | _ => false end.

(** The last check is the unique index on the account. *)
Definition AdmitSeat (seat : Seat) (r : registry) : admit_err + registry :=
  let acct := NormalizeAccount (seat_Account seat) in
  let seat := mkSeat acct (seat_UboId seat) (AdmittedHeight seat) (AdmittedTxId seat) (Bootstrap seat) (LastSeatedHeight seat) (ExitHeight seat) in
  if String.eqb acct "" then inl ErrEmptyAccount
  else if AdmittedHeight seat =? 0 then inl ErrHeightZero
  else if bool_decide (is_Some (GetSeat r acct)) then inl ErrSeatExists
  else if negb (String.eqb (seat_UboId seat) "") && bool_decide (is_Some (GetSeatByUbo r (seat_UboId seat))) then inl ErrUboExists
  else if bool_decide (is_Some (r !! acct)) then inl ErrSeatExists
  else inr (<[acct := seat]> r).

Definition with_seating (s : Seat) (height : Z) : Seat :=
  mkSeat (seat_Account s) (seat_UboId s) (AdmittedHeight s) (AdmittedTxId s) (Bootstrap s) height 0.

Definition with_exit (s : Seat) (height : Z) : Seat :=
  mkSeat (seat_Account s) (seat_UboId s) (AdmittedHeight s) (AdmittedTxId s) (Bootstrap s) (LastSeatedHeight s) height.

Definition SetSeating (account : string) (height : Z) (r : registry) : registry :=
  let acct := NormalizeAccount account in
  if String.eqb acct "" then r
  else
    match r !! acct with
    | Some s => if LastSeatedHeight s <=? height then <[acct := with_seating s height]> r else r
    | None => r
    end.

Definition SetExit (account : string) (height : Z) (r : registry) : registry :=
  let acct := NormalizeAccount account in
  if String.eqb acct "" then r
  else
    match r !! acct with
    | Some s => if (ExitHeight s =? 0) && (0 <? LastSeatedHeight s) then <[acct := with_exit s height]> r else r
    | None => r
    end.

(** A write that is retried: an error that is not a duplicate is retried for ever,
    and [None] is a call that does not return. *)
Definition admitOrBlock (seat : Seat) (r : registry) : option (bool * registry) :=
  match AdmitSeat seat r with
  | inr r => Some (true, r)
  | inl e => if isDuplicateSeatErr e then Some (false, r) else None
  end.

(** ** Maintenance after an election *)

(** The accounts of an election, without the empty one. *)
Definition member_set (el : ElectionResult) : gset string :=
  list_to_set (filter (λ a, a ≠ "") ((λ m, NormalizeAccount (em_Account m)) <$> el_Members el)).

Section maintenance.
Context (cp : ConsensusParams).
(** The announcement of an account below a height, if there is a witness
    database, and the two proofs of possession. *)
Context (witnessAt : option (string → Z → option Witness)) (popOk gwPopOk : Witness → bool).

Definition proves_keys (witnessAt : string → Z → option Witness) (height : Z) (acct : string) : bool :=
  match witnessAt acct height with
  | None => false
  | Some w => popOk w && gwPopOk w
  end.

Definition bootstrap_seat (current : gset string) (height : Z) (acct : string) : Seat :=
  mkSeat acct "" height "" true height (if bool_decide (acct ∈ current) then 0 else height).

(** The loop over the accounts. *)
Fixpoint seed_accounts (current : gset string) (height : Z) (accounts : list string) (r : registry) : option registry :=
  match accounts with
  | [] => Some r
  | acct :: accounts =>
      '(_, r) ← admitOrBlock (bootstrap_seat current height acct) r;
      seed_accounts current height accounts r
  end.

Definition below_min (members : gset string) : bool := (0 <? MinMembers cp) && (Z.of_nat (size members) <? MinMembers cp).

(** Whom the bootstrap seats; [None] is a refusal. *)
Definition seed_set (version : Version) (height : Z) (members : gset string) : option (gset string) :=
  if bool_decide (members = ∅) then None
  else if below_min members then None
  else
    match witnessAt with
    | Some wa =>
        if PoaBootstrapProvesKeysActive version then
          let proven := filter (λ a, proves_keys wa height a = true) members in
          if below_min proven then None else Some proven
        else Some members
    | None => Some members
    end.

Definition seedPoaSeats (version : Version) (height : Z) (members current : gset string) (r : registry) : option registry :=
  match seed_set version height members with
  | None => Some r
  | Some members => seed_accounts current height (sort_Strings (elements members)) r
  end.

(** The accounts the bootstrap starts from. *)
Definition bootstrap_members (elecResult : ElectionResult) (prevElection : option ElectionResult) (members : gset string) : gset string :=
  match prevElection with
  | Some prev =>
      if PoaBootstrapFromPriorCommitteeActive (ResultVersion elecResult) && negb (bool_decide (el_Members prev = []))
      then member_set prev else members
  | None => members
  end.

Definition bootstrapPoaSeats (elecResult : ElectionResult) (prevElection : option ElectionResult) (height : Z)
    (members : gset string) (r : registry) : option registry :=
  seedPoaSeats (ResultVersion elecResult) height (bootstrap_members elecResult prevElection members) members r.

(** One round of the loop over the seats. *)
Definition maintain_seat (members : gset string) (height : Z) (r : registry) (seat : Seat) : registry :=
  if bool_decide (seat_Account seat ∈ members) then SetSeating (seat_Account seat) height r
  else SetExit (seat_Account seat) height r.

Definition applyPoaSeatMaintenance (elecResult : ElectionResult) (prevElection : option ElectionResult) (height : Z)
    (r : registry) : option registry :=
  if negb (PoaSeatGateActive (ResultVersion elecResult)) then Some r
  else
    let members := member_set elecResult in
    let seats := GetSeatsAtHeight r height in
    let prevKnownBelowPoa := from_option (λ prev, negb (PoaSeatGateActive (ResultVersion prev))) false prevElection in
    if prevKnownBelowPoa then bootstrapPoaSeats elecResult prevElection height members r
    else if bool_decide (seats = []) then
      match prevElection with
      | None => bootstrapPoaSeats elecResult None height members r
      | Some _ => Some r
      end
    else Some (foldl (maintain_seat members height) r seats).
End maintenance.

(** ** Holding the bond *)

Section halt.
Context (cp : ConsensusParams) (active : Z → Version).
(** [GetWitnessesAtBlockHeight] of the enabled ones, and [GetWitnessAtHeight]. *)
Context (enabledWitnesses : Z → list Witness) (witnessAt : string → Z → option Witness).

Definition isElectableWitness (account : string) (height : Z) : bool :=
  existsb (λ w, String.eqb (NormalizeAccount (wt_Account w)) (NormalizeAccount account)) (enabledWitnesses height).

Definition hadRecentWitnessActivity (account : string) (height window : Z) : bool :=
  match witnessAt (NormalizeAccount account) height with
  | None => false
  | Some w => height -u64 wt_Height w <? window
  end.

(** Whether the bond is held, the height of its release, and whether there is
    one. *)
Definition poaExitHalt (r : registry) (account : string) (height : Z) : bool * Z * bool :=
  if negb (PoaExitHaltActive (active height)) then (false, 0, false)
  else
    match GetSeat r account with
    | None => (false, 0, false)
    | Some seat =>
        let window := EffectivePoaExitHalt cp in
        if isElectableWitness account height then (true, 0, false)
        else if hadRecentWitnessActivity account height window then (true, 0, false)
        else if LastSeatedHeight seat =? 0 then
          let release := AdmittedHeight seat +u64 window in
          if release <? AdmittedHeight seat then (true, 0, false) else (height <? release, release, true)
        else if ExitHeight seat =? 0 then (true, 0, false)
        else
          let release := ExitHeight seat +u64 window in
          if release <? ExitHeight seat then (true, 0, false) else (height <? release, release, true)
    end.

Definition IsPoaExitHalted (r : registry) (account : string) (height : Z) : bool := (poaExitHalt r account height).1.1.
End halt.

(** ** Admission *)

Definition seatHoldsAdmissionVote (s : Seat) (height window : Z) : bool :=
  let within from := let stop := from +u64 window in if stop <? from then true else height <? stop in
  if ExitHeight s =? 0 then
    if 0 <? LastSeatedHeight s then true else within (AdmittedHeight s)
  else within (ExitHeight s).

Definition canonicalUboId (raw : string) : string := ToLower (TrimSpace raw).

Fixpoint chars_ok (ok : nat → Ascii.ascii → bool) (i : nat) (s : string) : bool :=
  match s with
  | "" => true
  | String c s => ok i c && chars_ok ok (S i) s
  end.

Definition isPlausibleHiveAccount (a : string) : bool :=
  if (slen a <? 3)%nat || (16 <? slen a)%nat then false
  else chars_ok (λ i c,
         let n := Ascii.nat_of_ascii c in
         if (97 <=? n)%nat && (n <=? 122)%nat || (48 <=? n)%nat && (n <=? 57)%nat then true
         else if (n =? 45)%nat || (n =? 46)%nat then negb ((i =? 0)%nat || (i =? slen a - 1)%nat)
         else false) 0 a.

Definition isPlausibleUboId (u : string) : bool :=
  if (slen u =? 0)%nat || (128 <? slen u)%nat then false
  else chars_ok (λ _ c, let n := Ascii.nat_of_ascii c in negb ((n <=? 32)%nat || (127 <=? n)%nat)) 0 u.

Section admission.
Context (sha256hex : string → string) (cp : ConsensusParams) (netId : string) (active : Z → Version).

Definition poaSeatElectorate (readOk : bool) (r : registry) (height : Z) : option (list Member) :=
  let seats := GetSeatsAtHeight r height in
  if negb readOk then None
  else if bool_decide (seats = []) then None
  else
    let dropDeparted := PoaElectorateDropsDepartedActive (active height) in
    let departure := EffectivePoaVoteDeparture cp in
    let accounts := omap (λ s, if dropDeparted && negb (seatHoldsAdmissionVote s height departure) then None
                               else Some (NormalizeAccount (seat_Account s))) seats in
    if bool_decide (accounts = []) then None else Some (SeatElectorate accounts).

(** The payload of a vote, as decoded. *)
Record admit_req := mkAdmitReq {
  aq_Candidate : string;
  aq_UboId : string;
  aq_NetId : string;
}.

(** Whether the reads of a vote succeed: the electorate of the height, the seat of
    the candidate, the seat of the owner, the electorate of the proposal. *)
Record admit_io := mkAdmitIo {
  io_electorate : bool;
  io_seat : bool;
  io_ubo : bool;
  io_snapshot : bool;
}.

Definition open_admission (id candidate uboId : string) (height : Z) : Proposal :=
  mkProposal id ProposalAdmitSeat StatusOpen height candidate 0 "" "" "" "" "" "" candidate uboId 0.

(** The vote on a proposal of the store. *)
Definition admit_tally (io : admit_io) (prop : Proposal) (voter txID : string) (height : Z) (r : registry) (g : gov_store)
    : option (registry * gov_store) :=
  match poaSeatElectorate (io_snapshot io) r (pr_CreationBlock prop) with
  | None => Some (r, g)
  | Some snapshot =>
      if negb (governanceIsMember snapshot voter) then Some (r, g)
      else
        let g := RecordVote (mkProposalVote (pr_Id prop) voter height txID) g in
        let voters := if PoaAdmissionReopenActive (active height)
                      then governanceVoterSetSince g (pr_Id prop) (pr_CreationBlock prop)
                      else governanceVoterSet g (pr_Id prop) in
        if negb (IsApproved snapshot (pr_Beneficiary prop) voters) then Some (r, g)
        else
          '(ok, r) ← admitOrBlock (mkSeat (pr_Candidate prop) (pr_UboId prop) height txID false 0 0) r;
          if ok : bool then Some (r, SaveProposal (set_applied prop height txID) g) else Some (r, g)
  end.

(** The vote after the candidate has been checked. *)
Definition admit_vote (io : admit_io) (candidate uboId voter txID : string) (height : Z) (r : registry) (g : gov_store)
    : option (registry * gov_store) :=
  let id := AdmitSeatProposalID sha256hex candidate uboId in
  let '(prop, g) :=
    match GetProposal g id with
    | Some prop => (prop, g)
    | None => let prop := open_admission id candidate uboId height in (prop, SaveProposal prop g)
    end in
  if negb (String.eqb (pr_Type prop) ProposalAdmitSeat) then Some (r, g)
  else
    let reopen := PoaAdmissionReopenActive (active height) in
    let window := EffectivePoaAdmitVoteWindow cp in
    let roundOver := String.eqb (pr_Status prop) StatusExpired
                     || String.eqb (pr_Status prop) StatusOpen && IsExpired height (pr_CreationBlock prop) window 0 in
    let '(prop, g) := if reopen && roundOver then let prop := set_round prop height in (prop, SaveProposal prop g) else (prop, g) in
    if negb (String.eqb (pr_Status prop) StatusOpen) then Some (r, g)
    else if IsExpired height (pr_CreationBlock prop) window 0 then Some (r, SaveProposal (set_status prop StatusExpired) g)
    else admit_tally io prop voter txID height r g.

Definition handleAdmitVote (io : admit_io) (req : option admit_req) (voterAccount txID : string) (height : Z) (r : registry) (g : gov_store)
    : option (registry * gov_store) :=
  match req with
  | None => Some (r, g)
  | Some req =>
      if negb (String.eqb (aq_NetId req) netId) then Some (r, g)
      else
        let candidate := NormalizeAccount (aq_Candidate req) in
        let uboId := canonicalUboId (aq_UboId req) in
        if String.eqb candidate "" then Some (r, g)
        else if negb (isPlausibleHiveAccount candidate) then Some (r, g)
        else if negb (isPlausibleUboId uboId) then Some (r, g)
        else if String.eqb uboId "" then Some (r, g)
        else
          let voter := NormalizeAccount voterAccount in
          match poaSeatElectorate (io_electorate io) r height with
          | None => Some (r, g)
          | Some electorate =>
              if negb (governanceIsMember electorate voter) then Some (r, g)
              else if negb (io_seat io) || bool_decide (is_Some (GetSeat r candidate)) then Some (r, g)
              else if negb (io_ubo io) || bool_decide (is_Some (GetSeatByUbo r uboId)) then Some (r, g)
              else admit_vote io candidate uboId voter txID height r g
          end
  end.
End admission.

(** ** Lemmas: names *)

Lemma chars_ok_allc ok f i s : (∀ i c, ok i c = true → f c = true) → chars_ok ok i s = true → allc f s = true.
Proof.
  intros Hf. revert i. induction s as [|c s IH]; intros i; [done|]. cbn [chars_ok allc].
  intros [Hc Hs]%andb_true_iff. rewrite (Hf i c Hc). by apply (IH (S i)).
Qed.

(** Lower-case letters, digits, dashes and dots. *)
Definition name_char (c : Ascii.ascii) : bool :=
  let n := Ascii.nat_of_ascii c in
  (97 <=? n)%nat && (n <=? 122)%nat || (48 <=? n)%nat && (n <=? 57)%nat || (n =? 45)%nat || (n =? 46)%nat.

Definition printable_char (c : Ascii.ascii) : bool := let n := Ascii.nat_of_ascii c in (33 <=? n)%nat && (n <=? 126)%nat.

Lemma plausible_chars a : isPlausibleHiveAccount a = true → allc name_char a = true ∧ a ≠ "".
Proof.
  unfold isPlausibleHiveAccount. destruct (_ || _) eqn:El; [done|]. intros Hc. split.
  - revert Hc. apply chars_ok_allc. intros i c. unfold name_char. cbv zeta.
    destruct (_ && _ || _ && _) eqn:E1; [done|]. cbn [orb].
    by destruct (Ascii.nat_of_ascii c =? 45)%nat, (Ascii.nat_of_ascii c =? 46)%nat.
  - intros ->. done.
Qed.

Lemma ubo_chars u : isPlausibleUboId u = true → allc printable_char u = true ∧ u ≠ "".
Proof.
  unfold isPlausibleUboId. destruct (_ || _) eqn:El; [done|]. intros Hc. split; [|by intros ->].
  revert Hc. apply chars_ok_allc. intros i c. cbv zeta. unfold printable_char. intros Hn%negb_true_iff.
  apply orb_false_iff in Hn as [H1%Nat.leb_gt H2%Nat.leb_gt]. apply andb_true_iff. rewrite !Nat.leb_le. lia.
Qed.

Lemma ToLower_names a : allc name_char a = true → ToLower a = a.
Proof.
  induction a as [|c a IH]; [done|]. cbn [allc ToLower]. intros [Hc Ha]%andb_true_iff. rewrite IH by done. f_equal.
  destruct c as [[] [] [] [] [] [] [] []]; (done || by vm_compute in Hc).
Qed.

(** An account as Hive has it is its own normal form. *)
Lemma normalize_names a : allc name_char a = true → NormalizeAccount a = a.
Proof.
  intros Ha. assert (∀ w, w ∈ space_encodings → allc name_char w = false) as Hw.
  { apply Forall_forall. by apply (bool_decide_eq_true_1 _). }
  unfold NormalizeAccount. rewrite (TrimSpace_allc name_char a Hw Ha), ToLower_names by done.
  unfold TrimPrefix. destruct (HasPrefix a "hive:") eqn:Hp; [|done]. exfalso.
  apply HasPrefix_spec in Hp as [t ->]. rewrite allc_app in Ha. by apply andb_true_iff in Ha as [Ha _].
Qed.

Lemma trim_ubo u : allc printable_char u = true → TrimSpace u = u.
Proof. apply TrimSpace_allc. apply Forall_forall. by apply (bool_decide_eq_true_1 _). Qed.

Lemma nul_free f a : f Ascii.zero = false → allc f a = true → nochar Ascii.zero a = true.
Proof.
  intros Hz Ha. rewrite nochar_allc. revert Ha. apply allc_mono. intros c Hc.
  destruct (Ascii.eqb_spec c Ascii.zero) as [->|]; [congruence|done].
Qed.

(** The separator makes the id of a pair unambiguous. *)
Lemma pair_inj a b x y :
  nochar Ascii.zero a = true → nochar Ascii.zero b = true → a +:+ nul +:+ x = b +:+ nul +:+ y → a = b ∧ x = y.
Proof. unfold nul. rewrite !sapp_cons, !sapp_nil_l. apply sep_inj_left. Qed.

(** ** Lemmas: the registry only grows *)

(** What an admission fixes for ever. *)
Definition same_seat (s s' : Seat) : Prop :=
  seat_Account s' = seat_Account s ∧ seat_UboId s' = seat_UboId s ∧ AdmittedHeight s' = AdmittedHeight s ∧
  AdmittedTxId s' = AdmittedTxId s ∧ Bootstrap s' = Bootstrap s.

#[export] Instance same_seat_preorder : PreOrder same_seat.
Proof. split; [done|]. intros s1 s2 s3 (?&?&?&?&?) (?&?&?&?&?). repeat split; congruence. Qed.

Definition grows (r r' : registry) : Prop := ∀ a s, r !! a = Some s → ∃ s', r' !! a = Some s' ∧ same_seat s s'.

#[export] Instance grows_preorder : PreOrder grows.
Proof.
  split; [by intros r a s Hs; exists s|]. intros r1 r2 r3 H12 H23 a s (s2 & Hs2 & Heq)%H12.
  apply H23 in Hs2 as (s3 & Hs3 & Heq'). exists s3. split; [done|by trans s2].
Qed.

(** The seats of [r'] that [r] did not have satisfy [P]. *)
Definition adds (P : string → Seat → Prop) (r r' : registry) : Prop :=
  ∀ a s', r' !! a = Some s' → (∃ s, r !! a = Some s ∧ same_seat s s') ∨ P a s'.

Lemma adds_trans P r1 r2 r3 :
  (∀ a s s', same_seat s s' → P a s → P a s') → adds P r1 r2 → adds P r2 r3 → adds P r1 r3.
Proof.
  intros HP H12 H23 a s3 [(s2 & Hs2 & Heq)|]%H23; [|by right].
  apply H12 in Hs2 as [(s1 & Hs1 & Heq1)|]; [left; exists s1; split; [done|by trans s2]|right; by eapply HP].
Qed.

Lemma adds_weaken (P Q : string → Seat → Prop) r r' : (∀ a s, P a s → Q a s) → adds P r r' → adds Q r r'.
Proof. intros HPQ Ha a s [|]%Ha; auto. Qed.

(** One row per account, and an owner has at most one. *)
Record registry_ok (r : registry) : Prop := mkRegistryOk {
  rk_key : ∀ a s, r !! a = Some s → seat_Account s = a ∧ a ≠ "" ∧ AdmittedHeight s ≠ 0;
  rk_ubo : ∀ a b s t, r !! a = Some s → r !! b = Some t → seat_UboId s = seat_UboId t → seat_UboId s ≠ "" → a = b;
}.

Lemma GetSeatByUbo_None r u : u ≠ "" → GetSeatByUbo r u = None ↔ ∀ a s, r !! a = Some s → seat_UboId s ≠ u.
Proof.
  intros Hu. unfold GetSeatByUbo. rewrite (proj2 (String.eqb_neq u "")) by done.
  rewrite fmap_None, list_find_None, Forall_forall. split.
  - intros H a s Hs. apply (H (a, s)). by apply elem_of_map_to_list.
  - intros H [a s] Hs%elem_of_map_to_list. by apply (H a s).
Qed.

(** The row as stored. *)
Definition stored_seat (seat : Seat) : Seat :=
  mkSeat (NormalizeAccount (seat_Account seat)) (seat_UboId seat) (AdmittedHeight seat) (AdmittedTxId seat) (Bootstrap seat)
    (LastSeatedHeight seat) (ExitHeight seat).

Lemma AdmitSeat_inr seat r r' :
  AdmitSeat seat r = inr r' →
  let acct := NormalizeAccount (seat_Account seat) in
  acct ≠ "" ∧ AdmittedHeight seat ≠ 0 ∧ r !! acct = None ∧
  (seat_UboId seat ≠ "" → ∀ a s, r !! a = Some s → seat_UboId s ≠ seat_UboId seat) ∧ r' = <[acct := stored_seat seat]> r.
Proof.
  intros H acct. unfold AdmitSeat in H. cbn in H. fold acct in H. destruct (String.eqb_spec acct ""); [done|].
  destruct (Z.eqb_spec (AdmittedHeight seat) 0); [done|]. destruct (bool_decide (is_Some (GetSeat r acct))); [done|].
  destruct (negb _ && _) eqn:Hu; [done|]. case_bool_decide as Hn; [done|]. injection H as <-.
  repeat split; [done|done|by apply eq_None_not_Some|].
  intros Hne. apply (GetSeatByUbo_None r (seat_UboId seat)); [done|].
  rewrite (proj2 (String.eqb_neq (seat_UboId seat) "")) in Hu by done. cbn [negb andb] in Hu.
  by apply bool_decide_eq_false, eq_None_not_Some in Hu.
Qed.

(** A write that returns has admitted the seat, or had it already. *)
Lemma admitOrBlock_Some seat r ok r' :
  admitOrBlock seat r = Some (ok, r') → if ok then AdmitSeat seat r = inr r' else r' = r.
Proof. unfold admitOrBlock. destruct (AdmitSeat seat r) as [e|]; [destruct (isDuplicateSeatErr e)|]; naive_solver. Qed.

(** What every write keeps: the rows there are, the invariant, and that a new row
    satisfies [P]. *)
Definition step_ok (P : string → Seat → Prop) (r r' : registry) : Prop :=
  grows r r' ∧ adds P r r' ∧ (registry_ok r → registry_ok r').

Lemma step_refl P r : step_ok P r r.
Proof. split; [done|]. split; [|done]. intros a s Hs. left. by exists s. Qed.

Lemma step_trans P r1 r2 r3 : (∀ a s s', same_seat s s' → P a s → P a s') → step_ok P r1 r2 → step_ok P r2 r3 → step_ok P r1 r3.
Proof. intros HP (?&?&?) (?&?&?). split; [by trans r2|]. split; [by eapply adds_trans|auto]. Qed.

Lemma step_weaken (P Q : string → Seat → Prop) r r' : (∀ a s, P a s → Q a s) → step_ok P r r' → step_ok Q r r'.
Proof. intros HPQ (?&?&?). split; [done|]. split; [by eapply adds_weaken|done]. Qed.

Lemma admit_step seat r ok r' :
  admitOrBlock seat r = Some (ok, r') → step_ok (λ _ s, ok = true ∧ s = stored_seat seat) r r'.
Proof.
  intros H%admitOrBlock_Some. destruct ok; [|subst; apply step_refl].
  apply AdmitSeat_inr in H as (Hne & Hh & Hnone & Hubo & ->). split; [|split].
  - intros a s Hs. exists s. split; [|done]. rewrite lookup_insert_ne; [done|congruence].
  - intros a s [[<- <-]|[Hn Hs]]%lookup_insert_Some; [by right|left; by exists s].
  - intros [Hk Hu]. split.
    + intros a s [[<- <-]|[Hn Hs]]%lookup_insert_Some; [done|by apply Hk].
    + intros a b s t Hs Ht. apply lookup_insert_Some in Hs as [[<- <-]|[Hn Hs]], Ht as [[<- <-]|[Hn' Ht]]; [done|..|by apply Hu].
      * intros E E'. by destruct (Hubo E' b t Ht).
      * intros E E'. rewrite E in E'. by destruct (Hubo E' a s Hs).
Qed.

(** A change of the clocks of one row. *)
Lemma clock_step P r a s s' : r !! a = Some s → same_seat s s' → step_ok P r (<[a := s']> r).
Proof.
  intros Hs Heq. assert (∀ b t, <[a := s']> r !! b = Some t → ∃ t', r !! b = Some t' ∧ same_seat t' t) as Hback.
  { intros b t [[<- <-]|[Hn Ht]]%lookup_insert_Some; [by exists s|by exists t]. }
  split; [|split].
  - intros b t Ht. destruct (decide (a = b)) as [<-|Hn]; [rewrite lookup_insert_eq; exists s'; split; [done|congruence]|].
    rewrite lookup_insert_ne by done. by exists t.
  - intros b t Ht. left. by apply Hback.
  - intros [Hk Hu]. split.
    + intros b t (t' & Ht' & E1 & E2 & E3 & _)%Hback. destruct (Hk b t' Ht') as (? & ? & ?). repeat split; congruence.
    + intros b c t u (t' & Ht' & Et)%Hback (u' & Hu' & Eu)%Hback. destruct Et as (_&->&_), Eu as (_&->&_). by apply Hu.
Qed.

Lemma SetSeating_step P a h r : step_ok P r (SetSeating a h r).
Proof.
  unfold SetSeating. cbv zeta. destruct (String.eqb _ _); [apply step_refl|].
  destruct (r !! _) as [s|] eqn:Hs; [|apply step_refl]. destruct (_ <=? _); [by eapply clock_step|apply step_refl].
Qed.

Lemma SetExit_step P a h r : step_ok P r (SetExit a h r).
Proof.
  unfold SetExit. cbv zeta. destruct (String.eqb _ _); [apply step_refl|].
  destruct (r !! _) as [s|] eqn:Hs; [|apply step_refl]. destruct (_ && _); [by eapply clock_step|apply step_refl].
Qed.

(** ** Lemmas: elections *)

Definition from_bootstrap (_ : string) (s : Seat) : Prop := Bootstrap s = true.

Lemma bootstrap_same a s s' : same_seat s s' → from_bootstrap a s → from_bootstrap a s'.
Proof. unfold from_bootstrap. intros (_&_&_&_&->). done. Qed.

Lemma seed_step cur h l r r' : seed_accounts cur h l r = Some r' → step_ok from_bootstrap r r'.
Proof.
  revert r. induction l as [|a l IH]; intros r H; cbn in H; [injection H as <-; apply step_refl|].
  destruct (admitOrBlock _ r) as [[ok r1]|] eqn:E; [|done]. cbn in H. apply (step_trans _ r r1); [apply bootstrap_same|..|by apply IH].
  eapply step_weaken; [|by eapply admit_step]. by intros ? s [_ ->].
Qed.

Section elections.
Context (cp : ConsensusParams) (witnessAt : option (string → Z → option Witness)) (popOk gwPopOk : Witness → bool).

Lemma bootstrap_step el prev h ms r r' :
  bootstrapPoaSeats cp witnessAt popOk gwPopOk el prev h ms r = Some r' → step_ok from_bootstrap r r'.
Proof.
  unfold bootstrapPoaSeats, seedPoaSeats. destruct (seed_set _ _ _ _ _ _ _); [apply seed_step|].
  intros [= <-]. apply step_refl.
Qed.

Lemma maintain_step P ms h seats r :
  (∀ a s s', same_seat s s' → P a s → P a s') → step_ok P r (foldl (maintain_seat ms h) r seats).
Proof.
  intros HP. revert r. induction seats as [|s seats IH]; intros r; [apply step_refl|]. cbn [foldl].
  eapply step_trans; [apply HP| |apply IH]. unfold maintain_seat.
  case_bool_decide; [apply SetSeating_step|apply SetExit_step].
Qed.

Lemma maintenance_step el prev h r r' :
  applyPoaSeatMaintenance cp witnessAt popOk gwPopOk el prev h r = Some r' → step_ok from_bootstrap r r'.
Proof.
  unfold applyPoaSeatMaintenance. cbv zeta. destruct (negb _); [intros [= <-]; apply step_refl|].
  destruct (from_option _ _ _); [apply bootstrap_step|].
  destruct (bool_decide (_ = [])); [destruct prev; [intros [= <-]; apply step_refl|apply bootstrap_step]|].
  intros [= <-]. apply maintain_step, bootstrap_same.
Qed.

End elections.

Lemma grows_lookup r r' a : grows r r' → is_Some (r !! a) → is_Some (r' !! a).
Proof. intros Hg [s (s' & Hs' & _)%Hg]. by exists s'. Qed.

(** An admission of the bootstrap that has been made is made again for nothing. *)
Lemma admit_again cur h a r ok r' r2 :
  admitOrBlock (bootstrap_seat cur h a) r = Some (ok, r') → grows r' r2 →
  admitOrBlock (bootstrap_seat cur h a) r2 = Some (false, r2).
Proof.
  intros H Hg. unfold admitOrBlock, AdmitSeat in *. cbn in *. set (k := NormalizeAccount a) in *.
  destruct (String.eqb k "") eqn:Ek; [done|]. destruct (h =? 0); [done|].
  destruct (decide (is_Some (GetSeat r2 k))) as [Hs2|Hs2]; [by rewrite bool_decide_eq_true_2|].
  rewrite (bool_decide_eq_false_2 _ Hs2). rewrite bool_decide_eq_true_2; [done|].
  case_bool_decide as Hseat; cbn in H; [injection H as _ <-; destruct Hs2|].
  - revert Hseat. unfold GetSeat. destruct (String.eqb (NormalizeAccount k) ""); [by intros [? ?]|]. by apply grows_lookup.
  - case_bool_decide as Hin; injection H as _ <-; [by eapply grows_lookup|].
    eapply grows_lookup; [done|]. by rewrite lookup_insert_eq.
Qed.

Lemma seed_app cur h l1 l2 r : seed_accounts cur h (l1 ++ l2) r = seed_accounts cur h l1 r ≫= seed_accounts cur h l2.
Proof.
  revert r. induction l1 as [|a l1 IH]; intros r; [done|]. cbn.
  destruct (admitOrBlock _ r) as [[ok r1]|]; [cbn; apply IH|done].
Qed.

Lemma seed_again cur h l r r' r2 : seed_accounts cur h l r = Some r' → grows r' r2 → seed_accounts cur h l r2 = Some r2.
Proof.
  revert r. induction l as [|a l IH]; intros r H Hg; [done|]. cbn in H |- *.
  destruct (admitOrBlock _ r) as [[ok r1]|] eqn:E; [|done]. cbn in H.
  rewrite (admit_again cur h a r ok r1 r2) by (done || (trans r'; [|done]; by apply seed_step in H as [? _])).
  cbn. by apply (IH r1).
Qed.

Lemma admit_returns cur h a r :
  h ≠ 0 → NormalizeAccount a = a → a ≠ "" → ∃ ok r', admitOrBlock (bootstrap_seat cur h a) r = Some (ok, r') ∧ is_Some (r' !! a).
Proof.
  intros Hh Hn Ha. unfold admitOrBlock, AdmitSeat. cbn. rewrite Hn, (proj2 (String.eqb_neq a "")), (proj2 (Z.eqb_neq h 0)) by done.
  unfold GetSeat. rewrite Hn, (proj2 (String.eqb_neq a "")) by done.
  destruct (decide (is_Some (r !! a))) as [Hs|Hs]; [rewrite bool_decide_eq_true_2 by done; by eexists _, _|].
  rewrite bool_decide_eq_false_2 by done. cbn. eexists _, _. split; [done|].
  by rewrite lookup_insert_eq.
Qed.

Lemma seed_returns cur h l r :
  h ≠ 0 → (∀ a, a ∈ l → NormalizeAccount a = a ∧ a ≠ "") →
  ∃ r', seed_accounts cur h l r = Some r' ∧ ∀ a, a ∈ l → is_Some (r' !! a).
Proof.
  intros Hh. revert r. induction l as [|a l IH]; intros r Hl; [exists r; split; [done|set_solver]|].
  destruct (Hl a ltac:(set_solver)) as [Hn Ha]. destruct (admit_returns cur h a r Hh Hn Ha) as (ok & r1 & E & Hr1).
  destruct (IH r1 ltac:(set_solver)) as (r' & Hr' & Hin). exists r'. cbn. rewrite E. split; [done|].
  intros b [->|Hb]%elem_of_cons; [|by apply Hin]. apply seed_step in Hr' as [Hg _]. by eapply grows_lookup.
Qed.

(** ** Lemmas: the clocks of a seat *)

(** Every key is its own normal form. *)
Definition names_ok (r : registry) : Prop := ∀ a, is_Some (r !! a) → NormalizeAccount a = a ∧ a ≠ "".

(** The row of a seat after an election. *)
Definition maintained (ms : gset string) (h : Z) (s : Seat) : Seat :=
  if bool_decide (seat_Account s ∈ ms) then if LastSeatedHeight s <=? h then with_seating s h else s
  else if (ExitHeight s =? 0) && (0 <? LastSeatedHeight s) then with_exit s h else s.

Lemma maintain_one ms h r s a t :
  NormalizeAccount (seat_Account s) = seat_Account s → seat_Account s ≠ "" → r !! a = Some t → seat_Account t = a →
  maintain_seat ms h r s !! a = Some (if decide (seat_Account s = a) then maintained ms h t else t).
Proof.
  intros Hn Hne Ht Hta. unfold maintain_seat, SetSeating, SetExit. cbv zeta.
  rewrite !Hn, (proj2 (String.eqb_neq (seat_Account s) "")) by done.
  destruct (decide (seat_Account s = a)) as [->|Hd].
  - unfold maintained. rewrite Ht, Hta. case_bool_decide; [destruct (_ <=? _)|destruct (_ && _)];
      first [by rewrite lookup_insert_eq|done].
  - case_bool_decide; (destruct (r !! seat_Account s); [case_match|]); rewrite ?lookup_insert_ne by done; done.
Qed.

Lemma maintained_Account ms h s : seat_Account (maintained ms h s) = seat_Account s.
Proof. unfold maintained. by repeat case_match. Qed.

Lemma maintain_others ms h l r a t :
  (∀ s, s ∈ l → NormalizeAccount (seat_Account s) = seat_Account s ∧ seat_Account s ≠ "" ∧ seat_Account s ≠ a) →
  r !! a = Some t → seat_Account t = a → foldl (maintain_seat ms h) r l !! a = Some t.
Proof.
  revert r. induction l as [|s l IH]; intros r Hl Ht Hta; [done|]. cbn [foldl].
  destruct (Hl s ltac:(set_solver)) as (Hn & Hne & Hd). apply IH; [set_solver| |done].
  rewrite (maintain_one ms h r s a t) by done. by rewrite decide_False.
Qed.

Lemma seats_elem r h s : s ∈ GetSeatsAtHeight r h ↔ ∃ a, r !! a = Some s ∧ AdmittedHeight s <= h.
Proof.
  unfold GetSeatsAtHeight. rewrite list_elem_of_omap. split.
  - intros (a & _ & Hs). exists a. destruct (r !! a) as [t|]; [|done]. cbn in Hs.
    destruct (Z.leb_spec (AdmittedHeight t) h); [|done]. by injection Hs as ->.
  - intros (a & Hs & Hle). exists a. split; [apply sorted_keys_elem; by exists s|]. rewrite Hs. cbn.
    by rewrite (proj2 (Z.leb_le _ _)).
Qed.

Lemma omap_split {A B} (f : A → option B) l y :
  y ∈ omap f l → ∃ l1 x l2, l = l1 ++ x :: l2 ∧ f x = Some y ∧ omap f l = omap f l1 ++ y :: omap f l2.
Proof.
  intros (x & Hx & Hf)%list_elem_of_omap. apply list_elem_of_split in Hx as (l1 & l2 & ->). exists l1, x, l2.
  split; [done|]. split; [done|]. rewrite omap_app. cbn. by rewrite Hf.
Qed.

Lemma omap_length_le {A B} (f : A → option B) l : (length (omap f l) <= length l)%nat.
Proof. induction l as [|x l IH]; [done|]. cbn. destruct (f x); cbn; lia. Qed.

Lemma maintain_lookup ms h r a s :
  registry_ok r → names_ok r → r !! a = Some s → AdmittedHeight s <= h →
  foldl (maintain_seat ms h) r (GetSeatsAtHeight r h) !! a = Some (maintained ms h s).
Proof.
  intros Hok Hn Hs Hle. assert (∀ b t, r !! b = Some t → seat_Account t = b) as Hk by (intros b t Ht; by apply (rk_key r Hok)).
  pose proof (sorted_keys_NoDup r) as Hnd. unfold GetSeatsAtHeight.
  assert (s ∈ GetSeatsAtHeight r h) as Hin by (apply seats_elem; eauto). unfold GetSeatsAtHeight in Hin.
  apply omap_split in Hin as (l1 & b & l2 & Hl & Hb & ->). rewrite Hl in Hnd.
  assert (b = a) as ->.
  { destruct (r !! b) as [t|] eqn:Ht; [|done]. cbn in Hb. destruct (_ <=? _); [|done]. injection Hb as ->.
    rewrite <- (Hk b s Ht). by apply Hk. }
  apply NoDup_app in Hnd as (_ & Hd1 & Hnd). apply NoDup_cons in Hnd as [Hd2 _].
  set (f := λ k, t ← r !! k; if AdmittedHeight t <=? h then Some t else None) in *.
  assert (∀ (l : list string) t, a ∉ l → t ∈ (omap f l : list Seat) → NormalizeAccount (seat_Account t) = seat_Account t ∧ seat_Account t ≠ "" ∧ seat_Account t ≠ a) as Hoth.
  { intros l t Ha (k & Hkl & Hf)%list_elem_of_omap. unfold f in Hf. destruct (r !! k) as [t'|] eqn:Ht; [|done]. cbn in Hf.
    destruct (_ <=? _); [|done]. injection Hf as ->. rewrite (Hk k t Ht). destruct (Hn k ltac:(eauto)). repeat split; congruence. }
  destruct (Hn a ltac:(eauto)) as [Hna Hne]. rewrite foldl_app. cbn [foldl].
  apply maintain_others; [intros t; by apply Hoth| |by rewrite maintained_Account; apply Hk].
  rewrite (maintain_one _ _ _ s a s); [by rewrite decide_True by (by apply Hk)|by rewrite (Hk a s Hs)..| |by apply Hk].
  apply maintain_others; [|done|by apply Hk]. intros t. apply Hoth. intros Ha. apply (Hd1 a Ha). set_solver.
Qed.

(** ** Theorems: elections *)

(** The bootstrap survives a crash.  The first election after the gate opens
    seats the committee one row at a time.  If the node stops after any number of
    rows and processes the election again, it ends with the same registry as a node
    that did not stop, and in it every account of the bootstrap has a seat. *)
Theorem bootstrap_crash_safe cp witnessAt popOk gwPopOk el prev h r ms k r1 :
  PoaSeatGateActive (ResultVersion el) = true → PoaSeatGateActive (ResultVersion prev) = false → h ≠ 0 →
  seed_set cp witnessAt popOk gwPopOk (ResultVersion el) h (bootstrap_members el (Some prev) (member_set el)) = Some ms →
  (∀ a, a ∈ ms → NormalizeAccount a = a ∧ a ≠ "") →
  seed_accounts (member_set el) h (take k (sort_Strings (elements ms))) r = Some r1 →
  ∃ r', applyPoaSeatMaintenance cp witnessAt popOk gwPopOk el (Some prev) h r = Some r' ∧
        applyPoaSeatMaintenance cp witnessAt popOk gwPopOk el (Some prev) h r1 = Some r' ∧
        ∀ a, a ∈ ms → is_Some (r' !! a).
Proof.
  intros Hgate Hprev Hh Hms Hn Hk. set (l := sort_Strings (elements ms)) in *.
  assert (∀ a, a ∈ l ↔ a ∈ ms) as Hl.
  { intros a. unfold l. rewrite sort_Strings_Permutation. apply elem_of_elements. }
  destruct (seed_returns (member_set el) h l r Hh) as (r' & Hr' & Hin); [by intros a Ha%Hl; apply Hn|]. exists r'.
  unfold applyPoaSeatMaintenance, bootstrapPoaSeats, seedPoaSeats. cbn [from_option]. rewrite Hgate, Hprev, Hms. cbn [negb]. fold l.
  split; [done|]. split; [|by intros a Ha%Hl; apply Hin].
  rewrite <- (take_drop k l), seed_app in Hr' |- *. rewrite Hk in Hr'. cbn in Hr'.
  by rewrite (seed_again (member_set el) h (take k l) r r1 r1).
Qed.

Section exit_clock.
Context (cp : ConsensusParams) (wAt : option (string → Z → option Witness)) (popOk gwPopOk : Witness → bool).

(** Ratified elections, each with its predecessor and its height, one after the
    other. *)
Definition maintain_run (evs : list (ElectionResult * ElectionResult * Z)) (r : registry) : option registry :=
  foldl (λ acc '(el, prev, h), acc ≫= applyPoaSeatMaintenance cp wAt popOk gwPopOk el (Some prev) h) (Some r) evs.

(** An election under the gate after another one, at [h0] or later, without the
    account. *)
Definition leaves_out (a : string) (h0 : Z) (ev : ElectionResult * ElectionResult * Z) : Prop :=
  let '(el, prev, h) := ev in
  PoaSeatGateActive (ResultVersion el) = true ∧ PoaSeatGateActive (ResultVersion prev) = true ∧ h0 <= h ∧ a ∉ member_set el.

Lemma left_out_step a h0 ev r s :
  registry_ok r → names_ok r → r !! a = Some s → AdmittedHeight s <= h0 → leaves_out a h0 ev →
  let '(el, prev, h) := ev in
  ∃ r', applyPoaSeatMaintenance cp wAt popOk gwPopOk el (Some prev) h r = Some r' ∧ registry_ok r' ∧ names_ok r' ∧
        r' !! a = Some (if (ExitHeight s =? 0) && (0 <? LastSeatedHeight s) then with_exit s h else s).
Proof.
  intros Hok Hn Hs Hle. destruct ev as [[el prev] h]. intros (Hg & Hp & Hh & Ha).
  exists (foldl (maintain_seat (member_set el) h) r (GetSeatsAtHeight r h)).
  pose proof (maintain_step (λ _ _, False) (member_set el) h (GetSeatsAtHeight r h) r ltac:(done)) as (_ & Hadd & Hrok).
  split; [|split; [by apply Hrok|split]].
  - unfold applyPoaSeatMaintenance. rewrite Hg. cbn. rewrite Hp. cbn. rewrite bool_decide_eq_false_2; [done|]. intros E.
    assert (s ∈ GetSeatsAtHeight r h) as Hin by (apply seats_elem; exists a; split; [done|lia]). rewrite E in Hin. set_solver.
  - intros b [t [(t' & Ht' & _)|[]]%Hadd]. apply Hn. by exists t'.
  - rewrite (maintain_lookup _ _ _ _ s) by (done || lia). unfold maintained.
    rewrite bool_decide_eq_false_2; [done|]. by rewrite (proj1 (rk_key r Hok a s Hs)).
Qed.

Lemma left_out_run a h0 evs r s :
  registry_ok r → names_ok r → r !! a = Some s → AdmittedHeight s <= h0 → ExitHeight s ≠ 0 → Forall (leaves_out a h0) evs →
  ∃ r', maintain_run evs r = Some r' ∧ r' !! a = Some s.
Proof.
  intros Hok Hn Hs Hle He Hevs. unfold maintain_run. revert r Hok Hn Hs.
  induction Hevs as [|ev evs Hev _ IH]; intros r Hok Hn Hs; [by exists r|].
  pose proof (left_out_step a h0 ev r s Hok Hn Hs Hle Hev) as Hst. destruct ev as [[el prev] h].
  destruct Hst as (r1 & Hr1 & Hok1 & Hn1 & Hs1). rewrite (proj2 (Z.eqb_neq _ _) He) in Hs1. cbn [foldl mbind option_bind].
  rewrite Hr1. by apply IH.
Qed.

(** A bond is released.  A seat of the committee that is left out of an election
    at height [h0], and of every election after it, has its bond held for exactly
    the window after [h0], whatever the later elections are: at any height at which
    its operator is not a candidate and has not been active within the window, the
    bond is held before [h0 + window] and free from there on. *)
Theorem exit_releases_bond active enabled witnessAt a s r el prev h0 evs t :
  registry_ok r → names_ok r → r !! a = Some s → AdmittedHeight s <= h0 → 0 < h0 →
  0 < LastSeatedHeight s → ExitHeight s = 0 → leaves_out a h0 (el, prev, h0) → Forall (leaves_out a h0) evs →
  let window := EffectivePoaExitHalt cp in
  0 <= window → h0 + window <= MaxUint64 → PoaExitHaltActive (active t) = true →
  isElectableWitness enabled a t = false → hadRecentWitnessActivity witnessAt a t window = false →
  ∃ r', maintain_run ((el, prev, h0) :: evs) r = Some r' ∧
        poaExitHalt cp active enabled witnessAt r' a t = (t <? h0 + window, h0 + window, true).
Proof.
  intros Hok Hn Hs Hle Hh Hl He Hev Hevs window Hw Hfit Hact Hel Hrec.
  pose proof (left_out_step a h0 (el, prev, h0) r s Hok Hn Hs Hle Hev) as (r1 & Hr1 & Hok1 & Hn1 & Hs1). cbn in Hr1.
  rewrite He, (proj2 (Z.ltb_lt _ _) Hl) in Hs1. cbn in Hs1.
  destruct (left_out_run a h0 evs r1 (with_exit s h0)) as (r' & Hr' & Hs'); [done..|cbn; lia|done|].
  exists r'. split; [unfold maintain_run in *; cbn [foldl mbind option_bind]; by rewrite Hr1|].
  destruct (Hn a ltac:(eauto)) as [Hna Hne]. unfold poaExitHalt. rewrite Hact. cbn [negb].
  unfold GetSeat. rewrite Hna, (proj2 (String.eqb_neq a "")), Hs' by done. fold window. rewrite Hel, Hrec. cbn.
  rewrite (proj2 (Z.eqb_neq (LastSeatedHeight s) 0)), (proj2 (Z.eqb_neq h0 0)) by lia.
  unfold u64_add. rewrite wrapu64_id by (unfold_widths; lia). by rewrite (proj2 (Z.ltb_ge (h0 + window) h0)) by lia.
Qed.
End exit_clock.

(** ** The life of the registry *)

Section life.
Context (sha256hex : string → string) (cp : ConsensusParams) (netId : string) (active : Z → Version).
Context (wAt : option (string → Z → option Witness)) (popOk gwPopOk : Witness → bool).

Inductive seat_event :=
  | SeatVote (io : admit_io) (req : admit_req) (voter txID : string) (height : Z)
  | SeatElection (el : ElectionResult) (prev : option ElectionResult) (height : Z).

Definition seat_step (ev : seat_event) (st : registry * gov_store) : option (registry * gov_store) :=
  let '(r, g) := st in
  match ev with
  | SeatVote io req voter txID height => handleAdmitVote sha256hex cp netId active io (Some req) voter txID height r g
  | SeatElection el prev height => r ← applyPoaSeatMaintenance cp wAt popOk gwPopOk el prev height r; Some (r, g)
  end.

Definition seat_run (evs : list seat_event) (st : registry * gov_store) : option (registry * gov_store) :=
  foldl (λ acc ev, acc ≫= seat_step ev) (Some st) evs.

Lemma seat_run_snoc evs ev st : seat_run (evs ++ [ev]) st = seat_run evs st ≫= seat_step ev.
Proof. unfold seat_run. by rewrite foldl_app. Qed.

(** The pair a vote is for, and whether it is one that can be admitted. *)
Definition req_pair (req : admit_req) : string * string := (NormalizeAccount (aq_Candidate req), canonicalUboId (aq_UboId req)).

Definition pair_ok (p : string * string) : Prop := isPlausibleHiveAccount p.1 = true ∧ isPlausibleUboId p.2 = true.

Definition pair_id (p : string * string) : string := AdmitSeatProposalID sha256hex p.1 p.2.

(** A vote of the account for the pair. *)
Definition voted_for (evs : list seat_event) (voter : string) (p : string * string) : Prop :=
  ∃ io req by_ txID h, SeatVote io req by_ txID h ∈ evs ∧ NormalizeAccount by_ = voter ∧ req_pair req = p ∧ pair_ok p.

(** What the store has of the votes so far. *)
Record store_ok (evs : list seat_event) (g : gov_store) : Prop := mkStoreOk {
  so_prop : ∀ id p, gs_proposals g !! id = Some p →
    pr_Id p = id ∧ pr_Beneficiary p = pr_Candidate p ∧ id = pair_id (pr_Candidate p, pr_UboId p) ∧
    ∃ voter, voted_for evs voter (pr_Candidate p, pr_UboId p);
  so_vote : ∀ k v, gs_votes g !! k = Some v →
    k = (pv_ProposalId v, pv_Voter v) ∧ ∃ p, pv_ProposalId v = pair_id p ∧ voted_for evs (pv_Voter v) p;
}.

Lemma voted_for_mono evs evs' v p : evs ⊆ evs' → voted_for evs v p → voted_for evs' v p.
Proof. intros Hsub (io & req & b & tx & h & Hin & ?). exists io, req, b, tx, h. split; [by apply Hsub|done]. Qed.

Lemma store_ok_mono evs evs' g : evs ⊆ evs' → store_ok evs g → store_ok evs' g.
Proof.
  intros Hsub [Hp Hv]. split.
  - intros id p (?&?&?&v&?)%Hp. repeat split; [done..|]. exists v. by eapply voted_for_mono.
  - intros k v (?&p&?&?)%Hv. split; [done|]. exists p. split; [done|]. by eapply voted_for_mono.
Qed.

Lemma save_ok evs g p :
  store_ok evs g → pr_Beneficiary p = pr_Candidate p → pr_Id p = pair_id (pr_Candidate p, pr_UboId p) →
  (∃ voter, voted_for evs voter (pr_Candidate p, pr_UboId p)) → store_ok evs (SaveProposal p g).
Proof.
  intros [Hp Hv] Hb Hid Hex. split; [|exact Hv]. cbn. intros id q [[<- <-]|[_ Hq]]%lookup_insert_Some; [done|by apply Hp].
Qed.

Lemma record_ok evs g v p :
  store_ok evs g → pv_ProposalId v = pair_id p → voted_for evs (pv_Voter v) p → store_ok evs (RecordVote v g).
Proof.
  intros [Hp Hv] Hid Hvote. unfold RecordVote. destruct (String.eqb _ _); [done|]. split; [exact Hp|]. cbn.
  intros k w [[<- <-]|[_ Hw]]%lookup_insert_Some; [|by apply Hv]. split; [done|]. by exists p.
Qed.

(** The text of an id determines the pair. *)
Definition id_text (p : string * string) : string := NormalizeAccount p.1 +:+ nul +:+ TrimSpace p.2.

Lemma id_text_inj p q : pair_ok p → pair_ok q → id_text p = id_text q → p = q.
Proof.
  destruct p as [c u], q as [c' u']. intros [[Hc _]%plausible_chars [Hu _]%ubo_chars] [[Hc' _]%plausible_chars [Hu' _]%ubo_chars].
  unfold id_text. cbn [fst snd] in *. rewrite !normalize_names, !trim_ubo by done. intros Heq.
  apply pair_inj in Heq as [-> ->]; [done|by apply (nul_free name_char)..].
Qed.

(** No two ids asked for collide. *)
Definition no_collision (evs : list seat_event) : Prop :=
  ∀ i1 q1 b1 t1 h1 i2 q2 b2 t2 h2, SeatVote i1 q1 b1 t1 h1 ∈ evs → SeatVote i2 q2 b2 t2 h2 ∈ evs →
  sha256hex (id_text (req_pair q1)) = sha256hex (id_text (req_pair q2)) → id_text (req_pair q1) = id_text (req_pair q2).

Lemma pair_id_inj evs v w p q : no_collision evs → voted_for evs v p → voted_for evs w q → pair_id p = pair_id q → p = q.
Proof.
  intros Hnc (i1 & q1 & b1 & t1 & h1 & Hin1 & _ & <- & Hok1) (i2 & q2 & b2 & t2 & h2 & Hin2 & _ & <- & Hok2) Heq.
  apply id_text_inj; [done..|]. eapply Hnc; [done..|]. unfold pair_id, AdmitSeatProposalID in Heq.
  apply (inj (String.append _)) in Heq. by apply (inj (String.append _)) in Heq.
Qed.

(** What an admission by vote rests on: at the registry [r], the holders of the
    electorate and the voters who approved. *)
Definition approval (r : registry) (s : Seat) (voted : string → Prop) : Prop :=
  ∃ created holders V,
    poaSeatElectorate cp active true r created = Some (SeatElectorate holders) ∧
    IsApproved (SeatElectorate holders) (seat_Account s) V = true ∧ ∀ v, v ∈ V → voted v.

Lemma electorate_holders ok r h e :
  poaSeatElectorate cp active ok r h = Some e → ok = true ∧ ∃ holders, e = SeatElectorate holders.
Proof.
  unfold poaSeatElectorate. destruct ok; [|done]. cbn [negb]. case_bool_decide; [done|]. case_bool_decide; [done|]. intros [= <-]. split; [done|]. by eexists.
Qed.

Lemma voter_elem g id v : v ∈ governanceVoterSet g id → ∃ k w, gs_votes g !! k = Some w ∧ pv_ProposalId w = id ∧ pv_Voter w = v.
Proof.
  unfold governanceVoterSet, GetVotes. rewrite elem_of_list_to_set, list_elem_of_fmap. intros (w & -> & Hw).
  apply list_elem_of_filter in Hw as [[Hid _] ([k w'] & -> & Hk%elem_of_map_to_list)%list_elem_of_fmap]. by exists k, w'.
Qed.

Lemma voter_since_elem g id m v : v ∈ governanceVoterSetSince g id m → v ∈ governanceVoterSet g id.
Proof.
  unfold governanceVoterSetSince, governanceVoterSet. rewrite !elem_of_list_to_set, !list_elem_of_fmap.
  intros (w & -> & [_ Hw]%list_elem_of_filter). by exists w.
Qed.

Definition by_vote (evs : list seat_event) (r : registry) (_ : string) (s : Seat) : Prop :=
  (∃ v, voted_for evs v (seat_Account s, seat_UboId s)) ∧
  approval r s (λ v, ∃ p, pair_id p = pair_id (seat_Account s, seat_UboId s) ∧ voted_for evs v p).

Lemma admit_tally_ok io evs prop voter txID h r g r' g' :
  store_ok evs g → gs_proposals g !! pr_Id prop = Some prop →
  voted_for evs voter (pr_Candidate prop, pr_UboId prop) →
  admit_tally cp active io prop voter txID h r g = Some (r', g') → store_ok evs g' ∧ step_ok (by_vote evs r) r r'.
Proof.
  intros Hg Hp Hv. destruct (so_prop _ _ Hg _ _ Hp) as (_ & Hben & Hid & Hex). pose proof Hv as (io' & q & b & t & h' & _ & _ & _ & Hpok).
  unfold admit_tally. destruct (poaSeatElectorate _ _ _ _ _) as [e|] eqn:He; [|intros [= <- <-]; split; [done|apply step_refl]].
  destruct (negb (governanceIsMember _ _)); [intros [= <- <-]; split; [done|apply step_refl]|].
  set (g1 := RecordVote _ g). assert (store_ok evs g1) as Hg1 by (by eapply record_ok).
  set (V := if PoaAdmissionReopenActive _ then _ else _).
  assert (∀ v, v ∈ V → ∃ p, pair_id p = pair_id (pr_Candidate prop, pr_UboId prop) ∧ voted_for evs v p) as HV.
  { intros v Hin. assert (v ∈ governanceVoterSet g1 (pr_Id prop)) as (k & w & Hk & Hkid & <-)%voter_elem.
    { unfold V in Hin. destruct (PoaAdmissionReopenActive _); [by eapply voter_since_elem|done]. }
    destruct (so_vote _ _ Hg1 _ _ Hk) as (_ & p & Hpid & Hvf). exists p. split; [congruence|done]. }
  destruct (IsApproved _ _ _) eqn:Hap; cbn [negb]; [|intros [= <- <-]; split; [done|apply step_refl]].
  destruct (admitOrBlock _ r) as [[ok r1]|] eqn:Hadm; [|done]. cbn. intros Hres.
  assert (r' = r1) as -> by (by destruct ok; injection Hres as <- _). split.
  - destruct ok; injection Hres as <-; [|done]. by apply save_ok.
  - eapply step_weaken; [|by eapply admit_step]. intros a s [_ ->]. unfold by_vote, stored_seat. cbn.
    destruct (plausible_chars _ (proj1 Hpok)) as [Hc _]. cbn in Hc. rewrite normalize_names by done.
    split; [by exists voter|]. destruct (electorate_holders _ _ _ _ He) as [Eio [holders ->]]. rewrite Eio in He. exists (pr_CreationBlock prop), holders, V.
    split; [done|]. split; [|done]. rewrite <- Hben. exact Hap.
Qed.

Lemma admit_vote_ok io evs req b txID h r g r' g' :
  store_ok evs g → SeatVote io req b txID h ∈ evs → pair_ok (req_pair req) →
  admit_vote sha256hex cp active io (req_pair req).1 (req_pair req).2 (NormalizeAccount b) txID h r g = Some (r', g') →
  no_collision evs → store_ok evs g' ∧ step_ok (by_vote evs r) r r'.
Proof.
  intros Hg Hin Hpok H Hnc. set (p := req_pair req) in *.
  assert (voted_for evs (NormalizeAccount b) p) as Hv by (by exists io, req, b, txID, h).
  revert H. unfold admit_vote. cbv zeta. fold (pair_id p). set (old := GetProposal g (pair_id p)).
  set (pg := match old with Some _ => _ | None => _ end).
  assert (store_ok evs pg.2 ∧ gs_proposals pg.2 !! pr_Id pg.1 = Some pg.1 ∧ (pr_Candidate pg.1, pr_UboId pg.1) = p) as (Hg1 & Hp1 & Hpp).
  { unfold pg. destruct old as [q|] eqn:Hq; cbn [fst snd].
    - destruct (so_prop _ _ Hg _ _ Hq) as (Hid & _ & Hpid & w & Hw). rewrite Hid. split; [done|]. split; [done|].
      symmetry. by eapply pair_id_inj.
    - destruct p as [c u]. split; [apply save_ok; cbn; [done..|by exists (NormalizeAccount b)]|].
      split; [apply lookup_insert_eq|done]. }
  clearbody pg. destruct pg as [q g1]. cbn [fst snd] in *. destruct (negb _); [intros [= <- <-]; split; [done|apply step_refl]|].
  destruct (so_prop _ _ Hg1 _ _ Hp1) as (_ & Hb & Hid & Hex).
  set (c := PoaAdmissionReopenActive _ && _). set (qg := if c then _ else _).
  assert (store_ok evs qg.2 ∧ gs_proposals qg.2 !! pr_Id qg.1 = Some qg.1 ∧ (pr_Candidate qg.1, pr_UboId qg.1) = p) as (Hg2 & Hp2 & Hpp2).
  { unfold qg. destruct c; [|done]. split; [by apply save_ok|]. split; [apply lookup_insert_eq|done]. }
  clearbody qg. destruct qg as [q2 g2]. cbn [fst snd] in *. destruct (negb _); [intros [= <- <-]; split; [done|apply step_refl]|].
  destruct (so_prop _ _ Hg2 _ _ Hp2) as (_ & Hb2 & Hid2 & Hex2).
  clear c. destruct (IsExpired _ _ _ _); [intros [= <- <-]; split; [by apply save_ok|apply step_refl]|].
  apply admit_tally_ok; [done..|]. by rewrite Hpp2.
Qed.

Lemma handle_ok io evs req b txID h r g r' g' :
  store_ok evs g → SeatVote io req b txID h ∈ evs → no_collision evs →
  handleAdmitVote sha256hex cp netId active io (Some req) b txID h r g = Some (r', g') →
  store_ok evs g' ∧ step_ok (by_vote evs r) r r'.
Proof.
  intros Hg Hin Hnc. assert (store_ok evs g ∧ step_ok (by_vote evs r) r r) as Hidle by (split; [done|apply step_refl]).
  unfold handleAdmitVote. cbv zeta. destruct (negb _); [by intros [= <- <-]|]. destruct (String.eqb _ ""); [by intros [= <- <-]|].
  destruct (isPlausibleHiveAccount _) eqn:Hpc; [|by intros [= <- <-]]. destruct (isPlausibleUboId _) eqn:Hpu; [|by intros [= <- <-]].
  cbn [negb]. destruct (String.eqb _ ""); [by intros [= <- <-]|]. destruct (poaSeatElectorate _ _ _ _ _); [|by intros [= <- <-]].
  destruct (negb _); [by intros [= <- <-]|]. destruct (_ || _); [by intros [= <- <-]|].
  destruct (_ || _); [by intros [= <- <-]|]. intros H. by apply (admit_vote_ok io evs req b txID h r g).
Qed.

Lemma tally_step io prop voter txID h r g r' g' :
  admit_tally cp active io prop voter txID h r g = Some (r', g') → step_ok (λ _ _, True) r r'.
Proof.
  unfold admit_tally. destruct (poaSeatElectorate _ _ _ _ _); [|intros [= <- _]; apply step_refl].
  do 2 (destruct (negb _); [intros [= <- _]; apply step_refl|]).
  intros ([ok r1] & Hadm & H)%bind_Some. assert (r' = r1) as -> by (by destruct ok; injection H as <- _).
  eapply step_weaken; [|by eapply admit_step]. done.
Qed.

Lemma handle_step io req b txID h r g r' g' :
  handleAdmitVote sha256hex cp netId active io (Some req) b txID h r g = Some (r', g') → step_ok (λ _ _, True) r r'.
Proof.
  unfold handleAdmitVote. cbv zeta. destruct (poaSeatElectorate _ _ _ _ _);
    repeat (first [intros [= <- _]; apply step_refl | match goal with |- (if ?c then _ else _) = _ → _ => destruct c end]).
  unfold admit_vote. cbv zeta. destruct (match GetProposal g _ with Some _ => _ | None => _ end) as [q g1].
  destruct (negb _); [intros [= <- _]; apply step_refl|].
  match goal with |- (let '(_, _) := if ?c then _ else _ in _) = _ → _ => destruct (if c then _ else _) as [q2 g2] end.
  destruct (negb _); [intros [= <- _]; apply step_refl|]. destruct (IsExpired _ _ _ _); [intros [= <- _]; apply step_refl|].
  apply tally_step.
Qed.

Lemma event_step ev r g r' g' : seat_step ev (r, g) = Some (r', g') → step_ok (λ _ _, True) r r'.
Proof.
  destruct ev as [io req b tx h|el prev h]; cbn; [apply handle_step|].
  intros (r1 & Hr & [= <- <-])%bind_Some. eapply step_weaken; [|by eapply maintenance_step]. done.
Qed.

Lemma run_grows evs r g r' g' : seat_run evs (r, g) = Some (r', g') → grows r r' ∧ (registry_ok r → registry_ok r').
Proof.
  revert r' g'. induction evs as [|ev evs IH] using rev_ind; intros r' g'; [by intros [= <- <-]|].
  rewrite seat_run_snoc. intros ([r1 g1] & H1 & H2)%bind_Some. apply IH in H1 as [Hg1 Hok1].
  apply event_step in H2 as (Hg2 & _ & Hok2). split; [by trans r1|auto].
Qed.

(** The seats an electorate consists of, without one of them. *)
Definition other_seats (e : list Member) (a : string) : list string :=
  filter (λ x, x ≠ a) ((λ m, NormalizeAccount (gm_Account m)) <$> e).

Lemma seat_weight (P : string → bool) holders :
  weight_where P (SeatElectorate holders) =
  Z.of_nat (length (filter (λ x, P x = true) ((λ m, NormalizeAccount (gm_Account m)) <$> SeatElectorate holders))).
Proof.
  unfold weight_where, SeatElectorate. induction holders as [|x l IH]; [done|]. rewrite !fmap_cons. cbn [zsum gm_Account gm_Weight].
  rewrite IH, filter_cons. destruct (P _); [rewrite decide_True by done; cbn; lia|by rewrite decide_False].
Qed.

(** Two thirds of the other seats approved. *)
Lemma seat_approved holders a V :
  NormalizeAccount a = a → 2 * Z.of_nat (length holders) + 2 <= MaxUint64 → IsApproved (SeatElectorate holders) a V = true →
  let others := other_seats (SeatElectorate holders) a in
  (0 < length others ∧ 2 * length others <= 3 * length (filter (λ x, x ∈ V) others))%nat.
Proof.
  intros Ha Hlen Hap others. apply approved_spec in Hap.
  - rewrite !seat_weight in Hap. destruct Hap as [H1 H2]. unfold others, other_seats.
    set (names := _ <$> _) in *. rewrite list_filter_filter.
    rewrite (list_filter_iff (λ x, not_ben a x = true) (λ x, x ≠ a)) in H1, H2
      by (intros x; unfold not_ben; rewrite Ha, negb_true_iff; apply String.eqb_neq).
    rewrite (list_filter_iff (λ x, voted a V x = true) (λ x, x ∈ V ∧ x ≠ a)) in H2; [lia|].
    intros x. unfold voted, not_ben. rewrite Ha, andb_true_iff, negb_true_iff, String.eqb_neq, bool_decide_eq_true. tauto.
  - split; [by apply Forall_fmap, Forall_true|]. unfold SeatElectorate. rewrite <- list_fmap_compose.
    enough (∀ l : list string, zsum ((gm_Weight ∘ λ x, mkMember (NormalizeAccount x) 1) <$> l) = Z.of_nat (length l)) as -> by done.
    induction l as [|x l IH]; [done|]. rewrite fmap_cons. cbn [zsum]. rewrite IH. cbn. lia.
Qed.

Lemma electorate_length r h holders :
  poaSeatElectorate cp active true r h = Some (SeatElectorate holders) → (length holders <= size r)%nat.
Proof.
  unfold poaSeatElectorate. cbn [negb]. case_bool_decide; [done|]. case_bool_decide; [done|]. intros H'. injection H' as Heq.
  apply (f_equal length) in Heq. unfold SeatElectorate in Heq. rewrite !length_fmap in Heq. rewrite <- Heq.
  etrans; [apply omap_length_le|]. unfold GetSeatsAtHeight. etrans; [apply omap_length_le|].
  unfold sorted_keys. by rewrite sort_Strings_Permutation, length_fmap, length_map_to_list.
Qed.

(** An admission within a run: the state before the vote that decided it, the
    electorate, and those who voted. *)
Definition admitted_by (evs : list seat_event) (st0 : registry * gov_store) (s : Seat) : Prop :=
  ∃ pre ev post r1 g1, evs = pre ++ ev :: post ∧ seat_run pre st0 = Some (r1, g1) ∧ by_vote (pre ++ [ev]) r1 (seat_Account s) s.

Lemma by_vote_same evs r a b s s' : same_seat s s' → by_vote evs r a s → by_vote evs r b s'.
Proof. unfold by_vote, approval. intros (Ea & Eu & _). by rewrite Ea, Eu. Qed.

Lemma run_life evs st0 r g :
  seat_run evs st0 = Some (r, g) → no_collision evs → st0 = (∅, mkGovStore ∅ ∅) →
  store_ok evs g ∧ ∀ a s, r !! a = Some s → from_bootstrap a s ∨ admitted_by evs st0 s.
Proof.
  intros Hrun Hnc Hst0. revert r g Hrun. induction evs as [|ev evs IH] using rev_ind; intros r g Hrun.
  { rewrite Hst0 in Hrun. injection Hrun as <- <-. split; [|by intros a s]. by split; intros ? ? H. }
  assert (evs ⊆ evs ++ [ev]) as Hsub by set_solver. rewrite seat_run_snoc in Hrun. apply bind_Some in Hrun as ([r1 g1] & H1 & H2).
  destruct (IH ltac:(unfold no_collision in *; set_solver) r1 g1 H1) as [Hg1 Hs1].
  assert (∀ s s', same_seat s s' → admitted_by evs st0 s → admitted_by (evs ++ [ev]) st0 s') as Hold.
  { intros s s' Heq (pre & e & post & r2 & g2 & -> & Hpre & Hby). exists pre, e, (post ++ [ev]), r2, g2.
    rewrite <- app_assoc. split; [done|]. split; [done|]. by eapply by_vote_same. }
  apply (store_ok_mono _ _ _ Hsub) in Hg1.
  destruct ev as [io req b tx h|el prev h]; cbn [seat_step] in H2.
  - apply (handle_ok io (evs ++ [SeatVote io req b tx h])) in H2 as (Hg & _ & Hadd & _); [|done|set_solver|done]. split; [done|].
    intros a s [(s1 & Hs & Heq)|Hby]%Hadd.
    + apply Hs1 in Hs as [Hb|Ha]; [left; by eapply bootstrap_same|right; by eapply Hold].
    + right. exists evs, (SeatVote io req b tx h), [], r1, g1. split; [done|]. split; [done|]. by eapply by_vote_same.
  - apply bind_Some in H2 as (r2 & Hr2 & [= <- <-]). split; [done|]. apply maintenance_step in Hr2 as (_ & Hadd & _).
    intros a s [(s1 & Hs & Heq)|Hb]%Hadd; [|by left].
    apply Hs1 in Hs as [Hb|Ha]; [left; by eapply bootstrap_same|right; by eapply Hold].
Qed.

(** ** Theorems: the registry *)

(** C33: a seat is for ever.  Through any votes and elections, an account has at most
    one seat and an owner at most one account, every seat there was is still there,
    and neither the account, the owner nor the record of its admission has
    changed. *)
Theorem seats_permanent evs r g r' g' :
  registry_ok r → seat_run evs (r, g) = Some (r', g') → registry_ok r' ∧ grows r r'.
Proof. intros Hok [Hg Hk]%run_grows. auto. Qed.

(** C18: nobody is seated without two thirds.  In a run from the empty registry every
    seat is of the bootstrap, or was voted in: at some point of the run there was an
    electorate of seats of which, the candidate aside, two thirds had voted for
    exactly this account and this owner. *)
Theorem admission_needs_two_thirds evs r g a s :
  seat_run evs (∅, mkGovStore ∅ ∅) = Some (r, g) → no_collision evs → 2 * Z.of_nat (size r) + 2 <= MaxUint64 →
  r !! a = Some s → Bootstrap s = false →
  ∃ pre post r1 g1 created electorate (V : gset string),
    evs = pre ++ post ∧ seat_run pre (∅, mkGovStore ∅ ∅) = Some (r1, g1) ∧
    poaSeatElectorate cp active true r1 created = Some electorate ∧
    (let others := other_seats electorate a in
     0 < length others ∧ 2 * length others <= 3 * length (filter (λ x, x ∈ V) others))%nat ∧
    ∀ v, v ∈ V → voted_for evs v (a, seat_UboId s).
Proof.
  intros Hrun Hnc Hfit Hs Hb. destruct (run_life evs _ r g Hrun Hnc eq_refl) as [_ Hall].
  destruct (Hall a s Hs) as [Hb'|(pre & ev & post & r1 & g1 & -> & Hpre & Hby)]; [by rewrite Hb' in Hb|].
  pose proof Hrun as [_ Hrok]%run_grows. destruct (rk_key r (Hrok ltac:(by split)) a s Hs) as [<- _].
  destruct Hby as ([w Hw] & created & holders & V & He & Hap & HV).
  assert (grows r1 r) as Hg.
  { revert Hrun. unfold seat_run in *. rewrite foldl_app, Hpre. apply (run_grows (ev :: post)). }
  assert (size r1 <= size r)%nat as Hsz.
  { rewrite <- !(size_dom (D := gset string)). apply subseteq_size. intros x [t Ht]%elem_of_dom.
    apply elem_of_dom. eapply grows_lookup; [done|]. by exists t. }
  pose proof (electorate_length _ _ _ He). pose proof Hw as (io & q & b & t & h & _ & _ & _ & Hpok & _).
  apply plausible_chars in Hpok as [Hpok _]. cbn in Hpok.
  assert (pre ++ [ev] ⊆ pre ++ ev :: post) as Hsub by set_solver.
  exists pre, (ev :: post), r1, g1, created, (SeatElectorate holders), V. split; [done|]. split; [done|]. split; [done|].
  split; [apply seat_approved; [by apply normalize_names|lia|done]|].
  intros v (p & Hpid & Hp)%HV. apply (voted_for_mono _ _ _ _ Hsub) in Hp, Hw. by rewrite <- (pair_id_inj _ _ _ _ _ Hnc Hp Hw Hpid).
Qed.
End life.
