(* ===== verification/DelegationMode.v ===== *)
(** The delegation mode of a node and its downgrade timelock:
    [modules/common/delegationmode/delegationmode.go],
    [modules/state-processing/delegation_mode.go] and the announcement table of
    [modules/db/vsc/witnesses/witnesses.go].

    A node in share mode pays its delegators.  Leaving share mode is announced
    like any other change, but takes effect only some epochs later, so that
    delegators can leave first.  The reads of the witness and election tables
    block until they succeed; the model has their final answers. *)
From S2P Require Import Prelude GoMaps GoStrings LedgerDb LedgerTypes Delegation ConsensusVersion.

(** ** Modes *)

Definition Deactivated : string := "deactivated".
Definition Share : string := "share".
Definition Custom : string := "custom".
Definition DefaultMode : string := Deactivated.

Definition Normalize (s : string) : string :=
  let m := ToLower (TrimSpace s) in
  if String.eqb m Share then Share
  else if String.eqb m Custom then Custom
  else if String.eqb m Deactivated then Deactivated
  else DefaultMode.

Definition IsValid (s : string) : bool :=
  String.eqb s Deactivated || String.eqb s Share || String.eqb s Custom.

Definition AllowsDelegation (s : string) : bool := negb (String.eqb (Normalize s) Deactivated).

Definition SharesRewards (s : string) : bool := String.eqb (Normalize s) Share.

Definition IsAdverseTransition (old new : string) : bool := SharesRewards old && negb (SharesRewards new).

(** ** The table of announcements *)

(** The announcements of each account, newest first. *)
Abbreviation witness_table := (gmap string (list Witness)).

Definition GetWitnessAtHeight (db : witness_table) (account : string) (bh : Z) : option Witness :=
  snd <$> list_find (λ w, wt_Height w < bh) (default [] (db !! account)).

(** The [$set] of an update on an existing row: the timelock fields are written
    only when a downgrade is pending. *)
Definition set_row (old new : Witness) : Witness :=
  mkWitness (wt_Account new) (wt_Height new) (wt_DidKeys new) (wt_VersionMajor new) (wt_ProtocolVersion new)
    (wt_VersionNonConsensus new) (wt_GatewayKey new) (wt_GatewayKeyPoP new) (wt_DelegationMode new)
    (if wt_DelegationModeMaturityEpoch new =? 0 then wt_DelegationModeEffective old else wt_DelegationModeEffective new)
    (if wt_DelegationModeMaturityEpoch new =? 0 then wt_DelegationModeMaturityEpoch old
     else wt_DelegationModeMaturityEpoch new).

(** The row an update inserts when there is none. *)
Definition new_row (new : Witness) : Witness :=
  set_row (mkWitness (wt_Account new) (wt_Height new) [] 0 0 0 "" "" "" "" 0) new.

Fixpoint upsert_row (w : Witness) (rows : list Witness) : list Witness :=
  match rows with
  | [] => [new_row w]
  | r :: rows =>
      if wt_Height r <? wt_Height w then new_row w :: r :: rows
      else if wt_Height r =? wt_Height w then set_row r w :: rows
      else r :: upsert_row w rows
  end.

Definition kept_rows : nat := 6.

(** [SetWitnessUpdate]: an announcement without a consensus key is refused; of
    the rows of an account the six newest are kept. *)
Definition SetWitnessUpdate (w : Witness) (db : witness_table) : witness_table :=
  let consensusKey := default "" ((λ k, key_Key k.2) <$> list_find (λ k, key_Type k = "consensus") (wt_DidKeys w)) in
  if String.eqb consensusKey "" then db
  else <[wt_Account w := take kept_rows (upsert_row w (default [] (db !! wt_Account w)))]> db.

(** ** The mode in force *)

Section mode.
(** [GetElectionInfoOrBlock]: the election in force at a height, if any. *)
Context (elec : Z → option ElectionResult).

Definition DelegatedStakeActiveForElection (e : ElectionResult) : bool := DelegatedStakeActive (ResultVersion e).

Definition effectiveDelegationMode (w : Witness) (currentEpoch : Z) (gateActive : bool) : string :=
  let target := Normalize (wt_DelegationMode w) in
  if (wt_DelegationModeMaturityEpoch w =? 0) || negb gateActive || (wt_DelegationModeMaturityEpoch w <=? currentEpoch)
  then target
  else Normalize (wt_DelegationModeEffective w).

Definition resolveDelegationMode (w : Witness) (blockHeight : Z) : string :=
  if wt_DelegationModeMaturityEpoch w =? 0 then Normalize (wt_DelegationMode w)
  else
    match elec blockHeight with
    | Some e => effectiveDelegationMode w (el_Epoch e) (DelegatedStakeActiveForElection e)
    | None => effectiveDelegationMode w 0 false
    end.

Definition NodeDelegationMode (db : witness_table) (account : string) (blockHeight : Z) : string :=
  if String.eqb account "" then DefaultMode
  else
    match GetWitnessAtHeight db (TrimPrefix account "hive:") blockHeight with
    | None => DefaultMode
    | Some w => resolveDelegationMode w blockHeight
    end.

Definition computeDelegationTimelock (db : witness_table) (account : string) (Hn : Z) (announced : string) : string * Z :=
  let target := Normalize announced in
  match elec Hn with
  | None => ("", 0)
  | Some e =>
      if negb (DelegatedStakeActiveForElection e) then ("", 0)
      else
        let epoch := el_Epoch e in
        let prev := GetWitnessAtHeight db (TrimPrefix account "hive:") Hn in
        let '(effNow, pPending, pTarget, pMaturity) :=
          match prev with
          | None => (target, false, "", 0)
          | Some p =>
              let pTarget := Normalize (wt_DelegationMode p) in
              if negb (wt_DelegationModeMaturityEpoch p =? 0) && (epoch <? wt_DelegationModeMaturityEpoch p)
              then (Normalize (wt_DelegationModeEffective p), true, pTarget, wt_DelegationModeMaturityEpoch p)
              else (pTarget, false, pTarget, wt_DelegationModeMaturityEpoch p)
          end in
        if IsAdverseTransition effNow target then
          if pPending && String.eqb pTarget target then (effNow, pMaturity)
          else (effNow, epoch +u64 DELEGATION_DOWNGRADE_LOCK_EPOCHS)
        else ("", 0)
  end.

(** The ingest of an announcement: the timelock is resolved against the table,
    then the row is stored. *)
Definition announce (db : witness_table) (w : Witness) : witness_table :=
  let '(eff, maturity) := computeDelegationTimelock db (wt_Account w) (wt_Height w) (wt_DelegationMode w) in
  SetWitnessUpdate
    (mkWitness (wt_Account w) (wt_Height w) (wt_DidKeys w) (wt_VersionMajor w) (wt_ProtocolVersion w)
       (wt_VersionNonConsensus w) (wt_GatewayKey w) (wt_GatewayKeyPoP w) (wt_DelegationMode w) eff maturity) db.

(** The delegations of the nodes that share, from all edges: [None] is the
    result [ok=false]. *)
Definition PendulumShareDelegations (db : witness_table) (allEdges : option edge_map) (members : list string)
    (blockHeight : Z) : option edge_map :=
  allEdges ← allEdges;
  Some (foldl (λ out m,
    if negb (SharesRewards (NodeDelegationMode db m blockHeight)) then out
    else
      let cp := filter (λ kv, 0 < kv.2) (default ∅ (allEdges !! m)) in
      if bool_decide (cp = ∅) then out else <[m := cp]> out) ∅ members).
End mode.

(** ** Lemmas: modes *)

Lemma Normalize_cases s : Normalize s = Share ∨ Normalize s = Custom ∨ Normalize s = Deactivated.
Proof. unfold Normalize. repeat case_match; auto. Qed.

Lemma Normalize_idem s : Normalize (Normalize s) = Normalize s.
Proof. destruct (Normalize_cases s) as [->|[-> | ->]]; by vm_compute. Qed.

Lemma SharesRewards_spec s : SharesRewards s = true ↔ Normalize s = Share.
Proof. unfold SharesRewards. apply String.eqb_eq. Qed.

Lemma adverse_spec old new : IsAdverseTransition old new = true ↔ Normalize old = Share ∧ Normalize new ≠ Share.
Proof. unfold IsAdverseTransition. rewrite andb_true_iff, negb_true_iff, SharesRewards_spec, <- not_true_iff_false, SharesRewards_spec. done. Qed.

(** ** Lemmas: the table *)

(** The newest row below a height. *)
Definition newest_below (rows : list Witness) (h : Z) : option Witness := snd <$> list_find (λ w, wt_Height w < h) rows.

Lemma newest_below_elem rows h r : newest_below rows h = Some r → r ∈ rows ∧ wt_Height r < h.
Proof.
  unfold newest_below. destruct (list_find _ _) as [[i r']|] eqn:Hf; [|done]. intros [= <-].
  apply list_find_Some in Hf as (Hi%list_elem_of_lookup_2 & Hlow & _). done.
Qed.

Definition descending (rows : list Witness) : Prop := StronglySorted (λ a b, wt_Height b < wt_Height a) rows.

Lemma newest_below_cons r rows h :
  newest_below (r :: rows) h = if decide (wt_Height r < h) then Some r else newest_below rows h.
Proof. unfold newest_below. cbn [list_find]. case_decide; [done|]. by destruct (list_find _ rows) as [[]|]. Qed.

(** An update at the newest height or above replaces or precedes the head. *)
Lemma upsert_row_top w rows :
  descending rows → Forall (λ r, wt_Height r <= wt_Height w) rows →
  ∃ r rest, upsert_row w rows = r :: rest ∧ wt_Height r = wt_Height w ∧ descending (r :: rest) ∧
    newest_below (r :: rest) (wt_Height w) = newest_below rows (wt_Height w) ∧
    (r = new_row w ∨ ∃ old, old ∈ rows ∧ wt_Height old = wt_Height w ∧ r = set_row old w) ∧ (∀ x, x ∈ rest → x ∈ rows).
Proof.
  intros Hd Hf. destruct rows as [|r rows].
  - exists (new_row w), []. split; [done|]. split; [done|]. split; [by repeat constructor|]. split; [|split; [by left|set_solver]].
    rewrite newest_below_cons, decide_False by (simpl; lia). done.
  - cbn [upsert_row]. inversion Hd as [|? ? Hd' Hr]; subst. inversion Hf as [|? ? Hw Hf']; subst.
    destruct (Z.ltb_spec (wt_Height r) (wt_Height w)) as [Hlt|Hge].
    + exists (new_row w), (r :: rows). split; [done|]. split; [done|]. split; [|split; [|split; [by left|done]]].
      * constructor; [done|]. constructor; [simpl; lia|]. eapply Forall_impl; [exact Hr|]. simpl. intros; lia.
      * rewrite newest_below_cons, decide_False by (simpl; lia). done.
    + destruct (Z.eqb_spec (wt_Height r) (wt_Height w)) as [He|]; [|lia].
      exists (set_row r w), rows. split; [done|]. split; [done|]. split; [|split; [|split]].
      * constructor; [done|]. eapply Forall_impl; [exact Hr|]. simpl. intros; lia.
      * rewrite !newest_below_cons, !decide_False by (simpl; lia). done.
      * right. exists r. split; [by left|]. done.
      * set_solver.
Qed.

(** Keeping at least two rows keeps the head and the newest row below it. *)
Lemma newest_below_take n r rest h :
  descending (r :: rest) → (2 <= n)%nat → wt_Height r <= h →
  newest_below (take n (r :: rest)) h = newest_below (r :: rest) h.
Proof.
  intros Hd Hn Hh. destruct n as [|[|n]]; [lia..|]. cbn [take]. rewrite !newest_below_cons. case_decide; [done|].
  destruct rest as [|x rest]; [done|]. cbn [take]. rewrite !newest_below_cons.
  inversion Hd as [|? ? _ Hf]; subst. inversion Hf; subst. by rewrite !decide_True by lia.
Qed.

Lemma descending_take n rows : descending rows → descending (take n rows).
Proof.
  unfold descending. intros Hd. revert n. induction Hd as [|r rows Hd IH Hr]; intros [|n]; try by constructor.
  cbn [take]. constructor; [apply IH|]. by apply Forall_take.
Qed.

(** ** Lemmas: announcements *)

Definition rows_of (db : witness_table) (a : string) : list Witness := default [] (db !! a).

Lemma GetWitness_rows db a h : GetWitnessAtHeight db a h = newest_below (rows_of db a) h.
Proof. done. Qed.

Definition has_key (w : Witness) : bool :=
  negb (String.eqb (default "" ((λ k, key_Key k.2) <$> list_find (λ k, key_Type k = "consensus") (wt_DidKeys w))) "").

(** The row an announcement leaves at its height. *)
Definition stored_row (eff : string) (m : Z) (w : Witness) (rows : list Witness) (r : Witness) : Prop :=
  wt_Height r = wt_Height w ∧ wt_DelegationMode r = wt_DelegationMode w ∧
  (m ≠ 0 → wt_DelegationModeEffective r = eff ∧ wt_DelegationModeMaturityEpoch r = m) ∧
  (m = 0 → wt_DelegationModeMaturityEpoch r = 0 ∨
     ∃ old, old ∈ rows ∧ wt_Height old = wt_Height w ∧ wt_DelegationModeEffective r = wt_DelegationModeEffective old ∧
       wt_DelegationModeMaturityEpoch r = wt_DelegationModeMaturityEpoch old).

(** An account's rows, with the newest at or below [h]. *)
Definition rows_ok (h : Z) (rows : list Witness) : Prop := descending rows ∧ Forall (λ r, wt_Height r <= h) rows.

Section announcements.
Context (elec : Z → option ElectionResult).

Lemma announce_other db w a : wt_Account w ≠ a → rows_of (announce elec db w) a = rows_of db a.
Proof.
  intros Hne. unfold announce, SetWitnessUpdate, rows_of. destruct (computeDelegationTimelock _ _ _ _ _).
  cbn [wt_Account wt_DidKeys]. case_match; [done|]. by rewrite lookup_insert_ne.
Qed.

Lemma announce_rows db w eff m :
  rows_ok (wt_Height w) (rows_of db (wt_Account w)) → has_key w = true →
  computeDelegationTimelock elec db (wt_Account w) (wt_Height w) (wt_DelegationMode w) = (eff, m) →
  let rows := rows_of db (wt_Account w) in
  let rows' := rows_of (announce elec db w) (wt_Account w) in
  rows_ok (wt_Height w) rows' ∧ newest_below rows' (wt_Height w) = newest_below rows (wt_Height w) ∧
  ∃ r, stored_row eff m w rows r ∧ (∀ h, wt_Height w < h → newest_below rows' h = Some r) ∧ (∀ x, x ∈ rows' → x = r ∨ x ∈ rows).
Proof.
  intros [Hd Hf] Hkey Hc rows rows'. unfold rows', rows_of, announce, SetWitnessUpdate. rewrite Hc. cbn [wt_Account wt_DidKeys].
  unfold has_key in Hkey. apply negb_true_iff in Hkey. rewrite Hkey, lookup_insert_eq. cbn [default from_option id].
  fold (rows_of db (wt_Account w)). fold rows in Hd, Hf |- *. set (w1 := mkWitness _ _ _ _ _ _ _ _ _ _ _).
  destruct (upsert_row_top w1 rows Hd Hf) as (r & rest & -> & Hh & Hdr & Hb & Hr & Hrest). cbn [wt_Height w1] in *.
  split; [split; [by apply descending_take|apply Forall_take; constructor; [lia|]]|split].
  - inversion Hdr as [|? ? _ Hlt]; subst. eapply Forall_impl; [exact Hlt|]. simpl. intros; lia.
  - rewrite newest_below_take by (done || unfold kept_rows; lia). done.
  - exists r. split; [|split].
    + destruct Hr as [->|(old & Hin & Hold & ->)]; unfold stored_row, new_row, set_row;
        cbn [wt_Height wt_DelegationMode wt_DelegationModeEffective wt_DelegationModeMaturityEpoch w1].
      * split_and!; [done|done|intros Hm; by rewrite (proj2 (Z.eqb_neq m 0) Hm)|intros ->; by left].
      * split_and!; [done|done|intros Hm; by rewrite (proj2 (Z.eqb_neq m 0) Hm)|intros ->; right; by exists old].
    + intros h Hlt. rewrite newest_below_take by (done || unfold kept_rows; lia). by rewrite newest_below_cons, decide_True by lia.
    + intros x Hx%subseteq_take. apply elem_of_cons in Hx as [->|Hx]; [by left|right; auto].
Qed.

Lemma announce_no_key db w : has_key w = false → announce elec db w = db.
Proof.
  intros Hk%negb_false_iff. unfold announce, SetWitnessUpdate. destruct (computeDelegationTimelock _ _ _ _ _).
  cbn [wt_Account wt_DidKeys]. by rewrite Hk.
Qed.
End announcements.

(** ** Lemmas: the timelock *)

Section timelock.
Context (elec : Z → option ElectionResult).

(** The epoch at a height at which the rules are in force. *)
Definition epoch_at (h e : Z) : Prop :=
  ∃ r, elec h = Some r ∧ DelegatedStakeActiveForElection r = true ∧ el_Epoch r = e.

(** A pending downgrade is one from share mode, and its epoch is that of some
    height up to the row's own, plus the lock. *)
Definition lock_ok (w : Witness) : Prop :=
  wt_DelegationModeMaturityEpoch w ≠ 0 →
  Normalize (wt_DelegationModeEffective w) = Share ∧
  ∃ h e, h <= wt_Height w ∧ epoch_at h e ∧ wt_DelegationModeMaturityEpoch w = e + DELEGATION_DOWNGRADE_LOCK_EPOCHS.

(** Until [limit], a row keeps its node in share mode. *)
Definition keeps_share (limit : Z) (w : Witness) : Prop :=
  Normalize (wt_DelegationMode w) = Share
  ∨ wt_DelegationModeMaturityEpoch w ≠ 0 ∧ limit < wt_DelegationModeMaturityEpoch w.

Lemma resolve_epoch w h e :
  epoch_at h e → resolveDelegationMode elec w h = effectiveDelegationMode w e true.
Proof.
  intros (r & Hr & Ha & <-). unfold resolveDelegationMode. rewrite Hr, Ha.
  unfold effectiveDelegationMode. by destruct (wt_DelegationModeMaturityEpoch w =? 0).
Qed.

Lemma effective_share w e : lock_ok w → keeps_share e w → effectiveDelegationMode w e true = Share.
Proof.
  intros Hl Hk. unfold effectiveDelegationMode, lock_ok in *. cbn [negb orb].
  destruct (Z.eqb_spec (wt_DelegationModeMaturityEpoch w) 0) as [H0|H0]; cbn [orb]; [by destruct Hk as [?|[? _]]|].
  destruct (Z.leb_spec (wt_DelegationModeMaturityEpoch w) e); [|by apply Hl]. destruct Hk as [?|[_ ?]]; [done|lia].
Qed.

Lemma effective_settled w e :
  wt_DelegationModeMaturityEpoch w <= e → effectiveDelegationMode w e true = Normalize (wt_DelegationMode w).
Proof.
  intros He. unfold effectiveDelegationMode. rewrite (proj2 (Z.leb_le _ _) He). by rewrite orb_true_r.
Qed.

Context (Hmono : ∀ h h' e e', h <= h' → epoch_at h e → epoch_at h' e' → e <= e').
Context (Hepoch : ∀ h e, epoch_at h e → 0 <= e ∧ e + DELEGATION_DOWNGRADE_LOCK_EPOCHS <= MaxUint64).

Lemma lock_epoch h e : epoch_at h e → e +u64 DELEGATION_DOWNGRADE_LOCK_EPOCHS = e + DELEGATION_DOWNGRADE_LOCK_EPOCHS.
Proof. intros [? ?]%Hepoch. apply wrapu64_id. unfold u64, DELEGATION_DOWNGRADE_LOCK_EPOCHS, CONSENSUS_UNSTAKE_LOCK_EPOCHS in *. lia. Qed.

Lemma lock_bound w h e : lock_ok w → wt_Height w <= h → epoch_at h e → wt_DelegationModeMaturityEpoch w <= e + DELEGATION_DOWNGRADE_LOCK_EPOCHS.
Proof.
  intros Hl Hh He. destruct (decide (wt_DelegationModeMaturityEpoch w = 0)) as [->|Hm].
  - destruct (Hepoch h e He). unfold DELEGATION_DOWNGRADE_LOCK_EPOCHS, CONSENSUS_UNSTAKE_LOCK_EPOCHS. lia.
  - destruct (Hl Hm) as (_ & h0 & e0 & Hh0 & He0 & ->). assert (e0 <= e) by (eapply (Hmono h0 h); eauto; lia). lia.
Qed.

Definition pending (p : Witness) (e : Z) : bool :=
  negb (wt_DelegationModeMaturityEpoch p =? 0) && (e <? wt_DelegationModeMaturityEpoch p).

Lemma pending_mode p e :
  effectiveDelegationMode p e true
  = if pending p e then Normalize (wt_DelegationModeEffective p) else Normalize (wt_DelegationMode p).
Proof.
  unfold effectiveDelegationMode, pending. rewrite Z.ltb_antisym.
  by destruct (wt_DelegationModeMaturityEpoch p =? 0), (wt_DelegationModeMaturityEpoch p <=? e).
Qed.

(** The resolution where the rules are in force: a downgrade of the mode in force
    is timed from this epoch, unless the same one is pending. *)
Lemma compute_active db a Hn announced e :
  HasPrefix a "hive:" = false → epoch_at Hn e →
  computeDelegationTimelock elec db a Hn announced
  = match newest_below (rows_of db a) Hn with
    | None => ("", 0)
    | Some p =>
        let eff := effectiveDelegationMode p e true in
        if IsAdverseTransition eff announced then
          (eff, if pending p e && String.eqb (Normalize (wt_DelegationMode p)) (Normalize announced)
                then wt_DelegationModeMaturityEpoch p else e + DELEGATION_DOWNGRADE_LOCK_EPOCHS)
        else ("", 0)
    end.
Proof.
  intros Hpre He. pose proof (lock_epoch _ _ He) as Hlock. destruct He as (r & Hr & Ha & <-).
  unfold computeDelegationTimelock. rewrite GetWitness_rows, Hr, Ha, Hlock.
  replace (TrimPrefix a "hive:") with a by (unfold TrimPrefix; by rewrite Hpre). cbn [negb].
  assert (∀ x, IsAdverseTransition x (Normalize announced) = IsAdverseTransition x announced) as Hadv
    by (intros x; unfold IsAdverseTransition, SharesRewards; by rewrite Normalize_idem).
  destruct (newest_below (rows_of db a) Hn) as [p|].
  - rewrite pending_mode. fold (pending p (el_Epoch r)). destruct (pending p (el_Epoch r)); rewrite Hadv; cbn [andb];
      destruct (IsAdverseTransition _ _); [|done|done|done]. by destruct (String.eqb _ _).
  - rewrite Hadv. destruct (IsAdverseTransition _ _) eqn:E; [|done]. apply adverse_spec in E as [E1 E2]. by rewrite Normalize_idem in E1.
Qed.

Lemma compute_inactive db a Hn announced : (∀ e, ¬ epoch_at Hn e) → computeDelegationTimelock elec db a Hn announced = ("", 0).
Proof.
  intros Hno. unfold computeDelegationTimelock. destruct (elec Hn) as [r|] eqn:Hr; [|done].
  destruct (DelegatedStakeActiveForElection r) eqn:Ha; [|done]. destruct (Hno (el_Epoch r)). by exists r.
Qed.

Lemma epoch_at_dec h : {e | epoch_at h e} + {∀ e, ¬ epoch_at h e}.
Proof.
  destruct (elec h) as [r|] eqn:Hr; [destruct (DelegatedStakeActiveForElection r) eqn:Ha|].
  - left. exists (el_Epoch r). by exists r.
  - right. intros e (r' & ? & ? & _). congruence.
  - right. intros e (r' & ? & _). congruence.
Qed.

(** What the resolution stores: nothing, the epoch of this height plus the lock,
    or what was pending. *)
Lemma compute_cases db a Hn announced eff m :
  HasPrefix a "hive:" = false → computeDelegationTimelock elec db a Hn announced = (eff, m) →
  m = 0 ∨ Normalize eff = Share ∧ m ≠ 0 ∧ ∃ e p, epoch_at Hn e ∧ newest_below (rows_of db a) Hn = Some p ∧
    (m = e + DELEGATION_DOWNGRADE_LOCK_EPOCHS ∨ m = wt_DelegationModeMaturityEpoch p).
Proof.
  intros Hpre Hc. destruct (epoch_at_dec Hn) as [[e He]|Hno]; [|rewrite compute_inactive in Hc by done; simplify_eq; by left].
  rewrite (compute_active _ _ _ _ e Hpre He) in Hc. destruct (newest_below _ _) as [p|] eqn:Hp; [|simplify_eq; by left].
  cbv zeta in Hc. destruct (IsAdverseTransition _ _) eqn:Had; [|simplify_eq; by left].
  apply adverse_spec in Had as [Hs _]. destruct (Hepoch _ _ He). simplify_eq. right. split; [done|].
  unfold DELEGATION_DOWNGRADE_LOCK_EPOCHS, CONSENSUS_UNSTAKE_LOCK_EPOCHS in *. unfold pending.
  destruct (Z.eqb_spec (wt_DelegationModeMaturityEpoch p) 0); cbn [negb andb]; [split; [lia|]; eauto 8|].
  destruct (_ && _); (split; [lia|]); eauto 8.
Qed.

(** ** Invariants of a history of announcements *)

(** The rows of an account after the announcements up to a height. *)
Definition table_ok (h : Z) (db : witness_table) (a : string) : Prop :=
  rows_ok h (rows_of db a) ∧ Forall lock_ok (rows_of db a).

Lemma stored_lock db w eff m r :
  HasPrefix (wt_Account w) "hive:" = false → Forall lock_ok (rows_of db (wt_Account w)) →
  rows_ok (wt_Height w) (rows_of db (wt_Account w)) →
  computeDelegationTimelock elec db (wt_Account w) (wt_Height w) (wt_DelegationMode w) = (eff, m) →
  stored_row eff m w (rows_of db (wt_Account w)) r → lock_ok r.
Proof.
  intros Hpre Hl [_ Hh] Hc (Hr & _ & H1 & H2) Hm. destruct (compute_cases _ _ _ _ _ _ Hpre Hc) as [->|(Heff & Hm0 & e & p & He & Hp & Hcase)].
  - destruct (H2 eq_refl) as [?|(old & Hin & Ho & Hoe & Hom)]; [done|]. rewrite Hoe, Hom in *. rewrite Hr, <- Ho.
    eapply Forall_forall in Hl; [|exact Hin]. by apply Hl.
  - destruct (H1 Hm0) as [-> ->]. split; [done|]. destruct Hcase as [-> | ->]; [exists (wt_Height w), e; by rewrite Hr|].
    apply newest_below_elem in Hp as [Hi Hlow]. eapply Forall_forall in Hl; [|exact Hi]. destruct (Hl Hm0) as (_ & h0 & e0 & ? & ? & ?). exists h0, e0. split; [lia|done].
Qed.

Lemma table_ok_step db w a :
  HasPrefix a "hive:" = false → table_ok (wt_Height w) db a → table_ok (wt_Height w) (announce elec db w) a.
Proof.
  intros Hpre [Hrows Hl]. destruct (decide (wt_Account w = a)) as [<-|Hne]; [|unfold table_ok; by rewrite announce_other].
  destruct (has_key w) eqn:Hk; [|by rewrite announce_no_key].
  destruct (computeDelegationTimelock elec db (wt_Account w) (wt_Height w) (wt_DelegationMode w)) as [eff m] eqn:Hc.
  destruct (announce_rows elec db w eff m Hrows Hk Hc) as (Hok & _ & r & Hr & _ & Hin). split; [done|].
  apply Forall_forall. intros x [->|Hx]%Hin; [by eapply stored_lock|]. by eapply Forall_forall in Hl.
Qed.

Lemma table_ok_weaken h h' db a : h <= h' → table_ok h db a → table_ok h' db a.
Proof. intros Hle [[Hd Hf] Hl]. split; [|done]. split; [done|]. eapply Forall_impl; [exact Hf|]. simpl. intros; lia. Qed.

(** Announcements in the order of their heights, from a height on. *)
Fixpoint ordered (h : Z) (ws : list Witness) : Prop :=
  match ws with
  | [] => True
  | w :: ws => h <= wt_Height w ∧ ordered (wt_Height w) ws
  end.

Lemma ordered_ge h ws : ordered h ws → Forall (λ w, h <= wt_Height w) ws.
Proof.
  revert h. induction ws as [|w ws IH]; intros h; [by constructor|]. intros [Hw Ho]. constructor; [done|].
  eapply Forall_impl; [by apply IH|]. simpl. intros; lia.
Qed.

Lemma ordered_app h l1 w l2 :
  ordered h (l1 ++ w :: l2) →
  ordered h l1 ∧ Forall (λ x, wt_Height x <= wt_Height w) l1 ∧ h <= wt_Height w ∧ ordered (wt_Height w) l2.
Proof.
  revert h. induction l1 as [|x l1 IH]; intros h; cbn [app ordered]; [intros [? ?]; by split_and!|].
  intros [Hx (H1 & H2 & H3 & H4)%IH]. split_and!; [done|done|by constructor|lia|done].
Qed.

Lemma table_ok_history a ws db h k :
  HasPrefix a "hive:" = false → table_ok h db a → ordered h ws → h <= k → Forall (λ w, wt_Height w <= k) ws →
  table_ok k (foldl (announce elec) db ws) a.
Proof.
  intros Hpre. revert db h. induction ws as [|w ws IH]; intros db h Hok Ho Hk Hf; [by eapply table_ok_weaken|].
  destruct Ho as [Hw Ho]. inversion Hf; subst. cbn [foldl]. apply (IH _ (wt_Height w)); [|done|done|done].
  apply table_ok_step; [done|]. by eapply table_ok_weaken.
Qed.

Lemma newest_below_top k rows h h' :
  rows_ok k rows → k < h → k < h' → newest_below rows h = newest_below rows h'.
Proof.
  intros [_ Hf] Hh Hh'. destruct rows as [|r rows]; [done|]. inversion Hf; subst. rewrite !newest_below_cons, !decide_True by lia. done.
Qed.

(** From [h] on, the newest row of an account below every height has a property. *)
Definition newest_from (P : Witness → Prop) (h : Z) (db : witness_table) (a : string) : Prop :=
  ∀ h', h <= h' → ∃ r, newest_below (rows_of db a) h' = Some r ∧ P r.

(** A property of the newest row is kept by an announcement whose own row has it. *)
Lemma newest_from_step P h db w a :
  HasPrefix a "hive:" = false → table_ok (wt_Height w) db a → newest_from P h db a →
  (∀ eff m r, wt_Account w = a → computeDelegationTimelock elec db a (wt_Height w) (wt_DelegationMode w) = (eff, m) →
     stored_row eff m w (rows_of db a) r → P r) →
  newest_from P (Z.max (wt_Height w) h) (announce elec db w) a.
Proof.
  intros Hpre Hok Hn HP h' Hh'. destruct (decide (wt_Account w = a)) as [<-|Hne]; [|rewrite announce_other by done; apply Hn; lia].
  destruct (has_key w) eqn:Hk; [|rewrite announce_no_key by done; apply Hn; lia].
  destruct (computeDelegationTimelock elec db (wt_Account w) (wt_Height w) (wt_DelegationMode w)) as [eff m] eqn:Hc.
  destruct (announce_rows elec db w eff m (proj1 Hok) Hk Hc) as (_ & Hb & r & Hr & Hnew & _).
  destruct (decide (h' = wt_Height w)) as [->|]; [rewrite Hb; apply Hn; lia|]. exists r. split; [apply Hnew; lia|]. by eapply HP.
Qed.

Lemma share_step limit db w e r eff m :
  HasPrefix (wt_Account w) "hive:" = false → Forall lock_ok (rows_of db (wt_Account w)) →
  newest_from (keeps_share limit) (wt_Height w) db (wt_Account w) → epoch_at (wt_Height w) e →
  e <= limit → limit < e + DELEGATION_DOWNGRADE_LOCK_EPOCHS →
  computeDelegationTimelock elec db (wt_Account w) (wt_Height w) (wt_DelegationMode w) = (eff, m) →
  stored_row eff m w (rows_of db (wt_Account w)) r → keeps_share limit r.
Proof.
  intros Hpre Hl Hn He Hle Hlt Hc (_ & Hmode & Hs & _). destruct (Hn (wt_Height w) ltac:(lia)) as (p & Hp & Hkp).
  rewrite (compute_active _ _ _ _ e Hpre He), Hp in Hc. cbv zeta in Hc.
  assert (lock_ok p) as Hlp.
  { apply newest_below_elem in Hp as [Hi _]. by eapply Forall_forall in Hl. }
  rewrite effective_share in Hc; [|done|destruct Hkp as [?|[? ?]]; [by left|right; split; [done|lia]]].
  unfold keeps_share. rewrite Hmode. destruct (decide (Normalize (wt_DelegationMode w) = Share)) as [|Hne]; [by left|right].
  assert (IsAdverseTransition Share (wt_DelegationMode w) = true) as Had by (apply adverse_spec; by split).
  rewrite Had in Hc. destruct (Hepoch _ _ He). unfold pending in Hc.
  unfold DELEGATION_DOWNGRADE_LOCK_EPOCHS, CONSENSUS_UNSTAKE_LOCK_EPOCHS in *.
  destruct (Z.eqb_spec (wt_DelegationModeMaturityEpoch p) 0); cbn [negb andb] in Hc; [simplify_eq; by destruct Hs as [_ ->]; lia|].
  destruct (String.eqb_spec (Normalize (wt_DelegationMode p)) (Normalize (wt_DelegationMode w))) as [Heq|];
    [rewrite andb_true_r in Hc|rewrite andb_false_r in Hc; simplify_eq; destruct Hs as [_ ->]; lia].
  destruct (Z.ltb_spec e (wt_DelegationModeMaturityEpoch p)); simplify_eq; destruct Hs as [_ ->]; try lia.
  destruct Hkp as [?|[_ ?]]; [congruence|lia].
Qed.

Lemma share_history a limit ws db h :
  HasPrefix a "hive:" = false → table_ok h db a → newest_from (keeps_share limit) h db a → ordered h ws →
  Forall (λ w, ∃ e, epoch_at (wt_Height w) e ∧ e <= limit < e + DELEGATION_DOWNGRADE_LOCK_EPOCHS) ws →
  ∀ k, h <= k → Forall (λ w, wt_Height w <= k) ws →
  newest_from (keeps_share limit) k (foldl (announce elec) db ws) a.
Proof.
  intros Hpre. revert db h. induction ws as [|w ws IH]; intros db h Hok Hn Ho Hf k Hk Hle.
  - intros h' ?. apply Hn. lia.
  - destruct Ho as [Hw Ho]. inversion Hf as [|? ? (e & He & Hl1 & Hl2) Hf']; subst. inversion Hle; subst. cbn [foldl].
    apply (table_ok_weaken _ _ _ _ Hw) in Hok.
    apply (IH _ (wt_Height w)); [by apply table_ok_step| |done|done|done|done].
    rewrite <- (Z.max_l (wt_Height w) h) by done. eapply newest_from_step; [done|done|done|]. intros eff m r <- Hc Hr.
    eapply (share_step limit db w e); try done; [apply Hok|]. intros h' ?. apply Hn. lia.
Qed.

(** From [limit] on every pending downgrade is over. *)
Definition lapsed (limit : Z) (w : Witness) : Prop := wt_DelegationModeMaturityEpoch w <= limit.
Definition announces (t : string) (w : Witness) : Prop := Normalize (wt_DelegationMode w) = t.

Lemma lapsed_step limit t db w eff m r :
  HasPrefix (wt_Account w) "hive:" = false → announces t w → Forall (lapsed limit) (rows_of db (wt_Account w)) → 0 <= limit →
  (∀ e, epoch_at (wt_Height w) e → e + DELEGATION_DOWNGRADE_LOCK_EPOCHS <= limit ∨
     ∃ p, newest_below (rows_of db (wt_Account w)) (wt_Height w) = Some p ∧ announces t p) →
  computeDelegationTimelock elec db (wt_Account w) (wt_Height w) (wt_DelegationMode w) = (eff, m) →
  stored_row eff m w (rows_of db (wt_Account w)) r → lapsed limit r.
Proof.
  intros Hpre Ht Hl H0 Hcase Hc (_ & _ & H1 & H2). unfold lapsed. destruct (decide (m = 0)) as [Hm|Hm].
  { destruct (H2 Hm) as [->|(old & Hin & _ & _ & ->)]; [done|]. by eapply Forall_forall in Hl. }
  destruct (H1 Hm) as [_ ->]. destruct (epoch_at_dec (wt_Height w)) as [[e He]|Hno]; [|rewrite compute_inactive in Hc by done; congruence].
  rewrite (compute_active _ _ _ _ e Hpre He) in Hc. destruct (newest_below _ _) as [p|] eqn:Hp; [|congruence].
  assert (lapsed limit p) as Hlp.
  { apply newest_below_elem in Hp as [Hi _]. by eapply Forall_forall in Hl. }
  cbv zeta in Hc. destruct (IsAdverseTransition _ _) eqn:Had; [|congruence]. apply adverse_spec in Had as [Hs Hns].
  rewrite pending_mode in Hs. unfold announces, lapsed in *.
  destruct (Hcase e He) as [Hlim|(p' & [= <-] & Hpt)]; [destruct (_ && _); simplify_eq; lia|].
  rewrite Hpt, Ht, String.eqb_refl, andb_true_r in Hc.
  destruct (pending p e); simplify_eq; [done|]. rewrite Normalize_idem in Hs. congruence.
Qed.

Lemma lapsed_history a limit t H ws db h :
  HasPrefix a "hive:" = false → 0 <= limit → table_ok h db a → Forall (lapsed limit) (rows_of db a) → H <= h →
  (∀ e, epoch_at H e → e + DELEGATION_DOWNGRADE_LOCK_EPOCHS <= limit) →
  newest_from (announces t) (Z.max h (H + 1)) db a → ordered h ws → Forall (λ w, wt_Account w = a → announces t w) ws →
  ∀ k, h <= k → Forall (λ w, wt_Height w <= k) ws →
  Forall (lapsed limit) (rows_of (foldl (announce elec) db ws) a) ∧
  newest_from (announces t) (Z.max k (H + 1)) (foldl (announce elec) db ws) a.
Proof.
  intros Hpre H0. revert db h. induction ws as [|w ws IH]; intros db h Hok Hl HH Hlim Hn Ho Hf k Hk Hle.
  - split; [done|]. intros h' ?. apply Hn. lia.
  - destruct Ho as [Hw Ho]. inversion Hf as [|? ? Ht Hf']; subst. inversion Hle; subst. cbn [foldl].
    apply (table_ok_weaken _ _ _ _ Hw) in Hok.
    assert (∀ eff m r, wt_Account w = a → computeDelegationTimelock elec db a (wt_Height w) (wt_DelegationMode w) = (eff, m) →
              stored_row eff m w (rows_of db a) r → lapsed limit r ∧ announces t r) as Hstep.
    { intros eff m r <- Hc Hr. split; [|unfold announces; rewrite (proj1 (proj2 Hr)); by apply Ht].
      eapply (lapsed_step limit t db w); try done; [by apply Ht|]. intros e He.
      destruct (decide (wt_Height w = H)) as [HwH|]; [left; rewrite HwH in He; by apply Hlim|right]. apply Hn. lia. }
    apply (IH _ (wt_Height w)); [by apply table_ok_step| |lia|done| |done|done|done|done].
    + destruct (decide (wt_Account w = a)) as [<-|Hne]; [|by rewrite announce_other].
      destruct (has_key w) eqn:Hkey; [|by rewrite announce_no_key].
      destruct (computeDelegationTimelock elec db (wt_Account w) (wt_Height w) (wt_DelegationMode w)) as [eff m] eqn:Hc.
      destruct (announce_rows elec db w eff m (proj1 Hok) Hkey Hc) as (_ & _ & r & Hr & _ & Hin).
      apply Forall_forall. intros x [->|Hx]%Hin; [by eapply Hstep|]. by eapply Forall_forall in Hl.
    + intros h' Hh'. eapply (newest_from_step (announces t) (Z.max h (H + 1))); [done|done|done| |lia].
      intros eff m r ? Hc Hr. by eapply Hstep.
Qed.

(** The table after a history that begins empty. *)
Lemma table_ok_from_empty a ws k :
  HasPrefix a "hive:" = false → ordered 0 ws → 0 <= k → Forall (λ w, wt_Height w <= k) ws →
  table_ok k (foldl (announce elec) ∅ ws) a.
Proof.
  intros Hpre Ho Hk Hf. apply (table_ok_history _ _ _ 0); [done| |done|done|done].
  unfold table_ok, rows_of. rewrite lookup_empty. split; [split|]; by repeat constructor.
Qed.

Lemma NodeDelegationMode_rows db a h :
  HasPrefix a "hive:" = false →
  NodeDelegationMode elec db ("hive:" +:+ a) h
  = match newest_below (rows_of db a) h with None => DefaultMode | Some w => resolveDelegationMode elec w h end.
Proof. intros Hpre. unfold NodeDelegationMode. rewrite TrimPrefix_app. by rewrite GetWitness_rows. Qed.

(** ** Theorems *)

(** C29: delegators of a sharing node have time to leave.  Whatever an operator
    announces after a height at which its node is in share mode with no downgrade
    pending, the node stays in share mode until the lock, which is the unbonding
    period and one epoch, has passed since that height. *)
Theorem timelock_protects before after a H h e0 e :
  HasPrefix a "hive:" = false → 0 < H → ordered 0 before → Forall (λ w, wt_Height w < H) before →
  ordered H after → Forall (λ w, wt_Height w < h) after → H <= h →
  epoch_at H e0 → epoch_at h e → e < e0 + DELEGATION_DOWNGRADE_LOCK_EPOCHS →
  Forall (λ w, ∃ e, epoch_at (wt_Height w) e) after →
  let db := foldl (announce elec) ∅ before in
  NodeDelegationMode elec db ("hive:" +:+ a) H = Share →
  (∀ w, GetWitnessAtHeight db a H = Some w → pending w e0 = false) →
  NodeDelegationMode elec (foldl (announce elec) db after) ("hive:" +:+ a) h = Share.
Proof.
  intros Hpre HH0 Hob Hlb Hoa Hla HHh He0 He Hlt Hact db Hm Hnp.
  assert (table_ok (H - 1) db a) as Hok.
  { apply table_ok_from_empty; [done|done|lia|]. eapply Forall_impl; [exact Hlb|]. simpl. intros; lia. }
  assert (newest_from (keeps_share e) H db a) as Hn.
  { rewrite NodeDelegationMode_rows in Hm by done. setoid_rewrite GetWitness_rows in Hnp.
    destruct (newest_below (rows_of db a) H) as [w|] eqn:Hw; [|done]. intros h' ?.
    rewrite (newest_below_top (H - 1) _ h' H) by (apply Hok || lia). exists w. split; [done|].
    rewrite (resolve_epoch _ _ _ He0), pending_mode, (Hnp w eq_refl) in Hm. by left. }
  rewrite NodeDelegationMode_rows by done.
  assert (Forall (λ w, wt_Height w <= h) after) as Hla' by (eapply Forall_impl; [exact Hla|]; simpl; intros; lia).
  apply (table_ok_weaken (H - 1) H) in Hok; [|lia].
  destruct (share_history a e after db H Hpre Hok Hn Hoa) with (k := h) (h' := h) as (r & Hr & Hk); [|lia|done|lia|].
  - apply Forall_forall. intros w Hin. rewrite Forall_forall in Hact, Hla. destruct (Hact w Hin) as [e' He']. exists e'.
    specialize (Hla w Hin). split; [done|]. split; [eapply (Hmono (wt_Height w) h); eauto; lia|].
    assert (e0 <= e'); [|lia]. eapply (Hmono H (wt_Height w)); eauto. apply ordered_ge in Hoa. by rewrite Forall_forall in Hoa; apply Hoa.
  - rewrite Hr, (resolve_epoch _ _ _ He). apply effective_share; [|done]. apply newest_below_elem in Hr as [Hr _].
    destruct (table_ok_history a after db H h Hpre Hok Hoa HHh Hla') as [_ Hl]. by eapply Forall_forall in Hl.
Qed.

(** A downgrade is only delayed.  Once an operator has announced a mode, and
    announces no other afterwards, that mode is in force as soon as the lock has
    passed since the first of these announcements: announcing it again does not
    start the lock anew, and neither does anything another node announces. *)
Theorem timelock_expires before w after a t h e0 e :
  HasPrefix a "hive:" = false → ordered 0 (before ++ w :: after) → Forall (λ w, wt_Height w < h) (w :: after) →
  wt_Account w = a → has_key w = true → announces t w → Forall (λ w, wt_Account w = a → announces t w) after →
  epoch_at (wt_Height w) e0 → epoch_at h e → e0 + DELEGATION_DOWNGRADE_LOCK_EPOCHS <= e →
  NodeDelegationMode elec (foldl (announce elec) ∅ (before ++ w :: after)) ("hive:" +:+ a) h = t.
Proof.
  intros Hpre (Hob & Hbw & Hw0 & Hoa)%ordered_app Hlt Ha Hk Ht Hta He0 He Hle. subst a. inversion Hlt as [|? ? Hwh Hlt']; subst.
  rewrite foldl_app. cbn [foldl]. set (db := foldl (announce elec) ∅ before). set (a := wt_Account w) in *.
  set (limit := e0 + DELEGATION_DOWNGRADE_LOCK_EPOCHS) in *. destruct (Hepoch _ _ He0) as [He00 _].
  assert (table_ok (wt_Height w) db a) as Hok by (by apply table_ok_from_empty).
  assert (Forall (lapsed limit) (rows_of db a)) as Hl.
  { destruct Hok as [[_ Hh] Hlk]. rewrite !Forall_forall in *. intros x Hx. eapply lock_bound; [by apply Hlk|by apply Hh|done]. }
  destruct (computeDelegationTimelock elec db a (wt_Height w) (wt_DelegationMode w)) as [eff m] eqn:Hc.
  destruct (announce_rows elec db w eff m (proj1 Hok) Hk Hc) as (_ & _ & r & Hr & Hnew & Hin).
  assert (lapsed limit r ∧ announces t r) as [Hlr Htr].
  { split; [|unfold announces; by rewrite (proj1 (proj2 Hr))]. eapply (lapsed_step limit t db w); try done.
    - unfold limit, DELEGATION_DOWNGRADE_LOCK_EPOCHS, CONSENSUS_UNSTAKE_LOCK_EPOCHS. lia.
    - intros e' He'. left. assert (e' <= e0) by (eapply (Hmono (wt_Height w) (wt_Height w)); eauto; lia). unfold limit. lia. }
  assert (0 <= limit) by (unfold limit, DELEGATION_DOWNGRADE_LOCK_EPOCHS, CONSENSUS_UNSTAKE_LOCK_EPOCHS; lia).
  destruct (lapsed_history a limit t (wt_Height w) after (announce elec db w) (wt_Height w)) with (k := h) as [Hl' Hn'];
    [done|done|by apply table_ok_step| |done| | |done|done|lia| |].
  - apply Forall_forall. intros x [->|Hx]%Hin; [done|]. by eapply Forall_forall in Hl.
  - intros e' He'. assert (e' <= e0) by (eapply (Hmono (wt_Height w) (wt_Height w)); eauto; lia). unfold limit. lia.
  - intros h' ?. exists r. split; [apply Hnew; lia|done].
  - eapply Forall_impl; [exact Hlt'|]. simpl. intros; lia.
  - destruct (Hn' h ltac:(lia)) as (r' & Hr' & Ht'). rewrite NodeDelegationMode_rows, Hr' by done.
    rewrite (resolve_epoch _ _ _ He), effective_settled; [done|]. apply newest_below_elem in Hr' as [Hr' _].
    rewrite Forall_forall in Hl'. specialize (Hl' _ Hr'). unfold lapsed in Hl'. lia.
Qed.
End timelock.
