(* ===== verification/VersionGov.v ===== *)
(** Agreeing on the consensus version:
    [modules/state-processing/consensus_version.go],
    [modules/state-processing/recovery_multisig.go] and the singleton of
    [modules/db/vsc/consensus_state/].

    Committee members propose versions, one standing proposal each; the recovery
    multisig can suspend processing, and only it can resume, by forcing a
    version.  Elections prune what was adopted, expired or found no support.
    The engine works on a cache of the stored state that it refreshes after each
    write; a failed write or refresh leaves the cache as it was. *)
From S2P Require Import Prelude GoMaps GoStrings ConsensusVersion.

(** ** State *)

Record VersionProposal := mkVersionProposal {
  vp_Target : Version;
  vp_ActivationEpoch : Z;
  vp_CreationEpoch : Z;
  vp_ExpiryEpoch : Z;
  vp_Forced : bool;
  vp_Proposer : string;
  vp_TxId : string;
  vp_BlockHeight : Z;
}.

Record ChainConsensusState := mkChainConsensusState {
  ProcessingSuspended : bool;
  BtcKeysignHalted : bool;
  BtcKeysignHaltHeight : Z;
  BtcTheftHalted : bool;
  BtcTheftHaltHeight : Z;
  ForcedActivation : option VersionProposal;
  VersionProposals : list VersionProposal;
}.

Definition defaultState : ChainConsensusState := mkChainConsensusState false false 0 false 0 None [].

Definition SetVersionProposals (props : list VersionProposal) (st : ChainConsensusState) : ChainConsensusState :=
  mkChainConsensusState (ProcessingSuspended st) (BtcKeysignHalted st) (BtcKeysignHaltHeight st) (BtcTheftHalted st)
    (BtcTheftHaltHeight st) (ForcedActivation st) props.

Definition SetForcedActivation (s : option VersionProposal) (st : ChainConsensusState) : ChainConsensusState :=
  mkChainConsensusState (ProcessingSuspended st) (BtcKeysignHalted st) (BtcKeysignHaltHeight st) (BtcTheftHalted st)
    (BtcTheftHaltHeight st) s (VersionProposals st).

Definition SetProcessingSuspended (b : bool) (st : ChainConsensusState) : ChainConsensusState :=
  mkChainConsensusState b (BtcKeysignHalted st) (BtcKeysignHaltHeight st) (BtcTheftHalted st)
    (BtcTheftHaltHeight st) (ForcedActivation st) (VersionProposals st).

Definition SetBtcTheftHalt (b : bool) (height : Z) (st : ChainConsensusState) : ChainConsensusState :=
  mkChainConsensusState (ProcessingSuspended st) (BtcKeysignHalted st) (BtcKeysignHaltHeight st) b height
    (ForcedActivation st) (VersionProposals st).

Definition SetForcedActivationAndClearSuspension (s : VersionProposal) (st : ChainConsensusState) : ChainConsensusState :=
  SetProcessingSuspended false (SetForcedActivation (Some s) st).

(** The stored state and the engine's cache of it. *)
Record engine := mkEngine {
  stored : ChainConsensusState;
  chainConsensusCache : ChainConsensusState;
}.

(** What the database does during an operation: whether the write and the read
    that follows it succeed. *)
Record db_outcome := mkDbOutcome { write_ok : bool; read_ok : bool }.

Definition refreshChainConsensusCache (io : db_outcome) (e : engine) : engine :=
  if read_ok io then mkEngine (stored e) (stored e) else e.

(** A write, and the refresh after it. *)
Definition update (io : db_outcome) (f : ChainConsensusState → ChainConsensusState) (e : engine) : engine :=
  if write_ok io then refreshChainConsensusCache io (mkEngine (f (stored e)) (chainConsensusCache e)) else e.

Definition chainProcessingSuspended (e : engine) : bool := ProcessingSuspended (chainConsensusCache e).
Definition forcedActivation (e : engine) : option VersionProposal := ForcedActivation (chainConsensusCache e).
Definition versionProposals (e : engine) : list VersionProposal := VersionProposals (chainConsensusCache e).

Definition ForcedActivationForHeight (e : engine) (blk : Z) : option VersionProposal :=
  s ← forcedActivation e; if blk <=? vp_BlockHeight s then None else Some s.

Definition VersionProposalsForHeight (e : engine) (blk : Z) : list VersionProposal :=
  filter (λ p, vp_BlockHeight p < blk) (versionProposals e).

(** ** Custom operations that pass a suspension *)

Definition isRecoveryAllowlistedCustomJSON (id : string) : bool :=
  slices_Contains ["vsc.recovery_require_version"; "vsc.recovery_suspend"; "vsc.election_result"; "vsc.fr_sync"] id.

(** ** The recovery multisig *)

Definition RecoveryMultisigConfigured (p : ConsensusParams) : bool :=
  (0 <? Z.of_nat (length (RecoveryMultisigAccounts p))) && (0 <? RecoveryMultisigThreshold p)
  && (RecoveryMultisigThreshold p <=? Z.of_nat (length (RecoveryMultisigAccounts p))).

Definition allowed_set (p : ConsensusParams) : gset string :=
  list_to_set ((λ a, TrimPrefix a "hive:") <$> RecoveryMultisigAccounts p).

Definition VerifyRecoveryMultisig (p : ConsensusParams) (requiredAuths : list string) : bool :=
  if bool_decide (RecoveryMultisigAccounts p = []) || (RecoveryMultisigThreshold p <=? 0) then false
  else if Z.of_nat (size (allowed_set p)) <? RecoveryMultisigThreshold p then false
  else
    let seen := foldl (λ seen raw,
      let acc := TrimPrefix raw "hive:" in
      if bool_decide (acc ∈ allowed_set p) && negb (bool_decide (acc ∈ seen)) then {[acc]} ∪ seen else seen)
      (∅ : gset string) requiredAuths in
    RecoveryMultisigThreshold p <=? Z.of_nat (size seen).

(** ** Operations *)

Definition firstHiveAuth (auths : list string) : string :=
  match auths with [] => "" | a :: _ => TrimPrefix a "hive:" end.

Definition coordinationTarget (v : Version) : Version := mkVersion (Major v) (Consensus v) 0.

Record TxProposeConsensusVersion := mkTxProposeConsensusVersion {
  pv_NetId : string;
  pv_Major : Z;
  pv_Consensus : Z;
  pv_ActivationEpoch : Z;
  pv_RequiredAuths : list string;
  pv_TxId : string;
  pv_BlockHeight : Z;
}.

Definition upsertVersionProposal (io : db_outcome) (p : VersionProposal) (e : engine) : engine :=
  let props := versionProposals e in
  let props := match list_find (λ q, vp_Proposer q = vp_Proposer p) props with
               | Some (i, _) => <[i := p]> props
               | None => props ++ [p]
               end in
  update io (SetVersionProposals props) e.

Section operations.
Context (cp : ConsensusParams) (netId : string).
(** The election in force at a height, and the newest announcement of an account
    below a height; the outer [None] is a failed read. *)
Context (election : Z → option ElectionResult) (witness : string → Z → option (option Witness)).

Definition executeProposeConsensusVersion (io : db_outcome) (tx : TxProposeConsensusVersion) (e : engine) : engine :=
  if negb (String.eqb (pv_NetId tx) "") && negb (String.eqb (pv_NetId tx) netId) then e
  else
    match election (pv_BlockHeight tx) with
    | None => e
    | Some elec =>
        let proposer := firstHiveAuth (pv_RequiredAuths tx) in
        if String.eqb proposer "" then e
        else if negb (existsb (λ m, String.eqb (TrimPrefix (em_Account m) "hive:") proposer) (el_Members elec)) then e
        else
          let target := coordinationTarget (mkVersion (pv_Major tx) (pv_Consensus tx) 0) in
          if Cmp target (ResultVersion elec) <=? 0 then e
          else
            match witness proposer (pv_BlockHeight tx) with
            | None => e
            | Some w =>
                if from_option (λ w, negb (MeetsConsensusMin (ConsensusVersionTriple w) target)) false w then e
                else
                  let activationEpoch := if pv_ActivationEpoch tx =? 0 then el_Epoch elec +u64 1 else pv_ActivationEpoch tx in
                  if activationEpoch <=? el_Epoch elec then e
                  else
                    upsertVersionProposal io
                      (mkVersionProposal target activationEpoch (el_Epoch elec) (el_Epoch elec +u64 VersionProposalExpiry cp)
                         false proposer (pv_TxId tx) (pv_BlockHeight tx)) e
            end
    end.

Record TxRecovery := mkTxRecovery {
  rv_Major : Z;
  rv_Consensus : Z;
  rv_RequiredAuths : list string;
  rv_TxId : string;
  rv_BlockHeight : Z;
}.

Definition executeRecoverySuspend (io : db_outcome) (tx : TxRecovery) (e : engine) : engine :=
  if negb (VerifyRecoveryMultisig cp (rv_RequiredAuths tx)) then e
  else update io (SetProcessingSuspended true) e.

Definition executeRecoveryRequireVersion (io : db_outcome) (tx : TxRecovery) (e : engine) : engine :=
  if negb (VerifyRecoveryMultisig cp (rv_RequiredAuths tx)) then e
  else if negb (chainProcessingSuspended e) then e
  else
    match election (rv_BlockHeight tx) with
    | None => e
    | Some elec =>
        let target := coordinationTarget (mkVersion (rv_Major tx) (rv_Consensus tx) 0) in
        update io (SetForcedActivationAndClearSuspension
          (mkVersionProposal target (el_Epoch elec +u64 1) (el_Epoch elec) 0 true
             (firstHiveAuth (rv_RequiredAuths tx)) (rv_TxId tx) (rv_BlockHeight tx))) e
    end.

(** ** Pruning after an election *)

(** The members that count: with deduplication the first of each key. *)
Fixpoint dedup_members (seen : list string) (ims : list (nat * ElectionMember)) : list (nat * ElectionMember) :=
  match ims with
  | [] => []
  | im :: ims => if slices_Contains seen (em_Key im.2) then dedup_members seen ims
                 else im :: dedup_members (em_Key im.2 :: seen) ims
  end.

Definition versionProposalReadyWeight (elec : ElectionResult) (target : Version) : Z :=
  let ims := imap pair (el_Members elec) in
  let ims := if BlsWeightDedupActive (ResultVersion elec) then dedup_members [] ims else ims in
  foldl (λ total im, if MeetsConsensusMin (MemberConsensusVersion im.2 elec) target
                     then total +u64 electionWeightAt elec im.1 else total) 0 ims.

Definition electionMemberWeightOf (elec : ElectionResult) (account : string) : Z :=
  match list_find (λ m, TrimPrefix (em_Account m) "hive:" = TrimPrefix account "hive:") (el_Members elec) with
  | Some (i, _) => electionWeightAt elec i
  | None => 0
  end.

Definition prunes (elec : ElectionResult) (p : VersionProposal) : bool :=
  let floor := ResultVersion elec in
  let epoch := el_Epoch elec in
  let fastFail := VersionProposalFastFail cp in
  (Cmp (vp_Target p) floor <=? 0)
  || (negb (vp_ExpiryEpoch p =? 0) && (vp_ExpiryEpoch p <=? epoch))
  || ((0 <? fastFail) && (vp_CreationEpoch p +u64 fastFail <=? epoch)
      && (versionProposalReadyWeight elec (vp_Target p) <=? electionMemberWeightOf elec (vp_Proposer p))).

(** [io1] is what the database does for the override, [io2] for the proposals. *)
Definition PruneVersionProposalsAfterElection (io1 io2 : db_outcome) (elec : ElectionResult) (e : engine) : engine :=
  let e := match forcedActivation e with
           | Some f => if Cmp (vp_Target f) (ResultVersion elec) <=? 0 then update io1 (SetForcedActivation None) e else e
           | None => e
           end in
  let props := versionProposals e in
  let kept := filter (λ p, prunes elec p = false) props in
  if Nat.eqb (length kept) (length props) then e
  else update io2 (SetVersionProposals kept) e.
End operations.

(** ** The engine as a transition system *)

Section system.
Context (cp : ConsensusParams) (netId : string).
Context (election : Z → option ElectionResult) (witness : string → Z → option (option Witness)).

Inductive step : engine → engine → Prop :=
| step_refresh io e : step e (refreshChainConsensusCache io e)
| step_propose io tx e : step e (executeProposeConsensusVersion cp netId election witness io tx e)
| step_suspend io tx e : step e (executeRecoverySuspend cp io tx e)
| step_require io tx e : step e (executeRecoveryRequireVersion cp election io tx e)
| step_prune io1 io2 elec e : step e (PruneVersionProposalsAfterElection cp io1 io2 elec e).

Definition reachable : engine → Prop := rtc step (mkEngine defaultState defaultState).

(** A standing proposal was made by a member of the committee of its height, for
    a version above the one in force there and not above the proposer's own, to
    be activated later. *)
Definition proposal_ok (p : VersionProposal) : Prop :=
  vp_Forced p = false ∧ NonConsensus (vp_Target p) = 0 ∧ vp_Proposer p ≠ "" ∧
  ∃ elec, election (vp_BlockHeight p) = Some elec ∧
    (∃ m, m ∈ el_Members elec ∧ TrimPrefix (em_Account m) "hive:" = vp_Proposer p) ∧
    version_lt (ResultVersion elec) (vp_Target p) ∧
    vp_CreationEpoch p = el_Epoch elec ∧ vp_CreationEpoch p < vp_ActivationEpoch p ∧
    (∀ w, witness (vp_Proposer p) (vp_BlockHeight p) = Some (Some w) → MeetsConsensusMin (ConsensusVersionTriple w) (vp_Target p) = true).

Definition state_ok (st : ChainConsensusState) : Prop :=
  NoDup (vp_Proposer <$> VersionProposals st) ∧ Forall proposal_ok (VersionProposals st) ∧
  (∀ f, ForcedActivation st = Some f → vp_Forced f = true ∧ NonConsensus (vp_Target f) = 0).

Definition engine_ok (e : engine) : Prop := state_ok (stored e) ∧ state_ok (chainConsensusCache e).

(** *** Lemmas *)

Lemma update_cases io f e :
  update io f e = e
  ∨ (stored (update io f e) = f (stored e) ∧
     (chainConsensusCache (update io f e) = f (stored e) ∨ chainConsensusCache (update io f e) = chainConsensusCache e)).
Proof. unfold update, refreshChainConsensusCache. destruct (write_ok io); [right|by left]. destruct (read_ok io); simpl; auto. Qed.

Lemma update_ok io f e : engine_ok e → state_ok (f (stored e)) → engine_ok (update io f e).
Proof.
  intros Hok Hf. destruct (update_cases io f e) as [->|[Hs Hc]]; [done|]. split; [by rewrite Hs|].
  destruct Hc as [-> | ->]; [done|apply Hok].
Qed.

(** Replacing one's own slot leaves the others. *)
Definition upserted (p : VersionProposal) (props : list VersionProposal) : list VersionProposal :=
  match list_find (λ q, vp_Proposer q = vp_Proposer p) props with Some (i, _) => <[i := p]> props | None => props ++ [p] end.

Lemma upserted_ok p props :
  NoDup (vp_Proposer <$> props) → NoDup (vp_Proposer <$> upserted p props) ∧
  ∀ q, q ∈ upserted p props ↔ q = p ∨ q ∈ props ∧ vp_Proposer q ≠ vp_Proposer p.
Proof.
  intros Hnd. unfold upserted. destruct (list_find _ props) as [[i q]|] eqn:Hf.
  - apply list_find_Some in Hf as (Hi & Hq & _). split.
    + rewrite list_fmap_insert, list_insert_id; [done|]. by rewrite list_lookup_fmap, Hi, <- Hq.
    + intros r. split.
      * intros [j Hj]%list_elem_of_lookup. destruct (decide (i = j)) as [<-|Hne].
        -- rewrite list_lookup_insert_eq in Hj by (by eapply lookup_lt_Some). left. congruence.
        -- rewrite list_lookup_insert_ne in Hj by done. right. split; [by eapply list_elem_of_lookup_2|]. intros Heq.
           apply Hne. eapply (NoDup_lookup _ i j (vp_Proposer p) Hnd); by rewrite list_lookup_fmap, ?Hi, ?Hj; simpl; congruence.
      * intros [->|[[j Hj]%list_elem_of_lookup Hne]].
        -- eapply list_elem_of_lookup_2. apply list_lookup_insert_eq. by eapply lookup_lt_Some.
        -- eapply (list_elem_of_lookup_2 _ j). rewrite list_lookup_insert_ne; [done|]. intros ->. congruence.
  - apply list_find_None in Hf. rewrite Forall_forall in Hf. split.
    + rewrite fmap_app. apply NoDup_app. split; [done|]. split; [|apply NoDup_singleton].
      intros x (q & -> & Hq)%list_elem_of_fmap Hx. simpl in Hx. apply list_elem_of_singleton in Hx. by eapply Hf.
    + intros q. rewrite elem_of_app, list_elem_of_singleton. split; [intros [Hq| ->]; [right; split; [done|by apply Hf]|by left]|].
      naive_solver.
Qed.

Lemma propose_ok io tx e : engine_ok e → engine_ok (executeProposeConsensusVersion cp netId election witness io tx e).
Proof.
  intros Hok. unfold executeProposeConsensusVersion. destruct (_ && _); [done|].
  destruct (election (pv_BlockHeight tx)) as [elec|] eqn:Hel; [|done].
  destruct (String.eqb_spec (firstHiveAuth (pv_RequiredAuths tx)) ""); [done|].
  destruct (existsb _ _) eqn:Hmem; [|done]. cbn [negb]. destruct (Z.leb_spec (Cmp (coordinationTarget (mkVersion (pv_Major tx) (pv_Consensus tx) 0)) (ResultVersion elec)) 0); [done|].
  destruct (witness _ _) as [w|] eqn:Hw; [|done]. destruct (from_option _ _ w) eqn:Hmeet; [done|]. cbv zeta.
  set (act := if pv_ActivationEpoch tx =? 0 then _ else _). destruct (Z.leb_spec act (el_Epoch elec)); [done|].
  set (p := mkVersionProposal _ _ _ _ _ _ _ _).
  assert (proposal_ok p) as Hp.
  { split; [done|]. split; [done|]. split; [done|]. exists elec. split; [done|]. split; [|split; [|split; [done|split; [done|]]]].
    - apply existsb_exists in Hmem as (m & Hin & Hm%String.eqb_eq). exists m. by rewrite list_elem_of_In.
    - unfold version_lt. rewrite Cmp_opp. simpl. lia.
    - intros w' Hw'. simpl in Hw'. rewrite Hw in Hw'. simplify_eq/=. by apply negb_false_iff. }
  unfold upsertVersionProposal. fold (upserted p (versionProposals e)). apply update_ok; [done|].
  destruct Hok as [(_ & _ & Hfs) (Hnd & Hall & _)]. destruct (upserted_ok p (versionProposals e) Hnd) as [Hnd' Hin]. split; [done|].
  split; [|done]. apply Forall_forall. intros q [->|[Hq _]]%Hin; [done|]. by eapply Forall_forall in Hall.
Qed.

Lemma engine_ok_step e e' : engine_ok e → step e e' → engine_ok e'.
Proof.
  intros Hok Hs. destruct Hs as [io e|io tx e|io tx e|io tx e|io1 io2 elec e].
  - unfold refreshChainConsensusCache. destruct (read_ok io); [|done]. by split; apply Hok.
  - by apply propose_ok.
  - unfold executeRecoverySuspend. destruct (negb _); [done|]. apply update_ok; [done|]. apply Hok.
  - unfold executeRecoveryRequireVersion. destruct (negb _); [done|]. destruct (negb _); [done|].
    destruct (election _); [|done]. apply update_ok; [done|]. destruct Hok as [(Hnd & Hall & _) _]. split; [done|]. split; [done|].
    simpl. intros f [= <-]. done.
  - unfold PruneVersionProposalsAfterElection. set (e1 := match forcedActivation e with Some f => _ | None => e end).
    assert (engine_ok e1) as Hok1.
    { unfold e1. destruct (forcedActivation e); [|done]. destruct (_ <=? 0); [|done]. apply update_ok; [done|].
      destruct Hok as [(Hnd & Hall & _) _]. split; [done|]. by split. }
    cbv zeta. destruct (Nat.eqb _ _); [done|]. apply update_ok; [done|]. destruct Hok1 as [(_ & _ & Hf) (Hnd & Hall & _)].
    split; [|split; [|done]]; cbn [VersionProposals SetVersionProposals].
    + eapply sublist_NoDup; [exact Hnd|]. apply fmap_sublist, sublist_filter.
    + apply Forall_forall. intros q [_ Hq]%list_elem_of_filter. by eapply Forall_forall in Hall.
Qed.

(** *** Theorems *)

(** C37: governance state is always well formed.  In every state the engine can
    reach, whatever database writes and reads fail on the way, the stored state
    and the cache hold at most one proposal per proposer; every proposal was made
    by a member of the committee of its height, aims above the version in force
    there and not above the version its proposer runs, and activates later; and
    the recovery override is a forced one. *)
Theorem governance_invariant e : reachable e → engine_ok e.
Proof.
  revert e. apply rtc_ind_r.
  - by split; (split; [constructor|]); (split; [constructor|]).
  - intros e e' _ Hs Hok. by eapply engine_ok_step.
Qed.

(** Only the recovery multisig suspends or resumes the chain.  An operation
    that changes the stored suspension carries authorisations of the multisig;
    one that lifts it also installs a forced version for the next epoch, and is
    accepted only while the engine sees the chain suspended. *)
Theorem suspension_guarded e e' :
  step e e' → ProcessingSuspended (stored e) ≠ ProcessingSuspended (stored e') →
  ∃ auths, VerifyRecoveryMultisig cp auths = true ∧
    (ProcessingSuspended (stored e') = false →
       chainProcessingSuspended e = true ∧
       ∃ f elec, ForcedActivation (stored e') = Some f ∧ vp_Forced f = true ∧
         election (vp_BlockHeight f) = Some elec ∧ vp_ActivationEpoch f = el_Epoch elec +u64 1).
Proof.
  intros Hs Hne. destruct Hs as [io e|io tx e|io tx e|io tx e|io1 io2 elec e].
  - exfalso. apply Hne. unfold refreshChainConsensusCache. by destruct (read_ok io).
  - exfalso. apply Hne. unfold executeProposeConsensusVersion, upsertVersionProposal, update, refreshChainConsensusCache.
    repeat case_match; done.
  - exists (rv_RequiredAuths tx). revert Hne. unfold executeRecoverySuspend.
    destruct (VerifyRecoveryMultisig cp (rv_RequiredAuths tx)); [|done]. cbn [negb]. intros Hne. split; [done|].
    unfold update, refreshChainConsensusCache in *. destruct (write_ok io), (read_ok io); simpl in *; try done; by destruct (ProcessingSuspended (stored e)).
  - exists (rv_RequiredAuths tx). revert Hne. unfold executeRecoveryRequireVersion.
    destruct (VerifyRecoveryMultisig cp (rv_RequiredAuths tx)); [|done]. cbn [negb].
    destruct (chainProcessingSuspended e); [|done]. cbn [negb].
    destruct (election (rv_BlockHeight tx)) as [elec|] eqn:Hel; [|done]. cbv zeta. intros Hne. split; [done|]. intros _. split; [done|].
    destruct (update_cases io (SetForcedActivationAndClearSuspension
      (mkVersionProposal (coordinationTarget (mkVersion (rv_Major tx) (rv_Consensus tx) 0)) (el_Epoch elec +u64 1) (el_Epoch elec) 0 true
         (firstHiveAuth (rv_RequiredAuths tx)) (rv_TxId tx) (rv_BlockHeight tx))) e) as [Heq|[-> _]]; [by rewrite Heq in Hne|].
    eexists _, elec. split; [done|]. by split_and!.
  - exfalso. apply Hne. unfold PruneVersionProposalsAfterElection, update, refreshChainConsensusCache. repeat case_match; done.
Qed.
End system.

Lemma multisig_seen (allowed : gset string) auths (seen : gset string) :
  foldl (λ seen raw,
      let acc := TrimPrefix raw "hive:" in
      if bool_decide (acc ∈ allowed) && negb (bool_decide (acc ∈ seen)) then {[acc]} ∪ seen else seen) seen auths
  = seen ∪ (allowed ∩ list_to_set ((λ a, TrimPrefix a "hive:") <$> auths)).
Proof.
  revert seen. induction auths as [|a auths IH]; intros seen; cbn [foldl fmap list_fmap list_to_set]; [set_solver|].
  rewrite IH. case_bool_decide; [case_bool_decide|]; cbn [andb negb]; set_solver.
Qed.

(** The recovery multisig counts accounts, not signatures: a set of
    authorisations passes exactly when at least the threshold of different
    accounts of the roster are among them, with or without the ledger prefix, and
    a roster that is not configured passes nothing. *)
Theorem multisig_counts p auths :
  VerifyRecoveryMultisig p auths = true ↔
  0 < RecoveryMultisigThreshold p
  ∧ RecoveryMultisigThreshold p
    <= Z.of_nat (size (allowed_set p ∩ list_to_set ((λ a, TrimPrefix a "hive:") <$> auths))).
Proof.
  unfold VerifyRecoveryMultisig. rewrite multisig_seen, union_empty_l_L.
  assert (size (allowed_set p ∩ list_to_set ((λ a, TrimPrefix a "hive:") <$> auths)) <= size (allowed_set p))%nat as Hle
    by (apply subseteq_size; set_solver).
  case_bool_decide as Hnil; cbn [orb].
  - split; [done|]. intros [H1 H2]. assert (allowed_set p = ∅) as Ha by (unfold allowed_set; by rewrite Hnil).
    rewrite Ha, intersection_empty_l_L, size_empty in H2. lia.
  - destruct (Z.leb_spec (RecoveryMultisigThreshold p) 0); [split; [done|lia]|].
    destruct (Z.ltb_spec (Z.of_nat (size (allowed_set p))) (RecoveryMultisigThreshold p)); [split; [done|lia]|].
    rewrite Z.leb_le. lia.
Qed.

(** A proposal can be lost: when the read after a write fails, the next proposal
    is written back on top of the stale cache. *)
Lemma stale_cache_loses_proposal p q :
  vp_Proposer p ≠ vp_Proposer q →
  let e0 := mkEngine defaultState defaultState in
  let e1 := upsertVersionProposal (mkDbOutcome true false) p e0 in
  let e2 := upsertVersionProposal (mkDbOutcome true true) q e1 in
  VersionProposals (stored e1) = [p] ∧ VersionProposals (stored e2) = [q].
Proof. done. Qed.
