(* ===== verification/Settlement.v ===== *)
(** Settling an epoch of the pendulum:
    [modules/incentive-pendulum/settlement/] ([bond_reader.go], [calculator.go],
    [compose.go], [payload.go]).

    The committee's bonds are read as minima over samples of the epoch, reduced
    by the liveness penalties, and the bucket of node fees is distributed pro
    rata; a node in share mode passes its part on to its delegators.  The record
    is composed by every node and must come out identical. *)
From S2P Require Import Prelude GoMaps GoStrings IntMath LedgerDb Pendulum Rewards.

(** ** Reading bonds *)

Definition bondSampleCount : nat := 8.

(** One round of the loop over the sample indices; a height already in the list
    is one already seen. *)
Definition sample_step (start stop step : Z) (out : list Z) (i : nat) : list Z :=
  let bh := start +u64 wrapu64 (step * Z.of_nat i) in
  let bh := if stop <? bh then stop else bh in
  let bh := if bh <=? start then start +u64 1 else bh in
  if bool_decide (bh ∈ out) then out else out ++ [bh].

Definition sampleBlocksAcrossWindow (start stop : Z) (count : nat) : list Z :=
  if (count <? 2)%nat then [stop]
  else if stop <=? start +u64 1 then [stop]
  else
    let width := stop -u64 start in
    let step := width / Z.of_nat (count - 1) in
    let step := if step =? 0 then 1 else step in
    let out := foldl (sample_step start stop step) [] (seq 0 count) in
    if bool_decide (stop ∈ out) then out else out ++ [stop].

Definition normalizeHiveAccount (a : string) : string :=
  let a := TrimSpace a in
  if String.eqb a "" then "" else if HasPrefix a "hive:" then a else "hive:" +:+ a.

Section bonds.
(** [GetBalanceRecord]: [None] is a read error, [Some None] a missing row. *)
Context (reader : string → Z → option (option BalanceRecord)).

(** The loop state: the minimum, and whether there is one. *)
Fixpoint readMin (acct : string) (samples : list Z) (acc : Z * bool) : option (Z * bool) :=
  match samples with
  | [] => Some acc
  | bh :: samples =>
      rec ← reader acct bh;
      readMin acct samples
        (match rec with
         | None => (0, true)
         | Some rec => if negb acc.2 || (br_HIVE_CONSENSUS rec <? acc.1) then (br_HIVE_CONSENSUS rec, true) else acc
         end)
  end.

Definition readMinBondAcrossSamples (acct : string) (samples : list Z) : option (Z * bool) :=
  readMin acct samples (0, false).

Fixpoint read_members (members : list string) (samples : list Z) (out : gmap string Z) : option (gmap string Z) :=
  match members with
  | [] => Some out
  | m :: members =>
      let acct := normalizeHiveAccount m in
      if String.eqb acct "" then read_members members samples out
      else
        '(minBond, ok) ← readMinBondAcrossSamples acct samples;
        if negb ok then read_members members samples out
        else if minBond <=? 0 then read_members members samples out
        else read_members members samples (<[acct := minBond]> out)
  end.

(** [None] is the error; an empty map is returned as nil. *)
Definition ReadCommitteeBonds (members : list string) (epochStartBh slotHeight : Z) : option (gmap string Z) :=
  if bool_decide (members = []) then Some ∅
  else if slotHeight =? 0 then Some ∅
  else
    let epochStartBh := if slotHeight <=? epochStartBh then slotHeight -u64 1 else epochStartBh in
    let samples := sampleBlocksAcrossWindow epochStartBh slotHeight bondSampleCount in
    read_members members samples ∅.
End bonds.

(** ** Distribution *)

Record Distribution := mkDistribution {
  d_Account : string;
  d_Amount : Z;
}.

(** The sum of the positive entries of a map. *)
Definition positive_total (m : gmap string Z) : Z :=
  sum64 ((λ b, if 0 <? b then b else 0) <$> (map_to_list m).*2).

(** The distribution of an account; [Some None] skips it, the outer [None] is a
    panic. *)
Definition node_dist (nodeShare total : Z) (bonds : gmap string Z) (account : string) : option (option Distribution) :=
  let stake := zget bonds account in
  if stake <=? 0 then Some None
  else
    match MulDivFloorI64 nodeShare stake total with
    | None => None
    | Some amount => Some (mkDistribution account <$> amount)
    end.

(** Collect what a loop body appends. *)
Fixpoint collect_out {A B} (f : A → option (option B)) (l : list A) : option (list B) :=
  match l with
  | [] => Some []
  | x :: l => y ← f x; out ← collect_out f l; Some (option_list y ++ out)
  end.

Definition ComputeNodeDistributions (nodeShare : Z) (bonds : gmap string Z) : option (list Distribution) :=
  if (nodeShare <=? 0) || bool_decide (bonds = ∅) then Some []
  else
    let total := positive_total bonds in
    if total <=? 0 then Some []
    else collect_out (node_dist nodeShare total bonds) (sorted_keys bonds).

(** [add]: an amount of zero creates no entry. *)
Definition merge_add (merged : gmap string Z) (acct : string) (amt : Z) : gmap string Z :=
  if amt =? 0 then merged else map_add merged (acct, amt).

(** The loop over the delegators: the merged map and what has been given out. *)
Fixpoint split_shares (amount total : Z) (edges : gmap string Z) (delegators : list string)
    (acc : gmap string Z * Z) : option (gmap string Z * Z) :=
  match delegators with
  | [] => Some acc
  | dlg :: delegators =>
      share ← MulDivFloorI64 amount (zget edges dlg) total;
      split_shares amount total edges delegators
        (match share with
         | Some share => if share <=? 0 then acc else (merge_add acc.1 dlg share, acc.2 +64 share)
         | None => acc
         end)
  end.

(** One round of the loop over the nodes. *)
Definition expand_one (shareDelegations : gmap string (gmap string Z)) (merged : gmap string Z) (d : Distribution)
    : option (gmap string Z) :=
  let edges := default ∅ (shareDelegations !! d_Account d) in
  if (d_Amount d <=? 0) || bool_decide (edges = ∅) then Some (merge_add merged (d_Account d) (d_Amount d))
  else
    let total := positive_total edges in
    let delegators := sort_Strings (filter (λ kv, 0 < kv.2) (map_to_list edges)).*1 in
    if total <=? 0 then Some (merge_add merged (d_Account d) (d_Amount d))
    else
      '(merged, distributed) ← split_shares (d_Amount d) total edges delegators (merged, 0);
      Some (merge_add merged (d_Account d) (d_Amount d -64 distributed)).

Fixpoint expand_all (shareDelegations : gmap string (gmap string Z)) (dists : list Distribution) (merged : gmap string Z)
    : option (gmap string Z) :=
  match dists with
  | [] => Some merged
  | d :: dists => merged ← expand_one shareDelegations merged d; expand_all shareDelegations dists merged
  end.

(** The positive entries, in the order of the accounts. *)
Definition dist_list (merged : gmap string Z) : list Distribution :=
  omap (λ a, if zget merged a <=? 0 then None else Some (mkDistribution a (zget merged a))) (sorted_keys merged).

Definition ExpandShareDistributions (dists : list Distribution) (shareDelegations : gmap string (gmap string Z))
    : option (list Distribution) :=
  merged ← expand_all shareDelegations dists ∅; Some (dist_list merged).

(** ** Reward reductions *)

Record RewardReductionApplied := mkRewardReductionApplied {
  ra_Account : string;
  ra_Bps : Z;
  OriginalBond : Z;
  ReductionAmount : Z;
  EffectiveBond : Z;
}.

Definition reduce_one (reductionBps : gmap string Z) (acc : gmap string Z * list RewardReductionApplied) (account : string)
    : option (gmap string Z * list RewardReductionApplied) :=
  let '(out, applied) := acc in
  let key := normalizeHiveAccount account in
  let orig := zget out key in
  if orig <=? 0 then Some acc
  else
    let bps := zget reductionBps account in
    if bps <=? 0 then Some acc
    else
      let bps := if PerEpochCapBps <? bps then PerEpochCapBps else bps in
      reduction ← MulDivFloorI64 orig bps BpsScale;
      let reduction := default 0 reduction in
      let eff := orig -64 reduction in
      let eff := if eff <? 0 then 0 else eff in
      Some (<[key := eff]> out, applied ++ [mkRewardReductionApplied account bps orig reduction eff]).

Fixpoint reduce_all (reductionBps : gmap string Z) (accounts : list string)
    (acc : gmap string Z * list RewardReductionApplied) : option (gmap string Z * list RewardReductionApplied) :=
  match accounts with
  | [] => Some acc
  | a :: accounts => acc ← reduce_one reductionBps acc a; reduce_all reductionBps accounts acc
  end.

Definition ApplyRewardReductionsToBonds (bonds reductionBps : gmap string Z)
    : option (gmap string Z * list RewardReductionApplied) :=
  reduce_all reductionBps (sorted_keys reductionBps) (bonds, []).

(** ** The record *)

Record RewardReductionEntry := mkRewardReductionEntry {
  re_Account : string;
  re_Bps : Z;
}.

Record SettlementRecord := mkSettlementRecord {
  sr_Epoch : Z;
  sr_PrevEpoch : Z;
  SnapshotRangeFrom : Z;
  SnapshotRangeTo : Z;
  sr_BucketBalanceHBD : Z;
  TotalDistributedHBD : Z;
  ResidualHBD : Z;
  RewardReductions : list RewardReductionEntry;
  Distributions : list Distribution;
}.

Definition red_le (a b : RewardReductionEntry) : Prop := String.le (re_Account a) (re_Account b).
Definition dist_le (a b : Distribution) : Prop := String.le (d_Account a) (d_Account b).

#[export] Instance red_le_dec : RelDecision red_le.
Proof. intros a b. unfold red_le. apply _. Defined.

#[export] Instance dist_le_dec : RelDecision dist_le.
Proof. intros a b. unfold dist_le. apply _. Defined.

Definition BuildSettlementRecord (epoch prevEpoch snapFrom snapTo bucket distributed residual : Z)
    (reductions : list RewardReductionEntry) (dists : list Distribution) : SettlementRecord :=
  mkSettlementRecord epoch prevEpoch snapFrom snapTo bucket distributed residual
    (merge_sort red_le reductions) (merge_sort dist_le dists).

Record ComposeInputs := mkComposeInputs {
  ci_Epoch : Z;
  ci_PrevEpoch : Z;
  EpochStartBh : Z;
  SlotHeight : Z;
  CommitteeBonds : gmap string Z;
  ci_BucketBalanceHBD : Z;
  ReductionsByAccount : gmap string Z;
  ShareDelegations : gmap string (gmap string Z);
}.

Definition reduction_payload (applied : list RewardReductionApplied) : list RewardReductionEntry :=
  (λ r, mkRewardReductionEntry (ra_Account r) (ra_Bps r)) <$> applied.

(** [inl] is an error return; the outer [None] a panic. *)
Definition ComposeRecord (i : ComposeInputs) : option (string + SettlementRecord) :=
  if ci_Epoch i =? 0 then Some (inl "epoch must be > 0")
  else if SlotHeight i <=? EpochStartBh i then Some (inl "slotHeight must exceed epochStartBh")
  else if ci_BucketBalanceHBD i <? 0 then Some (inl "negative bucket balance")
  else
    let build := BuildSettlementRecord (ci_Epoch i) (ci_PrevEpoch i) (EpochStartBh i) (SlotHeight i) in
    if ci_BucketBalanceHBD i =? 0 then Some (inr (build 0 0 0 [] []))
    else if bool_decide (CommitteeBonds i = ∅) then Some (inl "committee bonds map is empty")
    else
      '(effectiveBonds, applied) ← ApplyRewardReductionsToBonds (CommitteeBonds i) (ReductionsByAccount i);
      let totalEffectiveBond := sum64 (map_to_list effectiveBonds).*2 in
      if totalEffectiveBond <=? 0 then
        Some (inr (build (ci_BucketBalanceHBD i) 0 (ci_BucketBalanceHBD i) (reduction_payload applied) []))
      else
        dists ← ComputeNodeDistributions (ci_BucketBalanceHBD i) effectiveBonds;
        dists ← ExpandShareDistributions dists (ShareDelegations i);
        let distPayload := filter (λ d, negb (d_Amount d <=? 0) = true) dists in
        let totalDistributed := sum64 (d_Amount <$> distPayload) in
        let residual := ci_BucketBalanceHBD i -64 totalDistributed in
        if residual <? 0 then Some (inl "distribution sum exceeds bucket")
        else Some (inr (build (ci_BucketBalanceHBD i) totalDistributed residual (reduction_payload applied) distPayload)).

(** ** The split preview *)

Record SplitPreview := mkSplitPreview {
  sp_R : Z;
  sp_T : Z;
  sp_E : Z;
  sp_V : Z;
  sp_P : Z;
  sp_NodeShare : Z;
  sp_PoolShare : Z;
}.

Definition CalculateSplitPreviewFixed (r t effectiveNumerator effectiveDenominator v p : Z) : option SplitPreview :=
  if (r <=? 0) || (t <=? 0) || (effectiveNumerator <=? 0) || (effectiveDenominator <=? 0)
  then Some (mkSplitPreview r t 0 v p 0 0)
  else
    let e := i64_quo (t *64 effectiveNumerator) effectiveDenominator in
    if e <=? 0 then Some (mkSplitPreview r t 0 v p 0 0)
    else
      split ← SplitInt (mkSplitInputsInt (Some r) (Some e) (Some t) (Some v) (Some p));
      match split with
      | None => Some (mkSplitPreview r t e v p 0 0)
      | Some split =>
          let node := wrap64 (FinalNodeShare split) in
          let node := if node <? 0 then 0 else node in
          let node := if r <? node then r else node in
          Some (mkSplitPreview r t e v p node (r -64 node))
      end.

(** ** Lemmas: shares *)

Lemma sum64_amounts m : amounts_ok m → sum64 (map_to_list m).*2 = msum (λ v, v) m.
Proof.
  intros [Hnn Hle]. rewrite msum_list, list_fmap_id in *. apply sum64_exact. split; [|done].
  assert (0 <= zsum (map_to_list m).*2); [|unfold MinInt64; lia].
  apply zsum_nonneg, Forall_forall. intros z ([k v] & -> & Hv%elem_of_map_to_list)%list_elem_of_fmap. simpl. eauto.
Qed.

Lemma positive_total_eq m : amounts_ok m → positive_total m = msum (λ v, v) m.
Proof.
  intros Hok. rewrite <- sum64_amounts by done. unfold positive_total. f_equal.
  rewrite <- (list_fmap_id (map_to_list m).*2) at 2. apply list_fmap_ext. intros i b Hi.
  apply list_elem_of_lookup_2, list_elem_of_fmap in Hi as ([k v] & -> & Hv%elem_of_map_to_list). simpl.
  apply (proj1 Hok) in Hv. destruct (Z.ltb_spec 0 v); lia.
Qed.

Lemma merge_add_ok m k x :
  amounts_ok m → 0 <= x → msum (λ v, v) m + x <= MaxInt64 →
  amounts_ok (merge_add m k x) ∧ msum (λ v, v) (merge_add m k x) = msum (λ v, v) m + x ∧
  (∀ a, zget (merge_add m k x) a = zget m a + if String.eqb k a then x else 0).
Proof.
  intros Hok Hx Hle. unfold merge_add. destruct (Z.eqb_spec x 0) as [->|].
  { rewrite Z.add_0_r. split_and!; [done|done|]. intros a. destruct (String.eqb k a); lia. }
  destruct (map_add_ok m k x Hok Hx Hle) as [H1 H2]. split_and!; [done|done|].
  intros a. rewrite zget_map_add. cbn [fst snd]. destruct (String.eqb k a); [|lia].
  pose proof (zget_bounds m a Hok). apply i64_add_exact. unfold i64, MinInt64. lia.
Qed.

(** The floor shares of a positive amount over a map of stakes. *)
Lemma shares_le amount edges ks :
  amounts_ok edges → 0 <= amount → 0 < msum (λ v, v) edges → NoDup ks →
  0 <= zsum ((λ k, amount * zget edges k / msum (λ v, v) edges) <$> ks) <= amount.
Proof.
  intros Hok Ha Ht Hnd. set (t := msum (λ v, v) edges) in *.
  change (λ k, amount * zget edges k / t) with ((λ s, amount * s / t) ∘ zget edges). rewrite list_fmap_compose.
  apply zsum_floor_shares_le; [done|done| |].
  - apply Forall_fmap, Forall_forall. intros k _. by apply (zget_bounds edges k).
  - clear Ht. unfold t. clear t Ha. revert edges Hok. induction Hnd as [|k ks Hk Hnd IH]; intros edges Hok.
    + apply msum_nonneg. apply Hok.
    + csimpl. destruct (edges !! k) as [v|] eqn:E.
      * rewrite (msum_delete _ edges k v E). unfold zget at 1. rewrite E. simpl.
        assert (amounts_ok (delete k edges)) as Hok'.
        { split; [intros k' v' [_ Hv]%lookup_delete_Some; by eapply (proj1 Hok)|].
          destruct Hok as [Hnn Hle]. rewrite (msum_delete _ edges k v E) in Hle. apply Hnn in E. lia. }
        specialize (IH _ Hok').
        assert (zget edges <$> ks = zget (delete k edges) <$> ks) as ->; [|lia].
        apply list_fmap_ext. intros i k' Hi. unfold zget. rewrite lookup_delete_ne; [done|].
        intros ->. apply Hk. by eapply list_elem_of_lookup_2.
      * unfold zget at 1. rewrite E. simpl. by apply IH.
Qed.

Lemma split_shares_ok amount edges ks merged given :
  amounts_ok edges → 0 < msum (λ v, v) edges → 0 < amount <= MaxInt64 → NoDup ks →
  amounts_ok merged → 0 <= given → given + zsum ((λ k, amount * zget edges k / msum (λ v, v) edges) <$> ks) <= amount →
  msum (λ v, v) merged + amount - given <= MaxInt64 →
  ∃ merged' given', split_shares amount (msum (λ v, v) edges) edges ks (merged, given) = Some (merged', given') ∧
    amounts_ok merged' ∧ given' = given + zsum ((λ k, amount * zget edges k / msum (λ v, v) edges) <$> ks) ∧
    msum (λ v, v) merged' - given' = msum (λ v, v) merged - given ∧
    (∀ a, zget merged' a = zget merged a + if decide (a ∈ ks) then amount * zget edges a / msum (λ v, v) edges else 0).
Proof.
  intros Hed Ht Ha Hnd. set (t := msum (λ v, v) edges) in *. revert merged given.
  induction ks as [|k ks IH]; intros merged given Hm Hg Hsum Hbig.
  - eexists _, _. split; [done|]. split_and!; [done|simpl; lia|lia|]. intros a.
    rewrite decide_False by apply not_elem_of_nil. lia.
  - apply NoDup_cons in Hnd as [Hnk Hnd]. cbn [split_shares]. pose proof (zget_bounds edges k Hed) as Hk. fold t in Hk.
    rewrite MulDivFloorI64_share by (unfold i64, MinInt64; lia). cbn [mbind option_bind].
    rewrite fmap_cons in *. cbn [zsum] in *. pose proof (share_le amount (zget edges k) t ltac:(lia) Hk Ht) as Hs. set (x := amount * zget edges k / t) in *.
    assert (0 <= zsum ((λ k, amount * zget edges k / t) <$> ks)) as Hrest.
    { apply zsum_nonneg, Forall_fmap, Forall_forall. intros k' _. pose proof (zget_bounds edges k' Hed). apply Z.div_pos; [nia|done]. }
    assert (∀ a, (if decide (a ∈ k :: ks) then amount * zget edges a / t else 0)
      = (if String.eqb k a then x else 0) + (if decide (a ∈ ks) then amount * zget edges a / t else 0)) as Hcons.
    { intros a. destruct (String.eqb_spec k a) as [->|Hne].
      - rewrite decide_True by left. rewrite (decide_False (P := a ∈ ks)) by done. unfold x. lia.
      - destruct (decide (a ∈ ks)); [rewrite decide_True by by right|rewrite decide_False by set_solver]; lia. }
    destruct (Z.leb_spec x 0).
    + destruct (IH Hnd merged given) as (m' & g' & E & H1 & H2 & H3 & H4); [done|lia|lia|lia|]. exists m', g'.
      split_and!; [done|done|lia|done|]. intros a. rewrite Hcons, H4. destruct (String.eqb k a); lia.
    + cbn [fst snd]. destruct (merge_add_ok merged k x) as (Hm' & Hsm & Hv); [done|lia|lia|].
      rewrite i64_add_exact by (unfold i64, MinInt64; lia).
      destruct (IH Hnd (merge_add merged k x) (given + x)) as (m' & g' & E & H1 & H2 & H3 & H4); [done|lia|lia|lia|].
      exists m', g'. split_and!; [done|done|lia|lia|]. intros a. rewrite Hcons, H4, Hv. lia.
Qed.

(** The delegations of every node are stakes. *)
Definition shares_ok (sd : gmap string (gmap string Z)) : Prop := ∀ n e, sd !! n = Some e → amounts_ok e.

(** What an account gets of a node's part: a delegator the floor of its share, the
    operator also what the floors leave. *)
Definition part_of (sd : gmap string (gmap string Z)) (a : string) (d : Distribution) : Z :=
  let edges := default ∅ (sd !! d_Account d) in
  let t := msum (λ v, v) edges in
  let share k := d_Amount d * zget edges k / t in
  if (d_Amount d <=? 0) || (t <=? 0) then (if String.eqb (d_Account d) a then d_Amount d else 0)
  else share a + (if String.eqb (d_Account d) a then d_Amount d - zsum (share <$> sorted_keys edges) else 0).

(** Passing a node's part on to its delegators conserves it. *)
Lemma expand_one_ok sd merged d :
  shares_ok sd → amounts_ok merged → 0 <= d_Amount d → msum (λ v, v) merged + d_Amount d <= MaxInt64 →
  ∃ merged', expand_one sd merged d = Some merged' ∧ amounts_ok merged' ∧
    msum (λ v, v) merged' = msum (λ v, v) merged + d_Amount d ∧ (∀ a, zget merged' a = zget merged a + part_of sd a d).
Proof.
  intros Hsd Hm Hd Hle. unfold expand_one, part_of. set (edges := default ∅ (sd !! d_Account d)). cbv zeta.
  assert (amounts_ok edges) as Hed.
  { unfold edges. destruct (sd !! d_Account d) as [e|] eqn:E; [by eapply Hsd|apply amounts_ok_empty]. }
  pose proof (merge_add_ok merged (d_Account d) (d_Amount d) Hm Hd Hle) as (H1 & H2 & H3).
  destruct (Z.leb_spec (d_Amount d) 0); [by eauto|]. cbn [orb].
  destruct (bool_decide_reflect (edges = ∅)) as [->|Hne]; [rewrite msum_empty; by eauto|].
  rewrite positive_total_eq by done. destruct (Z.leb_spec (msum (λ v, v) edges) 0); [by eauto|].
  assert (0 <= msum (λ v, v) merged) by (apply msum_nonneg, Hm). set (t := msum (λ v, v) edges) in *.
  set (ks := sort_Strings _).
  assert (∀ k, k ∈ ks ↔ 0 < zget edges k) as Hks.
  { intros k. unfold ks. rewrite sort_Strings_Permutation, list_elem_of_fmap. setoid_rewrite list_elem_of_filter. split.
    - intros ([k' v] & -> & Hv & Hin%elem_of_map_to_list). simpl. unfold zget. by rewrite Hin.
    - intros Hk. unfold zget in Hk. destruct (edges !! k) as [v|] eqn:E; [|simpl in Hk; lia]. exists (k, v).
      by rewrite elem_of_map_to_list. }
  assert (NoDup ks) as Hnd.
  { unfold ks. rewrite sort_Strings_Permutation. eapply sublist_NoDup; [apply (NoDup_fst_map_to_list edges)|].
    apply fmap_sublist, sublist_filter. }
  assert (∀ k, k ∉ ks → d_Amount d * zget edges k / t = 0) as Hzero.
  { intros k Hk. rewrite Hks in Hk. pose proof (zget_bounds edges k Hed). replace (zget edges k) with 0 by lia.
    by rewrite Z.mul_0_r, Z.div_0_l by lia. }
  assert (zsum ((λ k, d_Amount d * zget edges k / t) <$> sorted_keys edges) = zsum ((λ k, d_Amount d * zget edges k / t) <$> ks)) as Hsk.
  { rewrite (zsum_Permutation _ ((λ k, d_Amount d * zget edges k / t) <$> ks ++ filter (λ k, k ∉ ks) (sorted_keys edges))).
    - rewrite fmap_app, zsum_app, (zsum_map_0 _ (filter _ _)); [lia|]. intros k [Hk _]%list_elem_of_filter. by apply Hzero.
    - apply fmap_Permutation, NoDup_Permutation; [apply sorted_keys_NoDup| |].
      + apply NoDup_app. split_and!; [done| |apply NoDup_filter, sorted_keys_NoDup]. by intros k Hk [Hn _]%list_elem_of_filter.
      + intros k. rewrite elem_of_app, list_elem_of_filter, sorted_keys_elem, Hks. split.
        * intros Hk. destruct (decide (0 < zget edges k)); tauto.
        * intros [Hk|[_ Hk]]; [|done]. unfold zget in Hk. destruct (edges !! k); [done|simpl in Hk; lia]. }
  pose proof (shares_le (d_Amount d) edges ks Hed ltac:(lia) ltac:(done) Hnd) as Hsl. fold t in Hsl.
  destruct (split_shares_ok (d_Amount d) edges ks merged 0) as (m' & g' & E & Hm' & Hg' & Hcons & Hv); [done|done|lia|done|done|done|fold t; lia|lia|].
  fold t in E, Hg', Hv. rewrite E. cbn [mbind option_bind]. rewrite Z.add_0_l in Hg'. rewrite Hsk.
  rewrite i64_sub_exact by (unfold i64, MinInt64; lia).
  destruct (merge_add_ok m' (d_Account d) (d_Amount d - g')) as (Hok' & Hsum' & Hv'); [done|lia|lia|].
  eexists. split; [done|]. split_and!; [done|lia|]. intros a. rewrite Hv', Hv, Hg'.
  destruct (decide (a ∈ ks)); [lia|]. rewrite (Hzero a) by done. lia.
Qed.

Lemma expand_all_ok sd dists merged :
  shares_ok sd → amounts_ok merged → Forall (λ d, 0 <= d_Amount d) dists →
  msum (λ v, v) merged + zsum (d_Amount <$> dists) <= MaxInt64 →
  ∃ merged', expand_all sd dists merged = Some merged' ∧ amounts_ok merged' ∧
    msum (λ v, v) merged' = msum (λ v, v) merged + zsum (d_Amount <$> dists) ∧
    (∀ a, zget merged' a = zget merged a + zsum (part_of sd a <$> dists)).
Proof.
  intros Hsd Hm Hd. revert merged Hm. induction Hd as [|d ds Hd Hds IH]; intros merged Hm Hle; csimpl in *.
  - exists merged. split_and!; [done|done|lia|intros; lia].
  - assert (0 <= zsum (d_Amount <$> ds)) by (by apply zsum_nonneg, Forall_fmap).
    destruct (expand_one_ok sd merged d) as (m1 & E1 & H1 & S1 & V1); [done|done|done|lia|].
    destruct (IH m1) as (m2 & E2 & H2 & S2 & V2); [done|lia|]. exists m2. cbn [expand_all]. rewrite E1. cbn [mbind option_bind].
    split_and!; [done|done|lia|]. intros a. rewrite V2, V1. lia.
Qed.

(** ** Lemmas: distributions *)

Lemma node_dists_eq share bonds ks :
  amounts_ok bonds → 0 < share <= MaxInt64 → 0 < msum (λ v, v) bonds →
  collect_out (node_dist share (msum (λ v, v) bonds) bonds) ks
  = Some ((λ k, mkDistribution k (share * zget bonds k / msum (λ v, v) bonds)) <$> filter (λ k, 0 < zget bonds k) ks).
Proof.
  intros Hb Hs Ht. set (t := msum (λ v, v) bonds) in *.
  assert (∀ k, node_dist share t bonds k
    = Some (if decide (0 < zget bonds k) then Some (mkDistribution k (share * zget bonds k / t)) else None)) as Hd.
  { intros k. unfold node_dist. pose proof (zget_bounds bonds k Hb). fold t in H.
    destruct (Z.leb_spec (zget bonds k) 0); [by rewrite decide_False by lia|]. rewrite decide_True by lia.
    by rewrite MulDivFloorI64_share by (unfold i64, MinInt64; lia). }
  induction ks as [|k ks IH]; [done|]. cbn [collect_out]. rewrite Hd, IH, filter_cons. cbn [mbind option_bind].
  by destruct (decide (0 < zget bonds k)).
Qed.

(** Every node gets the floor of its share; what is lost is at most a unit per
    member. *)
Lemma ComputeNode_ok share bonds :
  amounts_ok bonds → 0 < share <= MaxInt64 → 0 < msum (λ v, v) bonds →
  ∃ dists, ComputeNodeDistributions share bonds = Some dists ∧ Forall (λ d, 0 <= d_Amount d) dists ∧
    zsum (d_Amount <$> dists) <= share <= zsum (d_Amount <$> dists) + Z.of_nat (size bonds) ∧
    (∀ d, d ∈ dists ↔ 0 < zget bonds (d_Account d) ∧
                     d_Amount d = share * zget bonds (d_Account d) / msum (λ v, v) bonds).
Proof.
  intros Hb Hs Ht. unfold ComputeNodeDistributions. rewrite positive_total_eq by done.
  rewrite bool_decide_false by (intros ->; by rewrite msum_empty in Ht).
  rewrite !(proj2 (Z.leb_gt _ _)) by lia. cbn [orb]. cbv zeta.
  rewrite node_dists_eq by done. eexists. split; [done|]. set (t := msum (λ v, v) bonds) in *.
  assert (∀ k, 0 <= zget bonds k) as Hz by (intros k; by apply zget_bounds).
  assert (zsum (d_Amount <$> ((λ k, mkDistribution k (share * zget bonds k / t)) <$> filter (λ k, 0 < zget bonds k) (sorted_keys bonds)))
          = zsum ((λ k, share * zget bonds k / t) <$> sorted_keys bonds)) as Hsum.
  { generalize (sorted_keys bonds) as ks. induction ks as [|k ks IH]; [done|]. rewrite filter_cons. csimpl.
    destruct (decide (0 < zget bonds k)); csimpl; [by rewrite IH|]. specialize (Hz k). replace (zget bonds k) with 0 by lia.
    by rewrite Z.mul_0_r, Z.div_0_l by lia. }
  split_and!.
  - apply Forall_fmap, Forall_forall. intros k _. simpl. specialize (Hz k). apply Z.div_pos; nia.
  - rewrite Hsum. by apply shares_le; [|lia|..|apply sorted_keys_NoDup].
  - rewrite Hsum. pose proof (zsum_floor_shares_ge share t (zget bonds <$> sorted_keys bonds) ltac:(lia) Ht) as Hge.
    rewrite <- list_fmap_compose, length_fmap in Hge.
    assert (zsum (zget bonds <$> sorted_keys bonds) = t) as Htot by apply (zsum_sorted_keys (λ v, v)).
    assert (length (sorted_keys bonds) = size bonds) as Hlen.
    { unfold sorted_keys. by rewrite (sort_Strings_Permutation _), length_fmap, length_map_to_list. }
    rewrite Htot, Hlen in Hge. change ((λ s, share * s / t) ∘ zget bonds) with (λ k, share * zget bonds k / t) in Hge.
    assert (Forall (λ s, 0 <= s) (zget bonds <$> sorted_keys bonds)) as Hf by (apply Forall_fmap, Forall_forall; intros; apply Hz).
    specialize (Hge Hf). nia.
  - intros [a x]. rewrite list_elem_of_fmap. cbn [d_Account d_Amount]. setoid_rewrite list_elem_of_filter.
    setoid_rewrite sorted_keys_elem. split.
    + intros (k & [= -> ->] & Hk & _). done.
    + intros [Hk ->]. exists a. split_and!; [done|done|]. unfold zget in Hk. destruct (bonds !! a); [by eexists|simpl in Hk; lia].
Qed.

Lemma dist_list_sum m : amounts_ok m → zsum (d_Amount <$> dist_list m) = msum (λ v, v) m.
Proof.
  intros Hm. rewrite <- (zsum_sorted_keys (λ v, v) m). unfold dist_list. generalize (sorted_keys m) as ks.
  induction ks as [|k ks IH]; [done|]. csimpl. pose proof (zget_bounds m k Hm). destruct (Z.leb_spec (zget m k) 0); csimpl; lia.
Qed.

Lemma dist_list_elem m d : d ∈ dist_list m ↔ 0 < d_Amount d ∧ zget m (d_Account d) = d_Amount d.
Proof.
  unfold dist_list. rewrite list_elem_of_omap. setoid_rewrite sorted_keys_elem. split.
  - intros (a & _ & Ha). destruct (Z.leb_spec (zget m a) 0); [done|]. by injection Ha as <-.
  - intros [Hd Hz]. exists (d_Account d). split.
    + unfold zget in Hz. destruct (m !! d_Account d); [by eexists|simpl in Hz; lia].
    + rewrite Hz. destruct (Z.leb_spec (d_Amount d) 0); [lia|]. by destruct d.
Qed.

Lemma dist_list_accounts m : sublist (d_Account <$> dist_list m) (sorted_keys m).
Proof.
  unfold dist_list. generalize (sorted_keys m) as ks. induction ks as [|k ks IH]; [constructor|]. csimpl.
  destruct (zget m k <=? 0); csimpl; by constructor.
Qed.

(** ** Lemmas: reductions *)

Lemma msum_lower m k x :
  amounts_ok m → 0 <= x <= zget m k → amounts_ok (<[k := x]> m) ∧ msum (λ v, v) (<[k := x]> m) = msum (λ v, v) m - (zget m k - x).
Proof.
  intros Hm Hx. assert (msum (λ v, v) (<[k := x]> m) = msum (λ v, v) m - (zget m k - x)) as Hs.
  { rewrite msum_insert. unfold zget. destruct (m !! k); simpl; lia. }
  split; [|done]. split; [|destruct Hm; lia]. intros k' v [[_ <-]|[_ Hv]]%lookup_insert_Some; [lia|]. by eapply (proj1 Hm).
Qed.

(** The reduction of a bond, never more than the bond. *)
Definition reduced (bond bps : Z) : Z := bond - bond * Z.min bps PerEpochCapBps / BpsScale.

Lemma reduced_bounds bond bps : 0 <= bond → 0 <= bps → 0 <= reduced bond bps <= bond.
Proof.
  intros Hb Hp. unfold reduced. pose proof (share_le bond (Z.min bps PerEpochCapBps) BpsScale Hb) as Hs.
  unfold PerEpochCapBps, BpsScale in *. specialize (Hs ltac:(lia) ltac:(lia)). lia.
Qed.

Lemma reduce_one_ok red out applied a :
  amounts_ok out →
  ∃ out' applied', reduce_one red (out, applied) a = Some (out', applied') ∧ amounts_ok out' ∧
    (∀ k, zget out' k = if String.eqb k (normalizeHiveAccount a) && (0 <? zget red a)
                        then reduced (zget out k) (zget red a) else zget out k) ∧
    (∀ k, is_Some (out' !! k) ↔ is_Some (out !! k)).
Proof.
  intros Hok. unfold reduce_one. set (key := normalizeHiveAccount a). pose proof (zget_bounds out key Hok) as Hz.
  destruct (Z.leb_spec (zget out key) 0).
  - eexists _, _. split_and!; [done|done| |done]. intros k. destruct (String.eqb_spec k key) as [->|]; [|done].
    replace (zget out key) with 0 by lia. by destruct (_ && _).
  - destruct (Z.leb_spec (zget red a) 0).
    + eexists _, _. split_and!; [done|done| |done]. intros k. rewrite (proj2 (Z.ltb_ge _ _)), andb_false_r by lia. done.
    + assert ((if PerEpochCapBps <? zget red a then PerEpochCapBps else zget red a) = Z.min (zget red a) PerEpochCapBps) as ->
        by (destruct (Z.ltb_spec PerEpochCapBps (zget red a)); lia).
      destruct Hok as [Hnn Hle]. pose proof (conj Hnn Hle : amounts_ok out) as Hok.
      rewrite MulDivFloorI64_share by (unfold i64, MinInt64, PerEpochCapBps, BpsScale; lia). cbn [mbind option_bind default from_option id].
      pose proof (reduced_bounds (zget out key) (zget red a) ltac:(lia) ltac:(lia)) as Hr. unfold reduced in Hr.
      rewrite i64_sub_exact by (unfold i64, MinInt64; lia). rewrite (proj2 (Z.ltb_ge _ 0)) by lia.
      eexists _, _. split; [done|]. destruct (msum_lower out key (reduced (zget out key) (zget red a)) Hok Hr) as [Hok' _].
      split_and!; [done| |].
      * intros k. rewrite (proj2 (Z.ltb_lt _ _)), andb_true_r by lia. unfold zget at 1.
        destruct (String.eqb_spec k key) as [->|]; [by rewrite lookup_insert_eq|by rewrite lookup_insert_ne].
      * intros k. rewrite lookup_insert_is_Some'. split; [intros [<-|?]|by right]; [|done].
        unfold zget in H. destruct (out !! key); [by eexists|simpl in H; lia].
Qed.

Lemma reduce_all_ok red ks out applied :
  amounts_ok out →
  ∃ out' applied', reduce_all red ks (out, applied) = Some (out', applied') ∧ amounts_ok out' ∧
    (∀ k, zget out' k <= zget out k) ∧ (∀ k, is_Some (out' !! k) ↔ is_Some (out !! k)).
Proof.
  revert out applied. induction ks as [|a ks IH]; intros out applied Hok; [by eexists _, _|].
  destruct (reduce_one_ok red out applied a Hok) as (o1 & a1 & E1 & H1 & Hz1 & Hd1).
  destruct (IH o1 a1 H1) as (o2 & a2 & E2 & H2 & Hz2 & Hd2). exists o2, a2. cbn [reduce_all]. rewrite E1. cbn [mbind option_bind].
  split_and!; [done|done| |by intros k; rewrite Hd2].
  intros k. etrans; [apply Hz2|]. rewrite Hz1. destruct (_ && _) eqn:E; [|done]. z_of_bool.
  pose proof (zget_bounds out k Hok). apply reduced_bounds; lia.
Qed.

(** ** Lemmas: the record *)

#[export] Instance dist_le_total : Total dist_le.
Proof. intros a b. apply (total String.le). Qed.

#[export] Instance dist_le_trans : Transitive dist_le.
Proof. intros a b c. unfold dist_le. apply transitivity. Qed.

Lemma dist_list_all_positive m : filter (λ d, negb (d_Amount d <=? 0) = true) (dist_list m) = dist_list m.
Proof.
  apply filter_all. intros d Hd%dist_list_elem.
  apply negb_true_iff, Z.leb_gt. lia.
Qed.

(** The bonds the distribution uses. *)
Definition effective_bonds (i : ComposeInputs) : gmap string Z :=
  match ApplyRewardReductionsToBonds (CommitteeBonds i) (ReductionsByAccount i) with
  | Some (out, _) => out
  | None => ∅
  end.

Definition compose_ok (i : ComposeInputs) : Prop :=
  ci_Epoch i ≠ 0 ∧ EpochStartBh i < SlotHeight i ∧ 0 <= ci_BucketBalanceHBD i <= MaxInt64 ∧
  (ci_BucketBalanceHBD i = 0 ∨ CommitteeBonds i ≠ ∅) ∧
  amounts_ok (CommitteeBonds i) ∧ shares_ok (ShareDelegations i).

(** The node-level distribution of an epoch that distributes something. *)
Definition node_level (i : ComposeInputs) : list Distribution :=
  default [] (ComputeNodeDistributions (ci_BucketBalanceHBD i) (effective_bonds i)).

Lemma Apply_ok bonds red :
  amounts_ok bonds →
  ∃ out applied, ApplyRewardReductionsToBonds bonds red = Some (out, applied) ∧ amounts_ok out ∧
    (∀ k, zget out k <= zget bonds k) ∧ (∀ k, is_Some (out !! k) ↔ is_Some (bonds !! k)).
Proof. intros Hb. by apply reduce_all_ok. Qed.

(** What [ComposeRecord] returns: a marker, or the expanded distribution. *)
Lemma compose_cases i :
  compose_ok i →
  let bucket := ci_BucketBalanceHBD i in
  let build := BuildSettlementRecord (ci_Epoch i) (ci_PrevEpoch i) (EpochStartBh i) (SlotHeight i) bucket in
  let eff := effective_bonds i in
  amounts_ok eff ∧ size eff = size (CommitteeBonds i) ∧
  ((bucket = 0 ∨ msum (λ v, v) eff = 0) ∧ (∃ reds, ComposeRecord i = Some (inr (build 0 bucket reds []))) ∨
   0 < bucket ∧ 0 < msum (λ v, v) eff ∧
   ∃ merged reds, expand_all (ShareDelegations i) (node_level i) ∅ = Some merged ∧ amounts_ok merged ∧
     msum (λ v, v) merged = zsum (d_Amount <$> node_level i) ∧
     (∀ a, zget merged a = zsum (part_of (ShareDelegations i) a <$> node_level i)) ∧
     zsum (d_Amount <$> node_level i) <= bucket <= zsum (d_Amount <$> node_level i) + Z.of_nat (size eff) ∧
     ComposeRecord i = Some (inr (build (msum (λ v, v) merged) (bucket - msum (λ v, v) merged) reds (dist_list merged)))).
Proof.
  intros (He & Hslot & Hb & Hne & Hbonds & Hsd). cbv zeta.
  destruct (Apply_ok (CommitteeBonds i) (ReductionsByAccount i) Hbonds) as (out & applied & EA & Hout & _ & Hdom).
  assert (effective_bonds i = out) as Heff by by (unfold effective_bonds; rewrite EA).
  assert (size out = size (CommitteeBonds i)) as Hsize.
  { rewrite <- !size_dom. f_equal. apply leibniz_equiv. intros k. rewrite !elem_of_dom. apply Hdom. }
  rewrite Heff. split; [done|]. split; [done|].
  unfold ComposeRecord. rewrite (proj2 (Z.eqb_neq _ _) He), (proj2 (Z.leb_gt _ _) Hslot), (proj2 (Z.ltb_ge _ 0)) by lia.
  destruct (Z.eqb_spec (ci_BucketBalanceHBD i) 0) as [E0|E0].
  { left. split; [by left|]. rewrite E0. by eexists. }
  rewrite bool_decide_false by (destruct Hne; [lia|done]). rewrite EA. cbn [mbind option_bind].
  assert (0 <= msum (λ v, v) out) by (apply msum_nonneg, Hout).
  rewrite sum64_amounts by done.
  destruct (Z.leb_spec (msum (λ v, v) out) 0).
  { left. split; [right; lia|]. by eexists. }
  right. split; [lia|]. split; [done|].
  destruct (ComputeNode_ok (ci_BucketBalanceHBD i) out Hout ltac:(lia) ltac:(lia)) as (dists & ED & Hnn & Hsum & _).
  assert (node_level i = dists) as -> by by (unfold node_level; rewrite Heff, ED).
  destruct (expand_all_ok (ShareDelegations i) dists ∅ Hsd amounts_ok_empty Hnn) as (merged & EM & Hm & Hms & Hv).
  { rewrite msum_empty. lia. }
  rewrite msum_empty, Z.add_0_l in Hms. exists merged, (reduction_payload applied).
  split_and!; [done|done|done| |lia|lia|].
  - intros a. rewrite Hv, zget_empty. lia.
  - rewrite ED. cbn [mbind option_bind]. unfold ExpandShareDistributions. rewrite EM. cbn [mbind option_bind].
    rewrite dist_list_all_positive.
    assert (0 <= zsum (d_Amount <$> dists)) by (by apply zsum_nonneg, Forall_fmap).
    assert (sum64 (d_Amount <$> dist_list merged) = msum (λ v, v) merged) as ->.
    { rewrite <- dist_list_sum by done. apply sum64_exact. rewrite dist_list_sum by done. unfold i64, MinInt64. lia. }
    rewrite i64_sub_exact by (unfold i64, MinInt64; lia). rewrite (proj2 (Z.ltb_ge _ 0)) by lia. done.
Qed.

(** ** Lemmas: reading bonds *)

(** What the sample list is at any point of the loop. *)
Definition samples_ok (start stop : Z) (out : list Z) : Prop := Forall (λ h, start < h <= stop) out ∧ NoDup out.

Lemma samples_ok_snoc start stop out h :
  samples_ok start stop out → start < h <= stop → (h ∉ out) → samples_ok start stop (out ++ [h]).
Proof.
  intros [Hf Hnd] Hh Hn. split; [apply Forall_app; split; [done|by constructor]|].
  apply NoDup_app. split_and!; [done|set_solver|apply NoDup_singleton].
Qed.

Lemma sample_step_ok start stop step out i :
  0 <= start → start < stop → 0 <= step * Z.of_nat i → stop + step * Z.of_nat i < MaxUint64 →
  samples_ok start stop out →
  let out' := sample_step start stop step out i in
  samples_ok start stop out' ∧ (length out' <= S (length out))%nat ∧ (∀ h, h ∈ out → h ∈ out') ∧
  (i = 0%nat → start + 1 ∈ out').
Proof.
  intros Hs Hlt Hm Hbig Hout. unfold sample_step, u64_add.
  rewrite (wrapu64_id (step * _)), (wrapu64_id (start + _)), (wrapu64_id (start + 1)) by (unfold_widths; lia).
  set (bh0 := if stop <? start + step * Z.of_nat i then stop else start + step * Z.of_nat i). cbv zeta.
  set (bh := if bh0 <=? start then start + 1 else bh0).
  assert (start < bh <= stop ∧ (i = 0%nat → bh = start + 1)) as [Hbh H0].
  { unfold bh. assert (start <= bh0 <= stop ∧ (i = 0%nat → bh0 = start)) by (unfold bh0; destruct (Z.ltb_spec stop (start + step * Z.of_nat i)); lia).
    destruct (Z.leb_spec bh0 start); lia. }
  destruct (bool_decide_reflect (bh ∈ out)) as [Hin|Hin].
  - split_and!; [done|lia|done|]. intros Hi. by rewrite <- H0.
  - split_and!; [by apply samples_ok_snoc|rewrite length_app; simpl; lia|set_solver|].
    intros Hi. rewrite <- H0 by done. set_solver.
Qed.

Lemma sample_fold_ok start stop step n out l :
  0 <= start → start < stop → 0 < step → stop + step * n < MaxUint64 → (∀ i, i ∈ l → Z.of_nat i <= n) →
  samples_ok start stop out →
  let out' := foldl (sample_step start stop step) out l in
  samples_ok start stop out' ∧ (length out' <= length out + length l)%nat ∧ (∀ h, h ∈ out → h ∈ out') ∧
  (0%nat ∈ l → start + 1 ∈ out').
Proof.
  intros Hs Hlt Hstep Hbig Hl. revert out. induction l as [|i l IH]; intros out Hout; cbn [foldl].
  - cbv zeta. split_and!; [done|simpl; lia|done|]. intros Hz. by apply not_elem_of_nil in Hz.
  - destruct (sample_step_ok start stop step out i) as (H1 & H2 & H3 & H4); [done|done|nia| |done|].
    { specialize (Hl i ltac:(by left)). nia. }
    destruct (IH ltac:(intros; apply Hl; by right) _ H1) as (H5 & H6 & H7 & H8).
    split_and!; [done|simpl; lia|by auto|]. intros [Hz|Hz]%elem_of_cons; [apply H7, H4; lia|by apply H8].
Qed.

Lemma sample_heights start stop count :
  0 <= start → start < stop → 2 * (stop + Z.of_nat count) < MaxUint64 →
  let hs := sampleBlocksAcrossWindow start stop count in
  samples_ok start stop hs ∧ stop ∈ hs ∧ (length hs <= S count)%nat ∧ ((2 <= count)%nat → start + 1 ∈ hs).
Proof.
  intros Hs Hlt Hbig. unfold sampleBlocksAcrossWindow, u64_add. rewrite (wrapu64_id (start + 1)) by (unfold_widths; lia).
  assert (samples_ok start stop [stop]) as H1 by (split; [repeat constructor; lia|apply NoDup_singleton]).
  destruct (Nat.ltb_spec count 2); [cbv zeta; split_and!; [done|by left|simpl; lia|lia]|].
  destruct (Z.leb_spec stop (start + 1)).
  { cbv zeta. split_and!; [done|by left|simpl; lia|]. intros _. replace stop with (start + 1) by lia. by left. }
  unfold u64_sub. rewrite (wrapu64_id (stop - start)) by (unfold_widths; lia).
  set (n := Z.of_nat (count - 1)). assert (0 < n) by lia.
  set (step := if (stop - start) / n =? 0 then 1 else (stop - start) / n).
  assert (0 < step ∧ step * n <= stop - start + n) as [Hstep Hsn].
  { unfold step. pose proof (Z.div_pos (stop - start) n ltac:(lia) ltac:(lia)).
    destruct (Z.eqb_spec ((stop - start) / n) 0); [lia|]. pose proof (Z.mul_div_le (stop - start) n ltac:(lia)). lia. }
  cbv zeta. destruct (sample_fold_ok start stop step n [] (seq 0 count)) as (F2 & F3 & _ & F4);
    [done|done|done|lia|intros i Hi%elem_of_seq; lia|split; constructor|].
  rewrite length_seq in F3. simpl in F3. specialize (F4 ltac:(apply elem_of_seq; lia)).
  destruct (bool_decide_reflect (stop ∈ foldl (sample_step start stop step) [] (seq 0 count))) as [Hin|Hin].
  - split_and!; [done|done|lia|done].
  - split_and!; [apply samples_ok_snoc; [done|lia|done]|set_solver|rewrite length_app; simpl; lia|set_solver].
Qed.

Section read_bonds.
Context (reader : string → Z → option (option BalanceRecord)).

(** The bond at a height; a missing row counts as none. *)
Definition bond_at (a : string) (h : Z) : Z :=
  match reader a h with Some (Some r) => br_HIVE_CONSENSUS r | _ => 0 end.

Lemma readMin_error a hs acc h : h ∈ hs → reader a h = None → readMin reader a hs acc = None.
Proof.
  revert acc. induction hs as [|x hs IH]; intros acc Hin Hr; [by apply not_elem_of_nil in Hin|]. cbn [readMin].
  apply elem_of_cons in Hin as [<-|Hin]; [by rewrite Hr|]. destruct (reader a x); [|done]. cbn [mbind option_bind]. by apply IH.
Qed.

Lemma readMin_ok a hs acc :
  (∀ h, h ∈ hs → is_Some (reader a h) ∧ 0 <= bond_at a h) → (acc.2 = true → 0 <= acc.1) →
  ∃ m, readMin reader a hs acc = Some (m, acc.2 || negb (bool_decide (hs = []))) ∧
    (∀ h, h ∈ hs → m <= bond_at a h) ∧ (acc.2 = true → m <= acc.1) ∧
    ((acc.2 = true ∨ hs = []) ∧ m = acc.1 ∨ ∃ h, h ∈ hs ∧ m = bond_at a h).
Proof.
  revert acc. induction hs as [|x hs IH]; intros [m0 b0] Hr Hacc.
  { exists m0. cbn [readMin fst snd]. rewrite orb_false_r. split_and!; [done|set_solver|lia|by left; split; [right|]]. }
  destruct (Hr x ltac:(by left)) as [[rec Hrec] Hnn]. cbn [readMin]. rewrite Hrec. cbn [mbind option_bind fst snd].
  set (acc' := match rec with None => (0, true) | Some r => if negb b0 || (br_HIVE_CONSENSUS r <? m0) then (br_HIVE_CONSENSUS r, true) else (m0, b0) end).
  assert (acc'.2 = true ∧ acc'.1 <= bond_at a x ∧ (b0 = true → acc'.1 <= m0) ∧ 0 <= acc'.1 ∧
          (b0 = true ∧ acc'.1 = m0 ∨ acc'.1 = bond_at a x)) as (H1 & H2 & H3 & H4 & H5).
  { unfold acc', bond_at in *. rewrite Hrec in *. cbn [fst snd] in Hacc. destruct rec as [r|]; [|simpl; naive_solver lia].
    destruct b0; cbn [negb orb]; [|simpl; naive_solver lia]. destruct (Z.ltb_spec (br_HIVE_CONSENSUS r) m0); simpl; naive_solver lia. }
  destruct (IH acc') as (m & E & Hm1 & Hm2 & Hm3); [intros h Hh; apply Hr; by right|done|].
  exists m. rewrite E, H1, (bool_decide_false (x :: hs = [])), orb_true_r by done. split_and!; [done| | |].
  - intros h [->|Hh]%elem_of_cons; [specialize (Hm2 H1); lia|by apply Hm1].
  - intros Hb. specialize (Hm2 H1). specialize (H3 Hb). lia.
  - destruct Hm3 as [[_ ->]|(h & Hh & ->)]; [|right; exists h; split; [by right|done]].
    destruct H5 as [[Hb ->]| ->]; [left; split; [by left|done]|right; exists x; split; [by left|done]].
Qed.

(** The minimum over the samples is what is stored for a member. *)
Lemma read_members_error members hs out m h :
  m ∈ members → normalizeHiveAccount m ≠ "" → h ∈ hs → reader (normalizeHiveAccount m) h = None →
  read_members reader members hs out = None.
Proof.
  intros Hm Hne Hh Hr. revert out. induction members as [|x l IH]; intros out; [by apply not_elem_of_nil in Hm|]. cbn [read_members].
  apply elem_of_cons in Hm as [<-|Hm].
  - rewrite (proj2 (String.eqb_neq _ _) Hne). unfold readMinBondAcrossSamples. by rewrite (readMin_error _ _ _ h).
  - specialize (IH Hm). destruct (String.eqb _ _); [done|]. destruct (readMinBondAcrossSamples _ _ _) as [[? ok]|]; [|done].
    cbn [mbind option_bind]. destruct (negb ok); [done|]. by destruct (_ <=? 0).
Qed.

Definition window_min (hs : list Z) (a : string) (b : Z) : Prop :=
  0 < b ∧ (∀ h, h ∈ hs → b <= bond_at a h) ∧ ∃ h, h ∈ hs ∧ b = bond_at a h.

Lemma window_min_unique hs a b b' : window_min hs a b → window_min hs a b' → b = b'.
Proof. intros (_ & H1 & h & Hh & ->) (_ & H2 & h' & Hh' & ->). specialize (H1 h' Hh'). specialize (H2 h Hh). lia. Qed.

(** One member: the map changes at most at its account, to the minimum. *)
Lemma read_one_ok acct hs :
  hs ≠ [] → (∀ h, h ∈ hs → is_Some (reader acct h) ∧ 0 <= bond_at acct h) →
  ∃ m, readMinBondAcrossSamples reader acct hs = Some (m, true) ∧ (∀ b, window_min hs acct b ↔ 0 < m ∧ b = m).
Proof.
  intros Hhs Hr. destruct (readMin_ok acct hs (0, false) Hr ltac:(done)) as (m & Em & H1 & _ & H2).
  exists m. unfold readMinBondAcrossSamples. rewrite Em, bool_decide_false by done. split; [done|].
  assert (∃ h, h ∈ hs ∧ m = bond_at acct h) as Hex by (destruct H2 as [[[?|?] _]|?]; done).
  intros b. split.
  - intros Hw. destruct (Z.le_gt_cases m 0) as [Hm|Hm].
    + exfalso. destruct Hw as (Hb & Hle & _), Hex as (h & Hh & ->). specialize (Hle h Hh). lia.
    + split; [done|]. eapply window_min_unique; [exact Hw|]. done.
  - intros [Hm ->]. done.
Qed.

Lemma read_members_ok members hs out :
  hs ≠ [] → (∀ m h, m ∈ members → h ∈ hs →
    is_Some (reader (normalizeHiveAccount m) h) ∧ 0 <= bond_at (normalizeHiveAccount m) h) →
  ∃ out', read_members reader members hs out = Some out' ∧
    (∀ a b, out' !! a = Some b →
       out !! a = Some b ∨ (a ≠ "" ∧ a ∈ normalizeHiveAccount <$> members ∧ window_min hs a b)) ∧
    (∀ a b, window_min hs a b → a ≠ "" → (a ∈ normalizeHiveAccount <$> members ∨ out !! a = Some b) → out' !! a = Some b).
Proof.
  intros Hhs. revert out. induction members as [|x l IH]; intros out Hr.
  { exists out. split_and!; [done|by left|]. intros a b _ _ [Hin|?]; [by apply not_elem_of_nil in Hin|done]. }
  rewrite fmap_cons. set (acct := normalizeHiveAccount x).
  assert (∃ out1, read_members reader (x :: l) hs out = read_members reader l hs out1 ∧
    (∀ a b, out1 !! a = Some b → out !! a = Some b ∨ (a = acct ∧ a ≠ "" ∧ window_min hs a b)) ∧
    (∀ a b, window_min hs a b → a ≠ "" → a = acct ∨ out !! a = Some b → out1 !! a = Some b)) as (out1 & E1 & S1 & C1).
  { cbn [read_members]. fold acct. destruct (String.eqb_spec acct "") as [E|E].
    { exists out. split_and!; [done|by left|]. intros a b _ Ha [->|?]; done. }
    destruct (read_one_ok acct hs Hhs) as (m & Em & Hw); [intros h Hh; apply Hr; [by left|done]|].
    rewrite Em. cbn [mbind option_bind negb]. destruct (Z.leb_spec m 0).
    - exists out. split_and!; [done|by left|]. intros a b Hab _ [->|?]; [|done]. apply Hw in Hab. lia.
    - exists (<[acct := m]> out). split_and!; [done| |].
      + intros a b [[<- <-]|[_ ?]]%lookup_insert_Some; [|by left]. right. split_and!; [done|done|by apply Hw].
      + intros a b Hab _ Hor. destruct (decide (a = acct)) as [->|Hne].
        * apply Hw in Hab as [_ ->]. apply lookup_insert_eq.
        * rewrite lookup_insert_ne by done. by destruct Hor. }
  destruct (IH out1) as (out' & E2 & S2 & C2); [intros m h Hm; apply Hr; by right|]. exists out'. rewrite E1.
  split_and!; [done| |].
  - intros a b Hab. destruct (S2 a b Hab) as [Hab1|(H1 & H2 & H3)]; [|right; split_and!; [done|by right|done]].
    destruct (S1 a b Hab1) as [?|(-> & H1 & H2)]; [by left|]. right. split_and!; [done|by left|done].
  - intros a b Hw Ha Hor. apply C2; [done|done|]. destruct Hor as [[->|?]%elem_of_cons|?]; [right; apply C1; auto|by left|right; apply C1; auto].
Qed.
End read_bonds.

(** ** Properties *)

(** C35: a bond counts for what it was through the whole epoch.  When every read
    succeeds, the bond credited to a member is the least of its bonds at the
    sampled heights, which lie in the window and include its first and last
    block, so a bond raised for the settlement counts for nothing; and a single
    failed read refuses the whole result instead of leaving a sample out. *)
Theorem bond_is_window_minimum reader members start slot :
  members ≠ [] → 0 <= start → start < slot → 2 * (slot + 8) < MaxUint64 →
  let hs := sampleBlocksAcrossWindow start slot bondSampleCount in
  samples_ok start slot hs ∧ start + 1 ∈ hs ∧ slot ∈ hs ∧
  ((∀ m h, m ∈ members → h ∈ hs →
      is_Some (reader (normalizeHiveAccount m) h) ∧ 0 <= bond_at reader (normalizeHiveAccount m) h) →
   ∃ bonds, ReadCommitteeBonds reader members start slot = Some bonds ∧
     ∀ a b, bonds !! a = Some b ↔ a ≠ "" ∧ a ∈ normalizeHiveAccount <$> members ∧ window_min reader hs a b) ∧
  (∀ m h, m ∈ members → normalizeHiveAccount m ≠ "" → h ∈ hs → reader (normalizeHiveAccount m) h = None →
     ReadCommitteeBonds reader members start slot = None).
Proof.
  intros Hne Hs Hlt Hbig hs. destruct (sample_heights start slot bondSampleCount Hs Hlt ltac:(change (Z.of_nat bondSampleCount) with 8; lia)) as (H1 & H2 & _ & H3).
  fold hs in H1, H2, H3. specialize (H3 ltac:(unfold bondSampleCount; lia)).
  assert (ReadCommitteeBonds reader members start slot = read_members reader members hs ∅) as ->.
  { unfold ReadCommitteeBonds. rewrite bool_decide_false by done. rewrite (proj2 (Z.eqb_neq _ _)), (proj2 (Z.leb_gt _ _)) by lia. done. }
  split_and!; [done|done|done| |].
  - intros Hr. destruct (read_members_ok reader members hs ∅) as (bonds & E & S & C); [intros En; rewrite En in H2; by apply not_elem_of_nil in H2|done|].
    exists bonds. split; [done|]. intros a b. split.
    + intros Hab. destruct (S a b Hab) as [He|?]; [by rewrite lookup_empty in He|done].
    + intros (Ha & Hin & Hw). apply C; auto.
  - intros m h Hm Ha Hh Hr. by eapply read_members_error.
Qed.

(** C34: a settlement can always be composed, and conserves the bucket.  For an
    epoch greater than zero, a window that is not empty, a bucket that is not
    negative and a committee with bonds, [ComposeRecord] returns a record,
    without panic or error, whatever penalties are applied; what it distributes
    and what it leaves sum to the bucket; the payments are positive, one per
    account, in the order of the accounts; and unless everything was reduced
    away it leaves at most one unit per member. *)
Theorem settlement_conserves i :
  compose_ok i →
  ∃ rec, ComposeRecord i = Some (inr rec) ∧
    sr_BucketBalanceHBD rec = ci_BucketBalanceHBD i ∧
    TotalDistributedHBD rec + ResidualHBD rec = ci_BucketBalanceHBD i ∧ 0 <= ResidualHBD rec ∧
    TotalDistributedHBD rec = zsum (d_Amount <$> Distributions rec) ∧
    Forall (λ d, 0 < d_Amount d) (Distributions rec) ∧
    NoDup (d_Account <$> Distributions rec) ∧ Sorted dist_le (Distributions rec) ∧
    (0 < msum (λ v, v) (effective_bonds i) → ResidualHBD rec <= Z.of_nat (size (CommitteeBonds i))).
Proof.
  intros Hok. pose proof Hok as (_ & _ & Hb & _).
  destruct (compose_cases i Hok) as (Heff & Hsize & [[Hz [reds E]]|(Hpos & Htot & merged & reds & EM & Hm & Hms & Hv & Hsum & E)]);
    rewrite E; eexists; (split; [done|]); cbn [BuildSettlementRecord sr_BucketBalanceHBD TotalDistributedHBD ResidualHBD Distributions].
  - split_and!; [done|lia|lia|done|constructor|constructor|constructor|]. intros Hp. destruct Hz; lia.
  - assert (merge_sort dist_le (dist_list merged) ≡ₚ dist_list merged) as Hp by apply merge_sort_Permutation.
    split_and!; [done|lia|lia| | | | |].
    + rewrite (zsum_Permutation _ _ (fmap_Permutation _ _ _ Hp)). by rewrite dist_list_sum.
    + rewrite Hp. apply Forall_forall. intros d Hd%dist_list_elem. lia.
    + rewrite Hp. eapply sublist_NoDup; [apply (sorted_keys_NoDup merged)|apply dist_list_accounts].
    + apply (Sorted_merge_sort dist_le).
    + intros _. rewrite <- Hsize. lia.
Qed.

(** Everyone is paid its exact share.  When an epoch distributes, every member
    with a positive effective bond contributes the floor of its pro rata part of
    the bucket, and an account is paid the sum, over the members, of what it is
    due of the member's part: a delegator of a sharing node the floor of its
    share of the stake, the operator the rest, and the operator of another node
    all of it.  An account that is not in the record is due nothing. *)
Theorem settlement_pays_shares i :
  compose_ok i → 0 < ci_BucketBalanceHBD i → 0 < msum (λ v, v) (effective_bonds i) →
  (∀ d, d ∈ node_level i ↔ 0 < zget (effective_bonds i) (d_Account d) ∧
     d_Amount d = ci_BucketBalanceHBD i * zget (effective_bonds i) (d_Account d) / msum (λ v, v) (effective_bonds i)) ∧
  ∃ rec, ComposeRecord i = Some (inr rec) ∧
    ∀ a, zsum ((λ d, if String.eqb (d_Account d) a then d_Amount d else 0) <$> Distributions rec)
         = zsum (part_of (ShareDelegations i) a <$> node_level i).
Proof.
  intros Hok Hpos Htot. pose proof Hok as (_ & _ & Hb & _). destruct (compose_cases i Hok) as (Heff & _ & Hcase). split.
  - destruct (ComputeNode_ok (ci_BucketBalanceHBD i) (effective_bonds i) Heff ltac:(lia) Htot) as (ds & ED & _ & _ & Hds).
    unfold node_level. rewrite ED. exact Hds.
  - destruct Hcase as [[[?|?] _]|(_ & _ & merged & reds & EM & Hm & Hms & Hv & Hsum & E)]; [lia|lia|].
    rewrite E. eexists. split; [done|]. intros a. cbn [BuildSettlementRecord Distributions].
    rewrite (zsum_Permutation _ _ (fmap_Permutation _ _ _ (merge_sort_Permutation dist_le (dist_list merged)))), <- Hv.
    pose proof (zget_bounds merged a Hm) as Hz.
    assert (zsum ((λ d, if String.eqb (d_Account d) a then d_Amount d else 0) <$> dist_list merged)
      = zsum ((λ k, if String.eqb k a then zget merged k else 0) <$> sorted_keys merged)) as ->.
    { unfold dist_list. generalize (sorted_keys merged) as ks. induction ks as [|k ks IH]; [done|]. csimpl.
      pose proof (zget_bounds merged k Hm). destruct (Z.leb_spec (zget merged k) 0); csimpl; rewrite IH; [|done].
      destruct (String.eqb k a); lia. }
    pose proof (sorted_keys_NoDup merged) as Hnd. destruct (decide (a ∈ sorted_keys merged)) as [Hin|Hin].
    + apply list_elem_of_split in Hin as (l1 & l2 & El). rewrite El in *. rewrite fmap_app, fmap_cons, zsum_app. cbn [zsum].
      rewrite String.eqb_refl, !zsum_map_0; [lia|..]; intros k Hk; destruct (String.eqb_spec k a) as [->|]; try done; exfalso;
        apply NoDup_app in Hnd as (_ & Hd & Hn2); [by apply NoDup_cons in Hn2 as [Hn2 _]|by apply (Hd a Hk); left].
    + rewrite zsum_map_0; [|intros k Hk; by destruct (String.eqb_spec k a) as [->|]].
      rewrite sorted_keys_elem in Hin. unfold zget. destruct (merged !! a); [exfalso; by apply Hin; eexists|done].
Qed.
