(* ===== verification/SettlementApply.v ===== *)
(** Settling an epoch on chain: [modules/state-processing/pendulum_settlement.go],
    [modules/db/vsc/pendulum_settlements/], and the settlement part of
    [GenerateFullElection] in [modules/election-proposer/election-proposer.go].

    The proposer of an election embeds the record of the epoch that closes; every
    node validates the record, re-derives it, pays it out of the bucket and marks
    the epoch as settled. *)
From S2P Require Import Prelude GoMaps GoStrings IntMath LedgerDb LedgerTypes LedgerState SafetySlash Reserve Rewards.
From S2P Require Import Settlement ConsensusVersion Delegation DelegationMode.

(** ** Markers *)

Record SettlementMarker := mkSettlementMarker {
  sm_Epoch : Z;
  sm_BlockHeight : Z;
  sm_SnapshotRangeFrom : Z;
  sm_SnapshotRangeTo : Z;
  sm_TotalDistributedHBD : Z;
  sm_ResidualHBD : Z;
}.

(** The collection, one marker per epoch. *)
Abbreviation markers := (gmap Z SettlementMarker).

Definition SaveMarker (m : SettlementMarker) (db : markers) : markers := <[sm_Epoch m := m]> db.

(** [GetLatestSettledEpoch] of the database; a failed read looks like an empty
    collection. *)
Definition latest_marker (readOk : bool) (db : markers) : Z * bool :=
  if readOk
  then foldl (λ acc e, if negb acc.2 || (acc.1 <? e) then (e, true) else acc) (0, false) (map_to_list db).*1
  else (0, false).

Definition GetLatestSettledEpoch (readOk : bool) (db : markers) : Z := (latest_marker readOk db).1.

(** [saved] is whether the write goes through. *)
Definition seedPendulumSettlement (cp : ConsensusParams) (readOk saved : bool) (db : markers) : markers :=
  if negb (PendulumSeedConfigured cp) then db
  else if (latest_marker readOk db).2 then db
  else if saved then SaveMarker (mkSettlementMarker (PendulumSeedEpoch cp) 0 0 0 0 0) db else db.

(** ** Ids *)

(** The digits of a number, the last first put in front. *)
Fixpoint dec_digits (fuel : nat) (v : Z) (buf : string) : string :=
  match fuel with
  | O => buf
  | S fuel =>
      if 0 <? v
      then dec_digits fuel (v / 10) (String (Ascii.ascii_of_nat (48 + Z.to_nat (v mod 10))) buf)
      else buf
  end.

(** A 64-bit number has at most twenty digits. *)
Definition uintToDecString (v : Z) : string := if v =? 0 then "0" else dec_digits 20 v "".

Definition pendulumSettlementTxID (epoch : Z) : string := "pendulum:settlement:" +:+ uintToDecString epoch.

Definition hive_account (a : string) : string := if HasPrefix a "hive:" then a else "hive:" +:+ a.

(** ** What a node reads *)

Record settle_env := mkSettleEnv {
  (** [GetElectionByHeight]; [None] is an error *)
  sv_election : Z → option ElectionResult;
  (** the balance records *)
  sv_balance : string → Z → option (option BalanceRecord);
  (** [PendulumShareDelegations]; [None] is [ok=false] *)
  sv_shares : list string → Z → option edge_map;
  (** [buildTickInputs] of a tick with a committee *)
  sv_inputs : Z → option TickInputs;
  (** [EncodeDagCbor] of a record *)
  sv_encode : SettlementRecord → option string;
  sv_testnet : bool;
}.

Definition DefaultTickIntervalBlocks : Z := 100.
Definition testnetReplayNoRederiveBelowHeight : Z := 4769770.

(** ** Validation *)

Fixpoint sum_checked (ds : list Distribution) (sum : Z) : string + Z :=
  match ds with
  | [] => inr sum
  | d :: ds => if d_Amount d <? 0 then inl "negative distribution amount" else sum_checked ds (sum +64 d_Amount d)
  end.

Definition committee_accounts (el : ElectionResult) : list string := (λ m, hive_account (em_Account m)) <$> el_Members el.

(** [None] is the nil error. *)
Definition validatePendulumSettlement (env : settle_env) (rec : SettlementRecord) : option string :=
  if sr_BucketBalanceHBD rec <? 0 then Some "negative BucketBalanceHBD"
  else if TotalDistributedHBD rec <? 0 then Some "negative TotalDistributedHBD"
  else if sr_BucketBalanceHBD rec <? TotalDistributedHBD rec then Some "TotalDistributedHBD exceeds BucketBalanceHBD"
  else if ResidualHBD rec <? 0 then Some "negative ResidualHBD"
  else if negb (TotalDistributedHBD rec +64 ResidualHBD rec =? sr_BucketBalanceHBD rec) then Some "conservation broken"
  else
    match sum_checked (Distributions rec) 0 with
    | inl err => Some err
    | inr sum =>
        if negb (sum =? TotalDistributedHBD rec) then Some "sum(distributions) != TotalDistributedHBD"
        else
          match sv_election env (SnapshotRangeTo rec) with
          | None => None
          | Some election =>
              if bool_decide (el_Members election = []) then Some "election has no members"
              else
                let members := committee_accounts election in
                let shareDelegations := default ∅ (sv_shares env members (SnapshotRangeTo rec)) in
                let allowed a := existsb (λ e : string * gmap string Z, bool_decide (is_Some (e.2 !! a))) (map_to_list shareDelegations) in
                if existsb (λ d, let a := hive_account (d_Account d) in negb (slices_Contains members a || allowed a)) (Distributions rec)
                then Some "distribution to non-committee account"
                else if existsb (λ r, negb (slices_Contains members (hive_account (re_Account r)))) (RewardReductions rec)
                then Some "reward reduction for non-committee account"
                else None
          end
    end.

Section ledger.
Context {S : Type} `{LedgerDb S}.
Implicit Types s : S.

(** *** Composing the inputs from the chain, as the proposer and the validator do *)

(** The inputs of a record for the members of an election, from its height to
    [toBh]; [None] when a read fails. *)
Definition compose_inputs (env : settle_env) (bucket epoch prevEpoch fromBh toBh : Z) (members : list string) : option ComposeInputs :=
  bonds ← ReadCommitteeBonds (sv_balance env) members fromBh toBh;
  let reductions := ComputeReductionsForEpoch (sv_inputs env) fromBh toBh DefaultTickIntervalBlocks in
  shares ← sv_shares env members toBh;
  Some (mkComposeInputs epoch prevEpoch fromBh toBh bonds bucket reductions shares).

(** The settlement a proposer embeds; [inr None] is an election without one, the
    outer [None] a panic. *)
Definition settlement_stage (env : settle_env) (readErr readOk : bool) (previous : option ElectionResult)
    (previousEpoch blockHeight : Z) (db : markers) s : option (string + option SettlementRecord) :=
  match previous with
  | None => Some (inr None)
  | Some previousElection =>
      if negb (0 <? previousEpoch) then Some (inr None)
      else
        let bucket := PendulumBucketBalance readErr PendulumNodesHBDBucket blockHeight s in
        match compose_inputs env bucket previousEpoch (GetLatestSettledEpoch readOk db)
                (el_BlockHeight previousElection) blockHeight (committee_accounts previousElection) with
        | None => Some (inl "pendulum settlement: committee bond or share-delegation read failed")
        | Some i =>
            r ← ComposeRecord i;
            Some (match r with inl err => inl err | inr rec => inr (Some rec) end)
        end
  end.

(** *** Re-derivation *)

(** Whether it ran, and whether the bytes differ; the outer [None] is a panic. *)
Definition rederivePendulumSettlement (env : settle_env) (readErr : bool) (rec : SettlementRecord) s : option (bool * bool) :=
  match sv_election env (SnapshotRangeTo rec) with
  | None => Some (false, false)
  | Some election =>
      if bool_decide (el_Members election = []) then Some (false, false)
      else
        let bucket := PendulumBucketBalance readErr PendulumNodesHBDBucket (SnapshotRangeTo rec) s in
        if bucket <? 0 then Some (false, false)
        else
          match compose_inputs env bucket (sr_Epoch rec) (sr_PrevEpoch rec) (SnapshotRangeFrom rec)
                  (SnapshotRangeTo rec) (committee_accounts election) with
          | None => Some (false, false)
          | Some i =>
              r ← ComposeRecord i;
              Some (match r with
                    | inl _ => (false, false)
                    | inr expected =>
                        match sv_encode env expected, sv_encode env rec with
                        | Some expectedBytes, Some actualBytes => (true, negb (String.eqb expectedBytes actualBytes))
                        | _, _ => (false, false)
                        end
                    end)
          end
  end.

(** *** Payment *)

(** One round of the loop: the store, and whether a distribution has failed. *)
Definition pay_one (readErr : string → bool) (txID : string) (blockHeight : Z) (acc : S * bool) (d : Distribution) : S * bool :=
  let '(s, failed) := acc in
  if d_Amount d <=? 0 then acc
  else
    let acct := hive_account (d_Account d) in
    let txKey := txID +:+ "#" +:+ acct in
    let '(res, s) := PendulumDistribute (readErr acct) acct (d_Amount d) txKey blockHeight s in
    (s, failed || negb (Ok res)).

Definition pay_all (readErr : string → bool) (txID : string) (blockHeight : Z) (ds : list Distribution) s : S * bool :=
  foldl (pay_one readErr txID blockHeight) (s, false) ds.

(** What can go wrong in one call: the read of the latest epoch, the reads of the
    bucket, and the write of the marker. *)
Record outcomes := mkOutcomes {
  oc_latestOk : bool;
  oc_rederiveErr : bool;
  oc_bucketErr : string → bool;
  oc_saved : bool;
}.

Definition applyPendulumSettlement (env : settle_env) (oc : outcomes) (rec : SettlementRecord) (blockHeight : Z)
    (db : markers) s : option (markers * S) :=
  let latest := GetLatestSettledEpoch (oc_latestOk oc) db in
  if sr_Epoch rec <=? latest then Some (db, s)
  else if negb (sr_PrevEpoch rec =? latest) then Some (db, s)
  else if bool_decide (validatePendulumSettlement env rec ≠ None) then Some (db, s)
  else
    let skipRederive := sv_testnet env && (blockHeight <? testnetReplayNoRederiveBelowHeight) in
    refused ← (if skipRederive then Some false
               else r ← rederivePendulumSettlement env (oc_rederiveErr oc) rec s; Some (r.1 && r.2));
    if refused : bool then Some (db, s)
    else
      let '(s, failed) := pay_all (oc_bucketErr oc) (pendulumSettlementTxID (sr_Epoch rec)) blockHeight (Distributions rec) s in
      if failed then Some (db, s)
      else if oc_saved oc
      then Some (SaveMarker (mkSettlementMarker (sr_Epoch rec) blockHeight (SnapshotRangeFrom rec) (SnapshotRangeTo rec)
                   (TotalDistributedHBD rec) (ResidualHBD rec)) db, s)
      else Some (db, s).
End ledger.

(** ** Lemmas: ids *)

Fixpoint dec_value (acc : Z) (s : string) : Z :=
  match s with
  | "" => acc
  | String c s => dec_value (10 * acc + (Z.of_nat (Ascii.nat_of_ascii c) - 48)) s
  end.

Lemma dec_digits_value fuel v buf : 0 <= v < 10 ^ Z.of_nat fuel → dec_value 0 (dec_digits fuel v buf) = dec_value v buf.
Proof.
  revert v buf. induction fuel as [|fuel IH]; intros v buf Hv; cbn [dec_digits].
  { change (10 ^ Z.of_nat 0) with 1 in Hv. by replace v with 0 by lia. }
  destruct (Z.ltb_spec 0 v); [|by replace v with 0 by lia].
  rewrite Nat2Z.inj_succ, Z.pow_succ_r in Hv by lia.
  pose proof (Z.div_mod v 10 ltac:(lia)). pose proof (Z.mod_pos_bound v 10 ltac:(lia)).
  rewrite IH by (split; [apply Z.div_pos; lia|apply Z.div_lt_upper_bound; lia]). cbn [dec_value].
  rewrite Ascii.nat_ascii_embedding by lia. f_equal. lia.
Qed.

Lemma uintToDecString_value v : 0 <= v <= MaxUint64 → dec_value 0 (uintToDecString v) = v.
Proof.
  intros Hv. unfold uintToDecString. destruct (Z.eqb_spec v 0) as [->|]; [done|].
  rewrite dec_digits_value; [done|]. change (10 ^ Z.of_nat 20) with 100000000000000000000. unfold_widths. lia.
Qed.

Lemma hive_account_prefix a : ∃ t, hive_account a = "hive:" +:+ t.
Proof. unfold hive_account. destruct (HasPrefix a _) eqn:E; [by apply HasPrefix_spec|by eexists]. Qed.

Lemma trim_right_h n t : ∃ t', trim_right n ("h" +:+ t) = "h" +:+ t'.
Proof.
  revert t. induction n as [|n IH]; intros t; [by eexists|]. cbn [trim_right].
  destruct (list_find _ _) as [[i w]|] eqn:Hf; [|by eexists].
  apply list_find_Some in Hf as (Hi%list_elem_of_lookup_2 & [u Hu]%HasSuffix_spec & _).
  destruct u as [|c u].
  - exfalso. rewrite sapp_nil_l in Hu. subst w.
    assert (Forall (λ w, HasPrefix w "h" = false) space_encodings) as Hall by (repeat constructor).
    rewrite Forall_forall in Hall. apply Hall in Hi. by rewrite HasPrefix_app in Hi.
  - rewrite Hu, TrimSuffix_app. rewrite sapp_cons in Hu. injection Hu as <- Hu. apply (IH u).
Qed.

Lemma hive_account_trim a : TrimSpace (hive_account a) ≠ "".
Proof.
  destruct (hive_account_prefix a) as [t ->]. unfold TrimSpace. rewrite trim_left_id.
  - change ("hive:" +:+ t) with ("h" +:+ ("ive:" +:+ t)).
    by destruct (trim_right_h (slen ("h" +:+ ("ive:" +:+ t))) ("ive:" +:+ t)) as [t' ->].
  - assert (Forall (λ w, HasPrefix ("hive:" +:+ t) w = false) space_encodings) as Hall by (repeat constructor).
    rewrite Forall_forall in Hall. exact Hall.
Qed.

Lemma hive_account_bucket a : hive_account a ≠ PendulumNodesHBDBucket.
Proof. destruct (hive_account_prefix a) as [t ->]. done. Qed.

(** The rows of a payment. *)
Definition pay_rows (txID : string) (blockHeight : Z) (d : Distribution) : list LedgerRecord :=
  let acct := hive_account (d_Account d) in distribute_rows acct (txID +:+ "#" +:+ acct) (d_Amount d) blockHeight.

Definition pay_ids (txID a : string) : list string :=
  (λ k, (txID +:+ "#" +:+ a) +:+ k +:+ a) <$> ["#distribute_debit#"; "#distribute_credit#"].

Lemma pay_rows_ids txID bh d : lr_Id <$> pay_rows txID bh d = pay_ids txID (hive_account (d_Account d)).
Proof. done. Qed.

(** Payments of different accounts have different rows. *)
Lemma pay_ids_disjoint txID a b id : id ∈ pay_ids txID a → id ∈ pay_ids txID b → a = b.
Proof.
  assert (∀ a b k k', (txID +:+ "#" +:+ a) +:+ k +:+ a = (txID +:+ "#" +:+ b) +:+ k' +:+ b → slen k = slen k' → a = b) as Heq.
  { clear. intros a b k k' He Hk. rewrite !sapp_assoc in He. apply sapp_inj_l, (sapp_inj_l "#") in He.
    assert (slen a = slen b) as Hl. { apply (f_equal slen) in He. rewrite !slen_app in He. lia. }
    by rewrite <- (stake_app a (k +:+ a)), He, Hl, stake_app. }
  assert (∀ a b, (txID +:+ "#" +:+ a) +:+ "#distribute_debit#" +:+ a ≠ (txID +:+ "#" +:+ b) +:+ "#distribute_credit#" +:+ b) as Hne.
  { clear. intros a b He%(f_equal slen). rewrite !slen_app in He. change (slen "#distribute_debit#") with 18%nat in He.
    change (slen "#distribute_credit#") with 19%nat in He. lia. }
  unfold pay_ids. cbn [fmap list_fmap]. rewrite !elem_of_cons, !elem_of_nil.
  intros [->|[->|[]]] [E|[E|[]]]; [by eapply Heq|by apply Hne in E|by symmetry in E; apply Hne in E|by eapply Heq].
Qed.

(** ** Lemmas: markers *)

Lemma latest_fold (l : list Z) (acc : Z * bool) :
  let r := foldl (λ (acc : Z * bool) (e : Z), if negb acc.2 || (acc.1 <? e) then (e, true) else acc) acc l in
  (acc.2 = true → r.2 = true ∧ acc.1 <= r.1) ∧ (∀ e : Z, e ∈ l → r.2 = true ∧ e <= r.1) ∧
  (r = acc ∨ r.1 ∈ l ∧ r.2 = true).
Proof.
  revert acc. induction l as [|x l IH]; intros acc; cbn [foldl]; cbv zeta.
  { split_and!; [by intros ->|by intros e He%not_elem_of_nil|by left]. }
  set (acc' := if negb acc.2 || (acc.1 <? x) then (x, true) else acc). destruct (IH acc') as (I1 & I2 & I3).
  assert (acc'.2 = true ∧ x <= acc'.1 ∧ (acc.2 = true → acc.1 <= acc'.1)) as (A1 & A2 & A3).
  { unfold acc'. destruct acc as [a []]; cbn [fst snd negb orb]; [|split_and!; [done|done|done]].
    destruct (Z.ltb_spec a x); cbn [fst snd]; split_and!; try done; lia. }
  destruct (I1 A1) as [B1 B2]. split_and!.
  - intros Ha. split; [done|]. etrans; [by apply A3|done].
  - intros e [->|He]%elem_of_cons; [split; [done|lia]|by apply I2].
  - destruct I3 as [->|[? ?]]; [|right; split; [by right|done]].
    unfold acc'. destruct (negb acc.2 || (acc.1 <? x)); [right; split; [by left|done]|by left].
Qed.

Lemma latest_ge db e : is_Some (db !! e) → e <= GetLatestSettledEpoch true db.
Proof.
  intros [m Hm]. unfold GetLatestSettledEpoch, latest_marker.
  apply (latest_fold (map_to_list db).*1 (0, false)). apply list_elem_of_fmap. exists (e, m). split; [done|].
  by apply elem_of_map_to_list.
Qed.

Lemma latest_cases db : db = ∅ ∧ latest_marker true db = (0, false) ∨ is_Some (db !! GetLatestSettledEpoch true db) ∧ (latest_marker true db).2 = true.
Proof.
  unfold GetLatestSettledEpoch, latest_marker. destruct (latest_fold (map_to_list db).*1 (0, false)) as (_ & Hall & [E|[Hin H2]]).
  - left. rewrite E. split; [|done]. apply map_empty. intros e. destruct (db !! e) as [m|] eqn:Em; [|done]. exfalso.
    destruct (Hall e) as [? _]; [|by rewrite E in *]. apply list_elem_of_fmap. exists (e, m). split; [done|by apply elem_of_map_to_list].
  - right. split; [|done]. apply list_elem_of_fmap in Hin as ([e m] & -> & Hm%elem_of_map_to_list). by exists m.
Qed.

Lemma latest_save db m :
  GetLatestSettledEpoch true db < sm_Epoch m → GetLatestSettledEpoch true (SaveMarker m db) = sm_Epoch m.
Proof.
  intros Hlt. set (r := GetLatestSettledEpoch true (SaveMarker m db)).
  assert (sm_Epoch m <= r) by (apply latest_ge; unfold SaveMarker; rewrite lookup_insert_eq; by eexists).
  destruct (latest_cases (SaveMarker m db)) as [[E _]|[Hs _]]; [by destruct (insert_non_empty db (sm_Epoch m) m)|]. fold r in Hs.
  unfold SaveMarker in Hs. apply lookup_insert_is_Some' in Hs as [->|Hs]; [done|]. apply latest_ge in Hs. lia.
Qed.

(** ** Lemmas: payment *)

Section payment.
Context {S : Type} `{LedgerDbLaws S}.
Implicit Types s : S.
Context (readErr : string → bool) (txID : string) (bh : Z).

(** A payment from a bucket that covers it, in a database that has recovered. *)
Lemma pay_one_ok d s :
  db_wf s → faults s = 0%nat → readErr (hive_account (d_Account d)) = false → 0 <= bh →
  0 < d_Amount d <= bucket_total bh (rows s) → bucket_total bh (rows s) <= MaxInt64 →
  (∀ id, id ∈ pay_ids txID (hive_account (d_Account d)) → rows s !! id = None) →
  ∃ s', pay_one readErr txID bh (s, false) d = (s', false) ∧ db_wf s' ∧ faults s' = 0%nat ∧
    rows s' = upserts (pay_rows txID bh d) (rows s) ∧ bucket_total bh (rows s') = bucket_total bh (rows s) - d_Amount d.
Proof.
  intros Hwf Hf Hr Hbh Ham Hmax Hfresh. unfold pay_one. rewrite (proj2 (Z.leb_gt _ 0)) by lia. rewrite Hr.
  unfold PendulumDistribute. set (acct := hive_account (d_Account d)).
  rewrite (proj2 (String.eqb_neq (TrimSpace acct) "") (hive_account_trim _)), (proj2 (Z.leb_gt _ 0)) by lia.
  rewrite (proj2 (String.eqb_neq _ "")) by by apply sapp_ne_r. cbv zeta.
  rewrite bucket_read, wrap64_id by (done || unfold_widths; lia). rewrite (proj2 (Z.ltb_ge _ (d_Amount d))) by lia.
  change (distribute_rows acct (txID +:+ "#" +:+ acct) (d_Amount d) bh) with (pay_rows txID bh d).
  destruct (StoreLedger _ s) as [s' ok] eqn:Hst.
  assert (Forall (λ r, lr_Id r ≠ "") (pay_rows txID bh d)) as Hne by (repeat constructor; by apply sapp_ne_r).
  destruct (store_spec _ _ _ _ Hwf Hne Hst) as (k & Hwf' & Hrows & Hk). destruct ok; [|lia]. destruct Hk as [-> Hf'].
  rewrite take_ge in Hrows by done. exists s'. split_and!; [done|done|lia|done|].
  rewrite Hrows. apply distribute_bucket; [|apply hive_account_bucket|lia|done].
  intros r Hr'. apply Hfresh. rewrite <- (pay_rows_ids txID bh d). by apply list_elem_of_fmap_2.
Qed.

Lemma pay_all_ok ds s :
  db_wf s → faults s = 0%nat → (∀ a, readErr a = false) → 0 <= bh →
  Forall (λ d, 0 <= d_Amount d) ds → NoDup (hive_account ∘ d_Account <$> ds) →
  zsum (d_Amount <$> ds) <= bucket_total bh (rows s) <= MaxInt64 →
  (∀ d id, d ∈ ds → id ∈ pay_ids txID (hive_account (d_Account d)) → rows s !! id = None) →
  ∃ s', pay_all readErr txID bh ds s = (s', false) ∧ db_wf s' ∧
    rows s' = upserts (filter (λ d, 0 < d_Amount d) ds ≫= pay_rows txID bh) (rows s) ∧
    bucket_total bh (rows s') = bucket_total bh (rows s) - zsum (d_Amount <$> ds).
Proof.
  intros Hwf Hf Hr Hbh. unfold pay_all. revert s Hwf Hf.
  induction ds as [|d ds IH]; intros s Hwf Hf Hpos Hnd Hle Hfresh.
  { exists s. cbn. split_and!; [done|done|done|lia]. }
  inversion Hpos as [|? ? Hd Hpos']; subst. rewrite fmap_cons in Hnd. apply NoDup_cons in Hnd as [Hni Hnd].
  rewrite fmap_cons in Hle |- *. cbn [zsum foldl] in *. rewrite filter_cons.
  assert (0 <= zsum (d_Amount <$> ds)) as Hz by (apply zsum_nonneg, Forall_fmap; exact Hpos').
  destruct (decide (0 < d_Amount d)) as [Hp|Hp].
  - destruct (pay_one_ok d s Hwf Hf (Hr _) Hbh ltac:(lia) ltac:(lia)) as (s1 & E1 & Hwf1 & Hf1 & R1 & B1).
    { intros id Hid. by apply (Hfresh d); [left|]. }
    rewrite E1. destruct (IH s1 Hwf1 Hf1 Hpos' Hnd ltac:(lia)) as (s' & E & Hwf' & R' & B').
    { intros x id Hx Hid. rewrite R1. rewrite lookup_upserts_ne; [by apply (Hfresh x); [right|]|].
      rewrite pay_rows_ids. intros Hid'. destruct Hni. apply list_elem_of_fmap. exists x. split; [|done].
      by apply (pay_ids_disjoint txID _ _ id). }
    exists s'. split_and!; [done|done| |lia]. rewrite R', R1. cbn [mbind list_bind]. by rewrite upserts_app.
  - unfold pay_one at 2. rewrite (proj2 (Z.leb_le _ 0)) by lia.
    destruct (IH s Hwf Hf Hpos' Hnd ltac:(lia)) as (s' & E & Hwf' & R' & B'); [by intros x id Hx; apply (Hfresh x); right|].
    exists s'. split_and!; [done|done|done|lia].
Qed.
End payment.

(** ** Lemmas: validation *)

Lemma existsb_false {A} (f : A → bool) l : (∀ x, x ∈ l → f x = false) → existsb f l = false.
Proof.
  intros Hf. apply not_true_iff_false. intros (x & Hx & Hfx)%existsb_exists. apply list_elem_of_In, Hf in Hx. congruence.
Qed.

Lemma sum_checked_ok ds acc v :
  sum_checked ds acc = inr v → Forall (λ d, 0 <= d_Amount d) ds ∧
  (0 <= acc → acc + zsum (d_Amount <$> ds) <= MaxInt64 → v = acc + zsum (d_Amount <$> ds)).
Proof.
  revert acc. induction ds as [|d ds IH]; intros acc; cbn [sum_checked].
  { intros [= <-]. split; [constructor|]. cbn. lia. }
  destruct (Z.ltb_spec (d_Amount d) 0); [done|]. intros [Hpos Hv]%IH. split; [by constructor|].
  intros Ha Hle. rewrite fmap_cons in *. cbn [zsum] in *.
  assert (0 <= zsum (d_Amount <$> ds)) by (apply zsum_nonneg, Forall_fmap; exact Hpos).
  rewrite i64_add_exact in Hv by (unfold_widths; lia). rewrite Hv by lia. lia.
Qed.

Lemma sum_checked_exact ds acc :
  Forall (λ d, 0 <= d_Amount d) ds → 0 <= acc → acc + zsum (d_Amount <$> ds) <= MaxInt64 →
  sum_checked ds acc = inr (acc + zsum (d_Amount <$> ds)).
Proof.
  revert acc. induction ds as [|d ds IH]; intros acc Hpos Ha Hle; cbn [sum_checked]; [cbn; f_equal; lia|].
  inversion Hpos as [|? ? Hd Hpos']; subst. rewrite fmap_cons in *. cbn [zsum] in *.
  assert (0 <= zsum (d_Amount <$> ds)) by (apply zsum_nonneg, Forall_fmap; exact Hpos').
  rewrite (proj2 (Z.ltb_ge _ 0)), i64_add_exact, IH by (unfold_widths; (lia || done)). f_equal. lia.
Qed.

Lemma validate_sound env rec :
  validatePendulumSettlement env rec = None →
  0 <= TotalDistributedHBD rec <= sr_BucketBalanceHBD rec ∧ 0 <= ResidualHBD rec ∧
  TotalDistributedHBD rec +64 ResidualHBD rec = sr_BucketBalanceHBD rec ∧
  sum_checked (Distributions rec) 0 = inr (TotalDistributedHBD rec).
Proof.
  unfold validatePendulumSettlement.
  do 4 (match goal with |- context [?a <? ?b] => destruct (Z.ltb_spec a b); [done|] end).
  destruct (Z.eqb_spec (TotalDistributedHBD rec +64 ResidualHBD rec) (sr_BucketBalanceHBD rec)); [|done]. cbn [negb].
  destruct (sum_checked _ _) as [|sum] eqn:Es; [done|]. destruct (Z.eqb_spec sum (TotalDistributedHBD rec)) as [->|]; [|done].
  intros _. split_and!; (done || lia).
Qed.

(** A record that adds up and whose accounts are known passes. *)
Lemma validate_complete env rec election shares :
  let members := committee_accounts election in
  0 <= sr_BucketBalanceHBD rec <= MaxInt64 → 0 <= TotalDistributedHBD rec → 0 <= ResidualHBD rec →
  TotalDistributedHBD rec + ResidualHBD rec = sr_BucketBalanceHBD rec →
  Forall (λ d, 0 <= d_Amount d) (Distributions rec) → TotalDistributedHBD rec = zsum (d_Amount <$> Distributions rec) →
  sv_election env (SnapshotRangeTo rec) = Some election → el_Members election ≠ [] →
  sv_shares env members (SnapshotRangeTo rec) = Some shares →
  (∀ d, d ∈ Distributions rec → hive_account (d_Account d) ∈ members ∨
     ∃ n e, shares !! n = Some e ∧ is_Some (e !! hive_account (d_Account d))) →
  (∀ r, r ∈ RewardReductions rec → hive_account (re_Account r) ∈ members) →
  validatePendulumSettlement env rec = None.
Proof.
  intros members Hb Ht Hr Hc Hpos Hsum Hel Hne Hsh Hd Hred. unfold validatePendulumSettlement.
  rewrite !(proj2 (Z.ltb_ge _ _)) by lia. rewrite i64_add_exact by (unfold_widths; lia).
  rewrite (proj2 (Z.eqb_eq _ _)) by done. cbn [negb].
  rewrite sum_checked_exact by (done || lia). rewrite Z.add_0_l, <- Hsum, Z.eqb_refl. cbn [negb].
  rewrite Hel, bool_decide_false by done. cbv zeta. fold members. rewrite Hsh. cbn [default from_option id].
  replace (existsb _ (Distributions rec)) with false.
  2: { symmetry. apply existsb_false. intros d Hd'. cbv zeta. apply negb_false_iff, orb_true_iff.
       destruct (Hd d Hd') as [Hm|(n & e & He & Hs)]; [left; by apply slices_Contains_spec|right].
       apply existsb_exists. exists (n, e). rewrite <- list_elem_of_In, elem_of_map_to_list. split; [done|]. by apply bool_decide_eq_true_2. }
  replace (existsb _ (RewardReductions rec)) with false; [done|].
  symmetry. apply existsb_false. intros r Hr'. apply negb_false_iff, slices_Contains_spec. by apply Hred.
Qed.

(** ** Lemmas: composed records *)

Lemma read_members_keys reader ms samples out r k :
  read_members reader ms samples out = Some r → is_Some (r !! k) →
  is_Some (out !! k) ∨ ∃ m, m ∈ ms ∧ k = normalizeHiveAccount m.
Proof.
  revert out. induction ms as [|m ms IH]; intros out; cbn [read_members]; [intros [= <-]; by left|].
  assert (∀ out', (is_Some (out' !! k) → is_Some (out !! k) ∨ k = normalizeHiveAccount m) →
    read_members reader ms samples out' = Some r → is_Some (r !! k) → is_Some (out !! k) ∨ ∃ x, x ∈ m :: ms ∧ k = normalizeHiveAccount x) as Hgo.
  { intros out' Ho Hr Hk. destruct (IH out' Hr Hk) as [[?| ->]%Ho|(x & Hx & ->)]; [by left|right; exists m; split; [by left|done]|].
    right. exists x. split; [by right|done]. }
  case_match; [by apply Hgo; left|]. destruct (readMinBondAcrossSamples _ _ _) as [[minBond ok]|]; [|done]. cbn [mbind option_bind].
  case_match; [by apply Hgo; left|]. case_match; [by apply Hgo; left|]. apply Hgo.
  intros [<-|?]%lookup_insert_is_Some'; [by right|by left].
Qed.

Lemma bonds_keys reader ms fromBh toBh r k :
  ReadCommitteeBonds reader ms fromBh toBh = Some r → is_Some (r !! k) → ∃ m, m ∈ ms ∧ k = normalizeHiveAccount m.
Proof.
  unfold ReadCommitteeBonds. assert (∀ x : gmap string Z, Some ∅ = Some x → is_Some (x !! k) → ∃ m, m ∈ ms ∧ k = normalizeHiveAccount m) as He.
  { intros x [= <-] [? Hx]. by rewrite lookup_empty in Hx. }
  case_bool_decide; [apply He|]. case_match; [apply He|].
  intros Hr Hk. destruct (read_members_keys _ _ _ _ _ _ Hr Hk) as [[? Hx]|?]; [by rewrite lookup_empty in Hx|done].
Qed.

Lemma reduce_all_accounts red ks out applied out' applied' :
  amounts_ok out → reduce_all red ks (out, applied) = Some (out', applied') →
  ∀ r, r ∈ applied' → r ∈ applied ∨ is_Some (out !! normalizeHiveAccount (ra_Account r)) ∧ ra_Account r ∈ ks.
Proof.
  revert out applied. induction ks as [|a ks IH]; intros out applied Hok; cbn [reduce_all]; [by intros [= <- <-]; left|].
  destruct (reduce_one_ok red out applied a Hok) as (o1 & a1 & E1 & H1 & _ & Hd). rewrite E1. cbn [mbind option_bind].
  intros Hr r Hin. destruct (IH o1 a1 H1 Hr r Hin) as [Hin'|[Hs Hk]]; [|right; split; [by apply Hd|by right]].
  revert E1. unfold reduce_one. cbv zeta. case_match eqn:Ez; [intros [= <- <-]; by left|]. case_match; [intros [= <- <-]; by left|].
  destruct (MulDivFloorI64 _ _ _); [|done]. cbn [mbind option_bind]. intros [= <- <-].
  apply elem_of_app in Hin' as [?|Hin'%list_elem_of_singleton]; [by left|right]. rewrite Hin'. cbn [ra_Account].
  split; [|by left]. apply Z.leb_gt in Ez. unfold zget in Ez. destruct (out !! _); [by eexists|cbn in Ez; lia].
Qed.

Lemma compose_reductions i rec r :
  compose_ok i → ComposeRecord i = Some (inr rec) → r ∈ RewardReductions rec →
  is_Some (CommitteeBonds i !! normalizeHiveAccount (re_Account r)) ∧ is_Some (ReductionsByAccount i !! re_Account r).
Proof.
  intros (_ & _ & _ & _ & Hb & _). unfold ComposeRecord. repeat (case_match; [done|]). cbv zeta.
  case_match; [intros [= <-] Hr; by apply not_elem_of_nil in Hr|]. case_bool_decide; [done|].
  destruct (ApplyRewardReductionsToBonds _ _) as [[eff applied]|] eqn:Ea; [|done]. cbn [mbind option_bind].
  assert (∀ r, r ∈ merge_sort red_le (reduction_payload applied) →
    is_Some (CommitteeBonds i !! normalizeHiveAccount (re_Account r)) ∧ is_Some (ReductionsByAccount i !! re_Account r)) as Hall.
  { intros x. rewrite merge_sort_Permutation. intros (y & -> & Hy)%list_elem_of_fmap. cbn [re_Account].
    eapply reduce_all_accounts in Ea as [Hn|[? ?%sorted_keys_elem]]; [by apply not_elem_of_nil in Hn|done|done|exact Hy]. }
  case_match; [intros [= <-]; apply Hall|].
  destruct (ComputeNodeDistributions _ _); [|done]. cbn [mbind option_bind].
  destruct (ExpandShareDistributions _ _); [|done]. cbn [mbind option_bind]. case_match; [done|].
  intros [= <-]. apply Hall.
Qed.

Lemma part_of_zero sd a d : a ≠ d_Account d → ¬ is_Some (default ∅ (sd !! d_Account d) !! a) → part_of sd a d = 0.
Proof.
  intros Ha Hs. unfold part_of. rewrite (proj2 (String.eqb_neq _ _)) by done. cbv zeta. case_match; [done|].
  unfold zget. destruct (_ !! a) as [v|]; [by destruct Hs|]. cbn. by rewrite Z.mul_0_r, Z.div_0_l by (z_of_bool; lia).
Qed.

Lemma compose_accounts i rec d :
  compose_ok i → ComposeRecord i = Some (inr rec) → d ∈ Distributions rec →
  is_Some (CommitteeBonds i !! d_Account d) ∨
  ∃ n e, ShareDelegations i !! n = Some e ∧ is_Some (e !! d_Account d).
Proof.
  intros Hok Hc Hd. pose proof Hok as (_ & _ & Hbk & _ & Hbonds & _).
  destruct (compose_cases i Hok) as (Heff & _ & [[_ [reds E]]|(Hpos & Htot & merged & reds & _ & Hm & _ & Hv & _ & E)]);
    rewrite E in Hc; simplify_eq; cbn [BuildSettlementRecord Distributions] in Hd; rewrite merge_sort_Permutation in Hd;
    [by apply not_elem_of_nil in Hd|].
  apply dist_list_elem in Hd as [Hp Hz]. rewrite Hv in Hz.
  destruct (ComputeNode_ok (ci_BucketBalanceHBD i) (effective_bonds i) Heff ltac:(lia) Htot) as (ds & ED & _ & _ & Hds).
  assert (node_level i = ds) as Hnl by by (unfold node_level; rewrite ED). rewrite Hnl in Hz.
  destruct (Exists_dec (λ x, part_of (ShareDelegations i) (d_Account d) x ≠ 0) ds) as [Hex|Hno].
  - apply Exists_exists in Hex as (x & Hx & Hpx). apply Hds in Hx as [Hbond _].
    destruct (decide (d_Account d = d_Account x)) as [Heq|Hne].
    + left. rewrite Heq. destruct (Apply_ok (CommitteeBonds i) (ReductionsByAccount i) Hbonds) as (out & applied & EA & _ & _ & Hdom).
      apply Hdom. unfold effective_bonds in Hbond. rewrite EA in Hbond. unfold zget in Hbond.
      destruct (out !! d_Account x); [by eexists|cbn in Hbond; lia].
    + right. destruct (decide (is_Some (default ∅ (ShareDelegations i !! d_Account x) !! d_Account d))) as [Hs|Hs];
        [|by apply part_of_zero in Hs]. exists (d_Account x).
      destruct (ShareDelegations i !! d_Account x) as [e|]; [by exists e|]. cbn in Hs. rewrite lookup_empty in Hs. by destruct Hs.
  - exfalso. rewrite zsum_map_0 in Hz; [lia|]. intros x Hx.
    destruct (decide (part_of (ShareDelegations i) (d_Account d) x = 0)); [done|]. destruct Hno. apply Exists_exists. by exists x.
Qed.

Lemma compose_fields i rec :
  compose_ok i → ComposeRecord i = Some (inr rec) →
  sr_Epoch rec = ci_Epoch i ∧ sr_PrevEpoch rec = ci_PrevEpoch i ∧ SnapshotRangeFrom rec = EpochStartBh i ∧
  SnapshotRangeTo rec = SlotHeight i ∧ sr_BucketBalanceHBD rec = ci_BucketBalanceHBD i ∧
  TotalDistributedHBD rec + ResidualHBD rec = ci_BucketBalanceHBD i ∧
  0 <= TotalDistributedHBD rec ∧ 0 <= ResidualHBD rec ∧
  TotalDistributedHBD rec = zsum (d_Amount <$> Distributions rec) ∧ Forall (λ d, 0 <= d_Amount d) (Distributions rec).
Proof.
  intros Hok Hc. pose proof Hok as (_ & _ & Hb & _).
  destruct (compose_cases i Hok) as (_ & _ & [[_ [reds E]]|(_ & _ & merged & reds & _ & Hm & Hms & _ & Hle & E)]);
    rewrite E in Hc; simplify_eq; cbn [BuildSettlementRecord sr_Epoch sr_PrevEpoch SnapshotRangeFrom SnapshotRangeTo
      sr_BucketBalanceHBD TotalDistributedHBD ResidualHBD Distributions].
  - split_and!; try done; lia.
  - pose proof (msum_nonneg (λ v, v) merged ltac:(apply Hm)).
    assert (Forall (λ d, 0 <= d_Amount d) (dist_list merged)) by (apply Forall_forall; intros d Hd%dist_list_elem; lia).
    split_and!; [done|done|done|done|done|lia|lia|lia| |by rewrite merge_sort_Permutation].
    rewrite (zsum_Permutation _ _ (fmap_Permutation _ _ _ (merge_sort_Permutation dist_le (dist_list merged)))). by rewrite dist_list_sum.
Qed.

Lemma normalize_trimmed a : TrimSpace a = a → a ≠ "" → normalizeHiveAccount a = hive_account a.
Proof. intros Ht Hne. unfold normalizeHiveAccount, hive_account. rewrite Ht. by rewrite (proj2 (String.eqb_neq _ _)). Qed.

Lemma hive_account_idem a : HasPrefix a "hive:" = true → hive_account a = a.
Proof. intros Hp. unfold hive_account. by rewrite Hp. Qed.

Lemma hive_account_has a : HasPrefix (hive_account a) "hive:" = true.
Proof. destruct (hive_account_prefix a) as [t ->]. apply HasPrefix_app. Qed.

(** ** Theorems *)

Section properties.
Context {S : Type} `{LedgerDbLaws S}.
Implicit Types s : S.

(** The names of a committee and of its delegators as Hive has them: without
    surrounding spaces, and delegators with their prefix. *)
Definition names_ok (env : settle_env) (el : ElectionResult) (h : Z) : Prop :=
  (∀ m, m ∈ el_Members el → TrimSpace (hive_account (em_Account m)) = hive_account (em_Account m)) ∧
  (∀ shares n e k, sv_shares env (committee_accounts el) h = Some shares → shares !! n = Some e → is_Some (e !! k) → HasPrefix k "hive:" = true) ∧
  (∀ a, is_Some (ComputeReductionsForEpoch (sv_inputs env) (el_BlockHeight el) h DefaultTickIntervalBlocks !! a) → TrimSpace a = a ∧ a ≠ "").

(** The stakes a settlement reads fit their type. *)
Definition stakes_fit (env : settle_env) (el : ElectionResult) (h : Z) : Prop :=
  (∀ bonds, ReadCommitteeBonds (sv_balance env) (committee_accounts el) (el_BlockHeight el) h = Some bonds → amounts_ok bonds) ∧
  (∀ shares, sv_shares env (committee_accounts el) h = Some shares → shares_ok shares).

Lemma bucket_i64 readErr bucket h s : PendulumBucketBalance readErr bucket h s <= MaxInt64.
Proof.
  unfold PendulumBucketBalance. case_match; [done|]. case_match; [done|].
  assert (∀ l acc, acc <= MaxInt64 → foldl (λ total r, total +64 lr_Amount r) acc l <= MaxInt64) as Hall.
  { induction l as [|r l IH]; intros acc Ha; [done|]. cbn [foldl]. apply IH. apply wrap64_range. }
  by apply Hall.
Qed.

Lemma pay_rows_NoDup txID bh ds :
  NoDup (hive_account ∘ d_Account <$> ds) → NoDup (lr_Id <$> (ds ≫= pay_rows txID bh)).
Proof.
  induction ds as [|d ds IH]; intros Hnd; [constructor|]. cbn [mbind list_bind]. rewrite fmap_app, pay_rows_ids.
  rewrite fmap_cons in Hnd. apply NoDup_cons in Hnd as [Hni Hnd]. apply NoDup_app. split_and!; [|intros id Hid|by apply IH].
  - unfold pay_ids. cbn [fmap list_fmap]. apply NoDup_cons. split; [|apply NoDup_singleton]. rewrite list_elem_of_singleton.
    intros Heq%sapp_inj_l. done.
  - intros (r & -> & (x & Hr & Hx)%list_elem_of_bind)%list_elem_of_fmap. destruct Hni. apply list_elem_of_fmap. exists x. split; [|done].
    assert (lr_Id r ∈ pay_ids txID (hive_account (d_Account x)))
      by (rewrite <- (pay_rows_ids txID bh x); by apply list_elem_of_fmap_2).
    by apply (pay_ids_disjoint txID _ _ (lr_Id r)).
Qed.

(** The inputs an election's settlement is composed of. *)
Definition closing_inputs (env : settle_env) (el : ElectionResult) (bucket epoch prev h : Z) (bonds : gmap string Z) (shares : edge_map)
    : ComposeInputs :=
  mkComposeInputs epoch prev (el_BlockHeight el) h bonds bucket
    (ComputeReductionsForEpoch (sv_inputs env) (el_BlockHeight el) h DefaultTickIntervalBlocks) shares.

Lemma stage_inputs env readErr readOk previous epoch h db s rec :
  settlement_stage env readErr readOk (Some previous) epoch h db s = Some (inr (Some rec)) → stakes_fit env previous h →
  ∃ bonds shares,
    ReadCommitteeBonds (sv_balance env) (committee_accounts previous) (el_BlockHeight previous) h = Some bonds ∧
    sv_shares env (committee_accounts previous) h = Some shares ∧
    let i := closing_inputs env previous (PendulumBucketBalance readErr PendulumNodesHBDBucket h s) epoch
               (GetLatestSettledEpoch readOk db) h bonds shares in
    compose_ok i ∧ ComposeRecord i = Some (inr rec).
Proof.
  unfold settlement_stage, compose_inputs. intros Hst [Hfit Hsf]. destruct (Z.ltb_spec 0 epoch); [|done]. cbn [negb] in Hst.
  pose proof (bucket_i64 readErr PendulumNodesHBDBucket h s) as Hb. set (bucket := PendulumBucketBalance readErr _ h s) in *.
  destruct (ReadCommitteeBonds _ _ _ _) as [bonds|]; [|done]. destruct (sv_shares _ _ _) as [shares|]; [|done].
  cbn [mbind option_bind] in Hst. exists bonds, shares. split; [done|]. split; [done|]. cbv zeta.
  fold (closing_inputs env previous bucket epoch (GetLatestSettledEpoch readOk db) h bonds shares) in Hst. set (i := closing_inputs _ _ _ _ _ _ _ _) in *.
  destruct (ComposeRecord i) as [[|rec']|] eqn:Ec; [done| |done]. cbn [mbind option_bind] in Hst. injection Hst as ->.
  split; [|done]. revert Ec. unfold compose_ok, ComposeRecord. change (ci_Epoch i) with epoch. change (EpochStartBh i) with (el_BlockHeight previous).
  change (SlotHeight i) with h. change (ci_BucketBalanceHBD i) with bucket. change (CommitteeBonds i) with bonds.
  destruct (Z.eqb_spec epoch 0); [done|]. destruct (Z.leb_spec h (el_BlockHeight previous)); [done|].
  destruct (Z.ltb_spec bucket 0); [done|]. intros Hc. split_and!; [done|done|done|done| |by apply Hfit|by apply Hsf].
  destruct (Z.eqb_spec bucket 0); [by left|right]. intros ->. by rewrite bool_decide_true in Hc.
Qed.

Lemma bond_members env el h bonds k :
  names_ok env el h → ReadCommitteeBonds (sv_balance env) (committee_accounts el) (el_BlockHeight el) h = Some bonds →
  is_Some (bonds !! k) → k ∈ committee_accounts el ∧ hive_account k = k.
Proof.
  intros (Hmem & _) Eb Hk. destruct (bonds_keys _ _ _ _ _ _ Eb Hk) as (m & (x & -> & Hx)%list_elem_of_fmap & ->).
  pose proof (hive_account_has (em_Account x)) as Hh.
  pose proof (hive_account_idem _ Hh) as Hi. rewrite normalize_trimmed by (by apply Hmem || (intros Hz; by rewrite Hz in Hh)).
  rewrite !Hi. split; [by apply (list_elem_of_fmap_2 (λ m, hive_account (em_Account m)))|done].
Qed.

(** C17: an honest settlement is accepted everywhere.  The record a proposer embeds
    for the epoch that closes passes the structural validation of every node with
    the same view of the chain, and is byte-identical to what that node derives. *)
Theorem honest_settlement_accepted env readErr readErr' readOk previous epoch h db s s' rec bytes :
  settlement_stage env readErr readOk (Some previous) epoch h db s = Some (inr (Some rec)) →
  sv_election env h = Some previous → el_Members previous ≠ [] → names_ok env previous h → stakes_fit env previous h →
  PendulumBucketBalance readErr' PendulumNodesHBDBucket h s' = PendulumBucketBalance readErr PendulumNodesHBDBucket h s →
  sv_encode env rec = Some bytes →
  sr_Epoch rec = epoch ∧ sr_PrevEpoch rec = GetLatestSettledEpoch readOk db ∧
  validatePendulumSettlement env rec = None ∧ rederivePendulumSettlement env readErr' rec s' = Some (true, false).
Proof.
  intros Hst Hel Hne Hnames Hfit Hbk Henc. destruct (stage_inputs _ _ _ _ _ _ _ _ _ Hst Hfit) as (bonds & shares & Eb & Es & Hok & Ec).
  set (i := closing_inputs _ _ _ _ _ _ _ _) in *.
  destruct (compose_fields i rec Hok Ec) as (F1 & F2 & F3 & F4 & F5 & F6 & F7 & F8 & F9 & F10).
  cbn [i closing_inputs ci_Epoch ci_PrevEpoch EpochStartBh SlotHeight ci_BucketBalanceHBD] in F1, F2, F3, F4, F5, F6.
  pose proof Hok as (_ & _ & Hb & _). cbn [i closing_inputs ci_BucketBalanceHBD] in Hb.
  split; [done|]. split; [done|]. split.
  - apply (validate_complete env rec previous shares); rewrite ?F5, ?F4; try done; try lia.
    + intros d Hd. destruct (compose_accounts i rec d Hok Ec Hd) as [Hk|(n & e & He & Hs)].
      * left. destruct (bond_members _ _ _ _ _ Hnames Eb Hk) as [? ->]. done.
      * right. exists n, e. split; [done|]. rewrite hive_account_idem; [done|]. by eapply (proj1 (proj2 Hnames)).
    + intros r Hr. destruct (compose_reductions i rec r Hok Ec Hr) as [Hk Ha].
      apply (proj2 (proj2 Hnames)) in Ha as [Ht Hn]. rewrite <- normalize_trimmed by done.
      by destruct (bond_members _ _ _ _ _ Hnames Eb Hk).
  - unfold rederivePendulumSettlement. rewrite F4, Hel, bool_decide_false by done. cbv zeta.
    rewrite Hbk, F1, F2, F3, (proj2 (Z.ltb_ge _ 0)) by lia. unfold compose_inputs. rewrite Eb. cbn [mbind option_bind].
    rewrite Es. cbn [mbind option_bind]. fold i. change (mkComposeInputs _ _ _ _ _ _ _ _) with i. rewrite Ec. cbn [mbind option_bind].
    by rewrite Henc, String.eqb_refl.
Qed.

(** C27: a settlement is paid in full when nothing stands in its way.  The record
    extends the chain of settlements and passes both checks; the bucket covers what
    it declares; the distributions name different accounts and sum to an int64 (the
    check adds them with wrap-around, so it does not see a larger sum); the rows of
    the payments are new; no read or write fails and the marker is saved.  Then every
    positive distribution is credited to its account, the bucket loses exactly the
    declared total, and the epoch becomes the latest settled one. *)
Theorem settlement_paid env oc rec bh db s ran :
  db_wf s → faults s = 0%nat → (∀ a, oc_bucketErr oc a = false) → oc_latestOk oc = true → oc_saved oc = true → 0 <= bh →
  GetLatestSettledEpoch true db = sr_PrevEpoch rec → sr_PrevEpoch rec < sr_Epoch rec →
  validatePendulumSettlement env rec = None → rederivePendulumSettlement env (oc_rederiveErr oc) rec s = Some (ran, false) →
  zsum (d_Amount <$> Distributions rec) <= MaxInt64 → NoDup (hive_account ∘ d_Account <$> Distributions rec) →
  sr_BucketBalanceHBD rec <= bucket_total bh (rows s) <= MaxInt64 →
  (∀ d id, d ∈ Distributions rec → id ∈ pay_ids (pendulumSettlementTxID (sr_Epoch rec)) (hive_account (d_Account d)) → rows s !! id = None) →
  ∃ db' s', applyPendulumSettlement env oc rec bh db s = Some (db', s') ∧
    GetLatestSettledEpoch true db' = sr_Epoch rec ∧
    bucket_total bh (rows s') = bucket_total bh (rows s) - TotalDistributedHBD rec ∧
    ∀ d, d ∈ Distributions rec → 0 < d_Amount d →
      ∃ id c, rows s' !! id = Some c ∧ lr_Owner c = hive_account (d_Account d) ∧ lr_Asset c = "hbd" ∧ lr_Amount c = d_Amount d.
Proof.
  intros Hwf Hf Hre Hlo Hsv Hbh Hprev Hlt Hval Hrd Hmax Hnd Hbk Hfresh.
  destruct (validate_sound _ _ Hval) as (Htot & Hres & Hsum & Hchk). destruct (sum_checked_ok _ _ _ Hchk) as [Hpos Heq].
  specialize (Heq ltac:(lia) ltac:(lia)). unfold applyPendulumSettlement. rewrite Hlo, Hprev, Z.eqb_refl, (proj2 (Z.leb_gt _ _)) by done.
  cbn [negb]. rewrite bool_decide_false by tauto. cbv zeta. rewrite Hrd. cbn [mbind option_bind fst snd]. rewrite andb_false_r.
  set (txID := pendulumSettlementTxID _) in *.
  destruct (pay_all_ok (oc_bucketErr oc) txID bh (Distributions rec) s Hwf Hf Hre Hbh Hpos Hnd ltac:(lia) Hfresh) as (s' & Ep & _ & Hrows & Hbt).
  assert (∀ b : bool, (if b then Some false else Some false) = Some false) as Hif by by intros [].
  rewrite Hif. cbn [mbind option_bind]. rewrite Ep, Hsv. eexists _, s'. split; [done|]. split_and!.
  - rewrite latest_save; [done|]. cbn [sm_Epoch]. lia.
  - lia.
  - intros d Hd Hp. set (acct := hive_account (d_Account d)). set (txKey := txID +:+ "#" +:+ acct).
    set (c := row (txKey +:+ "#distribute_credit#" +:+ acct) txKey bh (d_Amount d) "hbd" acct "" "pendulum_distribute").
    exists (lr_Id c), c. split; [|done]. rewrite Hrows. apply lookup_upserts_NoDup.
    + apply pay_rows_NoDup. eapply sublist_NoDup; [exact Hnd|]. apply fmap_sublist, sublist_filter.
    + apply list_elem_of_bind. exists d. split; [right; by left|]. by apply list_elem_of_filter.
Qed.

(** One call, the outcomes it meets, and the run of a list of calls. *)
Definition settle_call : Type := settle_env * outcomes * SettlementRecord * Z.

Fixpoint settle_run (calls : list settle_call) (db : markers) s : option (markers * S) :=
  match calls with
  | [] => Some (db, s)
  | (env, oc, rec, bh) :: calls =>
      '(db, s) ← applyPendulumSettlement env oc rec bh db s; settle_run calls db s
  end.

Lemma apply_cases env oc rec bh db s db' s' :
  applyPendulumSettlement env oc rec bh db s = Some (db', s') → oc_latestOk oc = true →
  db' = db ∨ GetLatestSettledEpoch true db < sr_Epoch rec ∧ sr_PrevEpoch rec = GetLatestSettledEpoch true db ∧
    ∃ m, sm_Epoch m = sr_Epoch rec ∧ db' = SaveMarker m db.
Proof.
  unfold applyPendulumSettlement. intros Ha Hlo. rewrite Hlo in Ha. revert Ha. destruct (Z.leb_spec (sr_Epoch rec) (GetLatestSettledEpoch true db)); [intros [= <- <-]; by left|].
  destruct (Z.eqb_spec (sr_PrevEpoch rec) (GetLatestSettledEpoch true db)); cbn [negb]; [|intros [= <- <-]; by left].
  case_bool_decide; [intros [= <- <-]; by left|]. cbv zeta.
  destruct (if sv_testnet env && _ then Some false else _) as [refused|]; [|done].
  cbn [mbind option_bind]. destruct refused; [intros [= <- <-]; by left|].
  destruct (pay_all _ _ _ _ _) as [s1 []]; [intros [= <- <-]; by left|].
  destruct (oc_saved oc); intros [= <- <-]; [right|by left]. split_and!; [done|done|]. by eexists (mkSettlementMarker _ _ _ _ _ _).
Qed.

(** Every epoch is settled once.  Whatever records a node is handed, in whatever
    order, valid or not, and whichever writes fail, the latest settled epoch never
    falls, no marker is overwritten, and a record of an epoch that has a marker
    pays nothing. *)
Theorem settled_once calls db s db' s' :
  Forall (λ c : settle_call, oc_latestOk c.1.1.2 = true) calls → settle_run calls db s = Some (db', s') →
  GetLatestSettledEpoch true db <= GetLatestSettledEpoch true db' ∧ db ⊆ db' ∧
  ∀ env oc rec bh, oc_latestOk oc = true → is_Some (db' !! sr_Epoch rec) →
    applyPendulumSettlement env oc rec bh db' s' = Some (db', s').
Proof.
  intros Hall Hrun. split; [|split]; [| |intros env oc rec bh Hlo Hs%latest_ge; unfold applyPendulumSettlement; by rewrite Hlo, (proj2 (Z.leb_le _ _))].
  - revert db s Hrun. induction Hall as [|[[[env oc] rec] bh] calls Hlo Hall IH]; intros db s; cbn [settle_run]; [by intros [= <- <-]|].
    destruct (applyPendulumSettlement _ _ _ _ _ _) as [[db1 s1]|] eqn:Ha; [|done]. cbn [mbind option_bind]. intros Hr%IH.
    etrans; [|exact Hr]. destruct (apply_cases _ _ _ _ _ _ _ _ Ha Hlo) as [->|(Hlt & _ & m & Hm & ->)]; [done|].
    rewrite latest_save; lia.
  - revert db s Hrun. induction Hall as [|[[[env oc] rec] bh] calls Hlo Hall IH]; intros db s; cbn [settle_run]; [by intros [= <- <-]|].
    destruct (applyPendulumSettlement _ _ _ _ _ _) as [[db1 s1]|] eqn:Ha; [|done]. cbn [mbind option_bind]. intros Hr%IH.
    etrans; [|exact Hr]. destruct (apply_cases _ _ _ _ _ _ _ _ Ha Hlo) as [->|(Hlt & _ & m & Hm & ->)]; [done|].
    apply insert_subseteq. destruct (db !! sm_Epoch m) eqn:Em; [|done]. exfalso.
    pose proof (latest_ge db (sm_Epoch m) ltac:(by eexists)). lia.
Qed.
End properties.

(** Distributions whose sum overflows: the amounts add up to 7 more than twice the
    64-bit range, and the validation takes them for the 7 of the record. *)
Lemma overflowing_sum_validates env :
  sv_election env 100 = None →
  let rec := mkSettlementRecord 2 1 0 100 10 7 3 [] [mkDistribution "a" MaxInt64; mkDistribution "b" MaxInt64; mkDistribution "c" 9] in
  validatePendulumSettlement env rec = None ∧ sr_BucketBalanceHBD rec < zsum (d_Amount <$> Distributions rec).
Proof. intros Hel rec. split; [|by vm_compute]. unfold validatePendulumSettlement, rec. cbn -[Z.add wrap64]. by rewrite Hel. Qed.
