(* ===== verification/RcSystem.v ===== *)
(** Resource credits, [modules/rc-system] with the records of
    [modules/db/vsc/rcs] and the per-slot flush [UpdateRcMap] of the state
    engine.

    Using the chain freezes part of an account's HBD (and, for Hive accounts, of
    a free allowance): what was used is recorded at the end of the slot and
    thaws linearly over [RC_RETURN_PERIOD] blocks.  A session accumulates what a
    block under construction has promised on top of the recorded amount.

    The theorems give the exact frozen amount and its bounds, that the flush of
    a slot freezes what the slot used and no more than the account owns, and
    that a session never hands out more than the account has. *)
From S2P Require Import Prelude GoMaps GoStrings LedgerDb LedgerTypes LedgerState LedgerSession LedgerSystem.

(** ** Thawing *)

Definition RC_RETURN_PERIOD : Z := 120 * 60 * 20.

(** The amounts are [big.Int] in between; [Int64] reads the low 64 bits. *)
Definition CalculateFrozenBal (start stop initialBal : Z) : Z :=
  if initialBal <=? 0 then 0
  else if stop <=? start then initialBal
  else
    let period := RC_RETURN_PERIOD in
    let diff := stop -u64 start in
    if (period =? 0) || (period <=? diff) then 0
    else
      let amtRet := wrap64 (initialBal * diff / period) in
      let amtRet := if initialBal <? amtRet then initialBal else amtRet in
      let amtRet := if amtRet <? 0 then 0 else amtRet in
      initialBal -64 amtRet.

(** ** Records *)

(** The records of each account, by height. *)
Abbreviation rcs := (gmap string (gmap Z Z)).

Record RcRecord := mkRcRecord {
  rc_Account : string;
  rc_Amount : Z;
  rc_BlockHeight : Z;
}.

(** The entry with the largest height at or below [h]. *)
Definition newer (h : Z) (kv : Z * Z) (best : option (Z * Z)) : option (Z * Z) :=
  if kv.1 <=? h then
    match best with
    | Some b => if b.1 <? kv.1 then Some kv else best
    | None => Some kv
    end
  else best.

Definition latest (h : Z) (m : gmap Z Z) : option (Z * Z) := foldr (newer h) None (map_to_list m).

(** The callers drop the error, so a failed read gives the zero record like a
    missing one. *)
Definition GetRecord (readErr : bool) (account : string) (blockHeight : Z) (db : rcs) : RcRecord :=
  match (if readErr then None else latest blockHeight (default ∅ (db !! account))) with
  | Some (h, amount) => mkRcRecord account amount h
  | None => mkRcRecord "" 0 0
  end.

Definition SetRecord (db : rcs) (r : RcRecord) : rcs :=
  <[rc_Account r := <[rc_BlockHeight r := rc_Amount r]> (default ∅ (db !! rc_Account r))]> db.

(** One bulk write of upserts, retried until it succeeds. *)
Definition SetRecords (records : list RcRecord) (db : rcs) : rcs := foldl SetRecord db records.

(** ** The system *)

Definition oracleDID : string := "did:vsc:oracle:".

Definition GetFrozenAmt (readErr : bool) (db : rcs) (account : string) (blockHeight : Z) : Z :=
  let rcRecord := GetRecord readErr account blockHeight db in
  CalculateFrozenBal (rc_BlockHeight rcRecord) blockHeight (rc_Amount rcRecord).

(** A balance with the free allowance of Hive accounts. *)
Definition with_allowance (HiveFreeAmount : Z) (account : string) (balAmt : Z) : Z :=
  if HasPrefix account "hive:" then balAmt +64 HiveFreeAmount else balAmt.

Section system.
Context {S : Type} `{LedgerDb S}.
Implicit Types st : LedgerState S.

Definition GetAvailableRCs (getBalance : string → Z → option BalanceRecord) (s : S) (HiveFreeAmount : Z)
    (readErr : bool) (db : rcs) (account : string) (blockHeight : Z) : Z :=
  if HasPrefix account oracleDID then MaxInt64
  else
    let balAmt := with_allowance HiveFreeAmount account (sys_GetBalance getBalance s account blockHeight "hbd") in
    let frozeAmt := GetFrozenAmt readErr db account blockHeight in
    let frozeAmt := if balAmt <? frozeAmt then balAmt else frozeAmt in
    balAmt -64 frozeAmt.

(** What [UpdateRcMap] records for one account that used [v]. *)
Definition rc_checkpoint (getBalance : string → Z → option BalanceRecord) (s : S) (HiveFreeAmount : Z)
    (readErr : bool) (db : rcs) (blockHeight : Z) (k : string) (v : Z) : RcRecord :=
  let rcRecord := GetRecord readErr k (blockHeight -u64 1) db in
  let rcBal := if rc_BlockHeight rcRecord =? 0 then v
               else CalculateFrozenBal (rc_BlockHeight rcRecord) blockHeight (rc_Amount rcRecord) +64 v in
  let balAmt := with_allowance HiveFreeAmount k (sys_GetBalance getBalance s k blockHeight "hbd") in
  let rcBal := if balAmt <? rcBal then balAmt else rcBal in
  let rcBal := if rcBal <? 0 then 0 else rcBal in
  mkRcRecord k rcBal blockHeight.

(** [range] is the order in which the loop visits the map; every account is read
    before any record is written. *)
Definition UpdateRcMap (range : gmap string Z → list (string * Z))
    (getBalance : string → Z → option BalanceRecord) (s : S) (HiveFreeAmount : Z)
    (readErr : string → bool) (RcMap : gmap string Z) (blockHeight : Z) (db : rcs) : rcs :=
  SetRecords ((λ '(k, v), rc_checkpoint getBalance s HiveFreeAmount (readErr k) db blockHeight k v) <$> range RcMap) db.

(** ** Sessions *)

(** The ledger session a session of credits reads through belongs to the caller;
    reading a balance fills its cache. *)
Definition CanConsume st (HiveFreeAmount : Z) (readErr : bool) (db : rcs) (rcMap : gmap string Z)
    (account : string) (blockHeight rcAmt : Z) (ses : ledgerSession) : (bool * Z * Z) * ledgerSession :=
  if HasPrefix account oracleDID then ((true, MaxInt64, rcAmt), ses)
  else
    let '(bal, ses) := ses_GetBalance st account blockHeight "hbd" ses in
    let balAmt := with_allowance HiveFreeAmount account bal in
    let frozeAmt := GetFrozenAmt readErr db account blockHeight in
    let totalAmt := (balAmt -64 frozeAmt) -64 zget rcMap account in
    if totalAmt <? rcAmt then ((false, 0, rcAmt), ses) else ((true, totalAmt -64 rcAmt, rcAmt), ses).

Definition Consume st (HiveFreeAmount : Z) (readErr : bool) (db : rcs) (account : string) (blockHeight rcAmt : Z)
    (rcMap : gmap string Z) (ses : ledgerSession) : (bool * Z) * gmap string Z * ledgerSession :=
  let '((canConsume, _, _), ses) := CanConsume st HiveFreeAmount readErr db rcMap account blockHeight rcAmt ses in
  if canConsume then ((true, rcAmt), map_add rcMap (account, rcAmt), ses) else ((false, 0), rcMap, ses).
End system.

(** A session's frozen amount includes what it has promised. *)
Definition ses_GetFrozenAmt (readErr : bool) (db : rcs) (rcMap : gmap string Z) (account : string) (blockHeight : Z) : Z :=
  GetFrozenAmt readErr db account blockHeight +64 zget rcMap account.

Definition FreeRcRemaining (HiveFreeAmount : Z) (readErr : bool) (db : rcs) (rcMap : gmap string Z)
    (account : string) (blockHeight : Z) : Z :=
  if negb (HasPrefix account "hive:") then 0
  else
    let remaining := HiveFreeAmount -64 ses_GetFrozenAmt readErr db rcMap account blockHeight in
    if remaining <? 0 then 0 else remaining.

(** [Revert] and [Done]: the session forgets or returns its map. *)
Definition rc_Revert (rcMap : gmap string Z) : gmap string Z := ∅.
Definition rc_Done (rcMap : gmap string Z) : gmap string Z := rcMap.

(** ** Lemmas: thawing *)

Lemma CalculateFrozenBal_exact start stop bal :
  u64 start → u64 stop → 0 <= bal <= MaxInt64 →
  CalculateFrozenBal start stop bal =
    if stop <=? start then bal
    else if RC_RETURN_PERIOD <=? stop - start then 0
    else bal - bal * (stop - start) / RC_RETURN_PERIOD.
Proof.
  intros Hs Ht Hb. unfold CalculateFrozenBal. destruct (bal <=? 0) eqn:E; z_of_bool.
  { assert (bal = 0) as -> by lia. rewrite Z.mul_0_l. by repeat case_match. }
  destruct (stop <=? start) eqn:E1; [done|]. z_of_bool. cbv zeta.
  assert (stop -u64 start = stop - start) as -> by (apply wrapu64_id; unfold_widths; lia).
  change (RC_RETURN_PERIOD =? 0) with false. rewrite orb_false_l.
  destruct (RC_RETURN_PERIOD <=? stop - start) eqn:E2; [done|]. z_of_bool.
  assert (0 <= bal * (stop - start) / RC_RETURN_PERIOD <= bal) as Hq.
  { split; [apply Z.div_pos; [nia|done]|]. apply Z.div_le_upper_bound; [done|]. nia. }
  rewrite (wrap64_id (bal * _ / _)) by (unfold_widths; lia).
  destruct (bal <? _) eqn:E3; z_of_bool; [lia|]. destruct (_ <? 0) eqn:E4; z_of_bool; [lia|].
  apply i64_sub_exact. unfold_widths. lia.
Qed.

(** What is frozen is never negative nor more than was recorded. *)
Lemma CalculateFrozenBal_bounds start stop bal :
  u64 start → u64 stop → 0 <= bal <= MaxInt64 → 0 <= CalculateFrozenBal start stop bal <= bal.
Proof.
  intros. rewrite CalculateFrozenBal_exact by done. repeat case_match; z_of_bool; try lia.
  assert (0 <= bal * (stop - start) / RC_RETURN_PERIOD <= bal); [|lia].
  split; [apply Z.div_pos; [nia|done]|]. apply Z.div_le_upper_bound; [done|]. nia.
Qed.

(** Credits only come back with time. *)
Lemma CalculateFrozenBal_anti start t1 t2 bal :
  u64 start → u64 t1 → u64 t2 → 0 <= bal <= MaxInt64 → t1 <= t2 →
  CalculateFrozenBal start t2 bal <= CalculateFrozenBal start t1 bal.
Proof.
  intros ? H1 H2 Hb Ht. pose proof (CalculateFrozenBal_bounds start t1 bal ltac:(done) ltac:(done) ltac:(done)) as H0.
  pose proof (CalculateFrozenBal_bounds start t2 bal ltac:(done) ltac:(done) ltac:(done)) as H3. rewrite !CalculateFrozenBal_exact in * by done.
  assert (t1 <= t2 → bal * (t1 - start) / RC_RETURN_PERIOD <= bal * (t2 - start) / RC_RETURN_PERIOD) as Hmono.
  { intros. apply Z.div_le_mono; [done|]. nia. }
  repeat case_match; z_of_bool; lia.
Qed.

(** ** Lemmas: records *)

Lemma latest_spec h m :
  match latest h m with
  | Some (k, v) => m !! k = Some v ∧ k <= h ∧ ∀ k' v', m !! k' = Some v' → k' <= h → k' <= k
  | None => ∀ k v, m !! k = Some v → h < k
  end.
Proof.
  unfold latest.
  assert (∀ l, match foldr (newer h) None l with
               | Some (k, v) => (k, v) ∈ l ∧ k <= h ∧ ∀ k' v', (k', v') ∈ l → k' <= h → k' <= k
               | None => ∀ k v, (k, v) ∈ l → h < k
               end) as Hl.
  { induction l as [|[k v] l IH]; [by intros ?? ?%not_elem_of_nil|]. cbn [foldr]. unfold newer at 1. cbn [fst].
    destruct (k <=? h) eqn:E; z_of_bool; destruct (foldr (newer h) None l) as [[k1 v1]|]; cbn [fst].
    - destruct IH as (Hin & Hle & Hmax). destruct (k1 <? k) eqn:E1; z_of_bool.
      + split_and!; [by left|done|]. intros k' v' [?|Hin']%elem_of_cons Hk'; [naive_solver lia|].
        pose proof (Hmax k' v' Hin' Hk'). lia.
      + split_and!; [by right|done|]. intros k' v' [?|Hin']%elem_of_cons Hk'; [naive_solver lia|]. by eapply Hmax.
    - split_and!; [by left|done|]. intros k' v' [?|Hin']%elem_of_cons Hk'; [naive_solver lia|].
      pose proof (IH k' v' Hin'). lia.
    - destruct IH as (Hin & Hle & Hmax). split_and!; [by right|done|].
      intros k' v' [?|Hin']%elem_of_cons Hk'; [naive_solver lia|]. by eapply Hmax.
    - intros k' v' [?|Hin']%elem_of_cons; [naive_solver lia|]. by eapply IH. }
  specialize (Hl (map_to_list m)). destruct (foldr _ _ _) as [[k v]|].
  - destruct Hl as (Hin & Hle & Hmax). rewrite elem_of_map_to_list in Hin. split_and!; [done..|].
    intros k' v' Hk'. apply (Hmax k' v'). by apply elem_of_map_to_list.
  - intros k v Hk. apply (Hl k v). by apply elem_of_map_to_list.
Qed.

(** The heights of all records are positive and below [h]. *)
Definition records_below (h : Z) (db : rcs) : Prop :=
  ∀ account m k v, db !! account = Some m → m !! k = Some v → 0 < k < h ∧ 0 <= v <= MaxInt64.

Lemma latest_top h m B v :
  (∀ k w, m !! k = Some w → k < B) → B <= h → latest h (<[B := v]> m) = Some (B, v).
Proof.
  intros Hb Hh. pose proof (latest_spec h (<[B := v]> m)) as Hl. destruct (latest h _) as [[k w]|].
  - destruct Hl as (Hk & Hle & Hmax). pose proof (Hmax B v (lookup_insert_eq _ _ _) Hh) as HB.
    destruct (decide (k = B)) as [->|Hne]; [rewrite lookup_insert_eq in Hk; by simplify_eq|].
    rewrite lookup_insert_ne in Hk by done. pose proof (Hb k w Hk). lia.
  - pose proof (Hl B v (lookup_insert_eq _ _ _)). lia.
Qed.

(** All heights that see every record read the same one. *)
Lemma latest_stable h h' (m : gmap Z Z) :
  (∀ k w, m !! k = Some w → k <= h ∧ k <= h') → latest h m = latest h' m.
Proof.
  intros Hb. pose proof (latest_spec h m) as H1. pose proof (latest_spec h' m) as H2.
  destruct (latest h m) as [[k v]|], (latest h' m) as [[k' v']|]; [| | |done].
  - destruct H1 as (Hk & _ & Hmax), H2 as (Hk' & _ & Hmax').
    assert (k = k') as ->; [|by simplify_eq].
    pose proof (Hmax k' v' Hk' (proj1 (Hb _ _ Hk'))). pose proof (Hmax' k v Hk (proj2 (Hb _ _ Hk))). lia.
  - destruct H1 as (Hk & _). pose proof (H2 k v Hk). pose proof (Hb k v Hk). lia.
  - destruct H2 as (Hk & _). pose proof (H1 k' v' Hk). pose proof (Hb k' v' Hk). lia.
Qed.

Lemma GetRecord_stable h h' B k db :
  records_below B db → B - 1 <= h → B - 1 <= h' → GetRecord false k h db = GetRecord false k h' db.
Proof.
  intros Hb H1 H2. unfold GetRecord. rewrite (latest_stable h h'); [done|].
  intros k' w Hk'. destruct (db !! k) as [m|] eqn:E; [|done].
  pose proof (Hb k m k' w E Hk'). lia.
Qed.

(** The frozen amount that records give is a proper amount. *)
Lemma GetRecord_amount B db k h :
  records_below B db →
  let r := GetRecord false k h db in
  0 <= rc_Amount r <= MaxInt64 ∧ (rc_BlockHeight r = 0 → rc_Amount r = 0) ∧ (rc_BlockHeight r = 0 ∨ 0 < rc_BlockHeight r < B).
Proof.
  intros Hb. unfold GetRecord. pose proof (latest_spec h (default ∅ (db !! k))) as Hl.
  destruct (latest _ _) as [[k' v']|]; [|cbn; unfold_widths; lia].
  destruct Hl as (Hk' & _). destruct (db !! k) as [m|] eqn:E; [|done]. destruct (Hb k m k' v' E Hk'). cbn. lia.
Qed.

Lemma SetRecords_lookup records db k :
  NoDup (rc_Account <$> records) →
  SetRecords records db !! k =
    match list_find (λ r, rc_Account r = k) records with
    | Some (_, r) => Some (<[rc_BlockHeight r := rc_Amount r]> (default ∅ (db !! k)))
    | None => db !! k
    end.
Proof.
  revert db. induction records as [|r records IH]; intros db Hnd; [done|].
  apply NoDup_cons in Hnd as [Hni Hnd]. change (SetRecords (r :: records) db) with (SetRecords records (SetRecord db r)).
  rewrite IH by done. cbn [list_find]. unfold SetRecord. destruct (decide (rc_Account r = k)) as [<-|Hne].
  - rewrite (proj2 (list_find_None _ _)); [by rewrite lookup_insert_eq|].
    apply Forall_forall. intros r' Hr' He. apply Hni. rewrite <- He. by apply list_elem_of_fmap_2.
  - rewrite lookup_insert_ne by done. by destruct (list_find _ records) as [[? ?]|].
Qed.

(** ** The flush of a slot *)

Section flush.
Context {S : Type} `{LedgerDb S} (getBalance : string → Z → option BalanceRecord) (s : S) (free : Z).

(** What the account owns in credits, at least zero. *)
Definition owned (k : string) (h : Z) : Z :=
  Z.max 0 (with_allowance free k (sys_GetBalance getBalance s k h "hbd")).

Lemma rc_checkpoint_amount db B k v :
  records_below B db → 0 < B <= MaxUint64 →
  0 <= v → GetFrozenAmt false db k B + v <= MaxInt64 →
  rc_checkpoint getBalance s free false db B k v
  = mkRcRecord k (Z.min (owned k B) (GetFrozenAmt false db k B + v)) B.
Proof.
  intros Hb HB Hv Hmax. unfold rc_checkpoint. cbv zeta.
  assert (B -u64 1 = B - 1) as -> by (apply wrapu64_id; unfold_widths; lia).
  rewrite (GetRecord_stable (B - 1) B B) by (done || lia).
  destruct (GetRecord_amount B db k B Hb) as (Ha & H0 & Hh).
  assert ((if rc_BlockHeight (GetRecord false k B db) =? 0 then v
           else CalculateFrozenBal (rc_BlockHeight (GetRecord false k B db)) B (rc_Amount (GetRecord false k B db)) +64 v)
          = GetFrozenAmt false db k B + v) as ->.
  { unfold GetFrozenAmt in *. cbv zeta in *. destruct (_ =? 0) eqn:E; z_of_bool.
    - rewrite H0 by done. by unfold CalculateFrozenBal.
    - assert (0 <= CalculateFrozenBal (rc_BlockHeight (GetRecord false k B db)) B (rc_Amount (GetRecord false k B db))).
      { apply CalculateFrozenBal_bounds; unfold_widths; lia. }
      apply i64_add_exact. unfold_widths. lia. }
  assert (0 <= GetFrozenAmt false db k B).
  { unfold GetFrozenAmt. apply CalculateFrozenBal_bounds; unfold_widths; lia. }
  unfold owned. f_equal. set (o := with_allowance _ _ _). clearbody o.
  destruct (o <? _) eqn:E; z_of_bool; (destruct (_ <? 0) eqn:E1; z_of_bool; lia).
Qed.

(** The record of the checkpoint of an account. *)
Definition checkpoint (db : rcs) (B : Z) (kv : string * Z) : RcRecord :=
  mkRcRecord kv.1 (Z.min (owned kv.1 B) (GetFrozenAmt false db kv.1 B + kv.2)) B.

Lemma UpdateRcMap_lookup range db RcMap B k :
  range_ok range → records_below B db → 0 < B <= MaxUint64 →
  map_Forall (λ k v, 0 <= v ∧ GetFrozenAmt false db k B + v <= MaxInt64) RcMap →
  UpdateRcMap range getBalance s free (λ _, false) RcMap B db !! k =
    match RcMap !! k with
    | Some v => Some (<[B := rc_Amount (checkpoint db B (k, v))]> (default ∅ (db !! k)))
    | None => db !! k
    end.
Proof.
  intros Hr Hb HB Hmap. unfold UpdateRcMap.
  assert ((λ '(k, v), rc_checkpoint getBalance s free false db B k v) <$> range RcMap = checkpoint db B <$> range RcMap) as ->.
  { apply list_fmap_ext. intros i [a v] Hi. destruct (Hmap a v) as [H1 H2].
    { apply elem_of_map_to_list. rewrite <- (Hr RcMap). by eapply list_elem_of_lookup_2. }
    by apply rc_checkpoint_amount. }
  assert (rc_Account <$> (checkpoint db B <$> range RcMap) = (range RcMap).*1) as Hacc by by rewrite <- list_fmap_compose.
  rewrite SetRecords_lookup by (rewrite Hacc, (Hr RcMap); apply NoDup_fst_map_to_list).
  destruct (list_find _ _) as [[i r]|] eqn:Hf.
  - apply list_find_Some in Hf as (Hi & Hrk & _). apply list_elem_of_lookup_2, list_elem_of_fmap in Hi as ([a w] & -> & Hi).
    cbn in Hrk. subst a. rewrite (Hr RcMap), elem_of_map_to_list in Hi. by rewrite Hi.
  - destruct (RcMap !! k) as [v|] eqn:Hk; [|done]. apply list_find_None in Hf. rewrite Forall_forall in Hf.
    exfalso. apply (Hf (checkpoint db B (k, v))); [|done]. apply list_elem_of_fmap_2. rewrite (Hr RcMap).
    by apply elem_of_map_to_list.
Qed.

(** C28: flushing the credits used in a slot.  Whatever order the map is visited in,
    right after the flush an account that used [v] has frozen what was still
    frozen plus [v], or all it owns where that is less, and from there on it
    thaws linearly; the frozen amount of every other account is what it was. *)
Theorem rc_charge_frozen range db RcMap B h k :
  range_ok range → records_below B db → 0 < B → B <= h <= MaxUint64 →
  map_Forall (λ k v, 0 <= v ∧ GetFrozenAmt false db k B + v <= MaxInt64) RcMap →
  GetFrozenAmt false (UpdateRcMap range getBalance s free (λ _, false) RcMap B db) k h
  = match RcMap !! k with
    | Some v => CalculateFrozenBal B h (Z.min (owned k B) (GetFrozenAmt false db k B + v))
    | None => GetFrozenAmt false db k h
    end.
Proof.
  intros Hr Hb HB Hh Hmap. unfold GetFrozenAmt at 1. unfold GetRecord. rewrite UpdateRcMap_lookup by (done || lia).
  destruct (RcMap !! k) as [v|]; [|done]. cbn [from_option id]. rewrite latest_top; [done| |lia].
  intros k' w Hk'. destruct (db !! k) as [m|] eqn:E; [|done]. pose proof (Hb k m k' w E Hk'). lia.
Qed.
End flush.

(** ** A session of credits *)

Section session.
Context {S : Type} `{LedgerDb S} (st : LedgerState S) (free : Z) (db : rcs) (h : Z).

(** Serve requests in turn; the result lists what was granted. *)
Fixpoint consume_all (reqs : list (string * Z)) (rcMap : gmap string Z) (ses : ledgerSession) :
    list (string * Z) * gmap string Z * ledgerSession :=
  match reqs with
  | [] => ([], rcMap, ses)
  | (account, amt) :: reqs =>
      let '((ok, granted), rcMap, ses) := Consume st free false db account h amt rcMap ses in
      let '(gs, rcMap, ses) := consume_all reqs rcMap ses in
      (if ok then (account, granted) :: gs else gs, rcMap, ses)
  end.

(** What an account can still be granted at the start of a session. *)
Definition budget (ses : ledgerSession) (account : string) : Z :=
  with_allowance free account (view st h (ledgerOps ses) account "hbd") - GetFrozenAmt false db account h.

Definition granted_to (account : string) (gs : list (string * Z)) : Z :=
  zsum ((λ g, if String.eqb g.1 account then g.2 else 0) <$> gs).

(** Balances, allowance and frozen amounts in their ranges. *)
Definition credits_ok (ses : ledgerSession) : Prop :=
  ∀ a, let o := with_allowance free a (view st h (ledgerOps ses) a "hbd") in
       0 <= o <= MaxInt64 ∧ 0 <= GetFrozenAmt false db a h <= MaxInt64.

Lemma Consume_spec account amt rcMap ses :
  coherent st h ses → credits_ok ses → 0 <= amt <= MaxInt64 →
  0 <= zget rcMap account <= Z.max 0 (budget ses account) → HasPrefix account oracleDID = false →
  ∃ ses', same_log ses ses' ∧ coherent st h ses' ∧
    Consume st free false db account h amt rcMap ses
    = if budget ses account - zget rcMap account <? amt then ((false, 0), rcMap, ses')
      else ((true, amt), <[account := zget rcMap account + amt]> rcMap, ses').
Proof.
  intros Hco Hok Hamt Hrc Ho. unfold Consume, CanConsume. rewrite Ho.
  destruct (get_spec st h account "hbd" ses Hco eq_refl) as (ses' & -> & Hlog & Hco' & _ & _).
  exists ses'. do 2 (split; [done|]). destruct (Hok account) as [H1 H2]. unfold budget in *.
  unfold map_add. cbn [fst snd]. cbv zeta in *. generalize dependent (zget rcMap account). intros z Hrc.
  set (o := with_allowance _ _ _) in *. set (f := GetFrozenAmt _ _ _ _) in *. clearbody o f.
  rewrite (i64_sub_exact o f) by (unfold_widths; lia). rewrite i64_sub_exact by (unfold_widths; lia).
  destruct (o - f - z <? amt) eqn:E; z_of_bool; [done|]. by rewrite i64_add_exact by (unfold_widths; lia).
Qed.

(** The map of a session that started as [ses0] promises nobody too much. *)
Definition promises_ok (ses0 : ledgerSession) (rcMap : gmap string Z) : Prop :=
  ∀ b, HasPrefix b oracleDID = false → 0 <= zget rcMap b <= Z.max 0 (budget ses0 b).

Lemma Consume_step ses0 account amt rcMap ses :
  coherent st h ses → same_log ses0 ses → credits_ok ses0 → 0 <= amt <= MaxInt64 → promises_ok ses0 rcMap →
  let '((ok, granted), rcMap', ses') := Consume st free false db account h amt rcMap ses in
  coherent st h ses' ∧ same_log ses0 ses' ∧ promises_ok ses0 rcMap' ∧ 0 <= granted ∧
  ∀ b, HasPrefix b oracleDID = false →
    zget rcMap' b = zget rcMap b + (if ok then if String.eqb account b then granted else 0 else 0).
Proof.
  intros Hco Hlog Hok Hamt Hrc. destruct (HasPrefix account oracleDID) eqn:Ho.
  - unfold Consume, CanConsume. rewrite Ho.
    assert (∀ b, HasPrefix b oracleDID = false → zget (map_add rcMap (account, amt)) b = zget rcMap b ∧ String.eqb account b = false) as Hz.
    { intros b Hb. rewrite zget_map_add. cbn [fst]. destruct (String.eqb_spec account b); [congruence|done]. }
    split_and!; [done..| |lia|]; intros b Hb; destruct (Hz b Hb) as [Hz1 Hz2]; rewrite Hz1; [by apply Hrc|]. rewrite Hz2. lia.
  - assert (credits_ok ses) as Hok1 by (intros b; destruct Hlog as (_ & -> & _); apply Hok).
    assert (budget ses account = budget ses0 account) as Hbud by (unfold budget; by destruct Hlog as (_ & -> & _)).
    destruct (Consume_spec account amt rcMap ses Hco Hok1 Hamt ltac:(rewrite Hbud; by apply Hrc) Ho) as (ses2 & Hlog2 & Hco2 & ->).
    rewrite Hbud. destruct (_ <? amt) eqn:E; z_of_bool; (split_and!; [done|by etrans| |lia|]).
    + done.
    + intros b _. lia.
    + intros b Hb. rewrite zget_insert. pose proof (Hrc b Hb). destruct (String.eqb_spec account b) as [<-|Hne]; lia.
    + intros b Hb. rewrite zget_insert. destruct (String.eqb_spec account b) as [<-|Hne]; lia.
Qed.

Lemma consume_all_spec reqs ses0 rcMap ses :
  coherent st h ses → same_log ses0 ses → credits_ok ses0 → promises_ok ses0 rcMap →
  Forall (λ q, 0 <= q.2 <= MaxInt64) reqs →
  let '(gs, rcMap', ses') := consume_all reqs rcMap ses in
  promises_ok ses0 rcMap' ∧
  ∀ a, HasPrefix a oracleDID = false → 0 <= granted_to a gs ∧ zget rcMap' a = zget rcMap a + granted_to a gs.
Proof.
  intros Hco Hlog Hok Hrc Hreqs. revert rcMap ses Hco Hlog Hrc.
  induction Hreqs as [|[account amt] reqs Hamt Hreqs IH]; intros rcMap ses Hco Hlog Hrc; cbn [consume_all].
  { split; [done|]. intros a _. change (granted_to a []) with 0. lia. }
  pose proof (Consume_step ses0 account amt rcMap ses Hco Hlog Hok Hamt Hrc) as Hstep.
  destruct (Consume _ _ _ _ _ _ _ _ _) as [[[ok granted] rcMap1] ses1]. destruct Hstep as (Hco1 & Hlog1 & Hrc1 & Hg & Hz).
  specialize (IH rcMap1 ses1 Hco1 Hlog1 Hrc1). destruct (consume_all reqs rcMap1 ses1) as [[gs rcMap2] ses2].
  destruct IH as [Hrc2 IH]. split; [done|]. intros a Ha. destruct (IH a Ha) as [H1 H2]. rewrite H2, (Hz a Ha).
  unfold granted_to in *. destruct ok; [|lia]. csimpl. destruct (String.eqb account a); lia.
Qed.

(** A session never promises more than the account has.  Whatever requests are
    made in whatever order, the credits granted to an account that is not the
    oracle sum to at most its balance and allowance less what is frozen, and the
    session's map holds that sum. *)
Theorem rc_session_bounded reqs ses gs rcMap ses' a :
  coherent st h ses → credits_ok ses → Forall (λ q, 0 <= q.2 <= MaxInt64) reqs →
  HasPrefix a oracleDID = false →
  consume_all reqs ∅ ses = (gs, rcMap, ses') →
  0 <= granted_to a gs <= Z.max 0 (budget ses a) ∧ zget rcMap a = granted_to a gs.
Proof.
  intros Hco Hok Hreqs Ha Hrun.
  assert (promises_ok ses ∅) as H0 by (intros b _; rewrite zget_empty; lia).
  pose proof (consume_all_spec reqs ses ∅ ses Hco (reflexivity ses) Hok H0 Hreqs) as Hall. rewrite Hrun in Hall.
  destruct Hall as [Hrc Hall]. destruct (Hall a Ha) as [H1 H2]. pose proof (Hrc a Ha). rewrite zget_empty in H2. lia.
Qed.
End session.
