(* ===== verification/GoJson.v ===== *)
(** Decoding of JSON values into structs, the part of [encoding/json] the
    transaction handlers use.

    A value is a tree; a number keeps its text.  The members of an object are
    assigned to the fields of a struct in their order, a field being found by its
    name up to case; a member without a field is skipped.  A value of the wrong
    type leaves its field as it was and makes the decoding report an error once
    all members have been tried; [null] leaves a field as it was without one.
    Decoding an array into a slice writes over the elements the slice has and
    extends it with zero values. *)
From Stdlib Require Import Ascii.
From S2P Require Import Prelude GoStrings Assets.

Inductive json :=
| JNull
| JBool (b : bool)
| JNum (text : string)
| JStr (s : string)
| JArr (l : list json)
| JObj (members : list (string * json)).

(** ** Names of fields *)

Definition upper_char (c : ascii) : ascii := if is_az c then ascii_of_nat (nat_of_ascii c - 32) else c.

(** [foldName]: equal for names that differ in case; the long s and the Kelvin
    sign fold to letters of ASCII. *)
Fixpoint foldName (s : string) : string :=
  match s with
  | "" => ""
  | String c s' =>
      if HasPrefix s (bytes [197; 191]%N) then
        match s' with "" => "" | String _ rest => String "S" (foldName rest) end
      else if HasPrefix s (bytes [226; 132; 170]%N) then
        match s' with
        | "" => ""
        | String _ rest => match rest with "" => "" | String _ rest => String "K" (foldName rest) end
        end
      else String (upper_char c) (foldName s')
  end.

(** ** Decoding *)

(** Assign to a location: its new value, and whether the value fitted. *)
Definition setter (A : Type) : Type := json → A → A * bool.

Definition set_string : setter string := λ j old,
  match j with
  | JStr s => (s, true)
  | JNull => (old, true)
  | _ => (old, false)
  end.

Definition set_number (parse : string → option Z) : setter Z := λ j old,
  match j with
  | JNum text => match parse text with Some n => (n, true) | None => (old, false) end
  | JNull => (old, true)
  | _ => (old, false)
  end.

Definition set_uint64 : setter Z := set_number ParseUint.
Definition set_int : setter Z := set_number ParseInt.

Fixpoint set_elements {A} (set : setter A) (zero : A) (l : list json) (old : list A) : list A * bool :=
  match l with
  | [] => ([], true)
  | j :: l =>
      let '(a, ok) := set j (default zero (head old)) in
      let '(rest, ok') := set_elements set zero l (tail old) in
      (a :: rest, ok && ok')
  end.

(** [null] makes the slice nil. *)
Definition set_slice {A} (set : setter A) (zero : A) : setter (list A) := λ j old,
  match j with
  | JArr l => set_elements set zero l old
  | JNull => ([], true)
  | _ => (old, false)
  end.

Definition set_strings : setter (list string) := set_slice set_string "".

(** A [map[string]string]: entries are added to the map there is. *)
Definition set_string_map : setter (gmap string string) := λ j old,
  match j with
  | JObj members =>
      foldl (λ '(m, ok) '(k, v), let '(s, ok') := set_string v "" in (<[k := s]> m, ok && ok')) (old, true) members
  | JNull => (∅, true)
  | _ => (old, false)
  end.

(** The fields of a struct: the name of each and how it is assigned. *)
Definition fields (A : Type) : Type := list (string * setter A).

Definition find_field {A} (fs : fields A) (name : string) : option (setter A) :=
  snd ∘ snd <$> list_find (λ f, foldName f.1 = foldName name) fs.

(** A field of [A] through which [set] assigns. *)
Definition on_field {A B} (get : A → B) (put : B → A → A) (set : setter B) : setter A := λ j a,
  let '(b, ok) := set j (get a) in (put b a, ok).

Definition set_struct {A} (fs : fields A) : setter A := λ j a,
  match j with
  | JObj members =>
      foldl (λ '(a, ok) '(k, v),
        match find_field fs k with
        | Some set => let '(a, ok') := set v a in (a, ok && ok')
        | None => (a, ok)
        end) (a, true) members
  | JNull => (a, true)
  | _ => (a, false)
  end.

(** No member of an object is assigned to a field of this name. *)
Definition lacks (name : string) (j : json) : Prop :=
  match j with
  | JObj members => Forall (λ kv, foldName kv.1 ≠ foldName name) members
  | _ => True
  end.

(** ** Lemmas *)

Lemma list_find_name {A} (fs : fields A) k i x :
  list_find (λ f : string * setter A, foldName f.1 = foldName k) fs = Some (i, x) → x ∈ fs ∧ foldName x.1 = foldName k.
Proof. intros (Hi & Hx & _)%list_find_Some. split; [by eapply list_elem_of_lookup_2|done]. Qed.

(** What no assigned field changes is left as it was. *)
Lemma set_struct_keeps {A B} (fs : fields A) (obs : A → B) name j a :
  lacks name j →
  (∀ f v a, f ∈ fs → foldName f.1 ≠ foldName name → obs (f.2 v a).1 = obs a) →
  obs (set_struct fs j a).1 = obs a.
Proof.
  intros Hl Hfs. destruct j as [| | | | |members]; try done. cbn [set_struct lacks] in *.
  assert (∀ ok, obs (foldl (λ '(a, ok) '(k, v), match find_field fs k with
        | Some set => let '(a, ok') := set v a in (a, ok && ok') | None => (a, ok) end) (a, ok) members).1 = obs a) as Hg; [|apply Hg].
  revert a. induction Hl as [|[k v] members Hk _ IH]; intros a ok; [done|]. cbn [foldl]. unfold find_field at 2.
  destruct (list_find _ fs) as [[i [n set]]|] eqn:E; cbn; [|apply IH].
  apply list_find_name in E as [Hin Hn]. cbn in Hn. destruct (set v a) as [a' ok'] eqn:Hs. rewrite IH.
  pose proof (Hfs (n, set) v a Hin) as Hkeep. cbn in Hkeep. rewrite Hs in Hkeep. apply Hkeep. by rewrite Hn.
Qed.

(** What every assignment to a field keeps. *)
Lemma set_struct_inv {A} (P : A → Prop) (fs : fields A) j a :
  Forall (λ f, ∀ v a, P a → P (f.2 v a).1) fs → P a → P (set_struct fs j a).1.
Proof.
  intros Hfs Ha. destruct j as [| | | | |members]; try done. cbn [set_struct]. generalize true as ok. revert a Ha.
  induction members as [|[k v] members IH]; intros a Ha ok; [done|]. cbn [foldl]. unfold find_field at 2.
  destruct (list_find _ fs) as [[i [n set]]|] eqn:E; cbn; [|by apply IH].
  apply list_find_name in E as [Hin _]. rewrite Forall_forall in Hfs. pose proof (Hfs _ Hin v a Ha) as Hp. cbn in Hp.
  destruct (set v a) as [a' ok']. by apply IH.
Qed.

(** Setters that keep a relation between two targets. *)
Lemma set_struct_rel {A} (R : A → A → Prop) (fs : fields A) j a b :
  Forall (λ f, ∀ v a b, R a b → R (f.2 v a).1 (f.2 v b).1) fs → R a b → R (set_struct fs j a).1 (set_struct fs j b).1.
Proof.
  intros Hfs Hab. destruct j as [| | | | |members]; try done. cbn [set_struct]. match goal with |- R (foldl ?g _ _).1 _ => set (f := g) end.
  assert (∀ ok ok', R (foldl f (a, ok) members).1 (foldl f (b, ok') members).1) as Hg; [|apply Hg].
  revert a b Hab. induction members as [|[k v] members IH]; intros a b Hab ok ok'; [done|]. cbn [foldl]. unfold f at 2 4, find_field.
  destruct (list_find _ fs) as [[i [n set]]|] eqn:E; cbn; [|by apply IH].
  apply list_find_name in E as [Hin _]. rewrite Forall_forall in Hfs. pose proof (Hfs _ Hin v a b Hab) as Hp. cbn in Hp.
  destruct (set v a) as [a' ?], (set v b) as [b' ?]. by apply IH.
Qed.

(** A member that no field takes changes nothing. *)
Lemma set_struct_extra {A} (fs : fields A) members k v a :
  find_field fs k = None → set_struct fs (JObj (members ++ [(k, v)])) a = set_struct fs (JObj members) a.
Proof. intros Hk. cbn [set_struct]. rewrite foldl_app. destruct (foldl _ _ members) as [b ok]. cbn [foldl]. by rewrite Hk. Qed.
