(* ===== verification/TssDb.v ===== *)
(** The collections of threshold keys, signing requests and commitments
    ([modules/db/vsc/tss]).

    A key and a request are found by their identity; the commitments are a list of
    rows, because a database written by an earlier version may hold several rows of
    one commitment.  An update that matches no row and does not insert changes
    nothing.  Writes succeed unless the driver cannot store a number.

    The lemmas: a commitment written now leaves one row for its key, height and
    type; the rows read for accounting do not depend on the order the database
    returns them in; and reading the last commitment of a key agrees with them. *)
From S2P Require Import Prelude GoMaps GoSlices GoStrings.

(** An unsigned number that the driver can store. *)
Definition storable (n : Z) : bool := n <=? MaxInt64.

(** ** Rows *)

Definition MaxKeyEpochs : Z := 365.
Definition KeyDeprecationGracePeriod : Z := 403200.
Definition KeyRetirementEnabled : bool := false.

Record TssKey := mkTssKey {
  tk_Id : string;
  tk_Status : string;
  tk_PublicKey : string;
  tk_Owner : string;
  tk_Algo : string;
  tk_CreatedHeight : Z;
  tk_Epoch : Z;
  tk_Epochs : Z;
  tk_ExpiryEpoch : Z;
  tk_DeprecatedHeight : Z;
  tk_SignatureVerified : bool;
}.

Definition zero_key : TssKey := mkTssKey "" "" "" "" "" 0 0 0 0 0 false.

Inductive TssSignStatus := SignComplete | SignPending | SignFailed.

#[export] Instance TssSignStatus_eq_dec : EqDecision TssSignStatus.
Proof. solve_decision. Defined.

Record TssRequest := mkTssRequest {
  tr_Status : TssSignStatus;
  tr_KeyId : string;
  tr_Msg : string;
  tr_Sig : string;
}.

Record TssCommitment := mkTssCommitment {
  tc_Type : string;
  tc_BlockHeight : Z;
  tc_Epoch : Z;
  tc_Commitment : string;
  tc_KeyId : string;
  tc_TxId : string;
  tc_PublicKey : option string;
  tc_BitSet : string;
}.

Abbreviation keydb := (gmap string TssKey).
Abbreviation requestdb := (gmap (string * string) TssRequest).
Abbreviation commitmentdb := (list TssCommitment).

(** ** Keys *)

(** A read: a missing row is told apart from an error; both come with the zero key. *)
Inductive key_read := KeyMissing | KeyError | KeyFound (key : TssKey).

(** [err] is whether the read fails. *)
Definition FindKey (err : bool) (id : string) (db : keydb) : key_read :=
  if err then KeyError else match db !! id with Some key => KeyFound key | None => KeyMissing end.

(** The upsert: a new row has the zero value in every other field. *)
Definition InsertKey (id algo : string) (epochs : Z) (db : keydb) : keydb :=
  if negb (storable epochs) then db
  else
    let k := default zero_key (db !! id) in
    <[id := mkTssKey id "created" (tk_PublicKey k) (tk_Owner k) algo (tk_CreatedHeight k) (tk_Epoch k) epochs (tk_ExpiryEpoch k)
              (tk_DeprecatedHeight k) (tk_SignatureVerified k)]> db.

(** Owner, algorithm, lifespan and the signature flag are not written. *)
Definition SetKey (key : TssKey) (db : keydb) : keydb :=
  match db !! tk_Id key with
  | None => db
  | Some k =>
      if storable (tk_Epoch key) && storable (tk_ExpiryEpoch key) then
        <[tk_Id key := mkTssKey (tk_Id k) (tk_Status key) (tk_PublicKey key) (tk_Owner k) (tk_Algo k) (tk_CreatedHeight key) (tk_Epoch key)
                         (tk_Epochs k) (tk_ExpiryEpoch key) (tk_DeprecatedHeight key) (tk_SignatureVerified k)]> db
      else db
  end.

Definition SetSignatureVerified (id : string) (db : keydb) : keydb :=
  match db !! id with
  | None => db
  | Some k =>
      <[id := mkTssKey (tk_Id k) (tk_Status k) (tk_PublicKey k) (tk_Owner k) (tk_Algo k) (tk_CreatedHeight k) (tk_Epoch k) (tk_Epochs k)
                (tk_ExpiryEpoch k) (tk_DeprecatedHeight k) true]> db
  end.

(** The scans return the rows that match in the order of the database. *)
Definition key_rows (db : keydb) : list TssKey := (map_to_list db).*2.

Definition FindDeprecatingKeys (epoch : Z) (db : keydb) : list TssKey :=
  filter (λ k, tk_Status k = "active" ∧ 0 < tk_ExpiryEpoch k <= epoch) (key_rows db).

Definition FindNewlyRetired (blockHeight : Z) (db : keydb) : list TssKey :=
  filter (λ k, tk_Status k = "deprecated" ∧ 0 < tk_DeprecatedHeight k <= wrap64 blockHeight -64 KeyDeprecationGracePeriod) (key_rows db).

Definition FindNewKeys (db : keydb) : list TssKey := filter (λ k, tk_Status k = "created") (key_rows db).

Definition FindEpochKeys (epoch : Z) (db : keydb) : list TssKey :=
  filter (λ k, tk_Status k = "active" ∧ tk_Epoch k < epoch ∧ (tk_ExpiryEpoch k = 0 ∨ epoch < tk_ExpiryEpoch k)) (key_rows db).

Definition deprecate_legacy (k : TssKey) : TssKey :=
  if String.eqb (tk_Status k) "active" && (tk_ExpiryEpoch k =? 0) then
    mkTssKey (tk_Id k) "deprecated" (tk_PublicKey k) (tk_Owner k) (tk_Algo k) (tk_CreatedHeight k) (tk_Epoch k) (tk_Epochs k)
      (tk_ExpiryEpoch k) 0 (tk_SignatureVerified k)
  else k.

Definition DeprecateLegacyKeys (db : keydb) : keydb := deprecate_legacy <$> db.

(** ** Requests *)

Definition SetSignedRequest (keyId msg : string) (db : requestdb) : requestdb :=
  match db !! (keyId, msg) with
  | Some _ => db
  | None => <[(keyId, msg) := mkTssRequest SignPending keyId msg ""]> db
  end.

Definition FindRequests (keyID : string) (msgHex : list string) (db : requestdb) : list TssRequest :=
  filter (λ r, tr_KeyId r = keyID ∧ (msgHex = [] ∨ tr_Msg r ∈ msgHex)) (map_to_list db).*2.

(** A failed request of a key that is active waits for a signature again. *)
Definition revive (keys : keydb) (r : TssRequest) : TssRequest :=
  if bool_decide (tr_Status r = SignFailed) && bool_decide (tk_Status <$> keys !! tr_KeyId r = Some "active")
  then mkTssRequest SignPending (tr_KeyId r) (tr_Msg r) (tr_Sig r) else r.

(** [keyErr] is whether the read of the active keys fails. *)
Definition FindUnsignedRequests (keyErr : bool) (keys : keydb) (db : requestdb) : list TssRequest * requestdb :=
  let db := if keyErr then db else revive keys <$> db in
  (filter (λ r, tr_Status r = SignPending) (map_to_list db).*2, db).

Definition UpdateRequest (req : TssRequest) (db : requestdb) : requestdb :=
  match db !! (tr_KeyId req, tr_Msg req) with
  | None => db
  | Some r => <[(tr_KeyId req, tr_Msg req) := mkTssRequest (tr_Status req) (tr_KeyId r) (tr_Msg r) (tr_Sig req)]> db
  end.

(** ** Commitments *)

(** What identifies a commitment. *)
Definition semanticKey (c : TssCommitment) : Z * string * string := (tc_BlockHeight c, tc_KeyId c, tc_Type c).

(** [FindOneAndUpdate] with upsert: the first row of the same identity is
    overwritten, else a row is added. *)
Fixpoint upsert (c : TssCommitment) (db : commitmentdb) : commitmentdb :=
  match db with
  | [] => [c]
  | r :: db => if bool_decide (semanticKey r = semanticKey c) then c :: db else r :: upsert c db
  end.

Definition SetCommitmentData (c : TssCommitment) (db : commitmentdb) : commitmentdb :=
  if storable (tc_BlockHeight c) && storable (tc_Epoch c) then upsert c db else db.

Definition GetCommitment (keyId : string) (epoch : Z) (db : commitmentdb) : option TssCommitment :=
  snd <$> list_find (λ c, tc_KeyId c = keyId ∧ tc_Epoch c = epoch) db.

(** The order of the read by height: the highest row, then the greatest type, then
    the smallest transaction. *)
Definition comes_before (a b : TssCommitment) : bool :=
  if negb (tc_BlockHeight a =? tc_BlockHeight b) then tc_BlockHeight b <? tc_BlockHeight a
  else if negb (String.eqb (tc_Type a) (tc_Type b)) then strings_Compare (tc_Type b) (tc_Type a) <? 0
  else strings_Compare (tc_TxId a) (tc_TxId b) <? 0.

Definition better (best : option TssCommitment) (c : TssCommitment) : option TssCommitment :=
  match best with
  | None => Some c
  | Some b => if comes_before c b then Some c else best
  end.

Definition by_height (keyId : string) (height : Z) (qtype : list string) (c : TssCommitment) : Prop :=
  tc_KeyId c = keyId ∧ tc_BlockHeight c < height ∧ (qtype = [] ∨ tc_Type c ∈ qtype).

#[export] Instance by_height_dec keyId height qtype c : Decision (by_height keyId height qtype c).
Proof. unfold by_height. apply _. Defined.

Definition GetCommitmentByHeight (keyId : string) (height : Z) (qtype : list string) (db : commitmentdb) : option TssCommitment :=
  foldl better None (filter (by_height keyId height qtype) db).

(** The winner of each identity is the row with the smallest transaction. *)
Definition dedup_step (winner : gmap (Z * string * string) TssCommitment) (c : TssCommitment) : gmap (Z * string * string) TssCommitment :=
  match winner !! semanticKey c with
  | Some prev => if strings_Compare (tc_TxId c) (tc_TxId prev) <? 0 then <[semanticKey c := c]> winner else winner
  | None => <[semanticKey c := c]> winner
  end.

Definition commit_cmp (a b : TssCommitment) : Z :=
  if negb (tc_BlockHeight a =? tc_BlockHeight b) then (if tc_BlockHeight a <? tc_BlockHeight b then -1 else 1)
  else if negb (String.eqb (tc_KeyId a) (tc_KeyId b)) then strings_Compare (tc_KeyId a) (tc_KeyId b)
  else if negb (String.eqb (tc_Type a) (tc_Type b)) then strings_Compare (tc_Type a) (tc_Type b)
  else strings_Compare (tc_TxId a) (tc_TxId b).

Definition DedupCommitmentsBySemanticKey (commits : list TssCommitment) : list TssCommitment :=
  if (length commits <=? 1)%nat then commits
  else SortFunc commit_cmp (map_to_list (foldl dedup_step ∅ commits)).*2.

Definition in_query (keyId : option string) (byTypes : list string) (epoch fromBlock toBlock : option Z) (c : TssCommitment) : bool :=
  match keyId with Some k => String.eqb (tc_KeyId c) k | None => true end &&
  (bool_decide (byTypes = []) || bool_decide (tc_Type c ∈ byTypes)) &&
  match epoch with Some e => tc_Epoch c =? e | None => true end &&
  match fromBlock with Some b => b <? tc_BlockHeight c | None => true end &&
  match toBlock with Some b => tc_BlockHeight c <=? b | None => true end.

Definition height_desc (a b : TssCommitment) : Z := tc_BlockHeight b - tc_BlockHeight a.

(** A successful query; the limit applies before the rows are merged. *)
Definition FindCommitmentsSimple (keyId : option string) (byTypes : list string) (epoch fromBlock toBlock : option Z) (limit : nat)
    (db : commitmentdb) : list TssCommitment :=
  let rows := SortFunc height_desc (filter (λ c, in_query keyId byTypes epoch fromBlock toBlock c = true) db) in
  DedupCommitmentsBySemanticKey (if (0 <? limit)%nat then take limit rows else rows).

Definition GetBlames (epoch : option Z) (db : commitmentdb) : list TssCommitment :=
  DedupCommitmentsBySemanticKey (filter (λ c, in_query None ["blame"] epoch None None c = true) db).

(** ** Lemmas: keys *)

Definition keys_ok (db : keydb) : Prop := ∀ id k, db !! id = Some k → tk_Id k = id.

Lemma InsertKey_lookup id algo epochs db i :
  InsertKey id algo epochs db !! i = db !! i ∨
  (i = id ∧ storable epochs = true ∧ ∃ k, InsertKey id algo epochs db !! i = Some k ∧ tk_Id k = id ∧ tk_Status k = "created").
Proof.
  unfold InsertKey. destruct (storable epochs); [|by left]. cbn [negb]. destruct (decide (i = id)) as [->|Hi].
  - right. split_and!; [done|done|]. eexists. by rewrite lookup_insert_eq.
  - left. by rewrite lookup_insert_ne.
Qed.

(** What [SetKey] leaves of the row. *)
Lemma SetKey_lookup key db i :
  SetKey key db !! i = db !! i ∨
  (i = tk_Id key ∧ ∃ k, db !! i = Some k ∧
     SetKey key db !! i = Some (mkTssKey (tk_Id k) (tk_Status key) (tk_PublicKey key) (tk_Owner k) (tk_Algo k) (tk_CreatedHeight key)
                                  (tk_Epoch key) (tk_Epochs k) (tk_ExpiryEpoch key) (tk_DeprecatedHeight key) (tk_SignatureVerified k))).
Proof.
  unfold SetKey. destruct (db !! tk_Id key) as [k|] eqn:Hk; [|by left]. destruct (_ && _); [|by left].
  destruct (decide (i = tk_Id key)) as [->|Hi]; [right|left; by rewrite lookup_insert_ne].
  split; [done|]. exists k. by rewrite lookup_insert_eq.
Qed.

Lemma SetKey_ok key db : keys_ok db → keys_ok (SetKey key db).
Proof.
  intros Hok i k'. destruct (SetKey_lookup key db i) as [->|(_ & k & Hk & ->)]; [apply Hok|]. intros [= <-]. by apply (Hok i k).
Qed.

Lemma SetSignatureVerified_lookup id db i :
  SetSignatureVerified id db !! i = db !! i ∨
  (i = id ∧ ∃ k, db !! i = Some k ∧
     SetSignatureVerified id db !! i = Some (mkTssKey (tk_Id k) (tk_Status k) (tk_PublicKey k) (tk_Owner k) (tk_Algo k) (tk_CreatedHeight k)
                                               (tk_Epoch k) (tk_Epochs k) (tk_ExpiryEpoch k) (tk_DeprecatedHeight k) true)).
Proof.
  unfold SetSignatureVerified. destruct (db !! id) as [k|] eqn:Hk; [|by left].
  destruct (decide (i = id)) as [->|Hi]; [right|left; by rewrite lookup_insert_ne].
  split; [done|]. exists k. by rewrite lookup_insert_eq.
Qed.

(** ** Lemmas: commitments *)

(** Each identity has one row. *)
Definition one_row (db : commitmentdb) : Prop := NoDup (semanticKey <$> db).

Lemma upsert_keys c db x : x ∈ semanticKey <$> upsert c db ↔ x ∈ semanticKey <$> db ∨ x = semanticKey c.
Proof.
  induction db as [|r db IH]; cbn [upsert fmap list_fmap].
  - rewrite elem_of_cons. set_solver.
  - case_bool_decide as Hr; cbn [fmap list_fmap]; rewrite !elem_of_cons; [rewrite Hr|rewrite IH]; naive_solver.
Qed.

(** Writing a commitment keeps one row for each. *)
Lemma SetCommitmentData_one_row c db : one_row db → one_row (SetCommitmentData c db).
Proof.
  unfold one_row, SetCommitmentData. destruct (_ && _); [|done].
  induction db as [|r db IH]; cbn [upsert fmap list_fmap]; intros Hnd.
  - apply NoDup_singleton.
  - apply NoDup_cons in Hnd as [Hr Hnd]. case_bool_decide as Hk; cbn [fmap list_fmap]; apply NoDup_cons.
    + by rewrite <- Hk.
    + split; [|by apply IH]. rewrite upsert_keys. naive_solver.
Qed.

(** Rows of one identity and one transaction are the same row. *)
Definition rows_distinct (l : list TssCommitment) : Prop :=
  ∀ a b, a ∈ l → b ∈ l → semanticKey a = semanticKey b → tc_TxId a = tc_TxId b → a = b.

Lemma Compare_lt a b : (strings_Compare a b <? 0) = true ↔ String.le a b ∧ a ≠ b.
Proof. unfold strings_Compare. destruct (String.eqb_spec a b) as [->|]; [naive_solver|]. case_bool_decide; naive_solver. Qed.

Lemma Compare_ge a b : (strings_Compare a b <? 0) = false ↔ String.le b a.
Proof.
  unfold strings_Compare. destruct (String.eqb_spec a b) as [->|Hne]; [split; [done|by intros]|].
  case_bool_decide as Hab.
  - split; [done|]. intros Hba. destruct Hne. by apply (anti_symm String.le).
  - split; [intros _|done]. by destruct (total String.le a b).
Qed.

(** The winner of an identity is its smallest transaction. *)
Definition least (l : list TssCommitment) (k : Z * string * string) (c : TssCommitment) : Prop :=
  c ∈ l ∧ semanticKey c = k ∧ ∀ b, b ∈ l → semanticKey b = k → String.le (tc_TxId c) (tc_TxId b).

Lemma winner_spec l k :
  match foldl dedup_step ∅ l !! k with
  | Some c => least l k c
  | None => ∀ b, b ∈ l → semanticKey b ≠ k
  end.
Proof.
  induction l as [|x l IH] using rev_ind.
  { cbn [foldl]. rewrite lookup_empty. intros b Hb. by apply elem_of_nil in Hb. }
  rewrite foldl_app. cbn [foldl]. unfold dedup_step at 1. set (w := foldl dedup_step ∅ l) in *.
  destruct (decide (semanticKey x = k)) as [<-|Hne].
  - destruct (w !! semanticKey x) as [prev|] eqn:Hw.
    + destruct IH as (Hin & Hk & Hmin). destruct (_ <? 0) eqn:Hc; [rewrite lookup_insert_eq|rewrite Hw]; (split_and!; [set_solver|done|]).
      * apply Compare_lt in Hc as [Hc _]. intros b [Hb| ->%list_elem_of_singleton]%elem_of_app Hs; [|done].
        by transitivity (tc_TxId prev); [|apply Hmin].
      * apply Compare_ge in Hc. intros b [Hb| ->%list_elem_of_singleton]%elem_of_app Hs; [by apply Hmin|done].
    + rewrite lookup_insert_eq. split_and!; [set_solver|done|].
      intros b [Hb| ->%list_elem_of_singleton]%elem_of_app Hs; [|done]. by destruct (IH b).
  - assert (∀ m : gmap _ TssCommitment, <[semanticKey x := x]> m !! k = m !! k) as Hi by (intros m; by rewrite lookup_insert_ne).
    assert ((match w !! semanticKey x with
             | Some prev => if strings_Compare (tc_TxId x) (tc_TxId prev) <? 0 then <[semanticKey x := x]> w else w
             | None => <[semanticKey x := x]> w end) !! k = w !! k) as ->.
    { destruct (w !! semanticKey x); [destruct (_ <? 0)|]; by rewrite ?Hi. }
    destruct (w !! k) as [c|].
    + destruct IH as (Hin & Hk & Hmin). split_and!; [set_solver|done|].
      intros b [Hb| ->%list_elem_of_singleton]%elem_of_app Hs; [by apply Hmin|done].
    + intros b [Hb| ->%list_elem_of_singleton]%elem_of_app; [by apply IH|done].
Qed.

Lemma least_unique l k c d : rows_distinct l → least l k c → least l k d → c = d.
Proof.
  intros Hd (Hc & Hkc & Hmc) (Hd' & Hkd & Hmd). apply Hd; [done|done|congruence|].
  apply (anti_symm String.le); [by apply Hmc|by apply Hmd].
Qed.

Lemma winner_perm l l' : rows_distinct l → l ≡ₚ l' → foldl dedup_step ∅ l = foldl dedup_step ∅ l'.
Proof.
  intros Hd Hp. apply map_eq. intros k. pose proof (winner_spec l k) as H1. pose proof (winner_spec l' k) as H2.
  destruct (foldl dedup_step ∅ l !! k) as [c|], (foldl dedup_step ∅ l' !! k) as [d|].
  - f_equal. apply (least_unique l k); [done|done|]. unfold least in *. by setoid_rewrite Hp.
  - destruct H1 as (Hc & Hk & _). rewrite Hp in Hc. by destruct (H2 c).
  - destruct H2 as (Hc & Hk & _). rewrite <- Hp in Hc. by destruct (H1 d).
  - done.
Qed.

(** The commitments counted for blame and rewards do not depend on the order in
    which the database returns its rows, also when rows of one commitment written
    by an earlier version are still there: every node counts the same rows in the
    same order. *)
Theorem dedup_deterministic l l' :
  rows_distinct l → l ≡ₚ l' → DedupCommitmentsBySemanticKey l = DedupCommitmentsBySemanticKey l'.
Proof.
  intros Hd Hp. unfold DedupCommitmentsBySemanticKey. rewrite <- (Permutation_length Hp), <- (winner_perm l l' Hd Hp).
  destruct (Nat.leb_spec (length l) 1) as [Hl|]; [|done]. destruct l as [|x [|y l]]; [..|simpl in Hl; lia].
  - by apply Permutation_nil_l in Hp.
  - by apply Permutation_singleton_l in Hp.
Qed.

(** The order of the read by height, spelled out. *)
Lemma before_false a b :
  comes_before a b = false ↔
  tc_BlockHeight a < tc_BlockHeight b ∨
  tc_BlockHeight a = tc_BlockHeight b ∧
    (tc_Type a ≠ tc_Type b ∧ String.le (tc_Type a) (tc_Type b) ∨ tc_Type a = tc_Type b ∧ String.le (tc_TxId b) (tc_TxId a)).
Proof.
  unfold comes_before. destruct (Z.eqb_spec (tc_BlockHeight a) (tc_BlockHeight b)) as [E|E]; cbn [negb]; [|rewrite Z.ltb_ge; lia].
  destruct (String.eqb_spec (tc_Type a) (tc_Type b)) as [Et|Et]; cbn [negb]; rewrite Compare_ge; naive_solver lia.
Qed.

Lemma before_trans a b c : comes_before a b = false → comes_before b c = false → comes_before a c = false.
Proof.
  rewrite !before_false. intros [H1|(H1 & Hab)] [H2|(H2 & Hbc)]; [left; lia..|]. right. split; [lia|].
  destruct Hab as [(N1 & L1)|(E1 & L1)], Hbc as [(N2 & L2)|(E2 & L2)].
  - left. split; [|by transitivity (tc_Type b)]. intros E. rewrite E in L1. apply N1. rewrite E. by apply (anti_symm String.le).
  - left. by rewrite <- E2.
  - left. by rewrite E1.
  - right. split; [congruence|]. by transitivity (tc_TxId b).
Qed.

Lemma before_antisymm a b :
  comes_before a b = false → comes_before b a = false →
  tc_BlockHeight a = tc_BlockHeight b ∧ tc_Type a = tc_Type b ∧ tc_TxId a = tc_TxId b.
Proof.
  rewrite !before_false. intros [|(E & H1)] [|(E' & H2)]; [lia..|]. split; [done|].
  destruct H1 as [(N & L)|(Et & L)], H2 as [(N' & L')|(Et' & L')]; [|congruence..|split; [done|by apply (anti_symm String.le)]].
  destruct N. by apply (anti_symm String.le).
Qed.

Lemma best_spec l :
  match foldl better None l with
  | Some c => c ∈ l ∧ ∀ b, b ∈ l → comes_before b c = false
  | None => l = []
  end.
Proof.
  assert (∀ a, comes_before a a = false) as Hrefl by (intros a; apply before_false; right; split; [done|]; by right).
  induction l as [|x l IH] using rev_ind; [done|]. rewrite foldl_app. cbn [foldl]. unfold better at 1.
  destruct (foldl better None l) as [c|].
  - destruct IH as [Hc Hmax]. destruct (comes_before x c) eqn:Hx.
    + split; [set_solver|]. intros b [Hb| ->%list_elem_of_singleton]%elem_of_app; [|done].
      apply (before_trans b c); [by apply Hmax|]. revert Hx. rewrite before_false. unfold comes_before.
      destruct (Z.eqb_spec (tc_BlockHeight x) (tc_BlockHeight c)) as [E|E]; cbn [negb]; [|rewrite Z.ltb_lt; lia].
      destruct (String.eqb_spec (tc_Type x) (tc_Type c)) as [Et|Et]; cbn [negb]; rewrite Compare_lt; naive_solver.
    + split; [set_solver|]. intros b [Hb| ->%list_elem_of_singleton]%elem_of_app; [by apply Hmax|done].
  - subst. split; [set_solver|]. intros b [Hb| ->%list_elem_of_singleton]%elem_of_app; [by apply elem_of_nil in Hb|done].
Qed.

Lemma elem_of_dedup l x : rows_distinct l → x ∈ DedupCommitmentsBySemanticKey l ↔ least l (semanticKey x) x.
Proof.
  intros Hd. unfold DedupCommitmentsBySemanticKey. destruct (Nat.leb_spec (length l) 1) as [Hl|Hl].
  - split; [|by intros (? & _)]. intros Hx. split_and!; [done|done|]. intros b Hb Hs.
    destruct l as [|y [|z l]]; [set_solver| |simpl in Hl; lia]. apply list_elem_of_singleton in Hx, Hb. by subst.
  - unfold SortFunc. rewrite merge_sort_Permutation, list_elem_of_fmap. split.
    + intros ((k & y) & -> & Hy%elem_of_map_to_list). pose proof (winner_spec l k) as Hw. rewrite Hy in Hw.
      cbn [snd]. assert (semanticKey y = k) as -> by apply Hw. done.
    + intros Hx. pose proof (winner_spec l (semanticKey x)) as Hw. destruct (foldl dedup_step ∅ l !! semanticKey x) as [c|] eqn:Hc.
      * exists (semanticKey x, x). split; [done|]. apply elem_of_map_to_list. by rewrite Hc, (least_unique _ _ _ _ Hd Hw Hx).
      * destruct Hx as (Hx & _). by destruct (Hw x).
Qed.

(** Reading the last commitment of a key agrees with the merged rows that are
    counted elsewhere: merging the rows first changes nothing. *)
Theorem height_read_agrees keyId height qtype db :
  rows_distinct db →
  GetCommitmentByHeight keyId height qtype (DedupCommitmentsBySemanticKey db) = GetCommitmentByHeight keyId height qtype db.
Proof.
  intros Hd. unfold GetCommitmentByHeight.
  pose proof (best_spec (filter (by_height keyId height qtype) (DedupCommitmentsBySemanticKey db))) as H1.
  pose proof (best_spec (filter (by_height keyId height qtype) db)) as H2.
  assert (∀ x, x ∈ db → ∃ y, y ∈ DedupCommitmentsBySemanticKey db ∧ semanticKey y = semanticKey x ∧ comes_before x y = false) as Hrep.
  { intros x Hx. pose proof (winner_spec db (semanticKey x)) as Hw.
    destruct (foldl dedup_step ∅ db !! semanticKey x) as [y|]; [|by destruct (Hw x)]. exists y.
    destruct (Hw) as (Hy & Hk & Hmin). rewrite elem_of_dedup, Hk by done. split_and!; [done|done|].
    apply before_false. unfold semanticKey in Hk. injection Hk as E1 E2 E3. right. split; [done|]. right. split; [done|]. by apply Hmin. }
  assert (∀ x y, semanticKey x = semanticKey y → by_height keyId height qtype x → by_height keyId height qtype y) as Hq.
  { intros x y [= E1 E2 E3]. unfold by_height. by rewrite E1, E2, E3. }
  destruct (foldl better None (filter _ (DedupCommitmentsBySemanticKey db))) as [c|], (foldl better None (filter _ db)) as [d|].
  - destruct H1 as [Hc Hmc], H2 as [Hd' Hmd]. apply list_elem_of_filter in Hc as [Pc Hc], Hd' as [Pd Hd'].
    apply (elem_of_dedup _ _ Hd) in Hc as (Hc & _). f_equal.
    destruct (Hrep d Hd') as (y & Hy & Ey & By).
    assert (comes_before c d = false) as B1 by (apply Hmd, list_elem_of_filter; done).
    assert (comes_before d c = false) as B2.
    { apply (before_trans d y); [done|]. apply Hmc, list_elem_of_filter. split; [by eapply Hq|done]. }
    destruct (before_antisymm _ _ B1 B2) as (E1 & E2 & E3). apply Hd; [done|done| |done].
    unfold semanticKey. destruct Pc as [-> _], Pd as [-> _]. congruence.
  - destruct H1 as [Hc _]. apply list_elem_of_filter in Hc as [Pc Hc]. apply (elem_of_dedup _ _ Hd) in Hc as (Hc & _).
    assert (c ∈ filter (by_height keyId height qtype) db) as Hin by (by apply list_elem_of_filter). rewrite H2 in Hin. by apply elem_of_nil in Hin.
  - destruct H2 as [Hd' _]. apply list_elem_of_filter in Hd' as [Pd Hd']. destruct (Hrep d Hd') as (y & Hy & Ey & _).
    assert (y ∈ filter (by_height keyId height qtype) (DedupCommitmentsBySemanticKey db)) as Hin.
    { apply list_elem_of_filter. split; [by eapply Hq|done]. }
    rewrite H1 in Hin. by apply elem_of_nil in Hin.
  - done.
Qed.
