(* ===== verification/DataBin.v ===== *)
(** The directory tree that holds the state of a contract,
    [lib/datalayer/dir.go].

    A [DataBin] keeps values in a tree of directories: the key is split at its
    slashes, every part but the last names a directory.  The directories
    themselves are UnixFS directories, a map from names to nodes; the tree is
    represented here by the paths of its directories and of its files.  A
    directory and a file of the same name can coexist until the tree is saved,
    when the directory replaces the file ([Compact]).

    A value is stored under its content hash, so the model keeps the value
    itself where the code keeps a link.

    The theorems give the keys for which the tree is a map: keys without empty
    parts, none of which is a directory of another. *)
From Stdlib Require Import Ascii.
From S2P Require Import Prelude GoStrings.

Definition slash : ascii := "/"%char.

(** The files and the directories below the root, by path. *)
Record DataBin := mkDataBin {
  files : gmap (list string) string;
  dirs : gset (list string);
}.

Definition NewDataBin : DataBin := mkDataBin ∅ ∅.

(** ** Paths *)

Definition parts (path : string) : list string := Split path slash.

(** The part of a list before its last element, and that element. *)
Definition dir_part (l : list string) : list string := take (length l - 1) l.
Definition end_part (l : list string) : string := default "" (last l).

(** The non-empty prefixes of a path, the directories on the way to it. *)
Fixpoint prefixes (l : list string) : list (list string) :=
  match l with
  | [] => []
  | x :: l => [x] :: ((cons x) <$> prefixes l)
  end.

(** The parts a walk follows: it stops at an empty one. *)
Fixpoint walked (l : list string) : list string :=
  match l with
  | [] => []
  | x :: l => if String.eqb x "" then [] else x :: walked l
  end.

(** The directory a path of directories leads to; [None] is the error. *)
Definition resolveWrkDir (l : list string) (db : DataBin) : option (list string) :=
  let d := walked l in
  if forallb (λ p, bool_decide (p ∈ dirs db)) (prefixes d) then Some d else None.

(** ** Operations *)

(** [None] is the error, for a missing key and for a directory. *)
Definition bin_Get (path : string) (db : DataBin) : option string :=
  let splitPath := parts path in
  wrkDir ← resolveWrkDir (dir_part splitPath) db;
  let endPath := wrkDir ++ [end_part splitPath] in
  if bool_decide (endPath ∈ dirs db) then None else files db !! endPath.

Definition bin_Has (path : string) (db : DataBin) : bool :=
  let splitPath := parts path in
  match resolveWrkDir (dir_part splitPath) db with
  | None => false
  | Some wrkDir =>
      let endPath := wrkDir ++ [end_part splitPath] in
      bool_decide (endPath ∈ dirs db) || bool_decide (is_Some (files db !! endPath))
  end.

(** Missing directories are created on the way; empty parts are names here. *)
Definition bin_Set (path data : string) (db : DataBin) : DataBin :=
  let splitPath := parts path in
  mkDataBin (<[splitPath := data]> (files db)) (list_to_set (prefixes (dir_part splitPath)) ∪ dirs db).

(** [p] is [q] or lies below it. *)
Definition below (q p : list string) : Prop := q `prefix_of` p.

#[export] Instance below_dec q p : Decision (below q p) := decide_rel prefix q p.

(** Deleting a directory deletes what is below it.  The answer is not used. *)
Definition bin_Delete (path : string) (db : DataBin) : DataBin :=
  let splitPath := parts path in
  match resolveWrkDir (dir_part splitPath) db with
  | None => db
  | Some wrkDir =>
      let endPath := wrkDir ++ [end_part splitPath] in
      if bool_decide (endPath ∈ dirs db)
      then mkDataBin (filter (λ kv, ¬ below endPath kv.1) (files db)) (filter (λ d, ¬ below endPath d) (dirs db))
      else mkDataBin (delete endPath (files db)) (dirs db)
  end.

(** Saving the tree and loading it again ([Compact], [Save],
    [NewDataBinFromCid]): a directory replaces the file of its name. *)
Definition bin_Save (db : DataBin) : DataBin :=
  mkDataBin (filter (λ kv, kv.1 ∉ dirs db) (files db)) (dirs db).

(** ** Lemmas: paths *)

Lemma Split_parts_ne s : parts s ≠ [].
Proof. unfold parts. destruct s as [|c s]; simpl; [done|]. destruct (Split s slash); by destruct (Ascii.eqb c slash). Qed.

Lemma parts_dir_end s : parts s = dir_part (parts s) ++ [end_part (parts s)].
Proof.
  pose proof (Split_parts_ne s) as Hne. destruct (parts s) as [|x l] using rev_ind; [done|].
  unfold dir_part, end_part. rewrite length_app, last_snoc. cbn [length default from_option id].
  by rewrite take_app_length' by lia.
Qed.

Lemma prefixes_elem p l : p ∈ prefixes l ↔ p ≠ [] ∧ p `prefix_of` l.
Proof.
  revert p. induction l as [|x l IH]; intros p; cbn [prefixes].
  - rewrite elem_of_nil. split; [done|]. intros [Hp [k Hk]]. by destruct p.
  - rewrite elem_of_cons, list_elem_of_fmap. split.
    + intros [->|(q & -> & Hq%IH)].
      * split; [done|]. by exists l.
      * split; [done|]. apply prefix_cons, Hq.
    + intros [Hp [k Hk]]. destruct p as [|y p]; [done|]. injection Hk as -> Hk.
      destruct p as [|z p]; [by left|]. right. exists (z :: p). split; [done|]. apply IH. split; [done|]. by exists k.
Qed.

(** No part of the path to the value is empty. *)
Definition clean_key (key : string) : Prop := "" ∉ dir_part (parts key).

#[export] Instance clean_key_dec key : Decision (clean_key key) := _.

Lemma walked_clean l : "" ∉ l → walked l = l.
Proof.
  induction l as [|x l IH]; intros Hn; [done|]. apply not_elem_of_cons in Hn as [Hx Hn]. cbn [walked].
  destruct (String.eqb_spec x ""); [by subst|]. by rewrite IH.
Qed.

(** ** The tree as a map *)

(** Keys that can be kept side by side: no empty directory name, and no key is
    a directory of another. *)
Definition keys_ok (K : gset string) : Prop :=
  ∀ k, k ∈ K → clean_key k ∧ ∀ k', k' ∈ K → k ≠ k' → ¬ parts k `prefix_of` parts k'.

(** A tree whose directories only lead to keys of [K]. *)
Definition bin_ok (K : gset string) (db : DataBin) : Prop :=
  (∀ d, d ∈ dirs db → ∃ k, k ∈ K ∧ d `prefix_of` dir_part (parts k)) ∧
  (∀ p v, files db !! p = Some v → Forall (λ d, d ∈ dirs db) (prefixes (dir_part p))).

(** [strings.Join] with a one-byte separator. *)
Fixpoint Join (l : list string) (c : ascii) : string :=
  match l with
  | [] => ""
  | [x] => x
  | x :: l => x +:+ String c (Join l c)
  end.

Lemma Join_parts s : Join (parts s) slash = s.
Proof.
  unfold parts. induction s as [|a s IH]; [done|]. cbn [Split]. pose proof (Split_parts_ne s) as Hne. unfold parts in Hne.
  destruct (Ascii.eqb_spec a slash) as [->|_]; destruct (Split s slash) as [|x l]; [done| |done|]; rewrite <- IH; [done|].
  by destruct l.
Qed.

Lemma parts_inj s t : parts s = parts t → s = t.
Proof. intros Heq. by rewrite <- (Join_parts s), <- (Join_parts t), Heq. Qed.

Lemma resolve_clean K k db :
  keys_ok K → k ∈ K → bin_ok K db →
  resolveWrkDir (dir_part (parts k)) db
  = if forallb (λ p, bool_decide (p ∈ dirs db)) (prefixes (dir_part (parts k))) then Some (dir_part (parts k)) else None.
Proof. intros HK Hk _. unfold resolveWrkDir. rewrite walked_clean by apply (HK k Hk). done. Qed.

(** No key of [K] is a directory. *)
Lemma key_not_dir K k db : keys_ok K → k ∈ K → bin_ok K db → parts k ∉ dirs db.
Proof.
  intros HK Hk [Hd _] Hin. destruct (Hd _ Hin) as (k' & Hk' & Hp). destruct (decide (k = k')) as [->|Hne].
  - apply prefix_length in Hp. rewrite (parts_dir_end k'), length_app in Hp at 1. cbn in Hp. lia.
  - apply (proj2 (HK k Hk) k' Hk' Hne). rewrite (parts_dir_end k'). by apply prefix_app_r.
Qed.

(** For keys that can be kept side by side, reading is a lookup by path. *)
Lemma bin_Get_clean K k db : keys_ok K → k ∈ K → bin_ok K db → bin_Get k db = files db !! parts k.
Proof.
  intros HK Hk Hok. unfold bin_Get. cbv zeta. rewrite (resolve_clean K) by done.
  destruct (forallb _ _) eqn:E; cbn [mbind option_bind].
  - rewrite <- parts_dir_end. by rewrite bool_decide_eq_false_2 by by eapply key_not_dir.
  - destruct (files db !! parts k) as [v|] eqn:Hv; [|done]. exfalso.
    destruct Hok as [_ Hf]. apply Hf in Hv. apply Bool.not_true_iff_false in E. apply E.
    apply Is_true_true, forallb_True. eapply Forall_impl; [exact Hv|]. intros d Hd. by apply bool_decide_pack.
Qed.

Lemma prefix_dir_part p q : p `prefix_of` q → p ≠ q → p `prefix_of` dir_part q.
Proof.
  intros [l ->] Hne. destruct l as [|x l _] using rev_ind; [by rewrite app_nil_r in Hne|].
  unfold dir_part. rewrite app_assoc, length_app. cbn [length].
  rewrite take_app_length' by (rewrite !length_app; lia). by apply prefix_app_r.
Qed.

Lemma bin_Set_ok K k v db : keys_ok K → k ∈ K → bin_ok K db → bin_ok K (bin_Set k v db).
Proof.
  intros HK Hk [Hd Hf]. unfold bin_Set. split; cbn [files dirs].
  - intros d [[Hne Hp]%elem_of_list_to_set%prefixes_elem|Hin]%elem_of_union; [by exists k|by apply Hd].
  - intros p w. destruct (decide (p = parts k)) as [->|Hne].
    + intros _. apply Forall_forall. intros d Hd'. apply elem_of_union_l. by apply elem_of_list_to_set.
    + rewrite lookup_insert_ne by done. intros Hw%Hf. eapply Forall_impl; [exact Hw|]. intros d. apply elem_of_union_r.
Qed.

Lemma resolve_missing K k db :
  keys_ok K → k ∈ K → bin_ok K db →
  forallb (λ p, bool_decide (p ∈ dirs db)) (prefixes (dir_part (parts k))) = false → files db !! parts k = None.
Proof.
  intros HK Hk Hok E. rewrite <- (bin_Get_clean K k) by done. unfold bin_Get. cbv zeta.
  rewrite (resolve_clean K) by done. by rewrite E.
Qed.

Lemma bin_Delete_clean K k db :
  keys_ok K → k ∈ K → bin_ok K db → bin_Delete k db = mkDataBin (delete (parts k) (files db)) (dirs db).
Proof.
  intros HK Hk Hok. unfold bin_Delete. cbv zeta. rewrite (resolve_clean K) by done. destruct (forallb _ _) eqn:E.
  - rewrite <- parts_dir_end, bool_decide_eq_false_2; [done|]. by eapply key_not_dir.
  - rewrite delete_id by by eapply resolve_missing. by destruct db.
Qed.

Lemma bin_Delete_ok K k db : keys_ok K → k ∈ K → bin_ok K db → bin_ok K (bin_Delete k db).
Proof.
  intros HK Hk Hok. rewrite (bin_Delete_clean K) by done. destruct Hok as [Hd Hf]. split; cbn [files dirs]; [done|].
  intros p v [_ Hv]%lookup_delete_Some. by eapply Hf.
Qed.

Lemma bin_Save_ok K db : bin_ok K db → bin_ok K (bin_Save db).
Proof.
  intros [Hd Hf]. split; cbn [files dirs bin_Save]; [done|]. intros p v [Hv _]%map_lookup_filter_Some. by eapply Hf.
Qed.

(** ** Properties *)

(** For keys without empty parts none of which is a directory of another, the
    tree is a map: a write is read back, a deleted key is missing, other keys
    keep their values, and saving and loading the tree changes nothing. *)
Lemma bin_Get_Set K k k' v db :
  keys_ok K → k ∈ K → k' ∈ K → bin_ok K db →
  bin_Get k' (bin_Set k v db) = if String.eqb k k' then Some v else bin_Get k' db.
Proof.
  intros HK Hk Hk' Hok. rewrite !(bin_Get_clean K) by (done || by apply bin_Set_ok). unfold bin_Set. cbn [files].
  destruct (String.eqb_spec k k') as [->|Hne]; [apply lookup_insert_eq|].
  apply lookup_insert_ne. by intros ?%parts_inj.
Qed.

Lemma bin_Get_Delete K k k' db :
  keys_ok K → k ∈ K → k' ∈ K → bin_ok K db →
  bin_Get k' (bin_Delete k db) = if String.eqb k k' then None else bin_Get k' db.
Proof.
  intros HK Hk Hk' Hok. rewrite !(bin_Get_clean K) by (done || by apply bin_Delete_ok).
  rewrite (bin_Delete_clean K) by done. cbn [files].
  destruct (String.eqb_spec k k') as [->|Hne]; [apply lookup_delete_eq|].
  apply lookup_delete_ne. by intros ?%parts_inj.
Qed.

Lemma bin_Get_Save K k db : keys_ok K → k ∈ K → bin_ok K db → bin_Get k (bin_Save db) = bin_Get k db.
Proof.
  intros HK Hk Hok. rewrite !(bin_Get_clean K) by (done || by apply bin_Save_ok). unfold bin_Save. cbn [files].
  destruct (files db !! parts k) as [v|] eqn:E.
  - apply map_lookup_filter_Some. split; [done|]. by eapply key_not_dir.
  - apply map_lookup_filter_None. by left.
Qed.

Lemma bin_ok_empty K : bin_ok K NewDataBin.
Proof. by split. Qed.

(** ** Keys that do not fit *)

(** Reading follows a path only up to an empty part, writing does not: a key
    with an empty directory name is not read back, and it reads the value of
    another key. *)
Lemma empty_part_not_read_back : bin_Get "/x" (bin_Set "/x" "1" NewDataBin) = None.
Proof. vm_compute. reflexivity. Qed.

Lemma empty_part_aliases : bin_Get "/x" (bin_Set "x" "1" NewDataBin) = Some "1".
Proof. vm_compute. reflexivity. Qed.

(** A key that is a directory of another one is lost as soon as the other is
    written, and deleting it deletes the other. *)
Lemma directory_hides_value : bin_Get "a" (bin_Set "a/b" "2" (bin_Set "a" "1" NewDataBin)) = None.
Proof. vm_compute. reflexivity. Qed.

Lemma delete_takes_subtree : bin_Get "a/b" (bin_Delete "a" (bin_Set "a/b" "2" NewDataBin)) = None.
Proof. vm_compute. reflexivity. Qed.
