(* ===== verification/BtcVault.v ===== *)
(** The Bitcoin primitives of the vault, [lib/btcvault]: the names and the registry
    of its generations, the message a fresh key proves itself with, the script
    funds are paid to, and the pending spends of the mapping contract.

    SHA-256, the parsing of Bitcoin transactions and of MessagePack, and the
    digest of BIP 143 are a class of operations.

    The theorems: generation names and numbers correspond exactly; reading a
    registry gives back the generations written; the message of a key and the
    script of a vault determine the key, the generation and the backup. *)
From Stdlib Require Import Ascii DecimalString DecimalN.
From S2P Require Import Prelude GoMaps GoStrings GoEncoding Assets.

(** ** Libraries *)

Record TxOut := mkTxOut { out_Value : Z; out_PkScript : list Z }.
Record MsgTx := mkMsgTx { tx_Ins : nat; tx_Outs : list TxOut }.

(** A value of MessagePack. *)
Inductive mval :=
| MMap (fields : list (string * mval))
| MArr (l : list mval)
| MBin (b : list Z)
| MInt (n : Z)
| MOther.

Class BtcLib := {
  Sum256 : list Z → list Z;
  (** [Deserialize] of a transaction. *)
  ParseTx : list Z → option MsgTx;
  (** [CalcWitnessSigHash] with [SigHashAll], for an input, its script and value. *)
  CalcWitnessSigHash : MsgTx → nat → list Z → Z → option (list Z);
  msgp_read : list Z → option mval;
}.

(** ** Generations *)

Inductive VaultStatus := VaultPending | VaultActive | VaultRetiring | VaultDraining | VaultInactive | VaultPurged | VaultOther (b : Z).

#[export] Instance VaultStatus_eq_dec : EqDecision VaultStatus.
Proof. solve_decision. Defined.

Definition status_of (b : Z) : VaultStatus :=
  if b =? 0 then VaultPending else if b =? 1 then VaultActive else if b =? 2 then VaultRetiring else if b =? 3 then VaultDraining
  else if b =? 4 then VaultInactive else if b =? 5 then VaultPurged else VaultOther b.

Definition VaultEntrySize : nat := 91.
Definition CompressedPubKeyLen : nat := 33.

Record Vault := mkVault {
  v_Generation : Z;
  v_Primary : list Z;
  v_Backup : list Z;
  v_Status : VaultStatus;
  v_Predecessor : Z;
  v_CreatedHeight : Z;
  v_ActivatedHeight : Z;
  v_RetiredHeight : Z;
  v_InactiveHeight : Z;
}.

(** [data[a:b]] *)
Definition slice (a b : nat) (data : list Z) : list Z := take (b - a) (drop a data).

(** [binary.BigEndian.Uint32(data[off:])] *)
Definition be32 (off : nat) (data : list Z) : Z := SetBytes (slice off (off + 4) data).

Definition read_vault (e : list Z) : Vault :=
  mkVault (be32 0 e) (slice 4 37 e) (slice 37 70 e) (status_of (nth 70 e 0)) (be32 71 e) (be32 75 e) (be32 79 e) (be32 83 e) (be32 87 e).

Definition UnmarshalVaultRegistry (data : list Z) : option (list Vault) :=
  if negb (length data mod VaultEntrySize =? 0)%nat then None
  else Some ((λ i, read_vault (slice (i * VaultEntrySize) (i * VaultEntrySize + VaultEntrySize) data)) <$> seq 0 (length data / VaultEntrySize)).

Definition ReadUint32BE (data : list Z) : option Z := if negb (length data =? 4)%nat then None else Some (be32 0 data).

Definition UnmarshalTxSpendsRegistry (data : list Z) : option (list string) :=
  if negb (length data mod 32 =? 0)%nat then None
  else Some ((λ i, hex_encode (slice (i * 32) (i * 32 + 32) data)) <$> seq 0 (length data / 32)).

Definition VaultKeyName (gen : Z) : string := if gen =? 0 then "main" else "main" +:+ "v" +:+ FormatUint gen.

Definition IsFundHoldingStatus (s : VaultStatus) : bool :=
  match s with VaultActive | VaultRetiring | VaultDraining | VaultInactive => true | _ => false end.

Definition MaxUint32 : Z := 2 ^ 32 - 1.

(** [strconv.ParseUint(s, 10, 32)] *)
Definition ParseUint32 (s : string) : option Z := n ← ParseUint s; if n <=? MaxUint32 then Some n else None.

Definition VaultGenFromKeyName (name : string) : option Z :=
  if String.eqb name "main" then Some 0
  else
    num ← (if HasPrefix name "mainv" then Some (sdrop 5 name) else None);
    match num with
    | "" => None
    | String c _ =>
        if Ascii.eqb c "0" then None
        else n ← ParseUint32 num; if n =? 0 then None else Some n
    end.

Definition VaultGenFromKeyId (contractId keyId : string) : option Z :=
  if String.eqb contractId "" then None
  else if negb (HasPrefix keyId (contractId +:+ "-")) then None
  else VaultGenFromKeyName (sdrop (String.length (contractId +:+ "-")) keyId).

(** ** The check signature *)

Definition CheckSigDomainTag : string := "MAGI-VAULT-CHECKSIG-v2".

(** [PutUint16], [PutUint32] *)
Definition put16 (n : Z) : list Z := [n / 256 mod 256; n mod 256].
Definition put32 (n : Z) : list Z := [n / 16777216 mod 256; n / 65536 mod 256; n / 256 mod 256; n mod 256].

Definition string_bytes (s : string) : list Z := (λ c, Z.of_N (N_of_ascii c)) <$> String.list_ascii_of_string s.

Definition checksig_preimage (keyId : string) (gen : Z) (pubkey : list Z) : list Z :=
  string_bytes CheckSigDomainTag ++ put16 (Z.of_nat (String.length keyId) mod 65536) ++ string_bytes keyId ++ put32 gen ++ pubkey.

Section vault.
Context `{BtcLib}.

Definition CheckSigMessage (keyId : string) (gen : Z) (pubkey : list Z) : list Z := Sum256 (checksig_preimage keyId gen pubkey).

(** ** Scripts *)

Definition BackupCSVBlocksMainnet : Z := 4320.
Definition BackupCSVBlocksTestnet : Z := 2.
Definition CSVBlocksForNet (mainnet : bool) : Z := if mainnet then BackupCSVBlocksMainnet else BackupCSVBlocksTestnet.

(** [AddInt64] of the numbers used: the opcode of a small one, else the push of
    the two bytes of a script number. *)
Definition add_int64 (n : Z) : list Z := if (1 <=? n) && (n <=? 16) then [80 + n] else [2; n mod 256; n / 256].

(** [AddData] of fewer than 76 bytes. *)
Definition add_data (d : list Z) : list Z := Z.of_nat (length d) :: d.

Definition witness_script (primary backup : list Z) (csvBlocks : Z) : list Z :=
  [99] ++ add_data primary ++ [172; 103] ++ add_int64 csvBlocks ++ [178; 117] ++ add_data backup ++ [172; 104].

(** [NewAddressWitnessScriptHash] and [PayToAddrScript] *)
Definition p2wsh (script : list Z) : list Z := 0 :: add_data (Sum256 script).

Definition SuccessorPkScriptRaw (primary backup : list Z) (csvBlocks : Z) : option (list Z * list Z) :=
  if negb (length primary =? CompressedPubKeyLen)%nat || negb (length backup =? CompressedPubKeyLen)%nat then None
  else let ws := witness_script primary backup csvBlocks in Some (ws, p2wsh ws).

Definition SuccessorPkScript (primaryHex backupHex : string) (csvBlocks : Z) : option (list Z * list Z) :=
  primary ← hex_decode primaryHex;
  backup ← hex_decode backupHex;
  SuccessorPkScriptRaw primary backup csvBlocks.

(** The script of the input matters only to later versions of the digest. *)
Definition RecomputeSegwitV0Sighash (txBytes : list Z) (inputIndex : Z) (witnessScript : list Z) (amountSats : Z) : option (list Z) :=
  tx ← ParseTx txBytes;
  if (inputIndex <? 0) || (Z.of_nat (tx_Ins tx) <=? inputIndex) then None
  else CalcWitnessSigHash tx (Z.to_nat inputIndex) witnessScript amountSats.

Definition AllOutputsPay (tx : MsgTx) (pkScript : list Z) : bool :=
  negb (bool_decide (tx_Outs tx = [])) && forallb (λ out, bool_decide (out_PkScript out = pkScript)) (tx_Outs tx).

(** ** Pending spends *)

Record UnsignedSigHash := mkUnsignedSigHash {
  uh_Index : Z;
  uh_SigHash : list Z;
  uh_WitnessScript : list Z;
  uh_Amount : Z;
  uh_HasAmount : bool;
}.

Record SigningData := mkSigningData { sd_Tx : list Z; sd_UnsignedSigHashes : list UnsignedSigHash }.

Definition as_bin (v : mval) : option (list Z) := match v with MBin b => Some b | _ => None end.
Definition as_uint32 (v : mval) : option Z := match v with MInt n => if (0 <=? n) && (n <=? MaxUint32) then Some n else None | _ => None end.
Definition as_int64 (v : mval) : option Z := match v with MInt n => if (- MaxInt64 - 1 <=? n) && (n <=? MaxInt64) then Some n else None | _ => None end.

Definition decode_uh_field (acc : option UnsignedSigHash) (kv : string * mval) : option UnsignedSigHash :=
  uh ← acc;
  let '(key, v) := kv in
  if String.eqb key "i" then n ← as_uint32 v; Some (mkUnsignedSigHash n (uh_SigHash uh) (uh_WitnessScript uh) (uh_Amount uh) (uh_HasAmount uh))
  else if String.eqb key "hs" then b ← as_bin v; Some (mkUnsignedSigHash (uh_Index uh) b (uh_WitnessScript uh) (uh_Amount uh) (uh_HasAmount uh))
  else if String.eqb key "ws" then b ← as_bin v; Some (mkUnsignedSigHash (uh_Index uh) (uh_SigHash uh) b (uh_Amount uh) (uh_HasAmount uh))
  else if String.eqb key "am" then n ← as_int64 v; Some (mkUnsignedSigHash (uh_Index uh) (uh_SigHash uh) (uh_WitnessScript uh) n true)
  else Some uh.

Definition decodeUnsignedSigHash (v : mval) : option UnsignedSigHash :=
  match v with
  | MMap fields => foldl decode_uh_field (Some (mkUnsignedSigHash 0 [] [] 0 false)) fields
  | _ => None
  end.

Definition decode_sd_field (acc : option SigningData) (kv : string * mval) : option SigningData :=
  sd ← acc;
  let '(key, v) := kv in
  if String.eqb key "tx" then b ← as_bin v; Some (mkSigningData b (sd_UnsignedSigHashes sd))
  else if String.eqb key "uh" then
    match v with
    | MArr l => uhs ← mapM decodeUnsignedSigHash l; Some (mkSigningData (sd_Tx sd) uhs)
    | _ => None
    end
  else Some sd.

Definition DecodeSigningData (raw : list Z) : option SigningData :=
  v ← msgp_read raw;
  match v with
  | MMap fields => foldl decode_sd_field (Some (mkSigningData [] [])) fields
  | _ => None
  end.
End vault.

(** ** Names of generations *)

Lemma VaultKeyName_pos gen : 0 < gen → VaultKeyName gen = "mainv" +:+ FormatUint gen.
Proof. intros Hg. unfold VaultKeyName. by rewrite (proj2 (Z.eqb_neq gen 0)) by lia. Qed.

(** The first digit of a positive number is not zero. *)
Lemma FormatUint_head n : 0 < n → ∃ c s, FormatUint n = String c s ∧ c ≠ "0"%char.
Proof.
  intros Hn. destruct (FormatUint n) as [|c s] eqn:E; [by apply FormatUint_ne in E|]. exists c, s. split; [done|].
  intros ->. unfold FormatUint in E. pose proof (Unsigned.of_to (Z.to_N n)) as Hof.
  assert (Decimal.unorm (N.to_uint (Z.to_N n)) = N.to_uint (Z.to_N n)) as Hun by (by rewrite <- Unsigned.to_of, Hof).
  destruct (N.to_uint (Z.to_N n)) as [|d|d|d|d|d|d|d|d|d|d]; try done.
  rewrite DecimalFacts.unorm_D0 in Hun. pose proof (DecimalFacts.nb_digits_unorm d) as Hl.
  assert (d ≠ Decimal.Nil) as Hne by (intros ->; change (0%N = Z.to_N n) in Hof; lia).
  specialize (Hl Hne). rewrite Hun in Hl. cbn in Hl. lia.
Qed.

(** A name is accepted for a generation just when it is that generation's name. *)
Lemma names_exact name gen :
  VaultGenFromKeyName name = Some gen ↔ 0 <= gen <= MaxUint32 ∧ name = VaultKeyName gen.
Proof.
  unfold VaultGenFromKeyName. destruct (String.eqb_spec name "main") as [->|Hm].
  { split; [by intros [= <-]|]. intros [Hr Hn]. destruct (decide (gen = 0)) as [->|]; [done|].
    rewrite VaultKeyName_pos in Hn by lia. destruct (FormatUint_head gen) as (c & s & E & _); [lia|]. by rewrite E in Hn. }
  split.
  - destruct (HasPrefix name "mainv") eqn:Hp; [|done]. apply HasPrefix_spec in Hp as [t ->].
    change 5%nat with (slen "mainv"). rewrite sdrop_app. cbn [mbind option_bind]. destruct t as [|c t]; [done|].
    destruct (Ascii.eqb_spec c "0") as [|Hc]; [done|]. unfold ParseUint32.
    destruct (ParseUint (String c t)) as [n|] eqn:Hn; [|done]. cbn [mbind option_bind].
    destruct (Z.leb_spec n MaxUint32); [|done]. cbn [mbind option_bind]. destruct (Z.eqb_spec n 0); [done|]. intros [= <-].
    pose proof (ParseUint_nonneg _ _ Hn). rewrite (ParseUint_canonical _ _ _ Hc Hn).
    split; [lia|]. by rewrite VaultKeyName_pos by lia.
  - intros [Hr ->]. destruct (decide (gen = 0)) as [->|]; [done|]. rewrite VaultKeyName_pos in * by lia.
    rewrite HasPrefix_app. change 5%nat with (slen "mainv"). rewrite sdrop_app. cbn [mbind option_bind].
    destruct (FormatUint_head gen) as (c & s & E & Hc); [lia|]. rewrite E. destruct (Ascii.eqb_spec c "0"); [done|].
    rewrite <- E. unfold ParseUint32. rewrite ParseUint_FormatUint by (unfold u64, MaxUint64, MaxUint32 in *; lia). cbn [mbind option_bind].
    rewrite (proj2 (Z.leb_le _ _)) by lia. cbn [mbind option_bind]. by rewrite (proj2 (Z.eqb_neq _ _)) by lia.
Qed.

(** Reading the generation off a key id is the exact inverse of naming the key of a
    generation of the contract: no two ids are read as one generation and no other
    key of the contract is taken for a vault key. *)
Lemma key_ids_exact contractId keyId gen :
  VaultGenFromKeyId contractId keyId = Some gen ↔
  contractId ≠ "" ∧ 0 <= gen <= MaxUint32 ∧ keyId = contractId +:+ "-" +:+ VaultKeyName gen.
Proof.
  unfold VaultGenFromKeyId. destruct (String.eqb_spec contractId "") as [->|Hc]; [naive_solver|].
  destruct (HasPrefix keyId (contractId +:+ "-")) eqn:Hp.
  - apply HasPrefix_spec in Hp as [t ->]. change (String.length (contractId +:+ "-")) with (slen (contractId +:+ "-")).
    rewrite sdrop_app. cbn [negb]. rewrite names_exact, sapp_assoc. split.
    + by intros [? ->].
    + intros (_ & ? & E). split; [done|]. rewrite <- !sapp_assoc in E. by apply (inj (String.append (contractId +:+ "-"))) in E.
  - split; [done|]. intros (_ & _ & ->). by rewrite <- sapp_assoc, HasPrefix_app in Hp.
Qed.

(** ** Bytes *)

Definition u32 (n : Z) : Prop := 0 <= n <= MaxUint32.

Lemma put32_ok n : Forall byte_ok (put32 n).
Proof. unfold put32. repeat (apply Forall_cons; split; [by apply Z.mod_pos_bound|]). constructor. Qed.

Lemma SetBytes_put32 n : u32 n → SetBytes (put32 n) = n.
Proof. unfold u32, MaxUint32, SetBytes, put32. cbn [foldl]. Z.to_euclidean_division_equations. lia. Qed.

Lemma put32_SetBytes l : length l = 4%nat → Forall byte_ok l → put32 (SetBytes l) = l ∧ u32 (SetBytes l).
Proof.
  intros Hl Hb. destruct l as [|a [|b [|c [|d [|]]]]]; try done. unfold byte_ok in Hb.
  apply Forall_cons in Hb as [Ha Hb]. apply Forall_cons in Hb as [Hb Hc]. apply Forall_cons in Hc as [Hc Hd].
  apply Forall_cons in Hd as [Hd _]. unfold SetBytes, put32, u32, MaxUint32. cbn [foldl].
  split; [|lia]. repeat f_equal; Z.to_euclidean_division_equations; lia.
Qed.

(** A slice that skips the front, and one that is the front. *)
Lemma slice_app_skip a b (x y : list Z) : (length x <= a)%nat → slice a b (x ++ y) = slice (a - length x) (b - length x) y.
Proof. intros Hx. unfold slice. rewrite drop_app_ge by done. f_equal. lia. Qed.

Lemma slice_app_front b (x y : list Z) : length x = b → slice 0 b (x ++ y) = x.
Proof. intros <-. unfold slice. rewrite Nat.sub_0_r, drop_0. by rewrite take_app_length. Qed.

Lemma slice_all b (x : list Z) : length x = b → slice 0 b x = x.
Proof. intros <-. unfold slice. rewrite Nat.sub_0_r, drop_0. by rewrite firstn_all. Qed.

(** Entries of one width, read one after the other. *)
Definition slices (k n : nat) (data : list Z) : list (list Z) := (λ i, slice (i * k) (i * k + k) data) <$> seq 0 n.

Lemma slices_cons k n x data : length x = k → slices k (S n) (x ++ data) = x :: slices k n data.
Proof.
  intros Hx. unfold slices. cbn [seq fmap list_fmap]. f_equal; [by apply slice_app_front|].
  rewrite <- fmap_S_seq, <- list_fmap_compose. apply list_fmap_ext. intros i j _. unfold compose.
  rewrite slice_app_skip by lia. f_equal; lia.
Qed.

Lemma slices_concat k ls : Forall (λ x, length x = k) ls → slices k (length ls) (concat ls) = ls.
Proof.
  induction ls as [|x ls IH]; intros Hl; [done|]. apply Forall_cons in Hl as [Hx Hl].
  cbn [length concat]. by rewrite slices_cons, IH.
Qed.

Lemma concat_slices k n data :
  length data = (n * k)%nat → concat (slices k n data) = data ∧ Forall (λ x, length x = k) (slices k n data).
Proof.
  revert data. induction n as [|n IH]; intros data Hl.
  - destruct data; [split; [done|constructor]|done].
  - assert (length (take k data) = k) as Hk by (rewrite length_take; lia).
    assert (slices k (S n) data = take k data :: slices k n (drop k data)) as ->.
    { rewrite <- (take_drop k data) at 1. by apply slices_cons. }
    destruct (IH (drop k data)) as [E F]; [rewrite length_drop; lia|].
    cbn [concat]. rewrite E, take_drop. split; [done|]. by constructor.
Qed.

Lemma concat_length k (ls : list (list Z)) : Forall (λ x, length x = k) ls → length (concat ls) = (length ls * k)%nat.
Proof. induction 1 as [|x ls Hx _ IH]; [done|]. cbn [concat length]. rewrite length_app. lia. Qed.

(** ** The registry *)

(** The layout documented for the registry of the mapping contract. *)
Definition status_byte (s : VaultStatus) : Z :=
  match s with
  | VaultPending => 0 | VaultActive => 1 | VaultRetiring => 2 | VaultDraining => 3 | VaultInactive => 4 | VaultPurged => 5
  | VaultOther b => b
  end.

Definition write_vault (v : Vault) : list Z :=
  put32 (v_Generation v) ++ v_Primary v ++ v_Backup v ++ [status_byte (v_Status v)] ++ put32 (v_Predecessor v) ++
  put32 (v_CreatedHeight v) ++ put32 (v_ActivatedHeight v) ++ put32 (v_RetiredHeight v) ++ put32 (v_InactiveHeight v).

Definition status_ok (s : VaultStatus) : Prop := match s with VaultOther b => 6 <= b < 256 | _ => True end.

Record vault_ok (v : Vault) : Prop := {
  vok_gen : u32 (v_Generation v);
  vok_primary : length (v_Primary v) = CompressedPubKeyLen ∧ Forall byte_ok (v_Primary v);
  vok_backup : length (v_Backup v) = CompressedPubKeyLen ∧ Forall byte_ok (v_Backup v);
  vok_status : status_ok (v_Status v);
  vok_heights : Forall u32 [v_Predecessor v; v_CreatedHeight v; v_ActivatedHeight v; v_RetiredHeight v; v_InactiveHeight v];
}.

Lemma status_roundtrip s : status_ok s → status_of (status_byte s) = s ∧ byte_ok (status_byte s).
Proof.
  unfold byte_ok. destruct s as [| | | | | |b]; cbn [status_byte status_ok]; intros Hb; try (split; [done|lia]).
  split; [|lia]. unfold status_of. by rewrite !(proj2 (Z.eqb_neq b _)) by lia.
Qed.

Lemma byte_status b : byte_ok b → status_byte (status_of b) = b ∧ status_ok (status_of b).
Proof.
  unfold byte_ok, status_of. intros Hb.
  repeat match goal with |- context [b =? ?k] => destruct (Z.eqb_spec b k) as [->|]; [done|] end.
  split; [done|]. unfold status_ok. lia.
Qed.

Lemma write_vault_length v : vault_ok v → length (write_vault v) = VaultEntrySize.
Proof. intros [_ [Hp _] [Hb _] _ _]. unfold write_vault. rewrite !length_app, Hp, Hb. done. Qed.

Lemma write_vault_bytes v : vault_ok v → Forall byte_ok (write_vault v).
Proof.
  intros [_ [_ Hp] [_ Hb] Hs _]. unfold write_vault. rewrite !Forall_app, Forall_singleton.
  split_and!; auto using put32_ok. by apply status_roundtrip.
Qed.

(** Reading the part of an entry that begins at an offset. *)
Ltac at_offset H1 H2 :=
  repeat (rewrite slice_app_skip by (rewrite ?H1, ?H2; cbn; lia); rewrite ?H1, ?H2; cbn [length put32 Nat.sub Nat.add]);
  first [rewrite slice_app_front by done | rewrite slice_all by done].

Lemma read_write_vault v : vault_ok v → read_vault (write_vault v) = v.
Proof.
  intros [Hg [Hp _] [Hb _] Hs Hh]. rewrite !Forall_cons in Hh. destruct Hh as (H1 & H2 & H3 & H4 & H5 & _).
  unfold read_vault, write_vault, be32, CompressedPubKeyLen in *.
  assert (∀ e, (70 < length e)%nat → nth 70 e 0 = nth 0 (slice 70 71 e) 0) as Hn.
  { intros e He. unfold slice. rewrite !nth_lookup, lookup_take_lt, lookup_drop by (cbn; lia). done. }
  rewrite Hn by (rewrite !length_app, Hp, Hb; cbn; lia). clear Hn.
  destruct v as [g p b st pr ch ah rh ih]; cbn [v_Generation v_Primary v_Backup v_Status v_Predecessor v_CreatedHeight v_ActivatedHeight v_RetiredHeight v_InactiveHeight] in *.
  f_equal; at_offset Hp Hb; try by apply SetBytes_put32.
  - done.
  - done.
  - by apply status_roundtrip.
Qed.

Lemma slice_join a b c (e : list Z) : (a <= b <= c)%nat → slice a b e ++ slice b c e = slice a c e.
Proof.
  intros Hl. unfold slice. replace (c - a)%nat with ((b - a) + (c - b))%nat by lia.
  rewrite <- take_take_drop, drop_drop. repeat f_equal. lia.
Qed.

Lemma slice_bytes a b e : Forall byte_ok e → Forall byte_ok (slice a b e).
Proof. intros He. unfold slice. by apply Forall_take, Forall_drop. Qed.

Lemma slice_length a b (e : list Z) : (b <= length e)%nat → length (slice a b e) = (b - a)%nat.
Proof. intros He. unfold slice. rewrite length_take, length_drop. lia. Qed.

Lemma put32_be32 off e : (off + 4 <= length e)%nat → Forall byte_ok e → put32 (be32 off e) = slice off (off + 4) e ∧ u32 (be32 off e).
Proof. intros Hl He. apply put32_SetBytes; [rewrite slice_length by done; lia|by apply slice_bytes]. Qed.

Lemma write_read_vault e :
  length e = VaultEntrySize → Forall byte_ok e → write_vault (read_vault e) = e ∧ vault_ok (read_vault e).
Proof.
  unfold VaultEntrySize. intros Hl He.
  assert ([nth 70 e 0] = slice 70 71 e ∧ byte_ok (nth 70 e 0)) as [Hn Hnb].
  { destruct (lookup_lt_is_Some_2 e 70) as [x Hx]; [lia|]. rewrite (nth_lookup_Some _ _ _ _ Hx).
    split; [|by eapply Forall_lookup_1]. unfold slice. by rewrite (drop_S _ _ _ Hx). }
  destruct (byte_status _ Hnb) as [Hs Hsok].
  destruct (put32_be32 0 e) as [E0 U0]; [lia|done|]. destruct (put32_be32 71 e) as [E1 U1]; [lia|done|].
  destruct (put32_be32 75 e) as [E2 U2]; [lia|done|]. destruct (put32_be32 79 e) as [E3 U3]; [lia|done|].
  destruct (put32_be32 83 e) as [E4 U4]; [lia|done|]. destruct (put32_be32 87 e) as [E5 U5]; [lia|done|].
  unfold write_vault, read_vault; cbn [v_Generation v_Primary v_Backup v_Status v_Predecessor v_CreatedHeight v_ActivatedHeight v_RetiredHeight v_InactiveHeight].
  split.
  - rewrite Hs, Hn, E0, E1, E2, E3, E4, E5. cbn [Nat.add]. rewrite !slice_join by lia. by apply slice_all.
  - split; cbn [v_Generation v_Primary v_Backup v_Status v_Predecessor v_CreatedHeight v_ActivatedHeight v_RetiredHeight v_InactiveHeight];
      [done| | |done|by rewrite !Forall_cons]; (split; [rewrite slice_length by lia; done|by apply slice_bytes]).
Qed.

Lemma Unmarshal_slices data :
  UnmarshalVaultRegistry data =
    if (length data mod VaultEntrySize =? 0)%nat then Some (read_vault <$> slices VaultEntrySize (length data / VaultEntrySize) data) else None.
Proof. unfold UnmarshalVaultRegistry, slices. rewrite <- list_fmap_compose. by destruct (_ =? _)%nat. Qed.

Lemma Unmarshal_ok data vs : Forall byte_ok data → UnmarshalVaultRegistry data = Some vs → Forall vault_ok vs.
Proof.
  intros Hd. rewrite Unmarshal_slices. destruct (Nat.eqb_spec (length data mod VaultEntrySize) 0) as [Hm|]; [|done]. intros [= <-].
  assert (length data = (length data / VaultEntrySize * VaultEntrySize)%nat) as Hl.
  { pose proof (Nat.div_mod_eq (length data) VaultEntrySize). lia. }
  destruct (concat_slices _ _ _ Hl) as [_ Hf]. rewrite Forall_fmap. rewrite Forall_forall in Hf |- *. intros e He.
  apply write_read_vault; [by apply Hf|]. unfold slices in He. apply list_elem_of_fmap in He as (i & -> & _). by apply slice_bytes.
Qed.

(** C40: the registry read from the contract's state is the one written there: a
    blob of bytes is read as a list of generations just when it is the
    concatenation of their entries, so a truncated blob is refused and no field
    of an entry runs into another. *)
Theorem registry_exact data vs :
  Forall byte_ok data →
  UnmarshalVaultRegistry data = Some vs ↔ Forall vault_ok vs ∧ data = concat (write_vault <$> vs).
Proof.
  intros Hd. rewrite Unmarshal_slices. split.
  - destruct (Nat.eqb_spec (length data mod VaultEntrySize) 0) as [Hm|]; [|done]. intros [= <-].
    assert (length data = (length data / VaultEntrySize * VaultEntrySize)%nat) as Hl.
    { pose proof (Nat.div_mod_eq (length data) VaultEntrySize). lia. }
    destruct (concat_slices _ _ _ Hl) as [Hc Hf]. set (es := slices _ _ data) in *.
    assert (Forall (λ e, write_vault (read_vault e) = e ∧ vault_ok (read_vault e)) es) as Hes.
    { rewrite Forall_forall in Hf |- *. intros e He. apply write_read_vault; [by apply Hf|].
      unfold es, slices in He. apply list_elem_of_fmap in He as (i & -> & _). by apply slice_bytes. }
    split.
    + rewrite Forall_fmap. eapply Forall_impl; [exact Hes|]. by intros e [_ ?].
    + rewrite <- Hc at 1. f_equal. clear -Hes. induction Hes as [|e es [He _] _ IH]; [done|]. cbn [fmap list_fmap]. by rewrite He, <- IH at 1.
  - intros [Hok ->].
    assert (Forall (λ x, length x = VaultEntrySize) (write_vault <$> vs)) as Hf.
    { rewrite Forall_fmap. eapply Forall_impl; [exact Hok|]. intros v Hv. by apply write_vault_length. }
    rewrite (concat_length _ _ Hf), Nat.Div0.mod_mul, Nat.div_mul by done. cbn [Nat.eqb].
    rewrite slices_concat, <- list_fmap_compose by done. f_equal.
    clear -Hok. induction Hok as [|v vs Hv _ IH]; [done|]. cbn [fmap list_fmap]. unfold compose at 1. by rewrite read_write_vault, IH.
Qed.

(** ** What a digest stands for *)

Lemma string_bytes_length s : length (string_bytes s) = slen s.
Proof. unfold string_bytes. rewrite length_fmap. induction s as [|c s IH]; [done|]. simpl. by rewrite IH. Qed.

#[global] Instance string_bytes_inj : Inj (=) (=) string_bytes.
Proof.
  intros s t E. unfold string_bytes in E. apply list_fmap_eq_inj in E.
  - by rewrite <- (String.string_of_list_ascii_of_string s), E, String.string_of_list_ascii_of_string.
  - intros a b Eab. apply N2Z.inj in Eab. by rewrite <- (ascii_N_embedding a), Eab, ascii_N_embedding.
Qed.

Lemma put16_inj n m : 0 <= n < 65536 → 0 <= m < 65536 → put16 n = put16 m → n = m.
Proof. unfold put16. intros Hn Hm [= H1 H2]. Z.to_euclidean_division_equations. lia. Qed.

Lemma put32_inj n m : u32 n → u32 m → put32 n = put32 m → n = m.
Proof. intros Hn Hm E. by rewrite <- (SetBytes_put32 n), E, SetBytes_put32. Qed.

(** Two different inputs of SHA-256 with one digest. *)
Definition collision `{BtcLib} (a b : list Z) : Prop := a ≠ b ∧ Sum256 a = Sum256 b.

(** The message a fresh vault key signs stands for one key, generation and
    public key: two messages are the same only for the same three, or else the two
    preimages are a collision of SHA-256, so the signature that activates one
    generation cannot activate another. *)
Theorem checksig_message_binds `{BtcLib} id1 gen1 pk1 id2 gen2 pk2 :
  Z.of_nat (slen id1) < 65536 → Z.of_nat (slen id2) < 65536 → u32 gen1 → u32 gen2 →
  CheckSigMessage id1 gen1 pk1 = CheckSigMessage id2 gen2 pk2 →
  (id1 = id2 ∧ gen1 = gen2 ∧ pk1 = pk2) ∨ collision (checksig_preimage id1 gen1 pk1) (checksig_preimage id2 gen2 pk2).
Proof.
  intros Hl1 Hl2 Hg1 Hg2 EM. destruct (decide (checksig_preimage id1 gen1 pk1 = checksig_preimage id2 gen2 pk2)) as [E|]; [left|by right].
  unfold checksig_preimage in E. apply app_inv_head in E.
  apply app_inj_1 in E as [El E]; [|done]. unfold slen in *. rewrite !Z.mod_small in El by lia. apply put16_inj in El; [|lia|lia].
  apply app_inj_1 in E as [Ei E]; [|rewrite !string_bytes_length; unfold slen in *; lia].
  apply app_inj_1 in E as [Eg E]; [|done]. apply put32_inj in Eg; [|done|done].
  by apply (inj string_bytes) in Ei.
Qed.

(** The script a vault's funds are paid to stands for its keys: two pairs of
    keys have one output script only when they are the same pair, or else their
    witness scripts are a collision of SHA-256. *)
Theorem vault_script_binds `{BtcLib} csv p1 b1 p2 b2 ws1 ws2 pk :
  SuccessorPkScriptRaw p1 b1 csv = Some (ws1, pk) → SuccessorPkScriptRaw p2 b2 csv = Some (ws2, pk) →
  (p1 = p2 ∧ b1 = b2) ∨ collision ws1 ws2.
Proof.
  unfold SuccessorPkScriptRaw.
  destruct (Nat.eqb_spec (length p1) CompressedPubKeyLen) as [Hp1|]; [|done].
  destruct (Nat.eqb_spec (length b1) CompressedPubKeyLen) as [Hb1|]; [|done].
  destruct (Nat.eqb_spec (length p2) CompressedPubKeyLen) as [Hp2|]; [|done].
  destruct (Nat.eqb_spec (length b2) CompressedPubKeyLen) as [Hb2|]; [|done].
  intros [= <- <-] [= <- _ E].
  destruct (decide (witness_script p1 b1 csv = witness_script p2 b2 csv)) as [Ew|]; [left|by right].
  unfold witness_script, add_data in Ew. apply (app_inv_head [99]) in Ew. rewrite Hp1, Hp2, Hb1, Hb2 in Ew.
  apply (app_inv_head [Z.of_nat CompressedPubKeyLen]) in Ew. apply app_inj_1 in Ew as [-> Ew]; [|congruence].
  apply (app_inv_head [172; 103]), app_inv_head, (app_inv_head [178; 117]), (app_inv_head [Z.of_nat CompressedPubKeyLen]) in Ew.
  by apply app_inj_1 in Ew as [-> _]; [|congruence].
Qed.
