(* ===== verification/VaultScope.v ===== *)
(** Which signatures of a Bitcoin vault's keys a node contributes to
    ([modules/tss/output_scoping.go], [solvency_gate.go],
    [vault_rotation_gate.go]) and whose bonds stay locked for them
    ([modules/vaultrotation/eligibility.go], [retiring_eligibility.go],
    [modules/state-processing/bond_lock.go], [poa_share_hold.go]).

    The state of the mapping contract is read through a function that tells an
    error from an absent key; the committed keys, commitments and elections are
    functions too.

    The theorems: a key that is being retired signs only transactions that pay the
    successor; a generation that is not yet active signs only its check message; a
    corrupt registry signs nothing and releases no bond; a node that is bond-locked
    is eligible to sign; the key of the active generation alone is reshared. *)
From Stdlib Require Import Ascii.
From S2P Require Import Prelude GoMaps GoSlices GoStrings GoEncoding ConsensusVersion Governance TssDb BtcVault.

(** ** The state of the contract *)

(** An error, an absent key, or the bytes of the key. *)
Inductive state_read := ReadError | ReadAbsent | ReadBytes (raw : list Z).

(** The answer of the tree of the state for a key: an error that says the key does
    not exist, another error, or the link. *)
Inductive tree_get := NotExist | GetError | NoLink | Link (cid : string).

(** [available] and [local] are whether the collaborators are there, [output] is the
    last output of the contract, [None] for an error. *)
Definition contractStateReaderAtStrict (available local : bool) (output : option string) (parseCid : string → option string)
    (get : string → string → tree_get) (getRaw : string → option (list Z)) (key : string) : state_read :=
  if negb available then ReadError
  else
    match output with
    | None => ReadError
    | Some StateMerkle =>
        if String.eqb StateMerkle "" then ReadAbsent
        else
          match parseCid StateMerkle with
          | None => ReadError
          | Some stateCid =>
              if negb local then ReadError
              else
                match get stateCid key with
                | NotExist | NoLink => ReadAbsent
                | GetError => ReadError
                | Link cid => match getRaw cid with Some raw => ReadBytes raw | None => ReadError end
                end
          end
    end.

(** The reader that drops the error. *)
Definition contractStateReaderAt (strict : string → state_read) (key : string) : option (list Z) :=
  match strict key with ReadBytes raw => Some raw | _ => None end.

(** ** The view of the generations *)

Record btcVaultView := mkVaultView {
  view_successorKeyId : string;
  view_successorBackupHex : string;
  view_byKeyId : gmap string Vault;
}.

(** [dep_findKey] is [None] for an error, a missing key included. *)
Record btcScopeDeps := mkScopeDeps {
  dep_contractId : string;
  dep_readKeyStrict : string → state_read;
  dep_findKey : string → option TssKey;
  dep_mainnet : bool;
}.

Definition dep_readKey (d : btcScopeDeps) : string → option (list Z) := contractStateReaderAt (dep_readKeyStrict d).

Inductive vaultResolveResult :=
| vaultAbsent
| vaultResolved (view : btcVaultView)
| vaultUnresolvable
| vaultGenesisPending (view : btcVaultView).

Definition vault_keyId (contractId : string) (gen : Z) : string := contractId +:+ "-" +:+ VaultKeyName gen.

(** The loop over the registry; [None] is a duplicate generation. *)
Fixpoint view_loop (contractId : string) (vaults : list Vault) (view : btcVaultView) (activeCount : Z) : option (btcVaultView * Z) :=
  match vaults with
  | [] => Some (view, activeCount)
  | v :: vaults =>
      let keyId := vault_keyId contractId (v_Generation v) in
      if bool_decide (is_Some (view_byKeyId view !! keyId)) then None
      else
        let byKeyId := <[keyId := v]> (view_byKeyId view) in
        if bool_decide (v_Status v = VaultActive)
        then view_loop contractId vaults (mkVaultView keyId (hex_encode (v_Backup v)) byKeyId) (activeCount + 1)
        else view_loop contractId vaults (mkVaultView (view_successorKeyId view) (view_successorBackupHex view) byKeyId) activeCount
  end.

Definition resolveVaultView (d : btcScopeDeps) : vaultResolveResult :=
  if String.eqb (dep_contractId d) "" then vaultAbsent
  else
    match dep_readKeyStrict d "v" with
    | ReadError => vaultUnresolvable
    | ReadAbsent | ReadBytes [] => vaultAbsent
    | ReadBytes rawV =>
        match UnmarshalVaultRegistry rawV with
        | None | Some [] => vaultUnresolvable
        | Some vaults =>
            match view_loop (dep_contractId d) vaults (mkVaultView "" "" ∅) 0 with
            | None => vaultUnresolvable
            | Some (view, activeCount) =>
                if activeCount =? 1 then vaultResolved view
                else
                  match vaults with
                  | [v] => if bool_decide (v_Status v = VaultPending) then vaultGenesisPending view else vaultUnresolvable
                  | _ => vaultUnresolvable
                  end
            end
        end
    end.

(** ** The verdict *)

Inductive scopeVerdict := scopeAllow | scopeRefuse | scopeSuccessorSweep | scopeCheckSig.

#[export] Instance scopeVerdict_eq_dec : EqDecision scopeVerdict.
Proof. solve_decision. Defined.

Section scope.
Context `{BtcLib}.

(** A committed key that is active: its row, if it is there with a public key. *)
Definition committed_key (d : btcScopeDeps) (keyId : string) : option TssKey :=
  k ← dep_findKey d keyId;
  if String.eqb (tk_PublicKey k) "" || negb (String.eqb (tk_Status k) "active") then None else Some k.

Definition pendingSignIsCheckSig (d : btcScopeDeps) (keyId : string) (sighash : list Z) : bool :=
  match VaultGenFromKeyId (dep_contractId d) keyId with
  | None => false
  | Some gen =>
      match committed_key d keyId with
      | None => false
      | Some k =>
          match hex_decode (tk_PublicKey k) with
          | None => false
          | Some pub =>
              if negb (length pub =? 33)%nat then false
              else bool_decide (CheckSigMessage keyId gen pub = sighash)
          end
      end
  end.

(** The inputs of a pending spend: [None] is that none carries this digest. *)
Fixpoint scan_inputs (sighash successorPk txBytes : list Z) (uhs : list UnsignedSigHash) : option bool :=
  match uhs with
  | [] => None
  | uh :: uhs =>
      if negb (bool_decide (uh_SigHash uh = sighash)) then scan_inputs sighash successorPk txBytes uhs
      else if negb (uh_HasAmount uh) then Some false
      else if negb (bool_decide (RecomputeSegwitV0Sighash txBytes (uh_Index uh) (uh_WitnessScript uh) (uh_Amount uh) = Some sighash))
      then Some false
      else
        match ParseTx txBytes with
        | None => Some false
        | Some tx => Some (AllOutputsPay tx successorPk)
        end
  end.

(** The pending spends in order; one that cannot be read is passed over. *)
Fixpoint scan_spends (readKey : string → option (list Z)) (sighash successorPk : list Z) (txids : list string) : bool :=
  match txids with
  | [] => false
  | txid :: txids =>
      match rawSD ← readKey ("d-" +:+ txid); DecodeSigningData rawSD with
      | None => scan_spends readKey sighash successorPk txids
      | Some sd =>
          match scan_inputs sighash successorPk (sd_Tx sd) (sd_UnsignedSigHashes sd) with
          | Some verdict => verdict
          | None => scan_spends readKey sighash successorPk txids
          end
      end
  end.

Definition retiringSignPaysSuccessor (d : btcScopeDeps) (sighash : list Z) (view : btcVaultView) : bool :=
  match committed_key d (view_successorKeyId view) with
  | None => false
  | Some successorKey =>
      match SuccessorPkScript (tk_PublicKey successorKey) (view_successorBackupHex view) (CSVBlocksForNet (dep_mainnet d)) with
      | None => false
      | Some (_, successorPk) =>
          match rawP ← dep_readKey d "p"; UnmarshalTxSpendsRegistry rawP with
          | None => false
          | Some txids => scan_spends (dep_readKey d) sighash successorPk txids
          end
      end
  end.

Definition evaluateScope (d : btcScopeDeps) (keyId : string) (sighash : list Z) : scopeVerdict :=
  match resolveVaultView d with
  | vaultAbsent => if String.eqb keyId (vault_keyId (dep_contractId d) 0) then scopeAllow else scopeRefuse
  | vaultUnresolvable => scopeRefuse
  | vaultGenesisPending view =>
      match view_byKeyId view !! keyId with
      | Some v =>
          if bool_decide (v_Status v = VaultPending) && pendingSignIsCheckSig d keyId sighash then scopeCheckSig else scopeRefuse
      | None => scopeRefuse
      end
  | vaultResolved view =>
      match view_byKeyId view !! keyId with
      | None => scopeRefuse
      | Some v =>
          match v_Status v with
          | VaultActive => scopeAllow
          | VaultRetiring | VaultDraining => if retiringSignPaysSuccessor d sighash view then scopeSuccessorSweep else scopeRefuse
          | VaultPending => if pendingSignIsCheckSig d keyId sighash then scopeCheckSig else scopeRefuse
          | _ => scopeRefuse
          end
      end
  end.

Definition btcSignGateDecision (verdict : scopeVerdict) (halted : bool) : bool :=
  if bool_decide (verdict = scopeRefuse) then true
  else halted && negb (bool_decide (verdict = scopeSuccessorSweep)) && negb (bool_decide (verdict = scopeCheckSig)).

(** ** The manager's gates *)

(** The configuration and the flags of the chain at a height; [tm_version] is the
    version in force, [None] without a scheduler. *)
Record tss_chain := mkTssChain {
  tm_btcContract : string;
  tm_pin : bool;
  tm_version : option Version;
  tm_keysignHalted : bool;
  tm_theftHalted : bool;
}.

Definition vaultRotationV2InForce (m : tss_chain) : bool :=
  tm_pin m || match tm_version m with Some v => VaultRotationV2Active v | None => false end.

Definition isBtcVaultKey (m : tss_chain) (keyId : string) : bool :=
  negb (String.eqb (tm_btcContract m) "") && HasPrefix keyId (tm_btcContract m +:+ "-").

Definition btcKeysignFrozen (m : tss_chain) (keyId : string) : bool :=
  if negb (isBtcVaultKey m keyId) then false
  else match tm_version m with None => false | Some _ => tm_keysignHalted m || tm_theftHalted m end.

Definition btcSignRefused (m : tss_chain) (readKeyStrict : string → state_read) (findKey : string → option TssKey) (mainnet : bool)
    (keyId : string) (sighash : list Z) : bool :=
  if negb (isBtcVaultKey m keyId) then false
  else
    let verdict :=
      if vaultRotationV2InForce m then evaluateScope (mkScopeDeps (tm_btcContract m) readKeyStrict findKey mainnet) keyId sighash
      else scopeAllow in
    btcSignGateDecision verdict (btcKeysignFrozen m keyId).
End scope.

(** ** Committees of the generations *)

Record RetiringSignerSet := mkSignerSet {
  SignerElection : gmap string ElectionResult;
  KeyIds : gset string;
  PendingSignerElection : gmap string ElectionResult;
  PendingKeyIds : gset string;
  ReshareSkipKeyIds : gset string;
  ActiveSignerElection : gmap string ElectionResult;
  ReadinessWidened : bool;
  Unresolvable : bool;
}.

Definition Has (s : RetiringSignerSet) (account : string) : bool := bool_decide (is_Some (SignerElection s !! account)).

Definition HasReadiness (s : RetiringSignerSet) (account : string) : bool :=
  Has s account || bool_decide (is_Some (ActiveSignerElection s !! account)) || bool_decide (is_Some (PendingSignerElection s !! account)).

Definition ReadinessElection (s : RetiringSignerSet) (account : string) : option ElectionResult :=
  match SignerElection s !! account with
  | Some e => Some e
  | None =>
      if negb (ReadinessWidened s) then None
      else match ActiveSignerElection s !! account with Some e => Some e | None => PendingSignerElection s !! account end
  end.

Definition ReadinessAccounts (s : RetiringSignerSet) : list string :=
  (map_to_list (SignerElection s)).*1 ++
  (if ReadinessWidened s then (map_to_list (ActiveSignerElection s)).*1 ++ (map_to_list (PendingSignerElection s)).*1 else []).

Record RetiringSignerDeps := mkSignerDeps {
  BtcContract : string;
  ReadKey : string → option (list Z);
  dep_Commitment : string → option TssCommitment;
  dep_Election : Z → option ElectionResult;
  IncludeActiveHolders : bool;
  ExcludeInactive : bool;
}.

(** The seats of a commitment's bit set; text that does not decode names no seat. *)
Definition commitment_bits (text : string) : Z :=
  match b64_decode url_value text with (raw, true) => SetBytes raw | (_, false) => 0 end.

Definition seats_set (bits : Z) (members : list ElectionMember) : list string :=
  omap (λ im, if Z.testbit bits (Z.of_nat im.1) then Some (em_Account im.2) else None) (imap pair members).

(** An election without members reads as one that was not found. *)
Definition commitmentCommittee (d : RetiringSignerDeps) (keyId : string) : option (ElectionResult * list string) :=
  commitment ← dep_Commitment d keyId;
  elec ← dep_Election d (tc_Epoch commitment);
  if bool_decide (el_Members elec = []) then None
  else Some (elec, seats_set (commitment_bits (tc_Commitment commitment)) (el_Members elec)).

Definition add_accounts (elec : ElectionResult) (accounts : list string) (m : gmap string ElectionResult) : gmap string ElectionResult :=
  foldl (λ m account, <[account := elec]> m) m accounts.

Definition set_skip (keyId : string) (s : RetiringSignerSet) : RetiringSignerSet :=
  mkSignerSet (SignerElection s) (KeyIds s) (PendingSignerElection s) (PendingKeyIds s) ({[keyId]} ∪ ReshareSkipKeyIds s)
    (ActiveSignerElection s) (ReadinessWidened s) (Unresolvable s).

Definition add_pending (keyId : string) (elec : ElectionResult) (accounts : list string) (s : RetiringSignerSet) : RetiringSignerSet :=
  mkSignerSet (SignerElection s) (KeyIds s) (add_accounts elec accounts (PendingSignerElection s)) ({[keyId]} ∪ PendingKeyIds s)
    ({[keyId]} ∪ ReshareSkipKeyIds s) (ActiveSignerElection s) (ReadinessWidened s) (Unresolvable s).

Definition add_active (elec : ElectionResult) (accounts : list string) (s : RetiringSignerSet) : RetiringSignerSet :=
  mkSignerSet (SignerElection s) (KeyIds s) (PendingSignerElection s) (PendingKeyIds s) (ReshareSkipKeyIds s)
    (add_accounts elec accounts (ActiveSignerElection s)) (ReadinessWidened s) (Unresolvable s).

Definition add_retiring (keyId : string) (elec : ElectionResult) (accounts : list string) (s : RetiringSignerSet) : RetiringSignerSet :=
  mkSignerSet (add_accounts elec accounts (SignerElection s)) ({[keyId]} ∪ KeyIds s) (PendingSignerElection s) (PendingKeyIds s)
    (ReshareSkipKeyIds s) (ActiveSignerElection s) (ReadinessWidened s) (Unresolvable s).

(** One generation of the registry. *)
Definition signer_step (d : RetiringSignerDeps) (out : RetiringSignerSet) (v : Vault) : RetiringSignerSet :=
  let keyId := vault_keyId (BtcContract d) (v_Generation v) in
  let with_committee (f : ElectionResult → list string → RetiringSignerSet → RetiringSignerSet) (out : RetiringSignerSet) :=
    match commitmentCommittee d keyId with Some (elec, accounts) => f elec accounts out | None => out end in
  match v_Status v with
  | VaultPending => with_committee (add_pending keyId) out
  | VaultActive => if IncludeActiveHolders d then with_committee add_active out else out
  | VaultRetiring | VaultDraining => with_committee (add_retiring keyId) (set_skip keyId out)
  | VaultInactive => if ExcludeInactive d then set_skip keyId out else with_committee (add_retiring keyId) (set_skip keyId out)
  | VaultPurged => set_skip keyId out
  | VaultOther _ => out
  end.

Definition empty_signers (widened : bool) : RetiringSignerSet := mkSignerSet ∅ ∅ ∅ ∅ ∅ ∅ widened false.

Definition ComputeRetiringSignerSet (d : RetiringSignerDeps) : RetiringSignerSet :=
  let out := empty_signers (IncludeActiveHolders d) in
  if String.eqb (BtcContract d) "" then out
  else
    match ReadKey d "v" with
    | None | Some [] => out
    | Some rawV =>
        match UnmarshalVaultRegistry rawV with
        | None => mkSignerSet ∅ ∅ ∅ ∅ ∅ ∅ (IncludeActiveHolders d) true
        | Some vaults => foldl (signer_step d) out vaults
        end
    end.

Definition emptyRetiringSet : RetiringSignerSet := empty_signers false.

Definition activeKeyHoldersBound (m : tss_chain) : bool :=
  tm_pin m || match tm_version m with Some v => ActiveKeyHoldersBoundActive v | None => false end.

Definition retiringGenSignerSet (m : tss_chain) (readKey : string → option (list Z)) (commitments : commitmentdb) (bh : Z)
    (election : Z → option ElectionResult) : RetiringSignerSet :=
  if negb (vaultRotationV2InForce m) || String.eqb (tm_btcContract m) "" then emptyRetiringSet
  else
    ComputeRetiringSignerSet
      (mkSignerDeps (tm_btcContract m) readKey (λ keyId, GetCommitmentByHeight keyId bh ["reshare"; "keygen"] commitments) election
         (activeKeyHoldersBound m) false).

(** ** Resharing *)

Definition pendingKeyReshareActive (m : tss_chain) : bool :=
  match tm_version m with Some v => PendingKeyReshareActive v | None => false end.

Definition skipReshareDecision (inSkipSet isPending sigVerified preActivation : bool) : bool :=
  if negb inSkipSet then false else if preActivation && isPending && sigVerified then false else true.

Definition skipReshareForSupersededGen (reshareSkipKeyIds : gset string) (keyId : string) : bool := bool_decide (keyId ∈ reshareSkipKeyIds).

Definition shouldSkipReshareForVaultRotation (m : tss_chain) (set : RetiringSignerSet) (findKey : string → option TssKey) (keyId : string) : bool :=
  if negb (vaultRotationV2InForce m) || negb (isBtcVaultKey m keyId) then false
  else
    let inSkip := skipReshareForSupersededGen (ReshareSkipKeyIds set) keyId in
    let isPending := bool_decide (keyId ∈ PendingKeyIds set) in
    let preActivation := pendingKeyReshareActive m in
    let sigVerified :=
      if preActivation && inSkip && isPending
      then match findKey keyId with Some k => tk_SignatureVerified k | None => false end else false in
    skipReshareDecision inSkip isPending sigVerified preActivation.

(** ** Bonds *)

(** Reads are retried until they succeed: [output] is [None] when the contract has no
    output. *)
Definition btcContractStateReaderAtStrict (available : bool) (output : option string) (parseCid : string → option string)
    (get : string → string → tree_get) (getRaw : string → option (list Z)) (key : string) : option (list Z) :=
  if negb available then None
  else
    StateMerkle ← output;
    if String.eqb StateMerkle "" then None
    else
      stateCid ← parseCid StateMerkle;
      match get stateCid key with Link cid => getRaw cid | _ => None end.

Definition bondLockMatches (set : RetiringSignerSet) (account : string) : bool :=
  if Unresolvable set then true else Has set (TrimPrefix account "hive:").

Definition IsBondLockedRetiringMember (m : tss_chain) (reader : string → option (list Z)) (commitments : commitmentdb) (height : Z)
    (election : Z → option ElectionResult) (account : string) : bool :=
  if negb (vaultRotationV2InForce m) || String.eqb (tm_btcContract m) "" then false
  else
    bondLockMatches
      (ComputeRetiringSignerSet
         (mkSignerDeps (tm_btcContract m) reader (λ keyId, GetCommitmentByHeight keyId height ["reshare"; "keygen"] commitments) election
            false true)) account.

Definition poaLocksBond (s : VaultStatus) : bool := IsFundHoldingStatus s && negb (bool_decide (s = VaultInactive)).

(** The parties of one commitment. *)
Definition row_parties (election : Z → option ElectionResult) (c : TssCommitment) : list string :=
  match election (tc_Epoch c) with
  | None => []
  | Some elec => NormalizeAccount <$> seats_set (commitment_bits (tc_Commitment c)) (el_Members elec)
  end.

(** [None] is the error of a row that does not decode. *)
Fixpoint fundedVaultPartySet (contractId : string) (listCommits : string → option (list TssCommitment)) (election : Z → option ElectionResult)
    (vaults : list Vault) (parties : gset string) : option (gset string) :=
  match vaults with
  | [] => Some parties
  | v :: vaults =>
      if negb (poaLocksBond (v_Status v)) then fundedVaultPartySet contractId listCommits election vaults parties
      else
        rows ← listCommits (vault_keyId contractId (v_Generation v));
        fundedVaultPartySet contractId listCommits election vaults (list_to_set (rows ≫= row_parties election) ∪ parties)
  end.

Definition accountInFundedVaultCommittees (vaults : list Vault) (contractId account : string) (currentMembers : list string)
    (listCommits : string → option (list TssCommitment)) (election : Z → option ElectionResult) : option bool :=
  let who := NormalizeAccount account in
  if String.eqb who "" then Some false
  else if negb (existsb (λ v, poaLocksBond (v_Status v)) vaults) then Some false
  else if existsb (λ a, String.eqb (NormalizeAccount a) who) currentMembers then Some true
  else parties ← fundedVaultPartySet contractId listCommits election vaults ∅; Some (bool_decide (who ∈ parties)).

(** [electable] is the answer for the account, [elec] the election in force,
    [decodes] whether the stored rows of a key decode; a row that does not holds
    the bond. *)
Definition heldShareOfFundedVault (contractId : string) (reader : string → option (list Z)) (commitments : commitmentdb)
    (decodes : string → bool) (election : Z → option ElectionResult) (electable : bool) (elec : option ElectionResult)
    (account : string) (height : Z) : option bool :=
  if (height =? 0) || String.eqb contractId "" then Some false
  else
    match reader "v" with
    | None | Some [] => Some false
    | Some rawV =>
        match UnmarshalVaultRegistry rawV with
        | None => Some true
        | Some vaults =>
            if negb (existsb (λ v, poaLocksBond (v_Status v)) vaults) then Some false
            else if electable then Some true
            else
              let who := NormalizeAccount account in
              let current := match elec with Some e => em_Account <$> el_Members e | None => [] end in
              if existsb (λ a, String.eqb (NormalizeAccount a) who) current then Some true
              else
                parties ←
                  fundedVaultPartySet contractId
                    (λ keyId, if decodes keyId
                              then Some (FindCommitmentsSimple (Some keyId) ["keygen"; "reshare"] None None (Some (height - 1)) 0 commitments)
                              else None)
                    election vaults ∅;
                Some (bool_decide (who ∈ parties))
        end
    end.

Definition HeldShareOfFundedVaultOrBlock (answer : option bool) : bool := default true answer.

(** The commitment of a set of participants: the seats of their accounts. *)
Definition set_seat (members : list ElectionMember) (bits : Z) (account : string) : Z :=
  match list_find (λ m, em_Account m = account) members with
  | Some (i, _) => Z.setbit bits (Z.of_nat i)
  | None => bits
  end.

Definition setToCommitment (members : list ElectionMember) (participants : list string) : string :=
  b64_encode url_char (Bytes (foldl (set_seat members) 0 participants)).

(** ** Lemmas: the view *)

Definition active_vaults (vs : list Vault) : list Vault := filter (λ v, v_Status v = VaultActive) vs.

(** The successor of a view: the last active generation read. *)
Definition names_successor (contractId : string) (a : Vault) (view : btcVaultView) : Prop :=
  view_successorKeyId view = vault_keyId contractId (v_Generation a) ∧ view_successorBackupHex view = hex_encode (v_Backup a).

Lemma view_loop_spec c vs view n view' n' :
  view_loop c vs view n = Some (view', n') →
  (∀ k v, view_byKeyId view' !! k = Some v ↔ view_byKeyId view !! k = Some v ∨ (v ∈ vs ∧ k = vault_keyId c (v_Generation v))) ∧
  n' = n + Z.of_nat (length (active_vaults vs)) ∧
  match last (active_vaults vs) with
  | Some a => names_successor c a view'
  | None => view_successorKeyId view' = view_successorKeyId view ∧ view_successorBackupHex view' = view_successorBackupHex view
  end.
Proof.
  revert view n. induction vs as [|v vs IH]; intros view n; cbn [view_loop].
  - intros [= <- <-]. split_and!; [set_solver|cbn; lia|done].
  - case_bool_decide as Hdup; [done|]. assert (view_byKeyId view !! vault_keyId c (v_Generation v) = None) as Hfresh by (by apply eq_None_not_Some).
    intros Hrec.
    assert (∀ view1 : btcVaultView, view_byKeyId view1 = <[vault_keyId c (v_Generation v) := v]> (view_byKeyId view) →
              (∀ k w, view_byKeyId view' !! k = Some w ↔ view_byKeyId view1 !! k = Some w ∨ (w ∈ vs ∧ k = vault_keyId c (v_Generation w))) →
              ∀ k w, view_byKeyId view' !! k = Some w ↔ view_byKeyId view !! k = Some w ∨ (w ∈ v :: vs ∧ k = vault_keyId c (v_Generation w))) as Hmap.
    { intros view1 E1 Hk k w. rewrite Hk, E1, lookup_insert_Some, elem_of_cons. split.
      { intros [[[<- <-]|[_ Hw]]|[Hw ->]]; [by right; split; [left|]|by left|by right; split; [right|]]. }
      intros [Hw|[[->|Hw] ->]]; [left; right; split; [|done]; intros E; by rewrite E, Hw in Hfresh|by left; left|by right]. }
    unfold active_vaults. case_bool_decide as Ha; [rewrite filter_cons_True by done|rewrite filter_cons_False by done];
      destruct (IH _ _ Hrec) as (Hk & Hn & Hs); fold (active_vaults vs); (split_and!; [eapply Hmap; [|exact Hk]; done| |]).
    + cbn [length]. lia.
    + rewrite last_cons. by destruct (last (active_vaults vs)).
    + done.
    + by destruct (last (active_vaults vs)).
Qed.

(** A registry that resolves has one active generation and no duplicate. *)
Lemma resolved_spec d view :
  resolveVaultView d = vaultResolved view →
  ∃ rawV vs a, dep_readKeyStrict d "v" = ReadBytes rawV ∧ UnmarshalVaultRegistry rawV = Some vs ∧ active_vaults vs = [a] ∧
    names_successor (dep_contractId d) a view ∧
    ∀ k v, view_byKeyId view !! k = Some v ↔ v ∈ vs ∧ k = vault_keyId (dep_contractId d) (v_Generation v).
Proof.
  unfold resolveVaultView. destruct (String.eqb _ _); [done|]. destruct (dep_readKeyStrict d "v") as [| |rawV]; [done..|].
  destruct rawV as [|b rawV]; [done|]. destruct (UnmarshalVaultRegistry (b :: rawV)) as [[|v vs]|] eqn:Hu; [done| |done].
  destruct (view_loop _ _ _ _) as [[view' n]|] eqn:Hl; [|done]. apply view_loop_spec in Hl as (Hk & Hn & Hs).
  destruct (Z.eqb_spec n 1) as [->|]; [|by destruct vs; [case_bool_decide|]]. intros [= <-].
  destruct (active_vaults (v :: vs)) as [|a [|]] eqn:Ha; [cbn in Hn; lia| |cbn in Hn; lia].
  eexists _, _, a. split_and!; [done|done|done|done|]. intros k w. rewrite Hk. cbn [view_byKeyId]. rewrite lookup_empty. naive_solver.
Qed.

Lemma genesis_spec d view :
  resolveVaultView d = vaultGenesisPending view →
  ∃ rawV vs, dep_readKeyStrict d "v" = ReadBytes rawV ∧ UnmarshalVaultRegistry rawV = Some vs ∧
    ∀ k v, view_byKeyId view !! k = Some v ↔ v ∈ vs ∧ k = vault_keyId (dep_contractId d) (v_Generation v).
Proof.
  unfold resolveVaultView. destruct (String.eqb _ _); [done|]. destruct (dep_readKeyStrict d "v") as [| |rawV]; [done..|].
  destruct rawV as [|b rawV]; [done|]. destruct (UnmarshalVaultRegistry (b :: rawV)) as [[|v vs]|] eqn:Hu; [done| |done].
  destruct (view_loop _ _ _ _) as [[view' n]|] eqn:Hl; [|done]. apply view_loop_spec in Hl as (Hk & _ & _).
  destruct (n =? 1); [done|]. destruct vs; [|done]. case_bool_decide; [|done]. intros [= <-].
  eexists _, _. split_and!; [done|done|]. intros k w. rewrite Hk. cbn [view_byKeyId]. rewrite lookup_empty. naive_solver.
Qed.

(** ** Lemmas: the gate *)

Definition pays_only (tx : MsgTx) (pk : list Z) : Prop := tx_Outs tx ≠ [] ∧ Forall (λ o, out_PkScript o = pk) (tx_Outs tx).

(** The digest of [SigHashAll] stands for the outputs of the transaction (BIP 143). *)
Class SighashCommits `{BtcLib} : Prop := {
  sighash_outputs : ∀ tx i ws amt tx' i' ws' amt' h,
    CalcWitnessSigHash tx i ws amt = Some h → CalcWitnessSigHash tx' i' ws' amt' = Some h → tx_Outs tx = tx_Outs tx';
}.

Section gate.
Context `{SighashCommits}.

Lemma AllOutputsPay_spec tx pk : AllOutputsPay tx pk = true ↔ pays_only tx pk.
Proof.
  unfold AllOutputsPay, pays_only. rewrite andb_true_iff, negb_true_iff, bool_decide_eq_false, forallb_forall, Forall_forall.
  setoid_rewrite bool_decide_eq_true. by setoid_rewrite list_elem_of_In.
Qed.

(** A digest that the scan accepts is one of a transaction that pays the script. *)
Lemma scan_inputs_sound sighash pk txBytes uhs :
  scan_inputs sighash pk txBytes uhs = Some true → ∃ tx i ws amt, CalcWitnessSigHash tx i ws amt = Some sighash ∧ pays_only tx pk.
Proof.
  induction uhs as [|uh uhs IH]; [done|]. cbn [scan_inputs]. case_bool_decide; cbn [negb]; [|done].
  destruct (uh_HasAmount uh); [|done]. cbn [negb]. case_bool_decide as Hr; cbn [negb]; [|done].
  unfold RecomputeSegwitV0Sighash in Hr. destruct (ParseTx txBytes) as [tx|]; [|done]. cbn [mbind option_bind] in Hr.
  destruct (_ || _); [done|]. intros [= Hp]. apply AllOutputsPay_spec in Hp. eauto 6.
Qed.

Lemma scan_spends_sound readKey sighash pk txids :
  scan_spends readKey sighash pk txids = true → ∃ tx i ws amt, CalcWitnessSigHash tx i ws amt = Some sighash ∧ pays_only tx pk.
Proof.
  induction txids as [|txid txids IH]; [done|]. cbn [scan_spends]. destruct (mbind _ _) as [sd|]; [|done].
  destruct (scan_inputs _ _ _ _) as [[]|] eqn:Hs; [|done|done]. intros _. by eapply scan_inputs_sound.
Qed.

Lemma committed_key_spec d keyId k :
  committed_key d keyId = Some k → dep_findKey d keyId = Some k ∧ tk_PublicKey k ≠ "" ∧ tk_Status k = "active".
Proof.
  unfold committed_key. destruct (dep_findKey d keyId) as [k'|]; [|done]. cbn [mbind option_bind].
  destruct (String.eqb_spec (tk_PublicKey k') ""); [done|]. destruct (String.eqb_spec (tk_Status k') "active"); [|done].
  by intros [= <-].
Qed.

(** A sweep that is proven pays the successor, whatever transaction the digest is
    used for. *)
Lemma sweep_sound d view a sighash :
  vault_ok a → names_successor (dep_contractId d) a view → retiringSignPaysSuccessor d sighash view = true →
  ∃ key primary, dep_findKey d (vault_keyId (dep_contractId d) (v_Generation a)) = Some key ∧ tk_Status key = "active" ∧
    hex_decode (tk_PublicKey key) = Some primary ∧
    ∀ tx i ws amt, CalcWitnessSigHash tx i ws amt = Some sighash →
      pays_only tx (p2wsh (witness_script primary (v_Backup a) (CSVBlocksForNet (dep_mainnet d)))).
Proof.
  intros Ha [Hs Hb]. unfold retiringSignPaysSuccessor. rewrite Hs, Hb.
  destruct (committed_key d _) as [key|] eqn:Hk; [|done]. apply committed_key_spec in Hk as (Hk & _ & Hst).
  unfold SuccessorPkScript. destruct (hex_decode (tk_PublicKey key)) as [primary|] eqn:Hp; [|done]. cbn [mbind option_bind].
  rewrite hex_roundtrip by apply Ha. cbn [mbind option_bind]. unfold SuccessorPkScriptRaw. destruct (_ || _); [done|].
  destruct (mbind _ _) as [txids|]; [|done]. intros Hsc. apply scan_spends_sound in Hsc as (tx & i & ws & amt & Hc & Hpay & Hall).
  exists key, primary. split_and!; [done..|]. intros tx' i' ws' amt' Hc'. unfold pays_only.
  by rewrite <- (sighash_outputs _ _ _ _ _ _ _ _ _ Hc Hc').
Qed.

Lemma check_sound d keyId gen sighash :
  u32 gen → dep_contractId d ≠ "" → keyId = vault_keyId (dep_contractId d) gen → pendingSignIsCheckSig d keyId sighash = true →
  ∃ key pub, dep_findKey d keyId = Some key ∧ tk_Status key = "active" ∧ hex_decode (tk_PublicKey key) = Some pub ∧
    sighash = CheckSigMessage keyId gen pub.
Proof.
  intros Hg Hc Hid. unfold pendingSignIsCheckSig. rewrite (proj2 (key_ids_exact (dep_contractId d) keyId gen)) by done.
  destruct (committed_key d keyId) as [key|] eqn:Hk; [|done]. apply committed_key_spec in Hk as (Hk & _ & Hst).
  destruct (hex_decode (tk_PublicKey key)) as [pub|] eqn:Hp; [|done]. destruct (length pub =? 33)%nat; [|done]. cbn [negb].
  case_bool_decide as E; [|done]. intros _. by exists key, pub.
Qed.

(** What the generation [v] of the registry [vs] may sign. *)
Definition may_sign (m : tss_chain) (findKey : string → option TssKey) (mainnet : bool) (vs : list Vault) (v : Vault) (sighash : list Z) : Prop :=
  let keyId := vault_keyId (tm_btcContract m) (v_Generation v) in
  match v_Status v with
  | VaultActive => active_vaults vs = [v] ∧ btcKeysignFrozen m keyId = false
  | VaultRetiring | VaultDraining =>
      ∃ a key primary, active_vaults vs = [a] ∧ findKey (vault_keyId (tm_btcContract m) (v_Generation a)) = Some key ∧
        tk_Status key = "active" ∧ hex_decode (tk_PublicKey key) = Some primary ∧
        ∀ tx i ws amt, CalcWitnessSigHash tx i ws amt = Some sighash →
          pays_only tx (p2wsh (witness_script primary (v_Backup a) (CSVBlocksForNet mainnet)))
  | VaultPending =>
      ∃ key pub, findKey keyId = Some key ∧ tk_Status key = "active" ∧ hex_decode (tk_PublicKey key) = Some pub ∧
        sighash = CheckSigMessage keyId (v_Generation v) pub
  | _ => False
  end.

Definition registry_absent (read : string → state_read) : Prop := read "v" = ReadAbsent ∨ read "v" = ReadBytes [].

Lemma absent_spec d : dep_contractId d ≠ "" → resolveVaultView d = vaultAbsent → registry_absent (dep_readKeyStrict d).
Proof.
  intros Hc. unfold resolveVaultView, registry_absent. destruct (String.eqb_spec (dep_contractId d) ""); [done|].
  destruct (dep_readKeyStrict d "v") as [| |[|b rawV]]; [done|by left|by right|].
  destruct (UnmarshalVaultRegistry _) as [[|v vs]|]; [done| |done]. destruct (view_loop _ _ _ _) as [[view cnt]|]; [|done].
  destruct (cnt =? 1); [done|]. destruct vs; [by case_bool_decide|done].
Qed.

(** C8: once vault rotation is in force, a node contributes to a signature of a
    vault key only when it is harmless.  A key that is being retired signs nothing
    but a digest that no transaction has unless every output pays the script of
    the active generation, built from the key the committee committed.  A
    generation that is not active yet signs nothing but its own check message.
    The active one signs while no halt is up.  A registry that is corrupt,
    ambiguous or unreadable signs nothing; before there is one, the first key
    alone signs. *)
Theorem sign_gate_sound m read findKey mainnet keyId sighash :
  vaultRotationV2InForce m = true → isBtcVaultKey m keyId = true → (∀ key raw, read key = ReadBytes raw → Forall byte_ok raw) →
  btcSignRefused m read findKey mainnet keyId sighash = false →
  (registry_absent read ∧ keyId = vault_keyId (tm_btcContract m) 0 ∧ btcKeysignFrozen m keyId = false) ∨
  ∃ rawV vs v, read "v" = ReadBytes rawV ∧ UnmarshalVaultRegistry rawV = Some vs ∧ v ∈ vs ∧
    keyId = vault_keyId (tm_btcContract m) (v_Generation v) ∧ may_sign m findKey mainnet vs v sighash.
Proof.
  intros Hv2 Hkey Hbytes. unfold btcSignRefused. rewrite Hkey, Hv2. cbn [negb]. set (d := mkScopeDeps _ _ _ _).
  assert (tm_btcContract m ≠ "") as Hc by (unfold isBtcVaultKey in Hkey; by destruct (String.eqb_spec (tm_btcContract m) "")).
  unfold evaluateScope. destruct (resolveVaultView d) as [|view| |view] eqn:Hr.
  - destruct (String.eqb_spec keyId (vault_keyId (dep_contractId d) 0)) as [E|]; [|done]. intros Hg. left.
    split_and!; [by apply (absent_spec d)|done|]. unfold btcSignGateDecision in Hg. cbn in Hg. by destruct (btcKeysignFrozen m keyId).
  - apply resolved_spec in Hr as (rawV & vs & a & Hread & Hu & Ha & Hs & Hk).
    destruct (view_byKeyId view !! keyId) as [v|] eqn:Hv; [|done]. apply Hk in Hv as [Hin Hid].
    assert (Forall vault_ok vs) as Hok by (by eapply Unmarshal_ok; [eapply Hbytes|]). rewrite Forall_forall in Hok.
    assert (a ∈ vs) as Hain by (assert (a ∈ active_vaults vs) as [_ ?]%list_elem_of_filter by (rewrite Ha; set_solver); done).
    intros Hg. right. exists rawV, vs, v. split_and!; [done..|]. unfold may_sign. cbn [dep_contractId d] in Hid. rewrite <- Hid.
    destruct (v_Status v) eqn:Hst; try done.
    + destruct (pendingSignIsCheckSig d keyId sighash) eqn:Hp; [|done]. by apply (check_sound d keyId (v_Generation v)) in Hp; [|apply Hok|..].
    + assert (v ∈ active_vaults vs) as Hva by (by apply list_elem_of_filter). rewrite Ha in Hva |- *. apply list_elem_of_singleton in Hva as ->.
      split; [done|]. unfold btcSignGateDecision in Hg. cbn in Hg. by destruct (btcKeysignFrozen m keyId).
    + destruct (retiringSignPaysSuccessor d sighash view) eqn:Hp; [|done].
      apply (sweep_sound d view a) in Hp as (key & primary & ? & ? & ? & ?); [|by apply Hok|done]. by exists a, key, primary.
    + destruct (retiringSignPaysSuccessor d sighash view) eqn:Hp; [|done].
      apply (sweep_sound d view a) in Hp as (key & primary & ? & ? & ? & ?); [|by apply Hok|done]. by exists a, key, primary.
  - done.
  - apply genesis_spec in Hr as (rawV & vs & Hread & Hu & Hk).
    destruct (view_byKeyId view !! keyId) as [v|] eqn:Hv; [|done]. apply Hk in Hv as [Hin Hid].
    assert (Forall vault_ok vs) as Hok by (by eapply Unmarshal_ok; [eapply Hbytes|]). rewrite Forall_forall in Hok.
    case_bool_decide as Hst; [|done]. cbn [andb]. destruct (pendingSignIsCheckSig d keyId sighash) eqn:Hp; [|done]. intros _.
    right. exists rawV, vs, v. split_and!; [done..|]. unfold may_sign. rewrite Hst. cbn [dep_contractId d] in Hid. rewrite <- Hid.
    by apply (check_sound d keyId (v_Generation v)) in Hp; [|apply Hok|..].
Qed.
End gate.

(** ** Lemmas: committees *)

Definition committee_of (d : RetiringSignerDeps) (v : Vault) (account : string) : Prop :=
  ∃ elec accounts, commitmentCommittee d (vault_keyId (BtcContract d) (v_Generation v)) = Some (elec, accounts) ∧ account ∈ accounts.

(** The generations whose committee is bound by its shares. *)
Definition binds (d : RetiringSignerDeps) (v : Vault) : Prop :=
  match v_Status v with
  | VaultRetiring | VaultDraining => True
  | VaultInactive => ExcludeInactive d = false
  | _ => False
  end.

Lemma add_accounts_lookup elec accounts m a : is_Some (add_accounts elec accounts m !! a) ↔ a ∈ accounts ∨ is_Some (m !! a).
Proof.
  unfold add_accounts. revert m. induction accounts as [|x l IH]; intros m; cbn [foldl]; [set_solver|].
  rewrite IH, lookup_insert_is_Some', elem_of_cons. naive_solver.
Qed.

Lemma Has_add keyId elec accounts s a : Has (add_retiring keyId elec accounts s) a = true ↔ a ∈ accounts ∨ Has s a = true.
Proof. unfold Has. rewrite !bool_decide_eq_true. apply add_accounts_lookup. Qed.

Lemma Has_step d s v a : Has (signer_step d s v) a = true ↔ (binds d v ∧ committee_of d v a) ∨ Has s a = true.
Proof.
  unfold signer_step, binds, committee_of.
  destruct (v_Status v) eqn:Hst, (commitmentCommittee d _) as [[elec accounts]|] eqn:Hc, (IncludeActiveHolders d), (ExcludeInactive d);
    cbn [add_pending add_active set_skip Has SignerElection]; rewrite ?Has_add; unfold Has; cbn [set_skip SignerElection]; naive_solver.
Qed.

Lemma Has_fold d vs s a :
  Has (foldl (signer_step d) s vs) a = true ↔ (∃ v, v ∈ vs ∧ binds d v ∧ committee_of d v a) ∨ Has s a = true.
Proof.
  revert s. induction vs as [|v vs IH]; intros s; cbn [foldl]; [set_solver|]. rewrite IH, Has_step. setoid_rewrite elem_of_cons. naive_solver.
Qed.

Lemma Has_empty w a : Has (empty_signers w) a = false.
Proof. unfold Has. apply bool_decide_eq_false. cbn [SignerElection empty_signers]. rewrite lookup_empty. by intros []. Qed.

Lemma unresolvable_fold d vs s : Unresolvable (foldl (signer_step d) s vs) = Unresolvable s.
Proof.
  revert s. induction vs as [|v vs IH]; intros s; cbn [foldl]; [done|]. rewrite IH. unfold signer_step.
  by repeat case_match.
Qed.

(** The registry a reader shows: nothing, a blob that does not decode, or the
    generations. *)
Definition reads_registry (reader : string → option (list Z)) (vs : list Vault) : Prop :=
  ∃ rawV, reader "v" = Some rawV ∧ rawV ≠ [] ∧ UnmarshalVaultRegistry rawV = Some vs.

Lemma compute_fold d vs :
  BtcContract d ≠ "" → reads_registry (ReadKey d) vs →
  ComputeRetiringSignerSet d = foldl (signer_step d) (empty_signers (IncludeActiveHolders d)) vs.
Proof.
  intros Hc (rawV & Hr & Hne & Hu). unfold ComputeRetiringSignerSet. destruct (String.eqb_spec (BtcContract d) ""); [done|].
  rewrite Hr. destruct rawV; [done|]. by rewrite Hu.
Qed.

Section bonds.
Context (m : tss_chain) (reader : string → option (list Z)) (commitments : commitmentdb) (height : Z) (election : Z → option ElectionResult).

(** The committee of the last commitment of a generation below the height. *)
Definition last_committee (v : Vault) (name : string) : Prop :=
  ∃ c elec, GetCommitmentByHeight (vault_keyId (tm_btcContract m) (v_Generation v)) height ["reshare"; "keygen"] commitments = Some c ∧
    election (tc_Epoch c) = Some elec ∧ name ∈ seats_set (commitment_bits (tc_Commitment c)) (el_Members elec).

Lemma committee_of_last act excl v name :
  committee_of (mkSignerDeps (tm_btcContract m) reader (λ keyId, GetCommitmentByHeight keyId height ["reshare"; "keygen"] commitments) election act excl)
    v name ↔ last_committee v name.
Proof.
  unfold committee_of, commitmentCommittee, last_committee. cbn [dep_Commitment dep_Election BtcContract].
  destruct (GetCommitmentByHeight _ _ _ _) as [c|]; cbn [mbind option_bind]; [|naive_solver].
  destruct (election (tc_Epoch c)) as [elec|] eqn:He; cbn [mbind option_bind]; [|naive_solver].
  case_bool_decide as Hm; [|naive_solver]. split; [naive_solver|]. intros (c' & elec' & [= <-] & E & Hin).
  rewrite He in E. injection E as <-. rewrite Hm in Hin. cbn in Hin. set_solver.
Qed.

Hypothesis in_force : vaultRotationV2InForce m = true.
Hypothesis has_contract : tm_btcContract m ≠ "".

(** An unstake of consensus bond is refused for the committee of a vault
    generation that is being retired, and for no other account: the account is
    seated by the last commitment of a retiring or draining generation below the
    height.  A registry that does not decode locks everybody. *)
Theorem bond_lock_exact vs name :
  (reads_registry reader vs →
   IsBondLockedRetiringMember m reader commitments height election ("hive:" +:+ name) = true ↔
   ∃ v, v ∈ vs ∧ (v_Status v = VaultRetiring ∨ v_Status v = VaultDraining) ∧ last_committee v name) ∧
  ((∃ rawV, reader "v" = Some rawV ∧ rawV ≠ [] ∧ UnmarshalVaultRegistry rawV = None) →
   IsBondLockedRetiringMember m reader commitments height election ("hive:" +:+ name) = true).
Proof.
  unfold IsBondLockedRetiringMember. rewrite in_force. destruct (String.eqb_spec (tm_btcContract m) ""); [done|]. cbn [negb orb].
  unfold bondLockMatches. rewrite TrimPrefix_app. split.
  - intros Hr. rewrite (compute_fold _ vs) by done. rewrite unresolvable_fold. cbn [Unresolvable empty_signers].
    rewrite Has_fold, Has_empty. setoid_rewrite committee_of_last. unfold binds. cbn [ExcludeInactive]. split.
    + intros [(v & Hv & Hb & Hl)|]; [|done]. exists v. split_and!; [done| |done]. destruct (v_Status v); naive_solver.
    + intros (v & Hv & Hs & Hl). left. exists v. split_and!; [done| |done]. by destruct Hs as [-> | ->].
  - intros (rawV & Hr & Hne & Hu). unfold ComputeRetiringSignerSet. cbn [BtcContract ReadKey].
    destruct (String.eqb_spec (tm_btcContract m) ""); [done|]. rewrite Hr. destruct rawV; [done|]. by rewrite Hu.
Qed.

(** A member whose bond is locked may still sign: the set for signing holds every
    member the lock holds. *)
Lemma locked_are_eligible vs name :
  reads_registry reader vs → IsBondLockedRetiringMember m reader commitments height election ("hive:" +:+ name) = true →
  Has (retiringGenSignerSet m reader commitments height election) name = true.
Proof.
  intros Hr. unfold IsBondLockedRetiringMember, retiringGenSignerSet. rewrite in_force.
  destruct (String.eqb_spec (tm_btcContract m) ""); [done|]. cbn [negb orb].
  unfold bondLockMatches. rewrite TrimPrefix_app, !(compute_fold _ vs), unresolvable_fold by done. cbn [Unresolvable empty_signers].
  rewrite !Has_fold, !Has_empty. setoid_rewrite committee_of_last. unfold binds. cbn [ExcludeInactive].
  intros [(v & Hv & Hb & Hl)|]; [|done]. left. exists v. split_and!; [done| |done]. by destruct (v_Status v).
Qed.
End bonds.

(** ** Lemmas: resharing *)

Definition resolvable (d : RetiringSignerDeps) (v : Vault) : bool :=
  bool_decide (is_Some (commitmentCommittee d (vault_keyId (BtcContract d) (v_Generation v)))).

Definition superseded (s : VaultStatus) : bool :=
  match s with VaultRetiring | VaultDraining | VaultInactive | VaultPurged => true | _ => false end.

Lemma skip_step d s v keyId :
  keyId ∈ ReshareSkipKeyIds (signer_step d s v) ↔
  (keyId = vault_keyId (BtcContract d) (v_Generation v) ∧
     (superseded (v_Status v) = true ∨ (v_Status v = VaultPending ∧ resolvable d v = true))) ∨ keyId ∈ ReshareSkipKeyIds s.
Proof.
  unfold signer_step, resolvable. rewrite bool_decide_eq_true.
  destruct (commitmentCommittee d _) as [[elec accounts]|] eqn:Hc, (v_Status v) eqn:Hst, (IncludeActiveHolders d), (ExcludeInactive d);
    cbn [add_retiring add_pending add_active set_skip ReshareSkipKeyIds superseded]; rewrite ?elem_of_union, ?elem_of_singleton;
    try rewrite is_Some_alt; naive_solver.
Qed.

Lemma pending_step d s v keyId :
  keyId ∈ PendingKeyIds (signer_step d s v) ↔
  (keyId = vault_keyId (BtcContract d) (v_Generation v) ∧ v_Status v = VaultPending ∧ resolvable d v = true) ∨ keyId ∈ PendingKeyIds s.
Proof.
  unfold signer_step, resolvable. rewrite bool_decide_eq_true.
  destruct (commitmentCommittee d _) as [[elec accounts]|] eqn:Hc, (v_Status v) eqn:Hst, (IncludeActiveHolders d), (ExcludeInactive d);
    cbn [add_retiring add_pending add_active set_skip PendingKeyIds]; rewrite ?elem_of_union, ?elem_of_singleton; try rewrite is_Some_alt; naive_solver.
Qed.

Lemma skip_fold d vs s keyId :
  keyId ∈ ReshareSkipKeyIds (foldl (signer_step d) s vs) ↔
  (∃ v, v ∈ vs ∧ keyId = vault_keyId (BtcContract d) (v_Generation v) ∧
     (superseded (v_Status v) = true ∨ (v_Status v = VaultPending ∧ resolvable d v = true))) ∨ keyId ∈ ReshareSkipKeyIds s.
Proof.
  revert s. induction vs as [|v vs IH]; intros s; cbn [foldl]; [set_solver|]. rewrite IH, skip_step. setoid_rewrite elem_of_cons. naive_solver.
Qed.

Lemma pending_fold d vs s keyId :
  keyId ∈ PendingKeyIds (foldl (signer_step d) s vs) ↔
  (∃ v, v ∈ vs ∧ keyId = vault_keyId (BtcContract d) (v_Generation v) ∧ v_Status v = VaultPending ∧ resolvable d v = true) ∨
  keyId ∈ PendingKeyIds s.
Proof.
  revert s. induction vs as [|v vs IH]; intros s; cbn [foldl]; [set_solver|]. rewrite IH, pending_step. setoid_rewrite elem_of_cons. naive_solver.
Qed.

(** Generations are told apart by their key ids. *)
Lemma vault_keyId_inj c g g' : u32 g → u32 g' → vault_keyId c g = vault_keyId c g' → g = g'.
Proof.
  unfold vault_keyId. rewrite <- !sapp_assoc. intros Hg Hg' E. apply (inj (String.append (c +:+ "-"))) in E.
  assert (VaultGenFromKeyName (VaultKeyName g) = Some g) as E1 by (by apply names_exact).
  assert (VaultGenFromKeyName (VaultKeyName g') = Some g') as E2 by (by apply names_exact). rewrite E in E1. congruence.
Qed.

Lemma generation_unique c vs v w :
  Forall vault_ok vs → NoDup (v_Generation <$> vs) → v ∈ vs → w ∈ vs →
  vault_keyId c (v_Generation v) = vault_keyId c (v_Generation w) → v = w.
Proof.
  intros Hok Hnd Hv Hw E. rewrite Forall_forall in Hok. apply vault_keyId_inj in E; [|by apply Hok..].
  apply list_elem_of_lookup in Hv as [i Hi], Hw as [j Hj].
  assert (i = j) as ->; [|congruence]. eapply NoDup_lookup; [done|..]; rewrite list_lookup_fmap.
  - by rewrite Hi.
  - by rewrite Hj, E.
Qed.

(** C31: while vault rotation is in force the key of the active generation is
    reshared at every rotation and the key of a superseded one never again: its
    shares stay with the committee that is being retired.  A pending generation
    waits, unless its committee is unknown or, from 0.12, its check signature has
    been verified. *)
Theorem reshare_exact m reader commitments bh election findKey vs v :
  vaultRotationV2InForce m = true → tm_btcContract m ≠ "" → reads_registry reader vs →
  Forall vault_ok vs → NoDup (v_Generation <$> vs) → v ∈ vs →
  let d := mkSignerDeps (tm_btcContract m) reader (λ keyId, GetCommitmentByHeight keyId bh ["reshare"; "keygen"] commitments) election
             (activeKeyHoldersBound m) false in
  let keyId := vault_keyId (tm_btcContract m) (v_Generation v) in
  shouldSkipReshareForVaultRotation m (retiringGenSignerSet m reader commitments bh election) findKey keyId =
  match v_Status v with
  | VaultActive | VaultOther _ => false
  | VaultPending =>
      resolvable d v &&
      negb (pendingKeyReshareActive m && match findKey keyId with Some k => tk_SignatureVerified k | None => false end)
  | _ => true
  end.
Proof.
  intros Hf Hc Hr Hok Hnd Hv d keyId. unfold shouldSkipReshareForVaultRotation, retiringGenSignerSet. rewrite Hf.
  destruct (String.eqb_spec (tm_btcContract m) ""); [done|]. cbn [negb orb]. fold d. rewrite (compute_fold d vs) by done.
  assert (isBtcVaultKey m keyId = true) as ->.
  { unfold isBtcVaultKey, keyId, vault_keyId. destruct (String.eqb_spec (tm_btcContract m) ""); [done|].
    by rewrite <- sapp_assoc, HasPrefix_app. }
  cbn [negb orb]. set (s := foldl _ _ vs).
  assert (skipReshareForSupersededGen (ReshareSkipKeyIds s) keyId = superseded (v_Status v) || (bool_decide (v_Status v = VaultPending) && resolvable d v)) as ->.
  { apply eq_true_iff_eq. unfold skipReshareForSupersededGen. rewrite bool_decide_eq_true, orb_true_iff, andb_true_iff, bool_decide_eq_true.
    unfold s. rewrite skip_fold. cbn [ReshareSkipKeyIds empty_signers]. split; [|intros Hs; left; by exists v].
    intros [(w & Hw & E & Hs)|]; [|set_solver]. by rewrite (generation_unique _ _ _ _ Hok Hnd Hv Hw E). }
  assert (bool_decide (keyId ∈ PendingKeyIds s) = bool_decide (v_Status v = VaultPending) && resolvable d v) as ->.
  { apply eq_true_iff_eq. rewrite bool_decide_eq_true, andb_true_iff, bool_decide_eq_true. unfold s. rewrite pending_fold.
    cbn [PendingKeyIds empty_signers]. split; [|intros Hs; left; by exists v].
    intros [(w & Hw & E & Hs)|]; [|set_solver]. by rewrite (generation_unique _ _ _ _ Hok Hnd Hv Hw E). }
  unfold skipReshareDecision. destruct (v_Status v), (resolvable d v), (pendingKeyReshareActive m); cbn; try done.
Qed.

(** ** Lemmas: shares of funded generations *)

Lemma one_row_distinct db : one_row db → rows_distinct db.
Proof.
  unfold one_row. intros Hnd a b Ha Hb E _. apply list_elem_of_lookup in Ha as [i Hi], Hb as [j Hj].
  assert (i = j) as ->; [|congruence]. eapply NoDup_lookup; [done|..]; rewrite list_lookup_fmap.
  - by rewrite Hi.
  - by rewrite Hj, E.
Qed.

(** Every keygen and reshare of a key below the height is counted. *)
Lemma row_is_counted keyId height db c :
  one_row db → by_height keyId height ["reshare"; "keygen"] c → c ∈ db →
  c ∈ FindCommitmentsSimple (Some keyId) ["keygen"; "reshare"] None None (Some (height - 1)) 0 db.
Proof.
  intros Hone Hq Hc. pose proof (one_row_distinct db Hone) as Hd.
  unfold FindCommitmentsSimple. cbn [Nat.ltb Nat.leb]. set (rows := SortFunc _ _).
  assert (∀ b, b ∈ rows ↔ by_height keyId height ["reshare"; "keygen"] b ∧ b ∈ db) as Hrows.
  { intros b. unfold rows, SortFunc. rewrite merge_sort_Permutation, list_elem_of_filter. unfold by_height, in_query.
    rewrite !andb_true_iff, orb_true_iff, !bool_decide_eq_true, String.eqb_eq, Z.leb_le. split; intros [H ?]; (split; [|done]);
      destruct_and?; split_and?; try done; try lia; set_solver. }
  apply elem_of_dedup.
  - intros a b Ha Hb. apply Hd; by apply Hrows.
  - split_and!; [by apply Hrows|done|]. intros b Hb Hs. apply Hrows in Hb as [_ Hb].
    assert (b = c) as ->; [|done]. unfold one_row in Hone. apply list_elem_of_lookup in Hb as [i Hi], Hc as [j Hj].
    assert (i = j) as ->; [|congruence]. eapply NoDup_lookup; [done|..]; rewrite list_lookup_fmap; [by rewrite Hi|by rewrite Hj, Hs].
Qed.

Lemma party_set_spec c listCommits election vs parties out :
  fundedVaultPartySet c listCommits election vs parties = Some out →
  parties ⊆ out ∧
  ∀ v, v ∈ vs → poaLocksBond (v_Status v) = true →
    ∃ rows, listCommits (vault_keyId c (v_Generation v)) = Some rows ∧ ∀ r who, r ∈ rows → who ∈ row_parties election r → who ∈ out.
Proof.
  revert parties. induction vs as [|v vs IH]; intros parties; cbn [fundedVaultPartySet].
  - intros [= <-]. split; [done|]. intros v Hv. by apply elem_of_nil in Hv.
  - destruct (poaLocksBond (v_Status v)) eqn:Hl; cbn [negb].
    + destruct (listCommits _) as [rows|] eqn:Hr; [|done]. cbn [mbind option_bind]. intros Hrec. destruct (IH _ Hrec) as [Hsub Hall].
      split; [set_solver|]. intros w [->|Hw]%elem_of_cons Hlw; [|by apply Hall]. exists rows. split; [done|]. intros r who Hin Hwho.
      apply Hsub, elem_of_union_l, elem_of_list_to_set, list_elem_of_bind. by exists r.
    + intros Hrec. destruct (IH _ Hrec) as [Hsub Hall]. split; [done|]. intros w [->|Hw]%elem_of_cons Hlw; [congruence|by apply Hall].
Qed.

(** C32: every account that was ever dealt a share of a generation that still holds
    funds keeps its bond locked: it is seated by a keygen or a reshare of the
    generation below the height, the first as well as the last. *)
Theorem shares_keep_bond c reader commitments decodes height election electable elec vs v row e name account :
  c ≠ "" → height ≠ 0 → reads_registry reader vs → one_row commitments → v ∈ vs → poaLocksBond (v_Status v) = true →
  row ∈ commitments → by_height (vault_keyId c (v_Generation v)) height ["reshare"; "keygen"] row →
  election (tc_Epoch row) = Some e → name ∈ seats_set (commitment_bits (tc_Commitment row)) (el_Members e) →
  NormalizeAccount account = NormalizeAccount name →
  HeldShareOfFundedVaultOrBlock (heldShareOfFundedVault c reader commitments decodes election electable elec account height) = true.
Proof.
  intros Hc Hh Hr Hone Hv Hpoa Hrow Hq He Hseat Hn. unfold heldShareOfFundedVault.
  destruct (Z.eqb_spec height 0); [done|]. destruct (String.eqb_spec c ""); [done|]. cbn [orb].
  destruct Hr as (rawV & Hr & Hne & Hu). rewrite Hr. destruct rawV as [|b0 rawV]; [done|]. rewrite Hu.
  assert (existsb (λ v, poaLocksBond (v_Status v)) vs = true) as ->.
  { apply existsb_exists. exists v. by rewrite <- list_elem_of_In. }
  cbn [negb]. destruct electable; [done|]. cbv zeta. destruct (existsb _ _); [done|].
  destruct (fundedVaultPartySet _ _ _ _ _) as [parties|] eqn:Hp; [|done]. cbn [mbind option_bind HeldShareOfFundedVaultOrBlock default from_option id].
  apply bool_decide_eq_true. destruct (party_set_spec _ _ _ _ _ _ Hp) as [_ Hall]. destruct (Hall v Hv Hpoa) as (rows & Hrows & Hin).
  destruct (decodes _); [|done]. injection Hrows as <-. apply (Hin row); [by apply row_is_counted|].
  unfold row_parties. rewrite He, Hn. by apply list_elem_of_fmap_2.
Qed.

(** ** Lemmas: the seats of a commitment *)

Lemma commitment_bits_roundtrip n : 0 <= n → commitment_bits (b64_encode url_char (Bytes n)) = n.
Proof. intros Hn. unfold commitment_bits. by rewrite b64_url_roundtrip, SetBytes_Bytes by first [apply Bytes_ok|done]. Qed.

Lemma set_seats members parts bits i :
  0 <= bits → 0 <= i →
  0 <= foldl (set_seat members) bits parts ∧
  Z.testbit (foldl (set_seat members) bits parts) i =
    Z.testbit bits i || existsb (λ a, bool_decide (fst <$> list_find (λ m, em_Account m = a) members = Some (Z.to_nat i))) parts.
Proof.
  intros Hb Hi. revert bits Hb. induction parts as [|a parts IH]; intros bits Hb; cbn [foldl existsb]; [by rewrite orb_false_r|].
  assert (0 <= set_seat members bits a) as Hb'.
  { unfold set_seat. destruct (list_find _ members) as [[j ?]|]; [|done]. unfold Z.setbit. by apply Z.lor_nonneg; split; [|apply Z.shiftl_nonneg]. }
  destruct (IH _ Hb') as [H1 H2]. split; [done|]. rewrite H2, orb_assoc. f_equal. unfold set_seat.
  destruct (list_find _ members) as [[j x]|]; cbn [fmap option_fmap option_map fst]; [|by rewrite bool_decide_eq_false_2, orb_false_r].
  rewrite Z.setbit_eqb, orb_comm by lia. f_equal. apply eq_true_iff_eq. rewrite Z.eqb_eq, bool_decide_eq_true. split; [intros <-; by rewrite Nat2Z.id|].
  intros [= ->]. lia.
Qed.

(** The commitment to a set of parties is read back as that set: the members it
    seats are those of the election that took part, in the order of the election. *)
Theorem commitment_roundtrip members participants :
  NoDup (em_Account <$> members) →
  seats_set (commitment_bits (setToCommitment members participants)) members = filter (.∈ participants) (em_Account <$> members).
Proof.
  intros Hnd. unfold setToCommitment. rewrite commitment_bits_roundtrip by (by apply (set_seats _ _ 0 0)).
  set (bits := foldl _ _ _).
  assert (∀ i m, members !! i = Some m → Z.testbit bits (Z.of_nat i) = bool_decide (em_Account m ∈ participants)) as Hbit.
  { intros i m Hm. unfold bits. rewrite (proj2 (set_seats members participants 0 (Z.of_nat i) ltac:(lia) ltac:(lia))), Z.testbit_0_l. cbn [orb].
    apply eq_true_iff_eq. rewrite existsb_exists, bool_decide_eq_true, Nat2Z.id. split.
    - intros (a & Ha & Hf%bool_decide_eq_true). rewrite <- list_elem_of_In in Ha. apply fmap_Some in Hf as ([j x] & Hf & Hj). cbn in Hj. subst j.
      apply list_find_Some in Hf as (Hx & <- & _). rewrite Hm in Hx. by injection Hx as ->.
    - intros Hin. exists (em_Account m). rewrite <- list_elem_of_In. split; [done|]. apply bool_decide_eq_true.
      apply fmap_Some. exists (i, m). split; [|done]. apply list_find_Some. split_and!; [done|done|]. intros j y Hy Hlt E.
      assert (j = i); [|lia]. eapply (NoDup_lookup _ _ _ (em_Account m) Hnd); rewrite list_lookup_fmap; [by rewrite Hy, <- E|by rewrite Hm]. }
  clearbody bits. unfold seats_set. clear Hnd.
  assert (∀ k l, (∀ i m, l !! i = Some m → Z.testbit bits (Z.of_nat (k + i)) = bool_decide (em_Account m ∈ participants)) →
            omap (λ im, if Z.testbit bits (Z.of_nat im.1) then Some (em_Account im.2) else None) (imap (λ i m, ((k + i)%nat, m)) l) =
            filter (.∈ participants) (em_Account <$> l)) as Hgen.
  { intros k l. revert k. induction l as [|m l IH]; intros k Hl; [done|]. rewrite fmap_cons. cbn [imap omap list_omap].
    rewrite Nat.add_0_r. cbn [fst snd]. pose proof (Hl 0%nat m eq_refl) as H0. rewrite Nat.add_0_r in H0. rewrite H0.
    assert (imap ((λ i m, ((k + i)%nat, m)) ∘ S) l = imap (λ i m, ((S k + i)%nat, m)) l) as -> by (apply imap_ext; intros; unfold compose; f_equal; lia).
    assert (∀ i x, l !! i = Some x → Z.testbit bits (Z.of_nat (S k + i)) = bool_decide (em_Account x ∈ participants)) as Hl'.
    { intros i x Hx. rewrite <- (Hl (S i) x Hx). do 2 f_equal. lia. }
    case_bool_decide; [rewrite filter_cons_True by done|rewrite filter_cons_False by done]; [f_equal|]; by apply (IH (S k)). }
  by apply (Hgen 0%nat).
Qed.
