(* ===== verification/ContractSession.v ===== *)
(** The state a transaction with contract calls works on,
    [modules/contract/session/contract_session.go], and the part of
    [MakeOutputs] of [modules/block-producer/blockProducer.go] that writes it to
    the state tree.

    A [CallSession] holds one [ContractSession] per contract that a transaction
    touches.  Each has a committed layer (what earlier transactions of the slot
    wrote, [TempOutput]) and a working layer on top of it (the [StateStore]),
    both above the state tree of the last block.  [Commit] turns the working
    layer into the committed one, [Rollback] drops it, and a snapshot undoes a
    nested call that failed.

    A byte slice is a [string]; a nil slice, which the code tells from an empty
    one, is [None].  The maps are copied where the code clones them, so no two
    sessions share one.

    The theorems show that a session is a plain map from keys to values under
    any reads, writes and deletions, that what the transactions of a slot leave
    is what the state tree of the block holds, and that restoring a snapshot
    gives back the session as it was. *)
From S2P Require Import Prelude GoMaps GoStrings DataBin.

(** ** Data *)

Abbreviation bmap := (gmap string (option string)).

Record ContractMetadata := mkContractMetadata { CurrentSize : Z; MaxSize : Z }.

Record TssOp := mkTssOp {
  to_Type : string;
  to_KeyId : string;
  to_Args : string;
  to_Epochs : Z;
}.

Record StateStore := mkStateStore {
  ss_cache : bmap;
  ss_deletions : gset string;
  ss_databin : DataBin;
  ss_ephem : bmap;
}.

Record TempOutput := mkTempOutput {
  out_Cache : bmap;
  out_Metadata : ContractMetadata;
  out_Deletions : gset string;
  out_Cid : string;
}.

Record ContractSession := mkContractSession {
  cs_metadata : ContractMetadata;
  cs_cache : bmap;
  cs_deletions : gset string;
  cs_stateMerkle : string;
  cs_state : StateStore;
  cs_logs : list string;
  cs_tssOps : list TssOp;
}.

Record CallSession := mkCallSession {
  sessions : gmap string ContractSession;
  pending : gmap string TempOutput;
}.

(** The value of a slice that may be nil. *)
Definition value_at (m : bmap) (key : string) : option string := mjoin (m !! key).

(** What lies outside of a session: the state tree with a given id
    ([NewDataBinFromCid], which blocks until the tree is loaded), whether the bytes of
    a value of a tree can be read ([GetRaw]), and the last output of a contract in the
    database ([GetLastOutput]; [None] is its error). *)
Class StateSource := {
  load_bin : string → DataBin;
  raw_readable : string → bool;
  last_output : string → option (string * ContractMetadata);
}.

Section contract_session.
Context `{StateSource}.

(** ** One contract *)

(** The store is made with the session and shares no map with it; [GetStateStore]
    finds it there. *)
Definition NewStateStore (cid : string) (cache : bmap) (deletions : gset string) : StateStore :=
  mkStateStore cache deletions (if String.eqb cid "" then NewDataBin else load_bin cid) ∅.

Definition NewContractSession (output : TempOutput) : ContractSession :=
  mkContractSession (out_Metadata output) (out_Cache output) (out_Deletions output) (out_Cid output)
    (NewStateStore (out_Cid output) (out_Cache output) (out_Deletions output)) [] [].

Definition set_state (ss : StateStore) (s : ContractSession) : ContractSession :=
  mkContractSession (cs_metadata s) (cs_cache s) (cs_deletions s) (cs_stateMerkle s) ss (cs_logs s) (cs_tssOps s).

Definition set_logs (logs : list string) (tssOps : list TssOp) (s : ContractSession) : ContractSession :=
  mkContractSession (cs_metadata s) (cs_cache s) (cs_deletions s) (cs_stateMerkle s) (cs_state s) logs tssOps.

Definition SetMetadata (meta : ContractMetadata) (s : ContractSession) : ContractSession :=
  mkContractSession meta (cs_cache s) (cs_deletions s) (cs_stateMerkle s) (cs_state s) (cs_logs s) (cs_tssOps s).

Definition StateGet (key : string) (s : ContractSession) : option string :=
  if bool_decide (key ∈ cs_deletions s) then None else value_at (cs_cache s) key.

(** A read fills the cache from the tree; a key the tree does not have is
    cached as nil, one whose bytes cannot be read as the empty value. *)
Definition ss_Get (key : string) (s : ContractSession) : option string * ContractSession :=
  let ss := cs_state s in
  if bool_decide (key ∈ ss_deletions ss) then (Some "", s)
  else
    match value_at (ss_cache ss) key with
    | Some v => (Some v, s)
    | None =>
        match StateGet key s with
        | Some v => (Some v, s)
        | None =>
            let v := (λ raw, if raw_readable raw then raw else "") <$> bin_Get key (ss_databin ss) in
            (v, set_state (mkStateStore (<[key := v]> (ss_cache ss)) (ss_deletions ss) (ss_databin ss) (ss_ephem ss)) s)
        end
    end.

Definition ss_Set (key value : string) (s : ContractSession) : ContractSession :=
  let ss := cs_state s in
  set_state (mkStateStore (<[key := Some value]> (ss_cache ss)) (ss_deletions ss ∖ {[key]}) (ss_databin ss) (ss_ephem ss)) s.

Definition ss_Delete (key : string) (s : ContractSession) : ContractSession :=
  let ss := cs_state s in
  set_state (mkStateStore (delete key (ss_cache ss)) ({[key]} ∪ ss_deletions ss) (ss_databin ss) (ss_ephem ss)) s.

Definition set_ephem (ephem : bmap) (s : ContractSession) : ContractSession :=
  let ss := cs_state s in set_state (mkStateStore (ss_cache ss) (ss_deletions ss) (ss_databin ss) ephem) s.

Definition GetEphem (key : string) (s : ContractSession) : option string := value_at (ss_ephem (cs_state s)) key.
Definition SetEphem (key value : string) (s : ContractSession) : ContractSession :=
  set_ephem (<[key := Some value]> (ss_ephem (cs_state s))) s.
Definition DeleteEphem (key : string) (s : ContractSession) : ContractSession :=
  set_ephem (delete key (ss_ephem (cs_state s))) s.
Definition ClearEphem (s : ContractSession) : ContractSession := set_ephem ∅ s.

Definition ss_Commit (s : ContractSession) : ContractSession :=
  mkContractSession (cs_metadata s) (ss_cache (cs_state s)) (ss_deletions (cs_state s)) (cs_stateMerkle s) (cs_state s)
    (cs_logs s) (cs_tssOps s).

Definition ss_Rollback (s : ContractSession) : ContractSession :=
  set_state (mkStateStore (cs_cache s) (cs_deletions s) (ss_databin (cs_state s)) (ss_ephem (cs_state s))) s.

(** The keys deleted and changed since the last commit, with their values. *)
Definition GetDiff (s : ContractSession) : gset string * gmap string (option string * option string) :=
  let ss := cs_state s in
  (ss_deletions ss ∖ cs_deletions s,
   map_imap (λ key val, let prev := value_at (cs_cache s) key in
     if bool_decide (default "" val = default "" prev) then None else Some (prev, val)) (ss_cache ss)).

(** Returns by how much the largest size grew. *)
Definition IncSize (size : Z) (s : ContractSession) : Z * ContractSession :=
  let current := CurrentSize (cs_metadata s) +64 size in
  let newWriteGas := Z.max 0 (current -64 MaxSize (cs_metadata s)) in
  (newWriteGas, SetMetadata (mkContractMetadata current (Z.max (MaxSize (cs_metadata s)) current)) s).

Definition ToOutput (s : ContractSession) : TempOutput :=
  mkTempOutput (cs_cache s) (cs_metadata s) (cs_deletions s) (cs_stateMerkle s).

Definition AppendLogs (logs : list string) (s : ContractSession) : ContractSession :=
  set_logs (cs_logs s ++ logs) (cs_tssOps s) s.

Definition PopLogs (s : ContractSession) : list string * ContractSession := (cs_logs s, set_logs [] (cs_tssOps s) s).
Definition PopTssLogs (s : ContractSession) : list TssOp * ContractSession := (cs_tssOps s, set_logs (cs_logs s) [] s).

(** ** All contracts of a transaction *)

(** The outputs of the slot so far are copied. *)
Definition NewCallSession (outputs : gmap string TempOutput) : CallSession := mkCallSession ∅ outputs.

Definition set_session (contractId : string) (s : ContractSession) (cs : CallSession) : CallSession :=
  mkCallSession (<[contractId := s]> (sessions cs)) (pending cs).

Definition FromOutput (contractId : string) (out : TempOutput) (cs : CallSession) : CallSession :=
  set_session contractId (NewContractSession out) cs.

Definition takePending (contractId : string) (cs : CallSession) : option TempOutput * CallSession :=
  (pending cs !! contractId, mkCallSession (sessions cs) (delete contractId (pending cs))).

(** The output a contract starts from when the slot has none yet. *)
Definition stored_output (contractId : string) : TempOutput :=
  let '(cid, metadata) := default ("", mkContractMetadata 0 0) (last_output contractId) in
  mkTempOutput ∅ metadata ∅ cid.

Definition GetContractSession (contractId : string) (cs : CallSession) : ContractSession * CallSession :=
  match sessions cs !! contractId with
  | Some s => (s, cs)
  | None =>
      let '(tmpOut, cs) := takePending contractId cs in
      let out := default (stored_output contractId) tmpOut in
      (NewContractSession out, FromOutput contractId out cs)
  end.

(** Run an operation on the session of a contract. *)
Definition on_session {A} (contractId : string) (f : ContractSession → A * ContractSession) (cs : CallSession) : A * CallSession :=
  let '(s, cs) := GetContractSession contractId cs in
  let '(a, s) := f s in
  (a, set_session contractId s cs).

Definition call_IncSize (contractId : string) (size : Z) : CallSession → Z * CallSession := on_session contractId (IncSize size).
Definition call_AppendLogs (contractId : string) (logs : list string) (cs : CallSession) : CallSession :=
  (on_session contractId (λ s, ((), AppendLogs logs s)) cs).2.
Definition AppendTssLog (contractId : string) (op : TssOp) (cs : CallSession) : CallSession :=
  (on_session contractId (λ s, ((), set_logs (cs_logs s) (cs_tssOps s ++ [op]) s)) cs).2.

Definition ToOutputs (cs : CallSession) : gmap string TempOutput := ToOutput <$> sessions cs.

Record LogOutput := mkLogOutput { lo_Logs : list string; lo_TssOps : list TssOp }.

Definition call_PopLogs (cs : CallSession) : gmap string LogOutput * CallSession :=
  ((λ s, mkLogOutput (cs_logs s) (cs_tssOps s)) <$> sessions cs,
   mkCallSession ((λ s, (PopTssLogs (PopLogs s).2).2) <$> sessions cs) (pending cs)).

Definition call_Commit (cs : CallSession) : CallSession := mkCallSession (ss_Commit <$> sessions cs) (pending cs).

(** Logs are dropped, the signing operations are not. *)
Definition call_Rollback (cs : CallSession) : CallSession :=
  mkCallSession ((λ s, (PopLogs (ss_Rollback s)).2) <$> sessions cs) (pending cs).

(** ** Snapshots *)

Record contractSnapshot := mkContractSnapshot {
  sn_cache : bmap;
  sn_deletions : gset string;
  sn_metadata : ContractMetadata;
  sn_logsLen : nat;
  sn_tssOpsLen : nat;
  sn_ssCache : bmap;
  sn_ssDeletions : gset string;
  sn_ssEphem : bmap;
}.

Record CallSnapshot := mkCallSnapshot {
  snap_sessions : gmap string contractSnapshot;
  snap_pending : gmap string TempOutput;
}.

Definition snapshot_of (s : ContractSession) : contractSnapshot :=
  mkContractSnapshot (cs_cache s) (cs_deletions s) (cs_metadata s) (length (cs_logs s)) (length (cs_tssOps s))
    (ss_cache (cs_state s)) (ss_deletions (cs_state s)) (ss_ephem (cs_state s)).

Definition Snapshot (cs : CallSession) : CallSnapshot := mkCallSnapshot (snapshot_of <$> sessions cs) (pending cs).

Definition restore_session (sn : contractSnapshot) (s : ContractSession) : ContractSession :=
  mkContractSession (sn_metadata sn) (sn_cache sn) (sn_deletions sn) (cs_stateMerkle s)
    (mkStateStore (sn_ssCache sn) (sn_ssDeletions sn) (ss_databin (cs_state s)) (sn_ssEphem sn))
    (take (sn_logsLen sn) (cs_logs s)) (take (sn_tssOpsLen sn) (cs_tssOps s)).

(** Sessions made since the snapshot are dropped. *)
Definition Restore (snap : CallSnapshot) (cs : CallSession) : CallSession :=
  mkCallSession (map_zip_with (λ s sn, restore_session sn s) (sessions cs) (snap_sessions snap)) (snap_pending snap).
End contract_session.

(** ** Writing the state tree *)

Section persist.
Context `{StateSource}.

Definition base_bin (cid : string) : DataBin := if String.eqb cid "" then NewDataBin else load_bin cid.

(** The tree [MakeOutputs] saves for a contract: deletions first, then the cached
    values, both in the order of the keys.  A nil value is stored as the empty
    one. *)
Definition persist (output : TempOutput) : DataBin :=
  let db := base_bin (out_Cid output) in
  let db := foldl (λ db key, bin_Delete key db) db (sort_Strings (elements (out_Deletions output))) in
  let db := foldl (λ db key,
              if bool_decide (key ∈ out_Deletions output) then db
              else bin_Set key (default "" (value_at (out_Cache output) key)) db) db (sorted_keys (out_Cache output)) in
  bin_Save db.
End persist.

(** ** Specification *)

(** The state of a contract as its code sees it: a missing key reads as empty. *)
Definition kv := string → string.

Definition kv_set (k v : string) (f : kv) : kv := λ k', if String.eqb k k' then v else f k'.

Inductive store_op :=
| SGet (key : string)
| SSet (key value : string)
| SDelete (key : string).

Definition op_key (op : store_op) : string := match op with SGet k | SSet k _ | SDelete k => k end.

Definition kv_op (f : kv) (op : store_op) : kv :=
  match op with
  | SGet _ => f
  | SSet k v => kv_set k v f
  | SDelete k => kv_set k "" f
  end.

Definition run_store `{StateSource} (s : ContractSession) (op : store_op) : ContractSession :=
  match op with
  | SGet k => (ss_Get k s).2
  | SSet k v => ss_Set k v s
  | SDelete k => ss_Delete k s
  end.

Section spec.
Context `{StateSource}.

(** The transactions of a slot on one contract: the operations of each, and
    whether it succeeds. *)
Definition run_tx (out : TempOutput) (tx : list store_op * bool) : TempOutput :=
  let s := foldl run_store (NewContractSession out) tx.1 in
  if tx.2 then ToOutput (ss_Commit s) else out.

Definition kv_tx (f : kv) (tx : list store_op * bool) : kv := if tx.2 then foldl kv_op f tx.1 else f.

(** What a session reads under a key. *)
Definition sess_view (s : ContractSession) (k : string) : string := default "" (ss_Get k s).1.

(** The working layer covers the committed one and both lie above the tree the
    session was made from. *)
Record layered (s : ContractSession) : Prop := {
  layered_cache k v : value_at (cs_cache s) k = Some v → k ∈ ss_deletions (cs_state s) ∨ is_Some (value_at (ss_cache (cs_state s)) k);
  layered_bin : ss_databin (cs_state s) = base_bin (cs_stateMerkle s);
}.

(** ** Lemmas: one session *)

(** The bytes of the values can be read. *)
Context (readable : ∀ v, raw_readable v = true).

Lemma read_raw (o : option string) : (λ raw, if raw_readable raw then raw else "") <$> o = o.
Proof. destruct o; [|done]. cbn. by rewrite readable. Qed.

Lemma value_at_insert m k v k' : value_at (<[k := v]> m) k' = if String.eqb k k' then v else value_at m k'.
Proof.
  unfold value_at. destruct (String.eqb_spec k k') as [->|Hne]; [by rewrite lookup_insert_eq|by rewrite lookup_insert_ne].
Qed.

Lemma value_at_delete m k k' : value_at (delete k m) k' = if String.eqb k k' then None else value_at m k'.
Proof.
  unfold value_at. destruct (String.eqb_spec k k') as [->|Hne]; [by rewrite lookup_delete_eq|by rewrite lookup_delete_ne].
Qed.

Lemma sess_view_eq s k :
  layered s →
  sess_view s k = if bool_decide (k ∈ ss_deletions (cs_state s)) then ""
                  else default (default "" (bin_Get k (base_bin (cs_stateMerkle s)))) (value_at (ss_cache (cs_state s)) k).
Proof.
  intros [Hc Hb]. unfold sess_view, ss_Get. cbv zeta. rewrite read_raw. case_bool_decide as Hd; [done|].
  destruct (value_at (ss_cache (cs_state s)) k) as [v|] eqn:Hv; [done|].
  unfold StateGet. case_bool_decide; [by rewrite <- Hb|].
  destruct (value_at (cs_cache s) k) as [v|] eqn:Hcv; [|by rewrite <- Hb].
  apply Hc in Hcv as [?|[? ?]]; [done|congruence].
Qed.

Lemma NewContractSession_layered out : layered (NewContractSession out).
Proof. split; [|done]. intros k v Hv. right. by exists v. Qed.

Lemma run_store_layered s op : layered s → layered (run_store s op).
Proof.
  intros [Hc Hb]. destruct op as [k|k v|k]; cbn [run_store].
  - unfold ss_Get. cbv zeta. case_bool_decide; [done|]. destruct (value_at (ss_cache _) k) eqn:Hk; [done|].
    destruct (StateGet k s); [done|]. split; cbn; [|done]. intros k' w Hw%Hc. rewrite value_at_insert.
    destruct (String.eqb_spec k k') as [->|Hne]; [|done]. destruct Hw as [?|Hw]; [by left|]. rewrite Hk in Hw. by destruct Hw.
  - split; cbn; [|done]. intros k' w Hw%Hc. rewrite value_at_insert.
    destruct (String.eqb_spec k k') as [->|Hne]; [by right|]. destruct Hw; [left; set_solver|by right].
  - split; cbn; [|done]. intros k' w Hw%Hc. rewrite value_at_delete.
    destruct (String.eqb_spec k k') as [->|Hne]; [left; set_solver|]. destruct Hw; [left; set_solver|by right].
Qed.

Lemma run_store_merkle s op : cs_stateMerkle (run_store s op) = cs_stateMerkle s.
Proof. destruct op; [|done..]. cbn. unfold ss_Get. cbv zeta. by repeat case_match. Qed.

Lemma run_store_view s op k : layered s → sess_view (run_store s op) k = kv_op (sess_view s) op k.
Proof.
  intros Hl. rewrite (sess_view_eq (run_store s op)) by by apply run_store_layered. rewrite run_store_merkle.
  destruct op as [k'|k' v|k']; cbn [run_store kv_op]; unfold kv_set; rewrite ?(sess_view_eq s) by done.
  - unfold ss_Get. cbv zeta. rewrite read_raw. destruct (bool_decide (k' ∈ ss_deletions (cs_state s))); [done|].
    destruct (value_at (ss_cache (cs_state s)) k') eqn:Hk; [done|].
    destruct (StateGet k' s); [done|]. cbn. destruct (bool_decide _); [done|]. rewrite value_at_insert.
    destruct (String.eqb_spec k' k) as [->|]; [|done]. rewrite (layered_bin s), Hk by done. by destruct (bin_Get _ _).
  - cbn. rewrite value_at_insert. destruct (String.eqb_spec k' k) as [->|Hne].
    + rewrite bool_decide_eq_false_2 by set_solver. done.
    + destruct (decide (k ∈ ss_deletions (cs_state s))); [rewrite !bool_decide_eq_true_2 by set_solver|rewrite !bool_decide_eq_false_2 by set_solver]; done.
  - cbn. rewrite value_at_delete. destruct (String.eqb_spec k' k) as [->|Hne].
    + rewrite bool_decide_eq_true_2 by set_solver. done.
    + destruct (decide (k ∈ ss_deletions (cs_state s))); [rewrite !bool_decide_eq_true_2 by set_solver|rewrite !bool_decide_eq_false_2 by set_solver]; done.
Qed.

Lemma foldl_kv_ext {A} (step : kv → A → kv) l (f g : kv) k :
  (∀ f g a, (∀ k, f k = g k) → ∀ k, step f a k = step g a k) → (∀ k, f k = g k) → foldl step f l k = foldl step g l k.
Proof.
  intros Hstep. revert f g k. induction l as [|a l IH]; intros f g k Hfg; [apply Hfg|]. cbn [foldl].
  apply IH. by apply Hstep.
Qed.

Lemma kv_op_ext (f g : kv) op : (∀ k, f k = g k) → ∀ k, kv_op f op k = kv_op g op k.
Proof. intros Hfg k. destruct op; cbn; unfold kv_set; [apply Hfg|..]; destruct (String.eqb _ _); auto. Qed.

(** A session is a map: operations act on what it reads like on a plain map. *)
Lemma run_stores_view ops s :
  layered s →
  let s' := foldl run_store s ops in
  layered s' ∧ cs_stateMerkle s' = cs_stateMerkle s ∧ ∀ k, sess_view s' k = foldl kv_op (sess_view s) ops k.
Proof.
  revert s. induction ops as [|op ops IH]; intros s Hl; [done|]. cbn [foldl].
  destruct (IH (run_store s op) (run_store_layered s op Hl)) as (H1 & H2 & H3).
  split_and!; [done|by rewrite H2, run_store_merkle|]. intros k. rewrite H3.
  apply foldl_kv_ext; [apply kv_op_ext|]. intros k'. by apply run_store_view.
Qed.

(** The next transaction reads what a committed one left. *)
Lemma commit_view s k : layered s → sess_view (NewContractSession (ToOutput (ss_Commit s))) k = sess_view s k.
Proof. intros Hl. by rewrite !sess_view_eq by (done || apply NewContractSession_layered). Qed.

(** Rolling back forgets the working layer. *)
Lemma rollback_view s k :
  layered s → sess_view (ss_Rollback s) k = sess_view (NewContractSession (ToOutput s)) k.
Proof.
  intros Hl. rewrite (sess_view_eq (NewContractSession _)) by apply NewContractSession_layered.
  rewrite sess_view_eq; [done|]. split; cbn; [|by apply layered_bin]. intros k' v Hv. right. by exists v.
Qed.
End spec.

(** ** Lemmas: the state tree *)

Section tree.
Context `{StateSource} (readable : ∀ v, raw_readable v = true) (K : gset string).

(** A layer that only touches keys of [K], above a tree that holds them; nil is
    cached for keys the tree does not have. *)
Definition layer_ok (cache : bmap) (deletions : gset string) (db : DataBin) : Prop :=
  dom cache ⊆ K ∧ deletions ⊆ K ∧ bin_ok K db ∧ ∀ k, cache !! k = Some None → bin_Get k db = None.

Definition out_ok (out : TempOutput) : Prop := layer_ok (out_Cache out) (out_Deletions out) (base_bin (out_Cid out)).

Lemma delete_all_spec keys db k :
  keys_ok K → Forall (λ k, k ∈ K) keys → k ∈ K → bin_ok K db →
  let db' := foldl (λ db key, bin_Delete key db) db keys in
  bin_ok K db' ∧ bin_Get k db' = if bool_decide (k ∈ keys) then None else bin_Get k db.
Proof.
  intros HK Hkeys Hk. revert db. induction Hkeys as [|k' keys Hk' Hkeys IH]; intros db Hok; [done|]. cbn [foldl].
  destruct (IH (bin_Delete k' db) ltac:(by apply bin_Delete_ok)) as [H1 H2]. split; [done|]. rewrite H2, (bin_Get_Delete K) by done.
  destruct (decide (k ∈ keys)); [rewrite !bool_decide_eq_true_2 by set_solver; done|].
  rewrite (bool_decide_eq_false_2 (k ∈ keys)) by done. destruct (String.eqb_spec k' k) as [->|Hne].
  - by rewrite bool_decide_eq_true_2 by set_solver.
  - by rewrite bool_decide_eq_false_2 by set_solver.
Qed.

Lemma set_all_spec (D : gset string) (val : string → string) keys db k :
  keys_ok K → Forall (λ k, k ∈ K) keys → k ∈ K → bin_ok K db →
  let db' := foldl (λ db key, if bool_decide (key ∈ D) then db else bin_Set key (val key) db) db keys in
  bin_ok K db' ∧ bin_Get k db' = if bool_decide (k ∈ keys ∧ k ∉ D) then Some (val k) else bin_Get k db.
Proof.
  intros HK Hkeys Hk. revert db. induction Hkeys as [|k' keys Hk' Hkeys IH]; intros db Hok.
  { split; [done|]. rewrite bool_decide_eq_false_2 by set_solver. done. }
  cbn [foldl]. destruct (decide (k' ∈ D)) as [Hd|Hd].
  - rewrite (bool_decide_eq_true_2 (k' ∈ D)) by done. destruct (IH db Hok) as [H1 H2]. split; [done|]. rewrite H2.
    assert (bool_decide (k ∈ k' :: keys ∧ k ∉ D) = bool_decide (k ∈ keys ∧ k ∉ D)) as ->; [|done].
    apply bool_decide_ext. set_solver.
  - rewrite (bool_decide_eq_false_2 (k' ∈ D)) by done.
    destruct (IH (bin_Set k' (val k') db) ltac:(by apply bin_Set_ok)) as [H1 H2]. split; [done|]. rewrite H2, (bin_Get_Set K) by done.
    destruct (decide (k ∈ keys ∧ k ∉ D)); [rewrite !bool_decide_eq_true_2 by set_solver; done|].
    rewrite (bool_decide_eq_false_2 (k ∈ keys ∧ k ∉ D)) by done. destruct (String.eqb_spec k' k) as [->|Hne].
    + by rewrite bool_decide_eq_true_2 by set_solver.
    + by rewrite bool_decide_eq_false_2 by set_solver.
Qed.

(** The tree of an output holds what a session made from the output reads. *)
Lemma persist_view out k :
  keys_ok K → out_ok out → k ∈ K → bin_ok K (persist out) ∧ default "" (bin_Get k (persist out)) = sess_view (NewContractSession out) k.
Proof.
  intros HK (Hc & Hd & Hb & Hnil) Hk. unfold persist. cbv zeta.
  destruct (delete_all_spec (sort_Strings (elements (out_Deletions out))) (base_bin (out_Cid out)) k HK) as [Hok1 Hg1]; [|done..|].
  { apply Forall_forall. intros k' Hk'. rewrite sort_Strings_Permutation in Hk'. set_solver. }
  destruct (set_all_spec (out_Deletions out) (λ k, default "" (value_at (out_Cache out) k)) (sorted_keys (out_Cache out)) _ k HK
              ltac:(apply Forall_forall; intros k' Hk'%sorted_keys_elem; apply Hc; by apply elem_of_dom) Hk Hok1) as [Hok2 Hg2].
  split; [by apply bin_Save_ok|]. rewrite (bin_Get_Save K) by done. rewrite Hg2, Hg1, (sess_view_eq readable) by apply NewContractSession_layered.
  cbn. assert (k ∈ sort_Strings (elements (out_Deletions out)) ↔ k ∈ out_Deletions out) as Hiff.
  { by rewrite sort_Strings_Permutation, elem_of_elements. }
  rewrite (bool_decide_ext _ _ Hiff). destruct (decide (k ∈ out_Deletions out)) as [Hin|Hni].
  - rewrite bool_decide_eq_false_2 by tauto. by rewrite !(bool_decide_eq_true_2 (k ∈ out_Deletions out)) by done.
  - rewrite !(bool_decide_eq_false_2 (k ∈ out_Deletions out)) by done. unfold value_at.
    destruct (out_Cache out !! k) as [v|] eqn:Hv.
    + rewrite bool_decide_eq_true_2 by (split; [by apply sorted_keys_elem; rewrite Hv|done]).
      destruct v as [v|]; [done|]. cbn. by rewrite (Hnil k Hv).
    + rewrite bool_decide_eq_false_2; [done|]. intros [[? ?]%sorted_keys_elem _]. congruence.
Qed.

Lemma run_store_layer s op :
  op_key op ∈ K → layer_ok (ss_cache (cs_state s)) (ss_deletions (cs_state s)) (ss_databin (cs_state s)) →
  let s' := run_store s op in
  layer_ok (ss_cache (cs_state s')) (ss_deletions (cs_state s')) (ss_databin (cs_state s')).
Proof.
  intros Hk (Hc & Hd & Hb & Hnil). destruct op as [k|k v|k]; cbn [run_store op_key] in *.
  - unfold ss_Get. cbv zeta. rewrite (read_raw readable). destruct (bool_decide _); [done|]. destruct (value_at _ k); [done|]. destruct (StateGet k s); [done|].
    cbn. split_and!; [set_solver|done|done|]. intros k' Hk'. destruct (decide (k = k')) as [->|Hne].
    + rewrite lookup_insert_eq in Hk'. by simplify_eq.
    + rewrite lookup_insert_ne in Hk' by done. by apply Hnil.
  - cbn. split_and!; [set_solver..|done|]. intros k' Hk'. destruct (decide (k = k')) as [->|Hne].
    + rewrite lookup_insert_eq in Hk'. by simplify_eq.
    + rewrite lookup_insert_ne in Hk' by done. by apply Hnil.
  - cbn. split_and!; [set_solver..|done|]. intros k' [_ Hk']%lookup_delete_Some. by apply Hnil.
Qed.

Lemma run_tx_spec out tx :
  out_ok out → Forall (λ op, op_key op ∈ K) tx.1 →
  out_ok (run_tx out tx) ∧ out_Cid (run_tx out tx) = out_Cid out ∧
  ∀ k, sess_view (NewContractSession (run_tx out tx)) k = kv_tx (sess_view (NewContractSession out)) tx k.
Proof.
  intros Hok Hops. unfold run_tx, kv_tx. destruct (tx.2); [|done].
  destruct (run_stores_view readable tx.1 _ (NewContractSession_layered out)) as (Hl & Hm & Hv).
  assert (∀ s, layer_ok (ss_cache (cs_state s)) (ss_deletions (cs_state s)) (ss_databin (cs_state s)) →
    let s' := foldl run_store s tx.1 in
    layer_ok (ss_cache (cs_state s')) (ss_deletions (cs_state s')) (ss_databin (cs_state s'))) as Hlay.
  { clear Hl Hm Hv. induction Hops as [|op ops Hop Hops IH]; intros s Hs; [done|]. cbn [foldl]. by apply IH, run_store_layer. }
  specialize (Hlay (NewContractSession out) Hok). split_and!.
  - cbv zeta in Hlay. rewrite (layered_bin _ Hl) in Hlay. done.
  - cbn. by rewrite Hm.
  - intros k. rewrite (commit_view readable) by done. apply Hv.
Qed.

(** ** Properties *)

(** C15: the state tree of a block holds what the transactions of the slot did.  For
    a set of keys that fit the tree together (no empty parts, none below another),
    whatever the successful transactions on a contract read, wrote and deleted of
    them, starting from an output that holds only such keys, every one has in the
    tree saved from their output the value they left, and the failed ones have left
    nothing.  No read of the bytes of a stored value fails; when one does, the empty
    value is cached and saved ([failed_read_saved]). *)
Theorem contract_state_persisted txs out k :
  keys_ok K → out_ok out → Forall (λ tx, Forall (λ op, op_key op ∈ K) tx.1) txs → k ∈ K →
  default "" (bin_Get k (persist (foldl run_tx out txs)))
  = foldl kv_tx (sess_view (NewContractSession out)) txs k.
Proof.
  intros HK Hok Htxs Hk.
  assert (out_ok (foldl run_tx out txs) ∧
    ∀ k, sess_view (NewContractSession (foldl run_tx out txs)) k = foldl kv_tx (sess_view (NewContractSession out)) txs k) as [Hok' Hv].
  2:{ destruct (persist_view (foldl run_tx out txs) k HK Hok' Hk) as [_ ->]. apply Hv. }
  clear Hk. revert out Hok. induction Htxs as [|tx txs Htx Htxs IH]; intros out Hok; [done|]. cbn [foldl].
  destruct (run_tx_spec out tx Hok Htx) as (Hok1 & _ & Hv1). destruct (IH _ Hok1) as [Hok2 Hv2]. split; [done|].
  intros k'. rewrite Hv2. apply foldl_kv_ext; [|done]. clear. intros f g [ops ok] Hfg k. unfold kv_tx. cbn. destruct ok; [|done].
  by apply foldl_kv_ext; [apply kv_op_ext|].
Qed.
End tree.

(** ** Snapshots *)

(** [s'] continues [s]: it reads the same tree and has its logs and more. *)
Definition session_grows (s s' : ContractSession) : Prop :=
  cs_stateMerkle s' = cs_stateMerkle s ∧ ss_databin (cs_state s') = ss_databin (cs_state s) ∧
  cs_logs s `prefix_of` cs_logs s' ∧ cs_tssOps s `prefix_of` cs_tssOps s'.

Definition call_grows (cs cs' : CallSession) : Prop :=
  ∀ id s, sessions cs !! id = Some s → ∃ s', sessions cs' !! id = Some s' ∧ session_grows s s'.

#[export] Instance session_grows_refl : Reflexive session_grows.
Proof. done. Qed.

#[export] Instance session_grows_trans : Transitive session_grows.
Proof. intros s1 s2 s3 (H1 & H2 & H3 & H4) (H1' & H2' & H3' & H4'). split_and!; [congruence..|by etrans|by etrans]. Qed.

#[export] Instance call_grows_refl : Reflexive call_grows.
Proof. intros cs id s Hs. by exists s. Qed.

#[export] Instance call_grows_trans : Transitive call_grows.
Proof.
  intros c1 c2 c3 H12 H23 id s Hs. destruct (H12 id s Hs) as (s2 & Hs2 & Hg). destruct (H23 id s2 Hs2) as (s3 & Hs3 & Hg').
  exists s3. split; [done|]. by etrans.
Qed.

Lemma restore_snapshot_of s s' : session_grows s s' → restore_session (snapshot_of s) s' = s.
Proof.
  intros (Hm & Hb & [l Hl] & [t Ht]). unfold restore_session, snapshot_of. destruct s as [m c d mk st lg ts], st. cbn in *.
  by rewrite Hm, Hb, Hl, Ht, !take_app_length.
Qed.

(** Restoring a snapshot undoes everything done since: whatever reads, writes,
    logs and new sessions followed, the call session is the one the snapshot was
    taken of. *)
Theorem Restore_exact cs cs' : call_grows cs cs' → Restore (Snapshot cs) cs' = cs.
Proof.
  intros Hg. unfold Restore, Snapshot. destruct cs as [ss pd]. f_equal. cbn. apply map_eq. intros id.
  rewrite map_lookup_zip_with, lookup_fmap. destruct (ss !! id) as [s|] eqn:Hs; cbn.
  - destruct (Hg id s Hs) as (s' & Hs' & Hgs). rewrite Hs'. cbn. by rewrite restore_snapshot_of.
  - by destruct (sessions cs' !! id).
Qed.

Section grows.
Context `{StateSource}.

Lemma set_session_grows id s' cs :
  (∀ s0, sessions cs !! id = Some s0 → session_grows s0 s') → call_grows cs (set_session id s' cs).
Proof.
  intros Hs id' s0 Hs0. cbn. destruct (decide (id = id')) as [->|Hne].
  - exists s'. rewrite lookup_insert_eq. auto.
  - exists s0. by rewrite lookup_insert_ne.
Qed.

Lemma GetContractSession_spec id cs s cs1 :
  GetContractSession id cs = (s, cs1) → sessions cs1 !! id = Some s ∧ call_grows cs cs1.
Proof.
  unfold GetContractSession. destruct (sessions cs !! id) as [s0|] eqn:Hs0.
  - by intros [= <- <-].
  - cbn. intros [= <- <-]. cbn. rewrite lookup_insert_eq. split; [done|]. intros id' s' Hs'.
    exists s'. cbn. rewrite lookup_insert_ne by congruence. done.
Qed.

(** An operation that continues the session of a contract continues them all. *)
Lemma on_session_grows {A} id (f : ContractSession → A * ContractSession) cs :
  (∀ s, session_grows s (f s).2) → call_grows cs (on_session id f cs).2.
Proof.
  intros Hf. unfold on_session. destruct (GetContractSession id cs) as [s cs1] eqn:Hg.
  apply GetContractSession_spec in Hg as [Hs Hg]. pose proof (Hf s) as Hfs. destruct (f s) as [a s']. cbn in *.
  etrans; [exact Hg|]. apply set_session_grows. intros s0 Hs0. by simplify_eq.
Qed.

Lemma ss_Get_grows k s : session_grows s (ss_Get k s).2.
Proof. unfold ss_Get. cbv zeta. by repeat case_match. Qed.

Lemma IncSize_grows n s : session_grows s (IncSize n s).2.
Proof. done. Qed.
End grows.
