(* ===== verification/TssKeys.v ===== *)
(** The life of a threshold key in the state engine: the operations a contract's
    output carries ([ContractOutput.Ingest]), the commitments and the signatures
    posted on Hive (the [vsc.tss_commitment] and [vsc.tss_sign] branches of
    [ProcessBlock]), the lifecycle pass of every block, and the start of a node.

    A step is taken with what the chain knows at its block.  Reads of the key
    collection that are not retried may fail: the failure is an argument.

    The theorems: once a key is active its public key, algorithm and epochs are
    never rolled back; a key becomes active only by a commitment that two thirds of
    the committee signed; every request that is complete carries a signature that
    verifies under its key; and the flag that lets a vault be activated is set only
    for a key that signed its check message. *)
From Stdlib Require Import Ascii.
From S2P Require Import Prelude GoMaps GoSlices GoStrings GoEncoding ConsensusVersion Schedule BlsQuorum BlsCircuit GoJson TssDb ContractSession BtcVault VaultScope.

Definition MAX_TSS_COMMITMENTS_PER_TX : nat := 256.
Definition TSS_COMMITMENT_MAX_STALENESS : Z := 28800.

(** ** Libraries *)

(** The signatures of the two curves.  [over_half] is of a signature that parses. *)
Class SigLib := {
  ParsePubKey : list Z → bool;
  ParseDERSignature : list Z → bool;
  IsOverHalfOrder : list Z → bool;
  ecdsa_Verify : list Z → list Z → list Z → bool;
  ed25519_Verify : list Z → list Z → list Z → bool;
}.

(** ** Commitments on the wire *)

Record BaseCommitment := mkBaseCommitment {
  cm_Type : string;
  cm_SessionId : string;
  cm_KeyId : string;
  cm_Commitment : string;
  cm_PublicKey : option string;
  cm_BlockHeight : Z;
  cm_Epoch : Z;
}.

Record SignedCommitment := mkSignedCommitment { cm_base : BaseCommitment; cm_Signature : string; cm_BitSet : string }.

Definition zero_commitment : SignedCommitment := mkSignedCommitment (mkBaseCommitment "" "" "" "" None 0 0) "" "".

(** The identifier of the encoded commitment, [None] on an error. *)
Class CommitmentHash := { commitment_cid : BaseCommitment → option string }.

(** A pointer to a string: [null] makes it nil. *)
Definition set_string_ptr : setter (option string) := λ j old,
  match j with
  | JNull => (None, true)
  | JStr s => (Some s, true)
  | _ => (Some (default "" old), false)
  end.

(** The fields of the embedded struct are promoted. *)
Definition commitment_fields : fields SignedCommitment :=
  [("type", on_field (λ c, cm_Type (cm_base c)) (λ x '(mkSignedCommitment (mkBaseCommitment _ s k c p b e) g v), mkSignedCommitment (mkBaseCommitment x s k c p b e) g v) set_string);
   ("session_id", on_field (λ c, cm_SessionId (cm_base c)) (λ x '(mkSignedCommitment (mkBaseCommitment t _ k c p b e) g v), mkSignedCommitment (mkBaseCommitment t x k c p b e) g v) set_string);
   ("key_id", on_field (λ c, cm_KeyId (cm_base c)) (λ x '(mkSignedCommitment (mkBaseCommitment t s _ c p b e) g v), mkSignedCommitment (mkBaseCommitment t s x c p b e) g v) set_string);
   ("commitment", on_field (λ c, cm_Commitment (cm_base c)) (λ x '(mkSignedCommitment (mkBaseCommitment t s k _ p b e) g v), mkSignedCommitment (mkBaseCommitment t s k x p b e) g v) set_string);
   ("pub_key", on_field (λ c, cm_PublicKey (cm_base c)) (λ x '(mkSignedCommitment (mkBaseCommitment t s k c _ b e) g v), mkSignedCommitment (mkBaseCommitment t s k c x b e) g v) set_string_ptr);
   ("block_height", on_field (λ c, cm_BlockHeight (cm_base c)) (λ x '(mkSignedCommitment (mkBaseCommitment t s k c p _ e) g v), mkSignedCommitment (mkBaseCommitment t s k c p x e) g v) set_uint64);
   ("epoch", on_field (λ c, cm_Epoch (cm_base c)) (λ x '(mkSignedCommitment (mkBaseCommitment t s k c p b _) g v), mkSignedCommitment (mkBaseCommitment t s k c p b x) g v) set_uint64);
   ("signature", on_field cm_Signature (λ x c, mkSignedCommitment (cm_base c) x (cm_BitSet c)) set_string);
   ("bv", on_field cm_BitSet (λ x c, mkSignedCommitment (cm_base c) (cm_Signature c) x) set_string)].

(** A [map[string]SignedCommitment]. *)
Definition set_commitment_map : setter (gmap string SignedCommitment) := λ j old,
  match j with
  | JObj members =>
      foldl (λ '(m, ok) '(k, v), let '(c, ok') := set_struct commitment_fields v zero_commitment in (<[k := c]> m, ok && ok')) (old, true) members
  | JNull => (∅, true)
  | _ => (old, false)
  end.

(** The array, else the legacy map in the order of its keys; [None] is an error. *)
Definition parse_commitments (j : json) : option (list SignedCommitment) :=
  match set_slice (set_struct commitment_fields) zero_commitment j [] with
  | (commitments, true) => Some commitments
  | (_, false) =>
      match set_commitment_map j ∅ with
      | (m, true) => Some (omap (m !!.) (sorted_keys m))
      | (_, false) => None
      end
  end.

Record sig_pack := mkSigPack { sp_KeyId : string; sp_Msg : string; sp_Sig : string }.

Definition pack_fields : fields sig_pack :=
  [("key_id", on_field sp_KeyId (λ x p, mkSigPack x (sp_Msg p) (sp_Sig p)) set_string);
   ("msg", on_field sp_Msg (λ x p, mkSigPack (sp_KeyId p) x (sp_Sig p)) set_string);
   ("sig", on_field sp_Sig (λ x p, mkSigPack (sp_KeyId p) (sp_Msg p) x) set_string)].

(** The packet of a signature operation, [None] on an error. *)
Definition parse_packet (j : json) : option (list sig_pack) :=
  match set_struct [("packet", set_slice (set_struct pack_fields) (mkSigPack "" "" ""))] j [] with
  | (packet, true) => Some packet
  | (_, false) => None
  end.

(** ** The chain at a block *)

Record tss_block := mkTssBlock {
  tb_number : Z;
  tb_version : Version;
  tb_rotation : bool;
  tb_suspended : bool;
  tb_elections : list ElectionResult;
  tb_indexHeight : Z;
  (** whether contract outputs and signatures are indexed on this network *)
  tb_indexed : bool;
  tb_btcContract : string;
}.

Record tss_state := mkTssState { ts_keys : keydb; ts_requests : requestdb; ts_commitments : commitmentdb }.

Definition set_keys (keys : keydb) (s : tss_state) : tss_state := mkTssState keys (ts_requests s) (ts_commitments s).
Definition set_requests (requests : requestdb) (s : tss_state) : tss_state := mkTssState (ts_keys s) requests (ts_commitments s).

Definition key_row (r : key_read) : TssKey := match r with KeyFound key => key | _ => zero_key end.

Definition with_status (status : string) (k : TssKey) : TssKey :=
  mkTssKey (tk_Id k) status (tk_PublicKey k) (tk_Owner k) (tk_Algo k) (tk_CreatedHeight k) (tk_Epoch k) (tk_Epochs k) (tk_ExpiryEpoch k)
    (tk_DeprecatedHeight k) (tk_SignatureVerified k).

Definition with_expiry (expiry : Z) (k : TssKey) : TssKey :=
  mkTssKey (tk_Id k) (tk_Status k) (tk_PublicKey k) (tk_Owner k) (tk_Algo k) (tk_CreatedHeight k) (tk_Epoch k) (tk_Epochs k) expiry
    (tk_DeprecatedHeight k) (tk_SignatureVerified k).

Definition with_epoch (epoch : Z) (k : TssKey) : TssKey :=
  mkTssKey (tk_Id k) (tk_Status k) (tk_PublicKey k) (tk_Owner k) (tk_Algo k) (tk_CreatedHeight k) epoch (tk_Epochs k) (tk_ExpiryEpoch k)
    (tk_DeprecatedHeight k) (tk_SignatureVerified k).

Definition with_deprecated (height : Z) (k : TssKey) : TssKey :=
  mkTssKey (tk_Id k) (tk_Status k) (tk_PublicKey k) (tk_Owner k) (tk_Algo k) (tk_CreatedHeight k) (tk_Epoch k) (tk_Epochs k) (tk_ExpiryEpoch k)
    height (tk_SignatureVerified k).

(** ** Operations of a contract's output *)

Definition is_live (status : string) : bool := String.eqb status "active" || String.eqb status "deprecated".

Definition renew_key (electionEpoch epochs : Z) (key : TssKey) : TssKey :=
  let maxExpiry := electionEpoch +u64 MaxKeyEpochs in
  let newExpiry := electionEpoch +u64 epochs in
  let key := with_expiry (if maxExpiry <? newExpiry then maxExpiry else newExpiry) key in
  if String.eqb (tk_Status key) "deprecated" then with_deprecated 0 (with_status "active" key) else key.

(** [err] is whether the read of the key fails. *)
Definition apply_tss_op (b : tss_block) (err : bool) (op : TssOp) (s : tss_state) : tss_state :=
  if String.eqb (to_Type op) "create" then
    match FindKey err (to_KeyId op) (ts_keys s) with
    | KeyMissing => set_keys (InsertKey (to_KeyId op) (to_Args op) (to_Epochs op) (ts_keys s)) s
    | _ => s
    end
  else if String.eqb (to_Type op) "renew" then
    match FindKey err (to_KeyId op) (ts_keys s) with
    | KeyFound key =>
        if (0 <? to_Epochs op) && is_live (tk_Status key) then
          match GetElectionByHeight (tb_number b) (tb_elections b) with
          | Some electionData => set_keys (SetKey (renew_key (el_Epoch electionData) (to_Epochs op) key) (ts_keys s)) s
          | None => s
          end
        else s
    | _ => s
    end
  else if String.eqb (to_Type op) "sign" then set_requests (SetSignedRequest (to_KeyId op) (to_Args op) (ts_requests s)) s
  else s.

(** The operations of one output; those of the results follow the legacy ones. *)
Definition ingest_tss_ops (b : tss_block) (errs : nat → bool) (legacy : list TssOp) (results : list (list TssOp)) (s : tss_state) : tss_state :=
  if tb_indexed b
  then foldl (λ s iop, apply_tss_op b (errs iop.1) iop.2 s) s (imap pair (legacy ++ concat results))
  else s.

(** ** The lifecycle pass *)

Definition deprecate (b : tss_block) (db : keydb) (k : TssKey) : keydb :=
  let k := with_status "deprecated" k in
  SetKey (if KeyRetirementEnabled then with_deprecated (wrap64 (tb_number b)) k else k) db.

Definition retire (db : keydb) (k : TssKey) : keydb := SetKey (with_status "retired" k) db.

(** [scanErr] is whether the scans fail. *)
Definition key_lifecycle (b : tss_block) (scanErr : bool) (s : tss_state) : tss_state :=
  if negb (TssKeyLifecycleActive (tb_version b)) || negb (tb_suspended b) then
    let keys :=
      match GetElectionByHeight (tb_number b) (tb_elections b) with
      | Some electionData =>
          if scanErr then ts_keys s else foldl (deprecate b) (ts_keys s) (FindDeprecatingKeys (el_Epoch electionData) (ts_keys s))
      | None => ts_keys s
      end in
    let keys :=
      if KeyRetirementEnabled && negb scanErr then foldl retire keys (FindNewlyRetired (tb_number b) keys) else keys in
    set_keys keys s
  else s.

(** The migration at the start of a node. *)
Definition init_keys (s : tss_state) : tss_state := set_keys (DeprecateLegacyKeys (ts_keys s)) s.

(** ** The check signature of a vault *)

Section chain.
Context {btc : BtcLib} {sigs : SigLib} {hash : CommitmentHash} {sig : Type} {bls : BlsLib sig}.

Definition vaultCheckSigDigest (b : tss_block) (keyId pubKeyHex : string) : option (list Z) :=
  if String.eqb (tb_btcContract b) "" || negb (HasPrefix keyId (tb_btcContract b +:+ "-")) then None
  else if negb (tb_rotation b) then None
  else
    gen ← VaultGenFromKeyId (tb_btcContract b) keyId;
    pub ← hex_decode pubKeyHex;
    if negb (length pub =? 33)%nat then None else Some (CheckSigMessage keyId gen pub).

Definition maybeEnqueueVaultCheckSig (b : tss_block) (keyInfo : TssKey) (requests : requestdb) : requestdb :=
  match vaultCheckSigDigest b (tk_Id keyInfo) (tk_PublicKey keyInfo) with
  | Some m => SetSignedRequest (tk_Id keyInfo) (hex_encode m) requests
  | None => requests
  end.

Definition maybeMarkVaultCheckSig (b : tss_block) (keyId : string) (key : TssKey) (msg : list Z) (keys : keydb) : keydb :=
  match vaultCheckSigDigest b keyId (tk_PublicKey key) with
  | Some m => if bool_decide (msg = m) then SetSignatureVerified keyId keys else keys
  | None => keys
  end.

(** ** Signatures *)

(** The checks of the ECDSA branch. *)
Definition ecdsa_accepts (pub msg sigBytes : list Z) : bool :=
  ParsePubKey pub && ParseDERSignature sigBytes && negb (IsOverHalfOrder sigBytes) && ecdsa_Verify pub msg sigBytes.

(** A signature of a key, whichever its curve; [None] is a panic: the library panics
    on a key of another length. *)
Definition sig_accepts (key : TssKey) (msg : list Z) (sigBytes pub : list Z) : option bool :=
  if String.eqb (tk_Algo key) "ecdsa" then Some (ecdsa_accepts pub msg sigBytes)
  else if String.eqb (tk_Algo key) "eddsa" then
    if (length pub =? 32)%nat then Some (ed25519_Verify pub msg sigBytes) else None
  else Some false.

(** One signature of the packet; [err] is whether the read of its key fails.  A key
    read for an earlier one is not read again. *)
Definition process_pack (b : tss_block) (err : bool) (sp : sig_pack) (cache : gmap string TssKey) (s : tss_state)
    : option (gmap string TssKey * tss_state) :=
  let found :=
    match cache !! sp_KeyId sp with
    | Some key => Some (key, cache)
    | None =>
        match FindKey err (sp_KeyId sp) (ts_keys s) with
        | KeyFound key => if String.eqb (tk_Status key) "active" then Some (key, <[sp_KeyId sp := key]> cache) else None
        | _ => None
        end
    end in
  match found with
  | None => Some (cache, s)
  | Some (key, cache) =>
      match hex_decode (tk_PublicKey key), hex_decode (sp_Sig sp) with
      | Some pub, Some sigBytes =>
          let msgBytes := hex_prefix (sp_Msg sp) in
          verified ← sig_accepts key msgBytes sigBytes pub;
          if negb verified then Some (cache, s)
          else
            let requests := UpdateRequest (mkTssRequest SignComplete (sp_KeyId sp) (sp_Msg sp) (sp_Sig sp)) (ts_requests s) in
            let keys :=
              if String.eqb (tk_Algo key) "ecdsa" then maybeMarkVaultCheckSig b (sp_KeyId sp) key msgBytes (ts_keys s) else ts_keys s in
            Some (cache, mkTssState keys requests (ts_commitments s))
      | _, _ => Some (cache, s)
      end
  end.

Fixpoint process_packs (b : tss_block) (errs : nat → bool) (i : nat) (packs : list sig_pack) (cache : gmap string TssKey) (s : tss_state)
    : option tss_state :=
  match packs with
  | [] => Some s
  | sp :: packs => '(cache, s) ← process_pack b (errs i) sp cache s; process_packs b errs (S i) packs cache s
  end.

Definition tss_sign (b : tss_block) (errs : nat → bool) (j : json) (s : tss_state) : option tss_state :=
  if negb (tb_indexed b) then Some s
  else match parse_packet j with Some packs => process_packs b errs 0 packs ∅ s | None => Some s end.

(** ** Commitments *)

Definition committee_keys (el : ElectionResult) : list string := em_Key <$> el_Members el.

(** The members that signed a commitment, if its circuit verifies and they carry the
    quorum of the committee in force at its height. *)
Definition commitment_signers (b : tss_block) (c : SignedCommitment) : option (ElectionResult * list string) :=
  let base := cm_base c in
  if cm_BlockHeight base +u64 TSS_COMMITMENT_MAX_STALENESS <=? tb_number b then None
  else
    electionData ← GetElectionByHeight (cm_BlockHeight base) (tb_elections b);
    if bool_decide (el_Members electionData = []) then None
    else
      cid ← commitment_cid base;
      circuit ← DeserializeBlsCircuit (mkSerializedCircuit (cm_Signature c) (cm_BitSet c)) (committee_keys electionData) cid;
      '(verified, includedDIDs) ← circuit_Verify circuit;
      if negb verified then None
      else if negb (BlsQuorumMet includedDIDs (el_Members electionData) (el_Weights electionData) (BlsWeightDedupActive (tb_version b))) then None
      else Some (electionData, includedDIDs).

Definition activate (b : tss_block) (base : BaseCommitment) (pub : string) (k : TssKey) : TssKey :=
  mkTssKey (tk_Id k) "active" pub (tk_Owner k) (tk_Algo k) (wrap64 (tb_number b)) (cm_Epoch base) (tk_Epochs k)
    (if 0 <? tk_Epochs k then cm_Epoch base +u64 tk_Epochs k else tk_ExpiryEpoch k) (tk_DeprecatedHeight k) (tk_SignatureVerified k).

(** The commitment's effect on its key; [err1] and [err2] are whether its two reads
    fail. *)
Definition commit_key (b : tss_block) (err1 err2 : bool) (base : BaseCommitment) (s : tss_state) : tss_state :=
  let newKey := String.eqb (tk_Status (key_row (FindKey err1 (cm_KeyId base) (ts_keys s)))) "created" in
  if String.eqb (cm_Type base) "keygen" || String.eqb (cm_Type base) "reshare" then
    let keyInfo := key_row (FindKey err2 (cm_KeyId base) (ts_keys s)) in
    if newKey then
      match cm_PublicKey base with
      | Some pub =>
          let keyInfo := activate b base pub keyInfo in
          mkTssState (SetKey keyInfo (ts_keys s)) (maybeEnqueueVaultCheckSig b keyInfo (ts_requests s)) (ts_commitments s)
      | None => s
      end
    else if String.eqb (cm_Type base) "keygen" && tb_rotation b then s
    else if cm_Epoch base <=? tk_Epoch keyInfo then s
    else
      let keyInfo := with_epoch (cm_Epoch base) keyInfo in
      let keyInfo :=
        if TssKeyLifecycleActive (tb_version b) && String.eqb (cm_Type base) "reshare" && (0 <? tk_Epochs keyInfo)
        then with_expiry (cm_Epoch base +u64 tk_Epochs keyInfo) keyInfo else keyInfo in
      set_keys (SetKey keyInfo (ts_keys s)) s
  else s.

Definition commitment_row (txId : string) (c : SignedCommitment) : TssCommitment :=
  let base := cm_base c in
  mkTssCommitment (cm_Type base) (cm_BlockHeight base) (cm_Epoch base) (cm_Commitment base) (cm_KeyId base) txId (cm_PublicKey base) (cm_BitSet c).

Definition process_commitment (b : tss_block) (txId : string) (err1 err2 : bool) (c : SignedCommitment) (s : tss_state) : tss_state :=
  match commitment_signers b c with
  | None => s
  | Some _ =>
      if tb_number b <=? tb_indexHeight b then s
      else commit_key b err1 err2 (cm_base c)
             (mkTssState (ts_keys s) (ts_requests s) (SetCommitmentData (commitment_row txId c) (ts_commitments s)))
  end.

Definition tss_commitment (b : tss_block) (txId : string) (errs : nat → bool * bool) (j : json) (s : tss_state) : tss_state :=
  match parse_commitments j with
  | None => s
  | Some commitments =>
      if (MAX_TSS_COMMITMENTS_PER_TX <? length commitments)%nat && TssCommitmentBundleCapActive (tb_version b) then s
      else foldl (λ s ic, process_commitment b txId (errs ic.1).1 (errs ic.1).2 ic.2 s) s (imap pair commitments)
  end.

(** ** Steps *)

(** What changes the three collections, in blocks of a kind.  The last three steps are
    local to a node: its start, the revival of failed requests, and a request it marks
    failed. *)
Inductive tss_step (known : tss_block → Prop) : tss_state → tss_state → Prop :=
| step_ops b errs legacy results s : known b → tss_step known s (ingest_tss_ops b errs legacy results s)
| step_lifecycle b scanErr s : known b → tss_step known s (key_lifecycle b scanErr s)
| step_sign b errs j s s' : known b → tss_sign b errs j s = Some s' → tss_step known s s'
| step_commitment b txId errs j s : known b → tss_step known s (tss_commitment b txId errs j s)
| step_init s : tss_step known s (init_keys s)
| step_revive keyErr s : tss_step known s (set_requests (FindUnsignedRequests keyErr (ts_keys s) (ts_requests s)).2 s)
| step_failed keyId msg sigText s : tss_step known s (set_requests (UpdateRequest (mkTssRequest SignFailed keyId msg sigText) (ts_requests s)) s).

(** A run through such blocks, and one through any blocks. *)
Definition tss_run_of (known : tss_block → Prop) : tss_state → tss_state → Prop := rtc (tss_step known).
Definition tss_run : tss_state → tss_state → Prop := tss_run_of (λ _, True).

(** ** Evolution of a key *)

(** What a step keeps of a row. *)
Record evolves (k k' : TssKey) : Prop := {
  ev_id : tk_Id k' = tk_Id k;
  ev_algo : tk_Algo k' = tk_Algo k;
  ev_verified : tk_SignatureVerified k = true → tk_SignatureVerified k' = true;
  ev_live : is_live (tk_Status k) = true →
    is_live (tk_Status k') = true ∧ tk_PublicKey k' = tk_PublicKey k ∧ tk_CreatedHeight k' = tk_CreatedHeight k ∧ tk_Epoch k <= tk_Epoch k';
}.

#[local] Instance evolves_preorder : PreOrder evolves.
Proof.
  split; [intros k; by split|]. intros a b c [H1 H2 H3 H4] [G1 G2 G3 G4]. split; [congruence|congruence|auto|].
  intros Hl. destruct (H4 Hl) as (L & ? & ? & ?). destruct (G4 L) as (? & ? & ? & ?). split_and!; [done|congruence|congruence|lia].
Qed.

(** The row with the empty id is the one an update of an unread key writes to. *)
Definition keys_evolve (db db' : keydb) : Prop := ∀ id k, id ≠ "" → db !! id = Some k → ∃ k', db' !! id = Some k' ∧ evolves k k'.

#[local] Instance keys_evolve_preorder : PreOrder keys_evolve.
Proof.
  split; [intros db id k _ Hk; by exists k|]. intros a b c H1 H2 id k Hid Hk.
  destruct (H1 id k Hid Hk) as (k1 & Hk1 & E1). destruct (H2 id k1 Hid Hk1) as (k2 & Hk2 & E2). exists k2. split; [done|]. by etrans.
Qed.

(** An update keeps a row if what it writes does. *)
Lemma SetKey_evolve key db :
  (∀ k, tk_Id key ≠ "" → db !! tk_Id key = Some k → is_live (tk_Status k) = true →
     is_live (tk_Status key) = true ∧ tk_PublicKey key = tk_PublicKey k ∧ tk_CreatedHeight key = tk_CreatedHeight k ∧ tk_Epoch k <= tk_Epoch key) →
  keys_evolve db (SetKey key db).
Proof.
  intros Hkey id k Hid Hk. destruct (SetKey_lookup key db id) as [E|(-> & k' & Hk' & E)]; rewrite E; [by exists k|].
  rewrite Hk in Hk'. injection Hk' as <-. eexists. split; [done|]. split; [done|done|done|]. intros Hl. by apply Hkey.
Qed.

Lemma SetKey_verified key db id k' :
  SetKey key db !! id = Some k' → tk_SignatureVerified k' = true → ∃ k, db !! id = Some k ∧ tk_SignatureVerified k = true.
Proof.
  destruct (SetKey_lookup key db id) as [E|(-> & k & Hk & E)]; rewrite E; [by exists k'|]. intros [= <-] Hv. by exists k.
Qed.

Section invariant.
Context (known : tss_block → Prop).

(** A committee has agreed on a commitment: an aggregate for some of its seats, which
    the text and the bits of the commitment encode, verifies over the CID of the
    commitment, and their keys carry two thirds of the weight of the committee in
    force at its height in a block of the run. *)
Definition weights_fit (el : ElectionResult) : Prop := Forall (λ w, 0 <= w) (el_Weights el) ∧ zsum (el_Weights el) <= MaxUint64.

Definition quorum_signed (c : SignedCommitment) : Prop :=
  ∃ b el cid (circuit : BlsCircuit sig),
    known b ∧ GetElectionByHeight (cm_BlockHeight (cm_base c)) (tb_elections b) = Some el ∧ commitment_cid (cm_base c) = Some cid ∧
    bc_keyset circuit = committee_keys el ∧ sig_Deserialize (b64_decode url_value (cm_Signature c)).1 = Some (bc_aggSigs circuit) ∧
    bc_bitVector circuit = SetBytes (b64_decode url_value (cm_BitSet c)).1 ∧
    bls_VerifyAgg (IncludedDIDs circuit) cid (bc_aggSigs circuit) = Some true ∧
    (weights_fit el → two_thirds_signed (el_Members el) (el_Weights el) (BlsWeightDedupActive (tb_version b)) (list_to_set (IncludedDIDs circuit))).

Lemma signers_quorum b c el included : known b → commitment_signers b c = Some (el, included) → quorum_signed c.
Proof.
  intros Hb Hc. unfold commitment_signers in Hc. destruct (_ <=? _); [done|]. destruct (GetElectionByHeight _ _) as [el'|] eqn:Hel; [|done].
  cbn [mbind option_bind] in Hc. destruct (bool_decide _); [done|]. destruct (commitment_cid _) as [cid|] eqn:Hcid; [|done]. cbn [mbind option_bind] in Hc.
  destruct (DeserializeBlsCircuit _ _ _) as [circuit|] eqn:Hd; [|done]. cbn [mbind option_bind] in Hc.
  destruct (circuit_Verify circuit) as [[[] inc]|] eqn:Hv; [|done..]. cbn [mbind option_bind negb] in Hc.
  destruct (BlsQuorumMet _ _ _ _) eqn:Hq; [|done]. cbn [negb] in Hc. injection Hc as -> ->. exists b, el, cid, circuit.
  pose proof (deserialize_fields _ _ _ _ Hd) as [Hkeys Hmsg].
  assert (included = IncludedDIDs circuit ∧ bls_VerifyAgg (IncludedDIDs circuit) cid (bc_aggSigs circuit) = Some true) as [-> Hagg].
  { unfold circuit_Verify in Hv. cbv zeta in Hv. destruct (forallb _ _); [|done]. cbn [negb] in Hv. destruct (bool_decide _); [done|].
    rewrite Hmsg in Hv. destruct (bls_VerifyAgg _ _ _) as [v|]; [|done]. cbn in Hv. by simplify_eq. }
  unfold DeserializeBlsCircuit in Hd. cbn [sc_BitVector sc_Signature] in Hd. destruct (b64_decode url_value (cm_BitSet c)) as [bv []]; [|done].
  destruct (b64_decode url_value (cm_Signature c)) as [sb []]; [|done]. cbn [negb] in Hd. destruct (_ =? _)%nat; [|done]. cbn [negb] in Hd.
  destruct (sig_Deserialize sb) as [sg|] eqn:Hsg; [|done]. injection Hd as <-. split_and!; try done. intros [Hnn Hfit].
  assert (length (el_Members el) = length (el_Weights el)) as Hlen.
  { unfold BlsQuorumMet in Hq. destruct (Nat.eqb_spec (length (el_Members el)) (length (el_Weights el))) as [|Hn]; [done|].
    rewrite orb_true_r in Hq. done. }
  by apply quorum_two_thirds.
Qed.

Definition approved (id pub : string) : Prop :=
  ∃ c, quorum_signed c ∧ cm_KeyId (cm_base c) = id ∧ cm_PublicKey (cm_base c) = Some pub.

(** What the operations on keys that do not concern the flag do. *)
Definition plain_update (db db' : keydb) : Prop :=
  keys_ok db →
  keys_ok db' ∧ keys_evolve db db' ∧
  (∀ id k', db' !! id = Some k' → tk_SignatureVerified k' = true → ∃ k, db !! id = Some k ∧ tk_SignatureVerified k = true) ∧
  (∀ id k', id ≠ "" → db' !! id = Some k' → is_live (tk_Status k') = true →
     (∃ k, db !! id = Some k ∧ is_live (tk_Status k) = true) ∨ approved id (tk_PublicKey k')).

#[local] Instance plain_update_preorder : PreOrder plain_update.
Proof.
  split.
  - intros db Hok. split_and!; [done|done|by eauto|by eauto].
  - intros a b c H1 H2 Ha. destruct (H1 Ha) as (Hb & E1 & V1 & L1). destruct (H2 Hb) as (Hc & E2 & V2 & L2). split_and!; [done|by etrans| |].
    + intros id k' Hk' Hv. destruct (V2 id k' Hk' Hv) as (k & Hk & Hvk). by apply (V1 id k).
    + intros id k' Hid Hk' Hl. destruct (L2 id k' Hid Hk' Hl) as [(k & Hk & Hlk)|]; [|by right].
      destruct (L1 id k Hid Hk Hlk) as [|Hap]; [by left|]. right. destruct (E2 id k Hid Hk) as (k2 & Hk2 & Hev).
      rewrite Hk' in Hk2. injection Hk2 as <-. destruct (ev_live _ _ Hev Hlk) as (_ & -> & _). done.
Qed.

Lemma SetKey_plain key db :
  (keys_ok db → ∀ k, tk_Id key ≠ "" → db !! tk_Id key = Some k →
     (is_live (tk_Status k) = true →
        is_live (tk_Status key) = true ∧ tk_PublicKey key = tk_PublicKey k ∧ tk_CreatedHeight key = tk_CreatedHeight k ∧ tk_Epoch k <= tk_Epoch key) ∧
     (is_live (tk_Status key) = true → is_live (tk_Status k) = true ∨ approved (tk_Id key) (tk_PublicKey key))) →
  plain_update db (SetKey key db).
Proof.
  intros Hkey Hok. split_and!; [by apply SetKey_ok| |intros id k'; apply SetKey_verified|].
  - apply SetKey_evolve. intros k Hid Hk. by apply Hkey.
  - intros id k' Hid. destruct (SetKey_lookup key db id) as [E|(-> & k & Hk & E)]; rewrite E; [by eauto|]. intros [= <-] Hl.
    destruct (Hkey Hok k Hid Hk) as [_ [|]]; [done|left; by exists k|by right].
Qed.

(** ** The operations on keys *)

Lemma FindKey_found err id db k : FindKey err id db = KeyFound k → db !! id = Some k.
Proof. unfold FindKey. destruct err; [done|]. destruct (db !! id); [by intros [= <-]|done]. Qed.

Lemma key_row_cases err id db : key_row (FindKey err id db) = zero_key ∨ ∃ k, db !! id = Some k ∧ key_row (FindKey err id db) = k.
Proof. unfold FindKey. destruct err; [by left|]. destruct (db !! id) as [k|]; [right; by exists k|by left]. Qed.

Lemma insert_plain err id algo epochs db : FindKey err id db = KeyMissing → plain_update db (InsertKey id algo epochs db).
Proof.
  intros Hm. assert (db !! id = None) as Hnone by (unfold FindKey in Hm; destruct err; [done|]; by destruct (db !! id)).
  intros Hok. split_and!.
  - intros i k'. destruct (InsertKey_lookup id algo epochs db i) as [->|(-> & _ & k & -> & Hk & _)]; [apply Hok|]. by intros [= <-].
  - intros i k _ Hk. destruct (InsertKey_lookup id algo epochs db i) as [->|(-> & _)]; [by exists k|congruence].
  - intros i k' Hk' Hv. unfold InsertKey in Hk'. destruct (negb _); [by exists k'|]. rewrite Hnone in Hk'.
    apply lookup_insert_Some in Hk' as [[_ <-]|[_ ?]]; [done|by exists k'].
  - intros i k' _. destruct (InsertKey_lookup id algo epochs db i) as [->|(-> & _ & k & -> & _ & Hs)]; [by eauto|].
    intros [= <-]. by rewrite Hs.
Qed.

Lemma renew_fields epoch epochs k :
  tk_Id (renew_key epoch epochs k) = tk_Id k ∧ tk_PublicKey (renew_key epoch epochs k) = tk_PublicKey k ∧
  tk_CreatedHeight (renew_key epoch epochs k) = tk_CreatedHeight k ∧ tk_Epoch (renew_key epoch epochs k) = tk_Epoch k ∧
  (is_live (tk_Status k) = true → is_live (tk_Status (renew_key epoch epochs k)) = true).
Proof. unfold renew_key. cbv zeta. cbn [with_expiry tk_Status]. by destruct (String.eqb (tk_Status k) "deprecated"). Qed.

Lemma op_plain b err op s : plain_update (ts_keys s) (ts_keys (apply_tss_op b err op s)).
Proof.
  unfold apply_tss_op. destruct (String.eqb _ "create").
  { destruct (FindKey err _ _) eqn:Hf; [by eapply insert_plain|done..]. }
  destruct (String.eqb _ "renew"); [|by destruct (String.eqb _ "sign")].
  destruct (FindKey err _ _) as [| |key] eqn:Hf; [done..|]. destruct (_ && _) eqn:Hl; [|done].
  destruct (GetElectionByHeight _ _) as [el|]; [|done]. apply FindKey_found in Hf. apply SetKey_plain.
  intros Hok k _. destruct (renew_fields (el_Epoch el) (to_Epochs op) key) as (-> & -> & -> & -> & Hlive).
  rewrite (Hok _ _ Hf). rewrite Hf. intros [= <-]. apply andb_true_iff in Hl as [_ Hl].
  split; [intros _; split_and!; [by apply Hlive|done|done|lia]|by left].
Qed.

(** A row read before agrees with the row there is. *)
Definition agrees (db : keydb) (x : TssKey) : Prop :=
  ∀ k, db !! tk_Id x = Some k → tk_PublicKey x = tk_PublicKey k ∧ tk_CreatedHeight x = tk_CreatedHeight k ∧ tk_Epoch x = tk_Epoch k ∧
    is_live (tk_Status k) = true.

Lemma deprecate_row b db x : deprecate b db x = SetKey (with_status "deprecated" x) db.
Proof. done. Qed.

Lemma deprecate_fold b l db : Forall (agrees db) l → plain_update db (foldl (deprecate b) db l).
Proof.
  revert db. induction l as [|x l IH]; intros db Hall; cbn [foldl]; [done|]. apply Forall_cons in Hall as [Hx Hall].
  assert (plain_update db (deprecate b db x)) as Hp.
  { rewrite deprecate_row. apply SetKey_plain. cbn [with_status tk_Id tk_Status tk_PublicKey tk_CreatedHeight tk_Epoch].
    intros _ k _ Hk. destruct (Hx k Hk) as (-> & -> & -> & Hl). split; [intros _; split_and!; [done|done|done|lia]|by left]. }
  etrans; [exact Hp|]. apply IH. eapply Forall_impl; [exact Hall|]. intros y Hy k. rewrite deprecate_row.
  destruct (SetKey_lookup (with_status "deprecated" x) db (tk_Id y)) as [->|(E & k0 & Hk0 & ->)]; [apply Hy|].
  cbn [with_status tk_Id] in E. intros [= <-]. cbn. destruct (Hy k0 Hk0) as (-> & -> & -> & _).
  destruct (Hx k0) as (-> & -> & -> & _); [by rewrite <- E|done].
Qed.

Lemma lifecycle_plain b scanErr s : plain_update (ts_keys s) (ts_keys (key_lifecycle b scanErr s)).
Proof.
  unfold key_lifecycle. destruct (_ || _); [|done]. cbn [KeyRetirementEnabled andb set_keys ts_keys].
  destruct (GetElectionByHeight _ _) as [el|]; [|done]. destruct scanErr; [done|]. intros Hok.
  apply deprecate_fold; [|done]. apply Forall_forall. intros x Hx. unfold FindDeprecatingKeys, key_rows in Hx.
  apply list_elem_of_filter in Hx as [[Hst _] Hx]. apply list_elem_of_fmap in Hx as ([id y] & -> & Hy%elem_of_map_to_list). cbn [snd] in *.
  intros k. rewrite (Hok _ _ Hy), Hy. intros [= <-]. by rewrite Hst.
Qed.

Lemma init_plain s : plain_update (ts_keys s) (ts_keys (init_keys s)).
Proof.
  intros Hok. unfold init_keys, DeprecateLegacyKeys. cbn [set_keys ts_keys]. split_and!.
  - intros id k'. rewrite lookup_fmap. intros (k & Hk & ->)%fmap_Some. rewrite <- (Hok _ _ Hk). unfold deprecate_legacy. by destruct (_ && _).
  - intros id k _ Hk. exists (deprecate_legacy k). rewrite lookup_fmap, Hk. split; [done|]. unfold deprecate_legacy. by destruct (_ && _).
  - intros id k'. rewrite lookup_fmap. intros (k & Hk & ->)%fmap_Some Hv. exists k. split; [done|]. revert Hv. unfold deprecate_legacy. by destruct (_ && _).
  - intros id k' _. rewrite lookup_fmap. intros (k & Hk & ->)%fmap_Some Hl. left. exists k. split; [done|]. revert Hl. unfold deprecate_legacy.
    destruct (String.eqb_spec (tk_Status k) "active") as [->|]; [done|]. done.
Qed.

Lemma commit_plain b err1 err2 c s :
  quorum_signed c → plain_update (ts_keys s) (ts_keys (commit_key b err1 err2 (cm_base c) s)).
Proof.
  intros Hq. set (base := cm_base c). unfold commit_key. cbv zeta. destruct (String.eqb (cm_Type base) "keygen" || String.eqb (cm_Type base) "reshare"); [|done].
  destruct (String.eqb_spec (tk_Status (key_row (FindKey err1 (cm_KeyId base) (ts_keys s)))) "created") as [Hnew|].
  - destruct (cm_PublicKey base) as [pub|] eqn:Hpub; [|done]. cbn [ts_keys]. apply SetKey_plain. intros Hok k Hid.
    destruct (key_row_cases err1 (cm_KeyId base) (ts_keys s)) as [E|(k1 & Hk1 & E)]; rewrite E in Hnew; [done|].
    destruct (key_row_cases err2 (cm_KeyId base) (ts_keys s)) as [E2|(k2 & Hk2 & E2)]; rewrite E2 in Hid |- *; [done|].
    cbn [activate tk_Id tk_PublicKey]. rewrite (Hok _ _ Hk2), Hk1. intros [= <-]. rewrite Hnew. split; [done|]. intros _. right. by exists c.
  - destruct (_ && tb_rotation b); [done|]. destruct (Z.leb_spec (cm_Epoch base) (tk_Epoch (key_row (FindKey err2 (cm_KeyId base) (ts_keys s))))) as [|Hep]; [done|].
    cbn [set_keys ts_keys]. set (k' := if _ : bool then _ else _).
    apply SetKey_plain. intros Hok k.
    assert (tk_Id k' = tk_Id (key_row (FindKey err2 (cm_KeyId base) (ts_keys s))) ∧ tk_Status k' = tk_Status (key_row (FindKey err2 (cm_KeyId base) (ts_keys s))) ∧
            tk_PublicKey k' = tk_PublicKey (key_row (FindKey err2 (cm_KeyId base) (ts_keys s))) ∧
            tk_CreatedHeight k' = tk_CreatedHeight (key_row (FindKey err2 (cm_KeyId base) (ts_keys s))) ∧ tk_Epoch k' = cm_Epoch base) as (-> & -> & -> & -> & ->).
    { unfold k'. by destruct (_ && _). }
    destruct (key_row_cases err2 (cm_KeyId base) (ts_keys s)) as [E2|(k2 & Hk2 & E2)]; rewrite E2 in *; [done|].
    intros _. rewrite (Hok _ _ Hk2), Hk2. intros [= <-]. split; [intros Hl; split_and!; [done|done|done|lia]|by left].
Qed.

(** ** The invariant *)

(** A request that carries a signature of its key. *)
Definition genuine (keys : keydb) (r : TssRequest) : Prop :=
  ∃ k pub sg, keys !! tr_KeyId r = Some k ∧ is_live (tk_Status k) = true ∧ hex_decode (tk_PublicKey k) = Some pub ∧
    hex_decode (tr_Sig r) = Some sg ∧ sig_accepts k (hex_prefix (tr_Msg r)) sg pub = Some true.

(** A key that signed the check message of its generation. *)
Definition check_signed (id : string) (k : TssKey) : Prop :=
  ∃ contractId gen pub sg, VaultGenFromKeyId contractId id = Some gen ∧ hex_decode (tk_PublicKey k) = Some pub ∧
    ecdsa_accepts pub (CheckSigMessage id gen pub) sg = true.

Record tss_ok (s : tss_state) : Prop := {
  ok_keys : keys_ok (ts_keys s);
  ok_live : ∀ id k, id ≠ "" → ts_keys s !! id = Some k → is_live (tk_Status k) = true → approved id (tk_PublicKey k);
  ok_requests : ∀ p r, ts_requests s !! p = Some r →
    p = (tr_KeyId r, tr_Msg r) ∧ (tr_KeyId r ≠ "" → tr_Status r = SignComplete → genuine (ts_keys s) r);
  ok_verified : ∀ id k, id ≠ "" → ts_keys s !! id = Some k → tk_SignatureVerified k = true → is_live (tk_Status k) = true ∧ check_signed id k;
}.

Lemma genuine_evolve keys keys' r : tr_KeyId r ≠ "" → keys_evolve keys keys' → genuine keys r → genuine keys' r.
Proof.
  intros Hid Hev (k & pub & sg & Hk & Hl & Hp & Hs & Ha). destruct (Hev _ _ Hid Hk) as (k' & Hk' & [_ Halgo _ Hlive]).
  destruct (Hlive Hl) as (Hl' & Hpk & _). exists k', pub, sg. rewrite Hpk. split_and!; [done..|]. unfold sig_accepts in *. by rewrite Halgo.
Qed.

(** Requests that are complete afterwards were so before. *)
Definition requests_kept (db db' : requestdb) : Prop :=
  ∀ p r', db' !! p = Some r' →
    db !! p = Some r' ∨ (tr_Status r' ≠ SignComplete ∧ (p = (tr_KeyId r', tr_Msg r') ∨ ∃ r, db !! p = Some r ∧ tr_KeyId r = tr_KeyId r' ∧ tr_Msg r = tr_Msg r')).

Lemma tss_ok_plain s s' :
  tss_ok s → plain_update (ts_keys s) (ts_keys s') → requests_kept (ts_requests s) (ts_requests s') → tss_ok s'.
Proof.
  intros [Hk Hl Hr Hv] Hp Hq. destruct (Hp Hk) as (Hk' & Hev & Hver & Hlive). split; [done|..].
  - intros id k' Hid Hk'' Hl'. destruct (Hlive id k' Hid Hk'' Hl') as [(k & Hkk & Hlk)|]; [|done].
    destruct (Hev id k Hid Hkk) as (k2 & Hk2 & [_ _ _ He]). rewrite Hk'' in Hk2. injection Hk2 as <-.
    destruct (He Hlk) as (_ & -> & _). by apply (Hl id k).
  - intros p r' Hr'. destruct (Hq p r' Hr') as [Hold|(Hne & Hkey)].
    + destruct (Hr p r' Hold) as [-> Hg]. split; [done|]. intros Hid Hc. eapply genuine_evolve; [done|done|by apply Hg].
    + split; [|done]. destruct Hkey as [|(r & Hr0 & E1 & E2)]; [done|]. rewrite <- E1, <- E2. by apply Hr.
  - intros id k' Hid Hk'' Hv'. destruct (Hver id k' Hk'' Hv') as (k & Hkk & Hvk). destruct (Hv id k Hid Hkk Hvk) as [Hlk Hc].
    destruct (Hev id k Hid Hkk) as (k2 & Hk2 & [_ _ _ He]). rewrite Hk'' in Hk2. injection Hk2 as <-.
    destruct (He Hlk) as (Hl' & Hpk & _). split; [done|]. unfold check_signed. by rewrite Hpk.
Qed.

Lemma requests_same db : requests_kept db db.
Proof. intros p r. by left. Qed.

Lemma SetSignedRequest_kept keyId msg db : requests_kept db (SetSignedRequest keyId msg db).
Proof.
  intros p r. unfold SetSignedRequest. destruct (db !! (keyId, msg)); [by left|].
  intros [[<- <-]|[_ ?]]%lookup_insert_Some; [right; split; [done|by left]|by left].
Qed.

Lemma enqueue_kept b k db : requests_kept db (maybeEnqueueVaultCheckSig b k db).
Proof. unfold maybeEnqueueVaultCheckSig. destruct (vaultCheckSigDigest _ _ _); [apply SetSignedRequest_kept|apply requests_same]. Qed.

Lemma failed_kept keyId msg sigText db : requests_kept db (UpdateRequest (mkTssRequest SignFailed keyId msg sigText) db).
Proof.
  intros p r. unfold UpdateRequest. cbn [tr_KeyId tr_Msg tr_Status tr_Sig]. destruct (db !! (keyId, msg)) as [r0|] eqn:E; [|by left].
  intros [[<- <-]|[_ ?]]%lookup_insert_Some; [right; split; [done|right; by exists r0]|by left].
Qed.

Lemma revive_kept keyErr keys db : requests_kept db (FindUnsignedRequests keyErr keys db).2.
Proof.
  unfold FindUnsignedRequests. cbn [snd]. destruct keyErr; [apply requests_same|]. intros p r. rewrite lookup_fmap.
  intros (r0 & Hr0 & ->)%fmap_Some. unfold revive. destruct (_ && _); [right; split; [done|right; by exists r0]|by left].
Qed.

Lemma op_kept b err op s : requests_kept (ts_requests s) (ts_requests (apply_tss_op b err op s)).
Proof.
  unfold apply_tss_op. destruct (String.eqb _ "create"); [destruct (FindKey _ _ _); apply requests_same|].
  destruct (String.eqb _ "renew").
  - destruct (FindKey _ _ _) as [| |k]; [apply requests_same..|]. destruct (_ && _); [|apply requests_same].
    destruct (GetElectionByHeight _ _); apply requests_same.
  - destruct (String.eqb _ "sign"); [apply SetSignedRequest_kept|apply requests_same].
Qed.

Lemma ops_ok b (errs : nat → bool) (l : list (nat * TssOp)) s : tss_ok s → tss_ok (foldl (λ s iop, apply_tss_op b (errs iop.1) iop.2 s) s l).
Proof.
  revert s. induction l as [|[i op] l IH]; intros s Hs; cbn [foldl]; [done|]. apply IH. eapply tss_ok_plain; [done|apply op_plain|apply op_kept].
Qed.

Lemma commitment_ok b txId err1 err2 c s : known b → tss_ok s → tss_ok (process_commitment b txId err1 err2 c s).
Proof.
  intros Hb Hs. unfold process_commitment. destruct (commitment_signers b c) as [[el included]|] eqn:Hc; [|done]. destruct (_ <=? _); [done|].
  set (s1 := mkTssState _ _ _). assert (tss_ok s1) as Hs1 by (eapply tss_ok_plain; [exact Hs|done|apply requests_same]).
  eapply tss_ok_plain; [exact Hs1|apply commit_plain; by eapply signers_quorum|]. unfold commit_key. cbv zeta.
  destruct (_ || _); [|apply requests_same]. destruct (String.eqb (tk_Status _) "created").
  - destruct (cm_PublicKey _); [apply enqueue_kept|apply requests_same].
  - destruct (_ && _); [apply requests_same|]. destruct (_ <=? _); apply requests_same.
Qed.

(** ** Signatures *)

(** Marking a key changes nothing but the flag. *)
Definition flag_only (keys keys' : keydb) : Prop :=
  ∀ id, match keys !! id, keys' !! id with
        | Some k, Some k' => tk_Id k' = tk_Id k ∧ tk_Status k' = tk_Status k ∧ tk_PublicKey k' = tk_PublicKey k ∧ tk_Algo k' = tk_Algo k ∧
                             tk_CreatedHeight k' = tk_CreatedHeight k ∧ tk_Epoch k' = tk_Epoch k ∧
                             (tk_SignatureVerified k = true → tk_SignatureVerified k' = true)
        | None, None => True
        | _, _ => False
        end.

Lemma flag_only_refl keys : flag_only keys keys.
Proof. intros id. by destruct (keys !! id). Qed.

Lemma mark_spec b keyId key msg keys :
  let keys' := maybeMarkVaultCheckSig b keyId key msg keys in
  flag_only keys keys' ∧
  ∀ id k', keys' !! id = Some k' → tk_SignatureVerified k' = true →
    (∃ k, keys !! id = Some k ∧ tk_SignatureVerified k = true) ∨ (id = keyId ∧ vaultCheckSigDigest b keyId (tk_PublicKey key) = Some msg).
Proof.
  cbv zeta. unfold maybeMarkVaultCheckSig. destruct (vaultCheckSigDigest _ _ _) as [m|]; [|split; [apply flag_only_refl|by eauto]].
  case_bool_decide as Hm; [|split; [apply flag_only_refl|by eauto]]. subst m. split.
  - intros id. destruct (SetSignatureVerified_lookup keyId keys id) as [->|(-> & k & Hk & ->)]; [by destruct (keys !! id)|]. by rewrite Hk.
  - intros id k'. destruct (SetSignatureVerified_lookup keyId keys id) as [->|(-> & _)]; [by eauto|]. by right.
Qed.

Lemma flag_only_evolve keys keys' : flag_only keys keys' → keys_evolve keys keys'.
Proof.
  intros Hf id k _ Hk. specialize (Hf id). rewrite Hk in Hf. destruct (keys' !! id) as [k'|]; [|done]. exists k'. split; [done|].
  destruct Hf as (E1 & E2 & E3 & E4 & E5 & E6 & E7). split; [done|done|done|]. rewrite E2. intros Hl. split_and!; [done|done|done|lia].
Qed.

(** A key kept while the packet is processed is the one in the collection. *)
Definition cache_ok (cache : gmap string TssKey) (keys : keydb) : Prop :=
  ∀ id key, cache !! id = Some key → ∃ k, keys !! id = Some k ∧ tk_Status k = "active" ∧ tk_PublicKey k = tk_PublicKey key ∧ tk_Algo k = tk_Algo key.

Lemma cache_ok_flag cache keys keys' : flag_only keys keys' → cache_ok cache keys → cache_ok cache keys'.
Proof.
  intros Hf Hc id key Hid. destruct (Hc id key Hid) as (k & Hk & E1 & E2 & E3). specialize (Hf id). rewrite Hk in Hf.
  destruct (keys' !! id) as [k'|]; [|done]. destruct Hf as (_ & F1 & F2 & F3 & _). exists k'. split_and!; congruence.
Qed.

(** A verified signature completes its request. *)
Lemma complete_ok b keyId key msg sigText pub sg s :
  tss_ok s → (∃ k, ts_keys s !! keyId = Some k ∧ tk_Status k = "active" ∧ tk_PublicKey k = tk_PublicKey key ∧ tk_Algo k = tk_Algo key) →
  hex_decode (tk_PublicKey key) = Some pub → hex_decode sigText = Some sg → sig_accepts key (hex_prefix msg) sg pub = Some true →
  let keys := if String.eqb (tk_Algo key) "ecdsa" then maybeMarkVaultCheckSig b keyId key (hex_prefix msg) (ts_keys s) else ts_keys s in
  flag_only (ts_keys s) keys ∧
  tss_ok (mkTssState keys (UpdateRequest (mkTssRequest SignComplete keyId msg sigText) (ts_requests s)) (ts_commitments s)).
Proof.
  intros [Hk Hl Hr Hv] (k & Hkey & Hst & Hpk & Halgo) Hpub Hsg Hacc keys.
  assert (flag_only (ts_keys s) keys ∧
          ∀ id k', keys !! id = Some k' → tk_SignatureVerified k' = true →
            (∃ k, ts_keys s !! id = Some k ∧ tk_SignatureVerified k = true) ∨
            (id = keyId ∧ tk_Algo key = "ecdsa" ∧ vaultCheckSigDigest b keyId (tk_PublicKey key) = Some (hex_prefix msg))) as [Hf Hnew].
  { unfold keys. destruct (String.eqb_spec (tk_Algo key) "ecdsa"); [|split; [apply flag_only_refl|by eauto]].
    destruct (mark_spec b keyId key (hex_prefix msg) (ts_keys s)) as [Hf Hn]. split; [done|]. intros id k' Hk' Hv'. destruct (Hn id k' Hk' Hv') as [|[]]; auto. }
  clearbody keys. split; [done|]. pose proof (flag_only_evolve _ _ Hf) as Hev.
  assert (∀ id k', keys !! id = Some k' → ∃ k, ts_keys s !! id = Some k ∧ tk_Id k' = tk_Id k ∧ tk_Status k' = tk_Status k ∧ tk_PublicKey k' = tk_PublicKey k) as Hback.
  { intros id k' Hk'. specialize (Hf id). rewrite Hk' in Hf. destruct (ts_keys s !! id) as [k0|]; [|done]. exists k0. by destruct Hf as (? & ? & ? & _). }
  split; cbn [ts_keys ts_requests].
  - intros id k' Hk'. destruct (Hback id k' Hk') as (k0 & Hk0 & -> & _). by apply Hk.
  - intros id k' Hid Hk' Hlk. destruct (Hback id k' Hk') as (k0 & Hk0 & _ & Es & ->). rewrite Es in Hlk. by apply (Hl id k0).
  - intros p r. unfold UpdateRequest. cbn [tr_KeyId tr_Msg tr_Status tr_Sig].
    assert (∀ r, ts_requests s !! p = Some r → p = (tr_KeyId r, tr_Msg r) ∧ (tr_KeyId r ≠ "" → tr_Status r = SignComplete → genuine keys r)) as Hold.
    { intros r0 Hr0. destruct (Hr p r0 Hr0) as [-> Hg]. split; [done|]. intros Hid Hc. eapply genuine_evolve; [done|done|by apply Hg]. }
    destruct (ts_requests s !! (keyId, msg)) as [r0|] eqn:Hr0; [|apply Hold].
    intros [[<- <-]|[_ ?]]%lookup_insert_Some; [|by apply Hold]. destruct (Hr _ _ Hr0) as [[= -> ->] _]. cbn [tr_KeyId tr_Msg]. split; [done|].
    intros Hid _. apply (genuine_evolve (ts_keys s)); [done|done|]. exists k, pub, sg. cbn [tr_KeyId tr_Msg tr_Sig]. rewrite Hst, Hpk.
    split_and!; [done..|]. unfold sig_accepts in *. by rewrite Halgo.
  - intros id k' Hid Hk' Hvk. destruct (Hback id k' Hk') as (k0 & Hk0 & _ & Es & Ep). rewrite Es. unfold check_signed. rewrite Ep.
    destruct (Hnew id k' Hk' Hvk) as [(k1 & Hk1 & Hv1)|(-> & Ha & Hd)].
    + rewrite Hk0 in Hk1. injection Hk1 as <-. by apply (Hv id k0).
    + rewrite Hkey in Hk0. injection Hk0 as <-. rewrite Hst, Hpk. split; [done|]. unfold vaultCheckSigDigest in Hd.
      destruct (_ || _); [done|]. destruct (negb (tb_rotation b)); [done|]. destruct (VaultGenFromKeyId _ _) as [gen|] eqn:Hgen; [|done].
      cbn [mbind option_bind] in Hd. rewrite Hpub in Hd. cbn [mbind option_bind] in Hd. destruct (negb _); [done|]. injection Hd as Hd.
      exists (tb_btcContract b), gen, pub, sg. split_and!; [done|done|]. rewrite Hd. unfold sig_accepts in Hacc. rewrite Ha in Hacc. by injection Hacc.
Qed.

Lemma pack_ok b err sp cache s cache' s' :
  tss_ok s → cache_ok cache (ts_keys s) → process_pack b err sp cache s = Some (cache', s') → tss_ok s' ∧ cache_ok cache' (ts_keys s').
Proof.
  intros Hs Hc. unfold process_pack. set (found := match cache !! sp_KeyId sp with Some _ => _ | None => _ end).
  assert (∀ key cache1, found = Some (key, cache1) → cache_ok cache1 (ts_keys s) ∧
            ∃ k, ts_keys s !! sp_KeyId sp = Some k ∧ tk_Status k = "active" ∧ tk_PublicKey k = tk_PublicKey key ∧ tk_Algo k = tk_Algo key) as Hfound.
  { intros key cache1. unfold found. destruct (cache !! sp_KeyId sp) as [key0|] eqn:Hk0; [intros [= <- <-]; split; [done|by apply Hc]|].
    destruct (FindKey err _ _) as [| |k] eqn:Hf; [done..|]. apply FindKey_found in Hf.
    destruct (String.eqb_spec (tk_Status k) "active") as [Hst|]; [|done]. intros [= <- <-]. split; [|by exists k].
    intros id key'. intros [[<- <-]|[_ ?]]%lookup_insert_Some; [by exists k|by apply Hc]. }
  clearbody found. destruct found as [[key cache1]|]; [|by intros [= <- <-]]. destruct (Hfound key cache1 eq_refl) as [Hc1 Hk].
  destruct (hex_decode (tk_PublicKey key)) as [pub|] eqn:Hpub; [|by intros [= <- <-]].
  destruct (hex_decode (sp_Sig sp)) as [sg|] eqn:Hsg; [|by intros [= <- <-]].
  destruct (sig_accepts key _ sg pub) as [[]|] eqn:Ha; cbn [mbind option_bind negb]; [|by intros [= <- <-]|done]. intros [= <- <-].
  destruct (complete_ok b _ _ _ _ _ _ _ Hs Hk Hpub Hsg Ha) as [Hf Hok]. split; [done|]. by apply (cache_ok_flag _ (ts_keys s)).
Qed.

Lemma pack_evolve b err sp cache s cache' s' :
  tss_ok s → cache_ok cache (ts_keys s) → process_pack b err sp cache s = Some (cache', s') → keys_evolve (ts_keys s) (ts_keys s').
Proof.
  intros Hs Hc. unfold process_pack. destruct (match cache !! sp_KeyId sp with Some _ => _ | None => _ end) as [[key cache1]|]; [|by intros [= <- <-]].
  destruct (hex_decode _) as [pub|]; [|by intros [= <- <-]]. destruct (hex_decode _) as [sg|]; [|by intros [= <- <-]].
  destruct (sig_accepts _ _ _ _) as [[]|]; cbn [mbind option_bind negb]; [|by intros [= <- <-]|done]. intros [= <- <-]. cbn [ts_keys].
  destruct (String.eqb _ _); [|done]. by apply flag_only_evolve, mark_spec.
Qed.

Lemma commitment_evolve b txId err1 err2 c s : known b → tss_ok s → keys_evolve (ts_keys s) (ts_keys (process_commitment b txId err1 err2 c s)).
Proof.
  intros Hb Hs. unfold process_commitment. destruct (commitment_signers b c) as [[el included]|] eqn:Hc; [|done]. destruct (_ <=? _); [done|].
  set (s1 := mkTssState _ _ _). apply (commit_plain b err1 err2 c s1); [by eapply signers_quorum|]. apply (ok_keys _ Hs).
Qed.

Lemma packs_ok b errs i packs cache s s' :
  tss_ok s → cache_ok cache (ts_keys s) → process_packs b errs i packs cache s = Some s' → tss_ok s'.
Proof.
  revert i cache s. induction packs as [|sp packs IH]; intros i cache s Hs Hc; cbn [process_packs]; [by intros [= <-]|].
  destruct (process_pack _ _ _ _ _) as [[cache1 s1]|] eqn:Hp; [|done]. cbn [mbind option_bind].
  destruct (pack_ok _ _ _ _ _ _ _ Hs Hc Hp) as [H1 H2]. by apply IH.
Qed.

(** ** Runs *)

Lemma step_ok s s' : tss_step known s s' → tss_ok s → tss_ok s'.
Proof.
  intros Hstep Hs. destruct Hstep as [b errs legacy results s Hb|b scanErr s Hb|b errs j s s' Hb Hj|b txId errs j s Hb|s|keyErr s|keyId msg sigText s].
  - unfold ingest_tss_ops. destruct (tb_indexed b); [by apply ops_ok|done].
  - eapply tss_ok_plain; [done|apply lifecycle_plain|]. unfold key_lifecycle. destruct (_ || _); apply requests_same.
  - unfold tss_sign in Hj. destruct (negb _); [by injection Hj as <-|]. destruct (parse_packet j) as [packs|]; [|by injection Hj as <-].
    eapply packs_ok; [done| |done]. intros id key. by rewrite lookup_empty.
  - unfold tss_commitment. destruct (parse_commitments j) as [cs|]; [|done]. destruct (_ && _); [done|].
    revert s Hs. generalize (imap pair cs). intros l. induction l as [|[i c] l IH]; intros s Hs; cbn [foldl]; [done|]. by apply IH, commitment_ok.
  - eapply tss_ok_plain; [done|apply init_plain|apply requests_same].
  - eapply tss_ok_plain; [done|done|apply revive_kept].
  - eapply tss_ok_plain; [done|done|apply failed_kept].
Qed.

Lemma step_evolve s s' : tss_step known s s' → tss_ok s → keys_evolve (ts_keys s) (ts_keys s').
Proof.
  intros Hstep Hs. destruct Hstep as [b errs legacy results s Hb|b scanErr s Hb|b errs j s s' Hb Hj|b txId errs j s Hb|s|keyErr s|keyId msg sigText s]; [..|done|done].
  - unfold ingest_tss_ops. destruct (tb_indexed b); [|done]. revert s Hs. generalize (imap pair (legacy ++ concat results)). intros l.
    induction l as [|[i op] l IH]; intros s Hs; cbn [foldl]; [done|]. etrans; [|apply IH; eapply tss_ok_plain; [done|apply op_plain|apply op_kept]].
    by apply op_plain, ok_keys.
  - by apply lifecycle_plain, ok_keys.
  - unfold tss_sign in Hj. destruct (negb _); [by injection Hj as <-|]. destruct (parse_packet j) as [packs|]; [|by injection Hj as <-].
    assert (cache_ok ∅ (ts_keys s)) as Hc by (intros id key; by rewrite lookup_empty). revert Hc Hj.
    generalize 0%nat, (∅ : gmap string TssKey). revert s Hs. induction packs as [|sp packs IH]; intros s Hs i cache Hc; cbn [process_packs]; [by intros [= <-]|].
    destruct (process_pack _ _ _ _ _) as [[cache1 s1]|] eqn:Hp; [|done]. cbn [mbind option_bind]. intros Hrec.
    destruct (pack_ok _ _ _ _ _ _ _ Hs Hc Hp) as [H1 H2]. etrans; [|by eapply IH]. by eapply pack_evolve.
  - unfold tss_commitment. destruct (parse_commitments j) as [cs|]; [|done]. destruct (_ && _); [done|].
    revert s Hs. generalize (imap pair cs). intros l. induction l as [|[i c] l IH]; intros s Hs; cbn [foldl]; [done|].
    etrans; [|by apply IH, commitment_ok]. by apply commitment_evolve.
  - by apply init_plain, ok_keys.
Qed.

Definition empty_tss : tss_state := mkTssState ∅ ∅ [].

Lemma empty_ok : tss_ok empty_tss.
Proof. split; [intros id k|intros id k _|intros p r|intros id k _]; cbn [empty_tss ts_keys ts_requests]; by rewrite lookup_empty. Qed.

Lemma run_ok s s' : tss_run_of known s s' → tss_ok s → tss_ok s'.
Proof. induction 1 as [|s s1 s' Hstep _ IH]; [done|]. intros Hs. by apply IH, (step_ok s). Qed.

Lemma run_evolve s s' : tss_run_of known s s' → tss_ok s → keys_evolve (ts_keys s) (ts_keys s').
Proof.
  induction 1 as [|s s1 s' Hstep _ IH]; [done|]. intros Hs. etrans; [by apply step_evolve|]. apply IH. by apply (step_ok s).
Qed.

End invariant.

(** C10: whatever is posted in the blocks of a chain and however the reads of a node
    fail, a key that is active or deprecated has a public key that a committee agreed
    on: the aggregate of the commitment verifies over it for keys with two thirds of
    the weight of the committee the chain names for its height (from 0.8.0 on a key
    counts once, before for its last seat; the weights must fit [uint64]).  A request
    that is complete carries a signature that verifies under the key it names; and a
    key is marked as having signed only if it signed the check message of its own
    vault generation.  Keys have ids that are not empty. *)
Theorem keys_genuine known s : tss_run_of known empty_tss s → tss_ok known s.
Proof. intros Hr. eapply run_ok; [exact Hr|]. apply empty_ok. Qed.

(** C20: once a key is active it is permanent: no later operation, commitment,
    expiry or restart takes the key away, changes its public key, its algorithm or
    the height it was created at, rolls its epoch back or clears its signature
    flag. *)
Theorem keys_permanent s s' id k :
  tss_run empty_tss s → tss_run s s' → id ≠ "" → ts_keys s !! id = Some k → is_live (tk_Status k) = true →
  ∃ k', ts_keys s' !! id = Some k' ∧ is_live (tk_Status k') = true ∧ tk_PublicKey k' = tk_PublicKey k ∧ tk_Algo k' = tk_Algo k ∧
    tk_CreatedHeight k' = tk_CreatedHeight k ∧ tk_Epoch k <= tk_Epoch k' ∧ (tk_SignatureVerified k = true → tk_SignatureVerified k' = true).
Proof.
  intros Hs Hr Hid Hk Hl. assert (tss_ok (λ _, True) s) as Hok by (eapply run_ok; [exact Hs|apply empty_ok]).
  destruct (run_evolve _ s s' Hr Hok id k Hid Hk) as (k' & Hk' & [_ Ha Hv Hlive]). destruct (Hlive Hl) as (? & ? & ? & ?).
  exists k'. by split_and!.
Qed.
End chain.
