(* ===== verification/TssParties.v ===== *)
(** Who takes part in a threshold ceremony ([modules/tss/tss.go], [accuse.go],
    [helpers/tss_helpers.go]): the thresholds, the bans drawn from the blames on
    chain, the parties accused of a failed reshare, and the party lists of the
    keygen, sign and reshare sessions a block starts.

    The databases are read through functions, whose answers may be empty where the
    code ignores an error; the theorems hold for every such answer.  The ranges over
    maps take their order as an argument.

    The theorems: the bans are the same in every order of the maps and leave a
    quorum; leaving out accused parties never takes a session below its quorum; a
    session has only holders and members that are ready, enough of them to sign, and
    a reshared key still needs a majority of the committee; when enough holders and
    members are ready, the session is formed whatever is banned or accused. *)
From S2P Require Import Prelude GoMaps GoSlices GoStrings GoEncoding ConsensusVersion TssDb BtcVault VaultScope TssKeys.

(** ** Thresholds *)

Definition TSS_BAN_THRESHOLD_PERCENT : Z := 60.
Definition TSS_BLAME_THRESHOLD_PERCENT : Z := 33.
Definition TSS_BAN_GRACE_PERIOD_EPOCHS : Z := 3.
Definition BLAME_EXPIRE : Z := 28800.
Definition BLAME_WINDOW_MAX_ROWS : Z := 50000.
Definition legacyBlameWindowRows : Z := 100.

(** [None] is the error. *)
Definition GetThreshold (value : Z) : option Z :=
  if value <? 0 then None else Some ((2 * value + 2) / 3 - 1).

(** The callers ignore the error, which comes with zero. *)
Definition threshold_of (value : Z) : Z := default 0 (GetThreshold value).

Definition reshareThresholdFloor (electionSize : Z) : Z := Z.min (electionSize / 2) (threshold_of electionSize).

Fixpoint min_parties (fuel : nat) (n t : Z) : option Z :=
  match fuel with
  | O => None
  | S fuel => if t <=? threshold_of n then Some n else min_parties fuel (n + 1) t
  end.

Definition minPartiesForThreshold (t : Z) : Z := default 0 (min_parties (S (Z.to_nat t)) (t + 1) t).

(** ** Lists and counts of accounts *)

(** A participant is its account; the party id is filled in when the session starts. *)
Abbreviation Participant := string.

Definition len {A} (l : list A) : Z := Z.of_nat (length l).

Definition tally (m : gmap string Z) (accounts : list string) : gmap string Z :=
  foldl (λ m a, <[a := zget m a + 1]> m) m accounts.

Definition accounts_of (e : ElectionResult) : list string := em_Account <$> el_Members e.

(** The bits of a commitment whose decoding error is ignored. *)
Definition read_bits (text : string) : Z := SetBytes (b64_decode url_value text).1.

(** ** The databases *)

Record tss_reads := mkTssReads {
  rd_GetElection : Z → option ElectionResult;
  rd_GetElectionByHeight : Z → option ElectionResult;
  (** before an epoch, at most so many *)
  rd_GetPreviousElections : Z → nat → list ElectionResult;
  rd_GetBlames : Z → list TssCommitment;
  (** key, type, from, to, limit *)
  rd_Find : string → string → Z → Z → Z → list TssCommitment;
  rd_GetCommitmentByHeight : string → Z → list string → option TssCommitment;
}.

(** An election without members reads as one that was not found. *)
Definition seated (e : option ElectionResult) : option ElectionResult :=
  e ← e; if bool_decide (el_Members e = []) then None else Some e.

(** ** Bans *)

Definition TSS_BLAME_EPOCH_COUNT : nat := 27.

Record score := mkScore {
  sc_Account : string;
  sc_Score : Z;
  sc_Weight : Z;
  sc_EpochsSinceFirst : Z;
}.

Record ScoreMap := mkScoreMap {
  BannedNodes : gset string;
  BanOrder : list string;
}.

Definition first_epoch (current : gset string) (e : ElectionResult) (m : gmap string Z) (account : string) : gmap string Z :=
  if bool_decide (account ∈ current) then
    match m !! account with
    | Some prev => if el_Epoch e <? prev then <[account := el_Epoch e]> m else m
    | None => <[account := el_Epoch e]> m
    end
  else m.

Definition track_epochs (current : gset string) (m : gmap string Z) (e : ElectionResult) : gmap string Z :=
  foldl (first_epoch current e) m (accounts_of e).

Definition max_blamed (n : Z) : Z := n - (threshold_of n + 1).

(** The weight and the blame of the accounts; a blame that names too many is skipped. *)
Definition count_blame (current : gset string) (e : ElectionResult) (acc : gmap string Z * gmap string Z) (c : TssCommitment) :
    gmap string Z * gmap string Z :=
  let named := seats_set (read_bits (tc_Commitment c)) (el_Members e) in
  if max_blamed (len (el_Members e)) <? len named then acc
  else (tally acc.1 (filter (λ a, a ∈ current) (accounts_of e)), tally acc.2 (filter (λ a, a ∈ current) named)).

Definition count_election (r : tss_reads) (current : gset string) (acc : gmap string Z * gmap string Z) (e : ElectionResult) :
    gmap string Z * gmap string Z :=
  foldl (count_blame current e) acc (rd_GetBlames r (el_Epoch e)).

Definition make_score (first blame : gmap string Z) (currentEpoch : Z) (kv : string * Z) : score :=
  let since := match first !! kv.1 with
               | Some f => if f <=? currentEpoch then currentEpoch - f else 0
               | None => 0
               end in
  mkScore kv.1 (zget blame kv.1) kv.2 since.

Definition score_cmp (a b : score) : Z :=
  if negb (sc_Score a =? sc_Score b) then sc_Score b - sc_Score a
  else strings_Compare (sc_Account a) (sc_Account b).

Definition ban_step (maxBans : Z) (banned : list string) (entry : score) : list string :=
  if sc_EpochsSinceFirst entry <? TSS_BAN_GRACE_PERIOD_EPOCHS then banned
  else if (0 <? sc_Weight entry) && (sc_Weight entry * TSS_BAN_THRESHOLD_PERCENT / 100 <? sc_Score entry) then
    if maxBans <=? len banned then banned else banned ++ [sc_Account entry]
  else banned.

Definition election_map (initial : ElectionResult) (previous : list ElectionResult) : gmap Z ElectionResult :=
  foldl (λ m e, <[el_Epoch e := e]> m) {[el_Epoch initial := initial]} previous.

(** [erange] and [range] are the orders of the two ranges over maps. *)
Definition BlameScore (r : tss_reads) (erange : gmap Z ElectionResult → list (Z * ElectionResult))
    (range : gmap string Z → list (string * Z)) (initialElection : ElectionResult) : ScoreMap :=
  if bool_decide (el_Members initialElection = []) then mkScoreMap ∅ []
  else
    let current : gset string := list_to_set (accounts_of initialElection) in
    let previous := rd_GetPreviousElections r (el_Epoch initialElection) TSS_BLAME_EPOCH_COUNT in
    let first := foldl (track_epochs current) ∅ previous in
    let counts := foldl (count_election r current) (∅, ∅) (erange (election_map initialElection previous)).*2 in
    let sortedArray := SortFunc score_cmp (make_score first counts.2 (el_Epoch initialElection) <$> range counts.1) in
    let maxBans := Z.max 0 (max_blamed (len (el_Members initialElection))) in
    let banned := foldl (ban_step maxBans) [] sortedArray in
    mkScoreMap (list_to_set banned) (reverse banned).

(** Banned members are let back in, the least blamed first, until there are enough. *)
Fixpoint readmit (need : Z) (eligible ready blamed accused : gset string) (banOrder : list string) (selected : list Participant) : list Participant :=
  match banOrder with
  | [] => selected
  | acct :: banOrder =>
      if need <=? len selected then selected
      else if bool_decide (acct ∈ selected) || bool_decide (acct ∉ eligible) || bool_decide (acct ∉ ready) ||
              bool_decide (acct ∈ blamed) || bool_decide (acct ∈ accused)
      then readmit need eligible ready blamed accused banOrder selected
      else readmit need eligible ready blamed accused banOrder (selected ++ [acct])
  end.

Definition readmitBanned (selected : list Participant) (need : Z) (banOrder : list string) (eligible ready blamed accused : gset string) : list Participant :=
  if need <=? len selected then selected else readmit need eligible ready blamed accused banOrder selected.

(** ** Accusations of a failed reshare *)

Definition accuseTypeReshare : string := "reshare_accuse".
Definition accuseMaxExclusions : Z := 1.
Definition accuseMaxExclusionsStacked : Z := 2.
Definition accusePerOp : nat := 10.

Definition accuseSigKey (sessionId accused : string) : string :=
  if String.eqb accused "" then sessionId else sessionId +:+ "|" +:+ accused.

Definition accused_step (self : string) (out : list string) (a : string) : list string :=
  if String.eqb a "" || String.eqb a self || bool_decide (a ∈ out) then out else out ++ [a].

Definition accusedSet (self : string) (waiting : list string) : list string :=
  sort_Strings (foldl (accused_step self) [] waiting).

Definition accusedIfActive (active : Version) (self : string) (waiting : list string) : list string :=
  if TssPerAccusedBlameActive active then accusedSet self waiting else [].

Record accuseRecord := mkAccuseRecord {
  ar_SessionId : string;
  ar_KeyId : string;
  ar_BlockHeight : Z;
  ar_NewEpoch : Z;
  ar_OldEpoch : Z;
  ar_Accused : list string;
}.

(** The accused's bit in the first of the elections that has it. *)
Fixpoint statement_in (election : Z → option ElectionResult) (rec : accuseRecord) (accused : string) (epochs : list Z) : option BaseCommitment :=
  match epochs with
  | [] => None
  | epoch :: epochs =>
      match election epoch with
      | None => statement_in election rec accused epochs
      | Some e =>
          match list_find (λ m, em_Account m = accused) (el_Members e) with
          | None => statement_in election rec accused epochs
          | Some (idx, _) =>
              Some (mkBaseCommitment accuseTypeReshare (ar_SessionId rec) (ar_KeyId rec)
                      (b64_encode url_char (Bytes (Z.shiftl 1 (Z.of_nat idx)))) None (ar_BlockHeight rec) epoch)
          end
      end
  end.

Definition buildAccuseStatement (r : tss_reads) (rec : accuseRecord) (accused : string) : option BaseCommitment :=
  statement_in (rd_GetElection r) rec accused [ar_NewEpoch rec; ar_OldEpoch rec].

(** A node signs only about a party it accuses itself. *)
Definition accuseStatement (r : tss_reads) (rec : accuseRecord) (accused : string) : option BaseCommitment :=
  if bool_decide (accused ∈ ar_Accused rec) then buildAccuseStatement r rec accused else None.

Definition count_row (r : tss_reads) (counts : gmap string Z) (row : TssCommitment) : gmap string Z :=
  match seated (rd_GetElection r (tc_Epoch row)) with
  | None => counts
  | Some e =>
      match b64_decode url_value (tc_Commitment row) with
      | (raw, true) => tally counts (seats_set (SetBytes raw) (el_Members e))
      | (_, false) => counts
      end
  end.

Definition reshareAccusedCounts (r : tss_reads) (keyId : string) (bh lastCommitHeight expireBlock : Z) : gmap string Z :=
  let from := if lastCommitHeight <? expireBlock then expireBlock else lastCommitHeight in
  foldl (count_row r) ∅ (rd_Find r keyId accuseTypeReshare from bh BLAME_WINDOW_MAX_ROWS).

(** The most named first, ties by the account. *)
Definition named_cmp (a b : string * Z) : Z :=
  if negb (a.2 =? b.2) then b.2 - a.2 else strings_Compare a.1 b.1.

Definition accuse_order (range : gmap string Z → list (string * Z)) (counts : gmap string Z) : list string :=
  (SortFunc named_cmp (filter (λ kv, 0 < kv.2) (range counts))).*1.

Fixpoint exclude (alreadyOut : Z) (inOld : gset string) (order : list string) (slots : Z) (out : gset string) : gset string :=
  match order with
  | [] => out
  | a :: order =>
      if accuseMaxExclusions <=? Z.of_nat (size out) + alreadyOut then out
      else if bool_decide (a ∈ inOld) then
        if slots <=? 0 then out else exclude alreadyOut inOld order (slots - 1) ({[a]} ∪ out)
      else exclude alreadyOut inOld order slots ({[a]} ∪ out)
  end.

Definition selectAccusedExclusions (order : list string) (oldMembers : list string) (oldMin alreadyOut : Z) : gset string :=
  exclude alreadyOut (list_to_set oldMembers) order (len oldMembers - oldMin) ∅.

Fixpoint exclude_stacked (alreadyOut : Z) (inOld inNew : gset string) (order : list string) (oldSlots newSlots : Z) (out : gset string) : gset string :=
  match order with
  | [] => out
  | a :: order =>
      let old := bool_decide (a ∈ inOld) in
      let new := bool_decide (a ∈ inNew) in
      if accuseMaxExclusionsStacked <=? Z.of_nat (size out) + alreadyOut then out
      else if negb old && negb new then exclude_stacked alreadyOut inOld inNew order oldSlots newSlots out
      else if (old && (oldSlots <=? 0)) || (new && (newSlots <=? 0)) then out
      else exclude_stacked alreadyOut inOld inNew order (if old then oldSlots - 1 else oldSlots) (if new then newSlots - 1 else newSlots) ({[a]} ∪ out)
  end.

Definition selectAccusedExclusionsStacked (order : list string) (oldMembers newMembers : list string) (oldMin newMin alreadyOut : Z) : gset string :=
  exclude_stacked alreadyOut (list_to_set oldMembers) (list_to_set newMembers) order (len oldMembers - oldMin)
    (if 0 <? newMin then len newMembers - newMin else len newMembers) ∅.

Definition applyAccusedExclusions (range : gmap string Z → list (string * Z)) (oldList newList : list Participant) (counts : gmap string Z)
    (fullOldSize alreadyOut newMin : Z) (stack : bool) : list Participant * list Participant * gset string :=
  let oldMin := threshold_of fullOldSize + 1 in
  let out := if stack then selectAccusedExclusionsStacked (accuse_order range counts) oldList newList oldMin newMin alreadyOut
             else selectAccusedExclusions (accuse_order range counts) oldList oldMin alreadyOut in
  let keepOld := filter (λ a, a ∉ out) oldList in
  let keepNew := filter (λ a, a ∉ out) newList in
  if bool_decide (out ≠ ∅) && (len keepNew <? newMin) then (oldList, newList, ∅) else (keepOld, keepNew, out).

Definition accuseNewMin (active : Version) (electionSize : Z) : Z :=
  if negb (TssAccuseYieldsToFloorActive active) then 0
  else
    let need := threshold_of electionSize + 1 in
    if TssReshareKeepsThresholdActive active then Z.max need (minPartiesForThreshold (reshareThresholdFloor electionSize)) else need.

(** The statement of a session with the most signed weight, ties by the smaller key. *)
Definition best_step (weights : gmap string Z) (best : gmap string string) (kv : string * string) : gmap string string :=
  match best !! kv.2 with
  | None => <[kv.2 := kv.1]> best
  | Some prev =>
      if (zget weights prev <? zget weights kv.1) ||
         ((zget weights kv.1 =? zget weights prev) && (strings_Compare kv.1 prev <? 0))
      then <[kv.2 := kv.1]> best else best
  end.

Definition bestAccusePerSession (sessions : list (string * string)) (weights : gmap string Z) : gmap string string :=
  foldl (best_step weights) ∅ sessions.

Definition circuitWeight (bv : string) (weights : list Z) : Z :=
  match b64_decode url_value bv with
  | (_, false) => 0
  | (raw, true) =>
      foldl (λ total iw, if Z.testbit (SetBytes raw) (Z.of_nat iw.1) then total +u64 iw.2 else total) 0 (imap pair weights)
  end.

Definition commitmentOpPackets {A} (sessions accusations : list A) : list (list A) :=
  (if bool_decide (sessions = []) then [] else [sessions]) ++
  (if bool_decide (accusations = []) then [] else [take accusePerOp accusations]).

(** ** The parties of a session *)

Definition blameWindowRows (shapeActive : bool) : Z := if shapeActive then BLAME_WINDOW_MAX_ROWS else legacyBlameWindowRows.

Definition blame_expire (bh : Z) : Z := if BLAME_EXPIRE <? bh then bh - BLAME_EXPIRE else 0.

(** How many blames count and how many of them name each account; [after] is the
    height of the commitment that ends the earlier blames. *)
Definition blame_row (r : tss_reads) (after : option Z) (acc : Z * gmap string Z) (c : TssCommitment) : Z * gmap string Z :=
  if match after with Some h => tc_BlockHeight c <=? h | None => false end then acc
  else
    match seated (rd_GetElection r (tc_Epoch c)) with
    | None => acc
    | Some e => (acc.1 + 1, tally acc.2 (seats_set (read_bits (tc_Commitment c)) (el_Members e)))
    end.

Definition blamedAccounts (r : tss_reads) (after : option Z) (rows : list TssCommitment) : gset string :=
  let '(opportunities, count) := foldl (blame_row r after) (0, ∅) rows in
  if 0 <? opportunities then
    dom (filter (λ kv, opportunities * TSS_BLAME_THRESHOLD_PERCENT < kv.2 * 100) count)
  else ∅.

Definition legacyKeygenBlamed (r : tss_reads) (keyId : string) (bh : Z) (currentElection : ElectionResult) : gset string :=
  match rd_GetCommitmentByHeight r keyId bh ["blame"] with
  | None => ∅
  | Some lastBlame =>
      if wrap64 (tc_BlockHeight lastBlame) <=? wrap64 bh -64 BLAME_EXPIRE then ∅
      else list_to_set (seats_set (read_bits (tc_Commitment lastBlame)) (el_Members currentElection))
  end.

Definition keygen_parties (r : tss_reads) (shapeActive : bool) (bh : Z) (currentElection : ElectionResult) (banned : gset string) (keyId : string) :
    list Participant :=
  let blamed := if shapeActive then blamedAccounts r None (rd_Find r keyId "blame" (blame_expire bh) bh BLAME_WINDOW_MAX_ROWS)
                else legacyKeygenBlamed r keyId bh currentElection in
  filter (λ a, (a ∉ blamed) ∧ a ∉ banned) (accounts_of currentElection).

(** The accounts whose attestation for the block meets the version. *)
Definition ready_accounts (attested : gmap string Version) (min : Version) (waived : string → bool) : gset string :=
  dom (filter (λ kv, (MeetsConsensusMin kv.2 min || waived kv.1) = true) attested).

Definition usable (blamed banned ready : gset string) (accounts : list string) : list string :=
  filter (λ a, (a ∉ blamed) ∧ (a ∉ banned) ∧ a ∈ ready) accounts.

Record sign_choice := mkSignChoice {
  sg_participants : list Participant;
  sg_origCommitteeSize : Z;
  sg_prevType : string;
}.

Definition sign_parties (r : tss_reads) (shapeActive : bool) (bh : Z) (ver : Version) (retiring : RetiringSignerSet)
    (attested : gmap string Version) (bans : ScoreMap) (keyId : string) : option sign_choice :=
  let found := rd_GetCommitmentByHeight r keyId bh ["reshare"; "keygen"] in
  let height := match found with Some c => tc_BlockHeight c | None => 0 end in
  let bits := match found with Some c => read_bits (tc_Commitment c) | None => 0 end in
  commitElection ← seated (rd_GetElection r (match found with Some c => tc_Epoch c | None => 0 end));
  let holders := seats_set bits (el_Members commitElection) in
  let blamed := blamedAccounts r (Some height) (rd_Find r keyId "blame" (blame_expire bh) bh (blameWindowRows shapeActive)) in
  let isRetiringSign := bool_decide (keyId ∈ KeyIds retiring) in
  let ready := ready_accounts attested ver (λ a, isRetiringSign && Has retiring a) in
  let participants := usable blamed (BannedNodes bans) ready holders in
  let need := threshold_of (len holders) + 1 in
  let participants := if TssBanYieldsToQuorumActive ver && bool_decide (BanOrder bans ≠ [])
                      then readmitBanned participants need (BanOrder bans) (list_to_set holders) ready blamed ∅
                      else participants in
  if len participants <? need then None
  else Some (mkSignChoice participants (len holders) (match found with Some c => tc_Type c | None => "" end)).

Inductive reshare_choice :=
| ReshareSkipped
| ReshareStarved (keyId side : string)
| ReshareChosen (commitment : TssCommitment) (commitedMembers newParticipants : list Participant) (origOldSize : Z).

(** The new parties a reshare has to have to land. *)
Definition need_new (ver : Version) (electionSize : Z) : Z :=
  let needNew := threshold_of electionSize + 1 in
  if TssReshareKeepsThresholdActive ver then Z.max needNew (minPartiesForThreshold (reshareThresholdFloor electionSize)) else needNew.

Definition reshare_check (ver : Version) (electionSize : Z) (commitment : TssCommitment) (old new : list Participant) (origOldSize : Z) : reshare_choice :=
  let newThreshold := threshold_of (len new) in
  if len new <? Z.max 2 (newThreshold + 1) then ReshareStarved (tc_KeyId commitment) "new"
  else if len old <? threshold_of origOldSize + 1 then ReshareStarved (tc_KeyId commitment) "old"
  else if TssReshareKeepsThresholdActive ver && (newThreshold <? reshareThresholdFloor electionSize) then ReshareStarved (tc_KeyId commitment) "threshold"
  else ReshareChosen commitment old new origOldSize.

Definition reshare_parties (r : tss_reads) (range : gmap string Z → list (string * Z)) (shapeActive : bool) (bh : Z) (ver : Version)
    (attested : gmap string Version) (bans : ScoreMap) (currentElection : ElectionResult) (keyId : string) : reshare_choice :=
  match rd_GetCommitmentByHeight r keyId bh ["keygen"; "reshare"] with
  | None => ReshareSkipped
  | Some commitment =>
      if el_Epoch currentElection <=? tc_Epoch commitment then ReshareSkipped
      else
        let expire := blame_expire bh in
        let blamed := blamedAccounts r (Some (tc_BlockHeight commitment)) (rd_Find r keyId "blame" expire bh (blameWindowRows shapeActive)) in
        match seated (rd_GetElection r (tc_Epoch commitment)) with
        | None => ReshareSkipped
        | Some commitmentElection =>
            let ready := ready_accounts attested ver (λ _, false) in
            let oldHolders := seats_set (read_bits (tc_Commitment commitment)) (el_Members commitmentElection) in
            let members := accounts_of currentElection in
            let old := usable blamed (BannedNodes bans) ready oldHolders in
            let new := usable blamed (BannedNodes bans) ready members in
            let counts := if TssPerAccusedBlameActive ver then reshareAccusedCounts r keyId bh (tc_BlockHeight commitment) expire else ∅ in
            let alreadyOut := len (filter (λ a, a ∈ blamed ∨ a ∈ BannedNodes bans) members) in
            let '(old, new, accusedOut) :=
              if bool_decide (counts = ∅) then (old, new, ∅)
              else applyAccusedExclusions range old new counts (len oldHolders) alreadyOut (accuseNewMin ver (len members)) (TssAccuseStackActive ver) in
            let yields := TssBanYieldsToQuorumActive ver && bool_decide (BanOrder bans ≠ []) in
            let old' := if yields then readmitBanned old (threshold_of (len oldHolders) + 1) (BanOrder bans) (list_to_set oldHolders) ready blamed accusedOut else old in
            let new' := if yields then readmitBanned new (need_new ver (len members)) (BanOrder bans) (list_to_set members) ready blamed accusedOut else new in
            reshare_check ver (len members) commitment old' new' (len oldHolders)
        end
  end.

(** ** The sessions of a block *)

Inductive actionType := KeyGenAction | SignAction | ReshareAction.

#[export] Instance actionType_eq_dec : EqDecision actionType.
Proof. solve_decision. Defined.

Record QueuedAction := mkAction {
  qa_Type : actionType;
  qa_KeyId : string;
  qa_Args : list Z;
  qa_Algo : string;
}.

Definition sessionPrefixKeygen : string := "keygen-".
Definition sessionPrefixSign : string := "sign-".
Definition sessionPrefixReshare : string := "reshare-".

Inductive Dispatcher :=
| KeyGenDispatcher (sessionId keyId algo : string) (participants : list Participant) (epoch blockHeight : Z)
| SignDispatcher (sessionId keyId algo : string) (participants : list Participant) (epoch : Z) (msg : list Z)
    (prevCommitmentType : string) (origCommitteeSize : Z)
| ReshareDispatcher (sessionId keyId algo : string) (participants newParticipants : list Participant)
    (epoch newEpoch blockHeight origOldSize origNewSize : Z) (prevCommitmentType : string).

Definition dispatcher_KeyId (d : Dispatcher) : string :=
  match d with KeyGenDispatcher _ k _ _ _ _ | SignDispatcher _ k _ _ _ _ _ _ | ReshareDispatcher _ k _ _ _ _ _ _ _ _ _ => k end.

Definition SessionId (d : Dispatcher) : string :=
  match d with KeyGenDispatcher s _ _ _ _ _ | SignDispatcher s _ _ _ _ _ _ _ | ReshareDispatcher s _ _ _ _ _ _ _ _ _ _ => s end.

(** A fingerprint of the two sets of parties; [sum] is SHA-256. *)
Definition set_preimage (set : list Participant) : list Z := sort_Strings set ≫= λ a, string_bytes a ++ [0].

Definition participantSetTag (sum : list Z → list Z) (oldSet newSet : list Participant) : string :=
  stake 12 (hex_encode (sum (set_preimage oldSet ++ [1] ++ set_preimage newSet))).

Record sessionInfo := mkSessionInfo { si_leader : string; si_bh : Z; si_action : actionType }.

Record tss_mgr := mkTssMgr {
  mg_requests : requestdb;
  mg_reshareStarved : gmap string Z;
  mg_actionMap : gmap string Dispatcher;
  mg_sessionMap : gmap string sessionInfo;
  mg_dispatchers : list Dispatcher;
}.

(** What a block's sessions are chosen from. *)
Record tss_view := mkTssView {
  tv_reads : tss_reads;
  tv_erange : gmap Z ElectionResult → list (Z * ElectionResult);
  tv_range : gmap string Z → list (string * Z);
  tv_sum : list Z → list Z;
  tv_bh : Z;
  tv_version : Version;
  tv_attested : gmap string Version;
  tv_retiring : RetiringSignerSet;
  (** [btcSignRefused] *)
  tv_refused : string → list Z → bool;
  (** the epoch of a key's row, zero without one *)
  tv_keyEpoch : string → Z;
  tv_leader : string;
}.

Definition session_id (prefix : string) (v : tss_view) (idx : nat) (keyId : string) : string :=
  prefix +:+ Itoa (wrap64 (tv_bh v)) +:+ "-" +:+ Itoa (Z.of_nat idx) +:+ "-" +:+ keyId.

Definition noteReshareStarved (keyId : string) (starved : gmap string Z) : gmap string Z := <[keyId := zget starved keyId + 1]> starved.

Definition clearReshareStarved (keyId : string) (starved : gmap string Z) : gmap string Z := delete keyId starved.

(** The session is registered, and the block's leader with it. *)
Definition register (v : tss_view) (action : actionType) (d : Dispatcher) (m : tss_mgr) : tss_mgr :=
  mkTssMgr (mg_requests m) (mg_reshareStarved m) (<[SessionId d := d]> (mg_actionMap m))
    (<[SessionId d := mkSessionInfo (tv_leader v) (tv_bh v) action]> (mg_sessionMap m)) (mg_dispatchers m ++ [d]).

Definition set_starved (starved : gmap string Z) (m : tss_mgr) : tss_mgr :=
  mkTssMgr (mg_requests m) starved (mg_actionMap m) (mg_sessionMap m) (mg_dispatchers m).

Definition set_mgr_requests (requests : requestdb) (m : tss_mgr) : tss_mgr :=
  mkTssMgr requests (mg_reshareStarved m) (mg_actionMap m) (mg_sessionMap m) (mg_dispatchers m).

Definition run_keygen (v : tss_view) (e : ElectionResult) (bans : ScoreMap) (m : tss_mgr) (idx : nat) (action : QueuedAction) : tss_mgr :=
  let shapeActive := TssSessionShapeActive (tv_version v) in
  let participants := keygen_parties (tv_reads v) shapeActive (tv_bh v) e (BannedNodes bans) (qa_KeyId action) in
  if len participants <? 2 then m
  else register v KeyGenAction (KeyGenDispatcher (session_id sessionPrefixKeygen v idx (qa_KeyId action)) (qa_KeyId action) (qa_Algo action)
                                  participants (el_Epoch e) (tv_bh v)) m.

Definition run_sign (v : tss_view) (bans : ScoreMap) (m : tss_mgr) (idx : nat) (action : QueuedAction) : tss_mgr :=
  let keyId := qa_KeyId action in
  if tv_refused v keyId (qa_Args action) then
    set_mgr_requests (UpdateRequest (mkTssRequest SignFailed keyId (hex_encode (qa_Args action)) "") (mg_requests m)) m
  else
    match sign_parties (tv_reads v) (TssSessionShapeActive (tv_version v)) (tv_bh v) (tv_version v) (tv_retiring v) (tv_attested v) bans keyId with
    | None => m
    | Some c =>
        register v SignAction (SignDispatcher (session_id sessionPrefixSign v idx keyId) keyId (qa_Algo action) (sg_participants c)
                                 (tv_keyEpoch v keyId) (qa_Args action) (sg_prevType c) (sg_origCommitteeSize c)) m
    end.

Definition run_reshare (v : tss_view) (e : ElectionResult) (bans : ScoreMap) (m : tss_mgr) (idx : nat) (action : QueuedAction) : tss_mgr :=
  let keyId := qa_KeyId action in
  let shapeActive := TssSessionShapeActive (tv_version v) in
  match reshare_parties (tv_reads v) (tv_range v) shapeActive (tv_bh v) (tv_version v) (tv_attested v) bans e keyId with
  | ReshareSkipped => m
  | ReshareStarved key _ => set_starved (noteReshareStarved key (mg_reshareStarved m)) m
  | ReshareChosen commitment old new origOldSize =>
      let m := set_starved (clearReshareStarved (tc_KeyId commitment) (mg_reshareStarved m)) m in
      let sessionId := session_id sessionPrefixReshare v idx keyId +:+
                       (if shapeActive then "-" +:+ participantSetTag (tv_sum v) old new else "") in
      register v ReshareAction (ReshareDispatcher sessionId keyId (qa_Algo action) old new (tc_Epoch commitment) (el_Epoch e) (tv_bh v)
                                  origOldSize (len new) (tc_Type commitment)) m
  end.

Definition run_action (v : tss_view) (e : ElectionResult) (bans : ScoreMap) (m : tss_mgr) (ia : nat * QueuedAction) : tss_mgr :=
  match qa_Type ia.2 with
  | KeyGenAction => run_keygen v e bans m ia.1 ia.2
  | SignAction => run_sign v bans m ia.1 ia.2
  | ReshareAction => run_reshare v e bans m ia.1 ia.2
  end.

(** The sessions the actions of a block start; [locked] is whether the lock of an
    earlier batch was free. *)
Definition RunActions (v : tss_view) (locked : bool) (actions : list QueuedAction) (m : tss_mgr) : tss_mgr :=
  if negb locked then m
  else
    match seated (rd_GetElectionByHeight (tv_reads v) (tv_bh v)) with
    | None => m
    | Some e =>
        let bans := BlameScore (tv_reads v) (tv_erange v) (tv_range v) e in
        foldl (run_action v e bans) (mkTssMgr (mg_requests m) (mg_reshareStarved m) (mg_actionMap m) (mg_sessionMap m) []) (imap pair actions)
    end.

(** ** Lemmas: thresholds *)

Lemma threshold_eq n : 0 <= n → threshold_of n = (2 * n + 2) / 3 - 1.
Proof. intros Hn. unfold threshold_of, GetThreshold. by destruct (Z.ltb_spec n 0); [lia|]. Qed.

Lemma threshold_mono a b : 0 <= a <= b → threshold_of a <= threshold_of b.
Proof. intros Hab. rewrite !threshold_eq by lia. Z.to_euclidean_division_equations; lia. Qed.

(** The key of [n] parties is signed by at least two thirds of them, and by no more
    than there are. *)
Lemma party_threshold_bounds n : 1 <= n → 2 * n <= 3 * (threshold_of n + 1) ∧ 0 <= threshold_of n ∧ threshold_of n + 1 <= n.
Proof. intros Hn. rewrite threshold_eq by lia. Z.to_euclidean_division_equations; lia. Qed.

Lemma min_parties_spec fuel n t :
  0 <= t < n → (∀ k, 0 <= k < n → threshold_of k < t) → 3 * t + 2 < 2 * (n + Z.of_nat fuel) →
  ∃ k, min_parties fuel n t = Some k ∧ n <= k ∧ t <= threshold_of k ∧ ∀ j, 0 <= j < k → threshold_of j < t.
Proof.
  revert n. induction fuel as [|fuel IH]; intros n Hn Hbelow Hf.
  - exfalso. pose proof (Hbelow (n - 1) ltac:(lia)) as Hl. rewrite threshold_eq in Hl by lia. Z.to_euclidean_division_equations; lia.
  - cbn [min_parties]. destruct (Z.leb_spec t (threshold_of n)) as [Ht|Ht]; [by exists n|].
    destruct (IH (n + 1)) as (k & -> & Hk & Hs); [lia| |lia|].
    + intros j Hj. destruct (Z.eq_dec j n) as [->|]; [done|]. apply Hbelow. lia.
    + exists k. split_and!; [done|lia|apply Hs|apply Hs].
Qed.

(** The loop ends, at the least number of parties. *)
Lemma minParties_least t :
  0 <= t → t <= threshold_of (minPartiesForThreshold t) ∧ ∀ k, 0 <= k < minPartiesForThreshold t → threshold_of k < t.
Proof.
  intros Ht. unfold minPartiesForThreshold. destruct (min_parties_spec (S (Z.to_nat t)) (t + 1) t) as (k & -> & _ & Hs); [lia| |lia|done].
  intros k Hk. rewrite threshold_eq by lia. Z.to_euclidean_division_equations; lia.
Qed.

Lemma minParties_enough t n : 0 <= t → minPartiesForThreshold t <= n → t <= threshold_of n.
Proof.
  intros Ht Hn. destruct (minParties_least t Ht) as [Hmin Hleast].
  assert (0 <= minPartiesForThreshold t).
  { destruct (Z.lt_ge_cases (minPartiesForThreshold t) 0) as [Hl|]; [|done]. exfalso. unfold threshold_of, GetThreshold in Hmin.
    destruct (Z.ltb_spec (minPartiesForThreshold t) 0); [|lia]. cbn in Hmin. assert (t = 0) as -> by lia. by vm_compute in Hl. }
  etrans; [exact Hmin|]. apply threshold_mono. lia.
Qed.

(** A key at the floor still needs more than half of the committee. *)
Lemma floor_majority n t : 0 <= n → reshareThresholdFloor n <= t → 0 <= t → n < 2 * (t + 1).
Proof.
  intros Hn Hf Ht. unfold reshareThresholdFloor in Hf. destruct (Z.eq_dec n 0) as [->|]; [lia|].
  rewrite threshold_eq in Hf by done. Z.to_euclidean_division_equations; lia.
Qed.

Lemma floor_nonneg n : 1 <= n → 0 <= reshareThresholdFloor n.
Proof. intros Hn. unfold reshareThresholdFloor. pose proof (party_threshold_bounds n Hn). Z.to_euclidean_division_equations; lia. Qed.

(** ** Lemmas: counts and lists *)

Lemma tally_app m l l' : tally m (l ++ l') = tally (tally m l) l'.
Proof. unfold tally. apply foldl_app. Qed.

Lemma tally_perm m l l' : l ≡ₚ l' → tally m l = tally m l'.
Proof.
  intros Hp. revert m. induction Hp as [|x l l' _ IH|x y l|l1 l2 l3 _ IH1 _ IH2]; intros m; [done|apply IH| |by rewrite IH1].
  unfold tally. cbn [foldl]. f_equal. destruct (decide (x = y)) as [->|Hne]; [done|].
  rewrite !zget_insert. destruct (String.eqb_spec x y), (String.eqb_spec y x); try done. by apply insert_insert_ne.
Qed.

Lemma tally_dom m l : dom (tally m l) = dom m ∪ list_to_set l.
Proof.
  revert m. induction l as [|a l IH]; intros m; cbn; [set_solver|]. unfold tally in IH. rewrite IH, dom_insert_L. set_solver.
Qed.

Lemma filter_notin_length (X : gset string) l :
  NoDup l → (length (filter (λ a, a ∉ X) l) + size (X ∩ list_to_set l) = length l)%nat.
Proof.
  induction 1 as [|a l Ha Hnd IH]; [cbn; assert (X ∩ ∅ = ∅) as -> by set_solver; by rewrite size_empty|]. rewrite filter_cons. cbn [list_to_set].
  destruct (decide (a ∉ X)) as [HX|HX].
  - assert (X ∩ ({[a]} ∪ list_to_set l) = X ∩ list_to_set l) as -> by set_solver. cbn [length]. lia.
  - apply dec_stable in HX. assert (X ∩ ({[a]} ∪ list_to_set l) = {[a]} ∪ X ∩ list_to_set l) as -> by set_solver.
    rewrite size_union, size_singleton by set_solver. cbn [length]. lia.
Qed.

Lemma NoDup_incl_len (l l' : list string) : NoDup l → (∀ a, a ∈ l → a ∈ l') → len l <= len l'.
Proof. intros Hnd Hin. unfold len. apply inj_le, submseteq_length. by apply NoDup_submseteq. Qed.

Lemma usable_elem blamed banned ready l a :
  a ∈ usable blamed banned ready l ↔ a ∈ l ∧ (a ∉ blamed) ∧ (a ∉ banned) ∧ a ∈ ready.
Proof. unfold usable. rewrite list_elem_of_filter. tauto. Qed.

Lemma usable_NoDup blamed banned ready l : NoDup l → NoDup (usable blamed banned ready l).
Proof. apply NoDup_filter. Qed.

Lemma seats_sublist bits members : seats_set bits members `sublist_of` (em_Account <$> members).
Proof.
  unfold seats_set. assert (snd <$> imap pair members = members) as Hs.
  { rewrite fmap_imap, (imap_ext _ (const id)) by done. by rewrite imap_const, list_fmap_id. }
  rewrite <- Hs at 2. generalize (imap pair members). clear. intros l.
  induction l as [|[i m] l IH]; [done|]. cbn. destruct (Z.testbit bits (Z.of_nat i)); by constructor.
Qed.

(** ** Lemmas: readmission *)

Section readmission.
Context (need : Z) (eligible ready blamed accused : gset string).

Definition readmissible (a : string) : Prop := a ∈ eligible ∧ a ∈ ready ∧ (a ∉ blamed) ∧ a ∉ accused.

Lemma readmit_elem banOrder selected a :
  a ∈ readmit need eligible ready blamed accused banOrder selected → a ∈ selected ∨ (a ∈ banOrder ∧ readmissible a).
Proof.
  revert selected. induction banOrder as [|b banOrder IH]; intros selected; cbn [readmit]; [by left|].
  destruct (need <=? len selected); [by left|]. repeat case_bool_decide; cbn [orb]; intros Ha;
    (apply IH in Ha as [Ha|[Ha Hr]]; [|by right; split; [right|]]); try by left.
  apply elem_of_app in Ha as [Ha| ->%list_elem_of_singleton]; [by left|]. right. split; [left|]. unfold readmissible. tauto.
Qed.

Lemma readmit_NoDup banOrder selected : NoDup selected → NoDup (readmit need eligible ready blamed accused banOrder selected).
Proof.
  revert selected. induction banOrder as [|b banOrder IH]; intros selected Hnd; cbn [readmit]; [done|].
  destruct (need <=? len selected); [done|]. repeat case_bool_decide; cbn [orb]; apply IH; try done.
  apply NoDup_app. split_and!; [done| |apply NoDup_singleton]. intros x Hx ->%list_elem_of_singleton. done.
Qed.

Lemma readmit_keeps banOrder selected a : a ∈ selected → a ∈ readmit need eligible ready blamed accused banOrder selected.
Proof.
  revert selected. induction banOrder as [|b banOrder IH]; intros selected Ha; cbn [readmit]; [done|].
  destruct (need <=? len selected); [done|]. repeat case_bool_decide; cbn [orb]; apply IH; try done. apply elem_of_app. by left.
Qed.

(** Either enough parties or everyone who can be let back in. *)
Lemma readmit_fills banOrder selected :
  need <= len (readmit need eligible ready blamed accused banOrder selected) ∨
  ∀ a, a ∈ banOrder → readmissible a → a ∈ readmit need eligible ready blamed accused banOrder selected.
Proof.
  revert selected. induction banOrder as [|b banOrder IH]; intros selected; cbn [readmit]; [right; by intros a ?%not_elem_of_nil|].
  destruct (Z.leb_spec need (len selected)); [by left|].
  assert (∀ sel, (readmissible b → b ∈ sel) →
            need <= len (readmit need eligible ready blamed accused banOrder sel) ∨
            ∀ a, a ∈ b :: banOrder → readmissible a → a ∈ readmit need eligible ready blamed accused banOrder sel) as Hgo.
  { intros sel Hb. destruct (IH sel) as [?|Hall]; [by left|]. right. intros a [->|Ha]%elem_of_cons Hr; [|by apply Hall].
    apply readmit_keeps. by apply Hb. }
  repeat case_bool_decide; cbn [orb]; apply Hgo; unfold readmissible; intros; try tauto. apply elem_of_app. right. by left.
Qed.

(** When enough of the accounts of a list are ready and unblamed, and those banned
    among them are in the ban order, enough parties are selected. *)
Lemma readmit_enough banOrder selected l :
  NoDup l → need <= len l → (∀ a, a ∈ l → a ∈ selected ∨ (a ∈ banOrder ∧ readmissible a)) →
  need <= len (readmitBanned selected need banOrder eligible ready blamed accused).
Proof.
  intros Hnd Hl Hall. unfold readmitBanned. destruct (Z.leb_spec need (len selected)); [done|].
  destruct (readmit_fills banOrder selected) as [?|Hin]; [done|]. etrans; [exact Hl|]. apply NoDup_incl_len; [done|].
  intros a Ha. destruct (Hall a Ha) as [Hs|[Hb Hr]]; [by apply readmit_keeps|by apply Hin].
Qed.

Lemma readmitBanned_elem banOrder selected a :
  a ∈ readmitBanned selected need banOrder eligible ready blamed accused → a ∈ selected ∨ (a ∈ banOrder ∧ readmissible a).
Proof. unfold readmitBanned. destruct (need <=? len selected); [by left|]. apply readmit_elem. Qed.

Lemma readmitBanned_NoDup banOrder selected :
  NoDup selected → NoDup (readmitBanned selected need banOrder eligible ready blamed accused).
Proof. unfold readmitBanned. destruct (need <=? len selected); [done|]. apply readmit_NoDup. Qed.
End readmission.

(** ** Lemmas: accused parties *)

Definition zsize (X : gset string) : Z := Z.of_nat (size X).

Lemma zsize_add a (X Y : gset string) :
  a ∉ X → zsize (({[a]} ∪ X) ∩ Y) = zsize (X ∩ Y) + (if bool_decide (a ∈ Y) then 1 else 0).
Proof.
  intros Ha. unfold zsize. case_bool_decide.
  - assert (({[a]} ∪ X) ∩ Y = {[a]} ∪ X ∩ Y) as -> by set_solver. rewrite size_union, size_singleton by set_solver. lia.
  - assert (({[a]} ∪ X) ∩ Y = X ∩ Y) as -> by set_solver. lia.
Qed.

Lemma zsize_union a (X : gset string) : a ∉ X → zsize ({[a]} ∪ X) = zsize X + 1.
Proof. intros Ha. unfold zsize. rewrite size_union, size_singleton by set_solver. lia. Qed.

Lemma exclude_spec alreadyOut inOld order slots out :
  NoDup order → (∀ a, a ∈ order → a ∉ out) →
  let res := exclude alreadyOut inOld order slots out in
  out ⊆ res ∧ res ⊆ out ∪ list_to_set order ∧ zsize (res ∩ inOld) <= zsize (out ∩ inOld) + Z.max 0 slots ∧
  zsize res <= Z.max (zsize out) (accuseMaxExclusions - alreadyOut).
Proof.
  revert slots out. induction order as [|a order IH]; intros slots out Hnd Hfresh; cbn [exclude]; [split_and!; [set_solver|set_solver|lia|lia]|].
  fold (zsize out). apply NoDup_cons in Hnd as [Ha Hnd]. assert (a ∉ out) as Hout by (apply Hfresh; left).
  destruct (Z.leb_spec accuseMaxExclusions (zsize out + alreadyOut)); [split_and!; [set_solver|set_solver|lia|lia]|].
  assert (∀ b, b ∈ order → b ∉ {[a]} ∪ out) as Hf.
  { intros b Hb. assert (b ∉ out) by (apply Hfresh; by right). assert (b ≠ a) by (intros ->; done). set_solver. }
  pose proof (zsize_add a out inOld Hout) as Hs. pose proof (zsize_union a out Hout). case_bool_decide.
  - destruct (Z.leb_spec slots 0); [split_and!; [set_solver|set_solver|lia|lia]|].
    destruct (IH (slots - 1) ({[a]} ∪ out) Hnd Hf) as (R1 & R2 & R3 & R4). cbn zeta. split_and!; [set_solver|set_solver|lia|lia].
  - destruct (IH slots ({[a]} ∪ out) Hnd Hf) as (R1 & R2 & R3 & R4). cbn zeta. split_and!; [set_solver|set_solver|lia|lia].
Qed.

Record stacked_ok (alreadyOut : Z) (inOld inNew : gset string) (order : list string) (oldSlots newSlots : Z) (out res : gset string) : Prop := mkStackedOk {
  so_keeps : out ⊆ res;
  so_from : res ⊆ out ∪ list_to_set order;
  so_listed : res ⊆ inOld ∪ inNew;
  so_old : zsize (res ∩ inOld) <= zsize (out ∩ inOld) + Z.max 0 oldSlots;
  so_new : zsize (res ∩ inNew) <= zsize (out ∩ inNew) + Z.max 0 newSlots;
  so_size : zsize res <= Z.max (zsize out) (accuseMaxExclusionsStacked - alreadyOut);
}.

Lemma stacked_take alreadyOut inOld inNew a order oldSlots newSlots out res :
  a ∉ out → zsize out + alreadyOut < accuseMaxExclusionsStacked →
  (a ∈ inOld → 0 < oldSlots) → (a ∈ inNew → 0 < newSlots) →
  stacked_ok alreadyOut inOld inNew order (if bool_decide (a ∈ inOld) then oldSlots - 1 else oldSlots)
    (if bool_decide (a ∈ inNew) then newSlots - 1 else newSlots) ({[a]} ∪ out) res →
  stacked_ok alreadyOut inOld inNew (a :: order) oldSlots newSlots out res.
Proof.
  intros Hout Hs Ho Hn [Hkeep Hfrom Hl Hold Hnew Hsize]. pose proof (zsize_add a out inOld Hout) as E1. pose proof (zsize_add a out inNew Hout) as E2.
  pose proof (zsize_union a out Hout) as E3. split; [clear -Hkeep; set_solver|clear -Hfrom; set_solver|done| | |lia]; clear -E1 E2 Ho Hn Hold Hnew.
  - destruct (bool_decide_reflect (a ∈ inOld)) as [H|]; [specialize (Ho H)|]; lia.
  - destruct (bool_decide_reflect (a ∈ inNew)) as [H|]; [specialize (Hn H)|]; lia.
Qed.

Lemma exclude_stacked_spec alreadyOut inOld inNew order oldSlots newSlots out :
  NoDup order → (∀ a, a ∈ order → a ∉ out) → out ⊆ inOld ∪ inNew →
  stacked_ok alreadyOut inOld inNew order oldSlots newSlots out (exclude_stacked alreadyOut inOld inNew order oldSlots newSlots out).
Proof.
  revert oldSlots newSlots out. induction order as [|a order IH]; intros oldSlots newSlots out Hnd Hfresh Hsub;
    (assert (∀ l, stacked_ok alreadyOut inOld inNew l oldSlots newSlots out out) as Hstop by (clear -Hsub; split; [done|set_solver|done|lia|lia|lia]));
    cbn [exclude_stacked]; [apply Hstop|]. fold (zsize out).
  apply NoDup_cons in Hnd as [Ha Hnd]. assert (a ∉ out) as Hout by (apply Hfresh; left).
  assert (∀ b, b ∈ order → b ∉ out) as Hf' by (intros b Hb; apply Hfresh; by right).
  destruct (Z.leb_spec accuseMaxExclusionsStacked (zsize out + alreadyOut)); [apply Hstop|].
  destruct (negb _ && negb _) eqn:Hin.
  { destruct (IH oldSlots newSlots out Hnd Hf' Hsub) as [R0 R1 R2 R3 R4 R5]. split; try done. clear -R1. set_solver. }
  destruct (_ || _) eqn:Hfull; [apply Hstop|]. apply orb_false_iff in Hfull as [Hfo Hfn]. apply stacked_take; [done|done| | |].
  - intros Ho. rewrite (bool_decide_true _ Ho) in Hfo. cbn in Hfo. lia.
  - intros Hn. rewrite (bool_decide_true _ Hn) in Hfn. cbn in Hfn. lia.
  - apply IH; [done| |].
    + intros b Hb. assert (b ≠ a) by (intros ->; done). pose proof (Hf' b Hb) as Hb'. clear -Hb' H0. set_solver.
    + apply andb_false_iff in Hin as [Hin|Hin]; apply negb_false_iff, bool_decide_eq_true in Hin; clear -Hin Hsub; set_solver.
Qed.

Definition named_key (kv : string * Z) : key := (kv.2, 0, kv.1).

Lemma named_cmp_key a b : named_cmp a b <= 0 ↔ key_le (named_key a) (named_key b).
Proof.
  unfold named_cmp, key_le, named_key. cbn. pose proof (strings_Compare_le a.1 b.1) as Hs.
  destruct (Z.eqb_spec a.2 b.2); cbn [negb]; [|split; [lia|intros [?|[? _]]; lia]]. rewrite Hs.
  split; [intros; right; split; [done|]; by right|intros [?|[_ [?|[_ ?]]]]; [lia|lia|done]].
Qed.

Section accused.
Context (range : gmap string Z → list (string * Z)) (Hrange : range_ok range).

Lemma accuse_order_NoDup counts : NoDup (accuse_order range counts).
Proof.
  unfold accuse_order. rewrite (SortFunc_Permutation named_cmp). eapply sublist_NoDup; [|apply fmap_sublist, sublist_filter].
  rewrite (Hrange counts). apply NoDup_fst_map_to_list.
Qed.

Lemma accuse_order_elem counts a : a ∈ accuse_order range counts → a ∈ dom counts.
Proof.
  unfold accuse_order. rewrite (SortFunc_Permutation named_cmp). intros ([k v] & -> & [_ Hin]%list_elem_of_filter)%list_elem_of_fmap.
  rewrite (Hrange counts), elem_of_map_to_list in Hin. by apply elem_of_dom_2 in Hin.
Qed.

(** The order does not depend on the order of the map. *)
Lemma accuse_order_range range' counts : range_ok range' → accuse_order range counts = accuse_order range' counts.
Proof.
  intros Hr'. unfold accuse_order. f_equal. apply (SortFunc_perm named_cmp named_key named_cmp_key).
  - apply (NoDup_fmap_1 (λ k : key, k.2)). rewrite <- list_fmap_compose.
    eapply sublist_NoDup; [|apply fmap_sublist, sublist_filter]. rewrite (Hrange counts). apply NoDup_fst_map_to_list.
  - by rewrite (Hrange counts), (Hr' counts).
Qed.

Lemma kept_len (out : gset string) l : NoDup l → len (filter (λ a, a ∉ out) l) = len l - zsize (out ∩ list_to_set l).
Proof. intros Hnd. pose proof (filter_notin_length out l Hnd). unfold len, zsize. lia. Qed.

(** What is left out: accused parties only, at most one (two when they stack), and
    never so many that a list falls below its quorum. *)
Lemma exclusions_ok oldList newList counts full alreadyOut newMin stack ko kn out :
  NoDup oldList → NoDup newList →
  applyAccusedExclusions range oldList newList counts full alreadyOut newMin stack = (ko, kn, out) →
  ko = filter (λ a, a ∉ out) oldList ∧ kn = filter (λ a, a ∉ out) newList ∧ out ⊆ dom counts ∧
  zsize out <= Z.max 0 ((if stack then accuseMaxExclusionsStacked else accuseMaxExclusions) - alreadyOut) ∧
  Z.min (len oldList) (threshold_of full + 1) <= len ko ∧ Z.min (len newList) newMin <= len kn ∧
  (stack = true → out ⊆ list_to_set oldList ∪ list_to_set newList).
Proof.
  intros Hold Hnew. unfold applyAccusedExclusions. cbn zeta. set (oldMin := threshold_of full + 1).
  set (o := if stack then _ else _).
  assert (o ⊆ dom counts ∧ zsize o <= Z.max 0 ((if stack then accuseMaxExclusionsStacked else accuseMaxExclusions) - alreadyOut) ∧
          zsize (o ∩ list_to_set oldList) <= Z.max 0 (len oldList - oldMin) ∧
          (stack = true → o ⊆ list_to_set oldList ∪ list_to_set newList)) as (Hdom & Hsize & Hslots & Hlisted).
  { pose proof (accuse_order_NoDup counts) as Hnd. pose proof (accuse_order_elem counts) as Hel.
    assert (zsize ∅ = 0) as E0 by done. assert (∀ X : gset string, zsize (∅ ∩ X) = 0) as E1.
    { intros X. unfold zsize. assert (∅ ∩ X = ∅) as -> by set_solver. done. }
    unfold o. destruct stack.
    - destruct (exclude_stacked_spec alreadyOut (list_to_set oldList) (list_to_set newList) (accuse_order range counts) (len oldList - oldMin)
                  (if 0 <? newMin then len newList - newMin else len newList) ∅ Hnd) as [_ Hf Hl Ho _ Hz]; [set_solver..|].
      fold (selectAccusedExclusionsStacked (accuse_order range counts) oldList newList oldMin newMin alreadyOut) in Hf, Hl, Ho, Hz.
      rewrite E1 in Ho. rewrite E0 in Hz. split_and!; [|done|lia|done]. intros a Ha. apply Hel. clear -Hf Ha. set_solver.
    - destruct (exclude_spec alreadyOut (list_to_set oldList) (accuse_order range counts) (len oldList - oldMin) ∅ Hnd) as (_ & Hf & Ho & Hz); [set_solver|].
      fold (selectAccusedExclusions (accuse_order range counts) oldList oldMin alreadyOut) in Hf, Ho, Hz.
      rewrite E1 in Ho. rewrite E0 in Hz. split_and!; [|done|lia|done]. intros a Ha. apply Hel. clear -Hf Ha. set_solver. }
  destruct (bool_decide _ && _) eqn:Hdrop; intros [= <- <- <-].
  - assert (∀ (X : gset string) (l : list string), X = ∅ → filter (λ a, a ∉ X) l = l) as Hid by (intros X l ->; apply filter_all; set_solver).
    rewrite !Hid by done. split_and!; [done|done|set_solver|change (zsize ∅) with 0; lia|lia|lia|set_solver].
  - split_and!; [done|done|done|done| | |done]; [rewrite kept_len by done; lia|].
    apply andb_false_iff in Hdrop as [Hd|Hd]; [|lia]. apply bool_decide_eq_false, dec_stable in Hd. rewrite kept_len by done.
    rewrite Hd. unfold zsize. assert (∅ ∩ list_to_set newList = (∅ : gset string)) as -> by set_solver. rewrite size_empty. lia.
Qed.
End accused.

(** ** Lemmas: the stacked exclusions *)

Lemma exclude_first alreadyOut inOld order slots :
  0 <= alreadyOut →
  ∀ a, a ∈ exclude alreadyOut inOld order slots ∅ → ∃ rest, order = a :: rest ∧ alreadyOut = 0 ∧ (a ∈ inOld → 0 < slots).
Proof.
  intros Hal a. destruct order as [|b order]; cbn [exclude]; [set_solver|]. rewrite size_empty.
  assert (∀ s, exclude alreadyOut inOld order s ({[b]} ∪ ∅) = {[b]}) as Hone.
  { intros s. assert ({[b]} ∪ ∅ = ({[b]} : gset string)) as -> by set_solver. destruct order as [|c order]; [done|]. cbn [exclude].
    rewrite size_singleton. unfold accuseMaxExclusions. destruct (Z.leb_spec 1 (Z.of_nat 1 + alreadyOut)); [done|lia]. }
  unfold accuseMaxExclusions. destruct (Z.leb_spec 1 (Z.of_nat 0 + alreadyOut)); [set_solver|]. case_bool_decide as Hin.
  - destruct (Z.leb_spec slots 0); [set_solver|]. rewrite Hone. intros ->%elem_of_singleton. exists order. split_and!; [done|lia|lia].
  - rewrite Hone. intros ->%elem_of_singleton. exists order. split_and!; [done|lia|done].
Qed.

Lemma stacked_first inOld inNew a rest oldSlots newSlots :
  NoDup (a :: rest) → a ∈ inOld ∪ inNew → (a ∈ inOld → 0 < oldSlots) → (a ∈ inNew → 0 < newSlots) →
  a ∈ exclude_stacked 0 inOld inNew (a :: rest) oldSlots newSlots ∅.
Proof.
  intros [Ha Hnd]%NoDup_cons Hin Ho Hn. cbn [exclude_stacked]. rewrite size_empty. cbn [Z.of_nat Z.add accuseMaxExclusionsStacked Z.leb Z.compare].
  destruct (negb _ && negb _) eqn:Hl.
  { apply andb_true_iff in Hl as [H1%negb_true_iff%bool_decide_eq_false H2%negb_true_iff%bool_decide_eq_false]. set_solver. }
  destruct (_ || _) eqn:Hf.
  { exfalso. apply orb_true_iff in Hf as [[H1%bool_decide_eq_true H2]%andb_true_iff|[H1%bool_decide_eq_true H2]%andb_true_iff];
      [specialize (Ho H1)|specialize (Hn H1)]; lia. }
  apply (so_keeps _ _ _ rest _ _ ({[a]} ∪ ∅) _ (exclude_stacked_spec 0 inOld inNew rest _ _ ({[a]} ∪ ∅) Hnd
    ltac:(intros b Hb; assert (b ≠ a) by (intros ->; done); set_solver) ltac:(clear -Hin; set_solver))). set_solver.
Qed.

(** Stacking never lets a party of either list back in: a listed party that the
    older rule leaves out of a reshare is left out by the stacked rule too. *)
Theorem stack_excludes_more range oldList newList counts full alreadyOut newMin a :
  range_ok range → NoDup oldList → NoDup newList → 0 <= alreadyOut → a ∈ oldList ∨ a ∈ newList →
  a ∈ (applyAccusedExclusions range oldList newList counts full alreadyOut newMin false).2 →
  a ∈ (applyAccusedExclusions range oldList newList counts full alreadyOut newMin true).2.
Proof.
  intros Hrange Hold Hnew Hal Hin. unfold applyAccusedExclusions. cbn zeta. set (oldMin := threshold_of full + 1).
  set (o1 := selectAccusedExclusions _ _ _ _). set (o2 := selectAccusedExclusionsStacked _ _ _ _ _ _).
  destruct (bool_decide (o1 ≠ ∅) && _) eqn:Hd1; cbn [snd]; [set_solver|]. intros Ha.
  apply andb_false_iff in Hd1 as [Hd1|Hd1]; [apply bool_decide_eq_false, dec_stable in Hd1; set_solver|].
  rewrite kept_len in Hd1 by done. pose proof Ha as Ha'. apply exclude_first in Ha' as (rest & Hord & -> & Hslot); [|done].
  pose proof (accuse_order_NoDup range Hrange counts) as Hnd. rewrite Hord in Hnd.
  assert (a ∈ newList → 1 <= zsize (o1 ∩ list_to_set newList)) as Hone.
  { intros Hn. unfold zsize. assert ({[a]} ⊆ o1 ∩ list_to_set newList) as Hs%subseteq_size by set_solver. rewrite size_singleton in Hs. lia. }
  assert (a ∈ o2) as Ha2.
  { unfold o2, selectAccusedExclusionsStacked. rewrite Hord. apply stacked_first; [done|set_solver|done|].
    intros Hn%elem_of_list_to_set. specialize (Hone Hn). destruct (Z.ltb_spec 0 newMin); [lia|].
    unfold len. destruct newList; [by apply not_elem_of_nil in Hn|]. cbn [length]. lia. }
  destruct (bool_decide (o2 ≠ ∅) && _) eqn:Hd2; [|done]. exfalso. apply andb_true_iff in Hd2 as [_ Hd2]. rewrite kept_len in Hd2 by done.
  pose proof (so_new _ _ _ _ _ _ _ _ (exclude_stacked_spec 0 (list_to_set oldList) (list_to_set newList) (a :: rest) (len oldList - oldMin)
    (if 0 <? newMin then len newList - newMin else len newList) ∅ Hnd ltac:(set_solver) ltac:(set_solver))) as Hb.
  rewrite <- Hord in Hb. fold o2 in Hb. assert (zsize (∅ ∩ list_to_set newList) = 0) as E0.
  { unfold zsize. assert (∅ ∩ list_to_set newList = (∅ : gset string)) as -> by set_solver. done. }
  fold (selectAccusedExclusionsStacked (accuse_order range counts) oldList newList oldMin newMin 0) in Hb. fold o2 in Hb. rewrite E0 in Hb.
  assert (0 <= zsize (o1 ∩ list_to_set newList)) by (unfold zsize; lia). assert (0 <= len newList) by (unfold len; lia). destruct (Z.ltb_spec 0 newMin); lia.
Qed.

(** ** Lemmas: bans *)

Section bans.
Context (r : tss_reads) (current : gset string).

(** The accounts an election's blames add to the weights and to the scores. *)
Definition counted (e : ElectionResult) (c : TssCommitment) : bool :=
  negb (max_blamed (len (el_Members e)) <? len (seats_set (read_bits (tc_Commitment c)) (el_Members e))).

Definition weight_incs (e : ElectionResult) : list string :=
  rd_GetBlames r (el_Epoch e) ≫= λ c, if counted e c then filter (λ a, a ∈ current) (accounts_of e) else [].

Definition blame_incs (e : ElectionResult) : list string :=
  rd_GetBlames r (el_Epoch e) ≫= λ c,
    if counted e c then filter (λ a, a ∈ current) (seats_set (read_bits (tc_Commitment c)) (el_Members e)) else [].

Lemma count_election_incs acc e : count_election r current acc e = (tally acc.1 (weight_incs e), tally acc.2 (blame_incs e)).
Proof.
  unfold count_election, weight_incs, blame_incs. generalize (rd_GetBlames r (el_Epoch e)). intros rows. revert acc.
  induction rows as [|c rows IH]; intros [w b]; [done|]. cbn [foldl]. rewrite IH, !bind_cons, !tally_app. unfold count_blame, counted. cbn zeta.
  by destruct (_ <? _).
Qed.

Lemma count_elections es acc : foldl (count_election r current) acc es = (tally acc.1 (es ≫= weight_incs), tally acc.2 (es ≫= blame_incs)).
Proof.
  revert acc. induction es as [|e es IH]; intros acc; [by destruct acc|]. cbn [foldl]. rewrite IH, count_election_incs, !bind_cons, !tally_app. done.
Qed.

Lemma count_elections_perm es es' : es ≡ₚ es' → foldl (count_election r current) (∅, ∅) es = foldl (count_election r current) (∅, ∅) es'.
Proof. intros Hp. rewrite !count_elections. f_equal; apply tally_perm; by rewrite Hp. Qed.

Lemma weights_dom es : dom (tally ∅ (es ≫= weight_incs)) ⊆ current.
Proof.
  rewrite tally_dom. intros a [Ha|Ha]%elem_of_union; [set_solver|]. apply elem_of_list_to_set, list_elem_of_bind in Ha as (e & Ha & _).
  unfold weight_incs in Ha. apply list_elem_of_bind in Ha as (c & Ha & _). destruct (counted e c); [|by apply not_elem_of_nil in Ha].
  by apply list_elem_of_filter in Ha as [Ha _].
Qed.
End bans.

Lemma ban_steps maxBans entries banned :
  0 <= maxBans → len banned <= maxBans → NoDup (banned ++ (sc_Account <$> entries)) →
  let res := foldl (ban_step maxBans) banned entries in
  len res <= maxBans ∧ NoDup res ∧
  ∀ a, a ∈ res → a ∈ banned ∨ ∃ x, x ∈ entries ∧ sc_Account x = a ∧ TSS_BAN_GRACE_PERIOD_EPOCHS <= sc_EpochsSinceFirst x ∧
    sc_Weight x * TSS_BAN_THRESHOLD_PERCENT / 100 < sc_Score x.
Proof.
  intros Hm. revert banned. induction entries as [|x entries IH]; intros banned Hl Hnd.
  { rewrite app_nil_r in Hnd. cbn. split_and!; [done|done|by left]. }
  rewrite fmap_cons in Hnd. cbn [foldl]. assert (NoDup (banned ++ (sc_Account <$> entries))) as Hskip.
  { rewrite <- Permutation_middle in Hnd. by apply NoDup_cons in Hnd as [_ ?]. }
  assert (∀ b, len b <= maxBans → NoDup (b ++ (sc_Account <$> entries)) →
    (∀ a, a ∈ b → a ∈ banned ∨ (a = sc_Account x ∧ TSS_BAN_GRACE_PERIOD_EPOCHS <= sc_EpochsSinceFirst x ∧
       sc_Weight x * TSS_BAN_THRESHOLD_PERCENT / 100 < sc_Score x)) →
    let res := foldl (ban_step maxBans) b entries in
    len res <= maxBans ∧ NoDup res ∧
    ∀ a, a ∈ res → a ∈ banned ∨ ∃ y, y ∈ x :: entries ∧ sc_Account y = a ∧ TSS_BAN_GRACE_PERIOD_EPOCHS <= sc_EpochsSinceFirst y ∧
      sc_Weight y * TSS_BAN_THRESHOLD_PERCENT / 100 < sc_Score y) as Hgo.
  { intros b Hb Hbn Hba. destruct (IH b Hb Hbn) as (R1 & R2 & R3). split_and!; [done|done|]. intros a Ha.
    destruct (R3 a Ha) as [Hin|(y & Hy & ?)]; [|right; exists y; split; [by right|done]].
    destruct (Hba a Hin) as [?|(-> & ? & ?)]; [by left|right; exists x; split_and!; [left|done..]]. }
  apply Hgo; unfold ban_step; destruct (Z.ltb_spec (sc_EpochsSinceFirst x) TSS_BAN_GRACE_PERIOD_EPOCHS); try done; try by left.
  all: destruct ((0 <? _) && _) eqn:Hc; try done; try by left.
  all: destruct (Z.leb_spec maxBans (len banned)); try done; try by left.
  - unfold len in *. rewrite length_app. cbn [length]. lia.
  - by rewrite <- app_assoc.
  - apply andb_true_iff in Hc as [_ Hc%Z.ltb_lt]. intros a [Ha|Ha%list_elem_of_singleton]%elem_of_app; [by left|by right].
Qed.

Definition score_key (s : score) : key := (sc_Score s, 0, sc_Account s).

Lemma score_cmp_key a b : score_cmp a b <= 0 ↔ key_le (score_key a) (score_key b).
Proof. apply (named_cmp_key (sc_Account a, sc_Score a) (sc_Account b, sc_Score b)). Qed.

(** The earliest election that seated a current member. *)
Lemma track_epochs_spec current previous m :
  (∀ a f, foldl (track_epochs current) m previous !! a = Some f → m !! a = Some f ∨ ∃ e, e ∈ previous ∧ a ∈ accounts_of e ∧ el_Epoch e = f).
Proof.
  revert m. induction previous as [|e previous IH]; intros m a f Hf; [by left|]. cbn [foldl] in Hf.
  apply IH in Hf as [Hf|(e' & ? & ?)]; [|right; exists e'; split; [by right|done]].
  assert (∀ l m, (∀ x, x ∈ l → x ∈ accounts_of e) → foldl (first_epoch current e) m l !! a = Some f → m !! a = Some f ∨ (a ∈ accounts_of e ∧ el_Epoch e = f)) as Hin.
  { clear. induction l as [|x l IHl]; intros m Hl Hf; [by left|]. cbn [foldl] in Hf. apply IHl in Hf as [Hf|?]; [|by right|intros; apply Hl; by right].
    assert (first_epoch current e m x = m ∨ first_epoch current e m x = <[x := el_Epoch e]> m) as [Hx|Hx].
    { unfold first_epoch. case_bool_decide; [|by left]. destruct (m !! x); [|by right]. destruct (_ <? _); auto. }
    - left. by rewrite Hx in Hf.
    - rewrite Hx in Hf. apply lookup_insert_Some in Hf as [[-> <-]|[_ Hf]]; [right; split; [apply Hl; left|done]|by left]. }
  apply Hin in Hf as [?|[? ?]]; [by left|right; exists e; split; [left|done]|done].
Qed.

Definition erange_ok (erange : gmap Z ElectionResult → list (Z * ElectionResult)) : Prop := ∀ m, erange m ≡ₚ map_to_list m.

Section blame_score.
Context (r : tss_reads) (erange : gmap Z ElectionResult → list (Z * ElectionResult)) (range : gmap string Z → list (string * Z)).
Context (Hrange : range_ok range) (Herange : erange_ok erange) (e : ElectionResult).

Let s := BlameScore r erange range e.

Lemma ban_order_set : BannedNodes s = list_to_set (BanOrder s).
Proof. unfold s, BlameScore. case_bool_decide; [done|]. cbn. apply set_eq. intros a. by rewrite !elem_of_list_to_set, elem_of_reverse. Qed.

Lemma score_entries first blame epoch (m : gmap string Z) :
  NoDup (sc_Account <$> SortFunc score_cmp (make_score first blame epoch <$> range m)).
Proof.
  rewrite (SortFunc_Permutation score_cmp), <- list_fmap_compose. rewrite (list_fmap_ext _ fst); [|by intros].
  rewrite (Hrange m). apply NoDup_fst_map_to_list.
Qed.

Lemma ban_order_spec :
  len (BanOrder s) <= Z.max 0 (max_blamed (len (el_Members e))) ∧ NoDup (BanOrder s) ∧
  ∀ a, a ∈ BanOrder s → a ∈ accounts_of e ∧
    ∃ e', e' ∈ rd_GetPreviousElections r (el_Epoch e) TSS_BLAME_EPOCH_COUNT ∧ a ∈ accounts_of e' ∧
      el_Epoch e' + TSS_BAN_GRACE_PERIOD_EPOCHS <= el_Epoch e.
Proof.
  unfold s, BlameScore. case_bool_decide; cbn [BanOrder].
  { split_and!; [unfold len; cbn [length]; lia|constructor|by intros a ?%not_elem_of_nil]. }
  set (current := list_to_set (accounts_of e) : gset string). rewrite count_elections. cbn [fst snd]. set (first := foldl _ ∅ _).
  set (m := tally ∅ (_ ≫= weight_incs _ _)). set (blame := tally ∅ _). set (maxBans := Z.max 0 _).
  destruct (ban_steps maxBans (SortFunc score_cmp (make_score first blame (el_Epoch e) <$> range m)) []) as (R1 & R2 & R3);
    [lia|unfold len; cbn [length]; lia|apply score_entries|]. split_and!.
  - unfold len in *. by rewrite length_reverse.
  - by rewrite reverse_Permutation.
  - intros a Ha. rewrite elem_of_reverse in Ha. destruct (R3 a Ha) as [Hn|(x & Hx & Hacc & Hgrace & _)]; [by apply not_elem_of_nil in Hn|].
    rewrite (SortFunc_Permutation score_cmp) in Hx. apply list_elem_of_fmap in Hx as ([k w] & -> & Hkw). cbn in Hacc, Hgrace. subst k.
    rewrite (Hrange m), elem_of_map_to_list in Hkw. split.
    + apply elem_of_dom_2 in Hkw. apply weights_dom in Hkw. by apply elem_of_list_to_set in Hkw.
    + destruct (first !! a) as [f|] eqn:Hf; [|unfold TSS_BAN_GRACE_PERIOD_EPOCHS in Hgrace; lia]. apply track_epochs_spec in Hf as [Hf|(e' & He' & Ha' & <-)];
        [by rewrite lookup_empty in Hf|]. exists e'. split_and!; [done|done|]. unfold TSS_BAN_GRACE_PERIOD_EPOCHS in *.
      destruct (Z.leb_spec (el_Epoch e') (el_Epoch e)); lia.
Qed.
End blame_score.

(** The bans of a block are a function of the chain: they do not depend on the
    order in which the maps of a node are ranged over.  Only members seated three
    epochs ago can be banned, and the members that are left are enough to sign. *)
Theorem bans_safe r erange range e :
  range_ok range → erange_ok erange → NoDup (accounts_of e) →
  let s := BlameScore r erange range e in
  (∀ erange' range', range_ok range' → erange_ok erange' → BlameScore r erange' range' e = s) ∧
  (∀ a, a ∈ BannedNodes s → a ∈ accounts_of e ∧
     ∃ e', e' ∈ rd_GetPreviousElections r (el_Epoch e) TSS_BLAME_EPOCH_COUNT ∧ a ∈ accounts_of e' ∧
       el_Epoch e' + TSS_BAN_GRACE_PERIOD_EPOCHS <= el_Epoch e) ∧
  (el_Members e ≠ [] → threshold_of (len (el_Members e)) + 1 <= len (filter (λ a, a ∉ BannedNodes s) (accounts_of e))).
Proof.
  intros Hr He Hnd s. destruct (ban_order_spec r erange range Hr e) as (Hlen & Hndb & Hel). fold s in Hlen, Hndb, Hel.
  pose proof (ban_order_set r erange range e) as Hset. fold s in Hset. split_and!.
  - intros erange' range' Hr' He'. unfold s, BlameScore. case_bool_decide; [done|]. cbn zeta.
    rewrite (count_elections_perm r _ (erange' _).*2 (erange _).*2) by (rewrite (He' _), (He _); done).
    set (counts := foldl (count_election _ _) _ _). set (first := foldl _ ∅ _).
    assert (SortFunc score_cmp (make_score first counts.2 (el_Epoch e) <$> range' counts.1) =
            SortFunc score_cmp (make_score first counts.2 (el_Epoch e) <$> range counts.1)) as ->; [|done].
    apply (SortFunc_perm score_cmp score_key score_cmp_key); [|by rewrite (Hr' _), (Hr _)].
    apply (NoDup_fmap_1 (λ k : key, k.2)). rewrite <- !list_fmap_compose.
    rewrite (list_fmap_ext _ fst); [|by intros]. rewrite (Hr' _). apply NoDup_fst_map_to_list.
  - intros a Ha. apply Hel. by rewrite Hset, elem_of_list_to_set in Ha.
  - intros Hne. rewrite kept_len by done. assert (zsize (BannedNodes s ∩ list_to_set (accounts_of e)) <= len (BanOrder s)) as Hz.
    { unfold zsize, len. rewrite Hset. apply inj_le. etrans; [apply subseteq_size; apply intersection_subseteq_l|]. by rewrite size_list_to_set. }
    assert (1 <= len (el_Members e)) as H1 by (unfold len; destruct (el_Members e); [done|cbn [length]; lia]).
    pose proof (party_threshold_bounds _ H1). assert (len (accounts_of e) = len (el_Members e)) as -> by (unfold len, accounts_of; by rewrite length_fmap).
    unfold max_blamed in Hlen. lia.
Qed.

(** ** The sessions *)

(** Every election names each account once. *)
Definition reads_ok (r : tss_reads) : Prop :=
  (∀ epoch e, rd_GetElection r epoch = Some e → NoDup (accounts_of e)) ∧
  (∀ h e, rd_GetElectionByHeight r h = Some e → NoDup (accounts_of e)).

Lemma seated_Some e e' : seated e = Some e' → e = Some e' ∧ el_Members e' ≠ [].
Proof. unfold seated. destruct e as [x|]; cbn; [|done]. case_bool_decide; [done|]. by intros [= ->]. Qed.

Lemma seats_NoDup bits e : NoDup (accounts_of e) → NoDup (seats_set bits (el_Members e)).
Proof. intros Hnd. eapply sublist_NoDup; [exact Hnd|apply seats_sublist]. Qed.

(** The holders of a key's shares: the seats of its last commitment. *)
Definition holders_of (r : tss_reads) (keyId : string) (bh : Z) (types : list string) (holders : list string) : Prop :=
  ∃ bits e, seated (rd_GetElection r (match rd_GetCommitmentByHeight r keyId bh types with Some c => tc_Epoch c | None => 0 end)) = Some e ∧
    bits = match rd_GetCommitmentByHeight r keyId bh types with Some c => read_bits (tc_Commitment c) | None => 0 end ∧
    holders = seats_set bits (el_Members e).

Definition attested_ready (attested : gmap string Version) (ver : Version) (waived : string → bool) (a : string) : Prop :=
  ∃ w, attested !! a = Some w ∧ (MeetsConsensusMin w ver || waived a) = true.

Lemma ready_elem attested ver waived a : a ∈ ready_accounts attested ver waived ↔ attested_ready attested ver waived a.
Proof.
  unfold ready_accounts, attested_ready. rewrite elem_of_dom. unfold is_Some. setoid_rewrite map_lookup_filter_Some. cbn. naive_solver.
Qed.

(** Who signs: holders that are ready, at least a threshold of the whole committee. *)
Lemma sign_choice_ok r shapeActive bh ver retiring attested bans keyId c :
  reads_ok r → sign_parties r shapeActive bh ver retiring attested bans keyId = Some c →
  ∃ holders, holders_of r keyId bh ["reshare"; "keygen"] holders ∧ sg_origCommitteeSize c = len holders ∧ NoDup (sg_participants c) ∧
    threshold_of (len holders) + 1 <= len (sg_participants c) ∧
    ∀ a, a ∈ sg_participants c → a ∈ holders ∧ attested_ready attested ver (λ a, bool_decide (keyId ∈ KeyIds retiring) && Has retiring a) a.
Proof.
  intros [Hel _]. unfold sign_parties. cbn zeta. set (bits := match _ with Some c => read_bits _ | None => _ end).
  destruct (seated _) as [e|] eqn:He; cbn [mbind option_bind]; [|done]. set (holders := seats_set bits (el_Members e)).
  set (blamed := blamedAccounts _ _ _). set (ready := ready_accounts _ _ _). set (sel := usable _ _ ready holders).
  set (ps := if _ && _ then _ else sel). destruct (Z.ltb_spec (len ps) (threshold_of (len holders) + 1)) as [|Hlen]; [done|].
  intros [= <-]. cbn. exists holders. pose proof (seated_Some _ _ He) as [He' _].
  assert (NoDup holders) as Hnd by (apply seats_NoDup, (Hel _ _ He')). assert (NoDup sel) as Hsel by by apply usable_NoDup.
  assert (∀ a, a ∈ sel → a ∈ holders ∧ a ∈ ready) as Hsub by (intros a Ha%usable_elem; tauto).
  split_and!; [by exists bits, e|done| |done|].
  - unfold ps. destruct (_ && _); [by apply readmitBanned_NoDup|done].
  - intros a Ha. rewrite <- ready_elem. unfold ps in Ha. destruct (_ && _); [|by apply Hsub].
    apply readmitBanned_elem in Ha as [Ha|(_ & Hh & Hr & _)]; [by apply Hsub|]. by rewrite elem_of_list_to_set in Hh.
Qed.

(** Who takes part in a reshare. *)
Lemma reshare_choice_ok r range shapeActive bh ver attested bans e keyId commitment old new full :
  reads_ok r → range_ok range → NoDup (accounts_of e) →
  reshare_parties r range shapeActive bh ver attested bans e keyId = ReshareChosen commitment old new full →
  ∃ holders, holders_of r keyId bh ["keygen"; "reshare"] holders ∧ full = len holders ∧ NoDup old ∧ NoDup new ∧
    rd_GetCommitmentByHeight r keyId bh ["keygen"; "reshare"] = Some commitment ∧ tc_Epoch commitment < el_Epoch e ∧
    threshold_of full + 1 <= len old ∧ 2 <= len new ∧
    (TssReshareKeepsThresholdActive ver = true → reshareThresholdFloor (len (accounts_of e)) <= threshold_of (len new)) ∧
    (∀ a, a ∈ old → a ∈ holders ∧ attested_ready attested ver (λ _, false) a) ∧
    (∀ a, a ∈ new → a ∈ accounts_of e ∧ attested_ready attested ver (λ _, false) a).
Proof.
  intros [Hel _] Hrange Hnde. unfold reshare_parties. destruct (rd_GetCommitmentByHeight r keyId bh _) as [c|] eqn:Hc; [|done].
  destruct (Z.leb_spec (el_Epoch e) (tc_Epoch c)) as [|Hep]; [done|]. cbn zeta. destruct (seated _) as [ce|] eqn:Hce; [|done].
  set (blamed := blamedAccounts _ _ _). set (ready := ready_accounts _ _ _). set (holders := seats_set _ (el_Members ce)).
  set (old0 := usable _ _ ready holders). set (new0 := usable _ _ ready (accounts_of e)). destruct (if bool_decide _ then _ else _) as [[old1 new1] out] eqn:Hx.
  pose proof (seated_Some _ _ Hce) as [Hce' _]. assert (NoDup holders) as Hnd by (apply seats_NoDup, (Hel _ _ Hce')).
  assert (NoDup old0) as Ho0 by by apply usable_NoDup. assert (NoDup new0) as Hn0 by by apply usable_NoDup.
  assert (old1 `sublist_of` old0 ∧ new1 `sublist_of` new0) as [Hso Hsn].
  { case_bool_decide; [by simplify_eq|]. apply (exclusions_ok range Hrange) in Hx as (-> & -> & _); [|done..]. split; apply sublist_filter. }
  assert (∀ a, a ∈ old1 → a ∈ holders ∧ a ∈ ready) as Hsub by (intros a Ha; apply (sublist_subseteq _ _ Hso) in Ha; apply usable_elem in Ha; tauto).
  assert (∀ a, a ∈ new1 → a ∈ accounts_of e ∧ a ∈ ready) as Hsubn by (intros a Ha; apply (sublist_subseteq _ _ Hsn) in Ha; apply usable_elem in Ha; tauto).
  pose proof (sublist_NoDup _ _ Ho0 Hso) as Ho1. pose proof (sublist_NoDup _ _ Hn0 Hsn) as Hn1.
  set (old2 := if _ && _ then readmitBanned old1 _ _ _ _ _ _ else old1). set (new2 := if _ && _ then _ else new1). unfold reshare_check.
  destruct (Z.ltb_spec (len new2) (Z.max 2 (threshold_of (len new2) + 1))); [done|]. destruct (Z.ltb_spec (len old2) (threshold_of (len holders) + 1)); [done|].
  destruct (TssReshareKeepsThresholdActive ver && _) eqn:Hfl; [done|]. intros [= <- <- <- <-]. exists holders. split_and!; try done; try lia.
  - unfold holders_of. rewrite Hc. by exists (read_bits (tc_Commitment c)), ce.
  - unfold old2. destruct (_ && _); [by apply readmitBanned_NoDup|done].
  - unfold new2. destruct (_ && _); [by apply readmitBanned_NoDup|done].
  - intros Hk. rewrite Hk in Hfl. cbn in Hfl. lia.
  - intros a Ha. rewrite <- ready_elem. unfold old2 in Ha. destruct (_ && _); [|by apply Hsub].
    apply readmitBanned_elem in Ha as [Ha|(_ & Hh & Hr & _)]; [by apply Hsub|]. by rewrite elem_of_list_to_set in Hh.
  - intros a Ha. rewrite <- ready_elem. unfold new2 in Ha. destruct (_ && _); [|by apply Hsubn].
    apply readmitBanned_elem in Ha as [Ha|(_ & Hh & Hr & _)]; [by apply Hsubn|]. by rewrite elem_of_list_to_set in Hh.
Qed.

(** What holds of a session that is started. *)
Definition session_safe (v : tss_view) (d : Dispatcher) : Prop :=
  let r := tv_reads v in
  match d with
  | KeyGenDispatcher _ _ _ parties epoch _ =>
      ∃ e, rd_GetElectionByHeight r (tv_bh v) = Some e ∧ el_Epoch e = epoch ∧ 2 <= len parties ∧ NoDup parties ∧ (∀ a, a ∈ parties → a ∈ accounts_of e)
  | SignDispatcher _ keyId _ parties _ msg _ size =>
      tv_refused v keyId msg = false ∧ NoDup parties ∧ threshold_of size + 1 <= len parties ∧
      ∃ holders, holders_of r keyId (tv_bh v) ["reshare"; "keygen"] holders ∧ size = len holders ∧ (holders ≠ [] → parties ≠ []) ∧
        ∀ a, a ∈ parties → a ∈ holders ∧
          attested_ready (tv_attested v) (tv_version v) (λ a, bool_decide (keyId ∈ KeyIds (tv_retiring v)) && Has (tv_retiring v) a) a
  | ReshareDispatcher _ keyId _ old new epoch newEpoch _ oldSize newSize _ =>
      NoDup old ∧ NoDup new ∧ epoch < newEpoch ∧ newSize = len new ∧ threshold_of oldSize + 1 <= len old ∧
      (∃ holders, holders_of r keyId (tv_bh v) ["keygen"; "reshare"] holders ∧ oldSize = len holders ∧
        ∀ a, a ∈ old → a ∈ holders ∧ attested_ready (tv_attested v) (tv_version v) (λ _, false) a) ∧
      ∃ e, rd_GetElectionByHeight r (tv_bh v) = Some e ∧ el_Epoch e = newEpoch ∧
        (TssReshareKeepsThresholdActive (tv_version v) = true → len (accounts_of e) < 2 * (threshold_of newSize + 1)) ∧
        ∀ a, a ∈ new → a ∈ accounts_of e ∧ attested_ready (tv_attested v) (tv_version v) (λ _, false) a
  end.

Section run.
Context (v : tss_view) (Hreads : reads_ok (tv_reads v)) (Hrange : range_ok (tv_range v)).
Context (e : ElectionResult) (He : rd_GetElectionByHeight (tv_reads v) (tv_bh v) = Some e) (bans : ScoreMap).

Lemma run_action_safe m ia : Forall (session_safe v) (mg_dispatchers m) → Forall (session_safe v) (mg_dispatchers (run_action v e bans m ia)).
Proof.
  assert (NoDup (accounts_of e)) as Hnd by apply (proj2 Hreads _ _ He). intros Hm. unfold run_action. destruct (qa_Type ia.2).
  - unfold run_keygen. cbn zeta. destruct (Z.ltb_spec (len (keygen_parties (tv_reads v) (TssSessionShapeActive (tv_version v)) (tv_bh v) e (BannedNodes bans) (qa_KeyId ia.2))) 2); [done|].
    cbn. apply Forall_app. split; [done|]. apply Forall_singleton. exists e. split_and!; [done|done|done|by apply NoDup_filter|].
    intros a [_ Ha]%list_elem_of_filter. done.
  - unfold run_sign. destruct (tv_refused v _ _) eqn:Hrf; [done|]. destruct (sign_parties _ _ _ _ _ _ _ _) as [c|] eqn:Hc; [|done].
    apply sign_choice_ok in Hc as (holders & H1 & H2 & H3 & H4 & H5); [|done]. cbn. apply Forall_app. split; [done|]. apply Forall_singleton. cbn.
    rewrite H2. split_and!; [done|done|done|]. exists holders. split_and!; [done|done| |done]. intros Hne Hp. rewrite Hp in H4. change (len ([] : list Participant)) with 0 in H4.
    assert (0 < len holders) as Hpos by (destruct holders; [done|unfold len; cbn; lia]). pose proof (party_threshold_bounds (len holders) ltac:(lia)). lia.
  - unfold run_reshare. cbn zeta. destruct (reshare_parties _ _ _ _ _ _ _ _ _) as [| |c old new full] eqn:Hc; [done|done|].
    apply reshare_choice_ok in Hc as (holders & H1 & H2 & H3 & H4 & H5 & H6 & H7 & H8 & H9 & H10 & H11); [|done..].
    cbn. apply Forall_app. split; [done|]. apply Forall_singleton. cbn. split_and!; [done|done|done|done|done|by exists holders|].
    exists e. split_and!; [done|done| |done]. intros Hk. apply floor_majority; [unfold len; lia|by apply H9|].
    destruct (party_threshold_bounds (len new)); lia.
Qed.
End run.

Lemma sessions_ok v locked actions m d :
  reads_ok (tv_reads v) → range_ok (tv_range v) → mg_dispatchers m = [] →
  d ∈ mg_dispatchers (RunActions v locked actions m) → session_safe v d.
Proof.
  intros Hreads Hrange Hm. unfold RunActions. destruct locked; cbn [negb]; [|rewrite Hm; by intros ?%not_elem_of_nil].
  destruct (seated _) as [e|] eqn:He; [|rewrite Hm; by intros ?%not_elem_of_nil]. apply seated_Some in He as [He _].
  set (bans := BlameScore _ _ _ _). generalize (imap pair actions). intros l.
  assert (∀ m', Forall (session_safe v) (mg_dispatchers m') → Forall (session_safe v) (mg_dispatchers (foldl (run_action v e bans) m' l))) as Hfold.
  { induction l as [|ia l IH]; intros m' Hm'; [done|]. cbn [foldl]. apply IH. by apply run_action_safe. }
  intros Hd. eapply Forall_forall; [|exact Hd]. apply Hfold. constructor.
Qed.

(** C9: Every session a block starts has only parties that may be in it, and enough of
    them.  A key generation has two or more members of the election in force.  A sign
    session is one the signing policy allows; its parties hold a share of the key,
    attested for this block, are a threshold of all the holders, and there are some
    unless the commitment of the key names no holder at all.  A reshare has a threshold
    of the old holders; its new parties are attested members of the election; and from
    consensus 0.9.0 on the reshared key needs the signatures of a majority of the
    committee, which the code does not ask for before.  The elections the node reads
    name an account once. *)
Theorem sessions_safe v locked actions m d :
  reads_ok (tv_reads v) → range_ok (tv_range v) → mg_dispatchers m = [] →
  d ∈ mg_dispatchers (RunActions v locked actions m) → session_safe v d.
Proof. apply sessions_ok. Qed.

(** ** When enough are ready *)

Section forms.
Context (r : tss_reads) (range : gmap string Z → list (string * Z)) (Hreads : reads_ok r) (Hrange : range_ok range).
Context (shapeActive : bool) (bh : Z) (ver : Version) (attested : gmap string Version) (bans : ScoreMap).
Context (Hbans : BannedNodes bans = list_to_set (BanOrder bans)).

(** The accounts that would be usable if nobody were banned. *)
Definition unblamed_ready (blamed ready : gset string) (l : list string) : list string := filter (λ a, (a ∉ blamed) ∧ a ∈ ready) l.

Lemma usable_or_banned blamed ready l a :
  a ∈ unblamed_ready blamed ready l → a ∈ usable blamed (BannedNodes bans) ready l ∨ a ∈ BanOrder bans.
Proof.
  unfold unblamed_ready. rewrite list_elem_of_filter, usable_elem. intros [[Hb Hr] Hl]. destruct (decide (a ∈ BannedNodes bans)) as [Hin|Hin].
  - right. by rewrite Hbans, elem_of_list_to_set in Hin.
  - by left.
Qed.

Lemma usable_all blamed ready l : BanOrder bans = [] → usable blamed (BannedNodes bans) ready l = unblamed_ready blamed ready l.
Proof.
  intros Hn. unfold usable, unblamed_ready. apply list_filter_iff. intros a. rewrite Hbans, Hn. set_solver.
Qed.
(** The selection before and after the banned are let back in; [out] are the accused
    that are left out. *)
Lemma side_fills blamed ready l need sel (out : gset string) :
  NoDup l → TssBanYieldsToQuorumActive ver = true → need <= len (unblamed_ready blamed ready l) →
  sel `sublist_of` usable blamed (BannedNodes bans) ready l → Z.min (len (usable blamed (BannedNodes bans) ready l)) need <= len sel →
  (∀ a, a ∈ BanOrder bans → a ∉ out) →
  need <= len (if TssBanYieldsToQuorumActive ver && bool_decide (BanOrder bans ≠ [])
               then readmitBanned sel need (BanOrder bans) (list_to_set l) ready blamed out else sel).
Proof.
  intros Hnd -> Hneed Hsub Hmin Hout. cbn [andb]. case_bool_decide as Hb; [|rewrite usable_all in Hmin by done; lia].
  destruct (Z.le_gt_cases need (len sel)) as [Hge|Hlt]; [unfold readmitBanned; destruct (Z.leb_spec need (len sel)); lia|].
  apply (readmit_enough _ _ _ _ _ _ _ (unblamed_ready blamed ready l)); [by apply NoDup_filter|done|]. intros a Ha.
  destruct (usable_or_banned blamed ready l a Ha) as [Hu|Hin].
  - left. assert (sel ≡ₚ usable blamed (BannedNodes bans) ready l) as ->; [|done].
    apply submseteq_length_Permutation; [by apply sublist_submseteq|]. unfold len in *. lia.
  - right. split; [done|]. unfold unblamed_ready in Ha. apply list_elem_of_filter in Ha as [[? ?] Hl].
    split_and!; [by apply elem_of_list_to_set|done|done|by apply Hout].
Qed.

(** A sign session is formed. *)
Lemma sign_forms retiring keyId c e :
  TssBanYieldsToQuorumActive ver = true →
  rd_GetCommitmentByHeight r keyId bh ["reshare"; "keygen"] = Some c → seated (rd_GetElection r (tc_Epoch c)) = Some e →
  let holders := seats_set (read_bits (tc_Commitment c)) (el_Members e) in
  let blamed := blamedAccounts r (Some (tc_BlockHeight c)) (rd_Find r keyId "blame" (blame_expire bh) bh (blameWindowRows shapeActive)) in
  let ready := ready_accounts attested ver (λ a, bool_decide (keyId ∈ KeyIds retiring) && Has retiring a) in
  threshold_of (len holders) + 1 <= len (unblamed_ready blamed ready holders) →
  is_Some (sign_parties r shapeActive bh ver retiring attested bans keyId).
Proof.
  intros Hy Hc He holders blamed ready Hn. unfold sign_parties. rewrite Hc. cbn zeta. rewrite He. cbn [mbind option_bind].
  fold holders blamed ready. pose proof (seated_Some _ _ He) as [He' _].
  pose proof (side_fills blamed ready holders _ (usable blamed (BannedNodes bans) ready holders) ∅ (seats_NoDup _ _ (proj1 Hreads _ _ He')) Hy Hn
    ltac:(done) ltac:(lia) ltac:(set_solver)) as Hf. set (ps := if _ && _ then _ else _) in *.
  destruct (Z.ltb_spec (len ps) (threshold_of (len holders) + 1)); [lia|]. by eexists.
Qed.

Lemma gates_0_12 : TssAccuseStackActive ver = true →
  TssBanYieldsToQuorumActive ver = true ∧ TssReshareKeepsThresholdActive ver = true ∧ TssAccuseYieldsToFloorActive ver = true.
Proof.
  intros Ha. split_and!; [| |exact Ha]; revert Ha; unfold TssAccuseStackActive, TssBanYieldsToQuorumActive, TssReshareKeepsThresholdActive,
    Version0_12_0Active, Version0_9_0Active, MeetsConsensusMin; cbn; lia.
Qed.

(** A reshare is formed. *)
Lemma reshare_forms keyId c e ce :
  TssAccuseStackActive ver = true → NoDup (accounts_of e) → 2 <= len (accounts_of e) →
  rd_GetCommitmentByHeight r keyId bh ["keygen"; "reshare"] = Some c → tc_Epoch c < el_Epoch e → seated (rd_GetElection r (tc_Epoch c)) = Some ce →
  let holders := seats_set (read_bits (tc_Commitment c)) (el_Members ce) in
  let blamed := blamedAccounts r (Some (tc_BlockHeight c)) (rd_Find r keyId "blame" (blame_expire bh) bh (blameWindowRows shapeActive)) in
  let ready := ready_accounts attested ver (λ _, false) in
  threshold_of (len holders) + 1 <= len (unblamed_ready blamed ready holders) →
  need_new ver (len (accounts_of e)) <= len (unblamed_ready blamed ready (accounts_of e)) →
  ∃ old new, reshare_parties r range shapeActive bh ver attested bans e keyId = ReshareChosen c old new (len holders).
Proof.
  intros Hst Hnde H2 Hc Hep Hce holders blamed ready Hn1 Hn2. destruct (gates_0_12 Hst) as (Hy & Hk & Hf). unfold reshare_parties. rewrite Hc, Hst.
  destruct (Z.leb_spec (el_Epoch e) (tc_Epoch c)); [lia|]. cbn zeta. rewrite Hce. fold holders blamed ready.
  pose proof (seated_Some _ _ Hce) as [Hce' _]. assert (NoDup holders) as Hndh by (apply seats_NoDup, (proj1 Hreads _ _ Hce')).
  set (old0 := usable _ _ ready holders). set (new0 := usable _ _ ready (accounts_of e)).
  destruct (if bool_decide _ then _ else _) as [[old1 new1] out] eqn:Hx.
  assert (old1 `sublist_of` old0 ∧ new1 `sublist_of` new0 ∧ Z.min (len old0) (threshold_of (len holders) + 1) <= len old1 ∧
          Z.min (len new0) (need_new ver (len (accounts_of e))) <= len new1 ∧ (∀ a, a ∈ BanOrder bans → a ∉ out)) as (Hs1 & Hs2 & Hm1 & Hm2 & Hout).
  { case_bool_decide; [simplify_eq; split_and!; [done|done|lia|lia|set_solver]|].
    apply (exclusions_ok range Hrange) in Hx as (-> & -> & _ & _ & Hm1 & Hm2 & Hl); [|by apply usable_NoDup..].
    unfold accuseNewMin in Hm2. rewrite Hf in Hm2. split_and!; [apply sublist_filter|apply sublist_filter|done|exact Hm2|]. intros a Ha Hin.
    apply (Hl eq_refl) in Hin. rewrite elem_of_union, !elem_of_list_to_set in Hin. unfold old0, new0 in Hin. rewrite !usable_elem in Hin.
    rewrite Hbans, elem_of_list_to_set in Hin. naive_solver. }
  pose proof (side_fills blamed ready holders _ old1 out Hndh Hy Hn1 Hs1 Hm1 Hout) as Ho.
  pose proof (side_fills blamed ready (accounts_of e) _ new1 out Hnde Hy Hn2 Hs2 Hm2 Hout) as Hn.
  set (old2 := if _ && _ then readmitBanned old1 _ _ _ _ _ _ else old1) in *. set (new2 := if _ && _ then _ else new1) in *. exists old2, new2.
  unfold reshare_check. unfold need_new in Hn. rewrite Hk in Hn |- *. cbn [andb]. pose proof (party_threshold_bounds (len (accounts_of e)) ltac:(lia)) as Hb.
  pose proof (party_threshold_bounds (len new2) ltac:(lia)) as Hb2.
  destruct (Z.ltb_spec (len new2) (Z.max 2 (threshold_of (len new2) + 1))); [lia|].
  destruct (Z.ltb_spec (len old2) (threshold_of (len holders) + 1)); [lia|].
  pose proof (minParties_enough (reshareThresholdFloor (len (accounts_of e))) (len new2) (floor_nonneg (len (accounts_of e)) ltac:(lia)) ltac:(lia)).
  by destruct (Z.ltb_spec (threshold_of (len new2)) (reshareThresholdFloor (len (accounts_of e)))); [lia|].
Qed.
End forms.

(** C21: From consensus 0.12.0 on, exclusions cannot starve a rotation.  When a threshold
    of a key's old holders and the quorum of a new committee of at least two accounts are
    attested and not blamed on this key, the reshare session is formed, whoever is banned
    and whoever is accused.  The key has a commitment of an earlier epoch, it and the
    election of that epoch are read, and the elections name an account once.  The rules
    before 0.12.0, under which an accusation takes precedence over the quorum, are not
    covered. *)
Theorem rotation_not_starved r erange range shapeActive bh ver attested e keyId c ce :
  reads_ok r → range_ok range → TssAccuseStackActive ver = true → NoDup (accounts_of e) → 2 <= len (accounts_of e) →
  rd_GetCommitmentByHeight r keyId bh ["keygen"; "reshare"] = Some c → tc_Epoch c < el_Epoch e → seated (rd_GetElection r (tc_Epoch c)) = Some ce →
  let holders := seats_set (read_bits (tc_Commitment c)) (el_Members ce) in
  let blamed := blamedAccounts r (Some (tc_BlockHeight c)) (rd_Find r keyId "blame" (blame_expire bh) bh (blameWindowRows shapeActive)) in
  let ready := ready_accounts attested ver (λ _, false) in
  threshold_of (len holders) + 1 <= len (unblamed_ready blamed ready holders) →
  need_new ver (len (accounts_of e)) <= len (unblamed_ready blamed ready (accounts_of e)) →
  ∃ old new, reshare_parties r range shapeActive bh ver attested (BlameScore r erange range e) e keyId = ReshareChosen c old new (len holders).
Proof. intros Hreads Hrange. apply reshare_forms; [done|done|apply ban_order_set]. Qed.
