(* ===== verification/TssTick.v ===== *)
(** What a block makes a node's threshold manager do ([modules/tss/tss.go] from
    [BlockTick], [p2p.go], [sign_broadcast_chunk.go]): which keys are reshared, which
    requests are signed, which readiness attestations are kept, how signatures on a
    commitment are collected and how signatures are published.

    The ceremonies of a block are chosen from the key table, the requests and the
    sessions still running.  The BLS library is the class of [BlsCircuit].

    The theorems: every key has its turn within a bounded number of rotate blocks; a
    key is not signed with while a ceremony of it runs; a reshare is not deferred for
    ever; the attestations a node keeps are signed for that block with the key of the
    account; a finished collection carries two thirds of the weight; a large batch of
    signatures is published in full in packets that fit. *)
From S2P Require Import Prelude GoMaps GoSlices GoStrings GoEncoding ConsensusVersion BlsQuorum BlsCircuit TssDb BtcVault VaultScope TssKeys TssParties.

(** ** Intervals *)

Definition DEFAULT_SIGN_INTERVAL : Z := 50.
Definition DEFAULT_ROTATE_INTERVAL : Z := 100.
Definition DEFAULT_READINESS_OFFSET : Z := 30.
Definition DEFAULT_SETTLE_BLOCKS : Z := 3.
Definition MAX_RESHARE_DEFERRALS : Z := 3.
Definition MAX_RESHARES_PER_ROTATE : Z := 4.

Record TssParams := mkTssParams { tp_RotateInterval : Z; tp_SignInterval : Z; tp_ReadinessOffset : Z }.

Definition getRotateInterval (p : TssParams) : Z := if 0 <? tp_RotateInterval p then tp_RotateInterval p else DEFAULT_ROTATE_INTERVAL.

Definition getSignInterval (p : TssParams) : Z := if 0 <? tp_SignInterval p then tp_SignInterval p else DEFAULT_SIGN_INTERVAL.

Definition getReadinessOffset (p : TssParams) : Z :=
  let offset := if 0 <? tp_ReadinessOffset p then tp_ReadinessOffset p else DEFAULT_READINESS_OFFSET in
  let rotateInterval := getRotateInterval p in
  if rotateInterval -u64 2 <=? offset then rotateInterval / 2 else offset.

(** ** Which keys are reshared *)

Definition id_le (a b : TssKey) : Prop := String.le (tk_Id a) (tk_Id b).

#[export] Instance id_le_dec : RelDecision id_le.
Proof. intros a b. unfold id_le. apply _. Defined.

Definition reshareWindow (keys : list TssKey) (bh rotateInterval : Z) : list TssKey :=
  if len keys <=? MAX_RESHARES_PER_ROTATE then keys
  else
    let rotateInterval := if rotateInterval =? 0 then 1 else rotateInterval in
    let sorted := merge_sort id_le keys in
    let n := len sorted in
    let start := wrapu64 (bh / rotateInterval * MAX_RESHARES_PER_ROTATE) mod n in
    omap (λ i, sorted !! Z.to_nat ((start + i) mod n)) (seqZ 0 MAX_RESHARES_PER_ROTATE).

(** [true] is that the reshare is skipped once more. *)
Definition deferReshare (keyId : string) (deferrals : gmap string Z) : bool * gmap string Z :=
  let n := zget deferrals keyId + 1 in
  if MAX_RESHARE_DEFERRALS <? n then (false, delete keyId deferrals) else (true, <[keyId := n]> deferrals).

Definition clearReshareDeferrals (keyId : string) (deferrals : gmap string Z) : gmap string Z := delete keyId deferrals.

Definition countPreParamsNeed (reshareKeys newKeys : list TssKey) (skipReshare : string → bool) : Z :=
  len (filter (λ k, tk_Algo k = "ecdsa" ∧ skipReshare (tk_Id k) = false) reshareKeys) + len (filter (λ k, tk_Algo k = "ecdsa") newKeys).

Definition withholdReadinessForPreParams (batch isMember : bool) (need have : Z) : bool :=
  batch && isMember && (0 <? need) && (have <? need).

(** The keys with a ceremony, and with a signature, that still runs. *)
Definition in_flight (p : string → bool) (actionMap : gmap string Dispatcher) : gset string :=
  list_to_set (omap (λ sd, if negb (String.eqb (dispatcher_KeyId sd.2) "") && p sd.1 then Some (dispatcher_KeyId sd.2) else None) (map_to_list actionMap)).

Definition is_ceremony (sessionId : string) : bool := HasPrefix sessionId sessionPrefixReshare || HasPrefix sessionId sessionPrefixKeygen.

Definition inFlightSessions (actionMap : gmap string Dispatcher) : gset string * gset string :=
  (in_flight is_ceremony actionMap,
   in_flight (λ s, negb (is_ceremony s) && HasPrefix s sessionPrefixSign) actionMap).

(** ** The actions of a block *)

Record tick_env := mkTickEnv {
  te_bh : Z;
  te_rotateInterval : Z;
  te_signInterval : Z;
  (** whether the session shapes are in force *)
  te_shape : bool;
  (** the epoch of the election at the height, [None] without a seated one *)
  te_epoch : option Z;
  te_keys : keydb;
  (** [shouldSkipReshareForVaultRotation] *)
  te_skip : string → bool;
  (** whether the read of the active keys fails when requests are revived *)
  te_keyErr : bool;
  (** whether the read of a key fails *)
  te_findErr : string → bool;
}.

Record tick_state := mkTickState {
  tks_requests : requestdb;
  tks_deferrals : gmap string Z;
  tks_queued : list QueuedAction;
  tks_actionMap : gmap string Dispatcher;
}.

(** The actions so far, the keys that are locked, and the deferrals. *)
Definition tick_acc := (list QueuedAction * gset string * gmap string Z)%type.

Definition tick_reshare (env : tick_env) (inFlightSign : gset string) (acc : tick_acc) (key : TssKey) : tick_acc :=
  let '(actions, locks, deferrals) := acc in
  if te_skip env (tk_Id key) then acc
  else
    let '(deferred, deferrals) := if bool_decide (tk_Id key ∈ inFlightSign) then deferReshare (tk_Id key) deferrals else (false, deferrals) in
    if deferred : bool then (actions, locks, deferrals)
    else (actions ++ [mkAction ReshareAction (tk_Id key) [] (tk_Algo key)], {[tk_Id key]} ∪ locks, clearReshareDeferrals (tk_Id key) deferrals).

Definition tick_keygen (acc : tick_acc) (key : TssKey) : tick_acc :=
  let '(actions, locks, deferrals) := acc in
  (actions ++ [mkAction KeyGenAction (tk_Id key) [] (tk_Algo key)], {[tk_Id key]} ∪ locks, deferrals).

Definition tick_sign (env : tick_env) (locks : gset string) (acc : list QueuedAction * requestdb) (req : TssRequest) : list QueuedAction * requestdb :=
  let keyInfo := match FindKey (te_findErr env (tr_KeyId req)) (tr_KeyId req) (te_keys env) with KeyFound k => k | _ => zero_key end in
  if negb (String.eqb (tk_Status keyInfo) "active") then
    (acc.1, UpdateRequest (mkTssRequest SignFailed (tr_KeyId req) (tr_Msg req) (tr_Sig req)) acc.2)
  else if bool_decide (tr_KeyId req ∈ locks) then acc
  else
    match hex_decode (tr_Msg req) with
    | Some raw => (acc.1 ++ [mkAction SignAction (tr_KeyId req) raw (tk_Algo keyInfo)], acc.2)
    | None => acc
    end.

Definition tick_queued (acc : list QueuedAction * gset string) (qa : QueuedAction) : list QueuedAction * gset string :=
  if bool_decide (qa_KeyId qa ∈ acc.2) then acc
  else (acc.1 ++ [qa], if bool_decide (qa_Type qa = SignAction) then acc.2 else {[qa_KeyId qa]} ∪ acc.2).

(** The ceremonies of a rotate block. *)
Definition tick_rotate (env : tick_env) (epoch : Z) (inFlightSign : gset string) (acc : tick_acc) : tick_acc :=
  let keys := FindEpochKeys epoch (te_keys env) in
  let keys := if te_shape env then reshareWindow keys (te_bh env) (te_rotateInterval env) else keys in
  foldl tick_keygen (foldl (tick_reshare env inFlightSign) acc keys) (FindNewKeys (te_keys env)).

(** The actions a node with a slot hands to [RunActions]; [None] where the tick
    returns early. *)
Definition BlockTick (env : tick_env) (s : tick_state) : option (list QueuedAction * tick_state) :=
  let '(inFlightCeremony, inFlightSign) := if te_shape env then inFlightSessions (tks_actionMap s) else (∅, ∅) in
  let start := ([], inFlightCeremony, tks_deferrals s) in
  let rotating := te_bh env mod te_rotateInterval env =? 0 in
  acc ← (if rotating then (epoch ← te_epoch env; Some (tick_rotate env epoch inFlightSign start)) else Some start);
  let '(ceremonies, locks, deferrals) := acc in
  let '(signing, requests) :=
    if te_bh env mod te_signInterval env =? 0 then
      let '(pending, requests) := FindUnsignedRequests (te_keyErr env) (te_keys env) (tks_requests s) in
      foldl (tick_sign env locks) (ceremonies, requests) pending
    else (ceremonies, tks_requests s) in
  let '(actions, _) := foldl tick_queued (signing, locks) (tks_queued s) in
  Some (actions, mkTickState requests deferrals [] (tks_actionMap s)).

(** ** Readiness *)

Record ReadyAttestation := mkReadyAttestation {
  ra_Account : string;
  ra_TargetBlock : Z;
  ra_Version : Version;
  ra_Sig : string;
}.

(** An entry of a bundle, its numbers coerced. *)
Record gossip_entry := mkGossipEntry { ge_account : string; ge_sig : string; ge_version : Version }.

Abbreviation attestations := (gmap string (gmap string ReadyAttestation)).

Section readiness.
Context {sig : Type} `{BlsLib sig}.
(** the identifier that is signed, and a signature object whose reading failed *)
Context (attestationCID : string → Z → Version → option string) (unread : sig).

Definition verifyAttestation (att : ReadyAttestation) (election : ElectionResult) : bool :=
  match list_find (λ m, em_Account m = ra_Account att) (el_Members election) with
  | None => false
  | Some (_, m) =>
      if negb (pubkey_ok (em_Key m)) then false
      else
        match attestationCID (ra_Account att) (ra_TargetBlock att) (ra_Version att) with
        | None => false
        | Some c =>
            match b64_decode_padded url_value (ra_Sig att) with
            | (_, false) => false
            | (sigBytes, true) =>
                if negb (length sigBytes =? 96)%nat then false
                else bls_Verify (em_Key m) c (default unread (sig_Deserialize sigBytes))
            end
        end
  end.

Definition readyGossipElectionHeight (shapeActive : bool) (currentBh targetBlock : Z) : Z := if shapeActive then currentBh else targetBlock.

Definition keep_attestation (election : ElectionResult) (retiring : RetiringSignerSet) (members : gset string) (settling : bool) (targetBlock : Z)
    (existing : gmap string ReadyAttestation) (raw : option gossip_entry) : gmap string ReadyAttestation :=
  match raw with
  | None => existing
  | Some g =>
      let account := ge_account g in
      if String.eqb account "" || String.eqb (ge_sig g) "" then existing
      else if bool_decide (account ∉ members) then existing
      else if bool_decide (is_Some (existing !! account)) then existing
      else if settling then existing
      else
        let att := mkReadyAttestation account targetBlock (ge_version g) (ge_sig g) in
        let verified := verifyAttestation att election ||
                        match ReadinessElection retiring account with Some relec => verifyAttestation att relec | None => false end in
        if verified then <[account := att]> existing else existing
  end.

(** A bundle for a block; [bundle] is [None] when its fields do not decode. *)
Definition handleReadyGossip (shapeActive : bool) (election : Z → option ElectionResult) (retiring : RetiringSignerSet) (readinessExtra : list string)
    (rotateInterval currentBh : Z) (bundle : option (Z * option (list (option gossip_entry)))) (store : attestations) : attestations :=
  match bundle with
  | None => store
  | Some (targetBlock, attList) =>
      if (targetBlock <? currentBh) || (currentBh +u64 wrapu64 (2 * rotateInterval) <? targetBlock) then store
      else
        match seated (election (readyGossipElectionHeight shapeActive currentBh targetBlock)), attList with
        | Some e, Some attList =>
            let members : gset string := list_to_set (accounts_of e) ∪ list_to_set readinessExtra in
            let settling := (0 <? currentBh) && (currentBh <? targetBlock) && (targetBlock - currentBh <=? DEFAULT_SETTLE_BLOCKS) in
            let attList := take (length (el_Members e) + length readinessExtra) attList in
            let existing := default ∅ (store !! FormatUint targetBlock) in
            <[FormatUint targetBlock := foldl (keep_attestation e retiring members settling targetBlock) existing attList]> store
        | _, _ => store
        end
  end.
End readiness.

(** Bundles of blocks that have passed are forgotten. *)
Definition still_open (bh : Z) (k : string) : bool :=
  match ParseUint k with Some block => negb (block +u64 5 <? bh) | None => true end.

Definition cleanupGossipState (bh : Z) (store : attestations) : attestations :=
  filter (λ kv, still_open bh kv.1 = true) store.

(** *** The readiness the node announces itself *)

Record ready_state := mkReadyState {
  (** [lastBlockHeight] *)
  rs_bh : Z;
  (** [gossipAttestations] *)
  rs_store : attestations;
  rs_sent : gset string;
  rs_withheld : gset string;
}.

Definition no_ready : ready_state := mkReadyState 0 ∅ ∅ ∅.

(** What a block reads; [re_have] is the number of parameter sets in the pool when a
    target is looked at. *)
Record ready_env := mkReadyEnv {
  re_bh : Z;
  re_synced : bool;
  re_params : TssParams;
  re_election : option ElectionResult;
  re_keys : keydb;
  re_keyErr : bool;
  re_requests : requestdb;
  re_shape : Z → bool;
  re_skip : string → Z → bool;
  re_floor : Z → Version;
  re_retiring : RetiringSignerSet;
  re_cap : Z;
  re_have : Z → Z;
}.

(** The target of the next rotate block and the parameter sets it takes. *)
Definition rotate_target (env : ready_env) : option (Z * Z) :=
  let bh := re_bh env in
  let rotateInterval := getRotateInterval (re_params env) in
  let blocksUntilReshare := rotateInterval - bh mod rotateInterval in
  if (blocksUntilReshare <=? getReadinessOffset (re_params env)) && negb (bh mod rotateInterval =? 0) then
    electionData ← re_election env;
    let target := bh +u64 blocksUntilReshare in
    let reshareKeys := FindEpochKeys (el_Epoch electionData) (re_keys env) in
    let reshareKeys := if re_shape env target then reshareWindow reshareKeys target rotateInterval else reshareKeys in
    let newKeys := FindNewKeys (re_keys env) in
    if (0 <? len reshareKeys) || (0 <? len newKeys)
    then Some (target, countPreParamsNeed reshareKeys newKeys (λ keyId, re_skip env keyId target)) else None
  else None.

(** The target of the next sign block; reading the requests revives the waiting ones. *)
Definition sign_target (env : ready_env) : option Z * requestdb :=
  let bh := re_bh env in
  let signInterval := getSignInterval (re_params env) in
  let blocksUntilSign := signInterval - bh mod signInterval in
  if (blocksUntilSign <=? getReadinessOffset (re_params env)) && negb (bh mod signInterval =? 0) then
    let '(signingRequests, requests) := FindUnsignedRequests (re_keyErr env) (re_keys env) (re_requests env) in
    (if 0 <? len signingRequests then Some (bh +u64 blocksUntilSign) else None, requests)
  else (None, re_requests env).

Definition gossipTargets (env : ready_env) : gset Z :=
  (match rotate_target env with Some (target, _) => {[target]} | None => ∅ end) ∪
  (match (sign_target env).1 with Some target => {[target]} | None => ∅ end).

Definition preParamsNeed (env : ready_env) (target : Z) : Z :=
  match rotate_target env with Some (t, need) => if t =? target then need else 0 | None => 0 end.

Section announce.
Context {sig : Type} `{BlsLib sig} (attestationCID : string → Z → Version → option string).
(** the signing side of the library: the secret key of 32 bytes and [blsu.Sign] *)
Context {sk : Type} (seckey_Deserialize : list Z → option sk) (bls_Sign : sk → string → sig).
(** the configuration, and the version of the binary *)
Context (HiveUsername BlsPrivKeySeed : string) (RunningVersion : Version).

(** A signature has 96 bytes, so its text carries no padding. *)
Definition signReadyAttestation (targetBlock : Z) : option ReadyAttestation :=
  let account := HiveUsername in
  let ver := RunningVersion in
  c ← attestationCID account targetBlock ver;
  blsPrivSeed ← hex_decode BlsPrivKeySeed;
  if negb (len blsPrivSeed =? 32) then None
  else
    blsPrivKey ← seckey_Deserialize blsPrivSeed;
    Some (mkReadyAttestation account targetBlock ver (b64_encode url_char (sig_Serialize (bls_Sign blsPrivKey c)))).

Definition announce_target (env : ready_env) (isMember retiringEligible : bool) (rs : ready_state) (targetBlock : Z) : ready_state :=
  let blocksUntil := targetBlock -u64 re_bh env in
  let inSettlePeriod := blocksUntil <=? DEFAULT_SETTLE_BLOCKS in
  let dedupKey := FormatUint targetBlock in
  let batch := re_shape env targetBlock in
  let need := preParamsNeed env targetBlock in
  let withhold :=
    batch && (0 <? need) && isMember && negb inSettlePeriod &&
    withholdReadinessForPreParams batch isMember (if re_cap env <? need then re_cap env else need) (re_have env targetBlock) in
  let withheld := if withhold then {[dedupKey]} ∪ rs_withheld rs else rs_withheld rs in
  let alreadySent := bool_decide (dedupKey ∈ rs_sent rs) in
  let sent := if negb inSettlePeriod && negb alreadySent && negb withhold then {[dedupKey]} ∪ rs_sent rs else rs_sent rs in
  let belowFloor := negb (MeetsConsensusMin RunningVersion (re_floor env targetBlock)) in
  let effectiveBelowFloor := belowFloor && negb retiringEligible in
  let store :=
    if negb effectiveBelowFloor && negb inSettlePeriod && negb alreadySent && negb withhold then
      match signReadyAttestation targetBlock with
      | None => rs_store rs
      | Some att => <[dedupKey := <[HiveUsername := att]> (default ∅ (rs_store rs !! dedupKey))]> (rs_store rs)
      end
    else rs_store rs in
  mkReadyState (rs_bh rs) store sent withheld.

Definition announce (env : ready_env) (rs : ready_state) : ready_state :=
  if bool_decide (gossipTargets env = ∅) then rs
  else
    let isMember := match re_election env with Some e => bool_decide (HiveUsername ∈ accounts_of e) | None => false end in
    let retiringEligible := HasReadiness (re_retiring env) HiveUsername in
    let rs := if isMember || retiringEligible then foldl (announce_target env isMember retiringEligible) rs (elements (gossipTargets env)) else rs in
    let open := filter (λ k, still_open (re_bh env) k = true) in
    mkReadyState (rs_bh rs) (rs_store rs) (open (rs_sent rs)) (open (rs_withheld rs)).

(** What a block does to the readiness: old bundles are dropped, and a node that is in
    sync announces itself. *)
Definition ready_tick (env : ready_env) (rs : ready_state) : ready_state * requestdb :=
  let rs := mkReadyState (re_bh env) (cleanupGossipState (re_bh env) (rs_store rs)) (rs_sent rs) (rs_withheld rs) in
  if re_synced env then (announce env rs, (sign_target env).2) else (rs, re_requests env).
End announce.

(** The attestations a node starts the sessions of a block from. *)
Definition attested_at (store : attestations) (bh : Z) : gmap string Version := ra_Version <$> default ∅ (store !! FormatUint bh).

(** ** Collecting signatures *)

Record sigMsg := mkSigMsg { sm_Account : string; sm_Sig : string }.

(** What arrives: a signature, the end of the settling time, or the deadline. *)
Inductive sig_event := SigArrives (m : sigMsg) | Settled | Deadline.

Section collect.
Context {sig : Type} `{BlsLib sig}.

(** The signed weight, the accounts counted and the circuit. *)
Record collection := mkCollection {
  co_weight : Z;
  co_accounts : gset string;
  co_circuit : partialBlsCircuit sig;
}.

(** [None] is the panic of a member without a weight. *)
Definition collect_one (election : ElectionResult) (c : collection) (m : sigMsg) : option collection :=
  if bool_decide (sm_Account m ∈ co_accounts c) then Some c
  else
    match list_find (λ x, em_Account x = sm_Account m) (el_Members election) with
    | None => Some c
    | Some (index, member) =>
        let '(added, circuit) := AddAndVerify (co_circuit c) (em_Key member) (sm_Sig m) in
        match added with
        | Some true =>
            w ← el_Weights election !! index;
            Some (mkCollection (co_weight c +u64 w) ({[sm_Account m]} ∪ co_accounts c) circuit)
        | _ => Some (mkCollection (co_weight c) (co_accounts c) circuit)
        end
    end.

Inductive collected := Waiting | Panicked | Collected (finalize : bool) (c : collection).

(** [settle] is whether the collection goes on after the quorum; the answer is
    whether the circuit may be finalized. *)
Fixpoint collectSigs (election : ElectionResult) (weightTotal : Z) (settle : bool) (c : collection) (events : list sig_event) : collected :=
  let quorumThreshold := weightTotal -u64 (weightTotal / 3) in
  if negb ((co_weight c <? weightTotal) && (settle || (co_weight c <? quorumThreshold))) then Collected true c
  else
    match events with
    | [] => Waiting
    | Deadline :: _ => Collected false c
    | Settled :: events =>
        if settle then Collected (negb (co_weight c <? quorumThreshold)) c else collectSigs election weightTotal settle c events
    | SigArrives m :: events =>
        match collect_one election c m with
        | None => Panicked
        | Some c => collectSigs election weightTotal settle c events
        end
    end.
End collect.

(** ** Publishing signatures *)

Definition maxTssSignPacketBytes : Z := 7800.

Record signedSignResult (R : Type) := mkSigned { sr_res : R; sr_leaderInParty : bool }.
Arguments mkSigned {R}. Arguments sr_res {R}. Arguments sr_leaderInParty {R}.

Definition selectSignBroadcasts {R} (signedResults : list (signedSignResult R)) (isLeader : bool) : list R :=
  sr_res <$> filter (λ sr, (isLeader || negb (sr_leaderInParty sr)) = true) signedResults.

(** [size] is the length of the marshaled packet. *)
Fixpoint chunk_from {E} (size : list E → Z) (maxBytes : Z) (current : list E) (packet : list E) : list (list E) :=
  match packet with
  | [] => if bool_decide (current = []) then [] else [current]
  | entry :: packet =>
      if negb (bool_decide (current = [])) && (maxBytes <? size (current ++ [entry])) then current :: chunk_from size maxBytes [entry] packet
      else chunk_from size maxBytes (current ++ [entry]) packet
  end.

Definition chunkSigPacket {E} (size : list E → Z) (packet : list E) (maxBytes : Z) : list (list E) :=
  if bool_decide (packet = []) then [] else chunk_from size maxBytes [] packet.

(** ** Lemmas: the window *)

#[local] Instance id_le_trans : Transitive id_le.
Proof. intros a b c. unfold id_le. apply String.le_po. Qed.

Lemma window_turn n start d i :
  0 < MAX_RESHARES_PER_ROTATE < n → 0 <= start → 0 <= d < n → i = d / MAX_RESHARES_PER_ROTATE →
  ((start + i * MAX_RESHARES_PER_ROTATE) mod n + d mod MAX_RESHARES_PER_ROTATE) mod n = (start + d) mod n.
Proof.
  intros Hn Hs Hd ->. rewrite Zplus_mod_idemp_l. f_equal. pose proof (Z.div_mod d MAX_RESHARES_PER_ROTATE). lia.
Qed.

(** Every key has its turn.  With more keys than one rotate block reshares, a key is
    in the window of one of the next rotate blocks, as many as it takes to go through all
    the keys once. *)
Theorem every_key_has_a_turn keys rotateInterval q k :
  0 < rotateInterval → 0 <= q → (q + len keys) * MAX_RESHARES_PER_ROTATE < 2 ^ 64 → k ∈ keys →
  ∃ j, 0 <= j ∧ j * MAX_RESHARES_PER_ROTATE < Z.max 1 (len keys) ∧ k ∈ reshareWindow keys ((q + j) * rotateInterval) rotateInterval.
Proof.
  intros Hr Hq Hb Hk. unfold reshareWindow. destruct (Z.leb_spec (len keys) MAX_RESHARES_PER_ROTATE) as [|Hn]; [exists 0; split_and!; [lia|unfold len; lia|done]|].
  set (sorted := merge_sort id_le keys). assert (len sorted = len keys) as Hl by (unfold len, sorted; by rewrite merge_sort_Permutation).
  rewrite Hl. set (n := len keys) in *. unfold MAX_RESHARES_PER_ROTATE in *.
  assert (k ∈ sorted) as [p Hp]%list_elem_of_lookup by (unfold sorted; by rewrite merge_sort_Permutation).
  assert (Z.of_nat p < n) as Hpn by (apply lookup_lt_Some in Hp; unfold len in Hl; lia).
  set (d := (Z.of_nat p - q * 4) mod n). assert (0 <= d < n) as Hd by (apply Z.mod_pos_bound; lia). exists (d / 4).
  assert (d / 4 * 4 <= d) by (pose proof (Z.div_mod d 4); pose proof (Z.mod_pos_bound d 4); lia). assert (0 <= d / 4) by (apply Z.div_pos; lia).
  split_and!; [done|lia|]. destruct (Z.eqb_spec rotateInterval 0); [lia|]. rewrite Z.div_mul by lia.
  assert (wrapu64 ((q + d / 4) * 4) = (q + d / 4) * 4) as -> by (apply wrapu64_id; unfold u64; unfold_widths; lia).
  apply list_elem_of_omap. exists (d mod 4). split; [apply elem_of_seqZ; pose proof (Z.mod_pos_bound d 4); lia|].
  pose proof (window_turn n (q * 4) d (d / 4)) as Hw. unfold MAX_RESHARES_PER_ROTATE in Hw. rewrite <- Z.mul_add_distr_r in Hw.
  rewrite Hw by (try done; lia). unfold d. rewrite Zplus_mod_idemp_r. replace (q * 4 + (Z.of_nat p - q * 4)) with (Z.of_nat p) by lia.
  rewrite Z.mod_small by lia. by rewrite Nat2Z.id.
Qed.

Lemma NoDup_omap {A B} (f : A → option B) l :
  NoDup l → (∀ i j x, i ∈ l → j ∈ l → f i = Some x → f j = Some x → i = j) → NoDup (omap f l).
Proof.
  induction 1 as [|i l Hi Hnd IH]; intros Hinj; [constructor|]. cbn. destruct (f i) as [x|] eqn:Hf; [|apply IH; intros; eapply Hinj; eauto; by right].
  constructor; [|apply IH; intros; eapply Hinj; eauto; by right]. intros (j & Hj & Hx)%list_elem_of_omap.
  assert (i = j) as -> by (eapply Hinj; [left|by right|done|done]). done.
Qed.

Lemma window_sub keys bh ri k : k ∈ reshareWindow keys bh ri → k ∈ keys.
Proof.
  unfold reshareWindow. destruct (_ <=? _); [done|]. intros (i & _ & Hi)%list_elem_of_omap. apply list_elem_of_lookup_2 in Hi.
  by rewrite merge_sort_Permutation in Hi.
Qed.

Lemma window_NoDup keys bh ri : NoDup (tk_Id <$> keys) → NoDup (tk_Id <$> reshareWindow keys bh ri).
Proof.
  intros Hnd. unfold reshareWindow. destruct (Z.leb_spec (len keys) MAX_RESHARES_PER_ROTATE) as [|Hn]; [done|]. cbn zeta.
  set (sorted := merge_sort id_le keys). assert (len sorted = len keys) as Hl by (unfold len, sorted; by rewrite merge_sort_Permutation).
  assert (NoDup (tk_Id <$> sorted)) as Hs by (unfold sorted; by rewrite merge_sort_Permutation). rewrite Hl. set (start := _ mod _).
  rewrite list_fmap_omap. apply NoDup_omap; [apply NoDup_seqZ|]. unfold MAX_RESHARES_PER_ROTATE in *. intros i j x Hi%elem_of_seqZ Hj%elem_of_seqZ H1 H2.
  pose proof (Z.mod_pos_bound (start + i) (len keys) ltac:(lia)) as B1. pose proof (Z.mod_pos_bound (start + j) (len keys) ltac:(lia)) as B2.
  assert (Z.to_nat ((start + i) mod len keys) = Z.to_nat ((start + j) mod len keys)) as E.
  { eapply (NoDup_lookup _ _ _ x Hs); rewrite list_lookup_fmap; [exact H1|exact H2]. }
  apply Z2Nat.inj in E; [|lia|lia].
  rewrite !Z.mod_eq in E by lia. set (q1 := (start + i) / len keys) in *. set (q2 := (start + j) / len keys) in *.
  assert (len keys * (q1 - q2) = i - j) as E' by lia. assert (q1 - q2 = 0) by nia. nia.
Qed.

(** ** The actions of a block *)

Definition ceremony (a : QueuedAction) : Prop := qa_Type a ≠ SignAction.

(** After the ceremonies are chosen: one per key, all their keys locked. *)
Definition rotation_ok (base : gset string) (done : list string) (acc : tick_acc) : Prop :=
  let '(actions, locks, _) := acc in
  base ⊆ locks ∧ NoDup (qa_KeyId <$> actions) ∧
  ∀ a, a ∈ actions → ceremony a ∧ qa_KeyId a ∈ locks ∧ qa_KeyId a ∈ done.

Lemma rotation_add base done acc key t locks' defs' actions locks defs :
  acc = (actions, locks, defs) → t ≠ SignAction → locks' = {[tk_Id key]} ∪ locks → tk_Id key ∉ done →
  rotation_ok base done acc → rotation_ok base (done ++ [tk_Id key]) (actions ++ [mkAction t (tk_Id key) [] (tk_Algo key)], locks', defs').
Proof.
  intros -> Ht -> Hfresh (Hb & Hnd & Hall). split_and!; [set_solver| |].
  - rewrite fmap_app. apply NoDup_app. split_and!; [done| |apply NoDup_singleton]. intros x (a & -> & Ha)%list_elem_of_fmap Hx%list_elem_of_singleton.
    apply Hfresh. cbn in Hx. rewrite <- Hx. by apply Hall.
  - intros a [Ha|Ha%list_elem_of_singleton]%elem_of_app.
    + destruct (Hall a Ha) as (? & ? & ?). split_and!; [done|set_solver|]. apply elem_of_app. by left.
    + subst a. cbn. split_and!; [exact Ht|set_solver|]. apply elem_of_app. right. by left.
Qed.

Lemma rotation_weaken base done done' acc : (∀ x, x ∈ done → x ∈ done') → rotation_ok base done acc → rotation_ok base done' acc.
Proof. destruct acc as [[actions locks] defs]. intros Hd (Hb & Hnd & Hall). split_and!; [done|done|]. intros a Ha. destruct (Hall a Ha) as (? & ? & ?). auto. Qed.

Lemma tick_reshares_ok env sign base done acc keys :
  NoDup (done ++ (tk_Id <$> keys)) → rotation_ok base done acc →
  rotation_ok base (done ++ (tk_Id <$> keys)) (foldl (tick_reshare env sign) acc keys).
Proof.
  revert done acc. induction keys as [|k keys IH]; intros done acc Hnd Hok; [by rewrite app_nil_r|].
  rewrite fmap_cons in Hnd |- *. rewrite cons_middle, app_assoc in Hnd |- *. cbn [foldl]. apply IH; [done|].
  assert (tk_Id k ∉ done) as Hfresh.
  { apply NoDup_app in Hnd as (Hnd & _ & _). apply NoDup_app in Hnd as (_ & Hx & _). intros Hin. apply (Hx _ Hin). by left. }
  assert (rotation_ok base (done ++ [tk_Id k]) acc) as Hkeep by (eapply rotation_weaken; [|done]; intros; apply elem_of_app; by left).
  destruct acc as [[actions locks] defs]. unfold tick_reshare. destruct (te_skip env (tk_Id k)); [done|].
  destruct (if bool_decide _ then _ else _) as [[] defs']; [exact Hkeep|]. by eapply rotation_add.
Qed.

Lemma tick_keygens_ok base done acc keys :
  NoDup (done ++ (tk_Id <$> keys)) → rotation_ok base done acc → rotation_ok base (done ++ (tk_Id <$> keys)) (foldl tick_keygen acc keys).
Proof.
  revert done acc. induction keys as [|k keys IH]; intros done acc Hnd Hok; [by rewrite app_nil_r|].
  rewrite fmap_cons in Hnd |- *. rewrite cons_middle, app_assoc in Hnd |- *. cbn [foldl]. apply IH; [done|].
  assert (tk_Id k ∉ done) as Hfresh.
  { apply NoDup_app in Hnd as (Hnd & _ & _). apply NoDup_app in Hnd as (_ & Hx & _). intros Hin. apply (Hx _ Hin). by left. }
  destruct acc as [[actions locks] defs]. by eapply rotation_add.
Qed.

Lemma rows_NoDup (P : TssKey → Prop) `{!∀ k, Decision (P k)} db : keys_ok db → NoDup (tk_Id <$> filter P (key_rows db)).
Proof.
  intros Hok. eapply sublist_NoDup; [|apply fmap_sublist, sublist_filter]. unfold key_rows. rewrite <- list_fmap_compose.
  assert ((tk_Id ∘ snd) <$> map_to_list db = (map_to_list db).*1) as ->; [|apply NoDup_fst_map_to_list].
  apply list_fmap_ext. intros i [id k] Hi. cbn. apply Hok. apply elem_of_map_to_list. by eapply list_elem_of_lookup_2.
Qed.

Lemma rows_lookup (P : TssKey → Prop) `{!∀ k, Decision (P k)} db k : keys_ok db → k ∈ filter P (key_rows db) → P k ∧ db !! tk_Id k = Some k.
Proof.
  intros Hok [HP Hk]%list_elem_of_filter. split; [done|]. unfold key_rows in Hk. apply list_elem_of_fmap in Hk as ([id k'] & -> & Hk).
  cbn. apply elem_of_map_to_list in Hk. by rewrite (Hok _ _ Hk).
Qed.

Lemma tick_rotate_ok env epoch sign base defs :
  keys_ok (te_keys env) → ∃ done, rotation_ok base done (tick_rotate env epoch sign ([], base, defs)).
Proof.
  intros Hok. unfold tick_rotate. set (keys := if te_shape env then _ else _). set (news := FindNewKeys _).
  assert (NoDup ((tk_Id <$> keys) ++ (tk_Id <$> news))) as Hnd.
  { assert (∀ k, k ∈ keys → tk_Status k = "active" ∧ te_keys env !! tk_Id k = Some k) as Hk.
    { intros k Hk. assert (k ∈ FindEpochKeys epoch (te_keys env)) as Hk' by (unfold keys in Hk; destruct (te_shape env); [by apply window_sub in Hk|done]).
      apply rows_lookup in Hk' as [(? & _) ?]; done. }
    apply NoDup_app. split_and!; [|intros x (k & -> & Hx)%list_elem_of_fmap (k' & Hid & Hx')%list_elem_of_fmap|by apply rows_NoDup].
    - unfold keys. destruct (te_shape env); [apply window_NoDup|]; by apply rows_NoDup.
    - apply rows_lookup in Hx' as [Hs Hl]; [|done]. destruct (Hk k Hx) as [Ha Hl']. rewrite Hid in Hl'. congruence. }
  exists ((tk_Id <$> keys) ++ (tk_Id <$> news)). apply tick_keygens_ok; [done|]. apply (tick_reshares_ok env sign base []).
  - by apply NoDup_app in Hnd as (? & _).
  - split_and!; [done|constructor|by intros a ?%not_elem_of_nil].
Qed.

(** A signing action: an active key, a pending request, and no lock on the key. *)
Definition signing_ok (env : tick_env) (locks : gset string) (pending : list TssRequest) (a : QueuedAction) : Prop :=
  qa_Type a = SignAction ∧ (qa_KeyId a ∉ locks) ∧ (∃ k, te_keys env !! qa_KeyId a = Some k ∧ tk_Status k = "active") ∧
  ∃ req, req ∈ pending ∧ tr_KeyId req = qa_KeyId a ∧ hex_decode (tr_Msg req) = Some (qa_Args a).

Lemma tick_signs_ok env locks pending all acc :
  (∀ x, x ∈ pending → x ∈ all) →
  ∃ new, (foldl (tick_sign env locks) acc pending).1 = acc.1 ++ new ∧ ∀ a, a ∈ new → signing_ok env locks all a.
Proof.
  revert acc. induction pending as [|req pending IH]; intros acc Hall; [exists []; rewrite app_nil_r; by split; [|intros a ?%not_elem_of_nil]|].
  cbn [foldl]. destruct (IH (tick_sign env locks acc req)) as (new & -> & Hnew); [intros; apply Hall; by right|].
  assert (∃ more, (tick_sign env locks acc req).1 = acc.1 ++ more ∧ ∀ a, a ∈ more → signing_ok env locks all a) as (more & -> & Hmore).
  { assert (∃ more, acc.1 = acc.1 ++ more ∧ ∀ a, a ∈ more → signing_ok env locks all a) as Hnone.
    { exists []. rewrite app_nil_r. by split; [|intros a ?%not_elem_of_nil]. }
    unfold tick_sign. set (k := match FindKey _ _ _ with KeyFound k => k | _ => _ end). destruct (String.eqb_spec (tk_Status k) "active") as [Hs|]; cbn [negb]; [|done].
    case_bool_decide as Hl; [done|]. destruct (hex_decode (tr_Msg req)) as [raw|] eqn:Hx; [|done]. eexists. split; [done|].
    intros a ->%list_elem_of_singleton. split_and!; [done|done| |]; cbn.
    - exists k. unfold k, FindKey in *. destruct (te_findErr env _); [done|]. by destruct (te_keys env !! tr_KeyId req).
    - exists req. split_and!; [apply Hall; left|done|done]. }
  exists (more ++ new). rewrite app_assoc. split; [done|]. intros a [?|?]%elem_of_app; auto.
Qed.

(** The actions of a block do not collide.  Each key has at most one ceremony, and a
    request is signed only for an active key that has no ceremony in this block and none
    still running from an earlier one. *)
Theorem actions_exclusive env s actions s' :
  keys_ok (te_keys env) → tks_queued s = [] → BlockTick env s = Some (actions, s') →
  NoDup (qa_KeyId <$> filter ceremony actions) ∧
  ∀ a, a ∈ actions → qa_Type a = SignAction →
    (∃ k, te_keys env !! qa_KeyId a = Some k ∧ tk_Status k = "active") ∧
    (∃ req, req ∈ (FindUnsignedRequests (te_keyErr env) (te_keys env) (tks_requests s)).1 ∧
       tr_KeyId req = qa_KeyId a ∧ hex_decode (tr_Msg req) = Some (qa_Args a)) ∧
    (∀ b, b ∈ actions → ceremony b → qa_KeyId b ≠ qa_KeyId a) ∧
    (te_shape env = true → qa_KeyId a ∉ (inFlightSessions (tks_actionMap s)).1).
Proof.
  intros Hok Hq. unfold BlockTick. rewrite Hq. destruct (if te_shape env then _ else _) as [fc fs] eqn:Hfl.
  set (acc := if _ =? 0 then _ else _). assert (∀ x, acc = Some x → ∃ done, rotation_ok fc done x) as Hrot.
  { intros x Hx. unfold acc in Hx. destruct (_ =? 0); [|simplify_eq; exists []; split_and!; [done|constructor|by intros a ?%not_elem_of_nil]].
    destruct (te_epoch env) as [ep|]; [|done]. cbn in Hx. injection Hx as <-. by apply tick_rotate_ok. }
  destruct acc as [[[cers locks] defs]|]; cbn [mbind option_bind]; [|done]. destruct (Hrot _ eq_refl) as (done0 & Hbase & Hnd & Hcer). clear Hrot.
  set (pending := FindUnsignedRequests _ _ _).
  destruct (if _ =? 0 then _ else _) as [signing reqs] eqn:Hsg. cbn [foldl]. intros [= <- _].
  assert (∃ new, signing = cers ++ new ∧ ∀ a, a ∈ new → signing_ok env locks pending.1 a) as (new & -> & Hnew).
  { destruct (_ =? 0); [|simplify_eq; exists []; rewrite app_nil_r; by split; [|intros a ?%not_elem_of_nil]]. destruct pending as [pend rq].
    destruct (tick_signs_ok env locks pend pend (cers, rq)) as (new & Hn & Hall); [done|]. rewrite Hsg in Hn. by exists new. }
  assert (∀ a, a ∈ cers ++ new → (ceremony a ∧ a ∈ cers) ∨ signing_ok env locks pending.1 a) as Hsplit.
  { intros a [Ha|Ha]%elem_of_app; [left; split; [by apply Hcer|done]|right; by apply Hnew]. } split.
  - assert (filter ceremony (cers ++ new) = cers) as ->; [|done]. rewrite filter_app, (filter_none _ new), app_nil_r.
    + apply filter_all. intros a Ha. by apply Hcer.
    + intros a Ha. destruct (Hnew a Ha) as [Ht _]. by intros Hne.
  - intros a Ha Ht. destruct (Hsplit a Ha) as [[Hc _]|(_ & Hlock & Hk & Hreq)]; [done|]. split_and!; [done|done| |].
    + intros b Hb Hcb Heq. destruct (Hsplit b Hb) as [[_ Hb']|(Htb & _)]; [|done]. apply Hlock. rewrite <- Heq. by apply Hcer.
    + intros Hsh Hin. rewrite Hsh in Hfl. rewrite Hfl in Hin. apply Hlock. by apply Hbase.
Qed.

(** ** Deferrals *)

(** Whether a reshare that finds a signature running at every rotate block is still
    skipped at the [n]-th of them. *)
Fixpoint defer_times (n : nat) (keyId : string) (deferrals : gmap string Z) : list bool :=
  match n with
  | O => []
  | S n => let '(b, deferrals) := deferReshare keyId deferrals in b :: defer_times n keyId deferrals
  end.

(** At most three rotate blocks in a row are lost to running signatures. *)
Lemma deferral_bounded keyId deferrals : 0 <= zget deferrals keyId <= MAX_RESHARE_DEFERRALS → false ∈ defer_times 4 keyId deferrals.
Proof.
  unfold MAX_RESHARE_DEFERRALS. intros Hd. cbn [defer_times]. unfold deferReshare, MAX_RESHARE_DEFERRALS.
  repeat match goal with
  | |- context [?a <? ?b] => destruct (Z.ltb_spec a b)
  | |- _ ∈ false :: _ => left
  | |- _ ∈ true :: _ => right
  | H : context [zget (<[?k := _]> _) ?k] |- _ => rewrite zget_insert, String.eqb_refl in H
  end; lia.
Qed.

(** ** Publishing *)

Lemma chunk_from_ok {E} (size : list E → Z) maxBytes packet current :
  (current = [] ∨ size current <= maxBytes ∨ length current = 1%nat) →
  concat (chunk_from size maxBytes current packet) = current ++ packet ∧
  Forall (λ c, c ≠ [] ∧ (size c <= maxBytes ∨ length c = 1%nat)) (chunk_from size maxBytes current packet).
Proof.
  revert current. induction packet as [|x packet IH]; intros current Hc; cbn [chunk_from].
  - case_bool_decide as He; [by subst|]. rewrite app_nil_r. cbn. rewrite app_nil_r. split; [done|]. apply Forall_singleton. split; [done|]. by destruct Hc.
  - case_bool_decide as He; cbn [negb andb].
    + subst. cbn [app]. destruct (IH [x]) as [-> HF]; [by right; right|]. by split.
    + destruct (Z.ltb_spec maxBytes (size (current ++ [x]))).
      * destruct (IH [x]) as [Hcc HF]; [by right; right|]. cbn. rewrite Hcc. split; [done|]. constructor; [|done]. split; [done|]. by destruct Hc.
      * destruct (IH (current ++ [x])) as [-> HF]; [by right; left|]. rewrite <- app_assoc. by split.
Qed.

(** A batch of signatures is published in full and in order, in packets that fit the
    limit; only a signature that does not fit by itself makes a packet that does not. *)
Theorem packets_complete {E} (size : list E → Z) packet maxBytes :
  concat (chunkSigPacket size packet maxBytes) = packet ∧
  ∀ c, c ∈ chunkSigPacket size packet maxBytes → c ≠ [] ∧ (size c <= maxBytes ∨ length c = 1%nat).
Proof.
  unfold chunkSigPacket. case_bool_decide; [subst; by split; [|intros c ?%not_elem_of_nil]|].
  destruct (chunk_from_ok size maxBytes packet []) as [Hc HF]; [by left|]. split; [done|]. by rewrite <- Forall_forall.
Qed.

(** ** What is kept of the gossip *)

Section gossip.
Context {sig : Type} `{BlsLib sig} (attestationCID : string → Z → Version → option string) (unread : sig).
Context {sk : Type} (seckey_Deserialize : list Z → option sk) (bls_Sign : sk → string → sig).
Context (HiveUsername BlsPrivKeySeed : string) (RunningVersion : Version).
(** the elections a node knows *)
Context (known : ElectionResult → Prop).

#[local] Abbreviation own_attestation :=
  (signReadyAttestation attestationCID seckey_Deserialize bls_Sign HiveUsername BlsPrivKeySeed RunningVersion).
#[local] Abbreviation tick := (ready_tick attestationCID seckey_Deserialize bls_Sign HiveUsername BlsPrivKeySeed RunningVersion).

(** The attestation's own signature verifies, under the key the account has in a known
    election, for its account, block and version. *)
Definition genuine (att : ReadyAttestation) : Prop :=
  ∃ e m c sigBytes, known e ∧ m ∈ el_Members e ∧ em_Account m = ra_Account att ∧
    attestationCID (ra_Account att) (ra_TargetBlock att) (ra_Version att) = Some c ∧
    b64_decode_padded url_value (ra_Sig att) = (sigBytes, true) ∧ length sigBytes = 96%nat ∧
    bls_Verify (em_Key m) c (default unread (sig_Deserialize sigBytes)) = true.

(** The node's own attestation, or one it checked. *)
Definition vouched (att : ReadyAttestation) : Prop :=
  genuine att ∨ own_attestation (ra_TargetBlock att) = Some att.

Definition store_ok (store : attestations) : Prop :=
  ∀ block atts a att, store !! block = Some atts → atts !! a = Some att →
    ra_Account att = a ∧ 0 <= ra_TargetBlock att ∧ FormatUint (ra_TargetBlock att) = block ∧ vouched att.

Lemma verify_genuine att e : known e → verifyAttestation attestationCID unread att e = true → genuine att.
Proof.
  intros He. unfold verifyAttestation. destruct (list_find _ _) as [[i m]|] eqn:Hf; [|done]. apply list_find_Some in Hf as (Hm & Ha & _).
  destruct (pubkey_ok _); cbn [negb]; [|done]. destruct (attestationCID _ _ _) as [c|] eqn:Hc; [|done].
  destruct (b64_decode_padded _ _) as [bytes []] eqn:Hb; [|done]. destruct (Nat.eqb_spec (length bytes) 96); cbn [negb]; [|done]. intros Hv.
  exists e, m, c, bytes. split_and!; [done|by eapply list_elem_of_lookup_2|done..].
Qed.

Lemma keep_ok e retiring members settling target existing raw :
  known e → (∀ a relec, ReadinessElection retiring a = Some relec → known relec) →
  let ok := λ m : gmap string ReadyAttestation, ∀ a att, m !! a = Some att → ra_Account att = a ∧ ra_TargetBlock att = target ∧ vouched att in
  ok existing → ok (keep_attestation attestationCID unread e retiring members settling target existing raw).
Proof.
  intros He Hre ok Hok. unfold keep_attestation. destruct raw as [g|]; [|done]. cbn zeta. destruct (_ || _); [done|]. case_bool_decide; [done|].
  case_bool_decide; [done|]. destruct settling; [done|]. set (att := mkReadyAttestation _ _ _ _). destruct (_ || _) eqn:Hv; [|done].
  intros a x [[<- <-]|[_ Hx]]%lookup_insert_Some; [|by apply Hok]. split_and!; [done|done|].
  left. apply orb_true_iff in Hv as [Hv|Hv]; [by eapply verify_genuine|]. destruct (ReadinessElection _ _) as [relec|] eqn:Hr; [|done].
  eapply verify_genuine; [by eapply Hre|done].
Qed.

Lemma gossip_ok shapeActive election retiring extra rotateInterval currentBh bundle store :
  (∀ h e, election h = Some e → known e) → (∀ a relec, ReadinessElection retiring a = Some relec → known relec) →
  (∀ target l, bundle = Some (target, l) → 0 <= target) →
  store_ok store → store_ok (handleReadyGossip attestationCID unread shapeActive election retiring extra rotateInterval currentBh bundle store).
Proof.
  intros Hel Hre Hpos Hok. unfold handleReadyGossip. destruct bundle as [[target l]|]; [|done]. destruct (_ || _); [done|].
  destruct (seated _) as [e|] eqn:He; [|done]. apply seated_Some in He as [He _]. destruct l as [l|]; [|done]. cbn zeta.
  intros block atts a att [[<- <-]|[_ Hs]]%lookup_insert_Some Ha; [|by eapply Hok].
  set (members := _ ∪ _) in Ha. set (settling := _ && _) in Ha. set (take_l := take _ _) in Ha. clearbody take_l members settling.
  assert (∀ m : gmap string ReadyAttestation,
    (∀ a att, m !! a = Some att → ra_Account att = a ∧ ra_TargetBlock att = target ∧ vouched att) →
    ∀ a att, foldl (keep_attestation attestationCID unread e retiring members settling target) m take_l !! a = Some att →
      ra_Account att = a ∧ ra_TargetBlock att = target ∧ vouched att) as Hfold.
  { clear Ha. induction take_l as [|x take_l IH]; intros m Hm; [done|]. cbn [foldl]. apply IH. apply keep_ok; [by eapply Hel|done|done]. }
  specialize (Hpos _ _ eq_refl). apply Hfold in Ha as (? & -> & ?); [done|]. clear Ha. intros a' att' Ha'. destruct (store !! FormatUint target) as [m|] eqn:Hs; [|done]. cbn in Ha'.
  destruct (Hok _ _ _ _ Hs Ha') as (? & Hp & Hf & Hg). split_and!; [done| |done]. by apply FormatUint_inj.
Qed.

Lemma cleanup_ok bh store : store_ok store → store_ok (cleanupGossipState bh store).
Proof. intros Hok block atts a att [Hs _]%map_lookup_filter_Some. by apply Hok. Qed.

Lemma own_ok target att : own_attestation target = Some att → ra_Account att = HiveUsername ∧ ra_TargetBlock att = target.
Proof.
  unfold signReadyAttestation. intros (c & _ & (seed & _ & Hs)%bind_Some)%bind_Some. destruct (negb _); [done|].
  by apply bind_Some in Hs as (k & _ & [= <-]).
Qed.

Lemma announce_target_ok env isMember eligible rs target :
  0 <= target → store_ok (rs_store rs) →
  store_ok (rs_store (announce_target attestationCID seckey_Deserialize bls_Sign HiveUsername BlsPrivKeySeed RunningVersion env isMember eligible rs target)).
Proof.
  intros Ht Hok. unfold announce_target. cbn [rs_store]. destruct (negb _ && _ && _ && _); [|done].
  destruct (own_attestation target) as [own|] eqn:Hown; [|done]. destruct (own_ok _ _ Hown) as [Ha Hb].
  intros block atts a att [[<- <-]|[_ Hs]]%lookup_insert_Some; [|by apply Hok].
  intros [[<- <-]|[_ Hl]]%lookup_insert_Some; [split_and!; [done|lia|by rewrite Hb|right; by rewrite Hb]|].
  destruct (rs_store rs !! FormatUint target) as [old|] eqn:Hs; [by eapply Hok|done].
Qed.

Lemma targets_nonneg env target : target ∈ gossipTargets env → 0 <= target.
Proof.
  unfold gossipTargets. rewrite elem_of_union. intros [Ht|Ht].
  - destruct (rotate_target env) as [[x need]|] eqn:Hr; [|by apply not_elem_of_empty in Ht]. apply elem_of_singleton in Ht as ->.
    unfold rotate_target in Hr. destruct (_ && _); [|done]. apply bind_Some in Hr as (e & _ & Hr).
    destruct (_ || _); [|done]. injection Hr as <- _. apply wrapu64_nonneg.
  - destruct (sign_target env) as [[x|] reqs] eqn:Hr; [|by apply not_elem_of_empty in Ht]. apply elem_of_singleton in Ht as ->.
    unfold sign_target in Hr. destruct (_ && _); [|done]. destruct (FindUnsignedRequests _ _ _).
    destruct (_ <? _); [|done]. injection Hr as <- _. apply wrapu64_nonneg.
Qed.

Lemma tick_ok env rs : store_ok (rs_store rs) → store_ok (rs_store (tick env rs).1).
Proof.
  intros Hok. unfold ready_tick. apply (cleanup_ok (re_bh env)) in Hok. set (rs1 := mkReadyState _ _ _ _).
  change (store_ok (rs_store rs1)) in Hok. clearbody rs1. destruct (re_synced env); [|done]. unfold announce. cbn [fst].
  case_bool_decide; [done|]. cbn [rs_store]. destruct (_ || _); [|done].
  assert (∀ l, (∀ x, x ∈ l → 0 <= x) → ∀ rs, store_ok (rs_store rs) → store_ok (rs_store (foldl (announce_target attestationCID seckey_Deserialize bls_Sign
    HiveUsername BlsPrivKeySeed RunningVersion env (match re_election env with Some e => bool_decide (HiveUsername ∈ accounts_of e) | None => false end)
    (HasReadiness (re_retiring env) HiveUsername)) rs l))) as Hfold.
  { induction l as [|x l IH]; intros Hl rs2 H2; [done|]. apply IH; [intros; apply Hl; by right|]. apply announce_target_ok; [apply Hl; by left|done]. }
  apply Hfold; [|done]. intros x Hx%elem_of_elements. by eapply targets_nonneg.
Qed.

(** The readiness a node has seen and announced since it started: bundles arrive from
    the network in any order and blocks are processed. *)
Inductive ready_step : ready_state → ready_state → Prop :=
  | ready_bundle rs shapeActive election retiring rotateInterval bundle :
      (∀ h e, election h = Some e → known e) → (∀ a relec, ReadinessElection retiring a = Some relec → known relec) →
      (∀ target l, bundle = Some (target, l) → 0 <= target) →
      ready_step rs (mkReadyState (rs_bh rs)
        (handleReadyGossip attestationCID unread shapeActive election retiring (ReadinessAccounts retiring) rotateInterval (rs_bh rs) bundle (rs_store rs))
        (rs_sent rs) (rs_withheld rs))
  | ready_block rs env : ready_step rs (tick env rs).1.

Lemma ready_run_ok rs : rtc ready_step no_ready rs → store_ok (rs_store rs).
Proof.
  assert (∀ a b, rtc ready_step a b → store_ok (rs_store a) → store_ok (rs_store b)) as Hrun.
  { induction 1 as [|x y z [rs' sa el rt ri bu He Hr Hb|rs' env] _ IH]; intros Hok; [done| |]; apply IH; [by apply gossip_ok|by apply tick_ok]. }
  intros Hr. apply (Hrun _ _ Hr). cbn [no_ready rs_store]. by intros block atts a att Hs%lookup_empty_Some.
Qed.

(** C24: Whoever is put in a sign or reshare session said so itself.  Start a node with no
    attestations, let bundles of any content arrive and blocks pass, and start the sessions
    of a block from the attestations it then holds: for each party the node holds an
    attestation of that account for this very block whose signature verifies, for that
    account, block and version, under a key the account has in an election the node read,
    or the party is the node itself and the attestation the one it signed.  The attested
    version meets the version in force unless the account is waived for a key that is being
    retired.  The elections the node reads name an account once.  A keygen session is not
    started from attestations and has no place here. *)
Theorem parties_attested v rs locked actions m d a :
  reads_ok (tv_reads v) → range_ok (tv_range v) → mg_dispatchers m = [] → 0 <= tv_bh v →
  rtc ready_step no_ready rs → tv_attested v = attested_at (rs_store rs) (tv_bh v) →
  d ∈ mg_dispatchers (RunActions v locked actions m) →
  match d with
  | KeyGenDispatcher _ _ _ _ _ _ => False
  | SignDispatcher _ _ _ parties _ _ _ _ => a ∈ parties
  | ReshareDispatcher _ _ _ old new _ _ _ _ _ _ => a ∈ old ∨ a ∈ new
  end →
  ∃ atts att, rs_store rs !! FormatUint (tv_bh v) = Some atts ∧ atts !! a = Some att ∧
    ra_Account att = a ∧ ra_TargetBlock att = tv_bh v ∧
    (genuine att ∨ (a = HiveUsername ∧ own_attestation (tv_bh v) = Some att)) ∧
    (MeetsConsensusMin (ra_Version att) (tv_version v) = true ∨ (dispatcher_KeyId d ∈ KeyIds (tv_retiring v) ∧ Has (tv_retiring v) a = true)).
Proof.
  intros Hreads Hrange Hm Hbh Hok%ready_run_ok Hatt Hd Ha. pose proof (sessions_ok v locked actions m d Hreads Hrange Hm Hd) as Hs.
  assert (∀ waived, attested_ready (tv_attested v) (tv_version v) waived a →
    ∃ atts att, rs_store rs !! FormatUint (tv_bh v) = Some atts ∧ atts !! a = Some att ∧ ra_Account att = a ∧ ra_TargetBlock att = tv_bh v ∧
      (genuine att ∨ (a = HiveUsername ∧ own_attestation (tv_bh v) = Some att)) ∧
      (MeetsConsensusMin (ra_Version att) (tv_version v) = true ∨ waived a = true)) as Hgen.
  { intros waived (w & Hw & Hmeet). rewrite Hatt in Hw. unfold attested_at in Hw. rewrite lookup_fmap in Hw.
    destruct (rs_store rs !! FormatUint (tv_bh v)) as [atts|] eqn:Hst; cbn [default] in Hw; [|done]. apply fmap_Some in Hw as (att & Hl & ->).
    destruct (Hok _ _ _ _ Hst Hl) as (Hacc & Hp & Hf & Hg). apply FormatUint_inj in Hf; [|done..].
    exists atts, att. split_and!; [done..| |by apply orb_true_iff in Hmeet].
    destruct Hg as [Hg|Ho]; [by left|right]. rewrite Hf in Ho. destruct (own_ok _ _ Ho) as [Hown _]. by rewrite <- Hacc. }
  destruct d as [|sid keyId algo ps ep msg pt size|sid keyId algo old new ep nep bh os ns pt]; [done| |]; cbn in Hs |- *.
  - destruct Hs as (H1 & H2 & H3 & holders & H4 & H5 & Hne & Hall). apply Hall in Ha as [_ Hr]. apply Hgen in Hr as (atts & att & ? & ? & ? & ? & ? & Hw).
    exists atts, att. split_and!; [done..|]. destruct Hw as [?|[Hk%bool_decide_eq_true ?]%andb_true_iff]; [by left|right; by split].
  - destruct Hs as (H1 & H2 & H3 & H4 & H5 & (holders & H6 & H7 & Ho) & e & H8 & H9 & H10 & Hn).
    assert (attested_ready (tv_attested v) (tv_version v) (λ _, false) a) as Hr by (destruct Ha as [Ha|Ha]; [by apply Ho in Ha as [_ ?]|by apply Hn in Ha as [_ ?]]).
    apply Hgen in Hr as (atts & att & ? & ? & ? & ? & ? & [?|Hw]); [|done]. exists atts, att. split_and!; [done..|by left].
Qed.
End gossip.

(** ** A finished collection *)

Section collecting.
Context {sig : Type} `{BlsLib sig} (e : ElectionResult).

(** The weight of the seats of the accounts. *)
Definition seats_weight (X : gset string) (members : list ElectionMember) (weights : list Z) : Z :=
  zsum (zip_with (λ m w, if bool_decide (em_Account m ∈ X) then w else 0) members weights).

Lemma seats_weight_fresh a X members weights :
  a ∉ em_Account <$> members → seats_weight ({[a]} ∪ X) members weights = seats_weight X members weights.
Proof.
  revert weights. induction members as [|m members IH]; intros [|w weights]; [done..|]. rewrite fmap_cons, not_elem_of_cons. intros [Ha Hm].
  unfold seats_weight in *. cbn. rewrite IH by done. f_equal. assert (em_Account m ∈ {[a]} ∪ X ↔ em_Account m ∈ X) by set_solver. by repeat case_bool_decide; naive_solver.
Qed.

Lemma seats_weight_add members weights X i m w :
  NoDup (em_Account <$> members) → members !! i = Some m → weights !! i = Some w → em_Account m ∉ X →
  seats_weight ({[em_Account m]} ∪ X) members weights = seats_weight X members weights + w.
Proof.
  revert weights i. induction members as [|m0 members IH]; intros [|w0 weights] [|i] Hnd Hm Hw Hfresh; try done.
  - cbn in Hm, Hw. simplify_eq. apply NoDup_cons in Hnd as [Hni _]. pose proof (seats_weight_fresh (em_Account m) X members weights Hni) as E.
    unfold seats_weight in *. cbn. rewrite E. rewrite bool_decide_true by set_solver. rewrite bool_decide_false by done. lia.
  - rewrite fmap_cons in Hnd. apply NoDup_cons in Hnd as [Hni Hnd]. cbn in Hm, Hw. pose proof (IH weights i Hnd Hm Hw Hfresh) as E.
    unfold seats_weight in *. cbn. rewrite E. assert (em_Account m0 ≠ em_Account m) as Hne.
    { intros Heq. apply Hni. rewrite Heq. apply list_elem_of_fmap_2. by eapply list_elem_of_lookup_2. }
    assert (em_Account m0 ∈ {[em_Account m]} ∪ X ↔ em_Account m0 ∈ X) by set_solver. repeat case_bool_decide; naive_solver lia.
Qed.

Lemma seats_weight_le members weights X : Forall (λ w, 0 <= w) weights → 0 <= seats_weight X members weights <= zsum weights.
Proof.
  revert weights. induction members as [|m members IH]; intros [|w weights] Hw; unfold seats_weight in *; cbn; try lia.
  - apply zsum_nonneg in Hw. cbn in Hw. lia.
  - apply Forall_cons in Hw as [Hw0 Hw]. specialize (IH weights Hw). case_bool_decide; lia.
Qed.

(** The weight is that of the accounts, whose keys have all signed. *)
Definition collection_ok (c : collection) : Prop :=
  co_weight c = seats_weight (co_accounts c) (el_Members e) (el_Weights e) ∧ pc_finalized (co_circuit c) = false ∧ circuit_ok (co_circuit c) ∧
  ∀ m, m ∈ el_Members e → em_Account m ∈ co_accounts c → is_Some (pc_sigs (co_circuit c) !! em_Key m).

Hypothesis (Haccounts : NoDup (accounts_of e)) (Hweights : Forall (λ w, 0 <= w) (el_Weights e)) (Htotal : zsum (el_Weights e) <= MaxUint64).

Lemma collects_one_ok c m c' : collection_ok c → collect_one e c m = Some c' → collection_ok c'.
Proof.
  intros Hok. pose proof Hok as (Hw & Hfin & Hcirc & Hsig). unfold collect_one. case_bool_decide as Hin; [by intros [= <-]|].
  destruct (list_find _ _) as [[i x]|] eqn:Hf; [|by intros [= <-]]. apply list_find_Some in Hf as (Hx & Ha & _).
  destruct (AddAndVerify _ _ _) as [r pc'] eqn:Hadd. apply add_spec in Hadd as (_ & _ & Hc' & Hnew & Hfin' & Hsame).
  assert (∀ k, is_Some (pc_sigs (co_circuit c) !! k) → is_Some (pc_sigs pc' !! k)) as Hmono.
  { intros k Hk. destruct (decide (k = em_Key x)) as [->|Hne]; [|by rewrite Hsame by (by left)].
    destruct (decide (r = Some true)) as [Hr|Hr]; [by apply Hnew|by rewrite Hsame by (by right)]. }
  assert (collection_ok (mkCollection (co_weight c) (co_accounts c) pc')) as Hskip.
  { split_and!; cbn; [done|congruence|by apply Hc'|]. intros y Hy Hay. by apply Hmono, Hsig. }
  destruct r as [[]|]; [|by intros [= <-]..]. destruct (el_Weights e !! i) as [w|] eqn:Hwi; cbn [mbind option_bind]; [|done]. intros [= <-].
  assert (seats_weight ({[sm_Account m]} ∪ co_accounts c) (el_Members e) (el_Weights e) = co_weight c + w) as Hadd.
  { rewrite Hw, <- Ha. apply (seats_weight_add _ _ _ i); [done|done|done|by rewrite Ha]. }
  split_and!; cbn; [|congruence|by apply Hc'|].
  - unfold u64_add. rewrite Hadd. apply wrapu64_id. rewrite <- Hadd.
    pose proof (seats_weight_le (el_Members e) (el_Weights e) ({[sm_Account m]} ∪ co_accounts c) Hweights). unfold u64. lia.
  - intros y Hy [Hay%elem_of_singleton|Hay]%elem_of_union; [|by apply Hmono, Hsig].
    assert (y = x) as ->; [|by apply Hnew]. apply list_elem_of_lookup in Hy as [j Hj].
    assert (i = j) as <-; [|congruence]. eapply (NoDup_lookup _ i j (em_Account x) Haccounts); unfold accounts_of; rewrite list_lookup_fmap.
    + by rewrite Hx.
    + rewrite Hj. cbn. congruence.
Qed.

(** C25: When the collection of signatures on a commitment ends well, at least two thirds
    of the committee's weight has signed it: the accounts counted are distinct seats, each
    with a valid signature of its key in the circuit. *)
Theorem collection_has_quorum members msg settle events c :
  collectSigs e (zsum (el_Weights e)) settle (mkCollection 0 ∅ (Generate members msg)) events = Collected true c →
  2 * zsum (el_Weights e) <= 3 * seats_weight (co_accounts c) (el_Members e) (el_Weights e) ∧ circuit_ok (co_circuit c) ∧
  ∀ m, m ∈ el_Members e → em_Account m ∈ co_accounts c → is_Some (pc_sigs (co_circuit c) !! em_Key m).
Proof.
  set (total := zsum (el_Weights e)). assert (0 <= total) as Hnn by by apply zsum_nonneg.
  assert (total -u64 (total / 3) = total - total / 3) as Hq.
  { unfold u64_sub. apply wrapu64_id. unfold u64. fold total in Htotal. Z.to_euclidean_division_equations; lia. }
  assert (∀ c0, collection_ok c0 → collectSigs e total settle c0 events = Collected true c →
    collection_ok c ∧ (total <= co_weight c ∨ total - total / 3 <= co_weight c)) as Hrun.
  { induction events as [|ev events IH]; intros c0 Hok; cbn [collectSigs]; rewrite Hq; destruct (negb _) eqn:Hstop.
    1,3: intros [= <-]; split; [done|]; apply negb_true_iff, andb_false_iff in Hstop as [Hs|[_ Hs]%orb_false_iff]; lia.
    - done.
    - destruct ev as [m| |]; [|destruct settle; [|by apply IH]|done].
      + destruct (collect_one e c0 m) as [c1|] eqn:H1; [|done]. apply IH. by eapply collects_one_ok.
      + destruct (Z.ltb_spec (co_weight c0) (total - total / 3)) as [|Hge]; cbn [negb]; [done|]. intros [= <-]. split; [done|by right]. }
  intros Hc. apply Hrun in Hc as [(Hw & _ & Hcirc & Hsig) Hge].
  - split_and!; [|done|done]. rewrite <- Hw. Z.to_euclidean_division_equations; lia.
  - split_and!; cbn; [|done|apply generate_ok|set_solver]. unfold seats_weight. generalize (el_Members e), (el_Weights e). clear.
    intros l w. revert w. induction l as [|m l IH]; intros [|x w]; [done..|]. cbn. rewrite bool_decide_false by set_solver. by rewrite <- IH.
Qed.
End collecting.
