(* ===== verification/ExecContext.v ===== *)
(** The execution context of a contract call,
    [modules/contract/execution-context/execution-context.go], with the host
    functions of [modules/wasm/sdk/sdk.go] that act on it.

    A context belongs to one invocation of one contract.  Its host functions
    read and write the state of the contract, move balances through the ledger
    session of the transaction, record logs and signing requests, and meter the
    bytes they read and write.  What may be taken from the caller is bounded by
    the intents of the call ([tokenLimits]).

    A host function runs on the context, the ledger session and the call session
    and either returns, or panics.  The texts that [encoding/json] writes are
    parameters, and so are the pure cryptographic functions. *)
From Stdlib Require Import Ascii.
From S2P Require Import Prelude GoMaps GoStrings Assets LedgerDb LedgerTypes Oplog LedgerState LedgerSession TssDb DataBin ContractSession.

(** ** Package unicode/utf8 *)

Definition byte_in (lo hi : N) (c : ascii) : bool := (lo <=? N_of_ascii c)%N && (N_of_ascii c <=? hi)%N.

(** [utf8.Valid] *)
Fixpoint utf8_Valid (s : string) : bool :=
  match s with
  | "" => true
  | String a s1 =>
      if byte_in 0 127 a then utf8_Valid s1
      else match s1 with
      | "" => false
      | String b s2 =>
          if byte_in 194 223 a then byte_in 128 191 b && utf8_Valid s2
          else match s2 with
          | "" => false
          | String c s3 =>
              if byte_in 224 224 a then byte_in 160 191 b && byte_in 128 191 c && utf8_Valid s3
              else if byte_in 237 237 a then byte_in 128 159 b && byte_in 128 191 c && utf8_Valid s3
              else if byte_in 225 239 a then byte_in 128 191 b && byte_in 128 191 c && utf8_Valid s3
              else match s3 with
              | "" => false
              | String d s4 =>
                  if byte_in 240 240 a then byte_in 144 191 b && byte_in 128 191 c && byte_in 128 191 d && utf8_Valid s4
                  else if byte_in 244 244 a then byte_in 128 143 b && byte_in 128 191 c && byte_in 128 191 d && utf8_Valid s4
                  else if byte_in 241 243 a then byte_in 128 191 b && byte_in 128 191 c && byte_in 128 191 d && utf8_Valid s4
                  else false
              end
          end
      end
  end.

(** ** Constants *)

Definition CYCLE_GAS_PER_RC : Z := 100000.
Definition WRITE_IO_GAS_RC_COST : Z := 19.
Definition READ_IO_GAS_RC_COST : Z := 1.
Definition EPHEM_IO_GAS : Z := 100.

Definition IC_INVALD_PAYLD : string := "ic_invalid_payload".
Definition IC_CONTRT_NOT_FND : string := "ic_contract_not_found".
Definition IC_CONTRT_GET_ERR : string := "ic_contract_get_error".
Definition IC_CODE_FET_ERR : string := "ic_code_fetch_error".
Definition IC_CID_DEC_ERR : string := "ic_cid_decode_error".
Definition IC_RCSE_LIMIT_HIT : string := "ic_recursion_limit_hit".
Definition SDK_ERROR : string := "sdk_error".
Definition MISSING_REQ_AUTH : string := "missing_required_auth".
Definition ENV_VAR_ERROR : string := "env_var_error".
Definition LEDGER_ERROR : string := "ledger_error".
Definition LEDGER_INTENT_ERROR : string := "ledger_intent_error".
Definition UNK_ERROR : string := "unknown_error".

(** ** Data *)

Record Intent := mkIntent { in_Type : string; in_Args : gmap string string }.

(** The values of the oracle snapshot, by their Go type. *)
Inductive oracle_value :=
| OString (s : string)
| OBool (b : bool)
| OInt (z : Z)
| OUint (z : Z)
| OJson (text : option string).

Record Environment := mkEnvironment {
  env_ContractId : string;
  env_ContractOwner : string;
  env_BlockHeight : Z;
  env_TxId : string;
  env_BlockId : string;
  env_Index : Z;
  env_OpIndex : Z;
  env_Timestamp : string;
  env_RequiredAuths : list string;
  env_RequiredPostingAuths : list string;
  env_Caller : string;
  env_Sender : string;
  env_Intents : list Intent;
  env_PendulumOracle : gmap string oracle_value;
}.

(** The version gates of a transaction and whether it has an applier of swap
    fees; nested calls inherit them. *)
Record gates := mkGates {
  hasPendulumApplier : bool;
  tryCatchActive : bool;
  vaultRotationV2Active : bool;
  sp1WorkPricing : bool;
  keyResharedActive : bool;
}.

(** [ioSessions] has nil slots for the sessions that ended. *)
Record exec_context := mkContext {
  env : Environment;
  rcLimit : Z;
  rcFreeRemaining : Z;
  gasRemain : Z;
  gasUsage : Z;
  ioReadGas : Z;
  ioWriteGas : Z;
  ioSessions : list (option (Z * Z));
  tokenLimits : gmap string Z;
  ctx_gates : gates;
}.

(** ** Token limits *)

(** The value of [strconv.ParseInt(s, 10, 64)], which is used although there may
    be an error: a number out of range gives the nearest one, anything else
    zero. *)
Definition ParseInt_value (s : string) : Z :=
  match ParseInt s with
  | Some n => n
  | None =>
      let '(neg, digits) :=
        match s with
        | String "-" t => (true, t)
        | String "+" t => (false, t)
        | _ => (false, s)
        end in
      if negb (String.eqb digits "") && allc is_09 digits then if neg : bool then MinInt64 else MaxInt64 else 0
  end.

(** The value only; [dec] zeros are written out whatever [decimals] is. *)
Definition ParseDecimalsToBaseUnits (amount : string) (decimals : Z) : Z :=
  match Split amount "." with
  | [intPart] =>
      let dec := if 0 <=? decimals then Z.to_nat decimals else 0%nat in
      ParseInt_value (intPart +:+ repeat_zero dec)
  | [intPart; fracPart] =>
      let dec := if 0 <=? decimals then Z.to_nat decimals else slen fracPart in
      let fracPart := if (dec <? slen fracPart)%nat then stake dec fracPart
                      else fracPart +:+ repeat_zero (dec - slen fracPart) in
      ParseInt_value (intPart +:+ fracPart)
  | _ => 0
  end.

(** The first intent for a token counts. *)
Definition add_limit (acc : gset string * gmap string Z) (intent : Intent) : gset string * gmap string Z :=
  let '(seenTypes, limits) := acc in
  if negb (String.eqb (in_Type intent) "transfer.allow") then acc
  else
    match in_Args intent !! "limit", in_Args intent !! "token" with
    | Some limit, Some token =>
        let decimals := default (-1) (in_Args intent !! "decimals" ≫= ParseInt) in
        let key := in_Type intent +:+ "-" +:+ token in
        if bool_decide (key ∈ seenTypes) then acc
        else ({[key]} ∪ seenTypes, <[token := ParseDecimalsToBaseUnits limit decimals]> limits)
    | _, _ => acc
    end.

Definition token_limits (intents : list Intent) : gmap string Z := (foldl add_limit (∅, ∅) intents).2.

Definition New (e : Environment) (limit free gas : Z) (g : gates) : exec_context :=
  mkContext e limit free gas 0 0 0 [] (token_limits (env_Intents e)) g.

(** ** Effects *)

(** How a piece of code ends: it returns, it panics, or it waits for ever. *)
Inductive outcome (A : Type) := Returned (a : A) | Panicked | Blocked.
#[global] Arguments Returned {A}.
#[global] Arguments Panicked {A}.
#[global] Arguments Blocked {A}.

(** What a host function acts on. *)
Record xstate := mkX {
  x_ctx : exec_context;
  x_ledger : ledgerSession;
  x_call : CallSession;
}.

Definition M (A : Type) : Type := xstate → outcome A * xstate.

Definition ret {A} (a : A) : M A := λ x, (Returned a, x).
Definition panic {A} : M A := λ x, (Panicked, x).
Definition bind {A B} (m : M A) (k : A → M B) : M B := λ x,
  match m x with
  | (Returned a, x) => k a x
  | (Panicked, x) => (Panicked, x)
  | (Blocked, x) => (Blocked, x)
  end.

Declare Scope exec_scope.
Delimit Scope exec_scope with exec.
Notation "'let!' x := m 'in' k" := (bind m (λ x, k)) (at level 10, x name, m at level 100, k at level 200) : exec_scope.
Notation "'do!' m 'in' k" := (bind m (λ _, k)) (at level 10, m at level 100, k at level 200) : exec_scope.
#[local] Open Scope exec_scope.

Definition get_ctx : M exec_context := λ x, (Returned (x_ctx x), x).
Definition set_ctx (c : exec_context) : M unit := λ x, (Returned (), mkX c (x_ledger x) (x_call x)).
Definition on_ledger {A} (f : ledgerSession → A * ledgerSession) : M A := λ x,
  let '(a, led) := f (x_ledger x) in (Returned a, mkX (x_ctx x) led (x_call x)).
Definition on_call {A} (f : CallSession → A * CallSession) : M A := λ x,
  let '(a, cs) := f (x_call x) in (Returned a, mkX (x_ctx x) (x_ledger x) cs).

(** An SDK error: its symbol, its message and the gas of a failed nested call. *)
Record sdk_error := mkSdkError { se_Symbol : string; se_Msg : string; se_Gas : Z }.

Definition joined {A} (symbol msg : string) : sdk_error + A := inl (mkSdkError symbol msg 0).
(** An error that carries no symbol. *)
Definition plain {A} (msg : string) : sdk_error + A := inl (mkSdkError UNK_ERROR msg 0).

(** The result of an SDK function: an error, or a text and the gas it cost. *)
Abbreviation sdk_result := (sdk_error + (string * Z))%type.

(** [result.Map] on the result of a context function, with its cost. *)
Definition costs {A} (text : A → string) (gas : Z) (r : sdk_error + A) : sdk_result :=
  match r with inl e => inl e | inr a => inr (text a, gas) end.

(** ** Metering *)

Definition set_io (r w : Z) (sess : list (option (Z * Z))) (c : exec_context) : exec_context :=
  mkContext (env c) (rcLimit c) (rcFreeRemaining c) (gasRemain c) (gasUsage c) r w sess (tokenLimits c) (ctx_gates c).

Definition io_gas (r w : Z) : Z :=
  ((r *64 READ_IO_GAS_RC_COST) +64 (w *64 WRITE_IO_GAS_RC_COST)) *64 CYCLE_GAS_PER_RC.

Definition IOGas (c : exec_context) : Z := io_gas (ioReadGas c) (ioWriteGas c).

(** A nil slot is dereferenced. *)
Definition doIO (readGas writeGas : Z) : M unit :=
  let! c := get_ctx in
  match mapM (λ s, '(r, w) ← s; Some (Some (r +64 readGas, w +64 writeGas))) (ioSessions c) with
  | None => panic
  | Some sess => set_ctx (set_io (ioReadGas c +64 readGas) (ioWriteGas c +64 writeGas) sess c)
  end.

(** The slot of a new session: the first nil one, or a new one. *)
Definition IOSession : M nat :=
  let! c := get_ctx in
  match list_find (λ s, s = None) (ioSessions c) with
  | Some (i, _) => do! set_ctx (set_io (ioReadGas c) (ioWriteGas c) (<[i := Some (0, 0)]> (ioSessions c)) c) in ret i
  | None =>
      do! set_ctx (set_io (ioReadGas c) (ioWriteGas c) (ioSessions c ++ [Some (0, 0)]) c) in ret (length (ioSessions c))
  end.

Definition End (i : nat) : M Z :=
  let! c := get_ctx in
  do! set_ctx (set_io (ioReadGas c) (ioWriteGas c) (<[i := None]> (ioSessions c)) c) in
  ret (match ioSessions c !! i with Some (Some (r, w)) => wrapu64 (io_gas r w) | _ => 0 end).

(** A context function inside an IO session, which ends when it succeeds. *)
Definition metered {A} (text : A → string) (m : M (sdk_error + A)) : M sdk_result :=
  let! session := IOSession in
  let! r := m in
  match r with
  | inl e => ret (inl e)
  | inr a => let! gas := End session in ret (inr (text a, gas))
  end.

Definition SetGasUsage (gasUsed : Z) : M unit :=
  let! c := get_ctx in
  set_ctx (mkContext (env c) (rcLimit c) (rcFreeRemaining c) (gasRemain c) gasUsed (ioReadGas c) (ioWriteGas c)
             (ioSessions c) (tokenLimits c) (ctx_gates c)).

Definition len (s : string) : Z := Z.of_nat (slen s).

Section context.
Context {S : Type} `{LedgerDb S} `{StateSource} (st : LedgerState S).

(** ** State *)

Definition Log (msg : string) : M (sdk_error + unit) :=
  do! doIO (len msg) 0 in
  let! c := get_ctx in
  do! on_call (λ cs, ((), call_AppendLogs (env_ContractId (env c)) [msg] cs)) in ret (inr ()).

(** Read a key of a contract; nil and the empty value read the same. *)
Definition ContractStateGet (contractId key : string) : M (sdk_error + string) :=
  do! doIO (len key) 0 in
  let! res := on_call (on_session contractId (ss_Get key)) in
  match res with
  | None => ret (inr "")
  | Some v => do! doIO (len v) 0 in ret (inr v)
  end.

Definition GetState (key : string) : M (sdk_error + string) :=
  let! c := get_ctx in ContractStateGet (env_ContractId (env c)) key.

(** The read never fails, so the branch that charges for a new key is not
    reached. *)
Definition SetState (key value : string) : M (sdk_error + unit) :=
  let! prev := GetState key in
  let! newWriteToAdd :=
    match prev with
    | inl _ => ret (len key +64 len value)
    | inr prevValue =>
        if len prevValue <? len value
        then do! doIO (len prevValue) 0 in ret (len value -64 len prevValue)
        else do! doIO (len value) 0 in ret 0
    end in
  let! c := get_ctx in
  let! newWriteGas := on_call (call_IncSize (env_ContractId (env c)) newWriteToAdd) in
  do! doIO (newWriteToAdd -64 newWriteGas) newWriteGas in
  do! on_call (on_session (env_ContractId (env c)) (λ s, ((), ss_Set key value s))) in ret (inr ()).

(** The length of the key is added to the size, not taken from it. *)
Definition DeleteState (key : string) : M (sdk_error + unit) :=
  do! doIO (len key) 0 in
  let! prev := GetState key in
  match prev with
  | inl _ => panic
  | inr value =>
      let! c := get_ctx in
      do! on_call (call_IncSize (env_ContractId (env c)) (len key -64 len value)) in
      do! on_call (on_session (env_ContractId (env c)) (λ s, ((), ss_Delete key s))) in ret (inr ())
  end.

Definition GetEphemState (contractId key : string) : M (sdk_error + string) :=
  let! c := get_ctx in
  let id := if String.eqb contractId "" then env_ContractId (env c) else contractId in
  let! res := on_call (on_session id (λ s, (GetEphem key s, s))) in
  ret (inr (default "" res)).

Definition SetEphemState (key value : string) : M (sdk_error + unit) :=
  let! c := get_ctx in
  do! on_call (on_session (env_ContractId (env c)) (λ s, ((), SetEphem key value s))) in ret (inr ()).

Definition DeleteEphemState (key : string) : M (sdk_error + unit) :=
  let! c := get_ctx in
  do! on_call (on_session (env_ContractId (env c)) (λ s, ((), DeleteEphem key s))) in ret (inr ()).

(** ** Balances *)

Definition contract_account (id : string) : string := "contract:" +:+ id.

Definition ctx_GetBalance (account asset : string) : M Z :=
  let! c := get_ctx in on_ledger (ses_GetBalance st account (env_BlockHeight (env c)) asset).

(** A transfer of the transaction the context belongs to. *)
Definition ctx_event (c : exec_context) (from to : string) (amount : Z) (asset : string) : OpLogEvent :=
  mkOpLogEvent to from amount asset "" "transfer" (env_TxId (env c)) 0 0 (env_BlockHeight (env c)) None.

(** A ledger result as the result of a context function. *)
Definition ledger_result (r : LedgerResult) : sdk_error + unit :=
  if Ok r then inr () else joined LEDGER_ERROR (Msg r).

Definition set_limits (limits : gmap string Z) (c : exec_context) : exec_context :=
  mkContext (env c) (rcLimit c) (rcFreeRemaining c) (gasRemain c) (gasUsage c) (ioReadGas c) (ioWriteGas c)
    (ioSessions c) limits (ctx_gates c).

(** What a draw leaves with the payer of the credits. *)
Definition draw_options (c : exec_context) (asset from : string) : list TransferOptions :=
  if String.eqb asset "hbd" && negb (HasPrefix from "contract:") then
    let exclusion := rcLimit c -64 rcFreeRemaining c in
    if 0 <? exclusion then [mkTransferOptions exclusion] else []
  else [].

Definition PullBalance (from : string) (amount : Z) (asset : string) : M (sdk_error + unit) :=
  let! c := get_ctx in
  match env_RequiredAuths (env c) with
  | [] => ret (joined MISSING_REQ_AUTH "no active authority")
  | _ :: _ =>
      if String.eqb from (env_Caller (env c)) || String.eqb from "" then
        match tokenLimits c !! asset with
        | None => ret (joined LEDGER_INTENT_ERROR ("no caller intent for: " +:+ asset))
        | Some tokenLimit =>
            if tokenLimit <? amount then
              ret (joined LEDGER_INTENT_ERROR
                     ("amount (" +:+ Itoa amount +:+ ") is over remaining token limit (" +:+ Itoa tokenLimit +:+ ")"))
            else
              do! set_ctx (set_limits (<[asset := tokenLimit -64 amount]> (tokenLimits c)) c) in
              let from := env_Caller (env c) in
              let! res := on_ledger (ExecuteTransfer st
                  (ctx_event c from (contract_account (env_ContractId (env c))) amount asset) (draw_options c asset from)) in
              ret (ledger_result res)
        end
      else ret (joined LEDGER_INTENT_ERROR "user does not match caller")
  end.

Definition SendBalance (to : string) (amount : Z) (asset : string) : M (sdk_error + unit) :=
  let! c := get_ctx in
  let! res := on_ledger (ExecuteTransfer st (ctx_event c (contract_account (env_ContractId (env c))) to amount asset) []) in
  ret (ledger_result res).

(** The withdrawal of the ledger session never panics ([run_op_total]). *)
Definition WithdrawBalance (to : string) (amount : Z) (asset : string) : M (sdk_error + unit) :=
  let! c := get_ctx in
  let! res := (λ x, match Withdraw st (mkWithdrawParams (env_TxId (env c)) (contract_account (env_ContractId (env c))) to asset amount ""
                                         0 0 (env_BlockHeight (env c))) (x_ledger x) with
                    | Some (r, led) => (Returned r, mkX (x_ctx x) led (x_call x))
                    | None => (Panicked, x)
                    end) in
  ret (ledger_result res).
End context.

(** ** What the host functions use from outside *)

Record swap_args := mkSwapArgs { sa_AssetIn : string; sa_AssetOut : string; sa_X : Z; sa_XReserve : Z; sa_YReserve : Z }.

Record swap_fee_result := mkSwapFeeResult {
  sw_UserOutput : Z;
  sw_NewXReserve : Z;
  sw_NewYReserve : Z;
  sw_NetworkCreditOutput : Z;
  sw_NodeBucketCreditedHBD : Z;
  sw_LpShareOutput : Z;
  sw_NodeShareOutput : Z;
  sw_MultiplierBps : Z;
  sw_SAfterBps : Z;
}.

(** A run of the applier of swap fees: it ends, or it asks for an amount to be
    moved to the node bucket and goes on with the answer, an error or none. *)
Inductive applier_run :=
| ADone (r : sdk_error + swap_fee_result)
| AAccrue (amountHBD : Z) (k : option string → applier_run).

(** The options of a nested call. *)
Record ICCallOptions := mkICCallOptions { ic_Intents : list Intent; ic_Try : bool }.

Record Host := mkHost {
  host_FindKey : string → key_read;
  (** The keygen commitments of a key, their epochs and public keys; [None] when a
      record cannot be decoded.  Other errors are retried. *)
  FindKeygens : string → option (list (Z * option string));
  ApplySwapFees : string → string → Z → swap_args → applier_run;
  (** The pure functions of the namespaces crypto and system, with their cost;
      the flag is the pricing gate. *)
  pure_function : bool → string → list string → sdk_result;
  (** Texts of [encoding/json]. *)
  json_strings : list string → string;
  json_intents : list Intent → string;
  json_env : Environment → string;
  json_result : string → string;
  json_swap : swap_fee_result → string;
  json_try : bool → string → string → string → string;
  parse_swap : string → option (string * string * string * string * string);
  parse_options : string → ICCallOptions;
  parse_payload : string → string;
}.

Section host.
Context {S : Type} `{LedgerDb S} `{StateSource} (st : LedgerState S) (host : Host).

(** ** The environment *)

Definition first_auth (e : Environment) : option string :=
  match env_RequiredAuths e, env_RequiredPostingAuths e with
  | a :: _, _ => Some a
  | [], a :: _ => Some a
  | [], [] => None
  end.

Definition envOracleValueToResult (v : oracle_value) : sdk_error + string :=
  match v with
  | OString s => inr s
  | OBool b => inr (if b then "true" else "false")
  | OInt z => inr (Itoa z)
  | OUint z => inr (FormatUint z)
  | OJson (Some text) => inr text
  | OJson None => joined ENV_VAR_ERROR "json"
  end.

(** A text between double quotes. *)
Definition quoted (s : string) : string := String (ascii_of_nat 34) s +:+ String (ascii_of_nat 34) "".

(** A key the environment does not have. *)
Definition env_oracle (e : Environment) (key : string) : sdk_error + string :=
  match env_PendulumOracle e !! key with
  | Some v => envOracleValueToResult v
  | None => joined ENV_VAR_ERROR ("environment does not contain value for " +:+ quoted key)
  end.

Definition EnvVar (e : Environment) (key : string) : sdk_error + string :=
  if String.eqb key "contract.id" then inr (env_ContractId e)
  else if String.eqb key "contract.owner" then inr (env_ContractOwner e)
  else if String.eqb key "tx.id" then inr (env_TxId e)
  else if String.eqb key "tx.index" then inr (Itoa (env_Index e))
  else if String.eqb key "tx.op_index" then inr (Itoa (env_OpIndex e))
  else if String.eqb key "tx.origin" || String.eqb key "msg.sender" then
    match first_auth e with
    | Some a => inr a
    | None => joined ENV_VAR_ERROR ("no value for " +:+ key)
    end
  else if String.eqb key "msg.required_auths" then inr (json_strings host (env_RequiredAuths e))
  else if String.eqb key "msg.required_posting_auths" then inr (json_strings host (env_RequiredPostingAuths e))
  else if String.eqb key "msg.payer" then
    match first_auth e with Some a => inr a | None => env_oracle e key end
  else if String.eqb key "msg.caller" then inr (env_Caller e)
  else if String.eqb key "intents" then inr (json_intents host (env_Intents e))
  else if String.eqb key "block.id" then inr (env_BlockId e)
  else if String.eqb key "block.height" then inr (FormatUint (env_BlockHeight e))
  else if String.eqb key "block.timestamp" then inr (env_Timestamp e)
  else env_oracle e key.

Definition GetEnv (e : Environment) : sdk_error + string := inr (json_env host e).

(** ** Threshold keys *)

Definition full_key (c : exec_context) (keyId : string) : string := env_ContractId (env c) +:+ "-" +:+ keyId.

Definition append_tss (c : exec_context) (op : TssOp) : M unit :=
  on_call (λ cs, ((), AppendTssLog (env_ContractId (env c)) op cs)).

Definition TssCreateKey (keyId keyType : string) (epochs : Z) : M (sdk_error + string) :=
  let! c := get_ctx in
  match host_FindKey host (full_key c keyId) with
  | KeyMissing => do! append_tss c (mkTssOp "create" (full_key c keyId) keyType epochs) in ret (inr "created")
  | KeyFound _ => ret (inr "already_exists")
  | KeyError => ret (plain "runtime error")
  end.

Definition TssRenewKey (keyId : string) (additionalEpochs : Z) : M (sdk_error + string) :=
  let! c := get_ctx in
  match host_FindKey host (full_key c keyId) with
  | KeyMissing => ret (plain "key not found")
  | KeyError => ret (plain "runtime error")
  | KeyFound key =>
      if String.eqb (tk_Status key) "retired" then ret (plain "key is retired and cannot be renewed")
      else if String.eqb (tk_Status key) "active" && (tk_ExpiryEpoch key =? 0) then ret (plain "key has no expiry to renew")
      else do! append_tss c (mkTssOp "renew" (full_key c keyId) "" additionalEpochs) in ret (inr "renewed")
  end.

Definition key_of (r : key_read) : TssKey := match r with KeyFound key => key | _ => zero_key end.

(** The epoch of the keygen that made the key with this public key. *)
Definition created_step (pub : string) (acc : option Z) (c : Z * option string) : option Z :=
  match c.2 with
  | Some p =>
      if String.eqb p pub then
        match acc with
        | Some e => if c.1 <? e then Some c.1 else acc
        | None => Some c.1
        end
      else acc
  | None => acc
  end.

Definition keyResharedSinceKeygen (keyId : string) (key : TssKey) : bool :=
  if String.eqb (tk_PublicKey key) "" then false
  else
    match FindKeygens host keyId with
    | None => false
    | Some keygens =>
        match foldl (created_step (tk_PublicKey key)) None keygens with
        | Some createdEpoch => createdEpoch <? tk_Epoch key
        | None => false
        end
    end.

Definition flag (b : bool) : string := if b then ",1" else ",0".

(** The status set for a missing key is overwritten. *)
Definition TssGetKey (c : exec_context) (keyId : string) : string :=
  let tssKey := key_of (host_FindKey host (full_key c keyId)) in
  let status := tk_Status tssKey in
  if String.eqb status "active" || String.eqb status "deprecated" || String.eqb status "deleted" then
    let res := status +:+ "," +:+ tk_PublicKey tssKey +:+ "," +:+ tk_Algo tssKey in
    if vaultRotationV2Active (ctx_gates c) then
      let res := res +:+ flag (tk_SignatureVerified tssKey) in
      if keyResharedActive (ctx_gates c) then res +:+ flag (keyResharedSinceKeygen (full_key c keyId) tssKey) else res
    else res
  else status.

Definition TssKeySign (keyId msg : string) : M (sdk_error + string) :=
  let! c := get_ctx in
  let key := host_FindKey host (full_key c keyId) in
  if negb (String.eqb (tk_Status (key_of key)) "active") then ret (inr "fail")
  else do! append_tss c (mkTssOp "sign" (full_key c keyId) msg 0) in ret (inr "ok").

(** ** Swap fees *)

(** The closure that moves HBD of the pool to the node bucket. *)
Definition accrue (amountHBD : Z) : M (option string) :=
  if amountHBD <=? 0 then ret None
  else
    let! c := get_ctx in
    let! res := on_ledger (ExecuteTransfer st
        (ctx_event c (contract_account (env_ContractId (env c))) PendulumNodesHBDBucket amountHBD "hbd") []) in
    ret (if Ok res then None else Some (Msg res)).

Fixpoint run_applier (r : applier_run) : M (sdk_error + swap_fee_result) :=
  match r with
  | ADone r => ret r
  | AAccrue amountHBD k => let! e := accrue amountHBD in run_applier (k e)
  end.

Definition PendulumApplySwapFees (args : swap_args) : M (sdk_error + swap_fee_result) :=
  let! c := get_ctx in
  if hasPendulumApplier (ctx_gates c)
  then run_applier (ApplySwapFees host (env_ContractId (env c)) (env_TxId (env c)) (env_BlockHeight (env c)) args)
  else ret (joined SDK_ERROR "pendulum applier not configured").
End host.

(** ** The functions of the SDK *)

(** The host functions of the SDK with their text arguments. *)
Inductive sdk_op :=
| console_log (msg : string)
| db_set_object (key val : string)
| db_get_object (key : string)
| db_rm_object (key : string)
| ephem_get_object (contractId key : string)
| ephem_set_object (key val : string)
| ephem_rm_object (key : string)
| system_get_env_key (key : string)
| system_get_env
| system_pendulum_apply_swap_fees (payload : string)
| hive_get_balance (account asset : string)
| hive_draw (amount asset : string)
| hive_transfer (to amount asset : string)
| hive_withdraw (to amount asset : string)
| contracts_read (contractId key : string)
| contracts_call (contractId method payload options : string)
| tss_create_key (keyName keyType : string)
| tss_sign_key (keyId payload : string)
| tss_get_key (keyId : string)
| tss_v2_create_key (keyName keyType epochs : string)
| tss_v2_renew_key (keyName epochs : string)
| pure_call (name : string) (args : list string).

Definition ErrInvalidArgument {A} : sdk_error + A := joined SDK_ERROR "invalid argument".

(** The pattern of the names of keys: letters and digits. *)
Definition key_name_ok (s : string) : bool :=
  negb (String.eqb s "") && allc (λ c, in_range "a" "z" c || in_range "A" "Z" c || is_09 c) s.

Definition key_type_ok (s : string) : bool := String.eqb s "eddsa" || String.eqb s "ecdsa".

Definition parse_epochs (s : string) : option Z :=
  n ← ParseUint s; if (n =? 0) || (MaxKeyEpochs <? n) then None else Some n.

(** An amount of the SDK: a positive decimal number. *)
Definition parse_amount (s : string) : sdk_error + Z :=
  match ParseInt s with
  | None => joined SDK_ERROR "strconv.ParseInt"
  | Some n => if n <=? 0 then joined SDK_ERROR "amount must be positive" else inr n
  end.

Definition none_text {A} (_ : A) : string := "".

Section sdk.
Context {S : Type} `{LedgerDb S} `{StateSource} (st : LedgerState S) (host : Host).

(** A function of the context that takes a parsed amount. *)
Definition with_amount (text : string) (gas : Z) (f : Z → M (sdk_error + unit)) : M sdk_result :=
  match parse_amount text with
  | inl e => ret (inl e)
  | inr amount => let! r := f amount in ret (costs none_text gas r)
  end.

Definition sdk_swap_fees (payload : string) : M sdk_result :=
  match parse_swap host payload with
  | None => ret (joined SDK_ERROR "INVALID_ARGUMENT_JSON")
  | Some (assetIn, assetOut, x, xRes, yRes) =>
      match ParseInt x, ParseInt xRes, ParseInt yRes with
      | Some x, Some xRes, Some yRes =>
          metered (json_swap host) (PendulumApplySwapFees st host (mkSwapArgs assetIn assetOut x xRes yRes))
      | _, _, _ => ret ErrInvalidArgument
      end
  end.

Definition sdk_create_key (keyName keyType : string) : M sdk_result :=
  if negb (key_name_ok keyName) || negb (key_type_ok keyType) then ret ErrInvalidArgument
  else let! r := TssCreateKey host keyName keyType MaxKeyEpochs in ret (costs id 1000000 r).

Definition sdk_create_key_v2 (keyName keyType epochs : string) : M sdk_result :=
  if negb (key_name_ok keyName) || negb (key_type_ok keyType) then ret ErrInvalidArgument
  else match parse_epochs epochs with
       | None => ret ErrInvalidArgument
       | Some n => let! r := TssCreateKey host keyName keyType n in ret (costs id 1000000 r)
       end.

Definition sdk_renew_key (keyName epochs : string) : M sdk_result :=
  if negb (key_name_ok keyName) then ret ErrInvalidArgument
  else match parse_epochs epochs with
       | None => ret ErrInvalidArgument
       | Some n => let! r := TssRenewKey host keyName n in ret (costs id 100000 r)
       end.

(** [call] runs a nested call. *)
Definition sdk_run (call : string → string → string → string → M sdk_result) (op : sdk_op) : M sdk_result :=
  match op with
  | console_log msg => metered none_text (Log msg)
  | db_set_object key val => metered none_text (SetState key val)
  | db_get_object key => metered id (GetState key)
  | db_rm_object key => metered none_text (DeleteState key)
  | ephem_get_object contractId key =>
      let! r := GetEphemState contractId key in
      ret (match r with inl e => inl e | inr s => inr (s, wrapu64 (EPHEM_IO_GAS *64 (len key +64 len s))) end)
  | ephem_set_object key val =>
      let! r := SetEphemState key val in ret (costs none_text (wrapu64 (EPHEM_IO_GAS *64 (len key +64 len val))) r)
  | ephem_rm_object key => let! r := DeleteEphemState key in ret (costs none_text (wrapu64 (EPHEM_IO_GAS *64 len key)) r)
  | system_get_env_key key => metered id (let! c := get_ctx in ret (EnvVar host (env c) key))
  | system_get_env => metered id (let! c := get_ctx in ret (GetEnv host (env c)))
  | system_pendulum_apply_swap_fees payload => sdk_swap_fees payload
  | hive_get_balance account asset =>
      let! bal := ctx_GetBalance st account asset in ret (inr (Itoa bal, CYCLE_GAS_PER_RC / 2))
  | hive_draw amount asset => with_amount amount CYCLE_GAS_PER_RC (λ n, PullBalance st "" n asset)
  | hive_transfer to amount asset => with_amount amount CYCLE_GAS_PER_RC (λ n, SendBalance st to n asset)
  | hive_withdraw to amount asset => with_amount amount (5 * CYCLE_GAS_PER_RC) (λ n, WithdrawBalance st to n asset)
  | contracts_read contractId key => metered id (ContractStateGet contractId key)
  | contracts_call contractId method payload options => call contractId method payload options
  | tss_create_key keyName keyType => sdk_create_key keyName keyType
  | tss_sign_key keyId payload => let! r := TssKeySign host keyId payload in ret (costs id 100000 r)
  | tss_get_key keyId => let! c := get_ctx in ret (inr (TssGetKey host c keyId, 10000))
  | tss_v2_create_key keyName keyType epochs => sdk_create_key_v2 keyName keyType epochs
  | tss_v2_renew_key keyName epochs => sdk_renew_key keyName epochs
  | pure_call name args => let! c := get_ctx in ret (pure_function host (sp1WorkPricing (ctx_gates c)) name args)
  end.

(** The functions with one argument, which [system.call] can reach. *)
Definition unary (op : sdk_op) : bool :=
  match op with
  | console_log _ | db_get_object _ | db_rm_object _ | ephem_rm_object _ | system_get_env_key _ | system_get_env
  | system_pendulum_apply_swap_fees _ | tss_get_key _ => true
  | pure_call _ [_] => true
  | _ => false
  end.

(** [system.call] runs a function by its name; its result is wrapped and a panic
    is an error. *)
Definition system_call (call : string → string → string → string → M sdk_result) (op : sdk_op) : M sdk_result :=
  if negb (unary op) then ret (joined SDK_ERROR "ARITY_MISMATCH")
  else λ x,
    match sdk_run call op x with
    | (Returned (inr (text, gas)), x) => (Returned (inr (json_result host text, gas)), x)
    | (Panicked, x) => (Returned (joined SDK_ERROR "SYSTEM_CALL_PANIC"), x)
    | r => r
    end.
End sdk.
