(* ===== verification/Wasm.v ===== *)
(** Running a contract, [Execute] and [registerImportV2] of
    [modules/wasm/runtime_ipc/wasm.go] and [ContractCall] of
    [modules/contract/execution-context/execution-context.go].

    The virtual machine and the code of a contract are not part of the sources:
    a run of them is a finite tree whose nodes are the calls of host functions
    (finite because the cost limit of the machine bounds a run).  A node carries
    the cost the machine has counted so far and goes on with the answer of the
    host function, its text or a failure, and the cost limit now in force.
    Nothing is assumed about the tree, so the theorems hold for all contracts.

    A failing host function leaves its error in a channel of capacity one that
    is read when the run has ended; sending to the full channel waits for ever
    ([Blocked]).  Reading a result that is not there panics.

    Calls nest up to [CONTRACT_CALL_MAX_RECURSION_DEPTH]; the recursion of the
    model is on the number of further levels, so it needs no fuel. *)
From S2P Require Import Prelude GoMaps GoStrings LedgerDb LedgerTypes LedgerState LedgerSession DataBin ContractSession ExecContext.

#[local] Open Scope exec_scope.

Definition CONTRACT_CALL_MAX_RECURSION_DEPTH : nat := 20.

Definition RUNTIME_ERROR : string := "runtime_error".
Definition RUNTIME_ABORT : string := "runtime_abort".
Definition GAS_LIMIT_HIT : string := "gas_limit_hit".
Definition WASM_INIT_ERROR : string := "wasm_init_error".
Definition WASM_RET_ERROR : string := "wasm_ret_error".
Definition WASM_FUNC_NOT_FND : string := "wasm_function_not_found".

(** ** Runs of the machine *)

(** The functions a contract imports.  [Abort] and [RevertWith] carry the texts
    read from its memory, [Unreadable] is a call whose arguments cannot be read,
    [BadSystemCall] one of [system.call] with a malformed or unknown argument. *)
Inductive host_call :=
| Abort (text : string)
| RevertWith (msg symbol : string)
| Unreadable
| Sdk (op : sdk_op)
| SystemCall (op : sdk_op)
| BadSystemCall (msg : string).

Inductive guest (A : Type) :=
| GEnd (a : A)
| GCall (cost : Z) (c : host_call) (k : option string → Z → guest A).
#[global] Arguments GEnd {A}.
#[global] Arguments GCall {A}.

(** How the entry point ends: with an error of the machine, or with a number of
    values and the text the first one points to. *)
Inductive entry_end :=
| EntryErr (cost : Z) (msg : string)
| EntryRet (cost : Z) (values : nat) (text : option string).

(** How the allocation of the argument ends. *)
Inductive alloc_end :=
| AllocErr (cost : Z) (msg : string)
| AllocOk (entry : guest entry_end).

(** Loading the code: an error, or the run of the initialisation, whose end is
    ignored, and of the allocation when there is no initialisation. *)
Inductive vm_run :=
| LoadErr (cost : Z) (msg : string)
| Loaded (init : guest (guest alloc_end)) (alloc : guest alloc_end).

Inductive Runtime := AssemblyScript | Go | OtherRuntime.

Record WasmResult := mkWasmResult {
  wr_Result : string;
  wr_Gas : Z;
  wr_Error : option string;
  wr_ErrorCode : string;
}.

Definition wasm_error (msg code : string) (gas : Z) : WasmResult := mkWasmResult "" gas (Some msg) code.

(** ** Contracts *)

Record Contract := mkContract { ct_Code : string; ct_Owner : string; ct_Runtime : Runtime }.

Inductive contract_read := ContractMissing | ContractReadErr (msg : string) | ContractFound (info : Contract).
Inductive code_read := CidErr (msg : string) | FetchErr (msg : string) | CodeFound (code : string).

(** The contract registry, the code store and the machine. *)
Record Machine := mkMachine {
  ContractById : string → Z → contract_read;
  fetch_code : string → code_read;
  (** code, runtime, entry point, argument and cost limit *)
  instantiate : string → Runtime → string → string → Z → vm_run;
}.

Definition GetContractFromDb (m : Machine) (contractId : string) (height : Z) : sdk_error + (Contract * string) :=
  match ContractById m contractId height with
  | ContractMissing => joined IC_CONTRT_NOT_FND "contract not found"
  | ContractReadErr msg => joined IC_CONTRT_GET_ERR msg
  | ContractFound info =>
      match fetch_code m (ct_Code info) with
      | CidErr msg => joined IC_CID_DEC_ERR msg
      | FetchErr msg => joined IC_CODE_FET_ERR msg
      | CodeFound code => inr (info, code)
      end
  end.

(** ** Entry points *)

Definition forbiddenEntrypoints : list string := ["alloc"; "free"; "malloc"; "realloc"; "_initialize"; "_start"].
Definition forbiddenPrefixes : list string := ["__"; "runtime."; "syscall."].

Definition isForbiddenEntrypoint (name : string) : bool :=
  String.eqb name "" || slices_Contains forbiddenEntrypoints name || existsb (HasPrefix name) forbiddenPrefixes.

(** ** Host calls *)

(** A machine during a run: what the host functions act on, the channel, the gas
    of the host functions and the cost limit. *)
Record vm_state := mkVm {
  vm_x : xstate;
  vm_ret : option WasmResult;
  vm_import : Z;
  vm_gas : Z;
}.

Definition V (A : Type) : Type := vm_state → outcome A * vm_state.

Definition vbind {A B} (m : V A) (k : A → V B) : V B := λ v,
  match m v with
  | (Returned a, v) => k a v
  | (Panicked, v) => (Panicked, v)
  | (Blocked, v) => (Blocked, v)
  end.

Definition lift {A} (m : M A) : V A := λ v,
  let '(a, x) := m (vm_x v) in (a, mkVm x (vm_ret v) (vm_import v) (vm_gas v)).

(** Send to the channel of capacity one and fail. *)
Definition send_fail (r : WasmResult) : V (option string) := λ v,
  match vm_ret v with
  | None => (Returned None, mkVm (vm_x v) (Some r) (vm_import v) (vm_gas v))
  | Some _ => (Blocked, v)
  end.

Section wasm.
Context {S : Type} `{LedgerDb S} `{StateSource} (st : LedgerState S) (host : Host) (machine : Machine).

(** The result of an SDK function: an error is sent, a text is charged to the gas
    of the host functions and taken from the cost limit. *)
Definition settle_import (cost : Z) (r : sdk_result) : V (option string) := λ v,
  match r with
  | inl e => send_fail (wasm_error (se_Msg e) (se_Symbol e) ((cost +u64 vm_import v) +u64 se_Gas e)) v
  | inr (text, gas) =>
      (Returned (Some text),
       mkVm (vm_x v) (vm_ret v) (vm_import v +u64 gas) (if vm_gas v <? gas then 0 else vm_gas v -u64 gas))
  end.

Definition run_import (call : string → string → string → string → M sdk_result) (cost : Z) (c : host_call) : V (option string) := λ v,
  let used := cost +u64 vm_import v in
  match c with
  | Abort text => send_fail (wasm_error text RUNTIME_ABORT used) v
  | RevertWith msg symbol => send_fail (wasm_error msg symbol used) v
  | Unreadable => (Returned None, v)
  | Sdk op => vbind (lift (do! SetGasUsage used in sdk_run st host call op)) (settle_import cost) v
  | SystemCall op => vbind (lift (do! SetGasUsage used in system_call st host call op)) (settle_import cost) v
  | BadSystemCall msg => vbind (lift (do! SetGasUsage used in ret (joined SDK_ERROR msg))) (settle_import cost) v
  end.

Fixpoint run_guest {A} (call : string → string → string → string → M sdk_result) (g : guest A) : V A :=
  match g with
  | GEnd a => λ v, (Returned a, v)
  | GCall cost c k => vbind (run_import call cost c) (λ answer v, run_guest call (k answer (vm_gas v)) v)
  end.

Definition errorStrToSymbol (err : string) : string :=
  if String.eqb err "wasm function not found" then WASM_FUNC_NOT_FND
  else if String.eqb err "cost limit exceeded" then GAS_LIMIT_HIT
  else RUNTIME_ERROR.

(** The result of the entry point. *)
Definition finish (e : entry_end) : V WasmResult := λ v,
  match e with
  | EntryErr cost msg =>
      match vm_ret v with
      | Some r => (Returned r, mkVm (vm_x v) None (vm_import v) (vm_gas v))
      | None => (Returned (wasm_error msg (errorStrToSymbol msg) (cost +u64 vm_import v)), v)
      end
  | EntryRet cost values text =>
      if negb (values =? 1)%nat then (Returned (wasm_error "not exactly 1 return value" WASM_RET_ERROR (cost +u64 vm_import v)), v)
      else match text with
           | Some t => (Returned (mkWasmResult t (cost +u64 vm_import v) None ""), v)
           | None => (Panicked, v)
           end
  end.

Definition run_alloc (call : string → string → string → string → M sdk_result) (g : guest alloc_end) : V WasmResult :=
  vbind (run_guest call g) (λ e v,
    match e with
    | AllocErr cost msg =>
        (Returned (wasm_error ("failed to allocate string: " +:+ msg) (errorStrToSymbol msg) (cost +u64 vm_import v)), v)
    | AllocOk entry => vbind (run_guest call entry) finish v
    end).

(** One run of the machine; the context of the run is made by the caller. *)
Definition run_vm (call : string → string → string → string → M sdk_result) (rt : Runtime) (r : vm_run) : V WasmResult :=
  match r with
  | LoadErr cost msg => λ v, (Returned (wasm_error ("failed to register wasm buffer: " +:+ msg) WASM_INIT_ERROR cost), v)
  | Loaded init alloc =>
      match rt with
      | Go => vbind (run_guest call init) (run_alloc call)
      | AssemblyScript => run_alloc call alloc
      | OtherRuntime => λ v, (Panicked, v)
      end
  end.

(** ** Nested calls *)

Definition wasm_result (r : WasmResult) : sdk_result :=
  match wr_Error r with
  | Some msg => inl (mkSdkError (wr_ErrorCode r) msg (wr_Gas r))
  | None => inr (wr_Result r, wr_Gas r)
  end.

(** The environment of a nested call. *)
Definition nested_env (e : Environment) (contractId owner : string) (intents : list Intent) : Environment :=
  mkEnvironment contractId owner (env_BlockHeight e) (env_TxId e) (env_BlockId e) (env_Index e) (env_OpIndex e)
    (env_Timestamp e) (env_RequiredAuths e) (env_RequiredPostingAuths e) (contract_account (env_ContractId e))
    (env_Sender e) intents (env_PendulumOracle e).

Definition gas_remaining (c : exec_context) : Z := if gasUsage c <? gasRemain c then gasRemain c -u64 gasUsage c else 0.

(** Run a callee in its own context; the context of the caller is kept. *)
Definition in_context {A} (c' : exec_context) (m : M A) : M A := λ x,
  let '(r, x') := m (mkX c' (x_ledger x) (x_call x)) in (r, mkX (x_ctx x) (x_ledger x') (x_call x')).

(** Undo what a callee did to the state and the ledger. *)
Definition undo_to (snap : CallSnapshot) (sp : LedgerSavepoint) : M unit := λ x,
  (Returned (), mkX (x_ctx x) (RestoreSavepoint sp (x_ledger x)) (Restore snap (x_call x))).

(** What the caller of a nested call gets; [tryMode] turns a failure into a
    result and undoes the callee. *)
Definition call_result (tryMode : bool) (snap : CallSnapshot) (sp : LedgerSavepoint) (res : WasmResult) : M sdk_result :=
  match wr_Error res with
  | Some msg =>
      if tryMode then
        do! undo_to snap sp in ret (inr (json_try host false (wr_ErrorCode res) msg "", wr_Gas res))
      else ret (wasm_result res)
  | None =>
      ret (inr (if tryMode then json_try host true "" "" (wr_Result res) else wr_Result res, wr_Gas res))
  end.

(** [execute] runs the machine one level deeper; it is missing at the deepest
    level. *)
Definition ContractCall (execute : option (string → Runtime → string → string → Z → M WasmResult))
    (contractId method payload options : string) : M sdk_result :=
  match execute with
  | None => ret (joined IC_RCSE_LIMIT_HIT "call recursion limit hit")
  | Some execute =>
      if negb (utf8_Valid payload) then ret (joined IC_INVALD_PAYLD "payload does not parse to a UTF-8 string")
      else
        let! c := get_ctx in
        let opts := parse_options host options in
        match GetContractFromDb machine contractId (env_BlockHeight (env c)) with
        | inl e => ret (inl e)
        | inr (info, code) =>
            let gas := gas_remaining c in
            let ctxValue := New (nested_env (env c) contractId (ct_Owner info) (ic_Intents opts)) (rcLimit c) 0 gas (ctx_gates c) in
            let tryMode := ic_Try opts && tryCatchActive (ctx_gates c) in
            λ x,
              let snap := Snapshot (x_call x) in
              let sp := Savepoint (x_ledger x) in
              (let! res := in_context ctxValue (execute code (ct_Runtime info) method (parse_payload host payload) gas) in
               call_result tryMode snap sp res) x
        end
  end.

(** [Execute], with [levels] nested calls still allowed. *)
Fixpoint Execute (levels : nat) (code : string) (rt : Runtime) (entrypoint args : string) (gas : Z) : M WasmResult :=
  if isForbiddenEntrypoint entrypoint
  then ret (wasm_error ("entrypoint " +:+ quoted entrypoint +:+ " is reserved by the runtime") WASM_FUNC_NOT_FND 0)
  else
    let call := ContractCall (match levels with O => None | Datatypes.S levels => Some (Execute levels) end) in
    λ x,
      let '(r, v) := run_vm call rt (instantiate machine code rt entrypoint args gas) (mkVm x None 0 gas) in
      (r, vm_x v).
End wasm.
