(* ===== verification/CallSafety.v ===== *)
(** What a contract call can do to balances and to the state of other calls.

    For every run of the machine, that is for every contract, a call moves
    balances only by transfers and withdrawals from contracts, and by draws from
    its caller whose sum per asset stays within the caller's intents; nested
    calls, however deep, draw from contracts only.  A nested call that fails
    under [Try] leaves the ledger session and the call session exactly as they
    were. *)
From S2P Require Import Prelude GoMaps GoStrings Assets LedgerDb LedgerTypes Oplog LedgerState LedgerSession DataBin ContractSession ExecContext Wasm.

#[local] Open Scope exec_scope.

(** ** Specification *)

Definition is_contract (account : string) : bool := HasPrefix account "contract:".

(** An event a call with this environment may append: it moves a positive amount
    from a contract, or, with an active authority, from the caller to a
    contract. *)
Definition event_ok (e : Environment) (v : OpLogEvent) : Prop :=
  0 < op_Amount v ∧
  (is_contract (op_From v) = true ∨
   op_From v = env_Caller e ∧ env_RequiredAuths e ≠ [] ∧ op_Type v = "transfer" ∧ is_contract (op_To v) = true).

(** What a list of events takes from an account. *)
Definition taken_from (account asset : string) (evs : list OpLogEvent) : Z :=
  zsum ((λ v, if String.eqb (op_From v) account && String.eqb (op_Asset v) asset then op_Amount v else 0) <$> evs).

(** What may still be drawn from the caller. *)
Definition limit_left (limits : gmap string Z) (asset : string) : Z :=
  match limits !! asset with Some l => Z.max 0 l | None => 0 end.

(** Limits are [int64]. *)
Definition limits_i64 (limits : gmap string Z) : Prop := map_Forall (λ _, i64) limits.

(** [x'] follows from [x] within what the context of [x] allows. *)
Definition within (x x' : xstate) : Prop :=
  env (x_ctx x') = env (x_ctx x) ∧ call_grows (x_call x) (x_call x') ∧ extends (x_ledger x) (x_ledger x') ∧
  ∃ new, oplog (x_ledger x') = oplog (x_ledger x) ++ new ∧
    let caller := env_Caller (env (x_ctx x)) in
    Forall (event_ok (env (x_ctx x))) new ∧
    (is_contract caller = false → limits_i64 (tokenLimits (x_ctx x)) →
     limits_i64 (tokenLimits (x_ctx x')) ∧
     ∀ asset, taken_from caller asset new + limit_left (tokenLimits (x_ctx x')) asset <= limit_left (tokenLimits (x_ctx x)) asset).

(** ** Lemmas: composition *)

Lemma taken_from_app a x l k : taken_from a x (l ++ k) = taken_from a x l + taken_from a x k.
Proof. unfold taken_from. by rewrite fmap_app, zsum_app. Qed.

Lemma taken_from_contracts a x l :
  is_contract a = false → Forall (λ v, is_contract (op_From v) = true) l → taken_from a x l = 0.
Proof.
  intros Ha Hl. unfold taken_from. apply zsum_map_0. intros v Hv. rewrite Forall_forall in Hl. apply Hl in Hv.
  destruct (String.eqb_spec (op_From v) a); [congruence|done].
Qed.

#[export] Instance within_refl : Reflexive within.
Proof. intros x. split_and!; [done..|]. exists []. rewrite app_nil_r. split; [done|]. split; [done|]. intros _ Hi. split; [done|]. intros a. cbn. lia. Qed.

#[export] Instance within_trans : Transitive within.
Proof.
  intros x1 x2 x3 (He & Hc & Hl & n & Hn & Hf & Ht) (He' & Hc' & Hl' & n' & Hn' & Hf' & Ht').
  split_and!; [congruence|by etrans|by etrans|]. exists (n ++ n'). rewrite Hn', Hn, app_assoc. split; [done|]. cbv zeta.
  rewrite He in Hf', Ht'. split; [by apply Forall_app|]. intros Hcall Hi. destruct (Ht Hcall Hi) as [Hi' Hb].
  destruct (Ht' Hcall Hi') as [Hi2 Hb']. split; [done|]. intros a. rewrite taken_from_app. specialize (Hb a). specialize (Hb' a). lia.
Qed.

(** A computation that stays within its context from a state. *)
Definition safe_at {A} (m : M A) (x : xstate) : Prop := within x (m x).2.

Lemma safe_ret {A} (a : A) x : safe_at (ret a) x.
Proof. apply within_refl. Qed.

Lemma safe_panic {A} x : safe_at (A := A) panic x.
Proof. apply within_refl. Qed.

Lemma safe_bind {A B} (m : M A) (k : A → M B) x :
  safe_at m x → (∀ a x', m x = (Returned a, x') → safe_at (k a) x') → safe_at (bind m k) x.
Proof.
  unfold safe_at, bind. intros Hm Hk. destruct (m x) as [[a| |] x'] eqn:E; [|done..].
  etrans; [exact Hm|]. by apply Hk.
Qed.

Lemma safe_get {B} (k : exec_context → M B) x : safe_at (k (x_ctx x)) x → safe_at (bind get_ctx k) x.
Proof. done. Qed.

(** Changing the meters of a context. *)
Lemma safe_set_ctx c x : env c = env (x_ctx x) → tokenLimits c = tokenLimits (x_ctx x) → safe_at (set_ctx c) x.
Proof.
  intros He Ht. split_and!; [done..|]. exists []. rewrite app_nil_r. split; [done|]. split; [done|].
  cbn. rewrite Ht. intros _ Hi. split; [done|]. intros a. cbn. lia.
Qed.

Lemma safe_on_call {A} (f : CallSession → A * CallSession) x : call_grows (x_call x) (f (x_call x)).2 → safe_at (on_call f) x.
Proof.
  intros Hg. unfold safe_at, on_call. destruct (f (x_call x)) as [a cs]. cbn in *. split_and!; [done..|].
  exists []. rewrite app_nil_r. split; [done|]. split; [done|]. intros _ Hi. split; [done|]. intros a'. cbn. lia.
Qed.

(** ** Lemmas: the ledger *)

(** The ledger session after an operation: unchanged up to its cache, or with one
    event more. *)
Definition appends (P : OpLogEvent → Prop) (led led' : ledgerSession) : Prop :=
  extends led led' ∧ (oplog led' = oplog led ∨ ∃ v, P v ∧ oplog led' = oplog led ++ [v]).

Section ledger.
Context {S : Type} `{LedgerDb S} (st : LedgerState S).

Lemma appends_none P led led' : same_log led led' → appends P led led'.
Proof. intros (Ho & Hl & _ & Hs). unfold appends, extends. rewrite Ho, Hl. auto. Qed.

Lemma appends_one (P : OpLogEvent → Prop) led led1 v :
  same_log led led1 → (∀ id, P (set_op_Id id v)) → appends P led (AppendOplog st v led1).
Proof.
  intros (Hlo & Hll & _ & Hls) HP. destruct (AppendOplog_log st v led1) as (Ho & Hl & _ & Hs).
  unfold appends, extends. rewrite Ho, Hl, Hs, Hlo, Hll. split; [split_and!; [by apply prefix_app_r|by apply prefix_app_r|done]|].
  right. eexists. by split; [apply HP|].
Qed.

Lemma ExecuteTransfer_appends v options led :
  appends (λ v', 0 < op_Amount v' ∧ op_From v' = op_From v ∧ op_To v' = op_To v ∧ op_Asset v' = op_Asset v ∧
                 op_Amount v' = op_Amount v ∧ op_Type v' = "transfer") led (ExecuteTransfer st v options led).2.
Proof.
  unfold ExecuteTransfer. destruct (op_Amount v <=? 0) eqn:E; [by apply appends_none|]. z_of_bool.
  destruct (String.eqb _ _); [by apply appends_none|]. destruct (HasPrefix _ _); [by apply appends_none|].
  destruct (negb _); [by apply appends_none|]. read_balance.
  destruct (_ <? _); [by apply appends_none|]. by apply appends_one.
Qed.

Lemma Withdraw_appends w led :
  ∃ r led', Withdraw st w led = Some (r, led') ∧ appends (λ v, 0 < op_Amount v ∧ op_From v = wp_From w) led led'.
Proof.
  destruct (run_op_total st (OpWithdraw w) led) as [[r led'] Hrun]. exists r, led'. cbn [run_op] in Hrun. split; [done|].
  revert Hrun. unfold Withdraw. destruct (wp_Amount w <=? 0) eqn:E; [intros [= <- <-]; by apply appends_none|]. z_of_bool.
  cbv zeta. destruct (_ && _); [intros [= <- <-]; by apply appends_none|].
  destruct (withdraw_dest _ _) as [[r0|dest]|]; cbn [mbind option_bind]; [intros [= <- <-]; by apply appends_none| |done].
  read_balance. destruct (_ <? _); intros [= <- <-]; [by apply appends_none|]. by apply appends_one.
Qed.

(** ** Lemmas: host functions *)

(** An operation of the ledger that only takes from contracts. *)
Lemma safe_ledger_contract {A} (m : M A) x :
  x_ctx (m x).2 = x_ctx x → x_call (m x).2 = x_call x →
  appends (λ v, 0 < op_Amount v ∧ is_contract (op_From v) = true) (x_ledger x) (x_ledger (m x).2) → safe_at m x.
Proof.
  unfold safe_at, within. intros -> -> [He Ho]. split_and!; [done..|]. destruct Ho as [->|(v & [Hv1 Hv2] & ->)].
  - exists []. rewrite app_nil_r. split_and!; [done..|]. intros _ Hi. split; [done|]. intros a. cbn. lia.
  - exists [v]. split_and!; [done|by constructor; [split; [|left]|]|]. intros Hc Hi. split; [done|]. intros a.
    rewrite taken_from_contracts; [lia|done|by constructor].
Qed.

Lemma safe_send from to amount asset c x :
  is_contract from = true → safe_at (on_ledger (ExecuteTransfer st (ctx_event c from to amount asset) [])) x.
Proof.
  intros Hf. pose proof (ExecuteTransfer_appends (ctx_event c from to amount asset) [] (x_ledger x)) as Ha.
  apply safe_ledger_contract; unfold on_ledger; destruct (ExecuteTransfer _ _ _ _) as [r led]; [done..|]. cbn in *.
  destruct Ha as [He [Ho|(v & (Hv1 & Hv2 & _) & Ho)]]; (split; [done|]); [by left|]. right. exists v. by rewrite Hv2.
Qed.

Lemma safe_balance {A} account h asset (k : Z → M A) x :
  (∀ b x', safe_at (k b) x') → safe_at (let! b := on_ledger (ses_GetBalance st account h asset) in k b) x.
Proof.
  intros Hk. apply safe_bind; [|auto]. apply safe_ledger_contract; unfold on_ledger;
    pose proof (get_log st account h asset (x_ledger x)) as Hl; destruct (ses_GetBalance _ _ _ _ _); [done..|].
  by apply appends_none.
Qed.
End ledger.

(** A computation that stays within its context from every state. *)
Definition safe {A} (m : M A) : Prop := ∀ x, safe_at m x.

Lemma safe_seq {A B} (m : M A) (k : A → M B) : safe m → (∀ a, safe (k a)) → safe (bind m k).
Proof. intros Hm Hk x. apply safe_bind; [apply Hm|]. intros a x' _. apply Hk. Qed.

Lemma safe_with_ctx {B} (k : exec_context → M B) : (∀ c, safe (k c)) → safe (bind get_ctx k).
Proof. intros Hk x. apply safe_get, Hk. Qed.

Lemma doIO_safe r w : safe (doIO r w).
Proof. intros x. apply safe_get. destruct (mapM _ _); [by apply safe_set_ctx|apply safe_panic]. Qed.

Lemma IOSession_safe : safe IOSession.
Proof.
  intros x. apply safe_get. destruct (list_find _ _) as [[i o]|]; (apply safe_bind; [by apply safe_set_ctx|]; intros; apply safe_ret).
Qed.

Lemma End_safe i : safe (End i).
Proof. intros x. apply safe_get. apply safe_bind; [by apply safe_set_ctx|]. intros. apply safe_ret. Qed.

Lemma SetGasUsage_safe g : safe (SetGasUsage g).
Proof. intros x. apply safe_get. by apply safe_set_ctx. Qed.

Create HintDb safe.
#[export] Hint Resolve doIO_safe IOSession_safe End_safe SetGasUsage_safe : safe.
#[export] Hint Extern 1 (safe (ret _)) => (intros x; apply safe_ret) : safe.
#[export] Hint Extern 1 (safe panic) => (intros x; apply safe_panic) : safe.
#[export] Hint Extern 2 (session_grows _ _) => (done || apply ss_Get_grows) : safe.

(** Walk through a computation. *)
Ltac safe_walk :=
  repeat first
    [ progress intros
    | solve [auto with safe]
    | simple apply safe_with_ctx
    | simple apply safe_seq
    | match goal with |- safe (match ?e with _ => _ end) => destruct e end ].

Lemma metered_safe {A} (text : A → string) m : safe m → safe (metered text m).
Proof. intros Hm. unfold metered. safe_walk. Qed.

Section functions.
Context {S : Type} `{LedgerDb S} `{StateSource} (st : LedgerState S) (host : Host).

Lemma session_safe {A} id (f : ContractSession → A * ContractSession) :
  (∀ s, session_grows s (f s).2) → safe (on_call (on_session id f)).
Proof. intros Hf x. apply safe_on_call, on_session_grows, Hf. Qed.
#[local] Hint Resolve session_safe metered_safe : safe.

Lemma Log_safe msg : safe (Log msg).
Proof.
  unfold Log. safe_walk. intros x. apply safe_on_call. unfold call_AppendLogs. cbn.
  apply (on_session_grows _ (λ s, ((), AppendLogs [msg] s))). intros s. split_and!; [done..|by apply prefix_app_r|done].
Qed.

Lemma ContractStateGet_safe id k : safe (ContractStateGet id k).
Proof. unfold ContractStateGet. safe_walk. Qed.
#[local] Hint Resolve Log_safe ContractStateGet_safe : safe.

Lemma GetState_safe k : safe (GetState k).
Proof. unfold GetState. safe_walk. Qed.
#[local] Hint Resolve GetState_safe : safe.

Lemma SetState_safe k v : safe (SetState k v).
Proof. unfold SetState, call_IncSize. safe_walk. Qed.

Lemma DeleteState_safe k : safe (DeleteState k).
Proof. unfold DeleteState, call_IncSize. safe_walk. Qed.

Lemma GetEphemState_safe id k : safe (GetEphemState id k).
Proof. unfold GetEphemState. safe_walk. Qed.

Lemma SetEphemState_safe k v : safe (SetEphemState k v).
Proof. unfold SetEphemState. safe_walk. Qed.

Lemma DeleteEphemState_safe k : safe (DeleteEphemState k).
Proof. unfold DeleteEphemState. safe_walk. Qed.

Lemma append_tss_safe c op : safe (append_tss c op).
Proof.
  intros x. apply safe_on_call. unfold AppendTssLog. cbn.
  apply (on_session_grows _ (λ s, ((), set_logs (cs_logs s) (cs_tssOps s ++ [op]) s))).
  intros s. split_and!; [done..|by apply prefix_app_r].
Qed.
#[local] Hint Resolve append_tss_safe : safe.

Lemma TssCreateKey_safe keyId ty epochs : safe (TssCreateKey host keyId ty epochs).
Proof. unfold TssCreateKey. safe_walk. Qed.

Lemma TssRenewKey_safe keyId epochs : safe (TssRenewKey host keyId epochs).
Proof. unfold TssRenewKey. safe_walk. Qed.

Lemma TssKeySign_safe keyId msg : safe (TssKeySign host keyId msg).
Proof. unfold TssKeySign. safe_walk. Qed.

Lemma GetBalance_safe account asset : safe (ctx_GetBalance st account asset).
Proof.
  unfold ctx_GetBalance. apply safe_with_ctx. intros c x.
  pose proof (safe_balance st account (env_BlockHeight (env c)) asset ret x ltac:(intros; apply safe_ret)) as Hb.
  unfold safe_at, bind, ret in *. by destruct (on_ledger _ x) as [[] ?].
Qed.

Lemma SendBalance_safe to amount asset : safe (SendBalance st to amount asset).
Proof. unfold SendBalance. safe_walk. intros x. by apply safe_send. Qed.

Lemma WithdrawBalance_safe to amount asset : safe (WithdrawBalance st to amount asset).
Proof.
  unfold WithdrawBalance. apply safe_with_ctx. intros c. apply safe_seq; [|safe_walk]. intros x.
  set (w := mkWithdrawParams _ _ _ _ _ _ _ _ _).
  destruct (Withdraw_appends st w (x_ledger x)) as (r & led & Hw & Ha).
  apply safe_ledger_contract; rewrite Hw; [done..|]. cbn. destruct Ha as [He [Ho|(v & (Hv1 & Hv2) & Ho)]]; (split; [done|]); [by left|].
  right. exists v. by rewrite Hv2.
Qed.

Lemma accrue_safe amount : safe (accrue st amount).
Proof. unfold accrue. safe_walk. intros x. by apply safe_send. Qed.

Lemma run_applier_safe r : safe (run_applier st r).
Proof. induction r as [r|amount k IH]; cbn [run_applier]; [intros x; apply safe_ret|]. apply safe_seq; [apply accrue_safe|]. intros a. apply IH. Qed.

(** A draw takes from the caller what it takes from its limit. *)
Lemma PullBalance_safe from amount asset : 0 < amount <= MaxInt64 → safe (PullBalance st from amount asset).
Proof.
  intros Hpos x. unfold PullBalance. apply safe_get. destruct (env_RequiredAuths _) eqn:Hra; [apply safe_ret|].
  destruct (_ || _); [|apply safe_ret]. destruct (tokenLimits (x_ctx x) !! asset) as [lim|] eqn:Hl; [|apply safe_ret].
  destruct (lim <? amount) eqn:E; [apply safe_ret|]. z_of_bool. cbv zeta.
  set (v := ctx_event _ _ _ _ _). set (o := draw_options _ _ _).
  pose proof (ExecuteTransfer_appends st v o (x_ledger x)) as Ha.
  unfold safe_at, bind, set_ctx, on_ledger, ret. cbn [x_ledger x_ctx x_call]. destruct (ExecuteTransfer st v o (x_ledger x)) as [r led].
  cbn [snd] in *. destruct Ha as [He Ho]. split_and!; [done|done|done|].
  set (caller := env_Caller (env (x_ctx x))) in *. cbn [x_ledger x_ctx tokenLimits set_limits].
  assert (∃ new, oplog led = oplog (x_ledger x) ++ new ∧ Forall (event_ok (env (x_ctx x))) new ∧
    ∀ a, taken_from caller a new <= if String.eqb asset a then amount else 0) as (new & Hnew & Hok & Htk).
  { destruct Ho as [->|(v' & (Hv1 & Hv2 & Hv3 & Hv4 & Hv5 & Hv6) & ->)].
    - exists []. rewrite app_nil_r. split_and!; [done..|]. intros a. cbn. destruct (String.eqb asset a); lia.
    - exists [v']. split_and!; [done| |].
      + constructor; [|done]. split; [done|]. right. by rewrite Hv2, Hv3, Hv6, Hra.
      + intros a. unfold taken_from. cbn. rewrite Hv4, Hv5. change (op_Asset v) with asset. change (op_Amount v) with amount.
        destruct (String.eqb (op_From v') caller), (String.eqb asset a); cbn; lia. }
  exists new. split_and!; [done..|]. intros Hc Hi. pose proof (Hi asset lim Hl) as Hlim.
  rewrite i64_sub_exact by (unfold_widths; lia). split.
  - apply map_Forall_insert_2; [unfold_widths; lia|done].
  - intros a. specialize (Htk a). unfold limit_left. destruct (String.eqb_spec asset a) as [Heq|Hne].
    + rewrite <- Heq, lookup_insert_eq, Hl in *. lia.
    + rewrite lookup_insert_ne by done. lia.
Qed.

Lemma ParseInt_range text n : ParseInt text = Some n → i64 n.
Proof.
  unfold ParseInt. destruct (match text with "" => _ | String _ _ => _ end) as [neg digits].
  destruct (ParseUint digits) as [un|] eqn:E; [|done]. cbn [mbind option_bind].
  pose proof (ParseUint_nonneg _ _ E) as Hun.
  destruct neg; cbn; destruct (_ <? un) eqn:E1; intros [= <-]; z_of_bool; unfold_widths; lia.
Qed.

Lemma parse_amount_range text n : parse_amount text = inr n → 0 < n <= MaxInt64.
Proof.
  unfold parse_amount. destruct (ParseInt text) as [m|] eqn:E; [|done]. destruct (m <=? 0) eqn:E0; [done|].
  intros [= <-]. z_of_bool. apply ParseInt_range in E. unfold_widths. lia.
Qed.

Lemma with_amount_safe text gas f :
  (∀ n, 0 < n <= MaxInt64 → safe (f n)) → safe (with_amount text gas f).
Proof.
  intros Hf. unfold with_amount. destruct (parse_amount text) as [e|n] eqn:E; [intros x; apply safe_ret|].
  apply safe_seq; [by apply Hf, (parse_amount_range text)|]. intros r x. apply safe_ret.
Qed.

Lemma swap_fees_safe payload : safe (sdk_swap_fees st host payload).
Proof.
  unfold sdk_swap_fees. destruct (parse_swap host payload) as [[[[[a b] x] y] z]|]; [|intros x; apply safe_ret].
  destruct (ParseInt x), (ParseInt y), (ParseInt z); try (intros s; apply safe_ret). apply metered_safe.
  unfold PendulumApplySwapFees. apply safe_with_ctx. intros c. destruct (hasPendulumApplier _); [apply run_applier_safe|].
  intros s. apply safe_ret.
Qed.
#[local] Hint Resolve GetState_safe SetState_safe DeleteState_safe SendBalance_safe WithdrawBalance_safe GetBalance_safe
  PullBalance_safe swap_fees_safe with_amount_safe GetEphemState_safe SetEphemState_safe DeleteEphemState_safe
  TssCreateKey_safe TssRenewKey_safe TssKeySign_safe : safe.

(** Every function of the SDK stays within its context when nested calls do. *)
Lemma sdk_run_safe call op : (∀ a b c d, safe (call a b c d)) → safe (sdk_run st host call op).
Proof.
  intros Hcall. destruct op; cbn [sdk_run]; unfold sdk_create_key, sdk_create_key_v2, sdk_renew_key; safe_walk; apply metered_safe; safe_walk.
Qed.

Lemma system_call_safe call op : (∀ a b c d, safe (call a b c d)) → safe (system_call st host call op).
Proof.
  intros Hcall x. unfold system_call. destruct (negb _); [apply safe_ret|]. pose proof (sdk_run_safe call op Hcall x) as Hs.
  unfold safe_at in *. by destruct (sdk_run _ _ _ _ x) as [[[|[? ?]]| |] ?].
Qed.
End functions.

(** ** Lemmas: limits *)

Lemma ParseInt_value_i64 text : i64 (ParseInt_value text).
Proof.
  unfold ParseInt_value. destruct (ParseInt text) as [n|] eqn:E; [by eapply ParseInt_range|].
  destruct (match text with "" => _ | String _ _ => _ end) as [neg digits]. destruct (_ && _); [|unfold_widths; lia].
  destruct neg; unfold_widths; lia.
Qed.

Lemma ParseDecimals_i64 amount decimals : i64 (ParseDecimalsToBaseUnits amount decimals).
Proof.
  unfold ParseDecimalsToBaseUnits. destruct (Split amount _) as [|a [|b [|]]]; try (unfold_widths; lia); apply ParseInt_value_i64.
Qed.

Lemma token_limits_i64 intents : limits_i64 (token_limits intents).
Proof.
  unfold token_limits, limits_i64.
  assert (∀ acc, map_Forall (λ _, i64) acc.2 → map_Forall (λ _, i64) (foldl add_limit acc intents).2) as Hf;
    [|by apply Hf, map_Forall_empty].
  induction intents as [|i intents IH]; intros [seen limits] Hacc; [done|]. cbn [foldl]. apply IH. unfold add_limit.
  destruct (negb _); [done|]. destruct (in_Args i !! "limit") as [l|]; [|done]. destruct (in_Args i !! "token") as [t|]; [|done].
  cbv zeta. destruct (bool_decide _); [done|]. apply map_Forall_insert_2; [apply ParseDecimals_i64|done].
Qed.

(** ** Lemmas: the machine *)

Lemma RestoreSavepoint_extends led led' : extends led led' → RestoreSavepoint (Savepoint led) led' = led.
Proof.
  intros ([l1 Ho] & [l2 Hl] & Hs). destruct led. unfold RestoreSavepoint, Savepoint. cbn in *.
  rewrite Ho, Hl, Hs, !length_app, !(proj2 (Nat.leb_le _ _)) by lia. by rewrite !take_app_length.
Qed.

(** Undoing a nested call gives back the state before it. *)
Lemma undo_exact x x1 :
  x_ctx x1 = x_ctx x → within x x1 → undo_to (Snapshot (x_call x)) (Savepoint (x_ledger x)) x1 = (Returned (), x).
Proof.
  intros Hc (_ & Hg & He & _). unfold undo_to. rewrite Hc, RestoreSavepoint_extends, Restore_exact by done. by destruct x.
Qed.

Lemma in_context_within {A} c' (m : M A) x :
  is_contract (env_Caller (env c')) = true → safe m →
  x_ctx (in_context c' m x).2 = x_ctx x ∧ within x (in_context c' m x).2.
Proof.
  intros Hc' Hm. specialize (Hm (mkX c' (x_ledger x) (x_call x))). unfold safe_at in Hm. unfold in_context.
  destruct (m _) as [r x']. cbn [snd] in *. split; [done|]. destruct Hm as (_ & Hg & He & new & Hnew & Hok & _).
  split_and!; [done..|]. exists new. split; [done|]. cbv zeta.
  assert (Forall (λ v, 0 < op_Amount v ∧ is_contract (op_From v) = true) new) as Hfrom.
  { eapply Forall_impl; [exact Hok|]. cbn. intros v [Hv [Hf|(Hf & _)]]; [done|]. rewrite Hf. done. }
  split.
  - eapply Forall_impl; [exact Hfrom|]. intros v [? ?]. split; [done|]. by left.
  - intros Hc Hi. split; [done|]. intros a. rewrite taken_from_contracts; [cbn; lia|done|].
    eapply Forall_impl; [exact Hfrom|]. by intros v [? ?].
Qed.

Section machine.
Context {S : Type} `{LedgerDb S} `{StateSource} (st : LedgerState S) (host : Host) (machine : Machine).

Definition safeV {A} (m : V A) : Prop := ∀ v, within (vm_x v) (vm_x (m v).2).

Lemma safeV_bind {A B} (m : V A) (k : A → V B) : safeV m → (∀ a, safeV (k a)) → safeV (vbind m k).
Proof.
  intros Hm Hk v. unfold vbind. specialize (Hm v). destruct (m v) as [[a| |] v'] eqn:E; [|done..].
  etrans; [exact Hm|]. apply Hk.
Qed.

Lemma safeV_lift {A} (m : M A) : safe m → safeV (lift m).
Proof. intros Hm v. unfold lift. specialize (Hm (vm_x v)). unfold safe_at in Hm. by destruct (m (vm_x v)). Qed.

Lemma send_fail_safe r : safeV (send_fail r).
Proof. intros v. unfold send_fail. by destruct (vm_ret v). Qed.

Lemma settle_import_safe cost r : safeV (settle_import cost r).
Proof. intros v. unfold settle_import. destruct r as [e|[text gas]]; [apply send_fail_safe|done]. Qed.

Lemma run_import_safe call cost c : (∀ a b c d, safe (call a b c d)) → safeV (run_import st host call cost c).
Proof.
  intros Hcall v. unfold run_import. cbv zeta. destruct c; try apply send_fail_safe; [done|..];
    apply safeV_bind; try (apply settle_import_safe); apply safeV_lift, safe_seq; try apply SetGasUsage_safe; intros _.
  - by apply sdk_run_safe.
  - by apply system_call_safe.
  - intros x. apply safe_ret.
Qed.

Lemma run_guest_safe {A} call (g : guest A) : (∀ a b c d, safe (call a b c d)) → safeV (run_guest st host call g).
Proof.
  intros Hcall. induction g as [a|cost c k IH]; intros v; cbn [run_guest]; [done|].
  apply safeV_bind; [by apply run_import_safe|]. intros answer v'. apply IH.
Qed.

Lemma run_vm_safe call rt r : (∀ a b c d, safe (call a b c d)) → safeV (run_vm st host call rt r).
Proof.
  intros Hcall.
  assert (∀ e, safeV (finish e)) as Hfin.
  { intros [cost msg|cost n t] v; unfold finish; [by destruct (vm_ret v)|]. destruct (negb _); [done|]. by destruct t. }
  assert (∀ g, safeV (run_alloc st host call g)) as Halloc.
  { intros g. apply safeV_bind; [by apply run_guest_safe|]. intros [cost msg|entry] v; [done|].
    by apply safeV_bind; [apply run_guest_safe|]. }
  destruct r as [cost msg|init alloc]; [by intros v|]. destruct rt; [apply Halloc| |by intros v].
  apply safeV_bind; [by apply run_guest_safe|apply Halloc].
Qed.

Lemma ContractCall_safe execute id method payload options :
  (∀ f, execute = Some f → ∀ a b c d e, safe (f a b c d e)) → safe (ContractCall host machine execute id method payload options).
Proof.
  intros Hex x. unfold ContractCall. destruct execute as [f|]; [|apply safe_ret]. destruct (negb _); [apply safe_ret|].
  apply safe_get. destruct (GetContractFromDb _ _ _) as [e|[info code]]; [apply safe_ret|]. cbv zeta.
  set (m := in_context _ _).
  assert (x_ctx (m x).2 = x_ctx x ∧ within x (m x).2) as [Hc Hw].
  { apply in_context_within; [done|]. by apply Hex. }
  unfold safe_at, bind. destruct (m x) as [[res| |] x1]; [|done..]. cbn [snd] in *. unfold call_result.
  destruct (wr_Error res); [|done]. destruct (_ && _); [|done]. unfold bind. by rewrite undo_exact.
Qed.

(** A run of the machine stays within the context it runs in. *)
Lemma Execute_safe levels code rt entry args gas : safe (Execute st host machine levels code rt entry args gas).
Proof.
  revert code rt entry args gas. induction levels as [|levels IH]; intros code rt entry args gas x; cbn [Execute];
    (destruct (isForbiddenEntrypoint entry); [apply safe_ret|]).
  - pose proof (run_vm_safe (ContractCall host machine None) rt (instantiate machine code rt entry args gas)
      ltac:(intros; by apply ContractCall_safe) (mkVm x None 0 gas)) as Hs. unfold safe_at. by destruct (run_vm _ _ _ _ _ _).
  - pose proof (run_vm_safe (ContractCall host machine (Some (Execute st host machine levels))) rt (instantiate machine code rt entry args gas)
      ltac:(intros; apply ContractCall_safe; intros f [= <-]; apply IH) (mkVm x None 0 gas)) as Hs. unfold safe_at. by destruct (run_vm _ _ _ _ _ _).
Qed.

(** ** Properties *)

(** C4: a call stays within the intents of its caller.  Whatever the contract and the
    contracts it calls do, and however the call ends, the events it appends to
    the ledger session move positive amounts from contracts or, when the
    transaction has an active authority, from the caller to contracts, and what
    is drawn from the caller in an asset sums to at most what the intents of the
    call allow for it. *)
Theorem call_within_intents levels code rt entry args gas e limit free g led cs :
  is_contract (env_Caller e) = false →
  let x' := (Execute st host machine levels code rt entry args gas (mkX (New e limit free gas g) led cs)).2 in
  ∃ new, oplog (x_ledger x') = oplog led ++ new ∧ Forall (event_ok e) new ∧
    ∀ asset, taken_from (env_Caller e) asset new <= limit_left (token_limits (env_Intents e)) asset.
Proof.
  intros Hc. destruct (Execute_safe levels code rt entry args gas (mkX (New e limit free gas g) led cs))
    as (_ & _ & _ & new & Hnew & Hok & Htk). exists new. split_and!; [done..|]. intros asset.
  destruct (Htk Hc (token_limits_i64 _)) as [_ Hb]. specialize (Hb asset). cbn in Hb |- *.
  assert (∀ l a, 0 <= limit_left l a) as Hpos by (intros l a; unfold limit_left; destruct (l !! a); lia).
  specialize (Hpos (tokenLimits (x_ctx (Execute st host machine levels code rt entry args gas (mkX (New e limit free gas g) led cs)).2)) asset).
  lia.
Qed.

(** A failed nested call under [Try] leaves no trace: the caller gets the error
    as a result, and its context, the ledger session and the call session are as
    they were before the call. *)
Theorem failed_try_undone levels id method payload options info code res msg x x1 :
  let c := x_ctx x in
  let opts := parse_options host options in
  utf8_Valid payload = true → ic_Try opts = true → tryCatchActive (ctx_gates c) = true →
  GetContractFromDb machine id (env_BlockHeight (env c)) = inr (info, code) →
  in_context (New (nested_env (env c) id (ct_Owner info) (ic_Intents opts)) (rcLimit c) 0 (gas_remaining c) (ctx_gates c))
    (Execute st host machine levels code (ct_Runtime info) method (parse_payload host payload) (gas_remaining c)) x
  = (Returned res, x1) →
  wr_Error res = Some msg →
  ContractCall host machine (Some (Execute st host machine levels)) id method payload options x
  = (Returned (inr (json_try host false (wr_ErrorCode res) msg "", wr_Gas res)), x).
Proof.
  intros c opts Hu Ht Hta Hdb Hrun Herr. unfold ContractCall. rewrite Hu. cbn [negb]. unfold bind at 1, get_ctx. fold c opts.
  rewrite Hdb. cbv zeta. rewrite Ht, Hta. unfold bind at 1. 
  assert (x_ctx x1 = x_ctx x ∧ within x x1) as [Hc Hw].
  { pose proof (in_context_within (New (nested_env (env c) id (ct_Owner info) (ic_Intents opts)) (rcLimit c) 0 (gas_remaining c) (ctx_gates c))
      _ x eq_refl (Execute_safe levels code (ct_Runtime info) method (parse_payload host payload) (gas_remaining c))) as Hin.
    by rewrite Hrun in Hin. }
  rewrite Hrun. unfold call_result. rewrite Herr. cbn [andb]. unfold bind. by rewrite undo_exact.
Qed.
End machine.
