(* ===== verification/TxIndex.v ===== *)
(** The index of transactions and the account nonces,
    [modules/db/vsc/transactions], [modules/db/vsc/nonces] and [HashKeyAuths] of
    [modules/transaction-pool/utils.go].

    The index has one record per transaction id, whose status says how far the
    transaction has come; the pool, the application of blocks and the producer
    share it.  The fields only searches of users read (the time of first sight,
    the recipients found in payloads) are left out.

    BSON has no unsigned integers: an update with a number above [MaxInt64] is
    refused by the driver.  The hash of a set of keys and the order in which a
    query returns its records are parameters. *)
From S2P Require Import Prelude GoMaps GoStrings TssDb.

(** ** Data *)

(** The values of an operation's fields, as far as the code looks at them. *)
Inductive field_value :=
| FUint (n : Z)
| FInt (n : Z)
(** A float: whether it is positive, and its value truncated. *)
| FFloat (positive : bool) (trunc : Z)
| FOther.

Record TransactionOperation := mkTransactionOperation {
  txop_RequiredAuths : list string;
  txop_Type : string;
  txop_Idx : Z;
  txop_Data : gmap string field_value;
}.

Inductive TransactionStatus := UNCONFIRMED | CONFIRMED | FAILED | INCLUDED | PROCESSED.

#[export] Instance TransactionStatus_eq_dec : EqDecision TransactionStatus.
Proof. solve_decision. Defined.

Record TransactionOutput := mkTransactionOutput { txout_Id : string; txout_Index : list nat }.

Record TransactionRecord := mkTransactionRecord {
  rec_Id : string;
  rec_Status : TransactionStatus;
  rec_RequiredAuths : list string;
  rec_RequiredPostingAuths : list string;
  rec_Nonce : Z;
  rec_RcLimit : Z;
  rec_Type : string;
  rec_Ops : list TransactionOperation;
  rec_OpTypes : list string;
  rec_AnchoredBlock : string;
  rec_AnchoredId : option string;
  rec_AnchoredIndex : Z;
  rec_AnchoredHeight : Z;
  rec_Output : list TransactionOutput;
  rec_Error : string;
}.

Abbreviation txdb := (gmap string TransactionRecord).
Abbreviation noncedb := (gmap string Z).

Record IngestTransactionUpdate := mkIngestTransactionUpdate {
  itu_Id : string;
  (** [None] is the empty text. *)
  itu_Status : option TransactionStatus;
  itu_RequiredAuths : list string;
  itu_RequiredPostingAuths : list string;
  itu_Type : string;
  itu_Nonce : Z;
  itu_OpTypes : list string;
  itu_Ops : list TransactionOperation;
  itu_RcLimit : Z;
  itu_AnchoredBlock : option string;
  itu_AnchoredId : option string;
  itu_AnchoredIndex : option Z;
  itu_AnchoredHeight : option Z;
}.

Record SetResultUpdate := mkSetResultUpdate {
  sru_Id : string;
  sru_Status : option TransactionStatus;
  sru_Output : option TransactionOutput;
  sru_Error : option string;
}.

(** ** The index *)

(** The record an update writes over [old]: a status that is given wins, an anchor
    that is not given is kept. *)
Definition ingest_record (u : IngestTransactionUpdate) (old : option TransactionRecord) : TransactionRecord :=
  mkTransactionRecord (itu_Id u)
    (match itu_Status u with Some st => st | None => from_option rec_Status UNCONFIRMED old end)
    (itu_RequiredAuths u) (itu_RequiredPostingAuths u) (itu_Nonce u) (itu_RcLimit u) (itu_Type u) (itu_Ops u) (itu_OpTypes u)
    (default (from_option rec_AnchoredBlock "" old) (itu_AnchoredBlock u))
    (match itu_AnchoredId u with Some id => Some id | None => old ≫= rec_AnchoredId end)
    (default (from_option rec_AnchoredIndex 0 old) (itu_AnchoredIndex u))
    (default (from_option rec_AnchoredHeight 0 old) (itu_AnchoredHeight u))
    (from_option rec_Output [] old) (from_option rec_Error "" old).

(** An unsigned value of an operation that does not fit [int64] cannot be stored. *)
Definition op_storable (op : TransactionOperation) : bool :=
  forallb (λ kv, match kv.2 with FUint n => storable n | _ => true end) (map_to_list (txop_Data op)).

(** [None] is an error; nothing is written then. *)
Definition Ingest (u : IngestTransactionUpdate) (db : txdb) : option txdb :=
  if storable (itu_Nonce u) && storable (itu_RcLimit u) && storable (default 0 (itu_AnchoredHeight u)) && forallb op_storable (itu_Ops u)
  then Some (<[itu_Id u := ingest_record u (db !! itu_Id u)]> db)
  else None.

(** Without a record nothing happens. *)
Definition SetOutput (sOut : SetResultUpdate) (db : txdb) : txdb :=
  match db !! sru_Id sOut with
  | None => db
  | Some r =>
      <[sru_Id sOut := mkTransactionRecord (rec_Id r) (default (rec_Status r) (sru_Status sOut)) (rec_RequiredAuths r)
          (rec_RequiredPostingAuths r) (rec_Nonce r) (rec_RcLimit r) (rec_Type r) (rec_Ops r) (rec_OpTypes r) (rec_AnchoredBlock r)
          (rec_AnchoredId r) (rec_AnchoredIndex r) (rec_AnchoredHeight r) (rec_Output r ++ option_list (sru_Output sOut))
          (default (rec_Error r) (sru_Error sOut))]> db
  end.

(** [$all] and [$size]: as many authorities, and each one asked for among them; an
    empty [$all] matches nothing. *)
Definition auths_match (requiredAuths auths : list string) : bool :=
  match requiredAuths with
  | [] => false
  | _ => (length auths =? length requiredAuths)%nat && forallb (slices_Contains auths) requiredAuths
  end.

Definition competing (requiredAuths : list string) (nonces : list Z) (r : TransactionRecord) : bool :=
  bool_decide (rec_Status r = UNCONFIRMED) && auths_match requiredAuths (rec_RequiredAuths r) && bool_decide (rec_Nonce r ∈ nonces).

(** The query holds the nonces, so it fails on one that cannot be stored; the
    result is not looked at. *)
Definition InvalidateCompetingTransactions (requiredAuths : list string) (nonces : list Z) (db : txdb) : txdb :=
  if forallb storable nonces then filter (λ kv, competing requiredAuths nonces kv.2 = false) db else db.

Definition HasUnconfirmedWithNonce (requiredAuths : list string) (nonce : Z) (db : txdb) : option bool :=
  if storable nonce then Some (existsb (competing requiredAuths [nonce]) (map_to_list db).*2) else None.

(** No code sets an expiry. *)
Definition unconfirmed (r : TransactionRecord) : bool :=
  bool_decide (rec_Status r = UNCONFIRMED) && String.eqb (rec_Type r) "vsc".

(** The order a query returns the records in. *)
Class ScanOrder := { scan : txdb → list TransactionRecord }.
Class ScanOrderLaws `{ScanOrder} : Prop := { scan_perm : ∀ db, scan db ≡ₚ (map_to_list db).*2 }.

Definition FindUnconfirmedTransactions `{ScanOrder} (db : txdb) : list TransactionRecord := filter (λ r, unconfirmed r = true) (scan db).

(** ** Nonces *)

(** [None] when there is no record. *)
Definition GetNonce (account : string) (db : noncedb) : option Z := db !! account.

Definition SetNonce (account : string) (nonce : Z) (db : noncedb) : option noncedb :=
  if storable nonce then Some (<[account := nonce]> db) else None.

(** The hash of a set of keys. *)
Class KeyHash := { hash_keys : gset string → string }.

Definition HashKeyAuths `{KeyHash} (keyAuths : list string) : string :=
  match keyAuths with
  | [] => ""
  | [k] => k
  | _ => hash_keys (list_to_set keyAuths)
  end.

(** ** Lemmas *)

Lemma ingest_lookup u db db' k :
  Ingest u db = Some db' → db' !! k = if decide (k = itu_Id u) then Some (ingest_record u (db !! itu_Id u)) else db !! k.
Proof.
  unfold Ingest. destruct (_ && _); [|done]. intros [= <-]. destruct (decide (k = itu_Id u)) as [->|Hk].
  - by rewrite lookup_insert_eq.
  - by rewrite lookup_insert_ne.
Qed.

Lemma set_output_lookup sOut db k :
  SetOutput sOut db !! k = db !! k ∨
  k = sru_Id sOut ∧ ∃ r r', db !! k = Some r ∧ SetOutput sOut db !! k = Some r' ∧
    rec_Status r' = default (rec_Status r) (sru_Status sOut) ∧ rec_AnchoredId r' = rec_AnchoredId r ∧
    rec_RequiredAuths r' = rec_RequiredAuths r ∧ rec_Nonce r' = rec_Nonce r.
Proof.
  unfold SetOutput. destruct (db !! sru_Id sOut) as [r|] eqn:Hr; [|by left]. destruct (decide (k = sru_Id sOut)) as [->|Hk].
  - right. split; [done|]. exists r. eexists. rewrite lookup_insert_eq. split_and!; done.
  - left. by rewrite lookup_insert_ne.
Qed.

Lemma auths_match_refl l : l ≠ [] → auths_match l l = true.
Proof.
  intros Hl. unfold auths_match. destruct l as [|x l]; [done|]. rewrite Nat.eqb_refl. apply forallb_forall.
  intros y Hy%list_elem_of_In. by apply slices_Contains_spec.
Qed.

Lemma auths_match_NoDup q l : NoDup q → auths_match q l = true → l ≡ₚ q.
Proof.
  intros Hq. unfold auths_match. destruct q as [|x q]; [done|]. rewrite andb_true_iff, Nat.eqb_eq. intros [Hlen Hall].
  symmetry. apply submseteq_length_Permutation; [|lia]. apply NoDup_submseteq; [done|].
  intros y Hy. rewrite forallb_forall in Hall. by apply slices_Contains_spec, Hall, list_elem_of_In.
Qed.
