(* ===== verification/Transactions.v ===== *)
(** The transaction handlers, [modules/state-processing/transactions.go], with
    [executeTxSafely] and the decoding of the user operations of [ProcessBlock]
    in [state_engine.go].

    An operation reaches the handlers as a struct whose [Self] says where it is
    anchored and who authorised it.  The handler checks the fields, then acts on
    the ledger session of the slot or runs a contract.

    Elections, witnesses and the locks on consensus bonds are read with retries;
    the model has their final answers.  The texts of errors of parsed amounts are
    a parameter.

    The theorems: a handler takes value only from the accounts that authorised
    the operation or, for a contract call, from contracts and within the intents
    of the caller; an operation decoded from a payload without a member named
    like [Self] carries exactly the authorities its transaction was signed with.
    A payload with such a member chooses its authorities itself. *)
From Stdlib Require Import Ascii.
From S2P Require Import Prelude GoMaps GoStrings GoJson Assets LedgerDb LedgerTypes LedgerState LedgerSession Delegation ConsensusVersion DelegationMode RcSystem DataBin ContractSession ExecContext Wasm CallSafety.

(** ** Data *)

Record TxSelf := mkTxSelf {
  self_TxId : string;
  self_BlockId : string;
  self_BlockHeight : Z;
  self_Index : Z;
  self_OpIndex : Z;
  self_Timestamp : string;
  self_RequiredAuths : list string;
  self_RequiredPostingAuths : list string;
}.

Record TxResult := mkTxResult {
  tr_Success : bool;
  tr_Err : option string;
  tr_Ret : string;
  tr_RcUsed : Z;
}.

(** The fields of [TxVSCTransfer], [TxVSCWithdraw], [TxStakeHbd], [TxUnstakeHbd],
    [TxConsensusStake] and [TxConsensusUnstake]; the last four have no memo. *)
Record TxFields := mkTxFields {
  tx_Self : TxSelf;
  tx_NetId : string;
  tx_From : string;
  tx_To : string;
  tx_Amount : string;
  tx_Asset : string;
  tx_Memo : string;
}.

Record CallFields := mkCallFields {
  call_Self : TxSelf;
  call_NetId : string;
  call_Caller : string;
  call_ContractId : string;
  call_Action : string;
  call_Payload : string;
  call_RcLimit : Z;
  call_Intents : list Intent;
}.

Record DepositFields := mkDepositFields {
  dp_Self : TxSelf;
  dp_From : string;
  dp_To : string;
  dp_Amount : Z;
  dp_Asset : string;
  dp_Memo : string;
}.

Inductive VSCTransaction :=
| TxVscCallContract (t : CallFields)
| TxDeposit (t : DepositFields)
| TxVSCTransfer (t : TxFields)
| TxVSCWithdraw (t : TxFields)
| TxStakeHbd (t : TxFields)
| TxUnstakeHbd (t : TxFields)
| TxConsensusStake (t : TxFields)
| TxConsensusUnstake (t : TxFields).

Definition tx_Type (v : VSCTransaction) : string :=
  match v with
  | TxVscCallContract _ => "call"
  | TxDeposit _ => "deposit"
  | TxVSCTransfer _ => "transfer"
  | TxVSCWithdraw _ => "withdraw"
  | TxStakeHbd _ => "stake_hbd"
  | TxUnstakeHbd _ => "unstake_hbd"
  | TxConsensusStake _ => "consensus_stake"
  | TxConsensusUnstake _ => "consensus_unstake"
  end.

Definition tx_TxSelf (v : VSCTransaction) : TxSelf :=
  match v with
  | TxVscCallContract t => call_Self t
  | TxDeposit t => dp_Self t
  | TxVSCTransfer t | TxVSCWithdraw t | TxStakeHbd t | TxUnstakeHbd t | TxConsensusStake t | TxConsensusUnstake t => tx_Self t
  end.

Definition errorToTxResult (err : string) (RCs : Z) : TxResult := mkTxResult false None err RCs.

Definition ledger_TxResult (r : LedgerResult) (RCs : Z) : TxResult := mkTxResult (Ok r) None (Msg r) RCs.

Definition MakeTxId (TxId : string) (opIdx : Z) : string := if opIdx =? 0 then TxId else TxId +:+ "-" +:+ Itoa opIdx.

Definition tx_id (self : TxSelf) : string := MakeTxId (self_TxId self) (self_OpIndex self).

(** ** The engine as the handlers see it *)

Record Engine := mkEngine {
  se_NetId : string;
  se_params : ConsensusVersion.ConsensusParams;
  (** [GetElectionInfoOrBlock] *)
  se_election : Z → option ElectionResult;
  se_witnesses : witness_table;
  IsBondLockedRetiringMember : string → Z → bool;
  PoaExitHaltOrBlock : string → Z → bool * Z * bool;
  HeldShareOfFundedVaultOrBlock : string → Z → bool;
  PendulumOracleEnv : gmap string oracle_value;
  hasApplier : bool;
  HiveFreeAmount : Z;
  se_rcs : rcs;
  (** Whether the read of the credits of an account fails. *)
  se_rcErr : string → bool;
  (** The text of the error of [ParseAssetAmount]. *)
  amount_error : string → string → string;
}.

Definition ActiveConsensusVersion (se : Engine) (blockHeight : Z) : Version :=
  from_option ResultVersion version0 (se_election se blockHeight).

Definition VaultRotationV2InForce (cp : ConsensusVersion.ConsensusParams) (blockHeight : Z) (active : Version) : bool :=
  VaultRotationV2Enabled cp blockHeight || VaultRotationV2Active active.

Definition KeyCustodyInForce (cp : ConsensusVersion.ConsensusParams) (blockHeight : Z) (active : Version) : bool :=
  VaultRotationV2Enabled cp blockHeight || KeyResharedFlagActive active.

Definition MAX_CONTRACT_PAYLOAD_SIZE : nat := 8 * 1024.
Definition maxGas : Z := MaxUint64 / CYCLE_GAS_PER_RC.

(** ** Handlers on the ledger *)

Section handlers.
Context {S : Type} `{LedgerDb S} `{StateSource} (st : LedgerState S) (host : Host) (machine : Machine) (se : Engine).

Definition wrong_net (tx : TxFields) : bool := negb (String.eqb (tx_NetId tx) (se_NetId se)).

Definition invalid_amount (tx : TxFields) : TxResult :=
  errorToTxResult ("Invalid amount: " +:+ amount_error se (tx_Amount tx) (tx_Asset tx)) 50.

Definition authorised (tx : TxFields) : bool := slices_Contains (self_RequiredAuths (tx_Self tx)) (tx_From tx).

Definition did_or_hive (account : string) : bool := HasPrefix account "did:" || HasPrefix account "hive:".

Definition transfer_ExecuteTx (tx : TxFields) (ses : ledgerSession) : TxResult * ledgerSession :=
  if wrong_net tx then (errorToTxResult "wrong net ID" 50, ses)
  else if String.eqb (tx_To tx) "" || String.eqb (tx_From tx) "" then (errorToTxResult "Invalid to/from" 50, ses)
  else if negb (did_or_hive (tx_To tx)) || negb (did_or_hive (tx_From tx)) then (errorToTxResult "Invalid to/from" 50, ses)
  else if negb (authorised tx) then (errorToTxResult "Invalid RequiredAuths" 50, ses)
  else
    match ParseAssetAmount (tx_Amount tx) (tx_Asset tx) with
    | None => (invalid_amount tx, ses)
    | Some amount =>
        let self := tx_Self tx in
        let '(ledgerResult, ses) :=
          ExecuteTransfer st
            (mkOpLogEvent (tx_To tx) (tx_From tx) amount (tx_Asset tx) (tx_Memo tx) "" (tx_id self)
               (self_Index self) (self_OpIndex self) (self_BlockHeight self) None) [] ses in
        (ledger_TxResult ledgerResult 100, ses)
    end.

(** The sender of a withdrawal or a stake is checked after the amount; without
    one the operation is refused whatever default was computed for it.  [None] is
    the panic of [Withdraw]. *)
Definition withdraw_ExecuteTx (t : TxFields) (ses : ledgerSession) : option (TxResult * ledgerSession) :=
  if wrong_net t then Some (errorToTxResult "wrong net ID" 50, ses)
  else if String.eqb (tx_To t) "" then Some (errorToTxResult "Invalid to" 50, ses)
  else
    match ParseAssetAmount (tx_Amount t) (tx_Asset t) with
    | None => Some (invalid_amount t, ses)
    | Some amount =>
        if String.eqb (tx_From t) "" || negb (authorised t) then Some (errorToTxResult "Invalid RequiredAuths" 50, ses)
        else
          let self := tx_Self t in
          '(ledgerResult, ses) ← Withdraw st
            (mkWithdrawParams (tx_id self) (tx_From t) (tx_To t) (tx_Asset t) amount (tx_Memo t)
               (self_Index self) (self_OpIndex self) (self_BlockHeight self)) ses;
          Some (ledger_TxResult ledgerResult 200, ses)
    end.

(** [TxStakeHbd] and [TxUnstakeHbd] differ in the operation of the ledger. *)
Definition hbd_op (ty : string) (t : TxFields) (amount : Z) : StakeOp :=
  let self := tx_Self t in
  mkStakeOp (mkOpLogEvent (tx_To t) (tx_From t) amount (tx_Asset t) "" ty (tx_id self) 0 0 (self_BlockHeight self) None) false false.

Definition hbd_ExecuteTx (op : Z → ledgerSession → LedgerResult * ledgerSession) (t : TxFields) (ses : ledgerSession) :
    TxResult * ledgerSession :=
  if wrong_net t then (errorToTxResult "wrong net ID" 50, ses)
  else if String.eqb (tx_To t) "" then (errorToTxResult "Invalid to/from" 50, ses)
  else
    match ParseAssetAmount (tx_Amount t) (tx_Asset t) with
    | None => (invalid_amount t, ses)
    | Some amount =>
        if String.eqb (tx_From t) "" || negb (authorised t) then (errorToTxResult "Invalid RequiredAuths" 50, ses)
        else
          let '(ledgerResult, ses) := op amount ses in
          (ledger_TxResult ledgerResult 200, ses)
    end.

Definition stake_ExecuteTx (t : TxFields) : ledgerSession → TxResult * ledgerSession :=
  hbd_ExecuteTx (λ amount, Stake st (hbd_op "" t amount) []) t.

Definition unstake_ExecuteTx (t : TxFields) : ledgerSession → TxResult * ledgerSession :=
  hbd_ExecuteTx (λ amount, Unstake st (hbd_op "unstake" t amount)) t.

(** ** Handlers on consensus bonds *)

(** The checks [TxConsensusStake] and [TxConsensusUnstake] share: the result of a
    refused operation, or the amount. *)
Definition consensus_checks (tx : TxFields) : TxResult + Z :=
  if wrong_net tx then inl (errorToTxResult "wrong net ID" 50)
  else if String.eqb (tx_To tx) "" || String.eqb (tx_From tx) "" then inl (errorToTxResult "Invalid to/from" 50)
  else if negb (authorised tx) then inl (errorToTxResult "Invalid RequiredAuths" 50)
  else if negb (HasPrefix (tx_To tx) "hive:") || negb (HasPrefix (tx_From tx) "hive:")
  then inl (errorToTxResult "Invalid to/from" 50)
  else if negb (String.eqb (tx_Asset tx) "") && negb (String.eqb (tx_Asset tx) "hive") then inl (errorToTxResult "Invalid asset" 50)
  else from_option inr (inl (invalid_amount tx)) (ParseAssetAmount (tx_Amount tx) (tx_Asset tx)).

Definition consensus_stake_ExecuteTx (tx : TxFields) (ses : ledgerSession) : TxResult * ledgerSession :=
  match consensus_checks tx with
  | inl r => (r, ses)
  | inr amount =>
      let self := tx_Self tx in
      let delegated := from_option DelegatedStakeActiveForElection false (se_election se (self_BlockHeight self)) in
      if delegated && negb (String.eqb (tx_From tx) (tx_To tx)) &&
         negb (AllowsDelegation (NodeDelegationMode (se_election se) (se_witnesses se) (tx_To tx) (self_BlockHeight self)))
      then (errorToTxResult "node does not accept delegations" 100, ses)
      else
        let '(ledgerResult, ses) :=
          ConsensusStake st
            (LedgerTypes.mkConsensusParams (tx_id self) (tx_From tx) (tx_To tx) amount "stake" (self_BlockHeight self) 0 delegated) ses in
        (ledger_TxResult ledgerResult 100, ses)
  end.

Definition msg_retiring : string :=
  "consensus bond is locked: your committee holds a retiring BTC vault key that is not yet drained; retry the unstake after its migration completes".
Definition msg_halt_until (release : Z) : string :=
  "consensus bond is locked: POA collateral exit-halt runs until block " +:+ FormatUint release
  +:+ "; retry the unstake at or after that height".
Definition msg_halt_electable : string :=
  "consensus bond is locked: POA collateral exit-halt. Your seat is still an electable committee candidate. Disable your witness so it can no longer be elected; the halt then expires a fixed number of blocks later".
Definition msg_node_retiring : string :=
  "consensus bond is locked: the node you delegated to holds a retiring BTC vault key that is not yet drained; retry the unstake after its migration completes".
Definition msg_node_halt_until (release : Z) : string :=
  "consensus bond is locked: the node you delegated to is under the POA collateral exit-halt until block " +:+ FormatUint release
  +:+ "; retry the unstake at or after that height".
Definition msg_node_electable : string :=
  "consensus bond is locked: the node you delegated to holds a POA seat and is still an electable committee candidate; its collateral, including delegated stake, stays locked until it stops being electable and the exit-halt expires".
Definition msg_share : string :=
  "consensus bond is locked: this node is electable, recently active as a witness, in the current committee, or holds a share of a BTC vault generation that is not yet purged; it frees once its witness has been disabled for the exit-halt window and every such generation has been rotated out and purged".
Definition msg_node_share : string :=
  "consensus bond is locked: the node you delegated to is electable, recently active as a witness, in the current committee, or holds a share of a BTC vault generation that is not yet purged; retry once it has left and every such generation has been rotated out and purged".

(** The locks of one account: a retiring vault key, then the exit halt. *)
Definition bond_lock (account : string) (height : Z) (retiring : string) (until : Z → string) (electable : string) : option string :=
  if IsBondLockedRetiringMember se account height then Some retiring
  else
    let '(halted, release, armed) := PoaExitHaltOrBlock se account height in
    if halted : bool then Some (if armed : bool then until release else electable) else None.

(** All locks of an unstake, in the order of the code: the signer, the election,
    the bonded node, the vault shares. *)
Definition unstake_locks (tx : TxFields) : string + ElectionResult :=
  let height := self_BlockHeight (tx_Self tx) in
  match bond_lock (tx_From tx) height msg_retiring msg_halt_until msg_halt_electable with
  | Some msg => inl msg
  | None =>
      match se_election se height with
      | None => inl "election lookup unavailable; retry unstake later"
      | Some electionResult =>
          let delegated := DelegatedStakeActiveForElection electionResult in
          let active := ActiveConsensusVersion se height in
          let node_lock :=
            if negb (String.eqb (tx_To tx) (tx_From tx)) && delegated && PoaHaltOnBondedNodeActive active
            then bond_lock (tx_To tx) height msg_node_retiring msg_node_halt_until msg_node_electable
            else None in
          match node_lock with
          | Some msg => inl msg
          | None =>
              let bonded := if delegated then tx_To tx else tx_From tx in
              if PoaBondLockedWhileShareFundedActive active && HeldShareOfFundedVaultOrBlock se bonded height
              then inl (if negb (String.eqb bonded (tx_From tx)) then msg_node_share else msg_share)
              else inr electionResult
          end
      end
  end.

Definition consensus_unstake_ExecuteTx (tx : TxFields) (ses : ledgerSession) : TxResult * ledgerSession :=
  match consensus_checks tx with
  | inl r => (r, ses)
  | inr amount =>
      match unstake_locks tx with
      | inl msg => (errorToTxResult msg 50, ses)
      | inr electionResult =>
          let self := tx_Self tx in
          let '(ledgerResult, ses) :=
            ConsensusUnstake st
              (LedgerTypes.mkConsensusParams (tx_id self) (tx_From tx) (tx_To tx) amount "unstake" (self_BlockHeight self)
                 (el_Epoch electionResult +u64 CONSENSUS_UNSTAKE_LOCK_EPOCHS)
                 (DelegatedStakeActiveForElection electionResult)) ses in
          (ledger_TxResult ledgerResult 100, ses)
      end
  end.

(** ** Contract calls *)

(** What a handler acts on: the ledger session of the slot and the call session
    of the transaction. *)
Abbreviation sessions_pair := (ledgerSession * CallSession)%type.

(** [GetContractInfo]: an error reads as absence. *)
Definition GetContractInfo (id : string) (height : Z) : option Contract :=
  match ContractById machine id height with
  | ContractFound info => Some info
  | ContractMissing | ContractReadErr _ => None
  end.

(** The caller of a call: [None] when the one it names did not authorise it. *)
Definition call_caller (t : CallFields) : option string :=
  let self := call_Self t in
  if String.eqb (call_Caller t) "" then
    Some (match self_RequiredAuths self, self_RequiredPostingAuths self with
          | a :: _, _ => a
          | [], a :: _ => a
          | [], [] => ""
          end)
  else if slices_Contains (self_RequiredAuths self) (call_Caller t)
          || slices_Contains (self_RequiredPostingAuths self) (call_Caller t)
  then Some (call_Caller t)
  else None.

Definition call_env (t : CallFields) (owner caller : string) : Environment :=
  let self := call_Self t in
  mkEnvironment (call_ContractId t) owner (self_BlockHeight self) (self_TxId self) (self_BlockId self) (self_Index self)
    (self_OpIndex self) (self_Timestamp self) (self_RequiredAuths self) (self_RequiredPostingAuths self)
    caller caller (call_Intents t) (PendulumOracleEnv se).

Definition call_gates (height : Z) : gates :=
  let active := ActiveConsensusVersion se height in
  mkGates (hasApplier se) (MeetsConsensusMin active V0_2_0) (VaultRotationV2InForce (se_params se) height active)
    (Version0_10_0Active active) (KeyCustodyInForce (se_params se) height active).

(** The gas of a call in credits: what the payer has, up to the limit of the
    call. *)
Definition call_gas (availableGas rcLimit : Z) : Z := Z.min (Z.min (wrapu64 availableGas) rcLimit) maxGas.

Definition rc_charge (gas : Z) : Z :=
  Z.max 100 (wrap64 ((gas +u64 (CYCLE_GAS_PER_RC - 1)) / CYCLE_GAS_PER_RC)).

Definition call_TxResult (res : WasmResult) : TxResult :=
  match wr_Error res with
  | Some msg => mkTxResult false (Some (wr_ErrorCode res)) msg (rc_charge (wr_Gas res))
  | None => mkTxResult true None (wr_Result res) (rc_charge (wr_Gas res))
  end.

(** Run the contract.  The session of the contract is opened first, so that it is
    among the outputs whatever the call does. *)
Definition run_call (t : CallFields) (rcPayer : string) (info : Contract) (code caller : string) (gas : Z)
    (s : sessions_pair) : outcome TxResult * sessions_pair :=
  let height := self_BlockHeight (call_Self t) in
  let gasCycles := wrapu64 (gas * CYCLE_GAS_PER_RC) in
  let '(ses, cs) := s in
  let cs := (GetContractSession (call_ContractId t) cs).2 in
  if negb (utf8_Valid (call_Payload t))
  then (Returned (errorToTxResult "payload does not parse to a UTF-8 string" 100), (ses, cs))
  else
    let ctx := New (call_env t (ct_Owner info) caller) (wrap64 gas)
                 (FreeRcRemaining (HiveFreeAmount se) (se_rcErr se rcPayer) (se_rcs se) ∅ rcPayer height)
                 gasCycles (call_gates height) in
    let '(r, x) :=
      Execute st host machine CONTRACT_CALL_MAX_RECURSION_DEPTH code (ct_Runtime info) (call_Action t)
        (parse_payload host (call_Payload t)) gasCycles (mkX ctx ses cs) in
    (match r with Returned res => Returned (call_TxResult res) | Panicked => Panicked | Blocked => Blocked end,
     (x_ledger x, x_call x)).

(** The session of credits of a transaction has promised nothing. *)
Definition call_ExecuteTx (t : CallFields) (rcPayer : string) (s : sessions_pair) : outcome TxResult * sessions_pair :=
  let height := self_BlockHeight (call_Self t) in
  let refuse msg := (Returned (errorToTxResult msg 100), s) in
  if negb (String.eqb (call_NetId t) (se_NetId se)) then refuse "wrong net ID"
  else if (MAX_CONTRACT_PAYLOAD_SIZE <? slen (call_Payload t))%nat then refuse "payload exceeds maximum size of 8192 bytes"
  else
    match GetContractInfo (call_ContractId t) height with
    | None => refuse "contract not found"
    | Some info =>
        match fetch_code machine (ct_Code info) with
        | CidErr msg | FetchErr msg => refuse msg
        | CodeFound code =>
            let '((hasMinRCs, availableGas, _), ses) :=
              CanConsume st (HiveFreeAmount se) (se_rcErr se rcPayer) (se_rcs se) ∅ rcPayer height 100 s.1 in
            let s := (ses, s.2) in
            if negb hasMinRCs
            then (Returned (errorToTxResult ("minimum RC requirement is not met. RCs available: " +:+ Itoa availableGas) 100), s)
            else
              match call_caller t with
              | None => (Returned (errorToTxResult "caller is not in required_auths or required_posting_auths" 100), s)
              | Some caller => run_call t rcPayer info code caller (call_gas availableGas (call_RcLimit t)) s
              end
        end
    end.

(** ** All handlers *)

Definition with_ledger (m : ledgerSession → TxResult * ledgerSession) (s : sessions_pair) : outcome TxResult * sessions_pair :=
  let '(r, ses) := m s.1 in (Returned r, (ses, s.2)).

Definition ExecuteTx (v : VSCTransaction) (rcPayer : string) (s : sessions_pair) : outcome TxResult * sessions_pair :=
  match v with
  | TxVscCallContract t => call_ExecuteTx t rcPayer s
  | TxDeposit _ => (Returned (mkTxResult true None "" 0), s)
  | TxVSCTransfer t => with_ledger (transfer_ExecuteTx t) s
  | TxVSCWithdraw t =>
      match withdraw_ExecuteTx t s.1 with
      | Some (r, ses) => (Returned r, (ses, s.2))
      | None => (Panicked, s)
      end
  | TxStakeHbd t => with_ledger (stake_ExecuteTx t) s
  | TxUnstakeHbd t => with_ledger (unstake_ExecuteTx t) s
  | TxConsensusStake t => with_ledger (consensus_stake_ExecuteTx t) s
  | TxConsensusUnstake t => with_ledger (consensus_unstake_ExecuteTx t) s
  end.

(** A panic becomes a failed result; what the handler had done stays in the
    sessions.  [None]: the handler never returns. *)
Definition executeTxSafely (v : VSCTransaction) (payer : string) (s : sessions_pair) : option (TxResult * sessions_pair) :=
  match ExecuteTx v payer s with
  | (Returned r, s) => Some (r, s)
  | (Panicked, s) => Some (mkTxResult false None "internal error: panic during execution" 100, s)
  | (Blocked, _) => None
  end.
End handlers.

(** ** Decoding of operations *)

Definition set_self_auths (auths : list string) (s : TxSelf) : TxSelf :=
  mkTxSelf (self_TxId s) (self_BlockId s) (self_BlockHeight s) (self_Index s) (self_OpIndex s) (self_Timestamp s) auths
    (self_RequiredPostingAuths s).
Definition set_self_opindex (i : Z) (s : TxSelf) : TxSelf :=
  mkTxSelf (self_TxId s) (self_BlockId s) (self_BlockHeight s) (self_Index s) i (self_Timestamp s) (self_RequiredAuths s)
    (self_RequiredPostingAuths s).

(** [TxSelf] has no tags: its fields are found by their Go names. *)
Definition self_fields : fields TxSelf :=
  [("TxId", on_field self_TxId (λ x s, mkTxSelf x (self_BlockId s) (self_BlockHeight s) (self_Index s) (self_OpIndex s)
      (self_Timestamp s) (self_RequiredAuths s) (self_RequiredPostingAuths s)) set_string);
   ("BlockId", on_field self_BlockId (λ x s, mkTxSelf (self_TxId s) x (self_BlockHeight s) (self_Index s) (self_OpIndex s)
      (self_Timestamp s) (self_RequiredAuths s) (self_RequiredPostingAuths s)) set_string);
   ("BlockHeight", on_field self_BlockHeight (λ x s, mkTxSelf (self_TxId s) (self_BlockId s) x (self_Index s) (self_OpIndex s)
      (self_Timestamp s) (self_RequiredAuths s) (self_RequiredPostingAuths s)) set_uint64);
   ("Index", on_field self_Index (λ x s, mkTxSelf (self_TxId s) (self_BlockId s) (self_BlockHeight s) x (self_OpIndex s)
      (self_Timestamp s) (self_RequiredAuths s) (self_RequiredPostingAuths s)) set_int);
   ("OpIndex", on_field self_OpIndex set_self_opindex set_int);
   ("Timestamp", on_field self_Timestamp (λ x s, mkTxSelf (self_TxId s) (self_BlockId s) (self_BlockHeight s) (self_Index s)
      (self_OpIndex s) x (self_RequiredAuths s) (self_RequiredPostingAuths s)) set_string);
   ("RequiredAuths", on_field self_RequiredAuths set_self_auths set_strings);
   ("RequiredPostingAuths", on_field self_RequiredPostingAuths (λ x s, mkTxSelf (self_TxId s) (self_BlockId s) (self_BlockHeight s)
      (self_Index s) (self_OpIndex s) (self_Timestamp s) (self_RequiredAuths s) x) set_strings)].

Definition put_tx_self (x : TxSelf) (t : TxFields) : TxFields :=
  mkTxFields x (tx_NetId t) (tx_From t) (tx_To t) (tx_Amount t) (tx_Asset t) (tx_Memo t).

Definition data_fields : fields TxFields :=
  [("from", on_field tx_From (λ x t, mkTxFields (tx_Self t) (tx_NetId t) x (tx_To t) (tx_Amount t) (tx_Asset t) (tx_Memo t)) set_string);
   ("to", on_field tx_To (λ x t, mkTxFields (tx_Self t) (tx_NetId t) (tx_From t) x (tx_Amount t) (tx_Asset t) (tx_Memo t)) set_string);
   ("amount", on_field tx_Amount (λ x t, mkTxFields (tx_Self t) (tx_NetId t) (tx_From t) (tx_To t) x (tx_Asset t) (tx_Memo t)) set_string);
   ("asset", on_field tx_Asset (λ x t, mkTxFields (tx_Self t) (tx_NetId t) (tx_From t) (tx_To t) (tx_Amount t) x (tx_Memo t)) set_string);
   ("net_id", on_field tx_NetId (λ x t, mkTxFields (tx_Self t) x (tx_From t) (tx_To t) (tx_Amount t) (tx_Asset t) (tx_Memo t)) set_string)].

Definition memo_field : fields TxFields :=
  [("memo", on_field tx_Memo (λ x t, mkTxFields (tx_Self t) (tx_NetId t) (tx_From t) (tx_To t) (tx_Amount t) (tx_Asset t) x) set_string)].

Definition self_field : fields TxFields := [("Self", on_field tx_Self put_tx_self (set_struct self_fields))].

(** [Typei] of [TxStakeHbd] is not used; a value that is not a string is an
    error. *)
Definition type_field : fields TxFields := [("type", λ j t, (t, (set_string j "").2))].

(** The structs: all but [TxConsensusStake] decode [Self] as well. *)
Definition transfer_fields : fields TxFields := self_field ++ data_fields ++ memo_field.
Definition withdraw_fields : fields TxFields := self_field ++ data_fields ++ memo_field.
Definition stake_fields : fields TxFields := self_field ++ data_fields ++ type_field.
Definition unstake_fields : fields TxFields := self_field ++ data_fields.
Definition consensus_stake_fields : fields TxFields := data_fields.
Definition consensus_unstake_fields : fields TxFields := self_field ++ data_fields.

Definition intent_fields : fields Intent :=
  [("type", on_field in_Type (λ x i, mkIntent x (in_Args i)) set_string);
   ("args", on_field in_Args (λ x i, mkIntent (in_Type i) x) set_string_map)].

Definition new_tx (self : TxSelf) (netId : string) : TxFields := mkTxFields self netId "" "" "" "" "".
Definition new_call (self : TxSelf) (netId : string) : CallFields := mkCallFields self netId "" "" "" "" 0 [].

Section decoding.
(** The text of a value, which [json.RawMessage] keeps. *)
Context (raw : json → string).

Definition call_data_fields : fields CallFields :=
  [("net_id", on_field call_NetId (λ x t, mkCallFields (call_Self t) x (call_Caller t) (call_ContractId t) (call_Action t)
      (call_Payload t) (call_RcLimit t) (call_Intents t)) set_string);
   ("caller", on_field call_Caller (λ x t, mkCallFields (call_Self t) (call_NetId t) x (call_ContractId t) (call_Action t)
      (call_Payload t) (call_RcLimit t) (call_Intents t)) set_string);
   ("contract_id", on_field call_ContractId (λ x t, mkCallFields (call_Self t) (call_NetId t) (call_Caller t) x (call_Action t)
      (call_Payload t) (call_RcLimit t) (call_Intents t)) set_string);
   ("action", on_field call_Action (λ x t, mkCallFields (call_Self t) (call_NetId t) (call_Caller t) (call_ContractId t) x
      (call_Payload t) (call_RcLimit t) (call_Intents t)) set_string);
   ("payload", on_field call_Payload (λ x t, mkCallFields (call_Self t) (call_NetId t) (call_Caller t) (call_ContractId t)
      (call_Action t) x (call_RcLimit t) (call_Intents t)) (λ j _, (raw j, true)));
   ("rc_limit", on_field call_RcLimit (λ x t, mkCallFields (call_Self t) (call_NetId t) (call_Caller t) (call_ContractId t)
      (call_Action t) (call_Payload t) x (call_Intents t)) set_uint64);
   ("intents", on_field call_Intents (λ x t, mkCallFields (call_Self t) (call_NetId t) (call_Caller t) (call_ContractId t)
      (call_Action t) (call_Payload t) (call_RcLimit t) x) (set_slice (set_struct intent_fields) (mkIntent "" ∅)))].

Definition call_fields : fields CallFields :=
  ("Self", on_field call_Self (λ x t, mkCallFields x (call_NetId t) (call_Caller t) (call_ContractId t) (call_Action t)
      (call_Payload t) (call_RcLimit t) (call_Intents t)) (set_struct self_fields)) :: call_data_fields.

(** *** Operations of Hive *)

Record CustomJson := mkCustomJson {
  cj_Id : string;
  cj_RequiredAuths : list string;
  cj_RequiredPostingAuths : list string;
  (** [None]: the text is not JSON, and nothing is decoded. *)
  cj_Json : option json;
}.

Definition hive_did (account : string) : string := "hive:" +:+ account.

(** The transaction of a user operation of Hive; errors of the decoding are not
    looked at.  [at_] is where the operation is anchored. *)
Definition hive_op (at_ : TxSelf) (cj : CustomJson) : option VSCTransaction :=
  let txSelf := mkTxSelf (self_TxId at_) (self_BlockId at_) (self_BlockHeight at_) (self_Index at_) (self_OpIndex at_)
                  (self_Timestamp at_) (hive_did <$> cj_RequiredAuths cj) (hive_did <$> cj_RequiredPostingAuths cj) in
  let parsed fs := from_option (λ j, (set_struct fs j (new_tx txSelf "")).1) (new_tx txSelf "") (cj_Json cj) in
  if String.eqb (cj_Id cj) "vsc.withdraw" then Some (TxVSCWithdraw (parsed withdraw_fields))
  else if String.eqb (cj_Id cj) "vsc.call" then
    Some (TxVscCallContract
      (from_option (λ j, (set_struct call_fields j (new_call txSelf "")).1) (new_call txSelf "") (cj_Json cj)))
  else if String.eqb (cj_Id cj) "vsc.transfer" then Some (TxVSCTransfer (parsed transfer_fields))
  else if String.eqb (cj_Id cj) "vsc.stake_hbd" then Some (TxStakeHbd (parsed stake_fields))
  else if String.eqb (cj_Id cj) "vsc.unstake_hbd" then Some (TxUnstakeHbd (parsed unstake_fields))
  else if String.eqb (cj_Id cj) "vsc.consensus_stake" then Some (TxConsensusStake (parsed consensus_stake_fields))
  else if String.eqb (cj_Id cj) "vsc.consensus_unstake" then Some (TxConsensusUnstake (parsed consensus_unstake_fields))
  else None.

(** *** Offchain transactions *)

Record VSCTransactionOp := mkVSCTransactionOp {
  vop_Type : string;
  (** [None]: the payload is not CBOR. *)
  vop_Payload : option json;
}.

Record VSCTransactionHeader := mkVSCTransactionHeader {
  vh_Nonce : Z;
  vh_RequiredAuths : list string;
  vh_RcLimit : Z;
  vh_NetId : string;
}.

Record OffchainTransaction := mkOffchainTransaction {
  off_Self : TxSelf;
  off_TxId : string;
  off_Headers : VSCTransactionHeader;
  off_Tx : list VSCTransactionOp;
}.

Definition DecodeTxCbor {A} (op : VSCTransactionOp) (fs : fields A) (a : A) : option A :=
  j ← vop_Payload op;
  let '(a, ok) := set_struct fs j a in
  if ok : bool then Some a else None.

Definition offchain_op (activeVersion : Version) (self : TxSelf) (netId : string) (idx : nat) (op : VSCTransactionOp) :
    option VSCTransaction :=
  let tx := new_tx self netId in
  if String.eqb (vop_Type op) "call" then
    TxVscCallContract <$> DecodeTxCbor op call_fields (new_call (set_self_opindex (Z.of_nat idx) self) netId)
  else if String.eqb (vop_Type op) "transfer" then TxVSCTransfer <$> DecodeTxCbor op transfer_fields tx
  else if String.eqb (vop_Type op) "withdraw" then TxVSCWithdraw <$> DecodeTxCbor op withdraw_fields tx
  else if String.eqb (vop_Type op) "stake_hbd" then TxStakeHbd <$> DecodeTxCbor op stake_fields tx
  else if String.eqb (vop_Type op) "unstake_hbd" then
    if UnstakeHbdDirectionFixActive activeVersion then TxUnstakeHbd <$> DecodeTxCbor op unstake_fields tx
    else TxStakeHbd <$> DecodeTxCbor op stake_fields tx
  else None.

(** [None] is the error: one operation that cannot be decoded fails all.  The
    slice of authorities is shared by the operations; a payload that decodes into
    it (see [self_field]) would be seen by them, which is not modelled. *)
Definition ToTransaction (activeVersion : Version) (tx : OffchainTransaction) : option (list VSCTransaction) :=
  let self := set_self_auths (vh_RequiredAuths (off_Headers tx)) (off_Self tx) in
  mapM (λ '(idx, op), offchain_op activeVersion self (vh_NetId (off_Headers tx)) idx op) (zip (seq 0 (length (off_Tx tx))) (off_Tx tx)).
End decoding.

(** ** Specification *)

(** An event an operation may append: it takes a positive amount from an account
    that authorised the operation; a contract call may also take from contracts
    and, when the transaction has an active authority, from a caller with posting
    authority. *)
Definition op_event_ok (v : VSCTransaction) (e : OpLogEvent) : Prop :=
  let self := tx_TxSelf v in
  0 < op_Amount e ∧
  (op_From e ∈ self_RequiredAuths self ∨
   tx_Type v = "call" ∧
   (is_contract (op_From e) = true ∨ op_From e ∈ self_RequiredPostingAuths self ∧ self_RequiredAuths self ≠ [])).

(** [ses'] has the log of [ses] and events that satisfy [P]. *)
Definition adds_events (P : OpLogEvent → Prop) (ses ses' : ledgerSession) : Prop :=
  extends ses ses' ∧ ∃ new, oplog ses' = oplog ses ++ new ∧ Forall P new.

#[export] Instance adds_events_refl P : Reflexive (adds_events P).
Proof. intros ses. split; [done|]. exists []. by rewrite app_nil_r. Qed.

#[export] Instance adds_events_trans P : Transitive (adds_events P).
Proof.
  intros s1 s2 s3 [He1 (n1 & H1 & F1)] [He2 (n2 & H2 & F2)]. split; [by etrans|]. exists (n1 ++ n2).
  rewrite H2, H1, app_assoc. split; [done|]. by apply Forall_app.
Qed.

Lemma adds_events_impl (P Q : OpLogEvent → Prop) ses ses' : (∀ e, P e → Q e) → adds_events P ses ses' → adds_events Q ses ses'.
Proof. intros HPQ [He (new & Hn & Hf)]. split; [done|]. exists new. split; [done|]. by eapply Forall_impl. Qed.

Lemma appends_adds (P Q : OpLogEvent → Prop) ses ses' : (∀ e, P e → Q e) → appends P ses ses' → adds_events Q ses ses'.
Proof.
  intros HPQ [He [Ho|(e & HP & Ho)]]; (split; [done|]); [exists []; by rewrite app_nil_r|]. exists [e]. by auto.
Qed.

(** ** Lemmas: handlers *)

Section safety.
Context {S : Type} `{LedgerDb S} `{StateSource} (st : LedgerState S) (host : Host) (machine : Machine) (se : Engine).

Lemma Stake_appends s o ses :
  appends (λ e, 0 < op_Amount e ∧ op_From e = op_From (so_Op s)) ses (Stake st s o ses).2.
Proof.
  unfold Stake. destruct ((op_Amount (so_Op s) <=? 0) || _) eqn:E; [by apply appends_none|]. apply orb_false_iff in E as [E _]. z_of_bool.
  destruct (negb _); [by apply appends_none|]. read_balance. destruct (_ <? _); [by apply appends_none|]. by apply appends_one.
Qed.

Lemma Unstake_appends s ses :
  appends (λ e, 0 < op_Amount e ∧ op_From e = op_From (so_Op s)) ses (Unstake st s ses).2.
Proof.
  unfold Unstake. destruct ((op_Amount (so_Op s) <=? 0) || _) eqn:E; [by apply appends_none|]. apply orb_false_iff in E as [E _]. z_of_bool.
  destruct (_ && _); [by apply appends_none|]. read_balance. destruct (_ <? _); [by apply appends_none|]. by apply appends_one.
Qed.

Lemma ConsensusStake_appends p ses :
  appends (λ e, 0 < op_Amount e ∧ op_From e = cp_From p) ses (ConsensusStake st p ses).2.
Proof.
  unfold ConsensusStake. destruct (cp_Amount p <=? 0) eqn:E; [by apply appends_none|]. z_of_bool.
  read_balance. destruct (_ <? _); [by apply appends_none|]. by apply appends_one.
Qed.

Lemma ConsensusUnstake_appends p ses :
  appends (λ e, 0 < op_Amount e ∧ op_From e = cp_From p) ses (ConsensusUnstake st p ses).2.
Proof.
  unfold ConsensusUnstake. destruct (cp_Amount p <=? 0) eqn:E; [by apply appends_none|]. z_of_bool.
  pose proof (unstake_release_log st p ses) as Hl. destruct (unstake_release st p ses) as [[r|rel] ses1]; [by apply appends_none|].
  by apply appends_one.
Qed.

Lemma authorised_In tx : authorised tx = true → tx_From tx ∈ self_RequiredAuths (tx_Self tx).
Proof. apply slices_Contains_spec. Qed.

(** Leave a handler at its next check. *)
Ltac refuse := match goal with |- adds_events _ _ (if ?b then _ else _).2 => destruct b eqn:?; [done|] end.

Lemma transfer_adds v ses : adds_events (op_event_ok (TxVSCTransfer v)) ses (transfer_ExecuteTx st se v ses).2.
Proof.
  unfold transfer_ExecuteTx. do 4 refuse. destruct (ParseAssetAmount _ _) as [n|]; [|done]. cbv zeta.
  set (e := mkOpLogEvent _ _ _ _ _ _ _ _ _ _ _). pose proof (ExecuteTransfer_appends st e [] ses) as Ha.
  destruct (ExecuteTransfer st e [] ses) as [r ses']. revert Ha. apply appends_adds. intros e' (Hp & Hf & _). split; [done|].
  left. rewrite Hf. by apply authorised_In, negb_false_iff.
Qed.

Lemma withdraw_adds v ses :
  ∃ r ses', withdraw_ExecuteTx st se v ses = Some (r, ses') ∧ adds_events (op_event_ok (TxVSCWithdraw v)) ses ses'.
Proof.
  unfold withdraw_ExecuteTx. destruct (wrong_net se v); [by do 2 eexists|]. destruct (String.eqb _ _); [by do 2 eexists|].
  destruct (ParseAssetAmount _ _) as [n|]; [|by do 2 eexists]. destruct (String.eqb _ _ || _) eqn:E; [by do 2 eexists|].
  apply orb_false_iff in E as [_ E]. cbv zeta. set (w := mkWithdrawParams _ _ _ _ _ _ _ _ _).
  destruct (Withdraw_appends st w ses) as (r & ses' & Hw & Ha). rewrite Hw. cbn [mbind option_bind].
  do 2 eexists. split; [done|]. revert Ha. apply appends_adds. intros e' (Hp & Hf). split; [done|].
  left. rewrite Hf. by apply authorised_In, negb_false_iff.
Qed.

Lemma hbd_adds (P : OpLogEvent → Prop) op v ses :
  (∀ n, appends (λ e, 0 < op_Amount e ∧ op_From e = tx_From v) ses (op n ses).2) →
  (∀ e, 0 < op_Amount e → op_From e ∈ self_RequiredAuths (tx_Self v) → P e) →
  adds_events P ses (hbd_ExecuteTx se op v ses).2.
Proof.
  intros Hop HP. unfold hbd_ExecuteTx. do 2 refuse. destruct (ParseAssetAmount _ _) as [n|]; [|done].
  destruct (String.eqb _ _ || _) eqn:E; [done|]. apply orb_false_iff in E as [_ E]. specialize (Hop n).
  destruct (op n ses) as [r ses']. revert Hop. apply appends_adds. intros e [Hp Hf]. apply HP; [done|].
  rewrite Hf. by apply authorised_In, negb_false_iff.
Qed.

Lemma consensus_checks_auth v n : consensus_checks se v = inr n → tx_From v ∈ self_RequiredAuths (tx_Self v).
Proof.
  unfold consensus_checks. destruct (wrong_net se v); [done|]. destruct (_ || _); [done|].
  destruct (authorised v) eqn:E; [intros _; by apply authorised_In|done].
Qed.

Lemma consensus_stake_adds v ses : adds_events (op_event_ok (TxConsensusStake v)) ses (consensus_stake_ExecuteTx st se v ses).2.
Proof.
  unfold consensus_stake_ExecuteTx. destruct (consensus_checks se v) as [r|n] eqn:E; [done|]. apply consensus_checks_auth in E.
  cbv zeta. destruct (_ && _); [done|]. set (p := LedgerTypes.mkConsensusParams _ _ _ _ _ _ _ _).
  pose proof (ConsensusStake_appends p ses) as Ha. destruct (ConsensusStake st p ses) as [r ses']. revert Ha.
  apply appends_adds. intros e [Hp Hf]. split; [done|]. left. by rewrite Hf.
Qed.

Lemma consensus_unstake_adds v ses : adds_events (op_event_ok (TxConsensusUnstake v)) ses (consensus_unstake_ExecuteTx st se v ses).2.
Proof.
  unfold consensus_unstake_ExecuteTx. destruct (consensus_checks se v) as [r|n] eqn:E; [done|]. apply consensus_checks_auth in E.
  destruct (unstake_locks se v) as [msg|el]; [done|]. cbv zeta. set (p := LedgerTypes.mkConsensusParams _ _ _ _ _ _ _ _).
  pose proof (ConsensusUnstake_appends p ses) as Ha. destruct (ConsensusUnstake st p ses) as [r ses']. revert Ha.
  apply appends_adds. intros e [Hp Hf]. split; [done|]. left. by rewrite Hf.
Qed.

Lemma call_caller_In t caller :
  call_caller t = Some caller → self_RequiredAuths (call_Self t) ≠ [] →
  caller ∈ self_RequiredAuths (call_Self t) ∨ caller ∈ self_RequiredPostingAuths (call_Self t).
Proof.
  unfold call_caller. destruct (String.eqb _ ""); intros Hc Hne.
  - left. destruct (self_RequiredAuths _) as [|a l]; [done|]. injection Hc as <-. by left.
  - destruct (_ || _) eqn:E; [|done]. injection Hc as <-.
    apply orb_true_iff in E as [E|E]; apply slices_Contains_spec in E; auto.
Qed.

Lemma run_call_adds t payer info code caller gas s :
  call_caller t = Some caller →
  adds_events (op_event_ok (TxVscCallContract t)) s.1 (run_call st host machine se t payer info code caller gas s).2.1.
Proof.
  intros Hcaller. unfold run_call. cbv zeta. destruct s as [ses cs]. destruct (negb _); [done|].
  set (x := mkX _ _ _). set (depth := CONTRACT_CALL_MAX_RECURSION_DEPTH).
  pose proof (Execute_safe st host machine depth code (ct_Runtime info) (call_Action t) (parse_payload host (call_Payload t))
    (wrapu64 (gas * CYCLE_GAS_PER_RC)) x) as (_ & _ & He & new & Hnew & Hok & _).
  destruct (Execute _ _ _ _ _ _ _ _ _ x) as [r x']. cbn [fst snd x_ledger] in *. split; [done|]. exists new. split; [done|].
  eapply Forall_impl; [exact Hok|]. intros e [Hp [Hc|(Hf & Hra & _)]]; (split; [done|]); [by right; split; [|left]|].
  cbn in Hf, Hra. rewrite Hf. destruct (call_caller_In t caller Hcaller Hra) as [Hin|Hin]; [by left|]. right. split; [done|]. by right.
Qed.

Lemma call_adds t payer s :
  adds_events (op_event_ok (TxVscCallContract t)) s.1 (call_ExecuteTx st host machine se t payer s).2.1.
Proof.
  unfold call_ExecuteTx. destruct (negb _); [done|]. destruct (_ <? _)%nat; [done|].
  destruct (GetContractInfo _ _ _) as [info|]; [|done]. destruct (fetch_code _ _) as [msg|msg|code]; [done..|].
  assert (adds_events (op_event_ok (TxVscCallContract t)) s.1
    (CanConsume st (HiveFreeAmount se) (se_rcErr se payer) (se_rcs se) ∅ payer (self_BlockHeight (call_Self t)) 100 s.1).2) as Hread.
  { unfold CanConsume. destruct (HasPrefix _ _); [done|]. read_balance.
    assert (adds_events (op_event_ok (TxVscCallContract t)) s.1 l) as Hl.
    { destruct Hlog as (Ho & Hl & _ & Hs). split; [unfold extends; by rewrite Ho, Hl|]. exists []. by rewrite app_nil_r. }
    by destruct (_ <? _). }
  destruct (CanConsume _ _ _ _ _ _ _ _ _) as [[[b avail] n] ses]. cbn [snd] in Hread.
  destruct (negb b); [done|]. destruct (call_caller t) as [caller|] eqn:Hc; [|done].
  etrans; [exact Hread|]. by apply (run_call_adds t payer info code caller _ (ses, s.2)).
Qed.

Lemma ExecuteTx_adds v payer s : adds_events (op_event_ok v) s.1 (ExecuteTx st host machine se v payer s).2.1.
Proof.
  destruct v as [t|t|t|t|t|t|t|t]; cbn [ExecuteTx]; unfold with_ledger.
  - apply call_adds.
  - done.
  - pose proof (transfer_adds t s.1) as Ha. by destruct (transfer_ExecuteTx _ _ _ _).
  - destruct (withdraw_adds t s.1) as (r & ses' & -> & Ha). done.
  - pose proof (hbd_adds (op_event_ok (TxStakeHbd t)) (λ n, Stake st (hbd_op "" t n) []) t s.1
      (λ n, Stake_appends (hbd_op "" t n) [] s.1)) as Ha.
    unfold stake_ExecuteTx. destruct (hbd_ExecuteTx _ _ _ _). apply Ha. intros e Hp Hf. split; [done|]. by left.
  - pose proof (hbd_adds (op_event_ok (TxUnstakeHbd t)) (λ n, Unstake st (hbd_op "unstake" t n)) t s.1
      (λ n, Unstake_appends (hbd_op "unstake" t n) s.1)) as Ha.
    unfold unstake_ExecuteTx. destruct (hbd_ExecuteTx _ _ _ _). apply Ha. intros e Hp Hf. split; [done|]. by left.
  - pose proof (consensus_stake_adds t s.1) as Ha. by destruct (consensus_stake_ExecuteTx _ _ _ _).
  - pose proof (consensus_unstake_adds t s.1) as Ha. by destruct (consensus_unstake_ExecuteTx _ _ _ _).
Qed.

Lemma executeTxSafely_adds v payer s r s' :
  executeTxSafely st host machine se v payer s = Some (r, s') → adds_events (op_event_ok v) s.1 s'.1.
Proof.
  unfold executeTxSafely. pose proof (ExecuteTx_adds v payer s) as Ha. destruct (ExecuteTx _ _ _ _ v payer s) as [[r0| |] s1];
    intros [= <- <-]; done.
Qed.

(** Only a contract call can leave the engine waiting. *)
Lemma executeTxSafely_total v payer s : tx_Type v ≠ "call" → is_Some (executeTxSafely st host machine se v payer s).
Proof.
  unfold executeTxSafely. destruct v as [t|t|t|t|t|t|t|t]; cbn [ExecuteTx tx_Type]; unfold with_ledger; intros Hne; try done.
  - by destruct (transfer_ExecuteTx _ _ _ _).
  - by destruct (withdraw_ExecuteTx _ _ _ _) as [[? ?]|].
  - by destruct (stake_ExecuteTx _ _ _ _).
  - by destruct (unstake_ExecuteTx _ _ _ _).
  - by destruct (consensus_stake_ExecuteTx _ _ _ _).
  - by destruct (consensus_unstake_ExecuteTx _ _ _ _).
Qed.
End safety.

(** ** Lemmas: decoding *)

(** A field whose assignment leaves [Self] alone. *)
Definition keeps_self {A} (self : A → TxSelf) (f : string * setter A) : Prop := ∀ v a, self (f.2 v a).1 = self a.

Lemma on_field_keeps {A B} (self : A → TxSelf) name (get : A → B) put set :
  (∀ b a, self (put b a) = self a) → keeps_self self (name, on_field get put set).
Proof. intros Hp v a. unfold on_field. cbn. destruct (set v (get a)). apply Hp. Qed.

Lemma data_fields_keep : Forall (keeps_self tx_Self) (data_fields ++ memo_field ++ type_field).
Proof. repeat (apply Forall_cons; split); try (by apply on_field_keeps); [by intros v a|by constructor]. Qed.

Lemma call_data_fields_keep raw : Forall (keeps_self call_Self) (call_data_fields raw).
Proof. repeat (apply Forall_cons; split); try (by apply on_field_keeps). constructor. Qed.

(** A payload without a member named like [Self] leaves it as it was set. *)
Lemma set_struct_self {A} (self : A → TxSelf) (s : setter A) (fs fs' : fields A) j a :
  Forall (keeps_self self) fs' → fs ⊆ ("Self", s) :: fs' → lacks "Self" j → self (set_struct fs j a).1 = self a.
Proof.
  intros Hk Hsub Hl. apply (set_struct_keeps fs self "Self" j a Hl). intros f v b [->|Hf]%Hsub%elem_of_cons Hn; [done|].
  rewrite Forall_forall in Hk. by apply Hk.
Qed.

Lemma fields_sub : ∀ fs, fs ∈ [transfer_fields; withdraw_fields; stake_fields; unstake_fields; consensus_stake_fields; consensus_unstake_fields] →
  fs ⊆ self_field ++ data_fields ++ memo_field ++ type_field.
Proof. intros fs Hfs f. repeat (apply elem_of_cons in Hfs as [->|Hfs]; [set_solver|]). set_solver. Qed.

Lemma parsed_self fs j self netId :
  fs ∈ [transfer_fields; withdraw_fields; stake_fields; unstake_fields; consensus_stake_fields; consensus_unstake_fields] →
  lacks "Self" j → tx_Self (set_struct fs j (new_tx self netId)).1 = self.
Proof.
  intros Hfs%fields_sub Hl.
  exact (set_struct_self tx_Self (on_field tx_Self put_tx_self (set_struct self_fields)) fs _ j (new_tx self netId) data_fields_keep Hfs Hl).
Qed.

Lemma parsed_call_self raw j self netId :
  lacks "Self" j → call_Self (set_struct (call_fields raw) j (new_call self netId)).1 = self.
Proof. intros Hl. exact (set_struct_self call_Self _ (call_fields raw) _ j (new_call self netId) (call_data_fields_keep raw) (reflexivity _) Hl). Qed.

Lemma DecodeTxCbor_Some {A} op (fs : fields A) a a' :
  DecodeTxCbor op fs a = Some a' → ∃ j, vop_Payload op = Some j ∧ a' = (set_struct fs j a).1.
Proof.
  unfold DecodeTxCbor. destruct (vop_Payload op) as [j|]; [|done]. cbn. destruct (set_struct fs j a) as [a0 []] eqn:E; [|done].
  intros [= <-]. exists j. by rewrite E.
Qed.

Definition same_auths (s s' : TxSelf) : Prop :=
  self_RequiredAuths s = self_RequiredAuths s' ∧ self_RequiredPostingAuths s = self_RequiredPostingAuths s'.

Lemma offchain_op_self raw version self netId idx op v :
  offchain_op raw version self netId idx op = Some v → from_option (lacks "Self") True (vop_Payload op) →
  same_auths (tx_TxSelf v) self.
Proof.
  unfold offchain_op. cbv zeta. intros Hop Hl.
  destruct (String.eqb (vop_Type op) "call").
  { apply fmap_Some in Hop as (t & (j & Hj & ->)%DecodeTxCbor_Some & ->). rewrite Hj in Hl. cbn [tx_TxSelf]. by rewrite parsed_call_self. }
  repeat match type of Hop with (if ?b then _ else _) = _ => destruct b end; [..|done];
    apply fmap_Some in Hop as (t & (j & Hj & ->)%DecodeTxCbor_Some & ->); rewrite Hj in Hl; cbn [tx_TxSelf];
    (rewrite parsed_self; [done|set_solver|done]).
Qed.

(** The operations of an offchain transaction carry the authorities that signed
    it, as long as no payload has a member named like [Self]. *)
Lemma ToTransaction_auths raw version tx ops :
  ToTransaction raw version tx = Some ops →
  Forall (λ op, from_option (lacks "Self") True (vop_Payload op)) (off_Tx tx) →
  Forall (λ v, self_RequiredAuths (tx_TxSelf v) = vh_RequiredAuths (off_Headers tx) ∧
               self_RequiredPostingAuths (tx_TxSelf v) = self_RequiredPostingAuths (off_Self tx)) ops.
Proof.
  unfold ToTransaction. cbv zeta. intros Hops Hl. apply mapM_Some in Hops. set (self := set_self_auths _ _) in Hops.
  generalize dependent 0%nat. revert ops. induction (off_Tx tx) as [|op l IH]; intros ops i Hops; inversion Hops; simplify_eq; [done|].
  apply Forall_cons in Hl as [Hop Hl]. constructor; [|by eapply IH].
  match goal with H : offchain_op _ _ _ _ _ _ = Some _ |- _ => apply offchain_op_self in H; [|done]; exact H end.
Qed.

(** The same for a user operation of Hive. *)
Lemma hive_op_auths raw at_ cj v :
  hive_op raw at_ cj = Some v → from_option (lacks "Self") True (cj_Json cj) →
  self_RequiredAuths (tx_TxSelf v) = hive_did <$> cj_RequiredAuths cj ∧
  self_RequiredPostingAuths (tx_TxSelf v) = hive_did <$> cj_RequiredPostingAuths cj.
Proof.
  unfold hive_op. cbv zeta. intros Hv Hl.
  repeat match type of Hv with (if ?b then _ else _) = _ => destruct b end; simplify_eq;
    destruct (cj_Json cj) as [j|]; cbn [from_option tx_TxSelf] in *; try done;
    try (rewrite parsed_self; [done|set_solver|done]); by rewrite parsed_call_self.
Qed.

(** A payload that has such a member chooses the authorities itself: whoever
    posts the operation, it is authorised by the account it names. *)
Lemma self_member_overrides raw at_ auths victim rest :
  ∃ t, hive_op raw at_
    (mkCustomJson "vsc.transfer" auths []
       (Some (JObj [("Self", JObj [("RequiredAuths", JArr [JStr victim])]); ("from", JStr victim); ("to", JStr rest)])))
    = Some (TxVSCTransfer t) ∧ tx_From t = victim ∧ authorised t = true.
Proof. eexists. split; [reflexivity|]. split; [done|]. unfold authorised. apply slices_Contains_spec. cbn. by left. Qed.
