(* ===== verification/TxPool.v ===== *)
(** The transaction pool, [modules/transaction-pool/transaction-pool.go] and
    [utils.go]: what a node asks of an offchain transaction before it indexes it,
    from its own clients ([IngestTx]) and from its peers ([ReceiveTx]).

    CBOR, the texts of JSON values, content ids and the identities of users
    (Ethereum, Bitcoin) are a class of operations; the decoding of the JSON of a
    transaction into its struct is modelled.  What a signature covers is the
    content id of the struct, not the bytes that were sent.

    The theorems: a transaction is indexed only when all its authorities signed
    it, an authority of the committee with two thirds of its weight, and its nonce
    is the next one of its account or follows another of the pool.  Bytes with a
    member that no field takes have the same signature and another id. *)
From Stdlib Require Import Ascii.
From S2P Require Import Prelude GoMaps GoStrings GoEncoding GoJson Assets LedgerDb LedgerTypes LedgerState ConsensusVersion BlsQuorum BlsCircuit RcSystem TxIndex Transactions.

(** ** Data *)

Record Sig := mkSig { sg_Algo : string; sg_Sig : string; sg_Bv : string; sg_Kid : string }.

Record SignaturePackage := mkSignaturePackage { sp_Type : string; sp_Sigs : list Sig }.

(** The operation as it is sent: its payload is CBOR. *)
Record ShellOp := mkShellOp { so_Type : string; so_Payload : string }.

Record VSCTransactionShell := mkVSCTransactionShell {
  sh_Type : string;
  sh_Version : string;
  sh_Headers : VSCTransactionHeader;
  sh_Tx : list ShellOp;
}.

(** What is signed: the payloads as JSON texts. *)
Record VSCTransactionSignStruct := mkVSCTransactionSignStruct {
  ssg_Type : string;
  ssg_Version : string;
  ssg_Headers : VSCTransactionHeader;
  ssg_Tx : list (string * string);
}.

Record SerializedVSCTransaction := mkSerializedVSCTransaction { st_Tx : string; st_Sig : option string }.

Class Codec := {
  (** [cbornode.Decode] and [MarshalJSON] *)
  cbor_json : string → option json;
  (** [DecodeInto] a map *)
  cbor_map : string → option (gmap string field_value);
  (** The text of a JSON value. *)
  json_text : json → string;
  (** The content id of some bytes. *)
  cid_sum : string → string;
  (** The content id of the DAG-CBOR encoding. *)
  sign_cid : VSCTransactionSignStruct → string;
  (** [dids.Parse] and [Verify] of the identities of users; [None] is an error. *)
  did_Parse : string → bool;
  did_Verify : string → string → string → option bool;
  ParseBlsDID : string → bool;
}.

(** ** Decoding *)

Definition sig_fields : fields Sig :=
  [("alg", on_field sg_Algo (λ x s, mkSig x (sg_Sig s) (sg_Bv s) (sg_Kid s)) set_string);
   ("sig", on_field sg_Sig (λ x s, mkSig (sg_Algo s) x (sg_Bv s) (sg_Kid s)) set_string);
   ("bv", on_field sg_Bv (λ x s, mkSig (sg_Algo s) (sg_Sig s) x (sg_Kid s)) set_string);
   ("kid", on_field sg_Kid (λ x s, mkSig (sg_Algo s) (sg_Sig s) (sg_Bv s) x) set_string)].

Definition package_fields : fields SignaturePackage :=
  [("__t", on_field sp_Type (λ x p, mkSignaturePackage x (sp_Sigs p)) set_string);
   ("sigs", on_field sp_Sigs (λ x p, mkSignaturePackage (sp_Type p) x) (set_slice (set_struct sig_fields) (mkSig "" "" "" "")))].

Definition header_fields : fields VSCTransactionHeader :=
  [("nonce", on_field vh_Nonce (λ x h, mkVSCTransactionHeader x (vh_RequiredAuths h) (vh_RcLimit h) (vh_NetId h)) set_uint64);
   ("required_auths", on_field vh_RequiredAuths (λ x h, mkVSCTransactionHeader (vh_Nonce h) x (vh_RcLimit h) (vh_NetId h)) set_strings);
   ("rc_limit", on_field vh_RcLimit (λ x h, mkVSCTransactionHeader (vh_Nonce h) (vh_RequiredAuths h) x (vh_NetId h)) set_uint64);
   ("net_id", on_field vh_NetId (λ x h, mkVSCTransactionHeader (vh_Nonce h) (vh_RequiredAuths h) (vh_RcLimit h) x) set_string)].

(** A slice of bytes is base64 text; [null] makes it nil. *)
Definition set_bytes : setter string := λ j old,
  match j with
  | JStr s => let '(l, ok) := b64_decode_padded std_value s in if ok : bool then (bytes (Z.to_N <$> l), true) else (old, false)
  | JNull => ("", true)
  | _ => (old, false)
  end.

Definition shell_op_fields : fields ShellOp :=
  [("type", on_field so_Type (λ x o, mkShellOp x (so_Payload o)) set_string);
   ("payload", on_field so_Payload (λ x o, mkShellOp (so_Type o) x) set_bytes)].

Definition shell_fields : fields VSCTransactionShell :=
  [("__t", on_field sh_Type (λ x s, mkVSCTransactionShell x (sh_Version s) (sh_Headers s) (sh_Tx s)) set_string);
   ("__v", on_field sh_Version (λ x s, mkVSCTransactionShell (sh_Type s) x (sh_Headers s) (sh_Tx s)) set_string);
   ("headers", on_field sh_Headers (λ x s, mkVSCTransactionShell (sh_Type s) (sh_Version s) x (sh_Tx s)) (set_struct header_fields));
   ("tx", on_field sh_Tx (λ x s, mkVSCTransactionShell (sh_Type s) (sh_Version s) (sh_Headers s) x)
      (set_slice (set_struct shell_op_fields) (mkShellOp "" "")))].

Definition empty_header : VSCTransactionHeader := mkVSCTransactionHeader 0 [] 0 "".
Definition empty_shell : VSCTransactionShell := mkVSCTransactionShell "" "" empty_header [].
Definition empty_package : SignaturePackage := mkSignaturePackage "" [].

(** ** The pool *)

(** Errors end a function early. *)
#[local] Instance sum_bind {E} : MBind (sum E) := λ A B f m, match m with inl e => inl e | inr a => f a end.

Definition check {E} (fine : bool) (e : E) : E + unit := if fine then inr () else inl e.
Definition or_error {E A} (e : E) (o : option A) : E + A := match o with Some a => inr a | None => inl e end.

Section pool.
Context `{Codec} `{KeyHash} {sig : Type} `{BlsLib sig}.

Definition DecodeCbor {A} (fs : fields A) (data : string) (zero : A) : option A :=
  j ← cbor_json data;
  let '(a, ok) := set_struct fs j zero in
  if ok : bool then Some a else None.

(** *** Costs *)

Definition RcCostTransfer : Z := 100.
Definition RcCostWithdraw : Z := 200.
Definition RcCostStake : Z := 200.
Definition RcCostUnstake : Z := 200.
Definition RcCostCallMin : Z := 100.
Definition RcCostUnknown : Z := 50.

Definition callRcLimit (op : ShellOp) : Z :=
  match DecodeCbor [("rc_limit", set_uint64)] (so_Payload op) 0 with
  | None => RcCostCallMin
  | Some limit => if limit <? RcCostCallMin then RcCostCallMin else limit
  end.

(** The most an operation of a type can cost; [call] is the limit of a call. *)
Definition op_cost (ty : string) (call : Z) : Z :=
  if String.eqb ty "call" then call
  else if String.eqb ty "transfer" then RcCostTransfer
  else if String.eqb ty "withdraw" then RcCostWithdraw
  else if String.eqb ty "stake_hbd" then RcCostStake
  else if String.eqb ty "unstake_hbd" then RcCostUnstake
  else RcCostUnknown.

Definition StaticMaxRcCost (ops : list ShellOp) : Z := foldl (λ total op, total +u64 op_cost (so_Type op) (callRcLimit op)) 0 ops.

Definition recordCallRcLimit (op : TransactionOperation) : Z :=
  match txop_Data op !! "rc_limit" with
  | None | Some FOther => RcCostCallMin
  | Some raw =>
      let v := match raw with
               | FUint n => n
               | FInt n => if 0 <? n then n else 0
               | FFloat positive n => if positive then n else 0
               | FOther => 0
               end in
      if v <? RcCostCallMin then RcCostCallMin else v
  end.

Definition StaticMaxRcCostFromRecord (ops : list TransactionOperation) : Z :=
  foldl (λ total op, total +u64 op_cost (txop_Type op) (recordCallRcLimit op)) 0 ops.

(** *** Authorities *)

(** A parsed authority: the committee, or a user. *)
Inductive did := CommitteeDID (v : VscDID) | UserDID (d : string).

Definition VscDIDPrefix : string := "did:vsc".

Definition did_of (members : list string) (weights : list Z) (threshold : Z) (signatures : list Sig) (authKID : string) : option did :=
  if negb (HasPrefix authKID VscDIDPrefix) then (if did_Parse authKID then Some (UserDID authKID) else None)
  else
    '(_, s) ← list_find (λ s, authKID = sg_Kid s) signatures;
    if String.eqb (sg_Bv s) "" then None
    else CommitteeDID <$> NewVscDID members weights (sg_Bv s) threshold.

(** The identities, and whether the committee is among them; [None] is an error. *)
Definition makeDIDs (electionMembers : list ElectionMember) (electionMemberWeights : list Z) (requiredAuths : list string)
    (signatures : list Sig) : option (list did * bool) :=
  if bool_decide (electionMembers = []) then None
  else if negb (length electionMembers =? length electionMemberWeights)%nat then None
  else if negb (forallb (λ m, ParseBlsDID (em_Key m)) electionMembers) then None
  else
    let total := foldl u64_add 0 electionMemberWeights in
    let threshold := total -u64 total / 3 in
    didBuf ← mapM (did_of (em_Key <$> electionMembers) electionMemberWeights threshold signatures) requiredAuths;
    Some (didBuf, existsb (λ a, HasPrefix a VscDIDPrefix) requiredAuths).

Definition did_check (cid : string) (d : did) (text : string) : option bool :=
  match d with
  | CommitteeDID v => VscDID_Verify v cid text
  | UserDID d => did_Verify d cid text
  end.

Definition VerifyMany (dids : list did) (cid : string) (sigs : list string) : option bool :=
  if negb (length dids =? length sigs)%nat then None
  else foldl (λ acc ds, res ← acc; verified ← did_check cid ds.1 ds.2; Some (res && verified)) (Some true) (zip dids sigs).

Definition VerifySignatures (auths : list did) (cid : string) (sigs : list Sig) : option bool := VerifyMany auths cid (sg_Sig <$> sigs).

(** *** Admission *)

Definition MAX_TX_SIZE : Z := 16384.

(** The payload that is signed is empty when the value has no JSON text. *)
Definition sign_struct (txShell : VSCTransactionShell) : VSCTransactionSignStruct :=
  mkVSCTransactionSignStruct (sh_Type txShell) (sh_Version txShell) (sh_Headers txShell)
    ((λ op, (so_Type op, from_option json_text "" (cbor_json (so_Payload op)))) <$> sh_Tx txShell).

Definition payloads_ok (txShell : VSCTransactionShell) : bool := forallb (λ op, bool_decide (is_Some (cbor_map (so_Payload op)))) (sh_Tx txShell).

(** The types of the operations are a set. *)
Definition indexTx (txId : string) (txShell : VSCTransactionShell) (db : txdb) : option txdb :=
  if bool_decide (sh_Tx txShell = []) then None
  else
    ops ← mapM (λ '(idx, op), data ← cbor_map (so_Payload op); Some (mkTransactionOperation [] (so_Type op) (Z.of_nat idx) data))
            (zip (seq 0 (length (sh_Tx txShell))) (sh_Tx txShell));
    let h := sh_Headers txShell in
    Ingest (mkIngestTransactionUpdate txId (Some UNCONFIRMED) (vh_RequiredAuths h) [] "vsc" (vh_Nonce h)
              (elements (list_to_set (so_Type <$> sh_Tx txShell) : gset string)) ops (vh_RcLimit h) None None None None) db.

(** What the pool reads.  An election is [None] when the read fails, [Some None]
    when there is none yet. *)
Record PoolEnv := mkPoolEnv {
  pe_suspended : bool;
  pe_nonces : noncedb;
  pe_nonceErr : bool;
  pe_countErr : bool;
  pe_election : option (option ElectionResult);
  pe_highest : option Z;
  (** [GetAvailableRCs] *)
  pe_rcs : string → Z → Z;
  pe_putErr : bool;
  pe_sendErr : bool;
}.

Inductive pool_error :=
| Suspended | NoSignature | TooBig | BadSignature | BadTx | BadPayload | NoAuths | NonceRead | NonceLow | NonceFast | NonceGap | NonceCount
| ElectionRead | BadDIDs | BadVerify | NotSigned | NoBlock | NoCredits | LimitLow | NotIndexed | NotStored | NotSent.

(** The nonce is the account's, or the one before it waits in the pool. *)
Definition nonce_follows (env : PoolEnv) (h : VSCTransactionHeader) (nonce : Z) (db : txdb) : pool_error + unit :=
  if nonce <? vh_Nonce h then
    prevExists ← or_error NonceCount (if pe_countErr env then None else HasUnconfirmedWithNonce (vh_RequiredAuths h) (vh_Nonce h -u64 1) db);
    check prevExists NonceGap
  else inr ().

(** The signatures of all authorities; whether the committee is one. *)
Definition check_signatures (env : PoolEnv) (h : VSCTransactionHeader) (msg : string) (sigs : list Sig) : pool_error + bool :=
  el ← or_error ElectionRead (pe_election env);
  '(didBuf, hasVscDID) ← or_error BadDIDs (makeDIDs (from_option el_Members [] el) (from_option el_Weights [] el) (vh_RequiredAuths h) sigs);
  verified ← or_error BadVerify (VerifySignatures didBuf msg sigs);
  _ ← check verified NotSigned;
  inr hasVscDID.

(** The limit is within the credits of the payer, the first authority. *)
Definition check_credits (env : PoolEnv) (h : VSCTransactionHeader) (latestBlk : Z) : pool_error + unit :=
  check (negb ((wrapu64 (pe_rcs env (default "" (head (vh_RequiredAuths h))) latestBlk) <? vh_RcLimit h) || (vh_RcLimit h =? 0))) NoCredits.

(** A transaction of a client.  It stays indexed when storing or sending it
    fails. *)
Definition validate (env : PoolEnv) (sTx : SerializedVSCTransaction) (db : txdb) : pool_error + VSCTransactionShell :=
  _ ← check (negb (pe_suspended env)) Suspended;
  sigBytes ← or_error NoSignature (st_Sig sTx);
  _ ← check (Z.of_nat (String.length (st_Tx sTx)) <=? MAX_TX_SIZE) TooBig;
  sigPack ← or_error BadSignature (DecodeCbor package_fields sigBytes empty_package);
  txShell ← or_error BadTx (DecodeCbor shell_fields (st_Tx sTx) empty_shell);
  _ ← check (payloads_ok txShell) BadPayload;
  let h := sh_Headers txShell in
  _ ← check (negb (bool_decide (vh_RequiredAuths h = []))) NoAuths;
  _ ← check (negb (pe_nonceErr env)) NonceRead;
  let nonce := default 0 (GetNonce (HashKeyAuths (vh_RequiredAuths h)) (pe_nonces env)) in
  _ ← check (negb ((vh_Nonce h <? nonce) && negb (nonce =? 0))) NonceLow;
  _ ← check (vh_Nonce h <=? nonce +u64 100) NonceFast;
  _ ← nonce_follows env h nonce db;
  hasVscDID ← check_signatures env h (sign_cid (sign_struct txShell)) (sp_Sigs sigPack);
  latestBlk ← or_error NoBlock (pe_highest env);
  _ ← (if hasVscDID : bool then inr ()
       else _ ← check_credits env h latestBlk;
            check (StaticMaxRcCost (sh_Tx txShell) <=? vh_RcLimit h) LimitLow);
  inr txShell.

Definition IngestTx (env : PoolEnv) (sTx : SerializedVSCTransaction) (broadcast : bool) (db : txdb) : (pool_error + string) * txdb :=
  match validate env sTx db with
  | inl e => (inl e, db)
  | inr txShell =>
      match indexTx (cid_sum (st_Tx sTx)) txShell db with
      | None => (inl NotIndexed, db)
      | Some db =>
          ((_ ← check (negb (pe_putErr env)) NotStored;
            _ ← check (negb (broadcast && pe_sendErr env)) NotSent;
            inr (cid_sum (st_Tx sTx))), db)
      end
  end.

(** A transaction of a peer, with its base64 texts decoded.  A package of
    signatures that cannot be decoded is a panic, which the caller recovers from;
    a field of it that does not fit is skipped. *)
Definition receive_valid (env : PoolEnv) (decodedTx decodedSig : string) (db : txdb) : pool_error + VSCTransactionShell :=
  _ ← check (Z.of_nat (String.length decodedTx) <=? MAX_TX_SIZE) TooBig;
  txShell ← or_error BadTx (DecodeCbor shell_fields decodedTx empty_shell);
  let h := sh_Headers txShell in
  _ ← check (negb (bool_decide (vh_RequiredAuths h = []))) NoAuths;
  _ ← check (payloads_ok txShell) BadPayload;
  sigJson ← or_error BadSignature (cbor_json decodedSig);
  let sigPack := (set_struct package_fields sigJson empty_package).1 in
  hasVscDID ← check_signatures env h (sign_cid (sign_struct txShell)) (sp_Sigs sigPack);
  latestBlk ← or_error NoBlock (pe_highest env);
  _ ← (if hasVscDID : bool then inr () else check_credits env h latestBlk);
  _ ← check (negb (pe_nonceErr env)) NonceRead;
  let confirmedNonce := default 0 (GetNonce (HashKeyAuths (vh_RequiredAuths h)) (pe_nonces env)) in
  _ ← check (negb ((vh_Nonce h <? confirmedNonce) && negb (confirmedNonce =? 0))) NonceLow;
  _ ← nonce_follows env h confirmedNonce db;
  inr txShell.

Definition ReceiveTx (env : PoolEnv) (decodedTx decodedSig : string) (db : txdb) : txdb :=
  match receive_valid env decodedTx decodedSig db with
  | inl _ => db
  | inr txShell => default db (indexTx (cid_sum decodedTx) txShell db)
  end.
End pool.

(** ** Specification *)

(** A transaction reaches the index of a node. *)
Inductive pool_step `{Codec} `{KeyHash} {sig} `{BlsLib sig} (env : PoolEnv) (db : txdb) : txdb → Prop :=
| step_ingest sTx broadcast : pool_step env db (IngestTx env sTx broadcast db).2
| step_receive decodedTx decodedSig : pool_step env db (ReceiveTx env decodedTx decodedSig db).

(** The committee signed: the text is that of an aggregate that verifies for seats of
    two thirds of the weight, which some bits name. *)
Definition committee_signed {sig} `{BlsLib sig} (el : ElectionResult) (msg text : string) : Prop :=
  ∃ bits (c : BlsCircuit sig), DeserializeBlsCircuit (mkSerializedCircuit text bits) (em_Key <$> el_Members el) msg = Some c ∧
    bls_VerifyAgg (IncludedDIDs c) msg (bc_aggSigs c) = Some true ∧
    let total := foldl u64_add 0 (el_Weights el) in
    total -u64 total / 3 <= foldl u64_add 0 (signed_seats (circuit_bit c) (el_Weights el)).

(** The signature of one authority. *)
Definition auth_signed `{Codec} {sig} `{BlsLib sig} (el : ElectionResult) (msg auth text : string) : Prop :=
  if HasPrefix auth VscDIDPrefix then committee_signed el msg text else did_Verify auth msg text = Some true.

(** What the pool has checked of a transaction with this id and record. *)
Definition admitted `{Codec} `{KeyHash} {sig} `{BlsLib sig} (env : PoolEnv) (db : txdb) (el : ElectionResult) (id : string) (r : TransactionRecord) : Prop :=
  ∃ tx shell sigs, let h := sh_Headers shell in
    let account := default 0 (pe_nonces env !! HashKeyAuths (vh_RequiredAuths h)) in
    id = cid_sum tx ∧ DecodeCbor shell_fields tx empty_shell = Some shell ∧
    rec_Status r = UNCONFIRMED ∧ rec_RequiredAuths r = vh_RequiredAuths h ∧ rec_Nonce r = vh_Nonce h ∧
    vh_RequiredAuths h ≠ [] ∧ Forall2 (auth_signed el (sign_cid (sign_struct shell))) (vh_RequiredAuths h) sigs ∧
    account <= vh_Nonce h ∧ (account < vh_Nonce h → HasUnconfirmedWithNonce (vh_RequiredAuths h) (vh_Nonce h -u64 1) db = Some true).

(** ** Lemmas *)

Lemma check_inr {E} fine (e : E) u : check fine e = inr u ↔ fine = true.
Proof. unfold check. destruct fine, u; naive_solver. Qed.

Lemma or_error_inr {E A} (e : E) (o : option A) a : or_error e o = inr a ↔ o = Some a.
Proof. destruct o; naive_solver. Qed.

Lemma bind_inr {E A B} (m : E + A) (f : A → E + B) b : (m ≫= f) = inr b ↔ ∃ a, m = inr a ∧ f a = inr b.
Proof. destruct m; [|naive_solver]. split; [done|]. by intros (? & [=] & _). Qed.

(** Take a chain of checks apart. *)
Ltac unbind Hyp :=
  repeat match type of Hyp with
  | (_ ≫= _) = inr _ => let a := fresh "a" in let E := fresh "E" in apply bind_inr in Hyp as (a & E & Hyp); cbv beta iota zeta in Hyp
  end.

Section lemmas.
Context `{Codec} `{KeyHash} {sig : Type} `{BlsLibLaws sig}.
Implicit Types (env : PoolEnv) (db : txdb) (el : ElectionResult).

Lemma makeDIDs_spec members ws auths sigs dids b :
  makeDIDs members ws auths sigs = Some (dids, b) →
  length members = length ws ∧
  Forall2 (λ a d, if HasPrefix a VscDIDPrefix
                  then ∃ bv, d = CommitteeDID (mkVscDID (em_Key <$> members) ws (foldl u64_add 0 ws -u64 foldl u64_add 0 ws / 3) bv)
                  else d = UserDID a) auths dids.
Proof.
  unfold makeDIDs. destruct (bool_decide (members = [])); [done|]. destruct (length members =? length ws)%nat eqn:Hl; [|done]. cbn [negb].
  apply Nat.eqb_eq in Hl. destruct (forallb _ _); [|done]. cbn [negb]. cbv zeta. destruct (mapM _ auths) as [ds|] eqn:Hm; [|done].
  cbn [mbind option_bind]. intros [= <- _]. split; [done|]. apply mapM_Some in Hm. eapply Forall2_impl; [exact Hm|]. intros a d Hd.
  unfold did_of in Hd. destruct (HasPrefix a VscDIDPrefix); cbn [negb] in Hd; [|by destruct (did_Parse a); simplify_eq].
  destruct (list_find _ sigs) as [[i s]|]; [|done]. cbn [mbind option_bind] in Hd. destruct (String.eqb _ _); [done|].
  unfold NewVscDID in Hd. rewrite length_fmap, Hl, Nat.eqb_refl in Hd. cbn in Hd. injection Hd as <-. by eexists.
Qed.

Lemma VerifyMany_spec ds msg texts :
  VerifyMany ds msg texts = Some true → Forall2 (λ d t, did_check msg d t = Some true) ds texts.
Proof.
  unfold VerifyMany. destruct (length ds =? length texts)%nat eqn:Hl; [|done]. cbn [negb]. apply Nat.eqb_eq in Hl. revert texts Hl.
  assert (∀ l, foldl (λ acc ds, res ← acc; verified ← did_check msg ds.1 ds.2; Some (res && verified)) None l = None) as Hnone.
  { intros l. induction l; [done|]. by cbn. }
  assert (∀ l, foldl (λ acc ds, res ← acc; verified ← did_check msg ds.1 ds.2; Some (res && verified)) (Some false) l ≠ Some true) as Hfalse.
  { intros l. induction l as [|[d t] l IH]; [done|]. cbn. destruct (did_check msg d t) as [b|]; cbn; [done|]. by rewrite Hnone. }
  induction ds as [|d ds IH]; intros [|t texts] Hl; [constructor|done..|]. cbn.
  destruct (did_check msg d t) as [[]|] eqn:Hd; cbn; [|by intros ?%Hfalse|by rewrite Hnone].
  intros Hf. constructor; [done|]. apply IH; [by injection Hl|done].
Qed.

Lemma check_signatures_spec env h msg sigs b :
  check_signatures env h msg sigs = inr b →
  ∃ el, pe_election env = Some (Some el) ∧
    (NoDup (em_Key <$> el_Members el) → Forall2 (auth_signed el msg) (vh_RequiredAuths h) (sg_Sig <$> sigs)).
Proof.
  unfold check_signatures. intros (o & Hel%or_error_inr & Hrest)%bind_inr.
  apply bind_inr in Hrest as ([ds b'] & Hds%or_error_inr & Hrest). apply bind_inr in Hrest as (v & Hv%or_error_inr & Hrest).
  apply bind_inr in Hrest as (u & ->%check_inr & _). destruct o as [el|]; [|done]. exists el. split; [done|]. intros Hnd.
  apply makeDIDs_spec in Hds as [Hlen Hds]. apply VerifyMany_spec in Hv.
  refine (Forall2_compose _ _ _ _ _ _ _ Hds Hv). intros a d t Hd Ht. unfold auth_signed. destruct (HasPrefix a VscDIDPrefix); [|by subst d].
  destruct Hd as [bv ->]. cbn [did_check] in Ht. apply vsc_did_accepts in Ht as (c & Hc & Hagg & Hw); [|done|cbn; by rewrite length_fmap].
  by exists bv, c.
Qed.

Lemma nonce_follows_spec env h nonce db u :
  nonce_follows env h nonce db = inr u → nonce < vh_Nonce h → HasUnconfirmedWithNonce (vh_RequiredAuths h) (vh_Nonce h -u64 1) db = Some true.
Proof.
  unfold nonce_follows. intros Hn Hlt. rewrite (proj2 (Z.ltb_lt _ _) Hlt) in Hn. apply bind_inr in Hn as (b & Hb%or_error_inr & ->%check_inr).
  by destruct (pe_countErr env).
Qed.

Lemma set_uint64_nonneg j n : 0 <= n → 0 <= (set_uint64 j n).1.
Proof. intros Hn. destruct j; try done. cbn. destruct (ParseUint text) as [m|] eqn:E; [|done]. by apply ParseUint_nonneg in E. Qed.

Lemma shell_fields_nonneg : Forall (λ f, ∀ v s, 0 <= vh_Nonce (sh_Headers s) → 0 <= vh_Nonce (sh_Headers (f.2 v s).1)) shell_fields.
Proof.
  repeat constructor; intros v a Ha; cbn; unfold on_field; try by destruct (set_string _ _).
  - pose proof (set_struct_inv (λ h, 0 <= vh_Nonce h) header_fields v (sh_Headers a)) as Hh. destruct (set_struct _ _ _) as [h ok].
    apply Hh; [|done]. repeat constructor; intros w b Hb; cbn; unfold on_field; try by destruct (set_string _ _).
    + pose proof (set_uint64_nonneg w (vh_Nonce b) Hb). by destruct (set_uint64 _ _).
    + by destruct (set_strings _ _).
    + by destruct (set_uint64 _ _).
  - by destruct (set_slice _ _ _ _).
Qed.

Lemma shell_nonce tx shell : DecodeCbor shell_fields tx empty_shell = Some shell → 0 <= vh_Nonce (sh_Headers shell).
Proof.
  unfold DecodeCbor. destruct (cbor_json tx) as [j|]; [|done]. cbn [mbind option_bind].
  pose proof (set_struct_inv (λ s, 0 <= vh_Nonce (sh_Headers s)) shell_fields j empty_shell shell_fields_nonneg) as Hinv.
  destruct (set_struct _ _ _) as [s []]; [|done]. intros [= <-]. by apply Hinv.
Qed.

(** What both ways into the pool have in common. *)
Lemma validated_admitted env db el tx shell sigs b msg u :
  pe_election env = Some (Some el) → NoDup (em_Key <$> el_Members el) →
  DecodeCbor shell_fields tx empty_shell = Some shell → vh_RequiredAuths (sh_Headers shell) ≠ [] →
  msg = sign_cid (sign_struct shell) → check_signatures env (sh_Headers shell) msg sigs = inr b →
  let account := default 0 (GetNonce (HashKeyAuths (vh_RequiredAuths (sh_Headers shell))) (pe_nonces env)) in
  negb ((vh_Nonce (sh_Headers shell) <? account) && negb (account =? 0)) = true →
  nonce_follows env (sh_Headers shell) account db = inr u →
  ∀ db' id r, indexTx (cid_sum tx) shell db = Some db' → db' !! id = Some r → db !! id ≠ Some r → admitted env db el id r.
Proof.
  intros Hel Hnd Hdec Hauths -> (el' & Hel' & Hsig)%check_signatures_spec account Hlow Hf db' id r Hidx Hr Hold.
  rewrite Hel in Hel'. injection Hel' as <-. unfold indexTx in Hidx. destruct (bool_decide _); [done|].
  destruct (mapM _ _) as [ops|]; [|done]. cbn [mbind option_bind] in Hidx. rewrite (ingest_lookup _ _ _ _ Hidx) in Hr. cbn in Hr.
  destruct (decide (id = cid_sum tx)) as [->|]; [|done]. injection Hr as <-.
  exists tx, shell, (sg_Sig <$> sigs). cbn. split_and!; try done; [by apply Hsig| |].
  - apply negb_true_iff, andb_false_iff in Hlow. fold account. destruct Hlow as [?%Z.ltb_ge|Hz%negb_false_iff]; [done|]. apply Z.eqb_eq in Hz.
    unfold account, GetNonce in *. rewrite Hz. by eapply shell_nonce.
  - intros Hlt. by eapply nonce_follows_spec.
Qed.

(** Bytes with a member no field takes are the same transaction to everyone who
    checks a signature, under another id. *)
Lemma same_transaction tx tx' members k v :
  cbor_json tx = Some (JObj members) → cbor_json tx' = Some (JObj (members ++ [(k, v)])) → find_field shell_fields k = None →
  DecodeCbor shell_fields tx' empty_shell = DecodeCbor shell_fields tx empty_shell.
Proof. intros Htx Htx' Hk. unfold DecodeCbor. rewrite Htx, Htx'. cbn [mbind option_bind]. by rewrite set_struct_extra. Qed.
End lemmas.

(** ** Theorems *)

Section theorems.
Context `{Codec} `{KeyHash} {sig : Type} `{BlsLibLaws sig}.

(** C16: a record the pool writes is of a transaction that every one of its
    authorities signed (an authority of the committee by seats of two thirds of the
    weight of the current election) and whose nonce is not below that of its
    account; above it, the pool holds the one before.  The election is read, and its
    seats have distinct keys: a key at two seats is counted twice by the check
    ([key_counted_twice]). *)
Theorem pool_admission env db db' el id r :
  pool_step env db db' → pe_election env = Some (Some el) → NoDup (em_Key <$> el_Members el) →
  db' !! id = Some r → db !! id ≠ Some r → admitted env db el id r.
Proof.
  intros Hstep Hel Hnd Hr Hold. destruct Hstep as [sTx b|tx sg].
  - unfold IngestTx in Hr. destruct (validate env sTx db) as [|shell] eqn:Hv; [done|]. destruct (indexTx _ _ _) as [db'|] eqn:Hidx; [|done].
    cbn [snd] in Hr. unfold validate in Hv. unbind Hv. rewrite ?check_inr, ?or_error_inr, ?negb_true_iff in *. injection Hv as ->.
    eapply (validated_admitted env db el (st_Tx sTx)); rewrite ?negb_true_iff; try done; by eapply bool_decide_eq_false_1.
  - unfold ReceiveTx in Hr. destruct (receive_valid env tx sg db) as [|shell] eqn:Hv; [done|].
    destruct (indexTx (cid_sum tx) shell db) as [db'|] eqn:Hidx; [|done]. cbn [default] in Hr. unfold receive_valid in Hv. unbind Hv.
    rewrite ?check_inr, ?or_error_inr, ?negb_true_iff in *. injection Hv as ->. eapply (validated_admitted env db el tx); rewrite ?negb_true_iff; try done; by eapply bool_decide_eq_false_1.
Qed.
End theorems.
