(* ===== verification/Batch.v ===== *)
(** The execution of a slot's transactions, [ExecuteBatch] of
    [modules/state-processing/state_engine.go] with [AppendOutput], [Flush] and
    the types of [types.go].

    The transactions of a slot share one ledger session; each has its own session
    of credits and, from its first contract call on, its own call session.  A
    transaction whose operations all succeed is committed to the ledger state and
    to the outputs of its contracts; one that fails is reverted and only charged.

    The theorems: a transaction that fails changes neither the ledger nor the
    state of a contract; what a batch adds to the ledger was authorised by the
    transactions it reports as successful; every operation that ran is charged to
    its payer.  The results of contract calls are not reverted in one case
    ([reverted_call_reported]). *)
From Stdlib Require Import Ascii.
From S2P Require Import Prelude GoMaps GoStrings GoJson Assets LedgerDb LedgerTypes Oplog LedgerState LedgerSession AccountBook Delegation ConsensusVersion DelegationMode RcSystem DataBin ContractSession ExecContext Wasm CallSafety Transactions.

(** ** Data *)

Record TxPacket := mkTxPacket {
  tp_TxId : string;
  tp_Ops : list VSCTransaction;
  tp_Invalid : bool;
  tp_Payer : string;
}.

Record TxOutput := mkTxOutput { txo_Ok : bool; txo_LedgerIds : list string }.

Record ContractResult := mkContractResult {
  cr_Success : bool;
  cr_Ret : string;
  cr_Err : option string;
  cr_ErrMsg : string;
  cr_TxId : string;
  cr_Logs : list string;
  cr_TssOps : list TssOp;
}.

(** What a slot accumulates. *)
Record slot := mkSlot {
  RcMap : gmap string Z;
  TempOutputs : gmap string TempOutput;
  ContractResults : gmap string (list ContractResult);
  TxOutputs : gmap string TxOutput;
  TxOutIds : list string;
  firstTxHeight : Z;
  (** The reasons written to the transaction index. *)
  failures : list (string * string);
}.

Definition AppendOutput (contractId : string) (out : ContractResult) (results : gmap string (list ContractResult)) :
    gmap string (list ContractResult) :=
  <[contractId := default [] (results !! contractId) ++ [out]]> results.

(** The credits are kept until [UpdateRcMap]. *)
Definition Flush_slot (s : slot) : slot := mkSlot (RcMap s) ∅ ∅ ∅ [] 0 (failures s).

Definition opFailure (opIdx opCount : nat) (opType reason : string) : string :=
  if (1 <? opCount)%nat
  then "op " +:+ Itoa (Z.of_nat opIdx) +:+ " (" +:+ opType +:+ "): " +:+ reason
  else reason.

(** The payer of an operation: its first active authority, else its first posting
    authority. *)
Definition op_payer (self : TxSelf) : option string :=
  match self_RequiredAuths self, self_RequiredPostingAuths self with
  | a :: _, _ => Some a
  | [], a :: _ => Some a
  | [], [] => None
  end.

(** What the operations of a transaction work on. *)
Record tx_state := mkTxState {
  ts_ledger : ledgerSession;
  ts_call : option CallSession;
  ts_outputs : list (string * ContractResult);
  ts_slot : slot;
}.

Definition with_rc (payer : string) (rc : Z) (s : slot) : slot :=
  mkSlot (map_add (RcMap s) (payer, rc)) (TempOutputs s) (ContractResults s) (TxOutputs s) (TxOutIds s) (firstTxHeight s) (failures s).

Definition with_temp (temp : gmap string TempOutput) (s : slot) : slot :=
  mkSlot (RcMap s) temp (ContractResults s) (TxOutputs s) (TxOutIds s) (firstTxHeight s) (failures s).

Definition with_first (height : Z) (s : slot) : slot :=
  if firstTxHeight s =? 0
  then mkSlot (RcMap s) (TempOutputs s) (ContractResults s) (TxOutputs s) (TxOutIds s) (height -u64 1) (failures s)
  else s.

Definition recordTxFailure (txId reason : string) (s : slot) : slot :=
  mkSlot (RcMap s) (TempOutputs s) (ContractResults s) (TxOutputs s) (TxOutIds s) (firstTxHeight s) (failures s ++ [(txId, reason)]).

Definition with_results (outputs : list (string * ContractResult)) (s : slot) : slot :=
  mkSlot (RcMap s) (TempOutputs s) (foldl (λ m '(id, out), AppendOutput id out m) (ContractResults s) outputs)
    (TxOutputs s) (TxOutIds s) (firstTxHeight s) (failures s).

Definition with_output (txId : string) (out : TxOutput) (s : slot) : slot :=
  mkSlot (RcMap s) (TempOutputs s) (ContractResults s) (<[txId := out]> (TxOutputs s)) (TxOutIds s ++ [txId]) (firstTxHeight s) (failures s).

(** ** The engine *)

Section batch.
Context {S : Type} `{LedgerDb S} `{StateSource} (host : Host) (machine : Machine) (se : Engine).
Implicit Types st : LedgerState S.

(** The output a failed call leaves its contract with. *)
Definition last_known (contractId : string) (s : slot) : TempOutput :=
  match TempOutputs s !! contractId with
  | Some out => mkTempOutput ∅ (out_Metadata out) ∅ (out_Cid out)
  | None =>
      match last_output contractId with
      | Some (cid, metadata) => mkTempOutput ∅ metadata ∅ cid
      | None => mkTempOutput ∅ (mkContractMetadata 0 0) ∅ ""
      end
  end.

(** The results of a successful call, one for each contract it touched. *)
Definition call_results (contractId txId : string) (result : TxResult) (logs : gmap string LogOutput) : list (string * ContractResult) :=
  (λ id, let log := default (mkLogOutput [] []) (logs !! id) in
         (id, mkContractResult (tr_Success result) (if String.eqb id contractId then tr_Ret result else "") None "" txId
                (lo_Logs log) (lo_TssOps log))) <$> sorted_keys logs.

(** What a call leaves: its results, or only its error.  [last] is the last known
    output of the contract from before the call. *)
Definition after_call (contractId txId : string) (last : TempOutput) (result : TxResult) (t : tx_state) : tx_state :=
  if tr_Success result then
    let '(logs, cs) := call_PopLogs (default (NewCallSession ∅) (ts_call t)) in
    mkTxState (ts_ledger t) (Some cs) (ts_outputs t ++ call_results contractId txId result logs) (ts_slot t)
  else
    let temp := TempOutputs (ts_slot t) in
    mkTxState (ts_ledger t) (ts_call t)
      [(contractId, mkContractResult false "" (tr_Err result) (tr_Ret result) txId [] [])]
      (if bool_decide (is_Some (temp !! contractId)) then ts_slot t else with_temp (<[contractId := last]> temp) (ts_slot t)).

(** A failed operation reverts the ledger session. *)
Definition revert_tx (t : tx_state) (record : slot → slot) : tx_state :=
  mkTxState (Revert (ts_ledger t)) (ts_call t) (ts_outputs t) (record (ts_slot t)).

(** One operation: [Some (true, _)] goes on with the next, [Some (false, _)]
    fails the transaction, [None] waits for ever. *)
Definition exec_op st (tx : TxPacket) (idx : nat) (v : VSCTransaction) (t : tx_state) : option (bool * tx_state) :=
  let self := tx_TxSelf v in
  let failure reason := recordTxFailure (tp_TxId tx) (opFailure idx (length (tp_Ops tx)) (tx_Type v) reason) in
  if String.eqb (tx_Type v) "deposit" then Some (true, t)
  else
    let call := match ts_call t with
                | None => if String.eqb (tx_Type v) "call" then Some (NewCallSession (TempOutputs (ts_slot t))) else None
                | Some cs => Some cs
                end in
    let t := mkTxState (ts_ledger t) call (ts_outputs t) (with_first (self_BlockHeight self) (ts_slot t)) in
    match op_payer self with
    | None => Some (false, revert_tx t (failure "no required auths"))
    | Some payer =>
        '(result, (ses, cs)) ← executeTxSafely st host machine se v payer (ts_ledger t, default (NewCallSession ∅) (ts_call t));
        let t' := mkTxState ses ((λ _, cs) <$> ts_call t) (ts_outputs t) (with_rc payer (tr_RcUsed result) (ts_slot t)) in
        let t' := match v with
                  | TxVscCallContract c =>
                      after_call (call_ContractId c) (MakeTxId (tp_TxId tx) (Z.of_nat idx)) (last_known (call_ContractId c) (ts_slot t)) result t'
                  | _ => t'
                  end in
        Some (if tr_Success result then (true, t')
              else (false, revert_tx t' (if String.eqb (tr_Ret result) "" then id else failure (tr_Ret result))))
    end.

Fixpoint exec_ops st (tx : TxPacket) (idx : nat) (ops : list VSCTransaction) (t : tx_state) : option (bool * tx_state) :=
  match ops with
  | [] => Some (true, t)
  | v :: ops =>
      '(go, t) ← exec_op st tx idx v t;
      if go : bool then exec_ops st tx (Datatypes.S idx) ops t else Some (false, t)
  end.

(** The commit of a transaction: its results, the outputs of its contracts when
    it succeeded, and the ledger session. *)
Definition finish_tx st (tx : TxPacket) (ok : bool) (t : tx_state) : LedgerState S * ledgerSession * slot :=
  let s := with_results (ts_outputs t) (ts_slot t) in
  let s := match ts_call t with
           | Some cs => if ok then with_temp (ToOutputs (call_Commit cs) ∪ TempOutputs s) s else s
           | None => s
           end in
  let '(ledgerIds, st, ses) := Done st (ts_ledger t) in
  (st, ses, with_output (tp_TxId tx) (mkTxOutput ok ledgerIds) s).

Definition only_deposits (tx : TxPacket) : bool :=
  match tp_Ops tx with
  | [] => false
  | ops => forallb (λ v, String.eqb (tx_Type v) "deposit") ops
  end.

Definition exec_tx st (ses : ledgerSession) (s : slot) (tx : TxPacket) : option (LedgerState S * ledgerSession * slot) :=
  if tp_Invalid tx then
    let s := if String.eqb (tp_Payer tx) "" then s else with_rc (tp_Payer tx) 50 s in
    Some (st, ses, recordTxFailure (tp_TxId tx) "transaction could not be decoded: unknown operation type or invalid payload"
                     (with_output (tp_TxId tx) (mkTxOutput false []) s))
  else if only_deposits tx then Some (st, ses, s)
  else
    '(ok, t) ← exec_ops st tx 0 (tp_Ops tx) (mkTxState ses None [] s);
    Some (finish_tx st tx ok t).

Fixpoint exec_txs st (ses : ledgerSession) (s : slot) (txs : list TxPacket) : option (LedgerState S * ledgerSession * slot) :=
  match txs with
  | [] => Some (st, ses, s)
  | tx :: txs =>
      '(st, ses, s) ← exec_tx st ses s tx;
      exec_txs st ses s txs
  end.

Definition set_db (d : S) (height : Z) st : LedgerState S :=
  mkLedgerState (ls_Oplog st) (VirtualLedger st) (GatewayBalances st) height d (ls_GetBalanceRecord st).

(** The batch of a slot.  [lastBlock] is the end of the last block ([None] when
    there is none or it cannot be read).  The first slot of the delegated era
    seeds the delegation edges before any transaction. *)
Definition ExecuteBatch (range_pairs : gmap string stakePair → list (string * stakePair)) (lastBlock : option Z)
    (SlotHeight : Z) (TxBatch : list TxPacket) st (s : slot) : option (LedgerState S * slot) :=
  let lastBlockBh := default 0 lastBlock in
  let db := if from_option DelegatedStakeActiveForElection false (se_election se SlotHeight)
            then (MigrateDelegationEdgesOnce range_pairs lastBlockBh (ls_LedgerDb st)).1 else ls_LedgerDb st in
  '(st, _, s) ← exec_txs (set_db db lastBlockBh st) NewSession s TxBatch;
  Some (st, s).
End batch.

(** ** Specification *)

(** The ledger session between two transactions. *)
Definition idle (ses : ledgerSession) : Prop := oplog ses = [] ∧ ledgerOps ses = [].

(** The output a contract starts its next call from. *)
Definition output_of `{StateSource} (s : slot) (contractId : string) : TempOutput :=
  default (stored_output contractId) (TempOutputs s !! contractId).

Definition same_outputs `{StateSource} (s s' : slot) : Prop := ∀ k, output_of s' k = output_of s k.

#[export] Instance same_outputs_preorder `{StateSource} : PreOrder same_outputs.
Proof. split; [by intros s k|]. intros s1 s2 s3 H1 H2 k. by rewrite H2, H1. Qed.

(** The operations of a list have been charged: each but the deposits to its
    payer, with at least the smallest fee. *)
Definition charged (ops : list VSCTransaction) (s s' : slot) : Prop :=
  ∃ cs, RcMap s' = foldl map_add (RcMap s) cs ∧
    Forall2 (λ v c, op_payer (tx_TxSelf v) = Some c.1 ∧ 50 <= c.2) (filter (λ v, tx_Type v ≠ "deposit") ops) cs.

(** A transaction that succeeds has been charged for all its operations; one that
    fails for those up to the one that failed, or up to the first one that nobody
    pays for. *)
Definition tx_charged (ops : list VSCTransaction) (ok : bool) (s s' : slot) : Prop :=
  if ok then charged ops s s'
  else ∃ done v rest, ops = done ++ v :: rest ∧ tx_Type v ≠ "deposit" ∧
    match op_payer (tx_TxSelf v) with Some _ => charged (done ++ [v]) s s' | None => charged done s s' end.

Lemma charged_app l1 l2 s1 s2 s3 : charged l1 s1 s2 → charged l2 s2 s3 → charged (l1 ++ l2) s1 s3.
Proof.
  intros (c1 & H1 & F1) (c2 & H2 & F2). exists (c1 ++ c2). rewrite foldl_app, H2, H1, filter_app. split; [done|]. by apply Forall2_app.
Qed.

Lemma charged_nil s s' : RcMap s' = RcMap s → charged [] s s'.
Proof. intros Hr. exists []. split; [done|constructor]. Qed.

(** ** Lemmas: one operation *)

Section lemmas.
Context {S : Type} `{LedgerDb S} `{StateSource} (host : Host) (machine : Machine) (se : Engine).
Implicit Types st : LedgerState S.

Lemma last_known_stored s k : TempOutputs s !! k = None → last_known k s = stored_output k.
Proof. intros Hk. unfold last_known, stored_output. rewrite Hk. by destruct (last_output k) as [[cid meta]|]. Qed.

Lemma same_outputs_temp (s s' : slot) : TempOutputs s' = TempOutputs s → same_outputs s s'.
Proof. intros Ht k. unfold output_of. by rewrite Ht. Qed.

Lemma with_first_fields h s : TempOutputs (with_first h s) = TempOutputs s ∧ RcMap (with_first h s) = RcMap s.
Proof. unfold with_first. by destruct (_ =? _). Qed.

Lemma after_call_fields id txId out result t :
  (TempOutputs (ts_slot t) !! id = None → out = stored_output id) →
  let t' := after_call id txId out result t in
  ts_ledger t' = ts_ledger t ∧ same_outputs (ts_slot t) (ts_slot t') ∧ RcMap (ts_slot t') = RcMap (ts_slot t).
Proof.
  intros Hout. unfold after_call. destruct (tr_Success result); [by destruct (call_PopLogs _)|]. cbn [ts_ledger ts_slot].
  split; [done|]. destruct (bool_decide_reflect (is_Some (TempOutputs (ts_slot t) !! id))) as [|Hn]; [done|]. split; [|done].
  apply eq_None_not_Some in Hn. intros k. unfold output_of. cbn. destruct (decide (k = id)) as [->|Hne].
  - rewrite lookup_insert_eq, Hn. cbn. by rewrite Hout.
  - by rewrite lookup_insert_ne.
Qed.

(** Follow a handler to each of its results. *)
Ltac fee :=
  cbv zeta; cbn [mbind option_bind from_option fst snd]; repeat first [by intros [= <-] | match goal with |- context [match ?e with _ => _ end] =>
    lazymatch e with context [match _ with _ => _ end] => fail | _ => destruct e; cbn [mbind option_bind from_option fst snd] end end].

(** Every handler charges at least the smallest fee. *)
Lemma ExecuteTx_fee st v payer s r :
  tx_Type v ≠ "deposit" → (ExecuteTx st host machine se v payer s).1 = Returned r → 50 <= tr_RcUsed r.
Proof.
  intros Hd. destruct v as [t|t|t|t|t|t|t|t]; cbn [ExecuteTx]; unfold with_ledger; try done.
  - unfold call_ExecuteTx. destruct (negb _); [by intros [= <-]|]. destruct (_ <? _)%nat; [by intros [= <-]|].
    destruct (GetContractInfo _ _ _) as [info|]; [|by intros [= <-]]. destruct (fetch_code _ _) as [msg|msg|code]; [by intros [= <-]..|].
    destruct (CanConsume _ _ _ _ _ _ _ _ _) as [[[b avail] n] ses]. destruct (negb b); [by intros [= <-]|].
    destruct (call_caller t) as [caller|]; [|by intros [= <-]]. unfold run_call. cbv zeta. destruct (negb _); [by intros [= <-]|].
    destruct (Execute _ _ _ _ _ _ _ _ _ _) as [[res| |] x]; intros [= <-]. unfold call_TxResult, rc_charge. destruct (wr_Error res); cbn; lia.
  - unfold transfer_ExecuteTx. fee.
  - unfold withdraw_ExecuteTx. fee. destruct (Withdraw _ _ _) as [[? ?]|]; by intros [= <-].
  - unfold stake_ExecuteTx, hbd_ExecuteTx. fee.
  - unfold unstake_ExecuteTx, hbd_ExecuteTx. fee.
  - unfold consensus_stake_ExecuteTx, consensus_checks. destruct (ParseAssetAmount _ _); fee.
  - unfold consensus_unstake_ExecuteTx, consensus_checks. destruct (ParseAssetAmount _ _); fee.
Qed.

Lemma executeTxSafely_fee st v payer s r s' :
  tx_Type v ≠ "deposit" → executeTxSafely st host machine se v payer s = Some (r, s') → 50 <= tr_RcUsed r.
Proof.
  unfold executeTxSafely. intros Hd. pose proof (ExecuteTx_fee st v payer s) as Hf.
  destruct (ExecuteTx _ _ _ _ v payer s) as [[r0| |] s0]; intros [= <- _]; [by apply Hf|done].
Qed.

(** What an operation does to the state of its transaction. *)
Lemma exec_op_spec st tx idx v t go t' :
  exec_op host machine se st tx idx v t = Some (go, t') →
  (if go then adds_events (op_event_ok v) (ts_ledger t) (ts_ledger t') else idle (ts_ledger t')) ∧
  same_outputs (ts_slot t) (ts_slot t') ∧ tx_charged [v] go (ts_slot t) (ts_slot t').
Proof.
  unfold exec_op. cbv zeta. destruct (String.eqb (tx_Type v) "deposit") eqn:Hd.
  { apply String.eqb_eq in Hd. intros [= <- <-]. split_and!; [done|done|]. exists []. split; [done|].
    rewrite filter_cons_False by naive_solver. constructor. }
  apply String.eqb_neq in Hd.
  set (t1 := mkTxState (ts_ledger t) _ (ts_outputs t) _). pose proof (with_first_fields (self_BlockHeight (tx_TxSelf v)) (ts_slot t)) as [Htemp Hrc].
  assert (same_outputs (ts_slot t) (ts_slot t1)) as Hs1 by by apply same_outputs_temp.
  destruct (op_payer (tx_TxSelf v)) as [payer|] eqn:Hp.
  2:{ intros [= <- <-]. split_and!; [done|done|]. exists [], v, []. rewrite Hp. split_and!; [done|done|]. by apply charged_nil. }
  destruct (executeTxSafely _ _ _ _ _ _ _) as [[result [ses cs]]|] eqn:He; [|done]. cbn [mbind option_bind].
  set (t2 := mkTxState ses _ (ts_outputs t1) _). set (t3 := match v with TxVscCallContract _ => _ | _ => t2 end).
  pose proof (executeTxSafely_adds _ _ _ _ _ _ _ _ _ He) as Hadds. cbn [fst] in Hadds.
  pose proof (executeTxSafely_fee _ _ _ _ _ _ Hd He) as Hfee.
  assert (ts_ledger t3 = ses ∧ same_outputs (ts_slot t2) (ts_slot t3) ∧ RcMap (ts_slot t3) = RcMap (ts_slot t2)) as (Hl & Ho & Hr).
  { unfold t3. destruct v; try done. apply after_call_fields. intros Hn. apply last_known_stored. exact Hn. }
  assert (same_outputs (ts_slot t) (ts_slot t3)) as Hsame.
  { etrans; [exact Hs1|]. etrans; [|exact Ho]. by apply same_outputs_temp. }
  assert (∀ s, RcMap s = RcMap (ts_slot t3) → charged [v] (ts_slot t) s) as Hch.
  { intros s Hs. exists [(payer, tr_RcUsed result)]. rewrite Hs, Hr. split; [cbn; by rewrite Hrc|].
    rewrite filter_cons_True by done. constructor; [done|constructor]. }
  destruct (tr_Success result); intros [= <- <-].
  - rewrite Hl. split_and!; [done..|by apply Hch].
  - split; [done|]. split; [destruct (String.eqb (tr_Ret result) ""); [done|]; etrans; [exact Hsame|]; by apply same_outputs_temp|].
    exists [], v, []. rewrite Hp. split_and!; [done|done|]. apply Hch. by destruct (String.eqb (tr_Ret result) "").
Qed.

(** An event of a transaction is authorised by one of its operations. *)
Definition tx_event_ok (ops : list VSCTransaction) (e : OpLogEvent) : Prop := ∃ v, v ∈ ops ∧ op_event_ok v e.

Lemma tx_charged_cons v ops ok s1 s2 s3 : tx_charged [v] true s1 s2 → tx_charged ops ok s2 s3 → tx_charged (v :: ops) ok s1 s3.
Proof.
  intros H1. destruct ok; cbn [tx_charged]; [apply (charged_app [v]), H1|]. intros (done & v' & rest & -> & Hd & Hc).
  exists (v :: done), v', rest. split; [done|]. split; [done|]. destruct (op_payer _); by apply (charged_app [v] _ _ _ _ H1).
Qed.

Lemma tx_charged_stop v ops s1 s2 : tx_charged [v] false s1 s2 → tx_charged (v :: ops) false s1 s2.
Proof.
  intros (done & v' & rest & Heq & Hd & Hc). destruct done as [|? [|]]; simplify_eq/=. by exists [], v', ops.
Qed.

Lemma exec_ops_spec st tx ops idx t ok t' :
  exec_ops host machine se st tx idx ops t = Some (ok, t') →
  (if ok then adds_events (tx_event_ok ops) (ts_ledger t) (ts_ledger t') else idle (ts_ledger t')) ∧
  same_outputs (ts_slot t) (ts_slot t') ∧ tx_charged ops ok (ts_slot t) (ts_slot t').
Proof.
  revert idx t. induction ops as [|v ops IH]; intros idx t; cbn [exec_ops].
  { intros [= <- <-]. split_and!; [done|done|by apply charged_nil]. }
  destruct (exec_op _ _ _ _ _ _ _ _) as [[go t1]|] eqn:Hop; [|done]. cbn [mbind option_bind].
  apply exec_op_spec in Hop as (Hl & Ho & Hc). destruct go.
  - intros (Hl' & Ho' & Hc')%IH. split_and!; [|by etrans|by eapply tx_charged_cons]. destruct ok; [|done]. etrans.
    + eapply adds_events_impl; [|exact Hl]. intros e He. exists v. split; [by left|done].
    + eapply adds_events_impl; [|exact Hl']. intros e (v' & Hv' & He). exists v'. split; [by right|done].
  - intros [= <- <-]. split_and!; [done..|]. by apply tx_charged_stop.
Qed.

Lemma finish_tx_spec st tx ok t st' ses' s' :
  finish_tx st tx ok t = (st', ses', s') →
  ls_Oplog st' = ls_Oplog st ++ oplog (ts_ledger t) ∧ (idle (ts_ledger t) → st' = st) ∧ idle ses' ∧
  TxOutputs s' = <[tp_TxId tx := mkTxOutput ok (op_Id <$> oplog (ts_ledger t))]> (TxOutputs (ts_slot t)) ∧
  RcMap s' = RcMap (ts_slot t) ∧ (ok = false → same_outputs (ts_slot t) s').
Proof.
  unfold finish_tx, Done. cbv zeta. intros [= <- <- <-].
  assert (∀ l acc, foldl (λ ids v, ids ++ [op_Id v]) acc l = acc ++ (op_Id <$> l)) as Hids.
  { induction l as [|e l IH]; intros acc; cbn; [by rewrite app_nil_r|]. by rewrite IH, <- app_assoc. }
  rewrite Hids. split_and!; [done| |done| | |].
  - intros [Ho Hlo]. rewrite Ho, Hlo. cbn. unfold set_virtual. rewrite app_nil_r. by destruct st.
  - by destruct (ts_call t), ok.
  - by destruct (ts_call t), ok.
  - intros ->. apply same_outputs_temp. by destruct (ts_call t).
Qed.

(** ** Lemmas: transactions *)

Lemma after_call_TxOutputs id txId out result t : TxOutputs (ts_slot (after_call id txId out result t)) = TxOutputs (ts_slot t).
Proof.
  unfold after_call. destruct (tr_Success result); [by destruct (call_PopLogs _)|]. cbn [ts_slot]. by destruct (bool_decide _).
Qed.

(** The outcome of a transaction is recorded at its end only. *)
Lemma exec_op_TxOutputs st tx idx v t go t' :
  exec_op host machine se st tx idx v t = Some (go, t') → TxOutputs (ts_slot t') = TxOutputs (ts_slot t).
Proof.
  unfold exec_op. cbv zeta. destruct (String.eqb _ _); [by intros [= <- <-]|].
  assert (∀ h s, TxOutputs (with_first h s) = TxOutputs s) as Hf by (intros h s; unfold with_first; by destruct (_ =? _)).
  destruct (op_payer _) as [payer|]; [|intros [= <- <-]; cbn; apply Hf].
  destruct (executeTxSafely _ _ _ _ _ _ _) as [[result [ses cs]]|]; [|done]. cbn [mbind option_bind].
  set (t2 := mkTxState ses _ _ _). set (t3 := match v with TxVscCallContract _ => _ | _ => t2 end).
  assert (TxOutputs (ts_slot t3) = TxOutputs (ts_slot t)) as H3.
  { transitivity (TxOutputs (ts_slot t2)); [|apply Hf]. unfold t3. destruct v; try done. apply after_call_TxOutputs. }
  destruct (tr_Success result); intros [= <- <-]; [exact H3|].
  rewrite <- H3. by destruct (String.eqb (tr_Ret result) "").
Qed.

Lemma exec_ops_TxOutputs st tx ops idx t ok t' :
  exec_ops host machine se st tx idx ops t = Some (ok, t') → TxOutputs (ts_slot t') = TxOutputs (ts_slot t).
Proof.
  revert idx t. induction ops as [|v ops IH]; intros idx t; cbn [exec_ops]; [by intros [= <- <-]|].
  destruct (exec_op _ _ _ _ _ _ _ _) as [[go t1]|] eqn:Hop; [|done]. cbn [mbind option_bind].
  apply exec_op_TxOutputs in Hop. rewrite <- Hop. destruct go; [apply IH|by intros [= <- <-]].
Qed.

(** The charge of a transaction that could not be decoded. *)
Definition invalid_charged (tx : TxPacket) (s s' : slot) : Prop :=
  RcMap s' = if String.eqb (tp_Payer tx) "" then RcMap s else map_add (RcMap s) (tp_Payer tx, 50).

Lemma charged_ext ops s s1 s2 : RcMap s2 = RcMap s1 → charged ops s s1 → charged ops s s2.
Proof. intros Hr (cs & Hc & Hf). exists cs. by rewrite Hr. Qed.

Lemma tx_charged_ext ops ok s s1 s2 : RcMap s2 = RcMap s1 → tx_charged ops ok s s1 → tx_charged ops ok s s2.
Proof.
  intros Hr. destruct ok; [by apply charged_ext|]. intros (d & v & rest & -> & Hd & Hc). exists d, v, rest. split_and!; [done..|].
  destruct (op_payer _); by eapply charged_ext.
Qed.

Lemma exec_tx_spec st ses s tx st' ses' s' :
  exec_tx host machine se st ses s tx = Some (st', ses', s') → idle ses → only_deposits tx = false →
  ∃ ok new, idle ses' ∧ ls_Oplog st' = ls_Oplog st ++ new ∧
    TxOutputs s' = <[tp_TxId tx := mkTxOutput ok (op_Id <$> new)]> (TxOutputs s) ∧
    (ok = true → tp_Invalid tx = false ∧ Forall (tx_event_ok (tp_Ops tx)) new) ∧
    (ok = false → st' = st ∧ new = [] ∧ same_outputs s s') ∧
    (if tp_Invalid tx then invalid_charged tx s s' else tx_charged (tp_Ops tx) ok s s').
Proof.
  intros Hx Hidle Hdep. unfold exec_tx in Hx. destruct (tp_Invalid tx).
  { injection Hx as <- <- <-. exists false, []. rewrite app_nil_r. unfold invalid_charged. 
    destruct (String.eqb (tp_Payer tx) ""); (split_and!; [done|done|done|done| |done]); intros _; (split_and!; [done|done|by apply same_outputs_temp]). }
  rewrite Hdep in Hx. destruct (exec_ops _ _ _ _ _ _ _ _) as [[ok t]|] eqn:Ho; [|done].
  pose proof (exec_ops_TxOutputs _ _ _ _ _ _ _ Ho) as Hto. apply exec_ops_spec in Ho as (Hl & Hs & Hc). cbn [ts_ledger ts_slot] in *.
  cbn [mbind option_bind] in Hx. assert (finish_tx st tx ok t = (st', ses', s')) as Hfin by congruence. clear Hx.
  apply finish_tx_spec in Hfin as (Hlog & Hback & Hid & Hout & Hrc & Hsame). exists ok, (oplog (ts_ledger t)).
  rewrite Hto in Hout. split_and!; [exact Hid|exact Hlog|exact Hout| | |by eapply tx_charged_ext].
  - intros ->. split; [done|]. destruct Hl as [_ (new & Hnew & Hf)]. rewrite Hnew, (proj1 Hidle). done.
  - intros ->. split_and!; [by apply Hback|apply Hl|]. etrans; [exact Hs|by apply Hsame].
Qed.

Lemma only_deposits_skips st ses s tx : tp_Invalid tx = false → only_deposits tx = true → exec_tx host machine se st ses s tx = Some (st, ses, s).
Proof. unfold exec_tx. by intros -> ->. Qed.
End lemmas.

(** ** Properties *)

(** The outcome of a transaction in a batch: whether it succeeded and the events
    it left in the oplog of the slot. *)
Definition outcome_ok (tx : TxPacket) (out : bool * list OpLogEvent) : Prop :=
  if out.1 then tp_Invalid tx = false ∧ Forall (tx_event_ok (tp_Ops tx)) out.2 else out.2 = [].

(** The transactions that are executed and reported. *)
Definition reported (tx : TxPacket) : Prop := tp_Invalid tx = true ∨ only_deposits tx = false.
#[export] Instance reported_dec tx : Decision (reported tx).
Proof. apply _. Defined.

Definition report (m : gmap string TxOutput) (o : TxPacket * (bool * list OpLogEvent)) : gmap string TxOutput :=
  <[tp_TxId o.1 := mkTxOutput o.2.1 (op_Id <$> o.2.2)]> m.

Definition calls (tx : TxPacket) : Prop := Exists (λ v, tx_Type v = "call") (tp_Ops tx).

Section properties.
Context {S : Type} `{LedgerDb S} `{StateSource} (host : Host) (machine : Machine) (se : Engine).
Implicit Types st : LedgerState S.

Lemma exec_op_no_call st tx idx v t go t' :
  exec_op host machine se st tx idx v t = Some (go, t') → tx_Type v ≠ "call" → ts_call t = None → ts_call t' = None.
Proof.
  intros Hop Hc Ht. revert Hop. unfold exec_op. cbv zeta. apply String.eqb_neq in Hc. rewrite Hc, Ht.
  destruct (String.eqb _ "deposit"); [by intros [= <- <-]|]. destruct (op_payer _) as [payer|]; [|by intros [= <- <-]].
  destruct (executeTxSafely _ _ _ _ _ _ _) as [[result [ses cs]]|]; [|done]. cbn [mbind option_bind fmap option_fmap option_map ts_call].
  destruct v; [done|..]; destruct (tr_Success result); by intros [= <- <-].
Qed.

Lemma exec_ops_no_call st tx ops idx t ok t' :
  exec_ops host machine se st tx idx ops t = Some (ok, t') → Forall (λ v, tx_Type v ≠ "call") ops → ts_call t = None → ts_call t' = None.
Proof.
  revert idx t. induction ops as [|v ops IH]; intros idx t; cbn [exec_ops]; [by intros [= <- <-]|].
  destruct (exec_op _ _ _ _ _ _ _ _) as [[go t1]|] eqn:Hop; [|done]. cbn [mbind option_bind].
  intros Hx [Hv Hops]%Forall_cons Ht. eapply exec_op_no_call in Hop; [|done..]. destruct go; [by eapply IH|by simplify_eq].
Qed.

(** Contracts change by transactions that call them only. *)
Lemma exec_tx_no_call st ses s tx st' ses' s' :
  exec_tx host machine se st ses s tx = Some (st', ses', s') → ¬ calls tx → same_outputs s s'.
Proof.
  intros Hx Hc. unfold exec_tx in Hx. destruct (tp_Invalid tx).
  { injection Hx as <- <- <-. apply same_outputs_temp. by destruct (String.eqb _ _). }
  destruct (only_deposits tx); [by injection Hx as <- <- <-|].
  destruct (exec_ops _ _ _ _ _ _ _ _) as [[ok t]|] eqn:Ho; [|done]. cbn [mbind option_bind] in Hx.
  assert (finish_tx st tx ok t = (st', ses', s')) as Hfin by congruence. clear Hx.
  pose proof (exec_ops_no_call _ _ _ _ _ _ _ Ho) as Hn. apply exec_ops_spec in Ho as (_ & Hs & _).
  etrans; [exact Hs|]. revert Hfin. unfold finish_tx, Done. rewrite Hn; [|by apply not_Exists_Forall; [apply _|]|done].
  intros [= <- <- <-]. by apply same_outputs_temp.
Qed.

Lemma exec_txs_spec txs st ses s st' ses' s' :
  exec_txs host machine se st ses s txs = Some (st', ses', s') → idle ses →
  ∃ outs, Forall2 outcome_ok (filter reported txs) outs ∧
    ls_Oplog st' = ls_Oplog st ++ concat outs.*2 ∧
    TxOutputs s' = foldl report (TxOutputs s) (zip (filter reported txs) outs) ∧
    ((∀ tx o, (tx, o) ∈ zip (filter reported txs) outs → o.1 = true → ¬ calls tx) → same_outputs s s').
Proof.
  revert st ses s. induction txs as [|tx txs IH]; intros st ses s; cbn [exec_txs].
  { intros [= <- <- <-] _. exists []. split_and!; [constructor|by rewrite app_nil_r|done|done]. }
  destruct (exec_tx _ _ _ _ _ _ _) as [[[st1 ses1] s1]|] eqn:Htx; [|done]. cbn [mbind option_bind]. intros Hx Hidle.
  destruct (decide (reported tx)) as [Hr|Hr].
  - rewrite filter_cons_True by done.
    assert (∃ ok new, idle ses1 ∧ ls_Oplog st1 = ls_Oplog st ++ new ∧ outcome_ok tx (ok, new) ∧
      TxOutputs s1 = report (TxOutputs s) (tx, (ok, new)) ∧ (ok = false ∨ ¬ calls tx → same_outputs s s1)) as (ok & new & Hi & Hl & Hok & Ho & Hs).
    { pose proof (exec_tx_no_call _ _ _ _ _ _ _ Htx) as Hnc. destruct (only_deposits tx) eqn:Hd.
      - destruct Hr as [Hr|]; [|congruence]. unfold exec_tx in Htx. rewrite Hr in Htx. injection Htx as <- <- <-. exists false, [].
        rewrite app_nil_r. split_and!; [done|done|done|by destruct (String.eqb _ _)|]. intros _. apply same_outputs_temp. by destruct (String.eqb _ _).
      - apply exec_tx_spec in Htx as (ok & new & Hi & Hl & Ho & Hok & Hfail & _); [|done..]. exists ok, new.
        split_and!; [done|done| |done|]; unfold outcome_ok; cbn.
        + destruct ok; [by apply Hok|]. by apply Hfail.
        + intros [->|?]; [by apply Hfail|by apply Hnc]. }
    apply IH in Hx as (outs & Hf & Hl' & Ho' & Hs'); [|done]. exists ((ok, new) :: outs). split_and!.
    + by constructor.
    + rewrite Hl', Hl, <- app_assoc. done.
    + rewrite Ho', Ho. done.
    + intros Hall. etrans; [apply Hs|apply Hs'].
      * destruct ok; [right|by left]. apply (Hall tx (true, new)); [by left|done].
      * intros tx' o Hin. apply (Hall tx' o). by right.
  - rewrite filter_cons_False by done. assert (tp_Invalid tx = false ∧ only_deposits tx = true) as [Hr1 Hr2].
    { unfold reported in Hr. destruct (tp_Invalid tx), (only_deposits tx); naive_solver. }
    rewrite only_deposits_skips in Htx by done. simplify_eq. by apply IH in Hx.
Qed.

(** ** Lemmas: solvency *)

(** A handler leaves the ledger session alone or runs one operation of it. *)
Definition ledger_step st (h : Z) (ses ses' : ledgerSession) : Prop :=
  ses' = ses ∨ ∃ op out, op_height op = h ∧ op_ok op ∧ run_op st op ses = Some out ∧ ses' = out.2.

(** The balances of a session are what its cache says and are solvent. *)
Definition ses_solvent st (h : Z) (ses : ledgerSession) : Prop :=
  coherent st h ses ∧ solvent (view st h (ledgerOps ses)).

Lemma ledger_step_solvent st h ses ses' : ledger_step st h ses ses' → ses_solvent st h ses → ses_solvent st h ses'.
Proof.
  intros [->|(op & out & <- & Hok & Hrun & ->)] [Hco Hs]; [done|]. pose proof (run_op_refines st op ses Hco) as Hr. rewrite Hrun in Hr.
  destruct (book_op op _) as [bout|] eqn:Hb; [|done]. destruct Hr as (_ & Hco' & Hv). split; [done|].
  apply (solvent_ext bout.2); [done|]. by eapply book_op_solvent.
Qed.

(** A transaction of the ledger: its operations are not calls, are anchored at
    one height, and a delegator has an account name. *)
Definition ledger_op (h : Z) (v : VSCTransaction) : Prop :=
  self_BlockHeight (tx_TxSelf v) = h ∧
  match v with
  | TxVscCallContract _ => False
  | TxConsensusStake t | TxConsensusUnstake t => edge_ok (tx_From t)
  | _ => True
  end.

Lemma ParseAssetAmount_max amount asset n : ParseAssetAmount amount asset = Some n → n <= MaxInt64.
Proof.
  unfold ParseAssetAmount. destruct (GetAssetPrecision asset) as [prec|]; [|done]. cbn [mbind option_bind].
  assert (∀ z, wrap64 z <= MaxInt64) as Hw by (intros z; apply (wrap64_range z)).
  destruct (Split _ _) as [|p [|f [|]]]; [done| | |done].
  - destruct (ParseInt p) as [m|]; [|done]. cbn [mbind option_bind]. destruct (_ && _); [done|]. intros [= <-]. apply Hw.
  - destruct (_ <? _)%nat; [done|]. destruct (if HasPrefix p "-" then _ else _) as [neg ip]. destruct (negb _); [done|].
    destruct (ParseInt _) as [m|] eqn:E; [|done]. cbn [mbind option_bind]. apply ParseInt_range in E. intros [= <-].
    destruct neg; [apply Hw|apply E].
Qed.

(** The refusals of a handler, up to the parsed amount. *)
Ltac refusals :=
  repeat match goal with |- ledger_step _ _ _ (if ?b then _ else _).2 => destruct b; [by left|] end;
  lazymatch goal with |- context [ParseAssetAmount ?a ?x] =>
    let E := fresh "Hn" in destruct (ParseAssetAmount a x) as [n|] eqn:E; [apply ParseAssetAmount_max in E|by left] end;
  repeat match goal with |- ledger_step _ _ _ (if ?b then _ else _).2 => destruct b; [by left|] end; cbv zeta.

(** The step of an operation that is total. *)
Lemma step_total st op ses ses' :
  op_ok op → (snd <$> run_op st op ses) = Some ses' → ledger_step st (op_height op) ses ses'.
Proof. intros Hok ([r s] & Hrun & ->)%fmap_Some. right. by exists op, (r, s). Qed.

Lemma transfer_step st t ses : ledger_step st (self_BlockHeight (tx_Self t)) ses (transfer_ExecuteTx st se t ses).2.
Proof.
  unfold transfer_ExecuteTx. refusals. set (e := mkOpLogEvent _ _ _ _ _ _ _ _ _ _ _).
  apply (step_total st (OpTransfer e [])); [by split|]. cbn. by destruct (ExecuteTransfer _ _ _ _).
Qed.

Lemma withdraw_step st t ses :
  ∃ r ses', withdraw_ExecuteTx st se t ses = Some (r, ses') ∧ ledger_step st (self_BlockHeight (tx_Self t)) ses ses'.
Proof.
  destruct (withdraw_adds st se t ses) as (r & ses' & Hw & _). exists r, ses'. split; [done|]. revert Hw. unfold withdraw_ExecuteTx.
  destruct (wrong_net se t); [intros [= _ <-]; by left|]. destruct (String.eqb _ _); [intros [= _ <-]; by left|].
  destruct (ParseAssetAmount _ _) as [n|] eqn:Hn; [apply ParseAssetAmount_max in Hn|intros [= _ <-]; by left].
  destruct (_ || _); [intros [= _ <-]; by left|]. cbv zeta. set (w := mkWithdrawParams _ _ _ _ _ _ _ _ _).
  destruct (Withdraw st w ses) as [[r0 ses0]|] eqn:E; [|done]. intros [= _ <-].
  apply (step_total st (OpWithdraw w)); [done|]. cbn. by rewrite E.
Qed.

Lemma stake_step st t ses : ledger_step st (self_BlockHeight (tx_Self t)) ses (stake_ExecuteTx st se t ses).2.
Proof.
  unfold stake_ExecuteTx, hbd_ExecuteTx. refusals. apply (step_total st (OpStake (hbd_op "" t n) [])); [by split|].
  cbn. by destruct (Stake _ _ _ _).
Qed.

Lemma unstake_step st t ses : ledger_step st (self_BlockHeight (tx_Self t)) ses (unstake_ExecuteTx st se t ses).2.
Proof.
  unfold unstake_ExecuteTx, hbd_ExecuteTx. refusals. apply (step_total st (OpUnstake (hbd_op "unstake" t n))); [done|].
  cbn. by destruct (Unstake _ _ _).
Qed.

Lemma consensus_checks_max t n : consensus_checks se t = inr n → n <= MaxInt64.
Proof.
  unfold consensus_checks. destruct (ParseAssetAmount _ _) as [m|] eqn:E; cbn [from_option];
    repeat match goal with |- (if ?b then _ else _) = _ → _ => destruct b; [done|] end; [|done].
  intros [= <-]. by eapply ParseAssetAmount_max.
Qed.

Lemma consensus_stake_step st t ses :
  edge_ok (tx_From t) → ledger_step st (self_BlockHeight (tx_Self t)) ses (consensus_stake_ExecuteTx st se t ses).2.
Proof.
  intros He. unfold consensus_stake_ExecuteTx. destruct (consensus_checks se t) as [r|n] eqn:E; [by left|]. apply consensus_checks_max in E.
  cbv zeta. destruct (_ && _); [by left|]. set (p := LedgerTypes.mkConsensusParams _ _ _ _ _ _ _ _).
  apply (step_total st (OpConsensusStake p)); [by split|]. cbn. by destruct (ConsensusStake _ _ _).
Qed.

Lemma consensus_unstake_step st t ses :
  edge_ok (tx_From t) → ledger_step st (self_BlockHeight (tx_Self t)) ses (consensus_unstake_ExecuteTx st se t ses).2.
Proof.
  intros He. unfold consensus_unstake_ExecuteTx. destruct (consensus_checks se t) as [r|n] eqn:E; [by left|]. apply consensus_checks_max in E.
  destruct (unstake_locks se t) as [msg|el]; [by left|]. cbv zeta. set (p := LedgerTypes.mkConsensusParams _ _ _ _ _ _ _ _).
  apply (step_total st (OpConsensusUnstake p)); [by split|]. cbn. by destruct (ConsensusUnstake _ _ _).
Qed.

Lemma executeTxSafely_step st h v payer s :
  ledger_op h v → ∃ r s', executeTxSafely st host machine se v payer s = Some (r, s') ∧ ledger_step st h s.1 s'.1.
Proof.
  intros [<- Hv]. destruct v as [t|t|t|t|t|t|t|t]; try done; unfold executeTxSafely; cbn [ExecuteTx tx_TxSelf] in *; unfold with_ledger.
  - do 2 eexists. split; [done|]. by left.
  - pose proof (transfer_step st t s.1) as Hs. destruct (transfer_ExecuteTx _ _ _ _). eauto.
  - destruct (withdraw_step st t s.1) as (r & ses' & -> & Hs). eauto.
  - pose proof (stake_step st t s.1) as Hs. destruct (stake_ExecuteTx _ _ _ _). eauto.
  - pose proof (unstake_step st t s.1) as Hs. destruct (unstake_ExecuteTx _ _ _ _). eauto.
  - pose proof (consensus_stake_step st t s.1 Hv) as Hs. destruct (consensus_stake_ExecuteTx _ _ _ _). eauto.
  - pose proof (consensus_unstake_step st t s.1 Hv) as Hs. destruct (consensus_unstake_ExecuteTx _ _ _ _). eauto.
Qed.

Lemma coherent_revert st h ses : coherent st h (Revert ses).
Proof. apply coherent_empty. Qed.

Lemma exec_op_solvent st h tx idx v t :
  ledger_op h v → ses_solvent st h (ts_ledger t) → solvent (view st h []) →
  ∃ go t', exec_op host machine se st tx idx v t = Some (go, t') ∧ ses_solvent st h (ts_ledger t').
Proof.
  intros Hv Hs Hz. unfold exec_op. cbv zeta. destruct (String.eqb _ _); [by do 2 eexists|].
  destruct (op_payer _) as [payer|]; [|do 2 eexists; split; [done|]; split; [apply coherent_revert|done]].
  match goal with |- context [executeTxSafely st host machine se v payer ?s] =>
    destruct (executeTxSafely_step st h v payer s Hv) as (r & [ses cs] & -> & Hstep) end.
  cbn [mbind option_bind]. apply (ledger_step_solvent _ _ _ _ Hstep) in Hs. cbn [fst] in Hs.
  destruct v; [by destruct Hv|..]; (destruct (tr_Success r); do 2 eexists; (split; [done|]); [done|split; [apply coherent_revert|done]]).
Qed.

Lemma exec_ops_solvent st h tx ops idx t :
  Forall (ledger_op h) ops → ses_solvent st h (ts_ledger t) → solvent (view st h []) →
  ∃ ok t', exec_ops host machine se st tx idx ops t = Some (ok, t') ∧ ses_solvent st h (ts_ledger t').
Proof.
  intros Hops. revert idx t. induction Hops as [|v ops Hv _ IH]; intros idx t Hs Hz; cbn [exec_ops]; [by do 2 eexists|].
  destruct (exec_op_solvent st h tx idx v t Hv Hs Hz) as (go & t1 & -> & H1). cbn [mbind option_bind].
  destruct go; [by apply IH|by do 2 eexists].
Qed.

(** The ledger session as [ExecuteBatch] makes it and as [Done] leaves it. *)
Definition fresh_session (ses : ledgerSession) : Prop := idle ses ∧ balances ses = ∅.

Lemma fresh_solvent st h ses : fresh_session ses → solvent (λ a x, SnapshotForAccount st a h x) → ses_solvent st h ses ∧ solvent (view st h []).
Proof.
  intros [[Ho Hl] Hb] Hs. destruct ses as [o l b c n]. cbn in *. subst.
  assert (solvent (view st h [])) as Hv by (eapply solvent_ext; [|exact Hs]; intros; apply view_nil). split; [|done].
  split; [apply coherent_empty|done].
Qed.

(** ** Theorems *)

(** C22: a transaction of the ledger always runs to its end and keeps the ledger
    solvent, whether it succeeds or not: from balances that are not negative,
    whose totals fit an [int64] and whose delegation edges are covered, the
    balances after it are so too, and the session is ready for the next one. *)
Theorem ledger_tx_solvent st h ses s tx :
  Forall (ledger_op h) (tp_Ops tx) → fresh_session ses → solvent (λ a x, SnapshotForAccount st a h x) →
  ∃ st' ses' s', exec_tx host machine se st ses s tx = Some (st', ses', s') ∧
    solvent (λ a x, SnapshotForAccount st' a h x) ∧ fresh_session ses'.
Proof.
  intros Hops Hf Hsol. destruct (fresh_solvent st h ses Hf Hsol) as [Hs Hz]. unfold exec_tx. destruct (tp_Invalid tx); [by do 3 eexists|].
  destruct (only_deposits tx); [by do 3 eexists|].
  destruct (exec_ops_solvent st h tx (tp_Ops tx) 0 (mkTxState ses None [] s) Hops Hs Hz) as (ok & t & -> & _ & Hv). cbn [mbind option_bind].
  unfold finish_tx. pose proof (λ a x, Done_state st (ts_ledger t) a h x) as Hd. unfold Done in *. do 3 eexists. split; [reflexivity|].
  split; [|done]. eapply solvent_ext; [|exact Hv]. intros a x. apply Hd.
Qed.

(** C13: a transaction that is reported as failed leaves no trace but its charge: the
    ledger state is unchanged, every contract keeps the state it had, and the
    operations that ran, with the one that failed, are charged to their payers. *)
Theorem failed_tx_undone st ses s tx st' ses' s' out :
  idle ses → only_deposits tx = false →
  exec_tx host machine se st ses s tx = Some (st', ses', s') →
  TxOutputs s' !! tp_TxId tx = Some out → txo_Ok out = false →
  st' = st ∧ same_outputs s s' ∧ txo_LedgerIds out = [] ∧ idle ses' ∧
  if tp_Invalid tx then invalid_charged tx s s' else tx_charged (tp_Ops tx) false s s'.
Proof.
  intros Hi Hd Hx Hout Hok. destruct (exec_tx_spec _ _ _ _ _ _ _ _ _ _ Hx Hi Hd) as (ok & new & Hid & _ & Ho & _ & Hfail & Hch).
  rewrite Ho, lookup_insert_eq in Hout. injection Hout as <-. cbn in Hok. subst ok. destruct (Hfail eq_refl) as (-> & -> & Hs).
  split_and!; [done|done|done|done|]. exact Hch.
Qed.

(** C14: what a batch adds to the ledger was authorised.  The oplog of the slot grows
    by the events of the transactions that succeeded, in their order; each event
    takes a positive amount from an account that authorised an operation of its
    transaction, or belongs to a call and takes from a contract.  The reports of
    the transactions say which ones succeeded and list their events, and if no
    successful transaction has a call then no contract changes. *)
Theorem batch_authorised range_pairs lastBlock slotHeight txs st s st' s' :
  ExecuteBatch host machine se range_pairs lastBlock slotHeight txs st s = Some (st', s') →
  let done := filter reported txs in
  ∃ outs, Forall2 outcome_ok done outs ∧
    ls_Oplog st' = ls_Oplog st ++ concat outs.*2 ∧
    TxOutputs s' = foldl report (TxOutputs s) (zip done outs) ∧
    ((∀ tx o, (tx, o) ∈ zip done outs → o.1 = true → ¬ calls tx) → same_outputs s s').
Proof.
  unfold ExecuteBatch. cbv zeta. destruct (exec_txs _ _ _ _ _ _ _) as [[[st1 ses1] s1]|] eqn:Hx; [|done]. intros [= <- <-].
  by apply exec_txs_spec in Hx.
Qed.

(** C3: a signed transaction spends for its signers only.  When an offchain
    transaction is decoded from payloads without a member named like [Self], and
    is anchored without posting authorities, then whatever its operations are and
    whatever contracts they call, each event it adds to the ledger takes a
    positive amount from one of the accounts in its signed header, or from a
    contract. *)
Theorem signed_tx_takes_own raw version off ops payer st ses s st' ses' s' :
  ToTransaction raw version off = Some ops →
  Forall (λ op, from_option (lacks "Self") True (vop_Payload op)) (off_Tx off) →
  self_RequiredPostingAuths (off_Self off) = [] → idle ses →
  exec_tx host machine se st ses s (mkTxPacket (off_TxId off) ops false payer) = Some (st', ses', s') →
  ∃ new, ls_Oplog st' = ls_Oplog st ++ new ∧
    Forall (λ e, 0 < op_Amount e ∧ (op_From e ∈ vh_RequiredAuths (off_Headers off) ∨ is_contract (op_From e) = true)) new.
Proof.
  intros Hops Hlacks Hpost Hidle Hx. pose proof (ToTransaction_auths _ _ _ _ Hops Hlacks) as Hauths. rewrite Forall_forall in Hauths.
  destruct (only_deposits (mkTxPacket (off_TxId off) ops false payer)) eqn:Hd.
  { rewrite only_deposits_skips in Hx by done. simplify_eq. exists []. by rewrite app_nil_r. }
  destruct (exec_tx_spec _ _ _ _ _ _ _ _ _ _ Hx Hidle Hd) as (ok & new & _ & Hl & _ & Hok & Hfail & _). exists new. split; [done|].
  destruct ok; [|by destruct (Hfail eq_refl) as (_ & -> & _)]. destruct (Hok eq_refl) as [_ Hev].
  eapply Forall_impl; [exact Hev|]. intros e (v & Hv & Hp & He). destruct (Hauths v Hv) as [Ha Hpo]. split; [done|].
  rewrite Ha, Hpo, Hpost in He. destruct He as [?|(_ & [?|[?%not_elem_of_nil _]])]; [by left|by right|done].
Qed.
End properties.
