(* ===== verification/Proposals.v ===== *)
(** Block proposals on Hive: their decoding and verdict
    ([modules/state-processing/system_txs.go], [TxProposeBlock]), the handler of
    [vsc.produce_block] and the penalties for competing and invalid proposals
    ([state_engine.go]).

    The state is the three maps of the process the detectors use, which a restart
    loses, and the ledger.  The scheduled witness, the elections and the policy of
    the network are arguments; so are the parsing of CIDs and the CID of a header.

    The theorems: only a block that more than two thirds of the committee signed,
    posted by the scheduled witness in its window, is applied; the penalties of one
    incident never take more than the bond; a process that restarts within a slot
    knows the first proposal it had seen. *)
From Stdlib Require Import Ascii.
From S2P Require Import Prelude GoMaps GoSlices GoStrings Assets ConsensusVersion LedgerDb LedgerTypes SafetySlash SlashRestore Rewards GoJson.
From S2P Require Import Schedule BlsQuorum BlsCircuit TssKeys Transactions.

(** ** Proposals *)

Record UnsignedBlockHeader := mkUnsignedBlockHeader {
  ub_Type : string;
  ub_Version : string;
  ub_PrevBlock : option string;
  (** The range of Hive blocks: the end of the last block, and the slot. *)
  ub_Br : Z * Z;
  ub_MerkleRoot : option string;
  ub_Block : string;
}.

Record SignedBlockHeader := mkSignedBlockHeader { sb_header : UnsignedBlockHeader; sb_Signature : SerializedCircuit }.

Record TxProposeBlock := mkTxProposeBlock {
  pb_Self : TxSelf;
  pb_NetId : string;
  pb_SignedBlock : SignedBlockHeader;
  (** Filled in by the validation. *)
  pb_Signers : list string;
  pb_Epoch : Z;
  pb_SigningScore : Z;
  pb_SigningTotal : Z;
}.

Definition new_proposal (self : TxSelf) : TxProposeBlock :=
  mkTxProposeBlock self "" (mkSignedBlockHeader (mkUnsignedBlockHeader "" "" None (0, 0) None "") (mkSerializedCircuit "" "")) [] 0 0 0.

(** A [[2]int]: an element that is missing is zeroed, further ones are skipped. *)
Definition set_br : setter (Z * Z) := λ j old,
  match j with
  | JArr l =>
      let '(a, ok) := match l !! 0%nat with Some j => set_int j old.1 | None => (0, true) end in
      let '(b, ok') := match l !! 1%nat with Some j => set_int j old.2 | None => (0, true) end in
      ((a, b), ok && ok')
  | JNull => (old, true)
  | _ => (old, false)
  end.

Definition br_fields : fields UnsignedBlockHeader :=
  [("prevb", on_field ub_PrevBlock (λ x '(mkUnsignedBlockHeader t v _ b m k), mkUnsignedBlockHeader t v x b m k) set_string_ptr);
   ("br", on_field ub_Br (λ x '(mkUnsignedBlockHeader t v p _ m k), mkUnsignedBlockHeader t v p x m k) set_br)].

Definition circuit_fields : fields SerializedCircuit :=
  [("sig", on_field sc_Signature (λ x c, mkSerializedCircuit x (sc_BitVector c)) set_string);
   ("bv", on_field sc_BitVector (λ x c, mkSerializedCircuit (sc_Signature c) x) set_string)].

(** The fields of the embedded header are promoted. *)
Definition signed_block_fields : fields SignedBlockHeader :=
  [("__t", on_field (ub_Type ∘ sb_header) (λ x '(mkSignedBlockHeader (mkUnsignedBlockHeader _ v p b m k) g),
      mkSignedBlockHeader (mkUnsignedBlockHeader x v p b m k) g) set_string);
   ("__v", on_field (ub_Version ∘ sb_header) (λ x '(mkSignedBlockHeader (mkUnsignedBlockHeader t _ p b m k) g),
      mkSignedBlockHeader (mkUnsignedBlockHeader t x p b m k) g) set_string);
   ("headers", on_field sb_header (λ x b, mkSignedBlockHeader x (sb_Signature b)) (set_struct br_fields));
   ("merkle_root", on_field (ub_MerkleRoot ∘ sb_header) (λ x '(mkSignedBlockHeader (mkUnsignedBlockHeader t v p b _ k) g),
      mkSignedBlockHeader (mkUnsignedBlockHeader t v p b x k) g) set_string_ptr);
   ("block", on_field (ub_Block ∘ sb_header) (λ x '(mkSignedBlockHeader (mkUnsignedBlockHeader t v p b m _) g),
      mkSignedBlockHeader (mkUnsignedBlockHeader t v p b m x) g) set_string);
   ("signature", on_field sb_Signature (λ x b, mkSignedBlockHeader (sb_header b) x) (set_struct circuit_fields))].

(** [Self] has no tag that keeps it out of the payload. *)
Definition proposal_fields : fields TxProposeBlock :=
  [("Self", on_field pb_Self (λ x '(mkTxProposeBlock _ n b g e c t), mkTxProposeBlock x n b g e c t) (set_struct self_fields));
   ("net_id", on_field pb_NetId (λ x '(mkTxProposeBlock s _ b g e c t), mkTxProposeBlock s x b g e c t) set_string);
   ("signed_block", on_field pb_SignedBlock (λ x '(mkTxProposeBlock s n _ g e c t), mkTxProposeBlock s n x g e c t)
      (set_struct signed_block_fields))].

(** The handler does not look at the error. *)
Definition parse_proposal (self : TxSelf) (payload : option json) : TxProposeBlock :=
  from_option (λ j, (set_struct proposal_fields j (new_proposal self)).1) (new_proposal self) payload.

Definition proposed_block (t : TxProposeBlock) : string := ub_Block (sb_header (pb_SignedBlock t)).

(** *** The verdict *)

Inductive BlockValidationKind := BlockSkip | BlockValid | BlockInvalid | BlockStale.

Global Instance BlockValidationKind_eq_dec : EqDecision BlockValidationKind.
Proof. solve_decision. Defined.

Record VscHeader := mkVscHeader {
  vh_Type : string;
  vh_Version : string;
  vh_Br : Z * Z;
  vh_Prevb : option string;
  vh_MerkleRoot : option string;
  vh_Block : string;
}.

(** A CID in its normal form, [None] when the text is not one; the CID of a header,
    [None] on an error. *)
Class Cids := { cid_Parse : string → option string; header_cid : VscHeader → option string }.

Definition block_header (t : TxProposeBlock) (blockCid : string) : VscHeader :=
  let h := sb_header (pb_SignedBlock t) in
  mkVscHeader (ub_Type h) (ub_Version h) (ub_Br h) (ub_PrevBlock h) (ub_MerkleRoot h) blockCid.

(** The window of the slot is over; [uint64] of a negative end wraps. *)
Definition past_window (br1 height : Z) : bool := wrapu64 br1 +u64 SlotLength <=? height.

Definition seats_of (members : list ElectionMember) (dids : list string) : list string :=
  dids ≫= λ did, em_Account <$> filter (λ m, em_Key m = did) members.

Section verdict.
Context {sig : Type} `{BlsLib sig} `{Cids}.

(** [elecResult] is the answer for the height in [Self], [None] for an error. *)
Definition ValidateDetailed (elecResult : option ElectionResult) (t : TxProposeBlock) : BlockValidationKind * TxProposeBlock :=
  match elecResult with
  | None => (BlockSkip, t)
  | Some el =>
      match cid_Parse (proposed_block t) with
      | None => (BlockInvalid, t)
      | Some blockCid =>
          match header_cid (block_header t blockCid) with
          | None => (BlockSkip, t)
          | Some headerCid =>
              match DeserializeBlsCircuit (sb_Signature (pb_SignedBlock t)) (committee_keys el) headerCid with
              | None => (BlockInvalid, t)
              | Some circuit =>
                  if past_window (ub_Br (sb_header (pb_SignedBlock t))).2 (self_BlockHeight (pb_Self t)) then (BlockStale, t)
                  else
                    match circuit_Verify circuit with
                    | Some (true, included) =>
                        let '(score, total) := CalculateSigningScore (circuit_bit circuit) included (el_Members el)
                            (if bool_decide (el_Weights el = []) then None else Some (el_Weights el))
                            (BlsWeightDedupActive (ResultVersion el)) in
                        let t := mkTxProposeBlock (pb_Self t) (pb_NetId t) (pb_SignedBlock t)
                                   (pb_Signers t ++ seats_of (el_Members el) included) (el_Epoch el) score total in
                        if wrapu64 (total * 2) / 3 <? score then (BlockValid, t) else (BlockInvalid, t)
                    | _ => (BlockInvalid, t)
                    end
              end
          end
      end
  end.
End verdict.

(** ** Penalties *)

(** What a process remembers of misconduct: the first proposal of a slot and
    witness, the basis points taken for an incident, and when evidence was seen. *)
Record faults := mkFaults {
  seenProposalBySlotProposer : gmap string string;
  slashIncidentBpsBySlotAccount : gmap string Z;
  safetyEvidenceSeen : gmap string Z;
}.

Definition no_faults : faults := mkFaults ∅ ∅ ∅.

Definition slotProposerKey (slotHeight : Z) (account : string) : string := FormatUint slotHeight +:+ "|" +:+ normalizeHiveAccount account.

Definition recordFirstSeenProposal (slotHeight : Z) (account blockCID : string) (f : faults) : option string * faults :=
  let key := slotProposerKey slotHeight account in
  match seenProposalBySlotProposer f !! key with
  | Some prev => (Some prev, f)
  | None => (None, mkFaults (<[key := blockCID]> (seenProposalBySlotProposer f)) (slashIncidentBpsBySlotAccount f) (safetyEvidenceSeen f))
  end.

(** The height in front of the bar, 0 when there is none. *)
Definition slotHeightFromSlotKey (k : string) : Z :=
  match Split k "|"%char with
  | h :: _ :: _ => default 0 (ParseUint h)
  | _ => 0
  end.

Definition pruneSafetySlotMaps (finalizedSlotHeight : Z) (f : faults) : faults :=
  mkFaults (filter (λ kv, finalizedSlotHeight < slotHeightFromSlotKey kv.1) (seenProposalBySlotProposer f))
    (filter (λ kv, finalizedSlotHeight < slotHeightFromSlotKey kv.1) (slashIncidentBpsBySlotAccount f)) (safetyEvidenceSeen f).

Definition pruneSafetyEvidenceSeen (currentHeight : Z) (f : faults) : faults :=
  let keepWindow := 2 * MaxSafetySlashBurnDelayBlocks in
  if currentHeight <=? keepWindow then f
  else mkFaults (seenProposalBySlotProposer f) (slashIncidentBpsBySlotAccount f)
         (filter (λ kv, currentHeight - keepWindow <= kv.2) (safetyEvidenceSeen f)).

Definition evidenceKey (accountHive kind : string) : string := normalizeHiveAccount accountHive +:+ "|" +:+ kind.
Definition evidenceSeenKey (accountHive kind evidenceID : string) : string := evidenceKey accountHive kind +:+ "|" +:+ evidenceID.

Definition recordEvidenceAndShouldSlash (accountHive kind evidenceID : string) (blockHeight : Z) (f : faults) : bool * faults :=
  let acct := normalizeHiveAccount accountHive in
  let id := TrimSpace evidenceID in
  if String.eqb acct "" || String.eqb (TrimSpace kind) "" || String.eqb id "" then (false, f)
  else
    let seenKey := evidenceSeenKey acct kind id in
    if match safetyEvidenceSeen f !! seenKey with Some seenH => seenH <=? blockHeight | None => false end then (false, f)
    else (true, mkFaults (seenProposalBySlotProposer f) (slashIncidentBpsBySlotAccount f) (<[seenKey := blockHeight]> (safetyEvidenceSeen f))).

(** A window without an end has the end 0. *)
Definition SafetySlashActive (windows : list (Z * Z)) (blockHeight : Z) : bool :=
  existsb (λ w, (w.1 <=? blockHeight) && ((w.2 =? 0) || (blockHeight <? w.2))) windows.

Definition SafetySlashBurnDelay3dBlocks : Z := 3 * 28800.
Definition SafetySlashBurnDelay7dBlocks : Z := 7 * 28800.

(** [env] is the variable of the environment, looked at off mainnet only. *)
Definition safetySlashBurnDelayBlocks (mainnet : bool) (env : string) (active : Version) : Z :=
  let raw := TrimSpace env in
  let default_delay := if SafetySlashBurnDelay7dActive active then SafetySlashBurnDelay7dBlocks else SafetySlashBurnDelay3dBlocks in
  if negb mainnet && negb (String.eqb raw "") then from_option (λ parsed, Z.min parsed MaxSafetySlashBurnDelayBlocks) default_delay (ParseUint raw)
  else default_delay.

(** The policy of the network at a block: the windows in which bonds are slashed,
    the delay at a height, and the balance records. *)
Record policy := mkPolicy {
  po_windows : list (Z * Z);
  po_delay : Z → Z;
  po_getBal : string → Z → option BalanceRecord;
}.

Section slashing.
Context {S : Type} `{LedgerDb S} (po : policy).
Implicit Types (f : faults) (s : S).

(** What is taken for one more piece of evidence of an incident; [None] at the cap. *)
Definition incident_room (incidentKey : string) (rawBps : Z) f : option (Z * faults) :=
  if String.eqb incidentKey "" then Some (EffectiveCorrelatedBps [rawBps] CorrelatedSlashCapBps, f)
  else
    let already := zget (slashIncidentBpsBySlotAccount f) incidentKey in
    let room := CorrelatedSlashCapBps - already in
    if room <=? 0 then None
    else
      let bps := if rawBps <? room then rawBps else room in
      Some (bps, mkFaults (seenProposalBySlotProposer f) (<[incidentKey := already + bps]> (slashIncidentBpsBySlotAccount f)) (safetyEvidenceSeen f)).

(** What the ledger is asked to take, or the refusal. *)
Definition slash_request (accountHive kind evidenceID txID : string) (blockHeight : Z) (incidentKey : string) f :
    (LedgerResult + SafetySlashConsensusParams) * faults :=
  if negb (SafetySlashActive (po_windows po) blockHeight) then (inl (fail "safety slashing disabled"), f)
  else
    let '(first, f) := recordEvidenceAndShouldSlash accountHive kind evidenceID blockHeight f in
    if negb first then (inl (fail "duplicate evidence"), f)
    else
      let rawBps := SlashBpsForEvidenceKind kind in
      if rawBps <=? 0 then (inl (fail "unsupported evidence kind"), f)
      else
        match incident_room incidentKey rawBps f with
        | None => (inl (fail "incident already at correlated cap"), f)
        | Some (bps, f) =>
            if bps <=? 0 then (inl (fail "no headroom under correlated cap"), f)
            else (inr (mkSafetySlashConsensusParams accountHive bps txID blockHeight kind (po_delay po blockHeight)), f)
        end.

(** [None] when a retry of the ledger never ends. *)
Definition slashForEvidenceIfPolicyAllows (accountHive kind evidenceID txID : string) (blockHeight : Z) (incidentKey : string) f s :
    option (LedgerResult * faults * S) :=
  match slash_request accountHive kind evidenceID txID blockHeight incidentKey f with
  | (inl r, f) => Some (r, f, s)
  | (inr p, f) => '(r, s) ← SafetySlashConsensusBond (po_getBal po) p s; Some (r, f, s)
  end.
End slashing.

(** ** The handler *)

(** The witness of the slot in a schedule, the empty name when there is none. *)
Definition scheduledProducer (schedule : list WitnessSlot) (slotHeight : Z) : string := from_option ws_Account "" (find_slot slotHeight schedule).

Section handler.
Context {sig : Type} `{BlsLib sig} `{Cids} {S : Type} `{LedgerDb S} (po : policy).

(** [vsc.produce_block] at [self], signed by [auth]: the verdict with the block to
    apply, and what is remembered and taken.  [elections] answers for a height. *)
Definition produce_block (schedule : list WitnessSlot) (elections : Z → option ElectionResult) (self : TxSelf) (auth : string)
    (payload : option json) (f : faults) (s : S) : option (BlockValidationKind * TxProposeBlock * faults * S) :=
  let slotHeight := (CalculateSlotInfo (self_BlockHeight self)).1 in
  let parsedBlock := parse_proposal self payload in
  if negb (String.eqb auth (scheduledProducer schedule slotHeight)) then Some (BlockSkip, parsedBlock, f, s)
  else
    let slotKey := slotProposerKey slotHeight auth in
    let '(prev, f) := recordFirstSeenProposal slotHeight auth (proposed_block parsedBlock) f in
    '(f, s) ← match prev with
              | Some prevBlockRef =>
                  if negb (String.eqb prevBlockRef (proposed_block parsedBlock)) then
                    '(_, f, s) ← slashForEvidenceIfPolicyAllows po auth EvidenceVSCDoubleBlockSign
                        ("double-block|" +:+ slotKey +:+ "|" +:+ prevBlockRef +:+ "|" +:+ proposed_block parsedBlock) (self_TxId self)
                        (self_BlockHeight self) slotKey f s;
                    Some (f, s)
                  else Some (f, s)
              | None => Some (f, s)
              end;
    let '(kind, parsedBlock) := ValidateDetailed (elections (self_BlockHeight (pb_Self parsedBlock))) parsedBlock in
    '(f, s) ← match kind with
              | BlockInvalid =>
                  '(_, f, s) ← slashForEvidenceIfPolicyAllows po auth EvidenceVSCInvalidBlockProposal
                      ("invalid-block|" +:+ self_TxId self) (self_TxId self) (self_BlockHeight self) slotKey f s;
                  Some (f, s)
              | _ => Some (f, s)
              end;
    Some (kind, parsedBlock, f, s).
End handler.

(** *** After a restart *)

(** A [vsc.produce_block] of a stored Hive block: who signed it, and its payload. *)
Record stored_proposal := mkStoredProposal { st_auths : list string; st_payload : option json }.

Definition zero_self : TxSelf := mkTxSelf "" "" 0 0 0 "" [] [].

(** A payload that does not decode is skipped here. *)
Definition seedProposal (slotHeight : Z) (scheduledAccount : string) (f : faults) (op : stored_proposal) : faults :=
  match st_auths op with
  | [] => f
  | auth :: _ =>
      if negb (String.eqb auth scheduledAccount) then f
      else
        match st_payload op with
        | None => f
        | Some j =>
            match set_struct proposal_fields j (new_proposal zero_self) with
            | (parsedBlock, true) => (recordFirstSeenProposal slotHeight auth (proposed_block parsedBlock) f).2
            | (_, false) => f
            end
        end
  end.

(** [stored] gives the proposals of the stored blocks of a range, [None] on an error. *)
Definition rehydrateDoubleSignMap (schedule : list WitnessSlot) (stored : Z → Z → option (list stored_proposal)) (resumeHeight : Z) (f : faults) :
    faults :=
  if resumeHeight =? 0 then f
  else
    let slotStart := (CalculateSlotInfo resumeHeight).1 in
    if resumeHeight <=? slotStart then f
    else
      let scheduled := scheduledProducer schedule slotStart in
      if String.eqb scheduled "" then f
      else
        match stored slotStart (resumeHeight - 1) with
        | None => f
        | Some ops => foldl (seedProposal slotStart scheduled) f ops
        end.

(** ** Specification *)

(** The committee of an election with weights, under the rule that counts a key
    once. *)
Definition committee_ok (el : ElectionResult) : Prop :=
  el_Members el ≠ [] ∧ length (el_Members el) = length (el_Weights el) ∧ Forall (λ w, 0 <= w) (el_Weights el) ∧
  2 * zsum (el_Weights el) <= MaxUint64 ∧ BlsWeightDedupActive (ResultVersion el) = true.

Definition weight_of (el : ElectionResult) : gmap string Z := key_weight (el_Members el) (el_Weights el).

(** Keys with more than two thirds of the weight. *)
Definition supermajority (el : ElectionResult) (keys : list string) : Prop :=
  2 * committee_weight (el_Members el) (el_Weights el) < 3 * weight_in (weight_of el) (list_to_set keys).

(** The aggregate that the proposal carries verifies over its header for the keys it
    names, which are such keys. *)
Definition block_signed {sig} `{BlsLib sig} `{Cids} (el : ElectionResult) (t : TxProposeBlock) : Prop :=
  ∃ blockCid headerCid (c : BlsCircuit sig), cid_Parse (proposed_block t) = Some blockCid ∧
    header_cid (block_header t blockCid) = Some headerCid ∧
    DeserializeBlsCircuit (sb_Signature (pb_SignedBlock t)) (committee_keys el) headerCid = Some c ∧
    bls_VerifyAgg (IncludedDIDs c) headerCid (bc_aggSigs c) = Some true ∧ supermajority el (IncludedDIDs c).

(** ** Lemmas *)

Lemma signing_score el bit included :
  committee_ok el →
  CalculateSigningScore bit included (el_Members el) (Some (el_Weights el)) true =
  (weight_in (weight_of el) (list_to_set (signed_seats bit (committee_keys el))), committee_weight (el_Members el) (el_Weights el)).
Proof.
  intros (Hne & Hlen & Hnn & Hle & _). unfold CalculateSigningScore. cbn [from_option]. unfold id at 1.
  assert (em_Key <$> signed_seats bit (el_Members el) = signed_seats bit (committee_keys el)) as ->.
  { unfold committee_keys, signed_seats. rewrite imap_fmap. generalize (el_Members el) as l. intros l. revert bit.
    induction l as [|m l IH]; intros bit; [done|]. cbn. destruct (bit 0%nat); cbn; [f_equal|]; apply (IH (bit ∘ S)). }
  rewrite fold_spec; [|by destruct (el_Members el)|by rewrite length_fmap|done|pose proof (zsum_nonneg _ Hnn); lia].
  cbv zeta. fold (key_weight (el_Members el) (el_Weights el)). fold (committee_weight (el_Members el) (el_Weights el)). fold (weight_of el).
  destruct (Z.eqb_spec (committee_weight (el_Members el) (el_Weights el)) 0) as [E|E]; cbn; [|done]. rewrite E. f_equal.
  destruct (seat_weights_ok (em_Key <$> el_Members el) (el_Weights el)) as [Hok _];
    [by rewrite length_fmap|done|pose proof (zsum_nonneg _ Hnn); lia|].
  pose proof (weight_in_bounds _ (list_to_set (signed_seats bit (committee_keys el))) Hok) as Hb. unfold weight_of, key_weight in *.
  unfold committee_weight, key_weight in E. lia.
Qed.

Lemma ValidateDetailed_self {sig} `{BlsLib sig} `{Cids} el t k t' :
  ValidateDetailed el t = (k, t') → pb_Self t' = pb_Self t ∧ pb_SignedBlock t' = pb_SignedBlock t.
Proof. unfold ValidateDetailed. intros E. repeat (case_match; simplify_eq; try done). Qed.

Lemma twice_third total score : 0 <= total → 2 * total <= MaxUint64 → wrapu64 (total * 2) / 3 < score ↔ 2 * total < 3 * score.
Proof. intros ? ?. rewrite wrapu64_id by (unfold_widths; lia). Z.to_euclidean_division_equations; lia. Qed.

Lemma weight_total el :
  committee_ok el → 0 <= committee_weight (el_Members el) (el_Weights el) ∧ 2 * committee_weight (el_Members el) (el_Weights el) <= MaxUint64.
Proof.
  intros (_ & Hlen & Hnn & Hle & _). pose proof (zsum_nonneg _ Hnn).
  destruct (seat_weights_ok (em_Key <$> el_Members el) (el_Weights el)) as [[Hk _] _]; [by rewrite length_fmap|done|lia|].
  pose proof (seat_weights_sum (em_Key <$> el_Members el) (el_Weights el) ltac:(by rewrite length_fmap) Hnn).
  unfold committee_weight, key_weight. split; [by apply msum_nonneg|lia].
Qed.

(** The verdict is that the block is valid just when the supermajority signed its
    header and the window is open. *)
Lemma valid_spec {sig} `{BlsLib sig} `{Cids} el t t' :
  committee_ok el → ValidateDetailed (Some el) t = (BlockValid, t') →
  block_signed el t' ∧ past_window (ub_Br (sb_header (pb_SignedBlock t))).2 (self_BlockHeight (pb_Self t)) = false.
Proof.
  intros Hok E. destruct (ValidateDetailed_self _ _ _ _ E) as [_ Hsb]. unfold block_signed, proposed_block, block_header. rewrite Hsb.
  unfold ValidateDetailed, proposed_block, block_header in E. destruct (cid_Parse _) as [b|] eqn:Hb; [|done].
  destruct (header_cid _) as [h|] eqn:Hh; [|done]. destruct (DeserializeBlsCircuit _ _ _) as [c|] eqn:Hc; [|done].
  destruct (deserialize_fields _ _ _ _ Hc) as [Hkeys Hmsg]. destruct (past_window _ _) eqn:Hw; [done|].
  destruct (circuit_Verify c) as [[[] inc]|] eqn:Hv; [|done..].
  assert (inc = IncludedDIDs c ∧ bls_VerifyAgg (IncludedDIDs c) h (bc_aggSigs c) = Some true) as [-> Hagg].
  { unfold circuit_Verify in Hv. cbv zeta in Hv. destruct (forallb _ _); [|done]. cbn [negb] in Hv. destruct (bool_decide _); [done|].
    rewrite Hmsg in Hv. destruct (bls_VerifyAgg _ _ _) as [v|]; [|done]. cbn in Hv. by simplify_eq. }
  pose proof Hok as (Hne & Hlen & _ & _ & Hdd).
  rewrite bool_decide_eq_false_2 in E by (intros Hn; rewrite Hn in Hlen; by destruct (el_Members el)).
  rewrite Hdd, signing_score in E by done. cbv iota beta in E.
  destruct (_ <? _) eqn:Hlt; [|done]. split; [|done]. exists b, h, c. split_and!; [done..|].
  destruct (weight_total el Hok). apply Z.ltb_lt, twice_third in Hlt; [|lia..]. unfold supermajority, IncludedDIDs. by rewrite Hkeys.
Qed.

(** What [Self] holds is not read from the other members. *)
Lemma proposal_keeps_self j t : lacks "Self" j → pb_Self (set_struct proposal_fields j t).1 = pb_Self t.
Proof.
  intros Hl. apply (set_struct_keeps proposal_fields pb_Self "Self"); [done|]. intros f v a Hf Hn.
  unfold proposal_fields in Hf. repeat (apply elem_of_cons in Hf as [->|Hf]; [try done|]); [| |by apply elem_of_nil in Hf].
  all: unfold on_field; cbn; destruct a; by repeat case_match.
Qed.

Section faults.
Context {S : Type} `{LedgerDb S} (po : policy).
Implicit Types (f : faults) (s : S).

Lemma record_evidence_seen acct kind id h f : seenProposalBySlotProposer (recordEvidenceAndShouldSlash acct kind id h f).2 = seenProposalBySlotProposer f
  ∧ slashIncidentBpsBySlotAccount (recordEvidenceAndShouldSlash acct kind id h f).2 = slashIncidentBpsBySlotAccount f.
Proof. unfold recordEvidenceAndShouldSlash. cbv zeta. by repeat case_match. Qed.

Lemma slash_request_seen acct kind id tx h key f :
  seenProposalBySlotProposer (slash_request po acct kind id tx h key f).2 = seenProposalBySlotProposer f.
Proof.
  unfold slash_request. destruct (negb _); [done|]. destruct (recordEvidenceAndShouldSlash _ _ _ _ _) as [first f'] eqn:E.
  pose proof (record_evidence_seen acct kind id h f) as [Hs _]. rewrite E in Hs. cbn [snd] in Hs. destruct first; [|done]. cbn [negb].
  cbv zeta. destruct (_ <=? 0); [done|]. unfold incident_room. cbv zeta. repeat case_match; simplify_eq; done.
Qed.

Lemma slash_seen acct kind id tx h key f s r f' s' :
  slashForEvidenceIfPolicyAllows po acct kind id tx h key f s = Some (r, f', s') → seenProposalBySlotProposer f' = seenProposalBySlotProposer f.
Proof.
  unfold slashForEvidenceIfPolicyAllows. pose proof (slash_request_seen acct kind id tx h key f) as Hs.
  destruct (slash_request _ _ _ _ _ _ _ _) as [[r0|p] f0]; cbn [snd] in Hs; [by intros [= <- <- <-]|].
  destruct (SafetySlashConsensusBond _ _ _) as [[r0 s0]|]; [|done]. by intros [= <- <- <-].
Qed.
End faults.

Section produce.
Context {sig : Type} `{BlsLib sig} `{Cids} {S : Type} `{LedgerDb S} (po : policy).
Implicit Types (f : faults) (s : S).

Lemma produce_inv schedule elections self auth payload f s k t f' s' :
  produce_block po schedule elections self auth payload f s = Some (k, t, f', s') →
  let slotHeight := (CalculateSlotInfo (self_BlockHeight self)).1 in
  let parsed := parse_proposal self payload in
  (auth ≠ scheduledProducer schedule slotHeight ∧ k = BlockSkip ∧ f' = f ∧ s' = s) ∨
  (auth = scheduledProducer schedule slotHeight ∧ ValidateDetailed (elections (self_BlockHeight (pb_Self parsed))) parsed = (k, t) ∧
   seenProposalBySlotProposer f' = seenProposalBySlotProposer (recordFirstSeenProposal slotHeight auth (proposed_block parsed) f).2).
Proof.
  unfold produce_block. cbv zeta. destruct (String.eqb_spec auth (scheduledProducer schedule (CalculateSlotInfo (self_BlockHeight self)).1)) as [Ha|Ha];
    cbn [negb]; [|intros [= <- <- <- <-]; by left].
  destruct (recordFirstSeenProposal _ _ _ f) as [prev f1] eqn:Hr. cbn [snd].
  set (doubled := match prev with Some _ => _ | None => _ end). destruct doubled as [[f2 s2]|] eqn:Hd; [|done]. cbn [mbind option_bind].
  assert (seenProposalBySlotProposer f2 = seenProposalBySlotProposer f1) as Hf2.
  { subst doubled. destruct prev as [p|]; [|by simplify_eq]. destruct (negb _); [|by simplify_eq].
    destruct (slashForEvidenceIfPolicyAllows _ _ _ _ _ _ _ _ _) as [[[r f3] s3]|] eqn:Es; [|done]. cbn in Hd. simplify_eq. by apply slash_seen in Es. }
  clear Hd doubled. destruct (ValidateDetailed _ _) as [kind t1] eqn:Hv.
  destruct kind; [..|by intros [= <- <- <- <-]; right]; [by intros [= <- <- <- <-]; right..|].
  destruct (slashForEvidenceIfPolicyAllows _ _ _ _ _ _ _ _ _) as [[[r f3] s3]|] eqn:Es; [|done]. cbn. intros [= <- <- <- <-]. right.
  apply slash_seen in Es. by rewrite Es.
Qed.

(** C6: a block is applied only when the scheduled witness of the slot posted it before
    the window closed and keys with more than two thirds of the weight of the committee
    in force at that height signed its header, range and content included.  The election
    is one ratified under 0.8.0 or later (a key counts once), lists a weight for every
    seat, and twice its weight fits [uint64].  The payload has no member that is decoded
    into [Self]; with one, the producer chooses the height the block is checked at. *)
Theorem block_authorised schedule elections self auth payload f s t f' s' el :
  produce_block po schedule elections self auth payload f s = Some (BlockValid, t, f', s') →
  from_option (lacks "Self") True payload → elections (self_BlockHeight self) = Some el → committee_ok el →
  auth = scheduledProducer schedule (CalculateSlotInfo (self_BlockHeight self)).1 ∧ pb_Self t = self ∧
  self_BlockHeight self < wrapu64 (ub_Br (sb_header (pb_SignedBlock t))).2 +u64 SlotLength ∧ block_signed el t.
Proof.
  intros E Hl Hel Hok. apply produce_inv in E as [(_ & Hk & _)|(Ha & Hv & _)]; [done|].
  assert (pb_Self (parse_proposal self payload) = self) as Hself.
  { unfold parse_proposal. destruct payload as [j|]; [|done]. cbn in Hl |- *. by rewrite proposal_keeps_self. }
  destruct (ValidateDetailed_self _ _ _ _ Hv) as [Hs Hb]. rewrite Hself, Hel in Hv. destruct (valid_spec el _ _ Hok Hv) as [Hsig Hw].
  split_and!; [done|by rewrite Hs|rewrite Hb|done]. rewrite Hself in Hw. unfold past_window in Hw. by apply Z.leb_gt in Hw.
Qed.
End produce.

(** ** The penalties of an incident *)

(** The requests to the ledger for pieces of evidence (kind, id, transaction,
    height) of one incident, in the order in which they are seen. *)
Record evidence := mkEvidence { ev_kind : string; ev_id : string; ev_tx : string; ev_height : Z }.

Fixpoint incident_requests (po : policy) (account incidentKey : string) (evs : list evidence) (f : faults) : list SafetySlashConsensusParams :=
  match evs with
  | [] => []
  | ev :: evs =>
      match slash_request po account (ev_kind ev) (ev_id ev) (ev_tx ev) (ev_height ev) incidentKey f with
      | (inl _, f) => incident_requests po account incidentKey evs f
      | (inr p, f) => p :: incident_requests po account incidentKey evs f
      end
  end.

Lemma request_room po account incidentKey ev f r f' :
  incidentKey ≠ "" → 0 <= zget (slashIncidentBpsBySlotAccount f) incidentKey <= CorrelatedSlashCapBps →
  slash_request po account (ev_kind ev) (ev_id ev) (ev_tx ev) (ev_height ev) incidentKey f = (r, f') →
  zget (slashIncidentBpsBySlotAccount f') incidentKey =
    zget (slashIncidentBpsBySlotAccount f) incidentKey + match r with inl _ => 0 | inr p => sp_SlashBps p end ∧
  zget (slashIncidentBpsBySlotAccount f') incidentKey <= CorrelatedSlashCapBps ∧ (∀ p, r = inr p → 0 < sp_SlashBps p).
Proof.
  intros Hkey Hb. unfold slash_request. destruct (negb _); [intros [= <- <-]; split_and!; [lia|lia|done]|].
  pose proof (record_evidence_seen account (ev_kind ev) (ev_id ev) (ev_height ev) f) as [_ Hi].
  destruct (recordEvidenceAndShouldSlash _ _ _ _ _) as [first f1]. cbn [snd] in Hi.
  destruct first; [|intros [= <- <-]; rewrite Hi; split_and!; [lia|lia|done]]. cbn [negb]. cbv zeta.
  destruct (Z.leb_spec (SlashBpsForEvidenceKind (ev_kind ev)) 0) as [_|Hpos]; [intros [= <- <-]; rewrite Hi; split_and!; [lia|lia|done]|].
  unfold incident_room. rewrite (proj2 (String.eqb_neq incidentKey "") Hkey), Hi. cbv zeta.
  destruct (Z.leb_spec (CorrelatedSlashCapBps - zget (slashIncidentBpsBySlotAccount f) incidentKey) 0) as [_|Hroom].
  { intros [= <- <-]. rewrite Hi. split_and!; [lia|lia|done]. }
  set (bps := if _ <? _ then _ else _). assert (0 < bps <= CorrelatedSlashCapBps - zget (slashIncidentBpsBySlotAccount f) incidentKey) as Hbps.
  { subst bps. destruct (Z.ltb_spec (SlashBpsForEvidenceKind (ev_kind ev)) (CorrelatedSlashCapBps - zget (slashIncidentBpsBySlotAccount f) incidentKey)); lia. }
  rewrite (proj2 (Z.leb_gt bps 0)) by lia. intros [= <- <-]. cbn [slashIncidentBpsBySlotAccount sp_SlashBps].
  rewrite zget_insert, String.eqb_refl. split_and!; [lia|lia|]. intros p [= <-]. cbn. lia.
Qed.

Lemma requests_capped po account incidentKey evs f :
  incidentKey ≠ "" → 0 <= zget (slashIncidentBpsBySlotAccount f) incidentKey <= CorrelatedSlashCapBps →
  zget (slashIncidentBpsBySlotAccount f) incidentKey + zsum (sp_SlashBps <$> incident_requests po account incidentKey evs f) <= CorrelatedSlashCapBps ∧
  Forall (λ p, 0 < sp_SlashBps p) (incident_requests po account incidentKey evs f).
Proof.
  intros Hkey. revert f. induction evs as [|ev evs IH]; intros f Hb; cbn [incident_requests]; [cbn; split; [lia|done]|].
  destruct (slash_request _ _ _ _ _ _ _ _) as [r f'] eqn:E. destruct (request_room _ _ _ _ _ _ _ Hkey Hb E) as (Hz & Hle & Hp).
  destruct r as [r|p].
  - destruct (IH f') as [? ?]; [lia|]. split; [lia|done].
  - specialize (Hp p eq_refl). destruct (IH f') as [? ?]; [lia|]. rewrite fmap_cons. cbn [zsum]. split; [lia|by constructor].
Qed.

(** The penalties for one incident never take more than the bond.  Whatever evidence
    comes in for a witness and a slot, of whichever kinds, in whatever order and however
    often, what the requests take of the bond they are computed from adds up to at most
    the bond. *)
Theorem incident_bounded po account incidentKey evs f bond :
  incidentKey ≠ "" → slashIncidentBpsBySlotAccount f !! incidentKey = None → 0 <= bond <= MaxInt64 →
  zsum ((λ p, slash_formula bond (sp_SlashBps p)) <$> incident_requests po account incidentKey evs f) <= bond.
Proof.
  intros Hkey Hf Hbond. destruct (requests_capped po account incidentKey evs f Hkey) as [Hle Hpos].
  { unfold zget. rewrite Hf. done. }
  unfold zget in Hle. rewrite Hf in Hle. cbn in Hle. unfold CorrelatedSlashCapBps in Hle. revert Hpos Hle.
  generalize (incident_requests po account incidentKey evs f) as l. intros l Hpos Hle.
  enough (zsum ((λ p, slash_formula bond (sp_SlashBps p)) <$> l) * 10000 <= bond * zsum (sp_SlashBps <$> l)) by nia.
  assert (Forall (λ p, 0 < sp_SlashBps p <= 10000) l) as Hall.
  { clear -Hpos Hle. induction Hpos as [|p l Hp Hl IH]; [done|]. rewrite fmap_cons in Hle. cbn [zsum] in Hle.
    assert (0 <= zsum (sp_SlashBps <$> l)) by (apply zsum_nonneg, Forall_fmap; eapply Forall_impl; [exact Hl|cbn; intros; lia]).
    constructor; [lia|]. apply IH. lia. }
  clear Hpos Hle. induction Hall as [|p l Hp _ IH]; [cbn; lia|]. rewrite !fmap_cons. cbn [zsum].
  rewrite slash_formula_floor by (unfold_widths; lia). pose proof (Z.mul_div_le (bond * sp_SlashBps p) 10000 ltac:(lia)). nia.
Qed.

(** ** Restarts *)

Section restart.
Context {sig : Type} `{BlsLib sig} `{Cids} {S : Type} `{LedgerDb S} (po : policy).

(** The proposals of a slot as a running process handles them; an operation without
    an active authority does not reach the handler. *)
Fixpoint handle_all (schedule : list WitnessSlot) (elections : Z → option ElectionResult) (ops : list (TxSelf * stored_proposal)) (f : faults) (s : S) :
    option (faults * S) :=
  match ops with
  | [] => Some (f, s)
  | (self, op) :: ops =>
      match st_auths op with
      | [] => handle_all schedule elections ops f s
      | auth :: _ =>
          '(_, _, f, s) ← produce_block po schedule elections self auth (st_payload op) f s;
          handle_all schedule elections ops f s
      end
  end.

(** The block named does not depend on where the proposal is anchored. *)
Lemma proposed_block_self j self self' :
  proposed_block (set_struct proposal_fields j (new_proposal self)).1 = proposed_block (set_struct proposal_fields j (new_proposal self')).1.
Proof.
  unfold proposed_block. rewrite (set_struct_rel (λ t t', pb_SignedBlock t = pb_SignedBlock t') proposal_fields j (new_proposal self) (new_proposal self')); [done| |done].
  repeat constructor; intros v [] [] Ht; cbn in *; subst; unfold on_field; cbn; by repeat case_match.
Qed.

(** A restart within a slot does not lose the first proposal.  When the stored
    payloads of the slot decode, the map rebuilt from them names for the scheduled witness
    the same block as the map of a process that has handled them one after the other, so
    a competing proposal is recognised by both. *)
Theorem restart_remembers schedule elections stored resumeHeight ops f s f' s' :
  let slotStart := (CalculateSlotInfo resumeHeight).1 in
  let key := slotProposerKey slotStart (scheduledProducer schedule slotStart) in
  slotStart < resumeHeight → 0 <= slotStart → scheduledProducer schedule slotStart ≠ "" → stored slotStart (resumeHeight - 1) = Some (snd <$> ops) →
  Forall (λ '(self, op), (CalculateSlotInfo (self_BlockHeight self)).1 = slotStart ∧
    ∃ j, st_payload op = Some j ∧ (set_struct proposal_fields j (new_proposal zero_self)).2 = true) ops →
  seenProposalBySlotProposer f !! key = None → handle_all schedule elections ops f s = Some (f', s') →
  seenProposalBySlotProposer (rehydrateDoubleSignMap schedule stored resumeHeight no_faults) !! key = seenProposalBySlotProposer f' !! key.
Proof.
  intros slotStart key Hlt Hnn Hsch Hst Hops Hf Hrun. unfold rehydrateDoubleSignMap. fold slotStart.
  rewrite (proj2 (Z.eqb_neq resumeHeight 0)), (proj2 (Z.leb_gt resumeHeight slotStart)), (proj2 (String.eqb_neq _ _) Hsch), Hst by lia.
  assert (seenProposalBySlotProposer no_faults !! key = seenProposalBySlotProposer f !! key) as Heq by by rewrite Hf.
  clear Hf Hst. revert Heq Hrun. generalize no_faults as g. revert f s. induction Hops as [|[self op] ops [Hslot (j & Hj & Hdec)] _ IH]; intros f s g Heq Hrun.
  { cbn in Hrun |- *. by simplify_eq. }
  rewrite fmap_cons. cbn [foldl snd]. cbn [handle_all] in Hrun. unfold seedProposal at 2.
  destruct (st_auths op) as [|auth rest]; [by apply (IH f s)|].
  destruct (produce_block _ _ _ _ _ _ _ _) as [[[[k t] f1] s1]|] eqn:Hp; [|done]. cbn [mbind option_bind] in Hrun.
  apply (IH f1 s1); [|done]. apply produce_inv in Hp. rewrite Hslot in Hp.
  destruct Hp as [(Ha & _ & -> & _)|(-> & _ & Hseen)].
  { by rewrite (proj2 (String.eqb_neq _ _) Ha). }
  rewrite String.eqb_refl, Hj. cbn [negb]. destruct (set_struct proposal_fields j (new_proposal zero_self)) as [t0 ok] eqn:E0. cbn [snd] in Hdec. subst ok.
  rewrite Hseen, Hj. unfold parse_proposal. cbn [from_option]. rewrite (proposed_block_self j self zero_self), E0. cbn [fst].
  unfold recordFirstSeenProposal. fold key. rewrite Heq. destruct (seenProposalBySlotProposer f !! key) eqn:Ek; cbn [snd]; [by rewrite Heq|].
  cbn. by rewrite !lookup_insert_eq.
Qed.
End restart.
