(* ===== verification/BlockApply.v ===== *)
(** The application of a block: [TxProposeBlock.ExecuteTx] and what it calls
    ([modules/state-processing/system_txs.go], [transactions.go]), the stored
    headers ([modules/db/vsc/vsc_blocks/vscBlocks.go]) and the height a node resumes
    from ([SaveBlockHeight] of [state_engine.go]).

    A block lists entries by content id.  What an id stands for is a function of the
    id; a read of it blocks until it succeeds.  Applying a block writes the header,
    the transaction index, the nonces, the ledger, the keys of contracts and their
    outputs, and puts the transactions that are to run in front of the batch.

    The theorems: a transaction is run by at most one block and the nonce of an
    account never goes back, whatever the pool takes in between; a node that applies
    a block again after a restart runs exactly the transactions it ran before. *)
From Stdlib Require Import Ascii.
From S2P Require Import Prelude GoMaps GoSlices GoStrings GoJson ConsensusVersion LedgerDb ActionsDb LedgerTypes LedgerState LedgerSystem.
From S2P Require Import SlashRestore Settlement SettlementApply Schedule BlsCircuit TssDb TssKeys ContractSession TxIndex Transactions TxPool Batch Proposals.

(** ** Headers *)

Record VscHeaderRecord := mkVscHeaderRecord {
  hr_Id : string;
  hr_BlockContent : string;
  hr_StartBlock : Z;
  hr_EndBlock : Z;
  hr_Epoch : Z;
  hr_MerkleRoot : option string;
  hr_SigRoot : option string;
  hr_Proposer : string;
  hr_Signers : list string;
  hr_SlotHeight : Z;
  hr_Size : Z;
  hr_Ts : string;
}.

Abbreviation headerdb := (gmap string VscHeaderRecord).

(** The upsert by id.  The slot is unique, so a second header of a slot is a
    duplicate ([None]), which the caller drops. *)
Definition StoreHeader (h : VscHeaderRecord) (db : headerdb) : option headerdb :=
  if existsb (λ kv, negb (String.eqb kv.1 (hr_Id h)) && (hr_SlotHeight kv.2 =? hr_SlotHeight h)) (map_to_list db) then None
  else Some (<[hr_Id h := h]> db).

(** The header with the largest slot up to a height. *)
Definition later_header (height : Z) (best : option VscHeaderRecord) (h : VscHeaderRecord) : option VscHeaderRecord :=
  if height <? hr_SlotHeight h then best
  else match best with Some b => if hr_SlotHeight b <? hr_SlotHeight h then Some h else best | None => Some h end.

(** [None] also when the height cannot be put into a query. *)
Definition GetBlockByHeight (height : Z) (db : headerdb) : option VscHeaderRecord :=
  if storable height then foldl (later_header height) None (map_to_list db).*2 else None.

(** ** What a block lists *)

Definition BlockTypeTransaction : Z := 1.
Definition BlockTypeOutput : Z := 2.
Definition BlockTypeAnchor : Z := 3.
Definition BlockTypeOplog : Z := 4.
Definition BlockTypeRcUpdate : Z := 5.
Definition BlockTypePendulumSettlement : Z := 6.
Definition BlockTypeSafetySlashReverse : Z := 8.

Record VscBlockTx := mkVscBlockTx { vbt_Id : string; vbt_Type : Z }.

Record VscBlock := mkVscBlock { vb_Transactions : list VscBlockTx; vb_MerkleRoot : option string; vb_SigRoot : option string }.

Definition container_Type (TypeInt : Z) : string :=
  if TypeInt =? BlockTypeTransaction then "transaction"
  else if TypeInt =? BlockTypeOutput then "output"
  else if TypeInt =? BlockTypeAnchor then "anchor"
  else if TypeInt =? BlockTypeOplog then "oplog"
  else if TypeInt =? BlockTypeRcUpdate then "rc_update"
  else if TypeInt =? BlockTypePendulumSettlement then "pendulum_settlement"
  else if TypeInt =? BlockTypeSafetySlashReverse then "safety_slash_reverse"
  else "unknown".

(** The output of a contract; the operations on keys are those of the output itself
    and of each result. *)
Record ContractOutput := mkContractOutput {
  co_Id : string;
  co_ContractId : string;
  co_Inputs : list string;
  co_Metadata : ContractMetadata;
  co_StateMerkle : string;
  co_TssOps : list TssOp;
  co_ResultOps : list (list TssOp);
}.

(** The history of outputs: contract, height, state, size and inputs. *)
Record OutputRecord := mkOutputRecord {
  or_ContractId : string;
  or_BlockHeight : Z;
  or_StateMerkle : string;
  or_Metadata : ContractMetadata;
  or_Inputs : list string;
}.

Record BlockOplog := mkBlockOplog { bo_Self : TxSelf; bo_LedgerOps : list OpLogEvent; bo_Outputs : list (string * bool) }.

(** What a CID in its normal form stands for: the JSON of the node, and what the
    decoders make of it ([None] on an error).  Decoding an oplog may write over the
    place it is given. *)
Class BlockData := {
  (** What the decoder leaves of a block, and the length of its JSON. *)
  dag_block : string → VscBlock;
  dag_size : string → Z;
  dag_json : string → option json;
  as_output : string → string → option ContractOutput;
  as_oplog : string → TxSelf → option BlockOplog;
  as_settlement : string → option SettlementRecord;
  as_reverse : string → option SafetySlashReverseRecord;
}.

(** ** Transactions *)

(** The members of the shell are promoted; [Self] has no tag that keeps it out. *)
Definition offchain_fields : fields (TxSelf * VSCTransactionShell) :=
  ("Self", on_field fst (λ x p, (x, p.2)) (set_struct self_fields)) ::
  ((λ f, (f.1, on_field snd (λ x p, (p.1, x)) f.2)) <$> shell_fields).

Definition AsTransaction `{BlockData} `{Codec} (cid id : string) (self : TxSelf) : option OffchainTransaction :=
  j ← dag_json cid;
  match set_struct offchain_fields j (self, empty_shell) with
  | ((self, shell), true) =>
      Some (mkOffchainTransaction self id (sh_Headers shell) ((λ op, mkVSCTransactionOp (so_Type op) (cbor_json (so_Payload op))) <$> sh_Tx shell))
  | _ => None
  end.

(** The values of an operation, as far as the index looks at them. *)
Definition ToData (v : VSCTransaction) : gmap string field_value :=
  match v with
  | TxVscCallContract t => <["rc_limit" := FUint (call_RcLimit t)]> (gset_to_gmap FOther {["contract_id"; "action"; "payload"; "intents"]})
  | TxDeposit t => <["amount" := FInt (dp_Amount t)]> (gset_to_gmap FOther {["from"; "to"; "asset"; "memo"]})
  | TxVSCTransfer _ | TxVSCWithdraw _ => gset_to_gmap FOther {["from"; "to"; "amount"; "asset"; "memo"]}
  | _ => gset_to_gmap FOther {["from"; "to"; "amount"; "asset"]}
  end.

(** The error of the write is not looked at. *)
Definition ingest_offchain (tx : OffchainTransaction) (txs : list VSCTransaction) (vscBlockTxId blockId : string) (height index : Z) (db : txdb) : txdb :=
  let h := off_Headers tx in
  default db (Ingest (mkIngestTransactionUpdate (off_TxId tx) (Some INCLUDED) (vh_RequiredAuths h) [] "vsc" (vh_Nonce h)
    (elements (list_to_set (tx_Type <$> txs) : gset string))
    (imap (λ idx v, mkTransactionOperation [] (tx_Type v) (Z.of_nat idx) (ToData v)) txs) (vh_RcLimit h)
    (Some blockId) (Some vscBlockTxId) (Some index) (Some height)) db).

Definition includedByThisBlock (rec : TransactionRecord) (blockTxId : string) : bool :=
  bool_decide (rec_Status rec = INCLUDED) && bool_decide (rec_AnchoredId rec = Some blockTxId).

(** The rule of 0.10: a transaction that another block has handled, or whose nonce is
    below that of its account, is passed over. *)
Definition handled (rec : option TransactionRecord) (blockTxId : string) (h : VSCTransactionHeader) (accountNonce : Z) : bool :=
  let ownBlock := from_option (λ r, includedByThisBlock r blockTxId) false rec in
  from_option (λ r, negb (bool_decide (rec_Status r = UNCONFIRMED)) && negb ownBlock) false rec ||
  (negb ownBlock && negb (bool_decide (vh_RequiredAuths h = [])) && (vh_Nonce h <? accountNonce)).

(** What the loop over a block collects: the ids seen, the packets, the largest nonce
    and the nonces of each set of signers. *)
Record applied := mkApplied {
  ap_seen : gset string;
  ap_packets : list TxPacket;
  ap_nonceUpdates : gmap string Z;
  ap_confirmed : gmap string (list string * gset Z);
}.

Definition note_nonce (keyId : string) (h : VSCTransactionHeader) (a : applied) (packet : TxPacket) : applied :=
  let old := zget (ap_nonceUpdates a) keyId in
  let auths := from_option fst (vh_RequiredAuths h) (ap_confirmed a !! keyId) in
  let nonces := from_option snd ∅ (ap_confirmed a !! keyId) in
  mkApplied (ap_seen a) (ap_packets a ++ [packet])
    (if (old <? vh_Nonce h) || (old =? 0) then <[keyId := vh_Nonce h]> (ap_nonceUpdates a) else ap_nonceUpdates a)
    (<[keyId := (auths, {[vh_Nonce h]} ∪ nonces)]> (ap_confirmed a)).

(** The height in the header, as [uint64]. *)
Definition end_height (t : TxProposeBlock) : Z := wrapu64 (ub_Br (sb_header (pb_SignedBlock t))).2.

Definition entry_self (t : TxProposeBlock) (id : string) (idx : nat) : TxSelf :=
  mkTxSelf id (self_BlockId (pb_Self t)) (end_height t) (Z.of_nat idx) 0 (self_Timestamp (pb_Self t)) [] [].

Section transaction.
Context `{Cids} `{BlockData} `{Codec} `{KeyHash} (version : Z → Version).

(** One listed transaction; [cid] is the normal form of [id].  The nonces stay as they
    are until the loop is over, so the cache of the code is not needed. *)
Definition apply_transaction (t : TxProposeBlock) (skipHandled : bool) (nonces : noncedb) (idx : nat) (id cid : string) (a : applied) (db : txdb) :
    applied * txdb :=
  match AsTransaction cid id (entry_self t id idx) with
  | None => (a, db)
  | Some tx =>
      let h := off_Headers tx in
      let keyId := HashKeyAuths (vh_RequiredAuths h) in
      if skipHandled && bool_decide (cid ∈ ap_seen a) then (a, db)
      else
        let a := if skipHandled then mkApplied ({[cid]} ∪ ap_seen a) (ap_packets a) (ap_nonceUpdates a) (ap_confirmed a) else a in
        if skipHandled && handled (db !! cid) (self_TxId (pb_Self t)) h (default 0 (GetNonce keyId nonces)) then (a, db)
        else
          let resolved := ToTransaction json_text (version (end_height t)) tx in
          let db := ingest_offchain tx (default [] resolved) (self_TxId (pb_Self t)) (self_BlockId (pb_Self t)) (end_height t) (Z.of_nat idx) db in
          match vh_RequiredAuths h with
          | [] => (a, db)
          | payer :: _ =>
              (note_nonce keyId h a match resolved with
                                    | None => mkTxPacket cid [] true payer
                                    | Some ops => mkTxPacket cid ops false ""
                                    end, db)
          end
  end.
End transaction.

(** ** The other entries *)

(** What a node keeps.  The slot and the batch are in memory, and so are the fields of
    the ledger state other than its store. *)
Record node (S A : Type) := mkNode {
  nd_headers : headerdb;
  nd_txs : txdb;
  nd_nonces : noncedb;
  nd_outputs : gmap string OutputRecord;
  nd_tss : tss_state;
  nd_ledger : LedgerState S;
  nd_actions : A;
  nd_markers : markers;
  nd_slot : slot;
  nd_batch : list TxPacket;
}.

#[global] Arguments mkNode {S A}.
#[global] Arguments nd_headers {S A}.
#[global] Arguments nd_txs {S A}.
#[global] Arguments nd_nonces {S A}.
#[global] Arguments nd_outputs {S A}.
#[global] Arguments nd_tss {S A}.
#[global] Arguments nd_ledger {S A}.
#[global] Arguments nd_actions {S A}.
#[global] Arguments nd_markers {S A}.
#[global] Arguments nd_slot {S A}.
#[global] Arguments nd_batch {S A}.

(** What the application reads of other parts: the version at a height, the slot of
    the engine, whether the content of the block is found; then, for each entry by its
    place, what the settlement, the reversal and the keys read. *)
Record apply_env := mkApplyEnv {
  ae_version : Z → Version;
  ae_slot : Z;
  ae_fetched : bool;
  ae_settle : nat → settle_env * outcomes;
  ae_reverseErr : nat → bool;
  ae_tss : tss_block;
  ae_keyErr : nat → nat → bool;
}.

Section entries.
Context {S : Type} `{LedgerDb S} {A : Type} `{BridgeActions A}.
Implicit Types nd : node S A.

Definition put_txs (txs : txdb) nd : node S A :=
  mkNode (nd_headers nd) txs (nd_nonces nd) (nd_outputs nd) (nd_tss nd) (nd_ledger nd) (nd_actions nd) (nd_markers nd) (nd_slot nd) (nd_batch nd).

Definition put_store (s : S) nd : node S A :=
  let st := nd_ledger nd in
  mkNode (nd_headers nd) (nd_txs nd) (nd_nonces nd) (nd_outputs nd) (nd_tss nd)
    (mkLedgerState (ls_Oplog st) (VirtualLedger st) (GatewayBalances st) (ls_BlockHeight st) s (ls_GetBalanceRecord st))
    (nd_actions nd) (nd_markers nd) (nd_slot nd) (nd_batch nd).

Definition put_slot (sl : slot) nd : node S A :=
  mkNode (nd_headers nd) (nd_txs nd) (nd_nonces nd) (nd_outputs nd) (nd_tss nd) (nd_ledger nd) (nd_actions nd) (nd_markers nd) sl (nd_batch nd).

(** *** Outputs of contracts *)

(** The places of the inputs of each transaction. *)
Definition group_inputs (inputs : list string) : gmap string (list nat) :=
  foldl (λ m '(idx, inputId), let id := default "" (head (Split inputId "-"%char)) in <[id := default [] (m !! id) ++ [idx]]> m)
    ∅ (imap pair inputs).

Definition IngestOutput (output : ContractOutput) (slotHeight : Z) (db : gmap string OutputRecord) : gmap string OutputRecord :=
  <[co_Id output := mkOutputRecord (co_ContractId output) slotHeight (co_StateMerkle output) (co_Metadata output) (co_Inputs output)]> db.

Definition output_Ingest (env : apply_env) (idx : nat) (output : ContractOutput) nd : node S A :=
  let txs := foldl (λ db kv, SetOutput (mkSetResultUpdate kv.1 None (Some (mkTransactionOutput (co_Id output) kv.2)) None) db)
               (nd_txs nd) (map_to_list (group_inputs (co_Inputs output))) in
  let tss := ingest_tss_ops (ae_tss env) (ae_keyErr env idx) (co_TssOps output) (co_ResultOps output) (nd_tss nd) in
  mkNode (nd_headers nd) txs (nd_nonces nd) (IngestOutput output (wrap64 (ae_slot env)) (nd_outputs nd)) tss (nd_ledger nd) (nd_actions nd)
    (nd_markers nd) (Flush_slot (nd_slot nd)) (nd_batch nd).

(** *** Oplogs *)

Definition set_op_height (height : Z) (op : OpLogEvent) : OpLogEvent :=
  mkOpLogEvent (op_To op) (op_From op) (op_Amount op) (op_Asset op) (op_Memo op) (op_Type op) (op_Id op) (op_BIdx op) (op_OpIdx op) height
    (op_Params op).

Definition oplog_start (endBlock : Z) (headers : headerdb) : Z :=
  from_option (λ h, wrapu64 (hr_EndBlock h)) 0 (GetBlockByHeight (endBlock -u64 1) headers).

Definition oplog_status (out : string * bool) (db : txdb) : txdb :=
  SetOutput (mkSetResultUpdate out.1 (Some (if out.2 then CONFIRMED else FAILED)) None None) db.

Definition oplog_ExecuteTx (oplog : BlockOplog) (endBlock : Z) nd : node S A :=
  let st := Flush (nd_ledger nd) in
  let aoplog := set_op_height (self_BlockHeight (bo_Self oplog)) <$> bo_LedgerOps oplog in
  let '(s, a) := IngestOplog aoplog (mkOplogInjestOptions (oplog_start endBlock (nd_headers nd)) endBlock) (ls_LedgerDb st, nd_actions nd) in
  mkNode (nd_headers nd) (foldl (λ db out, oplog_status out db) (nd_txs nd) (bo_Outputs oplog)) (nd_nonces nd) (nd_outputs nd) (nd_tss nd)
    (mkLedgerState (ls_Oplog st) (VirtualLedger st) (GatewayBalances st) (ls_BlockHeight st) s (ls_GetBalanceRecord st))
    a (nd_markers nd) (Flush_slot (nd_slot nd)) (nd_batch nd).

(** *** Settlements and reversals *)

Definition settle_entry (env : apply_env) (idx : nat) (rec : SettlementRecord) (endBlock : Z) nd : option (node S A) :=
  r ← applyPendulumSettlement (ae_settle env idx).1 (ae_settle env idx).2 rec endBlock (nd_markers nd) (ls_LedgerDb (nd_ledger nd));
  let nd := put_store r.2 nd in
  Some (mkNode (nd_headers nd) (nd_txs nd) (nd_nonces nd) (nd_outputs nd) (nd_tss nd) (nd_ledger nd) (nd_actions nd) r.1 (nd_slot nd) (nd_batch nd)).

(** ** The loop over a block *)

Context `{Cids} `{BlockData} `{Codec} `{KeyHash}.

(** [None] is a panic. *)
Definition apply_entry (env : apply_env) (t : TxProposeBlock) (skipHandled : bool) (idx : nat) (txInfo : VscBlockTx) (a : applied) nd :
    option (applied * node S A) :=
  match cid_Parse (vbt_Id txInfo) with
  | None => Some (a, nd)
  | Some cid =>
      let self := entry_self t (vbt_Id txInfo) idx in
      let ty := container_Type (vbt_Type txInfo) in
      if String.eqb ty "transaction" then
        let '(a, txs) := apply_transaction (ae_version env) t skipHandled (nd_nonces nd) idx (vbt_Id txInfo) cid a (nd_txs nd) in
        Some (a, put_txs txs nd)
      else if String.eqb ty "output" then
        Some (a, from_option (λ output, output_Ingest env idx output nd) nd (as_output cid (vbt_Id txInfo)))
      else if String.eqb ty "oplog" then
        Some (a, from_option (λ oplog, oplog_ExecuteTx oplog (end_height t) nd) nd (as_oplog cid self))
      else if String.eqb ty "pendulum_settlement" then
        match as_settlement cid with
        | None => Some (a, nd)
        | Some rec => nd ← settle_entry env idx rec (end_height t) nd; Some (a, nd)
        end
      else if String.eqb ty "safety_slash_reverse" then
        match as_reverse cid with
        | None => Some (a, nd)
        | Some rec =>
            Some (a, put_store (applySafetySlashReverse (ae_reverseErr env idx) rec (vbt_Id txInfo) (end_height t) (ls_LedgerDb (nd_ledger nd))) nd)
        end
      else Some (a, nd)
  end.

Definition apply_entries (env : apply_env) (t : TxProposeBlock) (skipHandled : bool) (entries : list (nat * VscBlockTx)) (a : applied) nd :
    option (applied * node S A) :=
  foldl (λ acc e, acc ≫= λ '(a, nd), apply_entry env t skipHandled e.1 e.2 a nd) (Some (a, nd)) entries.

(** [v + 1] of each account, as [uint64]; [None] is a write that never succeeds. *)
Definition set_nonces (updates : list (string * Z)) (db : noncedb) : option noncedb :=
  foldl (λ acc kv, acc ≫= SetNonce kv.1 (kv.2 +u64 1)) (Some db) updates.

Definition invalidate (confirmed : list (string * (list string * gset Z))) (db : txdb) : txdb :=
  foldl (λ db c, InvalidateCompetingTransactions c.2.1 (elements c.2.2) db) db confirmed.

Definition block_record (t : TxProposeBlock) (proposer cid : string) : VscHeaderRecord :=
  let h := sb_header (pb_SignedBlock t) in
  mkVscHeaderRecord (self_TxId (pb_Self t)) (ub_Block h) (wrap64 ((ub_Br h).1 + 1)) (ub_Br h).2 (pb_Epoch t) (vb_MerkleRoot (dag_block cid))
    (vb_SigRoot (dag_block cid)) proposer (pb_Signers t) (wrap64 (CalculateSlotInfo (self_BlockHeight (pb_Self t))).1) (dag_size cid)
    (self_Timestamp (pb_Self t)).

Definition put_headers (db : headerdb) nd : node S A :=
  mkNode db (nd_txs nd) (nd_nonces nd) (nd_outputs nd) (nd_tss nd) (nd_ledger nd) (nd_actions nd) (nd_markers nd) (nd_slot nd) (nd_batch nd).

Definition no_applied : applied := mkApplied ∅ [] ∅ ∅.

(** The transactions the block puts into the batch, and the node; [None] is a panic or
    a write that is tried for ever. *)
Definition block_ExecuteTx (env : apply_env) (t : TxProposeBlock) nd : option (list TxPacket * node S A) :=
  match cid_Parse (proposed_block t) with
  | Some cid =>
      if negb (ae_fetched env) then Some ([], nd)
      else
        match self_RequiredAuths (pb_Self t) with
        | [] => None
        | proposer :: _ =>
            let nd := put_headers (default (nd_headers nd) (StoreHeader (block_record t proposer cid) (nd_headers nd))) nd in
            let skipHandled := ApplySkipsHandledTxActive (ae_version env (self_BlockHeight (pb_Self t))) in
            '(a, nd) ← apply_entries env t skipHandled (imap pair (vb_Transactions (dag_block cid))) no_applied nd;
            nonces ← set_nonces (map_to_list (ap_nonceUpdates a)) (nd_nonces nd);
            let txs := invalidate (map_to_list (ap_confirmed a)) (nd_txs nd) in
            Some (ap_packets a, mkNode (nd_headers nd) txs nonces (nd_outputs nd) (nd_tss nd) (nd_ledger nd) (nd_actions nd) (nd_markers nd)
                                  (nd_slot nd) (ap_packets a ++ nd_batch nd))
        end
  | None => Some ([], nd)
  end.
End entries.

(** ** Where a node resumes *)

(** The height written to the database; with outputs that no block has carried yet it
    is that of the last block. *)
Definition SaveBlockHeight (lastBlk lastSavedBlk : Z) (sl : slot) (headers : headerdb) : Z :=
  if (lastBlk =? 0) || (lastSavedBlk =? 0) then lastSavedBlk
  else if bool_decide (TxOutputs sl = ∅) then lastBlk
  else
    match GetBlockByHeight lastBlk headers with
    | Some vscRecord =>
        if lastSavedBlk =? wrapu64 (hr_SlotHeight vscRecord) then lastSavedBlk else wrapu64 (hr_SlotHeight vscRecord) +u64 1
    | None => if firstTxHeight sl =? 0 then lastSavedBlk else firstTxHeight sl -u64 1
    end.

(** ** Specification *)

(** A node, the Hive transactions whose blocks it has applied, and the transactions it
    has put into the batch. *)
Record chain (S A : Type) := mkChain { ch_node : node S A; ch_blocks : gset string; ch_run : list string }.

#[global] Arguments mkChain {S A}.
#[global] Arguments ch_node {S A}.
#[global] Arguments ch_blocks {S A}.
#[global] Arguments ch_run {S A}.

(** The header of the transaction a CID stands for. *)
Definition tx_header `{BlockData} `{Codec} (cid : string) (h : VSCTransactionHeader) : Prop :=
  ∃ id self tx, AsTransaction cid id self = Some tx ∧ off_Headers tx = h.

Definition account_nonce `{KeyHash} (nonces : noncedb) (h : VSCTransactionHeader) : Z := default 0 (nonces !! HashKeyAuths (vh_RequiredAuths h)).

(** The transactions of a block, by their CIDs. *)
Definition listed `{Cids} `{BlockData} (t : TxProposeBlock) (cid : string) : Prop :=
  ∃ block e, cid_Parse (proposed_block t) = Some block ∧ e ∈ vb_Transactions (dag_block block) ∧
    vbt_Type e = BlockTypeTransaction ∧ cid_Parse (vbt_Id e) = Some cid.

(** What changes the index and the nonces: a block of a new Hive transaction under
    the rule of 0.10, the pool, the transactions of Hive, results; the rest of the
    node may change at any time. *)
Section chain.
Context {S : Type} `{LedgerDb S} {A : Type} `{BridgeActions A} `{Cids} `{BlockData} `{Codec} `{KeyHash} {sig : Type} `{BlsLib sig}.

Inductive chain_step (c : chain S A) : chain S A → Prop :=
| step_block env t packets nd :
    self_TxId (pb_Self t) ∉ ch_blocks c →
    ApplySkipsHandledTxActive (ae_version env (self_BlockHeight (pb_Self t))) = true →
    (∀ cid h, listed t cid → tx_header cid h → vh_Nonce h < MaxUint64) →
    block_ExecuteTx env t (ch_node c) = Some (packets, nd) →
    chain_step c (mkChain nd ({[self_TxId (pb_Self t)]} ∪ ch_blocks c) (ch_run c ++ (tp_TxId <$> packets)))
| step_pool env db :
    pe_nonces env = nd_nonces (ch_node c) → pool_step env (nd_txs (ch_node c)) db →
    chain_step c (mkChain (put_txs db (ch_node c)) (ch_blocks c) (ch_run c))
| step_hive u db :
    itu_AnchoredId u = None → Ingest u (nd_txs (ch_node c)) = Some db →
    chain_step c (mkChain (put_txs db (ch_node c)) (ch_blocks c) (ch_run c))
| step_result u :
    chain_step c (mkChain (put_txs (SetOutput u (nd_txs (ch_node c))) (ch_node c)) (ch_blocks c) (ch_run c))
| step_rest nd :
    nd_txs nd = nd_txs (ch_node c) → nd_nonces nd = nd_nonces (ch_node c) → chain_step c (mkChain nd (ch_blocks c) (ch_run c)).
End chain.

(** Every record that names a block names one that was applied. *)
Definition anchors_in (blocks : gset string) (db : txdb) : Prop :=
  ∀ id r x, db !! id = Some r → rec_AnchoredId r = Some x → x ∈ blocks.

(** Parsing gives a normal form. *)
Class CidsLaws `{Cids} : Prop := { cid_Parse_idem : ∀ s c, cid_Parse s = Some c → cid_Parse c = Some c }.

(** The state a crash leaves: after [k] entries; after all of them and [j] nonces;
    after all of those and [i] of the last updates. *)
Definition block_crash {S A} `{LedgerDb S} `{BridgeActions A} `{Cids} `{BlockData} `{Codec} `{KeyHash}
    (env : apply_env) (t : TxProposeBlock) (cid proposer : string) (k j i : nat) (nd : node S A) : option (node S A) :=
  let entries := imap pair (vb_Transactions (dag_block cid)) in
  let nd := put_headers (default (nd_headers nd) (StoreHeader (block_record t proposer cid) (nd_headers nd))) nd in
  let skipHandled := ApplySkipsHandledTxActive (ae_version env (self_BlockHeight (pb_Self t))) in
  '(a, nd) ← apply_entries env t skipHandled (take k entries) no_applied nd;
  if decide (k < length entries)%nat then Some nd
  else
    let updates := map_to_list (ap_nonceUpdates a) in
    nonces ← set_nonces (take j updates) (nd_nonces nd);
    let txs := if decide (j < length updates)%nat then nd_txs nd else invalidate (take i (map_to_list (ap_confirmed a))) (nd_txs nd) in
    Some (mkNode (nd_headers nd) txs nonces (nd_outputs nd) (nd_tss nd) (nd_ledger nd) (nd_actions nd) (nd_markers nd) (nd_slot nd) (nd_batch nd)).

(** The transaction an entry of a block stands for. *)
Definition entry_tx `{Cids} `{BlockData} `{Codec} (t : TxProposeBlock) (idx : nat) (e : VscBlockTx) (cid : string) (tx : OffchainTransaction) : Prop :=
  vbt_Type e = BlockTypeTransaction ∧ cid_Parse (vbt_Id e) = Some cid ∧ AsTransaction cid (vbt_Id e) (entry_self t (vbt_Id e) idx) = Some tx.

(** What an honest producer lists: ids in their normal form, transactions the database
    can store, and no result of a transaction of the same block. *)
Record well_listed `{Cids} `{BlockData} `{Codec} (version : Z → Version) (t : TxProposeBlock) (entries : list (nat * VscBlockTx)) : Prop := mkWellListed {
  wl_height : storable (end_height t) = true;
  wl_id : ∀ idx e cid, (idx, e) ∈ entries → vbt_Type e = BlockTypeTransaction → cid_Parse (vbt_Id e) = Some cid → cid = vbt_Id e;
  wl_storable : ∀ idx e cid tx, (idx, e) ∈ entries → entry_tx t idx e cid tx →
    storable (vh_Nonce (off_Headers tx)) = true ∧ storable (vh_RcLimit (off_Headers tx)) = true ∧
    ∀ v, v ∈ default [] (ToTransaction json_text (version (end_height t)) tx) → ∀ n, ToData v !! "rc_limit" = Some (FUint n) → storable n = true;
  wl_results : ∀ idx e cid o idx' e', (idx, e) ∈ entries → vbt_Type e = BlockTypeOplog → cid_Parse (vbt_Id e) = Some cid →
    as_oplog cid (entry_self t (vbt_Id e) idx) = Some o → (idx', e') ∈ entries → vbt_Type e' = BlockTypeTransaction →
    vbt_Id e' ∉ (bo_Outputs o).*1;
}.

(** ** Lemmas *)

Section lemmas.
Context {S : Type} `{LedgerDb S} {A : Type} `{BridgeActions A} `{CidsLaws} `{BlockData} `{Codec} `{KeyHash} {sig : Type} `{BlsLib sig}.
Implicit Types (nd : node S A) (a : applied) (t : TxProposeBlock).

Lemma decoded_header cid id self id' self' tx tx' :
  AsTransaction cid id self = Some tx → AsTransaction cid id' self' = Some tx' → off_Headers tx = off_Headers tx'.
Proof.
  unfold AsTransaction. destruct (dag_json cid) as [j|]; [|done]. cbn [mbind option_bind].
  pose proof (set_struct_rel (λ p q : TxSelf * VSCTransactionShell, p.2 = q.2) offchain_fields j (self, empty_shell) (self', empty_shell)) as Hr.
  destruct (set_struct _ _ (self, _)) as [[s sh] []]; [|done]. destruct (set_struct _ _ (self', _)) as [[s' sh'] []]; [|done].
  intros [= <-] [= <-]. cbn in *. rewrite Hr; [done| |done]. unfold offchain_fields. constructor.
  - intros v [s1 h1] [s2 h2]. cbn. unfold on_field. cbn. intros ->. by destruct (set_struct self_fields v s1), (set_struct self_fields v s2).
  - apply Forall_fmap, Forall_true. intros f v [s1 h1] [s2 h2]. cbn. unfold on_field. cbn. intros ->. by destruct (f.2 v h2).
Qed.

Lemma header_nonneg cid h : tx_header cid h → 0 <= vh_Nonce h.
Proof.
  intros (id & self & tx & E & <-). unfold AsTransaction in E. destruct (dag_json cid) as [j|]; [|done]. cbn [mbind option_bind] in E.
  pose proof (set_struct_inv (λ p : TxSelf * VSCTransactionShell, 0 <= vh_Nonce (sh_Headers p.2)) offchain_fields j (self, empty_shell)) as Hi.
  destruct (set_struct _ _ _) as [[s sh] []]; [|done]. injection E as <-. apply Hi; [|done]. constructor.
  - intros v [s1 h1]. cbn. unfold on_field. cbn. by destruct (set_struct self_fields v s1).
  - apply Forall_fmap. eapply Forall_impl; [apply shell_fields_nonneg|]. intros [n set] Hf v [s1 h1]. cbn in *. unfold on_field. cbn.
    intros Hh. specialize (Hf v h1 Hh). by destruct (set v h1).
Qed.

Lemma tx_header_fun cid h h' : tx_header cid h → tx_header cid h' → h = h'.
Proof. intros (? & ? & ? & E & <-) (? & ? & ? & E' & <-). by eapply decoded_header. Qed.

(** Updates that do not anchor keep the anchors. *)
Lemma ingest_anchors u db db' blocks : itu_AnchoredId u = None → Ingest u db = Some db' → anchors_in blocks db → anchors_in blocks db'.
Proof.
  intros Hu Hi Ha id r x Hr Hx. rewrite (ingest_lookup _ _ _ id Hi) in Hr. destruct (decide _) as [->|]; [|by eapply Ha].
  injection Hr as <-. unfold ingest_record in Hx. cbn in Hx. rewrite Hu in Hx. destruct (db !! itu_Id u) as [r|] eqn:E; [|done]. by eapply Ha.
Qed.

Lemma pool_anchors env db db' blocks : pool_step env db db' → anchors_in blocks db → anchors_in blocks db'.
Proof.
  intros Hp Ha. assert (∀ id sh db', indexTx id sh db = Some db' → anchors_in blocks db') as Hi.
  { intros id sh db1 E. unfold indexTx in E. destruct (bool_decide _); [done|]. destruct (mapM _ _) as [ops|]; [|done].
    by eapply ingest_anchors; [|exact E|]. }
  destruct Hp as [sTx b|tx sg]; [unfold IngestTx|unfold ReceiveTx].
  - destruct (validate _ _ _) as [|sh]; [done|]. destruct (indexTx _ _ _) as [db1|] eqn:E; [|done]. by eapply Hi.
  - destruct (receive_valid _ _ _ _) as [|sh]; [done|]. destruct (indexTx _ _ _) as [db1|] eqn:E; [|done]. by eapply Hi.
Qed.

(** The anchor and the status are what the application of a block reads of a record. *)
Lemma set_output_anchor u db id r' :
  SetOutput u db !! id = Some r' → ∃ r, db !! id = Some r ∧ rec_AnchoredId r = rec_AnchoredId r'.
Proof.
  intros Hr. destruct (set_output_lookup u db id) as [E|(_ & r & r1 & E & E1 & _ & Han & _)].
  - rewrite E in Hr. by eauto.
  - exists r. split; [done|]. congruence.
Qed.

Lemma result_anchors u db blocks : anchors_in blocks db → anchors_in blocks (SetOutput u db).
Proof. intros Ha id r x Hr Hx. apply set_output_anchor in Hr as (r0 & Hr & E). eapply Ha; [done|congruence]. Qed.

Lemma invalidate_anchors cs db blocks : anchors_in blocks db → anchors_in blocks (invalidate cs db).
Proof.
  unfold invalidate. revert db. induction cs as [|c cs IH]; intros db Ha; [done|]. cbn [foldl]. apply IH. unfold InvalidateCompetingTransactions.
  destruct (forallb _ _); [|done]. intros id r x [Hr _]%map_lookup_filter_Some. by eapply Ha.
Qed.

(** *** The loop *)

(** What the loop keeps for a block that is new: a record anchored in it is of a
    transaction that was seen; what runs was seen once, is at or above its account and
    at most the nonce noted. *)
Definition runs_fresh (nonces : noncedb) (a : applied) (cid : string) : Prop :=
  cid ∈ ap_seen a ∧ ∃ h v, tx_header cid h ∧ account_nonce nonces h <= vh_Nonce h ∧
    ap_nonceUpdates a !! HashKeyAuths (vh_RequiredAuths h) = Some v ∧ vh_Nonce h <= v.

Record loop_inv (blocks : gset string) (t : TxProposeBlock) (nonces : noncedb) (a : applied) (db : txdb) : Prop := mkLoopInv {
  li_anchor : ∀ id r x, db !! id = Some r → rec_AnchoredId r = Some x →
    x ∈ blocks ∨ x = self_TxId (pb_Self t) ∧ ∃ c, cid_Parse id = Some c ∧ c ∈ ap_seen a;
  li_nodup : NoDup (tp_TxId <$> ap_packets a);
  li_run : ∀ cid, cid ∈ tp_TxId <$> ap_packets a → runs_fresh nonces a cid;
  li_updates : ∀ k v, ap_nonceUpdates a !! k = Some v → default 0 (nonces !! k) <= v < MaxUint64 ∧ 0 <= v;
}.

Lemma loop_inv_db blocks t nonces a db db' :
  (∀ id r', db' !! id = Some r' → ∃ r, db !! id = Some r ∧ rec_AnchoredId r = rec_AnchoredId r') →
  loop_inv blocks t nonces a db → loop_inv blocks t nonces a db'.
Proof. intros Hdb [Ha Hn Hr Hu]. split; try done. intros id r x Hid Hx. apply Hdb in Hid as (r0 & Hid & E). eapply Ha; [done|congruence]. Qed.

(** The rule of 0.10 lets a transaction of a new block through only at or above its
    account. *)
Lemma not_handled blocks t nonces a db cid h id :
  loop_inv blocks t nonces a db → self_TxId (pb_Self t) ∉ blocks → cid_Parse id = Some cid → cid ∉ ap_seen a → vh_RequiredAuths h ≠ [] →
  handled (db !! cid) (self_TxId (pb_Self t)) h (account_nonce nonces h) = false → account_nonce nonces h <= vh_Nonce h.
Proof.
  intros Hi Hfresh Hp Hseen Hauths Hh. unfold handled in Hh. apply orb_false_iff in Hh as [_ Hh].
  assert (from_option (λ r, includedByThisBlock r (self_TxId (pb_Self t))) false (db !! cid) = false) as Ho.
  { destruct (db !! cid) as [r|] eqn:Hr; [|done]. cbn. unfold includedByThisBlock. apply andb_false_iff. right.
    apply bool_decide_eq_false_2. intros Hx. destruct (li_anchor _ _ _ _ _ Hi _ _ _ Hr Hx) as [?|(_ & c & Hc & Hs)]; [done|].
    apply cid_Parse_idem in Hp. congruence. }
  rewrite Ho, bool_decide_eq_false_2 in Hh by done. cbn in Hh. by apply Z.ltb_ge.
Qed.

(** The record of a transaction the block includes. *)
Lemma ingest_offchain_anchor tx txs t bid height idx db id r x :
  ingest_offchain tx txs (self_TxId (pb_Self t)) bid height idx db !! id = Some r → rec_AnchoredId r = Some x →
  id = off_TxId tx ∧ x = self_TxId (pb_Self t) ∨ db !! id = Some r.
Proof.
  unfold ingest_offchain. destruct (Ingest _ _) as [db'|] eqn:E; [|by right]. change (default db (Some db')) with db'.
  rewrite (ingest_lookup _ _ _ id E).
  cbn [itu_Id]. destruct (decide _) as [->|]; [|by right]. intros [= <-] [= <-]. by left.
Qed.

(** The nonce noted for an account only rises, up to that of the transaction. *)
Lemma note_nonce_raise keyId h a p k v :
  0 <= vh_Nonce h → ap_nonceUpdates a !! k = Some v → ∃ v', ap_nonceUpdates (note_nonce keyId h a p) !! k = Some v' ∧ v <= v'.
Proof.
  intros Hn Hk. unfold note_nonce. cbn. destruct (_ || _) eqn:E; [|by exists v]. destruct (decide (k = keyId)) as [->|Hne].
  - rewrite lookup_insert_eq. eexists. split; [done|]. unfold zget in E. rewrite Hk in E. cbn in E. apply orb_true_iff in E as [E|E]; z_of_bool; lia.
  - rewrite lookup_insert_ne by done. by exists v.
Qed.

Lemma note_nonce_new keyId h a p :
  0 <= vh_Nonce h → ∃ v, ap_nonceUpdates (note_nonce keyId h a p) !! keyId = Some v ∧ vh_Nonce h <= v.
Proof.
  intros Hn. unfold note_nonce. cbn. destruct (_ || _) eqn:E; [rewrite lookup_insert_eq; by eexists|].
  apply orb_false_iff in E as [E1 E2]. z_of_bool. unfold zget in *. destruct (ap_nonceUpdates a !! keyId) as [v|]; cbn in *; [|done].
  by exists v.
Qed.

Lemma note_nonce_source keyId h a p k v :
  ap_nonceUpdates (note_nonce keyId h a p) !! k = Some v → ap_nonceUpdates a !! k = Some v ∨ k = keyId ∧ v = vh_Nonce h.
Proof.
  unfold note_nonce. cbn. destruct (_ || _); [|by left]. destruct (decide (k = keyId)) as [->|Hne].
  - rewrite lookup_insert_eq. intros [= <-]. by right.
  - rewrite lookup_insert_ne by done. by left.
Qed.

(** A transaction that runs is noted. *)
Lemma note_nonce_inv blocks t nonces a db cid h p :
  loop_inv blocks t nonces a db → tx_header cid h → tp_TxId p = cid → cid ∈ ap_seen a → cid ∉ tp_TxId <$> ap_packets a →
  account_nonce nonces h <= vh_Nonce h < MaxUint64 → loop_inv blocks t nonces (note_nonce (HashKeyAuths (vh_RequiredAuths h)) h a p) db.
Proof.
  intros [Ha Hn Hr Hu] Hh Hp Hs Hc Hb. pose proof (header_nonneg _ _ Hh) as Hnn.
  assert (∀ c, runs_fresh nonces a c → runs_fresh nonces (note_nonce (HashKeyAuths (vh_RequiredAuths h)) h a p) c) as Hmono.
  { intros c (Hc' & h' & v & Hh' & Hle & Hv & Hle'). split; [done|].
    destruct (note_nonce_raise (HashKeyAuths (vh_RequiredAuths h)) h a p _ _ Hnn Hv) as (v' & Hv' & Hle''). exists h', v'. split_and!; [done..|lia]. }
  split.
  - exact Ha.
  - cbn. rewrite fmap_app. apply NoDup_app. split_and!; [done| |apply NoDup_singleton]. cbn. rewrite Hp. set_solver.
  - intros c. cbn. rewrite fmap_app, elem_of_app. intros [Hin|Hin]; [by apply Hmono, Hr|]. cbn in Hin. apply list_elem_of_singleton in Hin as ->.
    rewrite Hp. split; [done|]. destruct (note_nonce_new (HashKeyAuths (vh_RequiredAuths h)) h a p Hnn) as (v & Hv & Hle). exists h, v.
    split_and!; [done|lia|done|done].
  - intros k v [Hk|[-> ->]]%note_nonce_source; [by apply Hu|]. unfold account_nonce in Hb. lia.
Qed.
Lemma decoded_id cid id self tx : AsTransaction cid id self = Some tx → off_TxId tx = id.
Proof.
  unfold AsTransaction. destruct (dag_json cid); [|done]. cbn [mbind option_bind]. destruct (set_struct _ _ _) as [[] []]; [|done].
  by intros [= <-].
Qed.

Lemma see_inv blocks t nonces a db db' id cid :
  loop_inv blocks t nonces a db → cid_Parse id = Some cid →
  (∀ k r x, db' !! k = Some r → rec_AnchoredId r = Some x → k = id ∧ x = self_TxId (pb_Self t) ∨ db !! k = Some r) →
  loop_inv blocks t nonces (mkApplied ({[cid]} ∪ ap_seen a) (ap_packets a) (ap_nonceUpdates a) (ap_confirmed a)) db'.
Proof.
  intros [Ha Hn Hr Hu] Hp Hdb. split; [|done| |done].
  - intros k r x Hk Hx. destruct (Hdb _ _ _ Hk Hx) as [[-> ->]|Hk']; [right; cbn; set_solver|].
    destruct (Ha _ _ _ Hk' Hx) as [?|(? & c & ? & ?)]; [by left|]. right. cbn. set_solver.
  - intros c Hc. destruct (Hr c Hc) as (Hs & Hrest). split; [cbn; set_solver|done].
Qed.

Lemma apply_transaction_inv version blocks t nonces idx id cid a db :
  loop_inv blocks t nonces a db → self_TxId (pb_Self t) ∉ blocks → cid_Parse id = Some cid →
  (∀ tx, AsTransaction cid id (entry_self t id idx) = Some tx → vh_Nonce (off_Headers tx) < MaxUint64) →
  let '(a', db') := apply_transaction version t true nonces idx id cid a db in loop_inv blocks t nonces a' db'.
Proof.
  intros Hi Hfresh Hp Hmax. unfold apply_transaction. destruct (AsTransaction _ _ _) as [tx|] eqn:Htx; [|done].
  assert (tx_header cid (off_Headers tx)) as Hh by (do 3 eexists; done). pose proof (decoded_id _ _ _ _ Htx) as Hid.
  destruct (bool_decide (cid ∈ ap_seen a)) eqn:Hs; cbn [andb]; [done|]. apply bool_decide_eq_false_1 in Hs.
  destruct (handled _ _ _ _) eqn:Hhd; [by eapply see_inv; eauto|]. set (db' := ingest_offchain _ _ _ _ _ _ _).
  assert (loop_inv blocks t nonces (mkApplied ({[cid]} ∪ ap_seen a) (ap_packets a) (ap_nonceUpdates a) (ap_confirmed a)) db') as Hi'.
  { eapply see_inv; [done..|]. intros k r x Hk Hx. rewrite <- Hid. by eapply ingest_offchain_anchor. }
  destruct (vh_RequiredAuths (off_Headers tx)) as [|payer auths] eqn:Hauths; [done|]. rewrite <- Hauths.
  assert (cid ∉ tp_TxId <$> ap_packets a) by (intros Hc; by destruct (li_run _ _ _ _ _ Hi _ Hc)).
  eapply note_nonce_inv; [done|done|by destruct (ToTransaction _ _ _)|cbn; set_solver|done|].
  split; [|by apply Hmax]. eapply (not_handled _ _ _ _ _ _ _ id); [exact Hi|done|done|done|by rewrite Hauths|].
  unfold account_nonce. rewrite Hauths. exact Hhd.
Qed.

(** The other entries do not touch the anchors and the nonces. *)
Lemma fold_results {B} (f : B → SetResultUpdate) (l : list B) db id r' :
  foldl (λ db x, SetOutput (f x) db) db l !! id = Some r' → ∃ r, db !! id = Some r ∧ rec_AnchoredId r = rec_AnchoredId r'.
Proof.
  revert db. induction l as [|x l IH]; intros db; cbn [foldl]; [by eauto|]. intros (r & Hr & E)%IH.
  apply set_output_anchor in Hr as (r0 & Hr & E'). exists r0. split; [done|congruence].
Qed.

Lemma apply_entry_inv env blocks t nonces idx e a nd a' nd' :
  loop_inv blocks t nonces a (nd_txs nd) → self_TxId (pb_Self t) ∉ blocks → nd_nonces nd = nonces →
  (∀ cid tx, entry_tx t idx e cid tx → vh_Nonce (off_Headers tx) < MaxUint64) →
  apply_entry env t true idx e a nd = Some (a', nd') → loop_inv blocks t nonces a' (nd_txs nd') ∧ nd_nonces nd' = nonces.
Proof.
  intros Hi Hfresh Hnn Hmax. unfold apply_entry. destruct (cid_Parse (vbt_Id e)) as [cid|] eqn:Hp; [|by intros [= <- <-]].
  destruct (String.eqb (container_Type _) "transaction") eqn:Ety.
  { assert (vbt_Type e = BlockTypeTransaction) as Hty by (revert Ety; unfold container_Type; repeat (case_match; try done); by z_of_bool).
    pose proof (apply_transaction_inv (ae_version env) blocks t nonces idx _ cid a (nd_txs nd) Hi Hfresh Hp) as Ht. rewrite Hnn.
    destruct (apply_transaction _ _ _ _ _ _ _ _ _) as [a1 db1]. intros [= <- <-]. split; [|done]. apply Ht. intros tx Htx. by apply (Hmax cid). }
  destruct (String.eqb _ "output").
  { destruct (as_output _ _) as [out|]; intros [= <- <-]; [|done]. split; [|done]. eapply loop_inv_db; [|done]. intros k r'. apply fold_results. }
  destruct (String.eqb _ "oplog").
  { destruct (as_oplog _ _) as [oplog|]; intros [= <- <-]; [|done]. unfold oplog_ExecuteTx. destruct (IngestOplog _ _ _) as [s ac]. split; [|done].
    eapply loop_inv_db; [|done]. intros k r'. apply fold_results. }
  destruct (String.eqb _ "pendulum_settlement").
  { destruct (as_settlement _) as [rec|]; [|by intros [= <- <-]]. unfold settle_entry. destruct (applyPendulumSettlement _ _ _ _ _ _) as [r|]; [|done].
    by intros [= <- <-]. }
  destruct (String.eqb _ "safety_slash_reverse"); [|by intros [= <- <-]]. destruct (as_reverse _); by intros [= <- <-].
Qed.

Lemma apply_entries_cons env t skip e l a nd :
  apply_entries env t skip (e :: l) a nd = '(a, nd) ← apply_entry env t skip e.1 e.2 a nd; apply_entries env t skip l a nd.
Proof.
  unfold apply_entries. cbn [foldl mbind option_bind]. destruct (apply_entry _ _ _ _ _ _ _) as [[a' nd']|]; [done|]. cbn.
  induction l as [|x l IH]; [done|]. by cbn.
Qed.

Lemma apply_entries_inv env blocks t nonces l a nd a' nd' :
  loop_inv blocks t nonces a (nd_txs nd) → self_TxId (pb_Self t) ∉ blocks → nd_nonces nd = nonces →
  (∀ idx e cid tx, (idx, e) ∈ l → entry_tx t idx e cid tx → vh_Nonce (off_Headers tx) < MaxUint64) →
  apply_entries env t true l a nd = Some (a', nd') → loop_inv blocks t nonces a' (nd_txs nd') ∧ nd_nonces nd' = nonces.
Proof.
  revert a nd. induction l as [|[i e] l IH]; intros a nd Hi Hfresh Hnn Hmax; [by intros [= <- <-]|]. rewrite apply_entries_cons. cbn [fst snd].
  destruct (apply_entry _ _ _ _ _ _ _) as [[a1 nd1]|] eqn:E; [|done]. cbn [mbind option_bind]. intros Hrest.
  assert (loop_inv blocks t nonces a1 (nd_txs nd1) ∧ nd_nonces nd1 = nonces) as [Hi1 Hn1].
  { eapply apply_entry_inv; [done..| |exact E]. intros cid tx. apply Hmax. set_solver. }
  eapply IH; [exact Hi1|done|exact Hn1| |exact Hrest]. intros i' e' cid tx He'. apply Hmax. set_solver.
Qed.
Lemma set_nonces_lookup l db db' k :
  NoDup l.*1 → set_nonces l db = Some db' →
  (k ∉ l.*1 → db' !! k = db !! k) ∧ (∀ v, (k, v) ∈ l → db' !! k = Some (v +u64 1)).
Proof.
  unfold set_nonces. revert db. induction l as [|[j u] l IH]; intros db Hnd; [intros [= <-]; split; [done|by intros ? ?%elem_of_nil]|]. cbn [foldl mbind option_bind fst snd].
  inversion Hnd as [|? ? Hj Hnd']; subst. destruct (SetNonce j _ db) as [db1|] eqn:E1.
  2:{ intros E. exfalso. revert E. clear. induction l as [|x l IH]; [done|]. by cbn. }
  intros E. destruct (IH _ Hnd' E) as [Hout Hin]. unfold SetNonce in E1. destruct (storable _); [|done]. injection E1 as <-. split.
  - cbn. rewrite not_elem_of_cons. intros [Hne Hk]. rewrite Hout by done. by rewrite lookup_insert_ne.
  - intros v. rewrite elem_of_cons. intros [[= -> ->]|Hv]; [|by apply Hin]. rewrite Hout by done. by rewrite lookup_insert_eq.
Qed.

(** The accounts a block with these updates leaves: none goes back, and one with an
    update is above it. *)
Lemma set_nonces_raise (m : gmap string Z) (db db' : noncedb) :
  (∀ k v, m !! k = Some v → default 0 (db !! k) <= v < MaxUint64 ∧ 0 <= v) → set_nonces (map_to_list m) db = Some db' →
  (∀ k, default 0 (db !! k) <= default 0 (db' !! k)) ∧ (∀ k v, m !! k = Some v → v < default 0 (db' !! k)).
Proof.
  intros Hm Hs.
  assert (∀ k v, m !! k = Some v → default 0 (db' !! k) = v + 1) as Hin.
  { intros k v Hk. destruct (set_nonces_lookup _ _ _ k (NoDup_fst_map_to_list m) Hs) as [_ Hk']. rewrite (Hk' v) by by apply elem_of_map_to_list.
    cbn. destruct (Hm _ _ Hk). apply wrapu64_id. unfold_widths; lia. }
  split; intros k.
  - destruct (m !! k) as [v|] eqn:Hk; [rewrite (Hin _ _ Hk); destruct (Hm _ _ Hk); lia|].
    destruct (set_nonces_lookup _ _ _ k (NoDup_fst_map_to_list m) Hs) as [Hout _]. rewrite Hout; [done|].
    intros ([k' v] & -> & Hv)%list_elem_of_fmap. apply elem_of_map_to_list in Hv. cbn in Hk. congruence.
  - intros v Hk. rewrite (Hin _ _ Hk). lia.
Qed.

Record chain_inv (c : chain S A) : Prop := mkChainInv {
  ci_anchor : anchors_in (ch_blocks c) (nd_txs (ch_node c));
  ci_nodup : NoDup (ch_run c);
  ci_below : ∀ cid, cid ∈ ch_run c → ∃ h, tx_header cid h ∧ vh_Nonce h < account_nonce (nd_nonces (ch_node c)) h;
}.

Lemma new_block_inv env t c packets nd :
  chain_inv c → self_TxId (pb_Self t) ∉ ch_blocks c → ApplySkipsHandledTxActive (ae_version env (self_BlockHeight (pb_Self t))) = true →
  (∀ cid h, listed t cid → tx_header cid h → vh_Nonce h < MaxUint64) → block_ExecuteTx env t (ch_node c) = Some (packets, nd) →
  chain_inv (mkChain nd ({[self_TxId (pb_Self t)]} ∪ ch_blocks c) (ch_run c ++ (tp_TxId <$> packets))) ∧
  ∀ k, default 0 (nd_nonces (ch_node c) !! k) <= default 0 (nd_nonces nd !! k).
Proof.
  intros [Ha Hn Hb] Hfresh Hgate Hmax E. unfold block_ExecuteTx in E. rewrite Hgate in E.
  assert (chain_inv (mkChain (ch_node c) ({[self_TxId (pb_Self t)]} ∪ ch_blocks c) (ch_run c ++ []))) as Hnone.
  { split; cbn; [intros id r x Hr Hx; apply elem_of_union_r; by eapply Ha|by rewrite app_nil_r..]. }
  destruct (cid_Parse _) as [block|] eqn:Hp; [|by injection E as <- <-]. destruct (ae_fetched env); cbn [negb] in E; [|by injection E as <- <-].
  destruct (self_RequiredAuths _) as [|proposer ?]; [done|].
  destruct (apply_entries _ _ _ _ _ _) as [[a nd1]|] eqn:El; [|done]. cbn [mbind option_bind] in E.
  destruct (set_nonces _ _) as [nonces|] eqn:Es; [|done]. cbn in E. injection E as <- <-. clear Hnone.
  assert (loop_inv (ch_blocks c) t (nd_nonces (ch_node c)) a (nd_txs nd1) ∧ nd_nonces nd1 = nd_nonces (ch_node c)) as [Hi Hn1].
  { eapply apply_entries_inv; [|done|..|exact El]; [|done|].
    - split; cbn; [|constructor|by intros ? ?%elem_of_nil|done]. intros id r x Hr Hx. left. by eapply Ha.
    - intros idx e cid tx He (Hty & Hc & Htx). apply (Hmax cid); [|by do 3 eexists]. exists block, e. split_and!; try done.
      apply elem_of_lookup_imap in He as (j & x & [= -> ->] & Hx). by eapply list_elem_of_lookup_2. }
  rewrite Hn1 in Es. destruct (set_nonces_raise _ _ _ (li_updates _ _ _ _ _ Hi) Es) as [Hmono Habove].
  assert (∀ cid, cid ∈ tp_TxId <$> ap_packets a → ∃ h, tx_header cid h ∧ account_nonce (nd_nonces (ch_node c)) h <= vh_Nonce h < account_nonce nonces h) as Hnew.
  { intros cid Hc. destruct (li_run _ _ _ _ _ Hi cid Hc) as (_ & h & v & Hh & Hle & Hv & Hle'). exists h. split; [done|].
    specialize (Habove _ _ Hv). unfold account_nonce at 2. lia. }
  split; [|done]. split; cbn.
  - apply invalidate_anchors. intros id r x Hr Hx. destruct (li_anchor _ _ _ _ _ Hi _ _ _ Hr Hx) as [?|[-> _]]; set_solver.
  - apply NoDup_app. split_and!; [done| |by eapply li_nodup]. intros cid Hc Hc'.
    destruct (Hb _ Hc) as (h & Hh & Hlt), (Hnew _ Hc') as (h' & Hh' & Hle). rewrite (tx_header_fun _ _ _ Hh Hh') in Hlt. lia.
  - intros cid [Hc|Hc]%elem_of_app; [|destruct (Hnew _ Hc) as (h & Hh & _ & Hlt); by eauto].
    destruct (Hb _ Hc) as (h & Hh & Hlt). exists h. split; [done|]. specialize (Hmono (HashKeyAuths (vh_RequiredAuths h))).
    unfold account_nonce in *. lia.
Qed.

Lemma chain_step_inv c c' :
  chain_inv c → chain_step c c' →
  chain_inv c' ∧ ∀ k, default 0 (nd_nonces (ch_node c) !! k) <= default 0 (nd_nonces (ch_node c') !! k).
Proof.
  intros Hc Hs. destruct Hs as [env t packets nd Hf Hg Hm E|env db Hn Hp|u db Hu Hi|u|nd Ht Hn].
  - by eapply new_block_inv.
  - destruct Hc. split; [|done]. split; cbn; [by eapply pool_anchors|done..].
  - destruct Hc. split; [|done]. split; cbn; [by eapply ingest_anchors|done..].
  - destruct Hc. split; [|done]. split; cbn; [by apply result_anchors|done..].
  - destruct Hc. cbn. rewrite Hn. split; [|done]. split; cbn; [by rewrite Ht|done|by rewrite Hn].
Qed.

End lemmas.

(** *** Applying a block again *)

Section again.
Context {S : Type} `{LedgerDb S} {A : Type} `{BridgeActions A} `{CidsLaws} `{BlockData} `{Codec} `{KeyHash}.
Implicit Types (nd : node S A) (a : applied).

(** What the application reads of a record. *)
Definition mark (db : txdb) (cid : string) : option (TransactionStatus * option string) := (λ r, (rec_Status r, rec_AnchoredId r)) <$> db !! cid.

Definition verdict (t : TxProposeBlock) (db : txdb) (nonces : noncedb) (cid : string) (h : VSCTransactionHeader) : bool :=
  handled (db !! cid) (self_TxId (pb_Self t)) h (account_nonce nonces h).

Lemma verdict_mark t db db' nonces cid h : mark db cid = mark db' cid → verdict t db nonces cid h = verdict t db' nonces cid h.
Proof.
  unfold mark, verdict, handled, includedByThisBlock. destruct (db !! cid) as [r|], (db' !! cid) as [r'|]; cbn; try done.
  by intros [= -> ->].
Qed.

Lemma mark_ne tx txs vid bid height idx db cid : cid ≠ off_TxId tx → mark (ingest_offchain tx txs vid bid height idx db) cid = mark db cid.
Proof.
  intros Hne. unfold mark, ingest_offchain. destruct (Ingest _ _) as [db'|] eqn:E; [|done]. change (default db (Some db')) with db'.
  by rewrite (ingest_lookup _ _ _ cid E), decide_False.
Qed.

Lemma op_data_storable v : (∀ n, ToData v !! "rc_limit" = Some (FUint n) → storable n = true) → ∀ auths i, op_storable (mkTransactionOperation auths (tx_Type v) i (ToData v)) = true.
Proof.
  intros Hv auths i. unfold op_storable. cbn. apply forallb_forall. intros [k x] Hk%list_elem_of_In. apply elem_of_map_to_list in Hk. cbn.
  destruct x as [n| | |]; try done. destruct v; cbn in Hk, Hv; try (apply lookup_gset_to_gmap_Some in Hk as [_ ?]; done).
  - destruct (decide (k = "rc_limit")) as [->|]; [by apply Hv|]. rewrite lookup_insert_ne in Hk by done.
    by apply lookup_gset_to_gmap_Some in Hk as [_ ?].
  - destruct (decide (k = "amount")) as [->|]; [by rewrite lookup_insert_eq in Hk|]. rewrite lookup_insert_ne in Hk by done.
    by apply lookup_gset_to_gmap_Some in Hk as [_ ?].
Qed.
Lemma mark_included version t entries idx e cid tx db :
  well_listed version t entries → (idx, e) ∈ entries → entry_tx t idx e cid tx →
  mark (ingest_offchain tx (default [] (ToTransaction json_text (version (end_height t)) tx)) (self_TxId (pb_Self t)) (self_BlockId (pb_Self t))
          (end_height t) (Z.of_nat idx) db) (off_TxId tx) = Some (INCLUDED, Some (self_TxId (pb_Self t))).
Proof.
  intros Hw Hin He. destruct (wl_storable _ _ _ Hw _ _ _ _ Hin He) as (Hn & Hrc & Hops). pose proof (wl_height _ _ _ Hw) as Hh.
  unfold mark, ingest_offchain, Ingest. cbn [itu_Nonce itu_RcLimit itu_AnchoredHeight itu_Ops itu_Id].
  rewrite Hn, Hrc. change (default 0 (Some (end_height t))) with (end_height t). rewrite Hh. cbn [andb].
  replace (forallb op_storable _) with true.
  - cbn. by rewrite lookup_insert_eq.
  - symmetry. apply forallb_forall. intros op Hop%list_elem_of_In. apply elem_of_lookup_imap in Hop as (j & v & -> & Hv).
    apply op_data_storable, Hops. by eapply list_elem_of_lookup_2.
Qed.

(** The marks of listed transactions: that of the block once it has run them, else the
    one from before. *)
Definition marks_follow (t : TxProposeBlock) (entries : list (nat * VscBlockTx)) (db0 : txdb) (nonces : noncedb) (a : applied) (db : txdb) : Prop :=
  ∀ idx e cid tx, (idx, e) ∈ entries → entry_tx t idx e cid tx →
    mark db cid = if bool_decide (cid ∈ ap_seen a) && negb (verdict t db0 nonces cid (off_Headers tx))
                  then Some (INCLUDED, Some (self_TxId (pb_Self t))) else mark db0 cid.

Lemma marks_follow_db t entries db0 nonces a db db' :
  (∀ idx e cid, (idx, e) ∈ entries → vbt_Type e = BlockTypeTransaction → cid_Parse (vbt_Id e) = Some cid → mark db' cid = mark db cid) →
  marks_follow t entries db0 nonces a db → marks_follow t entries db0 nonces a db'.
Proof. intros Hdb Hm idx e cid tx Hin He. rewrite (Hdb idx e cid Hin) by apply He. by eapply Hm. Qed.

(** The verdict of the loop is that on the index from before the block. *)
Lemma verdict_follows t entries db0 nonces a db idx e cid tx :
  marks_follow t entries db0 nonces a db → (idx, e) ∈ entries → entry_tx t idx e cid tx → cid ∉ ap_seen a →
  verdict t db nonces cid (off_Headers tx) = verdict t db0 nonces cid (off_Headers tx).
Proof. intros Hm Hin He Hs. apply verdict_mark. rewrite (Hm _ _ _ _ Hin He). by rewrite bool_decide_eq_false_2. Qed.

(** One listed transaction: the new [applied] in terms of the verdict. *)
Definition run_entry (version : Z → Version) (t : TxProposeBlock) (cid : string) (tx : OffchainTransaction) (skip : bool) (a : applied) : applied :=
  let a' := mkApplied ({[cid]} ∪ ap_seen a) (ap_packets a) (ap_nonceUpdates a) (ap_confirmed a) in
  if skip then a'
  else match vh_RequiredAuths (off_Headers tx) with
       | [] => a'
       | payer :: _ =>
           note_nonce (HashKeyAuths (vh_RequiredAuths (off_Headers tx))) (off_Headers tx) a'
             match ToTransaction json_text (version (end_height t)) tx with None => mkTxPacket cid [] true payer | Some ops => mkTxPacket cid ops false "" end
       end.

Lemma run_entry_seen version t cid tx skip a : ap_seen (run_entry version t cid tx skip a) = {[cid]} ∪ ap_seen a.
Proof. unfold run_entry. destruct skip; [done|]. by destruct (vh_RequiredAuths _). Qed.

Lemma apply_transaction_run version t nonces idx id cid a db tx :
  AsTransaction cid id (entry_self t id idx) = Some tx → cid ∉ ap_seen a →
  apply_transaction version t true nonces idx id cid a db =
  (run_entry version t cid tx (verdict t db nonces cid (off_Headers tx)) a,
   if verdict t db nonces cid (off_Headers tx) then db
   else ingest_offchain tx (default [] (ToTransaction json_text (version (end_height t)) tx)) (self_TxId (pb_Self t)) (self_BlockId (pb_Self t))
          (end_height t) (Z.of_nat idx) db).
Proof.
  intros Htx Hs. unfold apply_transaction, run_entry, verdict, account_nonce. rewrite Htx, bool_decide_eq_false_2 by done. cbn [andb].
  unfold GetNonce. destruct (handled _ _ _ _); [done|]. by destruct (vh_RequiredAuths (off_Headers tx)).
Qed.

Lemma run_marks version t entries db0 nonces a db idx e cid tx :
  well_listed version t entries → marks_follow t entries db0 nonces a db → (idx, e) ∈ entries → entry_tx t idx e cid tx → cid ∉ ap_seen a →
  let '(a', db') := apply_transaction version t true nonces idx (vbt_Id e) cid a db in marks_follow t entries db0 nonces a' db'.
Proof.
  intros Hw Hm Hin He Hs. pose proof He as (Hty & Hp & Htx). rewrite (apply_transaction_run _ _ _ _ _ _ _ _ _ Htx Hs).
  pose proof (verdict_follows _ _ _ _ _ _ _ _ _ _ Hm Hin He Hs) as Hv. pose proof (decoded_id _ _ _ _ Htx) as Hid.
  pose proof (wl_id _ _ _ Hw _ _ _ Hin Hty Hp) as Hcid.
  intros idx' e' cid' tx' Hin' He'. rewrite run_entry_seen. destruct (decide (cid' = cid)) as [->|Hne].
  - rewrite bool_decide_eq_true_2 by set_solver. cbn [andb].
    assert (off_Headers tx' = off_Headers tx) as -> by (eapply decoded_header; [apply He'|exact Htx]). rewrite <- Hv.
    destruct (verdict t db nonces cid (off_Headers tx)); cbn [negb].
    + rewrite (Hm _ _ _ _ Hin He). by rewrite bool_decide_eq_false_2.
    + rewrite Hcid, <- Hid. by eapply mark_included.
  - assert (bool_decide (cid' ∈ {[cid]} ∪ ap_seen a) = bool_decide (cid' ∈ ap_seen a)) as -> by (apply bool_decide_ext; set_solver).
    rewrite <- (Hm _ _ _ _ Hin' He'). destruct (verdict t db nonces cid (off_Headers tx)); [done|]. apply mark_ne. congruence.
Qed.
(** What an entry adds, given the verdicts. *)
Definition entry_applied (version : Z → Version) (t : TxProposeBlock) (skips : string → VSCTransactionHeader → bool) (a : applied) (ie : nat * VscBlockTx) : applied :=
  match cid_Parse (vbt_Id ie.2) with
  | Some cid =>
      if vbt_Type ie.2 =? BlockTypeTransaction then
        match AsTransaction cid (vbt_Id ie.2) (entry_self t (vbt_Id ie.2) ie.1) with
        | Some tx => if bool_decide (cid ∈ ap_seen a) then a else run_entry version t cid tx (skips cid (off_Headers tx)) a
        | None => a
        end
      else a
  | None => a
  end.

Lemma set_output_mark u db cid : sru_Status u = None ∨ cid ≠ sru_Id u → mark (SetOutput u db) cid = mark db cid.
Proof.
  intros Hu. unfold mark. destruct (set_output_lookup u db cid) as [->|(-> & r & r' & -> & -> & Hst & Han & _)]; [done|].
  destruct Hu as [Hu|?]; [|done]. cbn. by rewrite Hst, Hu, Han.
Qed.

Lemma set_outputs_mark {B} (f : B → SetResultUpdate) l db cid :
  (∀ x, x ∈ l → sru_Status (f x) = None ∨ cid ≠ sru_Id (f x)) → mark (foldl (λ db x, SetOutput (f x) db) db l) cid = mark db cid.
Proof.
  revert db. induction l as [|x l IH]; intros db Hl; [done|]. cbn [foldl]. rewrite IH by set_solver. apply set_output_mark, Hl. set_solver.
Qed.

Lemma container_transaction n : String.eqb (container_Type n) "transaction" = (n =? BlockTypeTransaction).
Proof. unfold container_Type. destruct (n =? BlockTypeTransaction); [done|]. repeat (case_match; try done). Qed.

Lemma container_oplog n : String.eqb (container_Type n) "oplog" = true → n = BlockTypeOplog.
Proof. unfold container_Type. repeat (case_match; try done). by z_of_bool. Qed.

Lemma entry_step env t entries db0 nonces idx e a nd a' nd' :
  well_listed (ae_version env) t entries → marks_follow t entries db0 nonces a (nd_txs nd) → (idx, e) ∈ entries → nd_nonces nd = nonces →
  apply_entry env t true idx e a nd = Some (a', nd') →
  marks_follow t entries db0 nonces a' (nd_txs nd') ∧ nd_nonces nd' = nonces ∧
  a' = entry_applied (ae_version env) t (verdict t db0 nonces) a (idx, e).
Proof.
  intros Hw Hm Hin Hn. unfold apply_entry, entry_applied. cbn [fst snd]. destruct (cid_Parse (vbt_Id e)) as [cid|] eqn:Hp; [|by intros [= <- <-]].
  rewrite container_transaction. destruct (vbt_Type e =? BlockTypeTransaction) eqn:Ety.
  { apply Z.eqb_eq in Ety. rewrite Hn. destruct (AsTransaction cid (vbt_Id e) (entry_self t (vbt_Id e) idx)) as [tx|] eqn:Htx.
    2:{ unfold apply_transaction. rewrite Htx. by intros [= <- <-]. }
    destruct (decide (cid ∈ ap_seen a)) as [Hs|Hs].
    { unfold apply_transaction. rewrite Htx, bool_decide_eq_true_2 by done. by intros [= <- <-]. }
    assert (entry_tx t idx e cid tx) as He by done. rewrite bool_decide_eq_false_2 by done.
    pose proof (run_marks _ _ _ _ _ _ _ _ _ _ _ Hw Hm Hin He Hs) as Hrun.
    rewrite (apply_transaction_run _ _ _ _ _ _ _ _ _ Htx Hs) in *. intros [= <- <-]. split; [done|]. split; [done|].
    by rewrite (verdict_follows _ _ _ _ _ _ _ _ _ _ Hm Hin He Hs). }
  destruct (String.eqb _ "output").
  { destruct (as_output _ _) as [out|]; intros [= <- <-]; [|done]. split_and!; [|done..]. eapply marks_follow_db; [|exact Hm].
    intros idx' e' cid' _ _ _. apply set_outputs_mark. intros x _. by left. }
  destruct (String.eqb _ "oplog") eqn:Eop.
  { apply container_oplog in Eop. destruct (as_oplog _ _) as [o|] eqn:Ho; intros [= <- <-]; [|done]. unfold oplog_ExecuteTx.
    destruct (IngestOplog _ _ _) as [s ac]. split_and!; [|done..]. eapply marks_follow_db; [|exact Hm]. intros idx' e' cid' Hin' Hty' Hp'.
    apply set_outputs_mark. intros x Hx. right. cbn. rewrite (wl_id _ _ _ Hw _ _ _ Hin' Hty' Hp'). intros E.
    apply (wl_results _ _ _ Hw _ _ _ _ _ _ Hin Eop Hp Ho Hin' Hty'). rewrite E. by apply list_elem_of_fmap_2. }
  destruct (String.eqb _ "pendulum_settlement").
  { destruct (as_settlement _) as [rec|]; [|by intros [= <- <-]]. unfold settle_entry. destruct (applyPendulumSettlement _ _ _ _ _ _) as [r|]; [|done].
    by intros [= <- <-]. }
  destruct (String.eqb _ "safety_slash_reverse"); [|by intros [= <- <-]]. destruct (as_reverse _); by intros [= <- <-].
Qed.

Lemma entries_step env t entries db0 nonces l a nd a' nd' :
  well_listed (ae_version env) t entries → marks_follow t entries db0 nonces a (nd_txs nd) → l ⊆ entries → nd_nonces nd = nonces →
  apply_entries env t true l a nd = Some (a', nd') →
  marks_follow t entries db0 nonces a' (nd_txs nd') ∧ nd_nonces nd' = nonces ∧
  a' = foldl (entry_applied (ae_version env) t (verdict t db0 nonces)) a l.
Proof.
  intros Hw. revert a nd. induction l as [|[i e] l IH]; intros a nd Hm Hl Hn; [by intros [= <- <-]|]. rewrite apply_entries_cons. cbn [fst snd].
  destruct (apply_entry _ _ _ _ _ _ _) as [[a1 nd1]|] eqn:E; [|done]. cbn [mbind option_bind foldl].
  assert ((i, e) ∈ entries) as Hin by set_solver. destruct (entry_step _ _ _ _ _ _ _ _ _ _ _ Hw Hm Hin Hn E) as (Hm1 & Hn1 & <-). apply IH; [done|set_solver|done].
Qed.

(** It only stops at a settlement that panics. *)
Lemma apply_entries_total env t l a nd :
  (∀ idx rec h nd, settle_entry env idx rec h nd ≠ None) → ∃ a' nd', apply_entries env t true l a nd = Some (a', nd').
Proof.
  intros Hs. revert a nd. induction l as [|[i e] l IH]; intros a nd; [by do 2 eexists|]. rewrite apply_entries_cons. cbn [fst snd].
  assert (∃ a1 nd1, apply_entry env t true i e a nd = Some (a1, nd1)) as (a1 & nd1 & ->); [|apply IH].
  unfold apply_entry. destruct (cid_Parse _) as [cid|]; [|by do 2 eexists].
  repeat (destruct (String.eqb _ _); [first [destruct (apply_transaction _ _ _ _ _ _ _ _ _); by do 2 eexists | by do 2 eexists |
    destruct (as_settlement _) as [rec|]; [|by do 2 eexists]; specialize (Hs i rec (end_height t) nd); destruct (settle_entry _ _ _ _ _); [by do 2 eexists|done] |
    destruct (as_reverse _); by do 2 eexists]|]). by do 2 eexists.
Qed.

Lemma seen_grows version t skips l a : ap_seen a ⊆ ap_seen (foldl (entry_applied version t skips) a l).
Proof.
  revert a. induction l as [|ie l IH]; intros a; [done|]. cbn [foldl]. etrans; [|apply IH]. unfold entry_applied.
  repeat (case_match; try done). rewrite run_entry_seen. set_solver.
Qed.

Lemma listed_seen version t skips l a idx e cid tx :
  (idx, e) ∈ l → entry_tx t idx e cid tx → cid ∈ ap_seen (foldl (entry_applied version t skips) a l).
Proof.
  intros Hin (Hty & Hp & Htx). revert a. induction l as [|ie l IH]; intros a; [by apply elem_of_nil in Hin|]. cbn [foldl].
  apply elem_of_cons in Hin as [<-|Hin]; [|by apply IH]. apply seen_grows. unfold entry_applied. cbn [fst snd]. rewrite Hp, Hty, Htx. cbn.
  case_bool_decide; [done|]. rewrite run_entry_seen. set_solver.
Qed.

Lemma applied_ext version t skips skips' l a :
  (∀ idx e cid tx, (idx, e) ∈ l → entry_tx t idx e cid tx → skips cid (off_Headers tx) = skips' cid (off_Headers tx)) →
  foldl (entry_applied version t skips) a l = foldl (entry_applied version t skips') a l.
Proof.
  revert a. induction l as [|[i e] l IH]; intros a Hs; [done|]. cbn [foldl].
  assert (entry_applied version t skips a (i, e) = entry_applied version t skips' a (i, e)) as ->; [|apply IH; set_solver].
  unfold entry_applied. cbn [fst snd]. destruct (cid_Parse _) as [cid|] eqn:Hp; [|done]. destruct (_ =? _) eqn:Hty; [|done]. apply Z.eqb_eq in Hty.
  destruct (AsTransaction _ _ _) as [tx|] eqn:Htx; [|done]. rewrite (Hs i e cid tx); [done|set_solver|done].
Qed.
Lemma invalidate_marks cs db cid :
  mark (invalidate cs db) cid = mark db cid ∨ mark (invalidate cs db) cid = None ∧ ∃ x, mark db cid = Some (UNCONFIRMED, x).
Proof.
  unfold invalidate. revert db. induction cs as [|c cs IH]; intros db; [by left|]. cbn [foldl].
  assert (mark (InvalidateCompetingTransactions c.2.1 (elements c.2.2) db) cid = mark db cid ∨
          mark (InvalidateCompetingTransactions c.2.1 (elements c.2.2) db) cid = None ∧ ∃ x, mark db cid = Some (UNCONFIRMED, x)) as Hone.
  { unfold InvalidateCompetingTransactions, mark. destruct (forallb _ _); [|by left]. rewrite map_lookup_filter.
    destruct (db !! cid) as [r|]; [|by left]. cbn. destruct (competing _ _ r) eqn:Ec; cbn; [|by left]. right. split; [done|].
    unfold competing in Ec. apply andb_true_iff in Ec as [[Est%bool_decide_eq_true _]%andb_true_iff _]. rewrite Est. by eexists. }
  destruct (IH (InvalidateCompetingTransactions c.2.1 (elements c.2.2) db)) as [->|[-> [x Hx]]]; [done|]. right. split; [done|].
  destruct Hone as [E|[E _]]; rewrite E in Hx; [by exists x|done].
Qed.

(** A verdict that was to skip stays so when an account is ahead or a pending record
    is gone. *)
Lemma skip_again t db db' nonces nonces' cid h :
  mark db' cid = mark db cid ∨ mark db' cid = None ∧ (∃ x, mark db cid = Some (UNCONFIRMED, x)) →
  account_nonce nonces h <= account_nonce nonces' h → verdict t db nonces cid h = true → verdict t db' nonces' cid h = true.
Proof.
  unfold verdict, handled, mark, includedByThisBlock. intros Hm Hle Hv.
  destruct (db !! cid) as [r|], (db' !! cid) as [r'|]; cbn in *; try (destruct Hm as [Hm|[Hm [x Hx]]]; done).
  - destruct Hm as [[= -> ->]|[? _]]; [|done]. apply orb_true_iff in Hv as [Hv|Hv]; apply orb_true_iff; [by left|right].
    apply andb_true_iff in Hv as [-> Hv%Z.ltb_lt]. apply Z.ltb_lt. lia.
  - destruct Hm as [?|[_ [x [= Est _]]]]; [done|]. rewrite Est in Hv. cbn in Hv. apply andb_true_iff in Hv as [Ha Hv%Z.ltb_lt].
    apply andb_true_iff in Ha as [_ ->]. apply Z.ltb_lt. lia.
  - apply andb_true_iff in Hv as [-> Hv%Z.ltb_lt]. apply Z.ltb_lt. lia.
Qed.

(** The verdicts after a crash are those of the first time. *)
Lemma verdict_again t entries db0 nonces a db db1 nonces1 idx e cid tx :
  marks_follow t entries db0 nonces a db → (idx, e) ∈ entries → entry_tx t idx e cid tx →
  mark db1 cid = mark db cid ∨ mark db1 cid = None ∧ (∃ x, mark db cid = Some (UNCONFIRMED, x)) →
  (∀ k, default 0 (nonces !! k) <= default 0 (nonces1 !! k)) → cid ∈ ap_seen a ∨ db1 = db ∧ nonces1 = nonces →
  verdict t db0 nonces cid (off_Headers tx) = verdict t db1 nonces1 cid (off_Headers tx).
Proof.
  intros Hm Hin He Hmark Hle Hs. pose proof (Hm _ _ _ _ Hin He) as Hc. destruct (decide (cid ∈ ap_seen a)) as [Hseen|Hseen].
  - rewrite bool_decide_eq_true_2 in Hc by done. cbn [andb] in Hc. destruct (verdict t db0 nonces cid (off_Headers tx)) eqn:Hv; cbn [negb] in Hc.
    + symmetry. eapply skip_again; [|apply Hle|exact Hv]. by rewrite <- Hc.
    + destruct Hmark as [Hmark|(_ & x & Hx)]; [|by rewrite Hc in Hx]. rewrite Hc in Hmark. unfold mark in Hmark. unfold verdict, handled, includedByThisBlock.
      destruct (db1 !! cid) as [r|]; [|done]. cbn in *. injection Hmark as -> ->. rewrite bool_decide_eq_true_2 with (P := Some _ = _) by done. done.
  - destruct Hs as [?|[-> ->]]; [done|]. rewrite bool_decide_eq_false_2 in Hc by done. cbn in Hc. by apply verdict_mark.
Qed.

Lemma set_nonces_le l (db db' : noncedb) :
  NoDup l.*1 → (∀ k v, (k, v) ∈ l → default 0 (db !! k) <= v < MaxUint64 ∧ 0 <= v) → set_nonces l db = Some db' →
  ∀ k, default 0 (db !! k) <= default 0 (db' !! k).
Proof.
  intros Hnd Hl Hs k. destruct (set_nonces_lookup _ _ _ k Hnd Hs) as [Hout Hin]. destruct (decide (k ∈ l.*1)) as [Hk|Hk]; [|by rewrite Hout].
  apply list_elem_of_fmap in Hk as ([k' v] & -> & Hv). rewrite (Hin _ Hv). destruct (Hl _ _ Hv) as [? ?]. cbn in *. unfold "+u64".
  rewrite wrapu64_id by (unfold_widths; lia). lia.
Qed.

Lemma set_nonces_total l (db db' : noncedb) db1 : set_nonces l db = Some db' → ∃ db1', set_nonces l db1 = Some db1'.
Proof.
  unfold set_nonces. revert db db1. induction l as [|[k v] l IH]; intros db db1; [by eexists|]. cbn [foldl mbind option_bind fst snd]. unfold SetNonce at 2 4.
  destruct (storable _); [by apply IH|]. intros E. exfalso. revert E. clear. induction l as [|x l IH]; [done|]. by cbn.
Qed.
(** The index and the nonces a crash leaves give the verdicts of the first time. *)
Lemma crash_verdicts env t blocks block proposer k j i nd ndc idx e cid tx :
  ApplySkipsHandledTxActive (ae_version env (self_BlockHeight (pb_Self t))) = true →
  self_TxId (pb_Self t) ∉ blocks → anchors_in blocks (nd_txs nd) → well_listed (ae_version env) t (imap pair (vb_Transactions (dag_block block))) →
  block_crash env t block proposer k j i nd = Some ndc →
  (idx, e) ∈ imap pair (vb_Transactions (dag_block block)) → entry_tx t idx e cid tx →
  verdict t (nd_txs nd) (nd_nonces nd) cid (off_Headers tx) = verdict t (nd_txs ndc) (nd_nonces ndc) cid (off_Headers tx).
Proof.
  intros Hgate Hfresh Ha Hw Hcrash Hin He. unfold block_crash in Hcrash. rewrite Hgate in Hcrash.
  set (entries := imap pair (vb_Transactions (dag_block block))) in *.
  destruct (apply_entries _ _ _ _ _ _) as [[a nd1]|] eqn:El; [|done]. cbn [mbind option_bind] in Hcrash.
  assert (marks_follow t entries (nd_txs nd) (nd_nonces nd) no_applied (nd_txs nd)) as Hm0 by (intros ? ? ? ? _ _; done).
  assert (take k entries ⊆ entries) as Hsub by (intros x Hx; rewrite <- (take_drop k entries); by apply elem_of_app; left).
  match type of El with apply_entries _ _ _ _ _ ?x = _ => set (nd0 := x) in El end.
  destruct (entries_step env t entries (nd_txs nd) (nd_nonces nd) _ no_applied nd0 _ _ Hw Hm0 Hsub eq_refl El) as (Hm & Hn & Hap).
  assert (loop_inv blocks t (nd_nonces nd) a (nd_txs nd1)) as Hi.
  { eapply apply_entries_inv; [|done| | |exact El]; [|done|].
    - split; cbn; [|constructor|by intros ? ?%elem_of_nil|done]. intros id r x Hr Hx. left. by eapply Ha.
    - intros i' e' c tx' Hin' He'. destruct (wl_storable _ _ _ Hw _ _ _ _ (Hsub _ Hin') He') as [Hst _]. unfold storable in Hst. z_of_bool.
      unfold_widths; lia. }
  destruct (decide _) as [Hk|Hk].
  { injection Hcrash as <-. rewrite Hn. eapply verdict_again; [done..|by left|done|by right]. }
  destruct (set_nonces _ _) as [nonces1|] eqn:Es; [|done]. cbn in Hcrash. injection Hcrash as <-. cbn [nd_txs nd_nonces].
  eapply verdict_again; [exact Hm|exact Hin|exact He|..].
  - destruct (decide _); [by left|apply invalidate_marks].
  - rewrite Hn in Es. eapply set_nonces_le; [| |exact Es].
    + rewrite fmap_take. pose proof (NoDup_fst_map_to_list (ap_nonceUpdates a)) as Hnd. rewrite <- (take_drop j (_ <$> _)) in Hnd.
      by apply NoDup_app in Hnd as [? _].
    + intros q v Hq. apply (li_updates _ _ _ _ _ Hi). apply elem_of_map_to_list. rewrite <- (take_drop j (map_to_list _)). by apply elem_of_app; left.
  - left. rewrite Hap. eapply listed_seen; [|exact He]. by rewrite take_ge by lia.
Qed.

(** A node that applies a block again after a crash runs the same transactions.
    The first application stops at any point: after any of its entries, any of the
    nonces or any of the last updates; the memory is lost, and with it what was run.
    The second application returns the same transactions as the first one would have,
    in the same order, whatever the rest of the node and of its reads is, as long as
    the block lists what an honest producer does. *)
Theorem reapply_same env env' t blocks block proposer rest k j i nd packets nd' ndc nd2 :
  cid_Parse (proposed_block t) = Some block → self_RequiredAuths (pb_Self t) = proposer :: rest →
  ae_fetched env = true → ae_fetched env' = true → ae_version env' = ae_version env →
  ApplySkipsHandledTxActive (ae_version env (self_BlockHeight (pb_Self t))) = true →
  self_TxId (pb_Self t) ∉ blocks → anchors_in blocks (nd_txs nd) → well_listed (ae_version env) t (imap pair (vb_Transactions (dag_block block))) →
  (∀ idx rec h n, settle_entry env' idx rec h (n : node S A) ≠ None) →
  block_ExecuteTx env t nd = Some (packets, nd') → block_crash env t block proposer k j i nd = Some ndc →
  nd_txs nd2 = nd_txs ndc → nd_nonces nd2 = nd_nonces ndc →
  ∃ nd3, block_ExecuteTx env' t nd2 = Some (packets, nd3).
Proof.
  intros Hp Hauths Hf Hf' Hver Hgate Hfresh Ha Hw Hset Hfirst Hcrash Ht2 Hn2.
  pose proof (λ idx e cid tx, crash_verdicts env t blocks block proposer k j i nd ndc idx e cid tx Hgate Hfresh Ha Hw Hcrash) as Hv.
  unfold block_ExecuteTx in *. rewrite Hp, Hauths, ?Hf, ?Hf', ?Hver, Hgate in *. cbn [negb] in *.
  set (entries := imap pair (vb_Transactions (dag_block block))) in *.
  destruct (apply_entries env _ _ _ _ _) as [[a nd1]|] eqn:El; [|done]. cbn [mbind option_bind] in Hfirst.
  destruct (set_nonces _ (nd_nonces nd1)) as [n1|] eqn:Es; [|done]. cbn in Hfirst. injection Hfirst as <- <-.
  match goal with |- context [apply_entries env' t true entries no_applied ?x] => set (nd2' := x) end.
  destruct (apply_entries_total env' t entries no_applied nd2' Hset) as (a' & nd1' & El').
  assert (∀ db n, marks_follow t entries db n no_applied db) as Hm0 by (intros ? ? ? ? ? ? _ _; done).
  match type of El with apply_entries _ _ _ _ _ ?x = _ => set (nd0 := x) in El end.
  destruct (entries_step env t entries (nd_txs nd) (nd_nonces nd) entries no_applied nd0 _ _ Hw (Hm0 _ _) ltac:(done) eq_refl El) as (_ & _ & Hap).
  rewrite <- Hver in Hw.
  destruct (entries_step env' t entries (nd_txs nd2) (nd_nonces nd2) entries no_applied nd2' _ _ Hw (Hm0 _ _) ltac:(done) eq_refl El') as (_ & _ & Hap').
  assert (a' = a) as ->.
  { rewrite Hap, Hap', Hver. symmetry. apply applied_ext. intros idx e cid tx Hin He. rewrite Ht2, Hn2. by eapply Hv. }
  rewrite El'. cbn [mbind option_bind]. destruct (set_nonces_total _ _ _ (nd_nonces nd1') Es) as [n2 ->]. cbn. by eexists.
Qed.
End again.

(** *** Where a node resumes *)

Lemma later_header_spec height l best :
  (∀ b, best = Some b → hr_SlotHeight b <= height) →
  match foldl (later_header height) best l with
  | Some h => (best = Some h ∨ h ∈ l) ∧ hr_SlotHeight h <= height ∧
              (∀ b, best = Some b → hr_SlotHeight b <= hr_SlotHeight h) ∧ ∀ x, x ∈ l → hr_SlotHeight x <= height → hr_SlotHeight x <= hr_SlotHeight h
  | None => best = None ∧ ∀ x, x ∈ l → height < hr_SlotHeight x
  end.
Proof.
  revert best. induction l as [|x l IH]; intros best Hb; cbn [foldl].
  { destruct best as [b|]; [|split; [done|by intros ? ?%elem_of_nil]]. split_and!; [by left|by apply Hb|by intros ? [= ->]|by intros ? ?%elem_of_nil]. }
  assert (∀ b, later_header height best x = Some b → hr_SlotHeight b <= height) as Hb'.
  { unfold later_header. intros b. destruct (Z.ltb_spec height (hr_SlotHeight x)); [apply Hb|]. destruct best as [b0|]; [|by intros [= <-]].
    destruct (_ <? _); intros [= <-]; [done|by apply Hb]. }
  specialize (IH _ Hb'). destruct (foldl _ _ l) as [h|].
  - destruct IH as (Hsrc & Hle & Hbest & Hall). unfold later_header in Hsrc, Hbest.
    destruct (Z.ltb_spec height (hr_SlotHeight x)) as [Hx|Hx].
    { split_and!; [set_solver|done|done|]. intros y [->|Hy]%elem_of_cons Hyle; [lia|by apply Hall]. }
    destruct best as [b|].
    + destruct (Z.ltb_spec (hr_SlotHeight b) (hr_SlotHeight x)).
      * specialize (Hbest x eq_refl). split_and!; [set_solver|done|intros ? [= <-]; lia|]. intros y [->|Hy]%elem_of_cons Hyle; [done|by apply Hall].
      * specialize (Hbest b eq_refl). split_and!; [set_solver|done|by intros ? [= <-]|]. intros y [->|Hy]%elem_of_cons Hyle; [lia|by apply Hall].
    + specialize (Hbest x eq_refl). split_and!; [set_solver|done|done|]. intros y [->|Hy]%elem_of_cons Hyle; [done|by apply Hall].
  - destruct IH as [Hnone Hall]. unfold later_header in Hnone. destruct (Z.ltb_spec height (hr_SlotHeight x)).
    + split; [done|]. intros y [->|Hy]%elem_of_cons; [done|by apply Hall].
    + by destruct best as [b|]; [destruct (_ <? _)|].
Qed.

(** The last block at a height. *)
Lemma last_block height (db : headerdb) h :
  GetBlockByHeight height db = Some h → (∃ id, db !! id = Some h) ∧ hr_SlotHeight h <= height ∧
  ∀ id x, db !! id = Some x → hr_SlotHeight x <= height → hr_SlotHeight x <= hr_SlotHeight h.
Proof.
  unfold GetBlockByHeight. destruct (storable height); [|done]. pose proof (later_header_spec height (map_to_list db).*2 None ltac:(done)) as Hs.
  intros E. rewrite E in Hs. destruct Hs as ([?|Hin] & Hle & _ & Hall); [done|]. split_and!; [|done|].
  - apply list_elem_of_fmap in Hin as ([id x] & -> & Hin). exists id. by apply elem_of_map_to_list.
  - intros id x Hx. apply Hall, list_elem_of_fmap. exists (id, x). split; [done|]. by apply elem_of_map_to_list.
Qed.

(** With outputs that wait for a block, a node resumes in the slot of the last block it
    has applied, so that it runs again what came after. *)
Lemma resumes_in_slot lastBlk lastSaved sl (headers : headerdb) h :
  lastBlk ≠ 0 → lastSaved ≠ 0 → TxOutputs sl ≠ ∅ → GetBlockByHeight lastBlk headers = Some h → 0 <= hr_SlotHeight h < MaxUint64 →
  hr_SlotHeight h <= SaveBlockHeight lastBlk lastSaved sl headers <= hr_SlotHeight h + 1.
Proof.
  intros H1 H2 Ho Hh Hb. unfold SaveBlockHeight. rewrite (proj2 (Z.eqb_neq _ _) H1), (proj2 (Z.eqb_neq _ _) H2). cbn [orb].
  rewrite bool_decide_eq_false_2 by done. rewrite Hh, (wrapu64_id (hr_SlotHeight h)) by (unfold_widths; lia). destruct (Z.eqb_spec lastSaved (hr_SlotHeight h)) as [->|]; [lia|].
  unfold "+u64". rewrite wrapu64_id by (unfold_widths; lia). lia.
Qed.
