(* ===== verification/ElectionBond.v ===== *)
(** The stake a candidate counts with: [modules/election-proposer/]
    ([bond_maturity.go], [bond_gate.go], [election_weight.go]).

    A stake counts once it has been held through a window of blocks; recent
    members keep the weight they were ratified with; few new members enter per
    election, and a committee that would become too small is filled up again
    with members of the previous one. *)
From S2P Require Import Prelude GoMaps GoSlices GoStrings LedgerDb Settlement ConsensusVersion.

(** ** Maturity *)

Definition maturityWindowStart (electionHeight w : Z) : Z :=
  if (w =? 0) || (electionHeight <=? w) then 0 else electionHeight -u64 w.

(** The body is that of the settlement's sampler. *)
Definition sampleMaturityWindow (start stop : Z) (count : nat) : list Z :=
  if stop =? 0 then [] else sampleBlocksAcrossWindow start stop count.

Section maturity.
(** [GetConsensusBalanceAt] and [ConsensusReverseCreditsInRange]; [None] is a read
    error. *)
Context (balance : string → Z → option Z) (reverses : string → Z → Z → option (list LedgerRecord)).

(** A balance with the reversals that come after it. *)
Definition add_back (revs : list LedgerRecord) (bh v : Z) : Z :=
  foldl (λ v rc, if (bh <? lr_BlockHeight rc) && (0 <? lr_Amount rc) then v +64 lr_Amount rc else v) v revs.

Fixpoint min_samples (account : string) (revs : list LedgerRecord) (samples : list Z) (acc : option Z) : option (option Z) :=
  match samples with
  | [] => Some acc
  | bh :: samples =>
      v ← balance account bh;
      let v := add_back revs bh v in
      min_samples account revs samples (match acc with Some m => if v <? m then Some v else Some m | None => Some v end)
  end.

Definition maturedConsensusStake (account : string) (electionHeight w sampleCount : Z) : option Z :=
  if electionHeight =? 0 then Some 0
  else if w =? 0 then
    v ← balance account electionHeight; Some (if v <? 0 then 0 else v)
  else
    let sampleCount := if sampleCount <? 2 then 2 else sampleCount in
    let windowStart := maturityWindowStart electionHeight w in
    let samples := sampleMaturityWindow windowStart electionHeight (Z.to_nat sampleCount) in
    revs ← reverses account windowStart electionHeight;
    min ← min_samples account revs samples None;
    Some (match min with Some m => if m <? 0 then 0 else m | None => 0 end).
End maturity.

(** ** Established members *)

Definition bondGatewayKeyFloor : Z := 8.

Definition bondCommitteeFloor (minMembers prevMembers : Z) : Z :=
  let floor := minMembers in
  let floor := if floor <? bondGatewayKeyFloor then bondGatewayKeyFloor else floor in
  if 0 <? prevMembers then
    let tssFloor := Z.quot (2 * prevMembers + 2) 3 + 1 in
    if floor <? tssFloor then tssFloor else floor
  else floor.

Record bondEstablishedInfo := mkBondEstablishedInfo {
  lastMembershipHeight : Z;
  lastWeight : Z;
}.

(** The loop over the members of an election. *)
Definition establish (e : ElectionResult) (out : gmap string bondEstablishedInfo) (im : nat * ElectionMember)
    : gmap string bondEstablishedInfo :=
  let acct := TrimPrefix (em_Account im.2) "hive:" in
  if bool_decide (is_Some (out !! acct)) then out
  else <[acct := mkBondEstablishedInfo (el_BlockHeight e) (default 0 (el_Weights e !! im.1))]> out.

Definition buildBondEstablishedMap (prevs : list ElectionResult) : gmap string bondEstablishedInfo :=
  foldl (λ out e, foldl (establish e) out (imap pair (el_Members e))) ∅ prevs.

Definition maxLookback : Z := 2048.

Definition bondEstablishedLookback (graceBlocks electionInterval : Z) : Z :=
  let electionInterval := if electionInterval =? 0 then 1 else electionInterval in
  let n := wrap64 (graceBlocks / electionInterval) +64 16 in
  let n := if n <? 1 then 1 else n in
  if maxLookback <? n then maxLookback else n.

Definition bondWithinEstablishedGrace (info : option bondEstablishedInfo) (electionHeight graceBlocks : Z) : bool :=
  match info with
  | None => false
  | Some info =>
      if (graceBlocks =? 0) || (lastWeight info =? 0) then false
      else if electionHeight <? lastMembershipHeight info then false
      else electionHeight -u64 lastMembershipHeight info <=? graceBlocks
  end.

Definition uint64ToInt64Clamped (v : Z) : Z := if MaxInt64 <? v then MaxInt64 else v.

Definition bondEstablishedExemption (info : option bondEstablishedInfo) (electionHeight graceBlocks current : Z) : Z :=
  if negb (bondWithinEstablishedGrace info electionHeight graceBlocks) then 0
  else
    let cap := uint64ToInt64Clamped (default 0 (lastWeight <$> info)) in
    if current <? cap then current else cap.

(** ** Filling up and limiting entry *)

Record bondBackfillCandidate := mkBondBackfillCandidate {
  bc_witness : Witness;
  bc_weight : Z;
  bc_effective : Z;
  bc_prevWeight : Z;
}.

Definition backfill_cmp (a b : bondBackfillCandidate) : Z :=
  if negb (bc_effective a =? bc_effective b) then (if bc_effective b <? bc_effective a then -1 else 1)
  else if negb (bc_prevWeight a =? bc_prevWeight b) then (if bc_prevWeight b <? bc_prevWeight a then -1 else 1)
  else strings_Compare (wt_Account (bc_witness a)) (wt_Account (bc_witness b)).

Definition selectBondBackfill (cands : list bondBackfillCandidate) (need : Z) : list bondBackfillCandidate :=
  if (need <=? 0) || bool_decide (cands = []) then []
  else take (Z.to_nat need) (SortFunc backfill_cmp cands).

Record bondChurnEntrant := mkBondChurnEntrant {
  ce_account : string;
  ce_effective : Z;
}.

Definition churn_cmp (a b : bondChurnEntrant) : Z :=
  if negb (ce_effective a =? ce_effective b) then (if ce_effective b <? ce_effective a then -1 else 1)
  else strings_Compare (ce_account a) (ce_account b).

Definition selectChurnedOut (newEntrants : list bondChurnEntrant) (maxNew : Z) : gset string :=
  if (maxNew <=? 0) || (Z.of_nat (length newEntrants) <=? maxNew) then ∅
  else list_to_set (ce_account <$> drop (Z.to_nat maxNew) (SortFunc churn_cmp newEntrants)).

(** ** Weight of required members *)

Definition computeRequiredMemberWeight (totalOptionalWeight numRequired : Z) : Z :=
  if numRequired =? 0 then 0
  else
    let denom := wrapu64 (2 * numRequired) in
    (totalOptionalWeight +u64 denom +u64 1) / denom.

(** ** Lemmas: maturity *)

Section maturity_laws.
Context (balance : string → Z → option Z).

(** The adjusted balance at a sample. *)
Definition adjusted (a : string) (revs : list LedgerRecord) (h : Z) : Z := add_back revs h (default 0 (balance a h)).

Lemma min_samples_error a revs hs acc h : h ∈ hs → balance a h = None → min_samples balance a revs hs acc = None.
Proof.
  revert acc. induction hs as [|x hs IH]; intros acc Hin Hr; [by apply not_elem_of_nil in Hin|]. cbn [min_samples].
  apply elem_of_cons in Hin as [<-|Hin]; [by rewrite Hr|]. destruct (balance a x); [|done]. cbn [mbind option_bind]. by apply IH.
Qed.

Lemma min_samples_ok a revs hs acc :
  (∀ h, h ∈ hs → is_Some (balance a h)) → (hs ≠ [] ∨ acc ≠ None) →
  ∃ m, min_samples balance a revs hs acc = Some (Some m) ∧
    (∀ h, h ∈ hs → m <= adjusted a revs h) ∧ (∀ m0, acc = Some m0 → m <= m0) ∧
    ((∃ h, h ∈ hs ∧ m = adjusted a revs h) ∨ acc = Some m).
Proof.
  revert acc. induction hs as [|x hs IH]; intros acc Hr Hne.
  { destruct acc as [m|]; [|by destruct Hne]. exists m. split_and!; [done|set_solver|naive_solver|by right]. }
  destruct (Hr x ltac:(by left)) as [v Hv]. cbn [min_samples]. rewrite Hv. cbn [mbind option_bind]. cbv zeta.
  assert (adjusted a revs x = add_back revs x v) as Hx by (unfold adjusted; by rewrite Hv). rewrite <- Hx.
  set (acc' := match acc with Some m => if adjusted a revs x <? m then Some (adjusted a revs x) else Some m | None => Some (adjusted a revs x) end).
  assert (∃ m0, acc' = Some m0 ∧ m0 <= adjusted a revs x ∧ (∀ m1, acc = Some m1 → m0 <= m1) ∧ (m0 = adjusted a revs x ∨ acc = Some m0))
    as (m0 & E0 & H1 & H2 & H3).
  { unfold acc'. destruct acc as [m1|]; [destruct (Z.ltb_spec (adjusted a revs x) m1)|]; eexists; (split; [done|]); naive_solver lia. }
  rewrite E0. destruct (IH (Some m0)) as (m & E & Ha & Hb & Hc); [intros h Hh; apply Hr; by right|by right|].
  specialize (Hb m0 eq_refl). exists m. split_and!; [done| | |].
  - intros h [->|Hh]%elem_of_cons; [lia|by apply Ha].
  - intros m1 Hm1. specialize (H2 m1 Hm1). lia.
  - destruct Hc as [(h & Hh & ->)|[= <-]]; [left; exists h; split; [by right|done]|].
    destruct H3 as [->|?]; [left; exists x; split; [by left|done]|by right].
Qed.

Lemma add_back_none revs h v : (∀ rc, rc ∈ revs → lr_BlockHeight rc <= h) → add_back revs h v = v.
Proof.
  unfold add_back. induction revs as [|rc revs IH]; intros Hr; [done|]. cbn [foldl].
  rewrite (proj2 (Z.ltb_ge h (lr_BlockHeight rc))) by (apply Hr; by left). apply IH. intros; apply Hr. by right.
Qed.
End maturity_laws.

(** ** Lemmas: orders *)

Definition backfill_key (c : bondBackfillCandidate) : key := (bc_effective c, bc_prevWeight c, wt_Account (bc_witness c)).
Definition churn_key (c : bondChurnEntrant) : key := (ce_effective c, 0, ce_account c).

Lemma backfill_cmp_key a b : backfill_cmp a b = key_cmp (backfill_key a) (backfill_key b).
Proof. done. Qed.

Lemma churn_cmp_key a b : churn_cmp a b = key_cmp (churn_key a) (churn_key b).
Proof. unfold churn_cmp, key_cmp. simpl. done. Qed.

Lemma NoDup_churn_key l : NoDup (ce_account <$> l) → NoDup (churn_key <$> l).
Proof.
  intros Hnd. apply (NoDup_fmap_1 snd). rewrite <- list_fmap_compose. done.
Qed.

(** ** Theorems *)

(** A stake counts only once it was held through the window.  When the reads
    succeed, the matured stake is the least, over the sampled heights, of the
    balance plus the reversed slashes that come later, and zero if that is
    negative; the samples lie in the window and include its first block and the
    election's, so what counts is at most what is held now and at most what was
    held, and exonerated, when the window opened.  A failed read of any sample or
    of the reversals refuses the result. *)
Theorem matured_is_window_minimum balance reverses a H w n revs :
  0 < H → 0 < w → 0 <= n → 2 * (H + n + 2) < MaxUint64 →
  let start := maturityWindowStart H w in
  let hs := sampleMaturityWindow start H (Z.to_nat (Z.max n 2)) in
  reverses a start H = Some revs → (∀ rc, rc ∈ revs → start <= lr_BlockHeight rc <= H) →
  Forall (λ h, start < h <= H) hs ∧ start + 1 ∈ hs ∧ H ∈ hs ∧
  ((∀ h, h ∈ hs → is_Some (balance a h)) →
   ∃ m, maturedConsensusStake balance reverses a H w n = Some m ∧
     m <= Z.max 0 (default 0 (balance a H)) ∧ m <= Z.max 0 (adjusted balance a revs (start + 1)) ∧
     (∀ h, h ∈ hs → m <= Z.max 0 (adjusted balance a revs h)) ∧ ∃ h, h ∈ hs ∧ m = Z.max 0 (adjusted balance a revs h)) ∧
  (∀ h, h ∈ hs → balance a h = None → maturedConsensusStake balance reverses a H w n = None).
Proof.
  intros HH Hw Hn Hbig start hs Hrev Hrange.
  assert (0 <= start < H) as Hstart.
  { unfold start, maturityWindowStart, u64_sub. rewrite (proj2 (Z.eqb_neq w 0)) by lia. cbn [orb].
    destruct (Z.leb_spec H w); [lia|]. rewrite wrapu64_id by (unfold_widths; lia). lia. }
  assert (hs = sampleBlocksAcrossWindow start H (Z.to_nat (Z.max n 2))) as Ehs.
  { unfold hs, sampleMaturityWindow. by rewrite (proj2 (Z.eqb_neq H 0)) by lia. }
  destruct (sample_heights start H (Z.to_nat (Z.max n 2))) as ([Hf _] & Hin & _ & Hfirst); [lia|lia|lia|].
  rewrite <- Ehs in Hf, Hin, Hfirst. specialize (Hfirst ltac:(lia)).
  assert (maturedConsensusStake balance reverses a H w n
    = min ← min_samples balance a revs hs None; Some (match min with Some m => if m <? 0 then 0 else m | None => 0 end)) as ->.
  { unfold maturedConsensusStake. rewrite (proj2 (Z.eqb_neq H 0)), (proj2 (Z.eqb_neq w 0)) by lia. fold start. rewrite Hrev.
    replace (if n <? 2 then 2 else n) with (Z.max n 2) by (destruct (Z.ltb_spec n 2); lia). done. }
  split_and!; [done|done|done| |].
  - intros Hr. destruct (min_samples_ok balance a revs hs None Hr) as (m & -> & Hle & _ & Hex);
      [left; intros En; rewrite En in Hin; by apply not_elem_of_nil in Hin|].
    cbn [mbind option_bind]. exists (Z.max 0 m). destruct Hex as [(h & Hh & Hm)|?]; [|done].
    split; [f_equal; destruct (Z.ltb_spec m 0); lia|]. split_and!.
    + specialize (Hle H Hin). unfold adjusted in Hle. rewrite add_back_none in Hle by (intros rc ?%Hrange; lia). lia.
    + specialize (Hle _ Hfirst). lia.
    + intros h' Hh'. specialize (Hle h' Hh'). lia.
    + exists h. split; [done|]. by rewrite Hm.
  - intros h Hh Hnone. by rewrite (min_samples_error balance a revs hs None h Hh Hnone).
Qed.

(** A reversed slash leaves no trace.  A bond that was slashed and restored
    within the window, and otherwise held, matures to its full value: the samples
    between the slash and the reversal do not count against it. *)
Theorem exonerated_bond_matures balance reverses a H w n b s hs hr rc :
  0 < H → 0 < w → 0 <= n → 2 * (H + n + 2) < MaxUint64 → 0 <= s <= b → b + s <= MaxInt64 →
  hs <= hr → maturityWindowStart H w < hr <= H →
  (∀ h, balance a h = Some (if (hs <=? h) && (h <? hr) then b - s else b)) →
  reverses a (maturityWindowStart H w) H = Some [rc] → lr_BlockHeight rc = hr → lr_Amount rc = s →
  maturedConsensusStake balance reverses a H w n = Some b.
Proof.
  intros HH Hw Hn Hbig Hs Hmax Hsr Hr Hbal Hrev Hrc Hamt.
  assert (∀ h, adjusted balance a [rc] h = if h <? hs then (if h <? hr then b + s else b) else b) as Hadj.
  { intros h. unfold adjusted, add_back. rewrite Hbal. cbn [foldl default from_option id]. rewrite Hrc, Hamt.
    destruct (Z.leb_spec hs h), (Z.ltb_spec h hr), (Z.ltb_spec h hs), (Z.ltb_spec 0 s); cbn [andb]; try lia;
      rewrite i64_add_exact by (unfold_widths; lia); lia. }
  destruct (sample_heights (maturityWindowStart H w) H (Z.to_nat (Z.max n 2))) as (_ & Hin & _); [|lia|lia|].
  { unfold maturityWindowStart, u64_sub. rewrite (proj2 (Z.eqb_neq w 0)) by lia. cbn [orb].
    destruct (Z.leb_spec H w); [lia|]. rewrite wrapu64_id by (unfold_widths; lia). lia. }
  unfold maturedConsensusStake. rewrite (proj2 (Z.eqb_neq H 0)), (proj2 (Z.eqb_neq w 0)), Hrev by lia. cbn [mbind option_bind].
  replace (if n <? 2 then 2 else n) with (Z.max n 2) by (destruct (Z.ltb_spec n 2); lia).
  unfold sampleMaturityWindow. rewrite (proj2 (Z.eqb_neq H 0)) by lia. set (l := sampleBlocksAcrossWindow _ _ _) in *.
  destruct (min_samples_ok balance a [rc] l None) as (m & -> & Hle & _ & Hex);
    [intros h _; rewrite Hbal; eauto|left; intros En; rewrite En in Hin; by apply not_elem_of_nil in Hin|].
  cbn [mbind option_bind]. destruct Hex as [(h & Hh & Hm)|?]; [|done]. rewrite Hadj in Hm. specialize (Hle H Hin). rewrite Hadj in Hle.
  rewrite (proj2 (Z.ltb_ge H hs)) in Hle by lia.
  assert (m = b) as ->; [destruct (h <? hs), (h <? hr); lia|]. by rewrite (proj2 (Z.ltb_ge b 0)) by lia.
Qed.

(** Required members hold the least weight that decides.  The integer formula
    is the rounded-up quotient it stands for: with it the required members
    together weigh at least one more than half of the others, and with one unit
    less each they would not. *)
Theorem required_weight_exact opt n :
  0 <= opt → 0 < n → opt + 2 * n + 1 <= MaxUint64 →
  let w := computeRequiredMemberWeight opt n in
  opt + 2 <= 2 * (n * w) ∧ 2 * (n * (w - 1)) < opt + 2.
Proof.
  intros Ho Hn Hmax w. unfold w, computeRequiredMemberWeight, u64_add. rewrite (proj2 (Z.eqb_neq n 0)) by lia.
  rewrite (wrapu64_id (2 * n)), (wrapu64_id (opt + 2 * n)), (wrapu64_id (opt + 2 * n + 1)) by (unfold_widths; lia).
  pose proof (Z.div_mod (opt + 2 * n + 1) (2 * n) ltac:(lia)). pose proof (Z.mod_pos_bound (opt + 2 * n + 1) (2 * n) ltac:(lia)). nia.
Qed.

(** The churn cap admits the best of the new.  With a cap, exactly the cap's
    number of new members stay, no excluded member has a larger matured stake
    than one that stays, and every node excludes the same accounts, in whatever
    order it lists them. *)
Theorem churn_cap_exact l l' maxNew :
  NoDup (ce_account <$> l) → l ≡ₚ l' → 0 < maxNew →
  selectChurnedOut l maxNew = selectChurnedOut l' maxNew ∧
  selectChurnedOut l maxNew ⊆ list_to_set (ce_account <$> l) ∧
  Z.of_nat (size (selectChurnedOut l maxNew)) = Z.max 0 (Z.of_nat (length l) - maxNew) ∧
  ∀ x y, x ∈ l → y ∈ l → ce_account x ∈ selectChurnedOut l maxNew → ce_account y ∉ selectChurnedOut l maxNew →
    ce_effective x <= ce_effective y.
Proof.
  intros Hnd Hp Hmax. unfold selectChurnedOut. rewrite (proj2 (Z.leb_gt maxNew 0)) by lia. cbn [orb].
  rewrite <- (Permutation_length Hp), <- (SortFunc_perm churn_cmp churn_key (key_cmp_eq _ _ churn_cmp_key) l l' (NoDup_churn_key _ Hnd) Hp).
  split; [done|]. destruct (Z.leb_spec (Z.of_nat (length l)) maxNew); [split; [set_solver|split; [rewrite size_empty; lia|set_solver]]|].
  set (sorted := SortFunc churn_cmp l). assert (sorted ≡ₚ l) as Hs by apply SortFunc_Permutation.
  assert (NoDup (ce_account <$> drop (Z.to_nat maxNew) sorted)) as Hnd'.
  { eapply sublist_NoDup; [|apply fmap_sublist, sublist_drop]. by rewrite Hs. }
  split_and!.
  - intros x. rewrite !elem_of_list_to_set, !list_elem_of_fmap. intros (c & -> & Hc). exists c. split; [done|].
    rewrite <- Hs. by apply subseteq_drop in Hc.
  - rewrite size_list_to_set by done. rewrite length_fmap, length_drop, Hs. lia.
  - intros x y Hx Hy Hxin Hyout. rewrite elem_of_list_to_set, list_elem_of_fmap in Hxin. destruct Hxin as (x' & Hxx & Hx').
    assert (x = x') as <-.
    { rewrite <- Hs in Hx. apply subseteq_drop in Hx' as Hx2. apply list_elem_of_lookup in Hx as [i Hi], Hx2 as [j Hj].
      assert (i = j) as <-; [|congruence]. rewrite <- Hs in Hnd.
      eapply (NoDup_lookup _ i j (ce_account x) Hnd); rewrite list_lookup_fmap, ?Hi, ?Hj; simpl; congruence. }
    assert (y ∈ take (Z.to_nat maxNew) sorted) as Hy'.
    { rewrite <- Hs, <- (take_drop (Z.to_nat maxNew) sorted), elem_of_app in Hy. destruct Hy as [?|Hy]; [done|].
      destruct Hyout. apply elem_of_list_to_set, list_elem_of_fmap. eauto. }
    pose proof (SortFunc_take churn_cmp churn_key (key_cmp_eq _ _ churn_cmp_key) _ l y x Hy' Hx') as Hk. unfold key_le, churn_key in Hk. simpl in Hk. lia.
Qed.
