(* ===== verification/Election.v ===== *)
(** Building an election: [modules/election-proposer/election-proposer.go].

    Every node derives the next committee from the same announcements, stakes,
    seats and proposals, and signs it only if it comes out the same.  The stages
    of [GenerateFullElection] are definitions of their own, passed a draft of the
    committee. *)
From S2P Require Import Prelude GoMaps GoSlices GoStrings LedgerDb Settlement ConsensusVersion Governance VersionGov ElectionBond.

(** ** Readiness for a version *)

(** The accounts that stand for their key: the smallest of each. *)
Definition key_winners (parse : string → option string) (l : list Witness) : gmap string string :=
  foldl (λ counted w,
    match ConsensusKey parse w with
    | None => counted
    | Some key =>
        match counted !! key with
        | Some held => if strings_Compare (wt_Account w) held <? 0 then <[key := wt_Account w]> counted else counted
        | None => <[key := wt_Account w]> counted
        end
    end) ∅ l.

Definition counts_once (parse : string → option string) (dedup : bool) (l : list Witness) (w : Witness) : bool :=
  if dedup
  then match ConsensusKey parse w with
       | None => false
       | Some key => bool_decide (key_winners parse l !! key = Some (wt_Account w))
       end
  else true.

Definition stakeReady (parse : string → option string) (dedup : bool) (l : list Witness) (weightMap : gmap string Z)
    (num den : Z) (target : Version) : bool :=
  let voters := filter (λ w, counts_once parse dedup l w = true) l in
  let totalWeight := foldl (λ t w, t +u64 zget weightMap (wt_Account w)) 0 voters in
  let readyWeight := foldl (λ t w, if MeetsConsensusMin (ConsensusVersionTriple w) target
                                   then t +u64 zget weightMap (wt_Account w) else t) 0 voters in
  (0 <? totalWeight) && (wrap64 totalWeight *64 num <=? wrap64 readyWeight *64 den).

(** The version an account announces; the last of several entries counts. *)
Definition candidate_version (l : list Witness) (acct : string) : option Version :=
  ConsensusVersionTriple <$> last (filter (λ w, wt_Account w = acct) l).

Definition prevReadyAt (previousElection : option ElectionResult) (prevCandidates : list Witness) (target : Version) : bool :=
  match previousElection with
  | None => true
  | Some prev =>
      if bool_decide (el_Members prev = []) then true
      else
        let prevReady := length (filter (λ m,
          from_option (λ v, MeetsConsensusMin v target) false
            (candidate_version prevCandidates (TrimPrefix (em_Account m) "hive:")) = true) (el_Members prev)) in
        let prevQuorum := Z.quot (2 * Z.of_nat (length (el_Members prev)) + 2) 3 in
        prevQuorum <=? Z.of_nat prevReady
  end.

(** What a standing proposal must pass to be considered. *)
Definition proposal_live (floor : Version) (newEpoch : Z) (p : VersionProposal) : bool :=
  negb ((newEpoch <? vp_ActivationEpoch p) || (Cmp (vp_Target p) floor <=? 0))
  && negb (negb (vp_ExpiryEpoch p =? 0) && (vp_ExpiryEpoch p <=? newEpoch)).

Definition best_proposal (ready : Version → bool) (floor : Version) (newEpoch : Z) (proposals : list VersionProposal) : Version :=
  foldl (λ best p,
    if negb (proposal_live floor newEpoch p) then best
    else if Cmp (vp_Target p) best <=? 0 then best
    else if ready (vp_Target p) then vp_Target p else best) floor proposals.

Definition resolveVersionFloorWithPrev (parse : string → option string) (floor : Version) (newEpoch : Z)
    (forced : option VersionProposal) (proposals : list VersionProposal) (witnessList prevCandidates : list Witness)
    (weightMap : gmap string Z) (previousElection : option ElectionResult) (num den : Z) : Version :=
  let gated f := from_option (λ prev, f (ResultVersion prev)) false previousElection in
  let dedupSeats := gated BlsWeightDedupActive in
  let ready target := stakeReady parse dedupSeats witnessList weightMap num den target
                      && prevReadyAt previousElection prevCandidates target in
  match forced with
  | Some f =>
      if (vp_ActivationEpoch f <=? newEpoch) && (0 <? Cmp (vp_Target f) floor)
         && (negb (gated ForcedFloorRespectsQuorumActive) || prevReadyAt previousElection prevCandidates (vp_Target f))
      then vp_Target f
      else best_proposal ready floor newEpoch proposals
  | None => best_proposal ready floor newEpoch proposals
  end.

(** ** Admission of keys *)

(** [popOk] and [gwPopOk] are the proofs of possession of the consensus and of the
    gateway key. *)
Definition evaluateKeyAdmission (parse : string → option string) (popOk gwPopOk : Witness → bool) (l : list Witness)
    : list (string * string) :=
  (foldl (λ acc w,
    let '(excluded, seenConsensus, seenGateway) := acc in
    let exclude reason := (excluded ++ [(wt_Account w, reason)], seenConsensus, seenGateway) in
    if negb (popOk w) then exclude "invalid consensus-key PoP"
    else
      match ConsensusKey parse w with
      | None => exclude "unparseable consensus key"
      | Some ks =>
          match seenConsensus !! ks with
          | Some first => exclude ("duplicate consensus key, kept " +:+ first)
          | None =>
              if negb (gwPopOk w) then exclude "invalid gateway-key PoP"
              else
                match seenGateway !! wt_GatewayKey w with
                | Some first => exclude ("duplicate gateway key, kept " +:+ first)
                | None => (excluded, <[ks := wt_Account w]> seenConsensus, <[wt_GatewayKey w := wt_Account w]> seenGateway)
                end
          end
      end) ([], (∅ : gmap string string), (∅ : gmap string string)) l).1.1.

(** ** Seats *)

Definition seated (seats : gset string) (w : Witness) : bool := bool_decide (NormalizeAccount (wt_Account w) ∈ seats).

Definition poaSeatedOnly (l : list Witness) (seats : gset string) : list Witness := DeleteFunc (λ w, negb (seated seats w)) l.

Definition poaSeatedCount (l : list Witness) (seats : gset string) : Z :=
  Z.of_nat (length (filter (λ w, seated seats w = true) l)).

Definition poaReadinessList (l : list Witness) (seats : option (gset string)) (minMembers : Z) : list Witness :=
  match seats with
  | None => l
  | Some seats => let s := poaSeatedOnly l seats in if minMembers <=? Z.of_nat (length s) then s else l
  end.

Definition topup_cmp (incumbent : gset string) (rank : gmap string Z) (a b : string) : Z :=
  if negb (Bool.eqb (bool_decide (a ∈ incumbent)) (bool_decide (b ∈ incumbent)))
  then (if bool_decide (a ∈ incumbent) then -1 else 1)
  else if negb (zget rank a =? zget rank b) then (if zget rank b <? zget rank a then -1 else 1)
  else strings_Compare a b.

Definition selectPoaTopUp (unseated : list string) (incumbent : gset string) (rank : gmap string Z) (need : Z) : gset string :=
  if need <=? 0 then ∅
  else list_to_set (take (Z.to_nat need) (SortFunc (topup_cmp incumbent rank) unseated)).

Definition poaActive (prevVersion : Version) (seatGateApplied : bool) : bool :=
  PoaFlatWeightActive prevVersion && seatGateApplied.

(** ** The inputs *)

Definition DEFAULT_NEW_NODE_WEIGHT : Z := 10.
Definition REQUIRED_ELECTION_MEMBERS : list string := [].

(** What the proposer reads besides the announcements.  A read that failed is
    [None]. *)
Record election_env := mkElectionEnv {
  ee_params : ConsensusParams;
  (** [ConsensusKey] of a witness *)
  ee_parse : string → option string;
  ee_popOk : Witness → bool;
  ee_gwPopOk : Witness → bool;
  (** [GetElection previousEpoch], [GetPreviousElections] *)
  ee_previous : option ElectionResult;
  ee_history : Z → Z → list ElectionResult;
  (** the seat registry, if there is one *)
  ee_seats : option (Z → option (list string));
  (** the ledger state, if it is there *)
  ee_ledger : option ((string → Z → option Z) * (string → Z → Z → option (list LedgerRecord)));
  (** [GetBalanceRecord]'s bond; [Some None] is a missing row *)
  ee_balance : string → Z → option (option Z);
  (** the state engine's proposals and override for a height, if it is there *)
  ee_engine : option (Z → option VersionProposal * list VersionProposal);
}.

(** The committee while it is being built. *)
Record draft := mkDraft {
  dr_list : list Witness;
  dr_weights : gmap string Z;
  dr_floor : Version;
  dr_applied : bool;
  dr_pregate : list Witness;
}.

Section generate.
Context (env : election_env) (previousEpoch : Z) (prevVersion : Version) (blockHeight : Z).
Abbreviation cp := (ee_params env).

Definition firstElection : bool := bool_decide (ee_previous env = None).
Definition etype : string := from_option el_Type "initial" (ee_previous env).
Definition newEpoch : Z := if firstElection then 0 else previousEpoch +u64 1.
Definition bondActive : bool := BondInclusionActive cp blockHeight.

Definition prev_accounts : gset string :=
  list_to_set ((λ m, TrimPrefix (em_Account m) "hive:") <$> from_option el_Members [] (ee_previous env)).

(** *** Candidates *)

Definition account_cmp (a b : Witness) : Z := strings_Compare (wt_Account a) (wt_Account b).

(** Below the carried floor, unsorted, or with keys the strict gate rejects. *)
Definition candidates (witnessList : list Witness) : list Witness :=
  let floor := mkVersion (Major prevVersion) (Consensus prevVersion) 0 in
  let l := DeleteFunc (λ w, negb (MeetsConsensusMin (ConsensusVersionTriple w) floor)) witnessList in
  let l := SortFunc account_cmp l in
  let keyExclusions := evaluateKeyAdmission (ee_parse env) (ee_popOk env) (ee_gwPopOk env) l in
  if WitnessKeyStrictActive prevVersion then
    let drop := keyExclusions.*1 in
    DeleteFunc (λ w, slices_Contains drop (wt_Account w)) l
  else l.

(** *** The seat gate: the list, whether the gate was applied, and the seats kept
    for the decision on the survivors. *)
Definition seat_gate (l : list Witness) : string + (list Witness * bool * option (gset string)) :=
  match ee_seats env with
  | Some read =>
      if PoaSeatGateActive prevVersion then
        match read blockHeight with
        | None => inl "poa seat gate: registry read failed"
        | Some [] => inr (l, false, None)
        | Some seats =>
            let seatSet := (list_to_set seats : gset string) in
            let gated := poaSeatedOnly l seatSet in
            if PoaStarvationTopUpActive prevVersion then inr (l, false, Some seatSet)
            else if Z.of_nat (length gated) <? MinMembers cp then inr (l, false, None)
            else inr (gated, true, None)
        end
      else inr (l, false, None)
  | None => inr (l, false, None)
  end.

(** *** Stakes *)

Record stakes := mkStakes {
  st_staked : gmap string Z;
  st_effective : gmap string Z;
  st_matured : gmap string Z;
  st_count : Z;
}.

Definition established : string + gmap string bondEstablishedInfo :=
  if (0 <? BondInclusionEstablishedGraceBlocks cp) && negb firstElection then
    let prevs := ee_history env newEpoch
      (bondEstablishedLookback (BondInclusionEstablishedGraceBlocks cp) (ElectionInterval cp)) in
    if bool_decide (prevs = []) && negb (bool_decide (ee_previous env = None)) then inl "bond established: history read returned empty"
    else inr (buildBondEstablishedMap prevs)
  else inr ∅.

(** The stake a candidate counts with under the maturity gate: matured, and with
    the exemption of an established member. *)
Definition effective_stake (balance : string → Z → option Z) (reverses : string → Z → Z → option (list LedgerRecord))
    (est : gmap string bondEstablishedInfo) (account : string) : option (Z * Z) :=
  let grace := BondInclusionEstablishedGraceBlocks cp in
  matured ← maturedConsensusStake balance reverses ("hive:" +:+ account) blockHeight
    (BondInclusionWindowBlocks cp) (BondInclusionSampleCount cp);
  if bondWithinEstablishedGrace (est !! account) blockHeight grace then
    cur ← maturedConsensusStake balance reverses ("hive:" +:+ account) blockHeight 0 0;
    let e := bondEstablishedExemption (est !! account) blockHeight grace cur in
    Some (matured, if matured <? e then e else matured)
  else Some (matured, matured).

Definition add_stake (s : stakes) (account : string) (stake : Z) : stakes :=
  if (0 <? stake) && (MinStake cp <=? stake)
  then mkStakes (<[account := stake]> (st_staked s)) (st_effective s) (st_matured s) (st_count s +u64 1) else s.

(** One round of the pass over the candidates. *)
Definition stake_one (est : gmap string bondEstablishedInfo) (s : stakes) (w : Witness) : string + stakes :=
  let account := wt_Account w in
  if bondActive then
    match ee_ledger env with
    | None => inl "bond inclusion gate active but ledger state unavailable"
    | Some (balance, reverses) =>
        match effective_stake balance reverses est account with
        | None => inl "bond inclusion gate: maturity read failed"
        | Some (matured, eff) =>
            inr (add_stake (mkStakes (st_staked s) (<[account := eff]> (st_effective s))
                              (<[account := matured]> (st_matured s)) (st_count s)) account eff)
        end
    end
  else
    match ee_balance env ("hive:" +:+ account) blockHeight with
    | None => inl "balance read failed"
    | Some None => inr s
    | Some (Some b) => inr (add_stake s account b)
    end.

Fixpoint stake_pass (est : gmap string bondEstablishedInfo) (s : stakes) (l : list Witness) : string + stakes :=
  match l with
  | [] => inr s
  | w :: l => match stake_one est s w with inl err => inl err | inr s => stake_pass est s l end
  end.

(** *** The type of the election and its weights *)

Definition election_type (s : stakes) : string :=
  if (wrapu64 (MinMembers cp) <=? st_count s) || String.eqb etype "staked" then "staked" else "initial".

Definition initial_weights (l : list Witness) (s : stakes) (gateApplied : bool) : gmap string Z :=
  if String.eqb (election_type s) "staked" then
    if poaActive prevVersion gateApplied then (λ _, PoaSeatWeight) <$> st_staked s else st_staked s
  else list_to_map ((λ w, (wt_Account w, DEFAULT_NEW_NODE_WEIGHT)) <$> l).

Definition no_weight (weights : gmap string Z) (w : Witness) : bool :=
  match weights !! wt_Account w with None => true | Some weight => weight =? 0 end.

Definition below_floor (floor : Version) (w : Witness) : bool := negb (MeetsConsensusMin (ConsensusVersionTriple w) floor).

(** *** The version floor: the pinned one, then proposals and the override *)

Definition raise_floor (target : Version) (d : draft) : draft :=
  if 0 <? Cmp target (dr_floor d)
  then mkDraft (DeleteFunc (below_floor target) (dr_list d)) (dr_weights d) target (dr_applied d) (dr_pregate d)
  else d.

Definition activation_fraction : Z * Z :=
  let num := ConsensusVersionActivationNum cp in
  let den := ConsensusVersionActivationDen cp in
  if (num <=? 0) || (den <=? 0) then (4, 5) else (num, den).

Definition floor_stage (gateSeats : option (gset string)) (d : draft) : draft :=
  let d := raise_floor (PinnedVersionFloor cp newEpoch) d in
  match ee_engine env with
  | None => d
  | Some read =>
      let '(forced, proposals) := read blockHeight in
      let '(num, den) := activation_fraction in
      raise_floor (resolveVersionFloorWithPrev (ee_parse env) (dr_floor d) newEpoch forced proposals
        (poaReadinessList (dr_list d) gateSeats (MinMembers cp)) (dr_list d) (dr_weights d) (ee_previous env) num den) d
  end.

(** *** The seat gate, decided on the survivors *)

Definition unseated (seats : gset string) (w : Witness) : bool := negb (seated seats w).

Definition drop_weights (l : list string) (weights : gmap string Z) : gmap string Z := foldl (λ m a, delete a m) weights l.

Definition apply_gate (seats : gset string) (d : draft) : draft :=
  mkDraft (DeleteFunc (unseated seats) (dr_list d))
    (drop_weights (wt_Account <$> filter (λ w, unseated seats w = true) (dr_list d)) (dr_weights d))
    (dr_floor d) true (DeleteFunc (unseated seats) (dr_pregate d)).

(** The ranks of the unseated: matured stake, or the raw one without the maturity
    gate. *)
Definition topup_rank (s : stakes) : gmap string Z := if bondActive then st_matured s else st_staked s.

Definition top_up (seats : gset string) (s : stakes) (d : draft) : draft :=
  let outside := wt_Account <$> filter (λ w, unseated seats w = true) (dr_list d) in
  let keep := selectPoaTopUp outside prev_accounts (topup_rank s) (MinMembers cp - poaSeatedCount (dr_list d) seats) in
  mkDraft (DeleteFunc (λ w, unseated seats w && negb (bool_decide (wt_Account w ∈ keep))) (dr_list d))
    (drop_weights (filter (λ a, a ∉ keep) outside) (dr_weights d)) (dr_floor d) true (dr_pregate d).

Definition survivors_stage (pType : string) (gateSeats : option (gset string)) (s : stakes) (d : draft) : draft :=
  match gateSeats with
  | None => d
  | Some seats =>
      if MinMembers cp <=? poaSeatedCount (dr_list d) seats then apply_gate seats d
      else if String.eqb pType "staked" && negb (bool_decide (dr_list d = [])) then top_up seats s d
      else d
  end.

(** *** The churn cap *)

Definition churn_limit (d : draft) : bool * Z :=
  let effMaxNew := EffectiveMaxNewMembers cp blockHeight in
  let poaChurn := (PoaChurnCapActive prevVersion && dr_applied d)
                  || (negb (PoaChurnCapActive prevVersion) && PoaTransitionChurnCapActive (dr_floor d)) in
  (poaChurn, if poaChurn && (effMaxNew =? 0) then EffectivePoaMaxNewMembers cp else effMaxNew).

Definition new_entrants (est : gmap string bondEstablishedInfo) (s : stakes) (l : list Witness) : list bondChurnEntrant :=
  (λ w, mkBondChurnEntrant (wt_Account w) (zget (st_matured s) (wt_Account w))) <$>
    filter (λ w, (wt_Account w ∉ prev_accounts) ∧
      bondWithinEstablishedGrace (est !! wt_Account w) blockHeight (BondInclusionEstablishedGraceBlocks cp) = false) l.

Definition churn_stage (pType : string) (est : gmap string bondEstablishedInfo) (s : stakes) (d : draft) : draft :=
  let '(poaChurn, effMaxNew) := churn_limit d in
  if (bondActive || poaChurn) && String.eqb pType "staked" && negb firstElection && (0 <? effMaxNew) then
    let churnedOut := selectChurnedOut (new_entrants est s (dr_list d)) effMaxNew in
    if Z.of_nat (length (dr_list d)) - Z.of_nat (size churnedOut) <? MinMembers cp then d
    else mkDraft (DeleteFunc (λ w, bool_decide (wt_Account w ∈ churnedOut)) (dr_list d)) (dr_weights d) (dr_floor d)
           (dr_applied d) (dr_pregate d)
  else d.

(** *** The floor guard *)

(** The weights of the previous members that have one. *)
Definition prev_weights : gmap string Z :=
  from_option (λ prev, foldl (λ m mw, <[TrimPrefix (em_Account mw.1) "hive:" := mw.2]> m) ∅
                         (zip (el_Members prev) (el_Weights prev))) ∅ (ee_previous env).

Definition backfill_one (balance : string → Z → option Z) (reverses : string → Z → Z → option (list LedgerRecord))
    (s : stakes) (d : draft) (w : Witness) : option (option bondBackfillCandidate) :=
  if bool_decide (wt_Account w ∈ wt_Account <$> dr_list d) then Some None
  else if below_floor (dr_floor d) w then Some None
  else if bool_decide (ConsensusKey (ee_parse env) w = None) then Some None
  else
    match prev_weights !! wt_Account w with
    | None => Some None
    | Some prevW =>
        if prevW =? 0 then Some None
        else
          cur ← maturedConsensusStake balance reverses ("hive:" +:+ wt_Account w) blockHeight 0 0;
          let wgt := Z.min cur (uint64ToInt64Clamped prevW) in
          Some (if (wgt <=? 0) || (wgt <? MinStake cp) then None
                else Some (mkBondBackfillCandidate w wgt (zget (st_effective s) (wt_Account w)) prevW))
    end.

Definition seat_backfill (d : draft) (c : bondBackfillCandidate) : draft :=
  mkDraft (dr_list d ++ [bc_witness c])
    (<[wt_Account (bc_witness c) := if poaActive prevVersion (dr_applied d) then PoaSeatWeight else bc_weight c]> (dr_weights d))
    (dr_floor d) (dr_applied d) (dr_pregate d).

Definition sort_draft (d : draft) : draft :=
  mkDraft (SortFunc account_cmp (dr_list d)) (dr_weights d) (dr_floor d) (dr_applied d) (dr_pregate d).

Definition guard_stage (pType : string) (s : stakes) (d : draft) : string + draft :=
  match ee_previous env, ee_ledger env with
  | Some prev, Some (balance, reverses) =>
      if bondActive && String.eqb pType "staked" && negb (bool_decide (el_Members prev = [])) then
        let bondFloor := bondCommitteeFloor (MinMembers cp) (Z.of_nat (length (el_Members prev))) in
        if Z.of_nat (length (dr_list d)) <? bondFloor then
          match collect_out (backfill_one balance reverses s d) (dr_pregate d) with
          | None => inl "bond floor guard: balance read failed"
          | Some cands =>
              let selected := selectBondBackfill cands (bondFloor - Z.of_nat (length (dr_list d))) in
              if bool_decide (selected = []) then inr d else inr (sort_draft (foldl seat_backfill d selected))
          end
        else inr d
      else inr d
  | _, _ => inr d
  end.

(** *** The election *)

Record ElectionData := mkElectionData {
  ed_Epoch : Z;
  ed_Members : list ElectionMember;
  ed_Weights : list Z;
  ed_Version : Version;
  ed_Type : string;
}.

Definition member_of (w : Witness) : option ElectionMember :=
  key ← ConsensusKey (ee_parse env) w;
  let t := ConsensusVersionTriple w in
  Some (mkElectionMember key (wt_Account w) true (Major t) (Consensus t) (NonConsensus t)).

Definition assemble (pType : string) (d : draft) : ElectionData :=
  let optionalNodes := DeleteFunc (λ w, slices_Contains REQUIRED_ELECTION_MEMBERS (wt_Account w)) (dr_list d) in
  let totalOptionalWeight := foldl u64_add 0 ((λ w, zget (dr_weights d) (wt_Account w)) <$> optionalNodes) in
  let distWeight := computeRequiredMemberWeight totalOptionalWeight (Z.of_nat (length REQUIRED_ELECTION_MEMBERS)) in
  let distWeight := if poaActive prevVersion (dr_applied d) then PoaSeatWeight else distWeight in
  let members := omap member_of (dr_list d) in
  let weights := (λ m, if slices_Contains REQUIRED_ELECTION_MEMBERS (em_Account m) then distWeight
                       else zget (dr_weights d) (em_Account m)) <$> members in
  mkElectionData newEpoch members weights (mkVersion (Major (dr_floor d)) (Consensus (dr_floor d)) 0) pType.

(** The committee: [inl] is an error return. *)
Definition GenerateFullElection (witnessList : list Witness) : string + ElectionData :=
  let l := candidates witnessList in
  match seat_gate l with
  | inl err => inl err
  | inr (l, applied, gateSeats) =>
      if bondActive && bool_decide (ee_ledger env = None) then inl "bond inclusion gate active but ledger state unavailable"
      else
        match (if bondActive then established else inr ∅) with
        | inl err => inl err
        | inr est =>
            match stake_pass est (mkStakes ∅ ∅ ∅ 0) l with
            | inl err => inl err
            | inr s =>
                let pType := election_type s in
                let weights := initial_weights l s (applied || negb (bool_decide (gateSeats = None))) in
                let pregate := if bondActive && String.eqb pType "staked" then l else [] in
                let floor := mkVersion (Major prevVersion) (Consensus prevVersion) 0 in
                let d := mkDraft (DeleteFunc (no_weight weights) l) weights floor applied pregate in
                let d := floor_stage gateSeats d in
                let d := survivors_stage pType gateSeats s d in
                let d := churn_stage pType est s d in
                match guard_stage pType s d with
                | inl err => inl err
                | inr d => inr (assemble pType d)
                end
            end
        end
  end.
End generate.

(** ** Lemmas: resolving the floor *)

Lemma best_proposal_spec ready floor epoch ps best :
  version_le floor best → (best = floor ∨ ready best = true) →
  let r := foldl (λ best p,
    if negb (proposal_live floor epoch p) then best
    else if Cmp (vp_Target p) best <=? 0 then best
    else if ready (vp_Target p) then vp_Target p else best) best ps in
  version_le best r ∧ (r = best ∨ ∃ p, p ∈ ps ∧ proposal_live floor epoch p = true ∧ ready r = true ∧ r = vp_Target p) ∧
  (∀ p, p ∈ ps → proposal_live floor epoch p = true → ready (vp_Target p) = true → version_le (vp_Target p) r).
Proof.
  revert best. induction ps as [|p ps IH]; intros best Hle Hb; cbn [foldl]; cbv zeta.
  { split; [done|]. split; [by left|]. intros p Hp. by apply not_elem_of_nil in Hp. }
  set (best' := if negb (proposal_live floor epoch p) then best
    else if Cmp (vp_Target p) best <=? 0 then best else if ready (vp_Target p) then vp_Target p else best).
  assert (version_le best best' ∧ (best' = best ∨ proposal_live floor epoch p = true ∧ ready best' = true ∧ best' = vp_Target p) ∧
    (proposal_live floor epoch p = true → ready (vp_Target p) = true → version_le (vp_Target p) best')) as (H1 & H2 & H3).
  { unfold best'. destruct (proposal_live floor epoch p); cbn [negb]; [|split_and!; [done|by left|done]].
    destruct (Z.leb_spec (Cmp (vp_Target p) best) 0); [split_and!; [done|by left|done]|].
    destruct (ready (vp_Target p)) eqn:Er; [|split_and!; [done|by left|done]].
    split_and!; [unfold version_le; rewrite Cmp_opp; lia|right; by split_and!|done]. }
  destruct (IH best') as (I1 & I2 & I3); [by etrans|destruct H2 as [->|(_ & ? & _)]; [done|by right]|].
  split_and!; [by etrans| |].
  - destruct I2 as [->|(q & Hq & Hl & Hr & Hrq)]; [|right; exists q; split; [by right|done]].
    destruct H2 as [->|(Hl & Hr & ?)]; [by left|right; exists p; split; [by left|done]].
  - intros q [->|Hq]%elem_of_cons Hl Hr; [etrans; [by apply H3|done]|by apply I3].
Qed.

(** ** Lemmas: sorted committees *)

Definition account_key (w : Witness) : key := (0, 0, wt_Account w).

Lemma account_cmp_key a b : account_cmp a b = key_cmp (account_key a) (account_key b).
Proof. done. Qed.

Lemma NoDup_account_key l : NoDup (wt_Account <$> l) → NoDup (account_key <$> l).
Proof. intros Hnd. apply (NoDup_fmap_1 snd). by rewrite <- list_fmap_compose. Qed.

Lemma sort_accounts l : Sorted String.le (wt_Account <$> SortFunc account_cmp l).
Proof.
  pose proof (SortFunc_Sorted account_cmp account_key (key_cmp_eq _ _ account_cmp_key) l) as Hs. apply StronglySorted_Sorted.
  induction Hs as [|w ws Hs IH Hw]; [constructor|]. rewrite fmap_cons. constructor; [done|].
  apply Forall_fmap. eapply Forall_impl; [exact Hw|]. intros x Hx. apply strings_Compare_le. exact Hx.
Qed.

(** A committee in the order of its accounts, each once. *)
Definition ordered_list (l : list Witness) : Prop := Sorted String.le (wt_Account <$> l) ∧ NoDup (wt_Account <$> l).

Lemma sublist_Sorted_le (l k : list string) : l `sublist_of` k → Sorted String.le k → Sorted String.le l.
Proof.
  intros Hs Hk%Sorted_StronglySorted; [|apply _]. apply StronglySorted_Sorted. revert Hk.
  induction Hs as [|x l k Hs IH|x l k Hs IH]; intros Hk; [constructor| |]; inversion Hk as [|? ? Hk' Hf]; subst; [|by apply IH].
  constructor; [by apply IH|]. apply Forall_forall. intros y Hy. rewrite Forall_forall in Hf. apply Hf. by eapply sublist_subseteq.
Qed.

Lemma ordered_list_sublist l k : l `sublist_of` k → ordered_list k → ordered_list l.
Proof.
  intros Hs [H1 H2]. apply (fmap_sublist wt_Account) in Hs.
  split; [by eapply sublist_Sorted_le|by eapply sublist_NoDup].
Qed.

Lemma ordered_list_delete del l : ordered_list l → ordered_list (DeleteFunc del l).
Proof. apply ordered_list_sublist, DeleteFunc_sublist. Qed.

Lemma ordered_list_sort l : NoDup (wt_Account <$> l) → ordered_list (SortFunc account_cmp l).
Proof. intros Hnd. split; [apply sort_accounts|]. by rewrite (SortFunc_Permutation account_cmp). Qed.

Lemma account_inj l x y : NoDup (wt_Account <$> l) → x ∈ l → y ∈ l → wt_Account x = wt_Account y → x = y.
Proof.
  intros Hnd [i Hi]%list_elem_of_lookup [j Hj]%list_elem_of_lookup Heq.
  assert (i = j) as <-; [|congruence]. eapply (NoDup_lookup _ i j (wt_Account x) Hnd); rewrite list_lookup_fmap, ?Hi, ?Hj; simpl; congruence.
Qed.

Lemma drop_weights_lookup l weights a : drop_weights l weights !! a = if decide (a ∈ l) then None else weights !! a.
Proof.
  unfold drop_weights. revert weights. induction l as [|x l IH]; intros weights; [by rewrite decide_False by apply not_elem_of_nil|].
  cbn [foldl]. rewrite IH. destruct (decide (a ∈ l)) as [?|Hn]; [by rewrite decide_True by by right|].
  destruct (decide (a = x)) as [->|Hne]; [by rewrite lookup_delete_eq, decide_True by left|].
  rewrite lookup_delete_ne, decide_False by set_solver. done.
Qed.

(** ** Lemmas: the draft of a committee stays well formed *)

Lemma collect_out_Forall2 {A B} (f : A → option (option B)) l out :
  collect_out f l = Some out → ∃ xs, xs `sublist_of` l ∧ Forall2 (λ x y, f x = Some (Some y)) xs out.
Proof.
  revert out. induction l as [|x l IH]; intros out Hc; cbn [collect_out] in Hc; [simplify_eq; by exists []|].
  destruct (f x) as [y|] eqn:Ef; [|done]. cbn [mbind option_bind] in Hc.
  destruct (collect_out f l) as [o|]; [|done]. cbn [mbind option_bind] in Hc. simplify_eq.
  destruct (IH o eq_refl) as (xs & Hs & Hf). destruct y as [y|]; cbn [option_list app].
  - exists (x :: xs). split; [by constructor|by constructor].
  - exists xs. split; [by constructor|done].
Qed.

Section well_formed.
Context (env : election_env) (previousEpoch : Z) (prevVersion : Version) (blockHeight : Z) (wl : list Witness).
Abbreviation carried := (mkVersion (Major prevVersion) (Consensus prevVersion) 0).

Record draft_ok (d : draft) : Prop := mkDraftOk {
  ok_ordered : ordered_list (dr_list d);
  ok_drawn : ∀ w, w ∈ dr_list d → w ∈ wl;
  ok_meets : ∀ w, w ∈ dr_list d → MeetsConsensusMin (ConsensusVersionTriple w) (dr_floor d) = true;
  ok_weight : ∀ w, w ∈ dr_list d → 0 < zget (dr_weights d) (wt_Account w);
  ok_floor : version_le carried (dr_floor d);
  ok_pregate : NoDup (wt_Account <$> dr_pregate d);
  ok_pregate_drawn : ∀ w, w ∈ dr_pregate d → w ∈ wl;
}.

(** A stage that only takes members out. *)
Record shrinks (d d' : draft) : Prop := mkShrinks {
  shrinks_list : dr_list d' `sublist_of` dr_list d;
  shrinks_pregate : dr_pregate d' `sublist_of` dr_pregate d;
  shrinks_floor : version_le (dr_floor d) (dr_floor d');
  shrinks_meets : ∀ w, w ∈ dr_list d' →
    dr_floor d' = dr_floor d ∨ MeetsConsensusMin (ConsensusVersionTriple w) (dr_floor d') = true;
  shrinks_weight : ∀ w, w ∈ dr_list d' → dr_weights d' !! wt_Account w = dr_weights d !! wt_Account w;
}.

#[local] Instance shrinks_preorder : PreOrder shrinks.
Proof.
  split.
  - intros d. split; [done..|by left|done].
  - intros d1 d2 d3 [A1 A2 A3 A4 A5] [B1 B2 B3 B4 B5]. split; [by etrans|by etrans|by etrans| |].
    + intros w Hw. destruct (B4 w Hw) as [->|?]; [|by right]. apply A4. by eapply sublist_subseteq.
    + intros w Hw. rewrite B5 by done. apply A5. by eapply sublist_subseteq.
Qed.

Lemma shrinks_ok d d' : draft_ok d → shrinks d d' → draft_ok d'.
Proof.
  intros [H1 H2 H3 H4 H5 H6 H7] [Hl Hp Hv Hm Hw]. pose proof (sublist_subseteq _ _ Hl) as Hin.
  split; [by eapply ordered_list_sublist|by intros; apply H2, Hin| | |by etrans| |].
  - intros w Hw'. destruct (Hm w Hw') as [->|?]; [by apply H3, Hin|done].
  - intros w Hw'. unfold zget. rewrite Hw by done. by apply H4, Hin.
  - by eapply sublist_NoDup; [|apply (fmap_sublist wt_Account)].
  - intros w Hw'. apply H7. by eapply sublist_subseteq.
Qed.

Lemma raise_floor_shrinks target d : shrinks d (raise_floor target d).
Proof.
  unfold raise_floor. destruct (Z.ltb_spec 0 (Cmp target (dr_floor d))) as [Hc|]; [|done].
  split; cbn; [apply DeleteFunc_sublist|done| | |done].
  - unfold version_le. rewrite Cmp_opp. lia.
  - intros w [_ Hm]%elem_of_DeleteFunc. unfold below_floor in Hm. right. by destruct (MeetsConsensusMin _ _).
Qed.

Lemma floor_stage_shrinks gateSeats d : shrinks d (floor_stage env previousEpoch blockHeight gateSeats d).
Proof.
  unfold floor_stage. cbv zeta. destruct (ee_engine env) as [read|]; [|apply raise_floor_shrinks].
  destruct (read blockHeight) as [forced ps], (activation_fraction env) as [num den].
  etrans; [apply (raise_floor_shrinks (PinnedVersionFloor (ee_params env) (newEpoch env previousEpoch)))|apply raise_floor_shrinks].
Qed.

Lemma elem_of_unseated seats (l : list Witness) a :
  a ∈ (wt_Account <$> filter (λ w, unseated seats w = true) l) → NormalizeAccount a ∉ seats.
Proof.
  intros (w & -> & [Hu _]%list_elem_of_filter)%list_elem_of_fmap. unfold unseated, seated in Hu.
  by case_bool_decide.
Qed.

Lemma apply_gate_shrinks seats d : shrinks d (apply_gate seats d).
Proof.
  split; cbn; [apply DeleteFunc_sublist|apply DeleteFunc_sublist|done|by left|].
  intros w [Hw Hs]%elem_of_DeleteFunc. rewrite drop_weights_lookup, decide_False; [done|].
  intros Hu%elem_of_unseated. unfold unseated, seated in Hs. by case_bool_decide.
Qed.

Lemma top_up_shrinks seats s d : shrinks d (top_up env blockHeight seats s d).
Proof.
  split; cbn; [apply DeleteFunc_sublist|done|done|by left|].
  intros w [Hw Hs]%elem_of_DeleteFunc. rewrite drop_weights_lookup, decide_False; [done|].
  intros [Hk Hu%elem_of_unseated]%list_elem_of_filter. unfold unseated, seated in Hs.
  rewrite bool_decide_eq_false_2 in Hs by done. by rewrite bool_decide_eq_false_2 in Hs.
Qed.

Lemma survivors_stage_shrinks pType gateSeats s d : shrinks d (survivors_stage env blockHeight pType gateSeats s d).
Proof.
  unfold survivors_stage. destruct gateSeats as [seats|]; [|done].
  case_match; [apply apply_gate_shrinks|]. case_match; [apply top_up_shrinks|done].
Qed.

Lemma churn_stage_shrinks pType est s d : shrinks d (churn_stage env prevVersion blockHeight pType est s d).
Proof.
  unfold churn_stage. destruct (churn_limit _ _ _ d) as [poaChurn effMaxNew].
  case_match; [|done]. cbv zeta. case_match; [done|]. split; cbn; [apply DeleteFunc_sublist|done|done|by left|done].
Qed.

Definition backfill_weight (d : draft) (c : bondBackfillCandidate) : Z :=
  if poaActive prevVersion (dr_applied d) then PoaSeatWeight else bc_weight c.

Lemma seat_all cs d :
  NoDup (wt_Account <$> dr_list d ++ (bc_witness <$> cs)) →
  let d' := foldl (seat_backfill prevVersion) d cs in
  dr_list d' = dr_list d ++ (bc_witness <$> cs) ∧ dr_floor d' = dr_floor d ∧ dr_applied d' = dr_applied d ∧
  dr_pregate d' = dr_pregate d ∧
  (∀ w, w ∈ dr_list d → dr_weights d' !! wt_Account w = dr_weights d !! wt_Account w) ∧
  (∀ c, c ∈ cs → dr_weights d' !! wt_Account (bc_witness c) = Some (backfill_weight d c)).
Proof.
  revert d. induction cs as [|c cs IH]; intros d Hnd; cbn [foldl]; cbv zeta.
  { rewrite app_nil_r. split_and!; [done..|]. intros c Hc. by apply not_elem_of_nil in Hc. }
  rewrite fmap_cons in Hnd. destruct (IH (seat_backfill prevVersion d c)) as (E1 & E2 & E3 & E4 & E5 & E6).
  { cbn. by rewrite <- (assoc_L (++)). }
  rewrite E1, E2, E3, E4. cbn in *. split_and!; [by rewrite <- (assoc_L (++))|done..| |].
  - intros w Hw. rewrite E5 by (apply elem_of_app; by left). rewrite lookup_insert_ne; [done|].
    rewrite fmap_app, fmap_cons in Hnd. apply NoDup_app in Hnd as (_ & Hd & _). intros Heq.
    apply (Hd (wt_Account w)); [by apply list_elem_of_fmap_2|]. rewrite Heq. by left.
  - intros x [->|Hx]%elem_of_cons; [|by apply E6]. rewrite E5; [|apply elem_of_app; right; by left].
    by rewrite lookup_insert_eq.
Qed.

Lemma backfill_one_ok balance reverses s d w c :
  backfill_one env blockHeight balance reverses s d w = Some (Some c) →
  bc_witness c = w ∧ (wt_Account w ∉ (wt_Account <$> dr_list d)) ∧
  MeetsConsensusMin (ConsensusVersionTriple w) (dr_floor d) = true ∧ 0 < bc_weight c ∧ MinStake (ee_params env) <= bc_weight c ∧
  (∃ pw, prev_weights env !! wt_Account w = Some pw ∧ bc_weight c <= uint64ToInt64Clamped pw).
Proof.
  unfold backfill_one, below_floor. case_bool_decide; [done|]. destruct (MeetsConsensusMin _ _) eqn:Em; [|done].
  cbn [negb]. case_bool_decide; [done|]. destruct (prev_weights env !! wt_Account w) as [pw|] eqn:Ep; [|done].
  case_match; [done|]. destruct (maturedConsensusStake _ _ _ _ _ _) as [cur|]; [|done]. cbn [mbind option_bind].
  destruct (_ || _) eqn:Eo; [done|]. intros [= <-]. cbn. apply orb_false_iff in Eo as [E1%Z.leb_gt E2%Z.ltb_ge].
  split_and!; [done..|]. exists pw. split; [done|lia].
Qed.

(** What the guard re-seats: members of the previous committee, each once. *)
Lemma backfill_selected balance reverses s d cands need :
  draft_ok d → collect_out (backfill_one env blockHeight balance reverses s d) (dr_pregate d) = Some cands →
  NoDup (wt_Account <$> dr_list d ++ (bc_witness <$> selectBondBackfill cands need)) ∧
  (∀ c, c ∈ selectBondBackfill cands need → bc_witness c ∈ dr_pregate d ∧
     backfill_one env blockHeight balance reverses s d (bc_witness c) = Some (Some c)).
Proof.
  intros Hd (xs & Hs & Hf)%collect_out_Forall2.
  assert (bc_witness <$> cands = xs) as Hxs.
  { clear Hs. induction Hf as [|x c xs cs Hx Hf IH]; [done|]. rewrite fmap_cons, IH.
    by apply backfill_one_ok in Hx as [-> _]. }
  assert (∀ c, c ∈ cands → bc_witness c ∈ dr_pregate d ∧
     backfill_one env blockHeight balance reverses s d (bc_witness c) = Some (Some c)) as Hc.
  { intros c [i Hi]%list_elem_of_lookup. destruct (Forall2_lookup_r _ _ _ _ _ Hf Hi) as (x & Hx & Hb).
    pose proof Hb as [-> _]%backfill_one_ok. split; [|done]. eapply sublist_subseteq; [done|].
    by eapply list_elem_of_lookup_2. }
  assert (∃ cs, selectBondBackfill cands need `sublist_of` cs ∧ cs ≡ₚ cands) as (cs & Hsub & Hperm).
  { unfold selectBondBackfill. case_match; [exists cands; split; [apply sublist_nil_l|done]|].
    exists (SortFunc backfill_cmp cands). split; [apply sublist_take|apply (SortFunc_Permutation backfill_cmp)]. }
  assert (∀ c, c ∈ selectBondBackfill cands need → c ∈ cands) as Hsel.
  { intros c Hin. rewrite <- Hperm. by eapply sublist_subseteq. }
  split; [|intros c Hin; by apply Hc, Hsel].
  rewrite fmap_app. apply NoDup_app. split_and!; [apply Hd| |].
  - intros a Ha (w & -> & (c & -> & Hin)%list_elem_of_fmap)%list_elem_of_fmap.
    by apply Hsel, Hc in Hin as [_ (_ & Hn & _)%backfill_one_ok].
  - eapply sublist_NoDup; [|apply (fmap_sublist wt_Account), (fmap_sublist bc_witness), Hsub].
    rewrite Hperm, Hxs. eapply sublist_NoDup; [apply (ok_pregate d Hd)|by apply fmap_sublist].
Qed.

Lemma guard_stage_ok pType s d d' :
  draft_ok d → guard_stage env prevVersion blockHeight pType s d = inr d' → draft_ok d'.
Proof.
  intros Hd. unfold guard_stage. destruct (ee_previous env) as [prev|]; [|by intros ?; simplify_eq].
  destruct (ee_ledger env) as [[balance reverses]|]; [|by intros [= <-]].
  case_match; [|by intros [= <-]]. cbv zeta. case_match; [|by intros [= <-]].
  destruct (collect_out _ _) as [cands|] eqn:Ec; [|done].
  destruct (bool_decide (selectBondBackfill _ _ = [])); intros [= <-]; [done|].
  destruct (backfill_selected _ _ _ _ _ (bondCommitteeFloor (MinMembers (ee_params env)) (Z.of_nat (length (el_Members prev)))
    - Z.of_nat (length (dr_list d))) Hd Ec) as [Hnd Hsel].
  set (sel := selectBondBackfill _ _) in *. destruct (seat_all sel d Hnd) as (E1 & E2 & _ & E4 & E5 & E6).
  set (d' := foldl _ d sel) in *. destruct Hd as [H1 H2 H3 H4 H5 H6 H7].
  assert (∀ w, w ∈ dr_list (sort_draft d') → w ∈ dr_list d ∨ ∃ c, c ∈ sel ∧ w = bc_witness c) as Hin.
  { intros w Hw. cbn in Hw. rewrite (SortFunc_Permutation account_cmp), E1 in Hw.
    apply elem_of_app in Hw as [?|(c & -> & ?)%list_elem_of_fmap]; [by left|right; by exists c]. }
  split; cbn; rewrite ?E2, ?E4; [apply ordered_list_sort; by rewrite E1| | | |done..];
    intros w [Hw|(c & Hc & ->)]%Hin; [by apply H2|by apply H7, Hsel|by apply H3| | |].
  - apply Hsel in Hc as [_ (_ & _ & ? & _)%backfill_one_ok]. done.
  - unfold zget. rewrite E5 by done. by apply H4.
  - unfold zget. rewrite E6 by done. apply Hsel in Hc as [_ (_ & _ & _ & ? & _)%backfill_one_ok].
    cbn. unfold backfill_weight, PoaSeatWeight. case_match; lia.
Qed.
Lemma candidates_ok :
  NoDup (wt_Account <$> wl) →
  ordered_list (candidates env prevVersion wl) ∧
  ∀ w, w ∈ candidates env prevVersion wl → w ∈ wl ∧ MeetsConsensusMin (ConsensusVersionTriple w) carried = true.
Proof.
  intros Hnd. unfold candidates. set (l := DeleteFunc _ wl).
  assert (ordered_list (SortFunc account_cmp l)) as Ho.
  { apply ordered_list_sort. eapply sublist_NoDup; [exact Hnd|apply fmap_sublist, DeleteFunc_sublist]. }
  assert (∀ w, w ∈ SortFunc account_cmp l → w ∈ wl ∧ MeetsConsensusMin (ConsensusVersionTriple w) carried = true) as Hm.
  { intros w. rewrite (SortFunc_Permutation account_cmp). intros [? Hv]%elem_of_DeleteFunc.
    by destruct (MeetsConsensusMin _ _). }
  destruct (WitnessKeyStrictActive prevVersion); [|done].
  split; [by apply ordered_list_delete|]. intros w [Hw _]%elem_of_DeleteFunc. by apply Hm.
Qed.

Lemma seat_gate_sublist l l' applied gateSeats :
  seat_gate env prevVersion blockHeight l = inr (l', applied, gateSeats) → l' `sublist_of` l.
Proof.
  unfold seat_gate. intros Hg. repeat case_match; simplify_eq; try done. apply DeleteFunc_sublist.
Qed.

Lemma stake_pass_inv (P : gmap string Z → Prop) est s l s' :
  (∀ m a v, P m → 0 < v → MinStake (ee_params env) <= v → P (<[a := v]> m)) →
  P (st_staked s) → stake_pass env blockHeight est s l = inr s' → P (st_staked s').
Proof.
  intros HP. assert (∀ s a v, P (st_staked s) → P (st_staked (add_stake env s a v))) as Hadd.
  { intros x a v Hx. unfold add_stake. destruct (_ && _) eqn:E; [|done]. cbn.
    apply andb_true_iff in E as [E1%Z.ltb_lt E2%Z.leb_le]. by apply HP. }
  revert s. induction l as [|w l IH]; intros s Hs; cbn [stake_pass]; [by intros [= <-]|].
  unfold stake_one. repeat case_match; intros Hp; simplify_eq; (eapply IH; [|exact Hp]); try done; by apply Hadd.
Qed.

Lemma stake_pass_positive est l s a v :
  stake_pass env blockHeight est (mkStakes ∅ ∅ ∅ 0) l = inr s → st_staked s !! a = Some v → 0 < v.
Proof.
  intros Hp. revert a v. refine (stake_pass_inv (λ m, ∀ a v, m !! a = Some v → 0 < v) _ _ _ _ _ _ Hp).
  - intros m a v Hm Hv _ b x. rewrite lookup_insert_Some. intros [[_ <-]|[_ ?]]; [done|by eapply Hm].
  - intros a v Hl. cbn in Hl. by rewrite lookup_empty in Hl.
Qed.

Lemma initial_weights_positive est l s applied a v :
  stake_pass env blockHeight est (mkStakes ∅ ∅ ∅ 0) l = inr s →
  initial_weights env prevVersion l s applied !! a = Some v → 0 < v.
Proof.
  intros Hp. unfold initial_weights. case_match; [|].
  - case_match; [|by apply (stake_pass_positive est l s a v Hp)].
    rewrite lookup_fmap_Some. intros (x & <- & _). unfold PoaSeatWeight. lia.
  - intros (w & [= _ ->] & _)%elem_of_list_to_map_2%list_elem_of_fmap. unfold DEFAULT_NEW_NODE_WEIGHT. lia.
Qed.

Definition first_draft (l : list Witness) (applied : bool) (gateSeats : option (gset string)) (s : stakes) : draft :=
  let weights := initial_weights env prevVersion l s (applied || negb (bool_decide (gateSeats = None))) in
  mkDraft (DeleteFunc (no_weight weights) l) weights carried applied
    (if bondActive env blockHeight && String.eqb (election_type env s) "staked" then l else []).

Lemma first_draft_ok l applied gateSeats est s :
  NoDup (wt_Account <$> wl) →
  seat_gate env prevVersion blockHeight (candidates env prevVersion wl) = inr (l, applied, gateSeats) →
  stake_pass env blockHeight est (mkStakes ∅ ∅ ∅ 0) l = inr s → draft_ok (first_draft l applied gateSeats s).
Proof.
  intros Hnd Hsub%seat_gate_sublist Hp. destruct (candidates_ok Hnd) as [Ho Hm].
  pose proof (sublist_subseteq _ _ Hsub) as Hin. apply (ordered_list_sublist _ _ Hsub) in Ho.
  split; cbn [first_draft dr_list dr_weights dr_floor dr_applied dr_pregate].
  - by apply ordered_list_delete.
  - intros w [Hw _]%elem_of_DeleteFunc. by apply Hm, Hin.
  - intros w [Hw _]%elem_of_DeleteFunc. by apply Hm, Hin.
  - intros w [_ Hz]%elem_of_DeleteFunc. unfold no_weight in Hz. unfold zget.
    destruct (initial_weights _ _ _ _ _ !! wt_Account w) as [v|] eqn:Ev; [|done]. cbn. by eapply initial_weights_positive.
  - done.
  - case_match; [apply Ho|constructor].
  - case_match; [|by intros w Hw%not_elem_of_nil]. intros w Hw. by apply Hm, Hin.
Qed.

(** The stages of a generation that returns a committee. *)
Lemma generate_stages ed :
  GenerateFullElection env previousEpoch prevVersion blockHeight wl = inr ed →
  ∃ l applied gateSeats est s d,
    seat_gate env prevVersion blockHeight (candidates env prevVersion wl) = inr (l, applied, gateSeats) ∧
    stake_pass env blockHeight est (mkStakes ∅ ∅ ∅ 0) l = inr s ∧
    guard_stage env prevVersion blockHeight (election_type env s) s
      (churn_stage env prevVersion blockHeight (election_type env s) est s
        (survivors_stage env blockHeight (election_type env s) gateSeats s
          (floor_stage env previousEpoch blockHeight gateSeats (first_draft l applied gateSeats s)))) = inr d ∧
    ed = assemble env previousEpoch prevVersion (election_type env s) d.
Proof.
  unfold GenerateFullElection. destruct (seat_gate _ _ _ _) as [|[[l applied] gateSeats]] eqn:Eg; [done|].
  case_match; [done|]. destruct (if bondActive env blockHeight then _ else _) as [|est]; [done|].
  destruct (stake_pass _ _ _ _ _) as [|s] eqn:Es; [done|]. cbv zeta.
  destruct (guard_stage _ _ _ _ _ _) as [|d] eqn:Ed; [done|]. intros [= <-].
  exists l, applied, gateSeats, est, s, d. by split_and!.
Qed.

Lemma generate_draft ed :
  NoDup (wt_Account <$> wl) → GenerateFullElection env previousEpoch prevVersion blockHeight wl = inr ed →
  ∃ pType d, draft_ok d ∧ ed = assemble env previousEpoch prevVersion pType d.
Proof.
  intros Hnd (l & applied & gateSeats & est & s & d & Hg & Hp & Hd & ->)%generate_stages.
  exists (election_type env s), d. split; [|done]. eapply guard_stage_ok; [|exact Hd].
  eapply shrinks_ok; [by eapply first_draft_ok|].
  etrans; [apply floor_stage_shrinks|]. etrans; [apply survivors_stage_shrinks|apply churn_stage_shrinks].
Qed.
End well_formed.

(** ** Lemmas: one seat, one vote *)

Definition flat (d : draft) : Prop := ∀ w, w ∈ dr_list d → zget (dr_weights d) (wt_Account w) = PoaSeatWeight.

Lemma top_up_length env blockHeight seats s d :
  NoDup (wt_Account <$> dr_list d) → poaSeatedCount (dr_list d) seats < MinMembers (ee_params env) →
  Z.of_nat (length (dr_list (top_up env blockHeight seats s d))) <= MinMembers (ee_params env).
Proof.
  intros Hnd Hlt. cbn. set (keep := selectPoaTopUp _ _ _ _). set (need := MinMembers _ - _) in keep.
  assert (Z.of_nat (size keep) <= need) as Hk.
  { unfold keep, selectPoaTopUp. rewrite (proj2 (Z.leb_gt need 0)) by (unfold need; lia).
    set (picked := take _ _). assert (length picked ≤ Z.to_nat need)%nat by (unfold picked; rewrite length_take; apply Nat.le_min_l).
    transitivity (Z.of_nat (length picked)); [|unfold need in *; lia]. apply inj_le.
    rewrite <- (list_to_set_elements_L (C := gset string) (list_to_set picked)) at 1.
    rewrite size_list_to_set by apply NoDup_elements. apply submseteq_length, NoDup_submseteq; [apply NoDup_elements|].
    intros x. by rewrite elem_of_elements, elem_of_list_to_set. }
  pose proof (DeleteFunc_split (seated seats) (λ w, bool_decide (wt_Account w ∈ keep)) (dr_list d)) as Hlen.
  unfold unseated. rewrite Hlen. set (kept := filter _ (dr_list d)) in |- * at 2.
  assert (length kept ≤ size keep)%nat as Hkept.
  { rewrite <- (length_fmap wt_Account kept). rewrite <- (size_list_to_set (C := gset string)).
    - apply subseteq_size. intros a. rewrite elem_of_list_to_set.
      intros (w & -> & [[_ ?%bool_decide_eq_true_1] _]%list_elem_of_filter)%list_elem_of_fmap. done.
    - eapply sublist_NoDup; [exact Hnd|]. apply fmap_sublist, sublist_filter. }
  unfold need, poaSeatedCount in *. lia.
Qed.

Lemma guard_stage_idle env prevVersion blockHeight wl pType s d d' :
  draft_ok prevVersion wl d → 1 < MinStake (ee_params env) → (∀ a w, prev_weights env !! a = Some w → 0 <= w <= 1) →
  guard_stage env prevVersion blockHeight pType s d = inr d' → d' = d.
Proof.
  intros Hd Hmin Hprev. unfold guard_stage. destruct (ee_previous env) as [prev|] eqn:Eprev; [|by intros [= <-]].
  destruct (ee_ledger env) as [[balance reverses]|]; [|by intros [= <-]].
  destruct (_ && _); [|by intros [= <-]]. cbv zeta. destruct (_ <? _); [|by intros [= <-]].
  destruct (collect_out _ _) as [cands|] eqn:Ec; [|done].
  set (need := bondCommitteeFloor _ _ - _). destruct (backfill_selected env prevVersion blockHeight wl _ _ _ _ _ need Hd Ec) as [_ Hsel].
  destruct (selectBondBackfill cands need) as [|c cs]; [by intros [= <-]|]. exfalso.
  destruct (Hsel c ltac:(by left)) as [_ (_ & _ & _ & _ & Hw & pw & Hpw & Hle)%backfill_one_ok].
  apply Hprev in Hpw. unfold uint64ToInt64Clamped in Hle. case_match; lia.
Qed.

Lemma flat_shrinks d d' : flat d → shrinks d d' → flat d'.
Proof.
  intros Hf [Hl _ _ _ Hw] w Hin. unfold zget. rewrite Hw by done. apply Hf. by eapply sublist_subseteq.
Qed.

(** Every survivor has a seat, or the committee is no larger than it must be. *)
Lemma survivors_seated env blockHeight seats s d :
  NoDup (wt_Account <$> dr_list d) →
  let d' := survivors_stage env blockHeight "staked" (Some seats) s d in
  (∀ w, w ∈ dr_list d' → NormalizeAccount (wt_Account w) ∈ seats) ∨ Z.of_nat (length (dr_list d')) <= MinMembers (ee_params env).
Proof.
  intros Hnd. unfold survivors_stage. destruct (Z.leb_spec (MinMembers (ee_params env)) (poaSeatedCount (dr_list d) seats)).
  - left. intros w [_ Hs]%elem_of_DeleteFunc. unfold unseated, seated in Hs. by case_bool_decide.
  - rewrite String.eqb_refl. cbn [andb]. case_bool_decide as He; cbn [negb]; cbv zeta.
    + left. intros w Hw. rewrite He in Hw. by apply not_elem_of_nil in Hw.
    + right. by apply top_up_length.
Qed.

Lemma first_draft_flat env prevVersion blockHeight l applied seats s :
  PoaFlatWeightActive prevVersion = true → election_type env s = "staked" →
  flat (first_draft env prevVersion blockHeight l applied (Some seats) s).
Proof.
  intros Hf Ht w [_ Hz]%elem_of_DeleteFunc. unfold no_weight in Hz. cbn in *. unfold zget.
  destruct (initial_weights _ _ _ _ _ !! wt_Account w) as [v|] eqn:Ev; [|done]. cbn. unfold initial_weights in Ev.
  rewrite Ht in Ev. cbn in Ev. unfold poaActive in Ev. rewrite Hf, orb_true_r in Ev. cbn in Ev.
  apply lookup_fmap_Some in Ev as (? & <- & _). done.
Qed.

(** ** Lemmas: from the draft to the election *)

Lemma member_of_fields env w m :
  member_of env w = Some m →
  em_Account m = wt_Account w ∧
  mkVersion (MemberMajor m) (MemberConsensus m) (MemberNonConsensus m) = ConsensusVersionTriple w.
Proof.
  unfold member_of. destruct (ConsensusKey _ w); [|done]. cbn [mbind option_bind]. by intros [= <-].
Qed.

Lemma omap_member_sublist env l : (em_Account <$> omap (member_of env) l) `sublist_of` (wt_Account <$> l).
Proof.
  induction l as [|w l IH]; [done|]. cbn [omap list_omap fmap list_fmap]. destruct (member_of env w) as [m|] eqn:Em.
  - cbn [fmap list_fmap]. apply member_of_fields in Em as [-> _]. by constructor.
  - by constructor.
Qed.

Lemma assemble_lookup env previousEpoch prevVersion pType d i m x :
  ed_Members (assemble env previousEpoch prevVersion pType d) !! i = Some m →
  ed_Weights (assemble env previousEpoch prevVersion pType d) !! i = Some x →
  x = zget (dr_weights d) (em_Account m) ∧ ∃ w, w ∈ dr_list d ∧ member_of env w = Some m.
Proof.
  cbn. intros Hm. rewrite list_lookup_fmap, Hm. cbn. intros [= <-]. split; [done|].
  apply list_elem_of_lookup_2, list_elem_of_omap in Hm as (w & Hw & Hm). by exists w.
Qed.

(** ** Theorems *)

(** C19: the committee is well formed.  Its members are in the order of their
    accounts, each account once, and there is a positive weight for each.  Each is
    a witness that announced itself, with a consensus key that parses, and runs a
    version that meets the committee's. *)
Theorem committee_well_formed env previousEpoch prevVersion blockHeight wl ed :
  NoDup (wt_Account <$> wl) →
  GenerateFullElection env previousEpoch prevVersion blockHeight wl = inr ed →
  length (ed_Weights ed) = length (ed_Members ed) ∧
  Sorted String.le (em_Account <$> ed_Members ed) ∧ NoDup (em_Account <$> ed_Members ed) ∧
  ∀ i m x, ed_Members ed !! i = Some m → ed_Weights ed !! i = Some x →
    0 < x ∧ ∃ w, w ∈ wl ∧ wt_Account w = em_Account m ∧ ConsensusKey (ee_parse env) w = Some (em_Key m) ∧
      MeetsConsensusMin (mkVersion (MemberMajor m) (MemberConsensus m) (MemberNonConsensus m)) (ed_Version ed) = true.
Proof.
  intros Hnd (pType & d & Hd & ->)%generate_draft; [|done]. split; [cbn; by rewrite length_fmap|].
  destruct (ok_ordered _ _ d Hd) as [Hs Hn].
  split; [eapply sublist_Sorted_le; [apply omap_member_sublist|done]|].
  split; [eapply sublist_NoDup; [exact Hn|apply omap_member_sublist]|].
  intros i m x Hm Hx. destruct (assemble_lookup _ _ _ _ _ _ _ _ Hm Hx) as (-> & w & Hw & Hmo).
  pose proof (member_of_fields _ _ _ Hmo) as [Ha Hv]. rewrite Ha, Hv. split; [by apply Hd|].
  exists w. split; [by apply Hd|]. split; [done|]. split; [|by apply (ok_meets _ _ _ Hd w Hw)].
  unfold member_of in Hmo. destruct (ConsensusKey _ w); [|done]. cbn [mbind option_bind] in Hmo. by simplify_eq.
Qed.

(** C30: every node derives the same committee.  Whatever the order in which a node's
    database lists the announcements, one per account, the election or the error
    is the same. *)
Theorem election_deterministic env previousEpoch prevVersion blockHeight wl wl' :
  NoDup (wt_Account <$> wl) → wl ≡ₚ wl' →
  GenerateFullElection env previousEpoch prevVersion blockHeight wl =
  GenerateFullElection env previousEpoch prevVersion blockHeight wl'.
Proof.
  intros Hnd Hp. unfold GenerateFullElection, candidates. set (del := λ w, negb _).
  rewrite (SortFunc_perm account_cmp account_key (key_cmp_eq _ _ account_cmp_key)
    (DeleteFunc del wl) (DeleteFunc del wl')); [done| |by apply DeleteFunc_perm].
  apply NoDup_account_key. eapply sublist_NoDup; [exact Hnd|apply fmap_sublist, DeleteFunc_sublist].
Qed.

(** The version floor is what the network is ready for.  Without an override
    the floor of the next committee is the largest of the carried floor and of the
    targets of the live proposals that both the stake and the previous committee
    are ready for.  An override that is due wins, and where the gate is active
    only if the previous committee keeps its quorum at it. *)
Theorem floor_is_largest_ready parse floor newEpoch forced ps l prevCands weights prev num den :
  let gate f := from_option (λ p, f (ResultVersion p)) false prev in
  let ready v := stakeReady parse (gate BlsWeightDedupActive) l weights num den v = true ∧ prevReadyAt prev prevCands v = true in
  let due f := vp_ActivationEpoch f <= newEpoch ∧ 0 < Cmp (vp_Target f) floor ∧
    (gate ForcedFloorRespectsQuorumActive = true → prevReadyAt prev prevCands (vp_Target f) = true) in
  let r := resolveVersionFloorWithPrev parse floor newEpoch forced ps l prevCands weights prev num den in
  (∃ f, forced = Some f ∧ due f ∧ r = vp_Target f) ∨
  ((∀ f, forced = Some f → ¬ due f) ∧ version_le floor r ∧
   (r = floor ∨ ∃ p, p ∈ ps ∧ proposal_live floor newEpoch p = true ∧ ready r ∧ r = vp_Target p) ∧
   (∀ p, p ∈ ps → proposal_live floor newEpoch p = true → ready (vp_Target p) → version_le (vp_Target p) r)).
Proof.
  intros gate ready due r. unfold r, resolveVersionFloorWithPrev. fold gate.
  set (rdy := λ t, stakeReady _ _ _ _ _ _ t && _).
  assert (∀ v, rdy v = true ↔ ready v) as Hr by (intros v; apply andb_true_iff).
  pose proof (best_proposal_spec rdy floor newEpoch ps floor ltac:(done) ltac:(by left)) as (B1 & B2 & B3).
  change (foldl _ floor ps) with (best_proposal rdy floor newEpoch ps) in *.
  assert (version_le floor (best_proposal rdy floor newEpoch ps) ∧
    (best_proposal rdy floor newEpoch ps = floor ∨ ∃ p, p ∈ ps ∧ proposal_live floor newEpoch p = true ∧
       ready (best_proposal rdy floor newEpoch ps) ∧ best_proposal rdy floor newEpoch ps = vp_Target p) ∧
    (∀ p, p ∈ ps → proposal_live floor newEpoch p = true → ready (vp_Target p) →
       version_le (vp_Target p) (best_proposal rdy floor newEpoch ps))) as Hbest.
  { split; [done|]. split; [destruct B2 as [?|(p & ? & ? & ?%Hr & ?)]; [by left|right; by exists p]|].
    intros p Hp Hl Hrdy%Hr. by apply B3. }
  destruct forced as [f|]; [|right; split; [by intros ? [=]|exact Hbest]].
  destruct (_ && _) eqn:E; [left; exists f|right; split; [|exact Hbest]].
  - apply andb_true_iff in E as [E1 E3]. apply andb_true_iff in E1 as [E1%Z.leb_le E2%Z.ltb_lt].
    split; [done|]. split; [|done]. split_and!; [done..|]. intros Hg. unfold gate in Hg. by rewrite Hg in E3.
  - intros f' [= <-] (D1 & D2 & D3). rewrite (proj2 (Z.leb_le _ _) D1), (proj2 (Z.ltb_lt _ _) D2) in E. cbn [andb] in E.
    apply orb_false_iff in E as [E1 E2]. rewrite D3 in E2; [done|]. unfold gate. by destruct (from_option _ _ _).
Qed.

(** The version never falls.  An election's version is at least that of the
    election before it. *)
Theorem election_version_monotone env previousEpoch prevVersion blockHeight wl ed :
  NoDup (wt_Account <$> wl) →
  GenerateFullElection env previousEpoch prevVersion blockHeight wl = inr ed →
  version_le (mkVersion (Major prevVersion) (Consensus prevVersion) 0) (ed_Version ed).
Proof.
  intros Hnd (pType & d & Hd & ->)%generate_draft; [|done]. pose proof (ok_floor _ _ d Hd) as Hf.
  unfold version_le in *. cbn [ed_Version assemble]. pose proof (Cmp_spec (mkVersion (Major prevVersion) (Consensus prevVersion) 0) (dr_floor d)).
  pose proof (Cmp_spec (mkVersion (Major prevVersion) (Consensus prevVersion) 0) (mkVersion (Major (dr_floor d)) (Consensus (dr_floor d)) 0)).
  cbn in *. lia.
Qed.

(** One seat, one vote.  Once the committee is drawn from seats, in a staked
    election all weights are 1, and either every member has a seat or the
    committee is no larger than the network's minimum.  The previous committee's
    weights are taken to be flat as well, and the minimum stake to be above 1. *)
Theorem one_seat_one_vote env previousEpoch prevVersion blockHeight wl ed read seats :
  NoDup (wt_Account <$> wl) → PoaStarvationTopUpActive prevVersion = true →
  ee_seats env = Some read → read blockHeight = Some seats → seats ≠ [] →
  1 < MinStake (ee_params env) → (∀ a w, prev_weights env !! a = Some w → 0 <= w <= 1) →
  GenerateFullElection env previousEpoch prevVersion blockHeight wl = inr ed → ed_Type ed = "staked" →
  (∀ x, x ∈ ed_Weights ed → x = 1) ∧
  ((∀ m, m ∈ ed_Members ed → NormalizeAccount (em_Account m) ∈ seats) ∨
   Z.of_nat (length (ed_Members ed)) <= MinMembers (ee_params env)).
Proof.
  intros Hnd H9 Hread Hseats Hne Hmin Hprev (l & applied & gateSeats & est & s & d & Hg & Hp & Hd & ->)%generate_stages Ht.
  assert (Version0_7_0Active prevVersion = true) as H7 by (eapply meets_trans; [exact H9|done]).
  cbn [ed_Type assemble] in Ht. rewrite Ht in *. set (seatSet := (list_to_set seats : gset string)).
  assert (gateSeats = Some seatSet) as ->.
  { unfold seat_gate in Hg. rewrite Hread, Hseats in Hg. unfold PoaSeatGateActive in Hg. rewrite H7, H9 in Hg.
    destruct seats; [done|]. by simplify_eq. }
  set (d0 := first_draft _ _ _ _ _ _ _) in Hd. assert (draft_ok prevVersion wl d0) as H0 by by eapply first_draft_ok.
  assert (flat d0) as F0 by by apply first_draft_flat.
  set (d1 := floor_stage _ _ _ _ d0) in Hd. assert (shrinks d0 d1) as S1 by apply floor_stage_shrinks.
  set (d2 := survivors_stage _ _ _ _ _ d1) in Hd. assert (shrinks d1 d2) as S2 by apply survivors_stage_shrinks.
  set (d3 := churn_stage _ _ _ _ _ _ d2) in Hd. assert (shrinks d2 d3) as S3 by apply churn_stage_shrinks.
  pose proof (shrinks_ok _ _ _ _ H0 S1) as H1.
  assert (draft_ok prevVersion wl d3) as H3 by (eapply shrinks_ok; [by eapply shrinks_ok|done]).
  apply (guard_stage_idle _ _ _ wl) in Hd as ->; [|done..].
  assert (flat d3) as F3 by (eapply flat_shrinks; [eapply flat_shrinks; [by eapply flat_shrinks|done]|done]).
  clearbody d3. split.
  - intros x (m & -> & (w & Hw & Hm)%list_elem_of_omap)%list_elem_of_fmap. cbn.
    apply member_of_fields in Hm as [-> _]. by apply F3.
  - destruct (survivors_seated env blockHeight seatSet s d1 (proj2 (ok_ordered _ _ _ H1))) as [Hs|Hl]; [left|right].
    + intros m (w & Hw & Hm)%list_elem_of_omap. apply member_of_fields in Hm as [-> _].
      apply (elem_of_list_to_set (C := gset string)), Hs. by eapply sublist_subseteq; [apply S3|].
    + fold d2 in Hl. pose proof (sublist_length _ _ (shrinks_list _ _ S3)). cbn.
      pose proof (sublist_length _ _ (omap_member_sublist env (dr_list d3))) as Ho. rewrite !length_fmap in Ho. lia.
Qed.
