(* ===== verification/MockLedger.v ===== *)
(** The in-memory ledger store: [MockLedgerDb] of
    [lib/test_utils/mock_ledger.go], with its injected write faults.

    It is the implementation of the interface of [LedgerDb.v] the sources hold:
    the instances at the end show that it meets every law, so the theorems
    proved against the interface apply to it. *)
From S2P Require Import Prelude GoStrings LedgerDb.

(** [StoreErrs] holds one entry per record still to be written; [true] makes
    that write fail. *)
Record MockLedgerDb := mkMockLedgerDb {
  LedgerRecords : gmap string (list LedgerRecord);
  StoreErrs : list bool;
}.

(** The owner and position of the row with the given id. *)
Fixpoint find_row (id : string) (l : list (string * list LedgerRecord))
    : option (string * list LedgerRecord * nat) :=
  match l with
  | [] => None
  | (owner, existing) :: l =>
      match list_find (λ r, lr_Id r = id) existing with
      | Some (i, _) => Some (owner, existing, i)
      | None => find_row id l
      end
  end.

Definition append_row (r : LedgerRecord) (lr : gmap string (list LedgerRecord)) :=
  <[lr_Owner r := default [] (lr !! lr_Owner r) ++ [r]]> lr.

(** The body of the loop of [StoreLedger]: replace the row with the same id,
    moving it when the owner differs, or append. *)
Definition put_row (r : LedgerRecord) (lr : gmap string (list LedgerRecord))
    : gmap string (list LedgerRecord) :=
  if String.eqb (lr_Id r) "" then append_row r lr
  else match find_row (lr_Id r) (map_to_list lr) with
       | Some (owner, existing, i) =>
           if String.eqb owner (lr_Owner r) then <[owner := <[i := r]> existing]> lr
           else append_row r (<[owner := take i existing ++ drop (S i) existing]> lr)
       | None => append_row r lr
       end.

Fixpoint mock_StoreLedger (recs : list LedgerRecord) (m : MockLedgerDb) : MockLedgerDb * bool :=
  match recs with
  | [] => (m, true)
  | r :: recs =>
      match StoreErrs m with
      | true :: errs => (mkMockLedgerDb (LedgerRecords m) errs, false)
      | errs => mock_StoreLedger recs (mkMockLedgerDb (put_row r (LedgerRecords m)) (tail errs))
      end
  end.

Definition mock_GetLedgerRange (account : string) (start end_ : Z) (asset : string)
    (opTypes : list string) (m : MockLedgerDb) : list LedgerRecord :=
  filter (λ r,
    (String.eqb asset "" || String.eqb (lr_Asset r) asset)
    && (bool_decide (opTypes = []) || slices_Contains opTypes (lr_Type r))
    && (start <=? lr_BlockHeight r) && (lr_BlockHeight r <=? end_) = true)
  (default [] (LedgerRecords m !! account)).

Definition all_rows (lr : gmap string (list LedgerRecord)) : list LedgerRecord :=
  mjoin (map_to_list lr).*2.

#[export] Instance height_id_le_dec : RelDecision height_id_le.
Proof. unfold height_id_le. intros x y. apply _. Defined.

Definition mock_GetLedgerRecordsByType (types : list string) (toBlock : Z) (m : MockLedgerDb)
    : list LedgerRecord :=
  merge_sort height_id_le
    (filter (λ r, lr_Type r ∈ types ∧ lr_BlockHeight r <= toBlock) (all_rows (LedgerRecords m))).

Definition mock_DeleteLegacyInterestRecords (height : Z) (owners : list string) (m : MockLedgerDb)
    : MockLedgerDb :=
  if bool_decide (owners = []) then m
  else mkMockLedgerDb
         ((λ records, filter (λ r, legacy_interest height owners r = false) records)
            <$> LedgerRecords m) (StoreErrs m).

(** The abstraction to the interface. *)
Definition rowsOf (l : list LedgerRecord) : ledger :=
  list_to_map ((λ r, (lr_Id r, r)) <$> l).

Definition mock_wf (m : MockLedgerDb) : Prop :=
  NoDup (lr_Id <$> all_rows (LedgerRecords m)) ∧
  ∀ o l, LedgerRecords m !! o = Some l → Forall (λ r, lr_Owner r = o ∧ lr_Id r ≠ "") l.

#[export] Instance MockLedgerDb_LedgerDb : LedgerDb MockLedgerDb := {|
  rows m := rowsOf (all_rows (LedgerRecords m));
  faults m := length (filter (λ b, b = true) (StoreErrs m));
  db_wf := mock_wf;
  StoreLedger := mock_StoreLedger;
  GetLedgerRange := mock_GetLedgerRange;
  GetLedgerRecordsByType := mock_GetLedgerRecordsByType;
  DeleteLegacyInterestRecords := mock_DeleteLegacyInterestRecords;
|}.

(** ** Lemmas: the rows of a store *)

Lemma all_rows_insert o l lr : all_rows (<[o:=l]> lr) ≡ₚ l ++ all_rows (delete o lr).
Proof.
  unfold all_rows. rewrite <- insert_delete_eq.
  rewrite map_to_list_insert by apply lookup_delete_eq. done.
Qed.

Lemma all_rows_lookup o l lr : lr !! o = Some l → all_rows lr ≡ₚ l ++ all_rows (delete o lr).
Proof. intros Hl. rewrite <- (insert_id lr o l Hl) at 1. apply all_rows_insert. Qed.

Lemma all_rows_default o lr : all_rows lr ≡ₚ default [] (lr !! o) ++ all_rows (delete o lr).
Proof.
  destruct (lr !! o) as [l|] eqn:Hl; simpl; [by apply all_rows_lookup|].
  by rewrite delete_id.
Qed.

Lemma all_rows_append r lr : all_rows (append_row r lr) ≡ₚ r :: all_rows lr.
Proof.
  unfold append_row. rewrite all_rows_insert, <- app_assoc. simpl.
  rewrite <- Permutation_middle. by rewrite <- all_rows_default.
Qed.

Lemma elem_of_all_rows r lr : r ∈ all_rows lr ↔ ∃ o l, lr !! o = Some l ∧ r ∈ l.
Proof.
  unfold all_rows. rewrite list_elem_of_join. split.
  - intros (l & Hr & ([o l'] & -> & Hin)%list_elem_of_fmap). apply elem_of_map_to_list in Hin. eauto.
  - intros (o & l & Hl & Hr). exists l. split; [done|]. apply list_elem_of_fmap.
    exists (o, l). by rewrite elem_of_map_to_list.
Qed.

Lemma rowsOf_Permutation l k : NoDup (lr_Id <$> l) → l ≡ₚ k → rowsOf l = rowsOf k.
Proof.
  intros Hnd Hp. unfold rowsOf. apply list_to_map_proper; [|by rewrite Hp].
  by rewrite <- list_fmap_compose.
Qed.

Lemma lookup_rowsOf l r : NoDup (lr_Id <$> l) → r ∈ l → rowsOf l !! lr_Id r = Some r.
Proof.
  intros Hnd Hr. unfold rowsOf. apply elem_of_list_to_map.
  - by rewrite <- list_fmap_compose.
  - apply list_elem_of_fmap. eauto.
Qed.

Lemma rowsOf_Some l k r : rowsOf l !! k = Some r → lr_Id r = k ∧ r ∈ l.
Proof.
  unfold rowsOf. intros Hr. apply elem_of_list_to_map_2, list_elem_of_fmap in Hr.
  destruct Hr as (r' & ? & ?). by simplify_eq.
Qed.

Lemma row_list_rowsOf l : NoDup (lr_Id <$> l) → row_list (rowsOf l) ≡ₚ l.
Proof.
  intros Hnd. unfold row_list, rowsOf. rewrite map_to_list_to_map by by rewrite <- list_fmap_compose.
  rewrite <- list_fmap_compose. unfold compose; simpl. by rewrite list_fmap_id.
Qed.

(** ** Lemmas: writing one row *)

Lemma find_row_Some id l o existing i :
  find_row id l = Some (o, existing, i) →
  (o, existing) ∈ l ∧ ∃ x, existing !! i = Some x ∧ lr_Id x = id.
Proof.
  induction l as [|[o' e'] l IH]; simpl; [done|].
  destruct (list_find _ e') as [[j x]|] eqn:Hf.
  - intros; simplify_eq. apply list_find_Some in Hf as (? & ? & _). split; [apply elem_of_cons; by left|eauto].
  - intros [? ?]%IH. split; [apply elem_of_cons; by right|done].
Qed.

Lemma find_row_None id l :
  find_row id l = None → ∀ o e r, (o, e) ∈ l → r ∈ e → lr_Id r ≠ id.
Proof.
  induction l as [|[o' e'] l IH]; simpl; [set_solver|].
  destruct (list_find _ e') as [[j x]|] eqn:Hf; [done|].
  intros Hn o e r [?|?]%elem_of_cons Hr; [|by eapply IH]. simplify_eq.
  rewrite list_find_None, Forall_forall in Hf. by apply Hf.
Qed.

(** The rows after writing [r]: [r] and the old rows other than the one it
    replaces. *)
Lemma put_row_rows r lr :
  lr_Id r ≠ "" →
  ∃ old rest, all_rows lr ≡ₚ old ++ rest ∧ all_rows (put_row r lr) ≡ₚ r :: rest ∧
    ((∃ x, old = [x] ∧ lr_Id x = lr_Id r) ∨ (old = [] ∧ ∀ x, x ∈ rest → lr_Id x ≠ lr_Id r)).
Proof.
  intros Hid. unfold put_row. rewrite (proj2 (String.eqb_neq _ _) Hid).
  destruct (find_row _ _) as [[[o e] i]|] eqn:Hf.
  - apply find_row_Some in Hf as (Ho & x & Hx & Hxid). apply elem_of_map_to_list in Ho.
    exists [x], (take i e ++ drop (S i) e ++ all_rows (delete o lr)).
    assert (all_rows lr ≡ₚ x :: take i e ++ drop (S i) e ++ all_rows (delete o lr)) as Hall.
    { rewrite (all_rows_lookup o e) by done. rewrite <- (take_drop_middle e i x Hx) at 1.
      rewrite <- app_assoc. simpl. by rewrite <- Permutation_middle. }
    split_and!; [done| |left; eauto].
    destruct (String.eqb_spec o (lr_Owner r)) as [->|Hne].
    + rewrite all_rows_insert, insert_take_drop by by eapply lookup_lt_Some.
      rewrite <- app_assoc. simpl. by rewrite <- Permutation_middle.
    + by rewrite all_rows_append, all_rows_insert, <- app_assoc.
  - exists [], (all_rows lr). rewrite all_rows_append. split_and!; [done|done|]. right. split; [done|].
    intros x (o & l & Ho & Hx)%elem_of_all_rows. eapply find_row_None; [done| |done].
    by apply elem_of_map_to_list.
Qed.

Lemma put_row_spec r lr :
  NoDup (lr_Id <$> all_rows lr) → lr_Id r ≠ "" →
  NoDup (lr_Id <$> all_rows (put_row r lr)) ∧
  rowsOf (all_rows (put_row r lr)) = upsert r (rowsOf (all_rows lr)).
Proof.
  intros Hnd Hid. destruct (put_row_rows r lr Hid) as (old & rest & Hold & Hnew & Hcase).
  assert (NoDup (lr_Id <$> r :: rest) ∧
          rowsOf (r :: rest) = upsert r (rowsOf (old ++ rest))) as [Hnd' Heq].
  { rewrite Hold in Hnd. destruct Hcase as [(x & -> & Hx)|[-> Hrest]]; csimpl in *.
    - apply NoDup_cons in Hnd as [? ?]. split; [apply NoDup_cons; by rewrite <- Hx|].
      unfold rowsOf, upsert; csimpl. by rewrite Hx, insert_insert_eq.
    - split; [|done]. apply NoDup_cons. split; [|done].
      intros (x & Hx & Hin)%list_elem_of_fmap. by eapply Hrest. }
  split; [by rewrite Hnew|].
  rewrite <- (rowsOf_Permutation (r :: rest)) by done. rewrite Heq.
  unfold upsert. f_equal. symmetry. by apply rowsOf_Permutation.
Qed.

Lemma put_row_owner r lr o l :
  (∀ o l, lr !! o = Some l → Forall (λ r, lr_Owner r = o ∧ lr_Id r ≠ "") l) → lr_Id r ≠ "" →
  put_row r lr !! o = Some l → Forall (λ r, lr_Owner r = o ∧ lr_Id r ≠ "") l.
Proof.
  intros Hwf Hid.
  assert (∀ lr', (∀ o l, lr' !! o = Some l → Forall (λ r, lr_Owner r = o ∧ lr_Id r ≠ "") l) →
    ∀ o l, append_row r lr' !! o = Some l → Forall (λ r, lr_Owner r = o ∧ lr_Id r ≠ "") l) as Happ.
  { intros lr' Hwf' o' l'. unfold append_row. rewrite lookup_insert. case_decide; [|by apply Hwf'].
    intros; simplify_eq. apply Forall_app. split; [|by repeat constructor].
    destruct (lr' !! lr_Owner r) eqn:E; simpl; [by eapply Hwf'|constructor]. }
  unfold put_row. rewrite (proj2 (String.eqb_neq _ _) Hid).
  destruct (find_row _ _) as [[[o' e] i]|] eqn:Hf; [|by apply Happ].
  apply find_row_Some in Hf as (Ho & _). apply elem_of_map_to_list, Hwf in Ho.
  destruct (String.eqb_spec o' (lr_Owner r)) as [->|Hne].
  - rewrite lookup_insert. case_decide; [|by apply Hwf]. intros; simplify_eq.
    by apply Forall_insert.
  - apply Happ. intros o2 l2. rewrite lookup_insert. case_decide; [|by apply Hwf].
    intros; simplify_eq. apply Forall_app. split; [by apply Forall_take|by apply Forall_drop].
Qed.

Lemma mock_wf_put r lr errs errs' :
  lr_Id r ≠ "" → mock_wf (mkMockLedgerDb lr errs) → mock_wf (mkMockLedgerDb (put_row r lr) errs').
Proof.
  intros Hid [Hnd Hown]. split; [by apply put_row_spec|]. simpl in *. intros o l.
  by apply put_row_owner.
Qed.

(** A store call writes a prefix of its batch, all of it when it succeeds, and
    uses up a fault when it fails. *)
Lemma mock_store_spec recs m m' ok :
  mock_wf m → Forall (λ r, lr_Id r ≠ "") recs → mock_StoreLedger recs m = (m', ok) →
  ∃ k, mock_wf m' ∧ rows m' = upserts (take k recs) (rows m) ∧
       (if ok then k = length recs ∧ (faults m' <= faults m)%nat else (faults m' < faults m)%nat).
Proof.
  revert m. induction recs as [|r recs IH]; intros [lr errs] Hwf Hids Hst; simpl in Hst.
  { simplify_eq. by exists 0%nat. }
  apply Forall_cons in Hids as [Hr Hids].
  destruct errs as [|[] errs]; simpl in Hst.
  - edestruct IH as (k & Hw & Hrows & Hk); [|done|exact Hst|]; [by eapply mock_wf_put|].
    exists (S k). split; [done|]. cbn [take]. rewrite upserts_cons. simpl in *.
    rewrite Hrows, (proj2 (put_row_spec r lr (proj1 Hwf) Hr)). split; [done|].
    destruct ok; simpl in *; intuition lia.
  - simplify_eq. exists 0%nat. split; [by destruct Hwf|]. split; [done|]. simpl. lia.
  - edestruct IH as (k & Hw & Hrows & Hk); [|done|exact Hst|]; [by eapply mock_wf_put|].
    exists (S k). split; [done|]. cbn [take]. rewrite upserts_cons. simpl in *.
    rewrite Hrows, (proj2 (put_row_spec r lr (proj1 Hwf) Hr)). split; [done|].
    destruct ok; simpl in *; intuition lia.
Qed.

(** ** Lemmas: the reads and the delete *)

Lemma mock_range_spec account lo hi asset types m :
  mock_wf m →
  mock_GetLedgerRange account lo hi asset types m
  ≡ₚ filter (λ r, in_query account lo hi asset types r = true) (all_rows (LedgerRecords m)).
Proof.
  intros [Hnd Hown]. rewrite (all_rows_default account), filter_app.
  rewrite (filter_none _ (all_rows _)), app_nil_r.
  - unfold mock_GetLedgerRange. apply reflexive_eq, filter_ext_in. intros r Hr. destruct (LedgerRecords m !! account) as [l|] eqn:Hl; simpl in Hr; [|set_solver].
    apply Hown in Hl. rewrite Forall_forall in Hl. destruct (Hl r Hr) as [Ho _].
    unfold in_query. rewrite Ho, String.eqb_refl. simpl.
    rewrite !andb_true_iff. tauto.
  - intros r (o & l & Hl & Hr)%elem_of_all_rows Hq.
    apply lookup_delete_Some in Hl as [Hne Hl]. apply Hown in Hl.
    rewrite Forall_forall in Hl. destruct (Hl r Hr) as [Ho _].
    unfold in_query in Hq. z_of_bool. apply String.eqb_eq in H. congruence.
Qed.

Lemma all_rows_filter (P : LedgerRecord → Prop) `{!∀ r, Decision (P r)}
    (lr : gmap string (list LedgerRecord)) :
  all_rows (filter P <$> lr) = filter P (all_rows lr).
Proof.
  unfold all_rows. rewrite map_to_list_fmap. induction (map_to_list lr) as [|[o l] ls IH]; [done|].
  csimpl. rewrite filter_app. by rewrite <- IH.
Qed.

Lemma NoDup_fmap_filter {A B} (f : A → B) (P : A → Prop) `{!∀ x, Decision (P x)} (l : list A) :
  NoDup (f <$> l) → NoDup (f <$> filter P l).
Proof.
  induction l as [|x l IH]; csimpl; [done|]. rewrite NoDup_cons, filter_cons. intros [Hx Hl].
  case_decide; [|by apply IH]. csimpl. apply NoDup_cons. split; [|by apply IH].
  intros (y & Hy & Hin)%list_elem_of_fmap. apply Hx. apply list_elem_of_fmap. exists y.
  split; [done|]. by apply list_elem_of_filter in Hin as [_ ?].
Qed.

Lemma rowsOf_filter (P : LedgerRecord → Prop) `{!∀ r, Decision (P r)} (l : list LedgerRecord) :
  NoDup (lr_Id <$> l) → rowsOf (filter P l) = filter (λ ir, P ir.2) (rowsOf l).
Proof.
  intros Hnd. apply map_eq. intros k. apply option_eq. intros r.
  rewrite map_lookup_filter_Some. simpl. split.
  - intros Hr. apply rowsOf_Some in Hr as [<- Hin].
    apply list_elem_of_filter in Hin as [HP Hin]. split; [|done]. by apply lookup_rowsOf.
  - intros [Hr HP]. apply rowsOf_Some in Hr as [<- Hin].
    apply lookup_rowsOf; [by apply NoDup_fmap_filter|]. by apply list_elem_of_filter.
Qed.

Lemma mock_delete_spec height owners m :
  mock_wf m →
  mock_wf (mock_DeleteLegacyInterestRecords height owners m) ∧
  rows (mock_DeleteLegacyInterestRecords height owners m)
  = filter (λ ir, legacy_interest height owners ir.2 = false) (rows m).
Proof.
  intros [Hnd Hown]. unfold mock_DeleteLegacyInterestRecords. case_bool_decide as Hne; subst.
  - split; [done|]. symmetry. apply map_filter_id. intros k r _. unfold legacy_interest.
    by rewrite andb_false_r.
  - split.
    + split; simpl; [rewrite all_rows_filter; by apply NoDup_fmap_filter|].
      intros o l. rewrite lookup_fmap. destruct (LedgerRecords m !! o) as [l'|] eqn:Hl; [|done].
      intros; simplify_eq/=. apply Hown in Hl. rewrite Forall_forall in *.
      intros r [_ Hr]%list_elem_of_filter. by apply Hl.
    + simpl. rewrite all_rows_filter. by rewrite rowsOf_filter.
Qed.

#[export] Instance MockLedgerDb_laws : LedgerDbLaws MockLedgerDb.
Proof.
  split.
  - intros s k r _ Hr. by apply rowsOf_Some in Hr as [? _].
  - intros. by eapply mock_store_spec.
  - intros account lo hi asset types s Hwf. simpl. rewrite mock_range_spec by done.
    by rewrite row_list_rowsOf by apply Hwf.
  - intros types hi s Hwf. split; simpl.
    + unfold mock_GetLedgerRecordsByType. rewrite merge_sort_Permutation.
      by rewrite row_list_rowsOf by apply Hwf.
    + apply (Sorted_merge_sort _).
  - intros. by apply mock_delete_spec.
Qed.
