(* ===== verification/Examples.v ===== *)
(** Concrete runs: the main theorems applied to small ledgers held in the
    in-memory stores, with every hypothesis discharged by evaluation.

    The ledger used throughout has three accounts: [hive:alice] with 100 units of
    hive, [hive:bob] with a consensus bond of 50 and a pending slash against
    [hive:carol]. *)
From S2P Require Import Prelude GoStrings GoEncoding IntMath LedgerDb ActionsDb LedgerTypes.
From S2P Require Import Oplog LedgerState LedgerSession LedgerSystem Deposit AccountBook.
From S2P Require Import SafetySlash SlashFinalize Reserve Interest MockLedger.

(** Goals about closed terms, decided by evaluation alone. *)
Ltac eval_done := clear; vm_compute; done.

(** ** Stores *)

Definition empty_db : MockLedgerDb := mkMockLedgerDb ∅ [].

(** A store filled with rows; the first write of the batch fails once. *)
Definition db_of (recs : list LedgerRecord) : MockLedgerDb :=
  storeLedgerOrFail recs (mkMockLedgerDb ∅ [true]).

Definition no_snapshots : string → Z → option BalanceRecord := λ _ _, None.

Definition alice_hive : LedgerRecord := row "dep1" "dep1" 1 100 "hive" "hive:alice" "hive:alice" "deposit".
Definition bob_bond : LedgerRecord := row "bond1#out" "" 1 50 "hive_consensus" "hive:bob" "" "consensus_stake".

Definition two_accounts : MockLedgerDb := db_of [alice_hive; bob_bond].

Definition st0 : LedgerState MockLedgerDb := NewEmptyState two_accounts no_snapshots.

Definition transfer (id : string) (amount : Z) : ses_op :=
  OpTransfer (mkOpLogEvent "hive:bob" "hive:alice" amount "hive" "" "transfer" id 0 0 10 None) [].

(** ** Lemmas *)

Lemma db_of_ok recs :
  Forall (λ r, lr_Id r ≠ "") recs → db_wf (db_of recs) ∧ rows (db_of recs) = upserts recs ∅.
Proof.
  intros Hr. destruct (storeLedgerOrFail_spec recs (mkMockLedgerDb ∅ [true])) as [Hwf Hrows]; [|done|done].
  split; [by constructor|]. intros o l Ho. simpl in Ho. by rewrite lookup_empty in Ho.
Qed.

Lemma two_accounts_wf : db_wf two_accounts.
Proof. apply db_of_ok. by repeat constructor. Qed.

(** The rows of the store, as an explicit map. *)
Lemma two_accounts_rows k r : rows two_accounts !! k = Some r → r = alice_hive ∨ r = bob_bond.
Proof.
  rewrite (proj2 (db_of_ok [alice_hive; bob_bond] ltac:(by repeat constructor)) : rows two_accounts = _).
  intros [[Hin _]|[_ Hn]]%lookup_upserts_cases; [|by rewrite lookup_empty in Hn]. set_solver.
Qed.

Lemma no_snapshots_ok (s : MockLedgerDb) : snapshots_ok (NewEmptyState s no_snapshots).
Proof. by intros a h r Hr. Qed.

(** ** The ledger state *)

Lemma GetBalance_is_ledger_fold_witness :
  GetBalance st0 "hive:alice" 10 "hive" = 100 ∧
  wrap64 (ledger_balance (rows two_accounts) "hive:alice" "hive" 10) = 100.
Proof.
  assert (GetBalance st0 "hive:alice" 10 "hive" = 100) as Hb by eval_done.
  split; [done|]. rewrite <- Hb. symmetry.
  apply (GetBalance_is_ledger_fold st0 "hive:alice" 10 "hive");
    [apply two_accounts_wf|apply no_snapshots_ok|by left].
Defined.

Lemma GetConsensusBalanceAt_agrees_witness :
  GetConsensusBalanceAt false false st0 "hive:bob" 10 = Some (GetBalance st0 "hive:bob" 10 "hive_consensus") ∧
  GetConsensusBalanceAt true false st0 "hive:bob" 10 = None.
Proof.
  destruct (GetConsensusBalanceAt_agrees st0 "hive:bob" 10) as [Hok Herr].
  - apply two_accounts_wf.
  - apply no_snapshots_ok.
  - intros k r Hr Ha. apply two_accounts_rows in Hr as [->| ->]; done.
  - split; [done|]. by apply Herr.
Defined.

(** ** Sessions *)

Definition ops0 : list ses_op := [transfer "t" 30; transfer "t" 500; transfer "t" 20].

Definition run0 : list LedgerResult * ledgerSession :=
  default ([], NewEmptySession 0) (run_ops st0 ops0 (NewEmptySession 10)).

Lemma run0_ok : run_ops st0 ops0 (NewEmptySession 10) = Some (run0.1, run0.2).
Proof. by vm_compute. Qed.

(** The overdraft in the middle is refused; the ids of the others are numbered. *)
Lemma run0_results : Ok <$> run0.1 = [true; false; true] ∧ op_Id <$> oplog run0.2 = ["t"; "t:1"].
Proof. by vm_compute. Qed.

Lemma RestoreSavepoint_exact_witness :
  RestoreSavepoint (Savepoint (NewEmptySession 10)) run0.2 = NewEmptySession 10.
Proof. apply (RestoreSavepoint_exact st0 ops0 (NewEmptySession 10) run0.1 run0.2 run0_ok). Defined.

Lemma session_rows_are_ingested_witness :
  ledgerRecords (ExecuteOplog (oplog run0.2) 0 12) = at_height 12 <$> ledgerOps run0.2.
Proof. apply (session_rows_are_ingested st0 ops0 10 run0.1 run0.2 0 12 run0_ok). Defined.

Lemma session_ids_distinct_witness :
  NoDup (op_Id <$> oplog run0.2) ∧ NoDup (lu_Id <$> ledgerOps run0.2).
Proof.
  apply (session_ids_distinct st0 ops0 10 run0.1 run0.2); [by repeat constructor|apply run0_ok].
Defined.

Lemma session_refines_book_witness :
  ∃ rs ses' V', run_ops st0 ops0 (NewEmptySession 10) = Some (rs, ses') ∧
    book_ops ops0 (view st0 10 []) = Some (rs, V') ∧
    (∀ a x, view st0 10 (ledgerOps ses') a x = V' a x) ∧ coherent st0 10 ses'.
Proof.
  apply (session_refines_book st0 10 ops0 (NewEmptySession 10)); [apply coherent_empty|by repeat constructor].
Defined.

(** The balances of the example ledger. *)
Lemma st0_balances a x :
  SnapshotForAccount st0 a 10 x
  = if decide (a = "hive:alice" ∧ x = "hive") then 100
    else if decide (a = "hive:bob" ∧ x = "hive_consensus") then 50 else 0.
Proof.
  unfold SnapshotForAccount. change (VirtualLedger st0) with (∅ : gmap string (list LedgerUpdate)).
  rewrite lookup_empty. cbn [default from_option foldl]. unfold GetBalance.
  change (ls_GetBalanceRecord st0 a 10) with (@None BalanceRecord). cbv zeta.
  unfold ledgerRangeOrBlock. change (ls_LedgerDb st0) with two_accounts.
  cbn [GetLedgerRange MockLedgerDb_LedgerDb]. unfold mock_GetLedgerRange.
  destruct (decide (x ∈ assetTypes)) as [Hx|Hx].
  2:{ destruct (slices_Contains assetTypes x) eqn:E; [by apply slices_Contains_spec in E|]. cbn [negb].
      rewrite !decide_False; [done| |]; intros [_ ->]; apply Hx; set_solver. }
  destruct (decide (a = "hive:alice")) as [->|Ha]; [|destruct (decide (a = "hive:bob")) as [->|Hb]].
  - unfold assetTypes, transferableAssetTypes in Hx. cbn [app] in Hx. 
    rewrite !elem_of_cons, elem_of_nil in Hx. by destruct_or! Hx; subst.
  - unfold assetTypes, transferableAssetTypes in Hx. cbn [app] in Hx.
    rewrite !elem_of_cons, elem_of_nil in Hx. by destruct_or! Hx; subst.
  - assert (LedgerRecords two_accounts !! a = None) as ->.
    { assert (LedgerRecords two_accounts = {["hive:alice" := [alice_hive]; "hive:bob" := [bob_bond]]}) as -> by eval_done.
      by rewrite lookup_insert_ne, lookup_singleton_ne by done. }
    cbn [default from_option]. rewrite !filter_nil. cbn [foldl].
    rewrite !decide_False by tauto. 
    unfold assetTypes, transferableAssetTypes in Hx. cbn [app] in Hx.
    rewrite !elem_of_cons, elem_of_nil in Hx. by destruct_or! Hx; subst.
Qed.

(** At most 100 units of hive, and 150 of hive and bonded hive. *)
Lemma st0_sum (l : list (string * string)) :
  NoDup l → zsum ((λ p, SnapshotForAccount st0 p.1 10 p.2) <$> l) <= 150.
Proof.
  intros Hnd.
  assert (zsum ((λ p, SnapshotForAccount st0 p.1 10 p.2) <$> l)
          <= (if decide (("hive:alice", "hive") ∈ l) then 100 else 0)
             + (if decide (("hive:bob", "hive_consensus") ∈ l) then 50 else 0)) as Hle.
  { induction l as [|[a x] l IH]; [done|]. csimpl. apply NoDup_cons in Hnd as [Hnin Hnd]. specialize (IH Hnd).
    rewrite st0_balances.
    destruct (decide (a = "hive:alice" ∧ x = "hive")) as [[-> ->]|Hn1];
      [|destruct (decide (a = "hive:bob" ∧ x = "hive_consensus")) as [[-> ->]|Hn2]];
      repeat destruct (decide _) in *; try lia; set_solver. }
  repeat destruct (decide _) in Hle; lia.
Qed.

Lemma st0_solvent : solvent (λ a x, SnapshotForAccount st0 a 10 x).
Proof.
  split.
  - intros a x. rewrite st0_balances. by repeat destruct (decide _).
  - intros A _ l Hnd _. pose proof (st0_sum l Hnd). unfold MaxInt64. lia.
  - intros to l _ _.
    assert (∀ a x, x = AssetDelegation ∨ x = AssetDelegationTotal → SnapshotForAccount st0 a 10 x = 0) as Hz.
    { intros a x Hx. rewrite st0_balances, !decide_False; [done| |]; intros [_ ->]; by destruct Hx. }
    rewrite Hz by by right. clear -Hz.
    induction l as [|f l IH]; csimpl; [done|]. rewrite Hz by by left. lia.
Qed.

Lemma session_commit_solvent_witness :
  let '(_, st', _) := Done st0 run0.2 in solvent (λ a x, SnapshotForAccount st' a 10 x).
Proof.
  apply (session_commit_solvent st0 10 10 ops0 run0.1 run0.2);
    [apply st0_solvent|by repeat constructor|apply run0_ok].
Defined.

(** ** Ingesting and settling *)

Definition no_actions : MockActionsDb := mkMockActionsDb ∅ [].

Lemma no_actions_wf : act_wf no_actions.
Proof. intros k r Hk. change (Actions no_actions) with (∅ : gmap string ActionRecord) in Hk. by rewrite lookup_empty in Hk. Qed.

Definition block0 : list (list ses_op) := [[transfer "t1" 30]; [transfer "t2" 500]; [transfer "t3" 20]].

Definition after_block0 : LedgerState MockLedgerDb := default st0 (run_block 10 block0 st0).

Definition opts0 : OplogInjestOptions := mkOplogInjestOptions 9 10.

Lemma ingest_realises_block_witness :
  sys_GetBalance no_snapshots (IngestOplog (Export after_block0) opts0 (two_accounts, no_actions)).1
    "hive:bob" 10 "hive"
  = SnapshotForAccount after_block0 "hive:bob" 10 "hive".
Proof.
  apply (ingest_realises_block two_accounts no_actions no_snapshots 10 block0 after_block0 opts0 "hive:bob" "hive" 10).
  - apply two_accounts_wf.
  - apply no_snapshots_ok.
  - by intros acc h r Hr.
  - by vm_compute.
  - by apply (bool_decide_unpack _); vm_compute.
  - apply Forall_forall. apply (bool_decide_unpack _). by vm_compute.
  - by vm_compute.
  - by left.
Defined.

(** A withdrawal of 40 units interrupted after its debit, and before. *)
Definition withdrawal : OpLogEvent :=
  mkOpLogEvent "hive:alice" "hive:alice" 40 "hive" "" "withdraw" "w1" 0 0 10 None.

Lemma ingest_crash_safe_witness :
  let '(s1, a1) := IngestOplog_crash 1 [withdrawal] opts0 (two_accounts, no_actions) in
  actions a1 = ∅ ∧ rows (IngestOplog [withdrawal] opts0 (s1, a1)).1
  = upserts (ingest_row 10 <$> ledgerRecords (ExecuteOplog [withdrawal] 9 10)) (rows two_accounts).
Proof.
  split; [by vm_compute|].
  exact (proj1 (proj2 (ingest_crash_safe 1 [withdrawal] opts0 two_accounts no_actions two_accounts_wf no_actions_wf))).
Defined.

(** An unstake action and a stake action; the action store fails once. *)
Definition unstake1 : ActionRecord :=
  mkActionRecord "u1" "pending" 30 "hbd" "hive:alice" "" "u1" "unstake" None 5.
Definition stake1 : ActionRecord :=
  mkActionRecord "s1" "pending" 20 "hbd" "hive:bob" "" "s1" "stake" None 5.

Definition two_actions : MockActionsDb :=
  mkMockActionsDb {["u1" := unstake1; "s1" := stake1]} [true; true].

Lemma two_actions_wf : act_wf two_actions.
Proof.
  intros k r Hk. change (Actions two_actions) with ({["u1" := unstake1; "s1" := stake1]} : gmap string _) in Hk.
  apply lookup_insert_Some in Hk as [[<- <-]|[_ [<- <-]%lookup_singleton_Some]]; done.
Qed.

(** The bit of the first action is set ("AQ" is the byte 1). *)
Definition settle0 : ActionUpdate := mkActionUpdate ["u1"; "nope"; "s1"] "AQ".
Definition extra0 : ExtraInfo := mkExtraInfo 100 "hivetx".

Lemma IndexActions_settles_witness :
  let '(s', a') := IndexActions settle0 extra0 (two_accounts, two_actions) in
  rows s' = upserts [unstake_credit 100 1 unstake1; stake_credit 100 stake1] (rows two_accounts) ∧
  actions a' = complete_all (Some "hivetx") ["u1"; "nope"; "s1"] (actions two_actions).
Proof.
  destruct (IndexActions_settles settle0 extra0 two_accounts two_actions two_accounts_wf two_actions_wf)
    as [Hrows Hdone]. split; [exact Hrows|by apply Hdone].
Defined.

(** A crash between the credit of the unstake and its completion. *)
Lemma IndexActions_crash_safe_witness :
  let '(s1, a1) := IndexActions_crash 0 true settle0 extra0 (two_accounts, two_actions) in
  rows (IndexActions settle0 extra0 (s1, a1)).1
  = rows (IndexActions settle0 extra0 (two_accounts, two_actions)).1.
Proof.
  exact (proj2 (IndexActions_crash_safe 0 true settle0 extra0 two_accounts two_actions two_accounts_wf two_actions_wf)).
Defined.

(** ** Deposits *)

(** A checksum function that meets the documented contract. *)
Definition lower_hex (a : string) : string := ToLower a.

Definition deposit_to (memo : string) : Deposit_t :=
  mkDeposit "d1" 0 0 50 "hive:vsc.gateway" 7 "hive" memo "hive:alice" true.

Lemma deposit_honours_recipient_witness :
  deposit_owner (λ _, None) lower_hex None (deposit_to "to=hive:averylongname16") = "hive:averylongname16".
Proof.
  apply (proj1 (deposit_honours_recipient (λ _, None) lower_hex None (deposit_to "to=hive:averylongname16")
    "averylongname16" eq_refl)); [by vm_compute|by right].
Defined.

Lemma deposit_owner_safe_witness :
  let owner := deposit_owner (λ _, None) lower_hex None (deposit_to "to=%zz") in
  owner = "hive:alice" ∨ (∃ name, hive_name_ok name = true ∧ owner = "hive:" +:+ name) ∨
  HasPrefix owner "did:" = true.
Proof.
  destruct (deposit_owner_safe (λ _, None) lower_hex None (deposit_to "to=%zz") ltac:(by vm_compute)) as [H|[(name & Hn & H)|H]];
    [left; exact H|right; left; exists name; exact (conj (Hn eq_refl) H)|right; right; exact H].
Defined.

(** Without the rule of 0.12.0 a long name doubles the prefix: nobody has the account. *)
Example unchecked_recipient :
  deposit_owner (λ _, None) lower_hex None (mkDeposit "d1" 0 0 50 "hive:vsc.gateway" 7 "hive" "to=hive:averylongname16" "hive:alice" false) = "hive:hive:alice".
Proof. by vm_compute. Qed.

Lemma ToLower_app a b : ToLower (a +:+ b) = ToLower a +:+ ToLower b.
Proof. induction a as [|c a IH]; [done|]. rewrite sapp_cons. cbn [ToLower]. by rewrite IH. Qed.

Lemma ToLower_idem a : ToLower (ToLower a) = ToLower a.
Proof.
  induction a as [|c a IH]; [done|]. cbn [ToLower]. rewrite IH. f_equal.
  by destruct c as [[] [] [] [] [] [] [] []].
Qed.

Lemma rep_lower n s : re_match (rep n (Cls is_hex)) s → re_match (rep n (Cls is_hex)) (ToLower s).
Proof.
  revert s. induction n as [|n IH]; intros s Hm; [inversion Hm; constructor|].
  apply re_match_seq_inv in Hm as (x & y & -> & (d & -> & Hd)%re_match_cls_inv & Hy%IH).
  rewrite ToLower_app. constructor; [|done]. constructor. revert Hd. by destruct d as [[] [] [] [] [] [] [] []].
Qed.

Lemma lower_hex_ok : checksum_ok lower_hex.
Proof.
  split; [|done]. intros a (x & y & -> & Hx%lits_match & Hy%rep_lower)%MatchString_spec%re_match_seq_inv. subst x.
  apply MatchString_spec. unfold lower_hex. rewrite ToLower_app. constructor; [|done].
  apply MatchString_spec. by vm_compute.
Qed.

Definition eth1 : string := "0xd8dA6BF26964aF9D7eEd9e03E53415D37aA96045".
Definition eth2 : string := "0xd8da6bf26964af9d7eed9e03e53415d37aa96045".

Lemma deposit_address_case_witness :
  deposit_owner (λ _, None) lower_hex (Some 40) (deposit_to ("to=" +:+ eth1))
  = deposit_owner (λ _, None) lower_hex (Some 40) (deposit_to ("to=" +:+ eth2)).
Proof.
  apply (deposit_address_case (λ _, None) lower_hex (Some 40) _ _ eth1 eth2 lower_hex_ok); by vm_compute.
Defined.

(** A deposit is attempted once: when the write fails, the owner is returned all
    the same and the ledger does not have the row. *)
Lemma deposit_can_be_lost :
  let '(s', owner) := Deposit (λ _, None) lower_hex None (deposit_to "to=bob") (mkMockLedgerDb ∅ [true]) in
  owner = "hive:bob" ∧ rows s' = ∅.
Proof. by vm_compute. Qed.

(** A memo in JSON is a query string without a [to] key, so it is never decoded
    as JSON and the deposit goes back to the sender. *)
Definition json_memo : string :=
  let q := bytes [34%N] in "{" +:+ q +:+ "to" +:+ q +:+ ":" +:+ q +:+ "hive:bob" +:+ q +:+ "}".

Lemma json_memo_ignored :
  deposit_owner (λ _, Some "hive:bob") lower_hex None (deposit_to json_memo) = "hive:alice".
Proof. by vm_compute. Qed.

(** ** Slashing *)

Definition carol_bond : string → Z → option BalanceRecord :=
  λ a h, if String.eqb a "hive:carol" then Some (mkBalanceRecord a 5 0 101 0 0 0 0 0) else None.

Definition slash0 (delay : Z) : SafetySlashConsensusParams :=
  mkSafetySlashConsensusParams "carol" 5000 "ev1" 20 "double_sign" delay.

Lemma slash0_ok delay : 0 <= delay → slash_params_ok (slash0 delay).
Proof. intros Hd. unfold slash_params_ok. split_and!; try done; by vm_compute. Qed.

Lemma slash_takes_exact_share_witness :
  ∃ s', SafetySlashConsensusBond carol_bond (slash0 0) two_accounts = Some (success, s') ∧
    ledger_balance (rows s') "hive:carol" "hive_consensus" 20 = -50 ∧
    held ProtocolSlashReserveAccount (rows s') = 50.
Proof.
  destruct (slash_takes_exact_share carol_bond (slash0 0) two_accounts 101 (slash0_ok 0 ltac:(done)) two_accounts_wf)
    as (s' & Hs & _ & _ & Hbal & Hheld); [vm_compute; done..|].
  exists s'. split; [done|]. split.
  - rewrite Hbal by done. by vm_compute.
  - change ProtocolSlashReserveAccount with (companion_owner (slash0 0)). rewrite Hheld by done. by vm_compute.
Defined.

Definition slash_rows (delay : Z) : list LedgerRecord := default [] (slash_records (slash0 delay) "hive:carol" 50).

(** The debit landed and the node died before the pending row. *)
Lemma slash_crash_safe_witness :
  ∃ r s', SafetySlashConsensusBond carol_bond (slash0 6) (db_of (take 1 (slash_rows 6))) = Some (r, s') ∧
    Ok r = true ∧ db_wf s' ∧ rows s' = upserts (slash_rows 6) ∅.
Proof.
  assert (slash_records (slash0 6) "hive:carol" 50 = Some (slash_rows 6)) as Hrec by eval_done.
  assert (0 < 50 <= MaxInt64) as Hamt by eval_done.
  destruct (db_of_ok (take 1 (slash_rows 6))) as [Hwf Hrows]; [by repeat constructor|].
  exact (slash_crash_safe carol_bond (slash0 6) (db_of (take 1 (slash_rows 6))) ∅ 50 (slash_rows 6) 1
    (slash0_ok 6 ltac:(done)) Hwf Hamt Hrec (lookup_empty _) (le_n 1) Hrows).
Defined.

(** A ledger with one pending slash of 50 that matures at height 26. *)
Definition pending_db : MockLedgerDb := db_of (slash_rows 6).

Lemma pending_db_ok : db_wf pending_db ∧ rows pending_db = upserts (slash_rows 6) ∅.
Proof. apply db_of_ok. by repeat constructor. Qed.

Lemma pending_cases k r :
  rows pending_db !! k = Some r → pending_row r →
  k = companion_id (slash0 6) "hive:carol" ∧ lr_BlockHeight r = 20.
Proof.
  rewrite (proj2 pending_db_ok). intros [[Hin Hk]|[_ Hn]]%lookup_upserts_cases; [|by rewrite lookup_empty in Hn].
  assert (slash_rows 6 = [nth 0 (slash_rows 6) alice_hive; nth 1 (slash_rows 6) alice_hive]) as Hs by eval_done.
  rewrite Hs in Hin. intros (_ & _ & Hty). subst k. rewrite !elem_of_cons, elem_of_nil in Hin.
  destruct Hin as [->|[->|[]]]; [by vm_compute in Hty|by vm_compute].
Qed.

Lemma pending_db_inv : slash_inv 20 (rows pending_db).
Proof.
  split.
  - intros id r Hr Hp. destruct (pending_cases id r Hr Hp) as [_ ->]. eval_done.
  - intros id r Hr Hp. destruct (pending_cases id r Hr Hp) as [-> _]. clear. split_and!; [done|done|].
    apply Forall_forall. apply (bool_decide_unpack _). by vm_compute.
  - intros id r Hr (_ & _ & Hty & _). exfalso. revert Hr. rewrite (proj2 pending_db_ok).
    intros [[Hin _]|[_ Hn]]%lookup_upserts_cases; [|by rewrite lookup_empty in Hn].
    revert r Hin Hty. clear. change (∀ r, r ∈ slash_rows 6 → lr_Type r ≠ LedgerTypeSafetySlashBurnFinalizeCursor).
    apply Forall_forall. apply (bool_decide_unpack _). by vm_compute.
  - intros id r k Hr Hp Hk. exfalso. destruct (pending_cases id r Hr Hp) as [-> _].
    assert (rows pending_db !! marker_id (companion_id (slash0 6) "hive:carol") = None) as Hn
      by (eval_done).
    rewrite Hn in Hk. discriminate Hk.
  - intros id r (Hr & Hp & _). destruct (pending_cases id r Hr Hp) as [_ ->]. eval_done.
Qed.

Lemma finalize_promotes_due_witness :
  let s' := FinalizeMaturedSafetySlashBurns false 30 pending_db in
  db_wf s' ∧ slash_inv 30 (rows s') ∧
  rows s' !! (companion_id (slash0 6) "hive:carol" +:+ "#promoted_to_reserve") ≠ None.
Proof.
  assert (0 < 30 <= MaxInt64) as Hbh by eval_done. assert (20 <= 30) as Hnow by eval_done.
  destruct (finalize_promotes_due false 20 30 pending_db (proj1 pending_db_ok) pending_db_inv Hbh Hnow)
    as (Hwf & Hinv & _). split; [exact Hwf|]. split; [exact Hinv|]. eval_done.
Defined.

Definition cancel0 : CancelPendingSafetySlashBurnParams :=
  mkCancelPendingSafetySlashBurnParams "ev1" "double_sign" "carol" 22 "appeal".

Lemma cancel_settles_pending_witness :
  let s' := (CancelPendingSafetySlashBurn cancel0 pending_db).2 in
  CancelPendingSafetySlashBurn cancel0 s' = (mkLedgerResult true "already cancelled", s').
Proof.
  assert (CancelPendingSafetySlashBurn cancel0 pending_db
          = (mkLedgerResult true "cancelled", (CancelPendingSafetySlashBurn cancel0 pending_db).2)) as Hc
    by eval_done.
  assert (20 <= cancel_BlockHeight cancel0) as H1 by eval_done.
  assert (0 <= cancel_BlockHeight cancel0 <= MaxInt64) as H2 by eval_done.
  destruct (cancel_settles_pending 20 cancel0 pending_db _ (proj1 pending_db_ok) pending_db_inv H1 H2 Hc)
    as (r & _ & _ & _ & _ & _ & _ & _ & Hdone). exact Hdone.
Defined.

Lemma empty_inv : slash_inv 0 ∅.
Proof. split; intros *; rewrite ?lookup_empty; try done. by intros (Hr & _). Qed.

Lemma slash_enters_scan_witness :
  slash_inv 0 (upserts (slash_rows 6) ∅) ∧
  ∃ r, live (upserts (slash_rows 6) ∅) (companion_id (slash0 6) "hive:carol") r ∧ lr_Amount r = 50 ∧
    maturity r = Some 26.
Proof.
  apply (slash_enters_scan 0 ∅ (slash0 6) "hive:carol" 50 (slash_rows 6) empty_inv (slash0_ok 6 ltac:(done)));
    by vm_compute.
Defined.

(** ** The reserve and the reward bucket *)

Definition reserve_db : MockLedgerDb :=
  db_of [row "r1" "" 3 70 "hive" ProtocolSlashReserveAccount "" LedgerTypeSafetySlashReserve;
         row "b1" "" 3 40 "hbd" PendulumNodesHBDBucket "" "pendulum_accrue"].

Lemma reserve_db_wf : db_wf reserve_db.
Proof. apply db_of_ok. by repeat constructor. Qed.

Definition payout0 : ReservePayoutParams := mkReservePayoutParams "prop1" "dave" 25 30 "restitution".

Lemma payout_never_overdraws_witness :
  reserve_total (rows (ReservePayout payout0 reserve_db).2) = 45.
Proof.
  assert (pay_Amount payout0 <= MaxInt64) as H1 by eval_done.
  assert (0 <= pay_BlockHeight payout0 <= maxReserveScanHeight) as H2 by eval_done.
  assert (i64 (reserve_without "prop1#reserve_payout#debit" (rows reserve_db))) as H3 by eval_done.
  assert (∀ x, rows reserve_db !! "prop1#reserve_payout#credit#hive:dave" = Some x → reserve_query x = false) as H4.
  { assert (rows reserve_db !! "prop1#reserve_payout#credit#hive:dave" = None) as -> by eval_done. by intros x. }
  destruct (payout_never_overdraws payout0 reserve_db (mkLedgerResult true "reserve payout recorded")
    (ReservePayout payout0 reserve_db).2 reserve_db_wf H1 H2 H3 H4) as (_ & _ & Ht & _).
  - eval_done.
  - rewrite Ht. eval_done.
Defined.

Lemma distribute_conserves_witness :
  bucket_total 30 (rows (PendulumDistribute false "hive:bob" 15 "ep1" 30 reserve_db).2) = 25.
Proof.
  assert (15 <= MaxInt64) as H1 by eval_done. assert (0 <= 30) as H2 by eval_done.
  assert (i64 (bucket_total 30 (rows reserve_db))) as H3 by eval_done.
  assert ("hive:bob" ≠ PendulumNodesHBDBucket) as H4 by eval_done.
  assert (∀ x, x ∈ distribute_rows "hive:bob" "ep1" 15 30 → rows reserve_db !! lr_Id x = None) as H5.
  { apply Forall_forall. apply (bool_decide_unpack _). by vm_compute. }
  destruct (distribute_conserves "hive:bob" 15 "ep1" 30 reserve_db
    (PendulumDistribute false "hive:bob" 15 "ep1" 30 reserve_db).1
    (PendulumDistribute false "hive:bob" 15 "ep1" 30 reserve_db).2 reserve_db_wf H1 H2 H3 H4 H5) as [Hok _].
  - apply surjective_pairing.
  - destruct Hok as (_ & -> & _); eval_done.
Defined.

(** ** Interest *)

(** Three savers; the claim happens at height 100 over a legacy row of bob's. *)
Definition saver (a : string) (savings : Z) : BalanceRecord := mkBalanceRecord a 50 0 0 0 savings 0 0 0.
Definition savers : list BalanceRecord := [saver "hive:alice" 300; saver "hive:bob" 200; saver "system:fr_balance" 100].

Definition interest_db : MockLedgerDb :=
  db_of [row "hbd_interest_100_0" "" 101 9 "hbd_savings" "hive:bob" "" "interest"].

Lemma interest_db_wf : db_wf interest_db.
Proof. apply db_of_ok. by repeat constructor. Qed.

Lemma interest_never_overpays_witness :
  let cs := credits 100 (processed 100 savers) in
  ic_amount <$> cs = [50; 33; 16] ∧ zsum (ic_amount <$> cs) <= 100.
Proof.
  split; [eval_done|]. assert (i64 100) as Ha by eval_done.
  destruct (ClaimHBDInterest (λ _, savers) 0 100 100 "1" (interest_db, [])) as [s' cl] eqn:E.
  pose proof (interest_never_overpays (λ _, savers) 0 100 100 "1" interest_db [] interest_db_wf Ha) as Hi.
  cbv zeta in Hi. rewrite E in Hi. exact (proj1 (proj2 (proj2 Hi))).
Defined.

Lemma interest_order_independent_witness :
  let '(s1, _) := ClaimHBDInterest (λ _, savers) 0 100 100 "1" (interest_db, []) in
  let '(s2, _) := ClaimHBDInterest (λ _, reverse savers) 0 100 100 "1" (interest_db, []) in
  rows s1 = rows s2.
Proof.
  assert (NoDup (br_Account <$> savers)) as Hnd by by apply (bool_decide_unpack _).
  pose proof (interest_order_independent (λ _, savers) (λ _, reverse savers) 0 100 100 "1" interest_db []
    interest_db_wf (symmetry (reverse_Permutation savers)) Hnd) as Hi.
  destruct (ClaimHBDInterest (λ _, savers) _ _ _ _ _) as [s1 c1].
  destruct (ClaimHBDInterest (λ _, reverse savers) _ _ _ _ _) as [s2 c2]. exact (proj1 Hi).
Defined.

Lemma interest_reprocess_idempotent_witness :
  let '(s1, cl) := ClaimHBDInterest (λ _, savers) 0 100 100 "1" (interest_db, []) in
  rows (ClaimHBDInterest (λ _, savers) 0 100 100 "1" (s1, cl)).1 = rows s1.
Proof.
  pose proof (interest_reprocess_idempotent (λ _, savers) 0 100 100 "1" interest_db [] interest_db_wf) as Hi.
  destruct (ClaimHBDInterest (λ _, savers) 0 100 100 "1" (interest_db, [])) as [s1 c1].
  destruct (ClaimHBDInterest (λ _, savers) 0 100 100 "1" (s1, c1)) as [s2 c2]. exact Hi.
Defined.
