(* ===== verification/GatewayExamples.v ===== *)
(** Concrete runs of the gateway: a wallet with eight signers, batches of a few
    actions, and the headers that do not survive the trip through Hive. *)
From S2P Require Import Prelude GoStrings GoEncoding Assets LedgerDb ActionsDb LedgerTypes LedgerSystem.
From S2P Require Import Quorum Gateway.

(** ** A wallet *)

Definition names : list string := ["a"; "b"; "c"; "d"; "e"; "f"; "g"; "h"].

(** Stakes 10, 20, ..., 80. *)
Definition members8 : list (string * Z) := imap (λ i a, (a, 10 * Z.of_nat (S i))) names.

Definition key_of (a : string) : string := "STM000000000000000000000000000000000" +:+ a.

(** A toy signature scheme: the text of a signature is the account that signs; its
    bytes are the index of the account, zeros, and a final one. *)
Definition toy_hex (sig : string) : option (list Z) :=
  '(i, _) ← list_find (λ a, a = sig) names; Some (Z.of_nat i :: replicate 63 0 ++ [1]).

Definition toy_recover (b : list Z) : option string :=
  i ← head b; key_of <$> names !! Z.to_nat i.

Definition signers8 : list gwMember := default [] (select_signers (λ a, Some (key_of a)) (λ _, true) members8).

Definition auths8 : Auths * Auths * Auths :=
  default (mkAuths 0 [] [], mkAuths 0 [] [], mkAuths 0 [] [])
    (rotation_auths (λ a, Some (key_of a)) (λ _, true) members8 false true).

(** The five largest signers and one that signs twice. *)
Definition inbox : list (option string) := Some <$> ["h"; "g"; "h"; "f"; "nobody"; "e"; "d"].

Lemma weights_fair_witness :
  let W := quantizeStakeWeights [10; 20; 40] ["a"; "b"; "c"] 100 in
  W = [14; 29; 57] ∧ 100 <= zsum W <= 103.
Proof.
  split; [by vm_compute|].
  apply (weights_fair [10; 20; 40] ["a"; "b"; "c"] 100); [done|by repeat constructor|done|done].
Defined.

Lemma rotation_deterministic_witness :
  rotation_auths (λ a, Some (key_of a)) (λ _, true) members8 true true
  = rotation_auths (λ a, Some (key_of a)) (λ _, true) (reverse members8) true true.
Proof.
  apply (rotation_deterministic (λ a, Some (key_of a)) (λ _, true) members8 (reverse members8) true true).
  - symmetry. apply reverse_Permutation.
  - apply (bool_decide_unpack _). by vm_compute.
Defined.

Lemma wallet_needs_supermajority_witness :
  ∃ signers, sublist signers signers8 ∧ 240 <= zsum (gw_stake <$> signers) + 9.
Proof.
  destruct (wallet_needs_supermajority 5 toy_recover toy_hex (λ a, Some (key_of a)) (λ _, true) members8 true
    signers8 auths8.1.1 auths8.1.2 auths8.2 inbox ["h"; "g"; "f"; "e"] 7222) as (signers & H1 & _ & _ & H4).
  - by repeat constructor.
  - by vm_compute.
  - by vm_compute.
  - by vm_compute.
  - by vm_compute.
  - by vm_compute.
  - exists signers. split; [done|]. assert (length signers <= 8)%nat as Hl by apply (sublist_length _ _ H1).
    assert (zsum (gw_stake <$> signers8) = 360) as Ht by by vm_compute. rewrite Ht in H4.
    unfold GATEWAY_WEIGHT_SCALE in H4. lia.
Defined.

Lemma quorums_intersect_witness : ∃ k, k ∈ ["a"; "b"; "c"] ∧ k ∈ ["b"; "c"; "d"].
Proof.
  apply (quorums_intersect ["a"; "b"; "c"; "d"] [1; 1; 1; 1] ["a"; "b"; "c"] ["b"; "c"; "d"]);
    try (by apply (bool_decide_unpack _); vm_compute); done.
Defined.

Lemma high_s_twin_rejected_witness :
  let hex sig := Some (0 :: replicate 63 0 ++ [if String.eqb sig "low" then 3 else 8]) in
  RecoverPublicKey 5 toy_recover hex "low" = Some (key_of "a") ∧
  (RecoverPublicKey 5 toy_recover hex "low" = None ∨ RecoverPublicKey 5 toy_recover hex "high" = None).
Proof.
  intros hex. split; [by vm_compute|].
  apply (high_s_twin_rejected 5 toy_recover hex "low" "high" (0 :: replicate 63 0 ++ [3]) (0 :: replicate 63 0 ++ [8]));
    by vm_compute.
Defined.

(** ** Batches *)

Definition act (id type to asset : string) (amount : Z) : ActionRecord :=
  mkActionRecord id "pending" amount asset to "" "" type None 5.

Definition small_batch : list ActionRecord :=
  [act "w1" "withdraw" "hive:alice" "hive" 1500; act "u1" "unstake" "hive:bob" "hbd" 700;
   act "s1" "stake" "hive:bob" "hbd" 2000; act "w2" "withdraw" "hive:alice" "hive" 5].

Lemma batch_balances_witness :
  ∃ header rest, executeActions "vsc.gateway" false 40 small_batch
                   = Some (inr (CustomActions "vsc.gateway" header :: rest)) ∧
    zsum (op_saved <$> rest) = 1300 ∧ zsum (op_paid false "alice" "hive" <$> rest) = 1505.
Proof.
  destruct (batch_balances "vsc.gateway" false 40 small_batch) as (h & rest & E & _ & Hs & Hp);
    [done|done|by vm_compute; lia|by vm_compute|by vm_compute|by vm_compute|].
  exists h, rest. split_and!; [exact E|by rewrite Hs|]. rewrite (Hp "alice" "hive" eq_refl). by vm_compute.
Defined.

Lemma header_marks_read_back_witness :
  ∃ header rest, executeActions "vsc.gateway" false 40 small_batch
                   = Some (inr (CustomActions "vsc.gateway" header :: rest)) ∧
    (allc shared_char (ClearedOps header) = true → unstake_delay (cleared_bits (ClearedOps header)) 1 = 1).
Proof.
  destruct (header_marks_read_back "vsc.gateway" false 40 small_batch) as (h & rest & E & Hm);
    [done|done|by vm_compute; lia|by vm_compute|by vm_compute|by vm_compute|apply (bool_decide_unpack _); by vm_compute|].
  exists h, rest. split; [exact E|]. intros Hsh. by rewrite (Hm Hsh 1%nat _ eq_refl).
Defined.

(** Two stores that differ in a settled action. *)
Definition node1 : MockActionsDb :=
  mkMockActionsDb {["w1" := act "w1" "withdraw" "hive:alice" "hive" 1500]} [].
Definition node2 : MockActionsDb :=
  mkMockActionsDb {["w1" := act "w1" "withdraw" "hive:alice" "hive" 1500;
                    "w0" := set_ar_Status "complete" (act "w0" "withdraw" "hive:alice" "hive" 7)]} [].

Lemma batch_deterministic_witness :
  node_batch "vsc.gateway" false 40 node1 = node_batch "vsc.gateway" false 40 node2.
Proof.
  assert (∀ k r, Actions node1 !! k = Some r → k = "w1" ∧ r = act "w1" "withdraw" "hive:alice" "hive" 1500) as H1.
  { intros k r Hk. unfold node1 in Hk. simpl in Hk. by apply lookup_singleton_Some in Hk as [<- <-]. }
  assert (∀ k r, Actions node2 !! k = Some r →
    (k = "w1" ∧ r = act "w1" "withdraw" "hive:alice" "hive" 1500) ∨
    (k = "w0" ∧ r = set_ar_Status "complete" (act "w0" "withdraw" "hive:alice" "hive" 7))) as H2.
  { intros k r Hk. unfold node2 in Hk. simpl in Hk. apply lookup_insert_Some in Hk as [[<- <-]|[_ Hk]]; [by left|].
    right. by apply lookup_singleton_Some in Hk as [<- <-]. }
  apply (batch_deterministic "vsc.gateway" false 40 node1 node2).
  - by intros k r [-> ->]%H1.
  - by intros k r [[-> ->]|[-> ->]]%H2.
  - by intros k r [-> ->]%H1.
  - by intros k r [[-> ->]|[-> ->]]%H2.
  - intros k r Hp. split.
    + intros [-> ->]%H1. by vm_compute.
    + intros [[-> ->]|[-> ->]]%H2; [by vm_compute|]. by vm_compute in Hp.
Defined.

Definition holder (a : string) (hbd : Z) : BalanceRecord := mkBalanceRecord a 0 0 0 hbd 0 0 0 0.

Lemma sync_targets_third_witness :
  ∃ l s u op, syncBalance "vsc.gateway" false 40 None
                (Some (imap (λ i a, holder a (300000 * Z.of_nat (S i))) ["a"; "b"; "c"; "d"; "e"; "f"])) = inr l ∧
    l = [CustomSync "vsc.gateway" s u; op] ∧ op_saved op = s - u ∧ 0 + (s - u) = 2100000.
Proof.
  set (hs := imap (λ i a, holder a (300000 * Z.of_nat (S i))) ["a"; "b"; "c"; "d"; "e"; "f"]).
  eexists. destruct (sync_targets_third "vsc.gateway" false 40 None hs
    (match syncBalance "vsc.gateway" false 40 None (Some hs) with inr l => l | inl _ => [] end))
    as (s & u & op & Hl & Ho & Ht & _); [done|by vm_compute|done|by vm_compute|].
  exists s, u, op. split_and!; [by vm_compute|exact Hl|exact Ho|exact (eq_trans Ht eq_refl)].
Defined.

(** ** Behaviours worth knowing *)

(** Eight unstakes: the header says 255, [IndexActions] reads 0, so none of them
    is credited early.  The batch writes the bit set with the standard base64
    alphabet and the ledger reads it with the one for URLs. *)
Lemma cleared_marks_lost :
  let l := (λ a, act a "unstake" ("hive:" +:+ a) "hbd" 10) <$> names in
  match executeActions "vsc.gateway" false 40 l with
  | Some (inr (CustomActions _ header :: _)) => ClearedOps header = "/w" ∧ cleared_bits (ClearedOps header) = 0
  | _ => False
  end.
Proof. by vm_compute. Qed.

(** An unstake with no stake to pay it from is still marked as covered: its
    amount is credited after one block, while Hive releases it after three days. *)
Lemma lone_unstake_marked :
  match executeActions "vsc.gateway" false 40 [act "u1" "unstake" "hive:bob" "hbd" 700] with
  | Some (inr (CustomActions _ header :: _)) => unstake_delay (cleared_bits (ClearedOps header)) 0 = 1
  | _ => False
  end.
Proof. by vm_compute. Qed.

(** A withdrawal the batch cannot pay is listed in the header all the same, so
    that it is settled without a payment. *)
Lemma skipped_withdrawal_listed :
  executeActions "vsc.gateway" false 40 [act "w1" "withdraw" "did:alice" "hive" 5]
  = Some (inr [CustomActions "vsc.gateway" (mkActionUpdate ["w1"] "")]).
Proof. by vm_compute. Qed.

(** The transfer to a destination without a colon stops the node. *)
Lemma bare_destination_panics :
  executeActions "vsc.gateway" false 40 [act "w1" "withdraw" "alice" "hive" 5] = None.
Proof. by vm_compute. Qed.
