(* ===== verification/DelegationExamples.v ===== *)
(** Concrete runs of the delegation backfill on the in-memory store: alice staked
    30 for bob and bob 20 for himself, of which he took back 5. *)
From S2P Require Import Prelude GoMaps GoStrings LedgerDb LedgerTypes Delegation MockLedger Examples.

Definition legacy_rows : list LedgerRecord :=
  [row "s1#in" "" 3 (-30) "hive" "hive:alice" "" "consensus_stake";
   row "s1#out" "" 3 30 "hive_consensus" "hive:bob" "" "consensus_stake";
   row "s2#in" "" 4 (-20) "hive" "hive:bob" "" "consensus_stake";
   row "s2#out" "" 4 20 "hive_consensus" "hive:bob" "" "consensus_stake";
   row "u1#in" "" 5 (-5) "hive_consensus" "hive:bob" "" "consensus_unstake"].

Definition legacy_db : MockLedgerDb := db_of legacy_rows.

Lemma legacy_db_ok : db_wf legacy_db ∧ rows legacy_db = upserts legacy_rows ∅.
Proof. apply db_of_ok. by repeat constructor. Qed.

Lemma map_range_ok {A} : range_ok (@map_to_list string A (gmap string A) _).
Proof. by intros m. Qed.

Lemma legacy_cases k r : rows legacy_db !! k = Some r → r ∈ legacy_rows ∧ lr_Id r = k.
Proof.
  intros Hk. split; [|by apply (rows_keyed legacy_db k r (proj1 legacy_db_ok))].
  rewrite (proj2 legacy_db_ok) in Hk. apply lookup_upserts_cases in Hk as [[Hin _]|[_ Hn]]; [done|by rewrite lookup_empty in Hn].
Qed.

Lemma backfill_recovers_edges_witness :
  ((λ u, (lu_Owner u, lu_Amount u)) <$> BackfillDelegationEdges map_to_list legacy_rows 10
   = [("hive:alice::hive:bob", 30); ("hive:bob::hive:bob", 15); ("hive:bob", 45)]) ∧
  BackfillDelegationEdges map_to_list (reverse legacy_rows) 10 = BackfillDelegationEdges map_to_list legacy_rows 10.
Proof.
  split; [eval_done|].
  assert (NoDup (lr_Id <$> legacy_rows)) as Hnd by (apply (bool_decide_unpack _); by vm_compute).
  exact (proj1 (backfill_recovers_edges map_to_list map_to_list legacy_rows (reverse legacy_rows) 10
    map_range_ok map_range_ok Hnd (symmetry (reverse_Permutation legacy_rows)))).
Defined.

Definition half_migrated : MockLedgerDb :=
  storeLedgerOrFail (take 2 (migration_rows map_to_list 10 legacy_db)) legacy_db.

Lemma migration_crash_safe_witness :
  let again := (MigrateDelegationEdgesOnce map_to_list 10 half_migrated).1 in
  rows again = upserts (migration_rows map_to_list 10 legacy_db) (rows legacy_db) ∧
  MigrateDelegationEdgesOnce map_to_list 10 again = (again, 0).
Proof.
  assert (unmigrated (rows legacy_db)) as Hun.
  { intros k r [Hr <-]%legacy_cases.
    enough (Forall (λ r, HasPrefix (lr_Id r) "delegation_backfill" = false ∧ lr_Id r ≠ delegationMigrationMarkerID) legacy_rows) as Hall
      by by apply (proj1 (Forall_forall _ _) Hall).
    by repeat constructor. }
  assert (migrated 10 legacy_db = false) as Hm by eval_done.
  destruct (storeLedgerOrFail_spec (take 2 (migration_rows map_to_list 10 legacy_db)) legacy_db (proj1 legacy_db_ok)) as [Hw Hr].
  { apply Forall_take, migration_ids. }
  pose proof (migration_crash_safe map_to_list 10 2 legacy_db half_migrated map_range_ok (proj1 legacy_db_ok) Hw ltac:(lia)
    Hun Hm Hr) as Hc.
  destruct (MigrateDelegationEdgesOnce map_to_list 10 legacy_db) as [d nd].
  destruct (MigrateDelegationEdgesOnce map_to_list 10 half_migrated) as [again na].
  destruct Hc as (H1 & H2 & H3). split; [exact (eq_trans H2 H1)|exact H3].
Defined.

Definition migrated_db : MockLedgerDb := (MigrateDelegationEdgesOnce map_to_list 10 legacy_db).1.

Lemma migrated_db_wf : db_wf migrated_db.
Proof.
  unfold migrated_db, MigrateDelegationEdgesOnce. destruct (migrated 10 legacy_db); [apply legacy_db_ok|].
  apply storeLedgerOrFail_spec; [apply legacy_db_ok|apply migration_ids].
Qed.

Lemma AllDelegationEdges_spec_witness :
  ∃ out, AllDelegationEdges map_to_list true 12 migrated_db = Some out ∧ edge_at out "hive:bob" "hive:alice" = Some 30.
Proof.
  apply (AllDelegationEdges_spec map_to_list 12 migrated_db "hive:bob" "hive:alice" 30 map_range_ok migrated_db_wf).
  split_and!; eval_done.
Defined.
