(* ===== verification/PendulumExamples.v ===== *)
(** Concrete runs of the incentive pendulum: the split at and away from its
    equilibrium, an epoch of liveness evidence with a careless witness, and a
    settlement of three bonded nodes of which one shares with two delegators. *)
From S2P Require Import Prelude GoMaps GoStrings IntMath LedgerDb Pendulum Rewards Settlement Examples.

Definition amounts_check (m : gmap string Z) : bool :=
  bool_decide (map_Forall (λ _ v, 0 <= v) m) && (msum (λ v, v) m <=? MaxInt64).

Lemma amounts_check_ok m : amounts_check m = true → amounts_ok m.
Proof. unfold amounts_check. rewrite andb_true_iff, bool_decide_eq_true, Z.leb_le. by intros [H1 H2]. Qed.

(** ** The split *)

Lemma split_conserves_and_swings_witness :
  ∃ o o', SplitInt (mkSplitInputsInt (Some 1000) (Some 600) (Some 900) (Some 600) (Some 300)) = Some (Some o) ∧
    SplitInt (mkSplitInputsInt (Some 1000) (Some 600) (Some 900) (Some 1200) (Some 300)) = Some (Some o') ∧
    FinalNodeShare o + FinalPoolShare o = 1000 ∧ 0 <= FinalNodeShare o ∧ 0 <= FinalPoolShare o ∧
    (3 * 600 <= 600 → UnderSecured o = true ∧ FinalPoolShare o = 0) ∧
    FinalPoolShare o' <= FinalPoolShare o ∧ FinalNodeShare o <= FinalNodeShare o'.
Proof. apply (split_conserves_and_swings 1000 600 900 600 1200 300); lia. Defined.

Lemma equilibrium_yields_equal_witness :
  ∃ o, SplitInt (mkSplitInputsInt (Some 1000) (Some 600) (Some 900) (Some 600) (Some 300)) = Some (Some o) ∧
    0 <= FinalNodeShare o * 600 - FinalPoolShare o * 900 < 900 + 600.
Proof. apply (equilibrium_yields_equal 1000 600 900 300); lia. Defined.

Lemma edge_inverts_ratio_witness :
  let s := sEdgeForRatio 30000 30000 in
  0 <= s ∧ 2 * s * s + 30000 * s <= 30000 * 30000 < 2 * (s + 1) * (s + 1) + 30000 * (s + 1).
Proof. apply (edge_inverts_ratio 30000 30000); unfold MaxInt64; lia. Defined.

Lemma stabilizer_bounded_witness :
  ∃ m m', StabilizerMultiplierBps 10500 100 DefaultStabilizerParamsBps = Some (Some m) ∧
    StabilizerMultiplierBps 9000 100 DefaultStabilizerParamsBps = Some (Some m') ∧
    Z.min BpsScale 20000 <= m <= 20000 ∧ m <= m'.
Proof.
  eexists _, _. split; [by vm_compute|]. split; [by vm_compute|].
  refine (stabilizer_bounded 10500 9000 100 DefaultStabilizerParamsBps _ _ _ _ _ _ _ _ _ _ _); by vm_compute.
Defined.

Lemma clp_fee_bounded_witness :
  ∃ f f', CLPFeeInt (Some 100) (Some 1000) (Some 5000) = Some f ∧ CLPFeeInt (Some 200) (Some 1000) (Some 5000) = Some f' ∧
    0 <= f < 5000 ∧ f <= f'.
Proof. apply (clp_fee_bounded 100 200 1000 5000); lia. Defined.

(** ** Liveness *)

(** Carol never produces and never signs; alice and bob do.  The reshare lists
    all three and is signed by alice and bob: [Aw] is the bit set 3. *)
Definition tick_at (h : Z) : option TickInputs :=
  if h =? 300 then None
  else Some (mkTickInputs ["carol"; "alice"; "bob"]
    [mkSlotProposer (h - 20) "alice"; mkSlotProposer (h - 10) "carol"] {[h - 20]}
    [["alice"; "bob"]; ["bob"; "alice"; "dave"]]
    [mkCommitted "Aw" ["alice"; "bob"; "carol"]] [] [mkCommitted "!!" ["alice"]] [mkCommitted "" ["alice"]] ["dave"]).

Lemma tick_at_nodup h t : tick_at h = Some t → NoDup (Committee t).
Proof.
  unfold tick_at. destruct (h =? 300); [done|]. intros [= <-]. apply (bool_decide_unpack _). by vm_compute.
Qed.

Lemma epoch_ticks_exact_witness :
  epoch_ticks 150 450 100 = [200; 300; 400] ∧ StronglySorted Z.lt (epoch_ticks 150 450 100).
Proof. split; [by vm_compute|]. apply (epoch_ticks_exact 150 450 100); unfold MaxUint64; lia. Defined.

Lemma reductions_exact_witness :
  map_to_list (ComputeReductionsForEpoch tick_at 150 450 100) = [("carol", 1750)] ∧
  ComputeReductionsForEpoch tick_at 150 450 100 !! "carol"
  = (let eff := epoch_charge tick_at 150 450 100 "carol" - PerEpochForgivenessBps in
     if eff <=? 0 then None else Some (Z.min eff PerEpochCapBps)).
Proof.
  split; [by vm_compute|].
  refine (proj1 (reductions_exact tick_at 150 450 100 "carol" _ _ _ _ _ tick_at_nodup)); unfold MaxUint64; lia.
Defined.

Lemma alice_blameless h t : tick_at h = Some t → blameless "alice" t.
Proof.
  unfold tick_at. destruct (h =? 300); [done|]. intros [= <-]. unfold blameless.
  cbn [Slots ProducedSlotHeights BlocksInWindow Reshares Keygens Blames Signs DivergingOracleWitnesses app].
  split_and!.
  - intros s [->|[->|[]%elem_of_nil]%elem_of_cons]%elem_of_cons Hs; [set_solver|done].
  - intros b [->|[->|[]%elem_of_nil]%elem_of_cons]%elem_of_cons; apply (bool_decide_unpack _); by vm_compute.
  - intros c [->|[->|[]%elem_of_nil]%elem_of_cons]%elem_of_cons bs idx Hb Hi; vm_compute in Hb; [|done].
    destruct idx as [|[|[|idx]]]; try done. by simplify_eq.
  - intros c ->%list_elem_of_singleton bs idx Hb Hi. by vm_compute in Hb.
  - apply (bool_decide_unpack _). by vm_compute.
Qed.

Lemma blameless_not_reduced_witness : ComputeReductionsForEpoch tick_at 150 450 100 !! "alice" = None.
Proof.
  refine (blameless_not_reduced tick_at 150 450 100 "alice" _ _ _ _ _ tick_at_nodup _); try (unfold MaxUint64; lia).
  intros h t _ _. apply alice_blameless.
Defined.

(** ** Settlement *)

Definition consensus_row (a : string) (h v : Z) : BalanceRecord := mkBalanceRecord a h 0 v 0 0 0 0 0.

(** Bob topped his bond up at height 160; carol has no row. *)
Definition bond_reader (a : string) (h : Z) : option (option BalanceRecord) :=
  if String.eqb a "hive:alice" then Some (Some (consensus_row a h 500))
  else if String.eqb a "hive:bob" then Some (Some (consensus_row a h (if h <? 160 then 300 else 900)))
  else Some None.

Lemma bond_is_window_minimum_witness :
  map_to_list <$> ReadCommitteeBonds bond_reader ["alice"; "bob"; "carol"] 100 190
  = Some [("hive:alice", 500); ("hive:bob", 300)] ∧
  ∃ bonds, ReadCommitteeBonds bond_reader ["alice"; "bob"; "carol"] 100 190 = Some bonds ∧
    ∀ a b, bonds !! a = Some b ↔ a ≠ "" ∧ a ∈ normalizeHiveAccount <$> ["alice"; "bob"; "carol"] ∧
      window_min bond_reader (sampleBlocksAcrossWindow 100 190 bondSampleCount) a b.
Proof.
  split; [vm_compute; reflexivity|].
  pose proof (bond_is_window_minimum bond_reader ["alice"; "bob"; "carol"] 100 190) as H.
  refine (proj1 (proj2 (proj2 (proj2 (H _ _ _ _)))) _); [done|lia|lia|unfold MaxUint64; lia|].
  intros m h _ _. unfold bond_at, bond_reader. by repeat case_match; simplify_eq.
Defined.

(** Bob shares with dave (who staked two thirds of his bond) and is reduced by
    half; the bucket holds 1000. *)
Definition settlement_inputs : ComposeInputs :=
  mkComposeInputs 7 6 100 190 (list_to_map [("hive:alice", 500); ("hive:bob", 300)]) 1000
    (list_to_map [("bob", 5000)])
    (list_to_map [("hive:bob", list_to_map [("hive:dave", 200); ("hive:bob", 100)])]).

Lemma settlement_inputs_ok : compose_ok settlement_inputs.
Proof.
  unfold compose_ok. cbn [ci_Epoch EpochStartBh SlotHeight ci_BucketBalanceHBD CommitteeBonds ShareDelegations settlement_inputs].
  split_and!; try (unfold MaxInt64; lia).
  - right. apply (bool_decide_unpack _). by vm_compute.
  - apply amounts_check_ok. by vm_compute.
  - intros n e. rewrite <- elem_of_list_to_map by (apply (bool_decide_unpack _); by vm_compute).
    intros Hn%list_elem_of_singleton. simplify_eq. apply amounts_check_ok. by vm_compute.
Qed.

Lemma settlement_conserves_witness :
  ∃ rec, ComposeRecord settlement_inputs = Some (inr rec) ∧
    TotalDistributedHBD rec + ResidualHBD rec = 1000 ∧ 0 <= ResidualHBD rec.
Proof.
  destruct (settlement_conserves settlement_inputs settlement_inputs_ok) as (rec & H1 & _ & H2 & H3 & _).
  exact (ex_intro _ rec (conj H1 (conj H2 H3))).
Defined.

Lemma settlement_pays_shares_witness :
  ((λ d, (d_Account d, d_Amount d)) <$> node_level settlement_inputs = [("hive:alice", 769); ("hive:bob", 230)]) ∧
  ∃ rec, ComposeRecord settlement_inputs = Some (inr rec) ∧
    ∀ a, zsum ((λ d, if String.eqb (d_Account d) a then d_Amount d else 0) <$> Distributions rec)
         = zsum (part_of (ShareDelegations settlement_inputs) a <$> node_level settlement_inputs).
Proof.
  split; [eval_done|].
  refine (proj2 (settlement_pays_shares settlement_inputs settlement_inputs_ok _ _)); [by vm_compute|eval_done].
Defined.
