(* ===== verification/CommitteeExamples.v ===== *)
(** Concrete runs of the committee: an election among five witnesses, the seats
    of a committee through votes and departures, a downgrade of a delegation mode,
    quorums, and the recovery of a suspended chain. *)
From S2P Require Import Prelude GoMaps GoSlices GoStrings LedgerDb Settlement ConsensusVersion BlsQuorum Governance PoaSeats.
From S2P Require Import DelegationMode VersionGov ElectionBond Election Examples.

(** ** Parameters *)

Definition params0 : ConsensusParams :=
  mkConsensusParams 100 3 7200 0 0 0 0 0 0 0 0 1000 0 0 0 0 0 0 0 0
    ["hive:r1"; "hive:r2"; "hive:r3"] 2 [] 0 0.

Definition witness_of (account key : string) (consensus : Z) : Witness :=
  mkWitness account 10 [mkPostingJsonKeys "DID-BLS" "consensus" key ""] 0 consensus 0 ("gw" +:+ key) "" "" "" 0.

(** A key parses unless it is empty. *)
Definition parse0 (s : string) : option string := if String.eqb s "" then None else Some s.

Definition member0 (account : string) : ElectionMember := mkElectionMember ("k" +:+ account) account true 0 9 0.

(** ** An election *)

(** Erin has no key, dave runs an older version, and carol has too little
    stake. *)
Definition witnesses0 : list Witness :=
  [witness_of "dave" "kd" 8; witness_of "bob" "kb" 9; witness_of "erin" "" 9; witness_of "alice" "ka" 10;
   witness_of "carol" "kc" 9; witness_of "frank" "kf" 9].

Definition stake0 (a : string) (h : Z) : option (option Z) :=
  Some (if String.eqb a "hive:carol" then Some 5 else if String.eqb a "hive:erin" then Some 700 else Some 300).

Definition previous0 : ElectionResult :=
  mkElectionResult 4 "staked" [member0 "alice"; member0 "bob"; member0 "frank"] [1; 1; 1] 9 0 0 1000.

Definition env0 : election_env :=
  mkElectionEnv params0 parse0 (λ _, true) (λ _, true) (Some previous0) (λ _ _, []) None None stake0 None.

Definition version9 : Version := mkVersion 0 9 0.

Definition elected0 : ElectionData :=
  match GenerateFullElection env0 4 version9 8200 witnesses0 with inr ed => ed | inl _ => mkElectionData 0 [] [] version0 "" end.

Lemma elected0_eq : GenerateFullElection env0 4 version9 8200 witnesses0 = inr elected0.
Proof. by vm_compute. Qed.

Lemma witnesses0_nodup : NoDup (wt_Account <$> witnesses0).
Proof. apply (bool_decide_unpack _). by vm_compute. Qed.

Lemma committee_well_formed_witness :
  em_Account <$> ed_Members elected0 = ["alice"; "bob"; "frank"] ∧
  length (ed_Weights elected0) = 3%nat ∧ Sorted String.le (em_Account <$> ed_Members elected0).
Proof.
  split; [by vm_compute|].
  destruct (committee_well_formed env0 4 version9 8200 witnesses0 elected0 witnesses0_nodup elected0_eq) as (H1 & H2 & _).
  split; [by vm_compute|exact H2].
Defined.

Lemma election_deterministic_witness :
  GenerateFullElection env0 4 version9 8200 witnesses0 = GenerateFullElection env0 4 version9 8200 (reverse witnesses0).
Proof. apply (election_deterministic env0 4 version9 8200 witnesses0); [apply witnesses0_nodup|by rewrite reverse_Permutation]. Defined.

Lemma election_version_monotone_witness : version_le version9 (ed_Version elected0).
Proof. exact (election_version_monotone env0 4 version9 8200 witnesses0 elected0 witnesses0_nodup elected0_eq). Defined.

(** ** Seats *)

(** The election in which the seat gate is open, and the one before it. *)
Definition election_at (consensus height : Z) (accounts : list string) : ElectionResult :=
  mkElectionResult 5 "staked" (member0 <$> accounts) ((λ _, 1) <$> accounts) consensus 0 0 height.

Definition before_gate : ElectionResult := election_at 6 500 ["alice"; "bob"; "carol"].
Definition first_gated : ElectionResult := election_at 7 1000 ["alice"; "bob"; "carol"].
Definition without_carol : ElectionResult := election_at 7 2000 ["alice"; "bob"].

Definition no_pop : Witness → bool := λ _, true.

(** The registry of a node that stopped after the second seat. *)
Definition half_seeded : registry :=
  default ∅ (seed_accounts (member_set first_gated) 1000 ["alice"; "bob"] ∅).

Lemma bootstrap_crash_safe_witness :
  size half_seeded = 2%nat ∧
  ∃ r', applyPoaSeatMaintenance params0 None no_pop no_pop first_gated (Some before_gate) 1000 ∅ = Some r' ∧
    applyPoaSeatMaintenance params0 None no_pop no_pop first_gated (Some before_gate) 1000 half_seeded = Some r' ∧
    ∀ a, a ∈ member_set first_gated → is_Some (r' !! a).
Proof.
  split; [by vm_compute|].
  apply (bootstrap_crash_safe params0 None no_pop no_pop first_gated before_gate 1000 ∅ (member_set first_gated) 2 half_seeded);
    [by vm_compute..| |by vm_compute].
  intros a. unfold member_set. rewrite elem_of_list_to_set, list_elem_of_filter. intros [Hne Ha]. split; [|done].
  revert a Ha Hne. apply (proj1 (Forall_forall (λ a, a ≠ "" → NormalizeAccount a = a) _)). by repeat constructor.
Defined.

Definition sha0 : string → string := λ s, s.
Definition active7 : Z → Version := λ _, mkVersion 0 7 0.
Definition all_read : admit_io := mkAdmitIo true true true true.
Definition ask_dave : admit_req := mkAdmitReq "hive:Dave" " owner-7 " "vsc-net".

(** The bootstrap, an election without carol, and votes of alice and of bob for
    dave. *)
Definition events0 : list seat_event :=
  [SeatElection first_gated (Some before_gate) 1000; SeatElection without_carol (Some first_gated) 2000;
   SeatVote all_read ask_dave "hive:alice" "tx1" 2100; SeatVote all_read ask_dave "bob" "tx2" 2200].

Definition run_events (evs : list seat_event) : option (registry * gov_store) :=
  seat_run sha0 params0 "vsc-net" active7 None no_pop no_pop evs (∅, mkGovStore ∅ ∅).

Definition final0 : registry * gov_store := default (∅, mkGovStore ∅ ∅) (run_events events0).

Lemma run0_events : seat_run sha0 params0 "vsc-net" active7 None no_pop no_pop events0 (∅, mkGovStore ∅ ∅) = Some (final0.1, final0.2).
Proof. by vm_compute. Qed.

#[local] Opaque final0.

Definition dave_seat : Seat := mkSeat "dave" "owner-7" 2200 "tx2" false 0 0.

Lemma dave_seated : final0.1 !! "dave" = Some dave_seat ∧ size final0.1 = 4%nat ∧
  (ExitHeight <$> final0.1 !! "carol") = Some 2000.
Proof. by vm_compute. Qed.

Lemma no_collision0 : no_collision sha0 events0.
Proof. intros ? ? ? ? ? ? ? ? ? ? _ _ H. exact H. Qed.

Lemma admission_needs_two_thirds_witness :
  ∃ pre post r1 g1 created electorate (V : gset string),
    events0 = pre ++ post ∧ run_events pre = Some (r1, g1) ∧
    poaSeatElectorate params0 active7 true r1 created = Some electorate ∧
    (let others := other_seats electorate "dave" in
     0 < length others ∧ 2 * length others <= 3 * length (filter (λ x, x ∈ V) others))%nat ∧
    ∀ v, v ∈ V → voted_for events0 v ("dave", "owner-7").
Proof.
  exact (admission_needs_two_thirds sha0 params0 "vsc-net" active7 None no_pop no_pop events0 final0.1 final0.2 "dave" dave_seat
    run0_events no_collision0 ltac:(by vm_compute) ltac:(by vm_compute) ltac:(by vm_compute)).
Defined.

Lemma empty_registry_ok : registry_ok ∅.
Proof. by split. Qed.

Lemma seats_permanent_witness : registry_ok final0.1 ∧ grows ∅ final0.1.
Proof.
  exact (seats_permanent sha0 params0 "vsc-net" active7 None no_pop no_pop events0 ∅ (mkGovStore ∅ ∅) final0.1 final0.2
    empty_registry_ok run0_events).
Defined.

(** Carol leaves at height 2000 and stays away; the bond is held to height
    3000. *)
Definition seats3 : registry :=
  {["alice" := mkSeat "alice" "" 1000 "" true 1000 0; "bob" := mkSeat "bob" "" 1000 "" true 1000 0;
    "carol" := mkSeat "carol" "" 1000 "" true 1000 0]}.

Lemma seats3_rows a s : seats3 !! a = Some s → s = mkSeat a "" 1000 "" true 1000 0 ∧ (a = "alice" ∨ a = "bob" ∨ a = "carol").
Proof.
  unfold seats3. intros [[<- <-]|[_ [[<- <-]|[_ [<- <-]%lookup_singleton_Some]]%lookup_insert_Some]]%lookup_insert_Some; auto.
Qed.

Lemma seats3_ok : registry_ok seats3 ∧ names_ok seats3.
Proof.
  split; [split|].
  - intros a s [-> [->|[-> | ->]]]%seats3_rows; done.
  - intros a b s t [-> _]%seats3_rows [-> _]%seats3_rows _. done.
  - intros a [s [-> [->|[-> | ->]]]%seats3_rows]; split; [by vm_compute|done|by vm_compute|done|by vm_compute|done].
Qed.

Definition no_witnesses : Z → list Witness := λ _, [].
Definition quiet : string → Z → option Witness := λ _ _, None.

Definition later : list (ElectionResult * ElectionResult * Z) := [(without_carol, without_carol, 2500)].

Lemma carol_left_out h : h = 2000 ∨ h = 2500 → leaves_out "carol" 2000 (without_carol, first_gated, h).
Proof.
  intros Hh. split; [by vm_compute|]. split; [by vm_compute|]. split; [lia|].
  apply (bool_decide_unpack _). by vm_compute.
Qed.

Lemma exit_releases_bond_witness :
  ∃ r', maintain_run params0 None no_pop no_pop ((without_carol, first_gated, 2000) :: later) seats3 = Some r' ∧
    poaExitHalt params0 active7 no_witnesses quiet r' "carol" 2999 = (2999 <? 2000 + 1000, 2000 + 1000, true).
Proof.
  refine (exit_releases_bond params0 None no_pop no_pop active7 no_witnesses quiet "carol" (mkSeat "carol" "" 1000 "" true 1000 0)
    seats3 without_carol first_gated 2000 later 2999 (proj1 seats3_ok) (proj2 seats3_ok) _ _ _ _ _ _ _ _ _ _ _ _);
    [by vm_compute|cbn; lia|lia|cbn; lia|done|apply carol_left_out; by left| |by vm_compute..].
  constructor; [|done]. destruct (carol_left_out 2500 ltac:(by right)) as (H1 & _ & H3 & H4). by split_and!.
Defined.

(** The election that last seated carol, processed again after carol left, takes
    the record of the departure back. *)
Lemma reprocessed_seating_clears_exit :
  (λ r : registry, ExitHeight <$> r !! "carol") <$> maintain_run params0 None no_pop no_pop [(without_carol, first_gated, 2000)] seats3
    = Some (Some 2000) ∧
  (λ r : registry, ExitHeight <$> r !! "carol") <$>
    maintain_run params0 None no_pop no_pop [(without_carol, first_gated, 2000); (first_gated, first_gated, 1000)] seats3
    = Some (Some 0).
Proof. split; eval_done. Qed.

(** Without a known predecessor a bootstrap that stopped half-way is not
    completed. *)
Lemma unknown_predecessor_freezes :
  size <$> applyPoaSeatMaintenance params0 None no_pop no_pop first_gated None 1000 ∅ = Some 3%nat ∧
  size <$> applyPoaSeatMaintenance params0 None no_pop no_pop first_gated None 1000 half_seeded = Some 2%nat.
Proof. split; eval_done. Qed.

(** A node whose read of a seat fails once drops the vote and ends with another
    registry than the rest. *)
Lemma failed_read_diverges :
  (λ st : registry * gov_store, size st.1) <$>
    run_events (take 3 events0 ++ [SeatVote (mkAdmitIo true false true true) ask_dave "bob" "tx2" 2200]) = Some 3%nat ∧
  (λ st : registry * gov_store, size st.1) <$> run_events events0 = Some 4%nat.
Proof. split; eval_done. Qed.

(** ** A downgrade of a delegation mode *)

(** One epoch every 100 blocks, under version 0.5.0. *)
Definition epochs (h : Z) : option ElectionResult :=
  if 0 <=? h then Some (mkElectionResult (Z.min 1000 (h / 100)) "staked" [] [] 5 0 0 h) else None.

Definition announcement (h : Z) (mode : string) : Witness :=
  mkWitness "alice" h [mkPostingJsonKeys "DID-BLS" "consensus" "ka" ""] 0 5 0 "" "" mode "" 0.

Lemma epochs_at h e : epoch_at epochs h e ↔ 0 <= h ∧ e = Z.min 1000 (h / 100).
Proof.
  unfold epoch_at, epochs. destruct (Z.leb_spec 0 h); split.
  - intros (r & [= <-] & _ & <-). done.
  - intros [_ ->]. by eexists.
  - by intros (r & ? & _).
  - lia.
Qed.

Lemma epochs_mono h h' e e' : h <= h' → epoch_at epochs h e → epoch_at epochs h' e' → e <= e'.
Proof.
  intros Hle [_ ->]%epochs_at [_ ->]%epochs_at. pose proof (Z.div_le_mono h h' 100 ltac:(lia) Hle). lia.
Qed.

Lemma epochs_fit h e : epoch_at epochs h e → 0 <= e ∧ e + DELEGATION_DOWNGRADE_LOCK_EPOCHS <= MaxUint64.
Proof.
  intros [Hh ->]%epochs_at. pose proof (Z.div_pos h 100 Hh ltac:(lia)).
  change DELEGATION_DOWNGRADE_LOCK_EPOCHS with 6. unfold MaxUint64. lia.
Qed.

(** Alice shares from height 150 and announces at height 450 to keep all: share
    mode lasts through epoch 9, and the new mode is in force from epoch 10. *)
Definition sharing : list Witness := [announcement 150 "share"].
Definition leaving : Witness := announcement 450 "custom".
Definition leaving_again : Witness := announcement 650 "Custom ".

Lemma timelock_protects_witness :
  NodeDelegationMode epochs (foldl (announce epochs) (foldl (announce epochs) ∅ sharing) [leaving; leaving_again]) "hive:alice" 950 = Share.
Proof.
  refine (timelock_protects epochs epochs_mono epochs_fit sharing [leaving; leaving_again] "alice" 440 950 4 9 _ _ _ _ _ _ _ _ _ _ _ _ _);
    [done|lia|cbn; lia|by repeat constructor|cbn; lia|by repeat constructor|lia|by apply epochs_at|by apply epochs_at|done| |by vm_compute|].
  - repeat constructor; eexists; by apply epochs_at.
  - intros w. vm_compute. by intros [= <-].
Defined.

Lemma timelock_expires_witness :
  NodeDelegationMode epochs (foldl (announce epochs) ∅ (sharing ++ leaving :: [leaving_again])) "hive:alice" 1000 = Custom.
Proof.
  refine (timelock_expires epochs epochs_mono epochs_fit sharing leaving [leaving_again] "alice" Custom 1000 4 10 _ _ _ _ _ _ _ _ _ _);
    [done|cbn; lia|by repeat constructor|done|by vm_compute|by vm_compute| |by apply epochs_at|by apply epochs_at|done].
  constructor; [|done]. intros _. by vm_compute.
Defined.

(** ** Quorums *)

(** Two of the four seats hold one key. *)
Definition seats4 : list ElectionMember :=
  [mkElectionMember "k1" "a" false 0 0 0; mkElectionMember "k2" "b" false 0 0 0;
   mkElectionMember "k2" "c" false 0 0 0; mkElectionMember "k3" "d" false 0 0 0].

Lemma bls_quorums_overlap_witness :
  committee_weight seats4 [5; 5; 50; 5] = 15 ∧
  let common := weight_in (key_weight seats4 [5; 5; 50; 5]) (list_to_set ["k1"; "k2"] ∩ list_to_set ["k2"; "k3"; "k2"]) in
  committee_weight seats4 [5; 5; 50; 5] <= 3 * common ∧ 0 < common.
Proof.
  split; [by vm_compute|].
  refine (bls_quorums_overlap seats4 [5; 5; 50; 5] _ _ _ true ["k1"; "k2"] ["k2"; "k3"; "k2"] (or_introl eq_refl) _ _);
    [done|by repeat constructor|by vm_compute|by vm_compute|by vm_compute].
Defined.

(** ** Governance of the version *)

Definition io_ok : db_outcome := mkDbOutcome true true.
Definition committee_then (h : Z) : option ElectionResult := Some (election_at 7 h ["alice"; "bob"]).
Definition announced (a : string) (h : Z) : option (option Witness) := Some (Some (witness_of a "k" 9)).
Definition fresh : engine := mkEngine defaultState defaultState.

Definition propose_alice : TxProposeConsensusVersion := mkTxProposeConsensusVersion "" 0 9 0 ["hive:alice"] "p1" 1500.

(** Bob's proposal is stored while the read after it fails: the cache is behind. *)
Definition governed : engine :=
  executeProposeConsensusVersion params0 "vsc-net" committee_then announced (mkDbOutcome true false)
    (mkTxProposeConsensusVersion "vsc-net" 0 8 0 ["bob"] "p2" 1600)
    (executeProposeConsensusVersion params0 "vsc-net" committee_then announced io_ok propose_alice fresh).

Lemma governance_invariant_witness :
  vp_Proposer <$> VersionProposals (stored governed) = ["alice"; "bob"] ∧
  engine_ok committee_then announced governed.
Proof.
  split; [by vm_compute|]. apply (governance_invariant params0 "vsc-net" committee_then announced).
  unfold governed. eapply rtc_l; [|apply rtc_once]; constructor.
Defined.

Definition suspended : engine := executeRecoverySuspend params0 io_ok (mkTxRecovery 0 0 ["r1"; "hive:r2"] "s1" 1700) governed.
Definition resumed : engine :=
  executeRecoveryRequireVersion params0 committee_then io_ok (mkTxRecovery 0 9 ["r3"; "r2"] "s2" 1800) suspended.

Lemma suspension_guarded_witness :
  ∃ auths, VerifyRecoveryMultisig params0 auths = true ∧
    (ProcessingSuspended (stored resumed) = false →
       chainProcessingSuspended suspended = true ∧
       ∃ f elec, ForcedActivation (stored resumed) = Some f ∧ vp_Forced f = true ∧
         committee_then (vp_BlockHeight f) = Some elec ∧ vp_ActivationEpoch f = el_Epoch elec +u64 1).
Proof.
  refine (suspension_guarded params0 "vsc-net" committee_then announced suspended resumed _ _); [constructor|by vm_compute].
Defined.
