(* ===== verification/SettlementExamples.v ===== *)
(** A settlement from its proposer to the ledger: three bonded nodes of which one
    shares with a delegator and one is reduced for its absence. *)
From S2P Require Import Prelude GoMaps GoStrings IntMath LedgerDb LedgerTypes SafetySlash Reserve Rewards Settlement.
From S2P Require Import ConsensusVersion Delegation DelegationMode SettlementApply MockLedger Examples PendulumExamples.

(** ** What the nodes read *)

Definition closing : ElectionResult :=
  mkElectionResult 7 "staked" ((λ a, mkElectionMember ("k" +:+ a) a true 0 5 0) <$> ["alice"; "bob"; "carol"]) [1; 1; 1] 5 0 0 150.

Definition bonds7 (a : string) (h : Z) : option (option BalanceRecord) :=
  if String.eqb a "hive:carol" then Some (Some (consensus_row a h 200)) else bond_reader a h.

Definition shares7 : edge_map := {["hive:bob" := {["hive:bob" := 100; "hive:dave" := 200]}]}.

(** The bytes of a record: what it pays and to whom. *)
Definition encode7 (rec : SettlementRecord) : option string :=
  Some (foldl (λ s d, s +:+ d_Account d +:+ "=" +:+ uintToDecString (d_Amount d) +:+ ";") (uintToDecString (sr_Epoch rec)) (Distributions rec)).

Definition env7 : settle_env := mkSettleEnv (λ h, if h =? 450 then Some closing else None) bonds7 (λ _ _, Some shares7) tick_at encode7 false.

(** The bucket holds 1000; epoch 6 is settled. *)
Definition bucket_db : MockLedgerDb := db_of [row "fee1" "fee1" 160 1000 "hbd" PendulumNodesHBDBucket "" "pendulum_fee"].
Definition settled6 : markers := {[6 := mkSettlementMarker 6 150 1 150 0 0]}.

Definition record7 : SettlementRecord :=
  match settlement_stage env7 false true (Some closing) 7 450 settled6 bucket_db with
  | Some (inr (Some rec)) => rec
  | _ => mkSettlementRecord 0 0 0 0 0 0 0 [] []
  end.

Lemma record7_eq : settlement_stage env7 false true (Some closing) 7 450 settled6 bucket_db = Some (inr (Some record7)).
Proof. by vm_compute. Qed.

(** Carol's bond counts reduced by 17.5 per cent. *)
Lemma record7_pays :
  (λ d, (d_Account d, d_Amount d)) <$> Distributions record7
  = [("hive:alice", 518); ("hive:bob", 104); ("hive:carol", 170); ("hive:dave", 206)] ∧ ResidualHBD record7 = 2.
Proof. by vm_compute. Qed.

(** ** Hypotheses *)

Lemma bucket_db_wf : db_wf bucket_db.
Proof. apply db_of_ok. by repeat constructor. Qed.

Lemma reductions7 a :
  is_Some (ComputeReductionsForEpoch tick_at 150 450 DefaultTickIntervalBlocks !! a) → a = "carol".
Proof.
  intros [v Hv%elem_of_map_to_list].
  assert (map_to_list (ComputeReductionsForEpoch tick_at 150 450 DefaultTickIntervalBlocks) = [("carol", 1750)]) as E by eval_done.
  rewrite E in Hv. clear E. apply list_elem_of_singleton in Hv. by injection Hv as ->.
Qed.

Lemma names7 : names_ok env7 closing 450.
Proof.
  split; [|split].
  - apply Forall_forall. by repeat constructor.
  - intros shares n e k Hs Hn Hk. cbn in Hs. injection Hs as <-. unfold shares7 in Hn. apply lookup_singleton_Some in Hn as [_ <-]. revert Hk.
    intros [v [[<- _]|[_ [<- _]%lookup_singleton_Some]]%lookup_insert_Some]; done.
  - intros a ->%reductions7. by split; [vm_compute|].
Qed.

Lemma stakes7 : stakes_fit env7 closing 450.
Proof.
  split.
  - intros bonds Hb.
    assert (amounts_check <$> ReadCommitteeBonds bonds7 (committee_accounts closing) 150 450 = Some true) as E by eval_done.
    cbn [sv_balance env7 el_BlockHeight closing] in Hb. rewrite Hb in E. apply amounts_check_ok. by injection E.
  - intros shares Hs. cbn in Hs. injection Hs as <-. unfold shares7. intros n e [_ <-]%lookup_singleton_Some. apply amounts_check_ok. by vm_compute.
Qed.

(** ** Acceptance and payment *)

Lemma honest_settlement_accepted_witness :
  sr_Epoch record7 = 7 ∧ sr_PrevEpoch record7 = GetLatestSettledEpoch true settled6 ∧
  validatePendulumSettlement env7 record7 = None ∧ rederivePendulumSettlement env7 false record7 bucket_db = Some (true, false).
Proof.
  refine (honest_settlement_accepted env7 false false true closing 7 450 settled6 bucket_db bucket_db record7 _
    record7_eq _ _ names7 stakes7 _ eq_refl); [done|done|reflexivity].
Defined.

Definition all_well : outcomes := mkOutcomes true false (λ _, false) true.

Lemma settlement_paid_witness :
  ∃ db' s', applyPendulumSettlement env7 all_well record7 460 settled6 bucket_db = Some (db', s') ∧
    GetLatestSettledEpoch true db' = 7 ∧ bucket_total 460 (rows s') = 2.
Proof.
  assert (bucket_total 460 (rows bucket_db) = 1000) as Hb by eval_done.
  destruct (settlement_paid env7 all_well record7 460 settled6 bucket_db true bucket_db_wf) as (db' & s' & H1 & H2 & H3 & _).
  - eval_done.
  - done.
  - done.
  - done.
  - lia.
  - eval_done.
  - eval_done.
  - eval_done.
  - eval_done.
  - eval_done.
  - apply (bool_decide_unpack _). eval_done.
  - rewrite Hb. eval_done.
  - assert (Forall (λ d, Forall (λ id, rows bucket_db !! id = None)
      (pay_ids (pendulumSettlementTxID (sr_Epoch record7)) (hive_account (d_Account d)))) (Distributions record7)) as Hf.
    { apply (bool_decide_unpack _). eval_done. }
    intros d id Hd Hid. rewrite Forall_forall in Hf. specialize (Hf d Hd). rewrite Forall_forall in Hf. by apply Hf.
  - refine (ex_intro _ db' (ex_intro _ s' (conj H1 (conj _ _)))).
    + rewrite H2. eval_done.
    + rewrite H3, Hb. eval_done.
Defined.

(** The record comes twice, the second time to a node that is asked to settle an
    older epoch as well. *)
Definition stale_record : SettlementRecord := mkSettlementRecord 6 5 1 150 0 0 0 [] [].
Definition calls7 : list settle_call :=
  [(env7, all_well, record7, 460); (env7, all_well, stale_record, 470); (env7, all_well, record7, 480)].

Definition after7 : markers * MockLedgerDb := default (settled6, bucket_db) (settle_run calls7 settled6 bucket_db).

Lemma after7_eq : settle_run calls7 settled6 bucket_db = Some (after7.1, after7.2).
Proof. by vm_compute. Qed.

Lemma settled_once_witness :
  bucket_total 500 (rows after7.2) = 2 ∧
  GetLatestSettledEpoch true settled6 <= GetLatestSettledEpoch true after7.1 ∧
  applyPendulumSettlement env7 all_well record7 490 after7.1 after7.2 = Some (after7.1, after7.2).
Proof.
  destruct (settled_once calls7 settled6 bucket_db after7.1 after7.2) as (H1 & _ & H3); [by repeat constructor|apply after7_eq|].
  split; [eval_done|]. split; [exact H1|]. apply H3; [done|]. clear. vm_compute. by eexists.
Defined.
