(* ===== verification/SlashExamples.v ===== *)
(** Concrete histories of slashes: one undone by a vote in its challenge window,
    one that lands in the reserve at once, and two behaviours of the code that its
    comments do not describe. *)
From S2P Require Import Prelude GoMaps GoSlices GoStrings LedgerDb LedgerTypes SafetySlash ConsensusVersion Governance SlashRestore SlashBook.
From S2P Require Import MockLedger Examples CommitteeExamples.

(** ** A history *)

Definition direct0 : SafetySlashConsensusParams := mkSafetySlashConsensusParams "carol" 100 "ev2" 20 "invalid_block" 0.

Definition slashes0 : list SafetySlashConsensusParams := [slash0 6; direct0].

Definition election0 (h : Z) : option ElectionResult := Some previous0.

Definition no_proposals : gov_store := mkGovStore ∅ ∅.

Definition restore0 : restore_req := mkRestoreReq "ev1" "carol".

(** Both slashes and the first vote. *)
Definition first_vote : list slash_event :=
  [Slashed carol_bond (slash0 6); Slashed carol_bond direct0; Scanned false 21; Voted false (Some restore0) "alice" "v1" 22].

(** The decisive vote, a scan past the window, a request that comes too late and a
    replay of the evidence. *)
Definition history0 : list slash_event :=
  first_vote ++
  [Voted false (Some restore0) "bob" "v2" 23; Voted false (Some restore0) "frank" "v3" 24; Wrote [alice_hive]; Scanned true 40;
   Requested false (mkSafetySlashReverseRecord "ev2" "invalid_block" "carol" "both" 10 "") "b1" 41;
   Slashed carol_bond (slash0 6)].

Definition run0 (evs : list slash_event) : option (MockLedgerDb * gov_store) :=
  slash_history params0 election0 evs (empty_db, no_proposals).

Lemma slashes0_ok : Forall evidence_ok slashes0 ∧ NoDup (base_of <$> slashes0).
Proof.
  split; [|apply (bool_decide_unpack _); by vm_compute].
  repeat constructor; try done; by vm_compute.
Qed.

Lemma empty_untouched : db_wf empty_db ∧ untouched slashes0 (rows empty_db) ∧ store_trimmed no_proposals.
Proof.
  split_and!; [apply (db_of_ok []); constructor| |apply map_Forall_empty]. intros id r Hr.
  change (rows empty_db) with (∅ : ledger) in Hr. by rewrite lookup_empty in Hr.
Qed.

Lemma alice_foreign : foreign slashes0 alice_hive.
Proof.
  split_and!; [done|apply (bool_decide_unpack _); by vm_compute|].
  intros p Hp. unfold slashes0 in Hp. rewrite !elem_of_cons, elem_of_nil in Hp. by destruct_or! Hp; subst p.
Qed.

Lemma history0_timed : timed slashes0 0 history0.
Proof.
  cbn. split_and!; try (by repeat constructor); try (unfold_widths; lia); try (unfold slashes0; set_solver).
  constructor; [apply alice_foreign|constructor].
Qed.

Lemma slash_value_kept_witness :
  ∃ s g, run0 history0 = Some (s, g) ∧
    ((in_reserve (slash0 6) (rows s) + in_window (slash0 6) (rows s) = taken (slash0 6) (rows s) ∧ given_back (slash0 6) (rows s) = 0) ∨
     (in_reserve (slash0 6) (rows s) = 0 ∧ in_window (slash0 6) (rows s) = 0 ∧
      0 <= given_back (slash0 6) (rows s) <= taken (slash0 6) (rows s))).
Proof.
  destruct slashes0_ok as [HU Hb]. destruct empty_untouched as (Hwf & Hm & Hg).
  destruct (slash_value_kept slashes0 HU Hb params0 election0 history0 empty_db no_proposals Hwf Hm Hg history0_timed)
    as (s & g & Hrun & Hval).
  exists s, g. split; [exact Hrun|]. apply (Hval (slash0 6)). left.
Defined.

(** The ledger after the first votes. *)
Definition voted0 : MockLedgerDb * gov_store := default (empty_db, no_proposals) (run0 first_vote).

Lemma voted0_eq : run0 first_vote = Some voted0.
Proof. vm_compute. reflexivity. Qed.

Lemma first_vote_timed : timed slashes0 0 first_vote.
Proof. cbn. split_and!; try (by repeat constructor); try (unfold_widths; lia); unfold slashes0; set_solver. Qed.

Definition electorate0 : list Member := [mkMember "alice" 1; mkMember "bob" 1; mkMember "frank" 1].

Lemma restore_makes_whole_witness :
  let '(s', g') := handleSlashRestoreVote params0 election0 false (Some restore0) "bob" "v2" 23 voted0.1 voted0.2 in
  given_back (slash0 6) (rows s') = 50 ∧ pr_Status <$> GetProposal g' "slash_restore:ev1:carol" = Some StatusApplied.
Proof.
  destruct slashes0_ok as [HU Hb]. destruct empty_untouched as (Hwf & Hm & Hg).
  assert (run0 first_vote = Some (voted0.1, voted0.2)) as Hrun by exact voted0_eq.
  assert (taken (slash0 6) (rows voted0.1) = 50) as Ht by (clear; vm_compute; reflexivity).
  assert (0 < in_window (slash0 6) (rows voted0.1)) as Hw by (clear; vm_compute; reflexivity).
  assert (∀ q, q ∈ slashes0 → sp_TxID q = sp_TxID (slash0 6) → q = slash0 6) as Hu.
  { clear. intros q Hq. unfold slashes0 in Hq. rewrite !elem_of_cons, elem_of_nil in Hq. by destruct_or! Hq; subst q. }
  assert (GetProposal voted0.2 (restore_id restore0) = Some (restore_proposal (restore_id restore0) "ev1" "carol"
    (slash_debit (slash0 6) (slash_acct (slash0 6)) 50) 22)) as Hp by (clear; vm_compute; reflexivity).
  assert (IsApproved electorate0 "carol" (governanceVoterSet (RecordVote (mkProposalVote (restore_id restore0) (NormalizeAccount "bob") 23 "v2")
    voted0.2) (restore_id restore0)) = true) as Ha by (clear; vm_compute; reflexivity).
  pose proof (restore_makes_whole slashes0 HU Hb params0 election0 first_vote empty_db no_proposals voted0.1 voted0.2 (slash0 6)
    restore0 "bob" "v2" 23 22 electorate0 Hwf Hm Hg first_vote_timed Hrun ltac:(left) Hu Hw eq_refl eq_refl
    ltac:(clear; vm_compute; split; discriminate) ltac:(clear; vm_compute; split; [discriminate|reflexivity])) as Hr.
  cbv zeta in Hr. rewrite Ht in Hr.
  specialize (Hr (or_intror Hp) ltac:(lia) ltac:(clear; vm_compute; split; [reflexivity|discriminate]) eq_refl eq_refl Ha).
  destruct (handleSlashRestoreVote _ _ _ _ _ _ _ _ _) as [s' g'].
  destruct Hr as (H1 & _ & _ & _ & H2). exact (conj H1 H2).
Defined.

(** ** Where code and comments differ *)

(** A request for 30 of a slash of 50, applied once and applied again when its
    block is processed a second time. *)
Definition partial0 (s : MockLedgerDb) : MockLedgerDb :=
  applySafetySlashReverse false (mkSafetySlashReverseRecord "ev1" "double_sign" "carol" "both" 30 "") "b1" 24 s.

(** The second application overwrites the credit of the first by what is left of
    the slash, so the account is given back less. *)
Lemma replayed_request_shrinks :
  given_back (slash0 6) (rows (partial0 voted0.1)) = 30 ∧
  given_back (slash0 6) (rows (partial0 (partial0 voted0.1))) = 20.
Proof. by vm_compute. Qed.

(** The pending row stays on the ledger, so its maturity is still reported after
    the slash has been promoted to the reserve. *)
Lemma maturity_outlives_window :
  let s := FinalizeMaturedSafetySlashBurns false 40 voted0.1 in
  in_window (slash0 6) (rows s) = 0 ∧ in_reserve (slash0 6) (rows s) = 50 ∧ slashPendingMaturity "ev1" "double_sign" s = 26.
Proof. by vm_compute. Qed.
