(* ===== verification/ContractExamples.v ===== *)
(** Concrete runs of contracts and of the batches that call them: a contract that
    draws on its caller's intents, nested calls that fail, transactions that are
    reverted, the flush of resource credits, and runs that show where the code
    does not do what it is meant to.

    Three contracts share one code; its entry points are the cases of [program]. *)
From Stdlib Require Import Ascii.
From S2P Require Import Prelude GoMaps GoStrings GoJson Assets LedgerDb LedgerTypes Oplog LedgerState LedgerSession AccountBook ConsensusVersion.
From S2P Require Import DelegationMode RcSystem TssDb DataBin ContractSession ExecContext Wasm CallSafety Transactions Batch MockLedger Examples CommitteeExamples.

(** ** Surroundings *)

#[export] Instance no_state : StateSource := {| load_bin := λ _, NewDataBin; raw_readable := λ _, true; last_output := λ _, None |}.

Definition key0 : TssKey := mkTssKey "c1-k" "active" "02ab" "" "ecdsa" 5 1 8 9 0 false.

Definition host0 : Host :=
  mkHost (λ _, KeyFound key0) (λ _, Some []) (λ _ _ _ _, ADone (joined SDK_ERROR "none")) (λ _ _ _, inr ("", 0))
    (λ _, "[]") (λ _, "[]") (λ _, "{}") id (λ _, "{}") (λ ok code msg text, if ok then text else code)
    (λ _, None) (λ o, mkICCallOptions [] (String.eqb o "try")) id.

(** Go on when a host call succeeded; the machine stops the run when it did not. *)
Definition then_ (k : guest entry_end) (r : option string) (_ : Z) : guest entry_end :=
  match r with Some _ => k | None => GEnd (EntryErr 300000 "terminated") end.

Definition done_ (text : string) : guest entry_end := GEnd (EntryRet 300000 1 (Some text)).

Definition program (entry : string) : guest entry_end :=
  if String.eqb entry "pay" then GCall 100 (Sdk (hive_draw "10" "hive")) (then_ (done_ "paid"))
  else if String.eqb entry "abort" then
    GCall 100 (Sdk (db_set_object "k" "v")) (then_ (GCall 200 (Abort "no") (then_ (done_ ""))))
  else if String.eqb entry "try" then GCall 100 (Sdk (contracts_call "c2" "abort" "" "try")) (then_ (done_ "caught"))
  else if String.eqb entry "write" then GCall 100 (Sdk (db_set_object "k" "a value of forty bytes, or a little more")) (then_ (done_ "written"))
  else if String.eqb entry "read" then GCall 100 (Sdk (db_get_object "q")) (then_ (done_ "read"))
  else if String.eqb entry "sign" then GCall 100 (Sdk (tss_sign_key "k" "msg")) (then_ (done_ "signed"))
  else if String.eqb entry "burn" then GEnd (EntryRet 900000000 1 None)
  else GEnd (EntryErr 0 "wasm function not found").

Definition alloc_of (entry : string) : guest alloc_end := GEnd (AllocOk (program entry)).

(** The third contract is compiled from Go, and its initialisation aborts. *)
Definition contract_of (id : string) : contract_read :=
  if String.eqb id "c1" || String.eqb id "c2" then ContractFound (mkContract "cid" "hive:owner" AssemblyScript)
  else if String.eqb id "c3" then ContractFound (mkContract "cid" "hive:owner" Go)
  else ContractMissing.

Definition machine0 : Machine :=
  mkMachine (λ id _, contract_of id) (λ _, CodeFound "code")
    (λ _ _ entry _ _, Loaded (GCall 0 (Abort "init") (λ _ _, GEnd (alloc_of entry))) (alloc_of entry)).

(** The chain runs version 0.9; Hive accounts have an allowance of 10000. *)
Definition engine0 : Engine :=
  mkEngine "net" params0 (λ _, Some previous0) ∅ (λ _ _, false) (λ _ _, (false, 0, false)) (λ _ _, false) ∅ false 10000 ∅
    (λ _, false) (λ _ _, "bad amount").

Definition alice_auth : TxSelf := mkTxSelf "t1" "b1" 10 0 0 "" ["hive:alice"] [].

Definition intent0 : Intent := mkIntent "transfer.allow" {["limit" := "0.015"; "token" := "hive"]}.

Definition call_of (entry : string) : VSCTransaction :=
  TxVscCallContract (mkCallFields alice_auth "net" "" "c1" entry "" 500 [intent0]).

Definition pay_bob (amount : string) : VSCTransaction :=
  TxVSCTransfer (mkTxFields alice_auth "net" "hive:alice" "hive:bob" amount "hive" "").

Definition slot0 : slot := mkSlot ∅ ∅ ∅ ∅ [] 0 [].

Definition packet (ops : list VSCTransaction) : TxPacket := mkTxPacket "t1" ops false "".

Definition run_tx0 (s : slot) (ops : list VSCTransaction) := exec_tx host0 machine0 engine0 st0 NewSession s (packet ops).

(** ** Contract calls *)

Definition env_alice : Environment :=
  mkEnvironment "c1" "hive:owner" 10 "t1" "b1" 0 0 "" ["hive:alice"] [] "hive:alice" "hive:alice" [intent0] ∅.

Definition gates0 : gates := mkGates false true true false false.

(** Alice allows 15 units; the contract draws 10. *)
Lemma call_within_intents_witness :
  let x' := (Execute st0 host0 machine0 20 "code" AssemblyScript "pay" "" 50000000
               (mkX (New env_alice 500 0 50000000 gates0) NewSession (NewCallSession ∅))).2 in
  taken_from "hive:alice" "hive" (oplog (x_ledger x')) = 10 ∧
  ∃ new, oplog (x_ledger x') = [] ++ new ∧ Forall (event_ok env_alice) new ∧
    ∀ asset, taken_from "hive:alice" asset new <= limit_left (token_limits [intent0]) asset.
Proof.
  split; [eval_done|].
  apply (call_within_intents st0 host0 machine0 20 "code" AssemblyScript "pay" "" 50000000 env_alice 500 0 gates0 NewSession
    (NewCallSession ∅)). reflexivity.
Defined.

(** The second contract writes and aborts; its caller goes on from the state it
    had. *)
Definition x0 : xstate := mkX (New env_alice 500 0 50000000 gates0) NewSession (NewCallSession ∅).

Lemma failed_try_undone_witness :
  ∃ res, wr_Error res = Some "no" ∧
  ContractCall host0 machine0 (Some (Execute st0 host0 machine0 3)) "c2" "abort" "" "try" x0
  = (Returned (inr (RUNTIME_ABORT, wr_Gas res)), x0).
Proof.
  set (c := x_ctx x0).
  destruct (in_context (New (nested_env (env c) "c2" "hive:owner" []) (rcLimit c) 0 (gas_remaining c) (ctx_gates c))
    (Execute st0 host0 machine0 3 "code" AssemblyScript "abort" "" (gas_remaining c)) x0) as [[res| |] x1] eqn:Hrun;
    [|exfalso; revert Hrun; vm_compute; discriminate..].
  assert (wr_Error res = Some "no" ∧ wr_ErrorCode res = RUNTIME_ABORT) as [He Hc].
  { revert Hrun. vm_compute. intros [= <- _]. split; reflexivity. }
  exists res. split; [exact He|].
  rewrite (failed_try_undone st0 host0 machine0 3 "c2" "abort" "" "try" (mkContract "cid" "hive:owner" AssemblyScript) "code" res "no" x0 x1
    eq_refl eq_refl eq_refl eq_refl Hrun He).
  simpl. rewrite Hc. reflexivity.
Defined.

(** ** Transactions *)

(** A transfer followed by a call that aborts: both are charged, nothing else
    happens. *)
Lemma failed_tx_undone_witness :
  ∃ st' ses' s', run_tx0 slot0 [pay_bob "0.010"; call_of "abort"] = Some (st', ses', s') ∧
    st' = st0 ∧ same_outputs slot0 s' ∧ tx_charged [pay_bob "0.010"; call_of "abort"] false slot0 s'.
Proof.
  destruct (run_tx0 slot0 [pay_bob "0.010"; call_of "abort"]) as [[[st' ses'] s']|] eqn:Hx; [|exfalso; revert Hx; vm_compute; discriminate].
  exists st', ses', s'. split; [reflexivity|].
  assert (TxOutputs s' !! "t1" = Some (mkTxOutput false [])) as Hout.
  { assert ((λ r, TxOutputs r.2 !! "t1") <$> run_tx0 slot0 [pay_bob "0.010"; call_of "abort"] = Some (Some (mkTxOutput false []))) as He
      by eval_done. rewrite Hx in He. injection He as He. exact He. }
  destruct (failed_tx_undone host0 machine0 engine0 st0 NewSession slot0 (packet [pay_bob "0.010"; call_of "abort"]) st' ses' s'
    (mkTxOutput false []) ltac:(split; reflexivity) eq_refl Hx Hout eq_refl) as (Hst & Hs & _ & _ & Hc).
  split; [exact Hst|]. split; [exact Hs|exact Hc].
Defined.

(** A batch of one payment and one call that draws. *)
Definition batch0 : list TxPacket := [packet [pay_bob "0.010"]; mkTxPacket "t2" [call_of "pay"] false ""].

Definition run_batch0 := ExecuteBatch host0 machine0 engine0 map_to_list (Some 9) 10 batch0 st0 slot0.

Lemma batch_authorised_witness :
  ∃ st' s', run_batch0 = Some (st', s') ∧
  ∃ outs, Forall2 outcome_ok batch0 outs ∧ ls_Oplog st' = [] ++ concat outs.*2 ∧ length (ls_Oplog st') = 2%nat.
Proof.
  destruct run_batch0 as [[st' s']|] eqn:Hx; [|exfalso; revert Hx; vm_compute; discriminate]. exists st', s'. split; [reflexivity|].
  assert (length ∘ ls_Oplog ∘ fst <$> run_batch0 = Some 2%nat) as Hl by eval_done. rewrite Hx in Hl. injection Hl as Hl.
  destruct (batch_authorised host0 machine0 engine0 map_to_list (Some 9) 10 batch0 st0 slot0 st' s' Hx) as (outs & Hf & Ho & _).
  exists outs. split; [|split; [exact Ho|exact Hl]].
  assert (filter reported batch0 = batch0) as He by eval_done. rewrite He in Hf. exact Hf.
Defined.

(** An offchain transaction of alice that pays bob and calls a contract. *)
Definition off0 : OffchainTransaction :=
  mkOffchainTransaction alice_auth "t1" (mkVSCTransactionHeader 0 ["hive:alice"] 1000 "net")
    [mkVSCTransactionOp "transfer" (Some (JObj [("from", JStr "hive:alice"); ("to", JStr "hive:bob"); ("amount", JStr "0.010"); ("asset", JStr "hive")]));
     mkVSCTransactionOp "call" (Some (JObj [("contract_id", JStr "c1"); ("action", JStr "write"); ("rc_limit", JNum "500")]))].

Definition raw0 (j : json) : string := "".

Lemma signed_tx_takes_own_witness :
  ∃ ops st' ses' s', ToTransaction raw0 version9 off0 = Some ops ∧
    exec_tx host0 machine0 engine0 st0 NewSession slot0 (mkTxPacket "t1" ops false "") = Some (st', ses', s') ∧
    length (ls_Oplog st') = 1%nat ∧
    ∃ new, ls_Oplog st' = [] ++ new ∧
      Forall (λ e, 0 < op_Amount e ∧ (op_From e ∈ ["hive:alice"] ∨ is_contract (op_From e) = true)) new.
Proof.
  destruct (ToTransaction raw0 version9 off0) as [ops|] eqn:Hops; [|exfalso; revert Hops; vm_compute; discriminate].
  assert (ToTransaction raw0 version9 off0 ≫= (λ ops, length ∘ ls_Oplog ∘ fst ∘ fst <$>
    exec_tx host0 machine0 engine0 st0 NewSession slot0 (mkTxPacket "t1" ops false "")) = Some 1%nat) as Hl by eval_done.
  rewrite Hops in Hl. cbn [mbind option_bind] in Hl.
  destruct (exec_tx host0 machine0 engine0 st0 NewSession slot0 (mkTxPacket "t1" ops false "")) as [[[st' ses'] s']|] eqn:Hx; [|discriminate].
  injection Hl as Hl. exists ops, st', ses', s'. split; [reflexivity|]. split; [exact Hx|]. split; [exact Hl|].
  apply (signed_tx_takes_own host0 machine0 engine0 raw0 version9 off0 ops "" st0 NewSession slot0 st' ses' s' Hops);
    [|reflexivity|split; reflexivity|exact Hx].
  repeat constructor; cbn; vm_compute; discriminate.
Defined.

Lemma ledger_tx_solvent_witness :
  ∃ st' ses' s', run_tx0 slot0 [pay_bob "0.010"; pay_bob "0.200"] = Some (st', ses', s') ∧
    solvent (λ a x, SnapshotForAccount st' a 10 x) ∧ fresh_session ses'.
Proof.
  unfold run_tx0. apply (ledger_tx_solvent host0 machine0 engine0 st0 10 NewSession slot0 (packet [pay_bob "0.010"; pay_bob "0.200"]));
    [|split; [split; reflexivity|reflexivity]|apply st0_solvent].
  do 2 (apply Forall_cons; split; [split; [reflexivity|exact I]|]). apply Forall_nil. exact I.
Defined.

(** ** Resource credits *)

(** Alice has 600 frozen since block 100 and uses 50 more in the slot that ends
    at block 14500, a tenth of the period later. *)
Definition rcs0 : rcs := {["hive:alice" := {[100 := 600]}]}.

Lemma rc_charge_frozen_witness :
  GetFrozenAmt false (UpdateRcMap map_to_list no_snapshots two_accounts 10000 (λ _, false) {["hive:alice" := 50]} 14500 rcs0) "hive:alice" 14500 = 590.
Proof.
  rewrite (rc_charge_frozen no_snapshots two_accounts 10000 map_to_list rcs0 {["hive:alice" := 50]} 14500 14500 "hive:alice").
  - clear. vm_compute. reflexivity.
  - intros m. reflexivity.
  - intros a m k v Ha Hk. unfold rcs0 in Ha. apply lookup_singleton_Some in Ha as [_ <-]. apply lookup_singleton_Some in Hk as [<- <-]. unfold MaxInt64. lia.
  - lia.
  - unfold MaxUint64. lia.
  - apply map_Forall_singleton. split; [lia|]. clear. vm_compute. discriminate.
Defined.

(** Of three requests the one that would exceed the budget is refused. *)
Definition requests0 : list (string * Z) := [("hive:alice", 9000); ("hive:alice", 1500); ("hive:alice", 1000)].

Lemma st0_hbd a : SnapshotForAccount st0 a 10 "hbd" = 0.
Proof. rewrite st0_balances, !decide_False; [reflexivity| |]; intros [_ ?]; discriminate. Qed.

Lemma rc_session_bounded_witness :
  granted_to "hive:alice" (consume_all st0 10000 ∅ 10 requests0 ∅ NewSession).1.1 = 10000 ∧
  granted_to "hive:alice" (consume_all st0 10000 ∅ 10 requests0 ∅ NewSession).1.1 <= Z.max 0 (budget st0 10000 ∅ 10 NewSession "hive:alice").
Proof.
  split; [eval_done|]. destruct (consume_all st0 10000 ∅ 10 requests0 ∅ NewSession) as [[gs m] ses'] eqn:Hrun.
  apply (rc_session_bounded st0 10000 ∅ 10 requests0 NewSession gs m ses' "hive:alice");
    [apply coherent_empty| |repeat constructor; unfold MaxInt64; cbn; lia|reflexivity|exact Hrun].
  intros a. cbn zeta. change (ledgerOps NewSession) with (@nil LedgerUpdate). rewrite view_nil, st0_hbd. unfold with_allowance.
  assert (GetFrozenAmt false ∅ a 10 = 0) as -> by (unfold GetFrozenAmt, GetRecord; rewrite lookup_empty; reflexivity).
  destruct (HasPrefix a "hive:"); vm_compute; split; split; discriminate.
Defined.

(** ** The state of a contract *)

Definition keys0 : gset string := {["a/x"; "b"]}.

Lemma keys0_ok : keys_ok keys0.
Proof.
  assert (∀ k, k ∈ keys0 → k = "a/x" ∨ k = "b") as Hk by set_solver.
  intros k [-> | ->]%Hk; (split; [by apply (bool_decide_unpack _); vm_compute|]);
    intros k' [-> | ->]%Hk Hne; try congruence; intros [l Hl]; vm_compute in Hl; discriminate.
Qed.

(** A transaction that writes two keys, one that fails, one that deletes. *)
Definition txs0 : list (list store_op * bool) :=
  [([SSet "a/x" "1"; SSet "b" "2"], true); ([SSet "b" "3"], false); ([SGet "b"; SDelete "a/x"], true)].

Definition empty_output : TempOutput := mkTempOutput ∅ (mkContractMetadata 0 0) ∅ "".

Lemma contract_state_persisted_witness :
  bin_Get "b" (persist (foldl run_tx empty_output txs0)) = Some "2" ∧
  default "" (bin_Get "b" (persist (foldl run_tx empty_output txs0)))
  = foldl kv_tx (sess_view (NewContractSession empty_output)) txs0 "b".
Proof.
  split; [eval_done|].
  apply (@contract_state_persisted no_state (λ _, eq_refl) keys0 txs0 empty_output "b");
    [apply keys0_ok| |repeat constructor; unfold keys0; set_solver|unfold keys0; set_solver].
  split; [set_solver|]. split; [set_solver|]. split; [|intros k Hk; discriminate].
  split; [intros d Hd; set_solver|]. intros p v Hp. discriminate.
Defined.

(** ** Where the code goes wrong *)

(** A tree with one value whose bytes cannot be read: a transaction that reads the key
    and succeeds leaves the empty value in the tree that is saved. *)
Definition unreadable : StateSource :=
  {| load_bin := λ _, bin_Set "b" "2" NewDataBin; raw_readable := λ _, false; last_output := λ _, None |}.

Lemma failed_read_saved :
  let out := mkTempOutput ∅ (mkContractMetadata 0 0) ∅ "root" in
  bin_Get "b" (@base_bin unreadable "root") = Some "2" ∧
  bin_Get "b" (@persist unreadable (@run_tx unreadable out ([SGet "b"], true))) = Some "".
Proof. split; eval_done. Qed.

(** The results of a reverted transaction are reported.  A call that asks for a
    signature succeeds, then a transfer of the same transaction fails: the
    transaction has failed and the ledger is unchanged, but the result of the
    call, marked as successful and with its signing request, is among the results
    of the slot. *)
Lemma reverted_call_reported :
  (λ r, (TxOutputs r.2 !! "t1", default [] (ContractResults r.2 !! "c1"))) <$> run_tx0 slot0 [call_of "sign"; pay_bob "5.000"]
  = Some (Some (mkTxOutput false []),
          [mkContractResult true "signed" None "" "t1" [] [mkTssOp "sign" "c1-k" "msg" 0]]).
Proof. eval_done. Qed.

(** The end of the initialisation is ignored, so the failure it sent is still in
    the channel when the entry point fails: the engine waits for ever. *)
Lemma second_failure_blocks :
  run_tx0 slot0 [TxVscCallContract (mkCallFields alice_auth "net" "" "c3" "abort" "" 500 [])] = None.
Proof. eval_done. Qed.

(** A call that has used 9000 credits and returns no text is charged 100. *)
Lemma panic_undercharged :
  (λ r, RcMap r.2 !! "hive:alice") <$> run_tx0 slot0 [call_of "burn"] = Some (Some 100).
Proof. eval_done. Qed.

(** Host functions are charged after they have run: a write within a limit of 100
    credits costs more than the limit. *)
Definition small_limit (entry : string) : VSCTransaction :=
  TxVscCallContract (mkCallFields alice_auth "net" "" "c1" entry "" 100 []).

Lemma limit_exceeded :
  ∃ used, (λ r, RcMap r.2 !! "hive:alice") <$> run_tx0 slot0 [small_limit "write"] = Some (Some used) ∧ 100 < used.
Proof.
  destruct ((λ r, RcMap r.2 !! "hive:alice") <$> run_tx0 slot0 [small_limit "write"]) as [[used|]|] eqn:E;
    [|exfalso; revert E; vm_compute; discriminate..].
  exists used. split; [reflexivity|]. revert E. vm_compute. intros [= <-]. reflexivity.
Qed.

(** The credits spent by the earlier transactions of a slot are not counted: with
    all her credits already used in the slot, alice still makes a call. *)
Lemma credits_spent_twice :
  (λ r, (txo_Ok <$> TxOutputs r.2 !! "t1", RcMap r.2 !! "hive:alice")) <$>
    run_tx0 (with_rc "hive:alice" 10000 slot0) [call_of "pay"]
  = Some (Some true, Some 10100).
Proof. eval_done. Qed.

(** Reading a key that does not exist stores an empty value under it. *)
Lemma read_stores_empty :
  (λ r, bin_Get "q" (persist (output_of r.2 "c1"))) <$> run_tx0 slot0 [call_of "read"] = Some (Some "").
Proof. eval_done. Qed.

(** A payload that names the victim in a member [self] spends the victim's
    balance, whoever posts it. *)
Definition anchor : TxSelf := mkTxSelf "t1" "b1" 10 0 0 "" [] [].

Definition forged : CustomJson :=
  mkCustomJson "vsc.transfer" ["mallory"] []
    (Some (JObj [("self", JObj [("requiredAuths", JArr [JStr "hive:alice"])]); ("net_id", JStr "net");
                 ("from", JStr "hive:alice"); ("to", JStr "hive:mallory"); ("amount", JStr "0.100"); ("asset", JStr "hive")])).

Lemma forged_transfer_executed :
  (v ← hive_op raw0 anchor forged;
   r ← run_tx0 slot0 [v];
   Some ((λ e, (op_From e, op_To e, op_Amount e)) <$> ls_Oplog r.1.1))
  = Some [("hive:alice", "hive:mallory", 100)].
Proof. eval_done. Qed.
