(* ===== verification/VaultExamples.v ===== *)
(** Concrete runs of the threshold signatures and of the vault: the theorems of
    [BtcVault], [VaultScope], [TssKeys], [TssParties] and [TssTick] applied where their
    hypotheses hold, and the behaviours the comments of the code do not describe. *)
From S2P Require Import Prelude GoMaps GoSlices GoStrings GoEncoding ConsensusVersion BlsQuorum BlsCircuit TssDb GoJson BtcVault VaultScope ContractSession TssKeys TssParties TssTick.

(** ** A committee of six with one banned member *)

Definition v12 : Version := mkVersion 0 12 0.

Definition seat (a : string) : ElectionMember := mkElectionMember ("key-" +:+ a) a true 0 12 0.

Definition six : list string := ["a"; "b"; "c"; "d"; "e"; "f"].

Definition election6 (epoch : Z) : ElectionResult := mkElectionResult epoch "staked" (seat <$> six) [1; 1; 1; 1; 1; 1] 12 0 0 (epoch * 100).

(** The last committee of the key, and three blames of one member in the epoch before. *)
Definition commitment6 : TssCommitment := mkTssCommitment "keygen" 450 4 (b64_encode url_char (Bytes 63)) "key1" "tx1" None "".

Definition blame6 (h : Z) : TssCommitment := mkTssCommitment "blame" h 4 (b64_encode url_char (Bytes 32)) "key1" "tx2" None "".

Definition reads6 : tss_reads := mkTssReads
  (λ epoch, if (1 <=? epoch) && (epoch <=? 5) then Some (election6 epoch) else None)
  (λ h, if 500 <? h then Some (election6 5) else None)
  (λ epoch limit, election6 <$> [4; 3; 2; 1])
  (λ epoch, if epoch =? 4 then [blame6 440; blame6 441; blame6 442] else [])
  (λ _ _ _ _ _, [])
  (λ keyId _ _, if String.eqb keyId "key1" then Some commitment6 else None).

(** Everyone but [e] attested. *)
Definition attested6 : gmap string Version := list_to_map ((λ a, (a, v12)) <$> ["a"; "b"; "c"; "d"; "f"]).

Definition order6 (m : gmap string Z) : list (string * Z) := map_to_list m.
Definition eorder6 (m : gmap Z ElectionResult) : list (Z * ElectionResult) := map_to_list m.

Definition view6 : tss_view := mkTssView reads6 eorder6 order6 (λ l, l) 600 v12 attested6
  (mkSignerSet ∅ ∅ ∅ ∅ ∅ ∅ false false) (λ _ _, false) (λ _, 4) "a".

Definition actions6 : list QueuedAction := [mkAction ReshareAction "key1" [] "ecdsa"; mkAction SignAction "key1" [1; 2] "ecdsa"; mkAction KeyGenAction "key2" [] "ecdsa"].

Definition mgr0 : tss_mgr := mkTssMgr ∅ ∅ ∅ ∅ [].

Lemma range6 : range_ok order6.
Proof. by intros m. Qed.

Lemma erange6 : erange_ok eorder6.
Proof. by intros m. Qed.

Lemma six_NoDup epoch : NoDup (accounts_of (election6 epoch)).
Proof. change (accounts_of (election6 epoch)) with six. by apply (bool_decide_unpack _). Qed.

Lemma reads6_ok : reads_ok reads6.
Proof.
  split; cbn.
  - intros epoch e. destruct (_ && _); [|done]. intros [= <-]. apply six_NoDup.
  - intros h e. destruct (500 <? h); [|done]. intros [= <-]. apply six_NoDup.
Qed.

Definition bans6 : ScoreMap := BlameScore reads6 eorder6 order6 (election6 5).

(** The member that was blamed is banned, and let back in where it is needed. *)
Example banned6 : BanOrder bans6 = ["f"].
Proof. by vm_compute. Qed.

Definition sessions6 : list Dispatcher := mg_dispatchers (RunActions view6 true actions6 mgr0).

Example parties6 :
  (λ d, match d with
        | KeyGenDispatcher _ _ _ ps _ _ => (ps, [])
        | SignDispatcher _ _ _ ps _ _ _ _ => (ps, [])
        | ReshareDispatcher _ _ _ old new _ _ _ _ _ _ => (old, new)
        end) <$> sessions6 =
  [(["a"; "b"; "c"; "d"], ["a"; "b"; "c"; "d"; "f"]); (["a"; "b"; "c"; "d"], []); (["a"; "b"; "c"; "d"; "e"], [])].
Proof. by vm_compute. Qed.

Lemma sessions_safe_witness : Forall (session_safe view6) sessions6 ∧ length sessions6 = 3%nat.
Proof.
  split; [|by vm_compute]. apply Forall_forall. intros d Hd.
  exact (sessions_safe view6 true actions6 mgr0 d reads6_ok range6 eq_refl Hd).
Defined.

Lemma bans_safe_witness : 4 <= len (filter (λ a, a ∉ BannedNodes bans6) six) ∧ "f" ∈ BannedNodes bans6.
Proof.
  split; [|apply (bool_decide_unpack _); vm_compute; exact I].
  apply (bans_safe reads6 eorder6 order6 (election6 5) range6 erange6 (six_NoDup 5)). discriminate.
Defined.

Lemma rotation_not_starved_witness :
  ∃ old new, reshare_parties reads6 order6 true 600 v12 attested6 bans6 (election6 5) "key1" = ReshareChosen commitment6 old new 6.
Proof.
  exact (rotation_not_starved reads6 eorder6 order6 true 600 v12 attested6 (election6 5) "key1" commitment6 (election6 4)
    reads6_ok range6 eq_refl (six_NoDup 5) ltac:(vm_compute; discriminate) eq_refl eq_refl eq_refl
    ltac:(vm_compute; discriminate) ltac:(vm_compute; discriminate)).
Defined.

(** ** Keys in turn, and the actions of a block *)

Definition active_key (id : string) : TssKey := mkTssKey id "active" "pub" "" "ecdsa" 1 3 10 20 0 false.

Definition six_keys : list TssKey := active_key <$> ["k1"; "k2"; "k3"; "k4"; "k5"; "k6"].

(** The last key waits for the second of two rotate blocks. *)
Example window6 : tk_Id <$> reshareWindow six_keys 600 100 = ["k1"; "k2"; "k3"; "k4"] ∧ tk_Id <$> reshareWindow six_keys 700 100 = ["k5"; "k6"; "k1"; "k2"].
Proof. split; by vm_compute. Qed.

Lemma every_key_has_a_turn_witness :
  ∃ j, 0 <= j ∧ j * MAX_RESHARES_PER_ROTATE < 6 ∧ active_key "k6" ∈ reshareWindow six_keys ((6 + j) * 100) 100.
Proof.
  apply (every_key_has_a_turn six_keys 100 6 (active_key "k6")); [done|done|by vm_compute|].
  unfold six_keys. apply list_elem_of_fmap_2. by apply (bool_decide_unpack _).
Defined.

Definition keys_db : keydb := list_to_map ((λ k, (tk_Id k, k)) <$> six_keys).

Definition pending_db : requestdb := {[ ("k6", "0102") := mkTssRequest SignPending "k6" "0102" "" ]}.

Definition tick6 : tick_env := mkTickEnv 600 100 50 true (Some 5) keys_db (λ _, false) false (λ _, false).

Definition state6 : tick_state := mkTickState pending_db ∅ [] ∅.

Definition chosen (r : option (list QueuedAction * tick_state)) : option (list (actionType * string)) :=
  match r with Some (actions, _) => Some ((λ a, (qa_Type a, qa_KeyId a)) <$> actions) | None => None end.

Example actions_at_600 :
  chosen (BlockTick tick6 state6) =
  Some [(ReshareAction, "k1"); (ReshareAction, "k2"); (ReshareAction, "k3"); (ReshareAction, "k4"); (SignAction, "k6")].
Proof. by vm_compute. Qed.

Lemma keys_db_ok : keys_ok keys_db.
Proof.
  intros id k Hk. unfold keys_db in Hk. apply elem_of_list_to_map_2 in Hk.
  apply list_elem_of_fmap in Hk as (k' & [= -> ->] & _). done.
Qed.

Lemma actions_exclusive_witness :
  ∃ actions s', BlockTick tick6 state6 = Some (actions, s') ∧ NoDup (qa_KeyId <$> filter ceremony actions).
Proof.
  destruct (BlockTick tick6 state6) as [[actions s']|] eqn:Ht; [|by vm_compute in Ht]. exists actions, s'. split; [done|].
  exact (proj1 (actions_exclusive tick6 state6 actions s' keys_db_ok eq_refl Ht)).
Defined.

(** A reshare that was queued earlier runs beside a signature of its key: the locks of
    the queue are set after the signatures have been chosen. *)
Example queued_reshare_beside_sign :
  chosen (BlockTick (mkTickEnv 650 100 50 true (Some 5) keys_db (λ _, false) false (λ _, false))
            (mkTickState pending_db ∅ [mkAction ReshareAction "k6" [] "ecdsa"] ∅)) =
  Some [(SignAction, "k6"); (ReshareAction, "k6")].
Proof. by vm_compute. Qed.

(** ** Readiness and signatures *)

(** A signature that is the key and the message themselves. *)
Definition toy_sig (k m : string) : list Z := take 96 (string_bytes (k +:+ m) ++ repeat 0 96).

#[local] Instance toy_bls : BlsLib (list Z) := {|
  pubkey_ok k := true;
  sig_Deserialize l := Some l;
  sig_Serialize s := s;
  bls_Aggregate l := hd [] l;
  bls_Verify k m s := bool_decide (s = toy_sig k m);
  bls_VerifyAgg keys m s := Some (existsb (λ k, bool_decide (s = toy_sig k m)) keys);
|}.

Definition toy_cid (a : string) (h : Z) (v : Version) : option string := Some (a +:+ "@" +:+ FormatUint h +:+ ":" +:+ Format v).

Definition entry6 (a : string) : option gossip_entry :=
  Some (mkGossipEntry a (b64_encode url_char (toy_sig ("key-" +:+ a) (default "" (toy_cid a 600 v12)))) v12).

(** A bundle with one forged entry. *)
Definition bundle6 : list (option gossip_entry) :=
  (entry6 <$> ["a"; "b"; "c"; "d"]) ++ [Some (mkGossipEntry "e" (b64_encode url_char (toy_sig "key-a" "x")) v12); entry6 "f"].

(** The node is account [a]; its secret key signs as [key-a]. *)
Definition toy_secret (seed : list Z) : option string := if bool_decide (seed = repeat 7 32) then Some "key-a" else None.
Definition seed_a : string := hex_encode (repeat 7 32).

Definition ready6 : ready_env :=
  mkReadyEnv 580 true (mkTssParams 100 50 30) (Some (election6 5)) keys_db false ∅ (λ _, true) (λ _ _, false) (λ _, v12) (tv_retiring view6) 64 (λ _, 64).

(** Block 580 announces the node itself for block 600; the bundle of the others follows. *)
Definition announced6 : ready_state := (ready_tick toy_cid toy_secret toy_sig "a" seed_a v12 ready6 no_ready).1.

Definition store6 : attestations :=
  handleReadyGossip toy_cid [] true (rd_GetElectionByHeight reads6) (tv_retiring view6) (ReadinessAccounts (tv_retiring view6)) 100 580
    (Some (600, Some bundle6)) (rs_store announced6).

Definition gossiped6 : ready_state := mkReadyState 580 store6 (rs_sent announced6) (rs_withheld announced6).

Example announced_itself : attested_at (rs_store announced6) 600 = {["a" := v12]}.
Proof. apply (bool_decide_unpack _). vm_compute. exact I. Qed.

Definition known6 (e : ElectionResult) : Prop := e = election6 5.

Lemma gossiped6_run : rtc (ready_step toy_cid [] toy_secret toy_sig "a" seed_a v12 known6) no_ready gossiped6.
Proof.
  apply (rtc_l _ _ announced6); [apply ready_block|]. apply rtc_once.
  apply (ready_bundle toy_cid [] toy_secret toy_sig "a" seed_a v12 known6 announced6 true (rd_GetElectionByHeight reads6) (tv_retiring view6) 100 (Some (600, Some bundle6))).
  - intros h e. cbn. destruct (500 <? h); [|done]. by intros [= <-].
  - by intros a relec.
  - intros target l [= <- _]. done.
Qed.

Example store6_ready : attested_at store6 600 = attested6.
Proof. apply (bool_decide_unpack _). vm_compute. exact I. Qed.

(** The reshare of the block. *)
Definition reshare6 : Dispatcher := Eval vm_compute in hd (KeyGenDispatcher "" "" "" [] 0 0) sessions6.

Lemma reshare6_started : reshare6 ∈ sessions6.
Proof.
  assert (∀ (l : list Dispatcher) d, hd_error l = Some d → d ∈ l) as Hhd by (intros [|x l] d [= <-]; left).
  apply Hhd. vm_compute. reflexivity.
Qed.

(** The parties of the sessions above attested for the block; the forged entry is not kept. *)
Lemma parties_attested_witness :
  ∃ att, ra_Account att = "f" ∧ ra_TargetBlock att = 600 ∧ genuine toy_cid [] known6 att.
Proof.
  destruct (parties_attested toy_cid [] toy_secret toy_sig "a" seed_a v12 known6 view6 gossiped6 true actions6 mgr0 reshare6 "f" reads6_ok range6
    eq_refl ltac:(done) gossiped6_run (eq_sym store6_ready) reshare6_started) as (atts & att & _ & _ & Ha & Hb & [Hg|[Hself _]] & _).
  - right. apply (bool_decide_unpack _). vm_compute. exact I.
  - exists att. exact (conj Ha (conj Hb Hg)).
  - discriminate Hself.
Defined.

Definition sig_of (a : string) : sig_event := SigArrives (mkSigMsg a (b64_encode url_char (toy_sig ("key-" +:+ a) "commitment"))).

Definition events6 : list sig_event := sig_of <$> ["b"; "a"; "b"; "z"; "c"; "f"; "d"].

Definition start6 : collection (sig := list Z) := mkCollection 0 ∅ (Generate (em_Key <$> el_Members (election6 5)) "commitment").

(** A second signature of one account and one of a stranger count for nothing. *)
Lemma collection_has_quorum_witness :
  ∃ c, collectSigs (election6 5) 6 false start6 events6 = Collected true c ∧ 2 * 6 <= 3 * seats_weight (co_accounts c) (seat <$> six) [1; 1; 1; 1; 1; 1].
Proof.
  destruct (collectSigs (election6 5) 6 false start6 events6) as [| |[] c] eqn:Hc; [by vm_compute in Hc..| |by vm_compute in Hc].
  exists c. split; [done|]. eapply (collection_has_quorum (election6 5)); [apply six_NoDup| | |exact Hc].
  - repeat first [apply Forall_nil_2 | apply Forall_cons_2]; done.
  - by vm_compute.
Defined.

(** ** A vault with a generation that is being retired *)

(** A transaction with one output whose script is its bytes; the digest is that output. *)
#[local] Instance toy_btc : BtcLib := {|
  Sum256 l := l;
  ParseTx raw := Some (mkMsgTx 1 [mkTxOut 7 raw]);
  CalcWitnessSigHash tx i ws amt := match tx_Outs tx with [o] => Some (out_Value o :: out_PkScript o) | _ => None end;
  msgp_read raw := Some (MMap [("tx", MBin raw); ("uh", MArr [MMap [("i", MInt 0); ("hs", MBin (7 :: raw)); ("am", MInt 5)]])]);
|}.

#[local] Instance toy_commits : SighashCommits.
Proof.
  split. cbn. intros [n1 outs1] i ws amt [n2 outs2] i' ws' amt' h. cbn.
  destruct outs1 as [|[v1 p1] []], outs2 as [|[v2 p2] []]; try done. cbn. congruence.
Qed.

Definition old_vault : Vault := mkVault 0 (repeat 2 33) (repeat 3 33) VaultRetiring 0 10 11 12 0.
Definition new_vault : Vault := mkVault 1 (repeat 4 33) (repeat 5 33) VaultActive 0 20 21 0 0.
Definition vaults2 : list Vault := [old_vault; new_vault].

Lemma repeat_bytes b n : byte_ok b → Forall byte_ok (repeat b n).
Proof. intros Hb. induction n; [constructor|]. by constructor. Qed.

Lemma vaults2_ok : Forall vault_ok vaults2.
Proof.
  apply Forall_cons. split; [|apply Forall_singleton]; split; cbn; rewrite ?Forall_cons; unfold u32, MaxUint32; try split_and!;
    try done; try lia; try (apply repeat_bytes; unfold byte_ok; lia).
Qed.

Definition registry2 : list Z := concat (write_vault <$> vaults2).

(** The registry of two generations is written and read back. *)
Lemma registry_exact_witness : UnmarshalVaultRegistry registry2 = Some vaults2.
Proof.
  apply (registry_exact registry2 vaults2).
  - apply (bool_decide_unpack _). vm_compute. exact I.
  - split; [apply vaults2_ok|done].
Defined.

Definition successor_script : list Z := p2wsh (witness_script (repeat 4 33) (repeat 5 33) 4320).

Definition state2 (key : string) : state_read :=
  if String.eqb key "v" then ReadBytes registry2
  else if String.eqb key "p" then ReadBytes (repeat 9 32)
  else if String.eqb key ("d-" +:+ hex_encode (repeat 9 32)) then ReadBytes successor_script
  else ReadAbsent.

Lemma state2_bytes key raw : state2 key = ReadBytes raw → Forall byte_ok raw.
Proof.
  unfold state2. destruct (String.eqb _ _); [intros [= <-]; apply (bool_decide_unpack _); vm_compute; exact I|].
  destruct (String.eqb _ _); [intros [= <-]; apply (bool_decide_unpack _); vm_compute; exact I|].
  destruct (String.eqb _ _); [intros [= <-]; apply (bool_decide_unpack _); vm_compute; exact I|]. done.
Qed.

Definition successor_key (keyId : string) : option TssKey :=
  if String.eqb keyId "c-mainv1" then Some (mkTssKey "c-mainv1" "active" (hex_encode (repeat 4 33)) "" "ecdsa" 1 4 10 20 0 true) else None.

(** Rotation is in force and both halts are up. *)
Definition chain2 : tss_chain := mkTssChain "c" true (Some v12) true true.

(** The retired key signs the sweep to its successor even while signing is halted ... *)
Lemma sign_gate_sound_witness :
  btcSignRefused chain2 state2 successor_key true "c-main" (7 :: successor_script) = false ∧
  ∃ rawV vs v, state2 "v" = ReadBytes rawV ∧ UnmarshalVaultRegistry rawV = Some vs ∧ v ∈ vs ∧
    "c-main" = vault_keyId "c" (v_Generation v) ∧ may_sign chain2 successor_key true vs v (7 :: successor_script).
Proof.
  assert (btcSignRefused chain2 state2 successor_key true "c-main" (7 :: successor_script) = false) as Hr by (vm_compute; reflexivity).
  split; [exact Hr|].
  destruct (sign_gate_sound chain2 state2 successor_key true "c-main" (7 :: successor_script) eq_refl eq_refl state2_bytes Hr) as [(Ha & _)|Hs]; [|exact Hs].
  exfalso. destruct Ha as [Ha|Ha]; vm_compute in Ha; discriminate Ha.
Defined.

(** ... and nothing else. *)
Example other_outputs_refused : btcSignRefused chain2 state2 successor_key true "c-main" [7; 1; 2; 3] = true.
Proof. vm_compute. reflexivity. Qed.

(** ** A key from its creation to its check signature *)

#[local] Instance toy_sigs : SigLib := {|
  ParsePubKey _ := true;
  ParseDERSignature _ := true;
  IsOverHalfOrder _ := false;
  ecdsa_Verify pub msg s := bool_decide (s = pub ++ msg);
  ed25519_Verify pub msg s := bool_decide (s = pub ++ msg);
|}.

#[local] Instance toy_hash : CommitmentHash := {| commitment_cid _ := Some "commitment" |}.

Definition block7 (h : Z) : tss_block := mkTssBlock h v12 true false [election6 5] 0 true "c".

Definition create_op : TssOp := mkTssOp "create" "c-main" "ecdsa" 10.

Definition commitment_json : json :=
  JArr [JObj [("type", JStr "keygen"); ("session_id", JStr "s"); ("key_id", JStr "c-main"); ("commitment", JStr (b64_encode url_char (Bytes 63)));
              ("pub_key", JStr (hex_encode (repeat 4 33))); ("block_height", JNum "610"); ("epoch", JNum "5");
              ("signature", JStr (b64_encode url_char (toy_sig "key-a" "commitment"))); ("bv", JStr (b64_encode url_char (Bytes 31)))]].

(** Created, committed by five of six seats, and signed with: the request for the check
    signature is the one the commitment made. *)
Definition created7 : tss_state := ingest_tss_ops (block7 605) (λ _, false) [create_op] [] empty_tss.
Definition committed7 : tss_state := tss_commitment (block7 620) "tx7" (λ _, (false, false)) commitment_json created7.

Definition check7 : list Z := CheckSigMessage "c-main" 0 (repeat 4 33).

Definition packet_json : json :=
  JObj [("packet", JArr [JObj [("key_id", JStr "c-main"); ("msg", JStr (hex_encode check7)); ("sig", JStr (hex_encode (repeat 4 33 ++ check7)))]])].

Definition signed7 : tss_state := default empty_tss (tss_sign (block7 640) (λ _, false) packet_json committed7).

Definition deprecated7 : tss_state := init_keys signed7.

(** The blocks of a chain with one election. *)
Definition chain7 (b : tss_block) : Prop := tb_elections b = [election6 5].

Lemma run_committed (known : tss_block → Prop) : (∀ h, known (block7 h)) → tss_run_of known empty_tss committed7.
Proof. intros Hk. eapply rtc_l; [apply step_ops, Hk|]. apply rtc_once. apply step_commitment, Hk. Qed.

Lemma signed7_step (known : tss_block → Prop) : (∀ h, known (block7 h)) → tss_step known committed7 signed7.
Proof.
  intros Hk. apply (step_sign known (block7 640) (λ _, false) packet_json); [apply Hk|].
  assert (∀ o : option tss_state, bool_decide (o = None) = false → o = Some (default empty_tss o)) as Hd by (intros [s|] Hn; [reflexivity|discriminate Hn]).
  apply Hd. vm_compute. reflexivity.
Qed.

Lemma run_signed (known : tss_block → Prop) : (∀ h, known (block7 h)) → tss_run_of known empty_tss signed7.
Proof. intros Hk. eapply rtc_r; [by apply run_committed|by apply signed7_step]. Qed.

Example signed7_key :
  (λ k, (tk_Status k, tk_Epoch k, tk_SignatureVerified k)) <$> ts_keys signed7 !! "c-main" = Some ("active", 5, true) ∧
  tr_Status <$> ts_requests signed7 !! ("c-main", hex_encode check7) = Some SignComplete.
Proof. split; vm_compute; reflexivity. Qed.

(** The public key was agreed on by the committee of the chain. *)
Lemma keys_genuine_witness : ∃ k, ts_keys signed7 !! "c-main" = Some k ∧ approved chain7 "c-main" (tk_PublicKey k).
Proof.
  destruct (ts_keys signed7 !! "c-main") as [k|] eqn:Hk; [|vm_compute in Hk; discriminate Hk]. exists k. split; [reflexivity|].
  apply (ok_live chain7 signed7 (keys_genuine chain7 signed7 (run_signed chain7 (λ h, eq_refl))) "c-main" k); [discriminate|exact Hk|].
  assert ((λ k, is_live (tk_Status k)) <$> ts_keys signed7 !! "c-main" = Some true) as Hs by (vm_compute; reflexivity).
  rewrite Hk in Hs. injection Hs as Hs. exact Hs.
Defined.

(** The key stays what it was when it was committed. *)
Lemma keys_permanent_witness :
  ∃ k k', ts_keys committed7 !! "c-main" = Some k ∧ ts_keys signed7 !! "c-main" = Some k' ∧ tk_PublicKey k' = tk_PublicKey k.
Proof.
  destruct (ts_keys committed7 !! "c-main") as [k|] eqn:Hk; [|vm_compute in Hk; discriminate Hk].
  assert (is_live (tk_Status k) = true) as Hl.
  { assert ((λ k, is_live (tk_Status k)) <$> ts_keys committed7 !! "c-main" = Some true) as Hs by (vm_compute; reflexivity).
    rewrite Hk in Hs. by injection Hs. }
  destruct (keys_permanent committed7 signed7 "c-main" k (run_committed _ (λ _, I)) (rtc_once _ _ (signed7_step _ (λ _, I))) ltac:(done) Hk Hl) as (k' & Hk' & _ & Hp & _).
  exists k, k'. exact (conj eq_refl (conj Hk' Hp)).
Defined.

(** ** Bonds and reshares of the vault *)

Definition reader2 : string → option (list Z) := contractStateReaderAt state2.

Lemma reads2 : reads_registry reader2 vaults2.
Proof.
  exists registry2. split_and!; [vm_compute; reflexivity|intros E; vm_compute in E; discriminate E|].
  vm_compute. reflexivity.
Qed.

(** The key of the retired generation is not reshared any more. *)
Lemma reshare_exact_witness :
  shouldSkipReshareForVaultRotation chain2 (retiringGenSignerSet chain2 reader2 [] 600 (λ _, None)) successor_key "c-main" = true.
Proof.
  exact (reshare_exact chain2 reader2 [] 600 (λ _, None) successor_key vaults2 old_vault eq_refl ltac:(discriminate) reads2 vaults2_ok
    ltac:(apply (bool_decide_unpack _); exact I) (list_elem_of_here _ _)).
Defined.

(** A member of the first committee of the retired generation, long out of the election. *)
Definition vault_commitment : TssCommitment := mkTssCommitment "keygen" 450 4 (b64_encode url_char (Bytes 63)) "c-main" "tx1" None "".

Lemma shares_keep_bond_witness :
  HeldShareOfFundedVaultOrBlock
    (heldShareOfFundedVault "c" reader2 [vault_commitment] (λ _, true) (rd_GetElection reads6) false None "hive:e" 600) = true.
Proof.
  apply (shares_keep_bond "c" reader2 [vault_commitment] (λ _, true) 600 (rd_GetElection reads6) false None vaults2 old_vault
    vault_commitment (election6 4) "e" "hive:e"); [discriminate|discriminate|exact reads2| |left|reflexivity|left| |reflexivity| |reflexivity].
  - apply NoDup_singleton.
  - split_and!; [reflexivity|reflexivity|right; right; left].
  - apply (bool_decide_unpack _). vm_compute. exact I.
Defined.
