(* ===== verification/BlockExamples.v ===== *)
(** Concrete runs of the schedule, of the transaction pool and of the blocks of the
    chain: the theorems of [Schedule] and [TxPool] applied where their hypotheses
    hold. *)
From S2P Require Import Prelude GoMaps GoSlices GoStrings GoEncoding ConsensusVersion Schedule BlsQuorum BlsCircuit GoJson TssDb TxIndex TxPool.

(** ** The schedule *)

Definition committee_at (epoch height : Z) (accounts : list string) : ElectionResult :=
  mkElectionResult epoch "staked" ((λ a, mkElectionMember ("k" +:+ a) a true 0 12 0) <$> accounts) ((λ _, 1) <$> accounts) 12 0 0 height.

Definition first_committee : ElectionResult := committee_at 1 100 ["a"; "b"; "c"].
Definition second_committee : ElectionResult := committee_at 2 1300 ["b"; "c"; "d"].

(** A shuffle that reverses. *)
#[local] Instance reversing : Shuffle := {| shuffle_order _ n := reverse (seq 0 n) |}.

Definition seed0 (s : string) : Z := Z.of_nat (String.length s).
Definition hive_ids (h : Z) : option string := Some (FormatUint h).

(** An election is stored, a schedule asked for, and in the same round a newer election
    is stored and a schedule asked for again. *)
Definition memo1 : sched_state :=
  mkSchedState (getScheduleForSlot seed0 [first_committee] hive_ids false false 1250 (onElectionStored first_committee no_memo)).2 [first_committee] 1250.
Definition memo2 : sched_state := mkSchedState (onElectionStored second_committee (en_memo memo1)) [first_committee; second_committee] 1250.

(** Every Hive block can be read but the one before the round of slot 4800. *)
Definition readable (h : Z) : Prop := h ≠ 4799.

Lemma memo2_reached : rtc (memo_step seed0 hive_ids readable) (mkSchedState no_memo [] 0) memo2.
Proof.
  eapply rtc_l; [apply (stored _ _ _ no_memo [] 0 first_committee); [by intros e ?%not_elem_of_nil|done]|].
  eapply rtc_l; [apply (ask _ _ _ _ [first_committee] 0 hive_ids false false 1250); [by intros h|done]|].
  apply rtc_once. apply (stored _ _ _ _ [first_committee] 1250 second_committee); [|done].
  intros e ->%list_elem_of_singleton. done.
Qed.

Lemma memo_exact_witness :
  (getScheduleForSlot seed0 [first_committee; second_committee] hive_ids true false 1320 (en_memo memo2)).1 =
  GetSchedule seed0 [first_committee; second_committee] hive_ids false 1320.
Proof.
  exact (memo_exact seed0 hive_ids readable memo2 1320 hive_ids true memo2_reached ltac:(discriminate) (λ h _, eq_refl) ltac:(by vm_compute)).
Defined.

(** A shuffle that depends on the seed. *)
Definition by_parity : Shuffle := {| shuffle_order seed n := if Z.even seed then seq 0 n else reverse (seq 0 n) |}.

(** One failed read of the Hive block before a round is kept for the whole round. *)
Example default_kept :
  let '(_, m) := @getScheduleForSlot by_parity seed0 [first_committee] (λ _, None) false false 1250 (onElectionStored first_committee no_memo) in
  (@getScheduleForSlot by_parity seed0 [first_committee] hive_ids false false 1260 m).1
  ≠ @GetSchedule by_parity seed0 [first_committee] hive_ids false 1260.
Proof. vm_compute. discriminate. Qed.

(** ** The pool *)

(** One signature for everything, and a codec that knows one transaction. *)
#[local] Instance one_sig : BlsLib unit := {|
  pubkey_ok _ := true;
  sig_Deserialize l := if (length l =? 96)%nat then Some tt else None;
  sig_Serialize _ := repeat 0 96;
  bls_Aggregate _ := tt;
  bls_Verify _ _ _ := true;
  bls_VerifyAgg _ _ _ := Some true;
|}.

#[local] Instance one_sig_laws : BlsLibLaws unit.
Proof.
  refine {| keys_sum_ok _ := True |}; [done| |by intros []|done].
  intros s. cbn. repeat first [apply Forall_nil_2 | apply Forall_cons_2]; unfold byte_ok; lia.
Defined.

Definition tx_json : json :=
  JObj [("__t", JStr "vsc-tx"); ("__v", JStr "0.2");
        ("headers", JObj [("nonce", JNum "7"); ("required_auths", JArr [JStr "did:key:alice"]); ("rc_limit", JNum "500"); ("net_id", JStr "vsc-mainnet")]);
        ("tx", JArr [JObj [("type", JStr "transfer"); ("payload", JStr "AAAA")]])].

Definition sig_json : json := JObj [("__t", JStr "vsc-sig"); ("sigs", JArr [JObj [("alg", JStr "ed25519"); ("sig", JStr "good"); ("kid", JStr "did:key:alice")]])].

#[local] Instance toy_codec : Codec := {|
  cbor_json s := if String.eqb s "tx" then Some tx_json else if String.eqb s "sig" then Some sig_json else None;
  cbor_map _ := Some ∅;
  json_text _ := "";
  cid_sum s := "cid-" +:+ s;
  sign_cid _ := "signed";
  did_Parse d := HasPrefix d "did:key:";
  did_Verify d m s := Some (String.eqb m "signed" && String.eqb s "good");
  ParseBlsDID _ := true;
|}.

#[local] Instance toy_keyhash : KeyHash := {| hash_keys s := String.concat "," (elements s) |}.

Definition pool_env : PoolEnv := mkPoolEnv false {[ "did:key:alice" := 7 ]} false false (Some (Some first_committee)) (Some 200) (λ _ _, 1000) false false.

Definition pool_db : txdb := (IngestTx pool_env (mkSerializedVSCTransaction "tx" (Some "sig")) true ∅).2.

Lemma pool_admission_witness : ∃ r, pool_db !! "cid-tx" = Some r ∧ admitted pool_env ∅ first_committee "cid-tx" r.
Proof.
  destruct (pool_db !! "cid-tx") as [r|] eqn:Hr; [|vm_compute in Hr; discriminate Hr]. exists r. split; [reflexivity|].
  refine (pool_admission pool_env ∅ pool_db first_committee "cid-tx" r (step_ingest _ _ _ _) eq_refl _ Hr _).
  - apply (bool_decide_unpack _). vm_compute. exact I.
  - rewrite lookup_empty. discriminate.
Defined.

(** A key at two seats, the second without weight, is counted twice: the signature of
    [k1] alone, with half of the weight, passes for two thirds. *)
Definition twice : VscDID := mkVscDID ["k1"; "k1"; "k2"] [2; 0; 2] (4 - 4 / 3) (b64_encode url_char (Bytes 3)).

Example key_counted_twice : VscDID_Verify twice "msg" (b64_encode url_char (repeat 0 96)) = Some true.
Proof. vm_compute. reflexivity. Qed.
