(* ===== verification/ProposalExamples.v ===== *)
(** Concrete blocks: one that is posted, applied, and applied again after a crash; an
    incident; a restart; and what a payload that writes over [Self] and an election in
    the middle of a slot lead to. *)
From S2P Require Import Prelude GoMaps GoSlices GoStrings GoEncoding GoJson ConsensusVersion LedgerDb ActionsDb LedgerTypes LedgerState LedgerSystem SafetySlash.
From S2P Require Import Rewards SlashRestore Settlement SettlementApply Schedule BlsQuorum BlsCircuit TssDb TssKeys ContractSession TxIndex Transactions TxPool Batch Proposals BlockApply.
From S2P Require Import MockLedger Examples BlockExamples.

#[local] Existing Instance one_sig.
#[local] Existing Instance toy_keyhash.

(** ** A proposal *)

(** A CID is any text but the empty one; a header is named by its block. *)
#[local] Instance toy_cids : Cids := {|
  cid_Parse s := if String.eqb s "" then None else Some s;
  header_cid h := Some ("header-" +:+ vh_Block h);
|}.

#[local] Instance toy_cids_laws : CidsLaws.
Proof. constructor. intros s c. cbn. destruct (String.eqb s "") eqn:E; [done|]. intros [= <-]. by rewrite E. Qed.

(** The signature of all three seats. *)
Definition circuit0 : SerializedCircuit := Eval vm_compute in Serialize (mkBlsCircuit "header-block1" tt 7 (committee_keys first_committee)).

Definition payload_of (extra : list (string * json)) (block : string) : json :=
  JObj (extra ++
    [("net_id", JStr "vsc-mainnet");
     ("signed_block", JObj [("__t", JStr "vsc-bh"); ("__v", JStr "0.1"); ("headers", JObj [("prevb", JNull); ("br", JArr [JNum "1240"; JNum "1250"])]);
        ("merkle_root", JNull); ("block", JStr block);
        ("signature", JObj [("sig", JStr (sc_Signature circuit0)); ("bv", JStr (sc_BitVector circuit0))])])]).

Definition hive_tx (id : string) (height : Z) : TxSelf := mkTxSelf id "hive-block" height 0 0 "" ["a"] [].

Definition schedule0 : list WitnessSlot := [mkWitnessSlot "a" 1250].
Definition elections0 (h : Z) : option ElectionResult := Some first_committee.

(** Bonds of 10000 that may be slashed at all heights, with a delay of 10 blocks. *)
Definition policy0 : policy := mkPolicy [(0, 0)] (λ _, 10) (λ a _, Some (mkBalanceRecord a 0 0 10000 0 0 0 0 0)).

(** "a" posts a block in its slot, as [hive1]. *)
Definition block1 : TxProposeBlock :=
  mkTxProposeBlock (hive_tx "hive1" 1255) "vsc-mainnet"
    (mkSignedBlockHeader (mkUnsignedBlockHeader "vsc-bh" "0.1" None (1240, 1250) None "block1") circuit0) ["a"; "b"; "c"] 1 3 3.

Lemma posted_valid :
  produce_block policy0 schedule0 elections0 (hive_tx "hive1" 1255) "a" (Some (payload_of [] "block1")) no_faults empty_db = Some (BlockValid, block1, mkFaults {[ "1250|hive:a" := "block1" ]} ∅ ∅, empty_db).
Proof. vm_compute. reflexivity. Qed.

Lemma first_committee_ok : committee_ok first_committee.
Proof. split_and!; [done|done| |vm_compute; discriminate|done]. repeat first [apply Forall_nil_2 | apply Forall_cons_2]; done. Qed.

Lemma block_authorised_witness : 1255 < 1260 ∧ block_signed first_committee block1.
Proof.
  destruct (block_authorised policy0 schedule0 elections0 (hive_tx "hive1" 1255) "a" (Some (payload_of [] "block1")) no_faults empty_db block1 _ _
    first_committee posted_valid) as (_ & _ & Hw & Hs).
  - cbn. repeat first [apply Forall_nil_2 | apply Forall_cons_2]; apply (bool_decide_unpack _); vm_compute; exact I.
  - reflexivity.
  - exact first_committee_ok.
  - split; [exact Hw|exact Hs].
Defined.

(** An election between the start of the slot and the block of Hive that has the
    proposal: the same proposal is invalid, and a tenth of the bond is taken. *)
Definition elections1 (h : Z) : option ElectionResult := Some (if 1253 <=? h then committee_at 2 1253 ["a"; "b"; "c"; "d"; "e"] else first_committee).

Example election_in_slot :
  (λ r, (r.1.1.1, length (map_to_list (rows r.2)))) <$>
    produce_block policy0 schedule0 elections1 (hive_tx "hive1" 1255) "a" (Some (payload_of [] "block1")) no_faults empty_db = Some (BlockInvalid, 2%nat).
Proof. vm_compute. reflexivity. Qed.

(** ** An incident *)

(** A competing proposal, and two invalid ones with two different ids. *)
Definition evidence0 : list evidence :=
  [mkEvidence EvidenceVSCDoubleBlockSign "double" "t1" 1255; mkEvidence EvidenceVSCInvalidBlockProposal "invalid-1" "t1" 1255;
   mkEvidence EvidenceVSCInvalidBlockProposal "invalid-1" "t1" 1256; mkEvidence EvidenceVSCInvalidBlockProposal "invalid-2" "t2" 1257].

Lemma incident_bounded_witness :
  incident_requests policy0 "a" "1250|hive:a" evidence0 no_faults ≠ [] ∧
  zsum ((λ p, slash_formula 10000 (sp_SlashBps p)) <$> incident_requests policy0 "a" "1250|hive:a" evidence0 no_faults) <= 10000.
Proof.
  split; [vm_compute; discriminate|].
  apply (incident_bounded policy0 "a" "1250|hive:a" evidence0 no_faults 10000); [discriminate|reflexivity|unfold_widths; lia].
Defined.

(** ** A restart *)

(** A stranger, then two blocks of the scheduled witness. *)
Definition proposals0 : list (TxSelf * stored_proposal) :=
  [(hive_tx "h0" 1251, mkStoredProposal ["z"] (Some (payload_of [] "other")));
   (hive_tx "h1" 1252, mkStoredProposal ["a"] (Some (payload_of [] "block1")));
   (hive_tx "h2" 1254, mkStoredProposal ["a"] (Some (payload_of [] "block2")))].

Definition stored0 (first last : Z) : option (list stored_proposal) := Some (snd <$> proposals0).

Definition handled0 : option (faults * MockLedgerDb) := handle_all policy0 schedule0 elections0 proposals0 no_faults empty_db.

Lemma restart_remembers_witness :
  seenProposalBySlotProposer (rehydrateDoubleSignMap schedule0 stored0 1256 no_faults) !! "1250|hive:a" = Some "block1".
Proof.
  assert (∃ f s, handled0 = Some (f, s) ∧ seenProposalBySlotProposer f !! "1250|hive:a" = Some "block1") as (f & s & Hh & Hf)
    by (eexists _, _; split; vm_compute; reflexivity).
  etrans; [|exact Hf].
  apply (restart_remembers policy0 schedule0 elections0 stored0 1256 proposals0 no_faults empty_db f s);
    [vm_compute; reflexivity|vm_compute; discriminate|discriminate|reflexivity| |reflexivity|exact Hh].
  repeat first [apply Forall_nil_2 | apply Forall_cons_2]; (split; [vm_compute; reflexivity|eexists; split; [reflexivity|vm_compute; reflexivity]]).
Defined.

(** A first payload that does not decode: the running process has noted the block it
    names, the restarted one has not. *)
Definition spoiled : json := payload_of [("net_id", JNum "1")] "block1".

Example spoiled_forgotten :
  (λ r, seenProposalBySlotProposer r.1.2 !! "1250|hive:a") <$>
    produce_block policy0 schedule0 elections0 (hive_tx "h1" 1252) "a" (Some spoiled) no_faults empty_db = Some (Some "block1") ∧
  seenProposalBySlotProposer (rehydrateDoubleSignMap schedule0 (λ _ _, Some [mkStoredProposal ["a"] (Some spoiled)]) 1256 no_faults) !! "1250|hive:a" = None.
Proof. split; vm_compute; reflexivity. Qed.

(** ** The application of blocks *)

(** [block1] lists one transaction twice, an output and an oplog; [block2] lists it
    again with the next one. *)
Definition tx_of (nonce : string) : json :=
  JObj [("headers", JObj [("nonce", JNum nonce); ("required_auths", JArr [JStr "did:key:alice"]); ("rc_limit", JNum "500"); ("net_id", JStr "vsc-mainnet")]);
        ("tx", JArr [JObj [("type", JStr "transfer"); ("payload", JStr "AAAA")]])].

Definition transfer_json : json := JObj [("from", JStr "did:key:alice"); ("to", JStr "did:key:bob"); ("amount", JStr "1.000"); ("asset", JStr "hive")].

#[local] Instance transfer_codec : Codec := {|
  cbor_json _ := Some transfer_json;
  cbor_map _ := Some ∅;
  json_text _ := "";
  cid_sum s := "cid-" +:+ s;
  sign_cid _ := "signed";
  did_Parse d := true;
  did_Verify d m s := Some true;
  ParseBlsDID _ := true;
|}.

#[local] Instance toy_data : BlockData := {|
  dag_block cid :=
    mkVscBlock (if String.eqb cid "block1" then [mkVscBlockTx "tx1" 1; mkVscBlockTx "tx1" 1; mkVscBlockTx "out1" 2; mkVscBlockTx "log1" 4]
                else [mkVscBlockTx "tx2" 1; mkVscBlockTx "tx1" 1; mkVscBlockTx "log2" 4]) None None;
  dag_size _ := 100;
  dag_json cid := if String.eqb cid "tx1" then Some (tx_of "7") else if String.eqb cid "tx2" then Some (tx_of "8") else None;
  as_output cid id := Some (mkContractOutput id "c1" ["tx0-0"] (mkContractMetadata 0 0) "state1" [] []);
  as_oplog cid self := Some (mkBlockOplog self [] (if String.eqb cid "log1" then [("tx0", true)] else [("tx1", true)]));
  as_settlement _ := None;
  as_reverse _ := None;
|}.

Definition no_committee : settle_env := mkSettleEnv (λ _, Some (committee_at 1 1 [])) (λ _ _, None) (λ _ _, None) (λ _, None) (λ _, None) false.

Definition apply0 : apply_env :=
  mkApplyEnv (λ _, mkVersion 0 12 0) 1250 true (λ _, (no_committee, mkOutcomes true false (λ _, false) true)) (λ _, false)
    (mkTssBlock 1255 (mkVersion 0 12 0) true false [first_committee] 0 true "c") (λ _ _, false).

Definition node0 : node MockLedgerDb MockActionsDb :=
  mkNode ∅ ∅ {[ "did:key:alice" := 7 ]} ∅ empty_tss (NewEmptyState empty_db (λ _ _, None)) no_actions ∅ (mkSlot ∅ ∅ ∅ ∅ [] 0 []) [].

Definition block2 : TxProposeBlock :=
  mkTxProposeBlock (hive_tx "hive2" 1265) "vsc-mainnet"
    (mkSignedBlockHeader (mkUnsignedBlockHeader "vsc-bh" "0.1" None (1250, 1260) None "block2") circuit0) ["a"; "b"; "c"] 1 3 3.

Definition after (t : TxProposeBlock) (nd : node MockLedgerDb MockActionsDb) : node MockLedgerDb MockActionsDb :=
  from_option snd nd (block_ExecuteTx apply0 t nd).

Definition run_ids (t : TxProposeBlock) (nd : node MockLedgerDb MockActionsDb) : list string := from_option (λ r, tp_TxId <$> r.1) [] (block_ExecuteTx apply0 t nd).

Example blocks_run : run_ids block1 node0 = ["tx1"] ∧ run_ids block2 (after block1 node0) = ["tx2"].
Proof. split; vm_compute; reflexivity. Qed.

Lemma block_returns t nd :
  is_Some (block_ExecuteTx apply0 t nd) → block_ExecuteTx apply0 t nd = Some (from_option fst [] (block_ExecuteTx apply0 t nd), after t nd).
Proof. unfold after. intros [[ps nd'] ->]. reflexivity. Qed.

Lemma small_nonces cid h : tx_header cid h → vh_Nonce h < MaxUint64.
Proof.
  intros (id & self & tx & E & <-). unfold AsTransaction in E. cbn [dag_json toy_data] in E.
  destruct (String.eqb cid "tx1"); [injection E as <-; reflexivity|]. destruct (String.eqb cid "tx2"); [injection E as <-; reflexivity|]. done.
Qed.

Definition chain0 : chain MockLedgerDb MockActionsDb := mkChain node0 ∅ [].
Definition chain1 : chain MockLedgerDb MockActionsDb := mkChain (after block1 node0) ({["hive1"]} ∪ ∅) ([] ++ (tp_TxId <$> from_option fst [] (block_ExecuteTx apply0 block1 node0))).
Definition chain2 : chain MockLedgerDb MockActionsDb :=
  mkChain (after block2 (ch_node chain1)) ({["hive2"]} ∪ ch_blocks chain1)
    (ch_run chain1 ++ (tp_TxId <$> from_option fst [] (block_ExecuteTx apply0 block2 (ch_node chain1)))).

Lemma returns1 : is_Some (block_ExecuteTx apply0 block1 node0).
Proof. apply (bool_decide_unpack _). vm_compute. exact I. Qed.

Lemma returns2 : is_Some (block_ExecuteTx apply0 block2 (after block1 node0)).
Proof. apply (bool_decide_unpack _). vm_compute. exact I. Qed.

Lemma chain_reached : rtc chain_step chain0 chain2.
Proof.
  eapply rtc_l; [|apply rtc_once].
  - apply (step_block chain0 apply0 block1); [|reflexivity|intros cid h _; apply small_nonces|exact (block_returns _ _ returns1)].
    apply (bool_decide_unpack _). vm_compute. exact I.
  - apply (step_block chain1 apply0 block2); [|reflexivity|intros cid h _; apply small_nonces|exact (block_returns _ _ returns2)].
    apply (bool_decide_unpack _). vm_compute. exact I.
Qed.


(** A second post of the block by its witness, as [hive9], that gives the id of the
    first one as its own: the node takes it for the block it has applied, and runs
    the transaction again. *)
Definition forged : json := payload_of [("Self", JObj [("TxId", JStr "hive1")])] "block1".

Example forged_self_replays :
  (λ r, (r.1.1.1, run_ids r.1.1.2 (after block1 node0))) <$>
    produce_block policy0 schedule0 elections0 (hive_tx "hive9" 1256) "a" (Some forged) no_faults empty_db = Some (BlockValid, ["tx1"]) ∧
  (λ r, (r.1.1.1, run_ids r.1.1.2 (after block1 node0))) <$>
    produce_block policy0 schedule0 elections0 (hive_tx "hive9" 1256) "a" (Some (payload_of [] "block1")) no_faults empty_db = Some (BlockValid, []).
Proof. split; vm_compute; reflexivity. Qed.

(** One without authorities stops every node. *)
Example forged_self_stops :
  (λ r, (r.1.1.1, block_ExecuteTx apply0 r.1.1.2 node0)) <$>
    produce_block policy0 schedule0 elections0 (hive_tx "hive9" 1256) "a" (Some (payload_of [("Self", JObj [("RequiredAuths", JArr [])])] "block1"))
      no_faults empty_db = Some (BlockValid, None).
Proof. vm_compute. reflexivity. Qed.

(** ** A crash *)

(** All entries are applied and the nonce is written; then the node stops. *)
Definition crashed : option (node MockLedgerDb MockActionsDb) := block_crash apply0 block1 "block1" "a" 4 1 0 node0.

Definition resumed : node MockLedgerDb MockActionsDb :=
  from_option (λ nd, mkNode (nd_headers nd) (nd_txs nd) (nd_nonces nd) (nd_outputs nd) (nd_tss nd) (NewEmptyState (ls_LedgerDb (nd_ledger nd)) (λ _ _, None))
    (nd_actions nd) (nd_markers nd) (mkSlot ∅ ∅ ∅ ∅ [] 0 []) []) node0 crashed.

Lemma settles idx rec h nd : settle_entry apply0 idx rec h (nd : node MockLedgerDb MockActionsDb) ≠ None.
Proof.
  unfold settle_entry. cbn [ae_settle apply0 fst snd]. unfold applyPendulumSettlement. cbv zeta.
  assert (bool_decide (validatePendulumSettlement no_committee rec ≠ None) = true) as ->.
  { apply bool_decide_eq_true_2. unfold validatePendulumSettlement. cbn [sv_election no_committee]. by repeat case_match. }
  destruct (_ <=? _); [discriminate|]. destruct (negb _); discriminate.
Qed.

Definition entries1 : list (nat * VscBlockTx) := [(0%nat, mkVscBlockTx "tx1" 1); (1%nat, mkVscBlockTx "tx1" 1); (2%nat, mkVscBlockTx "out1" 2); (3%nat, mkVscBlockTx "log1" 4)].

Lemma block1_well_listed : well_listed (ae_version apply0) block1 entries1.
Proof.
  split.
  - reflexivity.
  - intros idx e cid _ _. cbn. destruct (String.eqb _ _); [discriminate|]. intros [= ->]. reflexivity.
  - intros idx e cid tx Hin (Hty & Hp & Htx). unfold entries1 in Hin. rewrite !elem_of_cons, elem_of_nil in Hin.
    destruct_or! Hin; try done; injection Hin as -> ->; try discriminate Hty; injection Hp as <-; vm_compute in Htx; injection Htx as <-.
    all: split_and!; [reflexivity|reflexivity|]; intros v Hv; vm_compute in Hv; apply list_elem_of_singleton in Hv as ->; intros n Hn;
      vm_compute in Hn; discriminate Hn.
  - intros idx e cid o idx' e' Hin Hty Hp Ho Hin' Hty'. injection Ho as <-. unfold entries1 in Hin, Hin'. rewrite !elem_of_cons, elem_of_nil in Hin, Hin'.
    destruct_or! Hin; try done; injection Hin as -> ->; try discriminate Hty. injection Hp as <-. cbn.
    destruct_or! Hin'; try done; injection Hin' as -> ->; try discriminate Hty'; apply (bool_decide_unpack _); vm_compute; exact I.
Qed.

Lemma crash_returns : crashed = Some (default node0 crashed).
Proof. assert (is_Some crashed) as [nd ->] by (apply (bool_decide_unpack _); vm_compute; exact I). reflexivity. Qed.

Lemma resumed_db : nd_txs resumed = nd_txs (default node0 crashed) ∧ nd_nonces resumed = nd_nonces (default node0 crashed).
Proof. unfold resumed. generalize crashed. intros [nd|]; split; reflexivity. Qed.

Lemma no_anchors : anchors_in ∅ (nd_txs node0).
Proof. intros id r x Hr. cbn in Hr. rewrite lookup_empty in Hr. discriminate Hr. Qed.

Lemma reapply_same_witness : ∃ nd3, block_ExecuteTx apply0 block1 resumed = Some (from_option fst [] (block_ExecuteTx apply0 block1 node0), nd3).
Proof.
  exact (reapply_same apply0 apply0 block1 ∅ "block1" "a" [] 4 1 0 node0 _ (after block1 node0) (default node0 crashed) resumed
    eq_refl eq_refl eq_refl eq_refl eq_refl eq_refl (not_elem_of_empty _) no_anchors block1_well_listed settles (block_returns _ _ returns1)
    crash_returns (proj1 resumed_db) (proj2 resumed_db)).
Defined.

(** A limit of credits the database cannot store: the first application runs the
    transaction, the one after the crash does not. *)
Definition big_rc : json :=
  JObj [("headers", JObj [("nonce", JNum "7"); ("required_auths", JArr [JStr "did:key:alice"]); ("rc_limit", JNum "9223372036854775808")]); ("tx", JArr [])].

Definition big_data : BlockData := {|
  dag_block cid := mkVscBlock [mkVscBlockTx "tx1" 1] None None;
  dag_size _ := 100;
  dag_json cid := Some big_rc;
  as_output _ _ := None;
  as_oplog _ _ := None;
  as_settlement _ := None;
  as_reverse _ := None;
|}.

Definition ids_of (r : option (list TxPacket * node MockLedgerDb MockActionsDb)) : list string := from_option (λ r, tp_TxId <$> r.1) [] r.

Example unstorable_lost :
  let run := @block_ExecuteTx _ _ _ _ _ big_data _ _ apply0 block1 in
  ids_of (run node0) = ["tx1"] ∧
  ids_of (@block_crash _ _ _ _ _ big_data _ _ apply0 block1 "block1" "a" 1 1 0 node0 ≫= run) = [].
Proof. split; vm_compute; reflexivity. Qed.
